(* ===== verification/_CoqProject ===== *)
-Q . S2P
Prelude.v
RustStr.v
ShellSyntax.v
ShellLex.v
ShellParse.v
ShellLexFacts.v
ShellParseFacts.v
ShellQuote.v
BTreeMap.v
Expansion.v
ExpansionFacts.v
VfsTypes.v
VfsPath.v
VfsIface.v
MemVfs.v
MemVfsTree.v
MemVfsInv.v
MemVfsView.v
MemVfsOps.v
MemVfsFiles.v
MemVfsSystem.v
MountVfs.v
MountFacts.v
FileLaws.v
MemMount.v
SandboxFs.v
SandboxFsFacts.v
SandboxFsFrame.v
Output.v
JsGlobals.v
JqArgs.v
Redirects.v
RedirectsFacts.v
ShellBuiltins.v
ShellSpec.v
VfsSpec.v
SandboxSpec.v
Utf8.v
Streams.v
LineReader.v
StreamFacts.v
TextLines.v
TextLinesFacts.v
TextCountFacts.v
TextSort.v
FileCmds.v
FileFacts.v
RemoveFacts.v
TextMatch.v
TextFacts.v
MatchFacts.v
FilesSpec.v
TextSpec.v
Exec.v
ExecFacts.v
Pipeline.v
PipelineFacts.v
ExecSpec.v
S3Types.v
S3Vfs.v
S3Bucket.v
S3Scope.v
S3Laws.v
S3Stage.v
S3Listing.v
S3Handles.v
S3System.v
S3Fake.v
S3Spec.v
LocalVfs.v
LocalLaws.v
LocalWalk.v
LocalInv.v
LocalPaths.v
LocalHandles.v
LocalOpen.v
LocalSystem.v
LocalFake.v
LocalScope.v
LocalSpec.v
