(* ===== verification/Prelude.v ===== *)
(** * tinysandbox: a verified model of the shell front end, the virtual
      filesystems, the filesystem facade, the execution engine and the builtin
      commands of the sandbox

    tinysandbox runs shell scripts in a process-local sandbox.  A script is
    lexed and parsed (src/src/shell), its words are expanded under a byte budget
    (src/src/sandbox/expansion.rs), and its commands see a virtual filesystem:
    backends that implement the trait [Vfs] (src/src/vfs/mod.rs), mounted side by
    side (src/src/vfs/mount.rs), behind a facade that resolves paths, serves
    [/bin], admits open files against shared and per-execution limits and gives
    everything back when an execution ends (src/src/sandbox/fs.rs, control.rs,
    pools.rs).  The backends are memory (src/src/vfs/mem.rs), S3 (src/src/vfs/s3.rs)
    and a directory of the host (src/src/vfs/local.rs).  An engine runs the commands (src/src/sandbox/mod.rs),
    many of them built in (src/src/sandbox/builtins.rs).  Output is captured up to a
    limit; JavaScript globals and the command line of jq are checked before use
    (src/src/sandbox/mod.rs, jq_protocol.rs).

    ** Conventions

    This file holds what all components share: the result type [outcome] of Rust
    code ([Ok], [Err], [Panic] for a failed slice, [expect] or an overflow,
    [OutOfFuel] for an unfinished loop), the state and error monad [ST] with the
    notations [let?] and [let!], the weakest precondition [wp] with its rules and
    the tactic [wp_steps], machine integers as [Z] with checked, saturating and
    wrapping operations written out at their width, and generic lemmas.  A theorem
    [wp m s Q R] says that [m] run in [s] returns, without panic and without
    running out of fuel, with a success that satisfies [Q] or an error that
    satisfies [R].  [leaves m s Q P] speaks of the state that is left in any case, a
    panic included, and [ends P m s Q R] is [wp m s Q R] for a method that may also
    panic, in a state that satisfies [P].

    ** Files and what they model

    - RustStr: characters as code points, strings as lists of them with UTF-8
      byte positions, so that slicing off a character boundary is a panic; the
      string functions of the standard library the source uses.  Utf8: decoding
      with replacement.  BTreeMap: the ordered map with string keys.
    - ShellSyntax (shell/mod.rs), ShellLex (lex.rs), ShellParse (parse.rs): the
      syntax tree and error messages, every scanning function, the recursive
      descent parser.  ShellLexFacts, ShellParseFacts: totality, positions and
      well-formedness.  ShellQuote: POSIX quoting, read back through lexer
      and parser.
    - Expansion (sandbox/expansion.rs): expansion of a simple command with field
      splitting and the budget.  ExpansionFacts relates it to an independent
      definition of POSIX field splitting and to the memory retained, and reads
      quoted arguments back.
    - VfsTypes, VfsIface (vfs/mod.rs): errors, metadata, open modes; the trait as a
      record of operations, and what clients rely on as the type classes
      [VfsLaws], [FdLaws] and [RoomLaws]; [OwnerLaws] is what is left of [FdLaws] for
      a client that shares the handles with others.  VfsPath (path.rs): path normalization.
      FileLaws: a second interface, [FileLaws], of a filesystem that holds files,
      with which file a path or a handle means, what it contains, and what opening,
      reading, writing, cutting and closing do to that.
    - MemVfs (vfs/mem.rs): the state of the in-memory backend (directory tree,
      files with link and handle counts, handle table, counters) and every
      operation of it, snapshots included.  MemVfsTree, MemVfsInv, MemVfsView:
      measures of trees, the invariant [Inv], and the tree as a partial map from
      paths to objects, in which the operations are specified.  MemVfsOps,
      MemVfsFiles: one specification per operation, which for a write or a cut says
      when it panics ([overlong]: no quota refuses a length that a vector cannot
      have) and which quotas rule that out ([addressable]).  MemVfsSystem: snapshots,
      sequences of requests and their reachable states, those after a panic included.
    - MountVfs (vfs/mount.rs): routing, handle table, all methods, over any
      backends.  MountFacts: routing and handle allocation; a mounted filesystem of
      lawful backends is lawful.  MemMount: the in-memory backend as an instance of
      both interfaces.
    - S3Types, S3Vfs (vfs/s3.rs): the S3 backend, every method of it, over the
      requests [S3Ops] of an object store.  S3Bucket: the store in memory that its
      tests use.  S3Scope: the requests it makes, over any store.  S3Laws: what an
      object store documents, as the class [S3Laws], in which every request that
      changes something may fail after the change, the one that begins an upload
      included ([stray]); stores that carry out every abort ([ReliableAborts]) or
      always answer the beginning of an upload ([AnsweredCreates]) are classes beside it.  S3Stage: streamed contents in
      buffer and parts; S3Listing: listings, classification, methods on paths;
      S3Handles: methods on one handle; S3System: the invariant of the filesystem, its instances of [FdLaws] and [RoomLaws], drafts.  S3Fake: the
      store in memory obeys [S3Laws], and so does one that loses the answers of
      uploads it begins.
    - LocalVfs (vfs/local.rs): the backend in a directory, every method of it, over
      the system calls [HostOs].  LocalScope: the calls it makes, over any system.
      LocalLaws: what a system documents about the tree below the root, its open
      files and streams of entries, as the class [LocalLaws].  LocalWalk: lookups
      and the walks that measure trees; LocalInv: the invariant; LocalPaths,
      LocalHandles, LocalOpen: methods on paths, on one handle, and [open];
      LocalSystem: the accounts, sequences of calls, instances of [FdLaws] and
      [RoomLaws].  LocalFake: a disk in memory that obeys [LocalLaws], with short
      and interrupted reads and writes.
    - SandboxFs (sandbox/fs.rs, control.rs, pools.rs, limits of command.rs): the
      facade over any [Vfs].  SandboxFsFacts: its paths, the admission invariant
      [FsInvx] for every operation, the chunked read loop.  SandboxFsFrame: which
      handles each operation holds, how much room its opens need, room for the files
      of a command, and a facade beside others on one VFS.
    - Redirects (sandbox/mod.rs): the redirects of a command, with the files opened
      for output shared between the streams.  RedirectsFacts: the handles they hold.
      ShellBuiltins: [cd], [export] and [unset] on the session.
    - Output, JsGlobals (sandbox/mod.rs), JqArgs (jq_protocol.rs): captured output,
      the registry of JavaScript globals, the options of jq.
    - Streams (sandbox/fs.rs, mod.rs): where a command reads and writes: files as
      streams, pipes, captures, redirect files.  LineReader: the reader of lines
      with its limit.  StreamFacts: both keep handles and counters in order.
    - TextLines, TextSort (sandbox/builtins.rs): cat, head, tail, uniq, wc, sort with
      their arguments; TextLinesFacts, TextCountFacts, TextFacts: what they print.
      TextMatch: echo, grep and sed, over a library of regular expressions
      [RegexLib]; MatchFacts: what they print, and that the walk of grep ends.
      FileCmds: ls, mkdir, touch, cp, mv, rm, stat, pwd, which, true, false;
      FileFacts, RemoveFacts: what copying and removing do.
    - Exec (sandbox/mod.rs): programs, and-or lists, pipelines of one command,
      commands with redirects and streams, the result.  ExecFacts: all of it ends
      and gives back what it took, if longer pipelines do.  Pipeline (sandbox/mod.rs):
      pipelines of several commands, whose stages run as tasks that take turns.
      PipelineFacts: they end and give back what they took in any order of turns, and
      what they report.
    - ShellSpec, VfsSpec, S3Spec, LocalSpec, SandboxSpec, ExecSpec, TextSpec, FilesSpec: the
      properties, each with an instance at work.

    ** What the theorems show

    - ShellSpec (C1-C5): quoted arguments arrive unchanged in the argument vector;
      lexer and parser return on every input with positions on character
      boundaries and well-formed trees; expansion is POSIX field splitting and
      stays within its budget.
    - VfsSpec (C6-C11): every request to the in-memory backend is safe in every
      reachable state, but for a length no vector can have when no quota refuses it,
      where it panics and changes nothing; requests change exactly what they should,
      with quotas exact and never exceeded, snapshots restored faithfully, paths normalized by a walk
      that cannot leave the root; mounts of backends with
      quotas that refuse such lengths satisfy the laws of the interface.
    - S3Spec (C12-C19): an open handle of the S3 backend is a draft of its object,
      put whole, at once and conditionally when it closes, or not at all; no upload
      is lost but one whose beginning the store did not answer, and nobody else's is
      touched; requests stay within bucket and prefix
      and a read-only backend changes nothing; the tree shown is that of the keys;
      what failed is final; staging and the number of parts are bounded; and with a
      limit on edited bodies the backend is one the sandbox can rely on.
    - LocalSpec (C20-C25): the backend in a directory is one the sandbox can rely on;
      no call leaves the root, whatever the system answers; the quota counters are
      exact, and found again when the root is reopened; the tree shown is that of
      the host without its links and special files; what is written is read back.
    - SandboxSpec (C26-C28): the open file counters are exact and within limits
      through every success, failure and cancellation; captured output depends only
      on the bytes written; redirects hold the handles they name and no others.
    - ExecSpec (C29-C30): an execution ends and gives back every file, whatever its
      commands do and however the stages of its pipelines interleave; a pipeline
      reports its stages in their order, whatever order they ended in.
    - TextSpec (C31-C35): lines do not depend on how the input is cut; sort and grep
      print the lines they should and sed replaces what matches; scripts of sed are
      read as they were written.
    - FilesSpec (C36-C40): mounted memory implements files; what is written is read
      back; cp copies; rm and the walk of grep end on every tree.

    Each of these files also holds further theorems about its part that are not
    numbered.

    ** Fuel

    Loops that are not structural take fuel, and the totality theorems show that
    what callers give them is enough: a lexer loop gets one unit more than the
    input has bytes and consumes a byte per turn; a parser loop gets one more than
    there are tokens; the depth check of [rename] gets twice the size of the
    subtree and one; the handle allocator of a mount gets two more than there are
    open handles, since the numbers it tries are distinct; the read loop gets two
    more than its limit and the write loop one more than the data, since every
    turn but the last moves a byte; the line reader gets three more than its limit
    on lines; the walks of rm and grep are given some fuel that is shown to exist,
    since the tree is that of the backend; [echo] and [sed] take a character or more
    of their text per turn.  In the S3 backend flushing gets one unit more than
    the buffer has bytes, filling a gap three more than the whole parts it needs,
    and the loops over listings as many as [pages] says of the store, an argument
    that is larger than what is left of any listing.  In the backend in a directory
    the walks get [walk], an argument of at least four times the size of the tree,
    and reads and writes one unit more than the bytes and the interruptions that
    the system has in store ([patience]).  A pipeline takes no fuel: the steps of a
    command are data, and what the schedule leaves undone is done stage by stage.

    ** Choices

    One operation runs at a time: the mutex of a backend makes its operations
    atomic, and the facade is modelled per registry, with the open files of the
    other registries that share its counters as parameters.  Cancellation is an
    arbitrary function of the number of times it was looked at, so it can strike
    at any check.  A cleanup job that the source queues for a slow backend, or the
    task of a redirect writer, runs at once.  The handlers of registered commands
    are parameters of the engine, and so are, for the stages of a pipeline, the steps
    between their awaits and the order of their turns; a panic of a stage is caught,
    as the runtime does.  The other end of a pipe is the list of what arrives, or the
    room until it goes away: both are arbitrary, whatever the stage at that end does.  The
    registry of a command is dropped when the command ends, and the timer of an
    execution does not fire first.  A regular expression is what its library says of
    a text: whether it matches, and the ranges of its matches, which follow each
    other.  File data shared between snapshots (copy on
    write) is modelled by value.  Growing a vector to a length above [ISIZE_MAX] panics,
    as [Vec::resize] does; running out of memory below that, which aborts the
    process, is not modelled, and neither is the spare capacity of vectors.  A lock
    that a panic poisoned is taken all the same, so the state such a panic leaves is
    one that later calls start from.  A vector
    that grows by a part of a stream or by bytes already in memory is taken to fit.
    The in-memory sizes of Rust types in the expansion
    budget are parameters.  A handle of the S3 backend is shared by the threads that
    resolved it: its cell stays under its number when the table forgets it, so that
    a call which comes after another thread closed the handle is a call on the cell
    ([S3Call]).  The object store is a parameter: it answers as documented, may fail
    any request, and may carry out a change whose answer is lost.  The operating system
    is a parameter too: the laws suppose what the source supposes, that nobody else
    changes the tree and that it has no hard links, and let every call fail; what
    keeps calls below the root supposes nothing.  Closing a directory has no effect
    and is left out; closing a file frees its inode.

    ** Not modelled

    How the two ends of a pipe meet (the duplex stream of the runtime with its
    capacity and wakers); host contexts and timers; the client of the AWS SDK that answers the requests of the S3 backend; the JavaScript and jq
    runtimes, which embed third-party engines in WebAssembly; the Node bindings. *)

From stdpp Require Export base list list_numbers numbers option gmap.
From stdpp Require Import strings.
From Stdlib Require Export ZArith Lia.

#[global] Open Scope Z_scope.

(** ** Outcomes of Rust code

    A fallible function returns [Ok] or [Err]; [Panic] stands for a slice out of
    range, a failed [expect], an [unreachable!] or an arithmetic overflow;
    [OutOfFuel] stands for a loop that did not finish within the fuel given to
    it.  Totality theorems exclude the last two. *)

Inductive outcome (E A : Type) : Type :=
| Ok (a : A)
| Err (e : E)
| Panic
| OutOfFuel.

Arguments Ok {E A} a.
Arguments Err {E A} e.
Arguments Panic {E A}.
Arguments OutOfFuel {E A}.

#[global] Instance outcome_eq_dec {E A} `{EqDecision E, EqDecision A} :
  EqDecision (outcome E A).
Proof. solve_decision. Defined.

Definition obind {E A B} (m : outcome E A) (k : A -> outcome E B) : outcome E B :=
  match m with
  | Ok a => k a
  | Err e => Err e
  | Panic => Panic
  | OutOfFuel => OutOfFuel
  end.

(** [Option::ok_or]. *)
Definition ok_or {E A} (e : E) (o : option A) : outcome E A :=
  match o with Some a => Ok a | None => Err e end.

(** [Option::expect] and slicing. *)
Definition expect {E A} (o : option A) : outcome E A :=
  match o with Some a => Ok a | None => Panic end.

(** A computation that returns normally: with a value or with an error. *)
Definition returns {E A} (m : outcome E A) : Prop :=
  match m with Ok _ | Err _ => True | Panic | OutOfFuel => False end.

Definition is_ok {E A} (m : outcome E A) : bool :=
  match m with Ok _ => true | _ => false end.

Declare Scope rust_scope.
Delimit Scope rust_scope with rust.

Notation "'let?' x := m 'in' k" := (obind m (fun x => k))
  (at level 10, x pattern, m at level 100, k at level 200) : rust_scope.

#[global] Open Scope rust_scope.

(** ** State passing

    A method behind a [Mutex] reads and updates the state; an error returned
    half way keeps the updates made before it. *)

Definition ST (S E A : Type) : Type := S -> outcome E A * S.

Definition sret {S E A} (a : A) : ST S E A := fun s => (Ok a, s).
Definition sfail {S E A} (e : E) : ST S E A := fun s => (Err e, s).
Definition sbind {S E A B} (m : ST S E A) (k : A -> ST S E B) : ST S E B :=
  fun s =>
    match m s with
    | (Ok a, s') => k a s'
    | (Err e, s') => (Err e, s')
    | (Panic, s') => (Panic, s')
    | (OutOfFuel, s') => (OutOfFuel, s')
    end.
Definition slift {S E A} (m : outcome E A) : ST S E A := fun s => (m, s).
Definition sget {S E} : ST S E S := fun s => (Ok s, s).
Definition sput {S E} (s : S) : ST S E unit := fun _ => (Ok tt, s).

Notation "'let!' x := m 'in' k" := (sbind m (fun x => k))
  (at level 10, x pattern, m at level 100, k at level 200) : rust_scope.

(** [m.map_err(f)]. *)
Definition map_err {S E F A} (f : E -> F) (m : ST S E A) : ST S F A :=
  fun s =>
    match m s with
    | (Ok a, s') => (Ok a, s')
    | (Err e, s') => (Err (f e), s')
    | (Panic, s') => (Panic, s')
    | (OutOfFuel, s') => (OutOfFuel, s')
    end.

(** A call whose result is looked at. *)
Definition attempt {S E F A} (m : ST S E A) : ST S F (outcome E A) :=
  fun s =>
    match m s with
    | (Ok a, s') => (Ok (Ok a), s')
    | (Err e, s') => (Ok (Err e), s')
    | (Panic, s') => (Panic, s')
    | (OutOfFuel, s') => (OutOfFuel, s')
    end.

(** [let _ = m]. *)
Definition ignored {S E F A} (m : ST S E A) : ST S F unit :=
  let! r := attempt m in
  match r with Ok _ | Err _ => sret tt | Panic => slift Panic | OutOfFuel => slift OutOfFuel end.

(** ** 64-bit integers *)

Definition U64_MAX : Z := 2 ^ 64 - 1.
Definition USIZE_MAX : Z := 2 ^ 64 - 1.
(** The bytes a vector can have at most. *)
Definition ISIZE_MAX : Z := 2 ^ 63 - 1.

(** [a.checked_add(b)] on [u64] and [usize]. *)
Definition checked_add (a b : Z) : option Z :=
  if a + b <=? U64_MAX then Some (a + b) else None.

(** [a + b] and [a - b] with overflow checks. *)
Definition u64_add {E} (a b : Z) : outcome E Z := expect (checked_add a b).
Definition u64_sub {E} (a b : Z) : outcome E Z := if b <=? a then Ok (a - b) else Panic.

(** [usize::try_from] and [u64::try_from] on a 64-bit target. *)
Definition usize_try_from {E} (e : E) (n : Z) : outcome E Z :=
  if (0 <=? n) && (n <=? USIZE_MAX) then Ok n else Err e.
Definition u64_try_from {E} (e : E) (n : Z) : outcome E Z :=
  if (0 <=? n) && (n <=? U64_MAX) then Ok n else Err e.

(** Length of a vector as a machine integer. *)
Definition len {A} (l : list A) : Z := Z.of_nat (length l).

(** [v.split_last()] and [v.last_mut()]: the front and the last element. *)
Definition split_last {A} (l : list A) : option (list A * A) :=
  match rev l with
  | [] => None
  | x :: r => Some (rev r, x)
  end.

(** ** Shared lemmas *)

Lemma split_last_Some {A} (l : list A) f x : split_last l = Some (f, x) -> l = f ++ [x].
Proof.
  unfold split_last. destruct (rev l) as [|y r] eqn:H; intros; simplify_eq.
  by rewrite <- (rev_involutive l), H.
Qed.

Lemma split_last_snoc {A} (l : list A) x : split_last (l ++ [x]) = Some (l, x).
Proof. unfold split_last. rewrite rev_app_distr. simpl. by rewrite rev_involutive. Qed.

Lemma split_last_None {A} (l : list A) : split_last l = None <-> l = [].
Proof.
  split; [|by intros ->]. destruct l as [|x l _] using rev_ind; [done|]. by rewrite split_last_snoc.
Qed.

Section outcome_lemmas.
Context {E A B : Type}.

Lemma obind_Ok_inv (m : outcome E A) (k : A -> outcome E B) b :
  obind m k = Ok b -> exists a, m = Ok a /\ k a = Ok b.
Proof. destruct m; naive_solver. Qed.

Lemma obind_returns (m : outcome E A) (k : A -> outcome E B) :
  returns m -> (forall a, m = Ok a -> returns (k a)) -> returns (obind m k).
Proof. destruct m; naive_solver. Qed.

Lemma returns_cases (m : outcome E A) :
  returns m <-> (exists a, m = Ok a) \/ (exists e, m = Err e).
Proof. destruct m; naive_solver. Qed.
End outcome_lemmas.

Lemma len_nonneg {A} (l : list A) : 0 <= len l.
Proof. unfold len. lia. Qed.

Lemma len_app {A} (l k : list A) : len (l ++ k) = len l + len k.
Proof. unfold len. rewrite length_app. lia. Qed.

Lemma checked_add_Some a b c : checked_add a b = Some c <-> c = a + b /\ a + b <= U64_MAX.
Proof. unfold checked_add. case_match; naive_solver lia. Qed.

(** ** Specifications of stateful code

    [wp m s Q R]: started in [s], [m] neither panics nor runs out of fuel; it
    returns a value and a state in [Q], or an error and a state in [R]. *)

Section wp.
Context {S E : Type}.

Definition wp {A} (m : ST S E A) (s : S) (Q : A -> S -> Prop) (R : E -> S -> Prop) : Prop :=
  match m s with
  | (Ok a, s') => Q a s'
  | (Err e, s') => R e s'
  | _ => False
  end.

Lemma wp_ret {A} (a : A) s (Q : A -> S -> Prop) (R : E -> S -> Prop) : Q a s -> wp (sret a) s Q R.
Proof. done. Qed.

Lemma wp_fail {A} e s (Q : A -> S -> Prop) (R : E -> S -> Prop) : R e s -> wp (sfail e) s Q R.
Proof. done. Qed.

Lemma wp_bind {A B} (m : ST S E A) (k : A -> ST S E B) s Q R :
  wp m s (fun a s' => wp (k a) s' Q R) R -> wp (sbind m k) s Q R.
Proof. unfold wp, sbind. by destruct (m s) as [[] ?]. Qed.

Lemma wp_lift {A} (o : outcome E A) s (Q : A -> S -> Prop) (R : E -> S -> Prop) :
  returns o -> (forall a, o = Ok a -> Q a s) -> (forall e, o = Err e -> R e s) ->
  wp (slift o) s Q R.
Proof. unfold wp, slift. destruct o; simpl; auto. Qed.

Lemma wp_get s (Q : S -> S -> Prop) (R : E -> S -> Prop) : Q s s -> wp sget s Q R.
Proof. done. Qed.

Lemma wp_put s' s (Q : unit -> S -> Prop) (R : E -> S -> Prop) : Q tt s' -> wp (sput s') s Q R.
Proof. done. Qed.

Lemma wp_mono {A} (m : ST S E A) s (Q Q' : A -> S -> Prop) (R R' : E -> S -> Prop) :
  wp m s Q R -> (forall a s', Q a s' -> Q' a s') -> (forall e s', R e s' -> R' e s') ->
  wp m s Q' R'.
Proof. unfold wp. destruct (m s) as [[] ?]; auto. Qed.

Lemma wp_conj {A} (m : ST S E A) s (Q Q' : A -> S -> Prop) (R R' : E -> S -> Prop) :
  wp m s Q R -> wp m s Q' R' -> wp m s (fun a s' => Q a s' /\ Q' a s') (fun e s' => R e s' /\ R' e s').
Proof. unfold wp. destruct (m s) as [[a|e| |] s']; auto. Qed.

Lemma wp_u64_sub a b s (Q : Z -> S -> Prop) (R : E -> S -> Prop) :
  b <= a -> Q (a - b) s -> wp (slift (u64_sub a b)) s Q R.
Proof. intros H HQ. unfold wp, slift, u64_sub. by rewrite (proj2 (Z.leb_le b a) H). Qed.

Lemma wp_u64_add a b s (Q : Z -> S -> Prop) (R : E -> S -> Prop) :
  a + b <= U64_MAX -> Q (a + b) s -> wp (slift (u64_add a b)) s Q R.
Proof.
  intros H HQ. unfold wp, slift, u64_add, checked_add.
  by rewrite (proj2 (Z.leb_le (a + b) U64_MAX) H).
Qed.

Lemma wp_u64_try_from e n s (Q : Z -> S -> Prop) (R : E -> S -> Prop) :
  0 <= n <= U64_MAX -> Q n s -> wp (slift (u64_try_from e n)) s Q R.
Proof.
  intros [H1 H2] HQ. unfold wp, slift, u64_try_from.
  by rewrite (proj2 (Z.leb_le 0 n) H1), (proj2 (Z.leb_le n U64_MAX) H2).
Qed.

Lemma wp_some {A} e (o : option A) a s (Q : A -> S -> Prop) (R : E -> S -> Prop) :
  o = Some a -> Q a s -> wp (slift (ok_or e o)) s Q R.
Proof. by intros ->. Qed.

Lemma wp_ok {A} (o : outcome E A) a s (Q : A -> S -> Prop) (R : E -> S -> Prop) :
  o = Ok a -> Q a s -> wp (slift o) s Q R.
Proof. by intros ->. Qed.

Lemma wp_ok_or {A} e (o : option A) s (Q : A -> S -> Prop) (R : E -> S -> Prop) :
  (forall a, o = Some a -> Q a s) -> (o = None -> R e s) -> wp (slift (ok_or e o)) s Q R.
Proof. unfold wp, slift. destruct o; simpl; auto. Qed.

Lemma wp_returns {A} (m : ST S E A) s Q R : wp m s Q R -> returns (m s).1.
Proof. unfold wp. by destruct (m s) as [[] ?]. Qed.

Lemma wp_Ok {A} (m : ST S E A) s Q R a s' : wp m s Q R -> m s = (Ok a, s') -> Q a s'.
Proof. unfold wp. intros H Heq. by rewrite Heq in H. Qed.
End wp.

Lemma wp_map_err {S E F A} (f : E -> F) (m : ST S E A) s (Q : A -> S -> Prop) (R : F -> S -> Prop) :
  wp m s Q (fun e => R (f e)) -> wp (map_err f m) s Q R.
Proof. unfold wp, map_err. by destruct (m s) as [[] ?]. Qed.

Lemma wp_attempted {S E F A} (m : ST S E A) s (Q : outcome E A -> S -> Prop) (R : F -> S -> Prop) :
  wp m s (fun a => Q (Ok a)) (fun e => Q (Err e)) -> wp (attempt m) s Q R.
Proof. unfold wp, attempt. by destruct (m s) as [[] ?]. Qed.

Lemma wp_ignored {S E F A} (m : ST S E A) s (Q : unit -> S -> Prop) (R : F -> S -> Prop) :
  wp m s (fun _ => Q tt) (fun _ => Q tt) -> wp (ignored m) s Q R.
Proof. intros H. unfold ignored. apply wp_bind, wp_attempted. exact H. Qed.

(** The state that [m] leaves, whatever it returns. *)
Lemma wp_post_state {S E A} (m : ST S E A) s (I : S -> Prop) : wp m s (fun _ => I) (fun _ => I) -> I (m s).2.
Proof. unfold wp. by destruct (m s) as [[] ?]. Qed.

(** ** Reasoning about the state a computation leaves

    [leaves m s Q P]: a value of [m] comes with a state in [Q], anything else,
    a panic too, with a state in [P]. *)

Section leaves.
Context {S E : Type}.

Definition leaves {A} (m : ST S E A) (s : S) (Q : A -> S -> Prop) (P : S -> Prop) : Prop :=
  match m s with (Ok a, s') => Q a s' | (_, s') => P s' end.

Lemma leaves_ret {A} (a : A) s (Q : A -> S -> Prop) (P : S -> Prop) : Q a s -> leaves (sret a) s Q P.
Proof. done. Qed.

Lemma leaves_fail {A} e s (Q : A -> S -> Prop) (P : S -> Prop) : P s -> leaves (sfail e) s Q P.
Proof. done. Qed.

Lemma leaves_bind {A B} (m : ST S E A) (k : A -> ST S E B) s Q P :
  leaves m s (fun a s' => leaves (k a) s' Q P) P -> leaves (sbind m k) s Q P.
Proof. unfold leaves, sbind. by destruct (m s) as [[] ?]. Qed.

Lemma leaves_get s (Q : S -> S -> Prop) (P : S -> Prop) : Q s s -> leaves sget s Q P.
Proof. done. Qed.

Lemma leaves_put s' s (Q : unit -> S -> Prop) (P : S -> Prop) : Q tt s' -> leaves (sput s') s Q P.
Proof. done. Qed.

Lemma leaves_lift {A} (o : outcome E A) s (Q : A -> S -> Prop) (P : S -> Prop) :
  (forall a, o = Ok a -> Q a s) -> P s -> leaves (slift o) s Q P.
Proof. unfold leaves, slift. destruct o; auto. Qed.

Lemma leaves_mono {A} (m : ST S E A) s (Q Q' : A -> S -> Prop) (P P' : S -> Prop) :
  leaves m s Q P -> (forall a s', Q a s' -> Q' a s') -> (forall s', P s' -> P' s') -> leaves m s Q' P'.
Proof. unfold leaves. destruct (m s) as [[] ?]; auto. Qed.

Lemma leaves_state {A} (m : ST S E A) s (P : S -> Prop) : leaves m s (fun _ => P) P <-> P (m s).2.
Proof. unfold leaves. by destruct (m s) as [[] ?]. Qed.
End leaves.

Lemma leaves_attempt {S E F A} (m : ST S E A) s (Q : outcome E A -> S -> Prop) (P : S -> Prop) :
  leaves m s (fun a s' => Q (Ok a) s') P -> (forall e s', P s' -> Q (Err e) s') ->
  leaves (attempt (F := F) m) s Q P.
Proof. unfold leaves, attempt. destruct (m s) as [[] ?]; auto. Qed.

Lemma leaves_map_err {W E F A} (f : E -> F) (m : ST W E A) w (Q : A -> W -> Prop) (P : W -> Prop) :
  leaves m w Q P -> leaves (map_err f m) w Q P.
Proof. unfold leaves, map_err. by destruct (m w) as [[] ?]. Qed.

Lemma leaves_ignored {S E F A} (m : ST S E A) s (P : S -> Prop) :
  leaves m s (fun _ => P) P -> leaves (ignored (F := F) m) s (fun _ => P) P.
Proof. unfold leaves, ignored, attempt, sbind. destruct (m s) as [[] ?]; auto. Qed.

Ltac leaves_step :=
  lazymatch goal with
  | |- leaves (sbind _ _) _ _ _ => apply leaves_bind; cbv beta
  | |- leaves sget _ _ _ => apply leaves_get; cbv beta zeta
  | |- leaves (sput _) _ _ _ => apply leaves_put; cbv beta zeta
  | |- leaves (sret _) _ _ _ => apply leaves_ret; cbv beta
  | |- leaves (sfail _) _ _ _ => apply leaves_fail; cbv beta
  | |- leaves (slift _) _ _ _ => apply leaves_lift; cbv beta; [intros ? ?Heq|]
  | |- leaves (if ?b then _ else _) _ _ _ => destruct b eqn:?
  | |- leaves (let _ := _ in _) _ _ _ => cbv zeta
  | |- leaves (match ?x with _ => _ end) _ _ _ => destruct x eqn:?
  end.
Ltac leaves_steps := repeat leaves_step.

(** ** Ending, a panic included

    [ends P m s Q R]: [m] does not run out of fuel, what it returns is in [Q] or
    [R], and a panic leaves a state in [P]. *)

Section ends.
Context {S E : Type} {P : S -> Prop}.

Definition ends {A} (m : ST S E A) (s : S) (Q : A -> S -> Prop) (R : E -> S -> Prop) : Prop :=
  match m s with
  | (Ok a, s') => Q a s'
  | (Err e, s') => R e s'
  | (Panic, s') => P s'
  | (OutOfFuel, _) => False
  end.

Lemma ends_wp {A} (m : ST S E A) s Q R : wp m s Q R -> ends m s Q R.
Proof. unfold wp, ends. by destruct (m s) as [[] ?]. Qed.

Lemma ends_ret {A} (a : A) s (Q : A -> S -> Prop) (R : E -> S -> Prop) : Q a s -> ends (sret a) s Q R.
Proof. done. Qed.

Lemma ends_bind {A B} (m : ST S E A) (k : A -> ST S E B) s Q R :
  ends m s (fun a s' => ends (k a) s' Q R) R -> ends (sbind m k) s Q R.
Proof. unfold ends, sbind. by destruct (m s) as [[] ?]. Qed.

Lemma ends_get s (Q : S -> S -> Prop) (R : E -> S -> Prop) : Q s s -> ends sget s Q R.
Proof. done. Qed.

Lemma ends_put s' s (Q : unit -> S -> Prop) (R : E -> S -> Prop) : Q tt s' -> ends (sput s') s Q R.
Proof. done. Qed.

Lemma ends_mono {A} (m : ST S E A) s (Q Q' : A -> S -> Prop) (R R' : E -> S -> Prop) :
  ends m s Q R -> (forall a s', Q a s' -> Q' a s') -> (forall e s', R e s' -> R' e s') -> ends m s Q' R'.
Proof. unfold ends. destruct (m s) as [[] ?]; auto. Qed.

(** A part that keeps [K] and does not fail, before the rest. *)
Lemma ends_then {A B} (K : S -> Prop) (m : ST S E A) (k : A -> ST S E B) s Q R :
  ends m s (fun _ s' => K s') (fun _ _ => False) -> (forall a s', K s' -> ends (k a) s' Q R) ->
  ends (sbind m k) s Q R.
Proof. intros Hm Hk. apply ends_bind. eapply ends_mono; [exact Hm|auto|done]. Qed.
(** A lifted result that may be a panic. *)
Lemma ends_lift {A} (o : outcome E A) s (Q : A -> S -> Prop) (R : E -> S -> Prop) :
  (forall a, o = Ok a -> Q a s) -> (forall e, o = Err e -> R e s) -> (o = Panic -> P s) -> o <> OutOfFuel ->
  ends (slift o) s Q R.
Proof. unfold ends, slift. destruct o; auto. Qed.

Lemma ends_Ok {A} (m : ST S E A) s Q R a s' : ends m s Q R -> m s = (Ok a, s') -> Q a s'.
Proof. unfold ends. intros H Heq. by rewrite Heq in H. Qed.
End ends.
Arguments ends {S E} P {A}.

(** Where no panic is possible. *)
Lemma ends_never {S E A} {P : S -> Prop} (m : ST S E A) s Q R : ends P m s Q R -> (forall s', ~ P s') -> wp m s Q R.
Proof. unfold wp, ends. intros H HP. destruct (m s) as [[] s']; try done. by apply (HP s'). Qed.

Lemma ends_panics {S E A} {P P' : S -> Prop} (m : ST S E A) s Q R : ends P m s Q R -> (forall s', P s' -> P' s') -> ends P' m s Q R.
Proof. unfold ends. destruct (m s) as [[] s']; auto. Qed.

Create HintDb rust.
#[export] Hint Resolve len_nonneg : rust.

(** ** Tactics *)

(** Split the goal or a hypothesis on every [match] and [if] it contains. *)
Ltac branches :=
  repeat first
    [ progress simplify_eq/=
    | match goal with
      | H : context [match ?x with _ => _ end] |- _ => destruct x eqn:?
      | |- context [match ?x with _ => _ end] => destruct x eqn:?
      end ].

(** Turn the boolean tests of the code into propositions. *)
Ltac unbool :=
  repeat match goal with
  | H : (_ && _)%bool = true |- _ => apply andb_true_iff in H; destruct H
  | H : (_ || _)%bool = false |- _ => apply orb_false_iff in H; destruct H
  | H : negb _ = true |- _ => apply negb_true_iff in H
  | H : negb _ = false |- _ => apply negb_false_iff in H
  | H : (_ <=? _)%Z = true |- _ => apply Z.leb_le in H
  | H : (_ <=? _)%Z = false |- _ => apply Z.leb_gt in H
  | H : (_ <? _)%Z = true |- _ => apply Z.ltb_lt in H
  | H : (_ <? _)%Z = false |- _ => apply Z.ltb_ge in H
  | H : (_ =? _)%Z = true |- _ => apply Z.eqb_eq in H
  | H : (_ =? _)%Z = false |- _ => apply Z.eqb_neq in H
  | H : (_ <=? _)%nat = true |- _ => apply Nat.leb_le in H
  | H : (_ <=? _)%nat = false |- _ => apply Nat.leb_gt in H
  | H : (_ <? _)%nat = true |- _ => apply Nat.ltb_lt in H
  | H : (_ <? _)%nat = false |- _ => apply Nat.ltb_ge in H
  | H : (_ =? _)%nat = true |- _ => apply Nat.eqb_eq in H
  | H : (_ =? _)%nat = false |- _ => apply Nat.eqb_neq in H
  | H : (_ =? _)%N = true |- _ => apply N.eqb_eq in H
  | H : (_ =? _)%N = false |- _ => apply N.eqb_neq in H
  | H : bool_decide _ = true |- _ => apply bool_decide_eq_true in H
  | H : bool_decide _ = false |- _ => apply bool_decide_eq_false in H
  end.

(** Symbolic execution of stateful code up to the next lifted computation. *)
Ltac wp_step :=
  lazymatch goal with
  | |- wp (sbind _ _) _ _ _ => apply wp_bind; cbv beta
  | |- wp sget _ _ _ => apply wp_get; cbv beta zeta
  | |- wp (sput _) _ _ _ => apply wp_put; cbv beta zeta
  | |- wp (sret _) _ _ _ => apply wp_ret; cbv beta
  | |- wp (sfail _) _ _ _ => apply wp_fail; cbv beta
  | |- wp (if ?b then _ else _) _ _ _ => destruct b eqn:?; unbool
  | |- wp (let _ := _ in _) _ _ _ => cbv zeta
  | |- wp (let '(_, _) := ?x in _) _ _ _ => destruct x
  end.
Ltac wp_steps := repeat wp_step.

Ltac ends_step :=
  lazymatch goal with
  | |- ends _ (sbind _ _) _ _ _ => apply ends_bind; cbv beta
  | |- ends _ sget _ _ _ => apply ends_get; cbv beta zeta
  | |- ends _ (sput _) _ _ _ => apply ends_put; cbv beta zeta
  | |- ends _ (sret _) _ _ _ => apply ends_ret; cbv beta
  | |- ends _ (if ?b then _ else _) _ _ _ => destruct b eqn:?; unbool
  | |- ends _ (let _ := _ in _) _ _ _ => cbv zeta
  | |- ends _ (slift Panic) _ _ _ => first [exact Logic.I|assumption]
  end.
Ltac ends_steps := repeat ends_step.
