(* ===== verification/RustStr.v ===== *)
(** * Rust characters and strings

    A [char] is its code point, a [&str] the list of its characters.  Byte
    offsets, as the lexer and the parser use them, are recovered from the UTF-8
    width of each character: [get_from s p] is [s.get(p..)], which is [None]
    when [p] is past the end or inside a character. *)

From stdpp Require Import strings.
From Stdlib Require Import Ascii String.
From S2P Require Import Prelude.

#[local] Open Scope nat_scope.

Abbreviation char := N (only parsing).
Abbreviation str := (list N) (only parsing).

Definition ch (a : ascii) : char := N_of_ascii a.
Definition lit (s : string) : str := List.map N_of_ascii (list_ascii_of_string s).

Definition isc (c : char) (a : ascii) : bool := (c =? ch a)%N.
(** [matches!(c, 'x' | 'y' | ...)]. *)
Definition is_any (c : char) (l : list ascii) : bool := existsb (isc c) l.

#[global] Arguments ch : simpl never.
#[global] Arguments isc : simpl never.
#[global] Arguments is_any : simpl never.

Definition NUL : ascii := "000".
Definition TAB : ascii := "009".
Definition NL : ascii := "010".
Definition CR : ascii := "013".
Definition QUOTE : ascii := "'".
Definition DQUOTE : ascii := "034".
Definition BACKSLASH : ascii := "\".

Definition in_range (lo hi : ascii) (c : char) : bool := ((ch lo <=? c) && (c <=? ch hi))%N.
Definition is_ascii_digit (c : char) : bool := in_range "0" "9" c.
Definition is_ascii_alphabetic (c : char) : bool := in_range "a" "z" c || in_range "A" "Z" c.
Definition is_ascii_alphanumeric (c : char) : bool := is_ascii_alphabetic c || is_ascii_digit c.

(** [char::len_utf8]. *)
Definition len_utf8 (c : char) : nat :=
  if (c <? 128)%N then 1 else if (c <? 2048)%N then 2 else if (c <? 65536)%N then 3 else 4.

(** [str::len]: the number of bytes. *)
Fixpoint blen (s : str) : nat :=
  match s with [] => 0 | c :: s' => len_utf8 c + blen s' end.

(** [s.get(pos..)]. *)
Fixpoint get_from (s : str) (pos : nat) : option str :=
  match pos with
  | O => Some s
  | _ => match s with
         | [] => None
         | c :: s' => if len_utf8 c <=? pos then get_from s' (pos - len_utf8 c) else None
         end
  end.

(** The first [n] bytes of [s], on a character boundary. *)
Fixpoint take_bytes (s : str) (n : nat) : option str :=
  match n with
  | O => Some []
  | _ => match s with
         | [] => None
         | c :: s' => if len_utf8 c <=? n
                      then option_map (cons c) (take_bytes s' (n - len_utf8 c)) else None
         end
  end.

(** [&s[a..b]], [None] where Rust panics. *)
Definition slice (s : str) (a b : nat) : option str :=
  if a <=? b then
    match get_from s a with Some r => take_bytes r (b - a) | None => None end
  else None.

Fixpoint starts_with (s p : str) {struct p} : bool :=
  match p with
  | [] => true
  | c :: p' => match s with [] => false | d :: s' => (c =? d)%N && starts_with s' p' end
  end.

Definition contains (s : str) (c : char) : bool := existsb (N.eqb c) s.

(** [s.find(pat)] for a string pattern: the byte offset of its first occurrence. *)
Fixpoint find_str (s p : str) : option nat :=
  if starts_with s p then Some 0
  else match s with
       | [] => None
       | c :: s' => option_map (Nat.add (len_utf8 c)) (find_str s' p)
       end.

(** [s.split(c)] collected: always at least one piece. *)
Fixpoint split (c : char) (s : str) : list str :=
  match s with
  | [] => [[]]
  | d :: s' =>
      if (d =? c)%N then [] :: split c s'
      else match split c s' with
           | [] => [[d]]
           | p :: ps => (d :: p) :: ps
           end
  end.

(** [v.join(sep)]. *)
Fixpoint join (sep : str) (l : list str) : str :=
  match l with
  | [] => []
  | [p] => p
  | p :: ps => p ++ sep ++ join sep ps
  end.

(** [s.trim_start_matches(c)] and [s.trim_end_matches(c)] for a character. *)
Fixpoint trim_start_char (c : char) (s : str) : str :=
  match s with
  | [] => []
  | x :: s' => if (x =? c)%N then trim_start_char c s' else s
  end.
Definition trim_end_char (c : char) (s : str) : str := rev (trim_start_char c (rev s)).


(** [Ord for str]: UTF-8 keeps the order of code points, so comparing bytes is
    comparing code points. *)
Fixpoint str_compare (a b : str) : comparison :=
  match a, b with
  | [], [] => Eq
  | [], _ :: _ => Lt
  | _ :: _, [] => Gt
  | x :: a', y :: b' => match (x ?= y)%N with Eq => str_compare a' b' | o => o end
  end.

(** ** Byte offsets *)

Lemma len_utf8_pos c : 1 <= len_utf8 c.
Proof. unfold len_utf8. repeat case_match; lia. Qed.

Lemma isc_spec c a : isc c a = true <-> c = ch a.
Proof. unfold isc. apply N.eqb_eq. Qed.

Lemma isc_len c a : isc c a = true -> (N_of_ascii a <? 128)%N = true -> len_utf8 c = 1.
Proof. intros ->%isc_spec H. unfold len_utf8, ch. by rewrite H. Qed.

Lemma blen_app a b : blen (a ++ b) = blen a + blen b.
Proof. induction a as [|c a IH]; simpl; lia. Qed.

Lemma get_from_0 s : get_from s 0 = Some s.
Proof. by destruct s. Qed.

Lemma get_from_nil p r : get_from [] p = Some r -> p = 0 /\ r = [].
Proof. destruct p; naive_solver. Qed.

(** A successful [get_from] splits the string. *)
Lemma get_from_split s p r :
  get_from s p = Some r <-> exists pre, s = pre ++ r /\ blen pre = p.
Proof.
  revert p. induction s as [|c s IH]; intros p; split.
  - intros [-> ->]%get_from_nil. exists []. done.
  - intros (pre & Hs & <-). symmetry in Hs. apply app_eq_nil in Hs as [-> ->]. done.
  - destruct p as [|p]; simpl.
    + intros [= <-]. by exists [].
    + destruct (len_utf8 c <=? S p) eqn:Hn; [|done]. unbool.
      intros (pre & -> & Hp)%IH. exists (c :: pre). simpl. split; [done|lia].
  - intros ([|d pre] & Hs & <-); simpl in *; simplify_eq/=.
    + done.
    + pose proof (len_utf8_pos d).
      destruct (len_utf8 d + blen pre) as [|q] eqn:Hq; [lia|]. rewrite <- Hq.
      replace (len_utf8 d <=? len_utf8 d + blen pre) with true by (symmetry; apply Nat.leb_le; lia).
      apply IH. exists pre. split; [done|lia].
Qed.

Lemma get_from_app pre r : get_from (pre ++ r) (blen pre) = Some r.
Proof. apply get_from_split. eauto. Qed.

Lemma get_from_len s p r : get_from s p = Some r -> p + blen r = blen s.
Proof. intros (pre & -> & <-)%get_from_split. rewrite blen_app. lia. Qed.

Lemma get_from_end s : get_from s (blen s) = Some [].
Proof. apply get_from_split. exists s. by rewrite app_nil_r. Qed.

Lemma get_from_add s p r q r' :
  get_from s p = Some r -> get_from r q = Some r' -> get_from s (p + q) = Some r'.
Proof.
  intros (pre & -> & <-)%get_from_split (mid & -> & <-)%get_from_split.
  apply get_from_split. exists (pre ++ mid). rewrite app_assoc, blen_app. done.
Qed.

Lemma get_from_step s p c r : get_from s p = Some (c :: r) -> get_from s (p + len_utf8 c) = Some r.
Proof.
  intros H. eapply get_from_add; [exact H|]. apply get_from_split. exists [c]. simpl.
  split; [done|lia].
Qed.

(** ** Splitting and joining *)

Lemma split_nonempty c s : split c s <> [].
Proof. destruct s; simpl; repeat case_match; done. Qed.

Lemma join_split c s : join [c] (split c s) = s.
Proof.
  induction s as [|d s IH]; [done|].
  assert (split c (d :: s) = if (d =? c)%N then [] :: split c s
    else match split c s with [] => [[d]] | p :: ps => (d :: p) :: ps end) as -> by done.
  destruct (split c s) as [|p ps] eqn:Hs; [by apply split_nonempty in Hs|].
  destruct (d =? c)%N eqn:Hd; unbool.
  - subst d. change (join [c] ([] :: p :: ps)) with (c :: join [c] (p :: ps)). by rewrite IH.
  - rewrite <- IH. by destruct ps.
Qed.

Lemma split_no_sep c s : Forall (fun p => contains p c = false) (split c s).
Proof.
  induction s as [|d s IH]; simpl; [by repeat constructor|].
  destruct (d =? c)%N eqn:Hd; [by constructor|].
  destruct (split c s) as [|p ps]; [by apply Forall_singleton; simpl; rewrite N.eqb_sym, Hd|].
  apply Forall_cons in IH as [Hp Hps]. constructor; [|done]. simpl. by rewrite N.eqb_sym, Hd.
Qed.

(** ** Decimal numbers *)

(** [n.to_string()] for an unsigned integer. *)
Fixpoint digits (fuel : nat) (n : N) (acc : str) : str :=
  match fuel with
  | O => acc
  | S fuel =>
      let acc := (48 + n mod 10)%N :: acc in
      if (n / 10 =? 0)%N then acc else digits fuel (n / 10)%N acc
  end.
Definition N_to_string (n : N) : str := digits (S (N.size_nat n)) n [].

(** [n.to_string()] for a signed integer. *)
Definition Z_to_string (z : Z) : str :=
  if (z <? 0)%Z then ch "-" :: N_to_string (Z.to_N (- z)) else N_to_string (Z.to_N z).

Definition digit_value (c : char) : option Z :=
  if is_ascii_digit c then Some (Z.of_N c - 48)%Z else None.

Fixpoint dec_value (s : str) (acc : Z) : option Z :=
  match s with
  | [] => Some acc
  | c :: s' => match digit_value c with Some d => dec_value s' (acc * 10 + d)%Z | None => None end
  end.

(** [s.parse::<T>()] for an unsigned type whose maximum is [max]: an optional
    [+], then at least one digit, no overflow. *)
Definition parse_unsigned (max : Z) (s : str) : option Z :=
  let digits := match s with c :: s' => if isc c "+" then s' else s | [] => s end in
  match digits with
  | [] => None
  | _ => match dec_value digits 0 with
         | Some v => if (v <=? max)%Z then Some v else None
         | None => None
         end
  end.
Definition U32_MAX : Z := 4294967295.
Definition parse_u32 : str -> option Z := parse_unsigned U32_MAX.

Lemma starts_with_app s p : starts_with s p = true <-> exists r, s = p ++ r.
Proof.
  revert s. induction p as [|c p IH]; intros s; simpl.
  - split; [intros _; by exists s|done].
  - destruct s as [|d s]; [split; [done|by intros [r [=]]]|].
    rewrite andb_true_iff, N.eqb_eq, IH. split.
    + intros [-> [r ->]]. by exists r.
    + intros [r [= -> ->]]. split; [done|]. by exists r.
Qed.

Lemma starts_with_prefix p r : starts_with (p ++ r) p = true.
Proof. induction p as [|c p IH]; simpl; [done|]. by rewrite N.eqb_refl. Qed.
