(* ===== verification/ShellSyntax.v ===== *)
(** * Shell syntax trees, parse errors and their messages (src/src/shell/mod.rs) *)

From Stdlib Require Import String.
From S2P Require Import Prelude RustStr.

#[local] Open Scope nat_scope.

(** ** Words *)

Inductive Segment :=
| Literal (value : str) (quoted : bool)
| Expansion (name : str) (quoted : bool).

Record Word := mkWord { segments : list Segment }.

(** ** Redirects *)

Inductive RedirectOp := Read | Write | Append.

Inductive RedirectTarget :=
| TargetWord (w : Word)
| TargetFd (fd : Z).

Record Redirect := mkRedirect {
  redirect_fd : option Z;
  redirect_op : RedirectOp;
  redirect_target : RedirectTarget
}.

(** ** Commands *)

Record Assignment := mkAssignment { assignment_name : str; assignment_value : Word }.

Record SimpleCommand := mkSimpleCommand {
  assignments : list Assignment;
  words : list Word;
  redirects : list Redirect
}.

Inductive Command := Simple (c : SimpleCommand).

Record Pipeline := mkPipeline { commands : list Command }.

Inductive AndOrOp := And | Or.

Record AndOr := mkAndOr { and_or_op : AndOrOp; and_or_pipeline : Pipeline }.

Record AndOrList := mkAndOrList { first : Pipeline; rest : list AndOr }.

Record Program := mkProgram { lists : list AndOrList }.

(** ** Errors *)

Inductive QuoteKind := Single | Double.

Inductive UnsupportedConstruct :=
| Glob | CommandSubstitution | Backticks | Background | Subshell | BraceExpansion
| Heredoc | TildeExpansion | ParameterExpansion | RedirectFdDup | AnsiCString
| LocaleTranslation | AppendAssignment | PipelineNegation.

Inductive ParseErrorKind :=
| UnexpectedEof (expected : string)
| UnexpectedToken (expected found : string)
| MissingRedirectTarget
| UnterminatedQuote (quote : QuoteKind)
| UnterminatedEscape
| UnterminatedBracedExpansion
| InvalidParameterExpansion
| InvalidFileDescriptor
| AmbiguousRedirect
| Unsupported (construct : UnsupportedConstruct).

Record ParseError := mkParseError { position : nat; kind : ParseErrorKind }.

#[global] Instance Segment_eq_dec : EqDecision Segment.
Proof. solve_decision. Defined.
#[global] Instance Word_eq_dec : EqDecision Word.
Proof. solve_decision. Defined.
#[global] Instance RedirectOp_eq_dec : EqDecision RedirectOp.
Proof. solve_decision. Defined.

(** ** Messages *)

Definition construct_name (c : UnsupportedConstruct) : string :=
  match c with
  | Glob => "glob pattern"
  | CommandSubstitution => "command substitution"
  | Backticks => "backtick command substitution"
  | Background => "background execution"
  | Subshell => "subshell syntax"
  | BraceExpansion => "brace expansion"
  | Heredoc => "heredoc"
  | TildeExpansion => "tilde expansion"
  | ParameterExpansion => "parameter expansion"
  | RedirectFdDup => "redirect fd duplication"
  | AnsiCString => "ANSI-C quoting"
  | LocaleTranslation => "locale translation quoting"
  | AppendAssignment => "append assignment"
  | PipelineNegation => "pipeline negation"
  end.

Definition kind_message (k : ParseErrorKind) : str :=
  match k with
  | UnexpectedEof expected => lit "expected " ++ lit expected ++ lit ", found end of input"
  | UnexpectedToken expected found =>
      lit "expected " ++ lit expected ++ lit ", found " ++ lit found
  | MissingRedirectTarget => lit "missing redirect target"
  | UnterminatedQuote Single => lit "unterminated single quote"
  | UnterminatedQuote Double => lit "unterminated double quote"
  | UnterminatedEscape => lit "unterminated escape"
  | UnterminatedBracedExpansion => lit "unterminated braced parameter expansion"
  | InvalidParameterExpansion => lit "invalid or unsupported parameter expansion"
  | InvalidFileDescriptor => lit "invalid file descriptor"
  | AmbiguousRedirect => lit "ambiguous redirect"
  | Unsupported c => lit "unsupported " ++ lit (construct_name c)
  end.

(** [impl Display for ParseError]. *)
Definition error_message (e : ParseError) : str :=
  lit "parse error at byte " ++ N_to_string (N.of_nat (position e)) ++ lit ": "
  ++ kind_message (kind e).

Example error_message_ex :
  error_message (mkParseError 7 (UnexpectedToken "word" "pipe"))
  = lit "parse error at byte 7: expected word, found pipe".
Proof. reflexivity. Qed.
