(* ===== verification/ShellLex.v ===== *)
(** * The shell lexer (src/src/shell/lex.rs)

    Every function works on the whole input and a byte offset, as the code
    does.  A [while] loop is a [Fixpoint] on fuel; [lex] and its helpers give
    each loop one more unit of fuel than the input has bytes, which the totality
    theorem shows to be enough. *)

From Stdlib Require Import Ascii String.
From S2P Require Import Prelude RustStr ShellSyntax.

#[local] Open Scope nat_scope.

(** ** Tokens *)

Record RedirectToken := mkRedirectToken {
  rt_fd : option Z;
  rt_op : RedirectOp;
  rt_target_fd : option Z
}.

Inductive TokenKind :=
| TWord (w : Word)
| TPipe
| TAndIf
| TOrIf
| TSemi
| TNewline
| TRedirect (r : RedirectToken).

Record Token := mkToken { token_kind : TokenKind; token_position : nat }.

Definition description (k : TokenKind) : string :=
  match k with
  | TWord _ => "word"
  | TPipe => "`|`"
  | TAndIf => "`&&`"
  | TOrIf => "`||`"
  | TSemi => "`;`"
  | TNewline => "newline"
  | TRedirect _ => "redirect"
  end.

(** ** Character classes *)

Definition is_name_start (c : char) : bool := is_ascii_alphabetic c || isc c "_".
Definition is_name_continue (c : char) : bool := is_ascii_alphanumeric c || isc c "_".
Definition is_rejected_special_parameter (c : char) : bool :=
  is_any c ["$"; "!"; "#"; "*"; "@"; "-"]%char.
Definition is_word_break (c : char) : bool :=
  is_any c [" "; TAB; NL; "|"; "&"; ";"; "<"; ">"]%char.

Definition peek_char (input : str) (position : nat) : option char :=
  match get_from input position with
  | Some (c :: _) => Some c
  | _ => None
  end.

(** [input[position..].starts_with(p)]. *)
Definition starts_with_at (input : str) (position : nat) (p : string)
  : outcome ParseError bool :=
  let? rest := expect (get_from input position) in Ok (starts_with rest (lit p)).

(** The loops [while matches!(peek_char(input, position), Some(c) if p(c))
    { position += step(c) }]. *)
Fixpoint advance_while (p : char -> bool) (step : char -> nat) (fuel : nat)
    (input : str) (position : nat) : outcome ParseError nat :=
  match fuel with
  | O => OutOfFuel
  | S fuel =>
      match peek_char input position with
      | Some c => if p c then advance_while p step fuel input (position + step c)
                  else Ok position
      | None => Ok position
      end
  end.

Definition fuel_for (input : str) : nat := S (blen input).

Definition skip_blanks (input : str) (position : nat) : outcome ParseError nat :=
  advance_while (fun c => is_any c [" "; TAB]%char) len_utf8 (fuel_for input) input position.

Definition skip_comment (input : str) (position : nat) : outcome ParseError nat :=
  advance_while (fun c => negb (isc c NL)) len_utf8 (fuel_for input) input position.

Definition scan_digits (input : str) (position : nat) : outcome ParseError nat :=
  advance_while is_ascii_digit (fun _ => 1) (fuel_for input) input position.

Definition scan_name (input : str) (position : nat) : outcome ParseError nat :=
  advance_while is_name_continue (fun _ => 1) (fuel_for input) input position.

Fixpoint closing_bracket_loop (fuel : nat) (input : str) (cursor : nat)
  : outcome ParseError bool :=
  match fuel with
  | O => OutOfFuel
  | S fuel =>
      match peek_char input cursor with
      | Some c =>
          if isc c "]" then Ok true
          else if is_word_break c then Ok false
          else closing_bracket_loop fuel input (cursor + len_utf8 c)
      | None => Ok false
      end
  end.

Definition has_closing_bracket_before_word_end (input : str) (position : nat)
  : outcome ParseError bool :=
  closing_bracket_loop (fuel_for input) input (position + 1).

(** ** Literals *)

Definition push_literal (segs : list Segment) (literal : str) (quoted : bool) : list Segment :=
  match literal with
  | [] => if quoted then segs ++ [Literal [] quoted] else segs
  | _ => match split_last segs with
         | Some (front, Literal value existing_quoted) =>
             if Bool.eqb existing_quoted quoted
             then front ++ [Literal (value ++ literal) existing_quoted]
             else segs ++ [Literal literal quoted]
         | _ => segs ++ [Literal literal quoted]
         end
  end.

(** Takes the literal and leaves it empty. *)
Definition push_literal_before_expansion (segs : list Segment) (literal : str) (quoted : bool)
  : list Segment * str :=
  match literal with
  | [] => (segs, literal)
  | _ => (push_literal segs literal quoted, [])
  end.

Definition parse_fd (input : str) (start end_ : nat) : outcome ParseError Z :=
  let? text := expect (slice input start end_) in
  ok_or (mkParseError start InvalidFileDescriptor) (parse_u32 text).

(** ** Redirects *)

Definition scan_fd_dup (input : str) (op : RedirectOp) (operator_position next_position : nat)
  : outcome ParseError (Z * nat) :=
  if bool_decide (op <> Write)
  then Err (mkParseError operator_position (Unsupported RedirectFdDup))
  else
    let fd_start := next_position + 1 in
    let? fd_end := scan_digits input fd_start in
    if fd_end =? fd_start
    then Err (mkParseError operator_position (Unsupported RedirectFdDup))
    else
      match peek_char input fd_end with
      | Some c => if negb (is_word_break c)
                  then Err (mkParseError operator_position AmbiguousRedirect)
                  else let? fd := parse_fd input fd_start fd_end in Ok (fd, fd_end)
      | None => let? fd := parse_fd input fd_start fd_end in Ok (fd, fd_end)
      end.

(** The operator at [scan]: its kind and the offset after it; [None] when the
    character is not a redirection operator. *)
Definition scan_redirect_op (input : str) (operator : char) (scan operator_position : nat)
  : outcome ParseError (option (RedirectOp * nat)) :=
  if isc operator "<" then
    let? heredoc := starts_with_at input scan "<<" in
    if heredoc then Err (mkParseError operator_position (Unsupported Heredoc))
    else Ok (Some (Read, scan + 1))
  else if isc operator ">" then
    let? append := starts_with_at input scan ">>" in
    if append then Ok (Some (Append, scan + 2)) else Ok (Some (Write, scan + 1))
  else Ok None.

Definition is_redirect_char (o : option char) : bool :=
  match o with Some c => is_any c ["<"; ">"]%char | None => false end.

Definition scan_redirect (input : str) (position : nat)
  : outcome ParseError (option (RedirectToken * nat)) :=
  let? scan := scan_digits input position in
  let? (fd, operator_position, scan) :=
    (if (position <? scan) && is_redirect_char (peek_char input scan) then
       let? fd := parse_fd input position scan in Ok (Some fd, scan, scan)
     else Ok (None, position, position)) in
  match peek_char input scan with
  | None => Ok None
  | Some operator =>
      let? r := scan_redirect_op input operator scan operator_position in
      match r with
      | None => Ok None
      | Some (op, next_position) =>
          match peek_char input next_position with
          | Some c =>
              if isc c "&" then
                let? (target, fd_end) := scan_fd_dup input op operator_position next_position in
                Ok (Some (mkRedirectToken fd op (Some target), fd_end))
              else Ok (Some (mkRedirectToken fd op None, next_position))
          | None => Ok (Some (mkRedirectToken fd op None, next_position))
          end
      end
  end.

(** ** Expansions *)

Definition scan_braced_expansion (input : str) (position : nat) (quoted : bool)
    (segs : list Segment) (literal : str) : outcome ParseError (nat * list Segment * str) :=
  let name_start := position + 2 in
  match peek_char input name_start with
  | None => Err (mkParseError position UnterminatedBracedExpansion)
  | Some first =>
      if isc first "?" then
        let close_position := name_start + 1 in
        if bool_decide (peek_char input close_position <> Some (ch "}"))
        then Err (mkParseError position InvalidParameterExpansion)
        else
          let '(segs, literal) := push_literal_before_expansion segs literal quoted in
          Ok (close_position + 1, segs ++ [Expansion (lit "?") quoted], literal)
      else if is_ascii_digit first || is_rejected_special_parameter first
      then Err (mkParseError position (Unsupported ParameterExpansion))
      else if negb (is_name_start first)
      then Err (mkParseError position InvalidParameterExpansion)
      else
        let? name_end := scan_name input (name_start + len_utf8 first) in
        match peek_char input name_end with
        | Some c =>
            if isc c "}" then
              let? name := expect (slice input name_start name_end) in
              if bool_decide (name = lit "_")
              then Err (mkParseError position (Unsupported ParameterExpansion))
              else
                let '(segs, literal) := push_literal_before_expansion segs literal quoted in
                Ok (name_end + 1, segs ++ [Expansion name quoted], literal)
            else Err (mkParseError position InvalidParameterExpansion)
        | None => Err (mkParseError position UnterminatedBracedExpansion)
        end
  end.

Definition scan_expansion (input : str) (position : nat) (quoted : bool)
    (segs : list Segment) (literal : str) : outcome ParseError (nat * list Segment * str) :=
  let next_position := position + 1 in
  match peek_char input next_position with
  | None => Ok (next_position, segs, literal ++ [ch "$"])
  | Some next =>
      if isc next "(" then Err (mkParseError position (Unsupported CommandSubstitution))
      else if isc next QUOTE && negb quoted
      then Err (mkParseError position (Unsupported AnsiCString))
      else if isc next DQUOTE && negb quoted
      then Err (mkParseError position (Unsupported LocaleTranslation))
      else if isc next "{" then scan_braced_expansion input position quoted segs literal
      else if isc next "?" then
        let '(segs, literal) := push_literal_before_expansion segs literal quoted in
        Ok (next_position + 1, segs ++ [Expansion (lit "?") quoted], literal)
      else if is_name_start next then
        let? name_end := scan_name input (next_position + len_utf8 next) in
        let? name := expect (slice input next_position name_end) in
        if bool_decide (name = lit "_")
        then Err (mkParseError position (Unsupported ParameterExpansion))
        else
          let '(segs, literal) := push_literal_before_expansion segs literal quoted in
          Ok (name_end, segs ++ [Expansion name quoted], literal)
      else if is_ascii_digit next || is_rejected_special_parameter next
      then Err (mkParseError position (Unsupported ParameterExpansion))
      else Ok (next_position, segs, literal ++ [ch "$"])
  end.

(** ** Quotes and escapes *)

Fixpoint single_quoted_loop (fuel : nat) (input : str) (quote_position cursor : nat)
    (segs : list Segment) (literal : str) : outcome ParseError (nat * list Segment) :=
  match fuel with
  | O => OutOfFuel
  | S fuel =>
      match peek_char input cursor with
      | Some c =>
          if isc c QUOTE then Ok (cursor + 1, push_literal segs literal true)
          else single_quoted_loop fuel input quote_position (cursor + len_utf8 c) segs
                 (literal ++ [c])
      | None => Err (mkParseError quote_position (UnterminatedQuote Single))
      end
  end.

Definition scan_single_quoted (input : str) (position : nat) (segs : list Segment)
  : outcome ParseError (nat * list Segment) :=
  single_quoted_loop (fuel_for input) input position (position + 1) segs [].

Definition scan_unquoted_escape (input : str) (position : nat) : nat * option char :=
  let next_position := position + 1 in
  match peek_char input next_position with
  | None => (next_position, None)
  | Some next => if isc next NL then (next_position + 1, None)
                 else (next_position + len_utf8 next, Some next)
  end.

Definition scan_double_quoted_escape (input : str) (position : nat) (literal : str)
  : outcome ParseError (nat * str) :=
  let next_position := position + 1 in
  match peek_char input next_position with
  | None => Err (mkParseError position UnterminatedEscape)
  | Some next =>
      if isc next NL then Ok (next_position + 1, literal)
      else
        let literal :=
          if is_any next ["$"; "`"; DQUOTE; BACKSLASH]%char then literal ++ [next]
          else literal ++ [ch BACKSLASH; next] in
        Ok (next_position + len_utf8 next, literal)
  end.

Fixpoint double_quoted_loop (fuel : nat) (input : str) (quote_position cursor : nat)
    (segs : list Segment) (literal : str) (had_content : bool)
  : outcome ParseError (nat * list Segment) :=
  match fuel with
  | O => OutOfFuel
  | S fuel =>
      match peek_char input cursor with
      | Some c =>
          if isc c DQUOTE then
            let segs := if negb (bool_decide (literal = [])) || negb had_content
                        then push_literal segs literal true else segs in
            Ok (cursor + 1, segs)
          else if isc c BACKSLASH then
            let literal_len := blen literal in
            let? (cursor, literal) := scan_double_quoted_escape input cursor literal in
            double_quoted_loop fuel input quote_position cursor segs literal
              (had_content || negb (blen literal =? literal_len))
          else if isc c "$" then
            let? (cursor, segs, literal) := scan_expansion input cursor true segs literal in
            double_quoted_loop fuel input quote_position cursor segs literal true
          else if isc c "`" then Err (mkParseError cursor (Unsupported Backticks))
          else double_quoted_loop fuel input quote_position (cursor + len_utf8 c) segs
                 (literal ++ [c]) true
      | None => Err (mkParseError quote_position (UnterminatedQuote Double))
      end
  end.

Definition scan_double_quoted (input : str) (position : nat) (segs : list Segment)
  : outcome ParseError (nat * list Segment) :=
  double_quoted_loop (fuel_for input) input position (position + 1) segs [] false.

(** ** Words *)

(** The local variables of [scan_word]. *)
Record WordScan := mkWordScan {
  ws_segments : list Segment;
  ws_literal : str;
  ws_cursor : nat;
  ws_had_content : bool;
  ws_last_unquoted_char : option char;
  ws_has_unquoted_equals : bool
}.

Definition tilde_expands (w : WordScan) : bool :=
  (negb (ws_had_content w) && bool_decide (ws_segments w = []) && bool_decide (ws_literal w = []))
  || bool_decide (ws_last_unquoted_char w = Some (ch "="))
  || (bool_decide (ws_last_unquoted_char w = Some (ch ":")) && ws_has_unquoted_equals w).

Fixpoint word_loop (fuel : nat) (input : str) (w : WordScan) : outcome ParseError WordScan :=
  match fuel with
  | O => OutOfFuel
  | S fuel =>
      let cursor := ws_cursor w in
      match peek_char input cursor with
      | None => Ok w
      | Some c =>
          if is_word_break c then Ok w
          else if isc c QUOTE then
            let segs := push_literal (ws_segments w) (ws_literal w) false in
            let? (cursor, segs) := scan_single_quoted input cursor segs in
            word_loop fuel input (mkWordScan segs [] cursor true None (ws_has_unquoted_equals w))
          else if isc c DQUOTE then
            let segs := push_literal (ws_segments w) (ws_literal w) false in
            let? (cursor, segs) := scan_double_quoted input cursor segs in
            word_loop fuel input (mkWordScan segs [] cursor true None (ws_has_unquoted_equals w))
          else if isc c BACKSLASH then
            match scan_unquoted_escape input cursor with
            | (next_position, Some escaped) =>
                let segs := push_literal (ws_segments w) (ws_literal w) false in
                let segs := push_literal segs [escaped] true in
                word_loop fuel input
                  (mkWordScan segs [] next_position true None (ws_has_unquoted_equals w))
            | (next_position, None) =>
                word_loop fuel input
                  (mkWordScan (ws_segments w) (ws_literal w) next_position (ws_had_content w)
                     (ws_last_unquoted_char w) (ws_has_unquoted_equals w))
            end
          else if isc c "$" then
            let? (cursor, segs, literal) :=
              scan_expansion input cursor false (ws_segments w) (ws_literal w) in
            word_loop fuel input
              (mkWordScan segs literal cursor true None (ws_has_unquoted_equals w))
          else if is_any c ["*"; "?"]%char then Err (mkParseError cursor (Unsupported Glob))
          else
            let? bracket_glob :=
              (if isc c "[" then has_closing_bracket_before_word_end input cursor
               else Ok false) in
            if bracket_glob then Err (mkParseError cursor (Unsupported Glob))
            else if isc c "`" then Err (mkParseError cursor (Unsupported Backticks))
            else if is_any c ["("; ")"]%char then Err (mkParseError cursor (Unsupported Subshell))
            else if is_any c ["{"; "}"]%char
            then Err (mkParseError cursor (Unsupported BraceExpansion))
            else if isc c "~" && tilde_expands w
            then Err (mkParseError cursor (Unsupported TildeExpansion))
            else
              word_loop fuel input
                (mkWordScan (ws_segments w) (ws_literal w ++ [c]) (cursor + len_utf8 c) true
                   (Some c) (ws_has_unquoted_equals w || isc c "="))
      end
  end.

Definition scan_word (input : str) (position : nat) : outcome ParseError (option Word * nat) :=
  let? w := word_loop (fuel_for input) input (mkWordScan [] [] position false None false) in
  let segs := push_literal (ws_segments w) (ws_literal w) false in
  if ws_had_content w then Ok (Some (mkWord segs), ws_cursor w) else Ok (None, ws_cursor w).

(** ** The main loop *)

Fixpoint lex_loop (fuel : nat) (input : str) (position : nat) (tokens : list Token)
  : outcome ParseError (list Token) :=
  match fuel with
  | O => OutOfFuel
  | S fuel =>
      if position <? blen input then
        let? position := skip_blanks input position in
        if blen input <=? position then Ok tokens
        else if bool_decide (peek_char input position = Some (ch "#")) then
          let? position := skip_comment input position in
          lex_loop fuel input position tokens
        else
          let? r := scan_redirect input position in
          match r with
          | Some (redirect, next_position) =>
              lex_loop fuel input next_position
                (tokens ++ [mkToken (TRedirect redirect) position])
          | None =>
              let? c := expect (peek_char input position) in
              if isc c NL then
                lex_loop fuel input (position + 1) (tokens ++ [mkToken TNewline position])
              else if isc c ";" then
                lex_loop fuel input (position + 1) (tokens ++ [mkToken TSemi position])
              else if isc c "|" then
                let? double := starts_with_at input position "||" in
                if double
                then lex_loop fuel input (position + 2) (tokens ++ [mkToken TOrIf position])
                else lex_loop fuel input (position + 1) (tokens ++ [mkToken TPipe position])
              else if isc c "&" then
                let? double := starts_with_at input position "&&" in
                if double
                then lex_loop fuel input (position + 2) (tokens ++ [mkToken TAndIf position])
                else Err (mkParseError position (Unsupported Background))
              else if isc c "<" then
                let? heredoc := starts_with_at input position "<<" in
                if heredoc then Err (mkParseError position (Unsupported Heredoc)) else Panic
              else if isc c ">" then Panic
              else
                let? (word, next_position) := scan_word input position in
                match word with
                | Some word =>
                    lex_loop fuel input next_position (tokens ++ [mkToken (TWord word) position])
                | None => lex_loop fuel input next_position tokens
                end
          end
      else Ok tokens
  end.

Definition lex (input : str) : outcome ParseError (list Token) :=
  lex_loop (fuel_for input) input 0 [].

(** ** The behaviours the unit tests of lex.rs pin *)

Example lex_comment_newline :
  option_map (List.map (fun t => description (token_kind t)))
    (match lex (lit "echo a # comment" ++ [ch NL] ++ lit "echo b") with
     | Ok ts => Some ts | _ => None end)
  = Some ["word"; "word"; "newline"; "word"; "word"]%string.
Proof. vm_compute. reflexivity. Qed.

Example lex_quoted_empty :
  lex (ch DQUOTE :: ch DQUOTE :: lit "$X $X")
  = Ok [mkToken (TWord (mkWord [Literal [] true; Expansion (lit "X") false])) 0;
        mkToken (TWord (mkWord [Expansion (lit "X") false])) 5].
Proof. vm_compute. reflexivity. Qed.

Example lex_fd_dup_trailing :
  lex (lit "cmd 2>&1x") = Err (mkParseError 5 AmbiguousRedirect).
Proof. vm_compute. reflexivity. Qed.
