(* ===== verification/ShellParse.v ===== *)
(** * The shell parser (src/src/shell/parse.rs)

    The parser state is the cursor into the token vector; the input and the
    tokens are fixed, so they are parameters of a section.  Each loop gets one
    more unit of fuel than there are tokens (or bytes, for the source scan). *)

From Stdlib Require Import Ascii String.
From S2P Require Import Prelude RustStr ShellSyntax ShellLex.

#[local] Open Scope nat_scope.

Definition is_assignment_name (name : str) : bool :=
  match name with
  | [] => false
  | c :: cs => is_name_start c && forallb is_name_continue cs
  end.

Definition is_source_word_break (c : char) : bool :=
  is_any c [" "; TAB; NL; "|"; "&"; ";"; "<"; ">"]%char.

Definition is_pipeline_negation_word (k : TokenKind) : bool :=
  match k with
  | TWord w => match segments w with
               | [Literal value false] => bool_decide (value = lit "!")
               | _ => false
               end
  | _ => false
  end.

Fixpoint source_position_loop (fuel : nat) (input : str) (cursor literal_byte target_byte : nat)
  : outcome ParseError nat :=
  match fuel with
  | O => OutOfFuel
  | S fuel =>
      match peek_char input cursor with
      | None => Ok cursor
      | Some c =>
          if (literal_byte =? target_byte) || is_source_word_break c then Ok cursor
          else
            let next_position := cursor + len_utf8 c in
            if isc c BACKSLASH
               && bool_decide (peek_char input next_position = Some (ch NL))
            then source_position_loop fuel input (next_position + 1) literal_byte target_byte
            else source_position_loop fuel input next_position (literal_byte + len_utf8 c)
                   target_byte
      end
  end.

Definition source_position_for_unquoted_literal_byte (input : str) (position target_byte : nat)
  : outcome ParseError nat :=
  source_position_loop (fuel_for input) input position 0 target_byte.

Definition assignment_from_word (input : str) (word : Word) (position : nat)
  : outcome ParseError (option Assignment) :=
  match segments word with
  | Literal value false :: others =>
      let? append :=
        (match find_str value (lit "+=") with
         | Some append_index =>
             let? name := expect (slice value 0 append_index) in
             Ok (if is_assignment_name name then Some append_index else None)
         | None => Ok None
         end) in
      match append with
      | Some append_index =>
          let? at_byte := source_position_for_unquoted_literal_byte input position append_index in
          Err (mkParseError at_byte (Unsupported AppendAssignment))
      | None =>
          match find_str value (lit "=") with
          | None => Ok None
          | Some equals_index =>
              let? name := expect (slice value 0 equals_index) in
              if negb (is_assignment_name name) then Ok None
              else
                let? first_value := expect (get_from value (equals_index + 1)) in
                let value_segments :=
                  (if bool_decide (first_value = []) then [] else [Literal first_value false])
                  ++ others in
                Ok (Some (mkAssignment name (mkWord value_segments)))
          end
      end
  | _ => Ok None
  end.

Section parser.
Context (input : str) (tokens : list Token).

Definition peek (cursor : nat) : option Token := tokens !! cursor.

Definition is_eof (cursor : nat) : bool := length tokens <=? cursor.

Definition unexpected {A} (cursor : nat) (expected : string) : outcome ParseError A :=
  match peek cursor with
  | Some token =>
      Err (mkParseError (token_position token)
             (UnexpectedToken expected (description (token_kind token))))
  | None => Err (mkParseError (blen input) (UnexpectedEof expected))
  end.

Definition previous_position (cursor : nat) : nat :=
  match tokens !! (cursor - 1) with
  | Some token => token_position token
  | None => blen input
  end.

(** [consume_if(matches)]: whether a token was consumed, and the cursor. *)
Definition consume_if (matches_ : TokenKind -> bool) (cursor : nat) : bool * nat :=
  match peek cursor with
  | Some token => if matches_ (token_kind token) then (true, cursor + 1) else (false, cursor)
  | None => (false, cursor)
  end.

Definition is_newline (k : TokenKind) : bool := match k with TNewline => true | _ => false end.
Definition is_semi (k : TokenKind) : bool := match k with TSemi => true | _ => false end.
Definition is_pipe (k : TokenKind) : bool := match k with TPipe => true | _ => false end.

Definition parser_fuel : nat := S (length tokens).

Fixpoint newlines_loop (fuel : nat) (cursor : nat) : outcome ParseError nat :=
  match fuel with
  | O => OutOfFuel
  | S fuel =>
      match consume_if is_newline cursor with
      | (true, cursor) => newlines_loop fuel cursor
      | (false, cursor) => Ok cursor
      end
  end.
Definition consume_newlines (cursor : nat) : outcome ParseError nat :=
  newlines_loop parser_fuel cursor.

Definition consume_and_or (cursor : nat) : option (AndOrOp * nat) :=
  match peek cursor with
  | Some token =>
      match token_kind token with
      | TAndIf => Some (And, cursor + 1)
      | TOrIf => Some (Or, cursor + 1)
      | _ => None
      end
  | None => None
  end.

Definition starts_command (cursor : nat) : bool :=
  match peek cursor with
  | Some token => match token_kind token with TWord _ | TRedirect _ => true | _ => false end
  | None => false
  end.

Definition parse_redirect (redirect : RedirectToken) (cursor : nat)
  : outcome ParseError (Redirect * nat) :=
  match rt_target_fd redirect with
  | Some fd => Ok (mkRedirect (rt_fd redirect) (rt_op redirect) (TargetFd fd), cursor)
  | None =>
      match peek cursor with
      | Some (mkToken (TWord word) _) =>
          Ok (mkRedirect (rt_fd redirect) (rt_op redirect) (TargetWord word), cursor + 1)
      | _ => Err (mkParseError (previous_position cursor) MissingRedirectTarget)
      end
  end.

(** The loop of [parse_command]; [saw] is [saw_element]. *)
Fixpoint command_loop (fuel : nat) (cursor : nat) (asg : list Assignment) (ws : list Word)
    (rds : list Redirect) (saw : bool)
  : outcome ParseError (SimpleCommand * bool * nat) :=
  match fuel with
  | O => OutOfFuel
  | S fuel =>
      match peek cursor with
      | Some token =>
          match token_kind token with
          | TWord word =>
              let cursor := cursor + 1 in
              match ws with
              | [] =>
                  let? a := assignment_from_word input word (token_position token) in
                  match a with
                  | Some assignment => command_loop fuel cursor (asg ++ [assignment]) ws rds true
                  | None => command_loop fuel cursor asg (ws ++ [word]) rds true
                  end
              | _ => command_loop fuel cursor asg (ws ++ [word]) rds true
              end
          | TRedirect redirect =>
              let? (r, cursor) := parse_redirect redirect (cursor + 1) in
              command_loop fuel cursor asg ws (rds ++ [r]) true
          | _ => Ok (mkSimpleCommand asg ws rds, saw, cursor)
          end
      | None => Ok (mkSimpleCommand asg ws rds, saw, cursor)
      end
  end.

Definition parse_command (expected : string) (cursor : nat)
  : outcome ParseError (Command * nat) :=
  if negb (starts_command cursor) then unexpected cursor expected
  else
    match peek cursor with
    | Some token =>
        if is_pipeline_negation_word (token_kind token)
        then Err (mkParseError (token_position token) (Unsupported PipelineNegation))
        else
          let? (c, saw_element, cursor) := command_loop parser_fuel cursor [] [] [] false in
          if negb saw_element then unexpected cursor expected else Ok (Simple c, cursor)
    | None =>
        let? (c, saw_element, cursor) := command_loop parser_fuel cursor [] [] [] false in
        if negb saw_element then unexpected cursor expected else Ok (Simple c, cursor)
    end.

Fixpoint pipeline_loop (fuel : nat) (cursor : nat) (cmds : list Command)
  : outcome ParseError (Pipeline * nat) :=
  match fuel with
  | O => OutOfFuel
  | S fuel =>
      match consume_if is_pipe cursor with
      | (true, cursor) =>
          let? cursor := consume_newlines cursor in
          let? (c, cursor) := parse_command "command after pipe" cursor in
          pipeline_loop fuel cursor (cmds ++ [c])
      | (false, cursor) => Ok (mkPipeline cmds, cursor)
      end
  end.

Definition parse_pipeline (expected : string) (cursor : nat)
  : outcome ParseError (Pipeline * nat) :=
  let? (c, cursor) := parse_command expected cursor in
  pipeline_loop parser_fuel cursor [c].

Fixpoint and_or_loop (fuel : nat) (cursor : nat) (p : Pipeline) (others : list AndOr)
  : outcome ParseError (AndOrList * nat) :=
  match fuel with
  | O => OutOfFuel
  | S fuel =>
      match consume_and_or cursor with
      | Some (op, cursor) =>
          let? cursor := consume_newlines cursor in
          let? (q, cursor) :=
            parse_pipeline
              (match op with And => "command after `&&`" | Or => "command after `||`" end)%string
              cursor in
          and_or_loop fuel cursor p (others ++ [mkAndOr op q])
      | None => Ok (mkAndOrList p others, cursor)
      end
  end.

Definition parse_and_or_list (cursor : nat) : outcome ParseError (AndOrList * nat) :=
  let? (p, cursor) := parse_pipeline "command" cursor in
  and_or_loop parser_fuel cursor p [].

Fixpoint program_loop (fuel : nat) (cursor : nat) (ls : list AndOrList)
  : outcome ParseError Program :=
  match fuel with
  | O => OutOfFuel
  | S fuel =>
      if negb (is_eof cursor) then
        let? (l, cursor) := parse_and_or_list cursor in
        let ls := ls ++ [l] in
        match consume_if is_semi cursor with
        | (true, cursor) =>
            let? cursor := consume_newlines cursor in
            if is_eof cursor then Ok (mkProgram ls) else program_loop fuel cursor ls
        | (false, cursor) =>
            match consume_if is_newline cursor with
            | (true, cursor) =>
                let? cursor := consume_newlines cursor in
                program_loop fuel cursor ls
            | (false, cursor) =>
                if negb (is_eof cursor) then unexpected cursor "`;`, newline, or end of input"
                else program_loop fuel cursor ls
            end
        end
      else Ok (mkProgram ls)
  end.

Definition parse_program : outcome ParseError Program :=
  let? cursor := consume_newlines 0 in
  program_loop parser_fuel cursor [].
End parser.

Definition parse (input : str) : outcome ParseError Program :=
  let? tokens := lex input in parse_program input tokens.

(** ** The behaviours the unit tests of parse.rs pin *)

Example parse_append_assignment :
  parse (lit "VAR+=x") = Err (mkParseError 3 (Unsupported AppendAssignment)).
Proof. vm_compute. reflexivity. Qed.

Example parse_bare_assignment :
  parse (lit "VAR=x")
  = Ok (mkProgram [mkAndOrList (mkPipeline [Simple (mkSimpleCommand
      [mkAssignment (lit "VAR") (mkWord [Literal (lit "x") false])] [] [])]) []]).
Proof. vm_compute. reflexivity. Qed.

Example parse_escaped_equals_is_a_word :
  parse (lit "a\=b")
  = Ok (mkProgram [mkAndOrList (mkPipeline [Simple (mkSimpleCommand []
      [mkWord [Literal (lit "a") false; Literal (lit "=") true; Literal (lit "b") false]] [])]) []]).
Proof. vm_compute. reflexivity. Qed.
