(* ===== verification/ShellLexFacts.v ===== *)
(** * Facts about the shell lexer

    A small program logic for the scanners: [post input Q m] says that [m]
    neither panics nor runs out of fuel, that an error it reports is located on
    a character boundary of the input, and that a value it returns satisfies
    [Q].  Each scanner gets one such specification. *)

From Stdlib Require Import Ascii String Sorted.
From S2P Require Import Prelude RustStr ShellSyntax ShellLex ShellParse.

#[local] Open Scope nat_scope.
#[local] Arguments push_literal : simpl never.
#[local] Arguments push_literal_before_expansion : simpl never.
#[local] Arguments fuel_for : simpl never.

(** ** Boundaries *)

Definition boundary (input : str) (p : nat) : Prop := is_Some (get_from input p).

Definition post {A} (input : str) (Q : A -> Prop) (m : outcome ParseError A) : Prop :=
  match m with
  | Ok a => Q a
  | Err e => boundary input (position e)
  | Panic | OutOfFuel => False
  end.

Lemma post_bind {A B} input (Q : A -> Prop) (Q' : B -> Prop) m k :
  post input Q m -> (forall a, Q a -> post input Q' (k a)) -> post input Q' (obind m k).
Proof. destruct m; naive_solver. Qed.

Lemma post_mono {A} input (Q Q' : A -> Prop) m :
  post input Q m -> (forall a, Q a -> Q' a) -> post input Q' m.
Proof. destruct m; naive_solver. Qed.

Lemma post_returns {A} input (Q : A -> Prop) m : post input Q m -> returns m.
Proof. by destruct m. Qed.

Lemma boundary_le input p : boundary input p -> p <= blen input.
Proof. intros [r H]. apply get_from_len in H. lia. Qed.

Lemma boundary_0 input : boundary input 0.
Proof. exists input. apply get_from_0. Qed.

Lemma peek_get input p c :
  peek_char input p = Some c <-> exists r, get_from input p = Some (c :: r).
Proof. unfold peek_char. split; [|intros [r ->]; done]. repeat case_match; naive_solver. Qed.

Lemma peek_boundary input p c : peek_char input p = Some c -> boundary input p.
Proof. intros [r H]%peek_get. by eexists. Qed.

Lemma peek_next input p c : peek_char input p = Some c -> boundary input (p + len_utf8 c).
Proof. intros [r H]%peek_get. eexists. by eapply get_from_step. Qed.

Lemma peek_lt input p c : peek_char input p = Some c -> p + len_utf8 c <= blen input.
Proof. intros H%peek_next%boundary_le. done. Qed.

Lemma peek_None input p : boundary input p -> peek_char input p = None -> p = blen input.
Proof.
  intros [[|c r] H]; unfold peek_char; rewrite H; [|done]. intros _.
  apply get_from_len in H. simpl in H. lia.
Qed.

(** An ASCII character is one byte wide. *)
Lemma peek_isc input p c a :
  peek_char input p = Some c -> isc c a = true -> (N_of_ascii a <? 128)%N = true ->
  boundary input (p + 1) /\ p + 1 <= blen input.
Proof.
  intros Hp Hc Ha. pose proof (isc_len _ _ Hc Ha) as Hl.
  pose proof (peek_next _ _ _ Hp) as H. rewrite Hl in H. split; [done|by apply boundary_le].
Qed.

Lemma is_any_In c l : is_any c l = true <-> exists a, a ∈ l /\ c = ch a.
Proof.
  unfold is_any. rewrite existsb_exists. split.
  - intros (a & Ha & Hc%isc_spec). exists a. by rewrite list_elem_of_In.
  - intros (a & Ha & Hc). exists a. by rewrite <- list_elem_of_In, isc_spec.
Qed.

(** ** Loops over a class of characters *)

(** What [advance_while] skipped: the longest run of the class. *)
Definition run_of (p : char -> bool) (input : str) (start stop : nat) : Prop :=
  exists mid r,
    get_from input start = Some (mid ++ r) /\ stop = start + blen mid
    /\ get_from input stop = Some r /\ forallb p mid = true
    /\ match r with c :: _ => p c = false | [] => True end.

Lemma advance_while_post p step input fuel start :
  (forall c, p c = true -> step c = len_utf8 c) ->
  boundary input start -> blen input < fuel + start ->
  post input (run_of p input start) (advance_while p step fuel input start).
Proof.
  intros Hstep. revert start. induction fuel as [|fuel IH]; intros start Hb Hf.
  { apply boundary_le in Hb. lia. }
  simpl. destruct (peek_char input start) as [c|] eqn:Hp; [destruct (p c) eqn:Hc|]; simpl.
  - rewrite (Hstep _ Hc). pose proof (len_utf8_pos c).
    eapply post_mono; [apply IH; [by eapply peek_next|lia]|].
    intros stop (mid & r & Hg & -> & Hg' & Hm & Hr).
    apply peek_get in Hp as [r' Hp]. pose proof (get_from_step _ _ _ _ Hp).
    exists (c :: mid), r. simplify_eq. simpl. rewrite Hc, Hm.
    replace (start + (len_utf8 c + blen mid)) with (start + len_utf8 c + blen mid) by lia. done.
  - apply peek_get in Hp as [r Hp]. exists [], (c :: r). simpl.
    rewrite Nat.add_0_r. done.
  - destruct Hb as [[|c r] Hb]; [|unfold peek_char in Hp; by rewrite Hb in Hp].
    exists [], []. simpl. rewrite Nat.add_0_r. done.
Qed.

Lemma run_of_boundary p input a b : run_of p input a b -> boundary input b /\ a <= b.
Proof. intros (mid & r & _ & -> & H & _). split; [by eexists|lia]. Qed.

Lemma take_bytes_app mid r : take_bytes (mid ++ r) (blen mid) = Some mid.
Proof.
  induction mid as [|c mid IH]; simpl; [by destruct r|].
  pose proof (len_utf8_pos c). destruct (len_utf8 c + blen mid) as [|n] eqn:Hn; [lia|].
  rewrite <- Hn. replace (len_utf8 c <=? len_utf8 c + blen mid) with true
    by (symmetry; apply Nat.leb_le; lia).
  replace (len_utf8 c + blen mid - len_utf8 c) with (blen mid) by lia. by rewrite IH.
Qed.

Lemma slice_run input a mid r :
  get_from input a = Some (mid ++ r) -> slice input a (a + blen mid) = Some mid.
Proof.
  intros H. unfold slice. replace (a <=? a + blen mid) with true by (symmetry; apply Nat.leb_le; lia).
  rewrite H. replace (a + blen mid - a) with (blen mid) by lia. apply take_bytes_app.
Qed.

Lemma in_range_len lo hi c : (ch hi <? 128)%N = true -> in_range lo hi c = true -> len_utf8 c = 1.
Proof.
  unfold in_range, len_utf8. rewrite N.ltb_lt, andb_true_iff, !N.leb_le. intros.
  replace (c <? 128)%N with true by (symmetry; apply N.ltb_lt; lia). done.
Qed.

Lemma digit_len c : is_ascii_digit c = true -> 1 = len_utf8 c.
Proof. intros H. symmetry. by eapply in_range_len, H. Qed.

Lemma name_continue_len c : is_name_continue c = true -> 1 = len_utf8 c.
Proof.
  unfold is_name_continue, is_ascii_alphanumeric, is_ascii_alphabetic.
  rewrite !orb_true_iff. intros [[[H|H]|H]|H]; symmetry;
    [by eapply in_range_len, H..|by eapply isc_len].
Qed.

Lemma skip_blanks_post input p :
  boundary input p -> post input (run_of (fun c => is_any c [" "%char; TAB]) input p) (skip_blanks input p).
Proof. intros. apply advance_while_post; [done..|]. unfold fuel_for. lia. Qed.

Lemma skip_comment_post input p :
  boundary input p -> post input (run_of (fun c => negb (isc c NL)) input p) (skip_comment input p).
Proof. intros. apply advance_while_post; [done..|]. unfold fuel_for. lia. Qed.

Lemma scan_digits_post input p :
  boundary input p -> post input (run_of is_ascii_digit input p) (scan_digits input p).
Proof. intros. apply advance_while_post; [apply digit_len|done|]. unfold fuel_for. lia. Qed.

Lemma scan_name_post input p :
  boundary input p -> post input (run_of is_name_continue input p) (scan_name input p).
Proof. intros. apply advance_while_post; [apply name_continue_len|done|]. unfold fuel_for. lia. Qed.

Create HintDb lexer.
#[export] Hint Resolve peek_next peek_boundary boundary_0 : lexer.

(** ** Redirects *)

Lemma starts_with_at_post input p l :
  boundary input p ->
  post input (fun b => b = true -> boundary input (p + blen (lit l))) (starts_with_at input p l).
Proof.
  intros [r H]. unfold starts_with_at. rewrite H. simpl. intros [r' ->]%starts_with_app.
  eexists. eapply get_from_add; [exact H|apply get_from_app].
Qed.

Lemma parse_fd_post input a b :
  run_of is_ascii_digit input a b -> post input (fun _ => True) (parse_fd input a b).
Proof.
  intros (mid & r & H & -> & _). unfold parse_fd. rewrite (slice_run _ _ _ _ H). simpl.
  destruct (parse_u32 mid); simpl; [done|]. by eexists.
Qed.

Lemma scan_fd_dup_post input op operator_position next :
  boundary input operator_position -> boundary input (next + 1) ->
  post input (fun '(_, e) => boundary input e /\ next < e)
    (scan_fd_dup input op operator_position next).
Proof.
  intros Ho Hn. unfold scan_fd_dup. case_bool_decide; [done|].
  eapply post_bind; [by apply scan_digits_post|]. intros e Hr.
  pose proof (run_of_boundary _ _ _ _ Hr) as [He Hle].
  destruct (e =? next + 1) eqn:?; [done|]. unbool.
  assert (post input (fun '(_, e) => boundary input e /\ next < e)
            (let? fd := parse_fd input (next + 1) e in Ok (fd, e))).
  { eapply post_bind; [by apply parse_fd_post|]. intros fd _. simpl. split; [done|lia]. }
  repeat case_match; done.
Qed.

Definition redirect_char (c : char) : Prop := isc c "<" = true \/ isc c ">" = true.

Lemma redirect_char_spec c : is_any c ["<"; ">"]%char = true <-> redirect_char c.
Proof. unfold redirect_char, is_any. simpl. rewrite !orb_true_iff. naive_solver. Qed.

Lemma scan_redirect_op_post input c scan operator_position :
  peek_char input scan = Some c -> boundary input operator_position ->
  post input (fun r => match r with
                       | Some (_, next) => boundary input next /\ scan < next
                       | None => ~ redirect_char c
                       end)
    (scan_redirect_op input c scan operator_position).
Proof.
  intros Hp Ho. unfold scan_redirect_op. pose proof (peek_boundary _ _ _ Hp) as Hb.
  destruct (isc c "<") eqn:Hl; [|destruct (isc c ">") eqn:Hg].
  - eapply post_bind; [by apply starts_with_at_post|]. intros [] _; simpl; [done|].
    destruct (peek_isc _ _ _ _ Hp Hl eq_refl). split; [done|lia].
  - eapply post_bind; [by apply starts_with_at_post|]. intros [] H; simpl.
    + specialize (H eq_refl). simpl in H. split; [done|lia].
    + destruct (peek_isc _ _ _ _ Hp Hg eq_refl). split; [done|lia].
  - simpl. unfold redirect_char. rewrite Hl, Hg. naive_solver.
Qed.

Lemma scan_redirect_post input p :
  boundary input p ->
  post input (fun r => match r with
                       | Some (_, next) => boundary input next /\ p < next
                       | None => forall c, peek_char input p = Some c -> ~ redirect_char c
                       end)
    (scan_redirect input p).
Proof.
  intros Hb. unfold scan_redirect.
  eapply post_bind; [by apply scan_digits_post|]. intros scan Hr.
  pose proof (run_of_boundary _ _ _ _ Hr) as [Hs Hle].
  apply (post_bind _ (fun '(_, o, s) => boundary input o /\ boundary input s /\ p <= s /\
      (s = p \/ exists c, peek_char input s = Some c /\ redirect_char c))).
  { destruct ((p <? scan) && is_redirect_char (peek_char input scan)) eqn:Hc; [|naive_solver lia].
    unbool. eapply post_bind; [by apply parse_fd_post|]. intros fd _. simpl.
    unfold is_redirect_char in *. case_match; [|done].
    repeat split; [done..|]. right. eexists; split; [done|]. by apply redirect_char_spec. }
  intros [[fd o] s] (Ho & Hsb & Hps & Hcase).
  destruct (peek_char input s) as [c|] eqn:Hp; [|simpl; naive_solver].
  eapply post_bind; [by apply scan_redirect_op_post|]. intros [[op next]|] H; [|naive_solver].
  destruct H as [Hn Hlt]. destruct (peek_char input next) as [d|] eqn:Hd; [|split; [done|lia]].
  destruct (isc d "&") eqn:Hand; [|split; [done|lia]].
  destruct (peek_isc _ _ _ _ Hd Hand eq_refl).
  eapply post_bind; [by apply scan_fd_dup_post|]. intros [t e] [? ?]. simpl. split; [done|lia].
Qed.

(** ** Literals: what a word may contain *)

(** Characters that may appear unquoted in a word: no word break, no quote, no
    escape, and none of the constructs the lexer rejects. *)
Definition plain_char (c : char) : bool :=
  negb (is_word_break c)
  && negb (is_any c [QUOTE; DQUOTE; BACKSLASH; "*"; "?"; "`"; "("; ")"; "{"; "}"]%char).

Definition name_ok (name : str) : Prop :=
  name = lit "?" \/ (is_assignment_name name = true /\ name <> lit "_").

Definition segment_ok (s : Segment) : Prop :=
  match s with
  | Literal _ true => True
  | Literal value false => value <> [] /\ forallb plain_char value = true
  | Expansion name _ => name_ok name
  end.

(** Text about to be pushed with the given quoting. *)
Definition literal_ok (literal : str) (quoted : bool) : Prop :=
  quoted = false -> forallb plain_char literal = true.

Lemma push_literal_ok segs literal quoted :
  Forall segment_ok segs -> literal_ok literal quoted ->
  Forall segment_ok (push_literal segs literal quoted).
Proof.
  intros Hs Hl. unfold literal_ok in Hl. unfold push_literal.
  assert (literal <> [] -> Forall segment_ok (segs ++ [Literal literal quoted])).
  { intros. apply Forall_app; split; [done|]. constructor; [|done].
    destruct quoted; simpl; [done|]. split; [done|]. by apply Hl. }
  destruct literal as [|c l]; [destruct quoted; [|done]; by apply Forall_app; repeat constructor|].
  destruct (split_last segs) as [[front [value eq|name eq]]|] eqn:Hlast; [|auto..].
  destruct (Bool.eqb eq quoted) eqn:He; [|auto]. apply Bool.eqb_prop in He as ->.
  apply split_last_Some in Hlast as ->. apply Forall_app in Hs as [Hf Hv].
  apply Forall_app; split; [done|]. constructor; [|done]. inversion Hv as [|? ? Hv' _]; subst.
  destruct quoted; simpl in *; [done|]. destruct Hv' as [Hne Hall].
  rewrite forallb_app, Hall. split; [by destruct value|]. by apply Hl.
Qed.

Lemma push_literal_nonempty segs literal quoted :
  segs <> [] \/ literal <> [] \/ quoted = true -> push_literal segs literal quoted <> [].
Proof.
  unfold push_literal. intros H.
  repeat case_match; simplify_eq; try (intros []%app_eq_nil; done).
  destruct H as [|[]]; done.
Qed.

Lemma push_before_ok segs literal quoted :
  Forall segment_ok segs -> literal_ok literal quoted ->
  Forall segment_ok (push_literal_before_expansion segs literal quoted).1
  /\ (push_literal_before_expansion segs literal quoted).2 = [].
Proof.
  intros Hs Hl. unfold push_literal_before_expansion.
  destruct literal; simpl; [done|]. split; [|done]. by apply push_literal_ok.
Qed.

(** ** Expansions *)

(** What the scanners keep true of the segments and of the pending literal. *)
Definition scanned (segs : list Segment) (literal : str) (quoted : bool) : Prop :=
  Forall segment_ok segs /\ literal_ok literal quoted.

Lemma scanned_expansion segs literal quoted name :
  scanned segs literal quoted -> name_ok name ->
  let p := push_literal_before_expansion segs literal quoted in
  scanned (p.1 ++ [Expansion name quoted]) p.2 quoted /\ p.1 ++ [Expansion name quoted] <> [].
Proof.
  intros [Hs Hl] Hn p. subst p. destruct (push_before_ok segs literal quoted Hs Hl) as [H1 H2].
  repeat split.
  - apply Forall_app; split; [done|]. by apply Forall_singleton.
  - rewrite H2. by intros _.
  - by intros []%app_eq_nil.
Qed.

Lemma scanned_snoc segs literal quoted c :
  scanned segs literal quoted -> (quoted = false -> plain_char c = true) ->
  scanned segs (literal ++ [c]) quoted.
Proof.
  intros [Hs Hl] Hc. split; [done|]. intros Hq. rewrite forallb_app, (Hl Hq). simpl.
  by rewrite (Hc Hq).
Qed.

Lemma snoc_nonempty {A} (l : list A) x : l ++ [x] <> [].
Proof. by intros []%app_eq_nil. Qed.

Lemma name_start_continue c : is_name_start c = true -> is_name_continue c = true.
Proof.
  unfold is_name_start, is_name_continue, is_ascii_alphanumeric.
  rewrite !orb_true_iff. tauto.
Qed.

(** The name read after a first name character is an assignment name. *)
Lemma scan_name_after input p c e :
  peek_char input p = Some c -> is_name_start c = true ->
  run_of is_name_continue input (p + len_utf8 c) e ->
  exists name, slice input p e = Some name /\ is_assignment_name name = true /\ p < e.
Proof.
  intros [r Hp]%peek_get Hc (mid & r' & Hg & -> & _ & Hm & _).
  pose proof (get_from_step _ _ _ _ Hp) as Hr. simplify_eq.
  exists (c :: mid). simpl. rewrite Hc, Hm. pose proof (len_utf8_pos c).
  split; [|split; [done|lia]]. rewrite <- Nat.add_assoc. by apply (slice_run _ _ (c :: mid) r').
Qed.

Definition expansion_post (input : str) (p : nat) (quoted : bool)
    : nat * list Segment * str -> Prop :=
  fun '(c, segs, literal) =>
    boundary input c /\ p < c /\ scanned segs literal quoted /\ (segs <> [] \/ literal <> []).

Lemma push_expansion_post input p quoted segs literal name c :
  scanned segs literal quoted -> name_ok name -> boundary input c -> p < c ->
  post input (expansion_post input p quoted)
    (let '(segs, literal) := push_literal_before_expansion segs literal quoted in
     Ok (c, segs ++ [Expansion name quoted], literal)).
Proof.
  intros Hs Hn Hc Hp. pose proof (scanned_expansion _ _ _ _ Hs Hn) as H. simpl in H.
  destruct (push_literal_before_expansion segs literal quoted) as [s' l']. simpl in *.
  naive_solver.
Qed.

Lemma scan_braced_expansion_post input p quoted segs literal :
  boundary input p -> boundary input (p + 2) -> scanned segs literal quoted ->
  post input (expansion_post input p quoted)
    (scan_braced_expansion input p quoted segs literal).
Proof.
  intros Hb Hb2 Hs. unfold scan_braced_expansion.
  destruct (peek_char input (p + 2)) as [c|] eqn:Hc; [|done].
  destruct (isc c "?") eqn:Hq.
  { case_bool_decide as Hd; [done|].
    assert (isc (ch "}") "}" = true) as Hx by reflexivity.
    destruct (peek_isc _ _ _ _ Hd Hx eq_refl). apply push_expansion_post; [done| |done|lia]. by left. }
  destruct (is_ascii_digit c || is_rejected_special_parameter c); [done|].
  destruct (is_name_start c) eqn:Hn; [|done]. simpl.
  eapply post_bind; [apply scan_name_post; by eapply peek_next|]. intros e He.
  destruct (scan_name_after _ _ _ _ Hc Hn He) as (name & Hsl & Hname & Hlt).
  destruct (peek_char input e) as [d|] eqn:Hd; [|done].
  destruct (isc d "}") eqn:Hclose; [|done]. rewrite Hsl. simpl.
  case_bool_decide; [done|]. destruct (peek_isc _ _ _ _ Hd Hclose eq_refl).
  apply push_expansion_post; [done|by right|done|lia].
Qed.

Lemma scan_expansion_post input p quoted segs literal :
  boundary input p -> boundary input (p + 1) -> scanned segs literal quoted ->
  post input (expansion_post input p quoted) (scan_expansion input p quoted segs literal).
Proof.
  intros Hb Hb1 Hs. unfold scan_expansion.
  assert (post input (expansion_post input p quoted)
            (Ok (p + 1, segs, literal ++ [ch "$"]))) as Hdollar.
  { simpl. split; [done|]. split; [lia|]. split; [|right; apply snoc_nonempty].
    apply scanned_snoc; [done|]. by intros _. }
  destruct (peek_char input (p + 1)) as [c|] eqn:Hc; [|done].
  destruct (isc c "("); [done|].
  destruct (isc c QUOTE && negb quoted); [done|].
  destruct (isc c DQUOTE && negb quoted); [done|].
  destruct (isc c "{") eqn:Hbr.
  { destruct (peek_isc _ _ _ _ Hc Hbr eq_refl) as [H _]. rewrite <- Nat.add_assoc in H.
    by apply scan_braced_expansion_post. }
  destruct (isc c "?") eqn:Hq.
  { destruct (peek_isc _ _ _ _ Hc Hq eq_refl). apply push_expansion_post; [done| |done|lia]. by left. }
  destruct (is_name_start c) eqn:Hn.
  { eapply post_bind; [apply scan_name_post; by eapply peek_next|]. intros e He.
    destruct (scan_name_after _ _ _ _ Hc Hn He) as (name & Hsl & Hname & Hlt).
    apply run_of_boundary in He as [He _]. rewrite Hsl. simpl. case_bool_decide; [done|].
    apply push_expansion_post; [done|by right|done|lia]. }
  destruct (is_ascii_digit c || is_rejected_special_parameter c); done.
Qed.

(** ** Quotes *)

Definition quoted_post (input : str) (p : nat) : nat * list Segment -> Prop :=
  fun '(c, segs) => boundary input c /\ p < c /\ Forall segment_ok segs /\ segs <> [].

Lemma single_quoted_loop_post input q segs fuel cursor literal :
  boundary input q -> q < cursor -> Forall segment_ok segs ->
  boundary input cursor -> blen input < fuel + cursor ->
  post input (quoted_post input q) (single_quoted_loop fuel input q cursor segs literal).
Proof.
  intros Hq Hlt Hs. revert cursor literal Hlt.
  induction fuel as [|fuel IH]; intros cursor literal Hlt Hb Hf.
  { apply boundary_le in Hb. lia. }
  simpl. destruct (peek_char input cursor) as [c|] eqn:Hc; [|done].
  destruct (isc c QUOTE) eqn:Hx.
  - destruct (peek_isc _ _ _ _ Hc Hx eq_refl). simpl. split; [done|]. split; [lia|].
    split; [by apply push_literal_ok|]. apply push_literal_nonempty. auto.
  - pose proof (len_utf8_pos c). apply IH; [lia|by eapply peek_next|lia].
Qed.

Lemma scan_single_quoted_post input p c segs :
  peek_char input p = Some c -> isc c QUOTE = true -> Forall segment_ok segs ->
  post input (quoted_post input p) (scan_single_quoted input p segs).
Proof.
  intros Hp Hc Hs. destruct (peek_isc _ _ _ _ Hp Hc eq_refl).
  apply single_quoted_loop_post; [by eapply peek_boundary|lia|done..|unfold fuel_for; lia].
Qed.

Lemma scan_double_quoted_escape_post input p literal :
  boundary input p -> boundary input (p + 1) ->
  post input (fun '(c, literal') => boundary input c /\ p < c /\
               exists suffix, literal' = literal ++ suffix)
    (scan_double_quoted_escape input p literal).
Proof.
  intros Hb Hb1. unfold scan_double_quoted_escape.
  destruct (peek_char input (p + 1)) as [c|] eqn:Hc; [|done].
  destruct (isc c NL) eqn:Hnl.
  - destruct (peek_isc _ _ _ _ Hc Hnl eq_refl). simpl. split; [done|]. split; [lia|].
    exists []. by rewrite app_nil_r.
  - simpl. split; [by eapply peek_next|]. split; [lia|]. case_match; by eexists.
Qed.

Lemma blen_nonempty s : 0 < blen s <-> s <> [].
Proof. destruct s as [|c s]; simpl; [naive_solver lia|]. pose proof (len_utf8_pos c). naive_solver lia. Qed.

Lemma double_quoted_loop_post input q fuel cursor segs literal had :
  boundary input q -> q < cursor -> Forall segment_ok segs ->
  (had = true -> segs <> [] \/ literal <> []) ->
  boundary input cursor -> blen input < fuel + cursor ->
  post input (quoted_post input q) (double_quoted_loop fuel input q cursor segs literal had).
Proof.
  intros Hq. revert cursor segs literal had.
  induction fuel as [|fuel IH]; intros cursor segs literal had Hlt Hs Hhad Hb Hf.
  { apply boundary_le in Hb. lia. }
  simpl. destruct (peek_char input cursor) as [c|] eqn:Hc; [|done].
  destruct (isc c DQUOTE) eqn:Hx; [|destruct (isc c BACKSLASH) eqn:Hbs;
    [|destruct (isc c "$") eqn:Hd; [|destruct (isc c "`"); [done|]]]].
  - destruct (peek_isc _ _ _ _ Hc Hx eq_refl). simpl. split; [done|]. split; [lia|].
    destruct (negb (bool_decide (literal = [])) || negb had) eqn:Hp.
    + split; [by apply push_literal_ok|]. apply push_literal_nonempty. auto.
    + unbool. split; [done|]. subst literal. by destruct Hhad.
  - destruct (peek_isc _ _ _ _ Hc Hbs eq_refl).
    eapply post_bind; [by apply scan_double_quoted_escape_post|].
    intros [cur lit'] (Hcur & Hlt' & suffix & ->). apply IH; [lia|done| |done|lia].
    rewrite orb_true_iff, negb_true_iff, Nat.eqb_neq, blen_app. intros [Hh|Hn].
    + destruct (Hhad Hh); [by left|]. right. by intros []%app_eq_nil.
    + right. intros []%app_eq_nil. subst. simpl in Hn. lia.
  - destruct (peek_isc _ _ _ _ Hc Hd eq_refl).
    eapply post_bind; [by apply (scan_expansion_post _ _ true)|].
    intros [[cur s'] l'] (Hcur & Hlt' & [Hs' _] & Hne). apply IH; [lia|done|done|done|lia].
  - pose proof (len_utf8_pos c). apply IH; [lia|done| |by eapply peek_next|lia].
    intros _. right. apply snoc_nonempty.
Qed.

Lemma scan_double_quoted_post input p c segs :
  peek_char input p = Some c -> isc c DQUOTE = true -> Forall segment_ok segs ->
  post input (quoted_post input p) (scan_double_quoted input p segs).
Proof.
  intros Hp Hc Hs. destruct (peek_isc _ _ _ _ Hp Hc eq_refl).
  apply double_quoted_loop_post; [by eapply peek_boundary|lia|done|done|done|unfold fuel_for; lia].
Qed.

(** ** Words *)

Lemma closing_bracket_loop_post input fuel cursor :
  boundary input cursor -> blen input < fuel + cursor ->
  post input (fun _ => True) (closing_bracket_loop fuel input cursor).
Proof.
  revert cursor. induction fuel as [|fuel IH]; intros cursor Hb Hf.
  { apply boundary_le in Hb. lia. }
  simpl. destruct (peek_char input cursor) as [c|] eqn:Hc; [|done].
  destruct (isc c "]"); [done|]. destruct (is_word_break c); [done|].
  pose proof (len_utf8_pos c). apply IH; [by eapply peek_next|lia].
Qed.

Definition word_state_ok (input : str) (w : WordScan) : Prop :=
  boundary input (ws_cursor w) /\ scanned (ws_segments w) (ws_literal w) false
  /\ (ws_had_content w = true -> ws_segments w <> [] \/ ws_literal w <> []).

(** [word_loop] stops at the end of the input or at a word break. *)
Definition word_end (input : str) (p : nat) : Prop :=
  forall c, peek_char input p = Some c -> is_word_break c = true.

Lemma plain_char_intro c :
  is_word_break c = false -> isc c QUOTE = false -> isc c DQUOTE = false ->
  isc c BACKSLASH = false -> is_any c ["*"; "?"]%char = false -> isc c "`" = false ->
  is_any c ["("; ")"]%char = false -> is_any c ["{"; "}"]%char = false -> plain_char c = true.
Proof.
  unfold plain_char, is_any. simpl. intros -> -> -> -> [-> [-> _]%orb_false_iff]%orb_false_iff ->
    [-> [-> _]%orb_false_iff]%orb_false_iff [-> [-> _]%orb_false_iff]%orb_false_iff. done.
Qed.

Lemma word_loop_post input fuel w :
  word_state_ok input w -> blen input < fuel + ws_cursor w ->
  post input (fun w' => word_state_ok input w' /\ ws_cursor w <= ws_cursor w'
                        /\ word_end input (ws_cursor w'))
    (word_loop fuel input w).
Proof.
  revert w. induction fuel as [|fuel IH]; intros w (Hb & [Hs Hl] & Hhad) Hf.
  { apply boundary_le in Hb. lia. }
  assert (forall w1, word_state_ok input w1 -> ws_cursor w < ws_cursor w1 ->
    post input (fun w' => word_state_ok input w' /\ ws_cursor w <= ws_cursor w'
                          /\ word_end input (ws_cursor w')) (word_loop fuel input w1)) as Hrec.
  { intros w1 Hw1 Hlt. eapply post_mono; [apply IH; [done|lia]|]. naive_solver lia. }
  clear IH. simpl.
  assert (Forall segment_ok (push_literal (ws_segments w) (ws_literal w) false)) as Hs'
    by by apply push_literal_ok.
  assert (forall segs c b, Forall segment_ok segs -> segs <> [] -> boundary input c ->
            word_state_ok input (mkWordScan segs [] c true None b)) as Hmk.
  { intros. split; [done|]. split; [by split|]. by left. }
  destruct (peek_char input (ws_cursor w)) as [c|] eqn:Hc; [|simpl; split; [done|]; split; [lia|];
    unfold word_end; by rewrite Hc].
  destruct (is_word_break c) eqn:Hbr; [simpl; split; [done|]; split; [lia|]; unfold word_end;
    rewrite Hc; naive_solver|].
  destruct (isc c QUOTE) eqn:Hq; [|destruct (isc c DQUOTE) eqn:Hdq; [|destruct (isc c BACKSLASH) eqn:Hbs;
    [|destruct (isc c "$") eqn:Hd; [|destruct (is_any c ["*"; "?"]%char) eqn:Hg; [done|]]]]].
  - eapply post_bind; [by eapply scan_single_quoted_post|].
    intros [cur segs] (? & ? & ? & ?). apply Hrec; [by apply Hmk|done].
  - eapply post_bind; [by eapply scan_double_quoted_post|].
    intros [cur segs] (? & ? & ? & ?). apply Hrec; [by apply Hmk|done].
  - destruct (peek_isc _ _ _ _ Hc Hbs eq_refl). unfold scan_unquoted_escape.
    destruct (peek_char input (ws_cursor w + 1)) as [d|] eqn:Hd; [destruct (isc d NL) eqn:Hnl|].
    + destruct (peek_isc _ _ _ _ Hd Hnl eq_refl). apply Hrec; [done|simpl; lia].
    + apply Hrec; [|simpl; lia]. apply Hmk; [by apply push_literal_ok| |by eapply peek_next].
      apply push_literal_nonempty. auto.
    + apply Hrec; [done|simpl; lia].
  - destruct (peek_isc _ _ _ _ Hc Hd eq_refl).
    eapply post_bind; [by apply (scan_expansion_post _ _ false)|].
    intros [[cur s'] l'] (? & ? & ? & ?). by apply Hrec.
  - apply (post_bind _ (fun _ => True)).
    { destruct (isc c "[") eqn:Hbrk; [|done]. apply closing_bracket_loop_post; [|unfold fuel_for; lia].
      by destruct (peek_isc _ _ _ _ Hc Hbrk eq_refl). }
    intros [] _; [done|]. destruct (isc c "`") eqn:?; [done|].
    destruct (is_any c ["("; ")"]%char) eqn:?; [done|].
    destruct (is_any c ["{"; "}"]%char) eqn:?; [done|].
    destruct (isc c "~" && tilde_expands w); [done|].
    pose proof (len_utf8_pos c). apply Hrec; [|simpl; lia]. split; [by eapply peek_next|]. split.
    + apply scanned_snoc; [done|]. intros _. by apply plain_char_intro.
    + intros _. right. apply snoc_nonempty.
Qed.

Definition word_ok (w : Word) : Prop := Forall segment_ok (segments w) /\ segments w <> [].

Lemma scan_word_post input p c :
  peek_char input p = Some c -> is_word_break c = false ->
  post input (fun '(w, next) => boundary input next /\ p < next /\ word_end input next
                /\ match w with Some w => word_ok w | None => True end)
    (scan_word input p).
Proof.
  intros Hp Hc. unfold scan_word.
  eapply post_bind; [apply word_loop_post; [|unfold fuel_for; simpl; lia]|].
  { split; [by eapply peek_boundary|]. done. }
  simpl. intros w ((Hb & Hs & Hhad) & Hle & Hend).
  assert (p < ws_cursor w).
  { destruct (decide (p = ws_cursor w)) as [->|]; [|lia]. apply Hend in Hp. congruence. }
  destruct (ws_had_content w); simpl; [|done]. split; [done|]. split; [done|]. split; [done|].
  destruct Hs as [Hs Hl]. split; [by apply push_literal_ok|]. apply push_literal_nonempty.
  destruct Hhad; auto.
Qed.

(** ** The whole lexer *)

Definition token_ok (input : str) (t : Token) : Prop :=
  boundary input (token_position t) /\ token_position t < blen input
  /\ match token_kind t with TWord w => word_ok w | _ => True end.

(** Tokens lexed up to offset [p]: well formed and in source order. *)
Definition tokens_ok (input : str) (p : nat) (ts : list Token) : Prop :=
  Forall (token_ok input) ts /\ Forall (fun t => token_position t < p) ts
  /\ StronglySorted lt (token_position <$> ts).

Lemma StronglySorted_snoc {A} (R : A -> A -> Prop) l x :
  StronglySorted R l -> Forall (fun y => R y x) l -> StronglySorted R (l ++ [x]).
Proof.
  induction 1 as [|y l Hl IH Hy]; intros H; simpl; [by repeat constructor|].
  apply Forall_cons in H as [? ?]. constructor; [by apply IH|].
  apply Forall_app; split; [done|]. by apply Forall_singleton.
Qed.

Lemma tokens_ok_mono input p q ts : tokens_ok input p ts -> p <= q -> tokens_ok input q ts.
Proof.
  intros (? & H & ?) Hle. split; [done|]. split; [|done]. eapply Forall_impl; [exact H|].
  simpl. lia.
Qed.

Lemma tokens_ok_snoc input p q ts k :
  tokens_ok input p ts -> p < q -> boundary input p -> p < blen input ->
  match k with TWord w => word_ok w | _ => True end ->
  tokens_ok input q (ts ++ [mkToken k p]).
Proof.
  intros (H1 & H2 & H3) Hlt Hb Hp Hk. split; [|split].
  - apply Forall_app; split; [done|]. by apply Forall_singleton.
  - apply Forall_app; split; [|by apply Forall_singleton].
    eapply Forall_impl; [exact H2|]. simpl. lia.
  - rewrite fmap_app. simpl. apply StronglySorted_snoc; [done|]. by apply Forall_fmap.
Qed.

Lemma word_break_false c :
  isc c NL = false -> isc c ";" = false -> isc c "|" = false -> isc c "&" = false ->
  isc c "<" = false -> isc c ">" = false -> is_any c [" "%char; TAB] = false ->
  is_word_break c = false.
Proof.
  unfold is_word_break, is_any. simpl.
  intros -> -> -> -> -> -> [-> [-> _]%orb_false_iff]%orb_false_iff. done.
Qed.

Lemma lex_loop_post input fuel p ts :
  boundary input p -> tokens_ok input p ts -> blen input < fuel + p ->
  post input (fun ts' => tokens_ok input (blen input) ts') (lex_loop fuel input p ts).
Proof.
  revert p ts. induction fuel as [|fuel IH]; intros p0 ts Hb0 Hts Hf0.
  { apply boundary_le in Hb0. lia. }
  simpl. destruct (p0 <? blen input) eqn:Hlt0; unbool;
    [|by eapply tokens_ok_mono; [|apply boundary_le]].
  eapply post_bind; [by apply skip_blanks_post|]. intros p Hrun.
  pose proof (run_of_boundary _ _ _ _ Hrun) as [Hb Hle].
  destruct (blen input <=? p) eqn:Hlt; unbool; [by eapply tokens_ok_mono; [|apply boundary_le]|].
  assert (forall q ts', boundary input q -> tokens_ok input q ts' -> p < q ->
    post input (tokens_ok input (blen input)) (lex_loop fuel input q ts')) as Hrec.
  { intros. apply IH; [done|done|lia]. }
  clear IH. assert (tokens_ok input p ts) as Hts' by by eapply tokens_ok_mono.
  assert (forall k q, match k with TWord w => word_ok w | _ => True end -> boundary input q -> p < q ->
    post input (tokens_ok input (blen input)) (lex_loop fuel input q (ts ++ [mkToken k p]))) as Hpush.
  { intros. apply Hrec; [done| |done]. by eapply tokens_ok_snoc. }
  case_bool_decide as Hhash.
  { eapply post_bind; [by apply skip_comment_post|]. intros q Hq.
    pose proof (run_of_boundary _ _ _ _ Hq) as [Hbq Hleq].
    assert (p < q).
    { destruct Hq as (mid & r & Hg & -> & _ & _ & Hstop).
      apply peek_get in Hhash as [r' Hh]. destruct mid as [|m mid]; simplify_eq/=.
      pose proof (len_utf8_pos (ch "#")). lia. }
    apply Hrec; [done| |done]. eapply tokens_ok_mono; [done|lia]. }
  eapply post_bind; [by apply scan_redirect_post|].
  intros [[rd next]|] Hr; [by apply Hpush; [|apply Hr..]|].
  destruct (peek_char input p) as [c|] eqn:Hc; [|apply peek_None in Hc; [lia|done]]. simpl.
  assert (~ redirect_char c) as Hnr by by apply Hr. unfold redirect_char in Hnr.
  repeat match goal with
  | |- context [if isc c ?a then _ else _] => destruct (isc c a) eqn:?
  end; try tauto.
  - destruct (peek_isc _ _ _ _ Hc Heqb eq_refl). apply Hpush; [done|done|lia].
  - destruct (peek_isc _ _ _ _ Hc Heqb0 eq_refl). apply Hpush; [done|done|lia].
  - destruct (peek_isc _ _ _ _ Hc Heqb1 eq_refl).
    eapply post_bind; [by apply starts_with_at_post|]. intros [] H'; apply Hpush; try done; try lia.
    by apply (H' eq_refl).
  - destruct (peek_isc _ _ _ _ Hc Heqb2 eq_refl).
    eapply post_bind; [by apply starts_with_at_post|]. intros [] H'; [|done].
    apply Hpush; [done| |lia]. by apply (H' eq_refl).
  - assert (is_any c [" "%char; TAB] = false).
    { destruct Hrun as (mid & r & _ & _ & Hg & _ & Hstop).
      apply peek_get in Hc as [r' Hc]. by simplify_eq. }
    eapply post_bind; [eapply scan_word_post; [done|by apply word_break_false]|].
    intros [w next] (Hbn & Hpn & _ & Hw). destruct w as [w|]; [by apply Hpush|].
    apply Hrec; [done| |done]. eapply tokens_ok_mono; [done|lia].
Qed.

Lemma lex_post input : post input (tokens_ok input (blen input)) (lex input).
Proof.
  apply lex_loop_post; [apply boundary_0| |unfold fuel_for; lia].
  repeat split; constructor.
Qed.
