(* ===== verification/ShellParseFacts.v ===== *)
(** * Facts about the shell parser: totality and well-formed results *)

From Stdlib Require Import Ascii String Sorted.
From S2P Require Import Prelude RustStr ShellSyntax ShellLex ShellParse ShellLexFacts.

#[local] Open Scope nat_scope.
#[local] Arguments fuel_for : simpl never.

(** ** Well-formed syntax trees *)

Definition assignment_ok (a : Assignment) : Prop :=
  is_assignment_name (assignment_name a) = true
  /\ Forall segment_ok (segments (assignment_value a)).

Definition redirect_ok (r : Redirect) : Prop :=
  match redirect_target r with TargetWord w => word_ok w | TargetFd _ => True end.

(** [w] is not read as an assignment at the start of a command. *)
Definition not_assignment (w : Word) : Prop :=
  forall input p, assignment_from_word input w p = Ok None.

Definition simple_ok (c : SimpleCommand) : Prop :=
  Forall assignment_ok (assignments c) /\ Forall word_ok (words c)
  /\ Forall redirect_ok (redirects c)
  /\ (assignments c <> [] \/ words c <> [] \/ redirects c <> [])
  /\ match words c with w :: _ => not_assignment w | [] => True end.

Definition command_ok (c : Command) : Prop := match c with Simple s => simple_ok s end.
Definition pipeline_ok (p : Pipeline) : Prop := commands p <> [] /\ Forall command_ok (commands p).
Definition and_or_list_ok (l : AndOrList) : Prop :=
  pipeline_ok (first l) /\ Forall (fun a => pipeline_ok (and_or_pipeline a)) (rest l).
Definition program_ok (p : Program) : Prop := Forall and_or_list_ok (lists p).

(** ** Assignments *)

Lemma find_str_Some s p i :
  find_str s p = Some i -> exists pre r, s = pre ++ p ++ r /\ blen pre = i.
Proof.
  revert i. induction s as [|c s IH]; intros i; simpl;
    destruct (starts_with _ p) eqn:Hst; intros H; simplify_eq.
  - apply starts_with_app in Hst as [r ->]. exists [], r. done.
  - apply starts_with_app in Hst as [r ->]. exists [], r. done.
  - destruct (find_str s p) as [j|] eqn:Hf; simplify_eq/=.
    destruct (IH j eq_refl) as (pre & r & -> & <-). exists (c :: pre), r. done.
Qed.

Lemma slice_prefix pre r : slice (pre ++ r) 0 (blen pre) = Some pre.
Proof. apply (slice_run _ 0 pre r). apply get_from_0. Qed.

Lemma get_from_after pre r c :
  len_utf8 c = 1 -> get_from (pre ++ c :: r) (blen pre + 1) = Some r.
Proof.
  intros Hc. rewrite <- Hc. eapply get_from_step. apply get_from_app.
Qed.

Lemma source_position_loop_post input fuel cursor b t :
  boundary input cursor -> blen input < fuel + cursor ->
  post input (boundary input) (source_position_loop fuel input cursor b t).
Proof.
  revert cursor b. induction fuel as [|fuel IH]; intros cursor b Hb Hf.
  { apply boundary_le in Hb. lia. }
  simpl. destruct (peek_char input cursor) as [c|] eqn:Hc; [|done].
  destruct ((b =? t) || is_source_word_break c); [done|]. pose proof (len_utf8_pos c).
  destruct (isc c BACKSLASH && _) eqn:Hnl.
  - unbool. assert (isc (ch NL) NL = true) as Hx by reflexivity.
    match goal with Hp : peek_char _ _ = Some (ch NL) |- _ =>
      destruct (peek_isc _ _ _ _ Hp Hx eq_refl) end.
    apply IH; [done|lia].
  - apply IH; [by eapply peek_next|lia].
Qed.

Lemma assignment_from_word_post input w p :
  boundary input p -> Forall segment_ok (segments w) ->
  post input (fun o => match o with Some a => assignment_ok a | None => True end)
    (assignment_from_word input w p).
Proof.
  intros Hb Hs. unfold assignment_from_word.
  destruct (segments w) as [|[value []|] others]; [done|done| |done].
  apply Forall_cons in Hs as [[_ Hplain] Hothers].
  apply (post_bind _ (fun _ => True)).
  { destruct (find_str value (lit "+=")) as [i|] eqn:Hf; [|done].
    apply find_str_Some in Hf as (pre & r & -> & <-). by rewrite slice_prefix. }
  intros [i|] _.
  { eapply post_bind; [apply source_position_loop_post; [done|unfold fuel_for; lia]|]. done. }
  destruct (find_str value (lit "=")) as [i|] eqn:Hf; [|done].
  apply find_str_Some in Hf as (pre & r & -> & <-). rewrite slice_prefix. simpl.
  destruct (is_assignment_name pre) eqn:Hn; [|done]. simpl.
  rewrite get_from_after; [|done]. simpl. split; [done|]. simpl.
  rewrite forallb_app in Hplain. simpl in Hplain. unbool.
  case_bool_decide; simpl; [done|]. by constructor.
Qed.

(** The answer [None] does not depend on where the word is. *)
Lemma assignment_from_word_None input w p :
  assignment_from_word input w p = Ok None -> not_assignment w.
Proof.
  unfold not_assignment, assignment_from_word. intros H input' p'.
  destruct (segments w) as [|[value []|] others]; try done.
  destruct (find_str value (lit "+=")) as [i|]; simpl in *; [|done].
  destruct (slice value 0 i) as [name|]; simpl in *; [|done].
  destruct (is_assignment_name name); simpl in *; [|done].
  by destruct (source_position_for_unquoted_literal_byte input p i).
Qed.

(** ** The grammar functions *)

Section parser_facts.
Context (input : str) (tokens : list Token).
Hypothesis Htokens : Forall (token_ok input) tokens.

Lemma peek_ok cursor t : peek tokens cursor = Some t -> token_ok input t /\ cursor < length tokens.
Proof.
  unfold peek. intros H. split; [by eapply Forall_lookup_1|]. by eapply lookup_lt_Some.
Qed.

Lemma unexpected_post {A} (Q : A -> Prop) cursor expected :
  post input Q (unexpected input tokens cursor expected).
Proof.
  unfold unexpected. destruct (peek tokens cursor) eqn:H; simpl.
  - by apply peek_ok in H as [[? _] _].
  - eexists. apply get_from_end.
Qed.

Lemma previous_position_boundary cursor : boundary input (previous_position input tokens cursor).
Proof.
  unfold previous_position. destruct (tokens !! (cursor - 1)) eqn:H.
  - by apply peek_ok in H as [[? _] _].
  - eexists. apply get_from_end.
Qed.

Lemma consume_if_spec m cursor :
  (consume_if tokens m cursor = (true, cursor + 1) /\ cursor < length tokens)
  \/ consume_if tokens m cursor = (false, cursor).
Proof.
  unfold consume_if. destruct (peek tokens cursor) eqn:H; [|by right].
  case_match; [|by right]. left. by apply peek_ok in H as [_ ?].
Qed.

Lemma newlines_loop_post fuel cursor :
  cursor <= length tokens -> length tokens < fuel + cursor ->
  post input (fun c => cursor <= c <= length tokens) (newlines_loop tokens fuel cursor).
Proof.
  revert cursor. induction fuel as [|fuel IH]; intros cursor Hc Hf; [lia|].
  simpl. destruct (consume_if_spec is_newline cursor) as [[-> Hlt]| ->]; [|simpl; lia].
  eapply post_mono; [apply IH; lia|]. simpl. lia.
Qed.

Lemma consume_newlines_post cursor :
  cursor <= length tokens ->
  post input (fun c => cursor <= c <= length tokens) (consume_newlines tokens cursor).
Proof. intros. apply newlines_loop_post; [done|unfold parser_fuel; lia]. Qed.

Lemma parse_redirect_post r cursor :
  cursor <= length tokens ->
  post input (fun '(rd, c) => redirect_ok rd /\ cursor <= c <= length tokens)
    (parse_redirect input tokens r cursor).
Proof.
  intros Hc. unfold parse_redirect. destruct (rt_target_fd r); [done|].
  pose proof (previous_position_boundary cursor).
  destruct (peek tokens cursor) as [[[w| | | | | |] p]|] eqn:Hp; try done.
  apply peek_ok in Hp as [(_ & _ & ?) ?]. simpl. split; [done|lia].
Qed.

Definition partial_ok asg ws rds : Prop :=
  Forall assignment_ok asg /\ Forall word_ok ws /\ Forall redirect_ok rds
  /\ match ws with w :: _ => not_assignment w | [] => True end.

Lemma Forall_snoc_2 {A} (P : A -> Prop) l x : Forall P l -> P x -> Forall P (l ++ [x]).
Proof. intros. apply Forall_app; split; [done|]. by apply Forall_singleton. Qed.

Lemma command_loop_post fuel cursor asg ws rds saw :
  partial_ok asg ws rds -> (saw = true -> asg <> [] \/ ws <> [] \/ rds <> []) ->
  cursor <= length tokens -> length tokens < fuel + cursor ->
  post input (fun '(c, saw', cur) =>
      (saw' = true -> simple_ok c) /\ cursor <= cur <= length tokens
      /\ (saw = false -> saw' = true -> cursor < cur))
    (command_loop input tokens fuel cursor asg ws rds saw).
Proof.
  revert cursor asg ws rds saw. induction fuel as [|fuel IH];
    intros cursor asg ws rds saw Hok Hsaw Hc Hf; [lia|].
  pose proof Hok as (Ha & Hw & Hr & Hnot).
  assert (forall cur asg' ws' rds', partial_ok asg' ws' rds' ->
    asg' <> [] \/ ws' <> [] \/ rds' <> [] -> cursor < cur <= length tokens ->
    post input (fun '(c, saw', cur) =>
      (saw' = true -> simple_ok c) /\ cursor <= cur <= length tokens
      /\ (saw = false -> saw' = true -> cursor < cur))
    (command_loop input tokens fuel cur asg' ws' rds' true)) as Hrec.
  { intros. eapply post_mono; [apply IH; [done|done|lia|lia]|].
    intros [[c s] cur'] (? & ? & ?). naive_solver lia. }
  clear IH. simpl.
  assert (post input (fun '(c, saw', cur) =>
      (saw' = true -> simple_ok c) /\ cursor <= cur <= length tokens
      /\ (saw = false -> saw' = true -> cursor < cur))
      (Ok (mkSimpleCommand asg ws rds, saw, cursor))) as Hstop.
  { simpl. split; [|split; [lia|congruence]]. intros Hs. repeat (split; [done|]).
    split; [by apply Hsaw|done]. }
  destruct (peek tokens cursor) as [[k p]|] eqn:Hp; [|done]. simpl.
  apply peek_ok in Hp as [(Hbp & _ & Hk) Hlt]. simpl in *.
  destruct k as [w| | | | | |r]; try done.
  - destruct ws as [|w0 ws].
    + destruct (assignment_from_word input w p) as [[a|]| | |] eqn:Hasg;
        pose proof (assignment_from_word_post input w p Hbp (proj1 Hk)) as H;
        rewrite Hasg in H; simpl in H |- *; try done.
      * apply Hrec; [|left; apply snoc_nonempty|lia]. split; [by apply Forall_snoc_2|done].
      * apply Hrec; [|right; left; done|lia]. split; [done|].
        split; [by constructor|]. split; [done|]. by eapply assignment_from_word_None.
    + apply Hrec; [|right; left; done|lia]. split; [done|].
      split; [by apply Forall_snoc_2|]. done.
  - eapply post_bind; [apply parse_redirect_post; lia|]. intros [rd cur] [Hrd Hcur].
    apply Hrec; [|right; right; apply snoc_nonempty|lia]. split; [done|]. split; [done|].
    split; [by apply Forall_snoc_2|done].
Qed.

Lemma parse_command_post expected cursor :
  cursor <= length tokens ->
  post input (fun '(c, cur) => command_ok c /\ cursor < cur <= length tokens)
    (parse_command input tokens expected cursor).
Proof.
  intros Hc. unfold parse_command.
  assert (post input (fun '(c, cur) => command_ok c /\ cursor < cur <= length tokens)
    (let? (c, saw_element, cursor) :=
       command_loop input tokens (parser_fuel tokens) cursor [] [] [] false in
     if negb saw_element then unexpected input tokens cursor expected else Ok (Simple c, cursor))).
  { eapply post_bind; [apply command_loop_post; [repeat constructor|done|done|unfold parser_fuel; lia]|].
    intros [[c []] cur] (H1 & H2 & H3); simpl; [|by apply unexpected_post].
    split; [by apply H1|]. specialize (H3 eq_refl eq_refl). lia. }
  destruct (negb (starts_command tokens cursor)); [by apply unexpected_post|].
  destruct (peek tokens cursor) as [t|] eqn:Hp; [|done].
  destruct (is_pipeline_negation_word (token_kind t)); [|done].
  by apply peek_ok in Hp as [[? _] _].
Qed.

Lemma pipeline_loop_post fuel cursor cmds :
  cmds <> [] -> Forall command_ok cmds -> cursor <= length tokens ->
  length tokens < fuel + cursor ->
  post input (fun '(p, cur) => pipeline_ok p /\ cursor <= cur <= length tokens)
    (pipeline_loop input tokens fuel cursor cmds).
Proof.
  revert cursor cmds. induction fuel as [|fuel IH]; intros cursor cmds Hne Hok Hc Hf; [lia|].
  simpl. destruct (consume_if_spec is_pipe cursor) as [[-> Hlt]| ->]; [|simpl; split; [done|lia]].
  eapply post_bind; [apply consume_newlines_post; lia|]. intros c1 H1; cbv beta in H1.
  eapply post_bind; [apply parse_command_post; lia|]. intros [c c2] [? ?].
  eapply post_mono; [apply IH; [apply snoc_nonempty|by apply Forall_snoc_2|lia|lia]|].
  intros [p c3]. naive_solver lia.
Qed.

Lemma parse_pipeline_post expected cursor :
  cursor <= length tokens ->
  post input (fun '(p, cur) => pipeline_ok p /\ cursor < cur <= length tokens)
    (parse_pipeline input tokens expected cursor).
Proof.
  intros. unfold parse_pipeline. eapply post_bind; [by apply parse_command_post|].
  intros [c c1] [? ?]. eapply post_mono;
    [apply pipeline_loop_post; [done|by repeat constructor|lia|unfold parser_fuel; lia]|].
  intros [p c2]. naive_solver lia.
Qed.

Lemma consume_and_or_lt cursor op c :
  consume_and_or tokens cursor = Some (op, c) -> c = cursor + 1 /\ cursor < length tokens.
Proof.
  unfold consume_and_or. destruct (peek tokens cursor) eqn:Hp; [|done].
  apply peek_ok in Hp as [_ ?]. case_match; naive_solver.
Qed.

Lemma and_or_loop_post fuel cursor p others :
  pipeline_ok p -> Forall (fun a => pipeline_ok (and_or_pipeline a)) others ->
  cursor <= length tokens -> length tokens < fuel + cursor ->
  post input (fun '(l, cur) => and_or_list_ok l /\ cursor <= cur <= length tokens)
    (and_or_loop input tokens fuel cursor p others).
Proof.
  revert cursor others. induction fuel as [|fuel IH]; intros cursor others Hp Ho Hc Hf; [lia|].
  simpl. destruct (consume_and_or tokens cursor) as [[op c0]|] eqn:Hop; [|simpl; split; [done|lia]].
  apply consume_and_or_lt in Hop as [-> Hlt].
  eapply post_bind; [apply consume_newlines_post; lia|]. intros c1 H1; cbv beta in H1.
  eapply post_bind; [apply parse_pipeline_post; lia|]. intros [q c2] [? ?].
  eapply post_mono; [apply IH; [done|by apply Forall_snoc_2|lia|lia]|].
  intros [l c3]. naive_solver lia.
Qed.

Lemma parse_and_or_list_post cursor :
  cursor <= length tokens ->
  post input (fun '(l, cur) => and_or_list_ok l /\ cursor < cur <= length tokens)
    (parse_and_or_list input tokens cursor).
Proof.
  intros. unfold parse_and_or_list. eapply post_bind; [by apply parse_pipeline_post|].
  intros [p c1] [? ?]. eapply post_mono;
    [apply and_or_loop_post; [done|constructor|lia|unfold parser_fuel; lia]|].
  intros [l c2]. naive_solver lia.
Qed.

Lemma program_loop_post fuel cursor ls :
  Forall and_or_list_ok ls -> cursor <= length tokens -> length tokens < fuel + cursor ->
  post input program_ok (program_loop input tokens fuel cursor ls).
Proof.
  revert cursor ls. induction fuel as [|fuel IH]; intros cursor ls Hls Hc Hf; [lia|].
  simpl. destruct (is_eof tokens cursor); [done|]. simpl.
  eapply post_bind; [by apply parse_and_or_list_post|]. intros [l c1] [Hl Hc1].
  assert (Forall and_or_list_ok (ls ++ [l])) by by apply Forall_snoc_2.
  destruct (consume_if_spec is_semi c1) as [[-> Hlt]| ->].
  - eapply post_bind; [apply consume_newlines_post; lia|]. intros c2 Hc2; cbv beta in Hc2.
    destruct (is_eof tokens c2); [done|]. apply IH; [done|lia|lia].
  - destruct (consume_if_spec is_newline c1) as [[-> Hlt]| ->].
    + eapply post_bind; [apply consume_newlines_post; lia|]. intros c2 Hc2; cbv beta in Hc2.
      apply IH; [done|lia|lia].
    + destruct (is_eof tokens c1); [|by apply unexpected_post]. apply IH; [done|lia|lia].
Qed.

Lemma parse_program_post : post input program_ok (parse_program input tokens).
Proof.
  unfold parse_program. eapply post_bind; [apply consume_newlines_post; lia|]. intros c Hc; cbv beta in Hc.
  apply program_loop_post; [constructor|lia|unfold parser_fuel; lia].
Qed.
End parser_facts.

Lemma parse_post input : post input program_ok (parse input).
Proof.
  unfold parse. eapply post_bind; [apply lex_post|]. intros ts (H & _). by apply parse_program_post.
Qed.
