(* ===== verification/ShellQuote.v ===== *)
(** * Quoting: what a caller must do to pass arguments through the shell

    [shell_quote] is the usual POSIX quoting of one argument: single quotes
    around it, each single quote inside written ['\'']. The lexer reads it back
    as one word whose segments are quoted literals that spell the argument. *)

From Stdlib Require Import Ascii String.
From S2P Require Import Prelude RustStr ShellSyntax ShellLex ShellParse ShellLexFacts.

#[local] Open Scope nat_scope.
#[local] Arguments push_literal : simpl never.
#[local] Arguments fuel_for : simpl never.
#[local] Arguments len_utf8 : simpl never.

Definition Q : char := ch QUOTE.
Definition ESCAPED_QUOTE : str := [Q; ch BACKSLASH; Q; Q].

Definition shell_quote (w : str) : str := Q :: join ESCAPED_QUOTE (split Q w) ++ [Q].

#[local] Arguments shell_quote : simpl never.

(** Several arguments, separated by one space. *)
Definition shell_join (args : list str) : str := join [ch " "] (shell_quote <$> args).

Definition literal_value (s : Segment) : str :=
  match s with Literal v _ => v | Expansion _ _ => [] end.
Definition quoted_literal (s : Segment) : Prop :=
  match s with Literal _ q => q = true | Expansion _ _ => False end.

(** [segs] spells [t] and nothing in it is expanded or split. *)
Definition verbatim (segs : list Segment) (t : str) : Prop :=
  Forall quoted_literal segs /\ concat (literal_value <$> segs) = t.

Lemma verbatim_push segs t l : verbatim segs t -> verbatim (push_literal segs l true) (t ++ l).
Proof.
  intros [Hq <-]. unfold push_literal.
  assert (forall l, verbatim (segs ++ [Literal l true]) (concat (literal_value <$> segs) ++ l)) as Hsnoc.
  { intros l'. split; [apply Forall_app; split; [done|by apply Forall_singleton]|].
    rewrite fmap_app, concat_app. simpl. by rewrite app_nil_r. }
  destruct l as [|c l]; [by apply Hsnoc|].
  destruct (split_last segs) as [[front [v q|n q]]|] eqn:Hlast; [|by apply Hsnoc..].
  apply split_last_Some in Hlast as ->. apply Forall_app in Hq as [Hf Hv].
  apply Forall_cons in Hv as [Hv _]. destruct q; [|done]. simpl. split.
  - apply Forall_app; split; [done|]. by apply Forall_singleton.
  - rewrite !fmap_app, !concat_app. simpl. by rewrite !app_nil_r, app_assoc.
Qed.

(** ** Scanning quoted text *)

Section scanning.
Context (input : str).

Lemma peek_at p c r : get_from input p = Some (c :: r) -> peek_char input p = Some c.
Proof. intros H. apply peek_get. eauto. Qed.

Lemma Q_len : len_utf8 Q = 1.
Proof. reflexivity. Qed.

Lemma get_next p c r :
  get_from input p = Some (c :: r) -> len_utf8 c = 1 -> get_from input (p + 1) = Some r.
Proof. intros H Hc. apply get_from_step in H. by rewrite Hc in H. Qed.

Lemma fuel_step p c r fuel :
  get_from input p = Some (c :: r) -> blen input < fuel + p -> exists f, fuel = S f.
Proof.
  intros H Hf. apply get_from_len in H. simpl in H. pose proof (len_utf8_pos c).
  destruct fuel; [lia|eauto].
Qed.

Lemma single_quoted_loop_text q segs body fuel cursor literal r :
  contains body Q = false -> get_from input cursor = Some (body ++ Q :: r) ->
  blen input < fuel + cursor ->
  single_quoted_loop fuel input q cursor segs literal
  = Ok (cursor + blen body + 1, push_literal segs (literal ++ body) true).
Proof.
  revert fuel cursor literal. induction body as [|c body IH]; intros fuel cursor literal Hn Hg Hf.
  - destruct (fuel_step _ _ _ _ Hg Hf) as [f ->]. simpl.
    rewrite (peek_at _ _ _ Hg), app_nil_r, Nat.add_0_r. done.
  - destruct (fuel_step _ _ _ _ Hg Hf) as [f ->]. simpl in Hg |- *.
    rewrite (peek_at _ _ _ Hg). simpl in Hn. apply orb_false_iff in Hn as [Hc Hn].
    assert (isc c QUOTE = false) as -> by (unfold isc; rewrite N.eqb_sym; exact Hc).
    pose proof (len_utf8_pos c). rewrite IH; [|done|by eapply get_from_step|lia].
    rewrite <- app_assoc. simpl. do 2 f_equal. lia.
Qed.

Lemma blen_single body r : blen (Q :: body ++ Q :: r) = blen body + 2 + blen r.
Proof. change (Q :: r) with ([Q] ++ r). simpl. rewrite !blen_app. simpl. lia. Qed.

Lemma get_after_single p body r :
  get_from input p = Some (Q :: body ++ Q :: r) -> get_from input (p + blen body + 2) = Some r.
Proof.
  intros H. pose proof (get_from_len _ _ _ H) as Hl. rewrite blen_single in Hl.
  replace (p + blen body + 2) with (p + blen (Q :: body ++ [Q])) by
    (simpl; rewrite blen_app; simpl; lia).
  eapply get_from_add; [exact H|].
  replace (Q :: body ++ Q :: r) with ((Q :: body ++ [Q]) ++ r) by (simpl; by rewrite <- app_assoc).
  apply get_from_app.
Qed.

(** Ends of a word: the end of the input or a word break. *)
Definition stops (r : str) : Prop :=
  match r with [] => True | c :: _ => is_word_break c = true end.

Lemma word_loop_stop fuel w r :
  get_from input (ws_cursor w) = Some r -> stops r -> 0 < fuel -> word_loop fuel input w = Ok w.
Proof.
  intros Hg Hs Hf. destruct fuel; [lia|]. simpl. destruct r as [|c r].
  - unfold peek_char. by rewrite Hg.
  - rewrite (peek_at _ _ _ Hg). simpl in Hs. by rewrite Hs.
Qed.

Definition quoted_state (segs : list Segment) (cursor : nat) (equals : bool) : WordScan :=
  mkWordScan segs [] cursor true None equals.

Lemma word_loop_single body fuel segs cursor had last eq r :
  contains body Q = false -> get_from input cursor = Some (Q :: body ++ Q :: r) ->
  blen input < S fuel + cursor ->
  word_loop (S fuel) input (mkWordScan segs [] cursor had last eq)
  = word_loop fuel input (quoted_state (push_literal segs body true) (cursor + blen body + 2) eq).
Proof.
  intros Hn Hg Hf. simpl. rewrite (peek_at _ _ _ Hg).
  change (is_word_break Q) with false. change (isc Q QUOTE) with true. cbv iota.
  change (push_literal segs [] false) with segs. unfold scan_single_quoted.
  pose proof (get_next _ _ _ Hg Q_len) as Hg1.
  rewrite (single_quoted_loop_text _ _ body _ _ _ r Hn Hg1); [|unfold fuel_for; lia].
  simpl. by replace (cursor + 1 + blen body + 1) with (cursor + blen body + 2) by lia.
Qed.

Lemma word_loop_escaped_quote fuel segs cursor eq r :
  get_from input cursor = Some (ch BACKSLASH :: Q :: r) ->
  word_loop (S fuel) input (quoted_state segs cursor eq)
  = word_loop fuel input (quoted_state (push_literal segs [Q] true) (cursor + 2) eq).
Proof.
  intros Hg. simpl. rewrite (peek_at _ _ _ Hg).
  change (is_word_break (ch BACKSLASH)) with false. change (isc (ch BACKSLASH) QUOTE) with false.
  change (isc (ch BACKSLASH) DQUOTE) with false. change (isc (ch BACKSLASH) BACKSLASH) with true.
  cbv iota. pose proof (get_next _ _ _ Hg eq_refl) as Hg1. unfold scan_unquoted_escape.
  rewrite (peek_at _ _ _ Hg1). change (isc Q NL) with false. cbv iota. rewrite Q_len.
  by replace (cursor + 1 + 1) with (cursor + 2) by lia.
Qed.

(** Reading the pieces of a quoted argument, from any accumulated segments. *)
Lemma word_loop_pieces b bs fuel segs t cursor had last eq r :
  Forall (fun p => contains p Q = false) (b :: bs) ->
  get_from input cursor = Some (Q :: join ESCAPED_QUOTE (b :: bs) ++ Q :: r) ->
  stops r -> verbatim segs t -> blen input < fuel + cursor ->
  exists segs' last', word_loop fuel input (mkWordScan segs [] cursor had last eq)
    = Ok (mkWordScan segs' [] (cursor + blen (join ESCAPED_QUOTE (b :: bs)) + 2) true last' eq)
    /\ verbatim segs' (t ++ join [Q] (b :: bs)).
Proof.
  revert b fuel segs t cursor had last. induction bs as [|b2 bs IH];
    intros b fuel segs t cursor had last Hn Hg Hr Hv Hf.
  - apply Forall_cons in Hn as [Hn _]. destruct (fuel_step _ _ _ _ Hg Hf) as [f ->].
    rewrite (word_loop_single b f segs cursor had last eq r Hn Hg Hf).
    exists (push_literal segs b true), None. split; [|by apply verbatim_push].
    apply (word_loop_stop _ _ r); [|done|].
    + by apply get_after_single.
    + apply get_from_len in Hg. rewrite blen_single in Hg. lia.
  - apply Forall_cons in Hn as [Hb Hn].
    change (join ESCAPED_QUOTE (b :: b2 :: bs))
      with (b ++ ESCAPED_QUOTE ++ join ESCAPED_QUOTE (b2 :: bs)) in *.
    set (tl := join ESCAPED_QUOTE (b2 :: bs)) in *.
    rewrite <- !app_assoc in Hg. simpl in Hg.
    assert (blen (b ++ ESCAPED_QUOTE ++ tl) = blen b + 4 + blen tl) as Hlen
      by (rewrite !blen_app; simpl; lia).
    destruct (fuel_step _ _ _ _ Hg Hf) as [f ->].
    rewrite (word_loop_single b f segs cursor had last eq _ Hb Hg Hf).
    assert (get_from input (cursor + blen b + 2) = Some (ch BACKSLASH :: Q :: Q :: tl ++ Q :: r)) as Hg2. by by apply get_after_single.
    destruct (fuel_step _ _ _ f Hg2) as [f' ->]; [lia|].
    rewrite (word_loop_escaped_quote _ _ _ _ _ Hg2).
    destruct (IH b2 f' (push_literal (push_literal segs b true) [Q] true) ((t ++ b) ++ [Q])
                (cursor + blen b + 2 + 2) true None) as (segs' & last' & Heq & Hv').
    + done.
    + pose proof (get_next _ _ _ Hg2 eq_refl) as Hg3.
      pose proof (get_next _ _ _ Hg3 Q_len) as Hg4.
      replace (cursor + blen b + 2 + 2) with (cursor + blen b + 2 + 1 + 1) by lia. exact Hg4.
    + done.
    + by apply verbatim_push, verbatim_push.
    + lia.
    + exists segs', last'. fold tl in Heq. unfold quoted_state. rewrite Heq, Hlen. split.
      * do 2 f_equal. lia.
      * change (join [Q] (b :: b2 :: bs)) with (b ++ [Q] ++ join [Q] (b2 :: bs)).
        by rewrite <- !app_assoc in Hv'.
Qed.

Lemma blen_quote w : blen (shell_quote w) = blen (join ESCAPED_QUOTE (split Q w)) + 2.
Proof. unfold shell_quote. simpl. rewrite blen_app. simpl. lia. Qed.

Lemma scan_word_quote p w r :
  get_from input p = Some (shell_quote w ++ r) -> stops r ->
  exists segs, scan_word input p = Ok (Some (mkWord segs), p + blen (shell_quote w))
               /\ verbatim segs w.
Proof.
  intros Hg Hr. pose proof (blen_quote w) as Hlen. unfold scan_word.
  unfold shell_quote in Hg. simpl in Hg. rewrite <- app_assoc in Hg.
  pose proof (split_no_sep Q w) as Hno. pose proof (join_split Q w) as Hj.
  pose proof (split_nonempty Q w) as Hne. remember (split Q w) as l eqn:Hl. clear Hl.
  destruct l as [|b bs]; [done|].
  destruct (word_loop_pieces b bs (fuel_for input) [] [] p false None false r Hno Hg Hr)
    as (segs & last & Hw & Hv); [by split; [constructor|]|unfold fuel_for; lia|].
  rewrite Hj in Hv. rewrite Hw, Hlen. exists segs. split; [|done]. simpl.
  change (push_literal segs [] false) with segs. do 2 f_equal. simpl. lia.
Qed.

Lemma advance_while_stop f step fuel p c r :
  get_from input p = Some (c :: r) -> f c = false -> advance_while f step (S fuel) input p = Ok p.
Proof. intros Hg Hf. simpl. by rewrite (peek_at _ _ _ Hg), Hf. Qed.

Lemma skip_blanks_quote p sp r :
  sp = [] \/ sp = [ch " "] -> get_from input p = Some (sp ++ Q :: r) ->
  skip_blanks input p = Ok (p + blen sp) /\ get_from input (p + blen sp) = Some (Q :: r).
Proof.
  intros Hsp Hg. unfold skip_blanks, fuel_for. destruct Hsp as [-> | ->]; simpl in Hg.
  - simpl. rewrite Nat.add_0_r. by rewrite (peek_at _ _ _ Hg).
  - pose proof (get_next _ _ _ Hg eq_refl) as Hg1. split; [|done].
    pose proof (get_from_len _ _ _ Hg) as Hl. simpl in Hl. destruct (blen input) as [|n]; [lia|].
    simpl. rewrite (peek_at _ _ _ Hg). simpl. change (len_utf8 (ch " ")) with 1.
    by rewrite (peek_at _ _ _ Hg1).
Qed.

Lemma scan_redirect_quote p r :
  get_from input p = Some (Q :: r) -> scan_redirect input p = Ok None.
Proof.
  intros Hg. unfold scan_redirect, scan_digits, fuel_for.
  rewrite (advance_while_stop _ _ _ _ _ _ Hg); [|done]. simpl.
  rewrite Nat.ltb_irrefl. simpl. by rewrite (peek_at _ _ _ Hg).
Qed.

Lemma lex_loop_quote fuel p ts sp w r :
  sp = [] \/ sp = [ch " "] -> get_from input p = Some (sp ++ shell_quote w ++ r) -> stops r ->
  exists segs, verbatim segs w /\
    lex_loop (S fuel) input p ts
    = lex_loop fuel input (p + blen (sp ++ shell_quote w))
        (ts ++ [mkToken (TWord (mkWord segs)) (p + blen sp)]).
Proof.
  intros Hsp Hg Hr. assert (p < blen input) as Hlt.
  { apply get_from_len in Hg. rewrite !blen_app, blen_quote in Hg. lia. }
  destruct (skip_blanks_quote p sp _ Hsp Hg) as (Hskip & Hg1).
  destruct (scan_word_quote (p + blen sp) w r Hg1 Hr) as (segs & Hw & Hv).
  exists segs. split; [done|]. rewrite blen_app, Nat.add_assoc.
  set (q := p + blen sp + blen (shell_quote w)) in *. clearbody q.
  simpl. replace (p <? blen input) with true
    by (symmetry; by apply Nat.ltb_lt). rewrite Hskip. simpl.
  pose proof (get_from_len _ _ _ Hg1) as Hl. simpl in Hl.
  replace (blen input <=? p + blen sp) with false by (symmetry; apply Nat.leb_gt; lia).
  rewrite (peek_at _ _ _ Hg1), (scan_redirect_quote _ _ Hg1). simpl.
  by rewrite Hw.
Qed.

(** What follows the first argument. *)
Definition more_args (args : list str) : str := args ≫= (fun a => ch " " :: shell_quote a).

Definition spells (t : Token) (a : str) : Prop :=
  exists segs, token_kind t = TWord (mkWord segs) /\ verbatim segs a.

Lemma more_args_stop args : stops (more_args args).
Proof. by destruct args. Qed.

Lemma lex_loop_more args fuel p ts :
  get_from input p = Some (more_args args) -> blen input < fuel + p ->
  exists ts', lex_loop fuel input p ts = Ok (ts ++ ts') /\ Forall2 spells ts' args.
Proof.
  revert fuel p ts. induction args as [|a args IH]; intros fuel p ts Hg Hf.
  - apply get_from_len in Hg. simpl in Hg. destruct fuel; [lia|]. exists []. simpl.
    replace (p <? blen input) with false by (symmetry; apply Nat.ltb_ge; lia).
    by rewrite app_nil_r.
  - change (more_args (a :: args)) with ([ch " "] ++ shell_quote a ++ more_args args) in Hg.
    destruct fuel as [|fuel]; [apply get_from_len in Hg; lia|].
    destruct (lex_loop_quote fuel p ts _ a _ (or_intror eq_refl) Hg (more_args_stop args))
      as (segs & Hv & ->).
    pose proof (get_from_add _ _ _ (blen ([ch " "] ++ shell_quote a)) (more_args args) Hg) as Hg1.
    rewrite app_assoc in Hg1. specialize (Hg1 (get_from_app _ _)).
    destruct (IH fuel _ (ts ++ [mkToken (TWord (mkWord segs)) (p + blen [ch " "])]) Hg1)
      as (ts' & -> & Hall).
    + rewrite blen_app, blen_quote. lia.
    + eexists. split; [by rewrite <- app_assoc|]. constructor; [|done]. by exists segs.
Qed.
End scanning.

Lemma shell_join_cons a args : shell_join (a :: args) = shell_quote a ++ more_args args.
Proof.
  unfold shell_join. simpl. revert a. induction args as [|b args IH]; intros a; simpl.
  - by rewrite app_nil_r.
  - rewrite IH. unfold more_args. simpl. done.
Qed.

(** The lexer reads a quoted argument list as exactly those arguments. *)
Lemma lex_shell_join args :
  exists ts, lex (shell_join args) = Ok ts /\ Forall2 spells ts args.
Proof.
  destruct args as [|a args]; [by exists []|]. rewrite shell_join_cons. unfold lex.
  set (input := shell_quote a ++ more_args args).
  destruct (lex_loop_quote input (blen input) 0 [] [] a (more_args args))
    as (segs & Hv & Heq); [by left|apply get_from_0|apply more_args_stop|].
  unfold fuel_for. rewrite Heq. simpl ([] ++ _).
  destruct (lex_loop_more input args (blen input) (0 + blen (shell_quote a)) 
    [mkToken (TWord (mkWord segs)) (0 + blen [])]) as (ts & Hts & Hall).
  - apply get_from_app.
  - rewrite blen_quote. lia.
  - simpl in *. rewrite Hts. eexists. split; [done|]. constructor; [|done]. by exists segs.
Qed.

(** ** Parsing an argument list *)

Definition word_of (t : Token) : Word :=
  match token_kind t with TWord w => w | _ => mkWord [] end.

(** Words that can only be words: neither assignments nor [!]. *)
Definition inert_token (t : Token) : Prop :=
  exists w, token_kind t = TWord w /\ Forall quoted_literal (segments w).

Lemma spells_inert t a : spells t a -> inert_token t.
Proof. intros (segs & Ht & [Hq _]). by exists (mkWord segs). Qed.

Lemma inert_not_assignment input w p :
  Forall quoted_literal (segments w) -> assignment_from_word input w p = Ok None.
Proof.
  unfold assignment_from_word. destruct (segments w) as [|[v []|] ?]; try done.
  all: by intros [[=] _]%Forall_cons.
Qed.

Lemma inert_not_negation w :
  Forall quoted_literal (segments w) -> is_pipeline_negation_word (TWord w) = false.
Proof.
  simpl. destruct (segments w) as [|[v []|] [|? ?]]; try done.
  by intros [[=] _]%Forall_cons.
Qed.

Lemma command_loop_words input ts fuel cursor ws saw :
  Forall inert_token (drop cursor ts) -> cursor <= length ts -> length ts < fuel + cursor ->
  command_loop input ts fuel cursor [] ws [] saw
  = Ok (mkSimpleCommand [] (ws ++ (word_of <$> drop cursor ts)) [],
        saw || (cursor <? length ts), length ts).
Proof.
  revert cursor ws saw. induction fuel as [|fuel IH]; intros cursor ws saw Hin Hc Hf; [lia|].
  simpl. unfold peek. destruct (ts !! cursor) as [t|] eqn:Ht.
  - pose proof (lookup_lt_Some _ _ _ Ht) as Hlt.
    rewrite (drop_S _ _ _ Ht) in Hin |- *. apply Forall_cons in Hin as [(w & Hw & Hq) Hin].
    rewrite Hw, (inert_not_assignment input w _ Hq). simpl.
    replace (S cursor) with (cursor + 1) in * by lia.
    replace (cursor <? length ts) with true by (symmetry; by apply Nat.ltb_lt).
    rewrite (IH (cursor + 1) (ws ++ [w]) true) by (done || lia).
    assert (word_of t = w) as -> by (unfold word_of; by rewrite Hw).
    rewrite <- app_assoc, orb_true_r. by destruct ws.
  - apply lookup_ge_None in Ht. rewrite drop_ge by done. simpl.
    replace (cursor <? length ts) with false by (symmetry; apply Nat.ltb_ge; lia).
    rewrite app_nil_r, orb_false_r. do 2 f_equal. lia.
Qed.

Lemma parse_inert_words input ts :
  ts <> [] -> Forall inert_token ts ->
  parse_program input ts
  = Ok (mkProgram [mkAndOrList (mkPipeline [Simple (mkSimpleCommand [] (word_of <$> ts) [])]) []]).
Proof.
  intros Hne Hin. destruct ts as [|t ts']; [done|]. set (ts := t :: ts') in *.
  assert (inert_token t) as (w & Hw & Hq) by by apply Forall_cons in Hin as [? _].
  assert (consume_newlines ts 0 = Ok 0) as Hnl.
  { unfold consume_newlines, parser_fuel. simpl. unfold consume_if, peek. simpl. by rewrite Hw. }
  assert (forall m, consume_if ts m (length ts) = (false, length ts)) as Hend.
  { intros m. unfold consume_if, peek. by rewrite lookup_ge_None_2. }
  assert (parse_command input ts "command" 0
          = Ok (Simple (mkSimpleCommand [] (word_of <$> ts) []), length ts)) as Hcmd.
  { unfold parse_command, starts_command, peek. change (ts !! 0) with (Some t).
    cbv iota. rewrite Hw. cbv iota beta delta [negb].
    rewrite (inert_not_negation w Hq).
    rewrite command_loop_words; [|done|lia|unfold parser_fuel; lia]. done. }
  assert (parse_and_or_list input ts 0
          = Ok (mkAndOrList (mkPipeline [Simple (mkSimpleCommand [] (word_of <$> ts) [])]) [],
                length ts)) as Hlist.
  { unfold parse_and_or_list, parse_pipeline. rewrite Hcmd. unfold parser_fuel. simpl obind.
    cbn [pipeline_loop]. rewrite Hend. simpl obind. cbn [and_or_loop].
    unfold consume_and_or, peek. by rewrite lookup_ge_None_2. }
  unfold parse_program. rewrite Hnl. unfold parser_fuel. cbn [obind program_loop].
  rewrite Hlist. cbn [obind]. rewrite !Hend. unfold is_eof.
  replace (length ts <=? length ts) with true by (symmetry; by apply Nat.leb_le).
  cbn. by rewrite Nat.leb_refl.
Qed.

Definition is_word_list (ws : list Word) (args : list str) : Prop :=
  Forall2 (fun w a => verbatim (segments w) a) ws args.

Lemma parse_shell_join args :
  args <> [] ->
  exists ws, parse (shell_join args)
    = Ok (mkProgram [mkAndOrList (mkPipeline [Simple (mkSimpleCommand [] ws [])]) []])
    /\ is_word_list ws args.
Proof.
  intros Hne. unfold parse. destruct (lex_shell_join args) as (ts & -> & Hall). simpl.
  exists (word_of <$> ts). split.
  - apply parse_inert_words.
    + intros ->. inversion Hall. by subst.
    + eapply Forall2_Forall_l; [exact Hall|]. apply Forall_true. intros a t. apply spells_inert.
  - apply Forall2_fmap_l. eapply Forall2_impl; [exact Hall|].
    intros t a (segs & Ht & Hv). unfold compose, word_of. by rewrite Ht.
Qed.
