(* ===== verification/BTreeMap.v ===== *)
(** * [BTreeMap<String, V>]

    A map keyed by strings, as the list of its entries in key order: the order
    [iter], [keys], [values] and [into_values] visit.  The operations do not
    depend on the list being sorted to find an entry; [bt_wf] is the type
    invariant, kept by every operation. *)

From Stdlib Require Import Sorted.
From S2P Require Import Prelude RustStr.

(** ** The order on strings *)

Definition str_lt (a b : str) : Prop := str_compare a b = Lt.

Lemma str_compare_refl a : str_compare a a = Eq.
Proof. induction a as [|x a IH]; simpl; [done|]. by rewrite N.compare_refl. Qed.

Lemma str_compare_eq a b : str_compare a b = Eq <-> a = b.
Proof.
  split; [|intros ->; apply str_compare_refl].
  revert b. induction a as [|x a IH]; intros [|y b]; simpl; try done.
  destruct (x ?= y)%N eqn:Hc; try done. apply N.compare_eq in Hc as ->. intros. f_equal. auto.
Qed.

Lemma str_compare_antisym a b : str_compare b a = CompOpp (str_compare a b).
Proof.
  revert b. induction a as [|x a IH]; intros [|y b]; simpl; try done.
  rewrite N.compare_antisym. destruct (x ?= y)%N; simpl; auto.
Qed.

Lemma str_lt_gt a b : str_compare a b = Gt <-> str_lt b a.
Proof. unfold str_lt. rewrite (str_compare_antisym a b). by destruct (str_compare a b). Qed.

#[global] Instance str_lt_trans : Transitive str_lt.
Proof.
  unfold str_lt. intros a. induction a as [|x a IH]; intros [|y b] [|z c]; simpl; try done.
  destruct (N.compare_spec x y), (N.compare_spec y z), (N.compare_spec x z); subst;
    try done; try lia; eauto.
Qed.

Lemma str_lt_irrefl a : ~ str_lt a a.
Proof. unfold str_lt. by rewrite str_compare_refl. Qed.

Lemma str_lt_ne a b : str_lt a b -> a <> b.
Proof. intros H ->. by apply str_lt_irrefl in H. Qed.

(** The order with its equalities, in which lists of strings are sorted. *)
Definition str_le (a b : str) : Prop := str_compare a b <> Gt.

#[global] Instance str_le_dec a b : Decision (str_le a b).
Proof. unfold str_le. destruct (str_compare a b); [left|left|right]; congruence. Defined.

#[global] Instance str_compare_total : Total str_le.
Proof.
  intros a. unfold str_le. induction a as [|x a IH]; intros [|y b]; simpl; try (by left); try (by right).
  rewrite (N.compare_antisym x y). destruct (x ?= y)%N; simpl; [apply IH|by left|by right].
Qed.

#[global] Instance str_le_trans : Transitive str_le.
Proof.
  unfold str_le. intros a. induction a as [|x a IH]; intros [|y b] [|z c]; simpl; try done.
  destruct (x ?= y)%N eqn:H1, (y ?= z)%N eqn:H2; try done; intros Ha Hb;
    rewrite ?N.compare_eq_iff, ?N.compare_lt_iff in *; subst.
  - rewrite N.compare_refl. by eapply IH.
  - by rewrite (proj2 (N.compare_lt_iff _ _) H2).
  - by rewrite (proj2 (N.compare_lt_iff _ _) H1).
  - by rewrite (proj2 (N.compare_lt_iff x z)) by lia.
Qed.

#[global] Instance str_le_antisymm : AntiSymm (=) str_le.
Proof.
  intros a b. unfold str_le. rewrite (str_compare_antisym a b). intros H1 H2. apply str_compare_eq.
  by destruct (str_compare a b).
Qed.

(** ** Operations *)

Section btree.
Context {V : Type}.
Implicit Types m : list (str * V).

Definition bt_empty : list (str * V) := [].

Fixpoint bt_get (k : str) m : option V :=
  match m with
  | [] => None
  | (k', v) :: m' => if decide (k = k') then Some v else bt_get k m'
  end.

Fixpoint bt_insert (k : str) (v : V) m : list (str * V) :=
  match m with
  | [] => [(k, v)]
  | (k', v') :: m' =>
      match str_compare k k' with
      | Lt => (k, v) :: m
      | Eq => (k, v) :: m'
      | Gt => (k', v') :: bt_insert k v m'
      end
  end.

Fixpoint bt_remove (k : str) m : list (str * V) :=
  match m with
  | [] => []
  | (k', v) :: m' => if decide (k = k') then m' else (k', v) :: bt_remove k m'
  end.

Definition bt_keys m : list str := m.*1.
Definition bt_values m : list V := m.*2.

Definition bt_wf m : Prop := StronglySorted str_lt (bt_keys m).

(** ** Lookup laws *)

Lemma bt_get_insert_eq k v m : bt_get k (bt_insert k v m) = Some v.
Proof.
  induction m as [|[k' v'] m IH]; simpl; [by rewrite decide_True|].
  destruct (str_compare k k') eqn:Hc; simpl; [by rewrite decide_True..|].
  rewrite decide_False; [done|]. intros ->. by rewrite str_compare_refl in Hc.
Qed.

Lemma bt_get_insert_ne k j v m : k <> j -> bt_get j (bt_insert k v m) = bt_get j m.
Proof.
  intros Hne. induction m as [|[k' v'] m IH]; simpl; [by rewrite decide_False|].
  destruct (str_compare k k') eqn:Hc; simpl.
  - apply str_compare_eq in Hc as ->. by rewrite !decide_False.
  - by rewrite (decide_False (P := j = k)).
  - by rewrite IH.
Qed.

Lemma bt_get_remove_ne k j m : k <> j -> bt_get j (bt_remove k m) = bt_get j m.
Proof.
  intros Hne. induction m as [|[k' v'] m IH]; simpl; [done|].
  case_decide; simpl; [by subst; rewrite decide_False|]. by rewrite IH.
Qed.

Lemma bt_wf_cons k v m :
  bt_wf ((k, v) :: m) <-> bt_wf m /\ Forall (str_lt k) (bt_keys m).
Proof. unfold bt_wf. simpl. split; [by inversion 1|intros []; by constructor]. Qed.

Lemma bt_get_Some_key k v m : bt_get k m = Some v -> k ∈ bt_keys m.
Proof.
  induction m as [|[k' v'] m IH]; simpl; [done|]. case_decide; intros; [by subst; left|].
  right. auto.
Qed.

Lemma bt_get_lt k m : Forall (str_lt k) (bt_keys m) -> bt_get k m = None.
Proof.
  intros H. destruct (bt_get k m) eqn:Hg; [|done]. apply bt_get_Some_key in Hg.
  rewrite Forall_forall in H. by apply H, str_lt_irrefl in Hg.
Qed.

Lemma bt_get_remove_eq k m : bt_wf m -> bt_get k (bt_remove k m) = None.
Proof.
  induction m as [|[k' v'] m IH]; simpl; [done|]. intros [Hm Hk]%bt_wf_cons.
  case_decide as H; subst; [by apply bt_get_lt|]. simpl. rewrite decide_False by done. auto.
Qed.

Lemma bt_keys_insert k v m : forall j, j ∈ bt_keys (bt_insert k v m) <-> j = k \/ j ∈ bt_keys m.
Proof.
  intros j. induction m as [|[k' v'] m IH]; simpl.
  - rewrite list_elem_of_singleton. split; [by left|intros [?|[]%not_elem_of_nil]; done].
  - destruct (str_compare k k') eqn:Hc; simpl; rewrite !elem_of_cons.
    + apply str_compare_eq in Hc as ->. tauto.
    + tauto.
    + unfold bt_keys in IH. rewrite IH. tauto.
Qed.

Lemma bt_wf_insert k v m : bt_wf m -> bt_wf (bt_insert k v m).
Proof.
  induction m as [|[k' v'] m IH]; simpl; [by repeat constructor|]. intros [Hm Hk]%bt_wf_cons.
  destruct (str_compare k k') eqn:Hc.
  - apply str_compare_eq in Hc as ->. by apply bt_wf_cons.
  - apply bt_wf_cons. split; [by apply bt_wf_cons|]. simpl. constructor; [done|].
    eapply Forall_impl; [exact Hk|]. intros x. by apply (transitivity (R := str_lt)).
  - apply str_lt_gt in Hc. apply bt_wf_cons. split; [auto|]. apply Forall_forall.
    intros j [->|Hj]%bt_keys_insert; [done|]. rewrite Forall_forall in Hk. auto.
Qed.

Lemma bt_keys_remove k m j : j ∈ bt_keys (bt_remove k m) -> j ∈ bt_keys m.
Proof.
  induction m as [|[k' v'] m IH]; simpl; [done|]. case_decide; simpl; rewrite !elem_of_cons.
  - tauto.
  - unfold bt_keys in IH. tauto.
Qed.

Lemma bt_wf_remove k m : bt_wf m -> bt_wf (bt_remove k m).
Proof.
  induction m as [|[k' v'] m IH]; simpl; [done|]. intros [Hm Hk]%bt_wf_cons.
  case_decide; [done|]. apply bt_wf_cons. split; [auto|]. apply Forall_forall.
  intros j Hj%bt_keys_remove. rewrite Forall_forall in Hk. auto.
Qed.

(** Values up to order: what inserting a new key or removing one does. *)
Lemma bt_insert_new k v m : bt_get k m = None -> bt_values (bt_insert k v m) ≡ₚ v :: bt_values m.
Proof.
  induction m as [|[k' v'] m IH]; simpl; [done|]. case_decide as Hd; [done|]. intros H.
  destruct (str_compare k k') eqn:Hc; simpl.
  - by apply str_compare_eq in Hc.
  - done.
  - unfold bt_values in IH. rewrite IH by done. apply Permutation_swap.
Qed.

Lemma bt_remove_Some k v m : bt_get k m = Some v -> bt_values m ≡ₚ v :: bt_values (bt_remove k m).
Proof.
  induction m as [|[k' v'] m IH]; simpl; [done|]. case_decide as Hd; intros H; simplify_eq; [done|].
  simpl. unfold bt_values in IH. rewrite (IH H). apply Permutation_swap.
Qed.

Lemma bt_insert_replace k v w m :
  bt_wf m -> bt_get k m = Some v -> bt_insert k w m = bt_insert k w (bt_remove k m).
Proof.
  induction m as [|[k' v'] m IH]; simpl; [done|]. intros [Hm Hk]%bt_wf_cons.
  case_decide as Hd; intros H; simplify_eq.
  - rewrite str_compare_refl. destruct m as [|[j u] m]; simpl; [done|].
    apply Forall_cons in Hk as [Hk _]. simpl in Hk. unfold str_lt in Hk. by rewrite Hk.
  - simpl. destruct (str_compare k k') eqn:Hc.
    + by apply str_compare_eq in Hc.
    + apply bt_get_Some_key in H. rewrite Forall_forall in Hk. apply Hk in H.
      pose proof (str_lt_trans _ _ _ Hc H) as Hx. by apply str_lt_irrefl in Hx.
    + f_equal. auto.
Qed.

Lemma bt_get_values k v m : bt_get k m = Some v -> v ∈ bt_values m.
Proof. intros H. rewrite (bt_remove_Some _ _ _ H). by left. Qed.

Lemma bt_remove_None k m : bt_get k m = None -> bt_remove k m = m.
Proof.
  induction m as [|[k' v'] m IH]; simpl; [done|]. case_decide; [done|]. intros. by rewrite IH.
Qed.

Lemma bt_get_elem k v m : bt_wf m -> (k, v) ∈ m <-> bt_get k m = Some v.
Proof.
  induction m as [|[k' v'] m IH]; simpl; [split; [by intros ?%not_elem_of_nil|done]|].
  intros [Hm Hk]%bt_wf_cons. rewrite elem_of_cons, IH by done. case_decide as Hd.
  - subst. rewrite (bt_get_lt _ _ Hk). naive_solver.
  - naive_solver.
Qed.
End btree.

#[export] Hint Resolve bt_wf_insert bt_wf_remove : rust.
