(* ===== verification/Expansion.v ===== *)
(** * Word expansion under a budget (src/src/sandbox/expansion.rs)

    The budget is threaded through every function; running out of it aborts the
    expansion ([None]).  The in-memory sizes of [String], [Vec<String>] and
    [ExpandedCommand] are layout facts of the compiler and stay parameters. *)

From Stdlib Require Import Ascii String.
From S2P Require Import Prelude RustStr BTreeMap ShellSyntax.

#[local] Open Scope nat_scope.

Definition is_blank (c : char) : bool := is_any c [" "; TAB; NL]%char.

(** [s.split_inclusive(p)]: each piece ends with its separator, the last may not. *)
Fixpoint split_inclusive (p : char -> bool) (s : str) : list str :=
  match s with
  | [] => []
  | c :: s' =>
      if p c then [c] :: split_inclusive p s'
      else match split_inclusive p s' with
           | [] => [[c]]
           | q :: qs => (c :: q) :: qs
           end
  end.

Definition ends_with (p : char -> bool) (s : str) : bool :=
  match last s with Some c => p c | None => false end.

(** [Budget::charge]: [checked_sub]. *)
Definition charge (budget bytes : N) : option N :=
  if (bytes <=? budget)%N then Some (budget - bytes)%N else None.

Definition byte_len (s : str) : N := N.of_nat (blen s).

Record ExpandedCommand := mkExpandedCommand {
  syntax : SimpleCommand;
  expanded_env : list (str * str);
  expanded_words : list str;
  targets : list (list str)
}.

Section expansion.
Context (size_of_String size_of_Vec size_of_ExpandedCommand : N).

(** The fields built so far, the current field and whether it is kept. *)
Record Fields := mkFields { fields : list str; current : str; keep : bool }.

(** The body of the loop over [value.split_inclusive(..)]. *)
Definition split_part (f : Fields) (part : str) (budget : N) : option (Fields * N) :=
  let separated := ends_with is_blank part in
  let text := if separated then removelast part else part in
  let current := current f ++ text in
  let keep := keep f || negb (bool_decide (text = [])) in
  if separated && keep then
    budget ← charge budget size_of_String;
    Some (mkFields (fields f ++ [current]) [] false, budget)
  else Some (mkFields (fields f) current keep, budget).

Fixpoint split_parts (f : Fields) (parts : list str) (budget : N) : option (Fields * N) :=
  match parts with
  | [] => Some (f, budget)
  | part :: parts => '(f, budget) ← split_part f part budget; split_parts f parts budget
  end.

(** The value of a segment and whether it is split into fields. *)
Definition segment_value (env : list (str * str)) (status : Z) (split : bool) (s : Segment)
  : str * bool :=
  match s with
  | Literal value _ => (value, false)
  | Expansion name quoted =>
      let value := if bool_decide (name = lit "?") then Z_to_string status
                   else default [] (bt_get name env) in
      (value, split && negb quoted)
  end.

Definition expand_segment (env : list (str * str)) (status : Z) (split : bool) (f : Fields)
    (s : Segment) (budget : N) : option (Fields * N) :=
  let '(value, field_split) := segment_value env status split s in
  budget ← charge budget (byte_len value);
  if negb field_split then Some (mkFields (fields f) (current f ++ value) true, budget)
  else split_parts f (split_inclusive is_blank value) budget.

Fixpoint expand_segments (env : list (str * str)) (status : Z) (split : bool) (f : Fields)
    (segs : list Segment) (budget : N) : option (Fields * N) :=
  match segs with
  | [] => Some (f, budget)
  | s :: segs =>
      '(f, budget) ← expand_segment env status split f s budget;
      expand_segments env status split f segs budget
  end.

(** [Budget::word]. *)
Definition word (w : Word) (env : list (str * str)) (status : Z) (split : bool) (budget : N)
  : option (list str * N) :=
  '(f, budget) ← expand_segments env status split (mkFields [] [] (negb split)) (segments w) budget;
  if keep f then
    budget ← charge budget size_of_String;
    Some (fields f ++ [current f], budget)
  else Some (fields f, budget).

Fixpoint charge_env (base : list (str * str)) (budget : N) : option N :=
  match base with
  | [] => Some budget
  | (name, value) :: base =>
      budget ← charge budget (2 * size_of_String);
      budget ← charge budget (byte_len name);
      budget ← charge budget (byte_len value);
      charge_env base budget
  end.

(** [vec.pop()]. *)
Definition pop (l : list str) : option str := last l.

Fixpoint expand_assignments (asg : list Assignment) (env : list (str * str)) (status : Z)
    (budget : N) : option (list (str * str) * N) :=
  match asg with
  | [] => Some (env, budget)
  | a :: asg =>
      budget ← charge budget size_of_String;
      budget ← charge budget (byte_len (assignment_name a));
      '(values, budget) ← word (assignment_value a) env status false budget;
      value ← pop values;
      expand_assignments asg (bt_insert (assignment_name a) value env) status budget
  end.

Fixpoint expand_words (ws : list Word) (env : list (str * str)) (status : Z) (budget : N)
  : option (list str * N) :=
  match ws with
  | [] => Some ([], budget)
  | w :: ws =>
      '(fs, budget) ← word w env status true budget;
      '(rest, budget) ← expand_words ws env status budget;
      Some (fs ++ rest, budget)
  end.

Fixpoint expand_targets (rs : list Redirect) (env : list (str * str)) (status : Z) (budget : N)
  : option (list (list str) * N) :=
  match rs with
  | [] => Some ([], budget)
  | r :: rs =>
      budget ← charge budget size_of_Vec;
      '(target, budget) ← match redirect_target r with
                          | TargetWord w => word w env status true budget
                          | TargetFd _ => Some ([], budget)
                          end;
      '(rest, budget) ← expand_targets rs env status budget;
      Some (target :: rest, budget)
  end.

(** [Budget::expand]. *)
Definition expand (c : SimpleCommand) (base : list (str * str)) (status : Z) (budget : N)
  : option (ExpandedCommand * N) :=
  budget ← charge budget size_of_ExpandedCommand;
  budget ← charge_env base budget;
  '(env, budget) ← expand_assignments (assignments c) base status budget;
  '(ws, budget) ← expand_words (words c) base status budget;
  let redirect_env := match ws with [] => env | _ => base end in
  '(ts, budget) ← expand_targets (redirects c) redirect_env status budget;
  Some (mkExpandedCommand c env ws ts, budget).
End expansion.

Example word_splits_on_blanks :
  word 24 (mkWord [Literal (lit "a") false; Expansion (lit "X") false; Literal (lit "b") false])
    [(lit "X", lit " 1  2 ")] 0%Z true 1000
  = Some ([lit "a"; lit "1"; lit "2"; lit "b"], 896)%N.
Proof. vm_compute. reflexivity. Qed.
