(* ===== verification/ExpansionFacts.v ===== *)
(** * Expansion implements POSIX field splitting, at an exactly known cost

    The reference reads a word character by character.  A literal or a quoted
    expansion leaves a [Mark] (the field exists even when empty); a blank of an
    unquoted expansion is a [Sep].  The fields are the non-empty runs between
    separators. *)

From Stdlib Require Import Ascii String.
From S2P Require Import Prelude RustStr BTreeMap ShellSyntax Expansion ShellLex ShellParse ShellLexFacts.
From S2P Require Import ShellParseFacts ShellQuote.

#[local] Open Scope nat_scope.

(** ** The reference *)

Inductive atom := Chr (c : char) | Mark | Sep.

Definition blank_atom (c : char) : atom := if is_blank c then Sep else Chr c.

Definition segment_atoms (env : list (str * str)) (status : Z) (split : bool) (s : Segment)
  : list atom :=
  let '(value, field_split) := segment_value env status split s in
  if field_split then blank_atom <$> value else Mark :: (Chr <$> value).

Definition word_atoms env status split (w : Word) : list atom :=
  segments w ≫= segment_atoms env status split.

Fixpoint runs (l : list atom) : list (list atom) :=
  match l with
  | [] => [[]]
  | Sep :: l => [] :: runs l
  | a :: l => match runs l with [] => [[a]] | r :: rs => (a :: r) :: rs end
  end.

Lemma runs_cons l : exists r rs, runs l = r :: rs.
Proof. destruct l as [|[c| |] l]; simpl; try case_match; eauto. Qed.

Definition run_text (r : list atom) : str :=
  r ≫= (fun a => match a with Chr c => [c] | _ => [] end).

Definition run_field (r : list atom) : list str :=
  match r with [] => [] | _ => [run_text r] end.

Definition posix_fields (l : list atom) : list str := runs l ≫= run_field.

(** ** Paying for a result *)

Definition pay {A} (budget cost : N) (a : A) : option (A * N) :=
  if (cost <=? budget)%N then Some (a, budget - cost)%N else None.

Lemma charge_pay {A} b c d (a : A) (k : N -> option (A * N)) :
  (forall b', k b' = pay b' d a) -> charge b c ≫= k = pay b (c + d) a.
Proof.
  intros Hk. unfold charge. destruct (N.leb_spec c b); simpl.
  - rewrite Hk. unfold pay. destruct (N.leb_spec d (b - c)), (N.leb_spec (c + d) b); try lia; [|done].
    do 2 f_equal. lia.
  - unfold pay. destruct (N.leb_spec (c + d) b); [lia|done].
Qed.

Lemma pay_bind {A B} b c d (a : A) (a' : B) (k : A -> N -> option (B * N)) :
  (forall b', k a b' = pay b' d a') -> ('(x, b') ← pay b c a; k x b') = pay b (c + d) a'.
Proof.
  intros Hk. rewrite <- (charge_pay b c d a' (k a)) by done.
  unfold pay, charge. by destruct (c <=? b)%N.
Qed.

Lemma pay_0 {A} b (a : A) : pay b 0 a = Some (a, b).
Proof. unfold pay. rewrite N.sub_0_r. by destruct b. Qed.

Section facts.
Context (sz : N).

(** ** One character at a time *)

Definition absorb (f : Fields) (a : atom) : Fields :=
  match a with
  | Chr c => mkFields (fields f) (current f ++ [c]) true
  | Mark => mkFields (fields f) (current f) true
  | Sep => if keep f then mkFields (fields f ++ [current f]) [] false else f
  end.

Definition absorb_all (f : Fields) (l : list atom) : Fields := foldl absorb f l.

(** Storage charged for the fields completed between two states. *)
Definition stored (f f' : Fields) : N := sz * N.of_nat (length (fields f') - length (fields f)).

Lemma absorb_grows f a : length (fields f) <= length (fields (absorb f a)).
Proof. destruct a; simpl; [done..|]. case_match; simpl; [|done]. rewrite length_app. lia. Qed.

Lemma absorb_all_grows f l : length (fields f) <= length (fields (absorb_all f l)).
Proof.
  revert f. induction l as [|a l IH]; intros f; simpl; [done|].
  etrans; [apply absorb_grows|apply IH].
Qed.

Lemma stored_trans f g h :
  length (fields f) <= length (fields g) -> length (fields g) <= length (fields h) ->
  (stored f g + stored g h = stored f h)%N.
Proof. unfold stored. intros. rewrite <- N.mul_add_distr_l. f_equal. lia. Qed.

Lemma stored_same f g : fields f = fields g -> stored f g = 0%N.
Proof. unfold stored. intros ->. rewrite Nat.sub_diag. lia. Qed.

Lemma stored_snoc f x c k : stored f (mkFields (fields f ++ [x]) c k) = sz.
Proof. unfold stored. simpl. rewrite length_app. simpl. replace (_ - _) with 1 by lia. lia. Qed.

(** A part without its blank is absorbed character by character. *)
Lemma split_part_one f c b :
  split_part sz f [c] b
  = pay b (stored f (absorb f (blank_atom c))) (absorb f (blank_atom c)).
Proof.
  unfold split_part, ends_with, blank_atom. simpl. destruct (is_blank c); simpl.
  - rewrite app_nil_r, orb_false_r. destruct (keep f) eqn:Hk; simpl.
    + rewrite stored_snoc. unfold charge, pay. by destruct (sz <=? b)%N.
    + rewrite stored_same, pay_0 by done. destruct f; simpl in *. by subst.
  - rewrite stored_same, pay_0 by done. by rewrite orb_true_r.
Qed.

Lemma split_part_cons f c q b :
  is_blank c = false -> q <> [] -> split_part sz f (c :: q) b = split_part sz (absorb f (Chr c)) q b.
Proof.
  intros Hc Hq. destruct q as [|d q]; [done|]. unfold split_part, ends_with.
  change (last (c :: d :: q)) with (last (d :: q)).
  change (removelast (c :: d :: q)) with (c :: removelast (d :: q)). simpl absorb. simpl fields.
  simpl keep. simpl current.
  destruct (match last (d :: q) with Some c0 => is_blank c0 | None => false end).
  - simpl. rewrite <- app_assoc, orb_true_r. done.
  - rewrite <- app_assoc. simpl. by rewrite orb_true_r.
Qed.

Lemma split_inclusive_nonempty p s : Forall (fun q => q <> []) (split_inclusive p s).
Proof.
  induction s as [|c s IH]; simpl; [done|]. case_match; [by constructor|].
  case_match; [by repeat constructor|]. apply Forall_cons in IH as [_ IH]. by constructor.
Qed.

Lemma split_parts_pay s f b :
  split_parts sz f (split_inclusive is_blank s) b
  = pay b (stored f (absorb_all f (blank_atom <$> s))) (absorb_all f (blank_atom <$> s)).
Proof.
  revert f b. induction s as [|c s IH]; intros f b; simpl.
  - by rewrite stored_same, pay_0.
  - pose proof (absorb_grows f (blank_atom c)) as Hg1.
    pose proof (absorb_all_grows (absorb f (blank_atom c)) (blank_atom <$> s)) as Hg2.
    assert (forall b', split_parts sz (absorb f (blank_atom c)) (split_inclusive is_blank s) b'
      = pay b' (stored (absorb f (blank_atom c)) (absorb_all (absorb f (blank_atom c)) (blank_atom <$> s)))
          (absorb_all (absorb f (blank_atom c)) (blank_atom <$> s))) as Hrec by (intros; apply IH).
    destruct (is_blank c) eqn:Hc.
    + simpl. rewrite split_part_one. erewrite pay_bind by exact Hrec.
      by rewrite stored_trans.
    + pose proof (split_inclusive_nonempty is_blank s) as Hne.
      destruct (split_inclusive is_blank s) as [|q qs].
      * simpl. rewrite split_part_one. erewrite pay_bind by exact Hrec.
        by rewrite stored_trans.
      * apply Forall_cons in Hne as [Hq _]. simpl. rewrite split_part_cons by done.
        assert (blank_atom c = Chr c) as Hbc by (unfold blank_atom; by rewrite Hc).
        rewrite Hbc in *. specialize (Hrec b). simpl in Hrec. simpl in *. rewrite Hrec.
        f_equal.
Qed.

Lemma absorb_chars f s :
  absorb_all f (Chr <$> s) = mkFields (fields f) (current f ++ s) (keep f || negb (bool_decide (s = []))).
Proof.
  revert f. induction s as [|c s IH]; intros f; simpl.
  - rewrite app_nil_r, orb_false_r. by destruct f.
  - rewrite IH. simpl. rewrite <- app_assoc. simpl. by rewrite orb_true_r.
Qed.

Definition value_cost (env : list (str * str)) (status : Z) (split : bool) (s : Segment) : N :=
  byte_len (segment_value env status split s).1.

Lemma expand_segment_pay env status split f s b :
  expand_segment sz env status split f s b
  = pay b (value_cost env status split s + stored f (absorb_all f (segment_atoms env status split s)))
      (absorb_all f (segment_atoms env status split s)).
Proof.
  unfold expand_segment, value_cost, segment_atoms.
  destruct (segment_value env status split s) as [value []]; simpl.
  - erewrite charge_pay by (intros; apply split_parts_pay). done.
  - fold (absorb_all (absorb f Mark) (Chr <$> value)). rewrite absorb_chars. simpl.
    rewrite stored_same, N.add_0_r by done. unfold charge, pay. by destruct (_ <=? b)%N.
Qed.

Definition total_cost env status split (segs : list Segment) : N :=
  foldr (fun s n => value_cost env status split s + n)%N 0%N segs.

Lemma expand_segments_pay env status split f segs b :
  let f' := absorb_all f (segs ≫= segment_atoms env status split) in
  expand_segments sz env status split f segs b
  = pay b (total_cost env status split segs + stored f f') f'.
Proof.
  revert f b. induction segs as [|s segs IH]; intros f b.
  - simpl. by rewrite stored_same, pay_0.
  - cbv zeta. cbn [expand_segments]. rewrite expand_segment_pay.
    change ((s :: segs) ≫= segment_atoms env status split)
      with (segment_atoms env status split s ++ (segs ≫= segment_atoms env status split)).
    assert (forall l k, absorb_all f (l ++ k) = absorb_all (absorb_all f l) k) as ->
      by (intros; apply foldl_app).
    change (total_cost env status split (s :: segs))
      with (value_cost env status split s + total_cost env status split segs)%N.
    set (g := absorb_all f (segment_atoms env status split s)).
    set (h := absorb_all g (segs ≫= segment_atoms env status split)).
    rewrite <- (stored_trans f g h) by apply absorb_all_grows.
    erewrite pay_bind by (intros; apply IH). fold h. f_equal. lia.
Qed.

(** ** Runs *)

Definition finish (f : Fields) : list str := fields f ++ (if keep f then [current f] else []).

Lemma absorb_all_runs f l :
  (keep f = false -> current f = []) ->
  finish (absorb_all f l)
  = fields f ++ match runs l with
                | [] => []
                | r :: rs => (if keep f || negb (bool_decide (r = [])) then [current f ++ run_text r] else [])
                             ++ (rs ≫= run_field)
                end.
Proof.
  revert f. induction l as [|a l IH]; intros f Hinv.
  - simpl. unfold finish. rewrite orb_false_r, !app_nil_r. by destruct (keep f).
  - change (absorb_all f (a :: l)) with (absorb_all (absorb f a) l). destruct a as [c| |].
    + rewrite IH by done. simpl. destruct (runs_cons l) as (r & rs & ->).
      rewrite orb_true_r, <- app_assoc. done.
    + rewrite IH by done. simpl. destruct (runs_cons l) as (r & rs & ->).
      rewrite orb_true_r. done.
    + simpl. rewrite orb_false_r, app_nil_r. destruct (keep f) eqn:Hk.
      * rewrite IH by done. simpl. destruct (runs_cons l) as (r & rs & ->).
        rewrite <- app_assoc. simpl. by destruct r.
      * specialize (Hinv eq_refl). rewrite (IH f) by done. rewrite Hk, Hinv. simpl.
        destruct (runs_cons l) as (r & rs & ->). by destruct r.
Qed.

Lemma posix_fields_absorb l :
  finish (absorb_all (mkFields [] [] false) l) = posix_fields l.
Proof.
  rewrite absorb_all_runs by done. unfold posix_fields. simpl.
  destruct (runs l) as [|r rs]; [done|]. simpl. by destruct r.
Qed.

Lemma word_split_spec w env status b :
  word sz w env status true b
  = pay b (total_cost env status true (segments w)
           + sz * N.of_nat (length (posix_fields (word_atoms env status true w))))
      (posix_fields (word_atoms env status true w)).
Proof.
  unfold word. rewrite expand_segments_pay. cbv zeta.
  rewrite <- posix_fields_absorb. unfold word_atoms, finish. simpl negb.
  set (f := absorb_all _ _).
  assert (forall k, ('(f', b') ← pay b (total_cost env status true (segments w)
      + stored (mkFields [] [] false) f) f; k f' b')
    = charge b (total_cost env status true (segments w) + stored (mkFields [] [] false) f) ≫= k f
    :> option (list str * N)) as -> by (intros k; unfold pay, charge; by destruct (_ <=? b)%N).
  destruct (keep f); simpl.
  - rewrite length_app. simpl.
    transitivity (b' ← charge b (total_cost env status true (segments w) + stored (mkFields [] [] false) f);
                  pay b' sz (fields f ++ [current f])).
    { unfold charge, pay. destruct (_ <=? b)%N; simpl; [|done]. by destruct (sz <=? _)%N. }
    erewrite charge_pay by done. f_equal. unfold stored. simpl. lia.
  - rewrite app_nil_r. unfold stored. simpl. rewrite Nat.sub_0_r.
    unfold charge, pay. by destruct (_ <=? b)%N.
Qed.
End facts.

(** ** Words that are not split *)

(** The text of a word, its expansions substituted. *)
Definition word_text (env : list (str * str)) (status : Z) (w : Word) : str :=
  segments w ≫= (fun s => (segment_value env status false s).1).

Lemma absorb_marked_chars f s :
  keep f = true -> absorb_all f (Chr <$> s) = mkFields (fields f) (current f ++ s) true.
Proof. intros Hk. by rewrite absorb_chars, Hk. Qed.

Lemma absorb_unsplit env status segs f :
  keep f = true ->
  absorb_all f (segs ≫= segment_atoms env status false)
  = mkFields (fields f) (current f ++ (segs ≫= (fun s => (segment_value env status false s).1))) true.
Proof.
  revert f. induction segs as [|s segs IH]; intros f Hk.
  - simpl. rewrite app_nil_r. destruct f; simpl in *. by subst.
  - rewrite !bind_cons. unfold absorb_all in *. rewrite foldl_app.
    assert (segment_atoms env status false s = Mark :: (Chr <$> (segment_value env status false s).1)) as ->.
    { unfold segment_atoms. by destruct s. }
    change (foldl absorb f (Mark :: ?l)) with (absorb_all (absorb f Mark) l).
    rewrite absorb_marked_chars by done. rewrite IH by done. simpl. by rewrite <- app_assoc.
Qed.

Lemma word_unsplit_spec sz w env status b :
  word sz w env status false b
  = pay b (total_cost env status false (segments w) + sz) [word_text env status w].
Proof.
  unfold word. rewrite expand_segments_pay. cbv zeta. rewrite absorb_unsplit by done. simpl.
  rewrite (pay_bind _ _ sz _ [word_text env status w]).
  - f_equal. unfold stored. simpl. lia.
  - intros b'. cbn. rewrite (charge_pay b' sz 0 [word_text env status w]).
    + by rewrite N.add_0_r.
    + intros b''. by rewrite pay_0.
Qed.

(** ** From shell text to argument vectors

    Lexer, parser and expansion composed: a caller that quotes its arguments
    gets exactly those arguments, whatever characters they contain, and the
    expansion costs exactly their bytes plus their storage. *)

#[local] Open Scope nat_scope.

(** ** Quoted literals expand to one field *)

Lemma atoms_verbatim env status split segs :
  Forall quoted_literal segs ->
  segs ≫= segment_atoms env status split
  = segs ≫= (fun s => Mark :: (Chr <$> literal_value s)).
Proof.
  induction 1 as [|s segs Hs _ IH]; [done|]. rewrite !bind_cons, IH.
  by destruct s as [v q|].
Qed.

Lemma runs_no_sep l : Forall (fun a => a <> Sep) l -> runs l = [l].
Proof. induction 1 as [|a l Ha _ IH]; simpl; [done|]. rewrite IH. by destruct a. Qed.

Lemma run_text_app l k : run_text (l ++ k) = run_text l ++ run_text k.
Proof. apply bind_app. Qed.

Lemma run_text_chars s : run_text (Chr <$> s) = s.
Proof.
  induction s as [|c s IH]; [done|].
  change (run_text (Chr <$> c :: s)) with (c :: run_text (Chr <$> s)). by rewrite IH.
Qed.

Lemma run_text_verbatim segs :
  run_text (segs ≫= (fun s => Mark :: (Chr <$> literal_value s))) = concat (literal_value <$> segs).
Proof.
  induction segs as [|s segs IH]; [done|].
  rewrite bind_cons, run_text_app, IH. simpl.
  f_equal. exact (run_text_chars (literal_value s)).
Qed.

Lemma posix_fields_verbatim env status segs a :
  verbatim segs a -> segs <> [] -> posix_fields (word_atoms env status true (mkWord segs)) = [a].
Proof.
  intros [Hq Ha] Hne. unfold posix_fields, word_atoms. simpl segments.
  rewrite atoms_verbatim by done. rewrite runs_no_sep.
  - rewrite bind_cons. unfold run_field. rewrite run_text_verbatim, Ha.
    destruct segs; [done|]. done.
  - apply Forall_bind, Forall_true. intros s. constructor; [done|]. apply Forall_fmap, Forall_true. done.
Qed.

Lemma total_cost_verbatim env status split segs :
  Forall quoted_literal segs ->
  total_cost env status split segs = byte_len (concat (literal_value <$> segs)).
Proof.
  induction 1 as [|s segs Hs _ IH]; [done|].
  change (total_cost env status split (s :: segs))
    with (value_cost env status split s + total_cost env status split segs)%N.
  rewrite IH, fmap_cons. simpl concat. unfold byte_len. rewrite blen_app. destruct s as [v q|]; [|done].
  unfold value_cost, byte_len. simpl. lia.
Qed.

Section argv.
Context (size_of_String size_of_Vec size_of_ExpandedCommand : N).
Abbreviation sz := size_of_String.

Definition arg_cost (a : str) : N := byte_len a + sz.
Definition args_cost (args : list str) : N := foldr (fun a n => arg_cost a + n)%N 0%N args.
Definition env_cost (env : list (str * str)) : N :=
  foldr (fun '(k, v) n => 2 * sz + byte_len k + byte_len v + n)%N 0%N env.

Lemma word_verbatim segs a env status b :
  verbatim segs a -> segs <> [] ->
  word sz (mkWord segs) env status true b = pay b (arg_cost a) [a].
Proof.
  intros Hv Hne. rewrite word_split_spec, (posix_fields_verbatim _ _ segs a) by done.
  destruct Hv as [Hq Ha]. simpl segments. rewrite total_cost_verbatim, Ha by done.
  f_equal. unfold arg_cost. simpl. lia.
Qed.

Lemma expand_words_verbatim ws args env status b :
  is_word_list ws args -> Forall word_ok ws ->
  expand_words sz ws env status b = pay b (args_cost args) args.
Proof.
  intros Hall. revert b. induction Hall as [|[segs] a ws args Hv Hall IH]; intros b Hok; cbn [expand_words].
  - by rewrite pay_0.
  - apply Forall_cons in Hok as [[_ Hne] Hok]. simpl in Hv, Hne.
    rewrite (word_verbatim segs a) by done. simpl args_cost.
    rewrite (pay_bind _ _ (args_cost args) _ (a :: args)); [done|].
    intros b'. rewrite IH by done. rewrite (pay_bind _ _ 0 _ (a :: args)); [by rewrite N.add_0_r|].
    intros b''. by rewrite pay_0.
Qed.

Lemma charge_charge b c d (k : N -> option N) :
  (forall b', k b' = charge b' d) -> charge b c ≫= k = charge b (c + d).
Proof.
  intros Hk. unfold charge at 1. destruct (N.leb_spec c b); cbn [mbind option_bind].
  - rewrite Hk. unfold charge.
    destruct (N.leb_spec d (b - c)), (N.leb_spec (c + d) b); try lia; [|done]. f_equal. lia.
  - unfold charge. destruct (N.leb_spec (c + d) b); [lia|done].
Qed.

Lemma charge_env_cost env b : charge_env sz env b = charge b (env_cost env).
Proof.
  revert b. induction env as [|[k v] env IH]; intros b.
  - unfold charge. simpl. destruct b; done.
  - cbn [charge_env].
    change (env_cost ((k, v) :: env)) with (2 * sz + byte_len k + byte_len v + env_cost env)%N.
    rewrite <- !N.add_assoc. do 3 (apply charge_charge; intros ?). apply IH.
Qed.

Lemma expand_verbatim ws args env status b :
  is_word_list ws args -> Forall word_ok ws ->
  expand sz size_of_Vec size_of_ExpandedCommand (mkSimpleCommand [] ws []) env status b
  = pay b (size_of_ExpandedCommand + env_cost env + args_cost args)
      (mkExpandedCommand (mkSimpleCommand [] ws []) env args []).
Proof.
  intros Hall Hok. unfold expand. rewrite <- N.add_assoc. apply charge_pay. intros b1.
  rewrite charge_env_cost. apply charge_pay. intros b2. simpl.
  rewrite (expand_words_verbatim ws args) by done.
  rewrite (pay_bind _ _ 0 _ (mkExpandedCommand (mkSimpleCommand [] ws []) env args []));
    [by rewrite N.add_0_r|]. intros b3. by rewrite pay_0.
Qed.
End argv.

(** ** The budget bounds what an expansion retains

    Everything the expansion keeps in memory, its environment, words and
    redirect targets with their storage, was paid for out of the budget. *)

#[local] Open Scope N_scope.

(** ** The text of the fields *)

Definition atom_len (a : atom) : N := match a with Chr c => N.of_nat (len_utf8 c) | _ => 0 end.
Definition atoms_len (l : list atom) : N := foldr (fun a n => atom_len a + n) 0 l.
Definition fields_len (fs : list str) : N := foldr (fun f n => byte_len f + n) 0 fs.

Lemma atoms_len_app l k : atoms_len (l ++ k) = atoms_len l + atoms_len k.
Proof. induction l as [|a l IH]; simpl; lia. Qed.

Lemma fields_len_app fs gs : fields_len (fs ++ gs) = fields_len fs + fields_len gs.
Proof. induction fs as [|f fs IH]; simpl; lia. Qed.

Lemma run_text_len r : byte_len (run_text r) = atoms_len r.
Proof.
  induction r as [|a r IH]; [done|].
  change (run_text (a :: r)) with ((match a with Chr c => [c] | _ => [] end) ++ run_text r).
  change (atoms_len (a :: r)) with (atom_len a + atoms_len r). rewrite <- IH. unfold byte_len. rewrite blen_app.
  destruct a; simpl; lia.
Qed.

Lemma posix_fields_len l : fields_len (posix_fields l) = atoms_len l.
Proof.
  unfold posix_fields. induction l as [|a l IH]; [done|].
  change (atoms_len (a :: l)) with (atom_len a + atoms_len l). rewrite <- IH.
  destruct (runs_cons l) as (r & rs & Hr).
  destruct a; cbn [runs]; rewrite Hr; rewrite ?bind_cons, ?fields_len_app; [| |done].
  - change (run_field (Chr c :: r)) with [run_text (Chr c :: r)].
    destruct r; cbn [run_field fields_len foldr]; rewrite !run_text_len; simpl; lia.
  - change (run_field (Mark :: r)) with [run_text (Mark :: r)].
    destruct r; cbn [run_field fields_len foldr]; rewrite !run_text_len; simpl; lia.
Qed.

Lemma chars_len s : atoms_len (Chr <$> s) = byte_len s.
Proof.
  induction s as [|c s IH]; [done|]. rewrite fmap_cons.
  change (atoms_len (Chr c :: ?l)) with (N.of_nat (len_utf8 c) + atoms_len l). rewrite IH.
  unfold byte_len. simpl. lia.
Qed.

Lemma blank_atoms_len s : atoms_len (blank_atom <$> s) <= byte_len s.
Proof.
  induction s as [|c s IH]; [done|]. rewrite fmap_cons.
  change (atoms_len (blank_atom c :: ?l)) with (atom_len (blank_atom c) + atoms_len l).
  unfold byte_len in *. simpl. unfold blank_atom at 1. destruct (is_blank c); simpl; lia.
Qed.

Lemma word_atoms_len env status split w :
  atoms_len (word_atoms env status split w) <= total_cost env status split (segments w).
Proof.
  unfold word_atoms. induction (segments w) as [|s segs IH]; [done|]. rewrite bind_cons, atoms_len_app.
  change (total_cost env status split (s :: segs))
    with (value_cost env status split s + total_cost env status split segs).
  assert (atoms_len (segment_atoms env status split s) <= value_cost env status split s); [|lia].
  unfold segment_atoms, value_cost. destruct (segment_value env status split s) as [value []]; simpl.
  - apply blank_atoms_len.
  - rewrite chars_len. lia.
Qed.

Lemma pay_Some {A} b c (a a' : A) b' : pay b c a = Some (a', b') -> a' = a /\ c + b' = b.
Proof. unfold pay. destruct (N.leb_spec c b); intros; simplify_eq. split; [done|lia]. Qed.

Lemma charge_Some b c b' : charge b c = Some b' -> c + b' = b.
Proof. unfold charge. destruct (N.leb_spec c b); intros; simplify_eq. lia. Qed.

Lemma word_text_len env status w :
  byte_len (word_text env status w) = total_cost env status false (segments w).
Proof.
  unfold word_text. induction (segments w) as [|s segs IH]; [done|]. rewrite bind_cons. unfold byte_len in *.
  rewrite blen_app. change (total_cost env status false (s :: segs))
    with (value_cost env status false s + total_cost env status false segs). rewrite <- IH.
  unfold value_cost, byte_len. lia.
Qed.

(** ** What each part keeps *)

Section bounds.
Context (sz size_of_Vec size_of_ExpandedCommand : N).

Lemma args_cost_split fs : args_cost sz fs = fields_len fs + sz * N.of_nat (length fs).
Proof. unfold args_cost, arg_cost. induction fs as [|f fs IH]; simpl; lia. Qed.

Lemma args_cost_app fs gs : args_cost sz (fs ++ gs) = args_cost sz fs + args_cost sz gs.
Proof. rewrite !args_cost_split, fields_len_app, length_app. lia. Qed.

Lemma word_bounded w env status b fs b' :
  word sz w env status true b = Some (fs, b') -> args_cost sz fs + b' <= b.
Proof.
  rewrite word_split_spec. intros [-> <-]%pay_Some. rewrite args_cost_split, posix_fields_len.
  pose proof (word_atoms_len env status true w). lia.
Qed.

Lemma expand_words_bounded ws env status b fs b' :
  expand_words sz ws env status b = Some (fs, b') -> args_cost sz fs + b' <= b.
Proof.
  revert b fs b'. induction ws as [|w ws IH]; intros b fs b'; simpl; [intros; simplify_eq; simpl; lia|].
  intros ([fs1 b1] & Hw & ([fs2 b2] & Hr & Heq)%bind_Some)%bind_Some. simplify_eq.
  apply word_bounded in Hw. apply IH in Hr. rewrite args_cost_app. lia.
Qed.

Definition targets_cost (ts : list (list str)) : N :=
  foldr (fun t n => size_of_Vec + args_cost sz t + n) 0 ts.

Lemma expand_targets_bounded rs env status b ts b' :
  expand_targets sz size_of_Vec rs env status b = Some (ts, b') -> targets_cost ts + b' <= b.
Proof.
  revert b ts b'. induction rs as [|r rs IH]; intros b ts b'; simpl; [intros; simplify_eq; simpl; lia|].
  intros (b1 & Hc%charge_Some & ([t b2] & Ht & ([rest b3] & Hr & Heq)%bind_Some)%bind_Some)%bind_Some.
  simplify_eq. apply IH in Hr. simpl.
  assert (args_cost sz t + b2 <= b1); [|lia].
  destruct (redirect_target r); [by apply word_bounded in Ht|]. simplify_eq. simpl. lia.
Qed.

Lemma env_cost_insert k v env :
  env_cost sz (bt_insert k v env) <= env_cost sz env + 2 * sz + byte_len k + byte_len v.
Proof.
  induction env as [|[k' v'] env IH]; simpl; [lia|].
  destruct (str_compare k k'); simpl; lia.
Qed.

Lemma expand_assignments_bounded asg env status b env' b' :
  expand_assignments sz asg env status b = Some (env', b') -> env_cost sz env' + b' <= env_cost sz env + b.
Proof.
  revert env b env' b'. induction asg as [|a asg IH]; intros env b env' b'; simpl; [intros; simplify_eq; lia|].
  intros (b1 & H1%charge_Some & (b2 & H2%charge_Some & ([vs b3] & Hw & (v & Hv & Hr)%bind_Some)%bind_Some)
            %bind_Some)%bind_Some.
  rewrite word_unsplit_spec in Hw. apply pay_Some in Hw as [-> Hw]. apply IH in Hr.
  injection Hv as <-. pose proof (env_cost_insert (assignment_name a) (word_text env status (assignment_value a)) env).
  rewrite word_text_len in *. lia.
Qed.

(** The bytes an expanded command keeps alive. *)
Definition footprint (c : ExpandedCommand) : N :=
  size_of_ExpandedCommand + env_cost sz (expanded_env c) + args_cost sz (expanded_words c)
  + targets_cost (targets c).

Lemma expand_bounded c base status b ec b' :
  expand sz size_of_Vec size_of_ExpandedCommand c base status b = Some (ec, b') -> footprint ec + b' <= b.
Proof.
  unfold expand.
  intros (b1 & H1%charge_Some & (b2 & H2 & ([env b3] & H3 & ([ws b4] & H4 & ([ts b5] & H5 & Heq)%bind_Some)
            %bind_Some)%bind_Some)%bind_Some)%bind_Some.
  simplify_eq. rewrite charge_env_cost in H2. apply charge_Some in H2.
  apply expand_assignments_bounded in H3. apply expand_words_bounded in H4. apply expand_targets_bounded in H5.
  unfold footprint. simpl. lia.
Qed.
End bounds.
