(* ===== verification/VfsTypes.v ===== *)
(** * The VFS vocabulary (src/src/vfs/mod.rs) *)

From Stdlib Require Import String.
From S2P Require Import Prelude RustStr.

(** ** Errors *)

Inductive Errno :=
| EBADF | EBUSY | EXDEV | EACCES | EEXIST | EFBIG | EIO | EINVAL | EISDIR | ENOENT
| ENOSPC | ENOTDIR | ENOTEMPTY.

#[global] Instance Errno_eq_dec : EqDecision Errno.
Proof. solve_decision. Defined.

Definition errno_code (e : Errno) : Z :=
  match e with
  | EBADF => 9 | EBUSY => 16 | EXDEV => 18 | EACCES => 13 | EEXIST => 17 | EFBIG => 27
  | EIO => 5 | EINVAL => 22 | EISDIR => 21 | ENOENT => 2 | ENOSPC => 28 | ENOTDIR => 20
  | ENOTEMPTY => 39
  end.

Definition errno_name (e : Errno) : string :=
  match e with
  | EBADF => "EBADF" | EBUSY => "EBUSY" | EXDEV => "EXDEV" | EACCES => "EACCES"
  | EEXIST => "EEXIST" | EFBIG => "EFBIG" | EIO => "EIO" | EINVAL => "EINVAL"
  | EISDIR => "EISDIR" | ENOENT => "ENOENT" | ENOSPC => "ENOSPC" | ENOTDIR => "ENOTDIR"
  | ENOTEMPTY => "ENOTEMPTY"
  end.

(** ** Metadata *)

Inductive FileType := RegularFile | DirectoryType.

#[global] Instance FileType_eq_dec : EqDecision FileType.
Proof. solve_decision. Defined.

Record Metadata := mkMetadata { file_type : FileType; meta_len : Z }.

Definition is_file (m : Metadata) : bool :=
  match file_type m with RegularFile => true | DirectoryType => false end.
Definition is_dir (m : Metadata) : bool :=
  match file_type m with RegularFile => false | DirectoryType => true end.

Record DirEntry := mkDirEntry { entry_name : str; entry_metadata : Metadata }.

(** [FileHandle(u64)]. *)
Abbreviation FileHandle := Z (only parsing).

(** File contents. *)
Abbreviation bytes := (list Z) (only parsing).

(** Quota usage. *)
Record VfsStats := mkVfsStats { stats_used_bytes : Z; stats_file_count : Z }.

(** ** Open modes *)

Record OpenMode := mkOpenMode {
  m_read : bool;
  m_write : bool;
  m_create : bool;
  m_create_new : bool;
  m_truncate : bool;
  m_append : bool
}.

Definition read_only : OpenMode := mkOpenMode true false false false false false.
Definition write_only : OpenMode := mkOpenMode false true false false false false.
Definition read_write : OpenMode := mkOpenMode true true false false false false.

Definition with_create (m : OpenMode) : OpenMode :=
  mkOpenMode (m_read m) (m_write m) true (m_create_new m) (m_truncate m) (m_append m).
Definition with_create_new (m : OpenMode) : OpenMode :=
  mkOpenMode (m_read m) (m_write m) true true (m_truncate m) (m_append m).
Definition with_truncate (m : OpenMode) : OpenMode :=
  mkOpenMode (m_read m) (m_write m) (m_create m) (m_create_new m) true (m_append m).
Definition with_append (m : OpenMode) : OpenMode :=
  mkOpenMode (m_read m) true (m_create m) (m_create_new m) (m_truncate m) true.

(** [OpenMode::validate]. *)
Definition validate (m : OpenMode) : outcome Errno unit :=
  if negb (m_read m) && negb (m_write m) then Err EINVAL
  else if m_truncate m && negb (m_write m) then Err EINVAL
  else if m_append m && negb (m_write m) then Err EINVAL
  else Ok tt.
