(* ===== verification/VfsPath.v ===== *)
(** * Path normalization (src/src/vfs/path.rs)

    Every backend resolves a path with [normalize_path] before it touches its
    tree, so its guarantees are the containment guarantees of the sandbox. *)

From Stdlib Require Import Ascii String.
From S2P Require Import Prelude RustStr VfsTypes.

#[local] Open Scope nat_scope.

Definition MAX_PATH_DEPTH : nat := 256.

(** One step of the loop over [path.split('/')]. *)
Definition push_component (components : list str) (component : str)
  : outcome Errno (list str) :=
  if bool_decide (component = []) || bool_decide (component = lit ".") then Ok components
  else if bool_decide (component = lit "..") then Ok (removelast components)
  else if MAX_PATH_DEPTH <=? length components then Err EINVAL
  else Ok (components ++ [component]).

Fixpoint push_components (components : list str) (parts : list str)
  : outcome Errno (list str) :=
  match parts with
  | [] => Ok components
  | part :: parts =>
      let? components := push_component components part in push_components components parts
  end.

Definition normalize_path (path : str) : outcome Errno (list str) :=
  if bool_decide (path = []) || negb (starts_with path (lit "/")) || contains path (ch NUL)
  then Err EINVAL
  else push_components [] (split (ch "/") path).

(** A path written from its components. *)
Definition path_of (components : list str) : str := lit "/" ++ join (lit "/") components.

Example normalize_dots :
  normalize_path (lit "/workspace//./src/../out") = Ok [lit "workspace"; lit "out"].
Proof. vm_compute. reflexivity. Qed.

Example normalize_parent_of_root : normalize_path (lit "/../../workspace") = Ok [lit "workspace"].
Proof. vm_compute. reflexivity. Qed.

Example normalize_relative : normalize_path (lit "workspace/file") = Err EINVAL.
Proof. vm_compute. reflexivity. Qed.

#[global] Opaque MAX_PATH_DEPTH.

(** ** Components *)

(** What a directory entry may be called. *)
Definition component_ok (c : str) : Prop :=
  c <> [] /\ c <> lit "." /\ c <> lit ".." /\ contains c (ch "/") = false
  /\ contains c (ch NUL) = false.

Definition path_ok (p : list str) : Prop := Forall component_ok p /\ length p <= MAX_PATH_DEPTH.

Lemma removelast_incl {A} (l : list A) x : x ∈ removelast l -> x ∈ l.
Proof.
  destruct l as [|y l _] using rev_ind; [done|]. rewrite removelast_last. set_solver.
Qed.

Lemma length_removelast {A} (l : list A) : length (removelast l) = length l - 1.
Proof. destruct l as [|y l _] using rev_ind; [done|]. rewrite removelast_last, length_app. simpl. lia. Qed.

Definition part_ok (c : str) : Prop := contains c (ch "/") = false /\ contains c (ch NUL) = false.

Lemma push_component_ok cs c :
  path_ok cs -> part_ok c ->
  match push_component cs c with
  | Ok cs' => path_ok cs'
  | Err e => e = EINVAL
  | _ => False
  end.
Proof.
  intros [Hall Hlen] [Hs Hn]. unfold push_component.
  destruct (bool_decide (c = []) || bool_decide (c = lit ".")) eqn:H1; [done|]. unbool.
  case_bool_decide; [|destruct (MAX_PATH_DEPTH <=? length cs) eqn:H2; unbool; [done|]].
  - split; [|rewrite length_removelast; lia]. apply Forall_forall. intros x Hx%removelast_incl.
    by eapply Forall_forall.
  - split; [|rewrite length_app; simpl; lia].
    apply Forall_app; split; [done|]. by apply Forall_singleton.
Qed.

Lemma push_components_ok cs parts :
  path_ok cs -> Forall part_ok parts ->
  match push_components cs parts with
  | Ok cs' => path_ok cs'
  | Err e => e = EINVAL
  | _ => False
  end.
Proof.
  intros Hcs Hp. revert cs Hcs. induction Hp as [|c parts Hc _ IH]; intros cs Hcs; simpl; [done|].
  pose proof (push_component_ok cs c Hcs Hc) as H.
  destruct (push_component cs c); simpl; try done. by apply IH.
Qed.

Lemma contains_app s t c : contains (s ++ t) c = contains s c || contains t c.
Proof. apply existsb_app. Qed.

Lemma split_parts_of c d s :
  contains s d = false -> Forall (fun p => contains p d = false) (split c s).
Proof.
  induction s as [|x s IH]; simpl; [by repeat constructor|]. intros [Hx Hs]%orb_false_iff.
  specialize (IH Hs). destruct (x =? c)%N; [by constructor|].
  destruct (split c s) as [|p ps]; [apply Forall_singleton; simpl; by rewrite Hx|].
  apply Forall_cons in IH as [Hp Hps]. constructor; [|done]. simpl. by rewrite Hx.
Qed.

(** ** Round trip *)

Lemma push_components_names cs ps :
  Forall component_ok ps -> length cs + length ps <= MAX_PATH_DEPTH ->
  push_components cs ps = Ok (cs ++ ps).
Proof.
  intros Hall. revert cs. induction Hall as [|c ps (H1 & H2 & H3 & _) _ IH]; intros cs Hlen; simpl.
  - by rewrite app_nil_r.
  - unfold push_component. rewrite !bool_decide_eq_false_2 by done. simpl in *.
    replace (MAX_PATH_DEPTH <=? length cs) with false by (symmetry; apply Nat.leb_gt; lia).
    simpl. rewrite IH; [by rewrite <- app_assoc|]. rewrite length_app. simpl. lia.
Qed.

Lemma split_app_sep c p s : contains p c = false -> split c (p ++ c :: s) = p :: split c s.
Proof.
  induction p as [|d p IH]; simpl; [by rewrite N.eqb_refl|]. intros [Hd Hp]%orb_false_iff.
  rewrite N.eqb_sym, Hd, IH by done. done.
Qed.

Lemma split_one c p : contains p c = false -> split c p = [p].
Proof.
  induction p as [|d p IH]; simpl; [done|]. intros [Hd Hp]%orb_false_iff.
  by rewrite N.eqb_sym, Hd, IH.
Qed.

Lemma split_join c ps :
  ps <> [] -> Forall (fun p => contains p c = false) ps -> split c (join [c] ps) = ps.
Proof.
  intros Hne Hall. induction Hall as [|p ps Hp Hps IH]; [done|]. destruct ps as [|q ps].
  - by apply split_one.
  - change (join [c] (p :: q :: ps)) with (p ++ c :: join [c] (q :: ps)).
    rewrite split_app_sep by done. by rewrite IH.
Qed.

Lemma contains_join c d ps :
  (c =? d)%N = false -> Forall (fun p => contains p d = false) ps -> contains (join [c] ps) d = false.
Proof.
  intros Hcd. induction 1 as [|p ps Hp Hps IH]; [done|]. destruct ps as [|q ps]; [done|].
  change (join [c] (p :: q :: ps)) with (p ++ c :: join [c] (q :: ps)).
  rewrite contains_app, Hp. change (contains (c :: ?x) d) with ((d =? c)%N || contains x d).
  by rewrite N.eqb_sym, Hcd, IH.
Qed.

Lemma normalize_path_of ps : path_ok ps -> normalize_path (path_of ps) = Ok ps.
Proof.
  intros [Hall Hlen]. unfold normalize_path, path_of.
  change (lit "/" ++ ?x) with (ch "/" :: x). change (lit "/") with [ch "/"].
  assert (contains (ch "/" :: join [ch "/"] ps) (ch NUL) = false) as Hnul.
  { simpl. apply (contains_join (ch "/") (ch NUL)); [done|]. eapply Forall_impl; [exact Hall|].
    by intros p (_ & _ & _ & _ & ?). }
  rewrite Hnul. transitivity (push_components [] (split (ch "/") (join [ch "/"] ps))); [done|].
  destruct ps as [|p ps]; [done|].
  rewrite split_join; [|done|].
  - by apply (push_components_names []).
  - eapply Forall_impl; [exact Hall|]. by intros q (_ & _ & _ & ? & _).
Qed.

Lemma normalize_path_post p :
  match normalize_path p with
  | Ok ps => path_ok ps
  | Err e => e = EINVAL
  | _ => False
  end.
Proof.
  unfold normalize_path. destruct (_ || _ || contains p (ch NUL)) eqn:H; [done|]. unbool.
  apply push_components_ok; [split; [done|simpl; lia]|].
  pose proof (split_parts_of (ch "/") (ch NUL) p ltac:(done)) as Hnul.
  pose proof (split_no_sep (ch "/") p) as Hsep.
  rewrite Forall_forall in *. intros c Hc. split; auto.
Qed.
