(* ===== verification/VfsIface.v ===== *)
(** * The [Vfs] trait (src/src/vfs/mod.rs) as an interface

    An [Arc<dyn Vfs>] is a shared object: its methods act on a world [W] that
    holds the state of every backend.  [Vfs W] is the record of its methods;
    [VfsLaws] is what a client may rely on: in a world that satisfies the
    invariant no method panics or diverges, and the invariant holds afterwards
    whether the method succeeds or fails. *)

From S2P Require Import Prelude RustStr VfsTypes.

Record Vfs (W : Type) := mkVfs {
  v_stat : str -> ST W Errno Metadata;
  v_readdir : str -> ST W Errno (list DirEntry);
  v_mkdir : str -> ST W Errno unit;
  v_rename : str -> str -> ST W Errno unit;
  v_unlink : str -> ST W Errno unit;
  v_rmdir : str -> ST W Errno unit;
  v_open : str -> OpenMode -> ST W Errno FileHandle;
  v_read_at : FileHandle -> Z -> bytes -> ST W Errno (Z * bytes);
  v_write_at : FileHandle -> Z -> bytes -> ST W Errno Z;
  v_truncate : FileHandle -> Z -> ST W Errno unit;
  v_close : FileHandle -> ST W Errno unit;
  v_abort : FileHandle -> ST W Errno unit;
  v_is_fast_path : str -> bool;
  v_is_fast_handle : FileHandle -> W -> bool;
  v_is_fast : bool;
  v_stats : W -> option (outcome Errno VfsStats)
}.

Arguments mkVfs {W}.
Arguments v_stat {W}.
Arguments v_readdir {W}.
Arguments v_mkdir {W}.
Arguments v_rename {W}.
Arguments v_unlink {W}.
Arguments v_rmdir {W}.
Arguments v_open {W}.
Arguments v_read_at {W}.
Arguments v_write_at {W}.
Arguments v_truncate {W}.
Arguments v_close {W}.
Arguments v_abort {W}.
Arguments v_is_fast_path {W}.
Arguments v_is_fast_handle {W}.
Arguments v_is_fast {W}.
Arguments v_stats {W}.

(** [m] returns in every world of [I], and stays in [I]. *)
Definition keeps_inv {W A} (I : W -> Prop) (m : ST W Errno A) (w : W) : Prop :=
  wp m w (fun _ w' => I w') (fun _ w' => I w').

(** A read fills the buffer it is given and reports how much of it, as a
    [usize]. *)
Definition read_reply (buf : bytes) (r : Z * bytes) : Prop := 0 <= r.1 /\ length r.2 = length buf.

(** A read from contents [d]: the bytes from the offset on, as many as there are
    and as the buffer holds; the rest of the buffer is untouched. *)
Definition read_result (d : bytes) (offset : Z) (buf : bytes) : Z * bytes :=
  let got := take (length buf) (drop (Z.to_nat offset) d) in
  (len got, got ++ drop (length got) buf).

(** [Room] says that the counters of the implementation can serve one more
    [open]. *)
Class VfsLaws {W : Type} (I Room : W -> Prop) (v : Vfs W) : Prop := {
  law_stat p w : I w -> keeps_inv I (v_stat v p) w;
  law_readdir p w : I w -> keeps_inv I (v_readdir v p) w;
  law_mkdir p w : I w -> keeps_inv I (v_mkdir v p) w;
  law_rename a b w : I w -> keeps_inv I (v_rename v a b) w;
  law_unlink p w : I w -> keeps_inv I (v_unlink v p) w;
  law_rmdir p w : I w -> keeps_inv I (v_rmdir v p) w;
  law_open p m w : I w -> Room w -> keeps_inv I (v_open v p m) w;
  law_read_at h o b w :
    I w -> wp (v_read_at v h o b) w (fun r w' => I w' /\ read_reply b r) (fun _ w' => I w');
  law_write_at h o b w :
    I w -> wp (v_write_at v h o b) w (fun n w' => I w' /\ 0 <= n) (fun _ w' => I w');
  law_truncate h n w : I w -> keeps_inv I (v_truncate v h n) w;
  law_close h w : I w -> keeps_inv I (v_close v h) w;
  law_abort h w : I w -> keeps_inv I (v_abort v h) w
}.

(** A client that owns handles relies on more: [owned] are the handles the
    implementation has given out; [open] adds a new one, [close] and [abort]
    consume theirs whatever they return, and nothing else touches them. *)
Section owned.
Context {W : Type} (I Room : W -> Prop) (owned : W -> gset Z).

Definition keeps_fds {A} (m : ST W Errno A) (w : W) : Prop :=
  wp m w (fun _ w' => I w' /\ owned w' = owned w) (fun _ w' => I w' /\ owned w' = owned w).

Class FdLaws (v : Vfs W) : Prop := {
  fd_stat p w : I w -> keeps_fds (v_stat v p) w;
  fd_readdir p w : I w -> keeps_fds (v_readdir v p) w;
  fd_mkdir p w : I w -> keeps_fds (v_mkdir v p) w;
  fd_rename a b w : I w -> keeps_fds (v_rename v a b) w;
  fd_unlink p w : I w -> keeps_fds (v_unlink v p) w;
  fd_rmdir p w : I w -> keeps_fds (v_rmdir v p) w;
  fd_open p m w :
    I w -> Room w ->
    wp (v_open v p m) w (fun h w' => I w' /\ (h ∉ owned w) /\ owned w' = ({[h]} ∪ owned w))
       (fun _ w' => I w' /\ owned w' = owned w);
  fd_read_at h o b w :
    I w -> wp (v_read_at v h o b) w (fun r w' => (I w' /\ owned w' = owned w) /\ read_reply b r)
             (fun _ w' => I w' /\ owned w' = owned w);
  fd_write_at h o b w :
    I w -> wp (v_write_at v h o b) w (fun n w' => (I w' /\ owned w' = owned w) /\ 0 <= n)
             (fun _ w' => I w' /\ owned w' = owned w);
  fd_truncate h n w : I w -> keeps_fds (v_truncate v h n) w;
  fd_close h w :
    I w -> wp (v_close v h) w (fun _ w' => I w' /\ owned w' = owned w ∖ {[h]})
             (fun _ w' => I w' /\ owned w' = owned w ∖ {[h]});
  fd_abort h w :
    I w -> wp (v_abort v h) w (fun _ w' => I w' /\ owned w' = owned w ∖ {[h]})
             (fun _ w' => I w' /\ owned w' = owned w ∖ {[h]})
}.

(** What a client needs that only gives up handles it owns, so that [owned] may
    also be the handles that are its own among several clients. *)
Class OwnerLaws (v : Vfs W) : Prop := {
  own_stat p w : I w -> keeps_fds (v_stat v p) w;
  own_readdir p w : I w -> keeps_fds (v_readdir v p) w;
  own_mkdir p w : I w -> keeps_fds (v_mkdir v p) w;
  own_rename a b w : I w -> keeps_fds (v_rename v a b) w;
  own_unlink p w : I w -> keeps_fds (v_unlink v p) w;
  own_rmdir p w : I w -> keeps_fds (v_rmdir v p) w;
  own_open p m w :
    I w -> Room w ->
    wp (v_open v p m) w (fun h w' => I w' /\ (h ∉ owned w) /\ owned w' = ({[h]} ∪ owned w))
       (fun _ w' => I w' /\ owned w' = owned w);
  own_read_at h o b w :
    I w -> wp (v_read_at v h o b) w (fun r w' => (I w' /\ owned w' = owned w) /\ read_reply b r)
             (fun _ w' => I w' /\ owned w' = owned w);
  own_write_at h o b w :
    I w -> wp (v_write_at v h o b) w (fun n w' => (I w' /\ owned w' = owned w) /\ 0 <= n)
             (fun _ w' => I w' /\ owned w' = owned w);
  own_truncate h n w : I w -> keeps_fds (v_truncate v h n) w;
  own_close h w :
    I w -> h ∈ owned w ->
    wp (v_close v h) w (fun _ w' => I w' /\ owned w' = owned w ∖ {[h]})
       (fun _ w' => I w' /\ owned w' = owned w ∖ {[h]});
  own_abort h w :
    I w -> h ∈ owned w ->
    wp (v_abort v h) w (fun _ w' => I w' /\ owned w' = owned w ∖ {[h]})
       (fun _ w' => I w' /\ owned w' = owned w ∖ {[h]})
}.

#[global] Instance fd_owner_laws v : FdLaws v -> OwnerLaws v.
Proof. intros []. constructor; auto. Qed.

#[global] Instance fd_vfs_laws v : FdLaws v -> VfsLaws I Room v.
Proof.
  intros H. constructor; intros;
    (eapply wp_mono; [by first [apply fd_stat|apply fd_readdir|apply fd_mkdir|apply fd_rename|apply fd_unlink
      |apply fd_rmdir|apply fd_open|apply fd_read_at|apply fd_write_at|apply fd_truncate|apply fd_close
      |apply fd_abort]|naive_solver..]).
Qed.
End owned.

(** A client that opens several files relies on room for all of them: [Rooms n]
    says that the counters of the implementation can serve [n] more [open]s. *)
Class RoomLaws {W : Type} (I Room : W -> Prop) (Rooms : nat -> W -> Prop) (v : Vfs W) : Prop := {
  rooms_room n w : Rooms (S n) w -> Room w;
  rooms_less n w : Rooms (S n) w -> Rooms n w;
  rooms_stat n p w : I w -> Rooms n w -> wp (v_stat v p) w (fun _ w' => Rooms n w') (fun _ w' => Rooms n w');
  rooms_open n p m w :
    I w -> Rooms (S n) w -> wp (v_open v p m) w (fun _ w' => Rooms n w') (fun _ w' => Rooms n w');
  rooms_read_at n h o b w :
    I w -> Rooms n w -> wp (v_read_at v h o b) w (fun _ w' => Rooms n w') (fun _ w' => Rooms n w');
  rooms_write_at n h o b w :
    I w -> Rooms n w -> wp (v_write_at v h o b) w (fun _ w' => Rooms n w') (fun _ w' => Rooms n w');
  rooms_close n h w :
    I w -> Rooms n w -> wp (v_close v h) w (fun _ w' => Rooms n w') (fun _ w' => Rooms n w');
  rooms_abort n h w :
    I w -> Rooms n w -> wp (v_abort v h) w (fun _ w' => Rooms n w') (fun _ w' => Rooms n w')
}.
