(* ===== verification/MemVfs.v ===== *)
(** * The in-memory VFS (src/src/vfs/mem.rs): state and operations

    A method locks the state, so it is one [ST] computation.  [Arc<Vec<u8>>]
    buffers are copied before they are written whenever they are shared, so a
    buffer is a value: the two ways [resize_file] shrinks a buffer give the same
    bytes.  [+=] and [-=] on counters are checked: an overflow is a [Panic], and so is
    growing a buffer above [ISIZE_MAX] bytes. *)

From Stdlib Require Import String.
From S2P Require Import Prelude RustStr BTreeMap VfsTypes VfsPath.

(** ** Data *)

Abbreviation Inode := Z (only parsing).

#[warnings="-register-all"]
Inductive Node :=
| File (inode : Inode)
| Directory (entries : list (str * Node)).

(** [type Directory = BTreeMap<String, Node>]. *)
Abbreviation Entries := (list (str * Node)) (only parsing).

Inductive NodeKind := KFile | KDirectory.

#[global] Instance NodeKind_eq_dec : EqDecision NodeKind.
Proof. solve_decision. Defined.

Record FileNode := mkFileNode { data : bytes; links : Z; open_handles : Z }.

Record Handle := mkHandle {
  h_inode : Inode;
  h_readable : bool;
  h_writable : bool;
  h_append : bool
}.

Record State := mkState {
  root : Node;
  files : gmap Z FileNode;
  next_inode : Inode;
  next_handle : Z;
  handles : gmap Z Handle;
  used_bytes : Z;
  file_count : Z
}.

(** [State::default]. *)
Definition initial_state : State := mkState (Directory []) ∅ 1 1 ∅ 0 0.

Record VfsQuota := mkVfsQuota { max_bytes : Z; max_files : Z; max_file_size : Z }.
Definition unlimited : VfsQuota := mkVfsQuota U64_MAX U64_MAX U64_MAX.

Record SnapshotState := mkSnapshot {
  s_root : Node;
  s_files : gmap Z FileNode;
  s_next_inode : Inode;
  s_used_bytes : Z;
  s_file_count : Z
}.

(** Field assignments on the locked state. *)
Definition set_root (n : Node) (s : State) : State :=
  mkState n (files s) (next_inode s) (next_handle s) (handles s) (used_bytes s) (file_count s).
Definition set_files (f : gmap Z FileNode) (s : State) : State :=
  mkState (root s) f (next_inode s) (next_handle s) (handles s) (used_bytes s) (file_count s).
Definition set_next_inode (n : Z) (s : State) : State :=
  mkState (root s) (files s) n (next_handle s) (handles s) (used_bytes s) (file_count s).
Definition set_next_handle (n : Z) (s : State) : State :=
  mkState (root s) (files s) (next_inode s) n (handles s) (used_bytes s) (file_count s).
Definition set_handles (h : gmap Z Handle) (s : State) : State :=
  mkState (root s) (files s) (next_inode s) (next_handle s) h (used_bytes s) (file_count s).
Definition set_used_bytes (n : Z) (s : State) : State :=
  mkState (root s) (files s) (next_inode s) (next_handle s) (handles s) n (file_count s).
Definition set_file_count (n : Z) (s : State) : State :=
  mkState (root s) (files s) (next_inode s) (next_handle s) (handles s) (used_bytes s) n.

(** Updates of a [FileNode] through [get_mut]. *)
Definition with_data (d : bytes) (f : FileNode) : FileNode := mkFileNode d (links f) (open_handles f).
Definition with_links (n : Z) (f : FileNode) : FileNode := mkFileNode (data f) n (open_handles f).
Definition with_open_handles (n : Z) (f : FileNode) : FileNode := mkFileNode (data f) (links f) n.

Abbreviation M := (ST State Errno).

(** [state.field = state.field + delta] and [- delta], overflow checked. *)
Definition add_file_count (n : Z) : M unit :=
  let! s := sget in
  let! c := slift (u64_add (file_count s) n) in
  sput (set_file_count c s).
Definition sub_file_count (n : Z) : M unit :=
  let! s := sget in
  let! c := slift (u64_sub (file_count s) n) in
  sput (set_file_count c s).

(** ** The tree *)

Definition node_kind (n : Node) : NodeKind :=
  match n with File _ => KFile | Directory _ => KDirectory end.

Fixpoint get_node (current : Node) (path : list str) : outcome Errno Node :=
  match path with
  | [] => Ok current
  | component :: path =>
      match current with
      | File _ => Err ENOTDIR
      | Directory entries =>
          match bt_get component entries with
          | Some child => get_node child path
          | None => Err ENOENT
          end
      end
  end.

(** [get_node_mut] followed by an update of the directory it reaches: [f] may
    fail, and then nothing changes. *)
Fixpoint update_dir {A} (current : Node) (path : list str)
    (f : Entries -> outcome Errno (A * Entries)) : outcome Errno (A * Node) :=
  match path with
  | [] =>
      match current with
      | File _ => Err ENOTDIR
      | Directory entries =>
          let? (a, entries) := f entries in Ok (a, Directory entries)
      end
  | component :: path =>
      match current with
      | File _ => Err ENOTDIR
      | Directory entries =>
          let? child := ok_or ENOENT (bt_get component entries) in
          let? (a, child) := update_dir child path f in
          Ok (a, Directory (bt_insert component child entries))
      end
  end.

(** [let (parent, name) = parent_dir_mut(&mut state.root, &path)?;] and what the
    caller then does with [parent] and [name]. *)
Definition parent_dir_mut {A} (path : list str) (f : str -> Entries -> outcome Errno (A * Entries))
  : M A :=
  let! s := sget in
  match split_last path with
  | None => sfail EINVAL
  | Some (parent_path, name) =>
      let! (a, root) := slift (update_dir (root s) parent_path (f name)) in
      let! _ := sput (set_root root s) in
      sret a
  end.

Definition ensure_parent_is_dir (root : Node) (path : list str) : outcome Errno unit :=
  match split_last path with
  | None => Err EINVAL
  | Some (parent_path, _) =>
      let? n := get_node root parent_path in
      match n with File _ => Err ENOTDIR | Directory _ => Ok tt end
  end.

Definition has_prefix (path prefix : list str) : bool :=
  (length prefix <=? length path)%nat && bool_decide (take (length prefix) path = prefix).

Definition metadata_for_node (s : State) (n : Node) : outcome Errno Metadata :=
  match n with
  | File inode =>
      let? f := ok_or ENOENT (files s !! inode) in
      Ok (mkMetadata RegularFile (Z.min (len (data f)) U64_MAX))
  | Directory _ => Ok (mkMetadata DirectoryType 0)
  end.

(** Number of nodes, which bounds the loop of [subtree_fits]. *)
Fixpoint node_size (n : Node) : nat :=
  match n with
  | File _ => 1
  | Directory entries => S (foldr (fun e acc => (node_size e.2 + acc)%nat) 0%nat entries)
  end.

(** The [while let] loop over a stack of iterators; the head of the list is
    [stack.last_mut()]. *)
Fixpoint subtree_fits_loop (fuel : nat) (allowance : nat) (stack : list (list Node))
  : outcome Errno bool :=
  match fuel with
  | O => OutOfFuel
  | S fuel =>
      match stack with
      | [] => Ok true
      | [] :: stack => subtree_fits_loop fuel allowance stack
      | (child :: entries) :: below =>
          let stack := entries :: below in
          if (allowance <? length stack)%nat then Ok false
          else
            match child with
            | Directory children =>
                subtree_fits_loop fuel allowance (bt_values children :: stack)
            | File _ => subtree_fits_loop fuel allowance stack
            end
      end
  end.

Definition subtree_fits (n : Node) (allowance : nat) : outcome Errno bool :=
  match n with
  | File _ => Ok true
  | Directory entries =>
      subtree_fits_loop (2 * node_size n + 1) allowance [bt_values entries]
  end.

(** ** Quotas *)

Section vfs.
Context (quota : VfsQuota).

Definition ensure_entry_slot (s : State) : outcome Errno unit :=
  if max_files quota <=? file_count s then Err ENOSPC else Ok tt.

Definition adjusted_used_bytes (used old_len new_len : Z) : outcome Errno Z :=
  let? old_len := u64_try_from EINVAL old_len in
  let? new_len := u64_try_from ENOSPC new_len in
  if old_len <=? new_len then ok_or ENOSPC (checked_add used (new_len - old_len))
  else u64_sub used (old_len - new_len).

(** The bytes, cut or filled with zeroes to another length. *)
Definition resize (d : bytes) (new_len : Z) : bytes :=
  take (Z.to_nat new_len) d ++ replicate (Z.to_nat (new_len - len d)) 0.

(** [Vec::resize(new_len, 0)]: growing reserves the room first, and panics with a
    capacity overflow when a vector cannot be that long. *)
Definition vec_resize {E} (d : bytes) (new_len : Z) : outcome E bytes :=
  if (len d <? new_len) && (ISIZE_MAX <? new_len) then Panic else Ok (resize d new_len).

Definition resize_file (inode : Inode) (new_len : Z) : M unit :=
  let! s := sget in
  let! f := slift (ok_or ENOENT (files s !! inode)) in
  let old_len := len (data f) in
  let! new_len_u64 := slift (u64_try_from ENOSPC new_len) in
  if max_file_size quota <? new_len_u64 then sfail ENOSPC
  else
    let! used := slift (adjusted_used_bytes (used_bytes s) old_len new_len) in
    if max_bytes quota <? used then sfail ENOSPC
    else
      let! d := slift (vec_resize (data f) new_len) in
      let s := set_files (<[inode := with_data d f]> (files s)) s in
      sput (set_used_bytes used s).

(** ** Releasing files *)

Definition release_file_if_unreferenced (inode : Inode) : M unit :=
  let! s := sget in
  match files s !! inode with
  | None => sret tt
  | Some f =>
      if (0 <? links f) || (0 <? open_handles f) then sret tt
      else
        let s := set_files (delete inode (files s)) s in
        let! _ := sput s in
        let! n := slift (u64_try_from EINVAL (len (data f))) in
        let! used := slift (u64_sub (used_bytes s) n) in
        let! _ := sput (set_used_bytes used s) in
        sub_file_count 1
  end.

Fixpoint remove_tree (n : Node) : M unit :=
  match n with
  | File inode =>
      let! s := sget in
      let! f := slift (ok_or ENOENT (files s !! inode)) in
      let! l := slift (u64_sub (links f) 1) in
      let! _ := sput (set_files (<[inode := with_links l f]> (files s)) s) in
      release_file_if_unreferenced inode
  | Directory entries =>
      let! _ := (fix go (es : Entries) : M unit :=
                   match es with
                   | [] => sret tt
                   | (_, child) :: es => let! _ := remove_tree child in go es
                   end) entries in
      sub_file_count 1
  end.

(** ** Path operations *)

Definition stat (path : str) : M Metadata :=
  let! path := slift (normalize_path path) in
  let! s := sget in
  let! n := slift (get_node (root s) path) in
  slift (metadata_for_node s n).

Fixpoint read_entries (s : State) (es : Entries) : outcome Errno (list DirEntry) :=
  match es with
  | [] => Ok []
  | (name, n) :: es =>
      let? m := metadata_for_node s n in
      let? rest := read_entries s es in
      Ok (mkDirEntry name m :: rest)
  end.

Definition readdir (path : str) : M (list DirEntry) :=
  let! path := slift (normalize_path path) in
  let! s := sget in
  let! n := slift (get_node (root s) path) in
  match n with
  | File _ => sfail ENOTDIR
  | Directory entries => slift (read_entries s entries)
  end.

Definition insert_entry (n : Node) (name : str) (parent : Entries)
  : outcome Errno (option Node * Entries) :=
  Ok (bt_get name parent, bt_insert name n parent).

Definition mkdir (path : str) : M unit :=
  let! path := slift (normalize_path path) in
  if bool_decide (path = []) then sfail EEXIST
  else
    let! s := sget in
    let! _ := slift (match get_node (root s) path with
                     | Ok _ => Err EEXIST
                     | Err e => if bool_decide (e = ENOENT) then Ok tt else Err e
                     | Panic => Panic
                     | OutOfFuel => OutOfFuel
                     end) in
    let! _ := slift (ensure_parent_is_dir (root s) path) in
    let! _ := slift (ensure_entry_slot s) in
    let! _ := parent_dir_mut path (insert_entry (Directory [])) in
    add_file_count 1.

Definition remove_entry (name : str) (parent : Entries) : outcome Errno (Node * Entries) :=
  let? n := ok_or ENOENT (bt_get name parent) in Ok (n, bt_remove name parent).

(** The checks [rename] makes on an existing target. *)
Definition check_rename_target (source_kind : NodeKind) (target : Node) : outcome Errno unit :=
  match source_kind, target with
  | KFile, File _ => Ok tt
  | KFile, Directory _ => Err EISDIR
  | KDirectory, File _ => Err ENOTDIR
  | KDirectory, Directory entries =>
      if negb (bool_decide (length entries = 0%nat)) then Err ENOTEMPTY else Ok tt
  end.

Definition rename (from to : str) : M unit :=
  let! from_path := slift (normalize_path from) in
  let! to_path := slift (normalize_path to) in
  if bool_decide (from_path = []) || bool_decide (to_path = []) then sfail EINVAL
  else
    let! s := sget in
    let! source := slift (get_node (root s) from_path) in
    let source_kind := node_kind source in
    if bool_decide (from_path = to_path) then sret tt
    else if bool_decide (source_kind = KDirectory) && has_prefix to_path from_path
    then sfail EINVAL
    else
      let! _ := slift (ensure_parent_is_dir (root s) to_path) in
      let! _ := slift (match get_node (root s) to_path with
                       | Ok target => check_rename_target source_kind target
                       | Err e => if bool_decide (e = ENOENT) then Ok tt else Err e
                       | Panic => Panic
                       | OutOfFuel => OutOfFuel
                       end) in
      let! too_deep :=
        (if bool_decide (source_kind = KDirectory)
            && (length from_path <? length to_path)%nat then
           let! n := slift (get_node (root s) from_path) in
           let! fits := slift (subtree_fits n (MAX_PATH_DEPTH - length to_path)) in
           sret (negb fits)
         else sret false) in
      if too_deep then sfail EINVAL
      else
        let! removed := parent_dir_mut from_path remove_entry in
        let! replaced := parent_dir_mut to_path (insert_entry removed) in
        match replaced with
        | Some replaced => remove_tree replaced
        | None => sret tt
        end.

Definition unlink_entry (name : str) (parent : Entries) : outcome Errno (Node * Entries) :=
  match bt_get name parent with
  | Some (File _) => remove_entry name parent
  | Some (Directory _) => Err EISDIR
  | None => Err ENOENT
  end.

Definition unlink (path : str) : M unit :=
  let! path := slift (normalize_path path) in
  if bool_decide (path = []) then sfail EISDIR
  else
    let! removed := parent_dir_mut path unlink_entry in
    remove_tree removed.

Definition rmdir_entry (name : str) (parent : Entries) : outcome Errno (Node * Entries) :=
  match bt_get name parent with
  | Some (File _) => Err ENOTDIR
  | Some (Directory entries) =>
      if negb (bool_decide (length entries = 0%nat)) then Err ENOTEMPTY
      else remove_entry name parent
  | None => Err ENOENT
  end.

Definition rmdir (path : str) : M unit :=
  let! path := slift (normalize_path path) in
  if bool_decide (path = []) then sfail EBUSY
  else
    let! removed := parent_dir_mut path rmdir_entry in
    remove_tree removed.

(** ** Handles *)

(** The branch of [open] that creates the file. *)
Definition create_file (path : list str) : M Inode :=
  let! s := sget in
  let! _ := slift (ensure_parent_is_dir (root s) path) in
  let! _ := slift (ensure_entry_slot s) in
  let inode := next_inode s in
  let! next := slift (u64_add (next_inode s) 1) in
  let s := set_next_inode next s in
  let! _ := sput (set_files (<[inode := mkFileNode [] 1 0]> (files s)) s) in
  let! _ := parent_dir_mut path (insert_entry (File inode)) in
  let! _ := add_file_count 1 in
  sret inode.

Definition open_inode (path : list str) (mode : OpenMode) : M Inode :=
  let! s := sget in
  match get_node (root s) path with
  | Ok (Directory _) => sfail EISDIR
  | Ok (File inode) =>
      if m_create_new mode then sfail EEXIST
      else if m_truncate mode then
        let! _ := resize_file inode 0 in sret inode
      else sret inode
  | Err e =>
      if bool_decide (e = ENOENT) && (m_create mode || m_create_new mode)
      then create_file path
      else sfail e
  | Panic => slift Panic
  | OutOfFuel => slift OutOfFuel
  end.

Definition open (path : str) (mode : OpenMode) : M FileHandle :=
  let! _ := slift (validate mode) in
  let! path := slift (normalize_path path) in
  let! inode := open_inode path mode in
  let! s := sget in
  let handle := next_handle s in
  let! next := slift (u64_add (next_handle s) 1) in
  let s := set_next_handle next s in
  let s := set_handles
             (<[handle := mkHandle inode (m_read mode) (m_write mode) (m_append mode)]>
                (handles s)) s in
  let! _ := sput s in
  let! f := slift (ok_or ENOENT (files s !! inode)) in
  let! n := slift (u64_add (open_handles f) 1) in
  let! _ := sput (set_files (<[inode := with_open_handles n f]> (files s)) s) in
  sret handle.

(** Returns the number of bytes read and the buffer after the call. *)
Definition read_at (handle : FileHandle) (offset : Z) (buf : bytes) : M (Z * bytes) :=
  let! offset := slift (usize_try_from EINVAL offset) in
  let! s := sget in
  let! h := slift (ok_or EBADF (handles s !! handle)) in
  if negb (h_readable h) then sfail EBADF
  else
    let! f := slift (ok_or ENOENT (files s !! h_inode h)) in
    if len (data f) <=? offset then sret (0, buf)
    else
      let n := Z.min (len (data f) - offset) (len buf) in
      sret (n, take (Z.to_nat n) (drop (Z.to_nat offset) (data f)) ++ drop (Z.to_nat n) buf).

(** [buf[start..start + new.len()].copy_from_slice(new)]. *)
Definition splice (d : bytes) (start : Z) (new : bytes) : bytes :=
  take (Z.to_nat start) d ++ new ++ drop (Z.to_nat start + length new) d.

Definition write_at (handle : FileHandle) (offset : Z) (new : bytes) : M Z :=
  let! s := sget in
  let! h := slift (ok_or EBADF (handles s !! handle)) in
  if negb (h_writable h) then sfail EBADF
  else if bool_decide (new = []) then sret 0
  else
    let! offset := slift (usize_try_from EINVAL offset) in
    let! f := slift (ok_or ENOENT (files s !! h_inode h)) in
    let old_len := len (data f) in
    let write_offset := if h_append h then old_len else offset in
    let! write_end := slift (ok_or EINVAL (checked_add write_offset (len new))) in
    let new_len := Z.max old_len write_end in
    let! _ := resize_file (h_inode h) new_len in
    let! s := sget in
    let! f := slift (ok_or ENOENT (files s !! h_inode h)) in
    let! _ := sput (set_files (<[h_inode h := with_data (splice (data f) write_offset new) f]>
                                 (files s)) s) in
    sret (len new).

Definition truncate (handle : FileHandle) (n : Z) : M unit :=
  let! n := slift (usize_try_from ENOSPC n) in
  let! s := sget in
  let! h := slift (ok_or EBADF (handles s !! handle)) in
  if negb (h_writable h) then sfail EINVAL
  else resize_file (h_inode h) n.

Definition close (handle : FileHandle) : M unit :=
  let! s := sget in
  let! h := slift (ok_or EBADF (handles s !! handle)) in
  let s := set_handles (delete handle (handles s)) s in
  let! _ := sput s in
  let! f := slift (ok_or ENOENT (files s !! h_inode h)) in
  let! n := slift (u64_sub (open_handles f) 1) in
  let! _ := sput (set_files (<[h_inode h := with_open_handles n f]> (files s)) s) in
  release_file_if_unreferenced (h_inode h).

Definition stats (s : State) : VfsStats := mkVfsStats (used_bytes s) (file_count s).

(** ** Snapshots *)

Fixpoint collect_snapshot_entries (n : Node) (state_files : gmap Z FileNode)
    (acc : gmap Z FileNode * Z * Z) : outcome Errno (gmap Z FileNode * Z * Z) :=
  match n with
  | File inode =>
      let '(snapshot_files, used, count) := acc in
      let? f := ok_or ENOENT (state_files !! inode) in
      let? n := u64_try_from EINVAL (len (data f)) in
      let? used := ok_or ENOSPC (checked_add used n) in
      let? count := ok_or ENOSPC (checked_add count 1) in
      Ok (<[inode := mkFileNode (data f) 1 0]> snapshot_files, used, count)
  | Directory entries =>
      (fix go (es : Entries) (acc : gmap Z FileNode * Z * Z) :=
         match es with
         | [] => Ok acc
         | (_, child) :: es =>
             let '(snapshot_files, used, count) := acc in
             let? count := ok_or ENOSPC
               (checked_add count (match child with Directory _ => 1 | File _ => 0 end)) in
             let? acc := collect_snapshot_entries child state_files (snapshot_files, used, count) in
             go es acc
         end) entries acc
  end.

(** [SnapshotState::from_state]. *)
Definition snapshot_from_state (s : State) : outcome Errno SnapshotState :=
  let? (fs, used, count) := collect_snapshot_entries (root s) (files s) (∅, 0, 0) in
  Ok (mkSnapshot (root s) fs (next_inode s) used count).

(** [State::from_snapshot]. *)
Definition state_from_snapshot (sn : SnapshotState) (next : Z) : State :=
  mkState (s_root sn) (s_files sn) (s_next_inode sn) next ∅ (s_used_bytes sn) (s_file_count sn).

Definition ensure_snapshot_fits_quota (sn : SnapshotState) : outcome Errno unit :=
  if (max_bytes quota <? s_used_bytes sn) || (max_files quota <? s_file_count sn)
  then Err ENOSPC
  else if bool_decide (map_Forall (fun _ f => len (data f) <= max_file_size quota) (s_files sn))
  then Ok tt else Err ENOSPC.

Definition snapshot : M SnapshotState :=
  let! s := sget in slift (snapshot_from_state s).

Definition restore (sn : SnapshotState) : M unit :=
  let! _ := slift (ensure_snapshot_fits_quota sn) in
  let! s := sget in
  sput (state_from_snapshot sn (next_handle s)).

(** [branch] builds a new VFS with the same quota. *)
Definition branch (sn : SnapshotState) : outcome Errno State :=
  let? _ := ensure_snapshot_fits_quota sn in
  Ok (state_from_snapshot sn 1).
End vfs.

(** ** The behaviours the unit tests of mem.rs pin *)

Definition run {A} (m : M A) (s : State) : State := (m s).2.

Example write_past_eof_fills_with_zeroes :
  let s1 := run (open unlimited (lit "/file") (with_create_new read_write)) initial_state in
  let s2 := run (write_at unlimited 1 3 [120]) s1 in
  (read_at 1 0 [1; 1; 1; 1] s2).1 = Ok (4, [0; 0; 0; 120]).
Proof. vm_compute. reflexivity. Qed.

Example max_file_size_is_enforced :
  let q := mkVfsQuota 10 1 3 in
  let s1 := run (open q (lit "/file") (with_create_new write_only)) initial_state in
  (write_at q 1 0 [97; 98; 99; 100] s1) = (Err ENOSPC, s1).
Proof. vm_compute. reflexivity. Qed.
