(* ===== verification/MemVfsTree.v ===== *)
(** * The directory tree of the in-memory VFS: lookups, updates and measures

    [put n p es] is the tree with the entries of the directory at [p] replaced;
    the update function of the model is a lookup followed by [put].  The
    measures (file inodes, directories, depth) split at [p] into the part under
    that directory and a part that [put] does not touch. *)

From S2P Require Import Prelude RustStr BTreeMap VfsTypes VfsPath MemVfs.

#[local] Open Scope nat_scope.

(** ** Induction on nodes *)

Section node_ind.
Context (P : Node -> Prop) (HF : forall i, P (File i))
  (HD : forall es, Forall (fun e => P e.2) es -> P (Directory es)).

Fixpoint Node_nested_ind (n : Node) : P n :=
  match n with
  | File i => HF i
  | Directory es =>
      HD es ((fix go (es : list (str * Node)) : Forall (fun e => P e.2) es :=
                match es with
                | [] => @Forall_nil_2 _ _
                | e :: es => @Forall_cons_2 _ _ e es (Node_nested_ind e.2) (go es)
                end) es)
  end.
End node_ind.

(** ** Measures *)

Fixpoint inodes (n : Node) : list Z :=
  match n with
  | File i => [i]
  | Directory es => foldr (fun e acc => inodes e.2 ++ acc) [] es
  end.
Definition entries_inodes (es : list (str * Node)) : list Z := bt_values es ≫= inodes.

Fixpoint dirs (n : Node) : nat :=
  match n with
  | File _ => 0
  | Directory es => S (foldr (fun e acc => dirs e.2 + acc) 0 es)
  end.
Definition entries_dirs (es : list (str * Node)) : nat := sum_list (dirs <$> bt_values es).

Fixpoint height (n : Node) : nat :=
  match n with
  | File _ => 0
  | Directory es => foldr (fun e acc => Nat.max (S (height e.2)) acc) 0 es
  end.

(** Well-formed subtrees of depth at most [d]: sorted directories of admissible
    names. *)
Fixpoint node_ok (d : nat) (n : Node) : Prop :=
  match n with
  | File _ => True
  | Directory es =>
      bt_wf es
      /\ foldr (fun e P => (component_ok e.1 /\ 0 < d /\ node_ok (d - 1) e.2) /\ P) True es
  end.

Lemma inodes_dir es : inodes (Directory es) = entries_inodes es.
Proof.
  unfold entries_inodes, bt_values. simpl. induction es as [|[k n] es IH]; simpl; [done|].
  by rewrite IH.
Qed.

Lemma dirs_dir es : dirs (Directory es) = S (entries_dirs es).
Proof.
  unfold entries_dirs, bt_values. simpl. f_equal.
  induction es as [|[k n] es IH]; simpl; [done|]. by rewrite IH.
Qed.

Definition entry_ok (d : nat) (e : str * Node) : Prop :=
  component_ok e.1 /\ 0 < d /\ node_ok (d - 1) e.2.

Lemma node_ok_dir d es : node_ok d (Directory es) <-> bt_wf es /\ Forall (entry_ok d) es.
Proof.
  simpl. assert (foldr (fun e P => entry_ok d e /\ P) True es <-> Forall (entry_ok d) es) as <-; [|done].
  induction es as [|e es IH]; simpl; [done|]. rewrite Forall_cons. tauto.
Qed.

(** ** Lookup and replacement *)

Fixpoint put (n : Node) (p : list str) (es' : list (str * Node)) : Node :=
  match p with
  | [] => Directory es'
  | c :: p =>
      match n with
      | File _ => n
      | Directory es =>
          match bt_get c es with
          | Some child => Directory (bt_insert c (put child p es') es)
          | None => n
          end
      end
  end.

Lemma update_dir_eq {A} n p (f : list (str * Node) -> outcome Errno (A * list (str * Node))) :
  update_dir n p f
  = let? x := get_node n p in
    match x with
    | File _ => Err ENOTDIR
    | Directory es => let? (a, es') := f es in Ok (a, put n p es')
    end.
Proof.
  revert n. induction p as [|c p IH]; intros [i|es]; simpl; try done.
  destruct (bt_get c es) as [child|]; simpl; [|done]. rewrite IH.
  destruct (get_node child p) as [[j|es1]| | |]; simpl; try done.
  by destruct (f es1) as [[a es']| | |].
Qed.

Lemma get_node_app n p r x : get_node n p = Ok x -> get_node n (p ++ r) = get_node x r.
Proof.
  revert n. induction p as [|c p IH]; intros n; simpl; [by intros [= ->]|].
  destruct n as [|es]; [done|]. destruct (bt_get c es); [|done]. apply IH.
Qed.

Lemma get_node_app_err n p r e : get_node n p = Err e -> get_node n (p ++ r) = Err e.
Proof.
  revert n. induction p as [|c p IH]; intros n; simpl; [done|].
  destruct n as [|es]; [done|]. destruct (bt_get c es); [|done]. apply IH.
Qed.

Lemma get_node_returns n p : returns (get_node n p).
Proof.
  revert n. induction p as [|c p IH]; intros n; simpl; [done|].
  destruct n as [|es]; [done|]. destruct (bt_get c es); [apply IH|done].
Qed.

Lemma get_node_ok d n p x :
  node_ok d n -> get_node n p = Ok x -> node_ok (d - length p) x /\ length p <= d.
Proof.
  revert d n. induction p as [|c p IH]; intros d n Hn; simpl.
  - intros [= <-]. rewrite Nat.sub_0_r. split; [done|lia].
  - destruct n as [|es]; [done|]. destruct (bt_get c es) as [child|] eqn:Hg; [|done]. intros Hx.
    apply node_ok_dir in Hn as [Hwf Hall].
    apply (bt_get_elem c child es Hwf) in Hg. rewrite Forall_forall in Hall.
    destruct (Hall _ Hg) as (_ & Hd & Hc). simpl in *.
    destruct (IH _ _ Hc Hx). replace (d - S (length p)) with (d - 1 - length p) by lia.
    split; [done|lia].
Qed.

Lemma bt_insert_elem {V} k (v : V) m e : bt_wf m -> e ∈ bt_insert k v m -> e = (k, v) \/ e ∈ m.
Proof.
  intros Hm. destruct e as [j u]. rewrite (bt_get_elem j u _ (bt_wf_insert k v m Hm)).
  destruct (decide (k = j)) as [->|Hne].
  - rewrite bt_get_insert_eq. intros [= ->]. by left.
  - rewrite bt_get_insert_ne by done. intros H. right. by apply bt_get_elem.
Qed.

Lemma node_ok_insert d es c n :
  node_ok d (Directory es) -> entry_ok d (c, n) -> node_ok d (Directory (bt_insert c n es)).
Proof.
  rewrite !node_ok_dir. intros [Hwf Hall] He. split; [by apply bt_wf_insert|].
  apply Forall_forall. intros x [->|Hx]%bt_insert_elem; [done| |done]. by eapply Forall_forall.
Qed.

Lemma node_ok_remove d es c :
  node_ok d (Directory es) -> node_ok d (Directory (bt_remove c es)).
Proof.
  rewrite !node_ok_dir. intros [Hwf Hall]. split; [by apply bt_wf_remove|]. clear Hwf.
  induction es as [|[k n] es IH]; simpl; [done|]. apply Forall_cons in Hall as [H1 H2].
  case_decide; [done|]. constructor; auto.
Qed.

Lemma node_ok_put d n p es es' :
  node_ok d n -> get_node n p = Ok (Directory es) -> node_ok (d - length p) (Directory es') ->
  node_ok d (put n p es').
Proof.
  revert d n. induction p as [|c p IH]; intros d n Hn; cbn [get_node put length].
  - by rewrite Nat.sub_0_r.
  - destruct n as [|es1]; [done|]. destruct (bt_get c es1) as [child|] eqn:Hg; [|done]. intros Hx He.
    apply node_ok_insert; [done|]. pose proof Hn as [Hwf Hall]%node_ok_dir.
    apply (bt_get_elem c child es1 Hwf) in Hg. rewrite Forall_forall in Hall.
    destruct (Hall _ Hg) as (? & Hd & Hc). split; [done|]. split; [done|]. simpl in *.
    apply IH; [done|done|]. by replace (d - 1 - length p) with (d - S (length p)) by lia.
Qed.

Lemma put_id d n p es : node_ok d n -> get_node n p = Ok (Directory es) -> put n p es = n.
Proof.
  revert d n. induction p as [|c p IH]; intros d n Hn; cbn [get_node put]; [by intros [= ->]|].
  destruct n as [|es1]; [done|]. destruct (bt_get c es1) as [child|] eqn:Hg; [|done]. intros Hx.
  pose proof Hn as [Hwf Hall]%node_ok_dir.
  rewrite (IH (d - 1) child); [| |done].
  - f_equal. clear -Hg Hwf. induction es1 as [|[k v] es1 IH]; simpl in *; [done|].
    apply bt_wf_cons in Hwf as [Hwf Hlt]. case_decide as Hd; simplify_eq.
    + by rewrite str_compare_refl.
    + destruct (str_compare c k) eqn:Hc.
      * by apply str_compare_eq in Hc.
      * apply bt_get_Some_key in Hg. rewrite Forall_forall in Hlt. apply Hlt in Hg.
        pose proof (str_lt_trans _ _ _ Hc Hg) as Hx. by apply str_lt_irrefl in Hx.
      * f_equal. by apply IH.
  - apply (bt_get_elem c child es1 Hwf) in Hg. rewrite Forall_forall in Hall. by apply Hall in Hg as (_ & _ & ?).
Qed.

Lemma get_node_put n p es es' r :
  get_node n p = Ok (Directory es) -> get_node (put n p es') (p ++ r) = get_node (Directory es') r.
Proof.
  revert n. induction p as [|c p IH]; intros n; cbn [get_node put app]; [done|].
  destruct n as [|es1]; [done|]. destruct (bt_get c es1) as [child|] eqn:Hg; [|done]. intros Hx.
  rewrite bt_get_insert_eq. by apply IH.
Qed.

(** ** Splitting the measures at a directory *)

Lemma entries_inodes_insert es c n :
  bt_get c es = None -> entries_inodes (bt_insert c n es) ≡ₚ inodes n ++ entries_inodes es.
Proof. intros H. unfold entries_inodes. by rewrite (bt_insert_new _ _ _ H), bind_cons. Qed.

Lemma entries_inodes_remove es c n :
  bt_get c es = Some n -> entries_inodes es ≡ₚ inodes n ++ entries_inodes (bt_remove c es).
Proof. intros H. unfold entries_inodes. by rewrite (bt_remove_Some _ _ _ H), bind_cons. Qed.

Lemma sum_list_Permutation l k : l ≡ₚ k -> sum_list l = sum_list k.
Proof. induction 1; simpl; lia. Qed.

Lemma entries_dirs_insert es c n :
  bt_get c es = None -> entries_dirs (bt_insert c n es) = dirs n + entries_dirs es.
Proof.
  intros H. unfold entries_dirs. rewrite (sum_list_Permutation _ (dirs <$> (n :: bt_values es))); [done|].
  by rewrite (bt_insert_new _ _ _ H).
Qed.

Lemma entries_dirs_remove es c n :
  bt_get c es = Some n -> entries_dirs es = dirs n + entries_dirs (bt_remove c es).
Proof.
  intros H. unfold entries_dirs.
  rewrite (sum_list_Permutation _ (dirs <$> (n :: bt_values (bt_remove c es)))); [done|].
  by rewrite (bt_remove_Some _ _ _ H).
Qed.

Lemma put_measures d n p es :
  node_ok d n -> get_node n p = Ok (Directory es) ->
  exists R D, forall es', inodes (put n p es') ≡ₚ entries_inodes es' ++ R
                          /\ dirs (put n p es') = S (entries_dirs es') + D.
Proof.
  revert d n. induction p as [|c p IH]; intros d n Hn; cbn [get_node put].
  - intros [= ->]. exists [], 0. intros es'.
    rewrite inodes_dir, dirs_dir, app_nil_r. split; [done|lia].
  - destruct n as [|es1]; [done|]. destruct (bt_get c es1) as [child|] eqn:Hg; [|done]. intros Hx.
    pose proof Hn as [Hwf Hall]%node_ok_dir.
    assert (node_ok (d - 1) child) as Hc.
    { apply (bt_get_elem c child es1 Hwf) in Hg. rewrite Forall_forall in Hall. by apply Hall in Hg as (_ & _ & ?). }
    destruct (IH _ _ Hc Hx) as (R & D & H).
    exists (R ++ entries_inodes (bt_remove c es1)), (D + S (entries_dirs (bt_remove c es1))).
    intros es'. destruct (H es') as [H1 H2].
    rewrite (bt_insert_replace c child _ es1 Hwf Hg), inodes_dir, dirs_dir.
    pose proof (bt_get_remove_eq c es1 Hwf) as Hnone.
    rewrite (entries_inodes_insert _ _ _ Hnone), (entries_dirs_insert _ _ _ Hnone), H1, H2, <- app_assoc.
    split; [done|lia].
Qed.

(** ** Depth *)

Lemma height_dir es a : height (Directory es) <= a <-> Forall (fun n => S (height n) <= a) (bt_values es).
Proof.
  unfold bt_values. induction es as [|[k n] es IH]; simpl in *; [split; [constructor|lia]|].
  rewrite Forall_cons, <- IH. simpl. lia.
Qed.

Lemma node_ok_height d d' n : node_ok d n -> height n <= d' -> node_ok d' n.
Proof.
  revert d d'. induction n as [i|es IH] using Node_nested_ind; intros d d'; [done|].
  rewrite !node_ok_dir, height_dir. intros [Hwf Hall] Hh. split; [done|]. clear Hwf.
  unfold bt_values in Hh. rewrite Forall_fmap in Hh.
  induction es as [|e es IHes]; [done|].
  apply Forall_cons in IH as [He IH], Hall as [(H1 & _ & H3) Hall], Hh as [Hd Hh].
  simpl in Hd. constructor; [|by apply IHes]. split; [done|]. split; [lia|]. eapply He; [done|lia].
Qed.

Lemma height_node_ok d n : node_ok d n -> height n <= d.
Proof.
  revert d. induction n as [i|es IH] using Node_nested_ind; intros d; [simpl; lia|].
  rewrite node_ok_dir, height_dir. intros [_ Hall]. unfold bt_values. rewrite Forall_fmap.
  induction es as [|e es IHes]; [done|].
  apply Forall_cons in IH as [He IH], Hall as [(_ & H2 & H3) Hall].
  constructor; [|by apply IHes]. apply He in H3. simpl. lia.
Qed.

Lemma node_ok_mono d d' n : node_ok d n -> d <= d' -> node_ok d' n.
Proof. intros H Hle. eapply node_ok_height; [done|]. apply height_node_ok in H. lia. Qed.

(** What [subtree_fits_loop] still has to check. *)
Fixpoint stack_fits (a : nat) (stack : list (list Node)) : Prop :=
  match stack with
  | [] => True
  | frame :: below =>
      Forall (fun c => length stack + height c <= a) frame /\ stack_fits a below
  end.

Definition frame_cost (frame : list Node) : nat := S (2 * sum_list (node_size <$> frame)).
Definition stack_cost (stack : list (list Node)) : nat := sum_list (frame_cost <$> stack).

Lemma frame_cost_cons c frame : frame_cost (c :: frame) = 2 * node_size c + frame_cost frame.
Proof. unfold frame_cost. rewrite fmap_cons. change (sum_list (?x :: ?l)) with (x + sum_list l). lia. Qed.

Lemma frame_cost_dir es : frame_cost (bt_values es) + 1 = 2 * node_size (Directory es).
Proof.
  induction es as [|[k n] es IH]; [done|].
  change (bt_values ((k, n) :: es)) with (n :: bt_values es). rewrite frame_cost_cons.
  assert (node_size (Directory ((k, n) :: es)) = node_size n + node_size (Directory es)) as ->
    by (simpl; lia). lia.
Qed.

Lemma stack_cost_cons frame below : stack_cost (frame :: below) = frame_cost frame + stack_cost below.
Proof. done. Qed.

Lemma subtree_fits_loop_spec a fuel stack :
  stack_cost stack < fuel ->
  exists b, subtree_fits_loop fuel a stack = Ok b /\ (b = true <-> stack_fits a stack).
Proof.
  revert stack. induction fuel as [|fuel IH]; intros stack Hf; [lia|].
  destruct stack as [|[|c frame] below]; simpl subtree_fits_loop.
  - by exists true.
  - destruct (IH below) as (b & -> & Hb); [rewrite stack_cost_cons in Hf; unfold frame_cost in Hf; lia|].
    exists b. split; [done|]. simpl. rewrite Hb. split; [by split|by intros []].
  - destruct (a <? S (length below)) eqn:Ha; unbool.
    { exists false. split; [done|]. split; [done|]. simpl. intros [[Hc _]%Forall_cons _]. lia. }
    assert (stack_fits a ((c :: frame) :: below) <->
            S (length below) + height c <= a /\ stack_fits a (frame :: below)) as Hiff.
    { simpl. rewrite Forall_cons. simpl. tauto. }
    rewrite stack_cost_cons, frame_cost_cons in Hf.
    destruct c as [i|es].
    + destruct (IH (frame :: below)) as (b & -> & Hb).
      { rewrite stack_cost_cons. simpl node_size in Hf. lia. }
      exists b. split; [done|]. rewrite Hb, Hiff. simpl height. split; [split; [lia|done]|by intros [_ ?]].
    + pose proof (frame_cost_dir es) as Hc.
      destruct (IH (bt_values es :: frame :: below)) as (b & -> & Hb).
      { rewrite !stack_cost_cons. lia. }
      exists b. split; [done|]. rewrite Hb, Hiff. cbn [stack_fits length].
      assert (S (length below) + height (Directory es) <= a <->
              Forall (fun c => S (S (length below)) + height c <= a) (bt_values es)) as ->; [|done].
      rewrite <- (Nat.sub_add (S (length below)) a) at 1 by lia.
      transitivity (height (Directory es) <= a - S (length below)); [lia|].
      rewrite height_dir. apply Forall_iff. intros n. lia.
Qed.

(** The iterative depth check decides whether the subtree is shallow enough. *)
Lemma subtree_fits_spec n a :
  exists b, subtree_fits n a = Ok b /\ (b = true <-> height n <= a).
Proof.
  destruct n as [i|es]; [exists true; simpl; split; [done|lia]|]. unfold subtree_fits.
  destruct (subtree_fits_loop_spec a (2 * node_size (Directory es) + 1) [bt_values es])
    as (b & -> & Hb).
  { rewrite stack_cost_cons. pose proof (frame_cost_dir es). unfold stack_cost. simpl sum_list. lia. }
  exists b. split; [done|]. rewrite Hb, height_dir. cbn [stack_fits length].
  split; [by intros []|by split].
Qed.
