(* ===== verification/MemVfsInv.v ===== *)
(** * The invariant of the in-memory VFS

    The files map counts its references: a file has one link when the tree
    names it, one open count per handle, and is dropped when both are gone; the
    quota counters are the sums they stand for.  [WFx loose x s] is the
    invariant in the middle of an operation: [loose] are the nodes taken out of
    the tree and not yet dropped, [x] is the file whose release is pending. *)

From S2P Require Import Prelude RustStr BTreeMap VfsTypes VfsPath MemVfs MemVfsTree.

(** ** Sums and counts over the maps *)

Definition total (fs : gmap Z FileNode) : Z := map_fold (fun _ f acc => len (data f) + acc) 0 fs.

Lemma total_insert i f fs : fs !! i = None -> total (<[i := f]> fs) = len (data f) + total fs.
Proof. intros H. unfold total. rewrite map_fold_insert_L; [done| |done]. intros. lia. Qed.

Lemma total_delete i f fs : fs !! i = Some f -> total fs = len (data f) + total (delete i fs).
Proof.
  intros H. rewrite <- (total_insert i) by apply lookup_delete_eq. by rewrite insert_delete_id.
Qed.

Lemma total_update i f g fs :
  fs !! i = Some f -> total (<[i := g]> fs) = total fs + len (data g) - len (data f).
Proof.
  intros H. rewrite (total_delete i f fs H), <- (insert_delete_eq fs i g).
  rewrite total_insert by apply lookup_delete_eq. lia.
Qed.

Lemma total_nonneg fs : 0 <= total fs.
Proof.
  induction fs as [|i f fs H IH] using map_ind; [done|]. rewrite total_insert by done.
  pose proof (len_nonneg (data f)). lia.
Qed.

Lemma total_lookup i f fs : fs !! i = Some f -> len (data f) <= total fs.
Proof. intros H. rewrite (total_delete i f fs H). pose proof (total_nonneg (delete i fs)). lia. Qed.

(** Number of handles open on an inode. *)
Definition refs (i : Z) (hs : gmap Z Handle) : Z :=
  map_fold (fun _ x acc => (if decide (h_inode x = i) then 1 else 0) + acc) 0 hs.

Lemma refs_insert i h x hs :
  hs !! h = None -> refs i (<[h := x]> hs) = (if decide (h_inode x = i) then 1 else 0) + refs i hs.
Proof. intros H. unfold refs. rewrite map_fold_insert_L; [done| |done]. intros. lia. Qed.

Lemma refs_delete i h x hs :
  hs !! h = Some x -> refs i (delete h hs) = refs i hs - (if decide (h_inode x = i) then 1 else 0).
Proof.
  intros H. rewrite <- (insert_delete_id hs h x H) at 2.
  rewrite refs_insert by apply lookup_delete_eq. lia.
Qed.

Lemma refs_bounds i hs : 0 <= refs i hs <= Z.of_nat (size hs).
Proof.
  induction hs as [|h x hs H IH] using map_ind; [done|].
  rewrite refs_insert, map_size_insert_None by done. case_decide; lia.
Qed.

Lemma refs_pos i hs : 0 < refs i hs -> exists h x, hs !! h = Some x /\ h_inode x = i.
Proof.
  induction hs as [|h x hs H IH] using map_ind; [done|]. rewrite refs_insert by done.
  case_decide.
  - intros _. exists h, x. by rewrite lookup_insert_eq.
  - intros (h' & x' & Hl & Hi)%IH. exists h', x'. split; [|done].
    rewrite lookup_insert_ne; [done|]. congruence.
Qed.

Lemma refs_lookup h x hs : hs !! h = Some x -> 0 < refs (h_inode x) hs.
Proof.
  intros H. pose proof (refs_delete (h_inode x) h x hs H) as Hd. rewrite decide_True in Hd by done.
  pose proof (refs_bounds (h_inode x) (delete h hs)). lia.
Qed.

(** Handles are distinct numbers below [n], so there are fewer than [n]. *)
Lemma handles_size {A} (hs : gmap Z A) n :
  1 <= n -> (forall h x, hs !! h = Some x -> 0 < h < n) -> Z.of_nat (size hs) < n.
Proof.
  intros Hn H. rewrite <- (size_dom hs).
  assert (dom hs ⊆ (list_to_set (seqZ 1 (n - 1)) : gset Z)) as Hsub.
  { intros h [x Hx]%elem_of_dom. apply elem_of_list_to_set, elem_of_seqZ. apply H in Hx. lia. }
  apply subseteq_size in Hsub. rewrite size_list_to_set in Hsub by apply NoDup_seqZ.
  rewrite length_seqZ in Hsub. lia.
Qed.

(** ** Reference counts *)

(** [I] are the inodes that have a link; [x] is exempt from being referenced. *)
Record Refs (x : option Z) (I : list Z) (fs : gmap Z FileNode) (hs : gmap Z Handle) : Prop := {
  refs_nodup : NoDup I;
  refs_dom i : i ∈ I -> is_Some (fs !! i);
  refs_links i f : fs !! i = Some f -> links f = if decide (i ∈ I) then 1 else 0;
  refs_open i f : fs !! i = Some f -> open_handles f = refs i hs;
  refs_used i f : fs !! i = Some f -> x = Some i \/ i ∈ I \/ 0 < refs i hs;
  refs_handle h y : hs !! h = Some y -> is_Some (fs !! h_inode y)
}.

#[global] Instance Refs_perm x : Proper ((≡ₚ) ==> eq ==> eq ==> iff) (Refs x).
Proof.
  intros I J HIJ fs ? <- hs ? <-.
  split; intros [H1 H2 H3 H4 H5 H6]; constructor; try done.
  - by rewrite <- HIJ.
  - intros i. rewrite <- HIJ. auto.
  - intros i f Hf. rewrite (H3 i f Hf). apply decide_ext. by rewrite HIJ.
  - intros i f Hf. rewrite <- HIJ. eauto.
  - by rewrite HIJ.
  - intros i. rewrite HIJ. auto.
  - intros i f Hf. rewrite (H3 i f Hf). apply decide_ext. by rewrite HIJ.
  - intros i f Hf. rewrite HIJ. eauto.
Qed.

Lemma Refs_no_handle x I fs hs i : Refs x I fs hs -> fs !! i = None -> refs i hs = 0.
Proof.
  intros H Hi. pose proof (refs_bounds i hs). destruct (decide (0 < refs i hs)) as [Hp|]; [|lia].
  apply refs_pos in Hp as (h & y & Hy & <-). destruct (refs_handle _ _ _ _ H _ _ Hy) as [f Hf].
  congruence.
Qed.

Lemma Refs_create x I fs hs i :
  Refs x I fs hs -> fs !! i = None -> Refs x (i :: I) (<[i := mkFileNode [] 1 0]> fs) hs.
Proof.
  intros H Hi. pose proof (Refs_no_handle _ _ _ _ _ H Hi) as H0. destruct H as [H1 H2 H3 H4 H5 H6].
  assert (i ∉ I) as Hni by (intros [f ?]%H2; congruence).
  constructor.
  - by constructor.
  - intros j [->|Hj]%elem_of_cons; [rewrite lookup_insert_eq|apply lookup_insert_is_Some]; eauto.
    destruct (decide (i = j)); [by left|right; eauto].
  - intros j f [[<- <-]|[Hne Hf]]%lookup_insert_Some; [by rewrite decide_True by set_solver|].
    rewrite (H3 _ _ Hf). apply decide_ext. set_solver.
  - intros j f [[<- <-]|[Hne Hf]]%lookup_insert_Some; [done|eauto].
  - intros j f [[<- <-]|[Hne Hf]]%lookup_insert_Some; [set_solver|].
    destruct (H5 _ _ Hf) as [|[|]]; set_solver.
  - intros h y Hy. apply lookup_insert_is_Some. destruct (decide (i = h_inode y)); [by left|right].
    split; [done|]. eauto.
Qed.

Lemma Refs_update x I fs hs i f g :
  Refs x I fs hs -> fs !! i = Some f -> links g = links f -> open_handles g = open_handles f ->
  Refs x I (<[i := g]> fs) hs.
Proof.
  intros [H1 H2 H3 H4 H5 H6] Hf Hl Ho.
  assert (forall j, is_Some (fs !! j) -> is_Some (<[i := g]> fs !! j)) as Hd.
  { intros j Hj. apply lookup_insert_is_Some. destruct (decide (i = j)); [by left|by right]. }
  constructor; eauto; intros j f' [[<- <-]|[Hne Hf']]%lookup_insert_Some; eauto.
  - rewrite Hl. eauto.
  - rewrite Ho. eauto.
Qed.

Lemma Refs_open I fs hs i f h y :
  Refs None I fs hs -> fs !! i = Some f -> hs !! h = None -> h_inode y = i ->
  Refs None I (<[i := with_open_handles (open_handles f + 1) f]> fs) (<[h := y]> hs).
Proof.
  intros [H1 H2 H3 H4 H5 H6] Hf Hh Hy.
  assert (forall j, is_Some (fs !! j) ->
                    is_Some (<[i := with_open_handles (open_handles f + 1) f]> fs !! j)) as Hd.
  { intros j Hj. apply lookup_insert_is_Some. destruct (decide (i = j)); [by left|by right]. }
  constructor; eauto.
  - intros j f' [[<- <-]|[Hne Hf']]%lookup_insert_Some; simpl; eauto.
  - intros j f'. rewrite refs_insert by done.
    intros [[<- <-]|[Hne Hf']]%lookup_insert_Some; simpl.
    + rewrite decide_True by done. rewrite (H4 _ _ Hf). lia.
    + rewrite decide_False by congruence. rewrite (H4 _ _ Hf'). lia.
  - intros j f'. rewrite refs_insert by done. pose proof (refs_bounds j hs).
    intros [[<- <-]|[Hne Hf']]%lookup_insert_Some; [rewrite decide_True by done; lia|].
    rewrite decide_False by congruence. destruct (H5 _ _ Hf') as [|[|]]; [done|auto|right; right; lia].
  - intros h' y' [[<- <-]|[Hne Hf']]%lookup_insert_Some; [|eauto].
    apply Hd. rewrite Hy. eauto.
Qed.

Lemma Refs_close I fs hs f h y :
  Refs None I fs hs -> hs !! h = Some y -> fs !! h_inode y = Some f ->
  Refs (Some (h_inode y)) I (<[h_inode y := with_open_handles (open_handles f - 1) f]> fs) (delete h hs).
Proof.
  intros [H1 H2 H3 H4 H5 H6] Hy Hf. set (i := h_inode y) in *.
  assert (forall j, is_Some (fs !! j) ->
                    is_Some (<[i := with_open_handles (open_handles f - 1) f]> fs !! j)) as Hd.
  { intros j Hj. apply lookup_insert_is_Some. destruct (decide (i = j)); [by left|by right]. }
  constructor; eauto.
  - intros j f' [[<- <-]|[Hne Hf']]%lookup_insert_Some; simpl; eauto.
  - intros j f'. rewrite (refs_delete _ _ _ _ Hy).
    intros [[<- <-]|[Hne Hf']]%lookup_insert_Some; simpl.
    + rewrite decide_True by done. by rewrite (H4 _ _ Hf).
    + rewrite decide_False by done. rewrite (H4 _ _ Hf'). lia.
  - intros j f'. rewrite (refs_delete _ _ _ _ Hy).
    intros [[<- <-]|[Hne Hf']]%lookup_insert_Some; [by left|]. fold i. rewrite decide_False by done.
    destruct (H5 _ _ Hf') as [|[|]]; [done|auto|right; right; lia].
  - intros h' y' [Hne Hy']%lookup_delete_Some. eauto.
Qed.

Lemma Refs_unlink I fs hs i f :
  Refs None (i :: I) fs hs -> fs !! i = Some f ->
  links f = 1 /\ Refs (Some i) I (<[i := with_links (links f - 1) f]> fs) hs.
Proof.
  intros [H1 H2 H3 H4 H5 H6] Hf. apply NoDup_cons in H1 as [Hni H1].
  assert (links f = 1) as Hl by (rewrite (H3 _ _ Hf), decide_True by set_solver; done).
  split; [done|]. rewrite Hl.
  assert (forall j, is_Some (fs !! j) -> is_Some (<[i := with_links (1 - 1) f]> fs !! j)) as Hd.
  { intros j Hj. apply lookup_insert_is_Some. destruct (decide (i = j)); [by left|by right]. }
  constructor; eauto.
  - intros j Hj. apply Hd, H2. set_solver.
  - intros j f' [[<- <-]|[Hne Hf']]%lookup_insert_Some; simpl; [by rewrite decide_False|].
    rewrite (H3 _ _ Hf'). apply decide_ext. set_solver.
  - intros j f' [[<- <-]|[Hne Hf']]%lookup_insert_Some; simpl; eauto.
  - intros j f' [[<- <-]|[Hne Hf']]%lookup_insert_Some; simpl; [by left|].
    destruct (H5 _ _ Hf') as [|[|]]; set_solver.
Qed.

Lemma Refs_release I fs hs i f :
  Refs (Some i) I fs hs -> fs !! i = Some f -> 0 < links f \/ 0 < open_handles f ->
  Refs None I fs hs.
Proof.
  intros [H1 H2 H3 H4 H5 H6] Hf Hpos. constructor; eauto.
  intros j f' Hf'. destruct (H5 _ _ Hf') as [[= ->]|]; [|auto]. simplify_eq. right.
  rewrite (H3 _ _ Hf), (H4 _ _ Hf) in Hpos. case_decide; [auto|right; lia].
Qed.

Lemma Refs_drop I fs hs i f :
  Refs (Some i) I fs hs -> fs !! i = Some f -> links f <= 0 -> open_handles f <= 0 ->
  Refs None I (delete i fs) hs.
Proof.
  intros [H1 H2 H3 H4 H5 H6] Hf Hl Ho.
  rewrite (H3 _ _ Hf) in Hl. rewrite (H4 _ _ Hf) in Ho. case_decide as Hi; [lia|].
  constructor; eauto.
  - intros j Hj. rewrite lookup_delete_ne by set_solver. eauto.
  - intros j f' [Hne Hf']%lookup_delete_Some. eauto.
  - intros j f' [Hne Hf']%lookup_delete_Some. eauto.
  - intros j f' [Hne Hf']%lookup_delete_Some. destruct (H5 _ _ Hf') as [|[|]]; [congruence|auto..].
  - intros h y Hy. rewrite lookup_delete_ne; [eauto|]. intros ->.
    apply refs_lookup in Hy. lia.
Qed.

(** ** The invariant *)

Record WFx (loose : list Node) (x : option Z) (s : State) : Prop := {
  wf_dir : exists es, root s = Directory es;
  wf_tree : node_ok MAX_PATH_DEPTH (root s);
  wf_refs : Refs x (inodes (root s) ++ (loose ≫= inodes)) (files s) (handles s);
  wf_next_inode : 1 <= next_inode s <= U64_MAX;
  wf_inodes i f : files s !! i = Some f -> 0 < i < next_inode s;
  wf_next_handle : 1 <= next_handle s <= U64_MAX;
  wf_handles h y : handles s !! h = Some y -> 0 < h < next_handle s;
  wf_used : used_bytes s = total (files s);
  wf_count : file_count s = Z.of_nat (size (files s)) + Z.of_nat (dirs (root s)) - 1
                            + Z.of_nat (sum_list (dirs <$> loose))
}.

Abbreviation WF := (WFx [] None).

Record Within (q : VfsQuota) (s : State) : Prop := {
  within_bytes : used_bytes s <= max_bytes q;
  within_files : file_count s <= max_files q;
  within_size i f : files s !! i = Some f -> len (data f) <= max_file_size q
}.

Definition Inv (q : VfsQuota) (s : State) : Prop := WF s /\ Within q s.

(** The fields of a quota are [u64]. *)
Record quota_ok (q : VfsQuota) : Prop := {
  quota_bytes : 0 <= max_bytes q <= U64_MAX;
  quota_files : 0 <= max_files q <= U64_MAX;
  quota_size : 0 <= max_file_size q <= U64_MAX
}.

(** Moving nodes between the tree and the loose nodes. *)
Lemma WFx_swap L L' x s p es es' :
  WFx L x s -> get_node (root s) p = Ok (Directory es) ->
  node_ok (MAX_PATH_DEPTH - length p) (Directory es') ->
  entries_inodes es' ++ (L' ≫= inodes) ≡ₚ entries_inodes es ++ (L ≫= inodes) ->
  (entries_dirs es' + sum_list (dirs <$> L') = entries_dirs es + sum_list (dirs <$> L))%nat ->
  WFx L' x (set_root (put (root s) p es') s).
Proof.
  intros [H1 H2 H3 H4 H5 H6 H7 H8 H9] Hget Hok Hino Hdirs.
  destruct (put_measures _ _ _ _ H2 Hget) as (R & D & Hm).
  pose proof (put_id _ _ _ _ H2 Hget) as Hid.
  destruct (Hm es) as [Hi Hd], (Hm es') as [Hi' Hd']. rewrite Hid in Hi, Hd.
  constructor; simpl; try done.
  - destruct H1 as [es0 H1]. rewrite H1. destruct p as [|c p]; simpl; [eauto|].
    case_match; eauto.
  - by eapply node_ok_put.
  - rewrite Hi in H3. rewrite Hi'.
    assert ((entries_inodes es' ++ R) ++ (L' ≫= inodes) ≡ₚ
            (entries_inodes es ++ R) ++ (L ≫= inodes)) as ->; [|done].
    rewrite <- !app_assoc, !(Permutation_app_comm R), !app_assoc. by f_equiv.
  - rewrite H9, Hd, Hd'. lia.
Qed.

Lemma loose_cons n L : ((n :: L) ≫= inodes) = inodes n ++ (L ≫= inodes).
Proof. done. Qed.

Lemma loose_dirs_cons n L : sum_list (dirs <$> n :: L) = (dirs n + sum_list (dirs <$> L))%nat.
Proof. done. Qed.

Lemma WFx_take_out L x s p es c n :
  WFx L x s -> get_node (root s) p = Ok (Directory es) -> bt_get c es = Some n ->
  WFx (n :: L) x (set_root (put (root s) p (bt_remove c es)) s).
Proof.
  intros H Hget Hc. destruct (get_node_ok _ _ _ _ (wf_tree _ _ _ H) Hget) as [Hok _].
  eapply WFx_swap; [done..| | |].
  - by apply node_ok_remove.
  - rewrite (entries_inodes_remove _ _ _ Hc), loose_cons.
    rewrite !app_assoc. f_equiv. apply Permutation_app_comm.
  - rewrite (entries_dirs_remove _ _ _ Hc), loose_dirs_cons. lia.
Qed.

Lemma exchange_perm {A} (a b c d : list A) : (a ++ b) ++ c ++ d ≡ₚ (c ++ b) ++ a ++ d.
Proof.
  rewrite (Permutation_app_comm a b), (Permutation_app_comm c b), <- !app_assoc. f_equiv.
  rewrite !app_assoc. f_equiv. apply Permutation_app_comm.
Qed.

Lemma WFx_put_in L x s p es c n :
  WFx (n :: L) x s -> get_node (root s) p = Ok (Directory es) ->
  entry_ok (MAX_PATH_DEPTH - length p) (c, n) ->
  WFx (option_list (bt_get c es) ++ L) x (set_root (put (root s) p (bt_insert c n es)) s).
Proof.
  intros H Hget He. destruct (get_node_ok _ _ _ _ (wf_tree _ _ _ H) Hget) as [Hok _].
  pose proof Hok as [Hwf _]%node_ok_dir.
  eapply WFx_swap; [done..| | |]; [by apply node_ok_insert| |]; destruct (bt_get c es) as [o|] eqn:Hc;
    [change (option_list (Some o) ++ L) with (o :: L)|change (option_list None ++ L) with L
    |change (option_list (Some o) ++ L) with (o :: L)|change (option_list None ++ L) with L].
  - rewrite (bt_insert_replace _ _ _ _ Hwf Hc), (entries_inodes_remove _ _ _ Hc).
    rewrite entries_inodes_insert by (by apply bt_get_remove_eq). rewrite !loose_cons.
    apply exchange_perm.
  - rewrite (entries_inodes_insert _ _ _ Hc), loose_cons, !app_assoc. f_equiv.
    apply Permutation_app_comm.
  - rewrite (bt_insert_replace _ _ _ _ Hwf Hc), (entries_dirs_remove _ _ _ Hc).
    rewrite entries_dirs_insert by (by apply bt_get_remove_eq). rewrite !loose_dirs_cons. lia.
  - rewrite (entries_dirs_insert _ _ _ Hc), loose_dirs_cons. lia.
Qed.

(** ** Dropping nodes *)

(** What dropping references leaves alone. *)
Record drops (s s' : State) : Prop := {
  drops_root : root s' = root s;
  drops_handles : handles s' = handles s;
  drops_next_handle : next_handle s' = next_handle s;
  drops_next_inode : next_inode s' = next_inode s;
  drops_used : used_bytes s' <= used_bytes s;
  drops_count : file_count s' <= file_count s;
  drops_files i f' :
    files s' !! i = Some f' -> exists f, files s !! i = Some f /\ data f' = data f
}.

#[global] Instance drops_preorder : PreOrder drops.
Proof.
  split; [by constructor; eauto; lia|].
  intros s1 s2 s3 [H1 H2 H3 H4 H5 H6 H7] [G1 G2 G3 G4 G5 G6 G7]. constructor; try congruence; try lia.
  intros i f3 (f2 & (f1 & ? & ?)%H7 & ?)%G7. exists f1. split; congruence.
Qed.

Lemma drops_Within q s s' : drops s s' -> Within q s -> Within q s'.
Proof.
  intros [H1 H2 H3 H4 H5 H6 H7] [G1 G2 G3]. constructor; [lia..|].
  intros i f' (f & Hf & ->)%H7. eauto.
Qed.

Lemma total_le_used L x s i f :
  WFx L x s -> files s !! i = Some f -> len (data f) <= used_bytes s.
Proof. intros H Hf. rewrite (wf_used _ _ _ H). by eapply total_lookup. Qed.

Lemma size_delete {A} (m : gmap Z A) i a :
  m !! i = Some a -> Z.of_nat (size (delete i m)) = Z.of_nat (size m) - 1.
Proof.
  intros H. rewrite map_size_delete_Some by eauto.
  assert (size m <> 0)%nat; [|lia]. intros Hm%map_size_empty_inv. subst. by rewrite lookup_empty in H.
Qed.

Lemma release_spec L s i :
  WFx L (Some i) s -> Within unlimited s -> is_Some (files s !! i) ->
  wp (release_file_if_unreferenced i) s (fun _ s' => WFx L None s' /\ drops s s') (fun _ _ => False).
Proof.
  intros H Hw [f Hf]. unfold release_file_if_unreferenced. wp_steps. rewrite Hf.
  pose proof (total_le_used _ _ _ _ _ H Hf) as Hle. pose proof (len_nonneg (data f)) as Hnn.
  pose proof (within_bytes _ _ Hw) as Hb. simpl in Hb.
  destruct H as [H1 H2 H3 H4 H5 H6 H7 H8 H9].
  destruct ((0 <? links f) || (0 <? open_handles f)) eqn:Href.
  - wp_steps. apply orb_true_iff in Href as [?|?]; unbool; (split; [|done]);
      constructor; try done; eapply Refs_release; eauto.
  - unbool. wp_steps. apply wp_u64_try_from; [lia|]. wp_steps. apply wp_u64_sub; [done|].
    wp_steps. unfold sub_file_count. wp_steps. pose proof (size_delete _ _ _ Hf) as Hs.
    apply wp_u64_sub; simpl.
    { rewrite H9. destruct H1 as [es ->]. rewrite dirs_dir. lia. }
    wp_steps. split; constructor; simpl; try done; try lia.
    + by eapply Refs_drop.
    + intros j g [_ ?]%lookup_delete_Some. eauto.
    + rewrite H8, (total_delete _ _ _ Hf). lia.
    + intros j g [_ ?]%lookup_delete_Some. eauto.
Qed.

Lemma WFx_loose L L' x s :
  (L ≫= inodes) ≡ₚ (L' ≫= inodes) -> sum_list (dirs <$> L) = sum_list (dirs <$> L') ->
  WFx L x s -> WFx L' x s.
Proof.
  intros HI HD [H1 H2 H3 H4 H5 H6 H7 H8 H9]. constructor; try done; [by rewrite <- HI|by rewrite <- HD].
Qed.

Lemma WFx_loose_entry k n es L x s :
  WFx (Directory ((k, n) :: es) :: L) x s -> WFx (n :: Directory es :: L) x s.
Proof.
  apply WFx_loose.
  - by rewrite !loose_cons, !inodes_dir, app_assoc.
  - rewrite !loose_dirs_cons, !dirs_dir.
    change (entries_dirs ((k, n) :: es)) with (dirs n + entries_dirs es)%nat. lia.
Qed.

Lemma remove_file_spec i L s :
  WFx (File i :: L) None s -> Within unlimited s ->
  wp (remove_tree (File i)) s (fun _ s' => WFx L None s' /\ drops s s') (fun _ _ => False).
Proof.
  intros H Hw. destruct H as [H1 H2 H3 H4 H5 H6 H7 H8 H9].
  assert (inodes (root s) ++ ((File i :: L) ≫= inodes) ≡ₚ i :: inodes (root s) ++ (L ≫= inodes)) as HP.
  { rewrite loose_cons. simpl. by rewrite Permutation_middle. }
  rewrite HP in H3. destruct (refs_dom _ _ _ _ H3 i) as [f Hf]; [by left|].
  destruct (Refs_unlink _ _ _ _ _ H3 Hf) as [Hl HR].
  simpl. wp_steps. eapply wp_some; [done|]. wp_steps. apply wp_u64_sub; [lia|]. wp_steps.
  set (s1 := set_files _ s).
  assert (WFx L (Some i) s1) as Hs1.
  { constructor; simpl; try done.
    - intros j g [[<- _]|[_ ?]]%lookup_insert_Some; eauto.
    - rewrite (total_update _ _ _ _ Hf). simpl. lia.
    - rewrite map_size_insert_Some by eauto. by rewrite H9. }
  assert (drops s s1) as Hd.
  { constructor; simpl; try done. intros j g [[<- <-]|[_ ?]]%lookup_insert_Some; eauto. }
  eapply wp_mono; [apply release_spec; [done|by eapply drops_Within|]|..].
  - simpl. rewrite lookup_insert_eq. eauto.
  - intros _ s' [? ?]. split; [done|by transitivity s1].
  - done.
Qed.

Lemma remove_dir_spec L s :
  WFx (Directory [] :: L) None s ->
  wp (sub_file_count 1) s (fun _ s' => WFx L None s' /\ drops s s') (fun _ _ => False).
Proof.
  intros [H1 H2 H3 H4 H5 H6 H7 H8 H9]. unfold sub_file_count. wp_steps.
  rewrite loose_dirs_cons, dirs_dir in H9. change (entries_dirs []) with 0%nat in H9.
  apply wp_u64_sub; [|wp_steps; split; constructor; simpl; eauto; lia].
  rewrite H9. destruct H1 as [es ->]. rewrite dirs_dir. lia.
Qed.

(** Dropping a loose subtree gives back everything it holds. *)
Lemma remove_tree_spec n L s :
  WFx (n :: L) None s -> Within unlimited s ->
  wp (remove_tree n) s (fun _ s' => WFx L None s' /\ drops s s') (fun _ _ => False).
Proof.
  revert L s. induction n as [i|es IH] using Node_nested_ind; intros L s H Hw; [by apply remove_file_spec|].
  simpl. apply wp_bind. eapply wp_mono with
    (Q := fun _ s' => WFx (Directory [] :: L) None s' /\ drops s s') (R := fun _ _ => False); [| |done].
  - revert s H Hw. induction IH as [|[k n] es Hn _ IHes]; intros s H Hw; [wp_steps; done|].
    apply WFx_loose_entry in H. wp_steps. eapply wp_mono; [by apply Hn| |done].
    intros _ s1 [H1 Hd]. simpl in IHes.
    eapply wp_mono; [apply IHes; [done|by eapply drops_Within]| |done].
    intros _ s2 [H2 Hd2]. split; [done|by transitivity s1].
  - intros _ s1 [H1 Hd]. eapply wp_mono; [by apply remove_dir_spec| |done].
    intros _ s2 [H2 Hd2]. split; [done|by transitivity s1].
Qed.
