(* ===== verification/MemVfsView.v ===== *)
(** * The in-memory tree as a flat name space

    [view n] maps a list of components to the object it names; it forgets how
    the directories nest.  Looking up, taking out and putting in a subtree are
    described on it by prefixes alone. *)

From S2P Require Import Prelude RustStr BTreeMap VfsTypes VfsPath MemVfs MemVfsTree.

Inductive obj := OFile (inode : Z) | ODir.

#[global] Instance obj_eq_dec : EqDecision obj.
Proof. solve_decision. Defined.

Definition obj_of (n : Node) : obj :=
  match n with File i => OFile i | Directory _ => ODir end.

Definition view (n : Node) (p : list str) : option obj :=
  match get_node n p with Ok x => Some (obj_of x) | _ => None end.

(** What is left of [q] below [p]. *)
Section strip.
Context {A : Type} `{EqDecision A}.

Fixpoint strip (p q : list A) : option (list A) :=
  match p, q with
  | [], _ => Some q
  | c :: p, d :: q => if decide (c = d) then strip p q else None
  | _ :: _, [] => None
  end.

Lemma strip_Some p q r : strip p q = Some r <-> q = p ++ r.
Proof.
  revert q. induction p as [|c p IH]; intros q; simpl; [naive_solver|].
  destruct q as [|d q]; [done|]. case_decide; [rewrite IH; naive_solver|naive_solver].
Qed.

Lemma strip_app p r : strip p (p ++ r) = Some r.
Proof. by apply strip_Some. Qed.

Lemma strip_None p q : strip p q = None <-> forall r, q <> p ++ r.
Proof.
  destruct (strip p q) eqn:H.
  - apply strip_Some in H. split; [done|]. intros Hn. by apply Hn in H.
  - split; [|done]. intros _ r Hr. apply strip_Some in Hr. congruence.
Qed.

Lemma strip_trans p c q r : strip p q = Some r -> strip (p ++ [c]) q = strip [c] r.
Proof.
  intros ->%strip_Some. induction p as [|d p IH]; simpl; [done|]. by rewrite decide_True.
Qed.

Lemma strip_parent p c q : strip p q = None -> strip (p ++ [c]) q = None.
Proof. rewrite !strip_None. intros H r ->. apply (H (c :: r)). by rewrite <- app_assoc. Qed.
End strip.

(** ** Lookup *)

Lemma view_file n i p : view n p = Some (OFile i) <-> get_node n p = Ok (File i).
Proof. unfold view. destruct (get_node n p) as [[]| | |]; naive_solver. Qed.

Lemma view_dir n p : view n p = Some ODir <-> exists es, get_node n p = Ok (Directory es).
Proof. unfold view. destruct (get_node n p) as [[]| | |]; naive_solver. Qed.

Lemma view_None n p : view n p = None <-> exists e, get_node n p = Err e.
Proof.
  pose proof (get_node_returns n p). unfold view. destruct (get_node n p) as [[]| | |]; naive_solver.
Qed.

Lemma view_app n p r x : get_node n p = Ok x -> view n (p ++ r) = view x r.
Proof. intros H. unfold view. by rewrite (get_node_app _ _ _ _ H). Qed.

Lemma view_nil n : view n [] = Some (obj_of n).
Proof. done. Qed.

Lemma view_below_file i r : r <> [] -> view (File i) r = None.
Proof. by destruct r. Qed.

(** Why a lookup fails. *)
Lemma get_node_Err n p e :
  get_node n p = Err e ->
  (e = ENOTDIR /\ exists q r i, p = q ++ r /\ r <> [] /\ view n q = Some (OFile i))
  \/ (e = ENOENT /\ exists q c r, p = q ++ c :: r /\ view n q = Some ODir /\ view n (q ++ [c]) = None).
Proof.
  revert n. induction p as [|c p IH]; intros n; simpl; [done|].
  destruct n as [i|es].
  - intros [= <-]. left. split; [done|]. by exists [], (c :: p), i.
  - destruct (bt_get c es) as [child|] eqn:Hg.
    + assert (forall q, view (Directory es) (c :: q) = view child q) as Hv
        by (intros q; unfold view; simpl; by rewrite Hg).
      intros [(-> & q & r & i & -> & Hr & Hq)|(-> & q & d & r & -> & Hq & Hn)]%IH.
      * left. split; [done|]. exists (c :: q), r, i. by rewrite Hv.
      * right. split; [done|]. exists (c :: q), d, r. cbn [app]. by rewrite !Hv.
    + intros [= <-]. right. split; [done|]. exists [], c, p. split; [done|]. split; [done|].
      unfold view. simpl. by rewrite Hg.
Qed.

(** A lookup that only misses the last component. *)
Lemma get_node_child n p c :
  get_node n (p ++ [c]) =
  let? x := get_node n p in
  match x with
  | File _ => Err ENOTDIR
  | Directory es => ok_or ENOENT (bt_get c es)
  end.
Proof.
  destruct (get_node n p) as [x|e| |] eqn:Hp; simpl.
  - rewrite (get_node_app _ _ _ _ Hp). destruct x as [|es]; simpl; [done|]. by destruct (bt_get c es).
  - by rewrite (get_node_app_err _ _ _ _ Hp).
  - pose proof (get_node_returns n p) as H. by rewrite Hp in H.
  - pose proof (get_node_returns n p) as H. by rewrite Hp in H.
Qed.

(** ** Updates *)

Lemma view_put_out n p es es' q :
  get_node n p = Ok (Directory es) -> strip p q = None -> view (put n p es') q = view n q.
Proof.
  revert n q. induction p as [|c p IH]; intros n q; cbn [get_node put strip]; [done|].
  destruct n as [|es1]; [done|]. destruct (bt_get c es1) as [child|] eqn:Hg; [|done]. intros Hx Hs.
  destruct q as [|d q]; [done|]. unfold view in *. simpl. case_decide as Hd.
  - subst. rewrite bt_get_insert_eq, Hg. by apply IH.
  - by rewrite bt_get_insert_ne.
Qed.

Lemma view_put_in n p es es' r :
  get_node n p = Ok (Directory es) -> view (put n p es') (p ++ r) = view (Directory es') r.
Proof. intros H. unfold view. by rewrite (get_node_put _ _ _ _ _ H). Qed.

(** Taking out the entry [c] of the directory [p]. *)
Lemma view_removed n p es c q :
  get_node n p = Ok (Directory es) -> bt_wf es ->
  view (put n p (bt_remove c es)) q
  = match strip (p ++ [c]) q with Some _ => None | None => view n q end.
Proof.
  intros H Hwf. destruct (strip p q) as [r|] eqn:Hs.
  - rewrite (strip_trans _ _ _ _ Hs). apply strip_Some in Hs as ->. rewrite (view_put_in _ _ _ _ _ H).
    rewrite (view_app _ _ _ _ H). destruct r as [|d r]; [done|]. unfold view. simpl.
    case_decide; [subst; by rewrite bt_get_remove_eq|by rewrite bt_get_remove_ne].
  - rewrite (strip_parent _ _ _ Hs). by eapply view_put_out.
Qed.

(** Putting [x] in as the entry [c] of the directory [p]. *)
Lemma view_inserted n p es c x q :
  get_node n p = Ok (Directory es) ->
  view (put n p (bt_insert c x es)) q
  = match strip (p ++ [c]) q with Some r => view x r | None => view n q end.
Proof.
  intros H. destruct (strip p q) as [r|] eqn:Hs.
  - rewrite (strip_trans _ _ _ _ Hs). apply strip_Some in Hs as ->. rewrite (view_put_in _ _ _ _ _ H).
    rewrite (view_app _ _ _ _ H). destruct r as [|d r]; [done|]. unfold view. simpl.
    case_decide; [subst; by rewrite bt_get_insert_eq|by rewrite bt_get_insert_ne].
  - rewrite (strip_parent _ _ _ Hs). by eapply view_put_out.
Qed.

(** A directory survives an update elsewhere or below it. *)
Lemma view_put_dir n p es c q es' :
  get_node n p = Ok (Directory es) -> bt_wf es -> strip (p ++ [c]) q = None ->
  get_node n q = Ok (Directory es') ->
  exists es'', get_node (put n p (bt_remove c es)) q = Ok (Directory es'').
Proof.
  intros H Hwf Hs Hq. apply view_dir. rewrite (view_removed _ _ _ _ _ H Hwf), Hs. apply view_dir. eauto.
Qed.

(** The inodes of a well-formed tree are those its view names. *)
Lemma view_inodes d n i : node_ok d n -> i ∈ inodes n <-> exists p, view n p = Some (OFile i).
Proof.
  revert d. induction n as [j|es IH] using Node_nested_ind; intros d Hn.
  - simpl. rewrite list_elem_of_singleton. split; [intros ->; by exists []|].
    intros [[|c p] Hp]; [by injection Hp|done].
  - apply node_ok_dir in Hn as [Hwf Hall]. rewrite inodes_dir. unfold entries_inodes, bt_values.
    rewrite list_elem_of_bind. rewrite Forall_forall in IH, Hall. split.
    + intros (x & Hi & ([k y] & -> & Hk)%list_elem_of_fmap).
      destruct (Hall _ Hk) as (_ & _ & Hok). apply (IH _ Hk _ Hok) in Hi as [p Hp].
      exists (k :: p). apply (bt_get_elem k y es Hwf) in Hk. unfold view in *. simpl. by rewrite Hk.
    + intros [[|c p] Hp]; [done|]. unfold view in Hp. simpl in Hp.
      destruct (bt_get c es) as [y|] eqn:Hg; [|done]. apply (bt_get_elem c y es Hwf) in Hg.
      destruct (Hall _ Hg) as (_ & _ & Hok). exists y. split.
      * apply (IH _ Hg _ Hok). by exists p.
      * apply list_elem_of_fmap. by exists (c, y).
Qed.

(** The depth of a tree is reached by a path. *)
Lemma height_reached d n : node_ok d n -> exists r, length r = height n /\ is_Some (view n r).
Proof.
  revert d. induction n as [i|es IH] using Node_nested_ind; intros d Hn; [by exists []; split|].
  apply node_ok_dir in Hn as [Hwf Hall]. rewrite Forall_forall in IH, Hall.
  assert (height (Directory es) = 0%nat \/ exists e, e ∈ es /\ height (Directory es) = S (height e.2)) as [H0|H].
  { clear. induction es as [|e es IHes]; simpl; [by left|right]. simpl in IHes.
    destruct (Nat.max_spec (S (height e.2)) (foldr (fun e acc => Nat.max (S (height e.2)) acc) 0%nat es))
      as [[Hlt ->]|[_ ->]].
    - destruct IHes as [H0|(x & Hx & H)]; [rewrite H0 in Hlt; lia|]. exists x. split; [by right|done].
    - exists e. split; [by left|done]. }
  - exists []. by rewrite H0.
  - destruct H as ([c x] & Hin & ->). destruct (Hall _ Hin) as (_ & _ & Hok). simpl in *.
    destruct (IH _ Hin _ Hok) as (r & Hr & Hv). exists (c :: r). split; [simpl; by rewrite Hr|].
    apply (bt_get_elem c x es Hwf) in Hin. unfold view in *. simpl. by rewrite Hin.
Qed.
