(* ===== verification/MemVfsOps.v ===== *)
(** * What each operation of the in-memory VFS does

    One specification per operation: from a state that satisfies the invariant
    it neither panics nor diverges; on success the invariant holds again and the
    name space and the contents changed exactly as stated; on an error the state
    is the one the operation started from, and the error is explained by the
    name space. *)

From S2P Require Import Prelude RustStr BTreeMap VfsTypes VfsPath MemVfs MemVfsTree MemVfsInv.
From S2P Require Import MemVfsView.

#[local] Arguments remove_tree : simpl never.

(** ** Lookups that fail *)

Inductive lookup_fails (n : Node) (p : list str) : Errno -> Prop :=
| through_file q r i :
    p = q ++ r -> r <> [] -> view n q = Some (OFile i) -> lookup_fails n p ENOTDIR
| missing q c r :
    p = q ++ c :: r -> view n q = Some ODir -> view n (q ++ [c]) = None -> lookup_fails n p ENOENT.

Lemma get_node_fails n p e : get_node n p = Err e -> lookup_fails n p e.
Proof. intros [(-> & q & r & i & ?)|(-> & q & c & r & ?)]%get_node_Err; destruct_and?; econstructor; eauto. Qed.

Lemma lookup_fails_app n p r e : lookup_fails n p e -> lookup_fails n (p ++ r) e.
Proof.
  destruct 1 as [q r' i -> Hr Hv|q c r' -> Hv Hn].
  - apply (through_file _ _ q (r' ++ r) i); [by rewrite app_assoc| |done]. by destruct r'.
  - apply (missing _ _ q c (r' ++ r)); [by rewrite <- app_assoc|done..].
Qed.

(** ** Shared steps *)

Lemma wp_normalize path s (Q : list str -> State -> Prop) (R : Errno -> State -> Prop) :
  (normalize_path path = Err EINVAL -> R EINVAL s) ->
  (forall p, normalize_path path = Ok p -> path_ok p -> Q p s) ->
  wp (slift (normalize_path path)) s Q R.
Proof.
  intros HR HQ. pose proof (normalize_path_post path) as H.
  apply wp_lift; destruct (normalize_path path); try done; intros ? [= <-]; subst; auto.
Qed.

Lemma parent_dir_mut_eq {A} pp name (f : str -> list (str * Node) -> outcome Errno (A * list (str * Node))) s :
  parent_dir_mut (pp ++ [name]) f s
  = match (let? x := get_node (root s) pp in
           match x with File _ => Err ENOTDIR | Directory es => f name es end) with
    | Ok (a, es') => (Ok a, set_root (put (root s) pp es') s)
    | Err e => (Err e, s)
    | Panic => (Panic, s)
    | OutOfFuel => (OutOfFuel, s)
    end.
Proof.
  unfold parent_dir_mut, sbind, sget, slift. rewrite split_last_snoc, update_dir_eq.
  destruct (get_node (root s) pp) as [[i|es]| | |]; simpl; try done.
  by destruct (f name es) as [[a es']| | |].
Qed.

(** An update of the parent directory that cannot fail. *)
Lemma wp_parent_dir_mut {A} pp name es a es' (f : str -> list (str * Node) -> outcome Errno (A * list (str * Node)))
    s (Q : A -> State -> Prop) (R : Errno -> State -> Prop) :
  get_node (root s) pp = Ok (Directory es) -> f name es = Ok (a, es') ->
  Q a (set_root (put (root s) pp es') s) ->
  wp (parent_dir_mut (pp ++ [name]) f) s Q R.
Proof.
  intros Hg Hf HQ. unfold wp. rewrite parent_dir_mut_eq, Hg. simpl. by rewrite Hf.
Qed.

Lemma wp_parent_dir_mut_try {A} pp name (f : str -> list (str * Node) -> outcome Errno (A * list (str * Node)))
    s (Q : A -> State -> Prop) (R : Errno -> State -> Prop) :
  (forall e, get_node (root s) pp = Err e -> R e s) ->
  (forall i, get_node (root s) pp = Ok (File i) -> R ENOTDIR s) ->
  (forall es, get_node (root s) pp = Ok (Directory es) ->
     match f name es with
     | Ok (a, es') => Q a (set_root (put (root s) pp es') s)
     | Err e => R e s
     | _ => False
     end) ->
  wp (parent_dir_mut (pp ++ [name]) f) s Q R.
Proof.
  intros HE HF HD. unfold wp. rewrite parent_dir_mut_eq. pose proof (get_node_returns (root s) pp) as Hr.
  destruct (get_node (root s) pp) as [[i|es]|e| |]; simpl; try done; [by eapply HF| |by apply HE].
  specialize (HD es eq_refl). by destruct (f name es) as [[a es']| | |].
Qed.

Lemma snoc_cases (p : list str) : p <> [] -> exists pp name, p = pp ++ [name].
Proof. intros H. destruct p as [|name pp _] using rev_ind; eauto. done. Qed.

Lemma path_ok_snoc pp name : path_ok (pp ++ [name]) -> component_ok name /\ (length pp < MAX_PATH_DEPTH)%nat.
Proof.
  intros [Hall Hlen]. apply Forall_app in Hall as [_ Hn%Forall_cons]. rewrite length_app in Hlen.
  simpl in Hlen. split; [tauto|lia].
Qed.

(** ** Directories *)

Section ops.
Context (q : VfsQuota) (Hq : quota_ok q).

Lemma Within_unlimited s : Within q s -> Within unlimited s.
Proof.
  intros [H1 H2 H3]. destruct Hq. constructor; simpl; [lia..|]. intros i f Hf%H3. lia.
Qed.

(** The parent of [p] is a directory. *)
Definition parent_is_dir (n : Node) (p : list str) : Prop :=
  exists pp name, p = pp ++ [name] /\ view n pp = Some ODir.

Lemma ensure_parent_ok n p :
  p <> [] ->
  match ensure_parent_is_dir n p with
  | Ok _ => parent_is_dir n p
  | Err e => lookup_fails n p e /\ ~ parent_is_dir n p
  | _ => False
  end.
Proof.
  intros (pp & name & ->)%snoc_cases. unfold ensure_parent_is_dir. rewrite split_last_snoc.
  pose proof (get_node_returns n pp) as Hr.
  destruct (get_node n pp) as [[i|es]|e| |] eqn:Hg; simpl; try done.
  - split; [apply (through_file _ _ pp [name] i); [done..|]; by apply view_file|].
    intros (pp' & name' & [-> ->]%app_inj_tail & [es Hd]%view_dir). congruence.
  - exists pp, name. split; [done|]. apply view_dir. eauto.
  - split; [by apply lookup_fails_app, get_node_fails|].
    intros (pp' & name' & [-> ->]%app_inj_tail & [es Hd]%view_dir). congruence.
Qed.

Lemma node_ok_empty d : node_ok d (Directory []).
Proof. apply node_ok_dir. by split; constructor. Qed.

Lemma WFx_set_count L x s n L' :
  WFx L x s -> (L ≫= inodes) = (L' ≫= inodes) ->
  n + Z.of_nat (sum_list (dirs <$> L)) = file_count s + Z.of_nat (sum_list (dirs <$> L')) ->
  WFx L' x (set_file_count n s).
Proof.
  intros [H1 H2 H3 H4 H5 H6 H7 H8 H9] HL Hn. constructor; simpl; try done; [by rewrite <- HL|lia].
Qed.

Inductive mkdir_fails (s : State) (path : str) : Errno -> Prop :=
| mkdir_bad_path : normalize_path path = Err EINVAL -> mkdir_fails s path EINVAL
| mkdir_exists p : normalize_path path = Ok p -> is_Some (view (root s) p) -> mkdir_fails s path EEXIST
| mkdir_no_parent p e :
    normalize_path path = Ok p -> lookup_fails (root s) p e -> ~ parent_is_dir (root s) p ->
    mkdir_fails s path e
| mkdir_no_slot p :
    normalize_path path = Ok p -> parent_is_dir (root s) p -> max_files q <= file_count s ->
    mkdir_fails s path ENOSPC.

(** The name space of [s'] is that of [s] with [p] now naming [o]. *)
Definition renamed_to (s : State) (p : list str) (o : option obj) (s' : State) : Prop :=
  forall r, view (root s') r = if decide (r = p) then o else view (root s) r.

Definition mkdir_done (s : State) (path : str) (s' : State) : Prop :=
  exists p, normalize_path path = Ok p /\ view (root s) p = None /\ parent_is_dir (root s) p
    /\ renamed_to s p (Some ODir) s'
    /\ files s' = files s /\ handles s' = handles s
    /\ used_bytes s' = used_bytes s /\ file_count s' = file_count s + 1.

Lemma view_below_missing n p r : view n p = None -> view n (p ++ r) = None.
Proof. rewrite !view_None. intros [e He]. exists e. by apply get_node_app_err. Qed.

(** A leaf put where nothing was adds one name. *)
Lemma view_inserted_leaf n p es c x r :
  get_node n p = Ok (Directory es) -> view n (p ++ [c]) = None ->
  (forall r, r <> [] -> view x r = None) ->
  view (put n p (bt_insert c x es)) r = if decide (r = p ++ [c]) then Some (obj_of x) else view n r.
Proof.
  intros Hg Hv Hx. rewrite (view_inserted _ _ _ _ _ _ Hg). destruct (strip (p ++ [c]) r) as [r'|] eqn:Hs.
  - apply strip_Some in Hs as ->. destruct r' as [|d r'].
    + by rewrite app_nil_r, decide_True.
    + rewrite Hx by done. rewrite decide_False; [by rewrite view_below_missing|].
      intros H%(f_equal length). rewrite !length_app in H. simpl in H. lia.
  - rewrite decide_False; [done|]. rewrite strip_None in Hs. intros ->. by apply (Hs []); rewrite app_nil_r.
Qed.

Lemma mkdir_spec s path :
  Inv q s -> wp (mkdir q path) s (fun _ s' => Inv q s' /\ mkdir_done s path s')
               (fun e s' => s' = s /\ mkdir_fails s path e).
Proof.
  intros [Hwf Hin]. unfold mkdir. wp_steps. apply wp_normalize; [split; [done|by constructor]|].
  intros p Hp Hok. wp_step; unbool.
  { subst. split; [done|]. eapply mkdir_exists; [done|]. by rewrite view_nil. }
  wp_steps. pose proof (get_node_returns (root s) p) as Hr.
  destruct (get_node (root s) p) as [x|e| |] eqn:Hg; try done.
  { split; [done|]. eapply mkdir_exists; [done|]. unfold view. rewrite Hg. eauto. }
  case_bool_decide as He.
  2: { split; [done|]. eapply mkdir_no_parent; [done|by apply get_node_fails|].
       intros (pp & name & -> & [es Hpp]%view_dir). rewrite get_node_child, Hpp in Hg. simpl in Hg.
       destruct (bt_get name es); by simplify_eq/=. }
  subst e. apply (wp_ret tt). wp_steps.
  pose proof (ensure_parent_ok (root s) p ltac:(done)) as Hpar.
  destruct (ensure_parent_is_dir (root s) p) as [[]|e| |]; try done.
  2: { split; [done|]. destruct Hpar. by eapply mkdir_no_parent. }
  apply (wp_ret tt). wp_steps. unfold ensure_entry_slot.
  destruct (max_files q <=? file_count s) eqn:Hslot; unbool.
  { split; [done|]. by eapply mkdir_no_slot. }
  apply (wp_ret tt). wp_steps. destruct Hpar as (pp & name & -> & [es Hpp]%view_dir).
  rewrite get_node_child, Hpp in Hg. simpl in Hg.
  destruct (bt_get name es) as [|] eqn:Hname; [done|]. clear Hg.
  eapply wp_parent_dir_mut; [done|done|]. unfold add_file_count. wp_steps.
  apply wp_u64_add; [cbn [file_count set_root]; pose proof (quota_files _ Hq); lia|]. wp_steps.
  apply path_ok_snoc in Hok as [Hc Hlen].
  assert (WF (set_file_count (file_count s + 1) (set_root (put (root s) pp (bt_insert name (Directory []) es)) s)))
    as Hwf'.
  { pose proof (WFx_set_count [] None s (file_count s + 1) [Directory []] Hwf eq_refl ltac:(simpl; lia)) as H1.
    pose proof (WFx_put_in [] None _ pp es name (Directory []) H1 Hpp) as H2.
    rewrite Hname in H2. apply H2. split; [done|]. split; [lia|]. apply node_ok_empty. }
  split; [split; [done|]|].
  - destruct Hin as [I1 I2 I3]. constructor; simpl; [done|lia|done].
  - eexists. split; [done|].
    assert (view (root s) (pp ++ [name]) = None) as Hnone.
    { rewrite (view_app _ _ _ _ Hpp). unfold view. simpl. by rewrite Hname. }
    split; [done|]. split; [exists pp, name; split; [done|]; apply view_dir; eauto|].
    split; [|done]. intros r. simpl. rewrite (view_inserted_leaf _ _ _ _ _ _ Hpp Hnone); [done|].
    by intros [].
Qed.

(** ** Removing names *)

(** Nothing but names went away: contents of the files that are left, handles
    and counters' order are as before. *)
Definition keeps (s s' : State) : Prop := drops (set_root (root s') s) s'.

Lemma remove_entry_spec s pp es c n :
  Inv q s -> get_node (root s) pp = Ok (Directory es) -> bt_get c es = Some n ->
  wp (remove_tree n) (set_root (put (root s) pp (bt_remove c es)) s)
     (fun _ s' => Inv q s' /\ keeps s s'
        /\ forall r, view (root s') r = match strip (pp ++ [c]) r with Some _ => None | None => view (root s) r end)
     (fun _ _ => False).
Proof.
  intros [Hwf Hin] Hpp Hc. set (s1 := set_root _ s).
  assert (WFx [n] None s1) as H1 by (by eapply WFx_take_out).
  assert (Within q s1) as W1 by (by destruct Hin).
  eapply wp_mono; [apply (remove_tree_spec n [] s1 H1 (Within_unlimited _ W1))| |done].
  intros _ s' [H2 Hd]. split; [split; [done|by eapply drops_Within]|].
  pose proof (drops_root _ _ Hd) as Hroot. split.
  - unfold keeps. rewrite Hroot. exact Hd.
  - intros r. rewrite Hroot. simpl.
    destruct (get_node_ok _ _ _ _ (wf_tree _ _ _ Hwf) Hpp) as [[? _]%node_ok_dir _].
    by apply view_removed.
Qed.

(** Removing a leaf removes one name. *)
Lemma removed_leaf s s' p x :
  get_node (root s) p = Ok x -> (forall r, r <> [] -> view x r = None) ->
  (forall r, view (root s') r = match strip p r with Some _ => None | None => view (root s) r end) ->
  renamed_to s p None s'.
Proof.
  intros Hx Hleaf Hv r. rewrite Hv. destruct (strip p r) as [r'|] eqn:Hs.
  - apply strip_Some in Hs as ->. case_decide as Hd; [done|]. rewrite (view_app _ _ _ _ Hx), Hleaf; [done|].
    intros ->. by rewrite app_nil_r in Hd.
  - rewrite decide_False; [done|]. rewrite strip_None in Hs. intros ->. by apply (Hs []); rewrite app_nil_r.
Qed.

Inductive unlink_fails (s : State) (path : str) : Errno -> Prop :=
| unlink_bad_path : normalize_path path = Err EINVAL -> unlink_fails s path EINVAL
| unlink_dir p : normalize_path path = Ok p -> view (root s) p = Some ODir -> unlink_fails s path EISDIR
| unlink_missing p e : normalize_path path = Ok p -> lookup_fails (root s) p e -> unlink_fails s path e.

Definition unlink_done (s : State) (path : str) (s' : State) : Prop :=
  exists p i, normalize_path path = Ok p /\ view (root s) p = Some (OFile i)
    /\ renamed_to s p None s' /\ keeps s s'.

(** The shared failure cases of [unlink] and [rmdir] when the parent lookup fails. *)
Lemma parent_file_fails n pp name i :
  get_node n pp = Ok (File i) -> lookup_fails n (pp ++ [name]) ENOTDIR.
Proof. intros H. apply (through_file _ _ pp [name] i); [done..|]. by apply view_file. Qed.

Lemma child_missing_fails n pp es name :
  get_node n pp = Ok (Directory es) -> bt_get name es = None -> lookup_fails n (pp ++ [name]) ENOENT.
Proof.
  intros H Hn. apply (missing _ _ pp name []); [done|apply view_dir; eauto|].
  apply view_None. rewrite get_node_child, H. simpl. rewrite Hn. eauto.
Qed.

Lemma child_get n pp es name x :
  get_node n pp = Ok (Directory es) -> bt_get name es = Some x -> get_node n (pp ++ [name]) = Ok x.
Proof. intros H Hn. rewrite get_node_child, H. simpl. by rewrite Hn. Qed.

Lemma unlink_spec s path :
  Inv q s -> wp (unlink path) s (fun _ s' => Inv q s' /\ unlink_done s path s')
               (fun e s' => s' = s /\ unlink_fails s path e).
Proof.
  intros Hinv. pose proof Hinv as [Hwf Hin]. unfold unlink. wp_steps.
  apply wp_normalize; [split; [done|by constructor]|]. intros p Hp Hok. wp_step; unbool.
  { subst. split; [done|]. eapply unlink_dir; [done|]. rewrite view_nil.
    by destruct (wf_dir _ _ _ Hwf) as [es ->]. }
  apply snoc_cases in Heqb as (pp & name & ->). wp_steps. apply wp_parent_dir_mut_try.
  - intros e He. split; [done|]. eapply unlink_missing; [done|]. by apply lookup_fails_app, get_node_fails.
  - intros i Hi. split; [done|]. eapply unlink_missing; [done|]. by eapply parent_file_fails.
  - intros es Hpp. unfold unlink_entry, remove_entry. destruct (bt_get name es) as [[i|es']|] eqn:Hn; simpl.
    + pose proof (child_get _ _ _ _ _ Hpp Hn) as Hg.
      eapply wp_mono; [by apply remove_entry_spec| |done]. intros _ s' (HI & Hk & Hv).
      split; [done|]. exists (pp ++ [name]), i. split; [done|]. split; [by apply view_file|].
      split; [|done]. eapply removed_leaf; [done| |done]. apply view_below_file.
    + split; [done|]. eapply unlink_dir; [done|]. apply view_dir. exists es'. by eapply child_get.
    + split; [done|]. eapply unlink_missing; [done|]. by eapply child_missing_fails.
Qed.

Inductive rmdir_fails (s : State) (path : str) : Errno -> Prop :=
| rmdir_bad_path : normalize_path path = Err EINVAL -> rmdir_fails s path EINVAL
| rmdir_root : normalize_path path = Ok [] -> rmdir_fails s path EBUSY
| rmdir_file p i : normalize_path path = Ok p -> view (root s) p = Some (OFile i) -> rmdir_fails s path ENOTDIR
| rmdir_not_empty p c :
    normalize_path path = Ok p -> view (root s) p = Some ODir -> is_Some (view (root s) (p ++ [c])) ->
    rmdir_fails s path ENOTEMPTY
| rmdir_missing p e : normalize_path path = Ok p -> lookup_fails (root s) p e -> rmdir_fails s path e.

Definition rmdir_done (s : State) (path : str) (s' : State) : Prop :=
  exists p, normalize_path path = Ok p /\ p <> [] /\ view (root s) p = Some ODir
    /\ (forall c, view (root s) (p ++ [c]) = None)
    /\ renamed_to s p None s' /\ keeps s s'.

Lemma rmdir_spec s path :
  Inv q s -> wp (rmdir path) s (fun _ s' => Inv q s' /\ rmdir_done s path s')
               (fun e s' => s' = s /\ rmdir_fails s path e).
Proof.
  intros Hinv. pose proof Hinv as [Hwf Hin]. unfold rmdir. wp_steps.
  apply wp_normalize; [split; [done|by constructor]|]. intros p Hp Hok. wp_step; unbool.
  { subst. split; [done|]. by constructor. }
  apply snoc_cases in Heqb as (pp & name & ->). wp_steps. apply wp_parent_dir_mut_try.
  - intros e He. split; [done|]. eapply rmdir_missing; [done|]. by apply lookup_fails_app, get_node_fails.
  - intros i Hi. split; [done|]. eapply rmdir_missing; [done|]. by eapply parent_file_fails.
  - intros es Hpp. unfold rmdir_entry, remove_entry. destruct (bt_get name es) as [[i|es']|] eqn:Hn; simpl.
    + split; [done|]. eapply rmdir_file; [done|]. apply view_file. by eapply child_get.
    + pose proof (child_get _ _ _ _ _ Hpp Hn) as Hg.
      destruct es' as [|[c y] es']; simpl.
      * eapply wp_mono; [by apply remove_entry_spec| |done]. intros _ s' (HI & Hk & Hv).
        split; [done|]. exists (pp ++ [name]). split; [done|]. split; [by destruct pp|].
        split; [apply view_dir; eauto|]. split; [intros c; by rewrite (view_app _ _ _ _ Hg)|].
        split; [|done]. eapply removed_leaf; [done| |done]. by intros [].
      * split; [done|]. eapply (rmdir_not_empty _ _ _ c); [done|apply view_dir; eauto|].
        rewrite (view_app _ _ _ _ Hg). unfold view. simpl. rewrite decide_True by done. eauto.
    + split; [done|]. eapply rmdir_missing; [done|]. by eapply child_missing_fails.
Qed.

(** ** Renaming *)

Inductive rename_fails (s : State) (from to : str) : Errno -> Prop :=
| rename_bad_from : normalize_path from = Err EINVAL -> rename_fails s from to EINVAL
| rename_bad_to : normalize_path to = Err EINVAL -> rename_fails s from to EINVAL
| rename_root : normalize_path from = Ok [] \/ normalize_path to = Ok [] -> rename_fails s from to EINVAL
| rename_no_source fp e :
    normalize_path from = Ok fp -> lookup_fails (root s) fp e -> rename_fails s from to e
| rename_into_itself fp r :
    normalize_path from = Ok fp -> view (root s) fp = Some ODir -> normalize_path to = Ok (fp ++ r) ->
    rename_fails s from to EINVAL
| rename_no_parent tp e :
    normalize_path to = Ok tp -> lookup_fails (root s) tp e -> rename_fails s from to e
| rename_over_dir fp i tp :
    normalize_path from = Ok fp -> view (root s) fp = Some (OFile i) ->
    normalize_path to = Ok tp -> view (root s) tp = Some ODir -> rename_fails s from to EISDIR
| rename_over_file fp i tp :
    normalize_path from = Ok fp -> view (root s) fp = Some ODir ->
    normalize_path to = Ok tp -> view (root s) tp = Some (OFile i) -> rename_fails s from to ENOTDIR
| rename_not_empty tp c :
    normalize_path to = Ok tp -> view (root s) tp = Some ODir -> is_Some (view (root s) (tp ++ [c])) ->
    rename_fails s from to ENOTEMPTY
| rename_too_deep fp tp r :
    normalize_path from = Ok fp -> normalize_path to = Ok tp -> is_Some (view (root s) (fp ++ r)) ->
    (MAX_PATH_DEPTH < length tp + length r)%nat -> rename_fails s from to EINVAL.

(** What [from] named, and everything below it, is now named by [to]. *)
Definition rename_done (s : State) (from to : str) (s' : State) : Prop :=
  exists fp tp, normalize_path from = Ok fp /\ normalize_path to = Ok tp
    /\ fp <> [] /\ tp <> [] /\ is_Some (view (root s) fp)
    /\ (forall r, view (root s') r
           = match strip tp r with
             | Some x => view (root s) (fp ++ x)
             | None => match strip fp r with Some _ => None | None => view (root s) r end
             end)
    /\ keeps s s'.

Lemma has_prefix_true p pre : has_prefix p pre = true <-> exists r, p = pre ++ r.
Proof.
  unfold has_prefix. rewrite andb_true_iff, Nat.leb_le, bool_decide_eq_true. split.
  - intros [_ H]. exists (drop (length pre) p). by rewrite <- H at 1; rewrite take_drop.
  - intros [r ->]. rewrite take_app_length, length_app. split; [lia|done].
Qed.

(** The second half of [rename]: the loose node goes in at the target. *)
Lemma rename_put_in s n pp name es :
  WFx [n] None s -> Within q s -> get_node (root s) pp = Ok (Directory es) ->
  entry_ok (MAX_PATH_DEPTH - length pp) (name, n) ->
  wp (let! replaced := parent_dir_mut (pp ++ [name]) (insert_entry n) in
      match replaced with Some replaced => remove_tree replaced | None => sret tt end) s
     (fun _ s' => Inv q s' /\ keeps s s'
        /\ forall r, view (root s') r
             = match strip (pp ++ [name]) r with Some x => view n x | None => view (root s) r end)
     (fun _ _ => False).
Proof.
  intros Hwf Hin Hpp He. wp_steps. eapply wp_parent_dir_mut; [done|done|].
  pose proof (WFx_put_in [] None s pp es name n Hwf Hpp He) as H2. set (s2 := set_root _ s) in *.
  assert (Within q s2) as W2 by (by destruct Hin).
  assert (forall r, view (root s2) r = match strip (pp ++ [name]) r with Some x => view n x | None => view (root s) r end)
    as Hv by (intros r; by apply view_inserted).
  destruct (bt_get name es) as [o|] eqn:Ho.
  - eapply wp_mono; [apply (remove_tree_spec o [] s2 H2 (Within_unlimited _ W2))| |done].
    intros _ s' [H3 Hd]. pose proof (drops_root _ _ Hd) as Hroot.
    split; [split; [done|by eapply drops_Within]|]. rewrite Hroot. split; [|done].
    unfold keeps. by rewrite Hroot.
  - wp_steps. split; [done|]. split; [|done]. unfold keeps. reflexivity.
Qed.

(** The target's parent is not below the source. *)
Lemma target_outside n fp x tpp tname es :
  get_node n fp = Ok x -> get_node n tpp = Ok (Directory es) ->
  bool_decide (node_kind x = KDirectory) && has_prefix (tpp ++ [tname]) fp = false ->
  strip fp tpp = None.
Proof.
  intros Hx Ht Hpre. destruct (strip fp tpp) as [r|] eqn:Hs; [|done]. apply strip_Some in Hs as ->.
  rewrite (get_node_app _ _ _ _ Hx) in Ht. destruct x as [i|es']; simpl in *; [by destruct r|].
  assert (has_prefix ((fp ++ r) ++ [tname]) fp = true) as H; [|congruence].
  apply has_prefix_true. exists (r ++ [tname]). by rewrite app_assoc.
Qed.

(** The depth test of [rename]: the moved subtree fits below its new parent. *)
Lemma rename_fits n x (fp tp : list str) s (Q : bool -> State -> Prop) (R : Errno -> State -> Prop) :
  node_ok MAX_PATH_DEPTH n -> get_node n fp = Ok x -> (length tp <= MAX_PATH_DEPTH)%nat ->
  (forall too_deep : bool,
     (if too_deep then exists r, is_Some (view n (fp ++ r)) /\ (MAX_PATH_DEPTH < length tp + length r)%nat
      else node_ok (MAX_PATH_DEPTH - length tp) x) -> Q too_deep s) ->
  wp (if bool_decide (node_kind x = KDirectory) && (length fp <? length tp)%nat then
        let! n := slift (get_node n fp) in
        let! fits := slift (subtree_fits n (MAX_PATH_DEPTH - length tp)) in
        sret (negb fits)
      else sret false) s Q R.
Proof.
  intros Hok Hx Hlen HQ. destruct (get_node_ok _ _ _ _ Hok Hx) as [Hnx Hfp].
  destruct (bool_decide _ && _) eqn:Hb; wp_steps.
  - rewrite Hx. apply (wp_ret x). wp_steps.
    destruct (subtree_fits_spec x (MAX_PATH_DEPTH - length tp)) as (b & -> & Hfit).
    apply (wp_ret b). wp_steps. apply HQ. destruct b; simpl.
    + eapply node_ok_height; [done|]. by apply Hfit.
    + destruct (height_reached _ _ Hnx) as (r & Hr & Hv). exists r. rewrite (view_app _ _ _ _ Hx).
      split; [done|]. assert (~ (height x <= MAX_PATH_DEPTH - length tp)%nat); [|lia].
      intros H. apply Hfit in H. done.
  - apply HQ. apply andb_false_iff in Hb as [Hb|Hb]; unbool.
    + destruct x; [done|]. by destruct Hb.
    + eapply node_ok_mono; [done|]. lia.
Qed.

(** The test of the target: it is absent, or of the kind the source may replace. *)
Lemma rename_target s from to fp x tp :
  normalize_path from = Ok fp -> normalize_path to = Ok tp -> get_node (root s) fp = Ok x ->
  match (match get_node (root s) tp with
         | Ok target => check_rename_target (node_kind x) target
         | Err e => if bool_decide (e = ENOENT) then Ok tt else Err e
         | Panic => Panic
         | OutOfFuel => OutOfFuel
         end) with
  | Ok _ => True
  | Err e => rename_fails s from to e
  | _ => False
  end.
Proof.
  intros Hf Ht Hx. pose proof (get_node_returns (root s) tp) as Hr.
  destruct (get_node (root s) tp) as [y|e| |] eqn:Hy; try done.
  - destruct x as [i|es], y as [j|es']; simpl; try done.
    + eapply rename_over_dir; [done|by apply view_file|done|]. apply view_dir. eauto.
    + eapply rename_over_file; [done|apply view_dir; eauto|done|]. by apply view_file.
    + destruct es' as [|[c z] es']; simpl; [done|]. eapply (rename_not_empty _ _ _ tp c).
      * done.
      * apply view_dir. eauto.
      * rewrite (view_app _ _ _ _ Hy). unfold view. simpl. rewrite decide_True by done. eauto.
  - case_bool_decide; [done|]. eapply rename_no_parent; [done|]. by apply get_node_fails.
Qed.

(** The move itself, once every check has passed. *)
Lemma rename_move s fp x tp :
  Inv q s -> get_node (root s) fp = Ok x -> fp <> [] -> path_ok tp -> parent_is_dir (root s) tp ->
  bool_decide (node_kind x = KDirectory) && has_prefix tp fp = false ->
  node_ok (MAX_PATH_DEPTH - length tp) x ->
  wp (let! removed := parent_dir_mut fp remove_entry in
      let! replaced := parent_dir_mut tp (insert_entry removed) in
      match replaced with Some replaced => remove_tree replaced | None => sret tt end) s
     (fun _ s' => Inv q s' /\ keeps s s'
        /\ forall r, view (root s') r
             = match strip tp r with
               | Some y => view (root s) (fp ++ y)
               | None => match strip fp r with Some _ => None | None => view (root s) r end
               end)
     (fun _ _ => False).
Proof.
  intros [Hwf Hin] Hx (fpp & fname & ->)%snoc_cases Htok (tpp & tname & -> & [tes Ht]%view_dir) Hpre Hdeep.
  pose proof Hx as Hx'. rewrite get_node_child in Hx'. apply obind_Ok_inv in Hx' as ([i|fes] & Hf & Hx'); [done|].
  destruct (bt_get fname fes) as [y|] eqn:Hn; simplify_eq/=.
  destruct (get_node_ok _ _ _ _ (wf_tree _ _ _ Hwf) Hf) as [[Hfwf _]%node_ok_dir _].
  pose proof (target_outside _ _ _ _ _ _ Hx Ht Hpre) as Hout.
  destruct (view_put_dir _ _ _ _ _ _ Hf Hfwf Hout Ht) as [es2 H2].
  apply path_ok_snoc in Htok as [Hc Hl]. rewrite length_app in Hdeep. simpl in Hdeep.
  wp_step. eapply wp_parent_dir_mut; [done|unfold remove_entry; by rewrite Hn|].
  set (s1 := set_root _ s). eapply wp_mono; [eapply (rename_put_in s1)| |done].
  - by eapply WFx_take_out.
  - by destruct Hin.
  - done.
  - split; [done|]. split; [lia|]. eapply node_ok_mono; [done|]. lia.
  - intros _ s' (HI & Hk & Hv). split; [done|]. split; [exact Hk|]. intros r. rewrite Hv.
    destruct (strip (tpp ++ [tname]) r) as [z|]; [by rewrite (view_app _ _ _ _ Hx)|].
    by apply view_removed.
Qed.

Lemma rename_spec s from to :
  Inv q s -> wp (rename from to) s (fun _ s' => Inv q s' /\ rename_done s from to s')
               (fun e s' => s' = s /\ rename_fails s from to e).
Proof.
  intros Hinv. pose proof Hinv as [Hwf Hin]. unfold rename. wp_steps.
  apply wp_normalize; [split; [done|by constructor]|]. intros fp Hfp Hfok. wp_steps.
  apply wp_normalize; [split; [done|by constructor]|]. intros tp Htp Htok. wp_step.
  { split; [done|]. apply rename_root. apply orb_true_iff in Heqb as [?|?]; unbool; subst; auto. }
  unbool. wp_steps. pose proof (get_node_returns (root s) fp) as Hr.
  destruct (get_node (root s) fp) as [x|e| |] eqn:Hx; try done.
  2: { split; [done|]. eapply rename_no_source; [done|]. by apply get_node_fails. }
  assert (is_Some (view (root s) fp)) as Hsome by (unfold view; rewrite Hx; eauto).
  apply (wp_ret x). cbv zeta. wp_step.
  { subst. wp_steps. split; [done|]. exists tp, tp. repeat (split; [done|]). split.
    - intros r. destruct (strip tp r) eqn:Hs; [apply strip_Some in Hs as ->|]; done.
    - unfold keeps. by destruct s. }
  wp_step.
  { apply has_prefix_true in H2 as [r ->]. split; [done|]. eapply rename_into_itself; [done| |done].
    unfold view. rewrite Hx. by destruct x. }
  wp_steps. pose proof (ensure_parent_ok (root s) tp ltac:(done)) as Hpar.
  destruct (ensure_parent_is_dir (root s) tp) as [[]|e| |]; try done.
  2: { split; [done|]. destruct Hpar. by eapply rename_no_parent. }
  apply (wp_ret tt). wp_steps. pose proof (rename_target s _ _ _ _ _ Hfp Htp Hx) as Htgt.
  destruct (match get_node (root s) tp with Ok _ => _ | _ => _ end) as [[]|e| |]; try done.
  apply (wp_ret tt). wp_step. rewrite <- Hx. apply rename_fits; [by apply Hwf|done|apply Htok|].
  intros [|] Hdeep.
  { destruct Hdeep as (r & ? & ?). split; [done|]. by eapply rename_too_deep. }
  eapply wp_mono; [by eapply rename_move| |done].
  intros _ s' (HI & Hk & Hv). split; [done|]. by exists fp, tp.
Qed.
End ops.
