(* ===== verification/MemVfsFiles.v ===== *)
(** * File handles of the in-memory VFS: open, read, write, truncate, close

    A write or a cut is specified with the case where it panics, [ends] instead of
    [wp], and without it where the quotas are [addressable]. *)

From S2P Require Import Prelude RustStr BTreeMap VfsTypes VfsPath VfsIface MemVfs MemVfsTree.
From S2P Require Import MemVfsInv MemVfsView MemVfsOps.

(** The bytes of a file. *)
Definition contents (s : State) (i : Z) : option bytes := data <$> files s !! i.

Lemma len_resize d n : 0 <= n -> len (resize d n) = n.
Proof.
  intros H. unfold resize, len. rewrite length_app, length_take, length_replicate. lia.
Qed.

Lemma resize_0 d : resize d 0 = [].
Proof. apply length_zero_iff_nil. pose proof (len_resize d 0). unfold len in *. lia. Qed.

Lemma len_splice d start new :
  0 <= start -> start + len new <= len d -> len (splice d start new) = len d.
Proof.
  intros H1 H2. unfold splice, len in *. rewrite !length_app, length_take, length_drop. lia.
Qed.

(** The buffer after [write_at]: what was there, zeros up to the offset, and the
    written bytes. *)
Definition written (d : bytes) (start : Z) (new : bytes) : bytes :=
  splice (resize d (Z.max (len d) (start + len new))) start new.

Lemma written_len d start new :
  0 <= start -> len (written d start new) = Z.max (len d) (start + len new).
Proof.
  intros H. unfold written. pose proof (len_nonneg new). pose proof (len_nonneg d).
  rewrite len_splice; rewrite ?len_resize; lia.
Qed.

Lemma written_eq d start new :
  0 <= start ->
  written d start new
  = (take (Z.to_nat start) d ++ replicate (Z.to_nat (start - len d)) 0) ++ new
    ++ drop (Z.to_nat (start + len new)) d.
Proof.
  intros H. unfold written, splice, resize, len in *.
  rewrite (take_ge d) by lia. rewrite take_app, take_replicate, drop_app, drop_replicate.
  f_equal; [f_equal; f_equal; lia|]. f_equal.
  replace (_ - _)%nat with 0%nat by lia. simpl. rewrite app_nil_r. f_equal. lia.
Qed.

(** Reading back what was written. *)
Lemma written_read d start new :
  0 <= start -> take (length new) (drop (Z.to_nat start) (written d start new)) = new.
Proof.
  intros H. rewrite written_eq by done. rewrite drop_app_length'.
  - by rewrite take_app_length.
  - rewrite length_app, length_take, length_replicate. unfold len. lia.
Qed.

(** Bytes outside the written range are kept. *)
Lemma written_before d start new k :
  (k < Z.to_nat start)%nat -> (k < length d)%nat -> written d start new !! k = d !! k.
Proof.
  intros H1 H2. rewrite written_eq by lia.
  rewrite lookup_app_l by (rewrite length_app, length_take; lia).
  rewrite lookup_app_l by (rewrite length_take; lia). by rewrite lookup_take_lt.
Qed.

Lemma written_after d start new k :
  0 <= start -> (Z.to_nat (start + len new) <= k)%nat -> written d start new !! k = d !! k.
Proof.
  intros H0 H1. rewrite written_eq by lia. pose proof (len_nonneg new).
  assert (length (take (Z.to_nat start) d ++ replicate (Z.to_nat (start - len d)) 0) = Z.to_nat start) as Hl.
  { rewrite length_app, length_take, length_replicate. unfold len. lia. }
  unfold len in *. rewrite lookup_app_r, lookup_app_r, lookup_drop by (rewrite ?Hl; lia).
  f_equal. rewrite Hl. lia.
Qed.

Section files.
Context (q : VfsQuota) (Hq : quota_ok q).

(** ** Resizing *)

(** A changed buffer, with the byte count that goes with it. *)
Definition set_data (i : Z) (f : FileNode) (d : bytes) (s : State) : State :=
  set_used_bytes (used_bytes s + len d - len (data f)) (set_files (<[i := with_data d f]> (files s)) s).

Lemma Inv_set_data s i f d :
  Inv q s -> files s !! i = Some f -> len d <= max_file_size q ->
  used_bytes s + len d - len (data f) <= max_bytes q -> Inv q (set_data i f d s).
Proof.
  intros [[H1 H2 H3 H4 H5 H6 H7 H8 H9] [I1 I2 I3]] Hf Hs Hb. split; constructor; simpl; try done.
  - by eapply Refs_update.
  - intros j g [[<- _]|[_ ?]]%lookup_insert_Some; eauto.
  - rewrite (total_update _ _ _ _ Hf), H8. simpl. lia.
  - rewrite map_size_insert_Some by eauto. by rewrite H9.
  - intros j g [[<- <-]|[_ ?]]%lookup_insert_Some; eauto.
Qed.

Definition no_space (s : State) (f : FileNode) (n : Z) : Prop :=
  max_file_size q < n \/ max_bytes q < used_bytes s + n - len (data f).

(** A file that is to be longer than a vector can be, though the quotas admit it. *)
Definition overlong (s : State) (f : FileNode) (n : Z) : Prop :=
  len (data f) < n /\ ISIZE_MAX < n /\ ~ no_space s f n.

Lemma vec_resize_cases {E} d n :
  vec_resize (E := E) d n = Panic /\ len d < n /\ ISIZE_MAX < n
  \/ vec_resize (E := E) d n = Ok (resize d n) /\ ~ (len d < n /\ ISIZE_MAX < n).
Proof.
  unfold vec_resize. destruct (len d <? n) eqn:H1, (ISIZE_MAX <? n) eqn:H2; unbool; [left|right..]; (split; [done|lia]).
Qed.

(** Resizing a file changes it, is refused for want of space, or panics, and does
    so exactly when the file would be overlong. *)
Lemma resize_file_ends s i f n (Q : unit -> State -> Prop) (R : Errno -> State -> Prop) :
  Inv q s -> files s !! i = Some f -> 0 <= n ->
  (Inv q (set_data i f (resize (data f) n) s) -> ~ no_space s f n -> ~ overlong s f n ->
     Q tt (set_data i f (resize (data f) n) s)) ->
  (no_space s f n -> R ENOSPC s) ->
  ends (fun s' => s' = s /\ overlong s f n) (resize_file q i n) s Q R.
Proof.
  intros Hinv Hf Hn HQ HR. unfold resize_file. ends_steps. eapply ends_wp, wp_some; [done|]. ends_steps.
  destruct Hq as [[_ Q1] _ [_ Q3]]. destruct Hinv as [Hwf [I1 I2 I3]] eqn:E.
  pose proof (total_le_used _ _ _ _ _ Hwf Hf) as Hle. pose proof (len_nonneg (data f)) as Hnn.
  unfold u64_try_from at 1. rewrite (proj2 (Z.leb_le 0 n) Hn). simpl.
  destruct (n <=? U64_MAX) eqn:HU; unbool; [|apply HR; left; lia].
  apply (ends_ret n). ends_step; [apply HR; by left|].
  unfold adjusted_used_bytes, u64_try_from.
  rewrite (proj2 (Z.leb_le 0 (len (data f))) Hnn), (proj2 (Z.leb_le (len (data f)) U64_MAX)) by lia.
  rewrite (proj2 (Z.leb_le 0 n) Hn), (proj2 (Z.leb_le n U64_MAX)) by lia. cbn [andb obind].
  ends_step. eapply (ends_mono _ _ (fun u s' => u = used_bytes s + n - len (data f) /\ s' = s) _
    (fun e s' => e = ENOSPC /\ U64_MAX < used_bytes s + n - len (data f) /\ s' = s)).
  3: { intros e s' (-> & ? & ->). apply HR. right. lia. }
  { apply ends_wp. destruct (len (data f) <=? n) eqn:Hcmp; unbool.
    - apply wp_ok_or; [intros u [-> _]%checked_add_Some; split; [lia|done]|].
      unfold checked_add. case_match; [done|]. unbool. intros _. split; [done|split; [lia|done]].
    - apply wp_u64_sub; [lia|]. split; [lia|done]. }
  intros u s' [-> ->]. ends_step; [apply HR; by right|]. ends_step.
  assert (~ no_space s f n) as Hns by (unfold no_space; lia).
  destruct (vec_resize_cases (E := Errno) (data f) n) as [(-> & ? & ?)|[-> Hfit]]; [done|].
  apply (ends_ret (resize (data f) n)). ends_steps.
  assert (set_data i f (resize (data f) n) s = set_used_bytes (used_bytes s + n - len (data f))
    (set_files (<[i := with_data (resize (data f) n) f]> (files s)) s)) as <-
    by (unfold set_data; by rewrite len_resize).
  apply HQ; [apply Inv_set_data; rewrite ?len_resize by done; done|done|]. unfold overlong. tauto.
Qed.

(** Making a file no longer never panics. *)
Lemma shrink_file_spec s i f n (Q : unit -> State -> Prop) (R : Errno -> State -> Prop) :
  Inv q s -> files s !! i = Some f -> 0 <= n <= len (data f) ->
  (Inv q (set_data i f (resize (data f) n) s) -> Q tt (set_data i f (resize (data f) n) s)) ->
  (no_space s f n -> R ENOSPC s) ->
  wp (resize_file q i n) s Q R.
Proof.
  intros Hinv Hf [Hn Hle] HQ HR. eapply ends_never; [eapply resize_file_ends; eauto|].
  intros s' (_ & ? & _). lia.
Qed.

(** Copying the bytes into the resized buffer. *)
Lemma set_data_written s i f start new :
  0 <= start ->
  let g := with_data (resize (data f) (Z.max (len (data f)) (start + len new))) f in
  let s1 := set_data i f (data g) s in
  set_files (<[i := with_data (splice (data g) start new) g]> (files s1)) s1 = set_data i f (written (data f) start new) s.
Proof.
  intros Hst g s1. pose proof (len_nonneg (data f)). unfold s1, g, set_data, set_files, set_used_bytes. simpl.
  rewrite insert_insert_eq, written_len, len_resize by lia. done.
Qed.

(** ** Reading *)

Lemma handle_file s h x : Inv q s -> handles s !! h = Some x -> exists f, files s !! h_inode x = Some f.
Proof. intros [Hwf _] Hx. destruct (refs_handle _ _ _ _ (wf_refs _ _ _ Hwf) _ _ Hx). eauto. Qed.

Inductive read_fails (s : State) (h offset : Z) : Errno -> Prop :=
| read_bad_offset : ~ 0 <= offset <= USIZE_MAX -> read_fails s h offset EINVAL
| read_bad_handle :
    (forall x, handles s !! h = Some x -> h_readable x = false) -> read_fails s h offset EBADF.

Definition read_done (s : State) (h offset : Z) (buf : bytes) (r : Z * bytes) : Prop :=
  exists x d, handles s !! h = Some x /\ h_readable x = true /\ contents s (h_inode x) = Some d
    /\ r = read_result d offset buf.

Lemma read_at_spec s h offset buf :
  Inv q s -> wp (read_at h offset buf) s (fun r s' => s' = s /\ read_done s h offset buf r)
               (fun e s' => s' = s /\ read_fails s h offset e).
Proof.
  intros Hinv. unfold read_at. wp_steps. unfold usize_try_from.
  destruct ((0 <=? offset) && (offset <=? USIZE_MAX)) eqn:Ho; unbool.
  2: { split; [done|]. constructor. intros [??]. apply andb_false_iff in Ho as [?|?]; unbool; lia. }
  apply (wp_ret offset). wp_steps. apply wp_ok_or.
  2: { intros Hn. split; [done|]. apply read_bad_handle. intros x Hx. congruence. }
  intros x Hx. wp_step.
  { wp_steps. split; [done|]. apply read_bad_handle. intros y Hy. congruence. }
  destruct (handle_file _ _ _ Hinv Hx) as [f Hf]. wp_steps. eapply wp_some; [done|].
  assert (contents s (h_inode x) = Some (data f)) as Hc by (unfold contents; by rewrite Hf).
  wp_steps; (split; [done|]; exists x, (data f); repeat (split; [done|]); unfold read_result).
  - unfold len in *. rewrite drop_ge by lia. rewrite take_nil. done.
  - set (got := take (length buf) _).
    assert (Z.min (len (data f) - offset) (len buf) = len got) as ->.
    { unfold got, len in *. rewrite length_take, length_drop. lia. }
    assert (Z.to_nat (len got) = length got) as -> by (unfold len; lia). f_equal. f_equal.
    unfold got. set (l := drop _ _). by rewrite length_take, <- take_take, (take_ge l) at 1.
Qed.

(** ** Writing *)

Inductive write_fails (s : State) (h offset : Z) (new : bytes) : Errno -> Prop :=
| write_bad_handle :
    (forall x, handles s !! h = Some x -> h_writable x = false) -> write_fails s h offset new EBADF
| write_bad_offset : ~ 0 <= offset <= USIZE_MAX -> write_fails s h offset new EINVAL
| write_overflow x f :
    handles s !! h = Some x -> files s !! h_inode x = Some f ->
    U64_MAX < (if h_append x then len (data f) else offset) + len new ->
    write_fails s h offset new EINVAL
| write_no_space x f :
    handles s !! h = Some x -> files s !! h_inode x = Some f ->
    no_space s f (Z.max (len (data f)) ((if h_append x then len (data f) else offset) + len new)) ->
    write_fails s h offset new ENOSPC.

Definition write_done (s : State) (h offset : Z) (new : bytes) (n : Z) (s' : State) : Prop :=
  exists x f, handles s !! h = Some x /\ h_writable x = true /\ files s !! h_inode x = Some f
    /\ n = len new
    /\ if bool_decide (new = []) then s' = s
       else s' = set_data (h_inode x) f (written (data f) (if h_append x then len (data f) else offset) new) s.

(** Writing this would make the file overlong. *)
Definition write_overlong (s : State) (h offset : Z) (new : bytes) : Prop :=
  exists x f, handles s !! h = Some x /\ h_writable x = true /\ files s !! h_inode x = Some f
    /\ new <> [] /\ 0 <= offset <= USIZE_MAX
    /\ overlong s f (Z.max (len (data f)) ((if h_append x then len (data f) else offset) + len new)).

Lemma write_at_ends s h offset new :
  Inv q s ->
  ends (fun s' => s' = s /\ write_overlong s h offset new) (write_at q h offset new) s
    (fun n s' => Inv q s' /\ write_done s h offset new n s' /\ ~ write_overlong s h offset new)
    (fun e s' => s' = s /\ write_fails s h offset new e /\ ~ write_overlong s h offset new).
Proof.
  intros Hinv. unfold write_at. ends_steps. apply ends_wp, wp_ok_or.
  2: { intros Hn. split; [done|]. split; [apply write_bad_handle; congruence|]. intros (x & f & Hx & _). congruence. }
  intros x Hx. destruct (handle_file _ _ _ Hinv Hx) as [f Hf]. ends_step.
  { ends_steps. split; [done|]. split; [apply write_bad_handle; congruence|]. intros (y & f' & Hy & Hw & _). congruence. }
  ends_step.
  { ends_steps. subst. split; [done|]. split; [exists x, f; by rewrite bool_decide_eq_true_2|].
    by intros (y & f' & _ & _ & _ & ? & _). }
  ends_steps. unfold usize_try_from. destruct ((0 <=? offset) && (offset <=? USIZE_MAX)) eqn:Ho; unbool.
  2: { assert (~ 0 <= offset <= USIZE_MAX) as Hbad by (intros [??]; apply andb_false_iff in Ho as [?|?]; unbool; lia).
       split; [done|]. split; [by apply write_bad_offset|]. by intros (y & f' & _ & _ & _ & _ & ? & _). }
  apply (ends_ret offset). ends_steps. eapply ends_wp, wp_some; [done|]. ends_steps.
  set (start := if h_append x then len (data f) else offset).
  assert (0 <= start) as Hst by (unfold start; case_match; auto with rust).
  assert (~ overlong s f (Z.max (len (data f)) (start + len new)) -> ~ write_overlong s h offset new) as Hover.
  { intros HP (y & f' & Hy & _ & Hf' & _ & _ & Hlong). by simplify_eq. }
  apply ends_wp, wp_ok_or.
  2: { intros Hn. assert (U64_MAX < start + len new) by (unfold checked_add in Hn; case_match; unbool; [done|lia]).
       split; [done|]. split; [by eapply write_overflow|]. apply Hover. intros (_ & _ & Hns). apply Hns. left.
       destruct Hq as [_ _ [_ Hmax]]. lia. }
  intros e [-> He]%checked_add_Some. ends_steps. eapply ends_panics.
  { apply (resize_file_ends s (h_inode x) f); [done|done|pose proof (len_nonneg (data f)); lia| |].
    2: { intros Hns. split; [done|]. split; [by eapply write_no_space|]. apply Hover. by intros (_ & _ & ?). }
    intros Hinv' Hns Hfit. ends_steps. eapply ends_wp, wp_some; [simpl; apply lookup_insert_eq|]. ends_steps.
    pose proof (set_data_written s (h_inode x) f start new Hst) as Hs'. cbv zeta in Hs'. cbn [data with_data] in *. rewrite Hs'.
    split; [|split; [|by apply Hover]].
    - unfold no_space in Hns. apply Inv_set_data; rewrite ?written_len by done; try done; lia.
    - exists x, f. rewrite bool_decide_eq_false_2 by done. done. }
  intros s' [-> Hlong]. split; [done|]. exists x, f. unbool. by destruct (h_writable x).
Qed.

Lemma write_at_spec s h offset new :
  Inv q s -> ~ write_overlong s h offset new ->
  wp (write_at q h offset new) s (fun n s' => Inv q s' /\ write_done s h offset new n s')
     (fun e s' => s' = s /\ write_fails s h offset new e).
Proof.
  intros Hs Hfit. eapply ends_never; [eapply ends_mono; [by apply write_at_ends|intros ? ? (? & ? & _); by split..]|]. by intros s' [_ ?].
Qed.

Inductive truncate_fails (s : State) (h n : Z) : Errno -> Prop :=
| truncate_bad_len : ~ 0 <= n <= USIZE_MAX -> truncate_fails s h n ENOSPC
| truncate_bad_handle : handles s !! h = None -> truncate_fails s h n EBADF
| truncate_read_only x : handles s !! h = Some x -> h_writable x = false -> truncate_fails s h n EINVAL
| truncate_no_space x f :
    handles s !! h = Some x -> files s !! h_inode x = Some f -> no_space s f n -> truncate_fails s h n ENOSPC.

Definition truncate_done (s : State) (h n : Z) (s' : State) : Prop :=
  exists x f, handles s !! h = Some x /\ h_writable x = true /\ files s !! h_inode x = Some f
    /\ s' = set_data (h_inode x) f (resize (data f) n) s.

Definition truncate_overlong (s : State) (h n : Z) : Prop :=
  exists x f, handles s !! h = Some x /\ h_writable x = true /\ files s !! h_inode x = Some f
    /\ 0 <= n <= USIZE_MAX /\ overlong s f n.

Lemma truncate_ends s h n :
  Inv q s ->
  ends (fun s' => s' = s /\ truncate_overlong s h n) (truncate q h n) s
    (fun _ s' => Inv q s' /\ truncate_done s h n s' /\ ~ truncate_overlong s h n)
    (fun e s' => s' = s /\ truncate_fails s h n e /\ ~ truncate_overlong s h n).
Proof.
  intros Hinv. unfold truncate. ends_steps. unfold usize_try_from.
  destruct ((0 <=? n) && (n <=? USIZE_MAX)) eqn:Ho; unbool.
  2: { assert (~ 0 <= n <= USIZE_MAX) as Hbad by (intros [??]; apply andb_false_iff in Ho as [?|?]; unbool; lia).
       split; [done|]. split; [by apply truncate_bad_len|]. by intros (y & f' & _ & _ & _ & ? & _). }
  apply (ends_ret n). ends_steps. apply ends_wp, wp_ok_or.
  2: { intros Hn. split; [done|]. split; [by constructor|]. intros (x & f & Hx & _). congruence. }
  intros x Hx. destruct (handle_file _ _ _ Hinv Hx) as [f Hf]. ends_step.
  { ends_steps. split; [done|]. split; [by eapply truncate_read_only|]. intros (y & f' & Hy & Hw & _). congruence. }
  assert (~ overlong s f n -> ~ truncate_overlong s h n) as Hover.
  { intros HP (y & f' & Hy & _ & Hf' & _ & Hl). by simplify_eq. }
  eapply ends_panics.
  { apply (resize_file_ends s (h_inode x) f); [done|done|done| |].
    - intros HI _ Hfit. split; [done|]. split; [by exists x, f|by apply Hover].
    - intros Hns. split; [done|]. split; [by eapply truncate_no_space|]. apply Hover. by intros (_ & _ & ?). }
  intros s' [-> Hlong]. split; [done|]. exists x, f. by destruct (h_writable x).
Qed.

Lemma truncate_spec s h n :
  Inv q s -> ~ truncate_overlong s h n ->
  wp (truncate q h n) s (fun _ s' => Inv q s' /\ truncate_done s h n s')
     (fun e s' => s' = s /\ truncate_fails s h n e).
Proof.
  intros Hs Hfit. eapply ends_never; [eapply ends_mono; [by apply truncate_ends|intros ? ? (? & ? & _); by split..]|]. by intros s' [_ ?].
Qed.

(** Quotas that admit no file a vector could not hold. *)
Definition addressable : Prop := max_bytes q <= ISIZE_MAX \/ max_file_size q <= ISIZE_MAX.

Lemma never_overlong s f n i : addressable -> Inv q s -> files s !! i = Some f -> ~ overlong s f n.
Proof.
  intros Ha [Hwf _] Hf (_ & Hn & Hns). apply Hns. pose proof (total_le_used _ _ _ _ _ Hwf Hf).
  destruct Ha; [right|left]; lia.
Qed.

Lemma never_write_overlong s h offset new : addressable -> Inv q s -> ~ write_overlong s h offset new.
Proof. intros Ha Hs (x & f & _ & _ & Hf & _ & _ & H). by eapply never_overlong in H. Qed.

Lemma never_truncate_overlong s h n : addressable -> Inv q s -> ~ truncate_overlong s h n.
Proof. intros Ha Hs (x & f & _ & _ & Hf & _ & H). by eapply never_overlong in H. Qed.

(** ** Closing *)

(** The handle is gone; a file goes with its last reference. *)
Definition close_done (s : State) (h : Z) (s' : State) : Prop :=
  exists x, handles s !! h = Some x /\ drops (set_handles (delete h (handles s)) s) s'.

Lemma close_spec s h :
  Inv q s -> wp (close h) s (fun _ s' => Inv q s' /\ close_done s h s')
               (fun e s' => s' = s /\ e = EBADF /\ handles s !! h = None).
Proof.
  intros Hinv. unfold close. wp_steps. apply wp_ok_or; [|done]. intros x Hx.
  destruct (handle_file _ _ _ Hinv Hx) as [f Hf]. wp_steps. eapply wp_some; [done|]. wp_steps.
  pose proof Hinv as [[H1 H2 H3 H4 H5 H6 H7 H8 H9] Hin].
  pose proof (refs_open _ _ _ _ H3 _ _ Hf) as Hopen. pose proof (refs_lookup _ _ _ Hx) as Hpos.
  apply wp_u64_sub; [lia|]. wp_steps.
  set (s0 := set_handles _ s). set (s1 := set_files _ s0).
  assert (WFx [] (Some (h_inode x)) s1) as Hwf1.
  { constructor; simpl; try done.
    - by apply Refs_close.
    - intros j g [[<- _]|[_ ?]]%lookup_insert_Some; eauto.
    - intros h' y [_ ?]%lookup_delete_Some. eauto.
    - rewrite (total_update _ _ _ _ Hf). simpl. lia.
    - rewrite map_size_insert_Some by eauto. by rewrite H9. }
  assert (drops s0 s1) as Hd.
  { constructor; simpl; try done. intros j g [[<- <-]|[_ ?]]%lookup_insert_Some; eauto. }
  assert (Within q s1) as W1.
  { eapply drops_Within; [done|]. by destruct Hin. }
  eapply wp_mono; [apply (release_spec [] s1); [done|by eapply Within_unlimited|]|..].
  - simpl. rewrite lookup_insert_eq. eauto.
  - intros _ s' [? ?]. split; [split; [done|by eapply drops_Within]|].
    exists x. split; [done|]. by transitivity s1.
  - done.
Qed.

(** ** Opening *)

Inductive open_fails (s : State) (path : str) (m : OpenMode) : Errno -> Prop :=
| open_bad_mode e : validate m = Err e -> open_fails s path m e
| open_bad_path : normalize_path path = Err EINVAL -> open_fails s path m EINVAL
| open_dir p : normalize_path path = Ok p -> view (root s) p = Some ODir -> open_fails s path m EISDIR
| open_exists p i :
    normalize_path path = Ok p -> view (root s) p = Some (OFile i) -> m_create_new m = true ->
    open_fails s path m EEXIST
| open_missing p e :
    normalize_path path = Ok p -> lookup_fails (root s) p e ->
    (m_create m || m_create_new m = false \/ ~ parent_is_dir (root s) p) -> open_fails s path m e
| open_no_slot p :
    normalize_path path = Ok p -> parent_is_dir (root s) p -> max_files q <= file_count s ->
    open_fails s path m ENOSPC.

(** Resolving the path: the file that was there, emptied on request, or a new one. *)
Definition found (s : State) (p : list str) (m : OpenMode) (i : Z) (s' : State) : Prop :=
  view (root s) p = Some (OFile i) /\ m_create_new m = false /\ root s' = root s
  /\ contents s' i = (if m_truncate m then Some [] else contents s i)
  /\ forall j, j <> i -> files s' !! j = files s !! j.

Definition created (s : State) (p : list str) (m : OpenMode) (i : Z) (s' : State) : Prop :=
  view (root s) p = None /\ parent_is_dir (root s) p /\ m_create m || m_create_new m = true
  /\ i = next_inode s /\ files s !! i = None
  /\ renamed_to s p (Some (OFile i)) s'
  /\ contents s' i = Some []
  /\ forall j, j <> i -> files s' !! j = files s !! j.

Lemma create_file_spec s p (Q : Z -> State -> Prop) (R : Errno -> State -> Prop) :
  Inv q s -> path_ok p -> p <> [] -> view (root s) p = None -> next_inode s < U64_MAX ->
  (forall s', Inv q s' -> parent_is_dir (root s) p -> files s !! next_inode s = None ->
     renamed_to s p (Some (OFile (next_inode s))) s' ->
     files s' = <[next_inode s := mkFileNode [] 1 0]> (files s) ->
     handles s' = handles s -> next_handle s' = next_handle s ->
     next_inode s' = next_inode s + 1 -> Q (next_inode s) s') ->
  (forall e, lookup_fails (root s) p e -> ~ parent_is_dir (root s) p -> R e s) ->
  (parent_is_dir (root s) p -> max_files q <= file_count s -> R ENOSPC s) ->
  wp (create_file q p) s Q R.
Proof.
  intros [Hwf Hin] Hok Hne Hnone Hnext HQ HR1 HR2. unfold create_file. wp_steps.
  pose proof (ensure_parent_ok (root s) p Hne) as Hpar.
  destruct (ensure_parent_is_dir (root s) p) as [[]|e| |]; try done; [|destruct Hpar; by apply HR1].
  apply (wp_ret tt). wp_steps. unfold ensure_entry_slot.
  destruct (max_files q <=? file_count s) eqn:Hslot; unbool; [by apply HR2|].
  apply (wp_ret tt). wp_steps. apply wp_u64_add; [lia|]. wp_steps.
  pose proof Hpar as (pp & name & -> & [es Hpp]%view_dir).
  assert (bt_get name es = None) as Hname.
  { apply view_None in Hnone as [e He]. rewrite get_node_child, Hpp in He. simpl in He.
    by destruct (bt_get name es). }
  destruct Hwf as [H1 H2 H3 H4 H5 H6 H7 H8 H9].
  assert (files s !! next_inode s = None) as Hfresh.
  { destruct (files s !! next_inode s) eqn:Hf; [|done]. apply H5 in Hf. lia. }
  eapply wp_parent_dir_mut; [done|done|]. unfold add_file_count. wp_steps.
  pose proof (quota_files _ Hq).
  apply wp_u64_add; [cbn [file_count set_root set_files set_next_inode]; lia|]. wp_steps.
  apply path_ok_snoc in Hok as [Hc Hlen]. set (i := next_inode s) in *.
  set (s1 := mkState (root s) (<[i := mkFileNode [] 1 0]> (files s)) (i + 1) (next_handle s) (handles s)
               (used_bytes s) (file_count s + 1)).
  assert (WFx [File i] None s1) as Hwf1.
  { constructor; simpl; try done; try lia.
    - rewrite <- Permutation_cons_append. rewrite app_nil_r in H3. by apply Refs_create.
    - intros j g [[<- _]|[_ Hj]]%lookup_insert_Some; [lia|]. apply H5 in Hj. lia.
    - rewrite (total_insert _ _ _ Hfresh). simpl. by rewrite H8.
    - rewrite map_size_insert_None by done. simpl in H9. lia. }
  pose proof (WFx_put_in [] None s1 pp es name (File i) Hwf1 Hpp) as Hwf2. rewrite Hname in Hwf2.
  apply HQ; try done.
  - split; [apply Hwf2; split; [done|split; [lia|done]]|]. destruct Hin as [I1 I2 I3].
    constructor; simpl; [done|lia|]. pose proof (quota_size _ Hq).
    intros j g [[<- <-]|[_ ?]]%lookup_insert_Some; [simpl; unfold len; simpl; lia|eauto].
  - intros r. simpl. rewrite (view_inserted_leaf _ _ _ _ _ _ Hpp Hnone); [done|]. apply view_below_file.
Qed.

Lemma tree_file s p i : Inv q s -> view (root s) p = Some (OFile i) -> exists f, files s !! i = Some f.
Proof.
  intros [Hwf _] Hv. destruct (refs_dom _ _ _ _ (wf_refs _ _ _ Hwf) i) as [f Hf]; [|eauto].
  apply elem_of_app. left. eapply view_inodes; [by apply Hwf|eauto].
Qed.

Lemma open_inode_spec s path p m :
  Inv q s -> next_inode s < U64_MAX -> normalize_path path = Ok p -> path_ok p ->
  wp (open_inode q p m) s
     (fun i s' => Inv q s' /\ (found s p m i s' \/ created s p m i s') /\ is_Some (files s' !! i)
                  /\ handles s' = handles s /\ next_handle s' = next_handle s
                  /\ next_inode s <= next_inode s' <= next_inode s + 1)
     (fun e s' => s' = s /\ open_fails s path m e).
Proof.
  intros Hinv Hnext Hp Hok. unfold open_inode. wp_steps.
  pose proof (get_node_returns (root s) p) as Hr.
  destruct (get_node (root s) p) as [[i|es]|e| |] eqn:Hg; try done.
  - pose proof Hg as Hv. apply view_file in Hv. destruct (tree_file _ _ _ Hinv Hv) as [f Hf].
    wp_step; [split; [done|by eapply open_exists]|]. wp_step.
    + wp_step. apply (shrink_file_spec s i f); [done|done|pose proof (len_nonneg (data f)); lia| |].
      * intros HI. wp_steps. split; [done|]. simpl. rewrite lookup_insert_eq. split; [|split; [eauto|]; split; [done|]; split; [done|lia]].
        left. split; [done|]. split; [done|]. split; [done|]. unfold contents. simpl. rewrite lookup_insert_eq.
        rewrite Heqb0. split; [simpl; by rewrite resize_0|]. intros j Hj. by rewrite lookup_insert_ne.
      * pose proof Hinv as [Hwf [I1 I2 I3]]. pose proof (quota_size _ Hq). pose proof (len_nonneg (data f)).
        intros [?|?]; lia.
    + wp_steps. split; [done|]. split; [|rewrite Hf; split; [eauto|]; split; [done|]; split; [done|lia]]. left. unfold found. by rewrite Heqb0.
  - split; [done|]. eapply open_dir; [done|]. apply view_dir. eauto.
  - pose proof (get_node_fails _ _ _ Hg) as Hfail.
    destruct (bool_decide (e = ENOENT) && (m_create m || m_create_new m)) eqn:Hc; unbool.
    + subst e. assert (view (root s) p = None) as Hnone by (apply view_None; eauto).
      apply create_file_spec; try done.
      * by intros ->.
      * intros s' HI Hpar Hfresh Hren Hfiles Hh Hn Hi. split; [done|]. rewrite Hfiles, lookup_insert_eq.
        split; [|split; [eauto|]; split; [done|]; split; [done|lia]]. right. unfold created, contents. rewrite Hfiles, lookup_insert_eq.
        repeat (split; [done|]). intros j Hj. by rewrite lookup_insert_ne.
      * intros e Hl Hpar. split; [done|]. eapply open_missing; [done|done|]. by right.
      * intros Hpar Hsl. split; [done|]. by eapply open_no_slot.
    + split; [done|]. eapply open_missing; [done|done|]. apply andb_false_iff in Hc as [Hc|Hc]; [|by left].
      unbool. right. intros (pp & name & -> & [es Hpp]%view_dir). rewrite get_node_child, Hpp in Hg. simpl in Hg.
      destruct (bt_get name es); by simplify_eq/=.
Qed.

Definition open_done (s : State) (path : str) (m : OpenMode) (h : Z) (s' : State) : Prop :=
  exists p i, normalize_path path = Ok p /\ (found s p m i s' \/ created s p m i s')
    /\ h = next_handle s /\ handles s !! h = None
    /\ handles s' = <[h := mkHandle i (m_read m) (m_write m) (m_append m)]> (handles s)
    /\ next_handle s' = next_handle s + 1 /\ next_inode s <= next_inode s' <= next_inode s + 1.

(** Counting one more handle changes neither names nor contents. *)
Lemma found_open s p m i s' f n hs nh :
  files s' !! i = Some f ->
  found s p m i s' \/ created s p m i s' ->
  let s2 := mkState (root s') (<[i := with_open_handles n f]> (files s')) (next_inode s') nh hs
              (used_bytes s') (file_count s') in
  found s p m i s2 \/ created s p m i s2.
Proof.
  intros Hf H s2.
  assert (contents s2 i = contents s' i) as Hc.
  { unfold contents. simpl. by rewrite lookup_insert_eq, Hf. }
  assert (forall j, j <> i -> files s2 !! j = files s' !! j) as Hj
    by (intros j Hj; simpl; by rewrite lookup_insert_ne).
  destruct H as [(? & ? & ? & ? & Ho)|(? & ? & ? & ? & ? & ? & ? & Ho)]; [left|right];
    repeat (split; [first [done|by rewrite Hc]|]); intros j Hne; rewrite (Hj j Hne); auto.
Qed.

Lemma open_spec s path m :
  Inv q s -> next_inode s < U64_MAX -> next_handle s < U64_MAX ->
  wp (open q path m) s (fun h s' => Inv q s' /\ open_done s path m h s')
     (fun e s' => s' = s /\ open_fails s path m e).
Proof.
  intros Hinv Hni Hnh. unfold open. wp_step. apply wp_lift.
  { unfold validate. by repeat case_match. }
  2: { intros e He. split; [done|]. by apply open_bad_mode. }
  intros [] Hval. wp_step. apply wp_normalize; [by split; [done|constructor]|]. intros p Hp Hok. wp_step.
  eapply wp_mono; [by apply open_inode_spec| |done]. intros i s1 (HI & Hres & [f Hf] & Hh & Hn & Hi).
  wp_steps. rewrite Hn. apply wp_u64_add; [lia|]. wp_steps. eapply wp_some; [done|]. wp_steps.
  pose proof HI as [[H1 H2 H3 H4 H5 H6 H7 H8 H9] Hin].
  pose proof (refs_open _ _ _ _ H3 _ _ Hf) as Hopen.
  assert (handles s1 !! next_handle s = None) as Hfresh.
  { destruct (handles s1 !! next_handle s) eqn:Hx; [|done]. apply H7 in Hx. lia. }
  assert (open_handles f + 1 <= U64_MAX) as Hov.
  { pose proof (refs_bounds i (handles s1)). pose proof (handles_size (handles s1) (next_handle s1)).
    rewrite Hopen. assert (Z.of_nat (size (handles s1)) < next_handle s1) by (apply H0; [lia|eauto]). lia. }
  apply wp_u64_add; [done|]. wp_steps. split.
  - split.
    + constructor; simpl; try done; try lia.
      * by apply Refs_open.
      * intros j g [[<- _]|[_ ?]]%lookup_insert_Some; eauto.
      * intros h' y [[<- _]|[_ Hy]]%lookup_insert_Some; [lia|]. apply H7 in Hy. lia.
      * rewrite (total_update _ _ _ _ Hf). simpl. lia.
      * rewrite map_size_insert_Some by eauto. by rewrite H9.
    + destruct Hin as [I1 I2 I3]. constructor; simpl; [done..|].
      intros j g [[<- <-]|[_ ?]]%lookup_insert_Some; simpl; eauto.
  - exists p, i. split; [done|]. split; [by eapply found_open|]. rewrite <- Hh. done.
Qed.
End files.
