(* ===== verification/MemVfsSystem.v ===== *)
(** * The in-memory VFS as a system: snapshots, restore and branch, metadata
    queries and reachable states *)

From Stdlib Require Import Sorted.
From S2P Require Import Prelude RustStr BTreeMap VfsTypes VfsPath MemVfs MemVfsTree MemVfsInv MemVfsView.
From S2P Require Import MemVfsOps MemVfsFiles.

(** ** Reference for [collect_snapshot_entries] *)

Definition snap_file (f : FileNode) : FileNode := mkFileNode (data f) 1 0.

Definition snap_add (fs : gmap Z FileNode) (acc : gmap Z FileNode) (i : Z) : gmap Z FileNode :=
  match fs !! i with Some f => <[i := snap_file f]> acc | None => acc end.

Definition file_len (fs : gmap Z FileNode) (i : Z) : Z :=
  match fs !! i with Some f => len (data f) | None => 0 end.

Fixpoint sum_len (fs : gmap Z FileNode) (ino : list Z) : Z :=
  match ino with [] => 0 | i :: ino => file_len fs i + sum_len fs ino end.

Lemma file_len_nonneg fs i : 0 <= file_len fs i.
Proof. unfold file_len. case_match; auto with rust. lia. Qed.

Lemma sum_len_nonneg fs ino : 0 <= sum_len fs ino.
Proof. induction ino as [|i ino IH]; simpl; [done|]. pose proof (file_len_nonneg fs i). lia. Qed.

Lemma sum_len_app fs ino ino2 : sum_len fs (ino ++ ino2) = sum_len fs ino + sum_len fs ino2.
Proof. induction ino as [|i ino IH]; simpl; lia. Qed.

(** Entries counted for a node: its files and the directories strictly below it. *)
Definition node_count (n : Node) : Z := Z.of_nat (length (inodes n)) + Z.of_nat (dirs n - 1).

Lemma checked_add_ok (e : Errno) a b : a + b <= U64_MAX -> ok_or e (checked_add a b) = Ok (a + b).
Proof. intros H. unfold checked_add. by rewrite (proj2 (Z.leb_le _ _) H). Qed.

Lemma u64_try_from_ok (e : Errno) n : 0 <= n <= U64_MAX -> u64_try_from e n = Ok n.
Proof.
  intros [H1 H2]. unfold u64_try_from.
  by rewrite (proj2 (Z.leb_le 0 n) H1), (proj2 (Z.leb_le n U64_MAX) H2).
Qed.

Lemma node_count_entry k n es :
  node_count (Directory ((k, n) :: es))
  = match n with Directory _ => 1 | File _ => 0 end + node_count n + node_count (Directory es).
Proof.
  unfold node_count. rewrite !inodes_dir, !dirs_dir.
  change (entries_inodes ((k, n) :: es)) with (inodes n ++ entries_inodes es).
  change (entries_dirs ((k, n) :: es)) with (dirs n + entries_dirs es)%nat.
  rewrite length_app. destruct n; [simpl; lia|]. rewrite dirs_dir. lia.
Qed.

Lemma node_count_nonneg n : 0 <= node_count n.
Proof. unfold node_count. lia. Qed.

Lemma collect_eq fs n sf u c :
  (forall i, i ∈ inodes n -> is_Some (fs !! i)) -> 0 <= u -> 0 <= c ->
  u + sum_len fs (inodes n) <= U64_MAX -> c + node_count n <= U64_MAX ->
  collect_snapshot_entries n fs (sf, u, c)
  = Ok (foldl (snap_add fs) sf (inodes n), u + sum_len fs (inodes n), c + node_count n).
Proof.
  revert sf u c. induction n as [i|es IH] using Node_nested_ind; intros sf u c Hdom Hu Hc Hsum Hcnt.
  - destruct (Hdom i) as [f Hf]; [by left|]. simpl in *. unfold snap_add, file_len in *. rewrite Hf in *.
    unfold node_count in *. simpl in *. pose proof (len_nonneg (data f)).
    rewrite u64_try_from_ok by lia. simpl. rewrite checked_add_ok by lia. simpl.
    rewrite checked_add_ok by lia. simpl. by rewrite Z.add_0_r.
  - rewrite inodes_dir in *. simpl.
    revert sf u c Hdom Hu Hc Hsum Hcnt. induction IH as [|[k n] es Hn _ IHes]; intros sf u c Hdom Hu Hc Hsum Hcnt.
    + simpl. unfold node_count. simpl. by rewrite !Z.add_0_r.
    + rewrite node_count_entry in *.
      change (entries_inodes ((k, n) :: es)) with (inodes n ++ entries_inodes es) in *.
      rewrite sum_len_app in *. pose proof (sum_len_nonneg fs (inodes n)).
      pose proof (sum_len_nonneg fs (entries_inodes es)).
      pose proof (node_count_nonneg n). pose proof (node_count_nonneg (Directory es)).
      set (b := match n with Directory _ => 1 | File _ => 0 end) in *.
      assert (0 <= b) by (unfold b; by case_match).
      rewrite checked_add_ok by lia. simpl. simpl in Hn.
      rewrite Hn; [|intros i Hi; apply Hdom; set_solver|lia..]. simpl.
      rewrite IHes; [|intros i Hi; apply Hdom; set_solver|lia..].
      rewrite foldl_app. f_equal. f_equal; [f_equal|]; lia.
Qed.

(** ** The collected files *)

Lemma snap_lookup fs ino i :
  foldl (snap_add fs) ∅ ino !! i = if decide (i ∈ ino) then snap_file <$> fs !! i else None.
Proof.
  induction ino as [|j ino IH] using rev_ind; [simpl; by rewrite lookup_empty|].
  rewrite foldl_app. simpl. unfold snap_add at 1. destruct (fs !! j) as [f|] eqn:Hj.
  - destruct (decide (i = j)) as [->|Hne].
    + rewrite lookup_insert_eq, decide_True by set_solver. by rewrite Hj.
    + rewrite lookup_insert_ne, IH by done. apply decide_ext. set_solver.
  - rewrite IH. destruct (decide (i = j)) as [->|Hne].
    + rewrite Hj. by repeat case_decide.
    + apply decide_ext. set_solver.
Qed.

Lemma snap_total_size fs ino :
  NoDup ino -> (forall i, i ∈ ino -> is_Some (fs !! i)) ->
  total (foldl (snap_add fs) ∅ ino) = sum_len fs ino /\ size (foldl (snap_add fs) ∅ ino) = length ino.
Proof.
  induction ino as [|j ino IH] using rev_ind; [done|]. intros Hnd Hdom.
  apply NoDup_app in Hnd as (Hnd & Hdis & _).
  destruct IH as [IH1 IH2]; [done|intros i Hi; apply Hdom; set_solver|].
  destruct (Hdom j) as [f Hf]; [set_solver|].
  assert (foldl (snap_add fs) ∅ ino !! j = None) as Hn.
  { rewrite snap_lookup, decide_False; [done|]. intros Hi. by apply (Hdis _ Hi); left. }
  rewrite foldl_app, sum_len_app, length_app. simpl. unfold snap_add at 1 3, file_len. rewrite Hf.
  rewrite total_insert, map_size_insert_None, IH1, IH2 by done. simpl. split; lia.
Qed.

Lemma sum_len_delete fs ino i : i ∉ ino -> sum_len (delete i fs) ino = sum_len fs ino.
Proof.
  induction ino as [|j ino IH]; simpl; [done|]. intros [Hne Hi]%not_elem_of_cons. rewrite IH by done.
  unfold file_len. by rewrite lookup_delete_ne.
Qed.

Lemma sum_len_le fs ino :
  NoDup ino -> (forall i, i ∈ ino -> is_Some (fs !! i)) -> sum_len fs ino <= total fs.
Proof.
  revert fs. induction ino as [|i ino IH]; intros fs; simpl; [intros; apply total_nonneg|].
  intros [Hi Hnd]%NoDup_cons Hdom. destruct (Hdom i) as [f Hf]; [by left|].
  rewrite (total_delete _ _ _ Hf). unfold file_len. rewrite Hf.
  assert (sum_len fs ino <= total (delete i fs)); [|lia]. rewrite <- (sum_len_delete fs ino i) by done.
  apply IH; [done|]. intros j Hj. rewrite lookup_delete_ne by set_solver. apply Hdom. by right.
Qed.

Lemma length_le_size (fs : gmap Z FileNode) ino :
  NoDup ino -> (forall i, i ∈ ino -> is_Some (fs !! i)) -> (length ino <= size fs)%nat.
Proof.
  intros Hnd Hdom. rewrite <- (size_dom fs), <- (size_list_to_set (C := gset Z) ino) by done.
  apply subseteq_size. intros i Hi%elem_of_list_to_set. by apply elem_of_dom, Hdom.
Qed.

(** ** Snapshots *)

(** A snapshot every VFS can be restored to: its state is well formed. *)
Definition snapshot_ok (sn : SnapshotState) : Prop := WF (state_from_snapshot sn 1).

(** What a snapshot remembers of a state: the names, and the contents of the
    named files. *)
Record snapshot_of (s : State) (sn : SnapshotState) : Prop := {
  snap_root : s_root sn = root s;
  snap_next : s_next_inode sn = next_inode s;
  snap_files i :
    s_files sn !! i = if decide (i ∈ inodes (root s)) then snap_file <$> files s !! i else None
}.

Section snap.
Context (q : VfsQuota) (Hq : quota_ok q).

Lemma WF_tree_dom s i : WF s -> i ∈ inodes (root s) -> is_Some (files s !! i).
Proof. intros H Hi. apply (refs_dom _ _ _ _ (wf_refs _ _ _ H)). apply elem_of_app. by left. Qed.

Lemma WF_tree_nodup s : WF s -> NoDup (inodes (root s)).
Proof. intros H. pose proof (refs_nodup _ _ _ _ (wf_refs _ _ _ H)) as Hn. by rewrite app_nil_r in Hn. Qed.

(** Taking a snapshot always succeeds. *)
Lemma snapshot_eq s :
  Inv q s ->
  snapshot_from_state s
  = Ok (mkSnapshot (root s) (foldl (snap_add (files s)) ∅ (inodes (root s))) (next_inode s)
          (sum_len (files s) (inodes (root s))) (node_count (root s))).
Proof.
  intros [Hwf Hin]. destruct Hin as [I1 I2 _]. destruct Hq as [[_ Q1] [_ Q2] _].
  pose proof (sum_len_le _ _ (WF_tree_nodup s Hwf) (fun i => WF_tree_dom s i Hwf)) as Hs.
  pose proof (length_le_size _ _ (WF_tree_nodup s Hwf) (fun i => WF_tree_dom s i Hwf)) as Hl.
  unfold snapshot_from_state. rewrite collect_eq; [done|by intros; apply WF_tree_dom|done|done|..].
  - rewrite <- (wf_used _ _ _ Hwf) in Hs. lia.
  - unfold node_count. pose proof (wf_count _ _ _ Hwf) as Hc. simpl in Hc.
    destruct (wf_dir _ _ _ Hwf) as [es Hes]. rewrite Hes, dirs_dir in *. lia.
Qed.

Lemma snapshot_spec s :
  Inv q s -> wp snapshot s (fun sn s' => s' = s /\ snapshot_of s sn /\ snapshot_ok sn
                              /\ Within q (state_from_snapshot sn 1))
               (fun _ _ => False).
Proof.
  intros Hinv. unfold snapshot. wp_steps. rewrite (snapshot_eq s Hinv). apply wp_ret.
  pose proof Hinv as [Hwf Hin]. pose proof (WF_tree_nodup s Hwf) as Hnd.
  pose proof (fun i => WF_tree_dom s i Hwf) as Hdom.
  pose proof (snap_total_size _ _ Hnd Hdom) as [Htot Hsz].
  split; [done|]. split; [constructor; simpl; try done; apply snap_lookup|].
  assert (forall i f, foldl (snap_add (files s)) ∅ (inodes (root s)) !! i = Some f ->
            i ∈ inodes (root s) /\ exists g, files s !! i = Some g /\ f = snap_file g) as Hl.
  { intros i f. rewrite snap_lookup. case_decide as Hi; [|done].
    intros (g & Hg & Heq)%fmap_Some. eauto. }
  split.
  - destruct Hwf as [H1 H2 H3 H4 H5 H6 H7 H8 H9]. constructor; simpl; try done.
    + rewrite app_nil_r. constructor.
      * done.
      * intros i Hi. rewrite snap_lookup, decide_True by done. by apply fmap_is_Some, Hdom.
      * intros i f (Hi & g & _ & ->)%Hl. by rewrite decide_True.
      * intros i f (Hi & g & _ & ->)%Hl. done.
      * intros i f [Hi _]%Hl. auto.
      * intros h y. by rewrite lookup_empty.
    + intros i f (_ & g & Hg & _)%Hl. eauto.
    + rewrite Hsz. unfold node_count. destruct H1 as [es ->]. rewrite dirs_dir. lia.
  - destruct Hin as [I1 I2 I3].
    pose proof (sum_len_le _ _ Hnd Hdom). pose proof (length_le_size _ _ Hnd Hdom).
    constructor; simpl.
    + rewrite (wf_used _ _ _ Hwf) in I1. lia.
    + rewrite (wf_count _ _ _ Hwf) in I2. unfold node_count. simpl in I2.
      destruct (wf_dir _ _ _ Hwf) as [es Hes]. rewrite Hes, dirs_dir in *. lia.
    + intros i f (_ & g & Hg & ->)%Hl. simpl. eauto.
Qed.

(** ** Restoring *)

Lemma snapshot_ok_next sn n : snapshot_ok sn -> 1 <= n <= U64_MAX -> WF (state_from_snapshot sn n).
Proof.
  intros [H1 H2 H3 H4 H5 H6 H7 H8 H9] Hn. constructor; simpl in *; try done.
Qed.

Lemma ensure_fits sn :
  match ensure_snapshot_fits_quota q sn with
  | Ok _ => forall n, Within q (state_from_snapshot sn n)
  | Err e => e = ENOSPC /\ forall n, ~ Within q (state_from_snapshot sn n)
  | _ => False
  end.
Proof.
  unfold ensure_snapshot_fits_quota. destruct (_ || _) eqn:Hc.
  - split; [done|]. intros n [I1 I2 _]. simpl in *. apply orb_true_iff in Hc as [?|?]; unbool; lia.
  - unbool. case_bool_decide as Hm.
    + intros n. constructor; simpl; [lia..|]. done.
    + split; [done|]. intros n [_ _ I3]. apply Hm. intros i f Hf. by apply (I3 i).
Qed.

Definition restore_done (s : State) (sn : SnapshotState) (s' : State) : Prop :=
  s' = state_from_snapshot sn (next_handle s).

Lemma restore_spec s sn :
  Inv q s -> snapshot_ok sn ->
  wp (restore q sn) s (fun _ s' => Inv q s' /\ restore_done s sn s')
     (fun e s' => s' = s /\ e = ENOSPC /\ ~ Within q (state_from_snapshot sn 1)).
Proof.
  intros [Hwf Hin] Hok. unfold restore. wp_steps. pose proof (ensure_fits sn) as H.
  destruct (ensure_snapshot_fits_quota q sn) as [[]|e| |]; try done.
  - apply (wp_ret tt). wp_steps. split; [|done]. split; [|by apply H].
    apply snapshot_ok_next; [done|]. apply Hwf.
  - destruct H as [-> H]. by split.
Qed.

Lemma branch_spec sn :
  snapshot_ok sn ->
  match branch q sn with
  | Ok s => Inv q s /\ s = state_from_snapshot sn 1
  | Err e => e = ENOSPC /\ ~ Within q (state_from_snapshot sn 1)
  | _ => False
  end.
Proof.
  intros Hok. unfold branch. pose proof (ensure_fits sn) as H.
  destruct (ensure_snapshot_fits_quota q sn) as [[]|e| |]; simpl; try done.
  destruct H as [-> H]. by split.
Qed.
End snap.

(** ** The in-memory VFS as a system: metadata queries and reachable states *)

(** ** Metadata *)

(** The metadata of an object, read off the abstract state. *)
Definition meta_of (s : State) (o : obj) : option Metadata :=
  match o with
  | OFile i => (fun d => mkMetadata RegularFile (len d)) <$> contents s i
  | ODir => Some (mkMetadata DirectoryType 0)
  end.

Inductive stat_fails (s : State) (path : str) : Errno -> Prop :=
| stat_bad_path : normalize_path path = Err EINVAL -> stat_fails s path EINVAL
| stat_missing p e : normalize_path path = Ok p -> lookup_fails (root s) p e -> stat_fails s path e.

Section queries.
Context (q : VfsQuota) (Hq : quota_ok q).

Lemma metadata_eq s n :
  Inv q s -> (forall i, n = File i -> i ∈ inodes (root s)) ->
  exists m, metadata_for_node s n = Ok m /\ meta_of s (obj_of n) = Some m.
Proof.
  intros [Hwf Hin] Hi. destruct n as [i|es]; simpl; [|eauto].
  destruct (WF_tree_dom _ _ Hwf (Hi i eq_refl)) as [f Hf]. unfold contents. rewrite Hf. simpl.
  eexists. split; [done|]. f_equal. f_equal. pose proof (total_le_used _ _ _ _ _ Hwf Hf).
  pose proof (within_bytes _ _ Hin). pose proof (quota_bytes _ Hq). lia.
Qed.

Lemma node_file_inode s p n i :
  Inv q s -> get_node (root s) p = Ok n -> n = File i -> i ∈ inodes (root s).
Proof.
  intros [Hwf _] Hg ->. eapply view_inodes; [by apply Hwf|]. exists p. by apply view_file.
Qed.

Lemma stat_spec s path :
  Inv q s ->
  wp (stat path) s
     (fun m s' => s' = s /\ exists p o, normalize_path path = Ok p /\ view (root s) p = Some o
                                        /\ meta_of s o = Some m)
     (fun e s' => s' = s /\ stat_fails s path e).
Proof.
  intros Hinv. unfold stat. wp_steps. apply wp_normalize; [split; [done|by constructor]|].
  intros p Hp Hok. wp_steps. pose proof (get_node_returns (root s) p) as Hr.
  destruct (get_node (root s) p) as [n|e| |] eqn:Hg; try done.
  - apply (wp_ret n).
    destruct (metadata_eq s n Hinv (fun i => node_file_inode _ _ _ _ Hinv Hg)) as (m & -> & Hm).
    apply (wp_ret m). split; [done|]. exists p, (obj_of n). unfold view. by rewrite Hg.
  - split; [done|]. eapply stat_missing; [done|]. by apply get_node_fails.
Qed.

Lemma read_entries_eq s es :
  Inv q s -> (forall k i, (k, File i) ∈ es -> i ∈ inodes (root s)) ->
  exists ds, read_entries s es = Ok ds /\ Forall2 (fun e d => entry_name d = e.1
               /\ meta_of s (obj_of e.2) = Some (entry_metadata d)) es ds.
Proof.
  intros Hinv. induction es as [|[k n] es IH]; intros Hi; simpl; [by exists []|].
  destruct (metadata_eq s n Hinv) as (m & -> & Hm); [intros i ->; apply (Hi k); by left|].
  destruct IH as (ds & -> & Hall); [intros k' i ?; apply (Hi k'); by right|].
  exists (mkDirEntry k m :: ds). split; [done|]. by constructor.
Qed.

Inductive readdir_fails (s : State) (path : str) : Errno -> Prop :=
| readdir_bad_path : normalize_path path = Err EINVAL -> readdir_fails s path EINVAL
| readdir_file p i :
    normalize_path path = Ok p -> view (root s) p = Some (OFile i) -> readdir_fails s path ENOTDIR
| readdir_missing p e : normalize_path path = Ok p -> lookup_fails (root s) p e -> readdir_fails s path e.

(** A listing: every child once, in order, with its metadata. *)
Definition listing (s : State) (p : list str) (ds : list DirEntry) : Prop :=
  StronglySorted str_lt (entry_name <$> ds)
  /\ forall c m, mkDirEntry c m ∈ ds <-> exists o, view (root s) (p ++ [c]) = Some o /\ meta_of s o = Some m.

Lemma listing_entries s p es ds :
  get_node (root s) p = Ok (Directory es) -> bt_wf es ->
  Forall2 (fun e d => entry_name d = e.1 /\ meta_of s (obj_of e.2) = Some (entry_metadata d)) es ds ->
  listing s p ds.
Proof.
  intros Hg Hwf Hall. split.
  - assert (entry_name <$> ds = bt_keys es) as ->; [|done]. unfold bt_keys. clear -Hall.
    induction Hall as [|e d es ds [Hn _] _ IH]; [done|]. rewrite !fmap_cons. by rewrite Hn, IH.
  - intros c m. rewrite (view_app _ _ _ _ Hg). unfold view. simpl.
    transitivity (exists n, (c, n) ∈ es /\ meta_of s (obj_of n) = Some m).
    + clear -Hall. split.
      * intros (i & Hd)%list_elem_of_lookup. destruct (Forall2_lookup_r _ _ _ _ _ Hall Hd) as ([k n] & He & Hk & Hm).
        simpl in *. subst. exists n. split; [by eapply list_elem_of_lookup_2|done].
      * intros (n & (i & He)%list_elem_of_lookup & Hm).
        destruct (Forall2_lookup_l _ _ _ _ _ Hall He) as ([k m'] & Hd & Hk & Hm'). simpl in *. subst.
        rewrite Hm in Hm'. injection Hm' as ->. by eapply list_elem_of_lookup_2.
    + split.
      * intros (n & Hin & Hm). apply bt_get_elem in Hin; [|done]. exists (obj_of n). by rewrite Hin.
      * intros (o & Ho & Hm). destruct (bt_get c es) as [n|] eqn:Hn; [|done]. simplify_eq.
        exists n. split; [by apply bt_get_elem|done].
Qed.

Lemma readdir_spec s path :
  Inv q s ->
  wp (readdir path) s
     (fun ds s' => s' = s /\ exists p, normalize_path path = Ok p /\ view (root s) p = Some ODir
                                       /\ listing s p ds)
     (fun e s' => s' = s /\ readdir_fails s path e).
Proof.
  intros Hinv. pose proof Hinv as [Hwf _]. unfold readdir. wp_steps.
  apply wp_normalize; [split; [done|by constructor]|].
  intros p Hp Hok. wp_steps. pose proof (get_node_returns (root s) p) as Hr.
  destruct (get_node (root s) p) as [[i|es]|e| |] eqn:Hg; try done.
  - split; [done|]. eapply readdir_file; [done|]. by apply view_file.
  - apply (wp_ret (Directory es)).
    destruct (get_node_ok _ _ _ _ (wf_tree _ _ _ Hwf) Hg) as [[Hes _]%node_ok_dir _].
    destruct (read_entries_eq s es Hinv) as (ds & -> & Hall).
    { intros k i Hk%(bt_get_elem k (File i) es Hes).
      apply (node_file_inode s (p ++ [k]) (File i)); [done| |done]. by eapply child_get. }
    apply (wp_ret ds). split; [done|]. exists p. split; [done|]. split; [apply view_dir; eauto|].
    by eapply listing_entries.
  - split; [done|]. eapply readdir_missing; [done|]. by apply get_node_fails.
Qed.
End queries.

(** ** Requests and reachable states *)

(** One call on the VFS; [Restore k] restores the [k]-th snapshot taken so far. *)
Inductive request :=
| Stat (path : str)
| Readdir (path : str)
| Mkdir (path : str)
| Rename (from to : str)
| Unlink (path : str)
| Rmdir (path : str)
| Open (path : str) (mode : OpenMode)
| ReadAt (h offset : Z) (buf : bytes)
| WriteAt (h offset : Z) (new : bytes)
| Truncate (h n : Z)
| Close (h : Z)
| Snapshot
| Restore (k : nat).

(** The state of the VFS and the snapshots its clients hold. *)
Record System := mkSystem { sys_state : State; sys_snapshots : list SnapshotState }.

Definition on_state {A} (m : M A) : ST System Errno unit :=
  fun y => let '(o, s') := m (sys_state y) in
           (let? _ := o in Ok tt, mkSystem s' (sys_snapshots y)).

Definition serve (q : VfsQuota) (r : request) : ST System Errno unit :=
  match r with
  | Stat p => on_state (stat p)
  | Readdir p => on_state (readdir p)
  | Mkdir p => on_state (mkdir q p)
  | Rename a b => on_state (rename a b)
  | Unlink p => on_state (unlink p)
  | Rmdir p => on_state (rmdir p)
  | Open p m => on_state (open q p m)
  | ReadAt h o b => on_state (read_at h o b)
  | WriteAt h o b => on_state (write_at q h o b)
  | Truncate h n => on_state (truncate q h n)
  | Close h => on_state (close h)
  | Snapshot =>
      fun y => match snapshot (sys_state y) with
               | (Ok sn, s') => (Ok tt, mkSystem s' (sys_snapshots y ++ [sn]))
               | (o, s') => (let? _ := o in Ok tt, mkSystem s' (sys_snapshots y))
               end
  | Restore k =>
      fun y => match sys_snapshots y !! k with
               | Some sn => on_state (restore q sn) y
               | None => (Ok tt, y)
               end
  end.

(** The inode and handle counters are 64 bits wide and never reused. *)
Definition counters_left (s : State) : Prop := next_inode s < U64_MAX /\ next_handle s < U64_MAX.

Inductive reachable (q : VfsQuota) : System -> Prop :=
| reachable_init : reachable q (mkSystem initial_state [])
| reachable_step y r o y' :
    reachable q y -> counters_left (sys_state y) -> serve q r y = (o, y') -> reachable q y'.

Definition SysInv (q : VfsQuota) (y : System) : Prop :=
  Inv q (sys_state y) /\ Forall snapshot_ok (sys_snapshots y).

(** A request to make a file longer than a vector can be, which the quotas admit. *)
Definition overlong_request (q : VfsQuota) (r : request) (s : State) : Prop :=
  match r with
  | WriteAt h offset new => write_overlong q s h offset new
  | Truncate h n => truncate_overlong q s h n
  | _ => False
  end.

Section system.
Context (q : VfsQuota) (Hq : quota_ok q).

Lemma on_state_inv {A} (m : M A) y (Q : A -> State -> Prop) (R : Errno -> Prop) :
  SysInv q y ->
  wp m (sys_state y) (fun a s' => Inv q s' /\ Q a s') (fun e s' => s' = sys_state y /\ R e) ->
  wp (on_state m) y (fun _ y' => SysInv q y') (fun _ y' => y' = y).
Proof.
  intros [Hi Hs] H. unfold wp, on_state in *. destruct y as [s sns]; simpl in *.
  destruct (m s) as [[a|e| |] s']; simpl; try done.
  - destruct H as [? _]. by split.
  - by destruct H as [-> _].
Qed.

Lemma on_state_query {A} (m : M A) y (Q : A -> Prop) (R : Errno -> Prop) :
  SysInv q y ->
  wp m (sys_state y) (fun a s' => s' = sys_state y /\ Q a) (fun e s' => s' = sys_state y /\ R e) ->
  wp (on_state m) y (fun _ y' => SysInv q y') (fun _ y' => y' = y).
Proof.
  intros Hy H. apply (on_state_inv m y (fun a _ => Q a) R); [done|]. eapply wp_mono; [exact H| |done].
  intros a s' [-> Ha]. split; [by apply Hy|done].
Qed.

Lemma on_state_ends {A} (m : M A) y (O : Prop) (Q : A -> State -> Prop) (R : Errno -> Prop) :
  SysInv q y ->
  ends (fun s' => s' = sys_state y /\ O) m (sys_state y) (fun a s' => Inv q s' /\ Q a s' /\ ~ O)
    (fun e s' => s' = sys_state y /\ R e /\ ~ O) ->
  ends (fun y' => y' = y /\ O) (on_state m) y (fun _ y' => SysInv q y' /\ ~ O) (fun _ y' => y' = y /\ ~ O).
Proof.
  intros [Hi Hs] H. unfold ends, on_state in *. destruct y as [s sns]; simpl in *.
  destruct (m s) as [[a|e| |] s']; simpl; try done.
  - destruct H as (? & _ & ?). by split.
  - by destruct H as (-> & _ & ?).
  - by destruct H as [-> ?].
Qed.

Lemma serve_quiet r y :
  ~ overlong_request q r (sys_state y) -> wp (serve q r) y (fun _ y' => SysInv q y') (fun _ y' => y' = y) ->
  ends (fun y' => y' = y /\ overlong_request q r (sys_state y)) (serve q r) y
    (fun _ y' => SysInv q y' /\ ~ overlong_request q r (sys_state y))
    (fun _ y' => y' = y /\ ~ overlong_request q r (sys_state y)).
Proof. intros Ho H. apply ends_wp. eapply wp_mono; [exact H|by intros..]. Qed.

(** Every request returns, keeps the invariant, and changes nothing when it fails,
    unless it asks for an overlong file: then it panics, and changes nothing. *)
Lemma serve_spec r y :
  SysInv q y -> counters_left (sys_state y) ->
  ends (fun y' => y' = y /\ overlong_request q r (sys_state y)) (serve q r) y
    (fun _ y' => SysInv q y' /\ ~ overlong_request q r (sys_state y))
    (fun _ y' => y' = y /\ ~ overlong_request q r (sys_state y)).
Proof.
  intros Hy [Hi Hh]. pose proof Hy as [Hinv Hsn]. destruct r;
    [| | | | | | | |by eapply on_state_ends, write_at_ends|by eapply on_state_ends, truncate_ends|..];
    (apply serve_quiet; [by intros []|]); cbn [serve].
  - eapply on_state_query; [done|]. by apply (stat_spec q Hq).
  - eapply on_state_query; [done|]. by apply (readdir_spec q Hq).
  - eapply on_state_inv; [done|]. by apply mkdir_spec.
  - eapply on_state_inv; [done|]. by apply rename_spec.
  - eapply on_state_inv; [done|]. by apply unlink_spec.
  - eapply on_state_inv; [done|]. by apply rmdir_spec.
  - eapply on_state_inv; [done|]. by apply open_spec.
  - eapply on_state_query; [done|]. by apply (read_at_spec q).
  - eapply on_state_inv; [done|]. by apply close_spec.
  - pose proof (snapshot_spec q Hq _ Hinv) as H. unfold wp in *.
    destruct (snapshot (sys_state y)) as [[sn|e| |] s']; try done.
    destruct H as (-> & _ & Hok & _). split; [done|]. apply Forall_app. split; [done|by apply Forall_singleton].
  - unfold wp. destruct (sys_snapshots y !! k) as [sn|] eqn:Hk; [|done].
    eapply on_state_inv; [done|]. eapply Forall_lookup_1 in Hk; [|done]. by apply restore_spec.
Qed.

Lemma initial_inv : Inv q initial_state.
Proof.
  split; constructor; simpl; try done.
  - by exists [].
  - apply (node_ok_empty MAX_PATH_DEPTH).
  - constructor; simpl; try done; try (intros; by simplify_map_eq); [constructor|by intros i ?%not_elem_of_nil].
  - apply (quota_bytes _ Hq).
  - apply (quota_files _ Hq).
Qed.

Lemma reachable_inv y : reachable q y -> SysInv q y.
Proof.
  induction 1 as [|y r o y' _ IH Hc Hs]; [split; [apply initial_inv|done]|].
  pose proof (serve_spec r y IH Hc) as H. unfold ends in H. rewrite Hs in H.
  destruct o; try done; destruct H as [H _]; by subst.
Qed.
End system.
