(* ===== verification/MountVfs.v ===== *)
(** * Mount routing (src/src/vfs/mount.rs)

    [MountedVfs] is itself a [Vfs]: its world is the world of its backends and
    its own handle table.  The mount table is fixed at construction. *)

From Stdlib Require Import Ascii String.
From S2P Require Import Prelude RustStr BTreeMap VfsTypes VfsPath VfsIface.

(** ** Data *)

Definition FIRST_HANDLE : Z := 1.

Definition directory_metadata : Metadata := mkMetadata DirectoryType 0.

Definition validate_mount_name (name : str) : outcome Errno unit :=
  if bool_decide (name = [])
     || (bool_decide (name = lit ".") || bool_decide (name = lit "..") || bool_decide (name = lit "bin"))
     || contains name (ch "/")
     || contains name (ch NUL)
  then Err EINVAL else Ok tt.

Section mounted.
Context {W : Type}.

Record MountedHandle := mkMountedHandle { mh_vfs : Vfs W; mh_inner : FileHandle }.

Record MountedPath := mkMountedPath {
  mp_mount : str;
  mp_vfs : Vfs W;
  mp_inner : str;
  mp_at_mount : bool
}.

(** The fields set by [new] and never changed. *)
Record MountTable := mkMountTable { mounts : list (str * Vfs W); fast : bool }.

(** The handle table and its counter, next to the backends' world. *)
Record MState := mkMState {
  inner_world : W;
  m_handles : gmap Z MountedHandle;
  m_next_handle : Z
}.

Fixpoint validate_names (names : list str) : outcome Errno unit :=
  match names with
  | [] => Ok tt
  | name :: names => let? _ := validate_mount_name name in validate_names names
  end.

(** [MountedVfs::new]: the table, and the handle state it starts with. *)
Definition new (ms : list (str * Vfs W)) : outcome Errno (MountTable * (W -> MState)) :=
  let? _ := validate_names (bt_keys ms) in
  let fast := forallb v_is_fast (bt_values ms) in
  Ok (mkMountTable ms fast, fun w => mkMState w ∅ FIRST_HANDLE).

Section ops.
Context (t : MountTable).

Definition mount_names : list str := bt_keys (mounts t).

Definition mounted_path (path : str) : outcome Errno (option MountedPath) :=
  let? components := normalize_path path in
  match components with
  | [] => Ok None
  | name :: rest =>
      match bt_get name (mounts t) with
      | None => Err ENOENT
      | Some vfs =>
          let at_mount := bool_decide (length components = 1%nat) in
          let inner := if at_mount then lit "/" else lit "/" ++ join (lit "/") rest in
          Ok (Some (mkMountedPath name vfs inner at_mount))
      end
  end.

(** A method of a backend, run on the shared world. *)
Definition on_inner {A} (m : ST W Errno A) : ST MState Errno A :=
  fun s => let '(o, w') := m (inner_world s) in
           (o, mkMState w' (m_handles s) (m_next_handle s)).

Definition handle (h : FileHandle) : ST MState Errno (Vfs W * FileHandle) :=
  let! s := sget in
  let! mounted := slift (ok_or EBADF (m_handles s !! h)) in
  sret (mh_vfs mounted, mh_inner mounted).

(** The loop takes a number from the atomic counter, which wraps, until it
    is neither zero nor in use. *)
Fixpoint insert_handle_loop (fuel : nat) (vfs : Vfs W) (inner : FileHandle)
  : ST MState Errno FileHandle :=
  match fuel with
  | O => slift OutOfFuel
  | S fuel =>
      let! s := sget in
      let raw := m_next_handle s in
      let s := mkMState (inner_world s) (m_handles s) ((raw + 1) mod 2 ^ 64) in
      let! _ := sput s in
      if raw =? 0 then insert_handle_loop fuel vfs inner
      else
        match m_handles s !! raw with
        | None =>
            let! _ := sput (mkMState (inner_world s) (<[raw := mkMountedHandle vfs inner]> (m_handles s))
                              (m_next_handle s)) in
            sret raw
        | Some _ => insert_handle_loop fuel vfs inner
        end
  end.

(** One number more than are in use, and zero. *)
Definition insert_handle (vfs : Vfs W) (inner : FileHandle) : ST MState Errno FileHandle :=
  fun s => insert_handle_loop (size (m_handles s) + 2) vfs inner s.

(** ** The methods *)

Definition m_stat (path : str) : ST MState Errno Metadata :=
  let! p := slift (mounted_path path) in
  match p with
  | Some p => on_inner (v_stat (mp_vfs p) (mp_inner p))
  | None => sret directory_metadata
  end.

Definition m_readdir (path : str) : ST MState Errno (list DirEntry) :=
  let! p := slift (mounted_path path) in
  match p with
  | Some p => on_inner (v_readdir (mp_vfs p) (mp_inner p))
  | None => sret ((fun name => mkDirEntry name directory_metadata) <$> bt_keys (mounts t))
  end.

Definition m_mkdir (path : str) : ST MState Errno unit :=
  match mounted_path path with
  | Ok (Some p) =>
      if mp_at_mount p then sfail EEXIST else on_inner (v_mkdir (mp_vfs p) (mp_inner p))
  | Ok None => sfail EACCES
  | Err e => if bool_decide (e = ENOENT) then sfail EACCES else sfail e
  | Panic => slift Panic
  | OutOfFuel => slift OutOfFuel
  end.

(** [map_err] of the second path of [rename]. *)
Definition missing_mount_is_access (o : outcome Errno (option MountedPath))
  : outcome Errno (option MountedPath) :=
  match o with
  | Err e => if bool_decide (e = ENOENT) then Err EACCES else Err e
  | o => o
  end.

Definition m_rename (from to : str) : ST MState Errno unit :=
  let! from := slift (mounted_path from) in
  let! from := slift (ok_or EBUSY from) in
  if mp_at_mount from then sfail EBUSY
  else
    let! to := slift (missing_mount_is_access (mounted_path to)) in
    let! to := slift (ok_or EBUSY to) in
    if mp_at_mount to then sfail EBUSY
    else if negb (bool_decide (mp_mount from = mp_mount to)) then sfail EXDEV
    else on_inner (v_rename (mp_vfs from) (mp_inner from) (mp_inner to)).

Definition m_unlink (path : str) : ST MState Errno unit :=
  let! p := slift (mounted_path path) in
  match p with
  | Some p => if mp_at_mount p then sfail EISDIR else on_inner (v_unlink (mp_vfs p) (mp_inner p))
  | None => sfail EISDIR
  end.

Definition m_rmdir (path : str) : ST MState Errno unit :=
  let! p := slift (mounted_path path) in
  match p with
  | Some p => if mp_at_mount p then sfail EBUSY else on_inner (v_rmdir (mp_vfs p) (mp_inner p))
  | None => sfail EBUSY
  end.

Definition m_open (path : str) (mode : OpenMode) : ST MState Errno FileHandle :=
  let! p := slift (mounted_path path) in
  let! p := slift (ok_or EISDIR p) in
  if mp_at_mount p then sfail EISDIR
  else
    let! inner_handle := on_inner (v_open (mp_vfs p) (mp_inner p) mode) in
    insert_handle (mp_vfs p) inner_handle.

Definition m_read_at (h : FileHandle) (offset : Z) (buf : bytes) : ST MState Errno (Z * bytes) :=
  let! (vfs, inner) := handle h in on_inner (v_read_at vfs inner offset buf).

Definition m_write_at (h : FileHandle) (offset : Z) (new : bytes) : ST MState Errno Z :=
  let! (vfs, inner) := handle h in on_inner (v_write_at vfs inner offset new).

Definition m_truncate_at (h : FileHandle) (n : Z) : ST MState Errno unit :=
  let! (vfs, inner) := handle h in on_inner (v_truncate vfs inner n).

(** [handles.lock().remove(&handle).ok_or(EBADF)]. *)
Definition remove_handle (h : FileHandle) : ST MState Errno MountedHandle :=
  let! s := sget in
  let! mounted := slift (ok_or EBADF (m_handles s !! h)) in
  let! _ := sput (mkMState (inner_world s) (delete h (m_handles s)) (m_next_handle s)) in
  sret mounted.

Definition m_close (h : FileHandle) : ST MState Errno unit :=
  let! mounted := remove_handle h in on_inner (v_close (mh_vfs mounted) (mh_inner mounted)).

Definition m_abort (h : FileHandle) : ST MState Errno unit :=
  let! mounted := remove_handle h in on_inner (v_abort (mh_vfs mounted) (mh_inner mounted)).

Definition m_is_fast_path (path : str) : bool :=
  match mounted_path path with
  | Ok (Some p) => v_is_fast_path (mp_vfs p) (mp_inner p)
  | _ => true
  end.

Definition m_is_fast_handle (h : FileHandle) (s : MState) : bool :=
  match m_handles s !! h with
  | Some m => v_is_fast_handle (mh_vfs m) (mh_inner m) (inner_world s)
  | None => true
  end.

(** The loop of [stats] over the backends. *)
Fixpoint stats_loop (vs : list (Vfs W)) (w : W) (total : VfsStats) (reported : bool)
  : option (outcome Errno VfsStats) :=
  match vs with
  | [] => if reported then Some (Ok total) else None
  | vfs :: vs =>
      match v_stats vfs w with
      | None => stats_loop vs w total reported
      | Some (Ok st) =>
          match checked_add (stats_used_bytes total) (stats_used_bytes st) with
          | None => Some (Err ENOSPC)
          | Some used =>
              match checked_add (stats_file_count total) (stats_file_count st) with
              | None => Some (Err ENOSPC)
              | Some count => stats_loop vs w (mkVfsStats used count) true
              end
          end
      | Some o => Some o
      end
  end.

Definition m_stats (s : MState) : option (outcome Errno VfsStats) :=
  stats_loop (bt_values (mounts t)) (inner_world s) (mkVfsStats 0 0) false.

(** [impl Vfs for MountedVfs]. *)
Definition mounted_vfs : Vfs MState :=
  mkVfs m_stat m_readdir m_mkdir m_rename m_unlink m_rmdir m_open m_read_at m_write_at m_truncate_at
    m_close m_abort m_is_fast_path m_is_fast_handle (fast t) m_stats.
End ops.
End mounted.

Arguments MState : clear implicits.
Arguments MountTable : clear implicits.
Arguments MountedHandle : clear implicits.
Arguments MountedPath : clear implicits.
