(* ===== verification/MountFacts.v ===== *)
(** * Routing, handles and laws of [MountedVfs] *)

From S2P Require Import Prelude RustStr BTreeMap VfsTypes VfsPath VfsIface MountVfs.

Section facts.
Context {W : Type} (t : MountTable W).

(** ** Routing *)

(** A path under a mount reaches its backend as the path of the remaining
    components. *)
Lemma mounted_path_spec path :
  match mounted_path t path with
  | Ok None => normalize_path path = Ok []
  | Ok (Some mp) =>
      exists rest, normalize_path path = Ok (mp_mount mp :: rest)
        /\ bt_get (mp_mount mp) (mounts t) = Some (mp_vfs mp)
        /\ normalize_path (mp_inner mp) = Ok rest
        /\ mp_at_mount mp = bool_decide (rest = [])
  | Err e =>
      (e = EINVAL /\ normalize_path path = Err EINVAL)
      \/ (e = ENOENT /\ exists name rest, normalize_path path = Ok (name :: rest)
                                         /\ bt_get name (mounts t) = None)
  | _ => False
  end.
Proof.
  unfold mounted_path. pose proof (normalize_path_post path) as H.
  destruct (normalize_path path) as [[|name rest]|e| |] eqn:Hp; simpl; try done; [|by left; subst].
  destruct (bt_get name (mounts t)) as [vfs|] eqn:Hn; simpl; [|right; eauto].
  exists rest. split; [done|]. split; [done|].
  assert (path_ok rest) as Hrest.
  { destruct H as [[_ Hr]%Forall_cons Hl]. simpl in Hl. split; [done|lia]. }
  split; [|destruct rest; simpl; by repeat case_bool_decide].
  rewrite <- (normalize_path_of rest Hrest). f_equal. unfold path_of. by destruct rest.
Qed.

Lemma mounted_path_returns path : returns (mounted_path t path).
Proof. pose proof (mounted_path_spec path). by destruct (mounted_path t path). Qed.

(** ** Fresh handles *)

Definition in_use (s : MState W) (x : Z) : Prop := x = 0 \/ is_Some (m_handles s !! x).

Lemma insert_handle_loop_spec fuel v i s :
  0 <= m_next_handle s < 2 ^ 64 ->
  (exists h s', insert_handle_loop fuel v i s = (Ok h, s') /\ 0 < h < 2 ^ 64
     /\ m_handles s !! h = None /\ m_handles s' = <[h := mkMountedHandle v i]> (m_handles s)
     /\ inner_world s' = inner_world s /\ 0 <= m_next_handle s' < 2 ^ 64)
  \/ (forall k, (k < fuel)%nat -> in_use s ((m_next_handle s + Z.of_nat k) mod 2 ^ 64)).
Proof.
  revert s. induction fuel as [|fuel IH]; intros s Hs; [right; lia|].
  set (r := m_next_handle s) in *. set (s1 := mkMState (inner_world s) (m_handles s) ((r + 1) mod 2 ^ 64)).
  pose proof (Z.mod_pos_bound (r + 1) (2 ^ 64) ltac:(lia)) as Hb.
  assert (in_use s r ->
    (exists h s', insert_handle_loop fuel v i s1 = (Ok h, s') /\ 0 < h < 2 ^ 64
     /\ m_handles s !! h = None /\ m_handles s' = <[h := mkMountedHandle v i]> (m_handles s)
     /\ inner_world s' = inner_world s /\ 0 <= m_next_handle s' < 2 ^ 64)
    \/ (forall k, (k < S fuel)%nat -> in_use s ((r + Z.of_nat k) mod 2 ^ 64))) as Hnext.
  { intros Hr. destruct (IH s1 Hb) as [H|H]; [by left|right]. intros [|k] Hk.
    - by rewrite Z.add_0_r, Z.mod_small.
    - specialize (H k ltac:(lia)). simpl in H. rewrite Zplus_mod_idemp_l in H.
      by replace (r + Z.of_nat (S k)) with (r + 1 + Z.of_nat k) by lia. }
  cbn [insert_handle_loop]. unfold sbind, sget, sput, sret. fold r. cbv zeta. fold s1.
  destruct (r =? 0) eqn:Hz; unbool; [apply Hnext; by left|]. simpl.
  destruct (m_handles s !! r) as [y|] eqn:Hy; [apply Hnext; right; eauto|].
  left. eexists r, _. split; [done|]. simpl. split; [lia|]. done.
Qed.

Lemma length_in_use s (l : list Z) :
  NoDup l -> Forall (in_use s) l -> (length l <= size (m_handles s) + 1)%nat.
Proof.
  intros Hnd Hall. rewrite <- (size_list_to_set (C := gset Z) l), <- (size_dom (m_handles s)) by done.
  transitivity (size ({[0%Z]} ∪ dom (m_handles s) : gset Z)).
  - apply subseteq_size. intros x Hx%elem_of_list_to_set. rewrite Forall_forall in Hall.
    apply Hall in Hx as [->|Hx]; [set_solver|]. apply elem_of_union_r. by apply elem_of_dom.
  - rewrite size_union_alt, size_singleton.
    assert (size (dom (m_handles s) ∖ {[0%Z]}) <= size (dom (m_handles s)))%nat; [|lia].
    apply subseteq_size. set_solver.
Qed.

(** The loop ends: fewer numbers are taken than it may try. *)
Lemma insert_handle_spec v i s (Q : Z -> MState W -> Prop) (R : Errno -> MState W -> Prop) :
  0 <= m_next_handle s < 2 ^ 64 -> Z.of_nat (size (m_handles s)) + 2 <= 2 ^ 64 ->
  (forall h s', 0 < h < 2 ^ 64 -> m_handles s !! h = None ->
     m_handles s' = <[h := mkMountedHandle v i]> (m_handles s) ->
     inner_world s' = inner_world s -> 0 <= m_next_handle s' < 2 ^ 64 -> Q h s') ->
  wp (insert_handle v i) s Q R.
Proof.
  intros Hs Hsize HQ. unfold wp, insert_handle.
  destruct (insert_handle_loop_spec (size (m_handles s) + 2) v i s Hs)
    as [(h & s' & -> & Hh & Hn & Hi & Hw & Hx)|Hall]; [by apply HQ|].
  exfalso. set (l := (fun k => (m_next_handle s + Z.of_nat k) mod 2 ^ 64) <$> seq 0 (size (m_handles s) + 2)).
  assert (length l <= size (m_handles s) + 1)%nat as Hl.
  - apply length_in_use.
    + apply NoDup_fmap_2_strong; [|apply NoDup_seq].
      intros x y Hx%elem_of_seq Hy%elem_of_seq Heq.
      assert ((Z.of_nat x - Z.of_nat y) mod 2 ^ 64 = 0) as H0.
      { replace (Z.of_nat x - Z.of_nat y) with ((m_next_handle s + Z.of_nat x) - (m_next_handle s + Z.of_nat y)) by lia.
        by rewrite Zminus_mod, Heq, Z.sub_diag. }
      apply Z.mod_divide in H0 as [c Hc]; [|lia].
      assert (c = 0) by nia. subst. lia.
    + unfold l. apply Forall_fmap, Forall_forall. intros k Hk%elem_of_seq. simpl. apply Hall. lia.
  - unfold l in Hl. rewrite length_fmap, length_seq in Hl. lia.
Qed.
End facts.

(** ** Laws: lawful backends make a lawful mount *)

Section laws.
Context {W : Type} (I Room : W -> Prop) (t : MountTable W).
Context (Hlaws : forall name v, bt_get name (mounts t) = Some v -> VfsLaws I Room v).

Record MInv (s : MState W) : Prop := {
  minv_world : I (inner_world s);
  minv_next : 0 <= m_next_handle s < 2 ^ 64;
  minv_handles h x :
    m_handles s !! h = Some x -> 0 < h < 2 ^ 64 /\ exists name, bt_get name (mounts t) = Some (mh_vfs x)
}.

Definition MRoom (s : MState W) : Prop :=
  Room (inner_world s) /\ Z.of_nat (size (m_handles s)) + 2 <= 2 ^ 64.

(** The handles a mount has given out. *)
Definition mount_owned (s : MState W) : gset Z := dom (m_handles s).

Abbreviation Mkeeps := (keeps_fds MInv mount_owned).

(** A method of a backend leaves the handle table alone. *)
Lemma on_inner_wp {A} (m : ST W Errno A) s (P : A -> Prop) :
  MInv s -> wp m (inner_world s) (fun a w' => I w' /\ P a) (fun _ w' => I w') ->
  wp (on_inner m) s (fun a s' => (MInv s' /\ m_handles s' = m_handles s) /\ P a)
     (fun _ s' => MInv s' /\ m_handles s' = m_handles s).
Proof.
  intros [H1 H2 H3] Hm. unfold wp, on_inner in *.
  destruct (m (inner_world s)) as [[a|e| |] w']; try done.
  - destruct Hm. split; [split; [by constructor|done]|done].
Qed.

Lemma on_inner_inv {A} (m : ST W Errno A) s :
  MInv s -> keeps_inv I m (inner_world s) -> Mkeeps (on_inner m) s.
Proof.
  intros Hs Hm. eapply wp_mono; [apply (on_inner_wp m s (fun _ => True) Hs)| |].
  - eapply wp_mono; [exact Hm|by split|done].
  - intros a s' [[? Hh] _]. split; [done|]. unfold mount_owned. by rewrite Hh.
  - intros e s' [? Hh]. split; [done|]. unfold mount_owned. by rewrite Hh.
Qed.

Lemma wp_mounted_path path s (Q : option (MountedPath W) -> MState W -> Prop) (R : Errno -> MState W -> Prop) :
  (forall e, R e s) -> Q None s -> (forall mp, bt_get (mp_mount mp) (mounts t) = Some (mp_vfs mp) -> Q (Some mp) s) ->
  wp (slift (mounted_path t path)) s Q R.
Proof.
  intros HR HN HS. pose proof (mounted_path_spec t path) as H. apply wp_lift; [apply mounted_path_returns| |auto].
  intros [mp|] Hp; [|done]. rewrite Hp in H. destruct H as (rest & _ & Hg & _). by apply HS.
Qed.

Lemma handle_inv {A} h s (k : Vfs W * Z -> ST (MState W) Errno A) (Q : A -> MState W -> Prop)
    (R : Errno -> MState W -> Prop) :
  MInv s -> R EBADF s -> (forall name v i, bt_get name (mounts t) = Some v -> wp (k (v, i)) s Q R) ->
  wp (sbind (handle h) k) s Q R.
Proof.
  intros Hs HR Hk. unfold handle. wp_steps. apply wp_ok_or; [|done]. intros x Hx. wp_steps.
  destruct (minv_handles _ Hs _ _ Hx) as [_ [name Hn]]. by eapply Hk.
Qed.

(** [close] and [abort] consume the handle. *)
Lemma remove_handle_inv h s (k : MountedHandle W -> ST W Errno unit) :
  MInv s ->
  (forall x w, I w -> VfsLaws I Room (mh_vfs x) -> keeps_inv I (k x) w) ->
  wp (let! x := remove_handle h in on_inner (k x)) s
     (fun _ s' => MInv s' /\ mount_owned s' = mount_owned s ∖ {[h]})
     (fun _ s' => MInv s' /\ mount_owned s' = mount_owned s ∖ {[h]}).
Proof.
  intros Hs Hk. unfold remove_handle, mount_owned. wp_steps. apply wp_ok_or.
  2: { intros Hn. split; [done|]. apply not_elem_of_dom in Hn. set_solver. }
  intros x Hx. wp_steps. destruct (minv_handles _ Hs _ _ Hx) as [_ [name Hv%Hlaws]].
  set (s1 := mkMState _ _ _).
  assert (MInv s1) as Hs1.
  { destruct Hs as [H1 H2 H3]. constructor; simpl; [done..|]. intros h' y [_ Hy]%lookup_delete_Some. eauto. }
  eapply wp_mono; [apply (on_inner_inv (k x) s1 Hs1); apply Hk; [by apply Hs1|done]|..];
    intros ? s' [? Ho]; (split; [done|]); unfold mount_owned in Ho; rewrite Ho; simpl; apply dom_delete_L.
Qed.

Lemma m_open_spec p m s :
  MInv s -> MRoom s ->
  wp (m_open t p m) s
     (fun h s' => MInv s' /\ (h ∉ mount_owned s) /\ mount_owned s' = ({[h]} ∪ mount_owned s))
     (fun _ s' => MInv s' /\ mount_owned s' = mount_owned s).
Proof.
  intros Hs [Hroom Hsize]. unfold m_open, mount_owned. wp_step.
  apply wp_mounted_path; [done|wp_steps; done|]. intros mp Hmp. wp_step. apply (wp_ret mp).
  wp_step; [done|]. wp_step.
  eapply wp_mono; [apply (on_inner_wp (v_open (mp_vfs mp) (mp_inner mp) m) s (fun _ => True) Hs)| |].
  - eapply wp_mono; [by apply (Hlaws _ _ Hmp); [apply Hs|]|by split|done].
  - intros i s1 [[Hs1 Hh1] _]. apply insert_handle_spec; [apply Hs1|by rewrite Hh1|].
    intros h s' Hh Hn Hi Hw Hx. rewrite Hh1 in Hn, Hi. split; [|split].
    + constructor; [rewrite Hw; apply Hs1|done|]. rewrite Hi.
      intros h' y [[<- <-]|[_ Hy]]%lookup_insert_Some; [eauto|]. by apply (minv_handles _ Hs).
    + by apply not_elem_of_dom.
    + rewrite Hi. apply dom_insert_L.
  - intros e s' [? Hh]. by rewrite Hh.
Qed.

(** A mount is as lawful as its backends, so mounts nest. *)
#[global] Instance mounted_laws : FdLaws MInv MRoom mount_owned (mounted_vfs t).
Proof.
  constructor; cbn [mounted_vfs v_stat v_readdir v_mkdir v_rename v_unlink v_rmdir v_open v_read_at v_write_at
    v_truncate v_close v_abort].
  - intros p s Hs. unfold keeps_fds, m_stat. wp_step. apply wp_mounted_path; [done|done|].
    intros mp Hmp. apply on_inner_inv; [done|]. by apply (Hlaws _ _ Hmp), Hs.
  - intros p s Hs. unfold keeps_fds, m_readdir. wp_step. apply wp_mounted_path; [done|done|].
    intros mp Hmp. apply on_inner_inv; [done|]. by apply (Hlaws _ _ Hmp), Hs.
  - intros p s Hs. unfold keeps_fds, m_mkdir. pose proof (mounted_path_spec t p) as Hp.
    destruct (mounted_path t p) as [[mp|]|e| |]; try done; [|by case_bool_decide].
    wp_step; [done|]. destruct Hp as (rest & _ & Hg & _). apply on_inner_inv; [done|].
    by apply (Hlaws _ _ Hg), Hs.
  - intros a b s Hs. unfold keeps_fds, m_rename. wp_step. apply wp_mounted_path; [done|wp_steps; done|].
    intros mp Hmp. wp_step. apply (wp_ret mp). wp_step; [done|]. wp_step.
    apply wp_lift; [pose proof (mounted_path_returns t b) as Hr; destruct (mounted_path t b); simpl; try done;
                    by case_bool_decide| |done].
    intros o _. wp_step. apply wp_ok_or; [|done]. intros mq _. wp_step; [done|]. wp_step; [done|].
    apply on_inner_inv; [done|]. by apply (Hlaws _ _ Hmp), Hs.
  - intros p s Hs. unfold keeps_fds, m_unlink. wp_step. apply wp_mounted_path; [done|wp_steps; done|].
    intros mp Hmp. wp_step; [done|]. apply on_inner_inv; [done|]. by apply (Hlaws _ _ Hmp), Hs.
  - intros p s Hs. unfold keeps_fds, m_rmdir. wp_step. apply wp_mounted_path; [done|wp_steps; done|].
    intros mp Hmp. wp_step; [done|]. apply on_inner_inv; [done|]. by apply (Hlaws _ _ Hmp), Hs.
  - intros p m s. apply m_open_spec.
  - intros h o b s Hs. apply handle_inv; [done|done|]. intros name v i Hv%Hlaws. unfold mount_owned.
    eapply wp_mono; [apply (on_inner_wp _ s (read_reply b) Hs); by apply Hv, Hs|..];
    [intros a s' [[? Hh] ?]|intros e s' [? Hh]]; by rewrite Hh.
  - intros h o b s Hs. apply handle_inv; [done|done|]. intros name v i Hv%Hlaws. unfold mount_owned.
    eapply wp_mono; [apply (on_inner_wp _ s (fun n => 0 <= n) Hs); by apply Hv, Hs|..];
    [intros a s' [[? Hh] ?]|intros e s' [? Hh]]; by rewrite Hh.
  - intros h n s Hs. apply handle_inv; [done|done|]. intros name v i Hv%Hlaws. apply on_inner_inv; [done|]. by apply Hv, Hs.
  - intros h s Hs. apply (remove_handle_inv h s (fun x => v_close (mh_vfs x) (mh_inner x)) Hs).
    intros x w Hw Hv. by apply Hv.
  - intros h s Hs. apply (remove_handle_inv h s (fun x => v_abort (mh_vfs x) (mh_inner x)) Hs).
    intros x w Hw Hv. by apply Hv.
Qed.
End laws.

(** A mounted filesystem has room for as many opens as its backends, as long as
    its own handle numbers last. *)
Section rooms.
Context {W : Type} (I Room : W -> Prop) (Rooms : nat -> W -> Prop) (t : MountTable W).
Context (Hlaws : forall name v, bt_get name (mounts t) = Some v -> VfsLaws I Room v).
Context (Hrooms : forall name v, bt_get name (mounts t) = Some v -> RoomLaws I Room Rooms v).
Context (Hroom : forall n w, Rooms (S n) w -> Room w) (Hless : forall n w, Rooms (S n) w -> Rooms n w).

Definition MRooms (n : nat) (s : MState W) : Prop :=
  Rooms n (inner_world s) /\ Z.of_nat (size (m_handles s)) + 1 + Z.of_nat n <= 2 ^ 64.

Lemma on_inner_rooms {A} (m : ST W Errno A) n s :
  Z.of_nat (size (m_handles s)) + 1 + Z.of_nat n <= 2 ^ 64 ->
  wp m (inner_world s) (fun _ w' => Rooms n w') (fun _ w' => Rooms n w') ->
  wp (on_inner m) s (fun _ s' => MRooms n s' /\ m_handles s' = m_handles s)
     (fun _ s' => MRooms n s' /\ m_handles s' = m_handles s).
Proof. intros Hs Hm. unfold wp, on_inner in *. by destruct (m (inner_world s)) as [[] w']. Qed.

Lemma remove_handle_rooms h n s (k : MountedHandle W -> ST W Errno unit) :
  MInv I t s -> MRooms n s ->
  (forall name x w, bt_get name (mounts t) = Some (mh_vfs x) -> I w -> Rooms n w ->
     wp (k x) w (fun _ w' => Rooms n w') (fun _ w' => Rooms n w')) ->
  wp (let! x := remove_handle h in on_inner (k x)) s (fun _ s' => MRooms n s') (fun _ s' => MRooms n s').
Proof.
  intros Hs [Hr Hsz] Hk. unfold remove_handle. wp_steps. apply wp_ok_or; [|by split].
  intros x Hx. wp_steps. destruct (minv_handles _ _ _ Hs _ _ Hx) as [_ [name Hn]].
  eapply wp_mono; [apply on_inner_rooms|by intros ? ? []..].
  - simpl. rewrite map_size_delete, Hx. lia.
  - eapply Hk; [done|by apply Hs|done].
Qed.

#[global] Instance mounted_room_laws : RoomLaws (MInv I t) (MRoom Room) MRooms (mounted_vfs t).
Proof.
  assert (forall A h n s (m : Vfs W -> Z -> ST W Errno A), MInv I t s -> MRooms n s ->
    (forall name x i w, bt_get name (mounts t) = Some x -> I w -> Rooms n w ->
       wp (m x i) w (fun _ w' => Rooms n w') (fun _ w' => Rooms n w')) ->
    wp (let! (x, i) := handle h in on_inner (m x i)) s (fun _ s' => MRooms n s') (fun _ s' => MRooms n s')) as Hio.
  { intros A h n s m Hs [Hr Hsz] Hm. apply (handle_inv I t); [done|by split|]. intros name x i Hn.
    eapply wp_mono; [apply (on_inner_rooms (m x i) n s Hsz)|by intros ? ? []..]. by apply (Hm name); [|apply Hs|]. }
  constructor; cbn [mounted_vfs v_stat v_open v_read_at v_write_at v_close v_abort].
  - intros n s [Hr Hs]. split; [by eapply Hroom|lia].
  - intros n s [Hr Hs]. split; [by apply Hless|lia].
  - intros n p s Hs [Hr Hsz]. unfold m_stat. wp_step. apply wp_mounted_path; [done|by wp_steps|].
    intros mp Hmp. eapply wp_mono; [apply (on_inner_rooms (v_stat (mp_vfs mp) (mp_inner mp)) n s Hsz)|by intros ? ? []..].
    by apply (rooms_stat (RoomLaws := Hrooms _ _ Hmp) n); [apply Hs|].
  - intros n p m s Hs [Hr Hsz]. unfold m_open. wp_step.
    assert (MRooms n s) as Hn by (split; [by apply Hless|lia]).
    apply wp_mounted_path; [done|by wp_steps|]. intros mp Hmp. wp_step. apply (wp_ret mp). wp_step; [done|]. wp_step.
    eapply wp_mono; [eapply wp_conj; [apply (on_inner_rooms (v_open (mp_vfs mp) (mp_inner mp) m) n s)|
                                      apply (on_inner_wp I t (v_open (mp_vfs mp) (mp_inner mp) m) s (fun _ => True) Hs)]|..].
    + lia.
    + by apply (rooms_open (RoomLaws := Hrooms _ _ Hmp) n); [apply Hs|].
    + eapply wp_mono; [apply (Hlaws _ _ Hmp); [apply Hs|by eapply Hroom]|by split|done].
    + intros i s1 [[[Hr1 _] Hh1] [[Hs1 _] _]]. apply insert_handle_spec; [apply Hs1|rewrite Hh1; lia|].
      intros h s' _ Hnone Hi Hw _. split; [by rewrite Hw|]. rewrite Hi, map_size_insert_None by done. rewrite Hh1. lia.
    + by intros e s1 [[? _] _].
  - intros n h o b s Hs Hr. apply (Hio _ h n s (fun x i => v_read_at x i o b) Hs Hr).
    intros name x i w Hn Hw Hr'. by apply (rooms_read_at (RoomLaws := Hrooms _ _ Hn)).
  - intros n h o b s Hs Hr. apply (Hio _ h n s (fun x i => v_write_at x i o b) Hs Hr).
    intros name x i w Hn Hw Hr'. by apply (rooms_write_at (RoomLaws := Hrooms _ _ Hn)).
  - intros n h s Hs Hr. apply (remove_handle_rooms h n s (fun x => v_close (mh_vfs x) (mh_inner x)) Hs Hr).
    intros name x w Hn Hw Hr'. by apply (rooms_close (RoomLaws := Hrooms _ _ Hn)).
  - intros n h s Hs Hr. apply (remove_handle_rooms h n s (fun x => v_abort (mh_vfs x) (mh_inner x)) Hs Hr).
    intros name x w Hn Hw Hr'. by apply (rooms_abort (RoomLaws := Hrooms _ _ Hn)).
Qed.
End rooms.
