(* ===== verification/FileLaws.v ===== *)
(** * Files behind the [Vfs] interface

    What a client that reads and writes files relies on, over a backend that
    applies every write at once: which file a path names ([named]), which file an
    open handle is linked to and what the handle may do ([linked]), and what the
    files hold ([content]).  [FileLaws] says what each method does to the three. *)

From S2P Require Import Prelude RustStr VfsTypes VfsIface MemVfs MemVfsFiles.

(** What a handle may do. *)
Record Access := mkAccess { a_read : bool; a_write : bool; a_append : bool }.
Definition access_of (m : OpenMode) : Access := mkAccess (m_read m) (m_write m) (m_append m).

(** The contents after [new] was written through a handle, at [offset] or at the
    end; a gap is filled with zeroes. *)
Definition write_result (d : bytes) (a : Access) (offset : Z) (new : bytes) : bytes :=
  if bool_decide (new = []) then d else written d (if a_append a then len d else offset) new.

Section files.
Context {W F : Type} `{EqDecision F}.
Context (named : W -> str -> F -> Prop) (linked : W -> FileHandle -> F -> Access -> Prop)
  (content : W -> F -> option bytes).

(** A file that has a name or an open handle. *)
Definition live (w : W) (f : F) : Prop := (exists p, named w p f) \/ exists h a, linked w h f a.

Record same_files (w w' : W) : Prop := {
  same_named p f : named w' p f <-> named w p f;
  same_linked h f a : linked w' h f a <-> linked w h f a;
  same_content f : content w' f = content w f
}.

Record opened (p : str) (m : OpenMode) (h : FileHandle) (f : F) (w w' : W) : Prop := {
  op_fresh g a : ~ linked w h g a;
  op_linked h' g a :
    linked w' h' g a <-> (h' = h /\ g = f /\ a = access_of m) \/ (h' <> h /\ linked w h' g a);
  op_named : named w' p f;
  op_names q g : named w q g -> named w' q g;
  op_content :
    (named w p f /\ (forall q g, named w' q g <-> named w q g)
     /\ content w' f = if m_truncate m then Some [] else content w f)
    \/ ((forall g, ~ named w p g) /\ content w f = None /\ content w' f = Some []);
  op_others g : g <> f -> content w' g = content w g
}.

Record wrote (f : F) (d : bytes) (w w' : W) : Prop := {
  wrote_named p g : named w' p g <-> named w p g;
  wrote_linked h g a : linked w' h g a <-> linked w h g a;
  wrote_content : content w' f = Some d;
  wrote_others g : g <> f -> content w' g = content w g
}.

Record closed (h : FileHandle) (w w' : W) : Prop := {
  closed_named p f : named w' p f <-> named w p f;
  closed_linked h' f a : linked w' h' f a <-> h' <> h /\ linked w h' f a;
  closed_content f : live w' f -> content w' f = content w f
}.

Class FileLaws (J Room : W -> Prop) (v : Vfs W) : Prop := {
  fl_named w p f g : J w -> named w p f -> named w p g -> f = g;
  fl_live w f : J w -> live w f -> is_Some (content w f);
  fl_len w f d : J w -> content w f = Some d -> len d <= USIZE_MAX;
  fl_stat w p :
    J w ->
    wp (v_stat v p) w
      (fun m w' => J w' /\ same_files w w' /\ forall f, named w p f -> is_dir m = false)
      (fun _ w' => J w' /\ same_files w w');
  fl_open w p m :
    J w -> Room w ->
    wp (v_open v p m) w (fun h w' => J w' /\ exists f, opened p m h f w w') (fun _ w' => J w' /\ same_files w w');
  fl_read_at w h f a d offset buf :
    J w -> linked w h f a -> a_read a = true -> content w f = Some d -> 0 <= offset <= USIZE_MAX ->
    wp (v_read_at v h offset buf) w (fun r w' => r = read_result d offset buf /\ J w' /\ same_files w w')
       (fun _ _ => False);
  fl_write_at w h f a d offset new :
    J w -> linked w h f a -> a_write a = true -> content w f = Some d ->
    wp (v_write_at v h offset new) w
      (fun n w' => n = len new /\ J w' /\ wrote f (write_result d a offset new) w w')
      (fun _ w' => J w' /\ same_files w w');
  fl_truncate w h f a d n :
    J w -> linked w h f a -> content w f = Some d ->
    wp (v_truncate v h n) w
      (fun _ w' => a_write a = true /\ J w' /\ wrote f (resize d n) w w')
      (fun _ w' => J w' /\ same_files w w');
  fl_close w h f a : J w -> linked w h f a -> wp (v_close v h) w (fun _ w' => J w' /\ closed h w w') (fun _ _ => False);
  fl_abort w h f a : J w -> linked w h f a -> wp (v_abort v h) w (fun _ w' => J w' /\ closed h w w') (fun _ _ => False)
}.

(** ** What follows *)

#[global] Instance same_files_preorder : PreOrder same_files.
Proof.
  split; [by constructor|]. intros w1 w2 w3 [N1 L1 C1] [N2 L2 C2]. constructor; intros.
  - by rewrite N2, N1.
  - by rewrite L2, L1.
  - by rewrite C2, C1.
Qed.

Lemma same_live w w' f : same_files w w' -> live w f -> live w' f.
Proof.
  intros [HN HL _] [[p Hp]|(h & a & Hh)]; [left; exists p; by apply HN|right; exists h, a; by apply HL].
Qed.

Lemma live_mono w w' f :
  (forall q g, named w q g -> named w' q g) -> (forall h g a, linked w h g a -> linked w' h g a) -> live w f -> live w' f.
Proof. intros HN HL [[p Hp]|(h & a & Hh)]; [left; eauto|right; eauto]. Qed.

(** What an operation that may change the file at [p] leaves alone: the names and
    the handles there are, and the contents of the other files. *)
Record spares (p : str) (w w' : W) : Prop := {
  spares_names q g : named w q g -> named w' q g;
  spares_linked h g a : linked w h g a -> linked w' h g a;
  spares_other g : live w g -> ~ named w p g -> ~ named w' p g;
  spares_content g : live w g -> ~ named w p g -> content w' g = content w g
}.

#[global] Instance spares_preorder p : PreOrder (spares p).
Proof.
  split; [by constructor|]. intros w1 w2 w3 [N1 L1 O1 C1] [N2 L2 O2 C2].
  assert (forall g, live w1 g -> live w2 g) as Hl by (intros g; by apply live_mono).
  constructor; eauto. intros g Hg Hn. rewrite C2, C1; eauto.
Qed.

Lemma same_spares p w w' : same_files w w' -> spares p w w'.
Proof. intros [HN HL HC]. constructor; intros; [by apply HN|by apply HL|by rewrite HN|done]. Qed.

Lemma spares_live p w w' f : spares p w w' -> live w f -> live w' f.
Proof. intros [HN HL _ _]. by apply live_mono. Qed.

Lemma spares_wrote p f d w w1 w2 : spares p w w1 -> named w1 p f -> wrote f d w1 w2 -> spares p w w2.
Proof.
  intros Hs Hp [HN HL HC HO]. constructor.
  - intros q g Hq. apply HN. by apply (spares_names _ _ _ Hs).
  - intros h g a Hh. apply HL. by apply (spares_linked _ _ _ Hs).
  - intros g Hg Hn. rewrite HN. by apply (spares_other _ _ _ Hs).
  - intros g Hg Hn. rewrite HO; [by apply (spares_content _ _ _ Hs)|]. intros ->.
    by apply (spares_other _ _ _ Hs f).
Qed.

(** A handle that was not there before is closed. *)
Lemma spares_closed p h w w1 w2 :
  spares p w w1 -> closed h w1 w2 -> (forall f a, ~ linked w h f a) -> spares p w w2.
Proof.
  intros Hs [HN HL HC] Hh.
  assert (forall q g, named w q g -> named w2 q g) as HN2 by (intros q g Hq; apply HN; by apply (spares_names _ _ _ Hs)).
  assert (forall h' g a, linked w h' g a -> linked w2 h' g a) as HL2.
  { intros h' g a Hg. apply HL. split; [intros ->; by apply Hh in Hg|by apply (spares_linked _ _ _ Hs)]. }
  constructor; [done|done|..]; intros g Hg Hn.
  - rewrite HN. by apply (spares_other _ _ _ Hs).
  - rewrite HC; [by apply (spares_content _ _ _ Hs)|by apply (live_mono w)].
Qed.

Lemma wrote_start f d w : content w f = Some d -> wrote f d w w.
Proof. by constructor. Qed.

Lemma wrote_same f d w w1 w2 : wrote f d w w1 -> same_files w1 w2 -> wrote f d w w2.
Proof.
  intros [HN HL HC HO] [SN SL SC]. constructor; intros; [by rewrite SN|by rewrite SL|by rewrite SC|by rewrite SC, HO].
Qed.

Lemma wrote_wrote f d d' w w1 w2 : wrote f d w w1 -> wrote f d' w1 w2 -> wrote f d' w w2.
Proof.
  intros [HN HL HC HO] [SN SL SC SO]. constructor; intros; [by rewrite SN|by rewrite SL|done|by rewrite SO, HO].
Qed.

Section laws.
Context (J Room : W -> Prop) (v : Vfs W) `{Hv : !FileLaws J Room v}.

(** A file that was there is not the one opened, unless the path names it. *)
Lemma opened_other p m h f w w' g : J w -> opened p m h f w w' -> live w g -> ~ named w p g -> g <> f.
Proof.
  intros HJ Ho Hg Hn ->. destruct (op_content _ _ _ _ _ _ Ho) as [(Hp & _)|(_ & HN & _)]; [done|].
  destruct (fl_live _ _ HJ Hg) as [d Hd]. congruence.
Qed.

Lemma opened_linked p m h f w w' : opened p m h f w w' -> linked w' h f (access_of m).
Proof. intros Ho. apply (op_linked _ _ _ _ _ _ Ho). by left. Qed.

Lemma opened_kept p m h f w w' h' g a : opened p m h f w w' -> linked w h' g a -> linked w' h' g a.
Proof.
  intros Ho Hh. apply (op_linked _ _ _ _ _ _ Ho). right. split; [|done].
  intros ->. by apply (op_fresh _ _ _ _ _ _ Ho) in Hh.
Qed.

Lemma opened_spares p m h f w w' : J w -> J w' -> opened p m h f w w' -> spares p w w'.
Proof.
  intros HJ HJ' Ho. constructor.
  - apply (op_names _ _ _ _ _ _ Ho).
  - intros h' g a. by apply opened_kept with (1 := Ho).
  - intros g Hg Hn Hn'. apply (opened_other _ _ _ _ _ _ _ HJ Ho Hg Hn).
    apply (fl_named w' p g f HJ' Hn'). apply (op_named _ _ _ _ _ _ Ho).
  - intros g Hg Hn. apply (op_others _ _ _ _ _ _ Ho). exact (opened_other _ _ _ _ _ _ _ HJ Ho Hg Hn).
Qed.

(** Opening a file that is there, without truncating it, changes neither names nor contents. *)
Lemma found_unchanged p m h f g w w' :
  J w -> J w' -> m_truncate m = false -> opened p m h f w w' -> named w p g ->
  f = g /\ (forall q i, named w' q i <-> named w q i) /\ (forall i, content w' i = content w i).
Proof.
  intros HJ HJ' Ht Ho Hg. assert (f = g) as ->.
  { apply (fl_named w' p f g HJ'); [apply (op_named _ _ _ _ _ _ Ho)|by apply (op_names _ _ _ _ _ _ Ho)]. }
  destruct (op_content _ _ _ _ _ _ Ho) as [(_ & HN & Hc)|(H & _)]; [|by destruct (H g)]. rewrite Ht in Hc.
  split; [done|]. split; [done|]. intros i. destruct (decide (i = g)) as [->|Hne]; [done|].
  by apply (op_others _ _ _ _ _ _ Ho).
Qed.

Lemma found_spares p m h f g w w' p' :
  J w -> J w' -> m_truncate m = false -> opened p m h f w w' -> named w p g -> spares p' w w'.
Proof.
  intros HJ HJ' Ht Ho Hg. destruct (found_unchanged _ _ _ _ _ _ _ HJ HJ' Ht Ho Hg) as (_ & HN & HC).
  constructor; [by intros; apply HN| |by intros i _; rewrite HN|done].
  intros h' i a. by apply opened_kept with (1 := Ho).
Qed.

(** A visit that only reads a file that was there changes nothing. *)
Lemma visit_same p m h f g w w1 w2 w3 :
  J w -> J w1 -> m_truncate m = false -> opened p m h f w w1 -> named w p g -> same_files w1 w2 -> closed h w2 w3 ->
  (forall q i, named w3 q i <-> named w q i) /\ (forall h' i a, linked w3 h' i a <-> linked w h' i a)
  /\ (forall i, live w i -> content w3 i = content w i).
Proof.
  intros HJ HJ1 Ht Ho Hg Hs Hc. destruct (found_unchanged _ _ _ _ _ _ _ HJ HJ1 Ht Ho Hg) as (_ & HN & HC).
  assert (forall q i, named w3 q i <-> named w q i) as HN3.
  { intros q i. by rewrite (closed_named _ _ _ Hc), (same_named _ _ Hs). }
  assert (forall h' i a, linked w3 h' i a <-> linked w h' i a) as HL3.
  { intros h' i a. rewrite (closed_linked _ _ _ Hc), (same_linked _ _ Hs), (op_linked _ _ _ _ _ _ Ho).
    split; [naive_solver|]. intros H. assert (h' <> h) by (intros ->; by apply (op_fresh _ _ _ _ _ _ Ho) in H). naive_solver. }
  split; [done|]. split; [done|]. intros i Hi. rewrite (closed_content _ _ _ Hc), (same_content _ _ Hs); [done|].
  apply (live_mono w); [by intros; apply HN3|by intros; apply HL3|done].
Qed.
End laws.
End files.

Arguments op_fresh {W F named linked content p m h f w w'}.
Arguments op_linked {W F named linked content p m h f w w'}.
Arguments op_named {W F named linked content p m h f w w'}.
Arguments op_names {W F named linked content p m h f w w'}.
Arguments op_content {W F named linked content p m h f w w'}.
Arguments op_others {W F named linked content p m h f w w'}.
Arguments wrote_named {W F named linked content f d w w'}.
Arguments wrote_linked {W F named linked content f d w w'}.
Arguments wrote_content {W F named linked content f d w w'}.
Arguments wrote_others {W F named linked content f d w w'}.
Arguments closed_named {W F named linked content h w w'}.
Arguments closed_linked {W F named linked content h w w'}.
Arguments closed_content {W F named linked content h w w'}.
Arguments same_named {W F named linked content w w'}.
Arguments same_linked {W F named linked content w w'}.
Arguments same_content {W F named linked content w w'}.
Arguments spares_names {W F named linked content p w w'}.
Arguments spares_linked {W F named linked content p w w'}.
Arguments spares_other {W F named linked content p w w'}.
Arguments spares_content {W F named linked content p w w'}.
Arguments same_live {W F named linked content}.
Arguments same_spares {W F named linked content}.
Arguments live_mono {W F named linked}.
Arguments spares_live {W F named linked content}.
Arguments spares_wrote {W F named linked content}.
Arguments spares_closed {W F named linked content}.
Arguments wrote_start {W F named linked content}.
Arguments wrote_same {W F named linked content}.
Arguments wrote_wrote {W F named linked content}.
Arguments opened_other {W F named linked content J Room v Hv}.
Arguments opened_spares {W F named linked content J Room v Hv}.
Arguments found_unchanged {W F EqDecision0 named linked content J Room v Hv}.
Arguments found_spares {W F EqDecision0 named linked content J Room v Hv}.
Arguments visit_same {W F EqDecision0 named linked content J Room v Hv}.
Arguments opened_linked {W F named linked content}.
Arguments opened_kept {W F named linked content}.
Arguments fl_named {W F named linked content J Room v FileLaws}.
Arguments fl_live {W F named linked content J Room v FileLaws}.
Arguments fl_len {W F named linked content J Room v FileLaws}.
Arguments fl_stat {W F named linked content J Room v FileLaws}.
Arguments fl_open {W F named linked content J Room v FileLaws}.
Arguments fl_read_at {W F named linked content J Room v FileLaws}.
Arguments fl_write_at {W F named linked content J Room v FileLaws}.
Arguments fl_truncate {W F named linked content J Room v FileLaws}.
Arguments fl_close {W F named linked content J Room v FileLaws}.
Arguments fl_abort {W F named linked content J Room v FileLaws}.
