(* ===== verification/MemMount.v ===== *)
(** * In-memory backends behind the [Vfs] interface

    [impl Vfs for InMemoryVfs]: a world of numbered in-memory filesystems, each
    behind its own lock, discharges the laws that the mounts rely on, when its quotas
    refuse the lengths no vector has. *)

From S2P Require Import Prelude RustStr BTreeMap VfsTypes VfsPath VfsIface MemVfs MemVfsTree MemVfsInv.
From S2P Require Import MemVfsView MemVfsOps MemVfsFiles MemVfsSystem MountVfs MountFacts FileLaws.

Definition Backends : Type := nat -> State.

(** A method of backend [k]: it locks that state and no other. *)
Definition on_backend {A} (k : nat) (m : M A) : ST Backends Errno A :=
  fun w => let '(o, s') := m (w k) in (o, fun j => if decide (j = k) then s' else w j).

Section mem.
Context (quota : nat -> VfsQuota) (Hquota : forall k, quota_ok (quota k)) (Haddr : forall k, addressable (quota k)).

Definition mem_vfs (k : nat) : Vfs Backends :=
  mkVfs
    (fun p => on_backend k (stat p))
    (fun p => on_backend k (readdir p))
    (fun p => on_backend k (mkdir (quota k) p))
    (fun a b => on_backend k (rename a b))
    (fun p => on_backend k (unlink p))
    (fun p => on_backend k (rmdir p))
    (fun p m => on_backend k (open (quota k) p m))
    (fun h o b => on_backend k (read_at h o b))
    (fun h o b => on_backend k (write_at (quota k) h o b))
    (fun h n => on_backend k (truncate (quota k) h n))
    (fun h => on_backend k (close h))
    (fun h => on_backend k (close h))
    (fun _ => true)
    (fun _ _ => true)
    true
    (fun w => Some (Ok (stats (w k)))).

Definition BackendsInv (w : Backends) : Prop := forall k, Inv (quota k) (w k).
Definition BackendsRoom (w : Backends) : Prop := forall k, counters_left (w k).

Lemma on_backend_wp {A} k (m : M A) w (P : A -> Prop) :
  BackendsInv w -> wp m (w k) (fun a s' => Inv (quota k) s' /\ P a) (fun _ s' => Inv (quota k) s') ->
  wp (on_backend k m) w (fun a w' => BackendsInv w' /\ P a) (fun _ w' => BackendsInv w').
Proof.
  intros Hw Hm. unfold wp, on_backend in *.
  assert (forall s', Inv (quota k) s' -> BackendsInv (fun j => if decide (j = k) then s' else w j)) as Hup.
  { intros s' Hs' j. case_decide; by subst. }
  destruct (m (w k)) as [[a|e| |] s']; try done; [|by apply Hup]. destruct Hm. auto.
Qed.

(** The specifications of the operations, as laws. *)
Lemma on_backend_spec {A} k (m : M A) w (Q : A -> State -> Prop) (R : Errno -> State -> Prop) (P : A -> Prop) :
  BackendsInv w -> (forall a s', Q a s' -> P a) ->
  wp m (w k) (fun a s' => Inv (quota k) s' /\ Q a s') (fun e s' => s' = w k /\ R e s') ->
  wp (on_backend k m) w (fun a w' => BackendsInv w' /\ P a) (fun _ w' => BackendsInv w').
Proof.
  intros Hw HP H. apply on_backend_wp; [done|]. eapply wp_mono; [exact H|..].
  - intros a s' [? ?]. eauto.
  - by intros e s' [-> _].
Qed.

Lemma on_backend_query {A} k (m : M A) w (Q : A -> Prop) (R : Errno -> State -> Prop) (P : A -> Prop) :
  BackendsInv w -> (forall a, Q a -> P a) ->
  wp m (w k) (fun a s' => s' = w k /\ Q a) (fun e s' => s' = w k /\ R e s') ->
  wp (on_backend k m) w (fun a w' => BackendsInv w' /\ P a) (fun _ w' => BackendsInv w').
Proof.
  intros Hw HP H. apply on_backend_wp; [done|]. eapply wp_mono; [exact H|..].
  - intros a s' [-> ?]. eauto.
  - by intros e s' [-> _].
Qed.

Lemma drop_reply {A} (m : ST Backends Errno A) w :
  wp m w (fun _ w' => BackendsInv w' /\ True) (fun _ w' => BackendsInv w') -> keeps_inv BackendsInv m w.
Proof. intros H. eapply wp_mono; [exact H|by intros a w' []|done]. Qed.

Lemma read_result_reply d o b : read_reply b (read_result d o b).
Proof.
  unfold read_reply, read_result. simpl. split; [auto with rust|].
  rewrite length_app, length_drop, length_take. lia.
Qed.

#[global] Instance mem_laws k : VfsLaws BackendsInv BackendsRoom (mem_vfs k).
Proof.
  constructor; cbn [mem_vfs v_stat v_readdir v_mkdir v_rename v_unlink v_rmdir v_open v_read_at v_write_at
    v_truncate v_close v_abort]; intros; try apply drop_reply;
    first [ eapply on_backend_query; [done|done|]; by first
              [ apply (stat_spec (quota k)) | apply (readdir_spec (quota k)) ]
          | eapply on_backend_spec; [done|done|]; by first
              [ apply mkdir_spec | apply rename_spec | apply unlink_spec | apply rmdir_spec
              | apply close_spec ] | idtac ].
  - destruct (H0 k). eapply on_backend_spec; [done|done|]. by apply open_spec.
  - eapply on_backend_query; [done| |by apply (read_at_spec (quota k))].
    intros a (x & d & _ & _ & _ & ->). apply read_result_reply.
  - eapply on_backend_spec; [done| |apply write_at_spec; [done|done|by apply never_write_overlong]].
    intros n s' (x & f & _ & _ & _ & -> & _). auto with rust.
  - eapply on_backend_spec; [done|done|]. apply truncate_spec; [done|done|by apply never_truncate_overlong].
Qed.
(** Room for several more opens in every backend. *)
Definition counters_for (n : nat) (s : State) : Prop :=
  next_inode s + Z.of_nat n <= U64_MAX /\ next_handle s + Z.of_nat n <= U64_MAX.
Definition BackendsRooms (n : nat) (w : Backends) : Prop := forall k, counters_for n (w k).

Lemma on_backend_rooms {A} n n' k (m : M A) w :
  BackendsRooms n w -> (n' <= n)%nat ->
  wp m (w k) (fun _ s' => counters_for n' s') (fun _ s' => counters_for n' s') ->
  wp (on_backend k m) w (fun _ w' => BackendsRooms n' w') (fun _ w' => BackendsRooms n' w').
Proof.
  intros Hw Hn Hm. unfold wp, on_backend in *. destruct (m (w k)) as [[a|e| |] s']; try done;
    intros j; case_decide; subst; try done; destruct (Hw j); unfold counters_for; lia.
Qed.

#[global] Instance mem_room_laws k : RoomLaws BackendsInv BackendsRoom BackendsRooms (mem_vfs k).
Proof.
  assert (forall n h w, BackendsInv w -> BackendsRooms n w ->
    wp (on_backend k (close h)) w (fun _ w' => BackendsRooms n w') (fun _ w' => BackendsRooms n w')) as Hclose.
  { intros n h w Hw Hr. apply (on_backend_rooms n); [done|done|].
    eapply wp_mono; [by apply (close_spec (quota k))|..].
    - intros _ s' (_ & x & _ & Hd). pose proof (drops_next_inode _ _ Hd). pose proof (drops_next_handle _ _ Hd).
      destruct (Hr k). simpl in *. unfold counters_for. lia.
    - by intros e s' [-> _]. }
  constructor; cbn [mem_vfs v_stat v_open v_read_at v_write_at v_close v_abort]; auto.
  - intros n w Hr j. destruct (Hr j). unfold counters_left. lia.
  - intros n w Hr j. destruct (Hr j). unfold counters_for. lia.
  - intros n p w Hw Hr. apply (on_backend_rooms n); [done|done|].
    eapply wp_mono; [by apply (stat_spec (quota k))|..]; by intros ? s' [-> _].
  - intros n p m w Hw Hr. apply (on_backend_rooms (S n)); [done|lia|]. destruct (Hr k) as [Hi Hh].
    eapply wp_mono; [apply (open_spec (quota k)); [done|done|lia|lia]|..].
    + intros h s' (_ & q & i & _ & _ & _ & _ & _ & Hn & Hni). unfold counters_for. lia.
    + intros e s' [-> _]. unfold counters_for. lia.
  - intros n h o b w Hw Hr. apply (on_backend_rooms n); [done|done|].
    eapply wp_mono; [by apply (read_at_spec (quota k))|..]; by intros ? s' [-> _].
  - intros n h o b w Hw Hr. apply (on_backend_rooms n); [done|done|].
    eapply wp_mono; [apply (write_at_spec (quota k)); [done|done|by apply never_write_overlong]|..]; [|by intros ? s' [-> _]].
    intros m s' [_ (x & f & _ & _ & _ & _ & Hs')]. destruct (Hr k). by case_bool_decide; subst s'.
Qed.
End mem.

(** ** In-memory backends under a mount table as files

    The mounted in-memory filesystem is a [FileLaws] filesystem: a path names the
    file its mount's backend has under the remaining components, an open handle is
    linked to a file of one backend through the handle of that backend, and no two
    handles share one. *)

(** ** One backend *)

Definition state_named (s : State) (path : str) (i : Z) : Prop :=
  exists cs, normalize_path path = Ok cs /\ view (root s) cs = Some (OFile i).

Definition handle_access (x : Handle) : Access := mkAccess (h_readable x) (h_writable x) (h_append x).

Definition state_linked (s : State) (h : Z) (i : Z) (a : Access) : Prop :=
  exists x, handles s !! h = Some x /\ h_inode x = i /\ handle_access x = a.

Abbreviation state_same := (same_files state_named state_linked contents).
Abbreviation state_opened := (opened state_named state_linked contents).
Abbreviation state_wrote := (wrote state_named state_linked contents).
Abbreviation state_closed := (closed state_named state_linked contents).
Abbreviation state_live := (live state_named state_linked).

Section backend.
Context (q : VfsQuota) (Hq : quota_ok q).

Lemma state_named_fun s p i j : state_named s p i -> state_named s p j -> i = j.
Proof. intros (cs & Hp & Hv) (cs' & Hp' & Hv'). congruence. Qed.

Lemma state_live_file s i : Inv q s -> state_live s i -> exists f, files s !! i = Some f.
Proof.
  intros HI [(p & cs & _ & Hv)|(h & a & x & Hx & <- & _)]; [by eapply tree_file|by eapply handle_file].
Qed.

Lemma state_live_content s i : Inv q s -> state_live s i -> is_Some (contents s i).
Proof. intros HI [f Hf]%state_live_file; [|done]. unfold contents. rewrite Hf. eauto. Qed.

(** Dropping what is no longer referred to leaves the files that are. *)
Lemma drops_contents s s' i : Inv q s' -> drops s s' -> state_live s' i -> contents s' i = contents s i.
Proof.
  intros HI Hd [f Hf]%state_live_file; [|done].
  destruct (drops_files _ _ Hd _ _ Hf) as (g & Hg & Heq). unfold contents. rewrite Hf, Hg. simpl. by rewrite Heq.
Qed.

Lemma state_same_refl s : state_same s s.
Proof. reflexivity. Qed.

Lemma state_stat s p :
  Inv q s ->
  wp (stat p) s (fun m s' => s' = s /\ forall i, state_named s p i -> is_dir m = false) (fun _ s' => s' = s).
Proof.
  intros HI. eapply wp_mono; [by apply (stat_spec q)| |by intros e s' [? _]].
  intros m s' (-> & cs & o & Hp & Hv & Hm). split; [done|]. intros i (cs' & Hp' & Hv').
  assert (cs' = cs) as -> by congruence. simplify_eq. simpl in Hm. by destruct (contents s i); simplify_eq/=.
Qed.

Lemma open_done_opened s p m h s' :
  open_done s p m h s' -> exists f, state_opened p m h f s s'.
Proof.
  intros (cs & i & Hp & Hcase & Hh & Hfresh & Hhs & _). exists i. constructor.
  - intros g a (x & Hx & _). congruence.
  - intros h' g a. unfold state_linked. rewrite Hhs. destruct (decide (h' = h)) as [->|Hne].
    + setoid_rewrite lookup_insert_eq. split; [|naive_solver]. intros (x & [= <-] & <- & <-). by left.
    + setoid_rewrite lookup_insert_ne; [|done]. naive_solver.
  - exists cs. split; [done|]. destruct Hcase as [(Hv & _ & -> & _)|(_ & _ & _ & _ & _ & Hren & _)]; [done|].
    rewrite (Hren cs). by rewrite decide_True.
  - intros p' g (cs' & Hp' & Hv'). exists cs'. split; [done|].
    destruct Hcase as [(Hv & _ & -> & _)|(Hnone & _ & _ & _ & _ & Hren & _)]; [done|].
    rewrite (Hren cs'), decide_False; [done|]. intros ->. congruence.
  - destruct Hcase as [(Hv & _ & Hr & Hc & _)|(Hnone & _ & _ & _ & Hf & _ & Hc & _)]; [left|right].
    + split; [by exists cs|]. split; [|done]. intros p' g. unfold state_named. by rewrite Hr.
    + split; [intros g (cs' & Hp' & Hv'); congruence|]. split; [|done]. unfold contents. by rewrite Hf.
  - intros g Hg. unfold contents. f_equal.
    destruct Hcase as [(_ & _ & _ & _ & Ho)|(_ & _ & _ & _ & _ & _ & _ & Ho)]; by apply Ho.
Qed.

Lemma write_done_wrote s h i a d offset new n s' :
  state_linked s h i a -> contents s i = Some d -> write_done s h offset new n s' ->
  n = len new /\ state_wrote i (write_result d a offset new) s s'.
Proof.
  intros (x & Hx & Hi & Ha) Hd (y & f & Hy & _ & Hf & -> & Hs'). simplify_eq. split; [done|].
  unfold contents in Hd. rewrite Hf in Hd. injection Hd as <-. unfold write_result. case_bool_decide as Hn; subst s'.
  - constructor; [done|done| |done]. unfold contents. by rewrite Hf.
  - constructor; [done|done| |].
    + unfold contents. simpl. by rewrite lookup_insert_eq.
    + intros g Hg. unfold contents. simpl. by rewrite lookup_insert_ne.
Qed.

Lemma truncate_done_wrote s h i a d n s' :
  state_linked s h i a -> contents s i = Some d -> truncate_done s h n s' ->
  a_write a = true /\ state_wrote i (resize d n) s s'.
Proof.
  intros (x & Hx & Hi & Ha) Hd (y & f & Hy & Hw & Hf & ->). simplify_eq. split; [done|].
  unfold contents in Hd. rewrite Hf in Hd. injection Hd as <-. constructor; [done|done| |].
  - unfold contents. simpl. by rewrite lookup_insert_eq.
  - intros g Hg. unfold contents. simpl. by rewrite lookup_insert_ne.
Qed.

Lemma close_done_closed s h s' : Inv q s' -> close_done s h s' -> state_closed h s s'.
Proof.
  intros HI (x & Hx & Hd). constructor.
  - intros p f. unfold state_named. by rewrite (drops_root _ _ Hd).
  - intros h' f a. unfold state_linked. rewrite (drops_handles _ _ Hd). simpl. setoid_rewrite lookup_delete_Some. naive_solver.
  - intros f Hf. by rewrite (drops_contents _ _ _ HI Hd Hf).
Qed.
End backend.

(** ** The mounted filesystem *)

Section mounted.
Context (quota : nat -> VfsQuota) (Hquota : forall k, quota_ok (quota k)) (Haddr : forall k, addressable (quota k)).
Context (t : MountTable Backends).
Context (Ht : forall name v, bt_get name (mounts t) = Some v -> exists k, v = mem_vfs quota k).

Abbreviation MS := (MState Backends).
Implicit Types s : MS.

(** Different backends are different objects. *)
Lemma mem_vfs_inj j k : mem_vfs quota j = mem_vfs quota k -> j = k.
Proof.
  intros H. destruct (decide (j = k)) as [|Hne]; [done|]. exfalso.
  set (w := fun i : nat => if decide (i = j) then initial_state else set_used_bytes 1 initial_state).
  assert (v_stats (mem_vfs quota j) w = v_stats (mem_vfs quota k) w) as Hs by (by rewrite H).
  simpl in Hs. unfold w in Hs. rewrite decide_True, decide_False in Hs by done. by simplify_eq/=.
Qed.

(** A file of the mounted filesystem: its backend and its inode there. *)
Definition mem_named (s : MS) (path : str) (f : nat * Z) : Prop :=
  exists mp, mounted_path t path = Ok (Some mp) /\ mp_vfs mp = mem_vfs quota f.1
    /\ state_named (inner_world s f.1) (mp_inner mp) f.2.

Definition mem_linked (s : MS) (h : Z) (f : nat * Z) (a : Access) : Prop :=
  exists x, m_handles s !! h = Some x /\ mh_vfs x = mem_vfs quota f.1
    /\ state_linked (inner_world s f.1) (mh_inner x) f.2 a.

Definition mem_content (s : MS) (f : nat * Z) : option bytes := contents (inner_world s f.1) f.2.

(** Every handle is one of a backend, and no two are the same. *)
Record MemInv (s : MS) : Prop := {
  mem_minv : MInv (BackendsInv quota) t s;
  mem_backed h x :
    m_handles s !! h = Some x -> exists k y, mh_vfs x = mem_vfs quota k /\ handles (inner_world s k) !! mh_inner x = Some y;
  mem_apart h h' x x' :
    m_handles s !! h = Some x -> m_handles s !! h' = Some x' -> mh_vfs x = mh_vfs x' -> mh_inner x = mh_inner x' -> h = h'
}.

Abbreviation mem_same := (same_files mem_named mem_linked mem_content).
Abbreviation mem_opened := (opened mem_named mem_linked mem_content).
Abbreviation mem_wrote := (wrote mem_named mem_linked mem_content).
Abbreviation mem_closed := (closed mem_named mem_linked mem_content).

(** [s] with another state of backend [k]. *)
Definition backends_with (k : nat) (s1 : State) (w : Backends) : Backends := fun j => if decide (j = k) then s1 else w j.
Definition with_backend (k : nat) (s1 : State) (s : MS) : MS :=
  mkMState (backends_with k s1 (inner_world s)) (m_handles s) (m_next_handle s).

Lemma backends_at k (s1 : State) w : backends_with k s1 w k = s1.
Proof. unfold backends_with. by rewrite decide_True. Qed.
Lemma backends_other k (s1 : State) w j : j <> k -> backends_with k s1 w j = w j.
Proof. intros H. unfold backends_with. by rewrite decide_False. Qed.

Lemma wp_on_mem {A} k (m : M A) (s : MS) (Q : A -> State -> Prop) (R : Errno -> State -> Prop) (Q' : A -> MS -> Prop)
    (R' : Errno -> MS -> Prop) :
  wp m (inner_world s k) Q R -> (forall a (s1 : State), Q a s1 -> Q' a (with_backend k s1 s)) ->
  (forall e (s1 : State), R e s1 -> R' e (with_backend k s1 s)) -> wp (on_inner (on_backend k m)) s Q' R'.
Proof.
  intros Hm HQ HR. unfold wp, on_inner, on_backend in *. destruct (m (inner_world s k)) as [[a|e| |] s1]; try done.
  - exact (HQ _ _ Hm).
  - exact (HR _ _ Hm).
Qed.

Lemma BackendsInv_with k (s1 : State) w : BackendsInv quota w -> Inv (quota k) s1 -> BackendsInv quota (backends_with k s1 w).
Proof. intros Hw H1 j. unfold backends_with. case_decide; by subst. Qed.

(** The invariant, when a backend keeps its handles. *)
Lemma MemInv_with k (s1 : State) s :
  MemInv s -> Inv (quota k) s1 -> (forall h y, handles (inner_world s k) !! h = Some y -> exists y', handles s1 !! h = Some y') ->
  MemInv (with_backend k s1 s).
Proof.
  intros [[H1 H2 H3] Hb Ha] HI Hk. constructor; [constructor; [by apply BackendsInv_with|done|done]| |exact Ha].
  intros h x Hx. destruct (Hb h x Hx) as (j & y & Hj & Hy). exists j. simpl. destruct (decide (j = k)) as [->|Hne].
  - rewrite backends_at. destruct (Hk _ _ Hy) as [y' Hy']. eauto.
  - rewrite backends_other by done. eauto.
Qed.

(** ** What an operation on a backend is for the mounted filesystem *)

Lemma with_backend_self k s : mem_same s (with_backend k (inner_world s k) s).
Proof.
  assert (forall j, backends_with k (inner_world s k) (inner_world s) j = inner_world s j) as H.
  { intros j. destruct (decide (j = k)) as [->|Hne]; [apply backends_at|by apply backends_other]. }
  constructor.
  - intros p f. unfold mem_named. simpl. by setoid_rewrite H.
  - intros h f a. unfold mem_linked. simpl. by setoid_rewrite H.
  - intros f. unfold mem_content. simpl. by rewrite H.
Qed.

Lemma mem_named_iff s s' p f :
  (forall j inner i, state_named (inner_world s' j) inner i <-> state_named (inner_world s j) inner i) ->
  mem_named s' p f <-> mem_named s p f.
Proof. intros H. unfold mem_named. by setoid_rewrite H. Qed.

Lemma mem_linked_iff s s' h f a :
  m_handles s' = m_handles s ->
  (forall j inner i b, state_linked (inner_world s' j) inner i b <-> state_linked (inner_world s j) inner i b) ->
  mem_linked s' h f a <-> mem_linked s h f a.
Proof. intros Hh H. unfold mem_linked. rewrite Hh. by setoid_rewrite H. Qed.

Lemma mem_wrote_with k i d (s1 : State) s :
  state_wrote i d (inner_world s k) s1 -> mem_wrote (k, i) d s (with_backend k s1 s).
Proof.
  intros [HN HL HC HO]. constructor.
  - intros p g. apply mem_named_iff. intros j inner i'. simpl.
    destruct (decide (j = k)) as [->|Hne]; [rewrite backends_at; apply HN|by rewrite backends_other].
  - intros h g a. apply mem_linked_iff; [done|]. intros j inner i' b. simpl.
    destruct (decide (j = k)) as [->|Hne]; [rewrite backends_at; apply HL|by rewrite backends_other].
  - unfold mem_content. simpl. by rewrite backends_at.
  - intros [j i'] Hg. unfold mem_content. simpl. destruct (decide (j = k)) as [->|Hne]; [|by rewrite backends_other].
    rewrite backends_at. apply HO. congruence.
Qed.

(** The new handle of the mount for a handle its backend just gave out. *)
Lemma mem_opened_with k p mp m i0 f (s1 : State) s h s' :
  MemInv s -> mounted_path t p = Ok (Some mp) -> mp_vfs mp = mem_vfs quota k ->
  state_opened (mp_inner mp) m i0 f (inner_world s k) s1 ->
  m_handles s !! h = None -> m_handles s' = <[h := mkMountedHandle (mp_vfs mp) i0]> (m_handles s) ->
  inner_world s' = inner_world (with_backend k s1 s) ->
  mem_opened p m h (k, f) s s'.
Proof.
  intros HI Hp Hk Ho Hh Hhs Hw. simpl in Hw. pose proof (mem_backed _ HI) as Hback.
  constructor.
  - intros g a (x & Hx & _). congruence.
  - intros h' [j g] a. unfold mem_linked. rewrite Hhs, Hw. simpl. destruct (decide (h' = h)) as [->|Hne].
    + setoid_rewrite lookup_insert_eq. split.
      * intros (x & [= <-] & Hv & Hl). simpl in Hv, Hl. rewrite Hk in Hv. apply mem_vfs_inj in Hv as <-.
        rewrite backends_at in Hl. apply (op_linked Ho) in Hl as [(_ & -> & ->)|[? _]]; [by left|done].
      * intros [(_ & [= -> ->] & ->)|[? _]]; [|done]. eexists. split; [done|]. split; [done|]. rewrite backends_at. simpl.
        apply (op_linked Ho). by left.
    + setoid_rewrite lookup_insert_ne; [|done]. split.
      * intros (x & Hx & Hv & Hl). right. split; [done|]. exists x. split; [done|]. split; [done|].
        destruct (decide (j = k)) as [->|Hj]; [|by rewrite backends_other in Hl].
        rewrite backends_at in Hl. apply (op_linked Ho) in Hl as [(Heq & _)|[_ Hl]]; [|done].
        exfalso. destruct (Hback _ _ Hx) as (j' & y & Hj' & Hy). rewrite Hv in Hj'. apply mem_vfs_inj in Hj' as <-.
        rewrite Heq in Hy. apply (op_fresh Ho (h_inode y) (handle_access y)). by exists y.
      * intros [[? _]|(_ & x & Hx & Hv & Hl)]; [done|]. exists x. split; [done|]. split; [done|].
        destruct (decide (j = k)) as [->|Hj]; [|by rewrite backends_other]. rewrite backends_at.
        apply (op_linked Ho). right. split; [|done]. intros Heq. rewrite Heq in Hl.
        by apply (op_fresh Ho) in Hl.
  - exists mp. split; [done|]. split; [done|]. rewrite Hw. simpl. rewrite backends_at. apply (op_named Ho).
  - intros p' [j g] (mp' & Hp' & Hv' & Hn). exists mp'. split; [done|]. split; [done|]. rewrite Hw. simpl in *.
    destruct (decide (j = k)) as [->|Hj]; [|by rewrite backends_other]. rewrite backends_at.
    by apply (op_names Ho).
  - unfold mem_content. simpl. rewrite Hw, backends_at.
    destruct (op_content Ho) as [(Hn & Hsame & Hc)|(Hn & Hc)]; [left|right].
    + split; [by exists mp|]. split; [|done]. intros p' g. apply mem_named_iff. rewrite Hw. intros j inner i.
      destruct (decide (j = k)) as [->|Hj]; [|by rewrite backends_other]. rewrite backends_at. apply Hsame.
    + split; [|done]. intros [j g] (mp' & Hp' & Hv' & Hn'). simpl in *. rewrite Hp in Hp'. injection Hp' as <-.
      rewrite Hk in Hv'. apply mem_vfs_inj in Hv' as <-. by apply (Hn g).
  - intros [j g] Hg. unfold mem_content. simpl. rewrite Hw. destruct (decide (j = k)) as [->|Hj]; [|by rewrite backends_other].
    rewrite backends_at. apply (op_others Ho). congruence.
Qed.

(** Closing the handle of the backend and forgetting the one of the mount. *)
Lemma mem_closed_with k h x (s1 : State) s s' :
  MemInv s -> m_handles s !! h = Some x -> mh_vfs x = mem_vfs quota k -> state_closed (mh_inner x) (inner_world s k) s1 ->
  m_handles s' = delete h (m_handles s) -> inner_world s' = inner_world (with_backend k s1 s) ->
  mem_closed h s s'.
Proof.
  intros HI Hx Hk Hc Hhs Hw. simpl in Hw.
  assert (forall j inner i, state_named (inner_world s' j) inner i <-> state_named (inner_world s j) inner i) as HN.
  { intros j inner i. rewrite Hw. destruct (decide (j = k)) as [->|Hj]; [|by rewrite backends_other].
    rewrite backends_at. apply (closed_named Hc). }
  constructor.
  - intros p f. by apply mem_named_iff.
  - intros h' [j g] a. unfold mem_linked. rewrite Hhs, Hw. simpl. setoid_rewrite lookup_delete_Some. split.
    + intros (y & [Hne Hy] & Hv & Hl). split; [done|]. exists y. split; [done|]. split; [done|].
      destruct (decide (j = k)) as [->|Hj]; [|by rewrite backends_other in Hl]. rewrite backends_at in Hl.
      by apply (closed_linked Hc) in Hl as [_ Hl].
    + intros [Hne (y & Hy & Hv & Hl)]. exists y. split; [done|]. split; [done|].
      destruct (decide (j = k)) as [->|Hj]; [|by rewrite backends_other]. rewrite backends_at.
      apply (closed_linked Hc). split; [|done]. intros Heq. apply Hne.
      apply (mem_apart _ HI h' h y x); [done|done|congruence|done].
  - intros [j g] Hlive. unfold mem_content. simpl. rewrite Hw. destruct (decide (j = k)) as [->|Hj]; [|by rewrite backends_other].
    rewrite backends_at. apply (closed_content Hc).
    destruct Hlive as [(p & mp & _ & _ & Hn)|(h' & a & y & _ & _ & Hl)]; simpl in *; rewrite Hw, backends_at in *.
    + left. by exists (mp_inner mp).
    + right. by exists (mh_inner y), a.
Qed.

(** ** The laws *)

Lemma mem_content_live s f : MemInv s -> live mem_named mem_linked s f -> is_Some (mem_content s f).
Proof.
  intros HI. pose proof (minv_world _ _ _ (mem_minv _ HI)) as Hw.
  destruct f as [k i]. intros [(p & mp & _ & _ & Hn)|(h & a & x & _ & _ & Hl)]; simpl in *;
    (apply (state_live_content (quota k)); [apply Hw|]); [left; eauto|right; eauto].
Qed.

Lemma mem_content_len s f d : MemInv s -> mem_content s f = Some d -> len d <= USIZE_MAX.
Proof.
  intros HI Hd. destruct (minv_world _ _ _ (mem_minv _ HI) f.1) as [_ [_ _ Hsize]]. unfold mem_content, contents in Hd.
  destruct (files (inner_world s f.1) !! f.2) as [g|] eqn:Hg; [|done]. injection Hd as <-.
  pose proof (Hsize _ _ Hg). pose proof (quota_size _ (Hquota f.1)). unfold USIZE_MAX, U64_MAX in *. lia.
Qed.

(** A query of a backend. *)
Lemma wp_mem_query {A} k (m : M A) s (Q : A -> Prop) (R : Errno -> State -> Prop) :
  MemInv s -> wp m (inner_world s k) (fun a (s1 : State) => s1 = inner_world s k /\ Q a) (fun e (s1 : State) => s1 = inner_world s k) ->
  wp (on_inner (on_backend k m)) s (fun a s' => MemInv s' /\ mem_same s s' /\ Q a)
     (fun _ s' => MemInv s' /\ mem_same s s').
Proof.
  intros HI Hm. assert (MemInv (with_backend k (inner_world s k) s)) as HI'.
  { apply MemInv_with; [done| |eauto]. apply (minv_world _ _ _ (mem_minv _ HI)). }
  eapply wp_on_mem; [exact Hm|intros a s1 [-> HQ]|intros e s1 ->]; (split; [done|]);
    [split; [apply with_backend_self|done]|apply with_backend_self].
Qed.

(** What a handle of the mount is a handle of. *)
Lemma wp_mem_handle {A} h f a s (K : Vfs Backends * Z -> ST MS Errno A) (Q : A -> MS -> Prop) (R : Errno -> MS -> Prop) :
  mem_linked s h f a ->
  (forall i, state_linked (inner_world s f.1) i f.2 a -> wp (K (mem_vfs quota f.1, i)) s Q R) ->
  wp (sbind (handle h) K) s Q R.
Proof.
  intros (x & Hx & Hv & Hl) HK. unfold handle. wp_steps. apply wp_ok_or; [|congruence]. intros y Hy. simplify_eq.
  wp_steps. rewrite Hv. by apply HK.
Qed.

Lemma mem_stat_law s p :
  MemInv s ->
  wp (m_stat t p) s (fun m s' => MemInv s' /\ mem_same s s' /\ forall f, mem_named s p f -> is_dir m = false)
     (fun _ s' => MemInv s' /\ mem_same s s').
Proof.
  intros HI. unfold m_stat. pose proof (mounted_path_spec t p) as Hs.
  destruct (mounted_path t p) as [[mp|]|e| |] eqn:Hp; try done.
  - destruct Hs as (rest & _ & Hg & _). destruct (Ht _ _ Hg) as [k Hk]. wp_step. apply (wp_ret (Some mp)). rewrite Hk.
    cbn [mem_vfs v_stat].
    eapply wp_mono; [apply (wp_mem_query k _ s (fun m => forall i, state_named (inner_world s k) (mp_inner mp) i -> is_dir m = false)
      (fun _ _ => True) HI)| |by intros e s' ?].
    + apply (state_stat (quota k)); [done|]. apply (minv_world _ _ _ (mem_minv _ HI)).
    + intros m s' (? & ? & Hm). split; [done|]. split; [done|]. intros [j i] (mp' & Hp' & Hv' & Hn). simpl in *.
      rewrite Hp in Hp'. injection Hp' as <-. rewrite Hk in Hv'. apply mem_vfs_inj in Hv' as <-. by apply (Hm i).
  - wp_step. apply (wp_ret None). wp_steps. split; [done|]. split; [done|]. intros f (mp' & Hp' & _). congruence.
Qed.

(** Giving out a handle of the mount for a new one of a backend. *)
Lemma MemInv_opened k p m i h v (s1 : State) s s' :
  MemInv s -> Inv (quota k) s1 -> open_done (inner_world s k) p m i s1 ->
  v = mem_vfs quota k -> (exists name, bt_get name (mounts t) = Some v) -> 0 < h < 2 ^ 64 -> m_handles s !! h = None ->
  m_handles s' = <[h := mkMountedHandle v i]> (m_handles s) -> inner_world s' = backends_with k s1 (inner_world s) ->
  0 <= m_next_handle s' < 2 ^ 64 -> MemInv s'.
Proof.
  intros HI HI1 (cs & ino & _ & _ & Hi & Hfr & Hhandles & _) Hk Hg Hh Hn Hhs Hw' Hnext.
  pose proof (mem_minv _ HI) as [M1 M2 M3].
  assert (forall h' x, m_handles s !! h' = Some x -> mh_vfs x = v -> mh_inner x = i -> False) as Hfresh.
  { intros h' x Hx Hv Hin. destruct (mem_backed _ HI _ _ Hx) as (j & y & Hj & Hy).
    rewrite Hv, Hk in Hj. apply mem_vfs_inj in Hj as <-. rewrite Hin in Hy. congruence. }
  constructor.
  - constructor; [rewrite Hw'; by apply BackendsInv_with|done|]. rewrite Hhs.
    intros h' y [[<- <-]|[_ Hy]]%lookup_insert_Some; [done|]. by apply M3.
  - intros h' x Hx. rewrite Hw'. rewrite Hhs in Hx. apply lookup_insert_Some in Hx as [[<- <-]|[Hne Hx]].
    + exists k. eexists. split; [exact Hk|]. rewrite backends_at, Hhandles. apply lookup_insert_eq.
    + destruct (mem_backed _ HI _ _ Hx) as (j & y & Hj & Hy). exists j.
      destruct (decide (j = k)) as [->|Hjk]; [|rewrite backends_other by done; eauto].
      rewrite backends_at, Hhandles. exists y. split; [done|]. rewrite lookup_insert_ne; [done|]. congruence.
  - intros h1 h2 x1 x2. rewrite Hhs. intros [[<- <-]|[Hne1 H1]]%lookup_insert_Some [[<- <-]|[Hne2 H2]]%lookup_insert_Some Hv Hin.
    + done.
    + exfalso. by eapply Hfresh.
    + exfalso. by eapply Hfresh.
    + by eapply mem_apart.
Qed.

Lemma mem_open_law s p m :
  MemInv s -> MRoom BackendsRoom s ->
  wp (m_open t p m) s (fun h s' => MemInv s' /\ exists f, mem_opened p m h f s s')
     (fun _ s' => MemInv s' /\ mem_same s s').
Proof.
  intros HI [Hroom Hsize]. unfold m_open. pose proof (mounted_path_spec t p) as Hs.
  destruct (mounted_path t p) as [[mp|]|e| |] eqn:Hp; try done.
  destruct Hs as (rest & _ & Hg & _). destruct (Ht _ _ Hg) as [k Hk]. wp_step. apply (wp_ret (Some mp)). wp_step.
  apply (wp_ret mp). wp_step; [done|]. wp_step. rewrite Hk. cbn [mem_vfs v_open].
  pose proof (minv_world _ _ _ (mem_minv _ HI)) as Hw. destruct (Hroom k) as [Hr1 Hr2].
  eapply wp_on_mem; [by apply (open_spec (quota k))| |].
  - intros i s1 [HI1 Hod]. destruct (open_done_opened _ _ _ _ _ Hod) as [f Ho].
    apply insert_handle_spec; [exact (minv_next _ _ _ (mem_minv _ HI))|exact Hsize|].
    intros h s' Hh Hn Hhs Hw' Hnext. simpl in Hn, Hhs. rewrite <- Hk in Hhs. split.
    + by eapply (MemInv_opened k (mp_inner mp) m i h (mp_vfs mp) s1 s s'); eauto.
    + exists (k, f). by eapply mem_opened_with.
  - intros e s1 [-> _]. split; [|apply with_backend_self]. apply MemInv_with; [done|apply Hw|eauto].
Qed.

Lemma mem_read_law s h f a d offset buf :
  MemInv s -> mem_linked s h f a -> a_read a = true -> mem_content s f = Some d -> 0 <= offset <= USIZE_MAX ->
  wp (m_read_at h offset buf) s (fun r s' => r = read_result d offset buf /\ MemInv s' /\ mem_same s s') (fun _ _ => False).
Proof.
  intros HI Hl Ha Hd Ho. unfold m_read_at. eapply wp_mem_handle; [done|]. intros i (x & Hx & Hi & Hax). cbn [mem_vfs v_read_at].
  pose proof (minv_world _ _ _ (mem_minv _ HI)) as Hw.
  assert (MemInv (with_backend f.1 (inner_world s f.1) s)) as HI' by (apply MemInv_with; [done|apply Hw|eauto]).
  eapply wp_on_mem; [apply (read_at_spec (quota f.1) (inner_world s f.1) i offset buf); apply Hw| |].
  - intros r s1 [-> (y & d' & Hy & _ & Hc & ->)]. rewrite Hx in Hy. injection Hy as <-. rewrite Hi in Hc.
    unfold mem_content in Hd. rewrite Hd in Hc. injection Hc as <-. split; [done|]. split; [done|]. apply with_backend_self.
  - intros e s1 [_ Hf]. inversion Hf as [Hbad|Hbad]; [done|]. specialize (Hbad x Hx). subst a. simpl in Ha. congruence.
Qed.

(** A file that an operation on a backend changed. *)
Lemma MemInv_wrote k i d (s1 : State) s :
  MemInv s -> Inv (quota k) s1 -> state_wrote i d (inner_world s k) s1 -> MemInv (with_backend k s1 s).
Proof.
  intros HI HI1 Hwr. apply MemInv_with; [done|done|]. intros j y Hy.
  destruct (wrote_linked Hwr j (h_inode y) (handle_access y)) as [_ H]. destruct H as (y' & Hy' & _); eauto.
  by exists y.
Qed.

Lemma mem_write_law s h f a d offset new :
  MemInv s -> mem_linked s h f a -> a_write a = true -> mem_content s f = Some d ->
  wp (m_write_at h offset new) s
    (fun n s' => n = len new /\ MemInv s' /\ mem_wrote f (write_result d a offset new) s s')
    (fun _ s' => MemInv s' /\ mem_same s s').
Proof.
  intros HI Hl Ha Hd. unfold m_write_at. eapply wp_mem_handle; [done|]. intros i Hli. cbn [mem_vfs v_write_at].
  pose proof (minv_world _ _ _ (mem_minv _ HI)) as Hw. destruct f as [k ino].
  eapply wp_on_mem; [apply (write_at_spec (quota k) (Hquota k) (inner_world s k) i offset new);
    [apply Hw|apply never_write_overlong; [apply Haddr|apply Hw]]| |].
  - intros n s1 [HI1 Hwd]. destruct (write_done_wrote _ _ _ _ _ _ _ _ _ Hli Hd Hwd) as [-> Hwr]. split; [done|].
    split; [by eapply MemInv_wrote|by apply mem_wrote_with].
  - intros e s1 [-> _]. split; [|apply with_backend_self]. apply MemInv_with; [done|apply Hw|eauto].
Qed.

Lemma mem_truncate_law s h f a d n :
  MemInv s -> mem_linked s h f a -> mem_content s f = Some d ->
  wp (m_truncate_at h n) s
    (fun _ s' => a_write a = true /\ MemInv s' /\ mem_wrote f (resize d n) s s')
    (fun _ s' => MemInv s' /\ mem_same s s').
Proof.
  intros HI Hl Hd. unfold m_truncate_at. eapply wp_mem_handle; [done|]. intros i Hli. cbn [mem_vfs v_truncate].
  pose proof (minv_world _ _ _ (mem_minv _ HI)) as Hw. destruct f as [k ino].
  eapply wp_on_mem; [apply (truncate_spec (quota k) (Hquota k) (inner_world s k) i n);
    [apply Hw|apply never_truncate_overlong; [apply Haddr|apply Hw]]| |].
  - intros [] s1 [HI1 Hwd]. destruct (truncate_done_wrote _ _ _ _ _ _ _ Hli Hd Hwd) as [Ha Hwr]. split; [done|].
    split; [by eapply MemInv_wrote|by apply mem_wrote_with].
  - intros e s1 [-> _]. split; [|apply with_backend_self]. apply MemInv_with; [done|apply Hw|eauto].
Qed.

(** [close] and [abort] of the mount, which are [close] of the backend. *)
Lemma mem_close_law s h f a (K : MountedHandle Backends -> ST Backends Errno unit) :
  (forall x k, mh_vfs x = mem_vfs quota k -> K x = on_backend k (close (mh_inner x))) ->
  MemInv s -> mem_linked s h f a ->
  wp (let! x := remove_handle h in on_inner (K x)) s (fun _ s' => MemInv s' /\ mem_closed h s s') (fun _ _ => False).
Proof.
  intros HK HI (x & Hx & Hv & y & Hy & Hl). unfold remove_handle. wp_steps. apply wp_ok_or; [|congruence]. intros x' Hx'.
  simplify_eq. wp_steps. rewrite (HK _ _ Hv). pose proof (mem_minv _ HI) as [M1 M2 M3].
  eapply wp_on_mem; [apply (close_spec (quota f.1) (Hquota f.1) (inner_world s f.1) (mh_inner x)); apply M1| |].
  2: { intros e s1 (_ & _ & Hnone). congruence. }
  intros [] s1 [HI1 Hcd]. pose proof (close_done_closed _ _ _ _ HI1 Hcd) as Hc.
  split; [|by eapply mem_closed_with]. constructor.
  - constructor; simpl; [by apply BackendsInv_with|done|]. intros h' z [_ Hz]%lookup_delete_Some. by apply M3.
  - simpl. intros h' z [Hne Hz]%lookup_delete_Some. destruct (mem_backed _ HI _ _ Hz) as (j & u & Hj & Hu). exists j.
    destruct (decide (j = f.1)) as [->|Hjk]; [|rewrite backends_other by done; eauto]. rewrite backends_at.
    destruct (closed_linked Hc (mh_inner z) (h_inode u) (handle_access u)) as [_ H].
    destruct H as (u' & Hu' & _); [|eauto]. split; [|by exists u]. intros Heq. apply Hne.
    apply (mem_apart _ HI h h' x z); [done|done|congruence|done].
  - simpl. intros h1 h2 x1 x2 [_ H1]%lookup_delete_Some [_ H2]%lookup_delete_Some. by eapply mem_apart.
Qed.

#[global] Instance mem_file_laws :
  FileLaws mem_named mem_linked mem_content MemInv (MRoom BackendsRoom) (mounted_vfs t).
Proof.
  constructor; cbn [mounted_vfs v_stat v_open v_read_at v_write_at v_truncate v_close v_abort].
  - intros s p [k i] [k' i'] _ (mp & Hp & Hv & Hn) (mp' & Hp' & Hv' & Hn'). simpl in *.
    rewrite Hp in Hp'. injection Hp' as <-. rewrite Hv in Hv'. apply mem_vfs_inj in Hv' as <-.
    f_equal. by eapply state_named_fun.
  - apply mem_content_live.
  - apply mem_content_len.
  - apply mem_stat_law.
  - apply mem_open_law.
  - apply mem_read_law.
  - apply mem_write_law.
  - apply mem_truncate_law.
  - intros s h f a HI Hl. unfold m_close. eapply mem_close_law; [|done..]. by intros x k ->.
  - intros s h f a HI Hl. unfold m_abort. eapply mem_close_law; [|done..]. by intros x k ->.
Qed.
End mounted.
