(* ===== verification/SandboxFs.v ===== *)
(** * The filesystem facade of a sandbox (src/src/sandbox/fs.rs)

    [Fs] resolves paths against the working directory, overlays the read-only
    [/bin], admits file handles against the limits of the execution
    (control.rs) and of the process (pools.rs), and reads and writes whole files
    in chunks.  An [await] is a point where the execution may have been
    cancelled or timed out: [cancelled_at n] is the answer of the [n]-th look at
    the cancellation flag and the clock.  A blocking operation runs on a worker
    thread and is awaited, so it acts like an inline one, after one more look. *)

From Stdlib Require Import Ascii String.
From S2P Require Import Prelude RustStr BTreeMap VfsTypes VfsPath VfsIface.

(** ** Paths *)

Definition join_path (dir name : str) : str :=
  if bool_decide (dir = lit "/") then lit "/" ++ name else dir ++ lit "/" ++ name.

Definition is_bin_path (path : str) : bool :=
  bool_decide (path = lit "/bin") || starts_with path (lit "/bin/").

(** The loop of [normalize_absolute]. *)
Definition push_part (parts : list str) (part : str) : list str :=
  if bool_decide (part = []) || bool_decide (part = lit ".") then parts
  else if bool_decide (part = lit "..") then removelast parts
  else parts ++ [part].

Definition normalize_absolute (path : str) : str :=
  let parts := foldl push_part [] (split (ch "/") path) in
  if bool_decide (parts = []) then lit "/" else lit "/" ++ join (lit "/") parts.

Definition errno_message (e : Errno) : string :=
  match e with
  | EBADF => "Bad file descriptor"
  | EBUSY => "Device or resource busy"
  | EXDEV => "Invalid cross-device link"
  | EACCES => "Permission denied"
  | EEXIST => "File exists"
  | EFBIG => "File too large"
  | EIO => "Input/output error"
  | EINVAL => "Invalid argument"
  | EISDIR => "Is a directory"
  | ENOENT => "No such file or directory"
  | ENOSPC => "No space left on device"
  | ENOTDIR => "Not a directory"
  | ENOTEMPTY => "Directory not empty"
  end.

(** [s.strip_prefix(p)] and [s.trim_start_matches(p)] for a nonempty [p]. *)
Definition strip_prefix (s p : str) : option str :=
  if starts_with s p then Some (drop (length p) s) else None.

Fixpoint trim_start_matches_fuel (fuel : nat) (s p : str) : str :=
  match fuel with
  | O => s
  | S fuel =>
      match strip_prefix s p with
      | Some s => trim_start_matches_fuel fuel s p
      | None => s
      end
  end.
Definition trim_start_matches (s p : str) : str := trim_start_matches_fuel (length s) s p.

(** [entries.sort_by(|a, b| a.name.cmp(&b.name))]: a stable sort. *)
Fixpoint insert_by_name (e : DirEntry) (es : list DirEntry) : list DirEntry :=
  match es with
  | [] => [e]
  | x :: es' =>
      match str_compare (entry_name e) (entry_name x) with
      | Lt | Eq => e :: es
      | Gt => x :: insert_by_name e es'
      end
  end.
Definition sort_by_name (es : list DirEntry) : list DirEntry := foldr insert_by_name [] es.

(** ** Limits (command.rs) *)

Record Limits := mkLimits {
  wall_time : Z;
  stdout_bytes : Z;
  stderr_bytes : Z;
  max_commands : Z;
  shell_input_bytes : Z;
  host_input_bytes : Z;
  max_open_files : Z;
  max_path_depth : Z;
  tail_input_bytes : Z;
  sort_input_bytes : Z;
  jq_input_bytes : Z;
  jq_memory_bytes : Z;
  wasm_memory_bytes : Z;
  fetch_response_bytes : Z
}.

Definition default_limits : Limits :=
  mkLimits 30 (1024 * 1024) (1024 * 1024) 1024 (1024 * 1024) (8 * 1024 * 1024) 1024 256
    (8 * 1024 * 1024) (8 * 1024 * 1024) (8 * 1024 * 1024) (64 * 1024 * 1024) (64 * 1024 * 1024)
    (32 * 1024 * 1024).

Definition STREAM_CHUNK_BYTES : Z := 64 * 1024.

(** [usize::saturating_sub] and [usize::saturating_add]. *)
Definition saturating_sub (a b : Z) : Z := Z.max 0 (a - b).
Definition saturating_add (a b : Z) : Z := Z.min USIZE_MAX (a + b).

(** ** State *)

(** The world of the VFS, the handles of this registry, the shared and the
    per-execution count of open files, and the number of looks at the clock. *)
Record FsState (W : Type) := mkFsState {
  fs_world : W;
  fs_files : gset Z;
  pool_open : Z;
  exec_open : Z;
  clock : nat
}.
Arguments mkFsState {W}.
Arguments fs_world {W}.
Arguments fs_files {W}.
Arguments pool_open {W}.
Arguments exec_open {W}.
Arguments clock {W}.

Section fs.
Context {W : Type} (v : Vfs W).
Context (bin_commands : list str) (cwd : str) (limits : Limits).
(** [capacity.open_files] of the pools, and whether the facade belongs to an
    execution ([control] is [Some]). *)
Context (open_files_capacity : Z) (scoped : bool).
Context (cancelled_at : nat -> bool).

Abbreviation FM := (ST (FsState W) Errno).

Definition on_world {A} (m : ST W Errno A) : FM A :=
  fun s => let '(o, w') := m (fs_world s) in
           (o, mkFsState w' (fs_files s) (pool_open s) (exec_open s) (clock s)).

Definition set_fs_files (f : gset Z) (s : FsState W) : FsState W :=
  mkFsState (fs_world s) f (pool_open s) (exec_open s) (clock s).
Definition set_pool_open (n : Z) (s : FsState W) : FsState W :=
  mkFsState (fs_world s) (fs_files s) n (exec_open s) (clock s).
Definition set_exec_open (n : Z) (s : FsState W) : FsState W :=
  mkFsState (fs_world s) (fs_files s) (pool_open s) n (clock s).

(** [let _ = m;] *)
Definition ignore {A} (m : FM A) : FM unit :=
  fun s => match m s with
           | (Ok _, s') | (Err _, s') => (Ok tt, s')
           | (Panic, s') => (Panic, s')
           | (OutOfFuel, s') => (OutOfFuel, s')
           end.

(** A guard whose [Drop] runs [fin] when the scope of [m] ends. *)
Definition finally {A} (m : FM A) (fin : FM unit) : FM A :=
  fun s => match m s with
           | (Ok a, s') => (let! _ := fin in sret a) s'
           | (Err e, s') => (let! _ := fin in sfail e) s'
           | r => r
           end.

(** [match result { Ok(x) => ..., Err(e) => ... }]. *)
Definition try {A} (m : FM A) : FM (outcome Errno A) :=
  fun s => match m s with
           | (Ok a, s') => (Ok (Ok a), s')
           | (Err e, s') => (Ok (Err e), s')
           | (Panic, s') => (Panic, s')
           | (OutOfFuel, s') => (OutOfFuel, s')
           end.

(** ** Execution control (control.rs) *)

Definition control_is_cancelled : FM bool :=
  fun s => (Ok (cancelled_at (clock s)),
            mkFsState (fs_world s) (fs_files s) (pool_open s) (exec_open s) (S (clock s))).

Definition control_check : FM unit :=
  let! c := control_is_cancelled in if (c : bool) then sfail EIO else sret tt.

Definition control_acquire_file : FM unit :=
  let! _ := control_check in
  let! s := sget in
  if exec_open s <? max_open_files limits then sput (set_exec_open (exec_open s + 1) s)
  else sfail ENOSPC.

(** [fetch_sub] wraps. *)
Definition control_release_file : FM unit :=
  let! s := sget in sput (set_exec_open ((exec_open s - 1) mod 2 ^ 64) s).

(** ** Shared pools (pools.rs) *)

Definition pool_acquire_file : FM bool :=
  let! s := sget in
  if pool_open s <? open_files_capacity then
    let! _ := sput (set_pool_open (pool_open s + 1) s) in sret true
  else sret false.

Definition pool_release_file : FM unit :=
  let! s := sget in sput (set_pool_open ((pool_open s - 1) mod 2 ^ 64) s).

(** ** Checks *)

Definition max_io_bytes : Z := Z.max (host_input_bytes limits) STREAM_CHUNK_BYTES.

Definition is_cancelled : FM bool := if scoped then control_is_cancelled else sret false.
Definition check : FM unit := if scoped then control_check else sret tt.

(** [path.split('/').filter(|p| !p.is_empty()).count()]. *)
Definition depth (path : str) : Z :=
  len (filter (fun p => p <> []) (split (ch "/") path)).

Definition check_path (path : str) : FM unit :=
  let! _ := check in
  if contains path (ch NUL) || (Z.min (max_path_depth limits) 256 <? depth path)
  then sfail EINVAL else sret tt.

Definition resolve (path : str) : str :=
  normalize_absolute
    (if starts_with path (lit "/") then path
     else if bool_decide (cwd = lit "/") then lit "/" ++ path
     else cwd ++ lit "/" ++ path).

Definition in_bin (name : str) : bool := bool_decide (name ∈ bin_commands).

Definition bin_stat (path : str) : option (outcome Errno Metadata) :=
  if bool_decide (path = lit "/bin") then Some (Ok (mkMetadata DirectoryType 0))
  else
    match strip_prefix path (lit "/bin/") with
    | None => None
    | Some name =>
        Some (if negb (contains name (ch "/")) && in_bin name
              then Ok (mkMetadata RegularFile 0) else Err ENOENT)
    end.

(** ** Dispatch *)

Definition dispatch {A} (fast cleanup : bool) (op : FM A) : FM A :=
  let! _ := (if cleanup then sret tt else check) in
  if fast then op
  else
    let! _ := (if negb cleanup && scoped then control_check else sret tt) in
    op.

Definition dispatch_path {A} (path : str) (op : FM A) : FM A :=
  let! _ := check_path path in
  dispatch (v_is_fast_path v path) false op.

(** [self.dispatch(self.vfs.is_fast_handle(handle), cleanup, op)]. *)
Definition dispatch_handle {A} (h : FileHandle) (cleanup : bool) (op : FM A) : FM A :=
  let! s := sget in dispatch (v_is_fast_handle v h (fs_world s)) cleanup op.

(** ** The handle registry *)

Definition reserve : FM unit :=
  let! ok := pool_acquire_file in
  if negb ok then sfail ENOSPC
  else if scoped then
    let! r := try control_acquire_file in
    match r with
    | Ok _ => sret tt
    | Err e => let! _ := pool_release_file in sfail e
    | Panic => slift Panic
    | OutOfFuel => slift OutOfFuel
    end
  else sret tt.

Definition release : FM unit :=
  let! _ := pool_release_file in
  if scoped then control_release_file else sret tt.

Definition remove_file (h : FileHandle) : FM unit :=
  let! s := sget in
  if decide (h ∈ fs_files s) then sput (set_fs_files (fs_files s ∖ {[h]}) s) else sfail EBADF.

Definition cleanup_handle (h : FileHandle) : FM unit :=
  let! _ := ignore (on_world (v_abort v h)) in
  let! _ := pool_release_file in
  if scoped then control_release_file else sret tt.

Definition abandon (h : FileHandle) : FM unit :=
  let! s := sget in
  if decide (h ∈ fs_files s) then
    let! _ := sput (set_fs_files (fs_files s ∖ {[h]}) s) in cleanup_handle h
  else sret tt.

Fixpoint cleanup_all (hs : list FileHandle) : FM unit :=
  match hs with
  | [] => sret tt
  | h :: hs => let! _ := cleanup_handle h in cleanup_all hs
  end.

(** [abandon_all], and the [Drop] of the registry. *)
Definition abandon_all : FM unit :=
  let! s := sget in
  let! _ := sput (set_fs_files ∅ s) in
  cleanup_all (elements (fs_files s)).

(** ** Path operations *)

Definition fs_stat (path : str) : FM Metadata :=
  let path := resolve path in
  let! _ := check_path path in
  match bin_stat path with
  | Some metadata => slift metadata
  | None => dispatch_path path (on_world (v_stat v path))
  end.

Definition fs_readdir (path : str) : FM (list DirEntry) :=
  let path := resolve path in
  let! _ := check_path path in
  if bool_decide (path = lit "/") then
    let! entries := dispatch_path (lit "/") (on_world (v_readdir v (lit "/"))) in
    sret (sort_by_name (entries ++ [mkDirEntry (lit "bin") (mkMetadata DirectoryType 0)]))
  else if bool_decide (path = lit "/bin") then
    sret ((fun name => mkDirEntry name (mkMetadata RegularFile 0)) <$> bin_commands)
  else if starts_with path (lit "/bin/") then sfail ENOTDIR
  else dispatch_path path (on_world (v_readdir v path)).

Definition fs_mkdir (path : str) : FM unit :=
  let path := resolve path in
  let! _ := check_path path in
  if is_bin_path path then sfail EACCES
  else dispatch_path path (on_world (v_mkdir v path)).

Definition fs_rename (from to : str) : FM unit :=
  let from := resolve from in
  let to := resolve to in
  if is_bin_path from || is_bin_path to then sfail EACCES
  else
    let! _ := check_path from in
    let! _ := check_path to in
    dispatch (v_is_fast_path v from && v_is_fast_path v to) false (on_world (v_rename v from to)).

Definition fs_unlink (path : str) : FM unit :=
  let path := resolve path in
  let! _ := check_path path in
  if is_bin_path path then sfail EACCES
  else dispatch_path path (on_world (v_unlink v path)).

Definition fs_rmdir (path : str) : FM unit :=
  let path := resolve path in
  let! _ := check_path path in
  if is_bin_path path then sfail EACCES
  else dispatch_path path (on_world (v_rmdir v path)).

(** ** Handles *)

(** The closure [open] dispatches; the hand-off it returns is taken at once. *)
Definition open_admitted (path : str) (mode : OpenMode) : FM FileHandle :=
  let! _ := reserve in
  let! r := try (on_world (v_open v path mode)) in
  match r with
  | Ok handle =>
      let! s := sget in
      let! _ := sput (set_fs_files ({[handle]} ∪ fs_files s) s) in
      let! c := is_cancelled in
      if (c : bool) then
        let! _ := remove_file handle in
        finally (let! _ := ignore (on_world (v_abort v handle)) in sfail EIO) release
      else sret handle
  | Err e => let! _ := release in sfail e
  | Panic => slift Panic
  | OutOfFuel => slift OutOfFuel
  end.

Definition fs_open (path : str) (mode : OpenMode) : FM FileHandle :=
  let path := resolve path in
  let! _ := check_path path in
  if is_bin_path path then
    sfail (if bool_decide (path = lit "/bin") then EISDIR
           else if negb (m_write mode) && negb (in_bin (trim_start_matches path (lit "/bin/"))) then ENOENT
           else EACCES)
  else dispatch_path path (open_admitted path mode).

Definition fs_read_at (h : FileHandle) (offset : Z) (buf : bytes) : FM (bytes * Z) :=
  if max_io_bytes <? len buf then sfail EFBIG
  else
    dispatch_handle h false
      (let! (n, buf) := on_world (v_read_at v h offset buf) in
       if len buf <? n then sfail EIO else sret (buf, n)).

Definition fs_write_at (h : FileHandle) (offset : Z) (data : bytes) : FM Z :=
  if max_io_bytes <? len data then sfail EFBIG
  else
    dispatch_handle h false
      (let! n := on_world (v_write_at v h offset data) in
       if len data <? n then sfail EIO else sret n).

Definition fs_truncate (h : FileHandle) (n : Z) : FM unit :=
  dispatch_handle h false (on_world (v_truncate v h n)).

Definition finish (h : FileHandle) (abort : bool) : FM unit :=
  dispatch_handle h true
    (let! _ := remove_file h in
     finally
       (let! a := (if abort then sret true else is_cancelled) in
        if (a : bool) then on_world (v_abort v h) else on_world (v_close v h))
       release).

Definition fs_close (h : FileHandle) : FM unit := finish h false.
Definition fs_abort (h : FileHandle) : FM unit := finish h true.

(** ** Whole files *)

Fixpoint read_loop (fuel : nat) (h : FileHandle) (limit : Z) (out : bytes) : FM bytes :=
  match fuel with
  | O => slift OutOfFuel
  | S fuel =>
      let! _ := check in
      let want := Z.min STREAM_CHUNK_BYTES (saturating_add (saturating_sub limit (len out)) 1) in
      let! (buf, n) := fs_read_at h (len out) (replicate (Z.to_nat want) 0) in
      if n =? 0 then sret out
      else if saturating_sub limit (len out) <? n then sfail EFBIG
      else read_loop fuel h limit (out ++ take (Z.to_nat n) buf)
  end.

(** Every turn but the last reads a byte, and no more than [limit] are kept. *)
Definition read_file_bounded (path : str) (limit : Z) : FM bytes :=
  let path := resolve path in
  let! _ := check_path path in
  if bool_decide (path = lit "/bin") then sfail EISDIR
  else
    match strip_prefix path (lit "/bin/") with
    | Some name => if in_bin name then sret [] else sfail ENOENT
    | None =>
        let limit := Z.min limit (host_input_bytes limits) in
        let! handle := fs_open path read_only in
        finally
          (let! result := try (read_loop (Z.to_nat limit + 2) handle limit []) in
           let! close := try (fs_close handle) in
           match result, close with
           | Ok data, Ok _ => sret data
           | Err e, _ => sfail e
           | _, Err e => sfail e
           | Panic, _ | _, Panic => slift Panic
           | OutOfFuel, _ | _, OutOfFuel => slift OutOfFuel
           end)
          (abandon handle)
    end.

Definition read_file (path : str) : FM bytes := read_file_bounded path (host_input_bytes limits).

(** [data[written..end].to_vec()] with [end = data.len().min(written + CHUNK)]. *)
Definition write_chunk (data : bytes) (written : Z) : bytes :=
  let stop := Z.min (len data) (saturating_add written STREAM_CHUNK_BYTES) in
  take (Z.to_nat (stop - written)) (drop (Z.to_nat written) data).

Fixpoint write_loop (fuel : nat) (h : FileHandle) (data : bytes) (written : Z) : FM unit :=
  match fuel with
  | O => slift OutOfFuel
  | S fuel =>
      if written <? len data then
        let! _ := check in
        let! n := fs_write_at h written (write_chunk data written) in
        if n =? 0 then sfail ENOSPC else write_loop fuel h data (written + n)
      else sret tt
  end.

(** Every turn writes a byte. *)
Definition write_file (path : str) (data : bytes) (append : bool) : FM unit :=
  if host_input_bytes limits <? len data then sfail EFBIG
  else
    let mode := if append then with_append (with_create write_only)
                else with_truncate (with_create write_only) in
    let! handle := fs_open path mode in
    finally
      (let! result := try (write_loop (length data + 1) handle data 0) in
       match result with
       | Err e => let! _ := ignore (fs_abort handle) in sfail e
       | Ok _ => fs_close handle
       | Panic => slift Panic
       | OutOfFuel => slift OutOfFuel
       end)
      (abandon handle).

Definition touch (path : str) : FM unit :=
  let! handle := fs_open path (with_create write_only) in
  finally (fs_close handle) (abandon handle).
End fs.
