(* ===== verification/SandboxFsFacts.v ===== *)
(** * The sandbox filesystem facade: path resolution and handle admission *)

From Stdlib Require Import Ascii String.
From S2P Require Import Prelude RustStr BTreeMap VfsTypes VfsPath VfsIface SandboxFs.

(** ** Resolved paths *)

(** A component as [normalize_absolute] leaves it. *)
Definition part_name (c : str) : Prop :=
  c <> [] /\ c <> lit "." /\ c <> lit ".." /\ contains c (ch "/") = false.

Lemma push_parts_ok parts ps :
  Forall part_name parts -> Forall (fun p => contains p (ch "/") = false) ps ->
  Forall part_name (foldl push_part parts ps).
Proof.
  intros H Hp. revert parts H. induction Hp as [|p ps Hp _ IH]; intros parts H; simpl; [done|].
  apply IH. unfold push_part. destruct (bool_decide (p = []) || bool_decide (p = lit ".")) eqn:H1; [done|].
  unbool. case_bool_decide.
  - rewrite Forall_forall in *. intros x Hx%removelast_incl. auto.
  - apply Forall_app. split; [done|]. by apply Forall_singleton.
Qed.

Lemma normalize_absolute_parts path :
  exists cs, normalize_absolute path = path_of cs /\ Forall part_name cs.
Proof.
  exists (foldl push_part [] (split (ch "/") path)). split.
  - unfold normalize_absolute, path_of. case_bool_decide as H; [by rewrite H|done].
  - apply push_parts_ok; [done|]. apply split_no_sep.
Qed.

Lemma split_path_of cs :
  Forall part_name cs -> split (ch "/") (path_of cs) = [] :: (if decide (cs = []) then [[]] else cs).
Proof.
  intros H. unfold path_of. change (lit "/" ++ ?x) with ([] ++ ch "/" :: x). rewrite split_app_sep by done.
  f_equal. case_decide as Hc; [by subst|]. change (lit "/") with [ch "/"]. apply split_join; [done|].
  eapply Forall_impl; [exact H|]. by intros c (_ & _ & _ & ?).
Qed.

Lemma depth_path_of cs : Forall part_name cs -> depth (path_of cs) = len cs.
Proof.
  intros H. unfold depth. rewrite split_path_of by done. rewrite filter_cons_False by (intros Hn; by apply Hn).
  case_decide as Hc; [by subst|]. f_equal. clear Hc. induction H as [|c cs (Hc & _) _ IH]; [done|].
  rewrite filter_cons_True by done. by rewrite IH.
Qed.

Lemma contains_join_part d cs c : c ∈ cs -> contains c d = true -> contains (join (lit "/") cs) d = true.
Proof.
  induction cs as [|x cs IH]; [by intros ?%not_elem_of_nil|]. intros Hin Hc.
  destruct cs as [|y cs]; [apply list_elem_of_singleton in Hin; by subst|].
  change (join (lit "/") (x :: y :: cs)) with (x ++ lit "/" ++ join (lit "/") (y :: cs)).
  rewrite !contains_app. apply elem_of_cons in Hin as [->|Hin]; [by rewrite Hc|].
  rewrite IH by done. by rewrite !orb_true_r.
Qed.

(** A resolved path without NUL and short enough is read by the VFS as the same
    components. *)
Lemma path_of_normalize cs :
  Forall part_name cs -> contains (path_of cs) (ch NUL) = false -> depth (path_of cs) <= 256 ->
  path_ok cs /\ normalize_path (path_of cs) = Ok cs.
Proof.
  intros Hcs Hnul Hd. rewrite depth_path_of in Hd by done.
  assert (path_ok cs) as Hok.
  { split.
    - rewrite Forall_forall in *. intros c Hc. destruct (Hcs c Hc) as (? & ? & ? & ?).
      repeat (split; [done|]). destruct (contains c (ch NUL)) eqn:Hn; [|done].
      unfold path_of in Hnul. rewrite contains_app, (contains_join_part _ _ _ Hc Hn), orb_true_r in Hnul. done.
    - unfold len in Hd. Transparent MAX_PATH_DEPTH. unfold MAX_PATH_DEPTH. lia. }
  split; [done|]. by apply normalize_path_of.
Qed.
#[global] Opaque MAX_PATH_DEPTH.

(** The overlay is selected by the first component, however the path was
    spelled. *)
Lemma is_bin_path_of cs :
  Forall part_name cs -> is_bin_path (path_of cs) = true <-> exists rest, cs = lit "bin" :: rest.
Proof.
  intros H. unfold is_bin_path. split.
  - intros [Hb|Hb]%orb_true_iff.
    + apply bool_decide_eq_true in Hb. apply (f_equal (split (ch "/"))) in Hb.
      rewrite split_path_of in Hb by done. change (split (ch "/") (lit "/bin")) with [[]; lit "bin"] in Hb.
      destruct cs as [|c cs]; [done|]. simpl in Hb. injection Hb as -> ->. eauto.
    + destruct (proj1 (starts_with_app _ _) Hb) as [r Hr]. apply (f_equal (split (ch "/"))) in Hr.
      rewrite split_path_of in Hr by done.
      change (lit "/bin/" ++ r) with ([] ++ ch "/" :: (lit "bin" ++ ch "/" :: r)) in Hr.
      rewrite !split_app_sep in Hr by done. destruct cs as [|c cs]; [done|]. simpl in Hr. injection Hr as -> _. eauto.
  - intros [rest ->]. destruct rest as [|c rest]; [done|]. apply orb_true_iff. right.
    change (path_of (lit "bin" :: c :: rest)) with (lit "/bin/" ++ join (lit "/") (c :: rest)).
    apply starts_with_prefix.
Qed.

(** ** Handle admission *)

Section combinators.
Context {W : Type}.
Implicit Types (s : FsState W).

Lemma wp_ignore {A} (m : ST (FsState W) Errno A) s (Q : unit -> FsState W -> Prop) R :
  wp m s (fun _ s' => Q tt s') (fun _ s' => Q tt s') -> wp (ignore m) s Q R.
Proof. unfold wp, ignore. by destruct (m s) as [[] ?]. Qed.

Lemma wp_try {A} (m : ST (FsState W) Errno A) s (Q : outcome Errno A -> FsState W -> Prop) R :
  wp m s (fun a s' => Q (Ok a) s') (fun e s' => Q (Err e) s') -> wp (try m) s Q R.
Proof. unfold wp, try. by destruct (m s) as [[] ?]. Qed.

Lemma wp_finally {A} (m : ST (FsState W) Errno A) fin s (Q : A -> FsState W -> Prop) R :
  wp m s (fun a s' => wp fin s' (fun _ s'' => Q a s'') (fun _ _ => False))
         (fun e s' => wp fin s' (fun _ s'' => R e s'') (fun _ _ => False)) ->
  wp (finally m fin) s Q R.
Proof.
  unfold wp, finally, sbind, sret, sfail. destruct (m s) as [[a|e| |] s1]; try done;
    destruct (fin s1) as [[] ?]; done.
Qed.

Lemma wp_on_world {A} (m : ST W Errno A) s (Q : A -> FsState W -> Prop) (R : Errno -> FsState W -> Prop) :
  wp m (fs_world s)
     (fun a w' => Q a (mkFsState w' (fs_files s) (pool_open s) (exec_open s) (clock s)))
     (fun e w' => R e (mkFsState w' (fs_files s) (pool_open s) (exec_open s) (clock s))) ->
  wp (on_world m) s Q R.
Proof. unfold wp, on_world. by destruct (m (fs_world s)) as [[] ?]. Qed.
End combinators.

Section admission.
Context {W : Type} (I Room : W -> Prop) (owned : W -> gset Z) (v : Vfs W).
Context `{Hv : !OwnerLaws I Room owned v}.
Context (bin_commands : list str) (cwd : str) (limits : Limits) (cap : Z) (scoped : bool)
  (cancelled_at : nat -> bool).
(** The open files of the other registries that share the counters. *)
Context (others_pool others_exec : Z).
Context (Hp : 0 <= others_pool) (He : 0 <= others_exec) (Hcap : cap <= USIZE_MAX)
  (Hmax : max_open_files limits <= USIZE_MAX).

(** The counters are what the registries hold, and [extra] admissions are held
    by the operation in progress. *)
Record FsInvx (extra : Z) (s : FsState W) : Prop := {
  fsi_world : I (fs_world s);
  fsi_owned : fs_files s ⊆ owned (fs_world s);
  fsi_pool : pool_open s = others_pool + Z.of_nat (size (fs_files s)) + extra;
  fsi_pool_max : pool_open s <= cap;
  fsi_exec : scoped = true -> exec_open s = others_exec + Z.of_nat (size (fs_files s)) + extra
                              /\ exec_open s <= max_open_files limits
}.
Abbreviation FsInv := (FsInvx 0).

Abbreviation safe m s := (wp m s (fun _ s' => FsInv s') (fun _ s' => FsInv s')).

(** Only the clock moved. *)
Definition ticked (s s' : FsState W) : Prop :=
  fs_world s' = fs_world s /\ fs_files s' = fs_files s /\ pool_open s' = pool_open s
  /\ exec_open s' = exec_open s.

Lemma ticked_inv k s s' : ticked s s' -> FsInvx k s -> FsInvx k s'.
Proof.
  intros (H1 & H2 & H3 & H4) [G1 G2 G3 G4 G5].
  constructor; rewrite ?H1, ?H2, ?H3, ?H4; done.
Qed.

(** The execution was found cancelled or out of time. *)
Definition cancelled_seen : Prop := scoped = true /\ exists n, cancelled_at n = true.

Lemma wp_check s (Q : unit -> FsState W -> Prop) (R : Errno -> FsState W -> Prop) :
  (forall s', ticked s s' -> Q tt s') -> (forall s', ticked s s' -> cancelled_seen -> R EIO s') ->
  wp (check scoped cancelled_at) s Q R.
Proof.
  intros HQ HR. unfold check. destruct scoped eqn:Hsc; [|by apply HQ].
  unfold control_check. wp_step. unfold wp, control_is_cancelled.
  destruct (cancelled_at (clock s)) eqn:Hc; [apply HR; [done|split; eauto]|by apply HQ].
Qed.

Lemma wp_is_cancelled s (Q : bool -> FsState W -> Prop) (R : Errno -> FsState W -> Prop) :
  (forall b s', ticked s s' -> Q b s') -> wp (is_cancelled scoped cancelled_at) s Q R.
Proof. intros HQ. unfold is_cancelled. destruct scoped; by apply HQ. Qed.

Lemma wp_check_path path s (Q : unit -> FsState W -> Prop) (R : Errno -> FsState W -> Prop) :
  (forall s', ticked s s' ->
     contains path (ch NUL) = false -> depth path <= Z.min (max_path_depth limits) 256 -> Q tt s') ->
  (forall e s', ticked s s' -> R e s') ->
  wp (check_path limits scoped cancelled_at path) s Q R.
Proof.
  intros HQ HR. unfold check_path. wp_step. apply wp_check; [|auto]. intros s' Hs. wp_step; [by apply HR|].
  wp_steps. auto.
Qed.

Lemma wp_dispatch {A} fast cleanup (op : ST (FsState W) Errno A) s (Q : A -> FsState W -> Prop) R :
  (forall s', ticked s s' -> wp op s' Q R) ->
  (cleanup = false -> forall s', ticked s s' -> cancelled_seen -> R EIO s') ->
  wp (dispatch scoped cancelled_at fast cleanup op) s Q R.
Proof.
  intros Hop HR. unfold dispatch. wp_step. destruct cleanup; simpl.
  - wp_steps; [by apply Hop|]. by apply Hop.
  - apply wp_check; [|auto]. intros s1 H1. wp_step; [by apply Hop|]. wp_step.
    change (if scoped then _ else _) with (check (W := W) scoped cancelled_at).
    assert (forall s2, ticked s1 s2 -> ticked s s2) as Ht.
    { destruct H1 as (?&?&?&?). intros s2 (?&?&?&?). repeat split; congruence. }
    apply wp_check; [intros; by apply Hop, Ht|intros; by apply HR; [|apply Ht|]].
Qed.

(** ** Admission counters *)

Lemma mod_dec n : 0 < n <= USIZE_MAX -> (n - 1) mod 2 ^ 64 = n - 1.
Proof. intros H. apply Z.mod_small. unfold USIZE_MAX in H. lia. Qed.

Lemma release_inv k s :
  0 <= k -> FsInvx (k + 1) s ->
  wp (release scoped) s (fun _ s' => FsInvx k s') (fun _ _ => False).
Proof.
  intros Hk [G1 G2 G3 G4 G5]. unfold release, pool_release_file, control_release_file. wp_steps.
  - destruct (G5 eq_refl) as [G6 G7]. constructor; simpl; rewrite ?mod_dec by lia; try done; lia.
  - constructor; simpl; rewrite ?mod_dec by lia; try done; try lia. congruence.
Qed.

Lemma control_acquire_spec s :
  wp (control_acquire_file limits cancelled_at) s
     (fun _ s' => fs_world s' = fs_world s /\ fs_files s' = fs_files s /\ pool_open s' = pool_open s
                  /\ exec_open s' = exec_open s + 1 /\ exec_open s + 1 <= max_open_files limits)
     (fun _ s' => ticked s s').
Proof.
  unfold control_acquire_file, control_check. wp_steps. unfold wp at 1, control_is_cancelled.
  wp_step; [done|]. wp_steps; [|done]. simpl in *. repeat split; lia.
Qed.

Lemma reserve_inv s :
  FsInv s ->
  wp (reserve limits cap scoped cancelled_at) s
     (fun _ s' => FsInvx 1 s' /\ fs_world s' = fs_world s)
     (fun _ s' => FsInv s').
Proof.
  intros HI. pose proof HI as [G1 G2 G3 G4 G5]. unfold reserve, pool_acquire_file. wp_steps; try done.
  - destruct (G5 eq_refl) as [G6 G7]. apply wp_try. eapply wp_mono; [apply control_acquire_spec|..].
    + intros _ s' (H1 & H2 & H3 & H4 & H5). wp_steps. simpl in *. split; [|done].
      constructor; rewrite ?H1, ?H2, ?H3; try done; lia.
    + intros e s' (H1 & H2 & H3 & H4). unfold pool_release_file. wp_steps. simpl in *.
      constructor; simpl; rewrite ?H1, ?H2, ?H3, ?mod_dec by lia; try done; lia.
  - split; [|done]. constructor; simpl; try done; try lia. congruence.
Qed.

(** ** The registry *)

Lemma fs_remove_file_spec h k s :
  FsInvx k s ->
  wp (remove_file h) s
     (fun _ s' => FsInvx (k + 1) s' /\ (h ∉ fs_files s') /\ h ∈ owned (fs_world s')) (fun _ s' => FsInvx k s').
Proof.
  intros HI. pose proof HI as [G1 G2 G3 G4 G5]. unfold remove_file. do 2 wp_step. case_decide as Hh; [|done].
  wp_steps. simpl. split; [|set_solver].
  assert (Z.of_nat (size (fs_files s ∖ {[h]})) = Z.of_nat (size (fs_files s)) - 1) as Hs.
  { rewrite size_difference by set_solver. rewrite size_singleton.
    assert (size (fs_files s) <> 0)%nat; [|lia]. intros Hz%size_empty_inv. set_solver. }
  constructor; simpl; rewrite ?Hs; try done; try lia; [set_solver|].
  intros Hsc. destruct (G5 Hsc). split; lia.
Qed.

(** A method that leaves the handles alone. *)
Lemma on_world_keeps {A} (m : ST W Errno A) k s :
  FsInvx k s -> (forall w, I w -> keeps_fds I owned m w) ->
  wp (on_world m) s (fun _ s' => FsInvx k s') (fun _ s' => FsInvx k s').
Proof.
  intros [G1 G2 G3 G4 G5] Hm. apply wp_on_world.
  eapply wp_mono; [by apply Hm|..]; intros ? w' [? Ho]; constructor; simpl; try done; by rewrite Ho.
Qed.

(** [close] or [abort] of a handle the registry no longer holds. *)
Lemma on_world_consumes (m : ST W Errno unit) h k s :
  FsInvx k s -> h ∉ fs_files s -> h ∈ owned (fs_world s) ->
  (forall w, I w -> h ∈ owned w -> wp m w (fun _ w' => I w' /\ owned w' = owned w ∖ {[h]})
                                     (fun _ w' => I w' /\ owned w' = owned w ∖ {[h]})) ->
  wp (on_world m) s (fun _ s' => FsInvx k s') (fun _ s' => FsInvx k s').
Proof.
  intros [G1 G2 G3 G4 G5] Hh Hin Hm. apply wp_on_world.
  eapply wp_mono; [by apply Hm|..]; intros ? w' [? Ho]; constructor; simpl; try done; rewrite Ho; set_solver.
Qed.

Lemma cleanup_handle_inv h k s :
  0 <= k -> FsInvx (k + 1) s -> h ∉ fs_files s -> h ∈ owned (fs_world s) ->
  wp (cleanup_handle v scoped h) s (fun _ s' => FsInvx k s') (fun _ _ => False).
Proof.
  intros Hk HI Hh Hin. unfold cleanup_handle. wp_step. apply wp_ignore.
  eapply wp_mono; [apply (on_world_consumes _ h (k + 1)); [done|done|done|by apply (own_abort I Room owned)]|..];
    intros ? s' Hs'; apply (release_inv k s' Hk Hs').
Qed.

Lemma abandon_inv h s :
  FsInv s -> wp (abandon v scoped h) s (fun _ s' => FsInv s') (fun _ _ => False).
Proof.
  intros HI. unfold abandon. do 2 wp_step. case_decide as Hh; [|done].
  pose proof (fs_remove_file_spec h 0 s HI) as H. unfold remove_file, wp, sbind, sget in H. rewrite decide_True in H by done.
  destruct H as (H1 & H2 & H3). wp_steps. by apply cleanup_handle_inv.
Qed.

Lemma open_admitted_inv path mode s :
  FsInv s -> Room (fs_world s) ->
  wp (open_admitted v limits cap scoped cancelled_at path mode) s
     (fun h s' => FsInv s' /\ h ∈ fs_files s') (fun _ s' => FsInv s').
Proof.
  intros HI Hroom. unfold open_admitted. wp_step.
  eapply wp_mono; [by apply reserve_inv| |done]. intros _ s1 [HI1 Hw1]. wp_step. apply wp_try, wp_on_world.
  pose proof HI1 as [G1 G2 G3 G4 G5]. rewrite <- Hw1 in Hroom.
  eapply wp_mono; [by apply (own_open I Room owned path mode _ G1 Hroom)|..].
  - intros h w' (Hw & Hnew & Hown). wp_steps. set (s2 := set_fs_files _ _).
    assert (FsInv s2) as HI2.
    { assert (Z.of_nat (size ({[h]} ∪ fs_files s1)) = Z.of_nat (size (fs_files s1)) + 1) as Hsz.
      { rewrite size_union by set_solver. rewrite size_singleton. lia. }
      constructor; simpl; rewrite ?Hsz; try done; try lia; [rewrite Hown; set_solver|].
      intros Hsc. destruct (G5 Hsc). split; lia. }
    apply wp_is_cancelled. intros b s3 Ht. pose proof (ticked_inv _ _ _ Ht HI2) as HI3.
    destruct b; wp_steps.
    + eapply wp_mono; [by apply fs_remove_file_spec| |done]. intros _ s4 (HI4 & Hh4 & Hin4).
      apply wp_finally. wp_step. apply wp_ignore.
      eapply wp_mono; [apply (on_world_consumes _ h (0 + 1)); [done|done|done|by apply (own_abort I Room owned)]|..];
        intros ? s5 HI5; wp_steps; by apply release_inv.
    + split; [done|]. destruct Ht as (_ & -> & _). simpl. set_solver.
  - intros e w' [Hw Hown]. wp_step. set (s2 := mkFsState w' _ _ _ _).
    assert (FsInvx (0 + 1) s2) as HI2 by (constructor; simpl; try done; by rewrite Hown).
    eapply wp_mono; [by apply (release_inv 0 s2)| |done]. intros [] s3 HI3. by wp_steps.
Qed.

Lemma finish_inv h abort s : FsInv s -> safe (finish v scoped cancelled_at h abort) s.
Proof.
  intros HI. unfold finish, dispatch_handle. wp_steps. apply wp_dispatch; [|done].
  intros s1 Ht. pose proof (ticked_inv _ _ _ Ht HI) as HI1. wp_step.
  eapply wp_mono; [by apply fs_remove_file_spec| |done]. intros _ s2 (HI2 & Hh2 & Hin2). apply wp_finally. wp_step.
  assert (forall (b : bool) s3, ticked s2 s3 ->
    wp (if b then on_world (v_abort v h) else on_world (v_close v h)) s3
       (fun _ s' => FsInvx (0 + 1) s') (fun _ s' => FsInvx (0 + 1) s')) as Hrun.
  { intros b s3 Ht3. pose proof (ticked_inv _ _ _ Ht3 HI2) as HI3.
    assert ((h ∉ fs_files s3) /\ h ∈ owned (fs_world s3)) as [? ?] by (by destruct Ht3 as (-> & -> & _)).
    destruct b; (eapply on_world_consumes; [done|done|done|]); [by apply (own_abort I Room owned)|by apply (own_close I Room owned)]. }
  assert (forall (b : bool) s3, ticked s2 s3 ->
    wp (if b then on_world (v_abort v h) else on_world (v_close v h)) s3
       (fun a s' => wp (release scoped) s' (fun _ s'' => FsInv s'') (fun _ _ => False))
       (fun e s' => wp (release scoped) s' (fun _ s'' => FsInv s'') (fun _ _ => False))) as Hrel.
  { intros b s3 Ht3. eapply wp_mono; [by apply Hrun|..]; intros ? s' Hs'; by apply release_inv. }
  destruct abort; [wp_steps; by apply (Hrel true)|].
  apply wp_is_cancelled. intros b s3 Ht3. by apply Hrel.
Qed.

Lemma fs_open_inv path mode s :
  FsInv s -> Room (fs_world s) ->
  wp (fs_open v bin_commands cwd limits cap scoped cancelled_at path mode) s
     (fun h s' => FsInv s' /\ h ∈ fs_files s') (fun _ s' => FsInv s').
Proof.
  intros HI Hroom. unfold fs_open. cbv zeta. wp_step. apply wp_check_path.
  2: { intros e s' Ht. by eapply ticked_inv. }
  intros s1 Ht1 _ _. pose proof (ticked_inv _ _ _ Ht1 HI) as HI1. wp_step; [done|].
  unfold dispatch_path. wp_step. apply wp_check_path.
  2: { intros e s' Ht. by eapply ticked_inv. }
  intros s2 Ht2 _ _. pose proof (ticked_inv _ _ _ Ht2 HI1) as HI2. apply wp_dispatch.
  2: { intros _ s' Ht _. by eapply ticked_inv. }
  intros s3 Ht3. pose proof (ticked_inv _ _ _ Ht3 HI2) as HI3. apply open_admitted_inv; [done|].
  destruct Ht1 as (E1 & _), Ht2 as (E2 & _), Ht3 as (E3 & _). by rewrite E3, E2, E1.
Qed.

(** ** Path operations *)

(** Checked and dispatched, as every path operation is. *)
Lemma dispatch_path_inv {A} path (m : ST W Errno A) s :
  FsInv s -> (forall w, I w -> keeps_fds I owned m w) ->
  safe (dispatch_path v limits scoped cancelled_at path (on_world m)) s.
Proof.
  intros HI Hm. unfold dispatch_path. wp_step. apply wp_check_path.
  2: { intros e s' Ht. by eapply ticked_inv. }
  intros s1 Ht1 _ _. pose proof (ticked_inv _ _ _ Ht1 HI) as HI1. apply wp_dispatch.
  2: { intros _ s' Ht _. by eapply ticked_inv. }
  intros s2 Ht2. apply on_world_keeps; [by eapply ticked_inv|done].
Qed.

Lemma check_path_inv {A} path (k : ST (FsState W) Errno A) s :
  FsInv s -> (forall s', FsInv s' -> safe k s') ->
  safe (let! _ := check_path limits scoped cancelled_at path in k) s.
Proof.
  intros HI Hk. wp_step. apply wp_check_path.
  - intros s' Ht _ _. apply Hk. by eapply ticked_inv.
  - intros e s' Ht. by eapply ticked_inv.
Qed.

Lemma fs_stat_inv path s :
  FsInv s -> safe (fs_stat v bin_commands cwd limits scoped cancelled_at path) s.
Proof.
  intros HI. unfold fs_stat. cbv zeta. apply check_path_inv; [done|]. intros s1 HI1.
  destruct (bin_stat _ _) as [m|] eqn:Hb.
  - unfold bin_stat in Hb. repeat case_match; simplify_eq; done.
  - apply dispatch_path_inv; [done|]. intros w Hw. by apply (own_stat I Room owned).
Qed.

Lemma fs_readdir_inv path s :
  FsInv s -> safe (fs_readdir v bin_commands cwd limits scoped cancelled_at path) s.
Proof.
  intros HI. unfold fs_readdir. cbv zeta. apply check_path_inv; [done|]. intros s1 HI1. wp_step; [wp_step|].
  - eapply wp_mono; [apply dispatch_path_inv; [done|]; intros w Hw; by apply (own_readdir I Room owned)|..];
      intros; by wp_steps.
  - wp_step; [by wp_steps|]. wp_step; [done|]. apply dispatch_path_inv; [done|].
    intros w Hw. by apply (own_readdir I Room owned).
Qed.

Lemma fs_mkdir_inv path s : FsInv s -> safe (fs_mkdir v cwd limits scoped cancelled_at path) s.
Proof.
  intros HI. unfold fs_mkdir. cbv zeta. apply check_path_inv; [done|]. intros s1 HI1. wp_step; [done|].
  apply dispatch_path_inv; [done|]. intros w Hw. by apply (own_mkdir I Room owned).
Qed.

Lemma fs_unlink_inv path s : FsInv s -> safe (fs_unlink v cwd limits scoped cancelled_at path) s.
Proof.
  intros HI. unfold fs_unlink. cbv zeta. apply check_path_inv; [done|]. intros s1 HI1. wp_step; [done|].
  apply dispatch_path_inv; [done|]. intros w Hw. by apply (own_unlink I Room owned).
Qed.

Lemma fs_rmdir_inv path s : FsInv s -> safe (fs_rmdir v cwd limits scoped cancelled_at path) s.
Proof.
  intros HI. unfold fs_rmdir. cbv zeta. apply check_path_inv; [done|]. intros s1 HI1. wp_step; [done|].
  apply dispatch_path_inv; [done|]. intros w Hw. by apply (own_rmdir I Room owned).
Qed.

Lemma fs_rename_inv a b s : FsInv s -> safe (fs_rename v cwd limits scoped cancelled_at a b) s.
Proof.
  intros HI. unfold fs_rename. cbv zeta. wp_step; [done|]. apply check_path_inv; [done|]. intros s1 HI1.
  apply check_path_inv; [done|]. intros s2 HI2. apply wp_dispatch.
  - intros s3 Ht. apply on_world_keeps; [by eapply ticked_inv|]. intros w Hw. by apply (own_rename I Room owned).
  - intros _ s' Ht _. by eapply ticked_inv.
Qed.

(** ** Reads and writes *)

Lemma dispatch_handle_inv {A} h (op : ST (FsState W) Errno A) s (Q : A -> FsState W -> Prop) :
  FsInv s -> (forall s', FsInv s' -> wp op s' Q (fun _ s' => FsInv s')) ->
  wp (dispatch_handle v scoped cancelled_at h false op) s Q (fun _ s' => FsInv s').
Proof.
  intros HI Hop. unfold dispatch_handle. do 2 wp_step. apply wp_dispatch.
  - intros s' Ht. apply Hop. by eapply ticked_inv.
  - intros _ s' Ht _. by eapply ticked_inv.
Qed.

Lemma fs_read_at_inv h o b s :
  FsInv s ->
  wp (fs_read_at v limits scoped cancelled_at h o b) s
     (fun r s' => FsInv s' /\ length r.1 = length b /\ 0 <= r.2 <= len b) (fun _ s' => FsInv s').
Proof.
  intros HI. unfold fs_read_at. wp_step; [done|]. apply dispatch_handle_inv; [done|].
  intros s1 [G1 G2 G3 G4 G5]. wp_step. apply wp_on_world.
  eapply wp_mono; [by apply (own_read_at I Room owned)|..].
  - intros [n b'] w' [[Hw Ho] [Hn Hl]]. simpl in *.
    assert (FsInv (mkFsState w' (fs_files s1) (pool_open s1) (exec_open s1) (clock s1))) as HI'
      by (constructor; simpl; try done; by rewrite Ho).
    wp_step; [done|]. wp_steps. simpl. split; [done|]. split; [done|]. unfold len in *. lia.
  - intros e w' [Hw Ho]. constructor; simpl; try done. by rewrite Ho.
Qed.

Lemma fs_write_at_inv h o b s :
  FsInv s ->
  wp (fs_write_at v limits scoped cancelled_at h o b) s
     (fun n s' => FsInv s' /\ 0 <= n <= len b) (fun _ s' => FsInv s').
Proof.
  intros HI. unfold fs_write_at. wp_step; [done|]. apply dispatch_handle_inv; [done|].
  intros s1 [G1 G2 G3 G4 G5]. wp_step. apply wp_on_world.
  eapply wp_mono; [by apply (own_write_at I Room owned)|..].
  - intros n w' [[Hw Ho] Hn].
    assert (FsInv (mkFsState w' (fs_files s1) (pool_open s1) (exec_open s1) (clock s1))) as HI'
      by (constructor; simpl; try done; by rewrite Ho).
    wp_step; [done|]. wp_steps. simpl. split; [done|]. lia.
  - intros e w' [Hw Ho]. constructor; simpl; try done. by rewrite Ho.
Qed.

Lemma fs_truncate_inv h n s : FsInv s -> safe (fs_truncate v scoped cancelled_at h n) s.
Proof.
  intros HI. unfold fs_truncate. apply dispatch_handle_inv; [done|]. intros s1 HI1.
  apply on_world_keeps; [done|]. intros w Hw. by apply (own_truncate I Room owned).
Qed.

(** ** Whole files *)

(** The read loop ends: the output grows and stays within the limit. *)
Lemma read_loop_inv fuel h limit out s :
  FsInv s -> len out <= Z.max 0 limit -> Z.max 0 limit - len out < Z.of_nat fuel ->
  safe (read_loop v limits scoped cancelled_at fuel h limit out) s.
Proof.
  revert out s. induction fuel as [|fuel IH]; intros out s HI Hout Hf; [lia|]. cbn [read_loop]. wp_step.
  apply wp_check; [|intros; by eapply ticked_inv]. intros s1 Ht1.
  pose proof (ticked_inv _ _ _ Ht1 HI) as HI1. cbv zeta. wp_step.
  eapply wp_mono; [by apply fs_read_at_inv| |done]. intros [b n] s2 (HI2 & Hl & Hn). simpl in Hl, Hn.
  wp_step; [done|]. wp_step; [done|]. unfold saturating_sub in *.
  assert (len (out ++ take (Z.to_nat n) b) = len out + n) as Hlen.
  { rewrite len_app. unfold len in *. rewrite length_take, Hl. lia. }
  apply IH; [done|rewrite Hlen; lia|rewrite Hlen; lia].
Qed.

Lemma write_chunk_len data written :
  0 <= written <= len data -> len (write_chunk data written) <= len data - written.
Proof. intros H. unfold write_chunk, len in *. rewrite length_take, length_drop. lia. Qed.

(** The write loop ends: every turn writes a byte. *)
Lemma write_loop_inv fuel h data written s :
  FsInv s -> 0 <= written <= len data -> len data - written < Z.of_nat fuel ->
  safe (write_loop v limits scoped cancelled_at fuel h data written) s.
Proof.
  revert written s. induction fuel as [|fuel IH]; intros written s HI Hw Hf; cbn [write_loop]; [lia|].
  wp_step; [|done]. wp_step. apply wp_check; [|intros; by eapply ticked_inv]. intros s1 Ht1.
  pose proof (ticked_inv _ _ _ Ht1 HI) as HI1. wp_step.
  eapply wp_mono; [by apply fs_write_at_inv| |done]. intros n s2 (HI2 & Hn).
  wp_step; [done|]. pose proof (write_chunk_len data written Hw). apply IH; [done|lia|lia].
Qed.

(** The guard of an open handle: whatever happened to it, the handle is released. *)
Lemma finally_abandon {A} (m : ST (FsState W) Errno A) h s :
  safe m s -> safe (finally m (abandon v scoped h)) s.
Proof.
  intros Hm. apply wp_finally. eapply wp_mono; [exact Hm|..]; intros ? s' HI; by apply abandon_inv.
Qed.

Lemma read_file_bounded_inv path limit s :
  FsInv s -> Room (fs_world s) ->
  safe (read_file_bounded v bin_commands cwd limits cap scoped cancelled_at path limit) s.
Proof.
  intros HI Hroom. unfold read_file_bounded. cbv zeta. wp_step. apply wp_check_path.
  2: { intros e s' Ht. by eapply ticked_inv. }
  intros s1 Ht1 _ _. pose proof (ticked_inv _ _ _ Ht1 HI) as HI1. wp_step; [done|].
  destruct (strip_prefix _ _); [wp_step; done|]. wp_step.
  eapply wp_mono; [apply fs_open_inv; [done|by destruct Ht1 as (-> & _)]| |done].
  intros h s2 [HI2 _]. apply finally_abandon. wp_step. apply wp_try.
  assert (forall (r : outcome Errno bytes) s3, FsInv s3 -> returns r ->
    safe (let! close := try (fs_close v scoped cancelled_at h) in
          match r, close with
          | Ok data, Ok _ => sret data
          | Err e, _ => sfail e
          | _, Err e => sfail e
          | Panic, _ | _, Panic => slift Panic
          | OutOfFuel, _ | _, OutOfFuel => slift OutOfFuel
          end) s3) as Hend.
  { intros r s3 HI3 Hr. wp_step. apply wp_try.
    eapply wp_mono; [by apply finish_inv|..]; intros ? s4 HI4; by destruct r. }
  eapply wp_mono; [apply read_loop_inv; [done|unfold len; simpl; lia|unfold len; simpl; lia]|..].
  - intros a s3 HI3. by apply (Hend (Ok a)).
  - intros e s3 HI3. by apply (Hend (Err e)).
Qed.

Lemma write_file_inv path data append s :
  FsInv s -> Room (fs_world s) ->
  safe (write_file v bin_commands cwd limits cap scoped cancelled_at path data append) s.
Proof.
  intros HI Hroom. unfold write_file. wp_step; [done|]. cbv zeta. wp_step.
  eapply wp_mono; [by apply fs_open_inv| |done]. intros h s1 [HI1 _]. apply finally_abandon. wp_step.
  apply wp_try. pose proof (len_nonneg data).
  eapply wp_mono; [apply write_loop_inv; [done|lia|unfold len; lia]|..].
  - intros [] s2 HI2. by apply finish_inv.
  - intros e s2 HI2. wp_step. apply wp_ignore. eapply wp_mono; [by apply finish_inv|..]; intros; by wp_steps.
Qed.

Lemma touch_inv path s :
  FsInv s -> Room (fs_world s) ->
  safe (touch v bin_commands cwd limits cap scoped cancelled_at path) s.
Proof.
  intros HI Hroom. unfold touch. wp_step. eapply wp_mono; [by apply fs_open_inv| |done].
  intros h s1 [HI1 _]. apply finally_abandon. by apply finish_inv.
Qed.

(** Cancelling an execution gives every admission back. *)
Lemma cleanup_handle_files h s : fs_files (cleanup_handle v scoped h s).2 = fs_files s.
Proof.
  unfold cleanup_handle, ignore, on_world, sbind, pool_release_file, control_release_file.
  destruct (v_abort v h (fs_world s)) as [[] w']; simpl; destruct scoped; done.
Qed.

Lemma cleanup_handle_owned h s :
  I (fs_world s) -> h ∈ owned (fs_world s) ->
  wp (cleanup_handle v scoped h) s (fun _ s' => owned (fs_world s') = owned (fs_world s) ∖ {[h]}) (fun _ _ => False).
Proof.
  intros HI Hin. unfold cleanup_handle, pool_release_file, control_release_file. wp_step. apply wp_ignore, wp_on_world.
  eapply wp_mono; [by apply (own_abort I Room owned)|..]; intros ? w' [_ Ho]; by wp_steps.
Qed.

Lemma cleanup_all_inv hs s :
  FsInvx (Z.of_nat (length hs)) s -> fs_files s = ∅ -> NoDup hs -> (forall h, h ∈ hs -> h ∈ owned (fs_world s)) ->
  wp (cleanup_all v scoped hs) s (fun _ s' => FsInv s' /\ fs_files s' = ∅) (fun _ _ => False).
Proof.
  revert s. induction hs as [|h hs IH]; intros s HI He0 Hnd Hin; [done|]. cbn [cleanup_all]. wp_step.
  apply NoDup_cons in Hnd as [Hh Hnd].
  replace (Z.of_nat (length (h :: hs))) with (Z.of_nat (length hs) + 1) in HI by (simpl; lia).
  pose proof (cleanup_handle_inv h (Z.of_nat (length hs)) s (Nat2Z.is_nonneg _) HI ltac:(rewrite He0; set_solver)
    (Hin h ltac:(by left))) as H.
  pose proof (cleanup_handle_files h s) as Hf.
  pose proof (cleanup_handle_owned h s (fsi_world _ _ HI) (Hin h ltac:(by left))) as Ho.
  unfold wp at 1 in H. unfold wp at 1 in Ho. unfold wp at 1. destruct (cleanup_handle v scoped h s) as [[] s']; try done.
  simpl in Hf. apply IH; [done|by rewrite Hf|done|].
  intros h' Hh'. rewrite Ho. apply elem_of_difference. split; [apply Hin; by right|]. intros ->%elem_of_singleton. done.
Qed.

Lemma abandon_all_inv s :
  FsInv s -> wp (abandon_all v scoped) s (fun _ s' => FsInv s' /\ fs_files s' = ∅) (fun _ _ => False).
Proof.
  intros [G1 G2 G3 G4 G5]. unfold abandon_all. wp_steps. apply cleanup_all_inv; [|done|apply NoDup_elements|].
  2: { intros h Hh%elem_of_elements. by apply G2. }
  assert (Z.of_nat (size (fs_files s)) = Z.of_nat (size (∅ : gset Z)) + Z.of_nat (length (elements (fs_files s))))
    as Hs by (rewrite size_empty; done).
  constructor; cbn [fs_world fs_files pool_open exec_open set_fs_files].
  - exact G1.
  - apply empty_subseteq.
  - lia.
  - exact G4.
  - intros Hsc. destruct (G5 Hsc) as [G6 G7]. lia.
Qed.
End admission.

(** ** Reading whole files through the facade

    The chunked loop of [read_file_bounded] against a handle whose reads behave
    like those of a file. *)

Section read.
Context {W : Type} (v : Vfs W) (limits : Limits) (scoped : bool) (cancelled_at : nat -> bool).

(** The worlds of [P] are those in which [h] is open on a file with contents
    [d]: reads of [h] return [d] there and lead to no other world. *)
Definition reads_as (P : W -> Prop) (h : Z) (d : bytes) : Prop :=
  forall w offset buf, P w -> 0 <= offset <= USIZE_MAX ->
    wp (v_read_at v h offset buf) w (fun r w' => r = read_result d offset buf /\ P w') (fun _ _ => False).

(** Nothing but the clock, and the world within [P], moved. *)
Definition reading (P : W -> Prop) (s s' : FsState W) : Prop :=
  P (fs_world s') /\ fs_files s' = fs_files s /\ pool_open s' = pool_open s /\ exec_open s' = exec_open s.

Lemma ticked_reading P (s1 s2 : FsState W) : P (fs_world s1) -> ticked s1 s2 -> reading P s1 s2.
Proof. intros HP (Hw & ?). unfold reading. by rewrite Hw. Qed.

Lemma reading_trans P (s1 s2 s3 : FsState W) : reading P s1 s2 -> reading P s2 s3 -> reading P s1 s3.
Proof. intros (?&?&?&?) (?&?&?&?). repeat split; congruence. Qed.

Lemma fs_read_at_eq P h d offset buf s (Q : bytes * Z -> FsState W -> Prop) (R : Errno -> FsState W -> Prop) :
  reads_as P h d -> P (fs_world s) -> 0 <= offset <= USIZE_MAX -> len buf <= STREAM_CHUNK_BYTES ->
  (forall s', reading P s s' -> Q ((read_result d offset buf).2, (read_result d offset buf).1) s') ->
  (forall s', reading P s s' -> cancelled_seen scoped cancelled_at -> R EIO s') ->
  wp (fs_read_at v limits scoped cancelled_at h offset buf) s Q R.
Proof.
  intros Hd HP Ho Hb HQ HR. unfold fs_read_at, max_io_bytes.
  destruct (_ <? len buf) eqn:Hlt; unbool; [lia|]. unfold dispatch_handle. do 2 wp_step.
  apply wp_dispatch.
  2: { intros _ s' Ht Hc. apply HR; [by apply ticked_reading|done]. }
  intros s1 (Hw & Hf & Hp & He). wp_step. apply wp_on_world. rewrite Hw.
  eapply wp_mono; [by apply (Hd _ offset buf HP Ho)| |done]. intros [n b] w' [[= -> ->] HP'].
  set (got := take _ _).
  assert (len (got ++ drop (length got) buf) = len buf) as Hl.
  { unfold len, got. rewrite length_app, length_drop, length_take. lia. }
  assert (len got <= len buf) as Hg by (unfold len, got; rewrite length_take; lia).
  rewrite Hl. wp_step; [lia|]. wp_steps. apply HQ. done.
Qed.

(** How the loop ends: with the whole file, with [EFBIG] when the file is
    longer than the limit, or cancelled. *)
Definition read_ends (d : bytes) (limit : Z) (e : Errno) : Prop :=
  (e = EFBIG /\ limit < len d) \/ (e = EIO /\ cancelled_seen scoped cancelled_at).

Lemma take_extend (d : bytes) (k m : nat) : take k d ++ take m (drop k d) = take (k + m) d.
Proof. by rewrite take_take_drop. Qed.

Lemma read_loop_spec P fuel h d limit k s :
  0 <= limit <= USIZE_MAX -> len d <= USIZE_MAX -> reads_as P h d -> P (fs_world s) ->
  Z.of_nat k <= limit -> (k <= length d)%nat -> limit - Z.of_nat k + 1 < Z.of_nat fuel ->
  wp (read_loop v limits scoped cancelled_at fuel h limit (take k d)) s
     (fun out s' => out = d /\ len d <= limit /\ reading P s s')
     (fun e s' => read_ends d limit e /\ reading P s s').
Proof.
  intros Hlim HdU Hd. revert k s. induction fuel as [|fuel IH]; intros k s HP Hk Hkd Hf; [lia|].
  cbn [read_loop]. wp_step. apply wp_check.
  2: { intros s' Ht Hc. split; [by right|by apply ticked_reading]. }
  intros s1 Ht1. cbv zeta. wp_step.
  assert (len (take k d) = Z.of_nat k) as Hout by (unfold len; rewrite length_take; lia).
  rewrite Hout. unfold saturating_sub.
  set (want := Z.min STREAM_CHUNK_BYTES _).
  assert (0 < want <= STREAM_CHUNK_BYTES /\ want <= limit - Z.of_nat k + 1) as [Hwant Hwant2].
  { unfold want, saturating_add, STREAM_CHUNK_BYTES, USIZE_MAX in *. lia. }
  pose proof (ticked_reading P _ _ HP Ht1) as Hr1. assert (P (fs_world s1)) as HP1 by apply Hr1.
  unfold len in HdU. eapply fs_read_at_eq; [done|done|lia|unfold len; rewrite length_replicate; lia|..].
  2: { intros s' Ht Hc. split; [by right|by eapply reading_trans]. }
  intros s2 Ht2. unfold read_result. cbn [fst snd]. rewrite length_replicate, Nat2Z.id.
  set (got := take (Z.to_nat want) (drop k d)).
  assert (length got = Nat.min (Z.to_nat want) (length d - k)) as Hgot
    by (unfold got; by rewrite length_take, length_drop).
  assert (reading P s s2) as Ht by (by eapply reading_trans).
  wp_step.
  - wp_steps. unfold len in *. assert (length d = k) as <- by lia. rewrite take_ge by done.
    split; [done|]. split; [lia|done].
  - wp_step.
    + wp_steps. split; [|done]. left. split; [done|]. unfold len in *. lia.
    + assert (take (Z.to_nat (len got)) (got ++ drop (length got) (replicate (Z.to_nat want) 0)) = got) as ->.
      { unfold len. rewrite Nat2Z.id. apply take_app_length. }
      unfold len in *.
      assert (take k d ++ got = take (k + length got) d) as ->.
      { unfold got. rewrite take_extend, <- (take_extend d k (length _)). unfold got in Hgot. rewrite Hgot.
        rewrite <- (take_extend d k). f_equal. rewrite <- take_take. f_equal. rewrite take_ge; [done|].
        rewrite length_drop. lia. }
      eapply wp_mono; [apply (IH (k + length got)%nat s2)|..].
      * apply Ht2.
      * lia.
      * lia.
      * lia.
      * intros out s' (? & ? & ?). split; [done|]. split; [done|]. by eapply reading_trans.
      * intros e s' (? & ?). split; [done|]. by eapply reading_trans.
Qed.
End read.
