(* ===== verification/SandboxFsFrame.v ===== *)
(** * The facade leaks no handle

    What each operation of the facade does to the set of handles it holds:
    opening adds one, closing and abandoning remove theirs, and everything else,
    the operations on whole files included, leaves the set as it was, also when
    it fails. *)

From Stdlib Require Import Ascii String.
From S2P Require Import Prelude RustStr VfsTypes VfsPath VfsIface SandboxFs SandboxFsFacts.

Section frames.
Context {W : Type} (v : Vfs W).
Context (bin_commands : list str) (cwd : str) (limits : Limits) (cap : Z) (scoped : bool)
  (cancelled_at : nat -> bool).
Abbreviation FM := (ST (FsState W) Errno).

(** [m] leaves the handles outside [X] alone, whatever it returns. *)
Definition frames {A} (X : gset Z) (m : FM A) : Prop :=
  forall s, fs_files (m s).2 ∖ X = fs_files s ∖ X.

Lemma frames_ret {A} X (a : A) : frames X (sret a).
Proof. done. Qed.
Lemma frames_fail {A} X e : frames X (sfail e : FM A).
Proof. done. Qed.
Lemma frames_lift {A} X (o : outcome Errno A) : frames X (slift o : FM A).
Proof. done. Qed.
Lemma frames_get X : frames X (sget : FM (FsState W)).
Proof. done. Qed.

Lemma frames_bind {A B} X (m : FM A) (k : A -> FM B) :
  frames X m -> (forall a, frames X (k a)) -> frames X (sbind m k).
Proof.
  intros Hm Hk s. unfold sbind. specialize (Hm s). destruct (m s) as [[a|e| |] s']; simpl in *; try done.
  by rewrite Hk.
Qed.

Lemma frames_finally {A} X (m : FM A) fin : frames X m -> frames X fin -> frames X (finally m fin).
Proof.
  intros Hm Hf s. unfold finally. specialize (Hm s). destruct (m s) as [[a|e| |] s']; simpl in *; try done;
    rewrite <- Hm; by apply frames_bind.
Qed.

Lemma frames_ignore {A} X (m : FM A) : frames X m -> frames X (ignore m).
Proof. intros Hm s. unfold ignore. specialize (Hm s). by destruct (m s) as [[a|e| |] s']. Qed.

Lemma frames_try {A} X (m : FM A) : frames X m -> frames X (try m).
Proof. intros Hm s. unfold try. specialize (Hm s). by destruct (m s) as [[a|e| |] s']. Qed.

Lemma frames_on_world {A} X (m : ST W Errno A) : frames X (on_world m).
Proof. intros s. unfold on_world. by destruct (m (fs_world s)). Qed.

Lemma frames_check X : frames X (check scoped cancelled_at : FM unit).
Proof.
  intros s. unfold check, control_check, control_is_cancelled, sbind. destruct scoped; [|done]. simpl.
  by destruct (cancelled_at (clock s)).
Qed.

Lemma frames_is_cancelled X : frames X (is_cancelled scoped cancelled_at : FM bool).
Proof. intros s. unfold is_cancelled. by destruct scoped. Qed.

Lemma frames_release X : frames X (release scoped : FM unit).
Proof. intros s. unfold release, pool_release_file, control_release_file, sbind. simpl. by destruct scoped. Qed.

Lemma frames_dispatch {A} X fast cleanup (op : FM A) :
  frames X op -> frames X (dispatch scoped cancelled_at fast cleanup op).
Proof.
  intros Hop. pose proof (frames_check X) as Hc. unfold dispatch. apply frames_bind; [by destruct cleanup|].
  intros _. destruct fast; [done|]. apply frames_bind; [|done]. unfold check in Hc.
  destruct cleanup; [done|]. by destruct scoped.
Qed.

Lemma frames_dispatch_handle {A} X h cleanup (op : FM A) :
  frames X op -> frames X (dispatch_handle v scoped cancelled_at h cleanup op).
Proof. intros Hop. apply frames_bind; [apply frames_get|]. intros s. by apply frames_dispatch. Qed.

Lemma frames_read_at X h offset buf : frames X (fs_read_at v limits scoped cancelled_at h offset buf).
Proof.
  unfold fs_read_at. case_match; [done|]. apply frames_dispatch_handle, frames_bind; [apply frames_on_world|].
  intros [n b]. by case_match.
Qed.

Lemma frames_write_at X h offset data : frames X (fs_write_at v limits scoped cancelled_at h offset data).
Proof.
  unfold fs_write_at. case_match; [done|]. apply frames_dispatch_handle, frames_bind; [apply frames_on_world|].
  intros n. by case_match.
Qed.

Lemma frames_read_loop X fuel h limit out : frames X (read_loop v limits scoped cancelled_at fuel h limit out).
Proof.
  revert out. induction fuel as [|fuel IH]; intros out; [done|]. cbn [read_loop].
  apply frames_bind; [apply frames_check|]. intros _. apply frames_bind; [apply frames_read_at|].
  intros [b n]. case_match; [done|]. case_match; [done|]. apply IH.
Qed.

Lemma frames_write_loop X fuel h data written :
  frames X (write_loop v limits scoped cancelled_at fuel h data written).
Proof.
  revert written. induction fuel as [|fuel IH]; intros written; [done|]. cbn [write_loop].
  case_match; [|done]. apply frames_bind; [apply frames_check|]. intros _.
  apply frames_bind; [apply frames_write_at|]. intros n. case_match; [done|]. apply IH.
Qed.

Lemma frames_remove_file h : frames {[h]} (remove_file h : FM unit).
Proof. intros s. unfold remove_file, sbind. simpl. case_decide; [simpl; set_solver|done]. Qed.

Lemma frames_finish h abort : frames {[h]} (finish v scoped cancelled_at h abort).
Proof.
  apply frames_dispatch_handle, frames_bind; [apply frames_remove_file|]. intros _.
  apply frames_finally; [|apply frames_release].
  apply frames_bind; [destruct abort; [done|apply frames_is_cancelled]|].
  intros []; apply frames_on_world.
Qed.

(** A handle that is closed, aborted or abandoned is no longer held. *)
Lemma finish_files h abort s :
  fs_files (finish v scoped cancelled_at h abort s).2 = fs_files s ∖ {[h]}.
Proof.
  unfold finish, dispatch_handle, dispatch, sbind at 1 2 3. simpl.
  assert (forall s, fs_files ((let! _ := remove_file h in
     finally (let! a := (if abort then sret true else is_cancelled scoped cancelled_at) in
              if (a : bool) then on_world (v_abort v h) else on_world (v_close v h)) (release scoped)) s).2
     = fs_files s ∖ {[h]}) as H.
  { clear s. intros s. unfold sbind at 1, remove_file, sbind at 1. simpl. case_decide; simpl; [|set_solver].
    set (s1 := set_fs_files _ s). change (fs_files s ∖ {[h]}) with (fs_files s1).
    rewrite <- (difference_empty_L (fs_files s1)), <- (difference_empty_L (fs_files (_.2))).
    apply (frames_finally ∅); [|apply frames_release].
    apply frames_bind; [destruct abort; [done|apply frames_is_cancelled]|]. intros []; apply frames_on_world. }
  destruct (v_is_fast_handle v h (fs_world s)); apply H.
Qed.

Lemma abandon_files h s : fs_files (abandon v scoped h s).2 = fs_files s ∖ {[h]}.
Proof.
  unfold abandon, sbind at 1. simpl. case_decide; [|set_solver]. unfold sbind. simpl.
  by rewrite cleanup_handle_files.
Qed.

(** A scope that ends with the handle abandoned holds what it held without it. *)
Lemma finally_abandon_files {A} (m : FM A) h s Q R :
  frames {[h]} m ->
  wp (finally m (abandon v scoped h)) s Q R ->
  wp (finally m (abandon v scoped h)) s (fun a s' => Q a s' /\ fs_files s' = fs_files s ∖ {[h]})
     (fun e s' => R e s' /\ fs_files s' = fs_files s ∖ {[h]}).
Proof.
  intros Hm. specialize (Hm s). unfold wp, finally, sbind. destruct (m s) as [[a|e| |] s1]; try done;
    simpl in Hm; rewrite <- Hm; pose proof (abandon_files h s1) as Ha;
    destruct (abandon v scoped h s1) as [[[]|e'| |] s2]; simpl in *; auto.
Qed.
End frames.

Section leaks.
Context {W : Type} (I Room : W -> Prop) (owned : W -> gset Z) (v : Vfs W).
Context `{Hv : !OwnerLaws I Room owned v}.
Context (bin_commands : list str) (cwd : str) (limits : Limits) (cap : Z) (scoped : bool)
  (cancelled_at : nat -> bool) (others_pool others_exec : Z).
Context (Hp : 0 <= others_pool) (He : 0 <= others_exec) (Hcap : cap <= USIZE_MAX)
  (Hmax : max_open_files limits <= USIZE_MAX).

Abbreviation FsInv := (FsInvx I owned limits cap scoped others_pool others_exec 0).

Lemma reserve_frame (s : FsState W) :
  fs_files (reserve limits cap scoped cancelled_at s).2 = fs_files s
  /\ fs_world (reserve limits cap scoped cancelled_at s).2 = fs_world s.
Proof.
  unfold reserve, pool_acquire_file, control_acquire_file, control_check, control_is_cancelled,
    pool_release_file, try, sbind. simpl.
  destruct (pool_open s <? cap); [|done]. simpl. destruct scoped; [|done]. simpl.
  destruct (cancelled_at (clock s)); [done|]. simpl. by destruct (exec_open s <? max_open_files limits).
Qed.

(** The handles after an attempt to open: the new one joins them, or they are
    as before. *)
Definition open_files (s : FsState W) (r : outcome Errno Z * FsState W) : Prop :=
  match r with
  | (Ok h, s') => fs_files s' = {[h]} ∪ fs_files s /\ (h ∉ fs_files s)
  | (_, s') => fs_files s' = fs_files s
  end.

Lemma open_admitted_files path mode s :
  (forall h w', v_open v path mode (fs_world s) = (Ok h, w') -> h ∉ fs_files s) ->
  open_files s (open_admitted v limits cap scoped cancelled_at path mode s).
Proof.
  intros Hnew. unfold open_admitted, sbind at 1. destruct (reserve_frame s) as [Hf Hw].
  destruct (reserve _ _ _ _ s) as [[[]|e| |] s1]; simpl in Hf, Hw |- *; try done.
  unfold sbind at 1, try, on_world at 1. rewrite Hw.
  destruct (v_open v path mode (fs_world s)) as [[h|e| |] w']; simpl; try done.
  2: { unfold release, pool_release_file, control_release_file, sbind. simpl. destruct scoped; exact Hf. }
  specialize (Hnew h w' eq_refl). unfold sbind at 1 2. simpl. unfold sbind at 1, is_cancelled.
  set (s2 := set_fs_files _ _). assert (fs_files s2 = {[h]} ∪ fs_files s) as H2 by (simpl; by rewrite Hf).
  clearbody s2. destruct scoped; simpl; [|by split].
  destruct (cancelled_at (clock s2)); simpl; [|by split].
  set (s3 := mkFsState _ _ _ _ _). assert (fs_files s3 = {[h]} ∪ fs_files s) as H3 by done. clearbody s3.
  unfold sbind at 1, remove_file, sbind at 1. simpl. rewrite decide_True by set_solver. simpl.
  set (s4 := set_fs_files _ s3). assert (fs_files s4 = fs_files s) as H4 by (simpl; rewrite H3; set_solver).
  assert (fs_files (finally (A := FileHandle) (let! _ := ignore (on_world (v_abort v h)) in sfail EIO) (release true) s4).2
          = fs_files s4) as H5.
  { rewrite <- (difference_empty_L (fs_files s4)), <- (difference_empty_L (fs_files (_.2))).
    apply (frames_finally ∅ (A := FileHandle)); [|apply frames_release].
    apply frames_bind; [apply frames_ignore, frames_on_world|done]. }
  rewrite H4 in H5. unfold finally, sbind in *. clearbody s4.
  destruct (ignore (on_world (v_abort v h)) s4) as [[[]|e| |] s5]; simpl in *; try done;
    by destruct (release true s5) as [[[]|e'| |] s6].
Qed.

Lemma ticked_files (s s' : FsState W) : ticked s s' -> fs_files s' = fs_files s.
Proof. by intros (_ & ? & _). Qed.

Lemma fs_open_files path mode s :
  FsInv s -> Room (fs_world s) ->
  wp (fs_open v bin_commands cwd limits cap scoped cancelled_at path mode) s
     (fun h s' => FsInv s' /\ open_files s (Ok h, s')) (fun e s' => FsInv s' /\ open_files s (Err e, s')).
Proof.
  intros HI Hroom. unfold fs_open. cbv zeta. wp_step. apply wp_check_path.
  2: { intros e s' Ht. split; [by eapply ticked_inv|by apply ticked_files]. }
  intros s1 Ht1 _ _. pose proof (ticked_inv _ _ _ _ _ _ _ _ _ _ Ht1 HI) as HI1.
  wp_step; [split; [done|by apply ticked_files]|].
  unfold dispatch_path. wp_step. apply wp_check_path.
  2: { intros e s' Ht. split; [by eapply ticked_inv|]. simpl. by rewrite (ticked_files _ _ Ht), (ticked_files _ _ Ht1). }
  intros s2 Ht2 _ _. pose proof (ticked_inv _ _ _ _ _ _ _ _ _ _ Ht2 HI1) as HI2. apply wp_dispatch.
  2: { intros _ s' Ht _. split; [by eapply ticked_inv|]. simpl.
       by rewrite (ticked_files _ _ Ht), (ticked_files _ _ Ht2), (ticked_files _ _ Ht1). }
  intros s3 Ht3. pose proof (ticked_inv _ _ _ _ _ _ _ _ _ _ Ht3 HI2) as HI3.
  assert (fs_files s3 = fs_files s) as Hf
    by (by rewrite (ticked_files _ _ Ht3), (ticked_files _ _ Ht2), (ticked_files _ _ Ht1)).
  assert (Room (fs_world s3)) as Hr by (destruct Ht1 as (E1 & _), Ht2 as (E2 & _), Ht3 as (E3 & _); by rewrite E3, E2, E1).
  pose proof (open_admitted_inv I Room owned v limits cap scoped cancelled_at others_pool others_exec
                Hp He Hcap Hmax (resolve cwd path) mode s3 HI3 Hr) as Hi.
  assert (forall h w', v_open v (resolve cwd path) mode (fs_world s3) = (Ok h, w') -> h ∉ fs_files s3) as Hnew.
  { intros h w' Ho. pose proof (own_open I Room owned (resolve cwd path) mode _ (fsi_world _ _ _ _ _ _ _ _ _ HI3) Hr) as Hl.
    destruct (wp_Ok _ _ _ _ _ _ Hl Ho) as (_ & Hn & _). pose proof (fsi_owned _ _ _ _ _ _ _ _ _ HI3). set_solver. }
  pose proof (open_admitted_files _ _ _ Hnew) as Ho. unfold wp in *. unfold open_files in *. rewrite Hf in Ho.
  destruct (open_admitted _ _ _ _ _ _ _ s3) as [[h|e| |] s']; try done. split; [apply Hi|done].
Qed.

(** The body of a whole-file operation, run on the handle it opened: its
    registry is as before the opening. *)
Lemma with_open_file {A} path mode (body : FileHandle -> ST (FsState W) Errno A) s :
  FsInv s -> Room (fs_world s) -> (forall h, frames {[h]} (body h)) ->
  (forall h s', FsInv s' -> wp (body h) s' (fun _ s' => FsInv s') (fun _ s' => FsInv s')) ->
  wp (let! h := fs_open v bin_commands cwd limits cap scoped cancelled_at path mode in
      finally (body h) (abandon v scoped h)) s
     (fun _ s' => FsInv s' /\ fs_files s' = fs_files s) (fun _ s' => FsInv s' /\ fs_files s' = fs_files s).
Proof.
  intros HI Hroom Hf Hsafe. wp_step. eapply wp_mono; [by apply fs_open_files| |done].
  intros h s1 [HI1 [Hfiles Hnew]].
  assert (fs_files s1 ∖ {[h]} = fs_files s) as <- by (rewrite Hfiles; set_solver).
  apply finally_abandon_files; [done|]. eapply (finally_abandon I Room owned v limits cap scoped
    others_pool others_exec); [done..|]. by apply Hsafe.
Qed.

Lemma read_file_bounded_files path limit s :
  FsInv s -> Room (fs_world s) ->
  wp (read_file_bounded v bin_commands cwd limits cap scoped cancelled_at path limit) s
     (fun _ s' => FsInv s' /\ fs_files s' = fs_files s) (fun _ s' => FsInv s' /\ fs_files s' = fs_files s).
Proof.
  intros HI Hroom. unfold read_file_bounded. cbv zeta. wp_step. apply wp_check_path.
  2: { intros e s' Ht. split; [by eapply ticked_inv|by apply ticked_files]. }
  intros s1 Ht _ _. pose proof (ticked_inv _ _ _ _ _ _ _ _ _ _ Ht HI) as HI1.
  rewrite <- (ticked_files _ _ Ht). wp_step; [done|]. destruct (strip_prefix _ _); [wp_step; done|].
  apply with_open_file; [done|by destruct Ht as (-> & _)|..].
  - intros h. apply frames_bind; [apply frames_try, frames_read_loop|]. intros r.
    apply frames_bind; [apply frames_try, frames_finish|]. intros c. by destruct r, c.
  - intros h s2 HI2. wp_step. apply wp_try.
    eapply wp_mono; [eapply (read_loop_inv I Room owned v); [done..|unfold len; simpl; lia|unfold len; simpl; lia]|..].
    + intros a s3 HI3. wp_step. apply wp_try.
      eapply wp_mono; [by apply (finish_inv I Room owned v limits cap scoped cancelled_at others_pool others_exec)|..];
        by intros.
    + intros e s3 HI3. wp_step. apply wp_try.
      eapply wp_mono; [by apply (finish_inv I Room owned v limits cap scoped cancelled_at others_pool others_exec)|..];
        by intros.
Qed.

Lemma write_file_files path data append s :
  FsInv s -> Room (fs_world s) ->
  wp (write_file v bin_commands cwd limits cap scoped cancelled_at path data append) s
     (fun _ s' => FsInv s' /\ fs_files s' = fs_files s) (fun _ s' => FsInv s' /\ fs_files s' = fs_files s).
Proof.
  intros HI Hroom. unfold write_file. wp_step; [done|]. cbv zeta. apply with_open_file; [done..| |].
  - intros h. apply frames_bind; [apply frames_try, frames_write_loop|]. intros [a|e| |]; [apply frames_finish| |done..].
    apply frames_bind; [apply frames_ignore, frames_finish|done].
  - intros h s1 HI1. pose proof (len_nonneg data). wp_step. apply wp_try.
    eapply wp_mono; [eapply (write_loop_inv I Room owned v); [done..|lia|unfold len; lia]|..].
    + intros [] s2 HI2. by apply (finish_inv I Room owned v limits cap scoped cancelled_at others_pool others_exec).
    + intros e s2 HI2. wp_step. apply wp_ignore. eapply wp_mono; [by apply (finish_inv I Room owned v limits cap scoped cancelled_at others_pool others_exec)|..]; intros; by wp_steps.
Qed.

Lemma touch_files path s :
  FsInv s -> Room (fs_world s) ->
  wp (touch v bin_commands cwd limits cap scoped cancelled_at path) s
     (fun _ s' => FsInv s' /\ fs_files s' = fs_files s) (fun _ s' => FsInv s' /\ fs_files s' = fs_files s).
Proof.
  intros HI Hroom. apply with_open_file; [done..| |].
  - intros h. apply frames_finish.
  - intros h s1 HI1. by apply (finish_inv I Room owned v limits cap scoped cancelled_at others_pool others_exec).
Qed.
End leaks.

(** Opening through the facade uses up room for one open, closing none. *)
Section facade_rooms.
Context {W : Type} (I Room : W -> Prop) (Rooms : nat -> W -> Prop) (owned : W -> gset Z) (v : Vfs W).
Context `{Hv : !OwnerLaws I Room owned v} `{Hr : !RoomLaws I Room Rooms v}.
Context (bin_commands : list str) (cwd : str) (limits : Limits) (cap : Z) (scoped : bool)
  (cancelled_at : nat -> bool).

Abbreviation roomy n := (fun (s' : FsState W) => Rooms n (fs_world s')).

Lemma release_world (s : FsState W) : wp (release scoped) s (fun _ s' => fs_world s' = fs_world s) (fun _ _ => False).
Proof. unfold release, pool_release_file, control_release_file. wp_steps; done. Qed.

Lemma reserve_world (s : FsState W) :
  wp (reserve limits cap scoped cancelled_at) s (fun _ s' => fs_world s' = fs_world s)
     (fun _ s' => fs_world s' = fs_world s).
Proof.
  unfold reserve, pool_acquire_file, control_acquire_file, control_check, control_is_cancelled, pool_release_file,
    wp, sbind, try. simpl.
  destruct (pool_open s <? cap); [|done]. simpl. destruct scoped; [|done]. simpl.
  destruct (cancelled_at (clock s)); [done|]. simpl. by destruct (exec_open s <? max_open_files limits).
Qed.

Lemma abort_rooms h n (s : FsState W) :
  I (fs_world s) -> Rooms n (fs_world s) ->
  wp (ignore (on_world (v_abort v h))) s (fun _ s' => roomy n s') (fun _ _ => False).
Proof.
  intros HI HR. apply wp_ignore, wp_on_world. eapply wp_mono; [by apply (rooms_abort n h _ HI HR)|done..].
Qed.

Lemma open_admitted_rooms path mode n s :
  I (fs_world s) -> Rooms (S n) (fs_world s) ->
  wp (open_admitted v limits cap scoped cancelled_at path mode) s
     (fun _ s' => roomy n s') (fun _ s' => roomy n s').
Proof.
  intros HI HR. unfold open_admitted. wp_step. pose proof (rooms_less n _ HR) as HR'.
  eapply wp_mono; [apply reserve_world| |by intros e s' ->]. intros [] s1 Hw. wp_step. apply wp_try, wp_on_world.
  rewrite Hw. eapply wp_mono; [eapply wp_conj; [by apply (own_open I Room owned path mode _ HI (rooms_room n _ HR))|
                                                by apply (rooms_open n path mode _ HI HR)]|..].
  - intros h w' [(Hw' & _) Hn]. wp_steps. apply wp_is_cancelled. intros b s2 (Hw2 & Hf2 & _). simpl in Hw2, Hf2.
    destruct b; [|wp_steps; by rewrite Hw2]. wp_steps. unfold remove_file. wp_steps.
    2: { exfalso. set_solver. }
    apply wp_finally. wp_step.
    eapply wp_mono; [apply (abort_rooms h n); simpl; by rewrite Hw2|intros ? s4 Hs4|done].
    wp_steps. eapply wp_mono; [apply release_world|by intros _ s5 ->|done].
  - intros e w' [_ Hn]. wp_step. eapply wp_mono; [apply release_world|intros [] s3 Hs3; wp_steps; by rewrite Hs3|done].
Qed.

Lemma fs_open_rooms path mode n s :
  I (fs_world s) -> Rooms (S n) (fs_world s) ->
  wp (fs_open v bin_commands cwd limits cap scoped cancelled_at path mode) s
     (fun _ s' => roomy n s') (fun _ s' => roomy n s').
Proof.
  intros HI HR. pose proof (rooms_less n _ HR) as HR'. unfold fs_open. cbv zeta. wp_step. apply wp_check_path.
  2: { intros e s' (-> & _). done. }
  intros s1 (Hw1 & _) _ _. wp_step; [apply wp_fail; by rewrite Hw1|]. unfold dispatch_path. wp_step. apply wp_check_path.
  2: { intros e s' (-> & _). by rewrite Hw1. }
  intros s2 (Hw2 & _) _ _. rewrite Hw1 in Hw2. apply wp_dispatch.
  2: { intros _ s' (-> & _) _. by rewrite Hw2. }
  intros s3 (Hw3 & _). rewrite Hw2 in Hw3. apply open_admitted_rooms; by rewrite Hw3.
Qed.

Lemma finish_rooms h abort n s :
  I (fs_world s) -> Rooms n (fs_world s) ->
  wp (finish v scoped cancelled_at h abort) s (fun _ s' => roomy n s') (fun _ s' => roomy n s').
Proof.
  intros HI HR. unfold finish, dispatch_handle. wp_steps. apply wp_dispatch; [|done].
  intros s1 (Hw1 & _). wp_step. unfold remove_file. wp_steps; [|by rewrite Hw1].
  apply wp_finally. wp_step.
  assert (forall (b : bool) (s2 : FsState W), fs_world s2 = fs_world s ->
    wp (if b then on_world (v_abort v h) else on_world (v_close v h)) s2
       (fun _ s' => wp (release scoped) s' (fun _ s'' => roomy n s'') (fun _ _ => False))
       (fun _ s' => wp (release scoped) s' (fun _ s'' => roomy n s'') (fun _ _ => False))) as H.
  { intros b s2 Hw2. destruct b; apply wp_on_world; rewrite Hw2;
      (eapply wp_mono; [first [by apply (rooms_abort n h _ HI HR)|by apply (rooms_close n h _ HI HR)]|..]);
      intros ? w' Hw'; (eapply wp_mono; [apply release_world|by intros ? s5 ->|done]). }
  destruct abort; [wp_steps; by apply (H true)|]. apply wp_is_cancelled. intros b s2 (Hw2 & _).
  apply H. by rewrite Hw2.
Qed.
End facade_rooms.

(** ** The facade with room for several more opens

    A VFS numbers its handles and files with counters that may run out
    ([RoomLaws]).  An operation of the facade keeps the counts of open files exact
    and, but for opening a file, uses no room. *)

#[local] Open Scope Z_scope.

Section rooms.
Context {W : Type} (I Room : W -> Prop) (Rooms : nat -> W -> Prop) (owned : W -> gset Z) (v : Vfs W).
Context `{Hv : !OwnerLaws I Room owned v} `{Hr : !RoomLaws I Room Rooms v}.
Context (bin_commands : list str) (cwd : str) (limits : Limits) (cap : Z) (scoped : bool)
  (cancelled_at : nat -> bool) (others_pool others_exec : Z).
Context (Hp : 0 <= others_pool) (He : 0 <= others_exec) (Hcap : cap <= USIZE_MAX)
  (Hmax : max_open_files limits <= USIZE_MAX).

Abbreviation FsInv := (FsInvx I owned limits cap scoped others_pool others_exec 0).

Definition has_rooms (n : nat) (s : FsState W) : Prop := FsInv s /\ Rooms n (fs_world s).

Abbreviation keeps_rooms n m s := (wp m s (fun _ s' => has_rooms n s') (fun _ s' => has_rooms n s')).

Lemma has_rooms_le n m s : (m <= n)%nat -> has_rooms n s -> has_rooms m s.
Proof.
  intros Hle [HI HR]. split; [done|]. induction Hle as [|n Hle IH]; [done|]. by eapply IH, rooms_less.
Qed.

Lemma ticked_rooms n s s' : ticked s s' -> has_rooms n s -> has_rooms n s'.
Proof. intros Ht [HI HR]. split; [by eapply ticked_inv|]. by destruct Ht as (-> & _). Qed.

Lemma conj_rooms {A} (m : ST (FsState W) Errno A) n s (R : Errno -> FsState W -> Prop) (Q : A -> FsState W -> Prop) :
  wp m s (fun a s' => Q a s' /\ FsInv s') (fun e s' => FsInv s') ->
  wp m s (fun _ s' => Rooms n (fs_world s')) (fun _ s' => Rooms n (fs_world s')) ->
  wp m s (fun a s' => Q a s' /\ has_rooms n s') (fun _ s' => has_rooms n s').
Proof.
  intros H1 H2. eapply wp_mono; [exact (wp_conj _ _ _ _ _ _ H1 H2)|..]; [by intros a s' [[? ?] ?]|by intros e s' [? ?]].
Qed.

Lemma roomy_open path mode n s :
  has_rooms (S n) s -> keeps_rooms n (fs_open v bin_commands cwd limits cap scoped cancelled_at path mode) s.
Proof.
  intros [HI HR]. eapply wp_mono; [eapply wp_conj; [by apply (fs_open_files I Room owned v bin_commands cwd limits cap scoped
      cancelled_at others_pool others_exec Hp He Hcap Hmax path mode s HI (rooms_room n _ HR))|
    by apply (fs_open_rooms I Room Rooms owned v bin_commands cwd limits cap scoped cancelled_at path mode n s
      (fsi_world _ _ _ _ _ _ _ _ _ HI) HR)]|..].
  - intros h s' [[HI' _] HR']. done.
  - intros e s' [[HI' _] HR']. done.
Qed.

Lemma roomy_finish h abort n s : has_rooms n s -> keeps_rooms n (finish v scoped cancelled_at h abort) s.
Proof.
  intros [HI HR]. eapply wp_mono; [eapply wp_conj; [by apply (finish_inv I Room owned v limits cap scoped cancelled_at
      others_pool others_exec Hp He Hcap Hmax h abort s HI)|
    by apply (finish_rooms I Room Rooms v scoped cancelled_at h abort n s (fsi_world _ _ _ _ _ _ _ _ _ HI) HR)]|..]; done.
Qed.

Lemma on_world_rooms {A} (m : ST W Errno A) n s :
  wp m (fs_world s) (fun _ w' => Rooms n w') (fun _ w' => Rooms n w') ->
  wp (on_world m) s (fun _ s' => Rooms n (fs_world s')) (fun _ s' => Rooms n (fs_world s')).
Proof. intros H. apply wp_on_world. eapply wp_mono; [exact H|done..]. Qed.

(** A query of the VFS through one of the dispatchers. *)
Lemma dispatch_rooms {A} fast cleanup (op : ST (FsState W) Errno A) n s :
  has_rooms n s ->
  (forall s', has_rooms n s' -> wp op s' (fun _ s' => Rooms n (fs_world s')) (fun _ s' => Rooms n (fs_world s'))) ->
  wp (dispatch scoped cancelled_at fast cleanup op) s (fun _ s' => Rooms n (fs_world s')) (fun _ s' => Rooms n (fs_world s')).
Proof.
  intros H Hop. apply wp_dispatch.
  - intros s' Ht. apply Hop. by eapply ticked_rooms.
  - intros _ s' Ht _. by destruct (ticked_rooms n s s' Ht H).
Qed.

Lemma roomy_read_at h o b n s :
  has_rooms n s ->
  wp (fs_read_at v limits scoped cancelled_at h o b) s
     (fun r s' => (length r.1 = length b /\ 0 <= r.2 <= len b) /\ has_rooms n s') (fun _ s' => has_rooms n s').
Proof.
  intros H. apply conj_rooms with (R := fun _ _ => True).
  - eapply wp_mono; [by apply (fs_read_at_inv I Room owned v limits cap scoped cancelled_at others_pool others_exec h o b s
      (proj1 H))|by intros r s' (? & ? & ?)|done].
  - unfold fs_read_at. wp_step; [apply H|]. unfold dispatch_handle. do 2 wp_step. apply dispatch_rooms; [done|].
    intros s' [HI' HR']. wp_step. eapply wp_mono; [apply on_world_rooms;
      apply (rooms_read_at n h o b _ (fsi_world _ _ _ _ _ _ _ _ _ HI') HR')| |done].
    intros [k b'] s2 H2. wp_step; [done|by wp_steps].
Qed.

Lemma roomy_write_at h o b n s :
  has_rooms n s ->
  wp (fs_write_at v limits scoped cancelled_at h o b) s
     (fun k s' => 0 <= k <= len b /\ has_rooms n s') (fun _ s' => has_rooms n s').
Proof.
  intros H. apply conj_rooms with (R := fun _ _ => True).
  - eapply wp_mono; [by apply (fs_write_at_inv I Room owned v limits cap scoped cancelled_at others_pool others_exec h o b s
      (proj1 H))|by intros r s' (? & ? & ?)|done].
  - unfold fs_write_at. wp_step; [apply H|]. unfold dispatch_handle. do 2 wp_step. apply dispatch_rooms; [done|].
    intros s' [HI' HR']. wp_step. eapply wp_mono; [apply on_world_rooms;
      apply (rooms_write_at n h o b _ (fsi_world _ _ _ _ _ _ _ _ _ HI') HR')| |done].
    intros k s2 H2. wp_step; [done|by wp_steps].
Qed.

Lemma roomy_stat path n s : has_rooms n s -> keeps_rooms n (fs_stat v bin_commands cwd limits scoped cancelled_at path) s.
Proof.
  intros H. eapply (wp_mono _ _ (fun _ s' => True /\ has_rooms n s')); [|by intros ? ? []|intros ? ? Hx; exact Hx].
  apply conj_rooms with (R := fun _ _ => True).
  - eapply wp_mono; [by apply (fs_stat_inv I Room owned v bin_commands cwd limits cap scoped cancelled_at others_pool
      others_exec path s (proj1 H))|done..].
  - unfold fs_stat. cbv zeta. wp_step.
    apply wp_check_path; [|by intros e s' Ht; destruct (ticked_rooms n s s' Ht H)].
    intros s1 H1 _ _. pose proof (ticked_rooms n s s1 H1 H) as Hs1. destruct (bin_stat _ _) as [m|] eqn:Hb.
    + unfold bin_stat in Hb. repeat case_match; simplify_eq; apply Hs1.
    + unfold dispatch_path. wp_step.
      apply wp_check_path; [|by intros e s' Ht; destruct (ticked_rooms n s1 s' Ht Hs1)].
      intros s2 H2 _ _. apply dispatch_rooms; [by eapply ticked_rooms|]. intros s3 [HI3 HR3]. apply on_world_rooms.
      apply (rooms_stat n _ _ (fsi_world _ _ _ _ _ _ _ _ _ HI3) HR3).
Qed.

(** ** Giving handles up *)

Lemma release_counts_rooms n (s : FsState W) :
  Rooms n (fs_world s) ->
  wp (let! _ := pool_release_file in if scoped then control_release_file else sret tt : ST (FsState W) Errno unit) s
     (fun _ s' => Rooms n (fs_world s')) (fun _ _ => False).
Proof. intros HR. unfold pool_release_file, control_release_file. wp_steps; done. Qed.

Lemma cleanup_handle_rooms h n s :
  I (fs_world s) -> Rooms n (fs_world s) -> h ∈ owned (fs_world s) ->
  wp (cleanup_handle v scoped h) s (fun _ s' => I (fs_world s') /\ Rooms n (fs_world s')) (fun _ _ => False).
Proof.
  intros HI HR Hin. unfold cleanup_handle. wp_step.
  assert (wp (ignore (on_world (v_abort v h))) s (fun _ s' => I (fs_world s') /\ Rooms n (fs_world s')) (fun _ _ => False)) as H.
  { apply wp_ignore, wp_on_world.
    eapply wp_mono; [exact (wp_conj _ _ _ _ _ _ (rooms_abort n h _ HI HR) (own_abort I Room owned h _ HI Hin))|..];
      by intros ? w' [? [? _]]. }
  eapply wp_mono; [exact H| |done]. intros [] s1 [HI1 HR1]. unfold pool_release_file, control_release_file. by wp_steps.
Qed.

Lemma cleanup_all_rooms hs n s :
  I (fs_world s) -> Rooms n (fs_world s) -> NoDup hs -> (forall h, h ∈ hs -> h ∈ owned (fs_world s)) ->
  wp (cleanup_all v scoped hs) s (fun _ s' => Rooms n (fs_world s')) (fun _ _ => False).
Proof.
  revert s. induction hs as [|h hs IH]; intros s HI HR Hnd Hin; cbn [cleanup_all]; [done|]. wp_step.
  apply NoDup_cons in Hnd as [Hh Hnd]. assert (h ∈ owned (fs_world s)) as Hown by (apply Hin; by left).
  eapply wp_mono; [exact (wp_conj _ _ _ _ _ _ (cleanup_handle_rooms h n s HI HR Hown)
    (cleanup_handle_owned I Room owned v scoped h s HI Hown))| |by intros ? ? []].
  intros [] s1 [[HI1 HR1] Ho]. apply IH; [done..|]. intros h' Hh'. rewrite Ho. apply elem_of_difference.
  split; [apply Hin; by right|]. by intros ->%elem_of_singleton.
Qed.

Lemma roomy_abandon h n s :
  has_rooms n s -> wp (abandon v scoped h) s (fun _ s' => has_rooms n s') (fun _ _ => False).
Proof.
  intros [HI HR].
  assert (wp (abandon v scoped h) s (fun _ s' => Rooms n (fs_world s')) (fun _ _ => False)) as H.
    { unfold abandon. wp_steps; [|done]. eapply wp_mono; [apply (cleanup_handle_rooms h n); [apply HI|done|by apply (fsi_owned _ _ _ _ _ _ _ _ _ HI)]|by intros [] s1 [? ?]|done]. }
  eapply wp_mono; [exact (wp_conj _ _ _ _ _ _ (abandon_inv I Room owned v limits cap scoped others_pool others_exec Hp He
    Hcap Hmax h s HI) H)|by intros ? s' [? ?]|by intros ? s' [? ?]].
Qed.

(** Dropping the registry leaves no file open. *)
Lemma roomy_abandon_all n s :
  has_rooms n s -> wp (abandon_all v scoped) s (fun _ s' => has_rooms n s' /\ fs_files s' = ∅) (fun _ _ => False).
Proof.
  intros [HI HR].
  assert (wp (abandon_all v scoped) s (fun _ s' => Rooms n (fs_world s')) (fun _ _ => False)) as H.
  { unfold abandon_all. wp_steps. apply cleanup_all_rooms; [apply HI|done|apply NoDup_elements|].
    intros h Hh%elem_of_elements. by apply (fsi_owned _ _ _ _ _ _ _ _ _ HI). }
  eapply wp_mono; [exact (wp_conj _ _ _ _ _ _ (abandon_all_inv I Room owned v limits cap scoped others_pool others_exec Hp He
    Hcap Hmax s HI) H)|by intros ? s' [[? ?] ?]|by intros ? s' [? ?]].
Qed.

(** ** Whole files *)

Lemma roomy_write_loop fuel h data written n s :
  has_rooms n s -> 0 <= written <= len data -> len data - written < Z.of_nat fuel ->
  keeps_rooms n (write_loop v limits scoped cancelled_at fuel h data written) s.
Proof.
  revert written s. induction fuel as [|fuel IH]; intros written s Hs Hw Hf; [lia|]. cbn [write_loop]. wp_step; [|done].
  wp_step. apply wp_check; [|by intros s' Ht _; eapply ticked_rooms].
  intros s1 H1. pose proof (ticked_rooms _ _ _ H1 Hs) as Hs1. wp_step.
  eapply wp_mono; [exact (roomy_write_at h written (write_chunk data written) n s1 Hs1)| |done]. intros k s2 [Hk Hs2]. pose proof (write_chunk_len data written Hw).
  wp_step; [done|]. apply IH; [done|lia|lia].
Qed.

Lemma roomy_write_file path data append n s :
  has_rooms (S n) s -> keeps_rooms n (write_file v bin_commands cwd limits cap scoped cancelled_at path data append) s.
Proof.
  intros Hs. assert (has_rooms n s) as Hless by (destruct Hs; split; [done|by eapply rooms_less]).
  unfold write_file. wp_step; [done|]. cbv zeta. wp_step. eapply wp_mono; [exact (roomy_open _ _ n s Hs)| |done].
  intros h s1 Hs1. apply wp_finally. wp_step. apply wp_try. pose proof (len_nonneg data).
  assert (forall s', has_rooms n s' -> wp (abandon v scoped h) s' (fun _ s'' => has_rooms n s'') (fun _ _ => False)) as Hab
    by (intros; by apply roomy_abandon).
  eapply wp_mono; [apply (roomy_write_loop _ h data 0 n s1 Hs1); [lia|unfold len; lia]|..].
  - intros [] s2 Hs2. eapply wp_mono; [exact (roomy_finish h false n s2 Hs2)|by intros ? s3 H3; apply Hab|by intros ? s3 H3; apply Hab].
  - intros e s2 Hs2. wp_step. apply wp_ignore.
    eapply wp_mono; [exact (roomy_finish h true n s2 Hs2)|intros ? s3 H3; wp_steps; by apply Hab|intros ? s3 H3; wp_steps; by apply Hab].
Qed.
End rooms.

(** ** Several facades on one VFS

    The commands of a pipeline have a facade each.  For one of them the handles
    [O] of the others are there to stay, and its own are the rest. *)

Section beside.
Context {W : Type} (I Room : W -> Prop) (Rooms : nat -> W -> Prop) (owned : W -> gset Z) (v : Vfs W).

Definition inv_beside (O : gset Z) (w : W) : Prop := I w /\ O ⊆ owned w.
Definition owned_beside (O : gset Z) (w : W) : gset Z := owned w ∖ O.

Lemma keeps_fds_beside {A} O (m : ST W Errno A) w :
  inv_beside O w -> (I w -> keeps_fds I owned m w) -> keeps_fds (inv_beside O) (owned_beside O) m w.
Proof.
  intros [HI HO] Hm. unfold keeps_fds, inv_beside, owned_beside in *.
  eapply wp_mono; [by apply Hm|..]; by intros ? w' [? ->].
Qed.

Lemma gives_up_beside (m : ST W Errno unit) O h w :
  O ⊆ owned w -> h ∈ owned_beside O w ->
  wp m w (fun _ w' => I w' /\ owned w' = owned w ∖ {[h]}) (fun _ w' => I w' /\ owned w' = owned w ∖ {[h]}) ->
  wp m w (fun _ w' => inv_beside O w' /\ owned_beside O w' = owned_beside O w ∖ {[h]})
         (fun _ w' => inv_beside O w' /\ owned_beside O w' = owned_beside O w ∖ {[h]}).
Proof.
  intros HO Hh Hm. unfold inv_beside, owned_beside in *.
  eapply wp_mono; [exact Hm|..]; intros ? w' [? ->]; (split; [split; [done|]|]; set_solver).
Qed.

Lemma owner_laws_beside O : OwnerLaws I Room owned v -> OwnerLaws (inv_beside O) Room (owned_beside O) v.
Proof.
  intros H. constructor; intros.
  all: try (apply keeps_fds_beside; [done|intros; by first [apply (own_stat I Room owned)|apply (own_readdir I Room owned)
    |apply (own_mkdir I Room owned)|apply (own_rename I Room owned)|apply (own_unlink I Room owned)
    |apply (own_rmdir I Room owned)|apply (own_truncate I Room owned)]]).
  - destruct H0 as [HI HO]. eapply wp_mono; [by apply (own_open I Room owned)|..].
    + intros h' w' (HI' & Hh & Ho). unfold inv_beside, owned_beside. rewrite Ho. split; [split; [done|set_solver]|].
      split; [set_solver|]. apply set_eq. intros x. set_solver.
    + intros e w' [HI' Ho]. unfold inv_beside, owned_beside. by rewrite Ho.
  - destruct H0 as [HI HO]. unfold inv_beside, owned_beside.
    eapply wp_mono; [by apply (own_read_at I Room owned)|intros ? w' [[? ->] ?]; done|by intros ? w' [? ->]].
  - destruct H0 as [HI HO]. unfold inv_beside, owned_beside.
    eapply wp_mono; [by apply (own_write_at I Room owned)|intros ? w' [[? ->] ?]; done|by intros ? w' [? ->]].
  - destruct H0 as [HI HO]. apply gives_up_beside; [done|done|]. apply (own_close I Room owned); [done|].
    unfold owned_beside in *. set_solver.
  - destruct H0 as [HI HO]. apply gives_up_beside; [done|done|]. apply (own_abort I Room owned); [done|].
    unfold owned_beside in *. set_solver.
Qed.

Lemma room_laws_beside O : RoomLaws I Room Rooms v -> RoomLaws (inv_beside O) Room Rooms v.
Proof.
  intros [R1 R2 R3 R4 R5 R6 R7 R8]. unfold inv_beside. constructor.
  - exact R1.
  - exact R2.
  - intros n p w [? ?]. by apply R3.
  - intros n p m w [? ?]. by apply R4.
  - intros n h o b w [? ?]. by apply R5.
  - intros n h o b w [? ?]. by apply R6.
  - intros n h w [? ?]. by apply R7.
  - intros n h w [? ?]. by apply R8.
Qed.
End beside.
