(* ===== verification/Output.v ===== *)
(** * Captured output (src/src/sandbox/mod.rs, [CaptureWriter] and [CappedOutput])

    The stdout and stderr of an execution are captured up to a cap; beyond it
    the head and the tail of the stream are kept around a marker.  The writer
    sees the stream in arbitrary pieces; [capture_of] says what it keeps in terms
    of the whole stream. *)

From Stdlib Require Import Ascii String.
From S2P Require Import Prelude RustStr VfsTypes SandboxFs.

#[local] Open Scope Z_scope.

(** The bytes of an ASCII literal. *)
Definition byte_lit (s : string) : bytes := List.map (fun a => Z.of_N (N_of_ascii a)) (list_ascii_of_string s).

Definition TRUNCATION_MARKER : bytes := [10] ++ byte_lit "[tinysandbox: output truncated]" ++ [10].

Record CappedOutput := mkCapped {
  cap : Z;
  total : Z;
  pre_truncation : bytes;
  head : bytes;
  tail : bytes;
  truncated : bool
}.

Definition capped_new (cap : Z) : CappedOutput := mkCapped cap 0 [] [] [] false.

(** [&v[a..]] and [&v[..b]] on indices within the vector. *)
Abbreviation from a v := (drop (Z.to_nat a) v).
Abbreviation upto b v := (take (Z.to_nat b) v).

(** The new tail of [push_tail]. *)
Definition push_tail (t data : bytes) (limit : Z) : bytes :=
  if limit =? 0 then t
  else if limit <=? len data then from (len data - limit) data
  else
    let overflow := saturating_sub (saturating_add (len t) (len data)) limit in
    (if 0 <? overflow then from overflow t else t) ++ data.

Definition set_total (n : Z) (c : CappedOutput) : CappedOutput :=
  mkCapped (cap c) n (pre_truncation c) (head c) (tail c) (truncated c).

(** The part of [write] after the output is known to be truncated. *)
Definition write_truncated (data : bytes) (c : CappedOutput) : outcome Errno CappedOutput :=
  let? n := u64_add (total c) (len data) in
  let c := set_total n c in
  if len TRUNCATION_MARKER <? cap c then
    let keep := cap c - len TRUNCATION_MARKER in
    let tail_len := keep - keep / 2 in
    Ok (mkCapped (cap c) (total c) (pre_truncation c) (head c) (push_tail (tail c) data tail_len)
          (truncated c))
  else Ok c.

Definition capped_write (data : bytes) (c : CappedOutput) : outcome Errno CappedOutput :=
  if bool_decide (data = []) then Ok c
  else if negb (truncated c) then
    let remaining := saturating_sub (cap c) (total c) in
    if len data <=? remaining then
      let? n := u64_add (total c) (len data) in
      Ok (mkCapped (cap c) n (pre_truncation c ++ data) (head c) (tail c) (truncated c))
    else
      let pre := pre_truncation c ++ upto remaining data in
      let? n := u64_add (total c) remaining in
      let rest := from remaining data in
      if len TRUNCATION_MARKER <? cap c then
        let keep := cap c - len TRUNCATION_MARKER in
        let head_len := keep / 2 in
        let tail_len := keep - head_len in
        let cut := Z.min head_len (len pre) in
        write_truncated rest
          (mkCapped (cap c) n [] (head c ++ upto cut pre) (push_tail (tail c) (from cut pre) tail_len) true)
      else write_truncated rest (mkCapped (cap c) n [] (head c) (tail c) true)
  else write_truncated data c.

Definition capped_finish (c : CappedOutput) : bytes * bool :=
  if negb (truncated c) then (pre_truncation c, false)
  else if cap c <=? len TRUNCATION_MARKER then (TRUNCATION_MARKER, true)
  else (head c ++ TRUNCATION_MARKER ++ tail c, true).

Fixpoint capped_writes (pieces : list bytes) (c : CappedOutput) : outcome Errno CappedOutput :=
  match pieces with
  | [] => Ok c
  | data :: pieces => let? c := capped_write data c in capped_writes pieces c
  end.

Example truncation_keeps_head_and_tail :
  (let? c := capped_writes [repeat 97 30; repeat 98 30] (capped_new 40) in Ok (capped_finish c))
  = Ok (repeat 97 3 ++ TRUNCATION_MARKER ++ repeat 98 4, true).
Proof. vm_compute. reflexivity. Qed.

(** ** What is captured of a stream *)

Definition head_len (cap : Z) : Z := (cap - len TRUNCATION_MARKER) / 2.
Definition tail_len (cap : Z) : Z := (cap - len TRUNCATION_MARKER) - (cap - len TRUNCATION_MARKER) / 2.

(** The last [n] bytes. *)
Definition last_bytes (n : Z) (d : bytes) : bytes := from (len d - n) d.

Definition capture_of (cap : Z) (all : bytes) : bytes * bool :=
  if len all <=? cap then (all, false)
  else if cap <=? len TRUNCATION_MARKER then (TRUNCATION_MARKER, true)
  else (upto (head_len cap) all ++ TRUNCATION_MARKER ++ last_bytes (tail_len cap) all, true).

Lemma push_tail_last n t d :
  0 < n -> len t <= n -> len t + len d <= USIZE_MAX -> push_tail t d n = last_bytes n (t ++ d).
Proof.
  intros Hn Ht Hd. unfold push_tail, last_bytes, saturating_sub, saturating_add.
  destruct (n =? 0) eqn:H0; unbool; [lia|]. rewrite len_app.
  destruct (n <=? len d) eqn:H1; unbool.
  - rewrite drop_app_ge by (unfold len in *; lia). f_equal. unfold len in *. lia.
  - rewrite Z.min_r by lia. rewrite drop_app_le by (unfold len in *; lia).
    destruct (0 <? _) eqn:H2; unbool.
    + f_equal. f_equal. lia.
    + replace (Z.to_nat (len t + len d - n)) with 0%nat by lia. done.
Qed.

Lemma len_last n d : 0 <= n -> len (last_bytes n d) = Z.min n (len d).
Proof. intros H. unfold last_bytes, len. rewrite length_drop. lia. Qed.

(** The tail of a longer stream depends on the tail kept so far only. *)
Lemma last_last n a b : 0 <= n -> last_bytes n (last_bytes n a ++ b) = last_bytes n (a ++ b).
Proof.
  intros H. unfold last_bytes. rewrite !len_app. unfold len.
  rewrite length_drop. destruct (decide (Z.of_nat (length a) <= n)).
  - replace (Z.to_nat (Z.of_nat (length a) - n)) with 0%nat by lia. rewrite drop_0. f_equal. lia.
  - set (k := Z.to_nat (Z.of_nat (length a) - n)).
    transitivity (drop (Z.to_nat (Z.of_nat (length a) + Z.of_nat (length b) - n)) ((take k a ++ drop k a) ++ b));
      [|by rewrite take_drop].
    rewrite <- app_assoc, (drop_app_ge (take k a)) by (rewrite length_take; lia). f_equal.
    rewrite length_take. lia.
Qed.

(** ** The invariant: the state is a function of the stream *)

(** Head and tail kept of a stream at least as long as the cap. *)
Definition trunc_state (c0 : Z) (all : bytes) (c : CappedOutput) : Prop :=
  cap c = c0 /\ total c = len all /\ truncated c = true /\
  (len TRUNCATION_MARKER < c0 ->
     head c = upto (head_len c0) all /\ tail c = last_bytes (tail_len c0) (from (head_len c0) all)).

Definition capped_state (c0 : Z) (all : bytes) (c : CappedOutput) : Prop :=
  if len all <=? c0 then
    cap c = c0 /\ total c = len all /\ truncated c = false /\ pre_truncation c = all /\ head c = [] /\ tail c = []
  else trunc_state c0 all c.

Lemma lens c0 : len TRUNCATION_MARKER < c0 -> 0 <= head_len c0 /\ 0 < tail_len c0 /\ head_len c0 + tail_len c0 < c0.
Proof.
  intros H. unfold head_len, tail_len.
  assert (len TRUNCATION_MARKER = 33) as Hm by (vm_compute; reflexivity). rewrite Hm in *.
  pose proof (Z.div_mod (c0 - 33) 2 ltac:(lia)). pose proof (Z.mod_pos_bound (c0 - 33) 2 ltac:(lia)). lia.
Qed.

#[local] Opaque TRUNCATION_MARKER.

Lemma write_truncated_spec c0 all data c :
  trunc_state c0 all c -> c0 <= len all -> len all + len data <= USIZE_MAX ->
  exists c', write_truncated data c = Ok c' /\ trunc_state c0 (all ++ data) c'.
Proof.
  intros (Hcap & Htot & Htr & Hht) Hlt Hmax. pose proof (len_nonneg data) as Hnn.
  unfold write_truncated, u64_add, checked_add. rewrite Htot.
  rewrite (proj2 (Z.leb_le (len all + len data) U64_MAX)) by done. cbn. rewrite Hcap.
  destruct (_ <? c0) eqn:Hm; unbool; eexists; (split; [done|]); (split; [done|]);
    (split; [by rewrite len_app|]); (split; [done|]); [intros _|intros Hx; exfalso; lia].
  cbn. destruct (lens c0 Hm) as (Hh & Ht & Hs). destruct (Hht Hm) as [-> ->].
  split; [by rewrite take_app_le by (unfold len in *; lia)|].
  rewrite drop_app_le by (unfold len in *; lia). fold (tail_len c0).
  rewrite push_tail_last; [by apply last_last; lia|lia|rewrite len_last; lia|].
  rewrite len_last by lia. unfold len in *. rewrite length_drop. lia.
Qed.

(** ** One write *)

Lemma capped_write_spec c0 all data c :
  capped_state c0 all c -> 0 <= c0 -> len all + len data <= USIZE_MAX ->
  exists c', capped_write data c = Ok c' /\ capped_state c0 (all ++ data) c'.
Proof.
  intros H Hc0 Hmax. unfold capped_write. case_bool_decide as He.
  { subst. rewrite app_nil_r. eauto. }
  pose proof (len_nonneg data) as Hnn. pose proof (len_app all data) as Hlen. unfold capped_state in *.
  destruct (len all <=? c0) eqn:Hle; unbool.
  2: { rewrite (proj2 (Z.leb_gt (len (all ++ data)) c0)) by lia. pose proof H as (_ & _ & -> & _).
       apply write_truncated_spec; [done|lia|done]. }
  destruct H as (Hcap & Htot & -> & -> & -> & ->). cbn [negb]. rewrite Hcap, Htot. unfold saturating_sub.
  rewrite Z.max_r by lia. unfold u64_add, checked_add.
  destruct (len data <=? c0 - len all) eqn:Hfit; unbool.
  - rewrite (proj2 (Z.leb_le (len all + len data) U64_MAX)) by done.
    rewrite (proj2 (Z.leb_le (len (all ++ data)) c0)) by lia. cbn. eexists. split; [done|]. done.
  - set (r := c0 - len all) in *. assert (r = c0 - len all) as Hr by done. clearbody r.
    set (pre := all ++ upto r data).
    assert (len pre = c0) as Hpre.
    { unfold pre. rewrite len_app. unfold len in *. rewrite length_take. lia. }
    assert (len (from r data) = len data - r) as Hrest by (unfold len in *; rewrite length_drop; lia).
    rewrite (proj2 (Z.leb_le (len all + r) U64_MAX)) by (change U64_MAX with USIZE_MAX; lia).
    cbn [obind expect]. rewrite (proj2 (Z.leb_gt (len (all ++ data)) c0)) by lia.
    replace (all ++ data) with (pre ++ from r data) by (unfold pre; by rewrite <- app_assoc, take_drop).
    replace (len all + r) with (len pre) by lia.
    destruct (_ <? c0) eqn:Hm; unbool;
      (apply write_truncated_spec; [|lia|rewrite Hrest; lia]); (split; [done|]); (split; [done|]);
      (split; [done|]); [intros _|intros Hx; exfalso; lia].
    destruct (lens c0 Hm) as (Hh & Ht & Hs). unfold head_len, tail_len in *.
    rewrite Z.min_l by lia. cbn [head tail]. split; [done|].
    rewrite push_tail_last; [done|lia|change (len (@nil Z)) with 0; lia|].
    change (len (@nil Z)) with 0. unfold len in *. rewrite length_drop. lia.
Qed.

Lemma capped_writes_spec c0 pieces all c :
  capped_state c0 all c -> 0 <= c0 -> len all + len (concat pieces) <= USIZE_MAX ->
  exists c', capped_writes pieces c = Ok c' /\ capped_state c0 (all ++ concat pieces) c'.
Proof.
  revert all c. induction pieces as [|data pieces IH]; intros all c H Hc0 Hmax; simpl in *.
  { rewrite app_nil_r. eauto. }
  rewrite len_app in Hmax. pose proof (len_nonneg (concat pieces)).
  destruct (capped_write_spec c0 all data c H Hc0 ltac:(lia)) as (c1 & -> & H1). simpl.
  rewrite app_assoc. apply IH; [done|done|]. rewrite len_app. lia.
Qed.

Lemma capped_finish_spec c0 all c : capped_state c0 all c -> capped_finish c = capture_of c0 all.
Proof.
  unfold capped_state, capped_finish, capture_of. destruct (len all <=? c0) eqn:Hle; unbool.
  - by intros (_ & _ & -> & -> & _).
  - intros (-> & _ & -> & Hht). simpl. destruct (c0 <=? _) eqn:Hm; unbool; [done|].
    destruct (lens c0 Hm) as (Hh & Ht & Hs). destruct (Hht Hm) as [-> ->]. f_equal. f_equal. f_equal.
    unfold last_bytes, len in *. rewrite drop_drop, length_drop. f_equal. lia.
Qed.
