(* ===== verification/JsGlobals.v ===== *)
(** * The registry of host globals (src/src/sandbox/mod.rs)

    Host functions are bound into the JavaScript global scope at dotted paths.
    [G] stands for the host function bound to a name, which the registry never
    inspects. *)

From Stdlib Require Import Ascii String Sorted.
From S2P Require Import Prelude RustStr BTreeMap.

Definition RESERVED_JS_GLOBALS : list string :=
  [ "Buffer"; "Headers"; "Response"; "__dirname"; "__filename"; "console"; "exports"; "fetch";
    "globalThis"; "module"; "process"; "require"; "setTimeout"; "clearTimeout"; "setInterval";
    "clearInterval"; "setImmediate"; "clearImmediate" ]%string.

Definition is_assignment_name (name : str) : bool :=
  match name with
  | [] => false
  | c :: rest =>
      (is_ascii_alphabetic c || isc c "_")
      && forallb (fun c => is_ascii_alphanumeric c || isc c "_") rest
  end.

Definition is_js_global_name (name : str) : bool :=
  negb (bool_decide (name = [])) && forallb is_assignment_name (split (ch ".") name).

(** [is_inside]: [path] is longer, goes on with a dot, and starts with
    [namespace].  A dot byte is always a character of its own. *)
Definition is_inside (namespace path : str) : bool :=
  (blen namespace <? blen path)%nat
  && match get_from path (blen namespace) with Some (c :: _) => isc c "." | _ => false end
  && starts_with path namespace.

Definition paths_conflict (left right : str) : bool :=
  bool_decide (left = right) || is_inside left right || is_inside right left.

(** [JsGlobalError]: its message. *)
Abbreviation JsGlobalError := str (only parsing).

Definition check_js_global_name (name : str) : outcome JsGlobalError unit :=
  if negb (is_js_global_name name) then
    Err (lit "cannot register invalid name '" ++ name
         ++ lit "'; names are dot-separated paths of [A-Za-z_][A-Za-z0-9_]* segments")
  else
    let root := default name (hd_error (split (ch ".") name)) in
    if bool_decide (root ∈ map lit RESERVED_JS_GLOBALS) then
      Err (lit "cannot register reserved name '" ++ name ++ lit "'; '" ++ root
           ++ lit "' is provided by the JavaScript runtime")
    else Ok tt.

Section registry.
Context {G : Type}.
Abbreviation Registry := (list (str * G)) (only parsing).

Fixpoint merge_loop (added : gset (list N)) (merged : Registry) (entries : list (str * G))
  : outcome JsGlobalError Registry :=
  match entries with
  | [] => Ok merged
  | (name, global) :: entries =>
      let? _ := check_js_global_name name in
      if decide (name ∈ added) then
        Err (lit "cannot register duplicate name '" ++ name ++ lit "'")
      else
        let added := {[name]} ∪ added in
        let merged := bt_remove name merged in
        match List.find (fun other => paths_conflict other name) (bt_keys merged) with
        | Some other =>
            Err (lit "cannot register '" ++ name ++ lit "'; it conflicts with '" ++ other ++ lit "'")
        | None => merge_loop added (bt_insert name global merged) entries
        end
  end.

Definition merge_js_globals (merged : Registry) (entries : list (str * G))
  : outcome JsGlobalError Registry :=
  merge_loop ∅ merged entries.

(** [build_js_global_registry]: the builder panics on a rejected set. *)
Definition build_js_global_registry (entries : list (str * G)) : outcome JsGlobalError Registry :=
  match merge_js_globals [] entries with
  | Ok m => Ok m
  | _ => Panic
  end.

(** The write-locked registry of a sandbox. *)
Definition mutate_js_globals (change : Registry -> outcome JsGlobalError Registry)
  : ST Registry JsGlobalError unit :=
  let! current := sget in
  let! next := slift (change current) in
  sput next.

Definition set_js_global (name : str) (global : G) : ST Registry JsGlobalError unit :=
  mutate_js_globals (fun current => merge_js_globals current [(name, global)]).

Definition extend_js_globals (globals : list (str * G)) : ST Registry JsGlobalError unit :=
  mutate_js_globals (fun current => merge_js_globals current globals).

Definition replace_js_globals (globals : list (str * G)) : ST Registry JsGlobalError unit :=
  mutate_js_globals (fun _ => merge_js_globals [] globals).

Definition remove_js_global (name : str) : ST Registry JsGlobalError bool :=
  let! current := sget in
  match bt_get name current with
  | None => sret false
  | Some _ => let! _ := sput (bt_remove name current) in sret true
  end.

Definition js_global_names (m : Registry) : list str := bt_keys m.
End registry.

Example rejects_namespace_clash :
  (let? m := merge_js_globals [] [(lit "tools", 1)] in merge_js_globals m [(lit "tools.search", 2)])
  = Err (lit "cannot register 'tools.search'; it conflicts with 'tools'").
Proof. vm_compute. reflexivity. Qed.

Example rebinding_replaces :
  (let? m := merge_js_globals [] [(lit "tools.search", 1); (lit "log", 2)] in
   merge_js_globals m [(lit "tools.search", 3)])
  = Ok [(lit "log", 2); (lit "tools.search", 3)].
Proof. vm_compute. reflexivity. Qed.

(** ** What a conflict is *)

Definition segments_of (name : str) : list str := split (ch ".") name.

Lemma split_app_char c s r : split c (s ++ c :: r) = split c s ++ split c r.
Proof.
  induction s as [|d s IH]; simpl; [by rewrite N.eqb_refl|]. rewrite IH. destruct (d =? c)%N; [done|].
  pose proof (split_nonempty c s). by destruct (split c s).
Qed.

Lemma is_inside_true ns path :
  is_inside ns path = true <-> exists r, path = ns ++ ch "." :: r.
Proof.
  unfold is_inside. rewrite !andb_true_iff. split.
  - intros [[_ Hdot] [r ->]%starts_with_app]. rewrite get_from_app in Hdot.
    destruct r as [|c r]; [done|]. exists r. unfold isc in Hdot. apply N.eqb_eq in Hdot. by subst.
  - intros [r ->]. rewrite get_from_app, starts_with_prefix, blen_app. simpl.
    split; [split; [|done]|done]. apply Nat.ltb_lt. change (len_utf8 (ch ".")) with 1%nat. lia.
Qed.

Lemma join_app c (l t : list str) :
  l <> [] -> t <> [] -> join [c] (l ++ t) = join [c] l ++ c :: join [c] t.
Proof.
  intros Hl Ht. induction l as [|p l IH]; [done|]. destruct l as [|p' l].
  - destruct t; [done|]. done.
  - change ((p :: p' :: l) ++ t) with (p :: p' :: (l ++ t)).
    change (join [c] (p :: p' :: l ++ t)) with (p ++ [c] ++ join [c] ((p' :: l) ++ t)).
    change (join [c] (p :: p' :: l)) with (p ++ [c] ++ join [c] (p' :: l)).
    rewrite IH by done. by rewrite <- !app_assoc.
Qed.

(** One path is a namespace of the other exactly when its segments are a proper
    prefix. *)
Lemma is_inside_segments ns path :
  is_inside ns path = true <-> exists t, t <> [] /\ segments_of path = segments_of ns ++ t.
Proof.
  rewrite is_inside_true. unfold segments_of. split.
  - intros [r ->]. exists (split (ch ".") r). split; [apply split_nonempty|apply split_app_char].
  - intros (t & Ht & Heq). exists (join [ch "."] t).
    rewrite <- (join_split (ch ".") path), Heq, join_app by (done || apply split_nonempty).
    by rewrite join_split.
Qed.

Lemma paths_conflict_segments a b :
  paths_conflict a b = true
  <-> segments_of a `prefix_of` segments_of b \/ segments_of b `prefix_of` segments_of a.
Proof.
  unfold paths_conflict. rewrite !orb_true_iff, bool_decide_eq_true, !is_inside_segments. split.
  - intros [[->|(t & _ & ->)]|(t & _ & ->)]; [by left|left|right]; by eexists.
  - assert (forall a b t, segments_of b = segments_of a ++ t -> a = b \/ exists t, t <> [] /\ segments_of b = segments_of a ++ t) as H.
    { intros x y t Ht. destruct t as [|c t]; [left|right; by exists (c :: t)].
      rewrite app_nil_r in Ht. rewrite <- (join_split (ch ".") x), <- (join_split (ch ".") y).
      unfold segments_of in Ht. by rewrite Ht. }
    intros [[t Ht]|[t Ht]]; apply H in Ht as [->|Ht]; auto.
Qed.

Lemma paths_conflict_sym a b : paths_conflict a b = paths_conflict b a.
Proof.
  apply eq_iff_eq_true. rewrite !paths_conflict_segments. tauto.
Qed.

(** ** The registry stays free of conflicts *)

Section registry_facts.
Context {G : Type}.
Implicit Types m : list (str * G).

Definition name_accepted (name : str) : Prop := check_js_global_name name = Ok tt.

Record registry_ok m : Prop := {
  reg_wf : bt_wf m;
  reg_names name g : bt_get name m = Some g -> name_accepted name;
  reg_apart a b ga gb :
    bt_get a m = Some ga -> bt_get b m = Some gb -> a <> b -> paths_conflict a b = false
}.

Lemma registry_ok_nil : registry_ok [].
Proof. constructor; [constructor|done|done]. Qed.

Lemma registry_ok_remove name m : registry_ok m -> registry_ok (bt_remove name m).
Proof.
  intros [H1 H2 H3].
  assert (forall a g, bt_get a (bt_remove name m) = Some g -> bt_get a m = Some g) as Hsub.
  { intros a g Ha. destruct (decide (name = a)) as [->|Hne].
    - by rewrite bt_get_remove_eq in Ha.
    - by rewrite bt_get_remove_ne in Ha. }
  constructor; [by apply bt_wf_remove|eauto|eauto].
Qed.

Lemma registry_ok_insert name g m :
  registry_ok m -> name_accepted name -> bt_get name m = None ->
  (forall other, other ∈ bt_keys m -> paths_conflict other name = false) ->
  registry_ok (bt_insert name g m).
Proof.
  intros [H1 H2 H3] Hn Hnone Hc.
  assert (forall a ga, bt_get a (bt_insert name g m) = Some ga -> a = name \/ (a <> name /\ bt_get a m = Some ga))
    as Hsub.
  { intros a ga Ha. destruct (decide (name = a)) as [->|Hne]; [by left|right].
    by rewrite bt_get_insert_ne in Ha. }
  constructor; [by apply bt_wf_insert| |].
  - intros a ga [->|[_ Ha]]%Hsub; eauto.
  - intros a b ga gb [->|[Ha1 Ha]]%Hsub [->|[Hb1 Hb]]%Hsub Hab; [done|..|eauto].
    + rewrite paths_conflict_sym. apply Hc. by eapply bt_get_Some_key.
    + apply Hc. by eapply bt_get_Some_key.
Qed.

Lemma find_none_keys name m :
  List.find (fun other => paths_conflict other name) (bt_keys m) = None ->
  forall other, other ∈ bt_keys m -> paths_conflict other name = false.
Proof. intros Hf other Hin. apply (find_none _ _ Hf). by apply list_elem_of_In. Qed.

Lemma check_returns name : returns (check_js_global_name name).
Proof. unfold check_js_global_name. repeat case_match; done. Qed.

(** A merge that succeeds binds every entry, keeps the other names, and leaves
    a registry without conflicts. *)
Lemma merge_loop_spec added m entries :
  registry_ok m ->
  match merge_loop added m entries with
  | Ok m' =>
      registry_ok m' /\ NoDup entries.*1 /\ (forall name, name ∈ entries.*1 -> name ∉ added)
      /\ forall name, bt_get name m' = match list_find (fun e => e.1 = name) entries with
                                       | Some (_, e) => Some e.2
                                       | None => bt_get name m
                                       end
  | Err _ => True
  | _ => False
  end.
Proof.
  revert added m. induction entries as [|[name g] entries IH]; intros added m Hm; cbn [merge_loop].
  { split; [done|]. split; [constructor|]. split; [by intros ? ?%not_elem_of_nil|done]. }
  pose proof (check_returns name) as Hr. destruct (check_js_global_name name) as [[]|e| |] eqn:Hn; try done.
  cbn [obind]. case_decide as Ha; [done|].
  destruct (List.find _ _) as [other|] eqn:Hf; [done|].
  pose proof (registry_ok_remove name m Hm) as Hm1.
  assert (registry_ok (bt_insert name g (bt_remove name m))) as Hm2.
  { apply registry_ok_insert; [done|done|apply bt_get_remove_eq, Hm|by apply find_none_keys]. }
  specialize (IH ({[name]} ∪ added) _ Hm2).
  destruct (merge_loop ({[name]} ∪ added) _ entries) as [m'|e| |]; try done.
  destruct IH as (Hok & Hnd & Hnew & Hget). split; [done|].
  assert (name ∉ entries.*1) as Hfresh by (intros Hin; apply Hnew in Hin; set_solver).
  split; [by constructor|]. split; [set_solver|]. intros x. rewrite Hget. simpl.
  destruct (decide (name = x)) as [->|Hne].
  - destruct (list_find (fun e => e.1 = x) entries) as [[k e]|] eqn:Hl.
    + apply list_find_Some in Hl as (He & Hx & _). exfalso. apply Hfresh.
      apply list_elem_of_fmap. exists e. split; [done|]. by eapply list_elem_of_lookup_2.
    + by rewrite bt_get_insert_eq.
  - destruct (list_find (fun e => e.1 = x) entries) as [[k e]|]; [done|].
    rewrite bt_get_insert_ne, bt_get_remove_ne by done. done.
Qed.
End registry_facts.
