(* ===== verification/JqArgs.v ===== *)
(** * The command line of [jq] (src/src/sandbox/jq_protocol.rs) *)

From Stdlib Require Import Ascii String.
From S2P Require Import Prelude RustStr.

Record JqVariable := mkJqVariable { var_name : str; var_value : str; var_json : bool }.

Record JqOptions := mkJqOptions {
  filter_text : str;
  jq_files : list str;
  raw_output : bool;
  join_output : bool;
  compact_output : bool;
  exit_status : bool;
  null_input : bool;
  slurp : bool;
  sort_keys : bool;
  indent : str;
  vars : list JqVariable
}.

(** The local variables of [parse_jq_args]. *)
Record Flags := mkFlags {
  f_raw : bool; f_join : bool; f_compact : bool; f_exit : bool; f_null : bool; f_slurp : bool;
  f_sort : bool; f_indent : str; f_vars : list JqVariable
}.

Definition initial_flags : Flags := mkFlags false false false false false false false (lit "  ") [].

Definition set_indent (i : str) (f : Flags) : Flags :=
  mkFlags (f_raw f) (f_join f) (f_compact f) (f_exit f) (f_null f) (f_slurp f) (f_sort f) i (f_vars f).
Definition push_var (v : JqVariable) (f : Flags) : Flags :=
  mkFlags (f_raw f) (f_join f) (f_compact f) (f_exit f) (f_null f) (f_slurp f) (f_sort f) (f_indent f)
    (f_vars f ++ [v]).

Definition is_jq_var_name (name : str) : bool :=
  match name with
  | [] => false
  | c :: rest =>
      (is_ascii_alphabetic c || isc c "_")
      && forallb (fun c => is_ascii_alphanumeric c || isc c "_") rest
  end.

Definition parse_jq_indent (value : str) : outcome str str :=
  let error := lit "jq: invalid indent '" ++ value ++ lit "'" ++ [ch NL] in
  let? n := ok_or error (parse_unsigned USIZE_MAX value) in
  if 8 <? n then Err error else Ok (replicate (Z.to_nat n) (ch " ")).

(** [args] are those after the option. *)
Definition parse_jq_arg_pair (args : list str) (option : str) : outcome str (str * str) :=
  match args with
  | [] => Err (lit "jq: option " ++ option ++ lit " requires a name" ++ [ch NL])
  | [_] => Err (lit "jq: option " ++ option ++ lit " requires a value" ++ [ch NL])
  | name :: value :: _ =>
      if negb (is_jq_var_name name)
      then Err (lit "jq: invalid variable name '" ++ name ++ lit "'" ++ [ch NL])
      else Ok (name, value)
  end.

(** One letter of a group of short options. *)
Definition short_flag (c : char) (f : Flags) : outcome str Flags :=
  let '(mkFlags raw join compact exit null slurp sort ind vs) := f in
  if isc c "r" then Ok (mkFlags true join compact exit null slurp sort ind vs)
  else if isc c "j" then Ok (mkFlags true true compact exit null slurp sort ind vs)
  else if isc c "c" then Ok (mkFlags raw join true exit null slurp sort ind vs)
  else if isc c "e" then Ok (mkFlags raw join compact true null slurp sort ind vs)
  else if isc c "n" then Ok (mkFlags raw join compact exit true slurp sort ind vs)
  else if isc c "s" then Ok (mkFlags raw join compact exit null true sort ind vs)
  else if isc c "S" then Ok (mkFlags raw join compact exit null slurp true ind vs)
  else Err (lit "jq: unsupported option '-" ++ [c] ++ lit "'" ++ [ch NL]).

Fixpoint short_flags (cs : str) (f : Flags) : outcome str Flags :=
  match cs with
  | [] => Ok f
  | c :: cs => let? f := short_flag c f in short_flags cs f
  end.

(** The [while] loop; it stops at the filter, and the rest are files. *)
Fixpoint parse_loop (args : list str) (options_done : bool) (f : Flags)
  : outcome str (option (str * list str) * Flags) :=
  match args with
  | [] => Ok (None, f)
  | arg :: rest =>
      if options_done || negb (starts_with arg (lit "-")) || bool_decide (arg = lit "-")
      then Ok (Some (arg, rest), f)
      else if bool_decide (arg = lit "--") then parse_loop rest true f
      else if bool_decide (arg = lit "--tab") then parse_loop rest options_done (set_indent [ch TAB] f)
      else if bool_decide (arg = lit "--indent") then
        match rest with
        | [] => Err (lit "jq: option --indent requires an argument" ++ [ch NL])
        | value :: rest =>
            let? i := parse_jq_indent value in parse_loop rest options_done (set_indent i f)
        end
      else if bool_decide (arg = lit "--arg") then
        let? (name, value) := parse_jq_arg_pair rest (lit "--arg") in
        match rest with
        | _ :: _ :: rest =>
            parse_loop rest options_done (push_var (mkJqVariable (ch "$" :: name) value false) f)
        | _ => Panic
        end
      else if bool_decide (arg = lit "--argjson") then
        let? (name, value) := parse_jq_arg_pair rest (lit "--argjson") in
        match rest with
        | _ :: _ :: rest =>
            parse_loop rest options_done (push_var (mkJqVariable (ch "$" :: name) value true) f)
        | _ => Panic
        end
      else if starts_with arg (lit "--")
      then Err (lit "jq: unsupported option '" ++ arg ++ lit "'" ++ [ch NL])
      else let? f := short_flags (drop 1 arg) f in parse_loop rest options_done f
  end.

Definition parse_jq_args (args : list str) : outcome str JqOptions :=
  let? (filter, f) := parse_loop args false initial_flags in
  let? (filter, files) := ok_or (lit "jq: missing filter" ++ [ch NL]) filter in
  let compact := if bool_decide (f_indent f = []) then true else f_compact f in
  Ok (mkJqOptions filter files (f_raw f) (f_join f) compact (f_exit f) (f_null f) (f_slurp f) (f_sort f)
        (f_indent f) (f_vars f)).

Example parse_short_group :
  option_map (fun o => (raw_output o, compact_output o, filter_text o, jq_files o))
    (match parse_jq_args [lit "-rc"; lit ".a"; lit "x"; lit "-y"] with Ok o => Some o | _ => None end)
  = Some (true, true, lit ".a", [lit "x"; lit "-y"]).
Proof. vm_compute. reflexivity. Qed.

(** ** What the parser promises of the options it returns *)

Definition indent_ok (i : str) : Prop :=
  i = [ch TAB] \/ exists n, (n <= 8)%nat /\ i = replicate n (ch " ").

Definition var_ok (v : JqVariable) : Prop :=
  exists name, var_name v = ch "$" :: name /\ is_jq_var_name name = true.

Record options_ok (o : JqOptions) : Prop := {
  ok_indent : indent_ok (indent o);
  ok_vars : Forall var_ok (vars o);
  ok_join : join_output o = true -> raw_output o = true;
  ok_compact : indent o = [] -> compact_output o = true
}.

Record flags_ok (f : Flags) : Prop := {
  fok_indent : indent_ok (f_indent f);
  fok_vars : Forall var_ok (f_vars f);
  fok_join : f_join f = true -> f_raw f = true
}.

Lemma short_flag_ok c f :
  flags_ok f -> match short_flag c f with Ok f' => flags_ok f' | Err _ => True | _ => False end.
Proof.
  intros [H1 H2 H3]. destruct f. simpl in *. unfold short_flag. repeat case_match; simplify_eq; try done; constructor; simpl; auto.
Qed.

Lemma short_flags_ok cs f :
  flags_ok f -> match short_flags cs f with Ok f' => flags_ok f' | Err _ => True | _ => False end.
Proof.
  revert f. induction cs as [|c cs IH]; intros f Hf; simpl; [done|].
  pose proof (short_flag_ok c f Hf). destruct (short_flag c f); simpl; try done. by apply IH.
Qed.

Lemma parse_jq_indent_ok value :
  match parse_jq_indent value with Ok i => indent_ok i | Err _ => True | _ => False end.
Proof.
  unfold parse_jq_indent. destruct (parse_unsigned USIZE_MAX value) as [n|]; simpl; [|done].
  destruct (8 <? n) eqn:H; unbool; [done|]. right. exists (Z.to_nat n). split; [lia|done].
Qed.

Lemma flags_ok_indent i f : flags_ok f -> indent_ok i -> flags_ok (set_indent i f).
Proof. by intros [H1 H2 H3]. Qed.

Lemma flags_ok_var v f : flags_ok f -> var_ok v -> flags_ok (push_var v f).
Proof.
  intros [H1 H2 H3] Hv. constructor; simpl; [done| |done]. apply Forall_app. by split; [|constructor].
Qed.

(** The loop returns, never reading past the arguments. *)
Lemma parse_loop_ok args od f :
  flags_ok f ->
  match parse_loop args od f with Ok (_, f') => flags_ok f' | Err _ => True | _ => False end.
Proof.
  remember (length args) as n eqn:Hn. revert args od f Hn.
  induction (lt_wf n) as [n _ IH]; intros args od f -> Hf. destruct args as [|arg rest]; [done|].
  assert (forall args' od' f', (length args' < length (arg :: rest))%nat -> flags_ok f' ->
    match parse_loop args' od' f' with Ok (_, f'') => flags_ok f'' | Err _ => True | _ => False end) as Hrec
    by (intros args' od' f' Hl Hf'; by eapply IH).
  assert (forall opt j,
    match (let? (name, value) := parse_jq_arg_pair rest opt in
           match rest with
           | _ :: _ :: rest => parse_loop rest od (push_var (mkJqVariable (ch "$" :: name) value j) f)
           | _ => Panic
           end) with Ok (_, f') => flags_ok f' | Err _ => True | _ => False end) as Hpair.
  { intros opt j. unfold parse_jq_arg_pair. destruct rest as [|name [|value rest]]; simpl; [done..|].
    destruct (is_jq_var_name name) eqn:Hv; simpl; [|done]. apply Hrec; [simpl; lia|].
    apply flags_ok_var; [done|]. by exists name. }
  cbn [parse_loop]. destruct (od || _ || _); [done|].
  case_bool_decide; [apply Hrec; [simpl; lia|done]|].
  case_bool_decide; [apply Hrec; [simpl; lia|]; apply flags_ok_indent; [done|by left]|].
  case_bool_decide.
  { destruct rest as [|value rest]; [done|]. pose proof (parse_jq_indent_ok value) as Hi.
    destruct (parse_jq_indent value); simpl; try done. apply Hrec; [simpl; lia|]. by apply flags_ok_indent. }
  case_bool_decide; [apply Hpair|]. case_bool_decide; [apply Hpair|].
  destruct (starts_with arg (lit "--")); [done|]. pose proof (short_flags_ok (drop 1 arg) f Hf) as Hs.
  destruct (short_flags (drop 1 arg) f); cbn [obind]; try done. apply Hrec; [simpl; lia|done].
Qed.

Lemma initial_flags_ok : flags_ok initial_flags.
Proof. constructor; simpl; [right; by exists 2%nat; split; [lia|]|done|done]. Qed.

Lemma parse_jq_args_ok args :
  match parse_jq_args args with Ok o => options_ok o | Err _ => True | _ => False end.
Proof.
  unfold parse_jq_args. pose proof (parse_loop_ok args false _ initial_flags_ok) as H.
  destruct (parse_loop args false initial_flags) as [[[[filter files]|] f]| | |]; simpl; try done.
  destruct H as [H1 H2 H3]. constructor; simpl; try done. intros ->. by rewrite bool_decide_eq_true_2.
Qed.

(** ** A command line for given options *)

Definition render_flag (b : bool) (s : string) : list str := if b then [lit s] else [].

Definition render_indent (i : str) : list str :=
  if bool_decide (i = [ch TAB]) then [lit "--tab"]
  else [lit "--indent"; N_to_string (N.of_nat (length i))].

Definition render_var (v : JqVariable) : list str :=
  [if var_json v then lit "--argjson" else lit "--arg"; drop 1 (var_name v); var_value v].

Definition render_jq_args (o : JqOptions) : list str :=
  render_flag (raw_output o) "-r" ++ render_flag (join_output o) "-j"
  ++ render_flag (compact_output o) "-c" ++ render_flag (exit_status o) "-e"
  ++ render_flag (null_input o) "-n" ++ render_flag (slurp o) "-s" ++ render_flag (sort_keys o) "-S"
  ++ render_indent (indent o) ++ concat (render_var <$> vars o)
  ++ lit "--" :: filter_text o :: jq_files o.

Lemma parse_render_indent i rest f :
  indent_ok i -> parse_loop (render_indent i ++ rest) false f = parse_loop rest false (set_indent i f).
Proof.
  intros [->|(n & Hn & ->)]; [done|]. unfold render_indent.
  rewrite bool_decide_eq_false_2 by (destruct n; [done|]; by intros [= ?]).
  rewrite length_replicate. do 9 (destruct n as [|n]; [done|]). lia.
Qed.

Lemma parse_arg name value rest f :
  is_jq_var_name name = true ->
  parse_loop (lit "--arg" :: name :: value :: rest) false f
  = parse_loop rest false (push_var (mkJqVariable (ch "$" :: name) value false) f).
Proof.
  intros Hv.
  transitivity (let? (name, value) := parse_jq_arg_pair (name :: value :: rest) (lit "--arg") in
                parse_loop rest false (push_var (mkJqVariable (ch "$" :: name) value false) f)); [done|].
  unfold parse_jq_arg_pair. by rewrite Hv.
Qed.

Lemma parse_argjson name value rest f :
  is_jq_var_name name = true ->
  parse_loop (lit "--argjson" :: name :: value :: rest) false f
  = parse_loop rest false (push_var (mkJqVariable (ch "$" :: name) value true) f).
Proof.
  intros Hv.
  transitivity (let? (name, value) := parse_jq_arg_pair (name :: value :: rest) (lit "--argjson") in
                parse_loop rest false (push_var (mkJqVariable (ch "$" :: name) value true) f)); [done|].
  unfold parse_jq_arg_pair. by rewrite Hv.
Qed.

Lemma parse_render_vars vs rest f :
  Forall var_ok vs ->
  parse_loop (concat (render_var <$> vs) ++ rest) false f
  = parse_loop rest false
      (mkFlags (f_raw f) (f_join f) (f_compact f) (f_exit f) (f_null f) (f_slurp f) (f_sort f) (f_indent f)
         (f_vars f ++ vs)).
Proof.
  intros H. revert f. induction H as [|[nm value j] vs (name & Hname & Hv) _ IH]; intros f.
  - rewrite app_nil_r. by destruct f.
  - simpl in Hname. subst nm. rewrite fmap_cons. cbn [concat]. rewrite <- app_assoc.
    transitivity (parse_loop (concat (render_var <$> vs) ++ rest) false
                    (push_var (mkJqVariable (ch "$" :: name) value j) f)).
    + destruct j; [by apply (parse_argjson name value)|by apply (parse_arg name value)].
    + rewrite IH. unfold push_var. cbn. by rewrite <- app_assoc.
Qed.

Lemma parse_render o : options_ok o -> parse_jq_args (render_jq_args o) = Ok o.
Proof.
  intros [Hi Hv Hj Hc]. destruct o as [flt fs raw jn cmp ex nl sl srt ind vs]. simpl in *.
  unfold parse_jq_args.
  assert (parse_loop (render_jq_args (mkJqOptions flt fs raw jn cmp ex nl sl srt ind vs)) false initial_flags
          = Ok (Some (flt, fs), mkFlags raw jn cmp ex nl sl srt ind vs)) as ->.
  - unfold render_jq_args, initial_flags. cbn [raw_output join_output compact_output exit_status null_input slurp
      sort_keys indent vars filter_text jq_files].
    transitivity (parse_loop (render_indent ind ++ concat (render_var <$> vs) ++ lit "--" :: flt :: fs) false
                    (mkFlags raw jn cmp ex nl sl srt (lit "  ") [])).
    + destruct raw; [|destruct jn; [by specialize (Hj eq_refl)|]];
        destruct cmp, ex, nl, sl, srt; try (destruct jn); reflexivity.
    + rewrite parse_render_indent, parse_render_vars by done. reflexivity.
  - simpl. f_equal. f_equal. case_bool_decide; [by rewrite Hc|done].
Qed.
