(* ===== verification/Redirects.v ===== *)
(** * Redirects of a command (src/src/sandbox/mod.rs)

    [prepare_redirects] opens the files a command's redirects name, in order, and
    leaves the destinations of its output and the source of its input.  The files
    opened for output are shared ([Arc<RedirectFile>]): after [2>&1] both streams
    go to one file, with one handle and one offset.  The model keeps the files in a
    store and a destination is an index into it; [Arc::strong_count] is one for a
    file that neither stream refers to. *)

From Stdlib Require Import Ascii String.
From S2P Require Import Prelude RustStr ShellSyntax VfsTypes VfsIface SandboxFs.

Inductive CaptureFd := Stdout | Stderr.

Inductive OutputDestination :=
| Capture (fd : CaptureFd)
| ToFile (file : nat).

#[global] Instance CaptureFd_eq_dec : EqDecision CaptureFd.
Proof. solve_decision. Defined.
#[global] Instance OutputDestination_eq_dec : EqDecision OutputDestination.
Proof. solve_decision. Defined.

Record InputRedirect := mkInputRedirect { in_path : str; in_handle : FileHandle }.

Record PreparedRedirects := mkPrepared {
  r_stdin : option InputRedirect;
  r_stdout : OutputDestination;
  r_stderr : OutputDestination
}.

Definition default_redirects : PreparedRedirects := mkPrepared None (Capture Stdout) (Capture Stderr).

(** [RedirectFile] with its [RedirectState]. *)
Record RedirectFile := mkRedirectFile {
  rf_path : str;
  rf_handle : option FileHandle;
  rf_offset : Z;
  rf_error : option Errno
}.

Abbreviation RedirectError := (str * Errno)%type (only parsing).

Definition default_redirect_fd (op : RedirectOp) : Z :=
  match op with
  | Read => 0
  | Write | Append => 1
  end.

Definition is_output_fd (fd : Z) : bool := (fd =? 1) || (fd =? 2).

(** Sets the stream [fd], 1 or 2. *)
Definition set_output (fd : Z) (d : OutputDestination) (r : PreparedRedirects) : PreparedRedirects :=
  if fd =? 1 then mkPrepared (r_stdin r) d (r_stderr r) else mkPrepared (r_stdin r) (r_stdout r) d.

Definition apply_fd_redirect (r : PreparedRedirects) (redirect : Redirect) (target_fd : Z)
  : outcome RedirectError PreparedRedirects :=
  let fd := default 1 (redirect_fd redirect) in
  if negb (is_output_fd fd) || negb (is_output_fd target_fd)
  then Err (Z_to_string target_fd, EINVAL)
  else Ok (set_output fd (if target_fd =? 1 then r_stdout r else r_stderr r) r).

(** [Arc::strong_count(&file) > 1]. *)
Definition referenced (r : PreparedRedirects) (file : nat) : bool :=
  bool_decide (r_stdout r = ToFile file) || bool_decide (r_stderr r = ToFile file).

(** The facade, the files opened so far and the redirects built so far. *)
Record RState (W : Type) := mkRState {
  r_fs : FsState W;
  r_opened : list RedirectFile;
  r_red : PreparedRedirects
}.
Arguments mkRState {W}.
Arguments r_fs {W}.
Arguments r_opened {W}.
Arguments r_red {W}.

Section redirects.
Context {W : Type} (v : Vfs W) (bin_commands : list str) (cwd : str) (limits : Limits) (cap : Z)
  (scoped : bool) (cancelled_at : nat -> bool).

Abbreviation RM := (ST (RState W) RedirectError).

Definition set_red (r : PreparedRedirects) (st : RState W) : RState W := mkRState (r_fs st) (r_opened st) r.
Definition set_opened (l : list RedirectFile) (st : RState W) : RState W := mkRState (r_fs st) l (r_red st).

(** A call of the facade whose error is kept as a value. *)
Definition try_fs {A} (m : ST (FsState W) Errno A) : RM (outcome Errno A) :=
  fun st => let '(o, s') := m (r_fs st) in
            let st' := mkRState s' (r_opened st) (r_red st) in
            match o with
            | Ok a => (Ok (Ok a), st')
            | Err e => (Ok (Err e), st')
            | Panic => (Panic, st')
            | OutOfFuel => (OutOfFuel, st')
            end.

(** [m.await.map_err(|err| (path, err))?]. *)
Definition on_fs {A} (path : str) (m : ST (FsState W) Errno A) : RM A :=
  let! r := try_fs m in
  match r with
  | Ok a => sret a
  | Err e => sfail (path, e)
  | Panic => slift Panic
  | OutOfFuel => slift OutOfFuel
  end.

Definition redirect_input (path : str) : RM unit :=
  let! handle := on_fs path (fs_open v bin_commands cwd limits cap scoped cancelled_at path read_only) in
  let! st := sget in
  let r := r_red st in
  let! _ := sput (set_red (mkPrepared (Some (mkInputRedirect path handle)) (r_stdout r) (r_stderr r)) st) in
  match r_stdin r with
  | Some previous => on_fs (in_path previous) (fs_close v scoped cancelled_at (in_handle previous))
  | None => sret tt
  end.

Definition redirect_output (fd : Z) (op : RedirectOp) (path : str) : RM unit :=
  let mode := match op with
              | Append => with_append (with_create write_only)
              | _ => with_truncate (with_create write_only)
              end in
  let! handle := on_fs path (fs_open v bin_commands cwd limits cap scoped cancelled_at path mode) in
  let! st := sget in
  let target := ToFile (length (r_opened st)) in
  let st := set_opened (r_opened st ++ [mkRedirectFile path (Some handle) 0 None]) st in
  sput (set_red (set_output fd target (r_red st)) st).

Definition prepare_redirect (redirect : Redirect) (words : list str) : RM unit :=
  match redirect_target redirect with
  | TargetFd fd =>
      let! st := sget in
      let! r := slift (apply_fd_redirect (r_red st) redirect fd) in
      sput (set_red r st)
  | TargetWord _ =>
      match words with
      | [] => sfail ([], ENOENT)
      | [path] =>
          let fd := default (default_redirect_fd (redirect_op redirect)) (redirect_fd redirect) in
          match redirect_op redirect with
          | Read => if fd =? 0 then redirect_input path else sfail (path, EINVAL)
          | op => if is_output_fd fd then redirect_output fd op path else sfail (path, EINVAL)
          end
      | path :: _ => sfail (path, EINVAL)
      end
  end.

Fixpoint redirect_loop (items : list (Redirect * list str)) : RM unit :=
  match items with
  | [] => sret tt
  | (redirect, words) :: items =>
      let! _ := on_fs (lit "redirect") (check scoped cancelled_at) in
      let! _ := prepare_redirect redirect words in
      redirect_loop items
  end.

Definition set_file (i : nat) (f : RedirectFile) (st : RState W) : RState W :=
  set_opened (<[i := f]> (r_opened st)) st.

(** The branch of [RedirectFile::finish] for a file that still has its handle;
    it returns the error the file is left with. *)
Definition close_file (i : nat) (file : RedirectFile) (handle : FileHandle) : RM (option Errno) :=
  let! st := sget in
  let! _ := sput (set_file i (mkRedirectFile (rf_path file) None (rf_offset file) (rf_error file)) st) in
  let! aborted := (match rf_error file with
                   | Some _ => sret true
                   | None => on_fs [] (is_cancelled scoped cancelled_at)
                   end) in
  let! result := try_fs (if (aborted : bool) then fs_abort v scoped cancelled_at handle
                         else fs_close v scoped cancelled_at handle) in
  let error := match rf_error file with
               | Some e => Some e
               | None => match result with Err e => Some e | _ => None end
               end in
  let! st := sget in
  let! _ := sput (set_file i (mkRedirectFile (rf_path file) None (rf_offset file) error) st) in
  sret error.

(** [RedirectFile::finish]. *)
Definition finish_file (i : nat) : RM unit :=
  let! st := sget in
  let! file := slift (expect (r_opened st !! i)) in
  let! error := (match rf_handle file with
                 | Some handle => close_file i file handle
                 | None => sret (rf_error file)
                 end) in
  match error with
  | None => sret tt
  | Some e => sfail (rf_path file, e)
  end.

(** The loop over [opened]: once something failed every file is finished,
    otherwise the files no stream refers to. *)
Fixpoint finish_opened (files : list nat) (result : outcome RedirectError unit)
  : RM (outcome RedirectError unit) :=
  match files with
  | [] => sret result
  | i :: files =>
      let! st := sget in
      if negb (is_ok result) || negb (referenced (r_red st) i) then
        let! close := attempt (finish_file i) in
        finish_opened files (if is_ok result then close else result)
      else finish_opened files result
  end.

Definition close_stdin_redirect (redirected : option InputRedirect) : RM unit :=
  match redirected with
  | Some redirect => let! _ := try_fs (fs_close v scoped cancelled_at (in_handle redirect)) in sret tt
  | None => sret tt
  end.

(** [redirects.stdin.take()]. *)
Definition take_stdin : RM (option InputRedirect) :=
  let! st := sget in
  let r := r_red st in
  let! _ := sput (set_red (mkPrepared None (r_stdout r) (r_stderr r)) st) in
  sret (r_stdin r).

Definition prepare_redirects (simple : SimpleCommand) (targets : list (list str)) : RM PreparedRedirects :=
  let! st := sget in
  let! _ := sput (mkRState (r_fs st) [] default_redirects) in
  let! result := attempt (redirect_loop (zip (redirects simple) targets)) in
  let! st := sget in
  let! result := finish_opened (seq 0 (length (r_opened st))) result in
  match result with
  | Ok _ => let! st := sget in sret (r_red st)
  | Err err =>
      let! stdin := take_stdin in
      let! _ := close_stdin_redirect stdin in
      sfail err
  | Panic => slift Panic
  | OutOfFuel => slift OutOfFuel
  end.

Definition finish_destination (d : OutputDestination) (result : outcome RedirectError unit)
  : RM (outcome RedirectError unit) :=
  match d with
  | ToFile i =>
      let! close := attempt (finish_file i) in
      sret (if is_ok result then close else result)
  | Capture _ => sret result
  end.

Definition finish_redirects : RM unit :=
  let! st := sget in
  let! result := finish_destination (r_stdout (r_red st)) (Ok tt) in
  let! result := finish_destination (r_stderr (r_red st)) result in
  slift result.

(** What [exec_single_simple] does with the redirects of a command without
    words. *)
Definition redirect_only (simple : SimpleCommand) (targets : list (list str)) : RM unit :=
  let! _ := prepare_redirects simple targets in
  let! stdin := take_stdin in
  let! _ := close_stdin_redirect stdin in
  finish_redirects.
End redirects.
