(* ===== verification/RedirectsFacts.v ===== *)
(** * Which handles the redirects of a command hold

    The invariant of [prepare_redirects]: the handles held by the facade are those
    held before, the one of the redirected input and those of the files opened for
    output, all different. *)

From Stdlib Require Import Ascii String.
From S2P Require Import Prelude RustStr ShellSyntax VfsTypes VfsIface SandboxFs SandboxFsFacts.
From S2P Require Import SandboxFsFrame Redirects.

Definition stdin_handles (r : PreparedRedirects) : gset Z :=
  match r_stdin r with Some i => {[in_handle i]} | None => ∅ end.

Definition file_handles (l : list RedirectFile) : list Z := omap rf_handle l.
Definition opened_handles (l : list RedirectFile) : gset Z := list_to_set (file_handles l).

Definition dest_ok (l : list RedirectFile) (d : OutputDestination) : Prop :=
  match d with Capture _ => True | ToFile i => (i < length l)%nat end.

Lemma file_handles_app l k : file_handles (l ++ k) = file_handles l ++ file_handles k.
Proof. apply omap_app. Qed.

Lemma file_handles_at l i f g :
  l !! i = Some f ->
  exists a b, file_handles l = a ++ option_list (rf_handle f) ++ b
    /\ file_handles (<[i := g]> l) = a ++ option_list (rf_handle g) ++ b.
Proof.
  intros Hi. pose proof (lookup_lt_Some _ _ _ Hi) as Hlt.
  exists (file_handles (take i l)), (file_handles (drop (S i) l)).
  assert (forall x, file_handles (take i l ++ x :: drop (S i) l)
    = file_handles (take i l) ++ option_list (rf_handle x) ++ file_handles (drop (S i) l)) as H.
  { intros x. rewrite file_handles_app. f_equal. unfold file_handles. simpl. by destruct (rf_handle x). }
  rewrite <- !H, (insert_take_drop l i g) by done. by rewrite take_drop_middle.
Qed.

(** Giving up the handle of one file. *)
Lemma file_handles_drop l i f g h :
  l !! i = Some f -> rf_handle f = Some h -> rf_handle g = None -> NoDup (file_handles l) ->
  NoDup (file_handles (<[i := g]> l)) /\ opened_handles (<[i := g]> l) = opened_handles l ∖ {[h]}
  /\ h ∈ opened_handles l.
Proof.
  intros Hi Hh Hg. destruct (file_handles_at l i f g Hi) as (a & b & Hl & Hl'). unfold opened_handles.
  rewrite Hl, Hl', Hh, Hg. simpl. intros (Ha & Hab & [Hb Hbb]%NoDup_cons)%NoDup_app.
  assert (h ∉ a) as Hha by (intros Hx; apply (Hab h Hx); by left).
  rewrite !list_to_set_app_L, list_to_set_cons. split; [|set_solver].
  apply NoDup_app. split; [done|]. split; [|done]. intros x Hx Hx'. apply (Hab x Hx). by right.
Qed.

Lemma file_handles_same l i f g :
  l !! i = Some f -> rf_handle g = rf_handle f -> file_handles (<[i := g]> l) = file_handles l.
Proof. intros Hi Hh. destruct (file_handles_at l i f g Hi) as (a & b & -> & ->). by rewrite Hh. Qed.

(** Replacing one handle by a new one, and adding a new one. *)
Lemma replace_handle (F O : gset Z) h p :
  h ∉ F ∪ ({[p]} ∪ O) -> F ## {[p]} ∪ O -> {[p]} ## O ->
  ({[h]} ∪ (F ∪ ({[p]} ∪ O))) ∖ {[p]} = F ∪ ({[h]} ∪ O) /\ F ## {[h]} ∪ O /\ {[h]} ## O.
Proof. intros H1 H2 H3. split_and!; [|set_solver..]. apply set_eq. intros x. set_solver. Qed.

Lemma first_handle (F O : gset Z) h :
  h ∉ F ∪ O -> F ## O -> {[h]} ∪ (F ∪ O) = F ∪ ({[h]} ∪ O) /\ F ## {[h]} ∪ O /\ {[h]} ## O.
Proof. intros H1 H2. split_and!; [|set_solver..]. apply set_eq. intros x. set_solver. Qed.

Lemma add_handle (F I O : gset Z) h :
  h ∉ F ∪ (I ∪ O) -> F ## I ∪ O -> I ## O ->
  {[h]} ∪ (F ∪ (I ∪ O)) = F ∪ (I ∪ (O ∪ {[h]})) /\ F ## I ∪ (O ∪ {[h]}) /\ I ## O ∪ {[h]}.
Proof. intros H1 H2 H3. split_and!; [|set_solver..]. apply set_eq. intros x. set_solver. Qed.

Lemma drop_handle (F I O : gset Z) h :
  h ∈ O -> F ## I ∪ O -> I ## O ->
  (F ∪ (I ∪ O)) ∖ {[h]} = F ∪ (I ∪ O ∖ {[h]}) /\ F ## I ∪ O ∖ {[h]} /\ I ## O ∖ {[h]}.
Proof. intros H1 H2 H3. split_and!; [|set_solver..]. apply set_eq. intros x. set_solver. Qed.

(** The handles the output streams go to. *)
Definition dest_handle (l : list RedirectFile) (d : OutputDestination) : gset Z :=
  match d with
  | Capture _ => ∅
  | ToFile i => match l !! i ≫= rf_handle with Some h => {[h]} | None => ∅ end
  end.

Definition stream_handles (r : PreparedRedirects) (l : list RedirectFile) : gset Z :=
  dest_handle l (r_stdout r) ∪ dest_handle l (r_stderr r).

Lemma opened_handles_elem l h : h ∈ opened_handles l <-> exists i f, l !! i = Some f /\ rf_handle f = Some h.
Proof.
  unfold opened_handles, file_handles. rewrite elem_of_list_to_set, list_elem_of_omap. split.
  - intros (f & [i Hi]%list_elem_of_lookup & Hf). eauto.
  - intros (i & f & Hi & Hf). exists f. split; [|done]. by eapply list_elem_of_lookup_2.
Qed.

Lemma dest_handle_elem l d h :
  h ∈ dest_handle l d <-> exists i f, d = ToFile i /\ l !! i = Some f /\ rf_handle f = Some h.
Proof.
  destruct d as [c|i]; simpl; [split; [set_solver|by intros (? & ? & ? & _)]|].
  destruct (l !! i) as [f|] eqn:Hi; simpl.
  - destruct (rf_handle f) as [h'|] eqn:Hf.
    + rewrite elem_of_singleton. split; [intros ->; eauto|]. intros (j & g & [= ->] & Hg & Hh). congruence.
    + split; [set_solver|]. intros (j & g & [= ->] & Hg & Hh). congruence.
  - split; [set_solver|]. intros (j & g & [= ->] & Hg & Hh). congruence.
Qed.

Section holding.
Context {W : Type} (I Room : W -> Prop) (Rooms : nat -> W -> Prop) (owned : W -> gset Z) (v : Vfs W).
Context `{Hv : !OwnerLaws I Room owned v} `{Hr : !RoomLaws I Room Rooms v}.
Context (bin_commands : list str) (cwd : str) (limits : Limits) (cap : Z) (scoped : bool)
  (cancelled_at : nat -> bool) (others_pool others_exec : Z).
Context (Hp : 0 <= others_pool) (He : 0 <= others_exec) (Hcap : cap <= USIZE_MAX)
  (Hmax : max_open_files limits <= USIZE_MAX).

Abbreviation FsInv := (FsInvx I owned limits cap scoped others_pool others_exec 0).
Abbreviation fs_open := (fs_open v bin_commands cwd limits cap scoped cancelled_at).
Abbreviation finish := (finish v scoped cancelled_at).

(** The facade with room for [n] more opens, holding [F]. *)
Definition holds (n : nat) (F : gset Z) (s : FsState W) : Prop :=
  FsInv s /\ Rooms n (fs_world s) /\ fs_files s = F.

Lemma wp_state {S E A} (m : ST S E A) s (P : S -> Prop) (Q : A -> S -> Prop) (R : E -> S -> Prop) :
  P (m s).2 -> wp m s Q R -> wp m s (fun a s' => Q a s' /\ P s') (fun e s' => R e s' /\ P s').
Proof. unfold wp. by destruct (m s) as [[a|e| |] s']. Qed.

Lemma open_step path mode n F s :
  holds (S n) F s ->
  wp (fs_open path mode) s (fun h s' => (h ∉ F) /\ holds n ({[h]} ∪ F) s') (fun _ s' => holds n F s').
Proof.
  intros (HI & HR & <-).
  eapply wp_mono; [eapply wp_conj; [by apply (fs_open_files I Room owned v bin_commands cwd limits cap scoped
                                      cancelled_at others_pool others_exec Hp He Hcap Hmax path mode s HI
                                      (rooms_room n _ HR))|
                                    by apply (fs_open_rooms I Room Rooms owned v bin_commands cwd limits cap scoped
                                      cancelled_at path mode n s (fsi_world _ _ _ _ _ _ _ _ _ HI) HR)]|..].
  - intros h s' [[HI' [Hf Hh]] HR']. done.
  - intros e s' [[HI' Hf] HR']. done.
Qed.

Lemma finish_step h abort n F s :
  holds n F s -> wp (finish h abort) s (fun _ s' => holds n (F ∖ {[h]}) s') (fun _ s' => holds n (F ∖ {[h]}) s').
Proof.
  intros (HI & HR & <-).
  eapply wp_mono; [eapply (wp_state _ _ (fun s' => fs_files s' = fs_files s ∖ {[h]})); [apply (finish_files v scoped cancelled_at h abort s)|
     eapply wp_conj; [by apply (finish_inv I Room owned v limits cap scoped cancelled_at others_pool others_exec
                        Hp He Hcap Hmax h abort s HI)|
       by apply (finish_rooms I Room Rooms v scoped cancelled_at h abort n s (fsi_world _ _ _ _ _ _ _ _ _ HI) HR)]]|..].
  all: intros ? s' [[HI' HR'] Hf]; done.
Qed.

(** ** Lifting the facade *)

Abbreviation same st st' := (r_opened st' = r_opened st /\ r_red st' = r_red st).

Lemma wp_try_fs {A} (m : ST (FsState W) Errno A) st (Q : A -> FsState W -> Prop) (R : Errno -> FsState W -> Prop)
    (Q' : outcome Errno A -> RState W -> Prop) R' :
  wp m (r_fs st) Q R ->
  (forall a s', Q a s' -> Q' (Ok a) (mkRState s' (r_opened st) (r_red st))) ->
  (forall e s', R e s' -> Q' (Err e) (mkRState s' (r_opened st) (r_red st))) ->
  wp (try_fs m) st Q' R'.
Proof. intros Hm HQ HR. unfold wp, try_fs in *. destruct (m (r_fs st)) as [[a|e| |] s']; auto. Qed.

Lemma wp_on_fs {A} path (m : ST (FsState W) Errno A) st (Q : A -> FsState W -> Prop) (R : Errno -> FsState W -> Prop)
    (Q' : A -> RState W -> Prop) (R' : str * Errno -> RState W -> Prop) :
  wp m (r_fs st) Q R ->
  (forall a s', Q a s' -> Q' a (mkRState s' (r_opened st) (r_red st))) ->
  (forall e s', R e s' -> R' (path, e) (mkRState s' (r_opened st) (r_red st))) ->
  wp (on_fs path m) st Q' R'.
Proof. intros Hm HQ HR. unfold on_fs. wp_step. eapply wp_try_fs; [exact Hm|auto..]. Qed.

(** ** The invariant *)

Record RInv (n : nat) (F : gset Z) (st : RState W) : Prop := {
  ri_holds : holds n (F ∪ (stdin_handles (r_red st) ∪ opened_handles (r_opened st))) (r_fs st);
  ri_nodup : NoDup (file_handles (r_opened st));
  ri_apart : F ## stdin_handles (r_red st) ∪ opened_handles (r_opened st);
  ri_stdin : stdin_handles (r_red st) ## opened_handles (r_opened st);
  ri_out : dest_ok (r_opened st) (r_stdout (r_red st));
  ri_err : dest_ok (r_opened st) (r_stderr (r_red st))
}.

Abbreviation keeping n F m st := (wp m st (fun _ st' => RInv n F st') (fun _ st' => RInv n F st')).

Lemma holds_less n F s : holds (S n) F s -> holds n F s.
Proof. intros (? & ? & ?). split; [done|]. split; [by apply rooms_less|done]. Qed.

Lemma RInv_less n F st : RInv (S n) F st -> RInv n F st.
Proof. intros [H1 H2 H3 H4 H5 H6]. constructor; try done. by apply holds_less. Qed.

Lemma ticked_holds n F s s' : ticked s s' -> holds n F s -> holds n F s'.
Proof.
  intros Ht (HI & HR & HF). split; [by eapply ticked_inv|]. destruct Ht as (Hw & Hf & _). by rewrite Hw, Hf.
Qed.

Lemma redirect_input_inv path n F st :
  RInv (S n) F st ->
  keeping n F (redirect_input v bin_commands cwd limits cap scoped cancelled_at path) st.
Proof.
  intros [H1 H2 H3 H4 H5 H6]. unfold redirect_input. wp_step. eapply wp_on_fs; [by apply open_step|..].
  2: { intros e s' Hs'. by constructor. }
  intros h s1 [Hh Hs1]. cbn [r_opened r_red]. wp_steps. cbn [r_opened r_red]. set (st2 := set_red _ _).
  destruct (r_stdin (r_red st)) as [p|] eqn:Hin.
  - assert (stdin_handles (r_red st) = {[in_handle p]}) as Hst by (unfold stdin_handles; by rewrite Hin).
    rewrite Hst in *. destruct (replace_handle _ _ _ _ Hh H3 H4) as (Heq & Ha & Hb).
    eapply wp_on_fs; [unfold fs_close; by apply (finish_step _ _ n _ (r_fs st2) Hs1)|..];
      intros ? s' Hs'; rewrite Heq in Hs'; by constructor.
  - assert (stdin_handles (r_red st) = ∅) as Hst by (unfold stdin_handles; by rewrite Hin). rewrite Hst in *.
    rewrite (union_empty_l_L (opened_handles _)) in *. destruct (first_handle _ _ _ Hh H3) as (Heq & Ha & Hb).
    rewrite Heq in Hs1. wp_steps. by constructor.
Qed.

Lemma dest_ok_snoc l f d : dest_ok l d -> dest_ok (l ++ [f]) d.
Proof. destruct d; simpl; [done|]. rewrite length_app. simpl. lia. Qed.

Lemma set_output_stdin fd d r : r_stdin (set_output fd d r) = r_stdin r.
Proof. unfold set_output. by destruct (fd =? 1). Qed.

Lemma set_output_dests l fd d r :
  dest_ok l d -> dest_ok l (r_stdout r) -> dest_ok l (r_stderr r) ->
  dest_ok l (r_stdout (set_output fd d r)) /\ dest_ok l (r_stderr (set_output fd d r)).
Proof. unfold set_output. by destruct (fd =? 1). Qed.

Lemma RInv_set_output n F fd d st :
  RInv n F st -> dest_ok (r_opened st) d -> RInv n F (set_red (set_output fd d (r_red st)) st).
Proof.
  intros [H1 H2 H3 H4 H5 H6] Hd. destruct (set_output_dests _ fd d _ Hd H5 H6).
  assert (stdin_handles (set_output fd d (r_red st)) = stdin_handles (r_red st)) as Hs
    by (unfold stdin_handles; by rewrite set_output_stdin).
  constructor; simpl; try done; by rewrite Hs.
Qed.

Lemma redirect_output_inv fd op path n F st :
  RInv (S n) F st ->
  keeping n F (redirect_output v bin_commands cwd limits cap scoped cancelled_at fd op path) st.
Proof.
  intros [H1 H2 H3 H4 H5 H6]. unfold redirect_output. cbv zeta. wp_step. eapply wp_on_fs; [by apply open_step|..].
  2: { intros e s' Hs'. by constructor. }
  intros h s1 [Hh Hs1]. wp_steps. cbn [r_opened r_red]. destruct (add_handle _ _ _ _ Hh H3 H4) as (Heq & Ha & Hb).
  rewrite Heq in Hs1.
  assert (opened_handles (r_opened st ++ [mkRedirectFile path (Some h) 0 None]) = opened_handles (r_opened st) ∪ {[h]})
    as Ho.
  { unfold opened_handles. rewrite file_handles_app, list_to_set_app_L. simpl. by rewrite union_empty_r_L. }
  apply (RInv_set_output n F fd (ToFile (length (r_opened st)))
           (mkRState s1 (r_opened st ++ [mkRedirectFile path (Some h) 0 None]) (r_red st))).
  - constructor; simpl; rewrite ?Ho; try done; [|by apply dest_ok_snoc..].
    rewrite file_handles_app. simpl. apply NoDup_app. split; [done|]. split; [|apply NoDup_singleton].
    intros x Hx. assert (h ∉ file_handles (r_opened st)).
    { intros Hx'. apply Hh. unfold opened_handles. set_solver. }
    set_solver.
  - simpl. rewrite length_app. simpl. lia.
Qed.

Lemma apply_fd_redirect_ok l r redirect fd :
  dest_ok l (r_stdout r) -> dest_ok l (r_stderr r) ->
  match apply_fd_redirect r redirect fd with
  | Ok r' => exists fd' d, r' = set_output fd' d r /\ dest_ok l d
  | Err _ => True
  | _ => False
  end.
Proof.
  intros H1 H2. unfold apply_fd_redirect. destruct (_ || _); [done|].
  eexists _, _. split; [done|]. by destruct (fd =? 1).
Qed.

Lemma prepare_redirect_inv redirect ws n F st :
  RInv (S n) F st ->
  keeping n F (prepare_redirect v bin_commands cwd limits cap scoped cancelled_at redirect ws) st.
Proof.
  intros HI. pose proof (RInv_less _ _ _ HI) as HI'. unfold prepare_redirect.
  destruct (redirect_target redirect) as [w|fd].
  - destruct ws as [|path [|]]; [done| |done]. cbv zeta.
    destruct (redirect_op redirect); (wp_step; [|done]);
      [by apply redirect_input_inv|by apply redirect_output_inv..].
  - wp_step. wp_step. wp_step.
    pose proof (apply_fd_redirect_ok (r_opened st) (r_red st) redirect fd (ri_out _ _ _ HI) (ri_err _ _ _ HI)) as Ha.
    destruct (apply_fd_redirect _ _ _) as [r|e| |]; try done. apply (wp_ret r). wp_steps.
    destruct Ha as (fd' & d & -> & Hd). by apply RInv_set_output.
Qed.

Lemma RInv_none n F st : RInv n F st -> RInv 0 F st.
Proof. induction n as [|n IH]; [done|]. intros H. by apply IH, RInv_less. Qed.

Lemma check_redirect path n F st :
  RInv n F st -> wp (on_fs path (check scoped cancelled_at)) st
    (fun _ st' => RInv n F st' /\ same st st') (fun _ st' => RInv n F st' /\ same st st').
Proof.
  intros [H1 H2 H3 H4 H5 H6].
  eapply (wp_on_fs _ _ _ (fun _ s' => ticked (r_fs st) s') (fun _ s' => ticked (r_fs st) s')).
  - by apply wp_check.
  - intros a s' Ht. split; [|done]. constructor; try done. by eapply ticked_holds.
  - intros e s' Ht. split; [|done]. constructor; try done. by eapply ticked_holds.
Qed.

Lemma redirect_loop_inv items F st :
  RInv (length items) F st ->
  keeping 0 F (redirect_loop v bin_commands cwd limits cap scoped cancelled_at items) st.
Proof.
  revert st. induction items as [|[redirect ws] items IH]; intros st HI; [done|]. cbn [redirect_loop length] in *.
  wp_step. eapply wp_mono; [by apply check_redirect| |].
  2: { intros e st' [H _]. by eapply RInv_none. }
  intros [] st1 [H1 _]. wp_step. eapply wp_mono; [by apply prepare_redirect_inv| |].
  - intros [] st2 H2. by apply IH.
  - intros e st2 H2. eapply RInv_none, H2.
Qed.

(** ** Finishing files *)

(** File [i] has given up its handle; nothing else changed. *)
Definition finished (i : nat) (st st' : RState W) : Prop :=
  r_red st' = r_red st
  /\ exists f, rf_handle f = None /\ r_opened st' = <[i := f]> (r_opened st).

Lemma RInv_finished n F i f g h st s' :
  RInv n F st -> r_opened st !! i = Some f -> rf_handle f = Some h -> rf_handle g = None ->
  holds n ((F ∪ (stdin_handles (r_red st) ∪ opened_handles (r_opened st))) ∖ {[h]}) s' ->
  RInv n F (mkRState s' (<[i := g]> (r_opened st)) (r_red st)).
Proof.
  intros [H1 H2 H3 H4 H5 H6] Hi Hf Hg Hs'. destruct (file_handles_drop _ _ _ _ _ Hi Hf Hg H2) as (Hn & Ho & Hh).
  destruct (drop_handle _ _ _ _ Hh H3 H4) as (Heq & Ha & Hb). rewrite Heq in Hs'.
  constructor; simpl; rewrite ?Ho; try done.
  - destruct (r_stdout (r_red st)); simpl in *; [done|]. by rewrite length_insert.
  - destruct (r_stderr (r_red st)); simpl in *; [done|]. by rewrite length_insert.
Qed.

Lemma insert_twice {A} (l : list A) i x y : <[i := y]> (<[i := x]> l) = <[i := y]> l.
Proof. apply list_insert_insert_eq. Qed.

Lemma close_file_inv i f h n F st :
  RInv n F st -> r_opened st !! i = Some f -> rf_handle f = Some h ->
  wp (close_file v scoped cancelled_at i f h) st
     (fun _ st' => RInv n F st' /\ finished i st st') (fun _ _ => False).
Proof.
  intros HI Hf Hh. unfold close_file. wp_step. wp_step. wp_step. wp_step.
  set (g := mkRedirectFile (rf_path f) None (rf_offset f) (rf_error f)).
  assert (forall e s', holds n ((F ∪ (stdin_handles (r_red st) ∪ opened_handles (r_opened st))) ∖ {[h]}) s' ->
    let st' := set_file i (mkRedirectFile (rf_path f) None (rf_offset f) e)
                 (mkRState s' (<[i := g]> (r_opened st)) (r_red st)) in RInv n F st' /\ finished i st st') as Hput.
  { intros e s' Hs'. unfold set_file, set_opened. simpl. rewrite insert_twice.
    split; [by eapply RInv_finished|]. split; [done|]. eexists. by split; [|reflexivity]. }
  wp_step. eapply (wp_mono _ _ (fun _ st1 => exists s1,
    st1 = mkRState s1 (<[i := g]> (r_opened st)) (r_red st)
    /\ holds n (F ∪ (stdin_handles (r_red st) ∪ opened_handles (r_opened st))) s1) _ (fun _ _ => False)).
  - destruct (rf_error f); [wp_steps; eexists; split; [done|apply HI]|].
    eapply (wp_on_fs _ _ _ (fun _ s' => ticked (r_fs st) s') (fun _ _ => False)); [|intros b s' Ht|done].
    + by apply wp_is_cancelled.
    + eexists. split; [done|]. eapply ticked_holds; [done|apply HI].
  - intros b st1 (s1 & -> & Hs1). wp_step.
    eapply wp_try_fs; [destruct b; by apply (finish_step h _ n _ s1 Hs1)|..]; intros ? s' Hs'; wp_steps; by apply Hput.
  - done.
Qed.

Lemma finish_file_inv i n F st :
  RInv n F st -> (i < length (r_opened st))%nat ->
  wp (finish_file v scoped cancelled_at i) st
     (fun _ st' => RInv n F st' /\ finished i st st') (fun _ st' => RInv n F st' /\ finished i st st').
Proof.
  intros HI [f Hf]%lookup_lt_is_Some. unfold finish_file. wp_step. wp_step. wp_step. rewrite Hf. cbn [expect].
  apply (wp_ret f). wp_step.
  eapply (wp_mono _ _ (fun _ st' => RInv n F st' /\ finished i st st') _ (fun _ _ => False)); [| |done].
  - destruct (rf_handle f) as [h|] eqn:Hh; [by apply close_file_inv|]. wp_step. split; [done|].
    split; [done|]. exists f. split; [done|]. by rewrite list_insert_id.
  - intros [e|] st' H; by wp_steps.
Qed.

(** File [i] is closed, unless a stream goes to it. *)
Definition settled (r : PreparedRedirects) (l : list RedirectFile) (i : nat) : Prop :=
  forall f, l !! i = Some f -> rf_handle f = None \/ referenced r i = true.

Lemma settled_finished i st st' j :
  finished i st st' -> j = i \/ settled (r_red st) (r_opened st) j -> settled (r_red st') (r_opened st') j.
Proof.
  intros (Hred & g & Hg & Hl) Hj f Hf. rewrite Hred. rewrite Hl in Hf.
  destruct (decide (i = j)) as [<-|Hne].
  - apply list_lookup_insert_Some in Hf as [(_ & <- & _)|[? _]]; [by left|done].
  - rewrite list_lookup_insert_ne in Hf by done. destruct Hj as [->|Hj]; [done|by apply Hj].
Qed.

(** When every other file is closed, the open files are those the streams go to. *)
Lemma settled_handles r l : (forall i, settled r l i) -> opened_handles l = stream_handles r l.
Proof.
  intros H. unfold stream_handles. apply set_eq. intros h. rewrite elem_of_union, !dest_handle_elem, opened_handles_elem.
  split.
  - intros (i & f & Hi & Hf). destruct (H i f Hi) as [?|Hr']; [congruence|].
    unfold referenced in Hr'. apply orb_true_iff in Hr' as [Hr'|Hr']; unbool; [left|right]; eauto.
  - intros [(i & f & _ & ?)|(i & f & _ & ?)]; eauto.
Qed.

Lemma elem_of_cons_or {A} (i j : A) l (P : Prop) : j ∈ i :: l \/ P -> (j = i \/ j ∈ l) \/ P.
Proof. intros [Hj|?]; [left|by right]. inversion Hj; subst; auto. Qed.

Lemma finish_opened_inv files result n F st :
  RInv n F st -> Forall (fun i => i < length (r_opened st))%nat files -> returns result ->
  wp (finish_opened v scoped cancelled_at files result) st
     (fun result' st' => RInv n F st' /\ r_red st' = r_red st /\ returns result'
        /\ length (r_opened st') = length (r_opened st)
        /\ forall i, i ∈ files \/ settled (r_red st) (r_opened st) i -> settled (r_red st) (r_opened st') i)
     (fun _ _ => False).
Proof.
  revert result st. induction files as [|i files IH]; intros result st HI Hall Hret; cbn [finish_opened].
  { wp_step. do 4 (split; [done|]). intros i [Hi|?]; [by apply not_elem_of_nil in Hi|done]. }
  apply Forall_cons in Hall as [Hi Hall]. do 2 wp_step.
  destruct (negb (is_ok result) || negb (referenced (r_red st) i)) eqn:Hc.
  - wp_step. apply wp_attempted. eapply (wp_mono _ _ (fun _ st' => RInv n F st' /\ finished i st st') _
      (fun _ st' => RInv n F st' /\ finished i st st')); [by apply finish_file_inv|..].
    all: intros x st1 [HI1 Hf]; pose proof Hf as (Hred & g & _ & Hl).
    all: assert (length (r_opened st1) = length (r_opened st)) as Hlen by (by rewrite Hl, length_insert).
    all: eapply wp_mono; [apply IH; [done|by rewrite Hlen|by destruct result]| |done].
    all: intros result' st' (HI' & Hred' & Hret' & Hlen' & Hset); rewrite Hred in *.
    all: split; [done|]; split; [congruence|]; split; [done|]; split; [congruence|]; intros j Hj.
    all: apply Hset; apply elem_of_cons_or in Hj.
    all: destruct Hj as [[->|?]|?]; [right|by left|right]; rewrite <- Hred; eapply settled_finished; eauto.
  - apply orb_false_iff in Hc as [_ Href%negb_false_iff]. eapply wp_mono; [by apply IH| |done].
    intros result' st' (HI' & Hred' & Hret' & Hlen' & Hset). do 4 (split; [done|]). intros j Hj. apply Hset.
    apply elem_of_cons_or in Hj. destruct Hj as [[->|?]|?]; [right|by left|by right]. intros f _. by right.
Qed.

Lemma close_stdin_inv o n (F : gset Z) st :
  (forall p, o = Some p -> holds n ({[in_handle p]} ∪ (F ∪ opened_handles (r_opened st))) (r_fs st)
                          /\ in_handle p ∉ F ∪ opened_handles (r_opened st)) ->
  (o = None -> holds n (F ∪ opened_handles (r_opened st)) (r_fs st)) ->
  wp (close_stdin_redirect v scoped cancelled_at o) st
     (fun _ st' => holds n (F ∪ opened_handles (r_opened st)) (r_fs st') /\ same st st') (fun _ _ => False).
Proof.
  intros HS HN. unfold close_stdin_redirect. destruct o as [p|]; [|wp_step; split; [by apply HN|done]].
  destruct (HS p eq_refl) as [Hh Hni]. wp_step.
  assert (({[in_handle p]} ∪ (F ∪ opened_handles (r_opened st))) ∖ {[in_handle p]} = F ∪ opened_handles (r_opened st))
    as Heq by (clear -Hni; apply set_eq; intros x; set_solver).
  eapply wp_try_fs; [unfold fs_close; by apply (finish_step _ _ n _ _ Hh)|..]; intros ? s' Hs'; wp_steps;
    rewrite Heq in Hs'; done.
Qed.

(** Closing the redirected input. *)
Lemma drop_stdin_inv n F st :
  RInv n F st ->
  wp (let! o := take_stdin in close_stdin_redirect v scoped cancelled_at o) st
     (fun _ st' => RInv n F st' /\ r_stdin (r_red st') = None /\ r_opened st' = r_opened st
                   /\ r_stdout (r_red st') = r_stdout (r_red st) /\ r_stderr (r_red st') = r_stderr (r_red st))
     (fun _ _ => False).
Proof.
  intros [H1 H2 H3 H4 H5 H6]. unfold take_stdin. wp_steps. unfold stdin_handles in *.
  eapply wp_mono; [apply (close_stdin_inv _ n F)| |done].
  - intros p Ho. rewrite Ho in *. simpl. split; [|clear -H3 H4; set_solver].
    replace ({[in_handle p]} ∪ (F ∪ opened_handles (r_opened st)) : gset Z)
      with (F ∪ ({[in_handle p]} ∪ opened_handles (r_opened st)) : gset Z); [done|].
    clear. apply set_eq. intros x. set_solver.
  - intros Ho. rewrite Ho, union_empty_l_L in H1. done.
  - intros [] st' [Hh [Ho Hred]]. rewrite Hred. simpl. split; [|by rewrite Ho]. simpl in Ho, Hh.
    assert (stdin_handles (r_red st') = ∅) as Hst by (by rewrite Hred).
    constructor; rewrite ?Hst, ?Ho, ?Hred, ?union_empty_l_L; try done. clear -H3. set_solver.
Qed.

Lemma holds_le n m F s : (m <= n)%nat -> holds n F s -> holds m F s.
Proof. induction 1 as [|n' _ IH]; [done|]. intros H. by apply IH, holds_less. Qed.

Lemma RInv_start n F s : holds n F s -> RInv n F (mkRState s [] default_redirects).
Proof.
  intros H. assert (stdin_handles default_redirects ∪ opened_handles [] = ∅) as Heq by (clear; set_solver).
  constructor; cbn [r_fs r_red r_opened]; rewrite ?Heq, ?union_empty_r_L; try done; [constructor|clear; set_solver..].
Qed.

Lemma prepare_redirects_inv simple targets F st :
  holds (length (redirects simple)) F (r_fs st) ->
  wp (prepare_redirects v bin_commands cwd limits cap scoped cancelled_at simple targets) st
     (fun red st' => RInv 0 F st' /\ red = r_red st' /\ forall i, settled (r_red st') (r_opened st') i)
     (fun _ st' => RInv 0 F st' /\ r_stdin (r_red st') = None /\ forall i, settled (r_red st') (r_opened st') i).
Proof.
  intros Hs. unfold prepare_redirects. wp_steps. apply wp_attempted.
  assert (RInv (length (zip (redirects simple) targets)) F (mkRState (r_fs st) [] default_redirects)) as HI.
  { apply RInv_start. eapply holds_le; [|done]. rewrite length_zip_with. lia. }
  assert (forall result st1, returns result -> RInv 0 F st1 ->
    wp (let! st := sget in
        let! result := finish_opened v scoped cancelled_at (seq 0 (length (r_opened st))) result in
        match result with
        | Ok _ => let! st := sget in sret (r_red st)
        | Err err =>
            let! stdin := take_stdin in
            let! _ := close_stdin_redirect v scoped cancelled_at stdin in
            sfail err
        | Panic => slift Panic
        | OutOfFuel => slift OutOfFuel
        end) st1
      (fun red st' => RInv 0 F st' /\ red = r_red st' /\ forall i, settled (r_red st') (r_opened st') i)
      (fun _ st' => RInv 0 F st' /\ r_stdin (r_red st') = None /\ forall i, settled (r_red st') (r_opened st') i))
    as Hend.
  { clear HI Hs. intros result st1 Hret HI1. do 2 wp_step. wp_step.
    eapply wp_mono; [apply (finish_opened_inv _ result 0 F st1 HI1); [|done]| |done].
    { apply Forall_forall. intros i Hi%elem_of_seq. lia. }
    intros result' st2 (HI2 & Hred & Hret' & Hlen & Hset).
    assert (forall i, settled (r_red st2) (r_opened st2) i) as Hall.
    { intros i f Hf. rewrite Hred. apply Hset; [|done]. left. apply elem_of_seq.
      apply lookup_lt_Some in Hf. lia. }
    destruct result' as [[]|e| |]; try done.
    pose proof (drop_stdin_inv 0 F st2 HI2) as Hdrop. unfold wp, sbind in *.
    destruct (take_stdin st2) as [[o|?| |] st3]; try done.
    destruct (close_stdin_redirect v scoped cancelled_at o st3) as [[[]|?| |] st4]; try done. simpl.
    destruct Hdrop as (HI4 & Hin & Ho & Hso & Hse). split; [done|]. split; [done|]. intros i f Hf.
    rewrite Ho in Hf. destruct (Hall i f Hf) as [?|Hr']; [by left|right]. unfold referenced in *.
    by rewrite Hso, Hse. }
  eapply wp_mono; [by apply redirect_loop_inv|..].
  - intros [] st1 H1. by apply (Hend (Ok tt)).
  - intros e st1 H1. by apply (Hend (Err e)).
Qed.

(** ** Finishing the streams *)

Definition all_closed (l : list RedirectFile) : Prop := Forall (fun f => rf_handle f = None) l.

Lemma all_closed_handles l : all_closed l -> opened_handles l = ∅.
Proof.
  intros H. unfold opened_handles. assert (file_handles l = []) as ->; [|done].
  induction H as [|f l Hf _ IH]; [done|]. unfold file_handles in *. simpl. by rewrite Hf.
Qed.

Lemma finish_destination_inv d result n F st :
  RInv n F st -> dest_ok (r_opened st) d -> returns result ->
  wp (finish_destination v scoped cancelled_at d result) st
     (fun result' st' => RInv n F st' /\ r_red st' = r_red st /\ returns result'
        /\ length (r_opened st') = length (r_opened st)
        /\ forall i f, r_opened st' !! i = Some f -> rf_handle f = None \/ (d <> ToFile i /\ r_opened st !! i = Some f))
     (fun _ _ => False).
Proof.
  intros HI Hd Hret. destruct d as [c|i]; cbn [finish_destination].
  { wp_step. do 4 (split; [done|]). intros i f Hf. right. done. }
  wp_step. apply wp_attempted.
  eapply (wp_mono _ _ (fun _ st' => RInv n F st' /\ finished i st st') _ (fun _ st' => RInv n F st' /\ finished i st st'));
    [by apply finish_file_inv|..].
  all: intros x st1 [HI1 (Hred & g & Hg & Hl)]; wp_step; split; [done|]; split; [done|].
  all: split; [by destruct result|]; split; [by rewrite Hl, length_insert|].
  all: intros j f Hf; rewrite Hl in Hf.
  all: apply list_lookup_insert_Some in Hf as [(-> & <- & _)|[Hne Hf]]; [by left|right; split; [congruence|done]].
Qed.

Lemma finish_redirects_inv n F st :
  RInv n F st -> (forall i, settled (r_red st) (r_opened st) i) ->
  wp (finish_redirects v scoped cancelled_at) st
     (fun _ st' => RInv n F st' /\ r_red st' = r_red st /\ all_closed (r_opened st'))
     (fun _ st' => RInv n F st' /\ r_red st' = r_red st /\ all_closed (r_opened st')).
Proof.
  intros HI Hset. unfold finish_redirects. wp_step. wp_step. wp_step.
  eapply wp_mono; [by apply finish_destination_inv; [|apply HI|]| |done].
  intros r1 st1 (HI1 & Hred1 & Hret1 & Hlen1 & Hc1). wp_step.
  eapply wp_mono; [apply finish_destination_inv; [done|rewrite <- Hred1; apply HI1|done]| |done].
  intros r2 st2 (HI2 & Hred2 & Hret2 & _ & Hc2).
  assert (all_closed (r_opened st2)) as Hall.
  { apply Forall_forall. intros f [i Hi]%list_elem_of_lookup. destruct (Hc2 i f Hi) as [?|[Hne2 Hi1]]; [done|].
    destruct (Hc1 i f Hi1) as [?|[Hne1 Hi0]]; [done|]. destruct (Hset i f Hi0) as [?|Hr']; [done|].
    unfold referenced in Hr'. apply orb_true_iff in Hr' as [Hr'|Hr']; by unbool. }
  rewrite Hred1 in Hred2. apply wp_lift; [done|intros; done..].
Qed.

Lemma redirect_only_inv simple targets F st :
  holds (length (redirects simple)) F (r_fs st) ->
  wp (redirect_only v bin_commands cwd limits cap scoped cancelled_at simple targets) st
     (fun _ st' => holds 0 F (r_fs st'))
     (fun _ st' => RInv 0 F st' /\ r_stdin (r_red st') = None /\ forall i, settled (r_red st') (r_opened st') i).
Proof.
  intros Hs. unfold redirect_only. wp_step. eapply wp_mono; [by apply prepare_redirects_inv| |done].
  intros red st1 (HI1 & _ & Hset1). pose proof (drop_stdin_inv 0 F st1 HI1) as Hdrop. unfold wp, sbind in *.
  destruct (take_stdin st1) as [[o|?| |] st2]; try done.
  destruct (close_stdin_redirect v scoped cancelled_at o st2) as [[[]|?| |] st3]; try done.
  destruct Hdrop as (HI3 & Hin & Ho & Hso & Hse).
  assert (forall i, settled (r_red st3) (r_opened st3) i) as Hset3.
  { intros i f Hf. rewrite Ho in Hf. destruct (Hset1 i f Hf) as [?|Hr']; [by left|right].
    unfold referenced in *. by rewrite Hso, Hse. }
  pose proof (finish_redirects_inv 0 F st3 HI3 Hset3) as Hfin. unfold wp in Hfin.
  destruct (finish_redirects v scoped cancelled_at st3) as [[[]|?| |] st4]; try done.
  - destruct Hfin as (HI4 & Hred & Hall). pose proof (ri_holds _ _ _ HI4) as Hh.
    assert (stdin_handles (r_red st4) = ∅) as Hst by (unfold stdin_handles; by rewrite Hred, Hin).
    rewrite Hst, (all_closed_handles _ Hall), union_empty_l_L, union_empty_r_L in Hh. done.
  - destruct Hfin as (HI4 & Hred & Hall). split; [done|]. split; [by rewrite Hred|].
    intros i f Hf. left. eapply Forall_lookup_1 in Hall; done.
Qed.
End holding.
