(* ===== verification/ShellBuiltins.v ===== *)
(** * The builtins that change the shell session (src/src/sandbox/mod.rs)

    [cd], [export] and [unset] work on the session of the sandbox and on the
    environment of the command they are part of; [cd] asks the filesystem facade,
    whose working directory is that of the session when the command started. *)

From Stdlib Require Import Ascii String.
From S2P Require Import Prelude RustStr BTreeMap VfsTypes VfsPath VfsIface SandboxFs SandboxFsFacts JsGlobals.

Inductive ShellBuiltin := Cd | Export | Unset.

Definition builtin_name (b : ShellBuiltin) : str :=
  match b with
  | Cd => lit "cd"
  | Export => lit "export"
  | Unset => lit "unset"
  end.

(** [s.split_once(c)]. *)
Fixpoint split_once (c : char) (s : str) : option (str * str) :=
  match s with
  | [] => None
  | d :: s' =>
      if (d =? c)%N then Some ([], s')
      else match split_once c s' with
           | Some (a, b) => Some (d :: a, b)
           | None => None
           end
  end.

(** [ShellBuiltinContext] with the session it borrows. *)
Record BState (W : Type) := mkBState {
  b_fs : FsState W;
  b_cwd : str;
  b_session_env : list (str * str);
  b_env : list (str * str);
  b_stdout : str;
  b_stderr : str
}.
Arguments mkBState {W}.
Arguments b_fs {W}.
Arguments b_cwd {W}.
Arguments b_session_env {W}.
Arguments b_env {W}.
Arguments b_stdout {W}.
Arguments b_stderr {W}.

Section builtins.
Context {W : Type} (v : Vfs W) (bin_commands : list str) (fs_cwd : str) (limits : Limits) (scoped : bool)
  (cancelled_at : nat -> bool).

Abbreviation BM := (ST (BState W) Errno).

Definition set_envs (session_env env : list (str * str)) (st : BState W) : BState W :=
  mkBState (b_fs st) (b_cwd st) session_env env (b_stdout st) (b_stderr st).

(** [ctx.stderr.extend_from_slice(text)], and the status 1. *)
Definition complain (text : str) : BM Z :=
  let! st := sget in
  let! _ := sput (mkBState (b_fs st) (b_cwd st) (b_session_env st) (b_env st) (b_stdout st) (b_stderr st ++ text)) in
  sret 1.

Definition builtin_stat (path : str) : BM (outcome Errno Metadata) :=
  fun st => let '(o, s') := fs_stat v bin_commands fs_cwd limits scoped cancelled_at path (b_fs st) in
            let st' := mkBState s' (b_cwd st) (b_session_env st) (b_env st) (b_stdout st) (b_stderr st) in
            match o with
            | Ok m => (Ok (Ok m), st')
            | Err e => (Ok (Err e), st')
            | Panic => (Panic, st')
            | OutOfFuel => (OutOfFuel, st')
            end.

Definition change_directory (path : str) (st : BState W) : BState W :=
  let old_pwd := b_cwd st in
  let session_env := bt_insert (lit "PWD") path (bt_insert (lit "OLDPWD") old_pwd (b_session_env st)) in
  let env := bt_insert (lit "PWD") path (bt_insert (lit "OLDPWD") old_pwd (b_env st)) in
  mkBState (b_fs st) path session_env env (b_stdout st) (b_stderr st).

Definition run_cd (args : list str) : BM Z :=
  if (1 <? length args)%nat then complain (lit "cd: too many arguments" ++ [ch NL])
  else
    let! st := sget in
    match (match args with target :: _ => Some target | [] => bt_get (lit "HOME") (b_session_env st) end) with
    | None => complain (lit "cd: HOME not set" ++ [ch NL])
    | Some target =>
        let path := resolve fs_cwd target in
        let! r := builtin_stat path in
        match r with
        | Ok m =>
            if is_dir m then
              let! st := sget in let! _ := sput (change_directory path st) in sret 0
            else complain (lit "cd: " ++ target ++ lit ": Not a directory" ++ [ch NL])
        | Err e => complain (lit "cd: " ++ target ++ lit ": " ++ lit (errno_message e) ++ [ch NL])
        | Panic => slift Panic
        | OutOfFuel => slift OutOfFuel
        end
    end.

Definition declare_line (entry : str * str) : str :=
  lit "declare -x " ++ entry.1 ++ lit "=" ++ [ch DQUOTE] ++ entry.2 ++ [ch DQUOTE; ch NL].

Definition not_an_identifier (command : string) (arg : str) : str :=
  lit command ++ lit ": `" ++ arg ++ lit "': not a valid identifier" ++ [ch NL].

Fixpoint export_loop (args : list str) : BM Z :=
  match args with
  | [] => sret 0
  | arg :: args =>
      let! st := sget in
      match split_once (ch "=") arg with
      | Some (name, value) =>
          if is_assignment_name name then
            let! _ := sput (set_envs (bt_insert name value (b_session_env st)) (bt_insert name value (b_env st)) st) in
            export_loop args
          else complain (not_an_identifier "export" arg)
      | None =>
          if is_assignment_name arg then
            (* [entry(arg).or_default()] *)
            let session_env := match bt_get arg (b_session_env st) with
                               | Some _ => b_session_env st
                               | None => bt_insert arg [] (b_session_env st)
                               end in
            let! _ := sput (set_envs session_env (b_env st) st) in
            export_loop args
          else complain (not_an_identifier "export" arg)
      end
  end.

Definition run_export (args : list str) : BM Z :=
  match args with
  | [] =>
      let! st := sget in
      let! _ := sput (mkBState (b_fs st) (b_cwd st) (b_session_env st) (b_env st)
                        (b_stdout st ++ concat (map declare_line (b_session_env st))) (b_stderr st)) in
      sret 0
  | _ => export_loop args
  end.

Fixpoint run_unset (args : list str) : BM Z :=
  match args with
  | [] => sret 0
  | arg :: args =>
      let! st := sget in
      if is_assignment_name arg then
        let! _ := sput (set_envs (bt_remove arg (b_session_env st)) (bt_remove arg (b_env st)) st) in
        run_unset args
      else complain (not_an_identifier "unset" arg)
  end.

Definition run_shell_builtin_stage (builtin : ShellBuiltin) (args : list str) : BM Z :=
  match builtin with
  | Cd => run_cd args
  | Export => run_export args
  | Unset => run_unset args
  end.
End builtins.

(** ** What they keep and what they do *)

Lemma errno_message_nonempty e : lit (errno_message e) <> [].
Proof. by destruct e. Qed.

Section facts.
Context {W : Type} (I Room : W -> Prop) (owned : W -> gset Z) (v : Vfs W).
Context `{Hv : !OwnerLaws I Room owned v}.
Context (bin_commands : list str) (fs_cwd : str) (limits : Limits) (cap : Z) (scoped : bool)
  (cancelled_at : nat -> bool) (others_pool others_exec : Z).

Abbreviation FsInv := (FsInvx I owned limits cap scoped others_pool others_exec 0).
Abbreviation run := (run_shell_builtin_stage v bin_commands fs_cwd limits scoped cancelled_at).

(** The working directory is absolute and normalized, the environments are maps. *)
Record session_ok (st : BState W) : Prop := {
  so_cwd : exists cs, b_cwd st = path_of cs /\ Forall part_name cs;
  so_env : bt_wf (b_session_env st);
  so_command_env : bt_wf (b_env st);
  so_fs : FsInv (b_fs st)
}.

(** Names appear in the session's environment only if they are identifiers. *)
Definition names_from (st st' : BState W) : Prop :=
  forall name, name ∈ bt_keys (b_session_env st') -> name ∈ bt_keys (b_session_env st) \/ is_assignment_name name = true.

(** The status tells whether a message was written. *)
Definition reported (st st' : BState W) (status : Z) : Prop :=
  (status = 0 /\ b_stderr st' = b_stderr st)
  \/ (status = 1 /\ exists text, text <> [] /\ b_stderr st' = b_stderr st ++ text).

Abbreviation keeps_session m st :=
  (wp m st (fun status st' => session_ok st' /\ names_from st st' /\ reported st st' status) (fun _ _ => False)).

Lemma complain_ok text st :
  text <> [] -> session_ok st -> keeps_session (complain text) st.
Proof.
  intros Ht [H1 H2 H3 H4]. unfold complain. wp_steps. split; [by constructor|]. split; [by left|]. right.
  split; [done|]. by exists text.
Qed.

Lemma step_session st st1 status st' :
  names_from st st1 -> b_stderr st1 = b_stderr st ->
  session_ok st' /\ names_from st1 st' /\ reported st1 st' status ->
  session_ok st' /\ names_from st st' /\ reported st st' status.
Proof.
  intros Hn He (Hok & Hn' & Hr). split; [done|]. split.
  - intros name Hname. destruct (Hn' name Hname) as [?|?]; [by apply Hn|by right].
  - unfold reported in *. by rewrite <- He.
Qed.

Lemma names_from_insert st name value env' :
  is_assignment_name name = true ->
  names_from st (set_envs (bt_insert name value (b_session_env st)) env' st).
Proof. intros Hv' n Hn. simpl in Hn. apply bt_keys_insert in Hn as [->|?]; auto. Qed.

Lemma export_loop_ok args st : session_ok st -> keeps_session (export_loop args) st.
Proof.
  revert st. induction args as [|arg args IH]; intros st Hst; cbn [export_loop].
  { wp_step. split; [done|]. split; [by left|by left]. }
  wp_step. wp_step. pose proof Hst as [H1 H2 H3 H4].
  destruct (split_once (ch "=") arg) as [[name value]|].
  - wp_step; [|by apply complain_ok]. wp_steps.
    eapply wp_mono; [apply IH; constructor; simpl; try done; by apply bt_wf_insert| |done].
    intros status st'. apply step_session; [by apply names_from_insert|done].
  - wp_step; [|by apply complain_ok]. wp_steps. destruct (bt_get arg (b_session_env st)) as [x|].
    + eapply wp_mono; [apply IH; by constructor| |done]. intros status st'. apply step_session; [by left|done].
    + eapply wp_mono; [apply IH; constructor; simpl; try done; by apply bt_wf_insert| |done].
      intros status st'. apply step_session; [by apply names_from_insert|done].
Qed.

Lemma run_unset_ok args st : session_ok st -> keeps_session (run_unset args) st.
Proof.
  revert st. induction args as [|arg args IH]; intros st Hst; cbn [run_unset].
  { wp_step. split; [done|]. split; [by left|by left]. }
  wp_step. wp_step. wp_step; [|by apply complain_ok]. pose proof Hst as [H1 H2 H3 H4]. wp_steps.
  eapply wp_mono; [apply IH; constructor; simpl; try done; by apply bt_wf_remove| |done].
  intros status st'. apply step_session; [|done]. intros n Hn. left. simpl in Hn. by eapply bt_keys_remove.
Qed.

Lemma wp_builtin_stat path st (Q : outcome Errno Metadata -> BState W -> Prop) R :
  FsInv (b_fs st) ->
  (forall o s', fs_stat v bin_commands fs_cwd limits scoped cancelled_at path (b_fs st) = (o, s') -> returns o ->
     FsInv s' -> Q o (mkBState s' (b_cwd st) (b_session_env st) (b_env st) (b_stdout st) (b_stderr st))) ->
  wp (builtin_stat v bin_commands fs_cwd limits scoped cancelled_at path) st Q R.
Proof.
  intros HI HQ. pose proof (fs_stat_inv I Room owned v bin_commands fs_cwd limits cap scoped cancelled_at others_pool
                             others_exec path (b_fs st) HI) as H.
  unfold wp, builtin_stat in *. destruct (fs_stat _ _ _ _ _ _ path (b_fs st)) as [[m|e| |] s']; try done; by apply HQ.
Qed.

(** The directory [cd] goes to: its argument, or the home directory. *)
Definition cd_target (args : list str) (st : BState W) : option str :=
  match args with
  | [] => bt_get (lit "HOME") (b_session_env st)
  | [target] => Some target
  | _ => None
  end.

(** [cd] moved to the target, which is a directory. *)
Definition cd_done (args : list str) (st st' : BState W) : Prop :=
  exists target m s', cd_target args st = Some target
    /\ fs_stat v bin_commands fs_cwd limits scoped cancelled_at (resolve fs_cwd target) (b_fs st) = (Ok m, s')
    /\ is_dir m = true
    /\ b_cwd st' = resolve fs_cwd target
    /\ bt_get (lit "PWD") (b_session_env st') = Some (b_cwd st')
    /\ bt_get (lit "OLDPWD") (b_session_env st') = Some (b_cwd st)
    /\ bt_get (lit "PWD") (b_env st') = Some (b_cwd st')
    /\ bt_get (lit "OLDPWD") (b_env st') = Some (b_cwd st)
    /\ forall name, name <> lit "PWD" -> name <> lit "OLDPWD" ->
         bt_get name (b_session_env st') = bt_get name (b_session_env st)
         /\ bt_get name (b_env st') = bt_get name (b_env st).

(** [cd] stayed where it was. *)
Definition cd_refused (st st' : BState W) : Prop :=
  b_cwd st' = b_cwd st /\ b_session_env st' = b_session_env st /\ b_env st' = b_env st.

Lemma change_directory_done path (st : BState W) :
  let st' := change_directory path st in
  bt_get (lit "PWD") (b_session_env st') = Some path /\ bt_get (lit "OLDPWD") (b_session_env st') = Some (b_cwd st)
  /\ bt_get (lit "PWD") (b_env st') = Some path /\ bt_get (lit "OLDPWD") (b_env st') = Some (b_cwd st)
  /\ forall name, name <> lit "PWD" -> name <> lit "OLDPWD" ->
       bt_get name (b_session_env st') = bt_get name (b_session_env st)
       /\ bt_get name (b_env st') = bt_get name (b_env st).
Proof.
  assert (lit "PWD" <> lit "OLDPWD") as Hne by done.
  assert (forall e : list (str * str), bt_get (lit "OLDPWD") (bt_insert (lit "PWD") path (bt_insert (lit "OLDPWD")
    (b_cwd st) e)) = Some (b_cwd st)) as Hold by (intros e; by rewrite bt_get_insert_ne, bt_get_insert_eq).
  cbn [change_directory b_session_env b_env]. rewrite !bt_get_insert_eq, !Hold.
  do 4 (split; [done|]). intros name H1 H2. by rewrite !bt_get_insert_ne.
Qed.

Lemma run_cd_ok args st :
  session_ok st ->
  wp (run_cd v bin_commands fs_cwd limits scoped cancelled_at args) st
     (fun status st' => (session_ok st' /\ names_from st st' /\ reported st st' status)
        /\ if status =? 0 then cd_done args st st' else cd_refused st st')
     (fun _ _ => False).
Proof.
  intros Hst. pose proof Hst as [H1 H2 H3 H4].
  assert (forall text s', FsInv s' -> text <> [] ->
    wp (complain text) (mkBState s' (b_cwd st) (b_session_env st) (b_env st) (b_stdout st) (b_stderr st))
       (fun status st' => (session_ok st' /\ names_from st st' /\ reported st st' status)
          /\ if status =? 0 then cd_done args st st' else cd_refused st st') (fun _ _ => False)) as Hcomplain.
  { intros text s' Hs' Ht. unfold complain. wp_steps. split; [|done]. split; [by constructor|]. split; [by left|].
    right. split; [done|]. by exists text. }
  assert (st = mkBState (b_fs st) (b_cwd st) (b_session_env st) (b_env st) (b_stdout st) (b_stderr st)) as Est
    by (by destruct st).
  unfold run_cd. destruct (1 <? length args)%nat eqn:Hlen; [rewrite Est; by apply Hcomplain|].
  do 2 wp_step.
  assert ((match args with target :: _ => Some target | [] => bt_get (lit "HOME") (b_session_env st) end)
          = cd_target args st) as -> by (destruct args as [|? [|? ?]]; done).
  destruct (cd_target args st) as [target|] eqn:Ht; [|rewrite Est; by apply Hcomplain].
  cbv zeta. wp_step. apply wp_builtin_stat; [done|]. intros o s' Ho Hret Hs'.
  destruct o as [m|e| |]; try done.
  - destruct (is_dir m) eqn:Hd; [|by apply Hcomplain]. wp_steps.
    destruct (change_directory_done (resolve fs_cwd target)
      (mkBState s' (b_cwd st) (b_session_env st) (b_env st) (b_stdout st) (b_stderr st))) as (C1 & C2 & C3 & C4 & C5).
    split; [|exists target, m, s'; done]. split; [|split; [|by left]].
    + constructor; simpl; [apply normalize_absolute_parts|by repeat apply bt_wf_insert..|done].
    + intros name Hn. simpl in Hn. apply bt_keys_insert in Hn as [->|Hn]; [by right|].
      apply bt_keys_insert in Hn as [->|Hn]; [by right|by left].
  - apply Hcomplain; [done|]. by destruct target.
Qed.
End facts.
