(* ===== verification/ShellSpec.v ===== *)
(** * Properties of the shell front end: lexer, parser, word expansion *)

From Stdlib Require Import Ascii String Sorted.
From S2P Require Import Prelude RustStr BTreeMap ShellSyntax ShellLex ShellParse ShellLexFacts.
From S2P Require Import ShellParseFacts ShellQuote Expansion ExpansionFacts.

#[local] Open Scope nat_scope.

(** C1: a caller that quotes its arguments gets exactly those arguments.
    Whatever characters the arguments contain, the quoted text parses to a
    single simple command, and its expansion yields the arguments themselves as
    the command's words, at a cost of exactly their bytes and their storage. *)
Theorem quoted_arguments_reach_argv (sz sv se : N) args env status b :
  args <> [] ->
  exists ws,
    parse (shell_join args)
    = Ok (mkProgram [mkAndOrList (mkPipeline [Simple (mkSimpleCommand [] ws [])]) []])
    /\ expand sz sv se (mkSimpleCommand [] ws []) env status b
       = pay b (se + env_cost sz env + args_cost sz args)
           (mkExpandedCommand (mkSimpleCommand [] ws []) env args []).
Proof.
  intros Hne. destruct (parse_shell_join args Hne) as (ws & Hp & Hws). exists ws. split; [done|].
  apply expand_verbatim; [done|]. pose proof (parse_post (shell_join args)) as Hok. rewrite Hp in Hok.
  apply Forall_cons in Hok as [[[_ Hc] _] _]. by apply Forall_cons in Hc as [(_ & Hw & _) _].
Qed.

Lemma quoted_arguments_reach_argv_witness :
  exists ws,
    parse (shell_join [lit "a'b"; lit "$x *"])
    = Ok (mkProgram [mkAndOrList (mkPipeline [Simple (mkSimpleCommand [] ws [])]) []])
    /\ expand 24 24 100 (mkSimpleCommand [] ws []) [] 0%Z 1000
       = pay 1000 (100 + env_cost 24 [] + args_cost 24 [lit "a'b"; lit "$x *"])
           (mkExpandedCommand (mkSimpleCommand [] ws []) [] [lit "a'b"; lit "$x *"] []).
Proof. apply (quoted_arguments_reach_argv 24 24 100 [lit "a'b"; lit "$x *"] [] 0%Z 1000). discriminate. Defined.

(** C2: the lexer is total and keeps its positions inside the source.  On every
    input it returns, never slicing off a character boundary: either tokens in
    strictly increasing source order, each starting on a character boundary
    inside the input, whose unquoted literals contain no character of the
    unsupported syntax; or an error whose position is a character boundary. *)
Theorem lex_total_and_positioned input :
  match lex input with
  | Ok ts =>
      StronglySorted lt (token_position <$> ts)
      /\ Forall (fun t => boundary input (token_position t) /\ token_position t < blen input
                          /\ match token_kind t with TWord w => word_ok w | _ => True end) ts
  | Err e => boundary input (position e)
  | Panic | OutOfFuel => False
  end.
Proof.
  pose proof (lex_post input) as H. destruct (lex input); try done. destruct H as (Hok & _ & Hs). by split.
Qed.

(** C3: the parser is total and returns only well-formed programs.  Every
    pipeline has a command, every simple command has an assignment, a word or a
    redirect, assignment names are identifiers, words are not empty, and the
    first word of a command would not have been read as an assignment; a
    rejected program is rejected at a character boundary. *)
Theorem parse_total_and_well_formed input :
  match parse input with
  | Ok p => program_ok p
  | Err e => boundary input (position e)
  | Panic | OutOfFuel => False
  end.
Proof. pose proof (parse_post input) as H. by destruct (parse input). Qed.

(** C4: a word in command position expands to its POSIX fields.  The one-pass
    splitter with its budget computes exactly the fields of the reference
    definition, which marks quoted text, separates unquoted blanks and drops
    empty unmarked runs; it succeeds exactly when the budget covers the bytes of
    the values and one string per field. *)
Theorem word_expands_to_posix_fields sz w env status b :
  word sz w env status true b
  = pay b (total_cost env status true (segments w)
           + sz * N.of_nat (length (posix_fields (word_atoms env status true w))))
      (posix_fields (word_atoms env status true w)).
Proof. apply word_split_spec. Qed.

(** The value of an assignment is never split.  With splitting off the word
    expands to exactly one string, the concatenation of its segments with the
    expansions substituted, whatever blanks the values contain. *)
Theorem assignment_value_is_one_string sz w env status b :
  word sz w env status false b
  = pay b (total_cost env status false (segments w) + sz) [word_text env status w].
Proof. apply word_unsplit_spec. Qed.

(** C5: the budget bounds what an expansion retains.  The environment, the
    words and the redirect targets of the expanded command, with the storage of
    every string and vector, never exceed the part of the budget that was
    consumed. *)
Theorem expansion_stays_within_budget sz sv se c base status b ec b' :
  expand sz sv se c base status b = Some (ec, b') ->
  (footprint sz sv se ec + b' <= b)%N.
Proof. apply expand_bounded. Qed.

Definition sample_command : SimpleCommand :=
  mkSimpleCommand [mkAssignment (lit "A") (mkWord [Expansion (lit "X") false])]
    [mkWord [Literal (lit "echo") false]; mkWord [Expansion (lit "X") false]]
    [mkRedirect None Write (TargetWord (mkWord [Literal (lit "out") false]))].

Lemma expansion_stays_within_budget_witness :
  (footprint 24 24 100
     (mkExpandedCommand sample_command [(lit "A", lit "1 2"); (lit "X", lit "1 2")]
        [lit "echo"; lit "1"; lit "2"] [[lit "out"]]) + 666 <= 1000)%N.
Proof.
  apply (expansion_stays_within_budget 24 24 100 sample_command [(lit "X", lit "1 2")] 0%Z 1000).
  vm_compute. reflexivity.
Defined.
