(* ===== verification/VfsSpec.v ===== *)
(** * Properties of the virtual filesystem: paths, the in-memory backend, mounts *)

From Stdlib Require Import Ascii String Sorted.
From S2P Require Import Prelude RustStr BTreeMap VfsTypes VfsPath VfsIface MemVfs MemVfsTree MemVfsInv.
From S2P Require Import MemVfsView MemVfsOps MemVfsFiles MemVfsSystem MountVfs MountFacts MemMount.

(** ** A concrete filesystem for the witnesses: one file, open for both *)

(** A quota of a tebibyte. *)
Definition ample : VfsQuota := mkVfsQuota (2 ^ 40) (2 ^ 20) (2 ^ 40).

Lemma ample_ok : quota_ok ample.
Proof. by constructor. Qed.

Lemma ample_addressable : addressable ample.
Proof. by left. Qed.

Lemma unlimited_ok : quota_ok unlimited.
Proof. by constructor. Qed.

Definition demo : State := (open ample (lit "/f") (with_create_new read_write) initial_state).2.

Lemma demo_opened : open ample (lit "/f") (with_create_new read_write) initial_state = (Ok 1, demo).
Proof. vm_compute. reflexivity. Qed.

Lemma demo_inv : Inv ample demo.
Proof.
  pose proof (open_spec ample ample_ok initial_state (lit "/f") (with_create_new read_write)
                (initial_inv ample ample_ok) eq_refl eq_refl) as H.
  by destruct (wp_Ok _ _ _ _ _ _ H demo_opened).
Qed.

(** C6: every request to the in-memory VFS is safe in every reachable state, but for
    one kind.  From any state the requests can lead to, while the 64-bit counters
    last, a request overflows no counter and does not run on forever; one that fails
    leaves the filesystem exactly as it was, and one that succeeds leaves the
    invariant true: sorted directories of admissible names no deeper than the path
    limit, exact link and handle counts, exact quota counters, no unreferenced file,
    nothing over quota.  A request panics exactly when it asks for a file longer than
    [isize::MAX] bytes that the quotas admit, and then it too changes nothing; where
    either byte quota is within [isize::MAX], there is no such request. *)
Theorem mem_requests_safe q y r :
  quota_ok q -> reachable q y -> counters_left (sys_state y) ->
  let overlong := overlong_request q r (sys_state y) in
  match serve q r y with
  | (Ok _, y') => SysInv q y' /\ ~ overlong
  | (Err _, y') => y' = y /\ ~ overlong
  | (Panic, y') => y' = y /\ overlong
  | (OutOfFuel, _) => False
  end
  /\ (addressable q -> ~ overlong).
Proof.
  intros Hq Hy Hc overlong. pose proof (reachable_inv q Hq y Hy) as Hinv.
  split; [by apply serve_spec|]. intros Ha. unfold overlong. destruct r; try by intros [].
  - apply never_write_overlong; [done|apply Hinv].
  - apply never_truncate_overlong; [done|apply Hinv].
Qed.

(** With the default quota, a file that is open for writing. *)
Definition boundless : System := (serve unlimited (Open (lit "/f") (with_create_new read_write)) (mkSystem initial_state [])).2.

Lemma mem_requests_safe_witness :
  (serve unlimited (Truncate 1 U64_MAX) boundless).1 = Panic /\ (serve ample (Truncate 1 U64_MAX) boundless).1 = Err ENOSPC
  /\ (overlong_request unlimited (Truncate 1 U64_MAX) (sys_state boundless))
  /\ (serve unlimited (WriteAt 1 2 [7]) boundless).1 = Ok tt
  /\ SysInv unlimited (serve unlimited (WriteAt 1 2 [7]) boundless).2.
Proof.
  assert (reachable unlimited boundless) as Hr.
  { eapply (reachable_step _ (mkSystem initial_state []) (Open (lit "/f") (with_create_new read_write)));
      [constructor|by split|apply surjective_pairing]. }
  assert ((serve unlimited (Truncate 1 U64_MAX) boundless).1 = Panic) as Hp by (vm_compute; reflexivity).
  assert ((serve unlimited (WriteAt 1 2 [7]) boundless).1 = Ok tt) as Hw by (vm_compute; reflexivity).
  destruct (mem_requests_safe unlimited boundless (Truncate 1 U64_MAX) unlimited_ok Hr (conj eq_refl eq_refl)) as [Ht _].
  destruct (mem_requests_safe unlimited boundless (WriteAt 1 2 [7]) unlimited_ok Hr (conj eq_refl eq_refl)) as [Hs _].
  split; [exact Hp|]. split; [vm_compute; reflexivity|]. split; [|split; [exact Hw|]].
  - set (out := serve unlimited (Truncate 1 U64_MAX) boundless) in *. clearbody out.
    destruct out as [[]]; try discriminate Hp. exact (proj2 Ht).
  - set (out := serve unlimited (WriteAt 1 2 [7]) boundless) in *. clearbody out.
    destruct out as [[]]; try discriminate Hw. exact (proj1 Hs).
Defined.

(** C7: the quotas hold in every reachable state, and the counters are exact:
    the bytes counted are the sum of the file lengths and are within the byte
    quota, no file is longer than the file size quota, and the entries counted,
    which are within the file quota, are the live files and the directories
    below the root. *)
Theorem mem_quotas_hold q y :
  quota_ok q -> reachable q y ->
  let s := sys_state y in
  used_bytes s = total (files s) /\ used_bytes s <= max_bytes q
  /\ file_count s = Z.of_nat (size (files s)) + Z.of_nat (dirs (root s)) - 1
  /\ file_count s <= max_files q
  /\ forall i f, files s !! i = Some f -> len (data f) <= max_file_size q.
Proof.
  intros Hq Hy s. destruct (reachable_inv q Hq y Hy) as [[Hwf [I1 I2 I3]] _].
  pose proof (wf_count _ _ _ Hwf) as Hc. simpl in Hc.
  split; [apply Hwf|]. split; [done|]. split; [unfold s; lia|]. by split.
Qed.

Definition small : VfsQuota := mkVfsQuota 10 2 4.

Lemma mem_quotas_hold_witness :
  let s := initial_state in
  used_bytes s = total (files s) /\ used_bytes s <= max_bytes small
  /\ file_count s = Z.of_nat (size (files s)) + Z.of_nat (dirs (root s)) - 1
  /\ file_count s <= max_files small
  /\ forall i f, files s !! i = Some f -> len (data f) <= max_file_size small.
Proof. apply (mem_quotas_hold small (mkSystem initial_state [])); [by constructor|constructor]. Defined.

(** C8: renaming moves a subtree.  A successful [rename] makes the target path,
    and every path below it, name what the source path and the paths below it
    named; the source paths are gone, every other path is as before, and no
    surviving file changes its contents; a refused one changes nothing and the
    error is one of the listed reasons, among them renaming a directory into
    itself and exceeding the depth limit. *)
Theorem mem_rename_moves_subtree q s from to :
  quota_ok q -> Inv q s ->
  wp (rename from to) s (fun _ s' => Inv q s' /\ rename_done s from to s')
     (fun e s' => s' = s /\ rename_fails s from to e).
Proof. intros. by apply rename_spec. Qed.

Lemma mem_rename_moves_subtree_witness :
  (rename (lit "/f") (lit "/g") demo).1 = Ok tt
  /\ wp (rename (lit "/f") (lit "/g")) demo
        (fun _ s' => Inv ample s' /\ rename_done demo (lit "/f") (lit "/g") s')
        (fun e s' => s' = demo /\ rename_fails demo (lit "/f") (lit "/g") e).
Proof.
  split; [vm_compute; reflexivity|].
  apply (mem_rename_moves_subtree ample); [apply ample_ok|apply demo_inv].
Defined.

(** Opening a path yields a fresh handle on the right file.  On success the
    handle was not in use, carries the requested access, and refers either to
    the file the path named, emptied if truncation was asked for and otherwise
    unchanged, or to a new empty file that now is what the path names; every
    other file is untouched.  A refused open changes nothing. *)
Theorem mem_open_correct q s path mode :
  quota_ok q -> Inv q s -> counters_left s ->
  wp (open q path mode) s (fun h s' => Inv q s' /\ open_done s path mode h s')
     (fun e s' => s' = s /\ open_fails q s path mode e).
Proof. intros Hq Hs [Hi Hh]. by apply open_spec. Qed.

Lemma mem_open_correct_witness :
  (open ample (lit "/f") read_only demo).1 = Ok 2
  /\ wp (open ample (lit "/f") read_only) demo
        (fun h s' => Inv ample s' /\ open_done demo (lit "/f") read_only h s')
        (fun e s' => s' = demo /\ open_fails ample demo (lit "/f") read_only e).
Proof.
  split; [vm_compute; reflexivity|].
  apply (mem_open_correct ample); [apply ample_ok|apply demo_inv|by split].
Defined.

(** A write stores the bytes at the offset, or at the end for an append
    handle, fills a gap with zeroes, leaves the rest of the file and every other
    file alone, and moves the byte counter by the growth; it is refused without
    effect for a handle that is not writable, an offset that overflows, or a
    file or filesystem that would exceed its quota. *)
Theorem mem_write_correct q s h offset new :
  quota_ok q -> Inv q s -> ~ write_overlong q s h offset new ->
  wp (write_at q h offset new) s (fun n s' => Inv q s' /\ write_done s h offset new n s')
     (fun e s' => s' = s /\ write_fails q s h offset new e).
Proof. intros. by apply write_at_spec. Qed.

Lemma mem_write_correct_witness :
  (write_at ample 1 2 [7; 8] demo).1 = Ok 2
  /\ wp (write_at ample 1 2 [7; 8]) demo
        (fun n s' => Inv ample s' /\ write_done demo 1 2 [7; 8] n s')
        (fun e s' => s' = demo /\ write_fails ample demo 1 2 [7; 8] e).
Proof.
  split; [vm_compute; reflexivity|].
  apply (mem_write_correct ample); [apply ample_ok|apply demo_inv|].
  apply never_write_overlong; [apply ample_addressable|apply demo_inv].
Defined.

(** What was written is read back.  After a successful positioned write
    through a handle, any readable handle on the same file reads exactly those
    bytes at that offset. *)
Theorem mem_read_after_write q s h offset new n s' x h2 x2 buf :
  quota_ok q -> Inv q s ->
  write_at q h offset new s = (Ok n, s') ->
  handles s !! h = Some x -> h_append x = false ->
  handles s !! h2 = Some x2 -> h_inode x2 = h_inode x -> h_readable x2 = true ->
  0 <= offset <= USIZE_MAX -> length buf = length new ->
  read_at h2 offset buf s' = (Ok (len new, new), s').
Proof.
  intros Hq Hs Hw Hx Happ Hx2 Hi Hr Ho Hb.
  destruct (ends_Ok _ _ _ _ _ _ (write_at_ends q Hq s h offset new Hs) Hw) as (Hs' & Hd & _).
  pose proof (read_at_spec q s' h2 offset buf Hs') as Hread. unfold wp in Hread.
  destruct Hd as (x' & f & Hx' & _ & Hf & _ & Hd). simplify_eq. rewrite Happ in Hd.
  assert (handles s' !! h2 = Some x2 /\
          (new <> [] -> contents s' (h_inode x2) = Some (written (data f) offset new))) as [Hx2' Hc].
  { case_bool_decide; subst; [by split|]. split; [done|]. intros _. unfold contents. simpl.
    by rewrite Hi, lookup_insert_eq. }
  destruct (read_at h2 offset buf s') as [[r|e| |] s2]; try done; destruct Hread as [-> Hread].
  - destruct Hread as (y & d & Hy & _ & Hd' & ->). rewrite Hx2' in Hy. injection Hy as <-.
    destruct (decide (new = [])) as [->|Hne]; [by destruct buf|].
    rewrite (Hc Hne) in Hd'. injection Hd' as <-. unfold read_result.
    rewrite Hb, written_read by lia. rewrite <- Hb, drop_all, app_nil_r. done.
  - exfalso. destruct Hread as [Hbad|Hbad]; [by apply Hbad|]. apply Hbad in Hx2'. congruence.
Qed.

Definition demo_written : State := (write_at ample 1 2 [7; 8] demo).2.

Lemma mem_read_after_write_witness :
  read_at 1 2 [0; 0] demo_written = (Ok (2, [7; 8]), demo_written).
Proof.
  apply (mem_read_after_write ample demo 1 2 [7; 8] 2 demo_written
           (mkHandle 1 true true false) 1 (mkHandle 1 true true false) [0; 0]);
    try (vm_compute; reflexivity); [apply ample_ok|apply demo_inv|vm_compute; split; discriminate].
Defined.

(** Directories are made and removed as asked.  [mkdir] adds exactly one
    name, an empty directory, below an existing directory, and counts it;
    [rmdir] removes exactly one name, which was an empty directory other than
    the root; when they are refused nothing changes and the error says why. *)
Theorem mem_directories_correct q s path :
  quota_ok q -> Inv q s ->
  wp (mkdir q path) s (fun _ s' => Inv q s' /\ mkdir_done s path s')
     (fun e s' => s' = s /\ mkdir_fails q s path e)
  /\ wp (rmdir path) s (fun _ s' => Inv q s' /\ rmdir_done s path s')
        (fun e s' => s' = s /\ rmdir_fails s path e).
Proof. intros Hq Hs. split; [by apply mkdir_spec|by apply rmdir_spec]. Qed.

Lemma mem_directories_correct_witness :
  (mkdir ample (lit "/d") demo).1 = Ok tt /\ (rmdir (lit "/f") demo).1 = Err ENOTDIR
  /\ wp (mkdir ample (lit "/d")) demo
        (fun _ s' => Inv ample s' /\ mkdir_done demo (lit "/d") s')
        (fun e s' => s' = demo /\ mkdir_fails ample demo (lit "/d") e).
Proof.
  split; [vm_compute; reflexivity|]. split; [vm_compute; reflexivity|].
  apply (mem_directories_correct ample); [apply ample_ok|apply demo_inv].
Defined.

(** Unlinking removes one name, which was a file, and neither another name
    nor the contents of a surviving file nor any handle; a directory is refused
    with EISDIR and a missing name with the lookup error, without effect. *)
Theorem mem_unlink_correct q s path :
  quota_ok q -> Inv q s ->
  wp (unlink path) s (fun _ s' => Inv q s' /\ unlink_done s path s')
     (fun e s' => s' = s /\ unlink_fails s path e).
Proof. intros. by apply unlink_spec. Qed.

Lemma mem_unlink_correct_witness :
  (unlink (lit "/f") demo).1 = Ok tt
  /\ wp (unlink (lit "/f")) demo (fun _ s' => Inv ample s' /\ unlink_done demo (lit "/f") s')
        (fun e s' => s' = demo /\ unlink_fails demo (lit "/f") e).
Proof.
  split; [vm_compute; reflexivity|].
  apply (mem_unlink_correct ample); [apply ample_ok|apply demo_inv].
Defined.

(** A handle keeps its file and its contents while names go away. *)
Lemma handle_contents_kept q s s' h x :
  Inv q s -> Inv q s' -> keeps s s' -> handles s !! h = Some x ->
  handles s' !! h = Some x /\ contents s' (h_inode x) = contents s (h_inode x).
Proof.
  intros Hs Hs' Hk Hx. assert (handles s' !! h = Some x) as Hx' by (by rewrite (drops_handles _ _ Hk)).
  split; [done|]. destruct (handle_file q s' h x Hs' Hx') as [f' Hf'].
  destruct (drops_files _ _ Hk _ _ Hf') as (f & Hf & Hd). unfold contents. simpl in Hf.
  rewrite Hf', Hf. simpl. by rewrite Hd.
Qed.

(** Reading depends on nothing but the handle and the contents of its file. *)
Lemma read_at_cong s s' h offset buf :
  handles s' !! h = handles s !! h ->
  (forall x, handles s !! h = Some x -> contents s' (h_inode x) = contents s (h_inode x)) ->
  (read_at h offset buf s').1 = (read_at h offset buf s).1.
Proof.
  intros Hh Hc. unfold read_at, sbind, slift, sget, sfail, sret.
  destruct (usize_try_from EINVAL offset) as [o|e| |]; try done. rewrite Hh.
  destruct (handles s !! h) as [x|]; [|done]. simpl. destruct (h_readable x); [|done]. simpl.
  specialize (Hc x eq_refl). unfold contents in Hc.
  destruct (files s' !! h_inode x) as [f'|], (files s !! h_inode x) as [f|]; simplify_eq/=; [|done].
  rewrite Hc. by repeat case_match.
Qed.

(** A file that loses its name stays readable through its open handles:
    after a successful [unlink], or a [rename] that replaces the file, every
    read through an open handle gives what it gave before. *)
Theorem mem_open_file_survives q s path from to s' h offset buf :
  quota_ok q -> Inv q s -> is_Some (handles s !! h) ->
  unlink path s = (Ok tt, s') \/ rename from to s = (Ok tt, s') ->
  (read_at h offset buf s').1 = (read_at h offset buf s).1.
Proof.
  intros Hq Hs [x Hx] Hr. assert (Inv q s' /\ keeps s s') as [Hi Hk].
  { destruct Hr as [Hr|Hr].
    - destruct (wp_Ok _ _ _ _ _ _ (unlink_spec q Hq s path Hs) Hr) as (Hi & p & i & _ & _ & _ & Hk). done.
    - destruct (wp_Ok _ _ _ _ _ _ (rename_spec q Hq s from to Hs) Hr) as (Hi & fp & tp & Hk).
      split; [done|apply Hk]. }
  destruct (handle_contents_kept q s s' h x Hs Hi Hk Hx) as [Hx' Hc].
  apply read_at_cong; [by rewrite Hx|]. intros y Hy. by simplify_eq.
Qed.

Definition demo_two : State := (open ample (lit "/g") (with_create_new read_write) demo_written).2.

Lemma demo_two_inv : Inv ample demo_two.
Proof.
  assert (write_at ample 1 2 [7; 8] demo = (Ok 2, demo_written)) as Hw by (vm_compute; reflexivity).
  destruct (ends_Ok _ _ _ _ _ _ (write_at_ends ample ample_ok demo 1 2 [7; 8] demo_inv) Hw) as [Hi _].
  assert (open ample (lit "/g") (with_create_new read_write) demo_written = (Ok 2, demo_two)) as Ho
    by (vm_compute; reflexivity).
  by destruct (wp_Ok _ _ _ _ _ _ (open_spec ample ample_ok demo_written (lit "/g")
                 (with_create_new read_write) Hi eq_refl eq_refl) Ho).
Qed.

Lemma mem_open_file_survives_witness :
  (read_at 1 0 [9; 9; 9; 9] (unlink (lit "/f") demo_two).2).1 = (read_at 1 0 [9; 9; 9; 9] demo_two).1
  /\ (read_at 1 0 [9; 9; 9; 9] (rename (lit "/g") (lit "/f") demo_two).2).1
     = (read_at 1 0 [9; 9; 9; 9] demo_two).1.
Proof.
  split; apply (mem_open_file_survives ample demo_two (lit "/f") (lit "/g") (lit "/f"));
    [apply ample_ok|apply demo_two_inv|vm_compute; eauto| |apply ample_ok|apply demo_two_inv|vm_compute; eauto|].
  - left. vm_compute. reflexivity.
  - right. vm_compute. reflexivity.
Defined.

(** The bytes counted depend on the contents alone. *)
Lemma total_ext (fs gs : gmap Z FileNode) :
  (forall i, data <$> fs !! i = data <$> gs !! i) -> total fs = total gs.
Proof.
  revert gs. induction fs as [|i f fs Hi IH] using map_ind; intros gs H.
  - assert (gs = ∅) as ->; [|done]. apply map_empty. intros i. specialize (H i).
    rewrite lookup_empty in H. by destruct (gs !! i).
  - pose proof (H i) as Hg. rewrite lookup_insert_eq in Hg. simpl in Hg.
    destruct (gs !! i) as [g|] eqn:Hgi; [|done]. injection Hg as Hg.
    rewrite total_insert by done. rewrite (total_delete i g gs) by done. rewrite Hg. f_equal. apply IH.
    intros j. destruct (decide (j = i)) as [->|Hj]; [by rewrite lookup_delete_eq, Hi|].
    rewrite lookup_delete_ne by done. rewrite <- H. by rewrite lookup_insert_ne.
Qed.

(** After its last handle is closed, a nameless file is gone, and only it. *)
Lemma last_close_files q s h s' x :
  quota_ok q -> Inv q s -> close h s = (Ok tt, s') -> handles s !! h = Some x ->
  (forall h2 y, handles s !! h2 = Some y -> h_inode y = h_inode x -> h2 = h) ->
  (forall p, view (root s) p <> Some (OFile (h_inode x))) ->
  Inv q s' /\ root s' = root s
  /\ forall i, data <$> files s' !! i = data <$> delete (h_inode x) (files s) !! i.
Proof.
  intros Hq Hs Hc Hx Hlast Hname.
  destruct (wp_Ok _ _ _ _ _ _ (close_spec q Hq s h Hs) Hc) as (Hs' & y & Hy & Hd).
  rewrite Hx in Hy. injection Hy as <-. destruct Hs as [Hwf _].
  pose proof (drops_root _ _ Hd) as Hroot. pose proof (drops_handles _ _ Hd) as Hh. simpl in Hroot, Hh.
  split; [done|]. split; [done|]. destruct Hs' as [Hwf' _].
  pose proof (wf_refs _ _ _ Hwf) as Hr. pose proof (wf_refs _ _ _ Hwf') as Hr'.
  simpl in Hr, Hr'. rewrite app_nil_r in Hr, Hr'. rewrite Hroot, Hh in Hr'. intros i.
  destruct (decide (i = h_inode x)) as [->|Hi]; [rewrite lookup_delete_eq|rewrite lookup_delete_ne by done].
  - destruct (files s' !! h_inode x) as [f'|] eqn:Hf'; [exfalso|done].
    destruct (refs_used _ _ _ _ Hr' _ _ Hf') as [|[Hi|Hp]]; [done| |].
    + apply (view_inodes _ _ _ (wf_tree _ _ _ Hwf)) in Hi as [p Hp]. by apply (Hname p).
    + apply refs_pos in Hp as (h2 & y & [Hne Hy]%lookup_delete_Some & Hi). apply Hne. symmetry. by eapply Hlast.
  - destruct (files s' !! i) as [f'|] eqn:Hf'.
    { destruct (drops_files _ _ Hd _ _ Hf') as (g & Hg & Hdata). simpl in Hg. rewrite Hg; simpl; by rewrite Hdata. }
    destruct (files s !! i) as [g|] eqn:Hg; [exfalso|done].
    destruct (refs_used _ _ _ _ Hr _ _ Hg) as [|[Hi'|Hp]]; [done| |].
    + apply (refs_dom _ _ _ _ Hr') in Hi'. rewrite Hf' in Hi'. by destruct Hi'.
    + apply refs_pos in Hp as (h2 & y & Hy & Hyi). subst i.
      assert (delete h (handles s) !! h2 = Some y) as Hy' by (rewrite lookup_delete_ne; congruence).
      apply (refs_handle _ _ _ _ Hr') in Hy'. rewrite Hf' in Hy'. by destruct Hy'.
Qed.

Lemma size_ext (fs gs : gmap Z FileNode) :
  (forall i, data <$> fs !! i = data <$> gs !! i) -> size fs = size gs.
Proof.
  intros H. rewrite <- !size_dom. apply set_size_proper. intros i. rewrite !elem_of_dom. specialize (H i).
  destruct (fs !! i), (gs !! i); try done; by split; intros [].
Qed.

(** The last reference to a file frees it.  Closing the only handle on a
    file that no path names removes the file, returns all its bytes and its
    entry to the quota, and loses no other file. *)
Theorem mem_last_close_frees q s h s' x f :
  quota_ok q -> Inv q s -> close h s = (Ok tt, s') ->
  handles s !! h = Some x -> files s !! h_inode x = Some f ->
  (forall h2 y, handles s !! h2 = Some y -> h_inode y = h_inode x -> h2 = h) ->
  (forall p, view (root s) p <> Some (OFile (h_inode x))) ->
  files s' !! h_inode x = None
  /\ (forall i, i <> h_inode x -> contents s' i = contents s i)
  /\ used_bytes s' = used_bytes s - len (data f) /\ file_count s' = file_count s - 1.
Proof.
  intros Hq Hs Hc Hx Hf Hlast Hname.
  destruct (last_close_files q s h s' x Hq Hs Hc Hx Hlast Hname) as ([Hwf' _] & Hroot & Hext).
  destruct Hs as [Hwf _]. split.
  { specialize (Hext (h_inode x)). rewrite lookup_delete_eq in Hext. by destruct (files s' !! h_inode x). }
  split; [intros i Hi; unfold contents; by rewrite Hext, lookup_delete_ne|].
  rewrite (wf_used _ _ _ Hwf), (wf_used _ _ _ Hwf'), (wf_count _ _ _ Hwf), (wf_count _ _ _ Hwf').
  rewrite (total_ext _ _ Hext), (total_delete _ _ _ Hf), (size_ext _ _ Hext), (size_delete _ _ _ Hf), Hroot.
  lia.
Qed.

Definition demo_orphan : State := (unlink (lit "/f") demo_written).2.

Lemma demo_orphan_inv : Inv ample demo_orphan.
Proof.
  assert (write_at ample 1 2 [7; 8] demo = (Ok 2, demo_written)) as Hw by (vm_compute; reflexivity).
  destruct (ends_Ok _ _ _ _ _ _ (write_at_ends ample ample_ok demo 1 2 [7; 8] demo_inv) Hw) as [Hi _].
  assert (unlink (lit "/f") demo_written = (Ok tt, demo_orphan)) as Hu by (vm_compute; reflexivity).
  by destruct (wp_Ok _ _ _ _ _ _ (unlink_spec ample ample_ok demo_written (lit "/f") Hi) Hu).
Qed.

Lemma demo_orphan_handles h y : handles demo_orphan !! h = Some y -> h = 1.
Proof.
  change (handles demo_orphan) with ({[1 := mkHandle 1 true true false]} : gmap Z Handle).
  by intros [-> _]%lookup_singleton_Some.
Qed.

Lemma demo_orphan_names p i : view (root demo_orphan) p <> Some (OFile i).
Proof. change (root demo_orphan) with (Directory []). by destruct p. Qed.

Lemma mem_last_close_frees_witness :
  let s' := (close 1 demo_orphan).2 in
  files s' !! 1 = None /\ (forall i, i <> 1 -> contents s' i = contents demo_orphan i)
  /\ used_bytes s' = used_bytes demo_orphan - 4 /\ file_count s' = file_count demo_orphan - 1.
Proof.
  apply (mem_last_close_frees ample demo_orphan 1 (close 1 demo_orphan).2
           (mkHandle 1 true true false) (mkFileNode [0; 0; 7; 8] 0 1));
    [apply ample_ok|apply demo_orphan_inv|vm_compute; reflexivity..| |].
  - intros h2 y Hy _. by eapply demo_orphan_handles.
  - intros p. apply demo_orphan_names.
Defined.

(** Truncating sets the length of the file behind a writable handle,
    cutting it or filling it with zeroes, and moves the byte counter by the
    difference; it is refused without effect for an unknown or read-only handle
    or a length the quota does not allow. *)
Theorem mem_truncate_correct q s h n :
  quota_ok q -> Inv q s -> ~ truncate_overlong q s h n ->
  wp (truncate q h n) s (fun _ s' => Inv q s' /\ truncate_done s h n s')
     (fun e s' => s' = s /\ truncate_fails q s h n e).
Proof. intros. by apply truncate_spec. Qed.

Lemma mem_truncate_correct_witness :
  (truncate ample 1 3 demo).1 = Ok tt
  /\ wp (truncate ample 1 3) demo (fun _ s' => Inv ample s' /\ truncate_done demo 1 3 s')
        (fun e s' => s' = demo /\ truncate_fails ample demo 1 3 e).
Proof.
  split; [vm_compute; reflexivity|].
  apply (mem_truncate_correct ample); [apply ample_ok|apply demo_inv|].
  apply never_truncate_overlong; [apply ample_addressable|apply demo_inv].
Defined.

(** The queries report the name space and change nothing.  [stat] gives the
    type and length of what the path names; [readdir] lists each child of a
    directory exactly once, in order of name, with its metadata. *)
Theorem mem_queries_correct q s path :
  quota_ok q -> Inv q s ->
  wp (stat path) s
     (fun m s' => s' = s /\ exists p o, normalize_path path = Ok p /\ view (root s) p = Some o
                                        /\ meta_of s o = Some m)
     (fun e s' => s' = s /\ stat_fails s path e)
  /\ wp (readdir path) s
        (fun ds s' => s' = s /\ exists p, normalize_path path = Ok p /\ view (root s) p = Some ODir
                                          /\ listing s p ds)
        (fun e s' => s' = s /\ readdir_fails s path e).
Proof. intros Hq Hs. split; [by apply (stat_spec q)|by apply (readdir_spec q)]. Qed.

Lemma mem_queries_correct_witness :
  (readdir (lit "/") demo_two).1
  = Ok [mkDirEntry (lit "f") (mkMetadata RegularFile 4); mkDirEntry (lit "g") (mkMetadata RegularFile 0)]
  /\ wp (readdir (lit "/")) demo_two
        (fun ds s' => s' = demo_two /\ exists p, normalize_path (lit "/") = Ok p
                        /\ view (root demo_two) p = Some ODir /\ listing demo_two p ds)
        (fun e s' => s' = demo_two /\ readdir_fails demo_two (lit "/") e).
Proof.
  split; [vm_compute; reflexivity|].
  apply (mem_queries_correct ample); [apply ample_ok|apply demo_two_inv].
Defined.

(** C9: restoring a snapshot brings back the filesystem it was taken of.  A
    snapshot can always be taken, and restoring it in any later state of the same
    quota succeeds: every path names what it named, every named file has the
    contents it had, no handle is open, and handle numbers are not reused. *)
Theorem mem_snapshot_round_trip q s s2 :
  quota_ok q -> Inv q s -> Inv q s2 ->
  exists sn s3, snapshot s = (Ok sn, s) /\ restore q sn s2 = (Ok tt, s3) /\ Inv q s3
    /\ (forall p, view (root s3) p = view (root s) p)
    /\ (forall p i, view (root s) p = Some (OFile i) -> contents s3 i = contents s i)
    /\ handles s3 = ∅ /\ next_handle s3 = next_handle s2.
Proof.
  intros Hq Hs Hs2. pose proof (snapshot_spec q Hq s Hs) as Hsn. unfold wp in Hsn.
  destruct (snapshot s) as [[sn|e| |] s1]; try done. destruct Hsn as (-> & Hof & Hok & Hw).
  pose proof (restore_spec q s2 sn Hs2 Hok) as Hre. unfold wp in Hre.
  destruct (restore q sn s2) as [[[]|e| |] s3] eqn:E; try done; [|by destruct Hre as (_ & _ & [])].
  destruct Hre as [Hi ->]. exists sn, (state_from_snapshot sn (next_handle s2)).
  do 3 (split; [done|]). cbn [state_from_snapshot root handles next_handle].
  split; [by rewrite (snap_root _ _ Hof)|]. split; [|done]. intros p i Hp. unfold contents. simpl.
  rewrite (snap_files _ _ Hof), decide_True; [by destruct (files s !! i)|].
  apply (view_inodes _ _ _ (wf_tree _ _ _ (proj1 Hs))). eauto.
Qed.

Lemma mem_snapshot_round_trip_witness :
  exists sn s3, snapshot demo_two = (Ok sn, demo_two) /\ restore ample sn demo = (Ok tt, s3)
    /\ Inv ample s3
    /\ (forall p, view (root s3) p = view (root demo_two) p)
    /\ (forall p i, view (root demo_two) p = Some (OFile i) -> contents s3 i = contents demo_two i)
    /\ handles s3 = ∅ /\ next_handle s3 = next_handle demo.
Proof.
  apply (mem_snapshot_round_trip ample demo_two demo);
    [apply ample_ok|apply demo_two_inv|apply demo_inv].
Defined.

(** ** Paths *)

(** The directory a walk stands in after one more component, with no limit on
    the depth. *)
Definition walk_step (at_dir : list str) (component : str) : list str :=
  if bool_decide (component = []) || bool_decide (component = lit ".") then at_dir
  else if bool_decide (component = lit "..") then removelast at_dir
  else at_dir ++ [component].

Abbreviation walk := (foldl walk_step).

Lemma push_component_walk cs c :
  (length cs <= MAX_PATH_DEPTH)%nat ->
  push_component cs c
  = if decide (length (walk_step cs c) <= MAX_PATH_DEPTH)%nat then Ok (walk_step cs c) else Err EINVAL.
Proof.
  intros Hl. unfold push_component, walk_step. set (depth := MAX_PATH_DEPTH) in *. clearbody depth.
  destruct (_ || _); [by rewrite decide_True|]. case_bool_decide.
  - rewrite decide_True; [done|]. rewrite length_removelast. lia.
  - rewrite length_app. simpl. destruct (Nat.leb_spec depth (length cs)); case_decide; (done || lia).
Qed.

Lemma push_components_walk parts cs :
  (length cs <= MAX_PATH_DEPTH)%nat ->
  (forall k, (length (walk cs (take k parts)) <= MAX_PATH_DEPTH)%nat)
    /\ push_components cs parts = Ok (walk cs parts)
  \/ (exists k, (MAX_PATH_DEPTH < length (walk cs (take k parts)))%nat)
    /\ push_components cs parts = Err EINVAL.
Proof.
  revert cs. induction parts as [|c parts IH]; intros cs Hl; simpl.
  { left. split; [|done]. intros k. by rewrite take_nil. }
  rewrite push_component_walk by done. case_decide as Hd; simpl.
  - destruct (IH _ Hd) as [[Hk ->]|[[k Hk] ->]]; [left|right]; (split; [|done]).
    + intros [|k]; [done|apply Hk].
    + by exists (S k).
  - right. split; [|done]. exists 1%nat. simpl. lia.
Qed.

(** C10: normalizing a path is walking it.  The result of a valid path is where
    the walk through its components ends, with [.] and empty components staying
    and [..] going up but never above the root; it consists of proper names, no
    more than the depth limit, and normalizes to itself when written back as a
    path.  A path is refused, with EINVAL, exactly when it is not absolute,
    contains NUL, or the walk at some point goes below the depth limit. *)
Theorem normalize_path_walks path :
  let parts := split (ch "/") path in
  let bad := starts_with path (lit "/") = false \/ contains path (ch NUL) = true
             \/ exists k, (MAX_PATH_DEPTH < length (walk [] (take k parts)))%nat in
  match normalize_path path with
  | Ok ps => ps = walk [] parts /\ ~ bad /\ path_ok ps /\ normalize_path (path_of ps) = Ok ps
  | Err e => e = EINVAL /\ bad
  | _ => False
  end.
Proof.
  intros parts bad. pose proof (normalize_path_post path) as Hpost.
  destruct (push_components_walk parts [] (Nat.le_0_l _)) as [[Hk Hp]|[Hk Hp]];
    revert Hpost; unfold normalize_path at 1 2; fold parts; rewrite Hp;
    destruct (bool_decide_reflect (path = [])) as [->|Hne]; cbn [orb];
    try (intros _; by split; [|left]);
    destruct (starts_with path (lit "/")) eqn:Hs; cbn [negb orb]; try (intros _; by split; [|left]);
    destruct (contains path (ch NUL)) eqn:Hc; try (intros _; by split; [|right; left]).
  - intros Hok. split; [done|]. split; [|split; [done|by apply normalize_path_of]].
    intros [?|[?|[k Hk']]]; [congruence..|]. specialize (Hk k). lia.
  - intros _. split; [done|]. by right; right.
Qed.

(** ** Mounts *)

(** A mounted filesystem routes a path by its first component.  The root is
    the mount table itself; any other valid path goes to the backend mounted
    under its first component, as a path that names the remaining components
    there; an unmounted first component is ENOENT and an invalid path EINVAL. *)
Theorem mount_routes_by_first_component {W} (t : MountTable W) path :
  match mounted_path t path with
  | Ok None => normalize_path path = Ok []
  | Ok (Some mp) =>
      exists rest, normalize_path path = Ok (mp_mount mp :: rest)
        /\ bt_get (mp_mount mp) (mounts t) = Some (mp_vfs mp)
        /\ normalize_path (mp_inner mp) = Ok rest
        /\ mp_at_mount mp = bool_decide (rest = [])
  | Err e =>
      (e = EINVAL /\ normalize_path path = Err EINVAL)
      \/ (e = ENOENT /\ exists name rest, normalize_path path = Ok (name :: rest)
                                         /\ bt_get name (mounts t) = None)
  | _ => False
  end.
Proof. apply mounted_path_spec. Qed.

(** The handle allocator of a mounted filesystem terminates with a fresh
    handle.  From any value of its wrapping 64-bit counter, and with up to
    2^64 - 2 handles open, it returns a nonzero number that was not in use and
    now stands for the given backend handle, and disturbs no other handle. *)
Theorem mount_handles_fresh {W} (v : Vfs W) inner (s : MState W) :
  0 <= m_next_handle s < 2 ^ 64 -> Z.of_nat (size (m_handles s)) + 2 <= 2 ^ 64 ->
  exists h s', insert_handle v inner s = (Ok h, s')
    /\ 0 < h < 2 ^ 64 /\ m_handles s !! h = None
    /\ m_handles s' = <[h := mkMountedHandle v inner]> (m_handles s)
    /\ inner_world s' = inner_world s.
Proof.
  intros Hn Hsz.
  pose proof (insert_handle_spec v inner s
    (fun h s' => 0 < h < 2 ^ 64 /\ m_handles s !! h = None
       /\ m_handles s' = <[h := mkMountedHandle v inner]> (m_handles s)
       /\ inner_world s' = inner_world s) (fun _ _ => False) Hn Hsz) as H.
  unfold wp in H. destruct (insert_handle v inner s) as [[h|e| |] s']; naive_solver.
Qed.

(** The counter stands at its largest value and handle 1 is taken. *)
Definition wrapping : MState Backends :=
  mkMState (fun _ => demo) {[1 := mkMountedHandle (mem_vfs (fun _ => ample) 0) 7]} (2 ^ 64 - 1).

Lemma mount_handles_fresh_witness :
  exists h s', insert_handle (mem_vfs (fun _ => ample) 0) 5 wrapping = (Ok h, s')
    /\ 0 < h < 2 ^ 64 /\ m_handles wrapping !! h = None
    /\ m_handles s' = <[h := mkMountedHandle (mem_vfs (fun _ => ample) 0) 5]> (m_handles wrapping)
    /\ inner_world s' = inner_world wrapping.
Proof. apply (mount_handles_fresh (mem_vfs (fun _ => ample) 0) 5 wrapping); by vm_compute. Defined.

(** What [rename] of a mounted filesystem refuses without asking a backend. *)
Inductive mount_rename_refused {W} (t : MountTable W) (from to : str) : Errno -> Prop :=
| mount_rename_bad : normalize_path from = Err EINVAL \/ normalize_path to = Err EINVAL ->
    mount_rename_refused t from to EINVAL
| mount_rename_no_source name rest :
    normalize_path from = Ok (name :: rest) -> bt_get name (mounts t) = None ->
    mount_rename_refused t from to ENOENT
| mount_rename_no_target name rest :
    normalize_path to = Ok (name :: rest) -> bt_get name (mounts t) = None ->
    mount_rename_refused t from to EACCES
| mount_rename_mount p : (p = from \/ p = to) ->
    (exists ps, normalize_path p = Ok ps /\ (length ps <= 1)%nat) -> mount_rename_refused t from to EBUSY
| mount_rename_across a b ra rb :
    normalize_path from = Ok (a :: ra) -> normalize_path to = Ok (b :: rb) -> a <> b ->
    mount_rename_refused t from to EXDEV.

(** Renaming never leaves a mount.  Either the two paths lie properly below
    one mount, and the result is that of its backend on the two remaining
    paths, or the request is refused without reaching any backend: across
    mounts with EXDEV, for the root or a mount point with EBUSY, and for an
    unmounted source or target with ENOENT or EACCES. *)
Theorem mount_rename_stays_inside {W} (t : MountTable W) from to s :
  (exists name v fr tr,
      normalize_path from = Ok (name :: fr) /\ normalize_path to = Ok (name :: tr)
      /\ bt_get name (mounts t) = Some v /\ fr <> [] /\ tr <> []
      /\ exists a b, normalize_path a = Ok fr /\ normalize_path b = Ok tr
      /\ m_rename t from to s = on_inner (v_rename v a b) s)
  \/ exists e, m_rename t from to s = (Err e, s) /\ mount_rename_refused t from to e.
Proof.
  pose proof (mounted_path_spec t from) as Hf. pose proof (mounted_path_spec t to) as Ht.
  unfold m_rename, sbind, slift, sfail. destruct (mounted_path t from) as [[f|]|e| |]; try done; simpl.
  2: { right. eexists. split; [done|]. eapply (mount_rename_mount _ _ _ from); [by left|]. eauto. }
  2: { right. eexists. split; [done|]. destruct Hf as [[-> ?]|(-> & name & rest & ? & ?)].
       - apply mount_rename_bad. by left.
       - by eapply mount_rename_no_source. }
  destruct Hf as (fr & Hfn & Hfm & Hfi & Hfa). rewrite Hfa. case_bool_decide as Hfr.
  { right. eexists. split; [done|]. subst. eapply (mount_rename_mount _ _ _ from); [by left|].
    eexists. split; [done|]. simpl. lia. }
  destruct (mounted_path t to) as [[g|]|e| |]; try done; simpl.
  2: { right. eexists. split; [done|]. eapply (mount_rename_mount _ _ _ to); [by right|]. eauto. }
  2: { right. destruct Ht as [[-> ?]|(-> & name & rest & ? & ?)]; simpl; eexists; (split; [done|]).
       - apply mount_rename_bad. by right.
       - by eapply mount_rename_no_target. }
  destruct Ht as (tr & Htn & Htm & Hti & Hta). rewrite Hta. case_bool_decide as Htr.
  { right. eexists. split; [done|]. subst. eapply (mount_rename_mount _ _ _ to); [by right|].
    eexists. split; [done|]. simpl. lia. }
  case_bool_decide as Hsame; simpl.
  - left. exists (mp_mount f), (mp_vfs f), fr, tr. rewrite Hsame at 2. do 5 (split; [done|]). eauto 6.
  - right. eexists. split; [done|]. by eapply mount_rename_across.
Qed.

(** C11: in-memory backends under a mount table give clients what they rely on.
    With any table of in-memory backends whose byte or file size quota is within
    [isize::MAX] (with larger ones a backend can panic, see C6), every method of the mounted filesystem
    returns and keeps the backends' invariants; [open] yields a handle not yet
    in use, [close] and [abort] consume theirs even when they fail, no other
    method touches the handles, and reads fill the given buffer. *)
Theorem mounted_mem_lawful quota (t : MountTable Backends) :
  (forall k, quota_ok (quota k) /\ addressable (quota k)) ->
  (forall name v, bt_get name (mounts t) = Some v -> exists k, v = mem_vfs quota k) ->
  FdLaws (MInv (BackendsInv quota) t) (MRoom BackendsRoom) mount_owned (mounted_vfs t).
Proof.
  intros Hq Ht. apply mounted_laws. intros name v [k ->]%Ht. by apply mem_laws; intros j; apply (Hq j).
Qed.

Definition demo_table : MountTable Backends :=
  mkMountTable [(lit "tmp", mem_vfs (fun _ => ample) 0); (lit "work", mem_vfs (fun _ => ample) 1)] true.

Lemma mounted_mem_lawful_witness :
  FdLaws (MInv (BackendsInv (fun _ => ample)) demo_table) (MRoom BackendsRoom) mount_owned
    (mounted_vfs demo_table).
Proof.
  apply (mounted_mem_lawful (fun _ => ample) demo_table); [intros k; split; [apply ample_ok|apply ample_addressable]|].
  intros name v H. cbn in H. repeat case_decide; simplify_eq; eauto.
Defined.
