(* ===== verification/SandboxSpec.v ===== *)
(** * Properties of the sandbox: paths, admission of open files, whole files,
    captured output, JavaScript globals, jq options, redirects, session builtins *)

From Stdlib Require Import Ascii String.
From S2P Require Import Prelude RustStr BTreeMap VfsTypes VfsPath VfsIface MemVfs MemVfsInv MemVfsFiles.
From S2P Require Import MemVfsSystem MountVfs MountFacts MemMount SandboxFs SandboxFsFacts SandboxFsFrame.
From S2P Require Import Output JsGlobals JqArgs VfsSpec ShellSyntax Redirects RedirectsFacts ShellBuiltins.

#[local] Open Scope Z_scope.

(** ** Paths *)

Lemma push_part_walk : push_part = walk_step.
Proof. reflexivity. Qed.

Lemma normalize_absolute_walk path : normalize_absolute path = path_of (walk [] (split (ch "/") path)).
Proof. unfold normalize_absolute, path_of. rewrite push_part_walk. case_bool_decide as H; [by rewrite H|done]. Qed.

(** The absolute path a path stands for in working directory [cwd]. *)
Definition absolute (cwd path : str) : str :=
  if starts_with path (lit "/") then path
  else if bool_decide (cwd = lit "/") then lit "/" ++ path
  else cwd ++ lit "/" ++ path.

(** The sandbox and its filesystem agree on what a path means.  Resolving a
    path walks its components, or those of the working directory before it if it
    is relative, and writes the result down; the result is under [/bin] exactly
    when the walk ends below the component [bin], its measured depth is the
    number of components, and, once it has passed the checks on depth and NUL,
    the filesystem reads the same components from it. *)
Theorem sandbox_paths_agree cwd path :
  let cs := walk [] (split (ch "/") (absolute cwd path)) in
  resolve cwd path = path_of cs
  /\ (is_bin_path (resolve cwd path) = true <-> exists rest, cs = lit "bin" :: rest)
  /\ depth (resolve cwd path) = len cs
  /\ (contains (resolve cwd path) (ch NUL) = false -> depth (resolve cwd path) <= 256 ->
      normalize_path (resolve cwd path) = Ok cs).
Proof.
  intros cs. assert (resolve cwd path = path_of cs) as Hr by apply normalize_absolute_walk.
  assert (Forall part_name cs) as Hcs.
  { unfold cs. rewrite <- push_part_walk. apply push_parts_ok; [constructor|].
    apply split_no_sep. }
  rewrite Hr. split; [done|]. split; [by apply is_bin_path_of|]. split; [by apply depth_path_of|].
  intros HN Hd. by apply path_of_normalize.
Qed.

(** ** The command directory *)

Section bin.
Context {W : Type} (v : Vfs W) (bin_commands : list str) (cwd : str) (limits : Limits) (cap : Z)
  (scoped : bool) (cancelled_at : nat -> bool).

(** [m] fails, and no part of the state but the clock moves. *)
Definition refused {A} (m : ST (FsState W) Errno A) (s : FsState W) : Prop :=
  wp m s (fun _ _ => False) (fun _ s' => ticked s s').

(** [m] is answered, one way or the other, without asking the filesystem. *)
Definition answered {A} (m : ST (FsState W) Errno A) (s : FsState W) : Prop :=
  wp m s (fun _ s' => ticked s s') (fun _ s' => ticked s s').

Lemma check_then {A} path (k : ST (FsState W) Errno A) s Q :
  (forall s', ticked s s' -> wp k s' Q (fun _ s' => ticked s s')) ->
  wp (let! _ := check_path limits scoped cancelled_at path in k) s Q (fun _ s' => ticked s s').
Proof. intros Hk. wp_step. apply wp_check_path; [|done]. intros s' Ht _ _. by apply Hk. Qed.

Lemma bin_cases path :
  is_bin_path path = true ->
  path = lit "/bin"
  \/ (path <> lit "/bin" /\ path <> lit "/"
      /\ exists name, strip_prefix path (lit "/bin/") = Some name /\ starts_with path (lit "/bin/") = true).
Proof.
  unfold is_bin_path. destruct (bool_decide_reflect (path = lit "/bin")) as [|Hne]; [by left|]. cbn [orb].
  intros Hs. right. split; [done|]. split; [by intros ->|]. unfold strip_prefix. rewrite Hs. by eexists.
Qed.
End bin.

(** The command directory is read-only and not stored.  Every attempt to
    create, remove, rename (from or to) or open anything in [/bin] fails and
    changes nothing, and what it contains is answered, also for whole-file
    reads, without asking the filesystem. *)
Theorem bin_is_read_only {W} (v : Vfs W) bin_commands cwd limits cap scoped cancelled_at path other mode data append limit s :
  is_bin_path (resolve cwd path) = true ->
  refused (fs_mkdir v cwd limits scoped cancelled_at path) s
  /\ refused (fs_unlink v cwd limits scoped cancelled_at path) s
  /\ refused (fs_rmdir v cwd limits scoped cancelled_at path) s
  /\ refused (fs_rename v cwd limits scoped cancelled_at path other) s
  /\ refused (fs_rename v cwd limits scoped cancelled_at other path) s
  /\ refused (fs_open v bin_commands cwd limits cap scoped cancelled_at path mode) s
  /\ refused (write_file v bin_commands cwd limits cap scoped cancelled_at path data append) s
  /\ answered (fs_stat v bin_commands cwd limits scoped cancelled_at path) s
  /\ answered (fs_readdir v bin_commands cwd limits scoped cancelled_at path) s
  /\ answered (read_file_bounded v bin_commands cwd limits cap scoped cancelled_at path limit) s.
Proof.
  intros Hb. pose proof (bin_cases _ Hb) as Hc.
  assert (forall m, refused (fs_open v bin_commands cwd limits cap scoped cancelled_at path m) s) as Hopen.
  { intros m. apply check_then. intros s' Ht. rewrite Hb. by repeat case_match. }
  split_and!; try (apply check_then; intros s' Ht; by rewrite Hb).
  - unfold fs_rename. cbv zeta. rewrite Hb. apply wp_fail. done.
  - unfold fs_rename. cbv zeta. rewrite Hb, orb_true_r. apply wp_fail. done.
  - unfold write_file, refused. case_match; [done|]. cbv zeta. wp_step. eapply wp_mono; [apply Hopen|done|done].
  - apply check_then. intros s' Ht. unfold bin_stat. destruct Hc as [->|(Hne & _ & name & -> & _)]; [done|].
    rewrite bool_decide_false by done. by case_match.
  - apply check_then. intros s' Ht. destruct Hc as [->|(Hne & Hr & name & _ & ->)]; [done|].
    by rewrite !bool_decide_false.
  - apply check_then. intros s' Ht. destruct Hc as [->|(Hne & _ & name & -> & _)]; [done|].
    rewrite bool_decide_false by done. by case_match.
Qed.

(** ** A concrete sandbox for the witnesses: two empty in-memory mounts *)

Definition demo_vfs : Vfs (MState Backends) := mounted_vfs demo_table.
Definition demo_fs : FsState (MState Backends) :=
  mkFsState (mkMState (fun _ => initial_state) ∅ FIRST_HANDLE) ∅ 0 0 0.

Abbreviation demo_world_inv := (MInv (BackendsInv (fun _ => ample)) demo_table).

Lemma demo_laws : FdLaws demo_world_inv (MRoom BackendsRoom) mount_owned demo_vfs.
Proof.
  apply mounted_laws. intros name v H. cbn in H.
  repeat case_decide; simplify_eq; apply mem_laws; intros; first [apply ample_ok|apply ample_addressable].
Qed.

Lemma demo_room : MRoom BackendsRoom (fs_world demo_fs).
Proof. split; [intros k; by split|by vm_compute]. Qed.

Lemma demo_fs_inv : FsInvx demo_world_inv mount_owned default_limits 4 true 0 0 0 demo_fs.
Proof.
  constructor; [|set_solver|done|done|].
  - constructor; [intros k; apply initial_inv, ample_ok|by vm_compute|by intros h x Hx].
  - intros _. split; [done|]. unfold default_limits. simpl. lia.
Qed.

Lemma bin_is_read_only_witness :
  refused (fs_mkdir demo_vfs (lit "/bin") default_limits true (fun _ => false) (lit "tools")) demo_fs.
Proof.
  apply (bin_is_read_only demo_vfs [lit "cat"] (lit "/bin") default_limits 4 true (fun _ => false)
           (lit "tools") (lit "/") read_only [] false 0 demo_fs). vm_compute. reflexivity.
Defined.

(** ** Admission of open files *)

Inductive fs_request :=
| RStat (path : str)
| RReaddir (path : str)
| RMkdir (path : str)
| RRename (from to : str)
| RUnlink (path : str)
| RRmdir (path : str)
| ROpen (path : str) (mode : OpenMode)
| RReadAt (h offset : Z) (buf : bytes)
| RWriteAt (h offset : Z) (data : bytes)
| RTruncate (h n : Z)
| RClose (h : Z)
| RAbort (h : Z)
| RReadFile (path : str) (limit : Z)
| RWriteFile (path : str) (data : bytes) (append : bool)
| RTouch (path : str)
| RAbandonAll.

Section serving.
Context {W : Type} (v : Vfs W) (bin_commands : list str) (cwd : str) (limits : Limits) (cap : Z)
  (scoped : bool) (cancelled_at : nat -> bool).

Definition forget {A} (m : ST (FsState W) Errno A) : ST (FsState W) Errno unit := let! _ := m in sret tt.

Definition fs_serve (r : fs_request) : ST (FsState W) Errno unit :=
  match r with
  | RStat p => forget (fs_stat v bin_commands cwd limits scoped cancelled_at p)
  | RReaddir p => forget (fs_readdir v bin_commands cwd limits scoped cancelled_at p)
  | RMkdir p => fs_mkdir v cwd limits scoped cancelled_at p
  | RRename a b => fs_rename v cwd limits scoped cancelled_at a b
  | RUnlink p => fs_unlink v cwd limits scoped cancelled_at p
  | RRmdir p => fs_rmdir v cwd limits scoped cancelled_at p
  | ROpen p m => forget (fs_open v bin_commands cwd limits cap scoped cancelled_at p m)
  | RReadAt h o b => forget (fs_read_at v limits scoped cancelled_at h o b)
  | RWriteAt h o b => forget (fs_write_at v limits scoped cancelled_at h o b)
  | RTruncate h n => fs_truncate v scoped cancelled_at h n
  | RClose h => fs_close v scoped cancelled_at h
  | RAbort h => fs_abort v scoped cancelled_at h
  | RReadFile p l => forget (read_file_bounded v bin_commands cwd limits cap scoped cancelled_at p l)
  | RWriteFile p d a => write_file v bin_commands cwd limits cap scoped cancelled_at p d a
  | RTouch p => touch v bin_commands cwd limits cap scoped cancelled_at p
  | RAbandonAll => abandon_all v scoped
  end.

Lemma forget_wp {A} (m : ST (FsState W) Errno A) s (Q : FsState W -> Prop) :
  wp m s (fun _ s' => Q s') (fun _ s' => Q s') -> wp (forget m) s (fun _ s' => Q s') (fun _ s' => Q s').
Proof. intros H. unfold forget. wp_step. eapply wp_mono; [exact H|by intros|done]. Qed.
End serving.

(** C26: open files are admitted and accounted for exactly.  Over any lawful
    filesystem, from a state where the shared counter and the execution's
    counter equal the handles held and are within their limits, every request,
    with the cancellation flag raised at any moment, returns and leads to such a
    state again: no path through success, failure or cancellation exceeds a
    limit, loses an admission or releases one twice. *)
Theorem open_files_accounted {W} (I Room : W -> Prop) owned (v : Vfs W) bin_commands cwd limits cap scoped
    cancelled_at others_pool others_exec r s :
  FdLaws I Room owned v -> 0 <= others_pool -> 0 <= others_exec -> cap <= USIZE_MAX ->
  max_open_files limits <= USIZE_MAX ->
  FsInvx I owned limits cap scoped others_pool others_exec 0 s -> Room (fs_world s) ->
  wp (fs_serve v bin_commands cwd limits cap scoped cancelled_at r) s
     (fun _ s' => FsInvx I owned limits cap scoped others_pool others_exec 0 s')
     (fun _ s' => FsInvx I owned limits cap scoped others_pool others_exec 0 s').
Proof.
  intros Hv%fd_owner_laws Hp He Hc Hm HI Hr. destruct r; cbn [fs_serve]; try apply forget_wp.
  - by eapply (fs_stat_inv I Room owned).
  - by eapply (fs_readdir_inv I Room owned).
  - by eapply (fs_mkdir_inv I Room owned).
  - by eapply (fs_rename_inv I Room owned).
  - by eapply (fs_unlink_inv I Room owned).
  - by eapply (fs_rmdir_inv I Room owned).
  - eapply wp_mono; [by apply (fs_open_inv I Room owned v bin_commands cwd limits cap scoped cancelled_at
      others_pool others_exec)|by intros ? ? []|done].
  - eapply wp_mono; [by apply (fs_read_at_inv I Room owned v limits cap scoped cancelled_at
      others_pool others_exec)|by intros ? ? []|done].
  - eapply wp_mono; [by apply (fs_write_at_inv I Room owned v limits cap scoped cancelled_at
      others_pool others_exec)|by intros ? ? []|done].
  - by eapply (fs_truncate_inv I Room owned).
  - by eapply (finish_inv I Room owned).
  - by eapply (finish_inv I Room owned).
  - by eapply (read_file_bounded_inv I Room owned).
  - by eapply (write_file_inv I Room owned).
  - by eapply (touch_inv I Room owned).
  - eapply wp_mono; [by apply (abandon_all_inv I Room owned v limits cap scoped others_pool others_exec)
      |by intros ? ? []|done].
Qed.

Lemma open_files_accounted_witness :
  wp (fs_serve demo_vfs [] (lit "/") default_limits 4 true (fun n => (3 <? n)%nat)
        (ROpen (lit "/tmp/f") (with_create write_only))) demo_fs
     (fun _ s' => FsInvx demo_world_inv mount_owned default_limits 4 true 0 0 0 s')
     (fun _ s' => FsInvx demo_world_inv mount_owned default_limits 4 true 0 0 0 s').
Proof.
  apply (open_files_accounted demo_world_inv (MRoom BackendsRoom) mount_owned);
    [apply demo_laws|lia|lia|vm_compute; discriminate|vm_compute; discriminate|apply demo_fs_inv|apply demo_room].
Defined.

(** Operations on whole files leak no handle.  Reading, writing, appending
    to and touching a file hold, when they return, exactly the handles that were
    held before, whether they succeed, fail halfway or are cancelled. *)
Theorem whole_file_operations_leak_nothing {W} (I Room : W -> Prop) owned (v : Vfs W) bin_commands cwd limits
    cap scoped cancelled_at others_pool others_exec path limit data append s :
  FdLaws I Room owned v -> 0 <= others_pool -> 0 <= others_exec -> cap <= USIZE_MAX ->
  max_open_files limits <= USIZE_MAX ->
  FsInvx I owned limits cap scoped others_pool others_exec 0 s -> Room (fs_world s) ->
  let same {A} := fun (_ : A) s' =>
    FsInvx I owned limits cap scoped others_pool others_exec 0 s' /\ fs_files s' = fs_files s in
  wp (read_file_bounded v bin_commands cwd limits cap scoped cancelled_at path limit) s same same
  /\ wp (write_file v bin_commands cwd limits cap scoped cancelled_at path data append) s same same
  /\ wp (touch v bin_commands cwd limits cap scoped cancelled_at path) s same same.
Proof.
  intros Hv%fd_owner_laws Hp He Hc Hm HI Hr same. split_and!.
  - by apply (read_file_bounded_files I Room owned).
  - by apply (write_file_files I Room owned).
  - by apply (touch_files I Room owned).
Qed.

Lemma whole_file_operations_leak_nothing_witness :
  wp (write_file demo_vfs [] (lit "/") default_limits 4 true (fun n => (6 <? n)%nat) (lit "/tmp/f") [1; 2] false)
     demo_fs
     (fun _ s' => FsInvx demo_world_inv mount_owned default_limits 4 true 0 0 0 s' /\ fs_files s' = fs_files demo_fs)
     (fun _ s' => FsInvx demo_world_inv mount_owned default_limits 4 true 0 0 0 s' /\ fs_files s' = fs_files demo_fs).
Proof.
  refine (proj1 (proj2 (whole_file_operations_leak_nothing demo_world_inv (MRoom BackendsRoom) mount_owned
    demo_vfs [] (lit "/") default_limits 4 true (fun n => (6 <? n)%nat) 0 0 (lit "/tmp/f") 0 [1; 2] false
    demo_fs _ _ _ _ _ _ _)));
    [apply demo_laws|lia|lia|vm_compute; discriminate|vm_compute; discriminate|apply demo_fs_inv|apply demo_room].
Defined.

(** Abandoning everything returns every admission.  When an execution ends,
    however it ends, its registry is emptied, and the shared and the execution's
    counters stand at what the other registries hold. *)
Theorem abandon_all_returns_everything {W} (I Room : W -> Prop) owned (v : Vfs W) limits cap scoped
    others_pool others_exec s :
  FdLaws I Room owned v -> 0 <= others_pool -> 0 <= others_exec -> cap <= USIZE_MAX ->
  max_open_files limits <= USIZE_MAX ->
  FsInvx I owned limits cap scoped others_pool others_exec 0 s ->
  wp (abandon_all v scoped) s
     (fun _ s' => fs_files s' = ∅ /\ pool_open s' = others_pool
                  /\ (scoped = true -> exec_open s' = others_exec) /\ I (fs_world s'))
     (fun _ _ => False).
Proof.
  intros Hv%fd_owner_laws Hp He Hc Hm HI.
  eapply wp_mono; [by apply (abandon_all_inv I Room owned v limits cap scoped others_pool others_exec)| |done].
  intros _ s' [[H1 H2 H3 H4 H5] Hf]. rewrite Hf, size_empty in *. split; [done|]. split; [lia|].
  split; [|done]. intros Hs. destruct (H5 Hs). lia.
Qed.

Lemma abandon_all_returns_everything_witness :
  wp (abandon_all demo_vfs true) demo_fs
     (fun _ s' => fs_files s' = ∅ /\ pool_open s' = 0 /\ (true = true -> exec_open s' = 0)
                  /\ demo_world_inv (fs_world s'))
     (fun _ _ => False).
Proof.
  apply (abandon_all_returns_everything demo_world_inv (MRoom BackendsRoom) mount_owned demo_vfs default_limits 4 true);
    [apply demo_laws|lia|lia|vm_compute; discriminate|vm_compute; discriminate|apply demo_fs_inv].
Defined.

(** ** Whole files *)

(** The chunked read loop returns the whole file or says why not.  On a
    handle that reads as contents [d], it returns exactly [d] if [d] is within
    the limit; it fails with EFBIG only if [d] is longer and with EIO only if
    the execution was cancelled; the turns the limit allows are enough, and
    neither the handles held nor the counters change. *)
Theorem read_loop_reads_file {W} (v : Vfs W) limits scoped cancelled_at P h d limit s :
  0 <= limit <= USIZE_MAX -> len d <= USIZE_MAX -> reads_as v P h d -> P (fs_world s) ->
  wp (read_loop v limits scoped cancelled_at (Z.to_nat limit + 2) h limit []) s
     (fun out s' => out = d /\ len d <= limit /\ reading P s s')
     (fun e s' => ((e = EFBIG /\ limit < len d) \/ (e = EIO /\ cancelled_seen scoped cancelled_at))
                  /\ reading P s s').
Proof. intros Hl Hd Hr HP. change [] with (take 0 d). apply read_loop_spec; (done || lia). Qed.

(** Two files are open in every backend, handle 1 on four bytes. *)
Definition demo_open : FsState Backends := mkFsState (fun _ => demo_two) {[1]} 1 1 0.

Lemma demo_reads_as :
  reads_as (mem_vfs (fun _ => ample) 0) (fun w => w 0%nat = demo_two) 1 [0; 0; 7; 8].
Proof.
  intros w offset buf Hw Ho. cbn [mem_vfs v_read_at]. unfold wp, on_backend. rewrite Hw.
  pose proof (read_at_spec ample demo_two 1 offset buf demo_two_inv) as H. unfold wp in H.
  destruct (read_at 1 offset buf demo_two) as [[r|e| |] s']; try done.
  - destruct H as (-> & x & d & Hx & _ & Hd & ->). split; [|by rewrite decide_True].
    assert (handles demo_two !! 1 = Some (mkHandle 1 true true false)) as Hx' by (vm_compute; reflexivity).
    rewrite Hx in Hx'. injection Hx' as ->.
    assert (contents demo_two 1 = Some [0; 0; 7; 8]) as Hd' by (vm_compute; reflexivity).
    simpl in Hd. rewrite Hd in Hd'. by injection Hd' as ->.
  - destruct H as [-> [Hbad|Hbad]]; [done|]. specialize (Hbad (mkHandle 1 true true false)).
    discriminate Hbad. vm_compute. reflexivity.
Qed.

Lemma read_loop_reads_file_witness :
  wp (read_loop (mem_vfs (fun _ => ample) 0) default_limits true (fun _ => false) (Z.to_nat 4 + 2) 1 4 []) demo_open
     (fun out s' => out = [0; 0; 7; 8] /\ len [0; 0; 7; 8] <= 4 /\ reading (fun w => w 0%nat = demo_two) demo_open s')
     (fun e s' => ((e = EFBIG /\ 4 < len [0; 0; 7; 8]) \/ (e = EIO /\ cancelled_seen true (fun _ => false)))
                  /\ reading (fun w => w 0%nat = demo_two) demo_open s').
Proof.
  apply (read_loop_reads_file (mem_vfs (fun _ => ample) 0) default_limits true (fun _ => false)
           (fun w => w 0%nat = demo_two) 1 [0; 0; 7; 8] 4 demo_open);
    [vm_compute; split; discriminate|vm_compute; discriminate|apply demo_reads_as|reflexivity].
Defined.

(** ** Captured output *)

Lemma capture_len c all :
  0 <= c -> len (capture_of c all).1 <= Z.max c (len TRUNCATION_MARKER).
Proof.
  intros Hc. unfold capture_of. destruct (len all <=? c) eqn:Hl; unbool; [simpl; lia|].
  destruct (c <=? len TRUNCATION_MARKER) eqn:Hm; unbool; cbn [fst]; [lia|].
  destruct (lens c Hm) as (Hh & Ht & _).
  assert (head_len c + tail_len c = c - len TRUNCATION_MARKER) as Hs by (unfold head_len, tail_len; lia).
  rewrite !len_app. unfold last_bytes, len in *. rewrite length_take, length_drop. lia.
Qed.

(** C27: what is captured depends on the output, not on how it arrived.  However
    a command's output is cut into writes, none of them fails, and the capture
    is the output itself if it fits the limit, otherwise its first and last
    bytes around the truncation marker, and never longer than the limit or, for
    limits shorter than that, the marker. *)
Theorem captured_output_independent_of_chunks limit pieces :
  0 <= limit -> len (concat pieces) <= USIZE_MAX ->
  exists c, capped_writes pieces (capped_new limit) = Ok c
    /\ capped_finish c = capture_of limit (concat pieces)
    /\ len (capped_finish c).1 <= Z.max limit (len TRUNCATION_MARKER).
Proof.
  intros Hc Hl. destruct (capped_writes_spec limit pieces [] (capped_new limit)) as (c & Hw & Hs);
    [|done|done|].
  { unfold capped_state. by rewrite (proj2 (Z.leb_le (len []) limit) Hc). }
  exists c. split; [done|]. rewrite (capped_finish_spec _ _ _ Hs). split; [done|]. by apply capture_len.
Qed.

Lemma captured_output_independent_of_chunks_witness :
  exists c, capped_writes [repeat 97 30; []; repeat 98 30] (capped_new 40) = Ok c
    /\ capped_finish c = capture_of 40 (concat [repeat 97 30; []; repeat 98 30])
    /\ len (capped_finish c).1 <= Z.max 40 (len TRUNCATION_MARKER).
Proof. apply (captured_output_independent_of_chunks 40); vm_compute; discriminate. Defined.

(** ** JavaScript globals *)

(** The registry [m] with [entries] set over it. *)
Definition overridden {G} (m : list (str * G)) (entries : list (str * G)) (m' : list (str * G)) : Prop :=
  NoDup entries.*1
  /\ forall name, bt_get name m' = match list_find (fun e => e.1 = name) entries with
                                   | Some (_, e) => Some e.2
                                   | None => bt_get name m
                                   end.

Lemma merge_js_globals_spec {G} (m entries : list (str * G)) :
  registry_ok m ->
  match merge_js_globals m entries with
  | Ok m' => registry_ok m' /\ overridden m entries m'
  | Err _ => True
  | _ => False
  end.
Proof.
  intros Hm. pose proof (merge_loop_spec ∅ m entries Hm) as H. unfold merge_js_globals.
  destruct (merge_loop ∅ m entries) as [m'|e| |]; try done. destruct H as (? & ? & _ & ?). done.
Qed.

Lemma mutate_spec {G} (change : list (str * G) -> outcome str (list (str * G))) m Q :
  match change m with Ok m' => Q m' | Err _ => True | _ => False end ->
  wp (mutate_js_globals change) m (fun _ m' => Q m') (fun _ m' => m' = m).
Proof.
  intros H. unfold mutate_js_globals, wp, sbind, sget, slift, sput. by destruct (change m).
Qed.

(** The JavaScript globals of a sandbox never clash.  Setting, extending,
    replacing and removing globals keep the registry one in which every name is
    valid and not reserved and no name is a namespace of another; a successful
    change sets exactly the given names, each once, and a rejected one leaves
    the registry as it was. *)
Theorem js_globals_never_clash {G} (m globals : list (str * G)) name g :
  registry_ok m ->
  wp (set_js_global name g) m (fun _ m' => registry_ok m' /\ overridden m [(name, g)] m') (fun _ m' => m' = m)
  /\ wp (extend_js_globals globals) m
        (fun _ m' => registry_ok m' /\ overridden m globals m') (fun _ m' => m' = m)
  /\ wp (replace_js_globals globals) m
        (fun _ m' => registry_ok m' /\ overridden [] globals m') (fun _ m' => m' = m)
  /\ wp (remove_js_global name) m
        (fun b m' => registry_ok m' /\ (b = true <-> is_Some (bt_get name m)) /\ m' = bt_remove name m)
        (fun _ _ => False).
Proof.
  intros Hm. split_and!.
  - by apply mutate_spec, merge_js_globals_spec.
  - by apply mutate_spec, merge_js_globals_spec.
  - apply mutate_spec, merge_js_globals_spec, registry_ok_nil.
  - unfold remove_js_global, wp, sbind, sget, sput, sret.
    destruct (bt_get name m) as [x|] eqn:Hx.
    + split; [by apply registry_ok_remove|]. split; [|done]. by split.
    + rewrite bt_remove_None by done. split; [done|]. split; [|done]. by split; [|intros []].
Qed.

Lemma js_globals_never_clash_witness :
  wp (set_js_global (lit "tools.search") 1) [] (fun _ m' => registry_ok m' /\ overridden [] [(lit "tools.search", 1)] m')
     (fun _ m' => m' = []).
Proof. apply (js_globals_never_clash [] [] (lit "tools.search") 1), registry_ok_nil. Defined.

(** Two global names conflict exactly when one is the other or one of its
    namespaces, that is, when the dot-separated segments of one are a prefix of
    those of the other. *)
Theorem js_name_conflicts_are_prefixes a b :
  paths_conflict a b = true
  <-> segments_of a `prefix_of` segments_of b \/ segments_of b `prefix_of` segments_of a.
Proof. apply paths_conflict_segments. Qed.

(** ** jq options *)

(** Parsing the arguments of jq is total and its options are consistent: it
    neither panics nor runs out of arguments; the indent is a tab or at most
    eight blanks, no indent means compact output, joined output is raw, and
    every variable is a dollar sign and a valid name. *)
Theorem jq_options_consistent args :
  match parse_jq_args args with
  | Ok o => options_ok o
  | Err _ => True
  | _ => False
  end.
Proof. apply parse_jq_args_ok. Qed.

(** Jq options survive being written as arguments.  Every consistent set of
    options, with any filter and file names, is parsed back from the arguments
    that spell it out. *)
Theorem jq_options_round_trip o : options_ok o -> parse_jq_args (render_jq_args o) = Ok o.
Proof. apply parse_render. Qed.

Lemma jq_options_round_trip_witness :
  let o := mkJqOptions (lit ".a[]") [lit "x.json"; lit "-y"] true false false false true false true [ch TAB]
             [mkJqVariable (lit "$n") (lit "--weird value") false] in
  parse_jq_args (render_jq_args o) = Ok o.
Proof.
  apply jq_options_round_trip. constructor; [by left| |done|done].
  constructor; [|constructor]. exists (lit "n"). by vm_compute.
Defined.

(** ** Redirects *)

(** C28: the redirects of a command hold the handles they name and no others.
    When they are prepared, the handles held beyond those held before are that of
    the last input redirect and those of the files the two output streams finally
    go to; every file opened on the way and superseded is closed.  When preparing
    them fails, the input and every file no stream goes to are closed, and the
    admission counters are exact in both cases. *)
Theorem redirects_hold_what_they_name {W} (I Room : W -> Prop) Rooms owned (v : Vfs W) bin_commands cwd limits cap
    scoped cancelled_at others_pool others_exec simple targets st :
  FdLaws I Room owned v -> RoomLaws I Room Rooms v ->
  0 <= others_pool -> 0 <= others_exec -> cap <= USIZE_MAX -> max_open_files limits <= USIZE_MAX ->
  FsInvx I owned limits cap scoped others_pool others_exec 0 (r_fs st) ->
  Rooms (length (redirects simple)) (fs_world (r_fs st)) ->
  wp (prepare_redirects v bin_commands cwd limits cap scoped cancelled_at simple targets) st
     (fun red st' =>
        FsInvx I owned limits cap scoped others_pool others_exec 0 (r_fs st')
        /\ fs_files (r_fs st') = fs_files (r_fs st) ∪ (stdin_handles red ∪ stream_handles red (r_opened st')))
     (fun _ st' =>
        FsInvx I owned limits cap scoped others_pool others_exec 0 (r_fs st')
        /\ fs_files (r_fs st') = fs_files (r_fs st) ∪ stream_handles (r_red st') (r_opened st')).
Proof.
  intros Hv%fd_owner_laws Hr Hp He Hc Hm HI HR.
  eapply wp_mono; [apply (prepare_redirects_inv I Room Rooms owned v bin_commands cwd limits cap scoped cancelled_at
                            others_pool others_exec Hp He Hc Hm simple targets (fs_files (r_fs st)) st (conj HI (conj HR eq_refl)))|..].
  - intros red st' ([(HI' & _ & Hf) _ _ _ _ _] & -> & Hset). by rewrite <- (settled_handles _ _ Hset).
  - intros e st' ([(HI' & _ & Hf) _ _ _ _ _] & Hin & Hset). split; [done|].
    rewrite <- (settled_handles _ _ Hset), Hf. unfold stdin_handles. by rewrite Hin, union_empty_l_L.
Qed.

Lemma demo_room_laws :
  RoomLaws demo_world_inv (MRoom BackendsRoom) (MRooms BackendsRooms) demo_vfs.
Proof.
  assert (forall name v, bt_get name (mounts demo_table) = Some v -> exists k, v = mem_vfs (fun _ => ample) k) as Ht.
  { intros name v H. cbn in H. repeat case_decide; simplify_eq; eauto. }
  apply mounted_room_laws.
  - intros name v [k ->]%Ht. apply mem_laws; intros; first [apply ample_ok|apply ample_addressable].
  - intros name v [k ->]%Ht. apply mem_room_laws; intros; first [apply ample_ok|apply ample_addressable].
  - intros n w H k. destruct (H k). unfold counters_left. lia.
  - intros n w H k. destruct (H k). unfold counters_for. lia.
Qed.

(** [> /tmp/a 2> /tmp/b 2>&1] *)
Definition demo_redirects : SimpleCommand :=
  mkSimpleCommand [] []
    [mkRedirect None Write (TargetWord (mkWord [])); mkRedirect (Some 2) Write (TargetWord (mkWord []));
     mkRedirect (Some 2) Write (TargetFd 1)].
Definition demo_targets : list (list str) := [[lit "/tmp/a"]; [lit "/tmp/b"]; []].
Definition demo_start : RState (MState Backends) := mkRState demo_fs [] default_redirects.

Lemma demo_rooms n : (n <= 10)%nat -> MRooms BackendsRooms n (fs_world demo_fs).
Proof.
  intros Hn. split; [intros k; split; simpl; unfold U64_MAX; lia|].
  change (m_handles (fs_world demo_fs)) with (∅ : gmap Z (MountedHandle Backends)). rewrite map_size_empty. lia.
Qed.

Lemma redirects_hold_what_they_name_witness :
  wp (prepare_redirects demo_vfs [] (lit "/") default_limits 4 true (fun _ => false) demo_redirects demo_targets)
     demo_start
     (fun red st' =>
        FsInvx demo_world_inv mount_owned default_limits 4 true 0 0 0 (r_fs st')
        /\ fs_files (r_fs st') = fs_files demo_fs ∪ (stdin_handles red ∪ stream_handles red (r_opened st')))
     (fun _ st' =>
        FsInvx demo_world_inv mount_owned default_limits 4 true 0 0 0 (r_fs st')
        /\ fs_files (r_fs st') = fs_files demo_fs ∪ stream_handles (r_red st') (r_opened st')).
Proof.
  apply (redirects_hold_what_they_name demo_world_inv (MRoom BackendsRoom) (MRooms BackendsRooms) mount_owned demo_vfs
           [] (lit "/") default_limits 4 true (fun _ => false) 0 0 demo_redirects demo_targets demo_start);
    [apply demo_laws|apply demo_room_laws|lia|lia|vm_compute; discriminate|vm_compute; discriminate
    |apply demo_fs_inv|apply demo_rooms; simpl; lia].
Defined.

(** A command made of redirects alone gives every handle back.  After a
    successful run of such a command, which creates, truncates and checks the
    files its redirects name, the handles held are those held before. *)
Theorem redirect_only_leaks_nothing {W} (I Room : W -> Prop) Rooms owned (v : Vfs W) bin_commands cwd limits cap
    scoped cancelled_at others_pool others_exec simple targets st :
  FdLaws I Room owned v -> RoomLaws I Room Rooms v ->
  0 <= others_pool -> 0 <= others_exec -> cap <= USIZE_MAX -> max_open_files limits <= USIZE_MAX ->
  FsInvx I owned limits cap scoped others_pool others_exec 0 (r_fs st) ->
  Rooms (length (redirects simple)) (fs_world (r_fs st)) ->
  wp (redirect_only v bin_commands cwd limits cap scoped cancelled_at simple targets) st
     (fun _ st' => FsInvx I owned limits cap scoped others_pool others_exec 0 (r_fs st')
                   /\ fs_files (r_fs st') = fs_files (r_fs st))
     (fun _ st' => FsInvx I owned limits cap scoped others_pool others_exec 0 (r_fs st')
                   /\ fs_files (r_fs st') = fs_files (r_fs st) ∪ stream_handles (r_red st') (r_opened st')).
Proof.
  intros Hv%fd_owner_laws Hr Hp He Hc Hm HI HR.
  eapply wp_mono; [apply (redirect_only_inv I Room Rooms owned v bin_commands cwd limits cap scoped cancelled_at
                            others_pool others_exec Hp He Hc Hm simple targets (fs_files (r_fs st)) st (conj HI (conj HR eq_refl)))|..].
  - intros [] st' (HI' & _ & Hf). done.
  - intros e st' ([(HI' & _ & Hf) _ _ _ _ _] & Hin & Hset). split; [done|].
    rewrite <- (settled_handles _ _ Hset), Hf. unfold stdin_handles. by rewrite Hin, union_empty_l_L.
Qed.

Lemma redirect_only_leaks_nothing_witness :
  wp (redirect_only demo_vfs [] (lit "/") default_limits 4 true (fun _ => false) demo_redirects demo_targets)
     demo_start
     (fun _ st' => FsInvx demo_world_inv mount_owned default_limits 4 true 0 0 0 (r_fs st')
                   /\ fs_files (r_fs st') = fs_files demo_fs)
     (fun _ st' => FsInvx demo_world_inv mount_owned default_limits 4 true 0 0 0 (r_fs st')
                   /\ fs_files (r_fs st') = fs_files demo_fs ∪ stream_handles (r_red st') (r_opened st')).
Proof.
  apply (redirect_only_leaks_nothing demo_world_inv (MRoom BackendsRoom) (MRooms BackendsRooms) mount_owned demo_vfs
           [] (lit "/") default_limits 4 true (fun _ => false) 0 0 demo_redirects demo_targets demo_start);
    [apply demo_laws|apply demo_room_laws|lia|lia|vm_compute; discriminate|vm_compute; discriminate
    |apply demo_fs_inv|apply demo_rooms; simpl; lia].
Defined.

(** *** A superseded file that cannot be closed *)

(** A backend that numbers its handles and whose second file fails to close, as a
    remote store may. *)
Record Flaky := mkFlaky { fl_next : Z; fl_open : gset Z }.

Definition flaky_release (fails : bool) (h : Z) : ST Flaky Errno unit :=
  fun w => (if fails && (h =? 2) then Err EIO else Ok tt, mkFlaky (fl_next w) (fl_open w ∖ {[h]})).

Definition flaky_vfs : Vfs Flaky :=
  mkVfs (fun _ => sfail ENOENT) (fun _ => sfail ENOENT) (fun _ => sfail EACCES) (fun _ _ => sfail EACCES)
    (fun _ => sfail EACCES) (fun _ => sfail EACCES)
    (fun _ _ w => (Ok (fl_next w), mkFlaky (fl_next w + 1) ({[fl_next w]} ∪ fl_open w)))
    (fun _ _ buf => sret (0, buf)) (fun _ _ b => sret (len b)) (fun _ _ => sret tt)
    (flaky_release true) (flaky_release false) (fun _ => true) (fun _ _ => true) true (fun _ => None).

(** With [> /a 2> /b 2>&1] both streams go to [/a]; closing the superseded [/b]
    fails, and the command with it, but the loop had already passed over [/a],
    which is then neither closed nor given up. *)
Example failed_close_keeps_stream_open :
  let r := prepare_redirects flaky_vfs [] (lit "/") default_limits 4 true (fun _ => false) demo_redirects
             [[lit "/a"]; [lit "/b"]; []]
             (mkRState (mkFsState (mkFlaky 1 ∅) ∅ 0 0 0) [] default_redirects) in
  r.1 = Err (lit "/b", EIO) /\ fs_files (r_fs r.2) = {[1]} /\ pool_open (r_fs r.2) = 1.
Proof. vm_compute. auto. Qed.

(** ** Session builtins *)

(** The session stays well formed.  [cd], [export] and [unset], with any
    arguments, return 0 without a message or 1 with one; the working directory
    stays absolute and normalized, the environments stay maps, only identifiers
    are added to the names of the session, and the admission counters are exact. *)
Theorem builtins_keep_session {W} (I Room : W -> Prop) owned (v : Vfs W) bin_commands fs_cwd limits cap scoped
    cancelled_at others_pool others_exec builtin args st :
  FdLaws I Room owned v ->
  session_ok I owned limits cap scoped others_pool others_exec st ->
  wp (run_shell_builtin_stage v bin_commands fs_cwd limits scoped cancelled_at builtin args) st
     (fun status st' => session_ok I owned limits cap scoped others_pool others_exec st'
                        /\ names_from st st' /\ reported st st' status)
     (fun _ _ => False).
Proof.
  intros Hv%fd_owner_laws Hst. destruct builtin; cbn [run_shell_builtin_stage].
  - eapply wp_mono; [by apply (run_cd_ok I Room owned v bin_commands fs_cwd limits cap scoped cancelled_at others_pool
                                 others_exec)|by intros status st' [? _]|done].
  - destruct args as [|arg args]; [|by apply export_loop_ok].
    destruct Hst as [H1 H2 H3 H4]. unfold run_export. wp_steps. split; [by constructor|]. split; [by left|by left].
  - by apply run_unset_ok.
Qed.

(** [cd] moves to a directory or stays.  With status 0 the filesystem
    reported the resolved target, the argument or the home directory, to be a
    directory; it is the new working directory and [PWD], the old one is
    [OLDPWD], in the session and for the command, and no other variable changed.
    With status 1 the working directory and both environments are as before. *)
Theorem cd_moves_or_stays {W} (I Room : W -> Prop) owned (v : Vfs W) bin_commands fs_cwd limits cap scoped
    cancelled_at others_pool others_exec args st :
  FdLaws I Room owned v ->
  session_ok I owned limits cap scoped others_pool others_exec st ->
  wp (run_shell_builtin_stage v bin_commands fs_cwd limits scoped cancelled_at Cd args) st
     (fun status st' => if status =? 0 then cd_done v bin_commands fs_cwd limits scoped cancelled_at args st st'
                        else cd_refused st st')
     (fun _ _ => False).
Proof.
  intros Hv%fd_owner_laws Hst. eapply wp_mono; [by apply (run_cd_ok I Room owned v bin_commands fs_cwd limits cap scoped cancelled_at
    others_pool others_exec)|by intros status st' [_ ?]|done].
Qed.

Definition demo_session : BState (MState Backends) :=
  mkBState demo_fs (lit "/") [(lit "HOME", lit "/tmp")] [] [] [].

Lemma demo_session_ok : session_ok demo_world_inv mount_owned default_limits 4 true 0 0 demo_session.
Proof.
  constructor; [by exists []|by repeat constructor|constructor|apply demo_fs_inv].
Qed.

Lemma builtins_keep_session_witness :
  wp (run_shell_builtin_stage demo_vfs [] (lit "/") default_limits true (fun _ => false) Export
        [lit "A=1"; lit "B"; lit "2C=3"]) demo_session
     (fun status st' => session_ok demo_world_inv mount_owned default_limits 4 true 0 0 st'
                        /\ names_from demo_session st' /\ reported demo_session st' status)
     (fun _ _ => False).
Proof.
  apply (builtins_keep_session demo_world_inv (MRoom BackendsRoom) mount_owned); [apply demo_laws|apply demo_session_ok].
Defined.

Lemma cd_moves_or_stays_witness :
  (run_shell_builtin_stage demo_vfs [] (lit "/") default_limits true (fun _ => false) Cd [] demo_session).1 = Ok 0
  /\ wp (run_shell_builtin_stage demo_vfs [] (lit "/") default_limits true (fun _ => false) Cd []) demo_session
     (fun status st' => if status =? 0
                        then cd_done demo_vfs [] (lit "/") default_limits true (fun _ => false) [] demo_session st'
                        else cd_refused demo_session st')
     (fun _ _ => False).
Proof.
  split; [vm_compute; reflexivity|].
  apply (cd_moves_or_stays demo_world_inv (MRoom BackendsRoom) mount_owned demo_vfs [] (lit "/") default_limits 4 true
           (fun _ => false) 0 0 [] demo_session); [apply demo_laws|apply demo_session_ok].
Defined.
