(* ===== verification/Utf8.v ===== *)
(** * UTF-8: text as bytes

    The streams of a command carry bytes, its arguments are text.  [encode] is
    [str::as_bytes]; [from_utf8_lossy] is [String::from_utf8_lossy], in which every
    maximal invalid prefix becomes one U+FFFD.  Text made of scalar values survives
    the way out and back. *)

From S2P Require Import Prelude RustStr VfsTypes.

#[local] Open Scope Z_scope.

(** The bytes of one character ([char::encode_utf8]). *)
Definition encode_char (c : char) : bytes :=
  let z := Z.of_N c in
  if z <? 128 then [z]
  else if z <? 2048 then [192 + z / 64; 128 + z mod 64]
  else if z <? 65536 then [224 + z / 4096; 128 + z / 64 mod 64; 128 + z mod 64]
  else [240 + z / 262144; 128 + z / 4096 mod 64; 128 + z / 64 mod 64; 128 + z mod 64].

(** [s.as_bytes()]. *)
Definition encode (s : str) : bytes := flat_map encode_char s.

Definition between (lo hi b : Z) : bool := (lo <=? b) && (b <=? hi).
Definition is_cont (b : Z) : bool := between 128 191 b.

(** The second byte a three or four byte sequence may have after its first. *)
Definition second_of_3 (b0 b1 : Z) : bool :=
  ((b0 =? 224) && between 160 191 b1) || (between 225 236 b0 && is_cont b1)
  || ((b0 =? 237) && between 128 159 b1) || (between 238 239 b0 && is_cont b1).
Definition second_of_4 (b0 b1 : Z) : bool :=
  ((b0 =? 240) && between 144 191 b1) || (between 241 243 b0 && is_cont b1)
  || ((b0 =? 244) && between 128 143 b1).

Definition REPLACEMENT : char := 65533%N.

Fixpoint from_utf8_lossy (s : bytes) : str :=
  match s with
  | [] => []
  | b0 :: r1 =>
      if b0 <? 128 then Z.to_N b0 :: from_utf8_lossy r1
      else if between 194 223 b0 then
        match r1 with
        | b1 :: r2 =>
            if is_cont b1 then Z.to_N ((b0 - 192) * 64 + (b1 - 128)) :: from_utf8_lossy r2
            else REPLACEMENT :: from_utf8_lossy r1
        | [] => [REPLACEMENT]
        end
      else if between 224 239 b0 then
        match r1 with
        | b1 :: r2 =>
            if second_of_3 b0 b1 then
              match r2 with
              | b2 :: r3 =>
                  if is_cont b2
                  then Z.to_N ((b0 - 224) * 4096 + (b1 - 128) * 64 + (b2 - 128)) :: from_utf8_lossy r3
                  else REPLACEMENT :: from_utf8_lossy r2
              | [] => [REPLACEMENT]
              end
            else REPLACEMENT :: from_utf8_lossy r1
        | [] => [REPLACEMENT]
        end
      else if between 240 244 b0 then
        match r1 with
        | b1 :: r2 =>
            if second_of_4 b0 b1 then
              match r2 with
              | b2 :: r3 =>
                  if is_cont b2 then
                    match r3 with
                    | b3 :: r4 =>
                        if is_cont b3
                        then Z.to_N ((b0 - 240) * 262144 + (b1 - 128) * 4096 + (b2 - 128) * 64 + (b3 - 128))
                             :: from_utf8_lossy r4
                        else REPLACEMENT :: from_utf8_lossy r3
                    | [] => [REPLACEMENT]
                    end
                  else REPLACEMENT :: from_utf8_lossy r2
              | [] => [REPLACEMENT]
              end
            else REPLACEMENT :: from_utf8_lossy r1
        | [] => [REPLACEMENT]
        end
      else REPLACEMENT :: from_utf8_lossy r1
  end.

(** A Rust [char]: a Unicode scalar value ([char::from_u32]). *)
Definition is_scalar (c : char) : bool :=
  (c <? 55296)%N || ((57343 <? c)%N && (c <? 1114112)%N).

(** ** Text survives *)

Lemma encode_app s t : encode (s ++ t) = encode s ++ encode t.
Proof. apply flat_map_app. Qed.

Ltac zdiv := Z.to_euclidean_division_equations; lia.

Lemma lossy_encode_char c s :
  is_scalar c = true -> from_utf8_lossy (encode_char c ++ s) = c :: from_utf8_lossy s.
Proof.
  intros Hc. unfold is_scalar in Hc. apply orb_true_iff in Hc. rewrite andb_true_iff in Hc.
  rewrite !N.ltb_lt in Hc. unfold encode_char. assert (Z.to_N (Z.of_N c) = c) as Hid by lia.
  remember (Z.of_N c) as z eqn:Ez.
  assert (0 <= z < 55296 \/ 57344 <= z < 1114112) as Hz by lia. clear Ez Hc.
  assert (forall lo hi b, lo <= b <= hi -> between lo hi b = true) as Bt
    by (intros; unfold between; rewrite andb_true_iff; lia).
  assert (forall lo hi b, b < lo \/ hi < b -> between lo hi b = false) as Bf
    by (intros; unfold between; apply andb_false_iff; lia).
  assert (forall q, is_cont (128 + q mod 64) = true) as Hct by (intros q; apply Bt; zdiv).
  destruct (z <? 128) eqn:H1; unbool.
  { simpl. rewrite (proj2 (Z.ltb_lt z 128)) by done. by rewrite Hid. }
  destruct (z <? 2048) eqn:H2; unbool.
  { simpl. rewrite (proj2 (Z.ltb_ge _ 128)), (Bt 194 223), Hct by zdiv. f_equal. rewrite <- Hid. f_equal. zdiv. }
  destruct (z <? 65536) eqn:H3; unbool; simpl.
  - rewrite (proj2 (Z.ltb_ge _ 128)), (Bf 194 223), (Bt 224 239), !Hct by zdiv.
    assert (second_of_3 (224 + z / 4096) (128 + z / 64 mod 64) = true) as ->.
    { unfold second_of_3. rewrite !orb_true_iff, !andb_true_iff, !Hct, !Z.eqb_eq. unfold between.
      rewrite !andb_true_iff, !Z.leb_le. zdiv. }
    f_equal. rewrite <- Hid. f_equal. zdiv.
  - rewrite (proj2 (Z.ltb_ge _ 128)), (Bf 194 223), (Bf 224 239), (Bt 240 244), !Hct by zdiv.
    assert (second_of_4 (240 + z / 262144) (128 + z / 4096 mod 64) = true) as ->.
    { unfold second_of_4. rewrite !orb_true_iff, !andb_true_iff, !Hct, !Z.eqb_eq. unfold between.
      rewrite !andb_true_iff, !Z.leb_le. zdiv. }
    f_equal. rewrite <- Hid. f_equal. zdiv.
Qed.

Lemma lossy_encode_app s d :
  Forall (fun c => is_scalar c = true) s -> from_utf8_lossy (encode s ++ d) = s ++ from_utf8_lossy d.
Proof.
  induction 1 as [|c s Hc Hs IH]; simpl; [done|]. by rewrite <- app_assoc, lossy_encode_char, IH.
Qed.

Lemma lossy_encode s : Forall (fun c => is_scalar c = true) s -> from_utf8_lossy (encode s) = s.
Proof. intros H. by rewrite <- (app_nil_r (encode s)), lossy_encode_app, app_nil_r. Qed.

(** A byte below 128 is a character of its own, wherever it stands. *)
Lemma encode_char_ascii c b : b < 128 -> b ∈ encode_char c -> encode_char c = [b] /\ b = Z.of_N c.
Proof.
  intros Hb. unfold encode_char. pose proof (N2Z.is_nonneg c).
  destruct (_ <? 128) eqn:H1; unbool; [rewrite list_elem_of_singleton; by intros ->|].
  repeat case_match; rewrite !elem_of_cons, elem_of_nil; intros; exfalso; zdiv.
Qed.

Example lossy_replaces : from_utf8_lossy [97; 255; 226; 130; 98; 226; 130; 172]
  = [97; REPLACEMENT; REPLACEMENT; 98; 8364]%N.
Proof. reflexivity. Qed.
