(* ===== verification/Streams.v ===== *)
(** * The streams of a command (src/src/sandbox/fs.rs, mod.rs)

    A command reads its stdin and the files it opens, and writes its stdout and
    stderr.  Readers and writers are trait objects behind [&mut]; here they are
    names of places in the state of the command.  A reader is a file of the facade
    ([FsStreamReader]) or the end of a pipe, whose other end is an arbitrary list
    of events.  A writer is a captured stream, a redirect file, or a pipe, which
    takes bytes until its reader goes away. *)

From Stdlib Require Import Ascii String.
From S2P Require Import Prelude RustStr VfsTypes VfsIface SandboxFs Redirects Output Utf8.

(** ** Errors *)

(** [io::Error]: its kind, or the [VfsError] it carries. *)
Inductive IoError :=
| BrokenPipe
| InvalidData (message : str)
| VfsFailure (e : Errno)
| OtherIo.

#[global] Instance IoError_eq_dec : EqDecision IoError.
Proof. solve_decision. Defined.

(** ** Readers and writers *)

(** What the next read of a pipe delivers. *)
Inductive StreamEvent :=
| Chunk (data : bytes)
| Fails (e : IoError).

Record FsStreamReader := mkFsStreamReader {
  sr_handle : option FileHandle;
  sr_offset : Z;
  sr_pending : bytes;
  sr_pending_start : Z
}.

Inductive BoxAsyncRead :=
| FromFile (r : FsStreamReader)
| FromPipe (events : list StreamEvent).

(** The reader a command uses: its stdin, or the file it opened last. *)
Inductive Source := Stdin | OpenedFile.

Inductive BoxAsyncWrite :=
| ToCapture (fd : CaptureFd)
| ToRedirect (file : nat)
| ToPipe (pipe : nat).

#[global] Instance Source_eq_dec : EqDecision Source.
Proof. solve_decision. Defined.
#[global] Instance BoxAsyncWrite_eq_dec : EqDecision BoxAsyncWrite.
Proof. solve_decision. Defined.

(** A pipe has taken [accepted] and takes [room] more bytes until its reader goes
    away ([None]: it never does). *)
Record PipeEnd := mkPipeEnd { accepted : bytes; room : option Z; broken : bool }.

(** [Fs]: the facade a command works with. *)
Record Fs (W : Type) := mkFs {
  f_vfs : Vfs W;
  f_bin : list str;
  f_cwd : str;
  f_limits : Limits;
  f_capacity : Z;
  f_scoped : bool;
  f_cancelled : nat -> bool
}.
Arguments mkFs {W}.
Arguments f_vfs {W}.
Arguments f_bin {W}.
Arguments f_cwd {W}.
Arguments f_limits {W}.
Arguments f_capacity {W}.
Arguments f_scoped {W}.
Arguments f_cancelled {W}.

Record XState (W : Type) := mkXState {
  x_red : RState W;
  x_stdout : CappedOutput;
  x_stderr : CappedOutput;
  x_pipes : list PipeEnd;
  x_stdin : BoxAsyncRead;
  x_file : BoxAsyncRead
}.
Arguments mkXState {W}.
Arguments x_red {W}.
Arguments x_stdout {W}.
Arguments x_stderr {W}.
Arguments x_pipes {W}.
Arguments x_stdin {W}.
Arguments x_file {W}.

Section streams.
Context {W : Type} (fs : Fs W).

Abbreviation XM := (ST (XState W) IoError).

Definition set_x_red (r : RState W) (s : XState W) : XState W :=
  mkXState r (x_stdout s) (x_stderr s) (x_pipes s) (x_stdin s) (x_file s).
Definition set_x_pipes (p : list PipeEnd) (s : XState W) : XState W :=
  mkXState (x_red s) (x_stdout s) (x_stderr s) p (x_stdin s) (x_file s).

Definition capture (fd : CaptureFd) (s : XState W) : CappedOutput :=
  match fd with Stdout => x_stdout s | Stderr => x_stderr s end.
Definition set_capture (fd : CaptureFd) (c : CappedOutput) (s : XState W) : XState W :=
  match fd with
  | Stdout => mkXState (x_red s) c (x_stderr s) (x_pipes s) (x_stdin s) (x_file s)
  | Stderr => mkXState (x_red s) (x_stdout s) c (x_pipes s) (x_stdin s) (x_file s)
  end.

Definition reader (src : Source) (s : XState W) : BoxAsyncRead :=
  match src with Stdin => x_stdin s | OpenedFile => x_file s end.
Definition set_reader (src : Source) (r : BoxAsyncRead) (s : XState W) : XState W :=
  match src with
  | Stdin => mkXState (x_red s) (x_stdout s) (x_stderr s) (x_pipes s) r (x_file s)
  | OpenedFile => mkXState (x_red s) (x_stdout s) (x_stderr s) (x_pipes s) (x_stdin s) r
  end.

(** The facade's part of the state. *)
Definition x_fs (s : XState W) : FsState W := r_fs (x_red s).
Definition with_fs (f : FsState W) (s : XState W) : XState W :=
  set_x_red (mkRState f (r_opened (x_red s)) (r_red (x_red s))) s.

(** A call of the facade: [m.await], and its error as the value of a [match]. *)
Definition x_try_fs {A} (m : ST (FsState W) Errno A) : XM (outcome Errno A) :=
  fun s => let '(o, f) := m (x_fs s) in
           let s' := with_fs f s in
           match o with
           | Ok a => (Ok (Ok a), s')
           | Err e => (Ok (Err e), s')
           | Panic => (Panic, s')
           | OutOfFuel => (OutOfFuel, s')
           end.

(** [m.await.map_err(io::Error::other)?]. *)
Definition x_on_fs {A} (m : ST (FsState W) Errno A) : XM A :=
  let! r := x_try_fs m in
  match r with
  | Ok a => sret a
  | Err e => sfail (VfsFailure e)
  | Panic => slift Panic
  | OutOfFuel => slift OutOfFuel
  end.

(** [match m.await { Ok(a) => .., Err(e) => .. }]. *)
Definition x_try {A} (m : XM A) : XM (outcome IoError A) :=
  fun s => match m s with
           | (Ok a, s') => (Ok (Ok a), s')
           | (Err e, s') => (Ok (Err e), s')
           | (Panic, s') => (Panic, s')
           | (OutOfFuel, s') => (OutOfFuel, s')
           end.

Definition x_check : XM unit := x_on_fs (check (f_scoped fs) (f_cancelled fs)).

(** ** Reading *)

(** The bytes of [pending] not copied out yet. *)
Definition unread (r : FsStreamReader) : bytes := drop (Z.to_nat (sr_pending_start r)) (sr_pending r).

(** [copy_pending] for a buffer with [cap] bytes left. *)
Definition copy_pending (r : FsStreamReader) (cap : Z) : option (bytes * FsStreamReader) :=
  if (sr_pending_start r =? len (sr_pending r)) || (cap =? 0) then None
  else
    let n := Z.min (len (sr_pending r) - sr_pending_start r) cap in
    Some (take (Z.to_nat n) (unread r),
          mkFsStreamReader (sr_handle r) (sr_offset r) (sr_pending r) (sr_pending_start r + n)).

(** [close_handle]. *)
Definition close_handle (src : Source) (r : FsStreamReader) : XM unit :=
  match sr_handle r with
  | None => sret tt
  | Some h =>
      let! s := sget in
      let! _ := sput (set_reader src (FromFile
        (mkFsStreamReader None (sr_offset r) (sr_pending r) (sr_pending_start r))) s) in
      x_on_fs (abandon (f_vfs fs) (f_scoped fs) h)
  end.

(** [FsStreamReader::poll_read]. *)
Definition read_file_stream (src : Source) (r : FsStreamReader) (cap : Z) : XM bytes :=
  match copy_pending r cap with
  | Some (data, r) => let! s := sget in let! _ := sput (set_reader src (FromFile r) s) in sret data
  | None =>
      if cap =? 0 then sret []
      else
        match sr_handle r with
        | None => sret []
        | Some h =>
            let! result := x_try_fs (fs_read_at (f_vfs fs) (f_limits fs) (f_scoped fs) (f_cancelled fs)
              h (sr_offset r) (replicate (Z.to_nat STREAM_CHUNK_BYTES) 0)) in
            match result with
            | Err e => let! _ := close_handle src r in sfail (VfsFailure e)
            | Ok (data, n) =>
                if n =? 0 then let! _ := close_handle src r in sret []
                else
                  let r := mkFsStreamReader (Some h) (saturating_add (sr_offset r) n)
                             (take (Z.to_nat n) data) 0 in
                  let! s := sget in
                  match copy_pending r cap with
                  | Some (data, r) => let! _ := sput (set_reader src (FromFile r) s) in sret data
                  | None => slift OutOfFuel
                  end
            | Panic => slift Panic
            | OutOfFuel => slift OutOfFuel
            end
        end
  end.

Definition read_pipe (src : Source) (events : list StreamEvent) (cap : Z) : XM bytes :=
  let! s := sget in
  match events with
  | [] => sret []
  | Fails e :: events => let! _ := sput (set_reader src (FromPipe events) s) in sfail e
  | Chunk data :: events =>
      let rest := drop (Z.to_nat cap) data in
      let! _ := sput (set_reader src (FromPipe (if bool_decide (rest = []) then events
                                                else Chunk rest :: events)) s) in
      sret (take (Z.to_nat cap) data)
  end.

(** [reader.read(&mut buf[..cap])]: the bytes read, none at the end. *)
Definition read (src : Source) (cap : Z) : XM bytes :=
  let! s := sget in
  match reader src s with
  | FromFile r => read_file_stream src r cap
  | FromPipe events => read_pipe src events cap
  end.

(** Dropping a reader. *)
Definition drop_reader (src : Source) : XM unit :=
  let! s := sget in
  match reader src s with
  | FromFile r => close_handle src r
  | FromPipe _ => sput (set_reader src (FromPipe []) s)
  end.

(** [fs.stream_reader_from_handle(handle)]. *)
Definition stream_reader_from_handle (src : Source) (handle : FileHandle) : XM unit :=
  let! s := sget in sput (set_reader src (FromFile (mkFsStreamReader (Some handle) 0 [] 0)) s).

(** [match fs.stream_reader(path).await { Ok(mut reader) => ok(reader), Err(err) => err(err) }]:
    the reader is dropped at the end of its arm. *)
Definition with_stream_reader {A} (path : str) (ok : XM A) (err : Errno -> XM A) : XM A :=
  let! opened := x_try_fs (fs_open (f_vfs fs) (f_bin fs) (f_cwd fs) (f_limits fs) (f_capacity fs)
    (f_scoped fs) (f_cancelled fs) path read_only) in
  match opened with
  | Ok handle =>
      let! _ := stream_reader_from_handle OpenedFile handle in
      let! result := x_try ok in
      let! _ := drop_reader OpenedFile in
      slift result
  | Err e => err e
  | Panic => slift Panic
  | OutOfFuel => slift OutOfFuel
  end.

(** ** Writing *)

Definition set_redirect_file (i : nat) (f : RedirectFile) (s : XState W) : XState W :=
  set_x_red (set_file i f (x_red s)) s.

Definition set_error (e : option Errno) (f : RedirectFile) : RedirectFile :=
  mkRedirectFile (rf_path f) (rf_handle f) (rf_offset f) e.
Definition set_offset (o : Z) (f : RedirectFile) : RedirectFile :=
  mkRedirectFile (rf_path f) (rf_handle f) o (rf_error f).

(** The state behind the lock of redirect file [i]. *)
Definition redirect_file (i : nat) : XM RedirectFile :=
  let! s := sget in slift (expect (r_opened (x_red s) !! i)).
Definition leave_error (i : nat) (e : option Errno) : XM unit :=
  let! f := redirect_file i in
  let! s := sget in sput (set_redirect_file i (set_error e f) s).

(** The task [RedirectWriter::poll_write] spawns; it holds the lock of the file
    until it ends, so whoever uses the file next comes after it. *)
Fixpoint redirect_task (fuel : nat) (i : nat) (handle : FileHandle) (data : bytes) : XM unit :=
  match fuel with
  | O => slift OutOfFuel
  | S fuel =>
      if bool_decide (data = []) then leave_error i None
      else
        let! f := redirect_file i in
        let! result := x_try_fs (fs_write_at (f_vfs fs) (f_limits fs) (f_scoped fs) (f_cancelled fs)
          handle (rf_offset f) data) in
        match result with
        | Ok n =>
            if n =? 0 then leave_error i (Some ENOSPC)
            else
              let! f := redirect_file i in
              let! s := sget in
              let! _ := sput (set_redirect_file i (set_offset (saturating_add (rf_offset f) n) f) s) in
              let! checked := x_try_fs (check (f_scoped fs) (f_cancelled fs)) in
              match checked with
              | Ok _ => redirect_task fuel i handle (drop (Z.to_nat n) data)
              | Err e => leave_error i (Some e)
              | Panic => slift Panic
              | OutOfFuel => slift OutOfFuel
              end
        | Err e => leave_error i (Some e)
        | Panic => slift Panic
        | OutOfFuel => slift OutOfFuel
        end
  end.

(** [RedirectWriter::poll_write] on a nonempty buffer: how much was taken. *)
Definition redirect_write (i : nat) (data : bytes) : XM Z :=
  let! f := redirect_file i in
  match rf_error f with
  | Some e => sfail (VfsFailure e)
  | None =>
      match rf_handle f with
      | None => sfail (VfsFailure EBADF)
      | Some handle =>
          let n := Z.min (len data) STREAM_CHUNK_BYTES in
          let piece := take (Z.to_nat n) data in
          let! _ := leave_error i (Some EIO) in
          let! _ := redirect_task (S (length piece)) i handle piece in
          sret n
      end
  end.

(** [write_all] on a redirect file: every turn takes a byte. *)
Fixpoint redirect_write_all (fuel : nat) (i : nat) (data : bytes) : XM unit :=
  match fuel with
  | O => slift OutOfFuel
  | S fuel =>
      if bool_decide (data = []) then sret tt
      else let! n := redirect_write i data in redirect_write_all fuel i (drop (Z.to_nat n) data)
  end.

Definition capture_write (fd : CaptureFd) (data : bytes) : XM unit :=
  let! s := sget in
  match capped_write data (capture fd s) with
  | Ok c => sput (set_capture fd c s)
  | Err _ | Panic => slift Panic
  | OutOfFuel => slift OutOfFuel
  end.

(** [write_all] on a [SharedCountingPipeWriter]. *)
Definition pipe_write (j : nat) (data : bytes) : XM unit :=
  let! s := sget in
  let! p := slift (expect (x_pipes s !! j)) in
  match room p with
  | Some r =>
      if r <? len data then
        let! _ := sput (set_x_pipes (<[j := mkPipeEnd (accepted p ++ take (Z.to_nat r) data) (Some 0) true]>
                                       (x_pipes s)) s) in
        sfail BrokenPipe
      else sput (set_x_pipes (<[j := mkPipeEnd (accepted p ++ data) (Some (r - len data)) (broken p)]>
                                (x_pipes s)) s)
  | None => sput (set_x_pipes (<[j := mkPipeEnd (accepted p ++ data) None (broken p)]> (x_pipes s)) s)
  end.

(** [writer.write_all(data)]. *)
Definition write_all (dst : BoxAsyncWrite) (data : bytes) : XM unit :=
  match dst with
  | ToCapture fd => capture_write fd data
  | ToRedirect i => redirect_write_all (S (length data)) i data
  | ToPipe j => pipe_write j data
  end.

(** [let _ = writer.write_all(data).await;]. *)
Definition write_ignored (dst : BoxAsyncWrite) (data : bytes) : XM unit :=
  let! _ := x_try (write_all dst data) in sret tt.

(** [writer.write_all(text.as_bytes())]. *)
Definition write_text (dst : BoxAsyncWrite) (text : str) : XM unit := write_all dst (encode text).
Definition say (dst : BoxAsyncWrite) (text : str) : XM unit := write_ignored dst (encode text).

(** ** Errors of commands (builtins.rs) *)

Definition line_end : str := [ch NL].

Definition write_vfs_error (stderr : BoxAsyncWrite) (cmd path : str) (e : Errno) : XM unit :=
  say stderr (cmd ++ lit ": " ++ path ++ lit ": " ++ lit (errno_message e) ++ line_end).

Definition LINE_TOO_LONG : str := lit "line too long".

Definition write_line_too_long (stderr : BoxAsyncWrite) (cmd path : str) : XM unit :=
  say stderr (cmd ++ lit ": " ++ path ++ lit ": " ++ LINE_TOO_LONG ++ line_end).

Definition is_broken_pipe (e : IoError) : bool := bool_decide (e = BrokenPipe).
Definition is_line_too_long (e : IoError) : bool := bool_decide (e = InvalidData LINE_TOO_LONG).

Definition io_error_to_vfs (e : IoError) : option Errno :=
  match e with
  | BrokenPipe => None
  | VfsFailure e => Some e
  | InvalidData _ | OtherIo => Some EINVAL
  end.

(** Whether the error was reported; a broken pipe is not. *)
Definition report_stream_error (stderr : BoxAsyncWrite) (cmd path : str) (e : IoError) : XM bool :=
  if is_broken_pipe e then sret false
  else if is_line_too_long e then let! _ := write_line_too_long stderr cmd path in sret true
  else
    match e with
    | InvalidData message =>
        let! _ := say stderr (cmd ++ lit ": " ++ path ++ lit ": " ++ message ++ line_end) in sret true
    | _ =>
        match io_error_to_vfs e with
        | Some errno => let! _ := write_vfs_error stderr cmd path errno in sret true
        | None => sret false
        end
    end.

Definition unsupported_with_code (stderr : BoxAsyncWrite) (cmd flag : str) (exit_code : Z) : XM Z :=
  let! _ := say stderr (cmd ++ lit ": unsupported option '" ++ flag ++ lit "'" ++ line_end) in sret exit_code.
Definition unsupported (stderr : BoxAsyncWrite) (cmd flag : str) : XM Z :=
  unsupported_with_code stderr cmd flag 1.

(** [arg.starts_with('-') && arg != "-"]. *)
Definition is_option (arg : str) : bool := starts_with arg (lit "-") && negb (bool_decide (arg = lit "-")).

Definition unsupported_flag (args : list str) : option str := List.find is_option args.
End streams.

Arguments write_vfs_error {W} fs.
Arguments say {W} fs.
