(* ===== verification/LineReader.v ===== *)
(** * Reading lines (src/src/sandbox/builtins.rs, [LineBuffer] and [read_line])

    The line-oriented commands read their input through a buffer that finds lines
    in whatever pieces the reads deliver, and refuses a line of more than 1 MiB.
    [Streaming] says what such a command relies on: reads deliver an input in some
    pieces, writes append to an output.  [read_line] then yields the lines of the
    input, however it was cut. *)

From Stdlib Require Import Ascii String.
From S2P Require Import Prelude RustStr VfsTypes VfsIface SandboxFs SandboxFsFacts Redirects Output Utf8 Streams.

#[local] Open Scope Z_scope.

Definition MAX_STREAM_LINE_BYTES : Z := 1024 * 1024.
#[global] Arguments MAX_STREAM_LINE_BYTES : simpl never.

Definition NEWLINE : Z := 10.

(** The lines of [d], each with its newline, which the last may lack. *)
Fixpoint split_lines (d : bytes) : list bytes :=
  match d with
  | [] => []
  | b :: d =>
      if b =? NEWLINE then [b] :: split_lines d
      else match split_lines d with
           | [] => [[b]]
           | l :: ls => (b :: l) :: ls
           end
  end.

(** [iter().position(|byte| byte == NEWLINE)]. *)
Fixpoint position (d : bytes) : option Z :=
  match d with
  | [] => None
  | b :: d => if b =? NEWLINE then Some 0 else option_map (Z.add 1) (position d)
  end.

Record LineBuffer := mkLineBuffer {
  lb_bytes : bytes;
  lb_start : Z;
  lb_scanned : Z;
  lb_eof : bool
}.

Definition empty_buffer : LineBuffer := mkLineBuffer [] 0 0 false.

Definition line_too_long_error : IoError := InvalidData LINE_TOO_LONG.

(** [&v[a..b]]. *)
Definition bytes_slice (v : bytes) (a b : Z) : bytes := take (Z.to_nat (b - a)) (drop (Z.to_nat a) v).

Section reader.
Context {W : Type} (fs : Fs W).

Abbreviation XM := (ST (XState W) IoError).

(** [drain(..start)] and the next read of 8 KiB. *)
Definition refill (src : Source) (p : LineBuffer) : XM LineBuffer :=
  let kept := drop (Z.to_nat (lb_start p)) (lb_bytes p) in
  let! data := read fs src 8192 in
  sret (mkLineBuffer (kept ++ data) 0 (lb_scanned p - lb_start p) (bool_decide (data = []))).

Fixpoint read_line_loop (fuel : nat) (src : Source) (p : LineBuffer) : XM (option bytes * LineBuffer) :=
  match fuel with
  | O => slift OutOfFuel
  | S fuel =>
      match position (drop (Z.to_nat (lb_scanned p)) (lb_bytes p)) with
      | Some pos =>
          let stop := lb_scanned p + pos + 1 in
          if MAX_STREAM_LINE_BYTES <? stop - lb_start p then sfail line_too_long_error
          else sret (Some (bytes_slice (lb_bytes p) (lb_start p) stop),
                     mkLineBuffer (lb_bytes p) stop stop (lb_eof p))
      | None =>
          let size := len (lb_bytes p) in
          let p := mkLineBuffer (lb_bytes p) (lb_start p) size (lb_eof p) in
          if MAX_STREAM_LINE_BYTES <? size - lb_start p then sfail line_too_long_error
          else if lb_eof p then
            if lb_start p =? size then sret (None, p)
            else sret (Some (drop (Z.to_nat (lb_start p)) (lb_bytes p)),
                       mkLineBuffer (lb_bytes p) size size (lb_eof p))
          else let! p := refill src p in read_line_loop fuel src p
      end
  end.

(** A turn that reads adds a byte to an unread part of at most 1 MiB, or is the
    last but one. *)
Definition read_line (src : Source) (p : LineBuffer) : XM (option bytes * LineBuffer) :=
  read_line_loop (Z.to_nat (MAX_STREAM_LINE_BYTES + 3)) src p.

(** [while let Some(line) = read_line(reader, &mut pending).await? { .. }]. *)
Fixpoint each_line {A} (fuel : nat) (src : Source) (p : LineBuffer) (body : A -> bytes -> XM A) (acc : A) : XM A :=
  match fuel with
  | O => slift OutOfFuel
  | S fuel =>
      let! (line, p) := read_line src p in
      match line with
      | None => sret acc
      | Some line => let! acc := body acc line in each_line fuel src p body acc
      end
  end.

(** ** What a streaming command relies on *)

(** In a state of [J i o], reads of [src] deliver [i] in nonempty pieces, and
    [o] has been written to [dst]; [F] are the errors of a read or a write.  A
    captured stream counts its bytes in a [usize]. *)
Definition stream_failed (J : bytes -> bytes -> XState W -> Prop) (F : IoError -> Prop) (e : IoError)
    (s : XState W) : Prop := F e /\ exists i o, J i o s.

Class Streaming (src : Source) (dst : BoxAsyncWrite) (J : bytes -> bytes -> XState W -> Prop)
    (F : IoError -> Prop) : Prop := {
  stream_read i o s cap :
    J i o s -> 0 < cap ->
    wp (read fs src cap) s
       (fun data s' => exists i', i = data ++ i' /\ len data <= cap /\ (data = [] -> i = []) /\ J i' o s')
       (stream_failed J F);
  stream_write i o s data :
    J i o s -> len (o ++ data) <= USIZE_MAX ->
    wp (write_all fs dst data) s (fun _ s' => J i (o ++ data) s') (stream_failed J F);
  stream_clock i o s f : J i o s -> ticked (x_fs s) f -> J i o (with_fs f s)
}.
End reader.

Arguments stream_read {W fs src dst J F _}.
Arguments stream_write {W fs src dst J F _}.
Arguments stream_clock {W fs src dst J F _}.

(** ** Lines *)

Definition short (l : bytes) : Prop := len l <= MAX_STREAM_LINE_BYTES.
#[global] Instance short_dec l : Decision (short l) := Z_le_dec _ _.

Lemma split_lines_concat d : concat (split_lines d) = d.
Proof.
  induction d as [|b d IH]; simpl; [done|]. destruct (b =? NEWLINE); simpl; [by rewrite IH|].
  destruct (split_lines d) as [|l ls]; simpl in *; by rewrite <- IH.
Qed.

Lemma split_lines_nil d : split_lines d = [] <-> d = [].
Proof. split; [|by intros ->]. destruct d; simpl; [done|]. repeat case_match; done. Qed.

Lemma position_None d : position d = None <-> NEWLINE ∉ d.
Proof.
  induction d as [|b d IH]; simpl; [split; [intros _; apply not_elem_of_nil|done]|].
  rewrite not_elem_of_cons. destruct (b =? NEWLINE) eqn:Hb; unbool; [split; [done|intros [? ?]; congruence]|].
  destruct (position d); simpl; naive_solver.
Qed.

Lemma position_Some d n :
  position d = Some n ->
  exists a r, d = a ++ NEWLINE :: r /\ (NEWLINE ∉ a) /\ n = len a.
Proof.
  revert n. induction d as [|b d IH]; simpl; intros n; [done|]. destruct (b =? NEWLINE) eqn:Hb; unbool.
  - intros [= <-]. exists [], d. subst b. split; [done|]. split; [apply not_elem_of_nil|done].
  - destruct (position d) as [m|]; simpl; [|done]. intros [= <-].
    destruct (IH m eq_refl) as (a & r & -> & Ha & ->). exists (b :: a), r.
    split; [done|]. split; [by apply not_elem_of_cons|]. unfold len. simpl. lia.
Qed.

Lemma split_lines_newline a r : NEWLINE ∉ a -> split_lines (a ++ NEWLINE :: r) = (a ++ [NEWLINE]) :: split_lines r.
Proof.
  induction a as [|b a IH]; simpl; intros Ha; [done|]. apply not_elem_of_cons in Ha as [Hb Ha].
  rewrite (proj2 (Z.eqb_neq b NEWLINE)) by done. by rewrite IH.
Qed.

Lemma split_lines_last a : NEWLINE ∉ a -> a <> [] -> split_lines a = [a].
Proof.
  induction a as [|b a IH]; simpl; intros Ha Hne; [done|]. apply not_elem_of_cons in Ha as [Hb Ha].
  rewrite (proj2 (Z.eqb_neq b NEWLINE)) by done. destruct a as [|c a]; [done|]. by rewrite IH.
Qed.

Lemma split_lines_prefix a r : NEWLINE ∉ a -> a <> [] -> exists l ls, split_lines (a ++ r) = (a ++ l) :: ls.
Proof.
  induction a as [|b a IH]; simpl; intros Ha Hne; [done|]. apply not_elem_of_cons in Ha as [Hb Ha].
  rewrite (proj2 (Z.eqb_neq b NEWLINE)) by done. destruct a as [|c a].
  - simpl. destruct (split_lines r) as [|l ls]; [exists [], []|exists l, ls]; done.
  - destruct IH as (l & ls & ->); [done..|]. eauto.
Qed.

Lemma Forall_short_split d l ls : split_lines d = l :: ls -> Forall short (split_lines d) -> short l /\ Forall short ls.
Proof. intros ->. by rewrite Forall_cons. Qed.

(** ** The buffer *)

(** What is buffered and not yet handed out. *)
Definition buffered (p : LineBuffer) : bytes := drop (Z.to_nat (lb_start p)) (lb_bytes p).

Definition buffer_ok (p : LineBuffer) (i : bytes) : Prop :=
  0 <= lb_start p <= lb_scanned p /\ lb_scanned p <= len (lb_bytes p)
  /\ (NEWLINE ∉ bytes_slice (lb_bytes p) (lb_start p) (lb_scanned p))
  /\ (lb_eof p = true -> i = []).

Lemma buffer_ok_empty i : buffer_ok empty_buffer i.
Proof. split; [done|]. split; [done|]. split; [apply not_elem_of_nil|done]. Qed.

Lemma buffered_scanned p i :
  buffer_ok p i ->
  buffered p = bytes_slice (lb_bytes p) (lb_start p) (lb_scanned p) ++ drop (Z.to_nat (lb_scanned p)) (lb_bytes p).
Proof.
  intros (H1 & H2 & _ & _). unfold buffered, bytes_slice.
  replace (drop (Z.to_nat (lb_scanned p)) (lb_bytes p))
    with (drop (Z.to_nat (lb_scanned p - lb_start p)) (drop (Z.to_nat (lb_start p)) (lb_bytes p)));
    [by rewrite take_drop|]. rewrite drop_drop. f_equal. lia.
Qed.

Lemma slice_app_l (b d : bytes) a e : 0 <= a <= e -> e <= len b -> bytes_slice (b ++ d) a e = bytes_slice b a e.
Proof.
  intros Ha He. unfold bytes_slice, len in *. rewrite drop_app_le by lia. rewrite take_app_le; [done|].
  rewrite length_drop. lia.
Qed.

Lemma len_slice (b : bytes) a e : 0 <= a <= e -> e <= len b -> len (bytes_slice b a e) = e - a.
Proof. intros Ha He. unfold bytes_slice, len in *. rewrite length_take, length_drop. lia. Qed.

(** A newline in the unscanned part ends the first line. *)
Lemma found_line p i a r :
  buffer_ok p i -> drop (Z.to_nat (lb_scanned p)) (lb_bytes p) = a ++ NEWLINE :: r -> NEWLINE ∉ a ->
  let stop := lb_scanned p + len a + 1 in
  let line := bytes_slice (lb_bytes p) (lb_start p) stop in
  split_lines (buffered p ++ i) = line :: split_lines (r ++ i)
  /\ len line = stop - lb_start p
  /\ buffer_ok (mkLineBuffer (lb_bytes p) stop stop (lb_eof p)) i
  /\ buffered (mkLineBuffer (lb_bytes p) stop stop (lb_eof p)) = r.
Proof.
  intros Hok Hd Ha stop line. assert (stop = lb_scanned p + len a + 1) as Est by done.
  pose proof (buffered_scanned p i Hok) as Hb. rewrite Hd in Hb.
  pose proof Hok as (H1 & H2 & H3 & H4).
  set (sc := bytes_slice (lb_bytes p) (lb_start p) (lb_scanned p)) in *.
  assert (len (drop (Z.to_nat (lb_scanned p)) (lb_bytes p)) = len (lb_bytes p) - lb_scanned p) as Hl
    by (unfold len in *; rewrite length_drop; lia).
  rewrite Hd, len_app in Hl. assert (len (NEWLINE :: r) = 1 + len r) as Hr by (unfold len; simpl; lia).
  rewrite Hr in Hl. pose proof (len_nonneg a) as Hla. pose proof (len_nonneg r) as Hlr.
  assert (stop <= len (lb_bytes p)) as Hstop by lia.
  assert (len sc = lb_scanned p - lb_start p) as Hsc by (by apply len_slice).
  assert (line = sc ++ a ++ [NEWLINE]) as Hline.
  { unfold line, bytes_slice. fold (buffered p). rewrite Hb.
    replace (sc ++ a ++ NEWLINE :: r) with ((sc ++ a ++ [NEWLINE]) ++ r) by (by rewrite <- !app_assoc).
    rewrite take_app_length'; [done|]. rewrite !length_app. unfold len, stop in *. simpl. lia. }
  assert (drop (Z.to_nat stop) (lb_bytes p) = r) as Hrest.
  { replace (Z.to_nat stop) with (Z.to_nat (lb_scanned p) + S (length a))%nat by (unfold stop, len; lia).
    rewrite <- drop_drop, Hd. replace (a ++ NEWLINE :: r) with ((a ++ [NEWLINE]) ++ r) by (by rewrite <- app_assoc).
    apply drop_app_length'. rewrite length_app. simpl. lia. }
  split; [|split; [|split]].
  - rewrite Hb, Hline.
    replace ((sc ++ a ++ NEWLINE :: r) ++ i) with ((sc ++ a) ++ NEWLINE :: (r ++ i)) by (by rewrite <- !app_assoc).
    rewrite split_lines_newline, app_assoc; [done|]. rewrite elem_of_app. tauto.
  - apply len_slice; lia.
  - split; [simpl; lia|]. split; [done|]. split; [|done]. simpl. unfold bytes_slice.
    replace (Z.to_nat (stop - stop)) with 0%nat by lia. apply not_elem_of_nil.
  - done.
Qed.

Section facts.
Context {W : Type} (fs : Fs W) (src : Source) (dst : BoxAsyncWrite) (J : bytes -> bytes -> XState W -> Prop)
  (F : IoError -> Prop) {Hs : Streaming fs src dst J F}.

(** What [read_line] returns on input [d]: the first line, or that it is too long. *)
Definition line_read (d o : bytes) (r : option bytes * LineBuffer) (s' : XState W) : Prop :=
  exists i', J i' o s' /\ buffer_ok r.2 i'
    /\ match r.1 with
       | None => d = [] /\ buffered r.2 ++ i' = []
       | Some l => short l /\ split_lines d = l :: split_lines (buffered r.2 ++ i')
                   /\ d = l ++ buffered r.2 ++ i'
       end.
Definition too_long (d : bytes) (e : IoError) : Prop :=
  e = line_too_long_error /\ exists l ls, split_lines d = l :: ls /\ MAX_STREAM_LINE_BYTES < len l.

(** How a command that reads the lines [ls] fails: one is too long, or the
    stream failed. *)
Definition line_failure (ls : list bytes) (e : IoError) (s : XState W) : Prop :=
  ((e = line_too_long_error /\ ~ Forall short ls) \/ F e) /\ exists i o, J i o s.

(** How reading the first line of [d] fails. *)
Definition first_failure (d : bytes) (e : IoError) (s : XState W) : Prop :=
  (too_long d e \/ F e) /\ exists i o, J i o s.

Lemma first_line_failure d ls e s :
  first_failure d e s -> (forall l r, split_lines d = l :: r -> l ∈ ls) -> line_failure ls e s.
Proof.
  intros [[(-> & l & r & Hl & Hlen)|HF] HJ] Hin; (split; [|done]); [left|by right]. split; [done|].
  rewrite Forall_forall. intros Hsh. specialize (Hsh l (Hin l r Hl)). unfold short in Hsh. lia.
Qed.

Lemma failed_line_failure ls e s : stream_failed J F e s -> line_failure ls e s.
Proof. intros [HF HJ]. split; [by right|done]. Qed.

Lemma line_failure_later ls l e s : line_failure ls e s -> line_failure (l :: ls) e s.
Proof. intros [[[-> Hn]|HF] HJ]; (split; [|done]); [left|by right]. rewrite Forall_cons. tauto. Qed.

Lemma split_lines_tail d l ls r : split_lines d = l :: ls -> split_lines r = ls -> d = l ++ r.
Proof. intros Hd Hr. by rewrite <- (split_lines_concat d), Hd, <- (split_lines_concat r), Hr. Qed.

Lemma read_line_loop_spec fuel p i o s :
  J i o s -> buffer_ok p i ->
  (if lb_eof p then 1 else MAX_STREAM_LINE_BYTES + 2 - len (buffered p)) < Z.of_nat fuel -> (1 <= fuel)%nat ->
  wp (read_line_loop fs fuel src p) s (line_read (buffered p ++ i) o)
     (first_failure (buffered p ++ i)).
Proof.
  revert p i s. induction fuel as [|fuel IH]; intros p i s HJ Hok Hf Hf1; [lia|]. cbn [read_line_loop].
  pose proof (buffered_scanned p i Hok) as Hb. pose proof Hok as (H1 & H2 & H3 & H4).
  destruct (position _) as [pos|] eqn:Hpos.
  - apply position_Some in Hpos as (a & r & Hd & Ha & ->). cbv zeta.
    destruct (found_line p i a r Hok Hd Ha) as (Hsp & Hlen & Hok' & Hbuf).
    destruct (_ <? _) eqn:Hlong; unbool.
    + apply wp_fail. split; [left|by exists i, o]. split; [done|]. eexists _, _. split; [done|]. lia.
    + apply wp_ret. exists i. split; [done|]. split; [done|]. cbn [fst snd]. rewrite Hbuf.
      split; [unfold short; lia|]. split; [done|]. by eapply split_lines_tail.
  - apply position_None in Hpos. cbv zeta. set (size := len (lb_bytes p)).
    assert (NEWLINE ∉ buffered p) as Hno by (rewrite Hb, elem_of_app; tauto).
    assert (len (buffered p) = size - lb_start p) as Hlb
      by (unfold buffered, size, len in *; rewrite length_drop; lia).
    cbn [lb_start lb_eof lb_bytes]. destruct (MAX_STREAM_LINE_BYTES <? size - lb_start p) eqn:Hlong; unbool.
    { apply wp_fail. split; [left|by exists i, o]. split; [done|].
      assert (buffered p <> []) as Hne by (intros Hx; rewrite Hx in Hlb; change (len (@nil Z)) with 0 in Hlb; unfold MAX_STREAM_LINE_BYTES in *; lia).
      destruct (split_lines_prefix (buffered p) i Hno Hne) as (l & ls & Hl). eexists _, _. split; [done|].
      rewrite len_app. pose proof (len_nonneg l). lia. }
    assert (forall q, buffer_ok (mkLineBuffer (lb_bytes p) size size q) [] /\
              buffered (mkLineBuffer (lb_bytes p) size size q) = []) as Hend.
    { intros q. unfold buffered, size, len. cbn. rewrite Nat2Z.id, drop_all. split; [|done].
      split; [cbn; lia|]. split; [done|]. split; [|done]. cbn. unfold bytes_slice. rewrite Nat2Z.id, drop_all.
      by rewrite take_nil; apply not_elem_of_nil. }
    destruct (lb_eof p) eqn:Heof.
    + rewrite (H4 eq_refl) in *. rewrite app_nil_r. destruct (lb_start p =? size) eqn:Hz; unbool.
      * assert (buffered p = []) as Hn by (apply length_zero_iff_nil; unfold len in Hlb; lia).
        apply wp_ret. exists []. split; [done|]. rewrite Hn. split; [|split; [done|]].
        -- rewrite Hz. apply (Hend true).
        -- cbn [snd]. rewrite Hz. by rewrite (proj2 (Hend true)).
      * apply wp_ret. exists []. split; [done|]. split; [apply Hend|]. cbn [fst snd].
        rewrite (proj2 (Hend true)). fold (buffered p).
        split; [unfold short; lia|]. rewrite !app_nil_r. split; [|done].
        apply split_lines_last; [done|]. intros Hx. rewrite Hx in Hlb. change (len (@nil Z)) with 0 in Hlb. lia.
    + unfold refill. wp_steps. eapply wp_mono; [eapply (stream_read (dst:=dst)); [exact HJ|lia]| |intros e s' [HF HJ']; split; [by right|done]].
      intros data s' (i' & -> & Hcap & Hnil & HJ'). cbn beta. apply wp_ret. cbn [lb_bytes lb_start lb_scanned].
      fold (buffered p). set (p' := mkLineBuffer _ _ _ _).
      assert (buffered p' = buffered p ++ data) as Hp' by done.
      assert (buffered p ++ data ++ i' = buffered p' ++ i') as -> by (by rewrite Hp', app_assoc).
      apply IH; [done| |..].
      * split; [cbn; lia|]. split; [cbn; rewrite len_app; pose proof (len_nonneg data); lia|]. split.
        -- cbn. rewrite slice_app_l by lia. unfold bytes_slice. rewrite Z.sub_0_r, drop_0, take_ge; [done|].
           unfold len in Hlb. lia.
        -- cbn. intros Hbd%bool_decide_eq_true. specialize (Hnil Hbd). subst data. by destruct i'.
      * unfold p'. cbn [lb_eof]. fold p'. rewrite Hp', len_app. case_bool_decide as Hd.
        -- unfold MAX_STREAM_LINE_BYTES in *. lia.
        -- assert (0 < len data) by (unfold len; destruct data; [done|simpl; lia]). lia.
      * pose proof (len_nonneg (buffered p)). unfold MAX_STREAM_LINE_BYTES in *. lia.
Qed.

(** [read_line] yields the first line of what is left, however the input was
    cut, or reports that it is too long. *)
Lemma read_line_spec p i o s :
  J i o s -> buffer_ok p i ->
  wp (read_line fs src p) s (line_read (buffered p ++ i) o) (first_failure (buffered p ++ i)).
Proof.
  intros HJ Hok. pose proof (len_nonneg (buffered p)).
  apply read_line_loop_spec; [done|done| |]; unfold MAX_STREAM_LINE_BYTES; try case_match; lia.
Qed.

(** A loop over the lines, with [P] over the lines done, the accumulator and
    the output. *)
Lemma each_line_spec {A} (P : list bytes -> A -> bytes -> Prop) (R : IoError -> XState W -> Prop)
    (body : A -> bytes -> ST (XState W) IoError A) fuel p i o s all done_ acc :
  (forall done_ acc l i o s, P done_ acc o -> J i o s -> short l -> (exists rest, all = done_ ++ l :: rest) ->
     wp (body acc l) s (fun acc' s' => exists o', P (done_ ++ [l]) acc' o' /\ J i o' s') R) ->
  (forall e s, line_failure all e s -> R e s) ->
  J i o s -> buffer_ok p i -> P done_ acc o -> all = done_ ++ split_lines (buffered p ++ i) ->
  (length (split_lines (buffered p ++ i)) < fuel)%nat ->
  wp (each_line fs fuel src p body acc) s (fun acc' s' => exists o', P all acc' o' /\ J [] o' s') R.
Proof.
  intros Hbody HR. revert p i o s done_ acc. induction fuel as [|fuel IH]; intros p i o s done_ acc HJ Hok HP Hall Hf;
    [lia|].
  cbn [each_line]. wp_step. eapply wp_mono; [eapply (read_line_spec p i o s HJ Hok)| |].
  - intros [[l|] p'] s' (i' & HJ' & Hok' & Hr); cbn [fst snd] in *; cbv beta iota.
    + destruct Hr as (Hl & Hsp & Hd). wp_step.
      eapply wp_mono; [eapply Hbody; try done; exists (split_lines (buffered p' ++ i')); by rewrite Hall, Hsp| |done].
      intros acc' s2 (o' & HP' & HJ2). eapply IH; [done|done|done| |].
      * by rewrite Hall, Hsp, <- app_assoc.
      * rewrite Hsp in Hf. simpl in Hf. lia.
    + destruct Hr as (Hd & Hnil). apply app_eq_nil in Hnil as [_ ->]. wp_steps.
      rewrite Hd in Hall. cbn in Hall. rewrite app_nil_r in Hall. subst done_. eauto.
  - intros e s' He. apply HR. eapply first_line_failure; [exact He|]. intros l r Hl.
    rewrite Hall, Hl. apply elem_of_app. right. by left.
Qed.
End facts.
