(* ===== verification/StreamFacts.v ===== *)
(** * Streams that keep the contract of LineReader.v

    A reader and a writer that work on different places of the state stream
    together.  The readers: a pipe whose other end sends nonempty pieces, and an
    open file.  The writers: a captured stream, and a pipe whose reader stays or
    goes away. *)

From Stdlib Require Import Ascii String.
From S2P Require Import Prelude RustStr VfsTypes VfsIface SandboxFs SandboxFsFacts Redirects Output Utf8.
From S2P Require Import Streams LineReader.

#[local] Open Scope Z_scope.

Section pairs.
Context {W : Type} (fs : Fs W).

(** Reading leaves what was written alone, writing what will be read. *)
Definition same_outputs (s s' : XState W) : Prop :=
  x_stdout s' = x_stdout s /\ x_stderr s' = x_stderr s /\ x_pipes s' = x_pipes s.
Definition same_inputs (s s' : XState W) : Prop :=
  x_red s' = x_red s /\ x_stdin s' = x_stdin s /\ x_file s' = x_file s.

Class Reads (src : Source) (RJ : bytes -> XState W -> Prop) (F : IoError -> Prop) : Prop := {
  reads i s cap :
    RJ i s -> 0 < cap ->
    wp (read fs src cap) s
       (fun data s' => (exists i', i = data ++ i' /\ len data <= cap /\ (data = [] -> i = []) /\ RJ i' s')
                       /\ same_outputs s s')
       (fun e s' => F e /\ (exists i', RJ i' s') /\ same_outputs s s');
  reads_frame i s s' : same_inputs s s' -> RJ i s -> RJ i s';
  reads_clock i s f : RJ i s -> ticked (x_fs s) f -> RJ i (with_fs f s)
}.

Class Writes (dst : BoxAsyncWrite) (WJ : bytes -> XState W -> Prop) (F : IoError -> Prop) : Prop := {
  writes o s data :
    WJ o s -> len (o ++ data) <= USIZE_MAX ->
    wp (write_all fs dst data) s (fun _ s' => WJ (o ++ data) s' /\ same_inputs s s')
       (fun e s' => F e /\ (exists o', WJ o' s') /\ same_inputs s s');
  writes_frame o s s' : same_outputs s s' -> WJ o s -> WJ o s'
}.

Definition both (RJ WJ : bytes -> XState W -> Prop) (i o : bytes) (s : XState W) : Prop := RJ i s /\ WJ o s.

#[global] Instance both_streaming src dst RJ WJ F :
  Reads src RJ F -> Writes dst WJ F -> Streaming fs src dst (both RJ WJ) F.
Proof.
  intros HR HW. constructor.
  - intros i o s cap [Hr Hw] Hcap. eapply wp_mono; [by apply reads| |].
    2: { intros e s' (HF & [i' Hi] & Ho). split; [done|]. exists i', o. split; [done|]. by eapply writes_frame. }
    intros data s' [(i' & ? & ? & ? & ?) Ho]. exists i'. do 3 (split; [done|]). split; [done|]. by eapply writes_frame.
  - intros i o s data [Hr Hw] Hlen. eapply wp_mono; [by apply writes| |].
    2: { intros e s' (HF & [o' Ho] & Hi). split; [done|]. exists i, o'. split; [|done]. by eapply reads_frame. }
    intros [] s' [? Hi]. split; [|done]. by eapply reads_frame.
  - intros i o s f [Hr Hw] Hf. split; [exact (reads_clock i s f Hr Hf)|]. exact (writes_frame o s (with_fs f s) ltac:(done) Hw).
Qed.

Definition never (e : IoError) : Prop := False.

(** ** Pipes *)

Definition chunks (events : list bytes) : list StreamEvent := Chunk <$> events.

(** The pipe will deliver [i]. *)
Definition pipe_input (src : Source) (i : bytes) (s : XState W) : Prop :=
  exists pieces, reader src s = FromPipe (chunks pieces) /\ Forall (fun p => p <> []) pieces /\ concat pieces = i.

#[global] Instance pipe_reads src F : Reads src (pipe_input src) F.
Proof.
  constructor.
  - intros i s cap (pieces & Hr & Hne & <-) Hcap. unfold read. do 2 wp_step. rewrite Hr. unfold read_pipe.
    do 2 wp_step. destruct pieces as [|p pieces].
    + apply wp_ret. split; [|done]. exists []. split; [done|]. split; [change (len (@nil Z)) with 0; lia|]. split; [done|]. by exists [].
    + apply Forall_cons in Hne as [Hp Hne]. cbn [chunks fmap list_fmap]. cbv zeta. wp_steps. split; [|by destruct src].
      exists (concat (let rest := drop (Z.to_nat cap) p in if bool_decide (rest = []) then pieces else rest :: pieces)).
      split; [|split; [|split]].
      * cbv zeta. rewrite <- (take_drop (Z.to_nat cap) p) at 1. cbn [concat].
        rewrite <- app_assoc. f_equal. case_bool_decide as Hd; [by rewrite Hd|done].
      * unfold len. rewrite length_take. lia.
      * intros Ht. exfalso. destruct p as [|b p]; [done|].
        replace (Z.to_nat cap) with (S (Z.to_nat (cap - 1))) in Ht by lia. done.
      * cbv zeta. eexists. split; [|split; [|done]]; [by destruct src; simpl; case_bool_decide|].
        case_bool_decide; [done|by constructor].
  - intros i s s' (_ & H1 & H2) (pieces & Hr & ?). exists pieces. split; [|done].
    destruct src; simpl in *; congruence.
  - intros i s f (pieces & Hr & ?) _. exists pieces. by destruct src.
Qed.

(** The pipe has taken [o] and its reader stays. *)
Definition pipe_output (j : nat) (o : bytes) (s : XState W) : Prop :=
  exists p, x_pipes s !! j = Some p /\ accepted p = o /\ room p = None.

#[global] Instance pipe_writes j F : Writes (ToPipe j) (pipe_output j) F.
Proof.
  constructor.
  - intros o s data (p & Hp & <- & Hr) _. cbn [write_all]. unfold pipe_write. do 2 wp_step. wp_step.
    rewrite Hp. apply wp_lift; [done| |done]. intros a [= <-]. rewrite Hr. wp_steps. split; [|done].
    eexists. split; [apply list_lookup_insert_eq; by eapply lookup_lt_Some|done].
  - intros o s s' (_ & _ & H) (p & Hp & ?). exists p. by rewrite H.
Qed.

(** The pipe has taken [o] and takes [n] bytes of what it is still to be sent. *)
Definition pipe_breaks (j : nat) (limit : Z) (o : bytes) (s : XState W) : Prop :=
  exists p, x_pipes s !! j = Some p /\ accepted p = o /\ room p = Some (limit - len o) /\ 0 <= limit - len o.

#[global] Instance breaking_writes j limit : Writes (ToPipe j) (pipe_breaks j limit) (fun e => e = BrokenPipe).
Proof.
  constructor.
  - intros o s data (p & Hp & <- & Hr & Hl) _. cbn [write_all]. unfold pipe_write. do 2 wp_step. wp_step.
    rewrite Hp. apply wp_lift; [done| |done]. intros a [= <-]. rewrite Hr. pose proof (lookup_lt_Some _ _ _ Hp).
    wp_step.
    + wp_steps. split; [done|]. split; [|done]. exists (accepted p ++ take (Z.to_nat (limit - len (accepted p))) data).
      eexists. split; [by apply list_lookup_insert_eq|]. split; [done|].
      assert (len (accepted p ++ take (Z.to_nat (limit - len (accepted p))) data) = limit) as ->.
      { rewrite len_app. unfold len in *. rewrite length_take. lia. }
      simpl. split; [f_equal; lia|lia].
    + wp_steps. split; [|done]. eexists. split; [by apply list_lookup_insert_eq|]. simpl. rewrite len_app.
      split; [done|]. split; [f_equal; lia|lia].
  - intros o s s' (_ & _ & H) (p & Hp & ?). exists p. by rewrite H.
Qed.

(** ** Captured streams *)

Definition capture_output (fd : CaptureFd) (cap : Z) (o : bytes) (s : XState W) : Prop :=
  capped_state cap o (capture fd s) /\ 0 <= cap.

#[global] Instance capture_writes fd cap F : Writes (ToCapture fd) (capture_output fd cap) F.
Proof.
  constructor.
  - intros o s data [Hc H0] Hlen. cbn [write_all]. unfold capture_write. do 2 wp_step.
    rewrite len_app in Hlen. destruct (capped_write_spec cap o data _ Hc H0 Hlen) as (c & -> & Hc').
    wp_steps. split; [|by destruct fd]. split; [by destruct fd|done].
  - intros o s s' (H1 & H2 & _) [Hc H0]. split; [|done]. destruct fd; simpl in *; congruence.
Qed.
End pairs.

Arguments reads {W fs src RJ F _}.
Arguments reads_frame {W fs src RJ F _}.
Arguments reads_clock {W fs src RJ F _}.
Arguments writes {W fs dst WJ F _}.
Arguments writes_frame {W fs dst WJ F _}.

(** ** Open files *)

Section files.
Context {W : Type} (fs : Fs W) (I Room : W -> Prop) (owned : W -> gset Z).
Context `{Hv : !OwnerLaws I Room owned (f_vfs fs)}.
Context (others_pool others_exec : Z) (Hp : 0 <= others_pool) (He : 0 <= others_exec)
  (Hcap : f_capacity fs <= USIZE_MAX) (Hmax : max_open_files (f_limits fs) <= USIZE_MAX).

Abbreviation FsInv := (FsInvx I owned (f_limits fs) (f_capacity fs) (f_scoped fs) others_pool others_exec 0).

(** The reader is a file with contents [d] open under [h]; [i] is left of it. *)
Definition file_input (src : Source) (P : W -> Prop) (h : Z) (d i : bytes) (s : XState W) : Prop :=
  FsInv (x_fs s) /\
  exists r, reader src s = FromFile r /\ 0 <= sr_pending_start r <= len (sr_pending r) /\
    match sr_handle r with
    | Some h' => h' = h /\ P (fs_world (x_fs s)) /\ 0 <= sr_offset r <= len d /\ i = unread r ++ drop (Z.to_nat (sr_offset r)) d
    | None => i = [] /\ unread r = []
    end.

(** How reading the file may fail: the execution was cancelled. *)
Definition cancelled_read (e : IoError) : Prop :=
  e = VfsFailure EIO /\ cancelled_seen (f_scoped fs) (f_cancelled fs).

Lemma wp_x_try_fs {A} (m : ST (FsState W) Errno A) (s : XState W) (Q : outcome Errno A -> XState W -> Prop) R :
  wp m (x_fs s) (fun a f => Q (Ok a) (with_fs f s))
     (fun e f => Q (Err e) (with_fs f s)) ->
  wp (x_try_fs m) s Q R.
Proof. unfold wp, x_try_fs. by destruct (m (x_fs s)) as [[] ?]. Qed.

Lemma wp_close_handle src (r : FsStreamReader) s :
  FsInv (x_fs s) -> reader src s = FromFile r ->
  wp (close_handle fs src r) s
     (fun _ s' => FsInv (x_fs s') /\ same_outputs s s'
        /\ reader src s' = FromFile (mkFsStreamReader None (sr_offset r) (sr_pending r) (sr_pending_start r)))
     (fun _ _ => False).
Proof.
  intros HI Hr. unfold close_handle. destruct r as [[h|] off pend st]; cbn [sr_handle].
  - do 4 wp_step. unfold x_on_fs. wp_step. apply wp_x_try_fs.
    eapply wp_mono; [eapply (abandon_inv I Room owned (f_vfs fs) (f_limits fs) (f_capacity fs) (f_scoped fs)
      others_pool others_exec Hp He Hcap Hmax h)|..]; [by destruct src| |done].
    intros [] f HI'. apply wp_ret. split; [by destruct src|]. split; by destruct src.
  - apply wp_ret. by split.
Qed.

Lemma copy_pending_spec r cap data r' :
  copy_pending r cap = Some (data, r') -> 0 < cap -> 0 <= sr_pending_start r <= len (sr_pending r) ->
  unread r = data ++ unread r' /\ data <> [] /\ len data <= cap
  /\ sr_handle r' = sr_handle r /\ sr_offset r' = sr_offset r
  /\ 0 <= sr_pending_start r' <= len (sr_pending r').
Proof.
  unfold copy_pending. destruct (_ || _) eqn:H; [done|]. unbool. cbv zeta. intros [= <- <-] Hc Hs.
  set (n := Z.min _ cap). assert (0 < n <= cap /\ n <= len (sr_pending r) - sr_pending_start r) as [Hn Hn'] by lia.
  cbn [sr_handle sr_offset sr_pending sr_pending_start]. split; [|split; [|split; [|split; [done|split; [done|lia]]]]].
  - unfold unread. cbn [sr_pending sr_pending_start].
    replace (Z.to_nat (sr_pending_start r + n)) with (Z.to_nat (sr_pending_start r) + Z.to_nat n)%nat by lia.
    rewrite <- drop_drop. by rewrite take_drop.
  - intros Hx%(f_equal length). unfold unread, len in *. rewrite length_take, length_drop in Hx. simpl in Hx. lia.
  - unfold len. rewrite length_take. lia.
Qed.

Lemma copy_pending_None r cap :
  copy_pending r cap = None -> 0 < cap -> sr_pending_start r = len (sr_pending r).
Proof. unfold copy_pending. destruct (_ || _) eqn:H; [|done]. apply orb_true_iff in H as [H|H]; unbool; lia. Qed.

Lemma file_frame src P h d i s s' : same_inputs s s' -> file_input src P h d i s -> file_input src P h d i s'.
Proof.
  intros (H1 & H2 & H3) (HI & r & Hr & ?). unfold file_input, x_fs. rewrite H1. split; [done|].
  exists r. split; [destruct src; simpl in *; congruence|done].
Qed.

(** A read from an open file delivers its next bytes. *)
#[global] Instance file_reads src P h d :
  reads_as (f_vfs fs) P h d -> len d <= USIZE_MAX -> Reads fs src (file_input src P h d) cancelled_read.
Proof.
  intros Hd HdU. constructor; [|intros i s s'; apply file_frame|].
  2: { intros i s f (HI & r & Hr & Hst & Hi) Ht. split; [by eapply ticked_inv|]. exists r.
       split; [by destruct src|]. split; [done|]. destruct (sr_handle r); [|done]. destruct Hi as (? & HP & ?).
       split; [done|]. split; [|done]. cbn. by destruct Ht as (-> & _). }
  intros i s cap (HI & r & Hr & Hst & Hi) Hc. unfold read. do 2 wp_step. rewrite Hr. unfold read_file_stream.
  destruct (copy_pending r cap) as [[data r']|] eqn:Hcp.
  { destruct (copy_pending_spec r cap data r' Hcp Hc Hst) as (Hu & Hne & Hlen & Hh & Ho & Hst').
    wp_steps. split; [|by destruct src]. exists (match sr_handle r with Some _ => unread r' ++ drop (Z.to_nat (sr_offset r)) d
                                                | None => [] end).
    destruct (sr_handle r) as [h'|] eqn:Hsh.
    - destruct Hi as (-> & HP & H0 & ->). rewrite Hu, <- app_assoc. split; [done|]. split; [done|]. split; [done|].
      split; [by destruct src|]. exists r'. split; [by destruct src|]. split; [done|]. rewrite Hh, Ho.
      split; [done|]. split; [by destruct src|done].
    - destruct Hi as [-> Hu']. rewrite Hu' in Hu. destruct data; done. }
  pose proof (copy_pending_None r cap Hcp Hc) as Hend.
  assert (unread r = []) as Hun by (unfold unread; rewrite Hend; unfold len; by rewrite Nat2Z.id, drop_all).
  rewrite (proj2 (Z.eqb_neq cap 0)) by lia. destruct (sr_handle r) as [h'|] eqn:Hsh.
  2: { destruct Hi as [-> _]. apply wp_ret. split; [|done]. exists []. split; [done|]. split; [change (len (@nil Z)) with 0; lia|]. split; [done|].
       split; [done|]. exists r. by rewrite Hsh. }
  destruct Hi as (-> & HP & H0 & ->). rewrite Hun in *. cbn [app].
  set (off := sr_offset r) in *. wp_step. apply wp_x_try_fs.
  assert (len (replicate (Z.to_nat STREAM_CHUNK_BYTES) 0) = STREAM_CHUNK_BYTES) as Hbuf
    by (unfold len; rewrite length_replicate; by apply Z2Nat.id).
  revert Hbuf. generalize (replicate (Z.to_nat STREAM_CHUNK_BYTES) 0). intros buf Hbuf.
  assert (0 <= off <= USIZE_MAX) as Hoff by lia.
  eapply wp_mono; [eapply wp_conj; [eapply (fs_read_at_eq (f_vfs fs) (f_limits fs) (f_scoped fs) (f_cancelled fs) P h d off buf (x_fs s)
    (fun r0 s' => r0 = ((read_result d off buf).2, (read_result d off buf).1) /\ reading P (x_fs s) s')
    (fun e s' => e = EIO /\ cancelled_seen (f_scoped fs) (f_cancelled fs) /\ reading P (x_fs s) s'));
    [done|done|done|lia|done|done]
    |eapply (fs_read_at_inv I Room owned (f_vfs fs) (f_limits fs) (f_capacity fs) (f_scoped fs) (f_cancelled fs)
       others_pool others_exec h off buf (x_fs s) HI)]|..]; cbn beta.
  - intros [data n] f [[[= -> ->] (HP' & _)] [HI' _]]. set (got := take (length buf) (drop (Z.to_nat off) d)).
    set (s1 := with_fs f s).
    assert (reader src s1 = FromFile r) as Hr1 by (by destruct src).
    assert (same_outputs s s1) as Hso by done. cbv iota zeta. destruct (len got =? 0) eqn:Hz; unbool.
    + assert (drop (Z.to_nat off) d = []) as Hd0.
      { assert (length got = 0%nat) as Hg by (unfold len in Hz; lia). unfold got in Hg. rewrite length_take in Hg.
        apply length_zero_iff_nil. unfold len in Hbuf. change STREAM_CHUNK_BYTES with 65536 in Hbuf. lia. }
      wp_step. eapply wp_mono; [eapply (wp_close_handle src r s1); [exact HI'|done]| |done].
      intros [] s2 (HI2 & (E1 & E2 & E3) & Hr2). apply wp_ret. rewrite Hd0. split; [|done].
      exists []. split; [done|]. split; [change (len (@nil Z)) with 0; lia|]. split; [done|]. split; [done|]. eexists. split; [exact Hr2|].
      split; [done|]. by split.
    + assert (take (Z.to_nat (len got)) (got ++ drop (length got) buf) = got) as ->
        by (unfold len; rewrite Nat2Z.id; apply take_app_length).
      assert (len got <= len d - off) as Hgl by (unfold got, len in *; rewrite length_take, length_drop; lia).
      assert (0 <= len got) as Hg0 by apply len_nonneg.
      do 2 wp_step. set (r1 := mkFsStreamReader _ _ _ _).
      assert (sr_offset r1 = off + len got) as Ho1 by (unfold r1, saturating_add; cbn; lia).
      destruct (copy_pending r1 cap) as [[data r']|] eqn:Hcp1; [|apply copy_pending_None in Hcp1; [cbn in Hcp1; lia|done]].
      destruct (copy_pending_spec r1 cap data r' Hcp1 Hc) as (Hu & Hne & Hlen & Hh & Ho & Hst'); [cbn; lia|].
      assert (unread r1 = got) as Hu1 by done.
      wp_steps. split; [|by destruct src]. exists (unread r' ++ drop (Z.to_nat (sr_offset r')) d).
      split; [|split; [done|split; [done|]]].
      * rewrite app_assoc, <- Hu, Hu1, Ho, Ho1.
        replace (Z.to_nat (off + len got)) with (Z.to_nat off + length got)%nat by (unfold len; lia).
        rewrite <- drop_drop. unfold got at 2. rewrite length_take.
        destruct (decide (length buf <= length (drop (Z.to_nat off) d))%nat) as [Hle|Hgt].
        -- rewrite Nat.min_l by done. unfold got. by rewrite take_drop.
        -- rewrite Nat.min_r, drop_all, app_nil_r by lia. unfold got. rewrite take_ge by lia. done.
      * split; [by destruct src|]. exists r'. split; [by destruct src|]. split; [done|]. rewrite Hh. cbn [r1 sr_handle].
        split; [done|]. split; [by destruct src|]. split; [rewrite Ho, Ho1; lia|done].
  - intros e f [(-> & Hcs & _) HI']. wp_step.
    eapply wp_mono; [eapply (wp_close_handle src r); [exact HI'|by destruct src]| |done].
    intros [] s2 (HI2 & Hso & Hr2). apply wp_fail. split; [by split|]. split; [|done]. exists [].
    split; [done|]. eexists. split; [exact Hr2|]. split; [done|]. by split.
Qed.
End files.
