(* ===== verification/TextLines.v ===== *)
(** * cat, head, tail, uniq and wc (src/src/sandbox/builtins.rs)

    The commands that work on one line, or one piece, of their input at a time.  A
    loop over a stream ends when the stream does; [fuel] bounds its turns. *)

From Stdlib Require Import Ascii String.
From S2P Require Import Prelude RustStr VfsTypes VfsIface SandboxFs Redirects Output Utf8 Streams LineReader.

#[local] Open Scope Z_scope.

(** [format!("{:>width$}", n)]. *)
Definition pad_left (width : Z) (s : str) : str := replicate (Z.to_nat width - length s) (ch " ") ++ s.

(** [for flag in arg.chars().skip(1)] over the arguments that are options; the
    others are kept.  [Err] is the first unknown flag. *)
Fixpoint set_flags {A} (set : char -> A -> option A) (flags : A) (chars : str) : outcome char A :=
  match chars with
  | [] => Ok flags
  | c :: chars =>
      match set c flags with
      | Some flags => set_flags set flags chars
      | None => Err c
      end
  end.

Fixpoint parse_flags {A} (set : char -> A -> option A) (flags : A) (args : list str) : outcome char (A * list str) :=
  match args with
  | [] => Ok (flags, [])
  | arg :: args =>
      if is_option arg then
        let? flags := set_flags set flags (drop 1 arg) in parse_flags set flags args
      else
        let? (flags, paths) := parse_flags set flags args in Ok (flags, arg :: paths)
  end.

(** [line_text_lossy]. *)
Definition strip_suffix (s : str) (c : char) : str :=
  match last s with
  | Some d => if (d =? c)%N then removelast s else s
  | None => s
  end.
Definition line_text_lossy (line : bytes) : str :=
  strip_suffix (strip_suffix (from_utf8_lossy line) (ch NL)) (ch CR).

(** ** cat *)

Record CatFlags := mkCatFlags {
  number : bool;
  number_nonblank : bool;
  squeeze : bool;
  show_ends : bool;
  show_tabs : bool
}.
Definition default_cat_flags : CatFlags := mkCatFlags false false false false false.

Definition cat_plain (f : CatFlags) : bool :=
  negb (number f || number_nonblank f || squeeze f || show_ends f || show_tabs f).

Definition set_cat_flag (c : char) (f : CatFlags) : option CatFlags :=
  if isc c "n" then Some (mkCatFlags true (number_nonblank f) (squeeze f) (show_ends f) (show_tabs f))
  else if isc c "b" then Some (mkCatFlags (number f) true (squeeze f) (show_ends f) (show_tabs f))
  else if isc c "s" then Some (mkCatFlags (number f) (number_nonblank f) true (show_ends f) (show_tabs f))
  else if isc c "E" then Some (mkCatFlags (number f) (number_nonblank f) (squeeze f) true (show_tabs f))
  else if isc c "T" then Some (mkCatFlags (number f) (number_nonblank f) (squeeze f) (show_ends f) true)
  else None.

Record CatState := mkCatState { cat_line : Z; prev_blank : bool }.

Definition cat_tabs (content : bytes) : bytes := flat_map (fun b => if b =? 9 then [94; 73] else [b]) content.

(** One turn of the loop of [cat_transform], on a line with or without newline. *)
Definition cat_transform_line (content : bytes) (had_newline : bool) (flags : CatFlags) (st : CatState)
  : outcome IoError (CatState * bytes) :=
  let blank := bool_decide (content = []) && had_newline in
  if squeeze flags && blank && prev_blank st then Ok (st, [])
  else
    let numbered := if number_nonblank flags then negb blank else number flags in
    let? line := (if numbered then u64_add (cat_line st) 1 else Ok (cat_line st)) in
    let label := if numbered then encode (pad_left 6 (Z_to_string line) ++ [ch TAB]) else [] in
    let text := if show_tabs flags then cat_tabs content else content in
    let ending := if had_newline then (if show_ends flags then [36] else []) ++ [NEWLINE] else [] in
    Ok (mkCatState line blank, label ++ text ++ ending).

Fixpoint cat_transform_loop (fuel : nat) (rest : bytes) (flags : CatFlags) (st : CatState) (out : bytes)
  : outcome IoError (CatState * bytes) :=
  match fuel with
  | O => OutOfFuel
  | S fuel =>
      if bool_decide (rest = []) then Ok (st, out)
      else
        let '(content, rest, had_newline) :=
          match position rest with
          | Some pos => (take (Z.to_nat pos) rest, drop (Z.to_nat (pos + 1)) rest, true)
          | None => (rest, [], false)
          end in
        let? (st, piece) := cat_transform_line content had_newline flags st in
        cat_transform_loop fuel rest flags st (out ++ piece)
  end.

(** Every turn but the last takes a byte of the data. *)
Definition cat_transform (data : bytes) (flags : CatFlags) (st : CatState) : outcome IoError (CatState * bytes) :=
  cat_transform_loop (S (length data)) data flags st [].

(** ** head and tail *)

Inductive TailCount := LastLines (n : Z) | FromLine (n : Z).

Record HeadTailSettings := mkHeadTail { ht_count : TailCount; ht_head : bool; ht_window : Z }.

Definition parse_usize : str -> option Z := parse_unsigned USIZE_MAX.

Definition parse_head_tail_count (value : str) (head_mode : bool) : option TailCount :=
  match strip_prefix value (lit "+") with
  | Some from => if head_mode then None else option_map (fun n => FromLine (Z.max n 1)) (parse_usize from)
  | None => option_map LastLines (parse_usize value)
  end.

Inductive HeadTailError := MissingCount | BadCount (value : str) | BadFlag (flag : str).

(** The loop over the arguments of [head_tail]. *)
Fixpoint parse_head_tail (head_mode : bool) (args : list str) (n : TailCount) (verbose : bool) (files : list str)
  : outcome HeadTailError (TailCount * bool * list str) :=
  match args with
  | [] => Ok (n, verbose, files)
  | arg :: args =>
      if bool_decide (arg = lit "-v") then parse_head_tail head_mode args n true files
      else if bool_decide (arg = lit "-n") then
        match args with
        | [] => Err MissingCount
        | value :: args =>
            match parse_head_tail_count value head_mode with
            | Some n => parse_head_tail head_mode args n verbose files
            | None => Err (BadCount value)
            end
        end
      else if starts_with arg (lit "-") then Err (BadFlag arg)
      else parse_head_tail head_mode args n verbose (files ++ [arg])
  end.

(** [window.pop_front()] up to the first newline. *)
Fixpoint pop_line (window : bytes) : bytes :=
  match window with
  | [] => []
  | b :: window => if b =? NEWLINE then window else pop_line window
  end.

(** ** uniq *)

Record UniqFlags := mkUniqFlags { u_count : bool; u_repeated : bool; u_unique : bool }.

Fixpoint parse_uniq (args : list str) (f : UniqFlags) (files : list str) : outcome str (UniqFlags * list str) :=
  match args with
  | [] => Ok (f, files)
  | arg :: args =>
      if bool_decide (arg = lit "-c") then parse_uniq args (mkUniqFlags true (u_repeated f) (u_unique f)) files
      else if bool_decide (arg = lit "-d") then parse_uniq args (mkUniqFlags (u_count f) true (u_unique f)) files
      else if bool_decide (arg = lit "-u") then parse_uniq args (mkUniqFlags (u_count f) (u_repeated f) true) files
      else if starts_with arg (lit "-") then Err arg
      else parse_uniq args f (files ++ [arg])
  end.

(** ** wc *)

Record Counts := mkCounts { c_lines : Z; c_words : Z; c_bytes : Z }.
Definition no_counts : Counts := mkCounts 0 0 0.

Definition add_counts (a b : Counts) : outcome IoError Counts :=
  let? l := u64_add (c_lines a) (c_lines b) in
  let? w := u64_add (c_words a) (c_words b) in
  let? n := u64_add (c_bytes a) (c_bytes b) in
  Ok (mkCounts l w n).

(** [byte.is_ascii_whitespace()]. *)
Definition is_ascii_whitespace (b : Z) : bool :=
  (b =? 32) || (b =? 9) || (b =? 10) || (b =? 12) || (b =? 13).

Definition count_byte (b : Z) (st : Counts * bool) : outcome IoError (Counts * bool) :=
  let '(c, in_word) := st in
  let? lines := (if b =? NEWLINE then u64_add (c_lines c) 1 else Ok (c_lines c)) in
  if is_ascii_whitespace b then Ok (mkCounts lines (c_words c) (c_bytes c), false)
  else if negb in_word then
    let? words := u64_add (c_words c) 1 in Ok (mkCounts lines words (c_bytes c), true)
  else Ok (mkCounts lines (c_words c) (c_bytes c), in_word).

Fixpoint count_bytes (data : bytes) (st : Counts * bool) : outcome IoError (Counts * bool) :=
  match data with
  | [] => Ok st
  | b :: data => let? st := count_byte b st in count_bytes data st
  end.

(** What one read adds. *)
Definition count_chunk (st : Counts * bool) (data : bytes) : outcome IoError (Counts * bool) :=
  let '(c, in_word) := st in
  let? n := u64_add (c_bytes c) (len data) in
  count_bytes data (mkCounts (c_lines c) (c_words c) n, in_word).

Record WcFlags := mkWcFlags { show_lines : bool; show_words : bool; show_bytes : bool }.
Definition set_wc_flag (c : char) (f : WcFlags) : option WcFlags :=
  if isc c "l" then Some (mkWcFlags true (show_words f) (show_bytes f))
  else if isc c "w" then Some (mkWcFlags (show_lines f) true (show_bytes f))
  else if isc c "c" then Some (mkWcFlags (show_lines f) (show_words f) true)
  else None.

Definition selected_counts (c : Counts) (f : WcFlags) : list Z :=
  (if show_lines f then [c_lines c] else []) ++ (if show_words f then [c_words c] else [])
  ++ (if show_bytes f then [c_bytes c] else []).

Definition decimal_width (value : Z) : Z := len (Z_to_string value).

(** The text [write_counts] writes. *)
Definition counts_text (c : Counts) (name : option str) (f : WcFlags) (width : Z) : str :=
  join (lit " ") (pad_left width ∘ Z_to_string <$> selected_counts c f)
  ++ match name with Some name => lit " " ++ name | None => [] end ++ line_end.

Section commands.
Context {W : Type} (fs : Fs W) (stdout stderr : BoxAsyncWrite) (fuel : nat).

Abbreviation XM := (ST (XState W) IoError).

(** [loop { let n = reader.read(&mut buf).await?; if n == 0 { return } .. }]. *)
Fixpoint each_chunk {A} (fuel : nat) (src : Source) (cap : Z) (body : A -> bytes -> XM A) (acc : A) : XM A :=
  match fuel with
  | O => slift OutOfFuel
  | S fuel =>
      let! data := read fs src cap in
      if bool_decide (data = []) then sret acc
      else let! acc := body acc data in each_chunk fuel src cap body acc
  end.

(** The input a path names: stdin for [-], otherwise a file that is opened. *)
Definition with_input {A} (path : str) (use : Source -> XM A) (err : Errno -> XM A) : XM A :=
  if bool_decide (path = lit "-") then use Stdin
  else with_stream_reader fs path (use OpenedFile) err.

Definition cat_stream (src : Source) (flags : CatFlags) (st : CatState) : XM CatState :=
  if cat_plain flags then
    each_chunk fuel src (64 * 1024) (fun st data => let! _ := write_all fs stdout data in sret st) st
  else
    each_line fs fuel src empty_buffer
      (fun st line => let! (st, out) := slift (cat_transform line flags st) in
                      let! _ := write_all fs stdout out in sret st) st.

(** The loop over the paths: the state of the lines and the exit code so far. *)
Fixpoint cat_paths (paths : list str) (flags : CatFlags) (st : CatState) (exit : Z) : XM Z :=
  match paths with
  | [] => sret exit
  | path :: paths =>
      let! next := with_input path
        (fun src => let! r := x_try (cat_stream src flags st) in
                    match r with
                    | Ok st => sret (Some (st, exit))
                    | Err e => let! reported := report_stream_error fs stderr (lit "cat") path e in
                               sret (if (reported : bool) then Some (st, 1) else None)
                    | Panic => slift Panic
                    | OutOfFuel => slift OutOfFuel
                    end)
        (fun e => let! _ := write_vfs_error fs stderr (lit "cat") path e in sret (Some (st, 1))) in
      match next with
      | Some (st, exit) => cat_paths paths flags st exit
      | None => sret 1
      end
  end.

Definition cat (args : list str) : XM Z :=
  match parse_flags set_cat_flag default_cat_flags args with
  | Err flag => unsupported fs stderr (lit "cat") (lit "-" ++ [flag])
  | Ok (flags, paths) =>
      cat_paths (if bool_decide (paths = []) then [lit "-"] else paths) flags (mkCatState 0 false) 0
  | Panic => slift Panic
  | OutOfFuel => slift OutOfFuel
  end.

(** ** head and tail *)

Fixpoint head_loop (fuel : nat) (src : Source) (p : LineBuffer) (limit : Z) : XM unit :=
  match fuel with
  | O => slift OutOfFuel
  | S fuel =>
      if limit =? 0 then sret tt
      else
        let! (line, p) := read_line fs src p in
        match line with
        | None => sret tt
        | Some line => let! _ := write_all fs stdout line in head_loop fuel src p (limit - 1)
        end
  end.

Definition TAIL_TOO_LARGE : str := lit "retained input too large for tinysandbox tail".

(** What [tail] does with a line; the window and how many lines it holds. *)
Definition tail_step (limit window_bytes : Z) (acc : bytes * Z) (line : bytes) : outcome IoError (bytes * Z) :=
  let '(window, retained) := acc in
  if 0 <? limit then
    let full := retained =? limit in
    let window := if full then pop_line window else window in
    let retained := if full then retained - 1 else retained in
    if window_bytes <? saturating_add (len window) (len line) then Err (InvalidData TAIL_TOO_LARGE)
    else Ok (window ++ line, retained + 1)
  else Ok (window, retained).

Definition head_tail_reader (src : Source) (label : str) (show_header : bool) (settings : HeadTailSettings)
    (index : nat) : XM unit :=
  let! _ :=
    (if show_header then
       let! _ := (if (0 <? index)%nat then write_all fs stdout [NEWLINE] else sret tt) in
       write_text fs stdout (lit "==> " ++ label ++ lit " <==" ++ line_end)
     else sret tt) in
  match ht_count settings with
  | LastLines limit =>
      if ht_head settings then head_loop fuel src empty_buffer limit
      else
        let! (window, _) :=
          each_line fs fuel src empty_buffer
            (fun acc line => slift (tail_step limit (ht_window settings) acc line)) ([], 0) in
        write_all fs stdout window
  | FromLine start =>
      let! _ :=
        each_line fs fuel src empty_buffer
          (fun line_no line =>
             let! _ := (if start <=? line_no then write_all fs stdout line else sret tt) in
             slift (u64_add line_no 1)) 1 in
      sret tt
  end.

Definition head_tail_name (head_mode : bool) : str := if head_mode then lit "head" else lit "tail".

(** The result of reading one input: the exit code when the command ends. *)
Definition head_tail_done (cmd path : str) (r : outcome IoError unit) : XM (option Z) :=
  match r with
  | Ok _ => sret None
  | Err e => let! reported := report_stream_error fs stderr cmd path e in sret (Some 1)
  | Panic => slift Panic
  | OutOfFuel => slift OutOfFuel
  end.

Fixpoint head_tail_files (files : list str) (show_headers : bool) (settings : HeadTailSettings) (index : nat)
  : XM Z :=
  let cmd := head_tail_name (ht_head settings) in
  match files with
  | [] => sret 0
  | file :: files =>
      let! stop := with_input file
        (fun src => let! r := x_try (head_tail_reader src file show_headers settings index) in
                    head_tail_done cmd file r)
        (fun e => let! _ := write_vfs_error fs stderr cmd file e in sret (Some 1)) in
      match stop with
      | Some code => sret code
      | None => head_tail_files files show_headers settings (S index)
      end
  end.

Definition head_tail (head_mode : bool) (args : list str) : XM Z :=
  let cmd := head_tail_name head_mode in
  match parse_head_tail head_mode args (LastLines 10) false [] with
  | Err MissingCount =>
      let! _ := say fs stderr (cmd ++ lit ": option requires an argument -- 'n'" ++ line_end) in sret 1
  | Err (BadCount value) =>
      let! _ := say fs stderr (cmd ++ lit ": invalid number of lines: '" ++ value ++ lit "'" ++ line_end) in sret 1
  | Err (BadFlag flag) => unsupported fs stderr cmd flag
  | Ok (n, verbose, files) =>
      let settings := mkHeadTail n head_mode (tail_input_bytes (f_limits fs)) in
      if bool_decide (files = []) then
        let! r := x_try (head_tail_reader Stdin (lit "standard input") false settings 0) in
        let! stop := head_tail_done cmd (lit "-") r in
        sret (default 0 stop)
      else head_tail_files files (verbose || (1 <? length files)%nat) settings 0
  | Panic => slift Panic
  | OutOfFuel => slift OutOfFuel
  end.

(** ** uniq *)

Definition write_uniq_line (line : str) (n : Z) (f : UniqFlags) : XM unit :=
  if u_repeated f && (n =? 1) then sret tt
  else if u_unique f && negb (n =? 1) then sret tt
  else if u_count f then write_text fs stdout (pad_left 7 (Z_to_string n) ++ lit " " ++ line ++ line_end)
  else write_text fs stdout (line ++ line_end).

Definition write_uniq_run (run : option (str * Z)) (f : UniqFlags) : XM unit :=
  match run with
  | Some (line, n) => write_uniq_line line n f
  | None => sret tt
  end.

Definition uniq_step (f : UniqFlags) (current : option (str * Z)) (line : bytes) : XM (option (str * Z)) :=
  let line := line_text_lossy line in
  match current with
  | Some (last, n) =>
      if bool_decide (last = line) then let! n := slift (u64_add n 1) in sret (Some (last, n))
      else let! _ := write_uniq_line last n f in sret (Some (line, 1))
  | None => sret (Some (line, 1))
  end.

Definition uniq_reader (src : Source) (f : UniqFlags) : XM unit :=
  let! current := each_line fs fuel src empty_buffer (uniq_step f) None in
  write_uniq_run current f.

Definition uniq (args : list str) : XM Z :=
  match parse_uniq args (mkUniqFlags false false false) [] with
  | Err flag => unsupported fs stderr (lit "uniq") flag
  | Ok (flags, files) =>
      if (1 <? length files)%nat then
        let! _ := say fs stderr (lit "uniq: extra operand" ++ line_end) in sret 1
      else
        let path := default (lit "-") (List.hd_error files) in
        with_input path
          (fun src => let! r := x_try (uniq_reader src flags) in
                      match r with
                      | Ok _ => sret 0
                      | Err e => let! _ := report_stream_error fs stderr (lit "uniq") path e in sret 1
                      | Panic => slift Panic
                      | OutOfFuel => slift OutOfFuel
                      end)
          (fun e => let! _ := write_vfs_error fs stderr (lit "uniq") path e in sret 1)
  | Panic => slift Panic
  | OutOfFuel => slift OutOfFuel
  end.

(** ** wc *)

Definition counts_reader (src : Source) : XM Counts :=
  let! (c, _) := each_chunk fuel src (64 * 1024) (fun st data => slift (count_chunk st data)) (no_counts, false) in
  sret c.

Definition write_counts (c : Counts) (name : option str) (f : WcFlags) (width : Z) : XM unit :=
  say fs stdout (counts_text c name f width).

(** The loop over the files: the rows, the total and the exit code, or a broken pipe. *)
Fixpoint wc_files (files : list str) (rows : list (Counts * str)) (total : Counts) (exit : Z)
  : XM (option (list (Counts * str) * Counts * Z)) :=
  match files with
  | [] => sret (Some (rows, total, exit))
  | path :: files =>
      let! next := with_input path
        (fun src => let! r := x_try (counts_reader src) in
                    match r with
                    | Ok c => let! total := slift (add_counts total c) in
                              sret (Some (rows ++ [(c, path)], total, exit))
                    | Err e => let! reported := report_stream_error fs stderr (lit "wc") path e in
                               sret (if (reported : bool) then Some (rows, total, 1) else None)
                    | Panic => slift Panic
                    | OutOfFuel => slift OutOfFuel
                    end)
        (fun e => let! _ := write_vfs_error fs stderr (lit "wc") path e in sret (Some (rows, total, 1))) in
      match next with
      | Some (rows, total, exit) => wc_files files rows total exit
      | None => sret None
      end
  end.

Fixpoint write_rows (rows : list (Counts * str)) (f : WcFlags) (width : Z) : XM unit :=
  match rows with
  | [] => sret tt
  | (c, name) :: rows => let! _ := write_counts c (Some name) f width in write_rows rows f width
  end.

(** [.map(decimal_width).max().unwrap_or(1)]. *)
Definition rows_width (rows : list (Counts * str)) (f : WcFlags) : Z :=
  match flat_map (fun row => decimal_width <$> selected_counts row.1 f) rows with
  | [] => 1
  | w :: ws => foldl Z.max w ws
  end.

Definition wc (args : list str) : XM Z :=
  match parse_flags set_wc_flag (mkWcFlags false false false) args with
  | Err flag => unsupported fs stderr (lit "wc") (lit "-" ++ [flag])
  | Ok (f, files) =>
      let f := if negb (show_lines f) && negb (show_words f) && negb (show_bytes f)
               then mkWcFlags true true true else f in
      if bool_decide (files = []) then
        let! r := x_try (counts_reader Stdin) in
        match r with
        | Ok c => let! _ := write_counts c None f 7 in sret 0
        | Err e => let! _ := report_stream_error fs stderr (lit "wc") (lit "-") e in sret 1
        | Panic => slift Panic
        | OutOfFuel => slift OutOfFuel
        end
      else
        let! result := wc_files files [] no_counts 0 in
        match result with
        | None => sret 1
        | Some (rows, total, exit) =>
            let rows := if (1 <? length files)%nat then rows ++ [(total, lit "total")] else rows in
            let! _ := write_rows rows f (rows_width rows f) in
            sret exit
        end
  | Panic => slift Panic
  | OutOfFuel => slift OutOfFuel
  end.
End commands.
