(* ===== verification/TextLinesFacts.v ===== *)
(** * What cat, head, tail, uniq and wc print

    Each reader of TextLines.v against a stream: its output as a function of the
    lines, or the bytes, of its whole input. *)

From Stdlib Require Import Ascii String.
From S2P Require Import Prelude RustStr VfsTypes VfsIface SandboxFs Redirects Output Utf8 Streams LineReader TextLines.

#[local] Open Scope Z_scope.

(** ** Lines *)

Definition complete (l : bytes) : Prop := exists a, l = a ++ [NEWLINE] /\ NEWLINE ∉ a.

(** Every line but the last ends with its newline. *)
Lemma split_lines_complete d done_ l rest : split_lines d = done_ ++ l :: rest -> Forall complete done_.
Proof.
  revert d. induction done_ as [|x done_ IH]; intros d H; [done|].
  destruct (position d) as [n|] eqn:Hp.
  - apply position_Some in Hp as (a & r & -> & Ha & _). rewrite split_lines_newline in H by done.
    simplify_eq/=. constructor; [by exists a|]. by eapply IH.
  - apply position_None in Hp. destruct d as [|b d]; [done|]. rewrite split_lines_last in H by done.
    by destruct done_.
Qed.

Lemma split_lines_app done_ d : Forall complete done_ -> split_lines (concat done_ ++ d) = done_ ++ split_lines d.
Proof.
  induction 1 as [|x done_ (a & -> & Ha) _ IH]; simpl; [done|].
  rewrite <- !app_assoc. simpl. by rewrite split_lines_newline, IH.
Qed.

Lemma length_split_lines d : (length (split_lines d) <= length d)%nat.
Proof.
  induction d as [|b d IH]; simpl; [done|]. destruct (b =? NEWLINE); simpl; [lia|].
  destruct (split_lines d); simpl in *; lia.
Qed.

Lemma pop_line_complete l w : complete l -> pop_line (l ++ w) = w.
Proof.
  intros (a & -> & Ha). rewrite <- app_assoc. induction a as [|b a IH]; simpl; [done|].
  apply not_elem_of_cons in Ha as [Hb Ha]. rewrite (proj2 (Z.eqb_neq b NEWLINE)) by done. by apply IH.
Qed.

(** The last [n] of a list of lines. *)
Definition last_lines {A} (n : Z) (ls : list A) : list A := drop (length ls - Z.to_nat n) ls.

Lemma last_lines_all {A} n (ls : list A) : len ls <= n -> last_lines n ls = ls.
Proof. intros H. unfold last_lines, len in *. by replace (length ls - Z.to_nat n)%nat with 0%nat by lia. Qed.

Lemma last_lines_short {A} n (ls : list A) x : 0 <= n -> len ls < n -> last_lines n (ls ++ [x]) = last_lines n ls ++ [x].
Proof.
  intros Hn H. rewrite !last_lines_all; [done|lia|]. rewrite len_app. unfold len in *. simpl. lia.
Qed.

(** A full window loses its first line. *)
Lemma last_lines_full {A} n (ls : list A) x :
  0 < n -> n <= len ls ->
  exists y, last_lines n ls = y :: last_lines (n - 1) ls /\ last_lines n (ls ++ [x]) = last_lines (n - 1) ls ++ [x].
Proof.
  intros Hn H. unfold last_lines, len in *. set (k := (length ls - Z.to_nat n)%nat).
  assert (k < length ls)%nat as Hk by lia. destruct (lookup_lt_is_Some_2 ls k Hk) as [y Hy]. exists y.
  replace (length ls - Z.to_nat (n - 1))%nat with (S k) by lia. split; [by apply drop_S|].
  rewrite length_app. simpl. replace (length ls + 1 - Z.to_nat n)%nat with (S k) by lia.
  by rewrite drop_app_le by lia.
Qed.

Lemma len_last_lines {A} n (ls : list A) : 0 <= n -> len (last_lines n ls) = Z.min n (len ls).
Proof. intros H. unfold last_lines, len. rewrite length_drop. lia. Qed.

(** The window of [tail] never held more than [window_bytes]. *)
Definition window_fits (limit window_bytes : Z) (ls : list bytes) : Prop :=
  forall k, len (concat (last_lines limit (take k ls))) <= window_bytes.

Lemma sum_concat_last (n : Z) (ls : list bytes) : len (concat (last_lines n ls)) <= len (concat ls).
Proof.
  unfold last_lines. set (k := (_ - _)%nat). rewrite <- (take_drop k ls) at 2. rewrite concat_app, len_app.
  pose proof (len_nonneg (concat (take k ls))). lia.
Qed.

Lemma len_prefix {A} (a b : list A) n : len (a ++ b) <= n -> len a <= n.
Proof. rewrite len_app. pose proof (len_nonneg b). lia. Qed.

Section facts.
Context {W : Type} (fs : Fs W) (src : Source) (dst : BoxAsyncWrite) (J : bytes -> bytes -> XState W -> Prop)
  (F : IoError -> Prop) {Hs : Streaming fs src dst J F}.

Abbreviation XM := (ST (XState W) IoError).

Abbreviation line_failure := (line_failure J F).

Lemma each_chunk_spec {A} (P : bytes -> A -> bytes -> Prop) (R : IoError -> XState W -> Prop)
    (body : A -> bytes -> XM A) fuel cap all done_ i acc o s :
  (forall done_ acc data i o s, P done_ acc o -> J i o s -> data <> [] -> all = done_ ++ data ++ i ->
     wp (body acc data) s (fun acc' s' => exists o', P (done_ ++ data) acc' o' /\ J i o' s') R) ->
  (forall e s, stream_failed J F e s -> R e s) -> 0 < cap ->
  J i o s -> P done_ acc o -> all = done_ ++ i -> (length i < fuel)%nat ->
  wp (each_chunk fs fuel src cap body acc) s (fun acc' s' => exists o', P all acc' o' /\ J [] o' s') R.
Proof.
  intros Hbody HFR Hcap. revert done_ i acc o s. induction fuel as [|fuel IH]; intros done_ i acc o s HJ HP Hall Hf; [lia|].
  cbn [each_chunk]. wp_step. eapply wp_mono; [by eapply (stream_read (dst:=dst))| |done].
  intros data s' (i' & -> & Hlen & Hnil & HJ'). cbn beta. case_bool_decide as Hd.
  - specialize (Hnil Hd). subst data. simpl in Hnil. subst i'. apply wp_ret.
    rewrite app_nil_r in Hall. subst done_. eauto.
  - wp_step. eapply wp_mono; [by eapply Hbody| |done]. intros acc' s2 (o' & HP' & HJ2).
    eapply IH; [done|done|by rewrite <- app_assoc|]. destruct data; [done|]. rewrite length_app in Hf. simpl in Hf. lia.
Qed.

(** ** head *)

Lemma head_loop_spec fuel p i o s limit :
  J i o s -> buffer_ok p i -> 0 <= limit -> (length (split_lines (buffered p ++ i)) < fuel)%nat ->
  len (o ++ concat (take (Z.to_nat limit) (split_lines (buffered p ++ i)))) <= USIZE_MAX ->
  wp (head_loop fs dst fuel src p limit) s
     (fun _ s' => exists i', J i' (o ++ concat (take (Z.to_nat limit) (split_lines (buffered p ++ i)))) s')
     (line_failure (take (Z.to_nat limit) (split_lines (buffered p ++ i)))).
Proof.
  revert p i o s limit. induction fuel as [|fuel IH]; intros p i o s limit HJ Hok Hl Hf Hout; [lia|]. cbn [head_loop].
  destruct (limit =? 0) eqn:H0; unbool.
  { subst limit. simpl. apply wp_ret. exists i. by rewrite app_nil_r. }
  assert (Z.to_nat limit = S (Z.to_nat (limit - 1))) as Hlim by lia. rewrite Hlim in *.
  wp_step. eapply wp_mono; [eapply (read_line_spec fs src dst J F p i o s HJ Hok)| |].
  - intros [[l|] p'] s' (i' & HJ' & Hok' & Hr); cbn [fst snd] in *; cbv beta iota.
    + destruct Hr as (Hsl & Hsp & Hd). rewrite Hsp in *. wp_step. simpl in Hf, Hout. rewrite app_assoc in Hout.
      eapply wp_mono; [eapply (stream_write (src:=src) (J:=J)); [done|by eapply len_prefix]| |
        intros e s2; apply failed_line_failure].
      intros [] s2 HJ2.
      eapply wp_mono; [apply (IH p' i' (o ++ l) s2 (limit - 1)); [done|done|lia|lia|done]|..].
      * intros _ s3 (i2 & HJ3). exists i2. simpl. by rewrite <- app_assoc in HJ3.
      * intros e s3. apply line_failure_later.
    + destruct Hr as (Hd & _). rewrite Hd. simpl. apply wp_ret. exists i'. by rewrite app_nil_r.
  - intros e s' He. eapply first_line_failure; [exact He|]. intros l r ->. simpl. by left.
Qed.

(** ** tail *)

Definition tail_failure (limit window_bytes : Z) (ls : list bytes) (e : IoError) (s : XState W) : Prop :=
  (e = InvalidData TAIL_TOO_LARGE /\ ~ window_fits limit window_bytes ls /\ exists i o, J i o s) \/ line_failure ls e s.

Lemma tail_step_spec limit window_bytes done_ l rest :
  0 <= limit -> Forall complete done_ -> len (concat (done_ ++ l :: rest)) <= USIZE_MAX ->
  match tail_step limit window_bytes (concat (last_lines limit done_), Z.min limit (len done_)) l with
  | Ok acc => acc = (concat (last_lines limit (done_ ++ [l])), Z.min limit (len (done_ ++ [l])))
              /\ (0 < limit -> len (concat (last_lines limit (done_ ++ [l]))) <= window_bytes)
  | Err e => e = InvalidData TAIL_TOO_LARGE /\ ~ window_fits limit window_bytes (done_ ++ l :: rest)
  | _ => False
  end.
Proof.
  intros Hl Hc Hmax. unfold tail_step. pose proof (len_nonneg done_) as Hnn.
  assert (len [l] = 1) as Hl1 by done. rewrite len_app.
  destruct (0 <? limit) eqn:H0; unbool.
  2: { assert (limit = 0) as -> by lia. unfold last_lines. rewrite Nat.sub_0_r, drop_all. cbn.
       rewrite Nat.sub_0_r, drop_all. split; [f_equal; lia|lia]. }
  assert (exists w, last_lines limit (done_ ++ [l]) = w ++ [l] /\ Forall complete w /\
    (if Z.min limit (len done_) =? limit then pop_line (concat (last_lines limit done_))
     else concat (last_lines limit done_)) = concat w /\
    (if Z.min limit (len done_) =? limit then Z.min limit (len done_) - 1 else Z.min limit (len done_)) + 1
      = Z.min limit (len done_ + 1)) as (w & Hw & Hcw & Hpop & Hn).
  { destruct (_ =? limit) eqn:Hfull; unbool.
    - destruct (last_lines_full limit done_ l) as (y & Hy & Hx); [lia..|]. exists (last_lines (limit - 1) done_).
      assert (Forall complete (last_lines limit done_)) as Hcl by (by apply Forall_drop).
      rewrite Hy in *. apply Forall_cons in Hcl as [Hcy Hcl]. split; [done|]. split; [done|].
      split; [|lia]. simpl. by apply pop_line_complete.
    - exists (last_lines limit done_). split; [apply last_lines_short; lia|].
      split; [by apply Forall_drop|]. split; [done|lia]. }
  cbv zeta. rewrite Hpop.
  assert (len (concat w) + len l = len (concat (last_lines limit (done_ ++ [l])))) as Hsum.
  { rewrite Hw, concat_app, len_app. simpl. by rewrite app_nil_r. }
  assert (len (concat w) + len l <= USIZE_MAX) as Hfit.
  { rewrite Hsum. pose proof (sum_concat_last limit (done_ ++ [l])) as Hle.
    replace (done_ ++ l :: rest) with ((done_ ++ [l]) ++ rest) in Hmax by (by rewrite <- app_assoc).
    rewrite concat_app, len_app in Hmax. pose proof (len_nonneg (concat rest)). lia. }
  unfold saturating_add. rewrite Z.min_r by done. destruct (window_bytes <? _) eqn:Hb; unbool.
  - split; [done|]. intros Hwf. specialize (Hwf (S (length done_))).
    replace (done_ ++ l :: rest) with ((done_ ++ [l]) ++ rest) in Hwf by (by rewrite <- app_assoc).
    rewrite take_app_length' in Hwf; [lia|]. rewrite length_app. simpl. lia.
  - rewrite Hn, Hw, concat_app. simpl. rewrite app_nil_r. split; [done|]. intros _. rewrite len_app. lia.
Qed.

Lemma tail_reader_spec fuel i o s limit window_bytes :
  J i o s -> 0 <= limit -> 0 <= window_bytes -> len i <= USIZE_MAX -> (length (split_lines i) < fuel)%nat ->
  len (o ++ concat (last_lines limit (split_lines i))) <= USIZE_MAX ->
  wp (let! (window, _) := each_line fs fuel src empty_buffer
        (fun acc line => slift (tail_step limit window_bytes acc line)) ([], 0) in
      write_all fs dst window) s
     (fun _ s' => J [] (o ++ concat (last_lines limit (split_lines i))) s')
     (tail_failure limit window_bytes (split_lines i)).
Proof.
  intros HJ Hl Hw Hmax Hf Hout. wp_step.
  eapply wp_mono; [eapply (each_line_spec fs src dst J F
    (fun done_ acc o' => o' = o /\ acc = (concat (last_lines limit done_), Z.min limit (len done_)))
    (tail_failure limit window_bytes (split_lines i)) _ fuel empty_buffer i o s (split_lines i) [] ([], 0))|..].
  - intros done_ acc l i' o' s' [-> ->] HJ' Hsl [rest Hrest].
    pose proof (tail_step_spec limit window_bytes done_ l rest Hl (split_lines_complete _ _ _ _ Hrest)) as Hstep.
    rewrite <- Hrest, split_lines_concat in Hstep. specialize (Hstep Hmax).
    destruct (tail_step _ _ _ _) as [acc|e| |]; try done.
    + apply wp_lift; [done|intros a [= <-]|done]. destruct Hstep as [-> _]. by exists o.
    + apply wp_lift; [done|done|intros a [= <-]]. left. destruct Hstep as [-> Hw'].
      split; [done|]. split; [done|]. eauto.
  - intros e s' He. by right.
  - done.
  - apply buffer_ok_empty.
  - split; [done|]. unfold last_lines. simpl. f_equal. change (len (@nil bytes)) with 0. lia.
  - done.
  - done.
  - intros [window n] s' (o' & [-> [= -> ->]] & HJ'). cbv beta iota.
    eapply wp_mono; [by eapply (stream_write (src:=src) (J:=J) (F:=F))|done|]. intros e s2 He. right. by apply failed_line_failure.
  - done.
Qed.

(** ** tail from a line on *)

Lemma from_reader_spec fuel i o s start :
  J i o s -> 1 <= start -> len i + 1 <= USIZE_MAX -> (length (split_lines i) < fuel)%nat ->
  len (o ++ concat (drop (Z.to_nat (start - 1)) (split_lines i))) <= USIZE_MAX ->
  wp (each_line fs fuel src empty_buffer
        (fun line_no line =>
           let! _ := (if start <=? line_no then write_all fs dst line else sret tt) in slift (u64_add line_no 1)) 1) s
     (fun _ s' => J [] (o ++ concat (drop (Z.to_nat (start - 1)) (split_lines i))) s')
     (line_failure (split_lines i)).
Proof.
  intros HJ Hst Hmax Hf Hout.
  eapply wp_mono; [eapply (each_line_spec fs src dst J F
    (fun done_ acc o' => o' = o ++ concat (drop (Z.to_nat (start - 1)) done_) /\ acc = 1 + len done_)
    (line_failure (split_lines i)) _ fuel empty_buffer i o s (split_lines i) [] 1)|..].
  - intros done_ acc l i' o' s' [-> ->] HJ' Hsl [rest Hrest].
    assert (1 + len done_ + 1 <= U64_MAX) as Hn.
    { change U64_MAX with USIZE_MAX. pose proof (length_split_lines i) as Hle. rewrite Hrest, length_app in Hle.
      unfold len in *. simpl in Hle. lia. }
    assert (forall x : bytes, (if start <=? 1 + len done_ then [x] else []) =
              drop (Z.to_nat (start - 1) - length done_) [x]) as Hx.
    { intros x. unfold len in *. destruct (_ <=? _) eqn:H; unbool.
      - by replace (Z.to_nat (start - 1) - length done_)%nat with 0%nat by lia.
      - rewrite drop_ge; [done|]. simpl. lia. }
    assert (drop (Z.to_nat (start - 1)) (done_ ++ [l])
            = drop (Z.to_nat (start - 1)) done_ ++ (if start <=? 1 + len done_ then [l] else [])) as Hd.
    { rewrite Hx. apply drop_app. }
    assert (len (done_ ++ [l]) = len done_ + 1) as Hlen by (by rewrite len_app).
    assert (len (o ++ concat (drop (Z.to_nat (start - 1)) (done_ ++ [l]))) <= USIZE_MAX) as Hpre.
    { rewrite Hrest in Hout. replace (done_ ++ l :: rest) with ((done_ ++ [l]) ++ rest) in Hout
        by (by rewrite <- app_assoc).
      rewrite drop_app, concat_app, app_assoc in Hout. by eapply len_prefix. }
    wp_step. destruct (start <=? 1 + len done_) eqn:Hge.
    + eapply wp_mono; [eapply (stream_write (src:=src) (J:=J) (F:=F)); [done|]| |intros e s2; apply failed_line_failure].
      { rewrite Hd, concat_app, app_assoc in Hpre. simpl in Hpre. by rewrite app_nil_r in Hpre. }
      intros [] s2 HJ2. apply wp_u64_add; [done|].
      eexists. split; [|done]. rewrite Hd, Hlen, concat_app. simpl. rewrite !app_nil_r, app_assoc. split; [done|lia].
    + apply wp_ret. apply wp_u64_add; [done|]. eexists. split; [|done]. rewrite Hd, Hlen, app_nil_r.
      split; [done|lia].
  - done.
  - done.
  - apply buffer_ok_empty.
  - rewrite drop_nil. simpl. by rewrite app_nil_r.
  - done.
  - done.
  - intros n s' (o' & [-> _] & HJ'). done.
  - done.
Qed.
End facts.
