(* ===== verification/TextCountFacts.v ===== *)
(** * What uniq, wc and cat compute

    [uniq] prints the runs of equal lines of its input, [wc] counts its newlines,
    words and bytes, and [cat] transforms it line by line; none of them depends on
    the pieces the input arrives in. *)

From Stdlib Require Import Ascii String.
From S2P Require Import Prelude RustStr VfsTypes VfsIface SandboxFs Redirects Output Utf8 Streams LineReader.
From S2P Require Import TextLines TextLinesFacts.

#[local] Open Scope Z_scope.

(** ** Runs of equal lines *)

Definition add_run (rs : list (str * Z)) (l : str) : list (str * Z) :=
  match split_last rs with
  | Some (front, (x, n)) => if bool_decide (x = l) then front ++ [(x, n + 1)] else rs ++ [(l, 1)]
  | None => [(l, 1)]
  end.
Definition runs (ls : list str) : list (str * Z) := foldl add_run [] ls.

Definition expand_runs (rs : list (str * Z)) : list str := flat_map (fun r => replicate (Z.to_nat r.2) r.1) rs.

(** Neighbouring runs are of different lines. *)
Fixpoint runs_differ (rs : list (str * Z)) : Prop :=
  match rs with
  | [] => True
  | (x, _) :: rs => match rs with (y, _) :: _ => x <> y | [] => True end /\ runs_differ rs
  end.

Lemma runs_differ_cons x n rs : runs_differ ((x, n) :: rs) <-> (forall y m, hd_error rs = Some (y, m) -> x <> y) /\ runs_differ rs.
Proof. destruct rs as [|[y m] rs]; simpl; naive_solver. Qed.

Lemma runs_differ_snoc rs x n l m :
  runs_differ (rs ++ [(x, n)]) -> (x <> l -> runs_differ (rs ++ [(x, n); (l, m)])) /\ runs_differ (rs ++ [(x, m)]).
Proof.
  induction rs as [|[y k] rs IH]; [simpl; tauto|]. simpl app. rewrite !runs_differ_cons. intros [Hh [H1 H2]%IH].
  split; [intros Hne; split; [|by apply H1]|split; [|done]]; intros z j Hz; destruct rs as [|[? ?] rs]; simplify_eq/=;
    by eapply Hh.
Qed.

Lemma add_run_cases rs l :
  (rs = [] /\ add_run rs l = [(l, 1)])
  \/ exists front x n, rs = front ++ [(x, n)]
     /\ ((x = l /\ add_run rs l = front ++ [(x, n + 1)])
         \/ (x <> l /\ add_run rs l = front ++ [(x, n); (l, 1)])).
Proof.
  unfold add_run. destruct (split_last rs) as [[front [x n]]|] eqn:H.
  - apply split_last_Some in H as ->. right. exists front, x, n. split; [done|]. case_bool_decide; [by left|right].
    split; [done|]. by rewrite <- app_assoc.
  - apply split_last_None in H as ->. by left.
Qed.

(** The runs are the lines again, each run is of at least one line and is as long
    as it can be. *)
Lemma runs_correct ls :
  expand_runs (runs ls) = ls /\ runs_differ (runs ls) /\ Forall (fun r => 1 <= r.2 <= len ls) (runs ls).
Proof.
  unfold runs. induction ls as [|l ls IH] using rev_ind; [done|]. rewrite foldl_app. simpl.
  destruct IH as (He & Hd & Hn). assert (len (ls ++ [l]) = len ls + 1) as Hlen by (by rewrite len_app).
  pose proof (len_nonneg ls) as H0. rewrite Hlen.
  destruct (add_run_cases (foldl add_run [] ls) l) as [[Hnil ->]|(front & x & n & Hrs & Hc)].
  { rewrite Hnil in He. simpl in He. subst ls. split; [done|]. split; [done|]. by apply Forall_singleton. }
  rewrite Hrs in He, Hd, Hn. apply Forall_app in Hn as [Hf [Hx _]%Forall_cons]. simpl in Hx.
  assert (Forall (fun r : str * Z => 1 <= r.2 <= len ls + 1) front) as Hf'
    by (eapply Forall_impl; [exact Hf|]; intros ? ?; simpl in *; lia).
  unfold expand_runs in *. rewrite flat_map_app in He. simpl in He. rewrite app_nil_r in He.
  destruct Hc as [[-> ->]|[Hne ->]]; rewrite flat_map_app; simpl; rewrite ?app_nil_r.
  - replace (Z.to_nat (n + 1)) with (Z.to_nat n + 1)%nat by lia. rewrite replicate_add, app_assoc, He.
    split; [done|]. split; [by eapply (runs_differ_snoc _ _ _ l)|]. rewrite Forall_app. split; [done|].
    apply Forall_singleton. simpl. lia.
  - rewrite app_assoc, He. split; [done|]. split; [by apply runs_differ_snoc|]. rewrite Forall_app. split; [done|].
    apply Forall_cons. split; [simpl; lia|]. apply Forall_singleton. simpl. lia.
Qed.

(** The runs before the last no longer change. *)
Lemma foldl_add_run more closed x n : exists rest, foldl add_run (closed ++ [(x, n)]) more = closed ++ rest.
Proof.
  revert closed x n. induction more as [|m more IH]; intros closed x n; simpl; [eauto|].
  unfold add_run at 2. rewrite split_last_snoc. case_bool_decide; [apply IH|].
  destruct (IH (closed ++ [(x, n)]) m 1) as [rest ->]. rewrite <- app_assoc. eauto.
Qed.

Lemma runs_extend ls more closed current :
  runs ls = closed ++ option_list current -> (current = None -> closed = []) ->
  exists rest, runs (ls ++ more) = closed ++ rest.
Proof.
  unfold runs. rewrite foldl_app. intros -> Hn. destruct current as [[x n]|]; [apply foldl_add_run|].
  rewrite Hn by done. by eexists.
Qed.

(** What [write_uniq_line] writes for a run. *)
Definition run_bytes (f : UniqFlags) (r : str * Z) : bytes :=
  let '(line, n) := r in
  if u_repeated f && (n =? 1) then []
  else if u_unique f && negb (n =? 1) then []
  else if u_count f then encode (pad_left 7 (Z_to_string n) ++ lit " " ++ line ++ line_end)
  else encode (line ++ line_end).

(** ** Words *)

(** The pieces between separators. *)
Fixpoint split_by (p : Z -> bool) (d : bytes) : list bytes :=
  match d with
  | [] => [[]]
  | b :: d =>
      if p b then [] :: split_by p d
      else match split_by p d with
           | [] => [[b]]
           | w :: ws => (b :: w) :: ws
           end
  end.

Definition newlines (d : bytes) : Z := len (filter (fun b => b = NEWLINE) d).
Definition word_count (d : bytes) : Z := len (filter (fun w => w <> []) (split_by is_ascii_whitespace d)).

(** Words that start in [d], after a byte that was part of a word or not. *)
Fixpoint new_words (in_word : bool) (d : bytes) : Z :=
  match d with
  | [] => 0
  | b :: d =>
      if is_ascii_whitespace b then new_words false d
      else (if in_word then 0 else 1) + new_words true d
  end.

Lemma split_by_nonempty p d : split_by p d <> [].
Proof. destruct d; simpl; repeat case_match; done. Qed.

Lemma new_words_count d :
  new_words false d = word_count d
  /\ new_words true d = len (filter (fun w => w <> []) (drop 1 (split_by is_ascii_whitespace d))).
Proof.
  unfold word_count. induction d as [|b d [IH1 IH2]]; [done|]. simpl.
  destruct (is_ascii_whitespace b).
  - rewrite filter_cons_False by (intros H; by apply H). simpl. rewrite drop_0. by rewrite IH1.
  - destruct (split_by is_ascii_whitespace d) as [|w ws] eqn:Hs; [by apply split_by_nonempty in Hs|].
    rewrite filter_cons_True by done. simpl in *. rewrite drop_0 in *. split; [|done].
    rewrite IH2. unfold len. simpl. lia.
Qed.

Fixpoint in_word_after (in_word : bool) (d : bytes) : bool :=
  match d with
  | [] => in_word
  | b :: d => in_word_after (negb (is_ascii_whitespace b)) d
  end.

Lemma new_words_app a b w : new_words w (a ++ b) = new_words w a + new_words (in_word_after w a) b.
Proof.
  revert w. induction a as [|x a IH]; intros w; simpl; [lia|]. destruct (is_ascii_whitespace x); simpl; rewrite IH; lia.
Qed.

Lemma in_word_after_app a b w : in_word_after w (a ++ b) = in_word_after (in_word_after w a) b.
Proof. revert w. induction a; simpl; auto. Qed.

Lemma newlines_cons b d : newlines (b :: d) = (if b =? NEWLINE then 1 else 0) + newlines d.
Proof.
  unfold newlines. rewrite filter_cons. destruct (b =? NEWLINE) eqn:H; unbool.
  - rewrite decide_True by done. unfold len. simpl. lia.
  - by rewrite decide_False.
Qed.

Lemma newlines_app a b : newlines (a ++ b) = newlines a + newlines b.
Proof. unfold newlines. by rewrite filter_app, len_app. Qed.

Lemma count_bounds d w : 0 <= newlines d <= len d /\ 0 <= new_words w d <= len d.
Proof.
  split.
  - unfold newlines, len. pose proof (length_filter (fun b => b = NEWLINE) d). lia.
  - revert w. induction d as [|b d IH]; intros w; [done|]. simpl. unfold len in *. simpl length.
    specialize (IH (negb (is_ascii_whitespace b))). destruct (is_ascii_whitespace b), w; simpl in *; lia.
Qed.

Lemma count_bytes_spec d l k n w :
  l + len d <= U64_MAX -> k + len d <= U64_MAX ->
  count_bytes d (mkCounts l k n, w)
  = Ok (mkCounts (l + newlines d) (k + new_words w d) n, in_word_after w d).
Proof.
  revert l k w. induction d as [|b d IH]; intros l k w Hl Hk; simpl.
  { unfold newlines. simpl. change (len (@nil Z)) with 0. by rewrite !Z.add_0_r. }
  assert (len (b :: d) = 1 + len d) as Hlen by (unfold len; simpl; lia). rewrite Hlen in *.
  pose proof (len_nonneg d) as Hd. unfold u64_add, checked_add. cbn [c_lines c_words c_bytes].
  rewrite newlines_cons.
  rewrite (proj2 (Z.leb_le (l + 1) U64_MAX)), (proj2 (Z.leb_le (k + 1) U64_MAX)) by lia.
  destruct (b =? NEWLINE) eqn:Hb, (is_ascii_whitespace b) eqn:Hw, w; cbn; rewrite ?IH by lia;
    f_equal; f_equal; f_equal; lia.
Qed.

(** ** Lines of cat *)

(** [cat_transform] line by line. *)
Fixpoint cat_lines (ls : list bytes) (flags : CatFlags) (st : CatState) : outcome IoError (CatState * bytes) :=
  match ls with
  | [] => Ok (st, [])
  | l :: ls =>
      let? (st, a) := (match position l with
                       | Some pos => cat_transform_line (take (Z.to_nat pos) l) true flags st
                       | None => cat_transform_line l false flags st
                       end) in
      let? (st, b) := cat_lines ls flags st in Ok (st, a ++ b)
  end.

Lemma cat_lines_app a b flags st :
  cat_lines (a ++ b) flags st
  = let? (st, x) := cat_lines a flags st in let? (st, y) := cat_lines b flags st in Ok (st, x ++ y).
Proof.
  revert st. induction a as [|l a IH]; intros st; cbn [cat_lines app].
  - cbn. destruct (cat_lines b flags st) as [[? ?]|?| |]; done.
  - destruct (match position l with Some _ => _ | None => _ end) as [[st1 x]|?| |]; cbn; try done.
    rewrite IH. destruct (cat_lines a flags st1) as [[st2 y]|?| |]; cbn; try done.
    destruct (cat_lines b flags st2) as [[st3 z]|?| |]; cbn; try done. by rewrite app_assoc.
Qed.

Lemma position_newline a r : NEWLINE ∉ a -> position (a ++ NEWLINE :: r) = Some (len a).
Proof.
  induction a as [|b a IH]; intros Ha; simpl; [done|]. apply not_elem_of_cons in Ha as [Hb Ha].
  rewrite (proj2 (Z.eqb_neq b NEWLINE)), IH by done. simpl. f_equal. unfold len. simpl. lia.
Qed.

Lemma cat_transform_loop_lines fuel d flags st out :
  (length d < fuel)%nat ->
  cat_transform_loop fuel d flags st out
  = let? (st, x) := cat_lines (split_lines d) flags st in Ok (st, out ++ x).
Proof.
  revert d st out. induction fuel as [|fuel IH]; intros d st out Hf; [lia|]. cbn [cat_transform_loop].
  case_bool_decide as Hd; [subst; cbn; by rewrite app_nil_r|].
  destruct (position d) as [n|] eqn:Hp.
  - apply position_Some in Hp as (a & r & -> & Ha & ->). rewrite split_lines_newline by done. cbn [cat_lines].
    rewrite position_newline by done. unfold len. rewrite Nat2Z.id.
    replace (Z.to_nat (Z.of_nat (length a) + 1)) with (length (a ++ [NEWLINE])) by (rewrite length_app; simpl; lia).
    replace (a ++ NEWLINE :: r) with ((a ++ [NEWLINE]) ++ r) by (by rewrite <- app_assoc).
    rewrite drop_app_length, <- app_assoc, !take_app_length.
    destruct (cat_transform_line a true flags st) as [[st1 x]|?| |]; cbn [obind]; try done.
    rewrite IH by (rewrite !length_app in Hf; simpl in Hf; lia).
    destruct (cat_lines (split_lines r) flags st1) as [[st2 y]|?| |]; cbn [obind]; try done. by rewrite app_assoc.
  - pose proof Hp as Hno%position_None. rewrite split_lines_last by done. cbn [cat_lines]. rewrite Hp.
    destruct (cat_transform_line d false flags st) as [[st1 x]|?| |]; cbn [obind]; try done.
    destruct fuel as [|fuel]; [destruct d; [done|simpl in Hf; lia]|]. cbn. by rewrite app_nil_r.
Qed.

Lemma cat_transform_lines d flags st : cat_transform d flags st = cat_lines (split_lines d) flags st.
Proof.
  unfold cat_transform. rewrite cat_transform_loop_lines by lia.
  by destruct (cat_lines _ _ _) as [[? ?]|?| |].
Qed.

Definition line_shape (l : bytes) : Prop := complete l \/ ((NEWLINE ∉ l) /\ l <> []).

Lemma split_lines_shape d : Forall line_shape (split_lines d).
Proof.
  remember (length d) as n eqn:Hn. revert d Hn. induction n as [n IH] using lt_wf_ind. intros d ->.
  destruct (position d) as [k|] eqn:Hp.
  - apply position_Some in Hp as (a & r & -> & Ha & _). rewrite split_lines_newline by done.
    constructor; [left; by exists a|]. eapply (IH (length r)); [|done]. rewrite length_app. simpl. lia.
  - apply position_None in Hp. destruct d as [|b d]; [constructor|]. rewrite split_lines_last by done.
    constructor; [by right|constructor].
Qed.

Lemma split_line l : line_shape l -> split_lines l = [l].
Proof. intros [(a & -> & Ha)|[Ha Hne]]; [by rewrite split_lines_newline|by apply split_lines_last]. Qed.

(** Without flags the data is copied. *)
Lemma cat_plain_line l had flags st :
  cat_plain flags = true ->
  exists st', cat_transform_line l had flags st = Ok (st', l ++ if had then [NEWLINE] else []) /\ cat_line st' = cat_line st.
Proof.
  unfold cat_plain. destruct flags as [[] [] [] [] []]; simpl; try done. intros _.
  unfold cat_transform_line. cbn. eauto.
Qed.

Lemma cat_plain_lines ls flags st :
  cat_plain flags = true -> Forall line_shape ls ->
  exists st', cat_lines ls flags st = Ok (st', concat ls) /\ cat_line st' = cat_line st.
Proof.
  intros Hp. revert st. induction ls as [|l ls IH]; intros st H; cbn [cat_lines]; [by exists st|].
  apply Forall_cons in H as [Hl H].
  assert (exists st', (match position l with
      | Some pos => cat_transform_line (take (Z.to_nat pos) l) true flags st
      | None => cat_transform_line l false flags st end) = Ok (st', l) /\ cat_line st' = cat_line st) as (st1 & -> & <-).
  { destruct Hl as [(a & -> & Ha)|[Ha _]].
    - rewrite position_newline by done. unfold len. rewrite Nat2Z.id, take_app_length. by apply cat_plain_line.
    - rewrite (proj2 (position_None l)) by done. destruct (cat_plain_line l false flags st Hp) as (st' & H1 & H2).
      rewrite app_nil_r in H1. eauto. }
  cbn. destruct (IH st1 H) as (st2 & -> & <-). cbn. eauto.
Qed.

Lemma cat_transform_plain d flags st :
  cat_plain flags = true -> exists st', cat_transform d flags st = Ok (st', d) /\ cat_line st' = cat_line st.
Proof.
  intros Hp. rewrite cat_transform_lines.
  destruct (cat_plain_lines (split_lines d) flags st Hp (split_lines_shape d)) as (st' & H & ?).
  rewrite split_lines_concat in H. eauto.
Qed.

(** No more lines are numbered than there are. *)
Lemma cat_lines_ok ls flags st :
  0 <= cat_line st -> cat_line st + len ls <= U64_MAX ->
  exists st' out, cat_lines ls flags st = Ok (st', out) /\ 0 <= cat_line st' <= cat_line st + len ls.
Proof.
  revert st. induction ls as [|l ls IH]; intros st H0 Hmax; cbn [cat_lines].
  { exists st, []. split; [done|]. change (len (@nil bytes)) with 0. lia. }
  assert (len (l :: ls) = 1 + len ls) as Hlen by (unfold len; simpl; lia). rewrite Hlen in *.
  pose proof (len_nonneg ls) as Hls.
  assert (forall c h, exists st1 x, cat_transform_line c h flags st = Ok (st1, x)
    /\ 0 <= cat_line st1 <= cat_line st + 1) as Hstep.
  { intros c h. unfold cat_transform_line. destruct (squeeze flags && _ && _); [eexists _, _; split; [done|lia]|].
    unfold u64_add, checked_add. rewrite (proj2 (Z.leb_le (cat_line st + 1) U64_MAX)) by lia.
    destruct (if number_nonblank flags then _ else _); cbn; eexists _, _; (split; [done|]); simpl; lia. }
  assert (exists st1 x, (match position l with
      | Some pos => cat_transform_line (take (Z.to_nat pos) l) true flags st
      | None => cat_transform_line l false flags st end) = Ok (st1, x)
      /\ 0 <= cat_line st1 <= cat_line st + 1) as (st1 & x & -> & H1) by (destruct (position l); apply Hstep).
  cbn. destruct (IH st1) as (st2 & y & -> & H2); [lia..|]. cbn. eexists _, _. split; [done|]. lia.
Qed.

Section facts.
Context {W : Type} (fs : Fs W) (src : Source) (dst : BoxAsyncWrite) (J : bytes -> bytes -> XState W -> Prop)
  (F : IoError -> Prop) {Hs : Streaming fs src dst J F}.

Lemma write_uniq_line_spec i o s line n f :
  J i o s -> len (o ++ run_bytes f (line, n)) <= USIZE_MAX ->
  wp (write_uniq_line fs dst line n f) s (fun _ s' => J i (o ++ run_bytes f (line, n)) s')
     (stream_failed J F).
Proof.
  intros HJ. unfold write_uniq_line, run_bytes, write_text.
  repeat case_match; intros; first [apply wp_ret; by rewrite app_nil_r|by apply (stream_write (src:=src) (J:=J))].
Qed.

(** The runs written so far, and the one that is still growing. *)
Definition uniq_inv (f : UniqFlags) (o : bytes) (done_ : list bytes) (current : option (str * Z)) (o' : bytes) : Prop :=
  exists closed, runs (line_text_lossy <$> done_) = closed ++ option_list current
    /\ (current = None -> closed = []) /\ o' = o ++ concat (run_bytes f <$> closed).

Lemma uniq_step_spec f o done_ current l rest i o' s :
  uniq_inv f o done_ current o' -> J i o' s -> len done_ + 1 <= U64_MAX ->
  len (o ++ concat (run_bytes f <$> runs (line_text_lossy <$> (done_ ++ l :: rest)))) <= USIZE_MAX ->
  wp (uniq_step fs dst f current l) s
     (fun c s' => exists o2, uniq_inv f o (done_ ++ [l]) c o2 /\ J i o2 s') (stream_failed J F).
Proof.
  intros (closed & Hr & Hn & ->) HJ Hmax Hout. unfold uniq_step.
  assert (runs (line_text_lossy <$> (done_ ++ [l])) = add_run (runs (line_text_lossy <$> done_)) (line_text_lossy l)) as Hadd
    by (rewrite fmap_app; unfold runs; by rewrite foldl_app).
  destruct (runs_correct (line_text_lossy <$> done_)) as (_ & _ & Hc). rewrite Hr in Hc, Hadd.
  destruct current as [[x n]|]; simpl in *.
  - apply Forall_app in Hc as [_ [Hc _]%Forall_cons]. simpl in Hc. unfold len in Hc. rewrite length_fmap in Hc.
    unfold add_run in Hadd. rewrite split_last_snoc in Hadd. case_bool_decide as Hx.
    + wp_step. apply wp_u64_add; [unfold len in Hmax; lia|]. apply wp_ret.
      eexists. split; [|exact HJ]. exists closed. done.
    + assert (len ((o ++ concat (run_bytes f <$> closed)) ++ run_bytes f (x, n)) <= USIZE_MAX) as Hfit.
      { destruct (runs_extend (line_text_lossy <$> (done_ ++ [l])) (line_text_lossy <$> rest)
          (closed ++ [(x, n)]) (Some (line_text_lossy l, 1))) as [more Hmore]; [by rewrite Hadd|done|].
        rewrite <- fmap_app, <- app_assoc in Hmore. cbn [app] in Hmore.
        rewrite Hmore, !fmap_app, !concat_app in Hout. cbn [fmap list_fmap concat] in Hout.
        rewrite app_nil_r, !app_assoc in Hout. by eapply len_prefix. }
      wp_step. eapply wp_mono; [by apply (write_uniq_line_spec i)| |done]. intros [] s' HJ'. apply wp_ret.
      eexists. split; [|exact HJ']. exists (closed ++ [(x, n)]). split; [done|]. split; [done|].
      rewrite fmap_app, concat_app. simpl. by rewrite app_nil_r, app_assoc.
  - rewrite (Hn eq_refl) in *. apply wp_ret. eexists. split; [|exact HJ]. by exists [].
Qed.

Lemma uniq_reader_spec fuel f i o s :
  J i o s -> len i <= USIZE_MAX -> (length (split_lines i) < fuel)%nat ->
  len (o ++ concat (run_bytes f <$> runs (line_text_lossy <$> split_lines i))) <= USIZE_MAX ->
  wp (uniq_reader fs dst fuel src f) s
     (fun _ s' => J [] (o ++ concat (run_bytes f <$> runs (line_text_lossy <$> split_lines i))) s')
     (line_failure J F (split_lines i)).
Proof.
  intros HJ Hmax Hf Hout. unfold uniq_reader. wp_step.
  eapply wp_mono; [eapply (each_line_spec fs src dst J F (uniq_inv f o) (line_failure J F (split_lines i)) _ fuel empty_buffer i o s
    (split_lines i) [] None)|..].
  - intros done_ c l i' o' s' HP HJ' _ [rest Hrest].
    eapply wp_mono; [eapply (uniq_step_spec f o done_ c l rest i' o' s' HP HJ')|done|intros e s2; apply failed_line_failure];
      [|by rewrite <- Hrest].
    change U64_MAX with USIZE_MAX. pose proof (length_split_lines i) as Hle. rewrite Hrest, length_app in Hle.
    unfold len in *. simpl in Hle. lia.
  - done.
  - done.
  - apply buffer_ok_empty.
  - exists []. split; [done|]. split; [done|]. simpl. by rewrite app_nil_r.
  - done.
  - done.
  - intros c s' (o' & (closed & Hr & Hn & ->) & HJ'). rewrite Hr. destruct c as [[x n]|]; cbn [write_uniq_run option_list].
    + assert (o ++ concat (run_bytes f <$> (closed ++ [(x, n)]))
        = (o ++ concat (run_bytes f <$> closed)) ++ run_bytes f (x, n)) as Ho.
      { rewrite fmap_app, concat_app, <- app_assoc. f_equal. f_equal. simpl. apply app_nil_r. }
      rewrite Hr in Hout. simpl option_list in Hout. rewrite Ho in Hout. simpl option_list. rewrite Ho.
      eapply wp_mono; [by apply (write_uniq_line_spec [])|done|intros e s2; apply failed_line_failure].
    + apply wp_ret. by rewrite app_nil_r.
  - done.
Qed.

(** ** wc *)

Lemma counts_reader_spec fuel i o s :
  J i o s -> len i <= USIZE_MAX -> (length i < fuel)%nat ->
  wp (counts_reader fs fuel src) s
     (fun c s' => c = mkCounts (newlines i) (word_count i) (len i) /\ J [] o s') (stream_failed J F).
Proof.
  intros HJ Hmax Hf. unfold counts_reader. wp_step.
  eapply wp_mono; [eapply (each_chunk_spec fs src dst J F
    (fun done_ st o' => o' = o
       /\ st = (mkCounts (newlines done_) (new_words false done_) (len done_), in_word_after false done_)) (stream_failed J F) _ fuel
    (64 * 1024) i [] i (no_counts, false) o s)|..].
  - intros done_ st data i' o' s' [-> ->] HJ' _ Hall.
    assert (len done_ + len data <= U64_MAX) as Hfit.
    { change U64_MAX with USIZE_MAX. rewrite Hall, !len_app in Hmax. pose proof (len_nonneg i'). lia. }
    destruct (count_bounds done_ false) as [H1 H2].
    unfold count_chunk. cbn [c_bytes c_lines c_words]. unfold u64_add, checked_add.
    rewrite (proj2 (Z.leb_le _ _) Hfit). cbn [expect obind]. rewrite count_bytes_spec by lia.
    apply wp_lift; [done| |done]. intros a [= <-]. exists o. split; [|done]. split; [done|].
    by rewrite newlines_app, new_words_app, len_app, in_word_after_app.
  - done.
  - done.
  - done.
  - done.
  - done.
  - done.
  - intros [c w] s' (o' & (-> & [= -> ->]) & HJ'). apply wp_ret. by rewrite (proj1 (new_words_count i)).
  - done.
Qed.
(** ** cat *)

Lemma cat_stream_spec fuel flags st st2 out i o s :
  J i o s -> cat_transform i flags st = Ok (st2, out) -> len (o ++ out) <= USIZE_MAX -> (length i < fuel)%nat ->
  wp (cat_stream fs dst fuel src flags st) s
     (fun st' s' => J [] (o ++ out) s' /\ (cat_plain flags = true \/ st' = st2))
     (line_failure J F (if cat_plain flags then [] else split_lines i)).
Proof.
  intros HJ Hout Hmax Hf. unfold cat_stream. destruct (cat_plain flags) eqn:Hp.
  - destruct (cat_transform_plain i flags st Hp) as (st3 & H3 & _). rewrite H3 in Hout. injection Hout as <- <-.
    eapply wp_mono; [eapply (each_chunk_spec fs src dst J F (fun done_ _ o' => o' = o ++ done_)
      (stream_failed J F) _ fuel (64 * 1024) i [] i st o s)|..].
    + intros done_ acc data i' o' s' -> HJ' _ ->. wp_step.
      eapply wp_mono; [eapply (stream_write (src:=src) (J:=J)); [done|]| |done].
      { rewrite !app_assoc in Hmax. rewrite <- app_assoc. rewrite <- !app_assoc in Hmax.
        rewrite !len_app in *. pose proof (len_nonneg i'). lia. }
      intros [] s2 HJ2. apply wp_ret. eexists. split; [|exact HJ2]. by rewrite app_assoc.
    + done.
    + done.
    + done.
    + by rewrite app_nil_r.
    + done.
    + done.
    + intros st' s' (o' & -> & HJ'). split; [done|by left].
    + intros e s'. apply failed_line_failure.
  - rewrite cat_transform_lines in Hout.
    eapply wp_mono; [eapply (each_line_spec fs src dst J F
      (fun done_ acc o' => exists x, cat_lines done_ flags st = Ok (acc, x) /\ o' = o ++ x)
      (line_failure J F (split_lines i)) _ fuel empty_buffer i o s (split_lines i) [] st)|..].
    + intros done_ acc l i' o' s' (x & Hx & ->) HJ' Hsl [rest Hrest].
      assert (line_shape l) as Hl.
      { pose proof (split_lines_shape i) as Hsh. rewrite Hrest in Hsh.
        by apply Forall_app in Hsh as [_ [Hl _]%Forall_cons]. }
      rewrite Hrest in Hout. replace (done_ ++ l :: rest) with (done_ ++ [l] ++ rest) in Hout by done.
      rewrite !cat_lines_app, Hx in Hout. cbn [obind] in Hout. rewrite cat_lines_app in Hout.
      wp_step. rewrite cat_transform_lines, (split_line l Hl).
      destruct (cat_lines [l] flags acc) as [[st1 y]|err| |] eqn:Hy; try done. cbn [obind] in Hout.
      apply wp_lift; [done|intros a [= <-]|done]. cbv iota.
      assert (exists z, out = x ++ y ++ z) as [z ->].
      { destruct (cat_lines rest flags st1) as [[st3 z]|err| |]; try done. injection Hout as _ <-. eauto. }
      wp_step. eapply wp_mono; [eapply (stream_write (src:=src) (J:=J)); [done|]| |intros e s2; apply failed_line_failure].
      { rewrite !len_app in *. pose proof (len_nonneg z). lia. }
      intros [] s2 HJ2. apply wp_ret. eexists. split; [|exact HJ2]. exists (x ++ y).
      rewrite cat_lines_app, Hx. cbn [obind]. rewrite Hy. by rewrite app_assoc.
    + done.
    + done.
    + apply buffer_ok_empty.
    + exists []. by rewrite app_nil_r.
    + done.
    + pose proof (length_split_lines i). simpl. lia.
    + intros st' s' (o' & (x & Hx & ->) & HJ'). rewrite Hx in Hout. injection Hout as -> ->. split; [done|by right].
    + done.
Qed.
End facts.
