(* ===== verification/TextSort.v ===== *)
(** * sort (src/src/sandbox/builtins.rs)

    [sort] reads its whole input under a budget, sorts its lines by text or by the
    number they begin with, and writes them.  [numeric_key] parses that number as
    an [f64]; here it is a value of the Standard Library's [spec_float], rounded to
    nearest by its division, and [total_cmp] compares the bit patterns. *)

From Stdlib Require Import Ascii String.
From Stdlib Require Import SpecFloat.
From stdpp Require Import sorting.
From S2P Require Import Prelude RustStr BTreeMap VfsTypes VfsIface SandboxFs SandboxFsFacts Expansion Redirects Output Utf8 Streams LineReader.
From S2P Require Import TextLines.

#[local] Open Scope Z_scope.

(** ** Numbers *)

(** [char::is_whitespace]. *)
Definition is_whitespace (c : char) : bool :=
  ((9 <=? c) && (c <=? 13) || (c =? 32) || (c =? 133) || (c =? 160) || (c =? 5760)
   || (8192 <=? c) && (c <=? 8202) || (c =? 8232) || (c =? 8233) || (c =? 8239) || (c =? 8287)
   || (c =? 12288))%N.

(** [s.trim_start()]. *)
Fixpoint trim_start (s : str) : str :=
  match s with
  | c :: s' => if is_whitespace c then trim_start s' else s
  | [] => []
  end.

(** The digits [s] begins with, and the rest. *)
Fixpoint take_digits (s : str) : str * str :=
  match s with
  | c :: s' => if is_ascii_digit c then let '(d, r) := take_digits s' in (c :: d, r) else ([], s)
  | [] => ([], [])
  end.

Definition digits_value (s : str) : Z := default 0 (dec_value s 0).

(** [text.parse::<f64>()] on a sign, digits and a fraction: the quotient of two
    integers, correctly rounded. *)
Definition parse_f64 (negative : bool) (whole fraction : str) : spec_float :=
  match digits_value (whole ++ fraction) with
  | Zpos m =>
      SFdiv 53 1024 (S754_finite negative m 0)
        (S754_finite false (Z.to_pos (10 ^ len fraction)) 0)
  | _ => S754_zero negative
  end.

Definition numeric_key (line : str) : spec_float :=
  let trimmed := trim_start line in
  let '(negative, rest) :=
    match trimmed with
    | c :: r => if isc c "-" then (true, r) else if isc c "+" then (false, r) else (false, trimmed)
    | [] => (false, [])
    end in
  let '(whole, rest) := take_digits rest in
  let fraction := match rest with
                  | c :: r => if isc c "." then (take_digits r).1 else []
                  | [] => []
                  end in
  if bool_decide (whole = []) then S754_zero false else parse_f64 negative whole fraction.

(** [f64::to_bits] without the sign. *)
Definition magnitude_bits (f : spec_float) : Z :=
  match f with
  | S754_zero _ => 0
  | S754_finite _ m e => if Z.pos m <? 2 ^ 52 then Z.pos m else (e + 1075) * 2 ^ 52 + (Z.pos m - 2 ^ 52)
  | S754_infinity _ => 2047 * 2 ^ 52
  | S754_nan => 2047 * 2 ^ 52 + 2 ^ 51
  end.
Definition is_negative (f : spec_float) : bool :=
  match f with
  | S754_zero s | S754_finite s _ _ | S754_infinity s => s
  | S754_nan => false
  end.

(** [f64::total_cmp] compares these integers. *)
Definition total_key (f : spec_float) : Z :=
  if is_negative f then -1 - magnitude_bits f else magnitude_bits f.

Example numeric_keys :
  total_key (numeric_key (lit " 0.1x")) = 4591870180066957722
  /\ total_key (numeric_key (lit "-1e5")) = -4607182418800017409
  /\ total_key (numeric_key (lit "9007199254740993")) = 4845873199050653696
  /\ total_key (numeric_key (lit "-0")) = -1.
Proof. vm_compute. done. Qed.

(** ** Lines *)

(** The lines of [text.lines()]. *)
Definition chomp (line : str) : str :=
  match last line with
  | Some c => if isc c NL then strip_suffix (removelast line) (ch CR) else line
  | None => line
  end.
Definition text_lines (text : str) : list str := chomp <$> split_inclusive (fun c => isc c NL) text.

(** [a.cmp(b)] and the comparison of [sort -n]. *)
Definition key (line : str) : Z := total_key (numeric_key line).
Definition numeric_le (a b : str) : Prop := key a < key b \/ (key a = key b /\ str_le a b).

#[global] Instance numeric_le_dec a b : Decision (numeric_le a b).
Proof. unfold numeric_le. apply _. Defined.

(** [lines.dedup_by(same)]: a line is dropped when it is the same as the one kept last. *)
Fixpoint dedup_after (same : str -> str -> bool) (kept : str) (ls : list str) : list str :=
  match ls with
  | [] => []
  | l :: ls => if same l kept then dedup_after same kept ls else l :: dedup_after same l ls
  end.
Definition dedup_by (same : str -> str -> bool) (ls : list str) : list str :=
  match ls with
  | [] => []
  | l :: ls => l :: dedup_after same l ls
  end.

Record SortFlags := mkSortFlags { s_reverse : bool; s_numeric : bool; s_unique : bool }.

Definition set_sort_flag (c : char) (f : SortFlags) : option SortFlags :=
  if isc c "r" then Some (mkSortFlags true (s_numeric f) (s_unique f))
  else if isc c "n" then Some (mkSortFlags (s_reverse f) true (s_unique f))
  else if isc c "u" then Some (mkSortFlags (s_reverse f) (s_numeric f) true)
  else None.

(** The order of the lines in the output.  [sort_unstable_by] on a total order
    that tells different lines apart has one result. *)
Definition sort_lines (f : SortFlags) (lines : list str) : list str :=
  let lines := if s_numeric f then merge_sort numeric_le lines else merge_sort str_le lines in
  let lines :=
    if s_unique f then
      if s_numeric f then dedup_by (fun a b => bool_decide (key a = key b)) lines
      else dedup_by (fun a b => bool_decide (a = b)) lines
    else lines in
  if s_reverse f then reverse lines else lines.

Section sort.
Context {W : Type} (fs : Fs W) (stdout stderr : BoxAsyncWrite).

Abbreviation XM := (ST (XState W) IoError).

Fixpoint read_input_loop (fuel : nat) (src : Source) (input : bytes) (limit : Z) : XM bytes :=
  match fuel with
  | O => slift OutOfFuel
  | S fuel =>
      let! _ := x_check fs in
      let want := Z.min STREAM_CHUNK_BYTES (saturating_add (saturating_sub limit (len input)) 1) in
      let! data := read fs src want in
      if bool_decide (data = []) then sret input
      else if saturating_sub limit (len input) <? len data then sfail (InvalidData (lit "input too large"))
      else read_input_loop fuel src (input ++ data) limit
  end.

(** Every turn but the last adds a byte, and at most [limit] are kept. *)
Definition read_input_bounded (src : Source) (input : bytes) (limit : Z) : XM bytes :=
  read_input_loop (Z.to_nat limit + 2) src input limit.

(** What is reported when an input cannot be read; the exit code. *)
Definition input_failed (cmd file : str) (e : IoError) : XM Z :=
  let! cancelled := x_on_fs (is_cancelled (f_scoped fs) (f_cancelled fs)) in
  if (cancelled : bool) then sret 124
  else
    match e with
    | InvalidData _ =>
        let! _ := say fs stderr (cmd ++ lit ": input too large for tinysandbox " ++ cmd ++ line_end) in sret 2
    | _ => let! _ := report_stream_error fs stderr cmd file e in sret 2
    end.

(** [Err] is an exit code. *)
Fixpoint read_inputs (files : list str) (limit : Z) (cmd : str) (input : bytes) : XM (outcome Z bytes) :=
  match files with
  | [] => sret (Ok input)
  | file :: files =>
      let! r := x_try (with_input fs file (fun src => read_input_bounded src input limit)
                         (fun e => sfail (VfsFailure e))) in
      match r with
      | Ok input => read_inputs files limit cmd input
      | Err e => let! code := input_failed cmd file e in sret (Err code)
      | Panic => slift Panic
      | OutOfFuel => slift OutOfFuel
      end
  end.

(** The loop that writes the lines: 0, or the exit code it ends with. *)
Fixpoint write_lines (index : nat) (lines : list str) : XM Z :=
  match lines with
  | [] => sret 0
  | line :: lines =>
      let! stop := (if bool_decide (index mod 1024 = 0)%nat then x_try (x_check fs) else sret (Ok tt)) in
      match stop with
      | Err _ => sret 124
      | _ =>
          let! r := x_try (let! _ := write_text fs stdout line in write_all fs stdout [NEWLINE]) in
          match r with
          | Ok _ => write_lines (S index) lines
          | Err _ => sret 1
          | Panic => slift Panic
          | OutOfFuel => slift OutOfFuel
          end
      end
  end.

Definition sort (args : list str) : XM Z :=
  match parse_flags set_sort_flag (mkSortFlags false false false) args with
  | Err flag => unsupported_with_code fs stderr (lit "sort") (lit "-" ++ [flag]) 2
  | Ok (flags, files) =>
      let files := if bool_decide (files = []) then [lit "-"] else files in
      let! input := read_inputs files (sort_input_bytes (f_limits fs)) (lit "sort") [] in
      match input with
      | Err code => sret code
      | Ok input =>
          let! stop := x_try (x_check fs) in
          match stop with
          | Err _ => sret 124
          | _ => write_lines 0 (sort_lines flags (text_lines (from_utf8_lossy input)))
          end
      | Panic => slift Panic
      | OutOfFuel => slift OutOfFuel
      end
  | Panic => slift Panic
  | OutOfFuel => slift OutOfFuel
  end.
End sort.

(** ** What sorting means *)

#[global] Instance numeric_le_total : Total numeric_le.
Proof.
  intros a b. unfold numeric_le. destruct (Z.lt_trichotomy (key a) (key b)) as [H|[H|H]]; [naive_solver| |naive_solver].
  destruct (base.total str_le a b); naive_solver.
Qed.

#[global] Instance numeric_le_trans : Transitive numeric_le.
Proof.
  intros a b c. unfold numeric_le. intros [H1|[H1 H1']] [H2|[H2 H2']]; [left; lia..|right].
  split; [lia|by etransitivity].
Qed.

#[global] Instance numeric_le_antisymm : AntiSymm (=) numeric_le.
Proof. intros a b. unfold numeric_le. intros [H1|[H1 H1']] [H2|[H2 H2']]; [lia..|]. by apply (anti_symm str_le). Qed.

(** The order of [sort], and the lines it takes for the same under [-u]. *)
Definition line_order (f : SortFlags) : str -> str -> Prop := if s_numeric f then numeric_le else str_le.
Definition same_line (f : SortFlags) (a b : str) : Prop := if s_numeric f then key a = key b else a = b.

(** [out] is [ls] sorted: in order, nothing lost and nothing added but, under
    [-u], one line for each that is the same. *)
Definition sorted_output (f : SortFlags) (ls out : list str) : Prop :=
  let out := if s_reverse f then reverse out else out in
  StronglySorted (line_order f) out
  /\ if s_unique f then
       (forall l, l ∈ out -> l ∈ ls) /\ (forall l, l ∈ ls -> exists k, k ∈ out /\ same_line f l k)
       /\ StronglySorted (fun a b => ~ same_line f a b) out
     else out ≡ₚ ls.

Lemma StronglySorted_weaken {A} (R S : A -> A -> Prop) l :
  (forall a b, R a b -> S a b) -> StronglySorted R l -> StronglySorted S l.
Proof.
  intros H. induction 1 as [|a l _ IH Ha]; constructor; [done|].
  eapply Forall_impl; [exact Ha|]. intros b. apply H.
Qed.

Section dedup.
Context (R : str -> str -> Prop) (same : str -> str -> bool) (Hsym : forall a b, same a b = same b a)
  (Htr : forall a b c, same a b = true -> same b c = true -> same a c = true)
  (Hrefl : forall a, same a a = true)
  (** Lines that are the same stand together. *)
  (Hmid : forall a b c, R a b -> R b c -> same a c = true -> same a b = true).

Lemma dedup_after_spec kept ls :
  StronglySorted R (kept :: ls) ->
  let out := kept :: dedup_after same kept ls in
  (forall l, l ∈ out -> l ∈ kept :: ls)
  /\ (forall l, l ∈ kept :: ls -> exists k, k ∈ out /\ same l k = true)
  /\ StronglySorted R out /\ StronglySorted (fun a b => same a b = false) out.
Proof.
  revert kept. induction ls as [|l ls IH]; intros kept Hs; cbv zeta; cbn [dedup_after].
  { split; [done|]. split; [intros l ->%list_elem_of_singleton; exists kept; split; [by left|done]|].
    split; repeat constructor. }
  apply StronglySorted_inv in Hs as [Hs [Hkl Hk]%Forall_cons].
  pose proof Hs as [Hs' Hl]%StronglySorted_inv. destruct (same l kept) eqn:Hsame.
  - destruct (IH kept) as (H1 & H2 & H3 & H4); [by constructor|]. split; [|split; [|done]].
    + intros x Hx%H1. apply elem_of_cons in Hx as [->|Hx]; [by left|by do 2 right].
    + intros x Hx. apply elem_of_cons in Hx as [->|[->|Hx]%elem_of_cons].
      * apply H2. by left.
      * destruct (H2 kept) as (k & Hk1 & Hk2); [by left|]. exists k. split; [done|]. by eapply Htr.
      * apply H2. by right.
  - destruct (IH l Hs) as (H1 & H2 & H3 & H4). split; [|split; [|split]].
    + intros x Hx. apply elem_of_cons in Hx as [->|Hx%H1]; [by left|by right].
    + intros x Hx. apply elem_of_cons in Hx as [->|Hx]; [exists kept; split; [by left|done]|].
      destruct (H2 x Hx) as (k & Hk1 & Hk2). exists k. split; [by right|done].
    + constructor; [done|]. apply Forall_forall. intros x Hx%H1.
      apply elem_of_cons in Hx as [->|Hx]; [done|]. rewrite Forall_forall in Hk. by apply Hk.
    + constructor; [done|]. apply Forall_forall. intros x Hx. apply not_true_is_false. intros Hsx.
      apply H1 in Hx. apply elem_of_cons in Hx as [->|Hx]; [by rewrite Hsym, Hsx in Hsame|].
      rewrite Forall_forall in Hl. rewrite Hsym, (Hmid kept l x) in Hsame; [done|done|by apply Hl|done].
Qed.

Lemma dedup_by_spec ls :
  StronglySorted R ls ->
  (forall l, l ∈ dedup_by same ls -> l ∈ ls)
  /\ (forall l, l ∈ ls -> exists k, k ∈ dedup_by same ls /\ same l k = true)
  /\ StronglySorted R (dedup_by same ls) /\ StronglySorted (fun a b => same a b = false) (dedup_by same ls).
Proof.
  destruct ls as [|l ls]; [|apply dedup_after_spec]. intros _. split; [done|].
  split; [intros l Hl; by apply elem_of_nil in Hl|]. split; constructor.
Qed.
End dedup.

Lemma sort_lines_sorted f ls : sorted_output f ls (sort_lines f ls).
Proof.
  assert (forall sorted, StronglySorted (line_order f) sorted -> sorted ≡ₚ ls ->
    let out := if s_unique f then
      if s_numeric f then dedup_by (fun a b => bool_decide (key a = key b)) sorted
      else dedup_by (fun a b => bool_decide (a = b)) sorted else sorted in
    sorted_output f ls (if s_reverse f then reverse out else out)) as H.
  { intros sorted Hs Hp. cbv zeta. unfold sorted_output. set (out := if s_unique f then _ else sorted).
    assert ((if s_reverse f then reverse (if s_reverse f then reverse out else out)
             else if s_reverse f then reverse out else out) = out) as -> by (destruct (s_reverse f); [apply reverse_involutive|done]).
    unfold out, line_order, same_line in *. destruct (s_unique f); [|done].
    destruct (s_numeric f).
    - destruct (dedup_by_spec numeric_le (fun a b => bool_decide (key a = key b))) with (ls := sorted)
        as (H1 & H2 & H3 & H4); [intros; apply bool_decide_ext; done|
          intros a b c Ha%bool_decide_eq_true Hb%bool_decide_eq_true; apply bool_decide_eq_true; congruence
          |intros; by apply bool_decide_eq_true| |done|].
      { unfold numeric_le. intros a b c Hab Hbc Hac%bool_decide_eq_true. apply bool_decide_eq_true. lia. }
      split; [done|]. split; [intros l Hl; rewrite <- Hp; by apply H1|]. split.
      + intros l Hl. rewrite <- Hp in Hl. destruct (H2 l Hl) as (k & Hk & Hk'%bool_decide_eq_true). eauto.
      + eapply StronglySorted_weaken; [|exact H4]. by intros a b Hn%bool_decide_eq_false.
    - destruct (dedup_by_spec str_le (fun a b => bool_decide (a = b))) with (ls := sorted)
        as (H1 & H2 & H3 & H4); [intros; apply bool_decide_ext; done|
          intros a b c Ha%bool_decide_eq_true Hb%bool_decide_eq_true; apply bool_decide_eq_true; congruence
          |intros; by apply bool_decide_eq_true| |done|].
      { intros a b c Hab Hbc Hac%bool_decide_eq_true. subst c. apply bool_decide_eq_true. by apply (anti_symm str_le). }
      split; [done|]. split; [intros l Hl; rewrite <- Hp; by apply H1|]. split.
      + intros l Hl. rewrite <- Hp in Hl. destruct (H2 l Hl) as (k & Hk & Hk'%bool_decide_eq_true). eauto.
      + eapply StronglySorted_weaken; [|exact H4]. by intros a b Hn%bool_decide_eq_false. }
  unfold sort_lines. cbv zeta. apply H.
  - unfold line_order. destruct (s_numeric f); apply (StronglySorted_merge_sort _).
  - destruct (s_numeric f); apply merge_sort_Permutation.
Qed.
