(* ===== verification/FileCmds.v ===== *)
(** * The file commands (src/src/sandbox/builtins.rs)

    Copying and removing trees, as the loops of the source over an explicit stack
    of directory iterators, and the commands [ls], [mkdir], [touch], [cp], [mv],
    [rm], [stat], [pwd], [which], [true] and [false]. *)

From Stdlib Require Import Ascii String.
From S2P Require Import Prelude RustStr VfsTypes VfsIface SandboxFs Streams LineReader TextLines.

(** ** Names *)

Definition basename (path : str) : str :=
  let name := List.last (split (ch "/") (trim_end_char (ch "/") path)) [] in
  if bool_decide (name = []) then lit "/" else name.

(** [path.split('/').filter(|part| !part.is_empty())]. *)
Definition path_parts (path : str) : list str := filter (fun p => p <> []) (split (ch "/") path).

(** The stable sort of [list_dir] by name. *)
Fixpoint insert_entry_by_name (e : str * Metadata) (es : list (str * Metadata)) : list (str * Metadata) :=
  match es with
  | [] => [e]
  | x :: es' =>
      match str_compare e.1 x.1 with
      | Lt | Eq => e :: es
      | Gt => x :: insert_entry_by_name e es'
      end
  end.
Definition sort_entries (es : list (str * Metadata)) : list (str * Metadata) := foldr insert_entry_by_name [] es.

(** ** Trees, through the facade *)

Section trees.
Context {W : Type} (fs : Fs W).

Abbreviation FM := (ST (FsState W) Errno).
Abbreviation stat := (fs_stat (f_vfs fs) (f_bin fs) (f_cwd fs) (f_limits fs) (f_scoped fs) (f_cancelled fs)).
Abbreviation readdir := (fs_readdir (f_vfs fs) (f_bin fs) (f_cwd fs) (f_limits fs) (f_scoped fs) (f_cancelled fs)).
Abbreviation mkdir := (fs_mkdir (f_vfs fs) (f_cwd fs) (f_limits fs) (f_scoped fs) (f_cancelled fs)).
Abbreviation unlink := (fs_unlink (f_vfs fs) (f_cwd fs) (f_limits fs) (f_scoped fs) (f_cancelled fs)).
Abbreviation rmdir := (fs_rmdir (f_vfs fs) (f_cwd fs) (f_limits fs) (f_scoped fs) (f_cancelled fs)).
Abbreviation open :=
  (fs_open (f_vfs fs) (f_bin fs) (f_cwd fs) (f_limits fs) (f_capacity fs) (f_scoped fs) (f_cancelled fs)).
Abbreviation close := (fs_close (f_vfs fs) (f_scoped fs) (f_cancelled fs)).
Abbreviation abort := (fs_abort (f_vfs fs) (f_scoped fs) (f_cancelled fs)).
Abbreviation read_at := (fs_read_at (f_vfs fs) (f_limits fs) (f_scoped fs) (f_cancelled fs)).
Abbreviation write_at := (fs_write_at (f_vfs fs) (f_limits fs) (f_scoped fs) (f_cancelled fs)).
Abbreviation checkpoint := (check (f_scoped fs) (f_cancelled fs)).
Abbreviation resolve := (resolve (f_cwd fs)).

Definition ensure_directory (path : str) : FM unit :=
  let! made := try (mkdir path) in
  match made with
  | Ok _ => sret tt
  | Err e =>
      if bool_decide (e = EEXIST) then
        let! metadata := stat path in
        if is_dir metadata then sret tt else sfail ENOTDIR
      else sfail e
  | Panic => slift Panic
  | OutOfFuel => slift OutOfFuel
  end.

Fixpoint ensure_directories (current : str) (parts : list str) : FM unit :=
  match parts with
  | [] => sret tt
  | part :: parts =>
      let current := current ++ lit "/" ++ part in
      let! _ := ensure_directory current in
      ensure_directories current parts
  end.

Definition mkdir_p (path : str) : FM unit := ensure_directories [] (path_parts (resolve path)).

Definition is_directory (path : str) : FM bool :=
  let! r := try (stat path) in
  match r with
  | Ok metadata => sret (is_dir metadata)
  | Err _ => sret false
  | Panic => slift Panic
  | OutOfFuel => slift OutOfFuel
  end.

Definition destination_for (source dest : str) : FM str :=
  let! directory := is_directory dest in
  sret (if (directory : bool) then join_path dest (basename source) else dest).

(** [while written < n]: what the last read delivered is written out. *)
Fixpoint copy_write_loop (fuel : nat) (dest_handle : FileHandle) (offset : Z) (data : bytes) (written : Z) : FM unit :=
  match fuel with
  | O => slift OutOfFuel
  | S fuel =>
      if written <? len data then
        let! _ := checkpoint in
        let! at_ := slift (u64_add offset written) in
        let! count := write_at dest_handle at_ (drop (Z.to_nat written) data) in
        if (count =? 0) || (len data - written <? count) then sfail EIO
        else copy_write_loop fuel dest_handle offset data (written + count)
      else sret tt
  end.

Fixpoint copy_loop (fuel : nat) (source_handle dest_handle : FileHandle) (offset : Z) (buf : bytes) : FM unit :=
  match fuel with
  | O => slift OutOfFuel
  | S fuel =>
      let! _ := checkpoint in
      let! (buf, n) := read_at source_handle offset buf in
      if n =? 0 then sret tt
      else if len buf <? n then sfail EIO
      else
        let data := take (Z.to_nat n) buf in
        let! _ := copy_write_loop (S (length data)) dest_handle offset data 0 in
        let! offset := slift (ok_or EFBIG (checked_add offset n)) in
        copy_loop fuel source_handle dest_handle offset buf
  end.

(** [result.and(closed)]. *)
Definition and_then (result closed : outcome Errno unit) : outcome Errno unit :=
  match result with Ok _ => closed | r => r end.

Definition copy_file (fuel : nat) (source dest : str) : FM unit :=
  let! source_handle := open source read_only in
  let! opened := try (open dest (with_truncate (with_create write_only))) in
  match opened with
  | Ok dest_handle =>
      let! result := try (copy_loop fuel source_handle dest_handle 0 (replicate (Z.to_nat STREAM_CHUNK_BYTES) 0)) in
      let! closed := try (close source_handle) in
      match and_then result closed with
      | Err e => let! _ := ignore (abort dest_handle) in sfail e
      | Ok _ => close dest_handle
      | Panic => slift Panic
      | OutOfFuel => slift OutOfFuel
      end
  | Err e => let! _ := ignore (close source_handle) in sfail e
  | Panic => slift Panic
  | OutOfFuel => slift OutOfFuel
  end.

(** A frame of [copy_path]: a directory, its copy, and the entries left. *)
Record CopyFrame := mkCopyFrame { cf_source : str; cf_dest : str; cf_entries : list DirEntry }.

(** [fuel] bounds the turns of the loop over the stack, [file_fuel] the reads of
    one file. *)
Fixpoint copy_tree (file_fuel fuel : nat) (stack : list CopyFrame) : FM unit :=
  match fuel with
  | O => slift OutOfFuel
  | S fuel =>
      match stack with
      | [] => sret tt
      | mkCopyFrame source dest entries :: below =>
          let! _ := checkpoint in
          match entries with
          | [] => copy_tree file_fuel fuel below
          | entry :: entries =>
              let stack := mkCopyFrame source dest entries :: below in
              let child_source := join_path source (entry_name entry) in
              let child_dest := join_path dest (entry_name entry) in
              if is_dir (entry_metadata entry) then
                let! _ := ensure_directory child_dest in
                let! entries := readdir child_source in
                copy_tree file_fuel fuel (mkCopyFrame child_source child_dest entries :: stack)
              else
                let! _ := copy_file file_fuel child_source child_dest in
                copy_tree file_fuel fuel stack
          end
      end
  end.

(** Whether the copy would land in what is copied. *)
Definition copies_into_itself (source dest : str) (directory : bool) : bool :=
  bool_decide (source = dest)
  || (directory && (bool_decide (source = lit "/") || starts_with dest (source ++ lit "/"))).

Definition copy_path (file_fuel fuel : nat) (source dest : str) (recursive : bool) : FM unit :=
  let source := resolve source in
  let dest := resolve dest in
  let! metadata := stat source in
  if copies_into_itself source dest (is_dir metadata) then sfail EINVAL
  else if negb (is_dir metadata) then copy_file file_fuel source dest
  else if negb recursive then sfail EISDIR
  else
    let! _ := ensure_directory dest in
    let! entries := readdir source in
    copy_tree file_fuel fuel [mkCopyFrame source dest entries].

(** The loop of [remove_path] over its stack of directories and entries left. *)
Fixpoint remove_loop (fuel : nat) (stack : list (str * list DirEntry)) : FM unit :=
  match fuel with
  | O => slift OutOfFuel
  | S fuel =>
      match stack with
      | [] => sret tt
      | (path, entries) :: below =>
          let! _ := checkpoint in
          match entries with
          | [] => let! _ := rmdir path in remove_loop fuel below
          | entry :: entries =>
              let child := join_path path (entry_name entry) in
              if is_dir (entry_metadata entry) then
                let! children := readdir child in
                remove_loop fuel ((child, children) :: (path, entries) :: below)
              else
                let! _ := unlink child in
                remove_loop fuel ((path, entries) :: below)
          end
      end
  end.

Definition remove_path (fuel : nat) (path : str) (recursive : bool) : FM unit :=
  let! metadata := stat path in
  if negb (is_dir metadata) then unlink path
  else if negb recursive then sfail EISDIR
  else
    let! entries := readdir path in
    remove_loop fuel [(path, entries)].

Definition directory_entry (name : str) : str * Metadata := (name, mkMetadata DirectoryType 0).

Definition list_dir (path : str) (all : bool) : FM (list (str * Metadata)) :=
  let! entries := readdir path in
  let shown := filter (fun e => all || negb (starts_with (entry_name e) (lit ".")) = true) entries in
  let named := (fun e => (entry_name e, entry_metadata e)) <$> shown in
  sret (sort_entries (if all then directory_entry (lit ".") :: directory_entry (lit "..") :: named else named)).
End trees.

(** ** The commands *)

Section commands.
Context {W : Type} (fs : Fs W) (stdout stderr : BoxAsyncWrite).

Abbreviation XM := (ST (XState W) IoError).

Definition write_ls_entry (name : str) (metadata : Metadata) (long : bool) : XM unit :=
  say fs stdout
    (if long then
       (if is_dir metadata then lit "drwxr-xr-x" else lit "-rw-r--r--") ++ lit " 1 0 0 "
       ++ pad_left 6 (Z_to_string (meta_len metadata)) ++ lit " Jan  1 00:00 " ++ name ++ line_end
     else name ++ line_end).

Fixpoint write_ls_entries (entries : list (str * Metadata)) (long : bool) : XM unit :=
  match entries with
  | [] => sret tt
  | (name, metadata) :: entries =>
      let! _ := write_ls_entry name metadata long in write_ls_entries entries long
  end.

(** The loop of [ls]: [index] counts the paths, [exit] is the code so far. *)
Fixpoint ls_paths (paths : list str) (multiple all long : bool) (index : nat) (exit : Z) : XM Z :=
  match paths with
  | [] => sret exit
  | path :: paths =>
      let! found := x_try_fs (fs_stat (f_vfs fs) (f_bin fs) (f_cwd fs) (f_limits fs) (f_scoped fs) (f_cancelled fs) path) in
      let! exit :=
        match found with
        | Ok metadata =>
            if is_dir metadata then
              let! _ :=
                (if multiple then
                   let! _ := (if (0 <? index)%nat then write_ignored fs stdout [NEWLINE] else sret tt) in
                   say fs stdout (path ++ lit ":" ++ line_end)
                 else sret tt) in
              let! listed := x_try_fs (list_dir fs path all) in
              match listed with
              | Ok entries => let! _ := write_ls_entries entries long in sret exit
              | Err e => let! _ := write_vfs_error fs stderr (lit "ls") path e in sret 1
              | Panic => slift Panic
              | OutOfFuel => slift OutOfFuel
              end
            else let! _ := write_ls_entry (basename path) metadata long in sret exit
        | Err e => let! _ := write_vfs_error fs stderr (lit "ls") path e in sret 2
        | Panic => slift Panic
        | OutOfFuel => slift OutOfFuel
        end in
      ls_paths paths multiple all long (S index) exit
  end.

Record LsFlags := mkLsFlags { ls_all : bool; ls_long : bool }.
Definition set_ls_flag (c : char) (f : LsFlags) : option LsFlags :=
  if isc c "a" then Some (mkLsFlags true (ls_long f))
  else if isc c "l" then Some (mkLsFlags (ls_all f) true)
  else None.

Definition ls (args : list str) : XM Z :=
  match parse_flags set_ls_flag (mkLsFlags false false) args with
  | Err flag => unsupported fs stderr (lit "ls") (lit "-" ++ [flag])
  | Ok (flags, paths) =>
      let paths := if bool_decide (paths = []) then [lit "."] else paths in
      ls_paths paths (1 <? length paths)%nat (ls_all flags) (ls_long flags) 0 0
  | Panic => slift Panic
  | OutOfFuel => slift OutOfFuel
  end.

(** [for path in paths { if let Err(err) = op(path) { exit = 1; .. } }]: the
    operation is told to the user by [shown], a failure by the name of [cmd]. *)
Fixpoint for_each_path (cmd : str) (op : str -> ST (FsState W) Errno unit) (paths : list str) (exit : Z) : XM Z :=
  match paths with
  | [] => sret exit
  | path :: paths =>
      let! result := x_try_fs (op path) in
      match result with
      | Ok _ => for_each_path cmd op paths exit
      | Err e => let! _ := write_vfs_error fs stderr cmd path e in for_each_path cmd op paths 1
      | Panic => slift Panic
      | OutOfFuel => slift OutOfFuel
      end
  end.

Definition missing_operand (text : str) : XM Z := let! _ := say fs stderr (text ++ line_end) in sret 1.

Fixpoint parse_mkdir (args : list str) (parents : bool) (paths : list str) : outcome str (bool * list str) :=
  match args with
  | [] => Ok (parents, paths)
  | arg :: args =>
      if bool_decide (arg = lit "-p") then parse_mkdir args true paths
      else if starts_with arg (lit "-") then Err arg
      else parse_mkdir args parents (paths ++ [arg])
  end.

Definition mkdir (args : list str) : XM Z :=
  match parse_mkdir args false [] with
  | Err flag => unsupported fs stderr (lit "mkdir") flag
  | Ok (parents, paths) =>
      if bool_decide (paths = []) then missing_operand (lit "mkdir: missing operand")
      else for_each_path (lit "mkdir")
             (if parents then mkdir_p fs
              else fs_mkdir (f_vfs fs) (f_cwd fs) (f_limits fs) (f_scoped fs) (f_cancelled fs)) paths 0
  | Panic => slift Panic
  | OutOfFuel => slift OutOfFuel
  end.

Definition touch (args : list str) : XM Z :=
  match unsupported_flag args with
  | Some flag => unsupported fs stderr (lit "touch") flag
  | None =>
      if bool_decide (args = []) then missing_operand (lit "touch: missing file operand")
      else for_each_path (lit "touch")
             (SandboxFs.touch (f_vfs fs) (f_bin fs) (f_cwd fs) (f_limits fs) (f_capacity fs) (f_scoped fs)
                (f_cancelled fs)) args 0
  end.

Definition set_recursive (c : char) (recursive : bool) : option bool :=
  if isc c "r" || isc c "R" then Some true else None.

(** [cp] and [mv] once their paths are known: several sources need a directory
    to go to. *)
Definition transfer (cmd : str) (op : str -> str -> ST (FsState W) Errno unit) (paths : list str) : XM Z :=
  match split_last paths with
  | None | Some ([], _) => missing_operand (cmd ++ lit ": missing file operand")
  | Some (sources, dest) =>
      let! directory := (if (1 <? length sources)%nat then x_on_fs (is_directory fs dest) else sret true) in
      if (directory : bool) then
        for_each_path cmd (fun source => let! target := destination_for fs source dest in op source target) sources 0
      else missing_operand (cmd ++ lit ": target '" ++ dest ++ lit "': Not a directory")
  end.

Definition cp (file_fuel fuel : nat) (args : list str) : XM Z :=
  match parse_flags set_recursive false args with
  | Err flag => unsupported fs stderr (lit "cp") (lit "-" ++ [flag])
  | Ok (recursive, paths) =>
      transfer (lit "cp") (fun source target => copy_path fs file_fuel fuel source target recursive) paths
  | Panic => slift Panic
  | OutOfFuel => slift OutOfFuel
  end.

Definition mv (args : list str) : XM Z :=
  match unsupported_flag args with
  | Some flag => unsupported fs stderr (lit "mv") flag
  | None =>
      transfer (lit "mv") (fs_rename (f_vfs fs) (f_cwd fs) (f_limits fs) (f_scoped fs) (f_cancelled fs)) args
  end.

Record RmFlags := mkRmFlags { rm_recursive : bool; rm_force : bool }.
Definition set_rm_flag (c : char) (f : RmFlags) : option RmFlags :=
  if isc c "r" || isc c "R" then Some (mkRmFlags true (rm_force f))
  else if isc c "f" then Some (mkRmFlags (rm_recursive f) true)
  else None.

Fixpoint rm_paths (fuel : nat) (flags : RmFlags) (paths : list str) (exit : Z) : XM Z :=
  match paths with
  | [] => sret exit
  | path :: paths =>
      let! result := x_try_fs (remove_path fs fuel path (rm_recursive flags)) in
      match result with
      | Ok _ => rm_paths fuel flags paths exit
      | Err e =>
          if rm_force flags && bool_decide (e = ENOENT) then rm_paths fuel flags paths exit
          else let! _ := write_vfs_error fs stderr (lit "rm") path e in rm_paths fuel flags paths 1
      | Panic => slift Panic
      | OutOfFuel => slift OutOfFuel
      end
  end.

Definition rm (fuel : nat) (args : list str) : XM Z :=
  match parse_flags set_rm_flag (mkRmFlags false false) args with
  | Err flag => unsupported fs stderr (lit "rm") (lit "-" ++ [flag])
  | Ok (flags, paths) =>
      if bool_decide (paths = []) then
        if rm_force flags then sret 0 else missing_operand (lit "rm: missing operand")
      else rm_paths fuel flags paths 0
  | Panic => slift Panic
  | OutOfFuel => slift OutOfFuel
  end.

Fixpoint stat_paths (paths : list str) (exit : Z) : XM Z :=
  match paths with
  | [] => sret exit
  | path :: paths =>
      let! found := x_try_fs (fs_stat (f_vfs fs) (f_bin fs) (f_cwd fs) (f_limits fs) (f_scoped fs) (f_cancelled fs) path) in
      match found with
      | Ok metadata =>
          let! _ := say fs stdout
            (lit "  File: " ++ path ++ line_end ++ lit "  Size: " ++ Z_to_string (meta_len metadata) ++ line_end
             ++ lit "  Type: " ++ (if is_dir metadata then lit "directory" else lit "regular file") ++ line_end) in
          stat_paths paths exit
      | Err e => let! _ := write_vfs_error fs stderr (lit "stat") path e in stat_paths paths 1
      | Panic => slift Panic
      | OutOfFuel => slift OutOfFuel
      end
  end.

Definition stat (args : list str) : XM Z :=
  if bool_decide (args = []) then missing_operand (lit "stat: missing operand") else stat_paths args 0.

Definition pwd (cwd : str) (args : list str) : XM Z :=
  match unsupported_flag args with
  | Some flag => unsupported fs stderr (lit "pwd") flag
  | None =>
      let! written := x_try (write_text fs stdout (cwd ++ line_end)) in
      match written with
      | Ok _ => sret 0
      | Err _ => sret 1
      | Panic => slift Panic
      | OutOfFuel => slift OutOfFuel
      end
  end.

Definition true_cmd : XM Z := sret 0.
Definition false_cmd : XM Z := sret 1.

Fixpoint which_names (commands names : list str) (exit : Z) : XM Z :=
  match names with
  | [] => sret exit
  | name :: names =>
      if bool_decide (name ∈ commands) then
        let! _ := say fs stdout (lit "/bin/" ++ name ++ line_end) in which_names commands names exit
      else which_names commands names 1
  end.

Definition which (commands args : list str) : XM Z :=
  if bool_decide (args = []) then missing_operand (lit "which: missing operand") else which_names commands args 0.
End commands.
