(* ===== verification/FileFacts.v ===== *)
(** * Files through the facade

    What the operations of the facade do to the files of a filesystem that obeys
    [FileLaws]: opening, reading, writing, closing, and the whole-file operations
    and the copying of files built from them. *)

From Stdlib Require Import Ascii String.
From S2P Require Import Prelude RustStr VfsTypes VfsPath VfsIface MemVfsFiles FileLaws SandboxFs.
From S2P Require Import SandboxFsFacts SandboxFsFrame Streams LineReader TextLines FileCmds.

(** A resolved path resolves to itself, in any directory. *)
Lemma push_part_names parts cs : Forall part_name cs -> foldl push_part parts cs = parts ++ cs.
Proof.
  intros H. revert parts. induction H as [|c cs (H1 & H2 & H3 & _) _ IH]; intros parts; simpl; [by rewrite app_nil_r|].
  unfold push_part at 2. rewrite !bool_decide_false by done. simpl. by rewrite IH, <- app_assoc.
Qed.

Lemma resolve_resolved cwd cwd' path : resolve cwd' (resolve cwd path) = resolve cwd path.
Proof.
  unfold resolve at 2 3. set (p := if starts_with path _ then _ else _).
  destruct (normalize_absolute_parts p) as (cs & -> & Hcs). unfold resolve.
  assert (starts_with (path_of cs) (lit "/") = true) as -> by (apply starts_with_prefix).
  unfold normalize_absolute. rewrite split_path_of by done.
  assert (foldl push_part [] ([] :: (if decide (cs = []) then [[]] else cs)) = cs) as ->.
  { simpl. case_decide as Hc; [by subst|]. by rewrite push_part_names. }
  unfold path_of. case_bool_decide as H; [by rewrite H|done].
Qed.

Lemma reserve_frame_wp {W} (limits : Limits) cap scoped cancelled_at (s : FsState W) :
  wp (reserve limits cap scoped cancelled_at) s
     (fun _ s' => fs_files s' = fs_files s /\ fs_world s' = fs_world s)
     (fun _ s' => fs_files s' = fs_files s /\ fs_world s' = fs_world s).
Proof.
  pose proof (reserve_frame limits cap scoped cancelled_at s) as H.
  pose proof (reserve_world limits cap scoped cancelled_at s) as Hw. unfold wp in *.
  by destruct (reserve limits cap scoped cancelled_at s) as [[] s'].
Qed.

Section facade.
Context {W F : Type} `{EqDecision F}.
Context (named : W -> str -> F -> Prop) (linked : W -> FileHandle -> F -> Access -> Prop)
  (content : W -> F -> option bytes).
Context (J Room : W -> Prop) (v : Vfs W) `{Hv : !FileLaws named linked content J Room v}.
Context (bin_commands : list str) (cwd : str) (limits : Limits) (cap : Z) (scoped : bool)
  (cancelled_at : nat -> bool).

Abbreviation same := (same_files named linked content).
Abbreviation opens := (opened named linked content).
Abbreviation writes := (wrote named linked content).
Abbreviation closes := (closed named linked content).
Abbreviation spared := (spares named linked content).
Abbreviation open := (fs_open v bin_commands cwd limits cap scoped cancelled_at).
Abbreviation stat := (fs_stat v bin_commands cwd limits scoped cancelled_at).
Abbreviation read_at := (fs_read_at v limits scoped cancelled_at).
Abbreviation write_at := (fs_write_at v limits scoped cancelled_at).
Abbreviation cancelled := (cancelled_seen scoped cancelled_at).

Implicit Types (s : FsState W).

(** Only the clock, and the world within the same files, moved. *)
Definition quiet s s' : Prop := J (fs_world s') /\ same (fs_world s) (fs_world s') /\ fs_files s' = fs_files s.

Lemma ticked_quiet s s' : J (fs_world s) -> ticked s s' -> quiet s s'.
Proof. intros HJ (Hw & Hf & _). unfold quiet. rewrite Hw. split; [done|]. by split. Qed.

Lemma quiet_trans s1 s2 s3 : quiet s1 s2 -> quiet s2 s3 -> quiet s1 s3.
Proof. intros (_ & S1 & F1) (J2 & S2 & F2). split; [done|]. split; [by transitivity (fs_world s2)|congruence]. Qed.

Lemma ticked_trans s1 s2 s3 : ticked s1 s2 -> ticked s2 s3 -> ticked s1 s3.
Proof. intros (? & ? & ? & ?) (? & ? & ? & ?). repeat split; congruence. Qed.

(** A call the facade passes on, once it let it through. *)
Lemma wp_dispatch_path {A} path (op : ST (FsState W) Errno A) s (Q : A -> FsState W -> Prop) (R : Errno -> FsState W -> Prop) :
  (forall s', ticked s s' -> wp op s' Q R) -> (forall e s', ticked s s' -> R e s') ->
  wp (dispatch_path v limits scoped cancelled_at path op) s Q R.
Proof.
  intros Hop HR. unfold dispatch_path. wp_step. apply wp_check_path; [|done]. intros s1 H1 _ _.
  apply wp_dispatch; [intros s2 H2; apply Hop|intros _ s2 H2 _; apply HR]; by eapply ticked_trans.
Qed.

Lemma f_stat path s :
  J (fs_world s) -> is_bin_path (resolve cwd path) = false ->
  wp (stat path) s
    (fun m s' => quiet s s' /\ forall f, named (fs_world s) (resolve cwd path) f -> is_dir m = false)
    (fun _ s' => quiet s s').
Proof.
  intros HJ Hbin. unfold fs_stat. cbv zeta. wp_step.
  apply wp_check_path; [|by intros e s' Ht; apply ticked_quiet]. intros s1 H1 _ _.
  assert (bin_stat bin_commands (resolve cwd path) = None) as ->.
  { unfold is_bin_path in Hbin. apply orb_false_iff in Hbin as [Hb1 Hb2]. unfold bin_stat, strip_prefix.
    by rewrite Hb1, Hb2. }
  apply wp_dispatch_path.
  2: { intros e s' Ht. apply ticked_quiet; [done|by eapply ticked_trans]. }
  intros s2 H2. pose proof (ticked_trans _ _ _ H1 H2) as (Hw & Hf & _).
  apply wp_on_world. rewrite Hw. eapply wp_mono; [by apply fl_stat| |].
  - intros m w' (HJ' & Hs & Hm). by split.
  - intros e w' (HJ' & Hs). by split.
Qed.

(** ** Opening and closing *)

(** A refused open changed nothing, or the file was opened and, the execution
    being cancelled by then, closed again. *)
Definition open_failed (path : str) (mode : OpenMode) (w w' : W) : Prop :=
  same w w' \/ exists w1 h f, J w1 /\ opens path mode h f w w1 /\ closes h w1 w'.

Lemma open_failed_spares path mode w w' : J w -> open_failed path mode w w' -> spared path w w'.
Proof.
  intros HJ [Hs|(w1 & h & f & HJ1 & Ho & Hc)]; [by apply same_spares|].
  eapply spares_closed; [exact (opened_spares _ _ _ _ _ _ HJ HJ1 Ho)|exact Hc|apply (op_fresh Ho)].
Qed.

Lemma open_failed_found path mode w w' f p :
  J w -> m_truncate mode = false -> named w path f -> open_failed path mode w w' -> spared p w w'.
Proof.
  intros HJ Hm Hn [Hs|(w1 & h & g & HJ1 & Ho & Hc)]; [by apply same_spares|].
  eapply spares_closed; [exact (found_spares _ _ _ _ _ _ _ p HJ HJ1 Hm Ho Hn)|exact Hc|apply (op_fresh Ho)].
Qed.

Lemma open_admitted_opens path mode s :
  J (fs_world s) -> Room (fs_world s) ->
  wp (open_admitted v limits cap scoped cancelled_at path mode) s
    (fun h s' => h ∈ fs_files s' /\ fs_files s ⊆ fs_files s' /\ J (fs_world s')
                 /\ exists f, opens path mode h f (fs_world s) (fs_world s'))
    (fun _ s' => J (fs_world s') /\ open_failed path mode (fs_world s) (fs_world s')).
Proof.
  intros HJ HR. unfold open_admitted. wp_step.
  eapply wp_mono; [apply reserve_frame_wp| |]. 2: { intros e s' [_ Hw]. rewrite Hw. split; [done|left; reflexivity]. }
  intros [] s1 [Hf Hw]. wp_step. apply wp_try, wp_on_world. rewrite Hw.
  eapply wp_mono; [by apply fl_open|..].
  - intros h w' [HJ' [f Ho]]. wp_steps. apply wp_is_cancelled. intros b s2 (Hw2 & Hf2 & _). simpl in Hw2, Hf2.
    destruct b.
    2: { wp_steps. rewrite Hf2, Hf, Hw2. split; [set_solver|]. split; [set_solver|]. split; [done|]. by exists f. }
    wp_steps. unfold remove_file. wp_steps.
    2: { exfalso. set_solver. }
    apply wp_finally. wp_step. apply wp_ignore, wp_on_world. simpl. rewrite Hw2.
    eapply wp_mono; [apply (fl_abort _ h f (access_of mode) HJ'); by eapply opened_linked| |done].
    intros [] w3 [HJ3 Hc]. wp_steps. eapply wp_mono; [apply release_world|intros [] s4 ->|done]. split; [done|].
    right. by exists w', h, f.
  - intros e w' [HJ' Hs]. wp_step. eapply wp_mono; [apply release_world|intros [] s3 Hs3|done]. wp_steps. rewrite Hs3.
    simpl. split; [done|]. by left.
Qed.
Lemma f_open path mode s :
  J (fs_world s) -> Room (fs_world s) ->
  wp (open path mode) s
    (fun h s' => h ∈ fs_files s' /\ fs_files s ⊆ fs_files s' /\ J (fs_world s')
                 /\ exists f, opens (resolve cwd path) mode h f (fs_world s) (fs_world s'))
    (fun _ s' => J (fs_world s') /\ open_failed (resolve cwd path) mode (fs_world s) (fs_world s')).
Proof.
  intros HJ HR. unfold fs_open. cbv zeta. wp_step.
  assert (forall s', ticked s s' -> J (fs_world s') /\ open_failed (resolve cwd path) mode (fs_world s) (fs_world s')) as Hno.
  { intros s' (-> & _). split; [done|left; reflexivity]. }
  apply wp_check_path; [|auto]. intros s1 H1 _ _. wp_step; [by apply Hno|].
  apply wp_dispatch_path; [|intros e s' Ht; apply Hno; by eapply ticked_trans].
  intros s2 H2. pose proof (ticked_trans _ _ _ H1 H2) as (Hw & Hf & _). rewrite <- Hw, <- Hf.
  apply open_admitted_opens; by rewrite Hw.
Qed.

Lemma wp_dispatch_handle {A} h cleanup (op : ST (FsState W) Errno A) s (Q : A -> FsState W -> Prop) R :
  (forall s', ticked s s' -> wp op s' Q R) -> (cleanup = false -> forall s', ticked s s' -> cancelled -> R EIO s') ->
  wp (dispatch_handle v scoped cancelled_at h cleanup op) s Q R.
Proof. intros Hop HR. unfold dispatch_handle. do 2 wp_step. by apply wp_dispatch. Qed.

(** The scope that ends a handle of the backend and then gives back its admission. *)
Lemma f_end_handle (b : bool) h f a s s2 :
  J (fs_world s) -> linked (fs_world s) h f a -> fs_world s2 = fs_world s ->
  wp (if b then on_world (v_abort v h) else on_world (v_close v h)) s2
    (fun _ s' => wp (release scoped) s' (fun _ s'' => J (fs_world s'') /\ closes h (fs_world s) (fs_world s'')) (fun _ _ => False))
    (fun _ s' => wp (release scoped) s' (fun _ _ => False) (fun _ _ => False)).
Proof.
  intros HJ Hl Hw2.
  assert (forall m : ST W Errno unit, wp m (fs_world s) (fun _ w' => J w' /\ closes h (fs_world s) w') (fun _ _ => False) ->
    wp (on_world m) s2 (fun _ s' => wp (release scoped) s' (fun _ s'' => J (fs_world s'') /\ closes h (fs_world s) (fs_world s'')) (fun _ _ => False))
      (fun _ s' => wp (release scoped) s' (fun _ _ => False) (fun _ _ => False))) as Hm.
  { intros m Hm. apply wp_on_world. rewrite Hw2. eapply wp_mono; [exact Hm| |done]. intros [] w' [HJ' Hc].
    eapply wp_mono; [apply release_world|by intros [] s4 ->|done]. }
  destruct b; apply Hm; [by apply (fl_abort _ h f a)|by apply (fl_close _ h f a)].
Qed.

(** A handle that is held and linked is closed, or aborted, without fail. *)
Lemma f_finish h abort f a s :
  J (fs_world s) -> h ∈ fs_files s -> linked (fs_world s) h f a ->
  wp (finish v scoped cancelled_at h abort) s
    (fun _ s' => (J (fs_world s') /\ closes h (fs_world s) (fs_world s')) /\ fs_files s' = fs_files s ∖ {[h]})
    (fun _ _ => False).
Proof.
  intros HJ Hh Hl.
  assert (wp (finish v scoped cancelled_at h abort) s
    (fun _ s' => J (fs_world s') /\ closes h (fs_world s) (fs_world s')) (fun _ _ => False)) as H.
  { apply wp_dispatch_handle; [|done]. intros s1 (Hw1 & Hf1 & _). unfold remove_file. wp_steps.
    2: { by rewrite <- Hf1 in Hh. }
    apply wp_finally. wp_step. destruct abort; [wp_step; by apply (f_end_handle true h f a)|].
    apply wp_is_cancelled. intros b s3 (Hw3 & _). apply (f_end_handle b h f a); [done|done|by rewrite Hw3]. }
  unfold wp in *. pose proof (finish_files v scoped cancelled_at h abort s) as Hf.
  by destruct (finish v scoped cancelled_at h abort s) as [[a'|e| |] s'].
Qed.

Lemma f_abandon_gone h s : h ∉ fs_files s -> abandon v scoped h s = (Ok tt, s).
Proof. intros Hh. unfold abandon, sbind. simpl. by rewrite decide_False. Qed.

Lemma f_abandon h f a s :
  J (fs_world s) -> h ∈ fs_files s -> linked (fs_world s) h f a ->
  wp (abandon v scoped h) s (fun _ s' => J (fs_world s') /\ closes h (fs_world s) (fs_world s')) (fun _ _ => False).
Proof.
  intros HJ Hh Hl. unfold abandon. wp_steps; [|done]. unfold cleanup_handle. wp_step. apply wp_ignore, wp_on_world.
  eapply wp_mono; [apply (fl_abort _ h f a HJ Hl)| |done]. intros [] w' [HJ' Hc].
  unfold pool_release_file, control_release_file. wp_steps; done.
Qed.

(** ** Reading and writing *)

Lemma f_read_at h f a d offset buf s :
  J (fs_world s) -> linked (fs_world s) h f a -> a_read a = true -> content (fs_world s) f = Some d ->
  0 <= offset <= USIZE_MAX -> len buf <= STREAM_CHUNK_BYTES ->
  wp (read_at h offset buf) s
    (fun r s' => r = ((read_result d offset buf).2, (read_result d offset buf).1) /\ quiet s s')
    (fun e s' => (e = EIO /\ cancelled) /\ quiet s s').
Proof.
  intros HJ Hl Ha Hd Ho Hb. unfold fs_read_at, max_io_bytes. destruct (_ <? len buf) eqn:Hlt; unbool; [lia|].
  apply wp_dispatch_handle; [|intros _ s' Ht Hc; split; [done|by apply ticked_quiet]]. intros s1 (Hw & Hf & _).
  wp_step. apply wp_on_world. rewrite Hw.
  eapply wp_mono; [apply (fl_read_at _ h f a d offset buf HJ Hl Ha Hd Ho)| |done]. intros [n b] w' ([= -> ->] & HJ' & Hs).
  unfold read_result. set (got := take _ _).
  assert (len (got ++ drop (length got) buf) = len buf /\ len got <= len buf) as [Hl1 Hl2].
  { unfold len, got. rewrite length_app, length_drop, length_take. lia. }
  wp_step; [rewrite Hl1 in *; lia|]. wp_steps. by split.
Qed.

Lemma f_write_at h f a d offset new s :
  J (fs_world s) -> linked (fs_world s) h f a -> a_write a = true -> content (fs_world s) f = Some d ->
  wp (write_at h offset new) s
    (fun n s' => n = len new /\ J (fs_world s') /\ writes f (write_result d a offset new) (fs_world s) (fs_world s')
                 /\ fs_files s' = fs_files s)
    (fun _ s' => quiet s s').
Proof.
  intros HJ Hl Ha Hd. unfold fs_write_at. wp_step; [by apply ticked_quiet|].
  apply wp_dispatch_handle; [|intros _ s' Ht _; by apply ticked_quiet]. intros s1 (Hw & Hf & _).
  wp_step. apply wp_on_world. rewrite Hw.
  eapply wp_mono; [apply (fl_write_at _ h f a d offset new HJ Hl Ha Hd)| |].
  - intros n w' (-> & HJ' & Hs). wp_step; [lia|]. by wp_steps.
  - intros e w' (HJ' & Hs). by split.
Qed.

Lemma written_append d new : written d (len d) new = d ++ new.
Proof.
  rewrite written_eq by (unfold len; lia). unfold len. rewrite Nat2Z.id, firstn_all, Z.sub_diag. simpl.
  rewrite app_nil_r, drop_ge, app_nil_r; [done|lia].
Qed.

(** Writing at the end of what was written, through either kind of handle. *)
Lemma write_result_end d a offset new :
  a_append a = true \/ offset = len d -> write_result d a offset new = d ++ new.
Proof.
  intros H. unfold write_result. case_bool_decide as Hn; [by subst; rewrite app_nil_r|].
  destruct (a_append a) eqn:Ha; [apply written_append|]. destruct H as [?| ->]; [done|apply written_append].
Qed.

(** The file [f] of [s0] holds [c] now; nothing else changed. *)
Definition now_holds (s0 : FsState W) (f : F) (c : bytes) s : Prop :=
  J (fs_world s) /\ writes f c (fs_world s0) (fs_world s) /\ fs_files s = fs_files s0.

Lemma now_holds_quiet s0 f c s s' : now_holds s0 f c s -> quiet s s' -> now_holds s0 f c s'.
Proof.
  intros (HJ & Hw & Hf) (HJ' & Hs & Hf'). split; [done|]. split; [by eapply wrote_same|congruence].
Qed.

Lemma now_holds_write s0 f c c' s s' :
  now_holds s0 f c s -> J (fs_world s') -> writes f c' (fs_world s) (fs_world s') -> fs_files s' = fs_files s ->
  now_holds s0 f c' s'.
Proof. intros (HJ & Hw & Hf) HJ' Hw' Hf'. split; [done|]. split; [by eapply wrote_wrote|congruence]. Qed.

Lemma now_holds_linked s0 f c s h g a : now_holds s0 f c s -> linked (fs_world s0) h g a -> linked (fs_world s) h g a.
Proof. intros (_ & Hw & _) Hl. by apply (wrote_linked Hw). Qed.

Lemma write_chunk_spec data (k : nat) :
  (k <= length data)%nat -> len data <= USIZE_MAX -> exists m : nat,
    write_chunk data (Z.of_nat k) = take m (drop k data) /\ len (write_chunk data (Z.of_nat k)) = Z.of_nat m
    /\ (k + m <= length data)%nat /\ ((k < length data)%nat -> (0 < m)%nat) /\ Z.of_nat m <= STREAM_CHUNK_BYTES.
Proof.
  intros Hk HU. unfold write_chunk. rewrite Nat2Z.id.
  exists (Z.to_nat (Z.min (len data) (saturating_add (Z.of_nat k) STREAM_CHUNK_BYTES) - Z.of_nat k)).
  unfold len, saturating_add, STREAM_CHUNK_BYTES in *. rewrite length_take, length_drop.
  split; [done|]. split; [lia|]. split; [lia|]. split; lia.
Qed.

Lemma write_loop_writes fuel h f a base data k s0 s :
  linked (fs_world s0) h f a -> a_write a = true -> (a_append a = true \/ base = []) -> len data <= USIZE_MAX ->
  (k <= length data)%nat -> (length data - k < fuel)%nat -> now_holds s0 f (base ++ take k data) s ->
  wp (write_loop v limits scoped cancelled_at fuel h data (Z.of_nat k)) s
    (fun _ s' => now_holds s0 f (base ++ data) s') (fun _ s' => exists c, now_holds s0 f c s').
Proof.
  intros Hl Ha Hbase HU. revert k s. induction fuel as [|fuel IH]; intros k s Hk Hf Hs; [lia|]. cbn [write_loop].
  wp_step.
  2: { unfold len in *. assert (length data = k) as <- by lia. rewrite take_ge in Hs by done. by wp_steps. }
  wp_step. apply wp_check.
  2: { intros s' Ht _. eexists. eapply now_holds_quiet; [done|]. apply ticked_quiet; [apply Hs|done]. }
  intros s1 Ht. pose proof (now_holds_quiet _ _ _ _ _ Hs (ticked_quiet _ _ (proj1 Hs) Ht)) as Hs1. wp_step.
  destruct (write_chunk_spec data k Hk HU) as (m & Hc & Hlc & Hm & Hpos & _).
  assert (content (fs_world s1) f = Some (base ++ take k data)) as Hcont by (apply (wrote_content (proj1 (proj2 Hs1)))).
  eapply wp_mono; [apply (f_write_at h f a (base ++ take k data) (Z.of_nat k) (write_chunk data (Z.of_nat k)) s1);
                   [apply Hs1|by eapply now_holds_linked|done|exact Hcont]|..].
  - intros n s2 (-> & HJ2 & Hw & Hf2). rewrite Hlc. wp_step; [exfalso; unfold len in *; lia|].
    rewrite write_result_end in Hw.
    2: { destruct Hbase as [?| ->]; [by left|right]. unfold len. simpl. rewrite length_take. lia. }
    rewrite <- Nat2Z.inj_add. apply IH; [lia|lia|]. eapply now_holds_write; [exact Hs1|done| |done].
    rewrite Hc in Hw. by rewrite <- app_assoc, take_extend in Hw.
  - intros e s2 Hq. eexists. by eapply now_holds_quiet.
Qed.

(** ** Writing a whole file *)

(** What the file at [path] held, nothing if there was none. *)
Definition held (w : W) (path : str) (d : bytes) : Prop :=
  (exists f, named w path f /\ content w f = Some d) \/ ((forall f, ~ named w path f) /\ d = []).

(** The file at [path] holds [d], and nothing else changed. *)
Definition file_set (w : W) (path : str) (d : bytes) (w' : W) : Prop :=
  spared path w w' /\ exists f, named w' path f /\ content w' f = Some d.

Lemma opened_held path mode h f w w' :
  J w -> opens path mode h f w w' -> exists d, held w path d /\ content w' f = Some (if m_truncate mode then [] else d).
Proof.
  intros HJ Ho. destruct (op_content Ho) as [(Hp & _ & Hc)|(HN & _ & Hc)].
  - destruct (fl_live w f HJ) as [d Hd]; [left; eauto|]. exists d. split; [left; eauto|]. rewrite Hc.
    by destruct (m_truncate mode).
  - exists []. split; [by right|]. rewrite Hc. by destruct (m_truncate mode).
Qed.

(** A visit: opened, written, closed. *)
Lemma visited path mode h f c w w1 w2 w3 :
  J w -> J w1 -> opens path mode h f w w1 -> writes f c w1 w2 -> closes h w2 w3 -> file_set w path c w3.
Proof.
  intros HJ HJ1 Ho Hw Hc. pose proof (op_named Ho) as Hn. split.
  - eapply spares_closed; [|exact Hc|apply (op_fresh Ho)].
    eapply spares_wrote; [exact (opened_spares _ _ _ _ _ _ HJ HJ1 Ho)|exact Hn|exact Hw].
  - exists f. assert (named w3 path f) as Hn3 by (apply (closed_named Hc); by apply (wrote_named Hw)).
    split; [done|]. rewrite (closed_content Hc); [apply (wrote_content Hw)|]. left. eauto.
Qed.

(** The end of the scope of a handle. *)
Lemma f_finish_scope h abort f a s :
  J (fs_world s) -> h ∈ fs_files s -> linked (fs_world s) h f a ->
  wp (finish v scoped cancelled_at h abort) s
    (fun _ s' => (J (fs_world s') /\ closes h (fs_world s) (fs_world s')) /\ h ∉ fs_files s') (fun _ _ => False).
Proof.
  intros HJ Hh Hl. eapply wp_mono; [by apply (f_finish h abort f a)| |done]. intros [] s' [H ->]. split; [done|]. set_solver.
Qed.

Lemma wp_abandon_gone h s (Q : unit -> FsState W -> Prop) (R : Errno -> FsState W -> Prop) :
  h ∉ fs_files s -> Q tt s -> wp (abandon v scoped h) s Q R.
Proof. intros Hh HQ. unfold wp. by rewrite f_abandon_gone. Qed.

Lemma f_write_file path data append s :
  J (fs_world s) -> Room (fs_world s) -> len data <= USIZE_MAX ->
  wp (write_file v bin_commands cwd limits cap scoped cancelled_at path data append) s
    (fun _ s' => J (fs_world s') /\ exists d, held (fs_world s) (resolve cwd path) d
       /\ file_set (fs_world s) (resolve cwd path) ((if append then d else []) ++ data) (fs_world s'))
    (fun _ s' => J (fs_world s') /\ spared (resolve cwd path) (fs_world s) (fs_world s')).
Proof.
  intros HJ HR HU. unfold write_file. wp_step; [split; [done|reflexivity]|]. cbv zeta. wp_step.
  eapply wp_mono; [by apply f_open| |intros e s1 [HJ1 Hf]; split; [done|by eapply open_failed_spares]]. intros h s1 (Hh & _ & HJ1 & f & Ho).
  destruct (opened_held _ _ _ _ _ _ HJ Ho) as (d & Hd & Hc1).
  set (mode := if append then _ else _) in *. pose proof (opened_linked _ _ _ _ _ _ Ho) as Hl.
  assert ((if m_truncate mode then [] else d) = (if append then d else [])) as Hbase by (by destruct append).
  rewrite Hbase in Hc1. set (base := if append then d else []) in *.
  apply wp_finally. wp_step. apply wp_try.
  change 0 with (Z.of_nat 0) at 1.
  eapply wp_mono; [apply (write_loop_writes (length data + 1) h f (access_of mode) base data 0 s1 s1);
    [done|by destruct append|destruct append; [by left|by right]|done|lia|lia|]|..].
  - rewrite take_0, app_nil_r. split; [done|]. split; [by apply wrote_start|done].
  - intros [] s2 (HJ2 & Hw & Hf2). unfold fs_close.
    eapply wp_mono; [apply (f_finish_scope h false f (access_of mode) s2 HJ2); [by rewrite Hf2|by apply (wrote_linked Hw)]| |done].
    intros [] s3 [[HJ3 Hcl] Hgone]. apply wp_abandon_gone; [done|]. split; [done|]. exists d. split; [done|].
    exact (visited _ _ _ _ _ _ _ _ _ HJ HJ1 Ho Hw Hcl).
  - intros e s2 (c & HJ2 & Hw & Hf2). wp_step. apply wp_ignore. unfold fs_abort.
    eapply wp_mono; [apply (f_finish_scope h true f (access_of mode) s2 HJ2); [by rewrite Hf2|by apply (wrote_linked Hw)]| |done].
    intros [] s3 [[HJ3 Hcl] Hgone]. wp_steps. apply wp_abandon_gone; [done|]. split; [done|].
    apply (visited _ _ _ _ _ _ _ _ _ HJ HJ1 Ho Hw Hcl).
Qed.

(** ** Reading a whole file *)

(** Nothing that has a name or a handle is different. *)
Definition untouched (w w' : W) : Prop :=
  (forall q i, named w' q i <-> named w q i) /\ (forall h i a, linked w' h i a <-> linked w h i a)
  /\ (forall i, live named linked w i -> content w' i = content w i).

Lemma untouched_spares w w' p : untouched w w' -> spared p w w'.
Proof.
  intros (HN & HL & HC). constructor; [by intros; apply HN|by intros; apply HL|by intros g _; rewrite HN|auto].
Qed.

Lemma f_read_file path f d s :
  J (fs_world s) -> Room (fs_world s) -> is_bin_path (resolve cwd path) = false -> 0 <= host_input_bytes limits <= USIZE_MAX ->
  named (fs_world s) (resolve cwd path) f -> content (fs_world s) f = Some d ->
  wp (read_file v bin_commands cwd limits cap scoped cancelled_at path) s
    (fun out s' => out = d /\ J (fs_world s') /\ untouched (fs_world s) (fs_world s'))
    (fun _ s' => J (fs_world s') /\ spared (resolve cwd path) (fs_world s) (fs_world s')).
Proof.
  intros HJ HR Hbin Hlim Hn Hd. pose proof (fl_len _ _ _ HJ Hd) as HdU. unfold read_file, read_file_bounded. cbv zeta. wp_step.
  apply wp_check_path; [|intros e s' (-> & _); split; [done|reflexivity]]. intros s1 (Hw1 & _) _ _.
  unfold is_bin_path in Hbin. apply orb_false_iff in Hbin as [Hb1 Hb2]. rewrite Hb1. unfold strip_prefix. rewrite Hb2.
  rewrite Z.min_id. wp_step. rewrite <- Hw1 in *.
  eapply wp_mono; [by apply f_open| |intros e s' [HJ' Hf]; rewrite resolve_resolved in Hf; split; [done|by eapply open_failed_spares]].
  intros h s2 (Hh & _ & HJ2 & g & Ho). rewrite resolve_resolved in Ho.
  destruct (found_unchanged _ read_only _ _ f _ _ HJ HJ2 eq_refl Ho Hn) as (-> & HN2 & HC2).
  pose proof (opened_linked _ _ _ _ _ _ Ho) as Hl.
  apply wp_finally. wp_step. apply wp_try.
  set (P := fun w => J w /\ same (fs_world s2) w).
  assert (reads_as v P h d) as Hreads.
  { intros w offset buf [HJw Hs] Ho'. eapply wp_mono; [apply (fl_read_at w h f (access_of read_only) d offset buf);
      [done|by apply (same_linked Hs)|done|by rewrite (same_content Hs), HC2|done]| |done].
    intros r w' (-> & HJ' & Hs'). split; [done|]. split; [done|]. by transitivity w. }
  assert (P (fs_world s2)) as HP2 by (split; [done|reflexivity]).
  assert (forall s3, reading P s2 s3 -> wp (fs_close v scoped cancelled_at h) s3
    (fun _ s' => (J (fs_world s') /\ untouched (fs_world s1) (fs_world s')) /\ h ∉ fs_files s') (fun _ _ => False)) as Hclose.
  { intros s3 ([HJ3 Hs3] & Hf3 & _). eapply wp_mono; [apply (f_finish_scope h false f (access_of read_only) s3 HJ3);
      [by rewrite Hf3|by apply (same_linked Hs3)]| |done].
    intros [] s4 [[HJ4 Hc] Hgone]. split; [|done]. split; [done|].
    exact (visit_same _ read_only _ _ _ _ _ _ _ HJ HJ2 eq_refl Ho Hn Hs3 Hc). }
  replace ([] : bytes) with (take 0 d) by apply take_0.
  eapply wp_mono; [apply (read_loop_spec v limits scoped cancelled_at P _ h d (host_input_bytes limits) 0 s2);
    [done|done|done|exact HP2|lia|lia|lia]|..].
  - intros out s3 (-> & _ & Hs3). wp_step. apply wp_try.
    eapply wp_mono; [by apply Hclose| |done]. intros [] s4 [[HJ4 Hun] Hgone]. wp_steps. by apply wp_abandon_gone.
  - intros e s3 (_ & Hs3). wp_step. apply wp_try.
    eapply wp_mono; [by apply Hclose| |done]. intros [] s4 [[HJ4 Hun] Hgone]. wp_steps. apply wp_abandon_gone; [done|].
    split; [done|]. by apply untouched_spares.
Qed.
End facade.

(** ** Copying a file (src/src/sandbox/builtins.rs)

    [copy_file] over a filesystem that obeys [FileLaws]: the loop ends with the
    whole source in the destination, and nothing else is touched. *)

Section copy.
Context {W F : Type} `{EqDecision F}.
Context (named : W -> str -> F -> Prop) (linked : W -> FileHandle -> F -> Access -> Prop)
  (content : W -> F -> option bytes).
Context (fs : Fs W) (J Room : W -> Prop) `{Hv : !FileLaws named linked content J Room (f_vfs fs)}.

Abbreviation spared := (spares named linked content).
Abbreviation opens := (opened named linked content).
Abbreviation writes := (wrote named linked content).
Abbreviation closes := (closed named linked content).
Abbreviation now_holds := (now_holds named linked content J).
Abbreviation quiet := (quiet named linked content J).

Implicit Types (s : FsState W).

Lemma copy_write_loop_writes fuel h f a base data k s0 s :
  linked (fs_world s0) h f a -> a_write a = true -> len base + len data <= U64_MAX -> len data <= STREAM_CHUNK_BYTES ->
  (k <= length data)%nat -> (length data - k < fuel)%nat -> now_holds s0 f (base ++ take k data) s ->
  wp (copy_write_loop fs fuel h (len base) data (Z.of_nat k)) s
    (fun _ s' => now_holds s0 f (base ++ data) s') (fun _ s' => exists c, now_holds s0 f c s').
Proof.
  intros Hl Ha HU Hchunk. revert k s. induction fuel as [|fuel IH]; intros k s Hk Hf Hs; [lia|]. cbn [copy_write_loop].
  wp_step.
  2: { unfold len in *. assert (length data = k) as <- by lia. rewrite take_ge in Hs by done. by wp_steps. }
  wp_step. apply wp_check.
  2: { intros s' Ht _. eexists. eapply now_holds_quiet; [done|]. apply ticked_quiet; [apply Hs|done]. }
  intros s1 Ht. pose proof (now_holds_quiet _ _ _ _ _ _ _ _ _ Hs (ticked_quiet _ _ _ _ _ _ (proj1 Hs) Ht)) as Hs1.
  wp_step. apply wp_u64_add; [unfold len in *; lia|]. wp_step. rewrite Nat2Z.id.
  assert (content (fs_world s1) f = Some (base ++ take k data)) as Hcont by (apply (wrote_content (proj1 (proj2 Hs1)))).
  assert (len (drop k data) = len data - Z.of_nat k) as Hld by (unfold len; rewrite length_drop; lia).
  eapply wp_mono; [apply (f_write_at named linked content J Room (f_vfs fs) (f_limits fs) (f_scoped fs) (f_cancelled fs)
    h f a (base ++ take k data) (len base + Z.of_nat k) (drop k data) s1);
                   [apply Hs1|by eapply now_holds_linked|done|exact Hcont]|..].
  - intros n s2 (-> & HJ2 & Hw & Hf2). rewrite Hld.
    assert ((len data - Z.of_nat k =? 0) || (len data - Z.of_nat k <? len data - Z.of_nat k) = false) as ->.
    { apply orb_false_iff. split; unbool; [|lia]. apply Z.eqb_neq. unfold len in *. lia. }
    rewrite write_result_end in Hw.
    2: { right. unfold len. rewrite length_app, length_take. lia. }
    rewrite <- app_assoc, take_drop in Hw.
    replace (Z.of_nat k + (len data - Z.of_nat k)) with (Z.of_nat (length data)) by (unfold len; lia).
    apply IH; [lia|unfold len in *; lia|]. rewrite take_ge by done. by eapply now_holds_write.
  - intros e s2 Hq. eexists. by eapply now_holds_quiet.
Qed.

Lemma take_length_take (n : nat) (l : bytes) : take (length (take n l)) l = take n l.
Proof.
  rewrite length_take. destruct (Nat.le_ge_cases n (length l)); [by rewrite Nat.min_l|].
  rewrite Nat.min_r by done. by rewrite !take_ge.
Qed.

(** What one read of the loop gets, and the buffer it leaves. *)
Lemma read_chunk_spec d k buf :
  (k <= length d)%nat -> len buf = STREAM_CHUNK_BYTES ->
  let r := read_result d (Z.of_nat k) buf in
  exists m : nat, r.1 = Z.of_nat m /\ (k + m <= length d)%nat /\ len r.2 = STREAM_CHUNK_BYTES
    /\ take (Z.to_nat r.1) r.2 = take m (drop k d) /\ (length d - k - m)%nat = (length d - k - Z.to_nat STREAM_CHUNK_BYTES)%nat
    /\ Z.of_nat m <= STREAM_CHUNK_BYTES.
Proof.
  intros Hk Hb r. set (got := take (length buf) (drop k d)).
  assert (r = (len got, got ++ drop (length got) buf)) as -> by (unfold r, read_result; rewrite Nat2Z.id; done).
  assert (length got = Nat.min (length buf) (length d - k)) as Hg by (unfold got; by rewrite length_take, length_drop).
  exists (length got). cbn [fst snd]. unfold len, STREAM_CHUNK_BYTES in *. rewrite length_app, length_drop, Nat2Z.id.
  split; [done|]. split; [lia|]. split; [lia|]. split; [|lia].
  rewrite take_app_length. unfold got. symmetry. apply take_length_take.
Qed.

Lemma copy_loop_copies fuel hs hd fs_ fd a a' d k buf s0 s :
  linked (fs_world s0) hs fs_ a -> a_read a = true -> linked (fs_world s0) hd fd a' -> a_write a' = true -> fs_ <> fd ->
  content (fs_world s0) fs_ = Some d -> len d <= USIZE_MAX ->
  (k <= length d)%nat -> Z.of_nat (length d - k) <= (Z.of_nat fuel - 1) * STREAM_CHUNK_BYTES -> (0 < fuel)%nat ->
  len buf = STREAM_CHUNK_BYTES -> now_holds s0 fd (take k d) s ->
  wp (copy_loop fs fuel hs hd (Z.of_nat k) buf) s
    (fun _ s' => now_holds s0 fd d s') (fun _ s' => exists c, now_holds s0 fd c s').
Proof.
  intros Hl Ha Hl' Ha' Hne Hd HU. revert k buf s. induction fuel as [|fuel IH]; intros k buf s Hk Hf Hpos Hb Hs; [lia|].
  cbn [copy_loop]. wp_step. apply wp_check.
  2: { intros s' Ht _. eexists. eapply now_holds_quiet; [done|]. apply ticked_quiet; [apply Hs|done]. }
  intros s1 Ht. pose proof (now_holds_quiet _ _ _ _ _ _ _ _ _ Hs (ticked_quiet _ _ _ _ _ _ (proj1 Hs) Ht)) as Hs1.
  wp_step. eapply wp_mono; [apply (f_read_at named linked content J Room (f_vfs fs) (f_limits fs) (f_scoped fs) (f_cancelled fs)
    hs fs_ a d (Z.of_nat k) buf s1)|..].
  - apply Hs1.
  - by eapply now_holds_linked.
  - done.
  - rewrite (wrote_others (proj1 (proj2 Hs1))); done.
  - unfold len in *. lia.
  - lia.
  - destruct (read_chunk_spec d k buf Hk Hb) as (m & Hn & Hm & Hbuf & Hdata & Hrest & Hmc).
    intros r s2 [-> Hq]. pose proof (now_holds_quiet _ _ _ _ _ _ _ _ _ Hs1 Hq) as Hs2. cbn [fst snd].
    set (r := read_result _ _ _) in *. clearbody r. rewrite Hn in *. wp_step.
    + wp_steps. assert (k = length d) as -> by (unfold STREAM_CHUNK_BYTES in *; lia). by rewrite take_ge in Hs2.
    + wp_step; [lia|]. wp_step. rewrite Hdata.
      assert (len (take k d) = Z.of_nat k /\ length (take m (drop k d)) = m) as [Hlk Hlm].
      { unfold len. rewrite !length_take, length_drop. lia. }
      rewrite <- Hlk at 1. change 0 with (Z.of_nat 0) at 1.
      eapply wp_mono; [apply (copy_write_loop_writes (S (length (take m (drop k d)))) hd fd a' (take k d) (take m (drop k d)) 0 s0 s2)|..].
      * done.
      * done.
      * rewrite Hlk. unfold len, USIZE_MAX, U64_MAX in *. lia.
      * unfold len. lia.
      * lia.
      * lia.
      * by rewrite take_0, app_nil_r.
      * intros [] s3 Hs3. rewrite take_extend in Hs3. wp_step.
        assert (checked_add (Z.of_nat k) (Z.of_nat m) = Some (Z.of_nat (k + m))) as ->.
        { apply checked_add_Some. unfold len, USIZE_MAX, U64_MAX in *. lia. }
        cbn [ok_or]. apply (wp_ret (Z.of_nat (k + m))).
        apply IH; [lia|unfold STREAM_CHUNK_BYTES in *; lia|unfold STREAM_CHUNK_BYTES in *; lia|done|done].
      * done.
  - intros e s2 [_ Hq]. eexists. by eapply now_holds_quiet.
Qed.

(** ** The whole copy *)

Abbreviation file_set := (file_set named linked content).

(** The facade admits and accounts for its files, too. *)
Context (I : W -> Prop) (Rooms : nat -> W -> Prop) (owned : W -> gset Z).
Context `{Hfd : !OwnerLaws I Room owned (f_vfs fs)} `{Hrooms : !RoomLaws I Room Rooms (f_vfs fs)}.
Context (others_pool others_exec : Z).
Context (Hp : 0 <= others_pool) (He : 0 <= others_exec) (Hcap : f_capacity fs <= USIZE_MAX)
  (Hmax : max_open_files (f_limits fs) <= USIZE_MAX).

Abbreviation FsInv := (FsInvx I owned (f_limits fs) (f_capacity fs) (f_scoped fs) others_pool others_exec 0).
Abbreviation open :=
  (fs_open (f_vfs fs) (f_bin fs) (f_cwd fs) (f_limits fs) (f_capacity fs) (f_scoped fs) (f_cancelled fs)).
Abbreviation finish := (finish (f_vfs fs) (f_scoped fs) (f_cancelled fs)).
Abbreviation resolve := (resolve (f_cwd fs)).

Lemma open_opens path mode n s :
  FsInv s -> J (fs_world s) -> Rooms (S n) (fs_world s) ->
  wp (open path mode) s
    (fun h s' => FsInv s' /\ J (fs_world s') /\ Rooms n (fs_world s') /\ fs_files s' = {[h]} ∪ fs_files s /\ (h ∉ fs_files s)
                 /\ exists f, opens (resolve path) mode h f (fs_world s) (fs_world s'))
    (fun _ s' => J (fs_world s') /\ fs_files s' = fs_files s
                 /\ open_failed named linked content J (resolve path) mode (fs_world s) (fs_world s')).
Proof.
  intros HI HJ HR. pose proof (rooms_room n _ HR) as HR1.
  eapply wp_mono; [eapply wp_conj; [eapply wp_conj;
    [exact (fs_open_files I Room owned (f_vfs fs) (f_bin fs) (f_cwd fs) (f_limits fs) (f_capacity fs) (f_scoped fs) (f_cancelled fs)
       others_pool others_exec Hp He Hcap Hmax path mode s HI HR1)
    |exact (fs_open_rooms I Room Rooms owned (f_vfs fs) (f_bin fs) (f_cwd fs) (f_limits fs) (f_capacity fs) (f_scoped fs) (f_cancelled fs)
       path mode n s (fsi_world _ _ _ _ _ _ _ _ _ HI) HR)]
    |exact (f_open named linked content J Room (f_vfs fs) (f_bin fs) (f_cwd fs) (f_limits fs) (f_capacity fs) (f_scoped fs) (f_cancelled fs)
       path mode s HJ HR1)]|..].
  - intros h s' [[[HI' [Hf Hn]] HR'] (_ & _ & HJ' & Ho)]. done.
  - intros e s' [[[_ Hf] _] [HJ' Hs]]. done.
Qed.

(** The end of the copy: both files are closed, the destination perhaps aborted. *)
Lemma copy_ends path mode hs hd fs_ fd a abort c w w2 s s3 :
  spared path w w2 -> named w2 path fd -> (forall f b, ~ linked w hs f b) -> (forall f b, ~ linked w hd f b) ->
  now_holds s fd c s3 -> fs_world s = w2 -> hs <> hd -> hs ∈ fs_files s -> hd ∈ fs_files s ->
  linked w2 hs fs_ a -> linked w2 hd fd mode ->
  wp (finish hs false) s3 (fun _ s4 => wp (finish hd abort) s4
       (fun _ s5 => J (fs_world s5) /\ file_set w path c (fs_world s5) /\ fs_files s5 = fs_files s ∖ {[hs]} ∖ {[hd]})
       (fun _ _ => False)) (fun _ _ => False).
Proof.
  intros Hsp Hn Hhs Hhd (HJ3 & Hw3 & Hf3) <- Hne Hins Hind Hls Hld.
  eapply wp_mono; [apply (f_finish named linked content J Room (f_vfs fs) (f_scoped fs) (f_cancelled fs) hs false fs_ a s3 HJ3);
    [by rewrite Hf3|by apply (wrote_linked Hw3)]| |done].
  intros [] s4 [[HJ4 Hc4] Hf4].
  eapply wp_mono; [apply (f_finish named linked content J Room (f_vfs fs) (f_scoped fs) (f_cancelled fs) hd abort fd mode s4 HJ4);
    [rewrite Hf4, Hf3; set_solver|apply (closed_linked Hc4); split; [done|by apply (wrote_linked Hw3)]]| |done].
  intros [] s5 [[HJ5 Hc5] Hf5]. split; [done|]. split; [|by rewrite Hf5, Hf4, Hf3]. split.
  - eapply spares_closed; [|exact Hc5|exact Hhd]. eapply spares_closed; [|exact Hc4|exact Hhs].
    by eapply spares_wrote.
  - assert (named (fs_world s4) path fd) as Hn4 by (apply (closed_named Hc4); by apply (wrote_named Hw3)).
    assert (named (fs_world s5) path fd) as Hn5 by (by apply (closed_named Hc5)).
    exists fd. split; [done|]. rewrite (closed_content Hc5), (closed_content Hc4) by (left; eauto). apply (wrote_content Hw3).
Qed.

Lemma copy_file_copies fuel source dest f d s :
  FsInv s -> J (fs_world s) -> Rooms 2 (fs_world s) ->
  named (fs_world s) (resolve source) f -> ~ named (fs_world s) (resolve dest) f ->
  content (fs_world s) f = Some d ->
  len d <= (Z.of_nat fuel - 1) * STREAM_CHUNK_BYTES -> (0 < fuel)%nat ->
  wp (copy_file fs fuel source dest) s
    (fun _ s' => J (fs_world s') /\ file_set (fs_world s) (resolve dest) d (fs_world s') /\ fs_files s' = fs_files s)
    (fun _ s' => J (fs_world s') /\ spared (resolve dest) (fs_world s) (fs_world s') /\ fs_files s' = fs_files s).
Proof.
  intros HI HJ HR Hn Hnd Hd Hfuel Hpos. pose proof (fl_len _ _ _ HJ Hd) as HU. unfold copy_file. wp_step.
  eapply wp_mono; [by apply (open_opens source read_only 1 s)| |].
  2: { intros e s' (HJ' & Hf' & Hs). split; [done|]. split; [|done].
       exact (open_failed_found named linked content J Room (f_vfs fs) (resolve source) read_only _ _ f _ HJ eq_refl Hn Hs). }
  intros hs s1 (HI1 & HJ1 & HR1 & Hf1 & Hfresh & g & Ho1).
  destruct (found_unchanged _ read_only _ _ f _ _ HJ HJ1 eq_refl Ho1 Hn) as (-> & HN1 & HC1).
  pose proof (found_spares _ read_only _ _ _ _ _ (resolve dest) HJ HJ1 eq_refl Ho1 Hn) as Hsp1.
  pose proof (opened_linked _ _ _ _ _ _ Ho1) as Hl1.
  wp_step. apply wp_try.
  eapply wp_mono; [by apply (open_opens dest (with_truncate (with_create write_only)) 0 s1)| |].
  2: { intros e s2 (HJ2 & Hf2 & Hs2). wp_step. apply wp_ignore. unfold fs_close.
       pose proof (open_failed_spares named linked content J Room (f_vfs fs) _ _ _ _ HJ1 Hs2) as Hsp2.
       eapply wp_mono; [apply (f_finish named linked content J Room (f_vfs fs) (f_scoped fs) (f_cancelled fs) hs false f
         (access_of read_only) s2 HJ2); [rewrite Hf2, Hf1; set_solver|by apply (spares_linked Hsp2)]| |done].
       intros [] s3 [[HJ3 Hc3] Hf3]. wp_steps. split; [done|]. split; [|rewrite Hf3, Hf2, Hf1; set_solver].
       eapply spares_closed; [etrans; [exact Hsp1|exact Hsp2]|exact Hc3|apply (op_fresh Ho1)]. }
  intros hd s2 (HI2 & HJ2 & HR2 & Hf2 & Hfresh2 & fd & Ho2).
  pose proof (opened_spares _ _ _ _ _ _ HJ1 HJ2 Ho2) as Hsp2.
  assert (f <> fd) as Hne.
  { eapply (opened_other _ _ _ _ _ _ f HJ1 Ho2); [left; exists (resolve source); by apply HN1|by rewrite HN1]. }
  pose proof (opened_kept _ _ _ _ _ _ _ _ _ Ho2 Hl1) as Hl1'. pose proof (opened_linked _ _ _ _ _ _ Ho2) as Hl2.
  assert (forall abort c s3, now_holds s2 fd c s3 -> wp (finish hs false) s3 (fun _ s4 => wp (finish hd abort) s4
       (fun _ s5 => J (fs_world s5) /\ file_set (fs_world s) (resolve dest) c (fs_world s5) /\ fs_files s5 = fs_files s)
       (fun _ _ => False)) (fun _ _ => False)) as Hend.
  { assert (fs_files s = fs_files s2 ∖ {[hs]} ∖ {[hd]}) as -> by (rewrite Hf2, Hf1; rewrite Hf1 in Hfresh2; set_solver).
    intros abort c s3 Hs3. eapply (copy_ends (resolve dest) _ hs hd f fd _ abort c (fs_world s) (fs_world s2) s2 s3).
    - by etrans.
    - apply (op_named Ho2).
    - apply (op_fresh Ho1).
    - intros i b Hb. apply (op_fresh Ho2 i b). by apply (spares_linked Hsp1).
    - done.
    - done.
    - intros ->. apply Hfresh2. rewrite Hf1. set_solver.
    - rewrite Hf2, Hf1. set_solver.
    - rewrite Hf2. set_solver.
    - exact Hl1'.
    - exact Hl2. }
  assert (content (fs_world s2) f = Some d) as Hd2 by (by rewrite (op_others Ho2), HC1).
  wp_step. apply wp_try. change 0 with (Z.of_nat 0) at 1.
  eapply wp_mono; [apply (copy_loop_copies fuel hs hd f fd _ _ d 0 _ s2 s2 Hl1' eq_refl Hl2 eq_refl Hne Hd2 HU); try lia|..].
  - unfold len in *. lia.
  - by vm_compute.
  - rewrite take_0. split; [done|]. split; [|done]. apply wrote_start.
    destruct (opened_held named linked content J Room (f_vfs fs) _ _ _ _ _ _ HJ1 Ho2) as (d' & _ & ->). done.
  - intros [] s3 Hs3. wp_step. apply wp_try. unfold fs_close at 1.
    eapply wp_mono; [exact (Hend false d s3 Hs3)| |done]. intros [] s4 H4. cbn [and_then]. unfold fs_close.
    eapply wp_mono; [exact H4|done|done].
  - intros e s3 [c Hs3]. wp_step. apply wp_try. unfold fs_close at 1.
    eapply wp_mono; [exact (Hend true c s3 Hs3)| |done]. intros [] s4 H4. cbn [and_then]. wp_step. apply wp_ignore.
    unfold fs_abort. eapply wp_mono; [exact H4| |done]. intros [] s5 (HJ5 & [Hsp5 _] & Hf5). by wp_steps.
Qed.
End copy.
