(* ===== verification/RemoveFacts.v ===== *)
(** * What a directory listing may say

    Entries of a listing have proper names: no separator in them, and neither the
    directory itself nor its parent.  What walks a tree by joining names to paths
    relies on it.  In-memory backends and mount tables keep to it. *)

From Stdlib Require Import Ascii String.
From S2P Require Import Prelude RustStr BTreeMap VfsTypes VfsPath VfsIface MemVfs MemVfsTree MemVfsInv.
From S2P Require Import MemVfsSystem MountVfs MountFacts MemMount SandboxFsFacts SandboxFs SandboxFsFrame.
From S2P Require Import FileFacts Streams LineReader TextLines FileCmds.

Definition listed (e : DirEntry) : Prop := part_name (entry_name e).

Class NamedDirs {W : Type} (I : W -> Prop) (v : Vfs W) : Prop :=
  readdir_listed path w : I w -> wp (v_readdir v path) w (fun es _ => Forall listed es) (fun _ _ => True).

Lemma component_part_name c : component_ok c -> part_name c.
Proof. intros (H1 & H2 & H3 & H4 & _). by repeat split. Qed.

Lemma read_entries_listed s es :
  Forall (fun e => component_ok e.1) es ->
  match read_entries s es with Ok l => Forall listed l | _ => True end.
Proof.
  induction 1 as [|[name n] es Hname _ IH]; simpl; [done|].
  destruct (metadata_for_node s n); simpl; [|done..]. destruct (read_entries s es); simpl; [|done..].
  constructor; [by apply component_part_name|done].
Qed.

Lemma readdir_state_listed s path : WF s -> match (readdir path s).1 with Ok l => Forall listed l | _ => True end.
Proof.
  intros HW. unfold readdir, sbind, slift. destruct (normalize_path path) as [p| | |]; simpl; [|done..].
  destruct (get_node (root s) p) as [[i|es]| | |] eqn:Hn; simpl; try done.
  pose proof (read_entries_listed s es) as H. destruct (read_entries s es); simpl in *; try done. apply H.
  destruct (get_node_ok _ _ _ _ (wf_tree _ _ _ HW) Hn) as [Hok _]. apply node_ok_dir in Hok as [_ Hes].
  eapply Forall_impl; [exact Hes|]. by intros e (He & _).
Qed.

Lemma mem_named_dirs quota k : quota_ok (quota k) -> NamedDirs (BackendsInv quota) (mem_vfs quota k).
Proof.
  intros Hq path w Hw. pose proof (readdir_state_listed (w k) path (proj1 (Hw k))) as H.
  pose proof (readdir_spec (quota k) Hq (w k) path (Hw k)) as Hr. unfold wp in *. simpl. unfold on_backend.
  by destruct (readdir path (w k)) as [[] s'].
Qed.

Section mounts.
Context {W : Type} (I : W -> Prop) (t : MountTable W).
Context (Hmounts : Forall part_name (mount_names t)).
Context (Hnamed : forall name v, bt_get name (mounts t) = Some v -> NamedDirs I v).

Lemma mounted_named_dirs : NamedDirs (MInv I t) (mounted_vfs t).
Proof.
  intros path s Hs. simpl. unfold m_readdir. wp_step. apply wp_mounted_path; [done|..].
  - wp_step. by apply Forall_fmap.
  - intros mp Hmp. pose proof (Hnamed _ _ Hmp (mp_inner mp) (inner_world s) (minv_world _ _ _ Hs)) as H.
    unfold wp, on_inner in *. by destruct (v_readdir _ _ _) as [[] w'].
Qed.
End mounts.

(** ** Removing a tree ends (src/src/sandbox/builtins.rs)

    The loop of [remove_path] works on what the backend says a directory holds at
    the time it is entered.  It ends because no frame is deeper than the path
    limit and every frame has finitely many entries, and it holds no handle. *)

(** ** Paths *)

Lemma path_of_inj cs ds : Forall part_name cs -> Forall part_name ds -> path_of cs = path_of ds -> cs = ds.
Proof.
  intros Hc Hd H. apply (f_equal (split (ch "/"))) in H. rewrite !split_path_of in H by done. injection H as H.
  destruct Hc as [|c cs (Hc1 & _) _], Hd as [|d ds (Hd1 & _) _]; simpl in H; congruence.
Qed.

(** The text [resolve] normalizes. *)
Definition full (cwd path : str) : str :=
  if starts_with path (lit "/") then path
  else if bool_decide (cwd = lit "/") then lit "/" ++ path
  else cwd ++ lit "/" ++ path.

Lemma full_app cwd path rest : path <> [] -> full cwd (path ++ rest) = full cwd path ++ rest.
Proof. intros H. destruct path as [|c path]; [done|]. unfold full. simpl. repeat case_match; by rewrite <- ?app_assoc. Qed.

Lemma split_snoc p name : contains name (ch "/") = false -> split (ch "/") (p ++ lit "/" ++ name) = split (ch "/") p ++ [name].
Proof.
  intros Hn. induction p as [|c p IH]; [simpl; by rewrite split_one|]. simpl app. simpl split. simpl app in IH.
  rewrite IH. destruct (c =? ch "/")%N; [done|]. by destruct (split (ch "/") p) as [|q qs] eqn:Hs; [by apply split_nonempty in Hs|].
Qed.

Lemma resolve_parts cwd path : resolve cwd path = path_of (foldl push_part [] (split (ch "/") (full cwd path))).
Proof.
  change (resolve cwd path) with (normalize_absolute (full cwd path)). unfold normalize_absolute, path_of.
  case_bool_decide as H; [by rewrite H|done].
Qed.

Lemma push_part_name cs name : part_name name -> push_part cs name = cs ++ [name].
Proof. intros H. by apply (push_part_names cs [name]), Forall_singleton. Qed.

Lemma parts_ok cwd path : Forall part_name (foldl push_part [] (split (ch "/") (full cwd path))).
Proof. apply push_parts_ok; [done|]. apply split_no_sep. Qed.

(** The directory whose entries have the names that [path] and a name make. *)
Definition frame_at (cwd path : str) (cs : list str) : Prop :=
  Forall part_name cs /\ forall name, part_name name -> resolve cwd (join_path path name) = path_of (cs ++ [name]).

Lemma frame_at_resolved cwd path cs :
  path <> [] -> Forall part_name cs -> resolve cwd path = path_of cs -> frame_at cwd path cs.
Proof.
  intros Hne Hcs Hr. split; [done|]. intros name Hname. rewrite resolve_parts in *. f_equal.
  apply path_of_inj in Hr; [|apply parts_ok|done]. rewrite <- Hr. unfold join_path. case_bool_decide as H.
  - subst path. change (full cwd (lit "/" ++ name)) with ([] ++ lit "/" ++ name). rewrite split_snoc by apply Hname.
    change (push_part [] name = [] ++ [name]). by apply push_part_name.
  - rewrite full_app, split_snoc, foldl_app by (done || apply Hname). simpl. by apply push_part_name.
Qed.

(** The empty path names the current directory, but its entries are looked for
    in the root. *)
Lemma frame_at_empty cwd : frame_at cwd [] [].
Proof.
  split; [done|]. intros name Hname. rewrite resolve_parts. f_equal.
  change (full cwd (join_path [] name)) with ([] ++ lit "/" ++ name). rewrite split_snoc by apply Hname.
  change (push_part [] name = [] ++ [name]). by apply push_part_name.
Qed.

Lemma join_path_nonempty path name : join_path path name <> [].
Proof. unfold join_path. case_bool_decide; [done|]. by destruct path. Qed.

Lemma frame_at_path cwd path : exists cs, frame_at cwd path cs.
Proof.
  destruct path as [|c path]; [exists []; apply frame_at_empty|].
  eexists. apply frame_at_resolved; [done|apply parts_ok|apply resolve_parts].
Qed.

(** ** Loops whose fuel depends on what they meet *)

Section ends.
Context {S E : Type}.

(** With enough fuel, [m] ends as stated. *)
Definition ends_by_fuel {A} (m : nat -> ST S E A) (s : S) (Q : A -> S -> Prop) (R : E -> S -> Prop) : Prop :=
  exists n, forall n', (n <= n')%nat -> wp (m n') s Q R.

Lemma ends_by_fuel_bind {A B} (m : ST S E A) (k : nat -> A -> ST S E B) s Q R :
  wp m s (fun a s' => ends_by_fuel (fun n => k n a) s' Q R) R -> ends_by_fuel (fun n => sbind m (k n)) s Q R.
Proof.
  unfold ends_by_fuel, wp, sbind. destruct (m s) as [[a|e| |] s']; [|by exists 0%nat|done..]. intros [n H]. by exists n.
Qed.

Lemma ends_step {A} (m m' : nat -> ST S E A) s Q R :
  (forall n, m' (Datatypes.S n) = m n) -> ends_by_fuel m s Q R -> ends_by_fuel m' s Q R.
Proof.
  intros Hm [n H]. exists (Datatypes.S n). intros [|n'] Hn; [lia|]. rewrite Hm. apply H. lia.
Qed.
End ends.

(** ** The loop *)

Section remove.
Context {W : Type} (I Room : W -> Prop) (owned : W -> gset Z) (fs : Fs W).
Context `{Hv : !OwnerLaws I Room owned (f_vfs fs)}.
Context `{Hnames : !NamedDirs I (f_vfs fs)} (Hbin : Forall part_name (f_bin fs)).
Context (others_pool others_exec : Z).

Abbreviation FsInv := (FsInvx I owned (f_limits fs) (f_capacity fs) (f_scoped fs) others_pool others_exec 0).
Abbreviation readdir := (fs_readdir (f_vfs fs) (f_bin fs) (f_cwd fs) (f_limits fs) (f_scoped fs) (f_cancelled fs)).
Abbreviation unlink := (fs_unlink (f_vfs fs) (f_cwd fs) (f_limits fs) (f_scoped fs) (f_cancelled fs)).
Abbreviation rmdir := (fs_rmdir (f_vfs fs) (f_cwd fs) (f_limits fs) (f_scoped fs) (f_cancelled fs)).
Abbreviation stat := (fs_stat (f_vfs fs) (f_bin fs) (f_cwd fs) (f_limits fs) (f_scoped fs) (f_cancelled fs)).

(** The counters are right and the files [X] are held. *)
Definition held_still (X : gset Z) (s : FsState W) : Prop := FsInv s /\ fs_files s = X.
Abbreviation still X m s := (wp m s (fun _ s' => held_still X s') (fun _ s' => held_still X s')).

Lemma held_frames {A} (m : ST (FsState W) Errno A) X s :
  frames ∅ m -> wp m s (fun _ s' => FsInv s') (fun _ s' => FsInv s') -> fs_files s = X -> still X m s.
Proof.
  intros Hf Hm HX. specialize (Hf s). unfold wp, held_still in *. rewrite !difference_empty_L in Hf.
  destruct (m s) as [[a|e| |] s']; try done; simpl in Hf; split; congruence.
Qed.

Lemma frames_check_path X path : frames X (check_path (f_limits fs) (f_scoped fs) (f_cancelled fs) path : ST (FsState W) Errno unit).
Proof. unfold check_path. apply frames_bind; [apply frames_check|]. intros _. by case_match. Qed.

Lemma frames_path_op {A} X path (m : ST W Errno A) :
  frames X (dispatch_path (f_vfs fs) (f_limits fs) (f_scoped fs) (f_cancelled fs) path (on_world m)).
Proof.
  unfold dispatch_path. apply frames_bind; [apply frames_check_path|]. intros _. apply frames_dispatch, frames_on_world.
Qed.

Lemma still_unlink path X s : held_still X s -> still X (unlink path) s.
Proof.
  intros [HI HX]. apply held_frames; [|by apply (fs_unlink_inv I Room owned)|done].
  unfold fs_unlink. apply frames_bind; [apply frames_check_path|]. intros _. case_match; [done|]. apply frames_path_op.
Qed.

Lemma still_rmdir path X s : held_still X s -> still X (rmdir path) s.
Proof.
  intros [HI HX]. apply held_frames; [|by apply (fs_rmdir_inv I Room owned)|done].
  unfold fs_rmdir. apply frames_bind; [apply frames_check_path|]. intros _. case_match; [done|]. apply frames_path_op.
Qed.

Lemma still_stat path X s : held_still X s -> still X (stat path) s.
Proof.
  intros [HI HX]. apply held_frames; [|by apply (fs_stat_inv I Room owned)|done].
  unfold fs_stat. apply frames_bind; [apply frames_check_path|]. intros _. case_match; [done|]. apply frames_path_op.
Qed.

Lemma still_check X s : held_still X s -> still X (check (f_scoped fs) (f_cancelled fs) : ST (FsState W) Errno unit) s.
Proof.
  intros [HI HX]. apply wp_check; intros s' Ht; [|intros _]; (split; [by eapply ticked_inv|]); by rewrite <- HX, <- (ticked_files _ _ Ht).
Qed.

Lemma frames_readdir path : frames ∅ (readdir path).
Proof.
  unfold fs_readdir. apply frames_bind; [apply frames_check_path|]. intros _. case_match.
  { apply frames_bind; [apply frames_path_op|done]. }
  case_match; [done|]. case_match; [done|]. apply frames_path_op.
Qed.

Lemma sorted_names (P : str -> Prop) es :
  Forall (fun e => P (entry_name e)) es -> Forall (fun e => P (entry_name e)) (sort_by_name es).
Proof.
  intros H. unfold sort_by_name. induction H as [|e es He _ IH]; simpl; [done|]. revert IH. generalize (foldr insert_by_name [] es).
  intros l Hl. induction Hl as [|x l Hx Hl IH]; simpl; [by apply Forall_singleton|]. case_match; repeat constructor; done.
Qed.

Lemma part_name_bin : part_name (lit "bin").
Proof. repeat split; try done. Qed.

(** A directory that can be listed is within the path limit. *)
Lemma readdir_names path X s :
  held_still X s ->
  wp (readdir path) s
    (fun es s' => (Forall listed es /\ depth (resolve (f_cwd fs) path) <= 256) /\ held_still X s')
    (fun _ s' => held_still X s').
Proof.
  intros [HI HX].
  assert (forall s', FsInv s' -> wp (fs_readdir (f_vfs fs) (f_bin fs) (f_cwd fs) (f_limits fs) (f_scoped fs) (f_cancelled fs) path) s'
    (fun es _ => Forall listed es /\ depth (resolve (f_cwd fs) path) <= 256) (fun _ _ => True)) as Hn.
  { intros s' HI'. unfold fs_readdir. cbv zeta. wp_step. apply wp_check_path; [|done]. intros s1 H1 _ Hd.
    assert (depth (resolve (f_cwd fs) path) <= 256) as Hl by lia.
    assert (forall p, wp (dispatch_path (f_vfs fs) (f_limits fs) (f_scoped fs) (f_cancelled fs) p (on_world (v_readdir (f_vfs fs) p))) s1
      (fun es _ => Forall listed es) (fun _ _ => True)) as Hlist.
    { intros p. apply wp_dispatch_path; [|done]. intros s2 H2. apply wp_on_world. apply Hnames.
      destruct H1 as (E1 & _), H2 as (E2 & _). rewrite E2, E1. apply HI'. }
    wp_step.
    - wp_step. eapply wp_mono; [apply Hlist| |done]. intros es s2 Hes. wp_step. split; [|done]. apply sorted_names.
      apply Forall_app. split; [done|]. apply Forall_singleton, part_name_bin.
    - wp_step; [wp_step; split; [|done]; by apply Forall_fmap|]. wp_step; [done|].
      eapply wp_mono; [apply Hlist|by split|done]. }
  assert (wp (readdir path) s (fun _ s' => held_still X s') (fun _ s' => held_still X s')) as Hs.
  { apply held_frames; [apply frames_readdir|by apply (fs_readdir_inv I Room owned)|done]. }
  eapply wp_mono; [exact (wp_conj _ _ _ _ _ _ (Hn s HI) Hs)|by intros es s' [? ?]|by intros e s' [_ ?]].
Qed.

Definition loop_ends (X : gset Z) (stack : list (str * list DirEntry)) : Prop :=
  forall s, held_still X s ->
    ends_by_fuel (fun fuel => remove_loop fs fuel stack) s (fun _ s' => held_still X s') (fun _ s' => held_still X s').

Lemma loop_ends_frame X room path cs es below :
  (257 <= room + length cs)%nat -> frame_at (f_cwd fs) path cs -> Forall listed es ->
  loop_ends X below -> (length cs <= 256)%nat -> loop_ends X ((path, es) :: below).
Proof.
  revert path cs es below. induction room as [|room IH]; intros path cs es below Hroom Hcs Hes Hbelow Hlen; [lia|].
  induction Hes as [|e es He _ IHes]; intros s Hs; (eapply ends_step; [reflexivity|]);
    apply ends_by_fuel_bind; (eapply wp_mono; [by apply still_check| |done]); intros [] s1 Hs1.
  - apply ends_by_fuel_bind. eapply wp_mono; [by apply still_rmdir| |done]. intros [] s2 Hs2. by apply Hbelow.
  - cbv zeta. destruct (is_dir (entry_metadata e)).
    + apply ends_by_fuel_bind. eapply wp_mono; [by apply readdir_names| |done]. intros es' s2 [[Hes' Hl] Hs2].
      destruct Hcs as [Hcs Hat]. assert (Forall part_name (cs ++ [entry_name e])) as Hchild
        by (apply Forall_app; split; [done|by apply Forall_singleton]).
      rewrite Hat, depth_path_of in Hl by done. unfold len in Hl.
      apply (IH _ (cs ++ [entry_name e])); [rewrite length_app; simpl; lia| |done|exact IHes|lia|done].
      apply frame_at_resolved; [by apply join_path_nonempty|done|by apply Hat].
    + apply ends_by_fuel_bind. eapply wp_mono; [by apply still_unlink| |done]. intros [] s2 Hs2. by apply IHes.
Qed.

Lemma loop_ends_nil X : loop_ends X [].
Proof. intros s Hs. eapply ends_step; [reflexivity|]. exists 0%nat. intros n' _. done. Qed.

Lemma remove_path_ends path recursive X s :
  held_still X s ->
  ends_by_fuel (fun fuel => remove_path fs fuel path recursive) s (fun _ s' => held_still X s') (fun _ s' => held_still X s').
Proof.
  intros Hs. unfold remove_path. apply ends_by_fuel_bind. eapply wp_mono; [by apply still_stat| |done]. intros m s1 Hs1.
  destruct (negb (is_dir m)); [exists 0%nat; intros; by apply still_unlink|].
  destruct (negb recursive); [by exists 0%nat|].
  apply ends_by_fuel_bind. eapply wp_mono; [exact (readdir_names path X s1 Hs1)| |done]. intros es s2 [[Hes Hl] Hs2].
  assert (exists cs, frame_at (f_cwd fs) path cs /\ (length cs <= 256)%nat) as (cs & Hcs & Hlen).
  { destruct path as [|c path]; [exists []; split; [apply frame_at_empty|simpl; lia]|].
    eexists. split; [apply frame_at_resolved; [done|apply parts_ok|apply resolve_parts]|].
    rewrite resolve_parts, depth_path_of in Hl by apply parts_ok. unfold len in Hl. lia. }
  apply (loop_ends_frame X 257 path cs es []); [lia|done..|apply loop_ends_nil|done|done].
Qed.
End remove.
