(* ===== verification/TextMatch.v ===== *)
(** * echo, grep and sed (src/src/sandbox/builtins.rs)

    [grep] and [sed] match with the regular expressions of a library, which is the
    parameter [RegexLib]: an expression answers whether it matches a text, and with
    the byte ranges of its successive matches and of their groups. *)

From Stdlib Require Import Ascii String.
From S2P Require Import Prelude RustStr VfsTypes VfsIface SandboxFs Redirects Output Utf8 Streams LineReader TextLines.

#[local] Open Scope Z_scope.

(** ** echo *)

(** [c.to_digit(radix)]. *)
Definition to_digit (radix : Z) (c : char) : option Z :=
  let from (a : ascii) (base : Z) := Z.of_N c - Z.of_N (ch a) + base in
  let value :=
    if in_range "0" "9" c then Some (from "0"%char 0)
    else if in_range "a" "z" c then Some (from "a"%char 10)
    else if in_range "A" "Z" c then Some (from "A"%char 10)
    else None in
  match value with
  | Some d => if d <? radix then Some d else None
  | None => None
  end.

(** [char::from_u32(value)]. *)
Definition from_u32 (value : Z) : option char := if is_scalar (Z.to_N value) then Some (Z.to_N value) else None.

(** [value * radix + digit] on [u32]. *)
Definition u32_digit (value radix digit : Z) : outcome IoError Z :=
  if value * radix + digit <=? U32_MAX then Ok (value * radix + digit) else Panic.

(** [while consumed < width { .. }]: the value of the digits taken, their number, and
    the rest. *)
Fixpoint take_digits (radix : Z) (width : nat) (value : Z) (consumed : nat) (chars : str)
  : outcome IoError (Z * nat * str) :=
  match width with
  | O => Ok (value, consumed, chars)
  | S width =>
      match chars with
      | [] => Ok (value, consumed, chars)
      | next :: rest =>
          match to_digit radix next with
          | None => Ok (value, consumed, chars)
          | Some digit =>
              let? value := u32_digit value radix digit in
              take_digits radix width value (S consumed) rest
          end
      end
  end.

(** The escapes of one character. *)
Definition simple_escape (c : char) : option char :=
  if isc c "a" then Some 7%N
  else if isc c "n" then Some (ch NL)
  else if isc c "t" then Some (ch TAB)
  else if isc c "r" then Some (ch CR)
  else if isc c "b" then Some 8%N
  else if is_any c ["e"; "E"]%char then Some 27%N
  else if isc c "f" then Some 12%N
  else if isc c "v" then Some 11%N
  else if isc c BACKSLASH then Some (ch BACKSLASH)
  else None.

Definition push_hex_escape (out chars : str) (width : nat) (marker : char) : outcome IoError (str * str) :=
  let? (value, consumed, chars) := take_digits 16 width 0 0 chars in
  if (consumed =? 0)%nat then Ok (out ++ [ch BACKSLASH; marker], chars)
  else Ok (match from_u32 value with Some c => out ++ [c] | None => out end, chars).

(** The loop of [expand_echo_escapes]; every turn takes a character. *)
Fixpoint expand_loop (fuel : nat) (chars out : str) : outcome IoError (str * bool) :=
  match fuel with
  | O => OutOfFuel
  | S fuel =>
      match chars with
      | [] => Ok (out, false)
      | c :: chars =>
          if negb (isc c BACKSLASH) then expand_loop fuel chars (out ++ [c])
          else
            match chars with
            | [] => expand_loop fuel [] (out ++ [ch BACKSLASH])
            | c :: chars =>
                if isc c "0" then
                  let? (value, _, chars) := take_digits 8 3 0 0 chars in
                  expand_loop fuel chars (out ++ [default (ch NUL) (from_u32 value)])
                else if isc c "x" then
                  let? (value, consumed, chars) := take_digits 16 2 0 0 chars in
                  if (consumed =? 0)%nat then expand_loop fuel chars (out ++ [ch BACKSLASH; ch "x"])
                  else expand_loop fuel chars (out ++ [default (ch NUL) (from_u32 value)])
                else if isc c "u" then
                  let? (out, chars) := push_hex_escape out chars 4 (ch "u") in expand_loop fuel chars out
                else if isc c "U" then
                  let? (out, chars) := push_hex_escape out chars 8 (ch "U") in expand_loop fuel chars out
                else if isc c "c" then Ok (out, true)
                else
                  match simple_escape c with
                  | Some x => expand_loop fuel chars (out ++ [x])
                  | None => expand_loop fuel chars (out ++ [ch BACKSLASH; c])
                  end
            end
      end
  end.

Definition expand_echo_escapes (input : str) : outcome IoError (str * bool) :=
  expand_loop (S (length input)) input [].

(** The options are -n, -e and -E, alone or together; the first argument that is
    none begins the text. *)
Definition set_echo_option (c : char) (st : bool * bool) : bool * bool :=
  let '(newline, escapes) := st in
  if isc c "n" then (false, escapes) else if isc c "e" then (newline, true) else (newline, false).

Fixpoint echo_options (args : list str) (st : bool * bool) : bool * bool * list str :=
  match args with
  | [] => (st, [])
  | arg :: rest =>
      if (blen arg <=? 1)%nat || negb (starts_with arg (lit "-")) then (st, args)
      else if negb (forallb (fun c => is_any c ["n"; "e"; "E"]%char) (drop 1 arg)) then (st, args)
      else echo_options rest (foldl (fun st c => set_echo_option c st) st (drop 1 arg))
  end.

(** The text that [echo] writes. *)
Definition echo_text (args : list str) : outcome IoError str :=
  let '(newline, escapes, words) := echo_options args (true, false) in
  let out := join (lit " ") words in
  let? (out, suppress_rest) := (if escapes then expand_echo_escapes out else Ok (out, false)) in
  Ok (if newline && negb suppress_rest then out ++ line_end else out).

(** ** Regular expressions *)

(** The groups of a match, the whole match first, as ranges of bytes. *)
Abbreviation Captures := (list (option (Z * Z))) (only parsing).

Record RegexLib (Rx : Type) := mkRegexLib {
  rx_build : str -> bool -> Rx + str;
  rx_is_match : Rx -> str -> bool;
  rx_captures_len : Rx -> Z;
  rx_captures_iter : Rx -> str -> list Captures
}.
Arguments mkRegexLib {Rx}.
Arguments rx_build {Rx}.
Arguments rx_is_match {Rx}.
Arguments rx_captures_len {Rx}.
Arguments rx_captures_iter {Rx}.

(** ** grep *)

Record GrepFlags := mkGrepFlags {
  g_ignore_case : bool;
  g_invert : bool;
  g_line_numbers : bool;
  g_count : bool;
  g_recursive : bool
}.
Definition default_grep_flags : GrepFlags := mkGrepFlags false false false false false.

Definition set_grep_flag (c : char) (f : GrepFlags) : option GrepFlags :=
  if isc c "i" then Some (mkGrepFlags true (g_invert f) (g_line_numbers f) (g_count f) (g_recursive f))
  else if isc c "v" then Some (mkGrepFlags (g_ignore_case f) true (g_line_numbers f) (g_count f) (g_recursive f))
  else if isc c "n" then Some (mkGrepFlags (g_ignore_case f) (g_invert f) true (g_count f) (g_recursive f))
  else if isc c "c" then Some (mkGrepFlags (g_ignore_case f) (g_invert f) (g_line_numbers f) true (g_recursive f))
  else if is_any c ["r"; "R"]%char then Some (mkGrepFlags (g_ignore_case f) (g_invert f) (g_line_numbers f) (g_count f) true)
  else None.

Record GrepInputs := mkGrepInputs {
  gi_roots : list str;
  gi_directories : list (str * list DirEntry);
  gi_recursive : bool
}.

(** What [GrepInputs::next] returns: a path, or why there is none. *)
Inductive GrepInput :=
| GrepPath (path : str)
| GrepFailed (path : str) (e : Errno)
| GrepCancelled.

(** ** sed *)

Record SedSubstitution := mkSedSubstitution {
  sub_pattern : str;
  sub_replacement : str;
  sub_global : bool;
  sub_ignore_case : bool
}.

(** The loop of [split_sed_parts]; [parts] are the parts ended so far. *)
Fixpoint split_sed_loop (delimiter : char) (chars : str) (parts : list str) (current : str) : list str * str :=
  match chars with
  | [] => (parts, current)
  | c :: rest =>
      if isc c BACKSLASH then
        match rest with
        | next :: rest' =>
            if (next =? delimiter)%N then split_sed_loop delimiter rest' parts (current ++ [delimiter])
            else split_sed_loop delimiter rest parts (current ++ [ch BACKSLASH])
        | [] => split_sed_loop delimiter rest parts (current ++ [ch BACKSLASH])
        end
      else if (c =? delimiter)%N && (length parts <? 2)%nat then
        split_sed_loop delimiter rest (parts ++ [current]) []
      else split_sed_loop delimiter rest parts (current ++ [c])
  end.

Definition split_sed_parts (input : str) (delimiter : char) : option (str * str * str) :=
  match split_sed_loop delimiter input [] [] with
  | ([a; b], current) => Some (a, b, current)
  | _ => None
  end.

Definition parse_sed_substitution (script : str) : option SedSubstitution :=
  match script with
  | s :: delimiter :: rest =>
      if negb (isc s "s") then None
      else
        match split_sed_parts rest delimiter with
        | None => None
        | Some (pattern, replacement, flags) =>
            if existsb (fun c => negb (is_any c ["g"; "i"]%char)) flags then None
            else Some (mkSedSubstitution pattern replacement (contains flags (ch "g")) (contains flags (ch "i")))
        end
  | _ => None
  end.

(** A reference [\1] to [\9]. *)
Definition reference_digit (c : char) : option Z := if in_range "1" "9" c then Some (Z.of_N c - 48) else None.

(** [Err] is the first reference to a group that the pattern has not. *)
Fixpoint validate_sed_replacement (replacement : str) (captures_len : Z) : outcome Z unit :=
  match replacement with
  | [] => Ok tt
  | c :: rest =>
      if negb (isc c BACKSLASH) then validate_sed_replacement rest captures_len
      else
        match rest with
        | [] => Ok tt
        | next :: rest =>
            match reference_digit next with
            | Some index => if captures_len <=? index then Err index else validate_sed_replacement rest captures_len
            | None => validate_sed_replacement rest captures_len
            end
        end
  end.

(** [rest.find(['&', '\\'])]: what comes before, and the rest from there. *)
Fixpoint before_token (text : str) : str * str :=
  match text with
  | [] => ([], [])
  | c :: rest =>
      if isc c "&" || isc c BACKSLASH then ([], text)
      else let '(before, rest) := before_token rest in (c :: before, rest)
  end.

(** [&body.as_bytes()[a..b]]. *)
Definition checked_slice (body : bytes) (a b : Z) : outcome IoError bytes :=
  if (0 <=? a) && (a <=? b) && (b <=? len body) then Ok (bytes_slice body a b) else Panic.

(** [captures.get(index).map(|group| group.as_str().as_bytes())], nothing if the group
    took no part in the match. *)
Definition group_bytes (body : bytes) (captures : Captures) (index : Z) : outcome IoError bytes :=
  match captures !! Z.to_nat index with
  | Some (Some (a, b)) => checked_slice body a b
  | _ => Ok []
  end.

Section commands.
Context {W Rx : Type} (fs : Fs W) (regexes : RegexLib Rx) (stdout stderr : BoxAsyncWrite) (fuel : nat).

Abbreviation XM := (ST (XState W) IoError).

Definition echo (args : list str) : XM Z :=
  let! out := slift (echo_text args) in
  let! r := x_try (write_text fs stdout out) in
  match r with
  | Ok _ => sret 0
  | Err _ => sret 1
  | Panic => slift Panic
  | OutOfFuel => slift OutOfFuel
  end.

(** ** grep *)

(** One line: the lines matched and read so far. *)
Definition grep_line (regex : Rx) (flags : GrepFlags) (label : str) (show_path : bool) (acc : Z * Z) (line : bytes)
  : XM (Z * Z) :=
  let '(matched, line_no) := acc in
  let! line_no := slift (u64_add line_no 1) in
  let line := line_text_lossy line in
  let is_match := xorb (rx_is_match regexes regex line) (g_invert flags) in
  if negb is_match then sret (matched, line_no)
  else
    let! matched := slift (u64_add matched 1) in
    if g_count flags then sret (matched, line_no)
    else
      let! _ := (if show_path then write_text fs stdout (label ++ lit ":") else sret tt) in
      let! _ := (if g_line_numbers flags then write_text fs stdout (Z_to_string line_no ++ lit ":") else sret tt) in
      let! _ := write_text fs stdout (line ++ line_end) in
      sret (matched, line_no).

Definition grep_reader (src : Source) (label : str) (regex : Rx) (flags : GrepFlags) (show_path : bool) : XM bool :=
  let! (matched, _) := each_line fs fuel src empty_buffer (grep_line regex flags label show_path) (0, 0) in
  let! _ :=
    (if g_count flags then
       let! _ := (if show_path then write_text fs stdout (label ++ lit ":") else sret tt) in
       write_text fs stdout (Z_to_string matched ++ line_end)
     else sret tt) in
  sret (0 <? matched).

(** What [GrepInputs::next] does with a path; a directory is entered by [again]. *)
Definition grep_visit (again : GrepInputs -> XM (option GrepInput * GrepInputs)) (path : str) (inputs : GrepInputs)
  : XM (option GrepInput * GrepInputs) :=
  let! checked := x_try_fs (check (f_scoped fs) (f_cancelled fs)) in
  match checked with
  | Ok _ =>
      if bool_decide (path = lit "-") then sret (Some (GrepPath path), inputs)
      else
        let! metadata := x_try_fs (fs_stat (f_vfs fs) (f_bin fs) (f_cwd fs) (f_limits fs) (f_scoped fs) (f_cancelled fs) path) in
        match metadata with
        | Ok metadata =>
            if negb (gi_recursive inputs) || negb (is_dir metadata) then sret (Some (GrepPath path), inputs)
            else
              let! entries := x_try_fs (fs_readdir (f_vfs fs) (f_bin fs) (f_cwd fs) (f_limits fs) (f_scoped fs) (f_cancelled fs) path) in
              match entries with
              | Ok entries =>
                  again (mkGrepInputs (gi_roots inputs) ((path, entries) :: gi_directories inputs) (gi_recursive inputs))
              | Err e => sret (Some (GrepFailed path e), inputs)
              | Panic => slift Panic
              | OutOfFuel => slift OutOfFuel
              end
        | Err e => sret (Some (GrepFailed path e), inputs)
        | Panic => slift Panic
        | OutOfFuel => slift OutOfFuel
        end
  | Err _ => sret (Some GrepCancelled, mkGrepInputs [] [] (gi_recursive inputs))
  | Panic => slift Panic
  | OutOfFuel => slift OutOfFuel
  end.

(** [GrepInputs::next]. *)
Fixpoint grep_next (fuel : nat) (inputs : GrepInputs) : XM (option GrepInput * GrepInputs) :=
  match fuel with
  | O => slift OutOfFuel
  | S fuel =>
      match gi_directories inputs with
      | (parent, entry :: entries) :: below =>
          grep_visit (grep_next fuel) (join_path parent (entry_name entry))
            (mkGrepInputs (gi_roots inputs) ((parent, entries) :: below) (gi_recursive inputs))
      | (parent, []) :: below => grep_next fuel (mkGrepInputs (gi_roots inputs) below (gi_recursive inputs))
      | [] =>
          match gi_roots inputs with
          | [] => sret (None, inputs)
          | path :: roots => grep_visit (grep_next fuel) path (mkGrepInputs roots [] (gi_recursive inputs))
          end
      end
  end.

(** The loop over the inputs. *)
Fixpoint grep_files (turns : nat) (inputs : GrepInputs) (regex : Rx) (flags : GrepFlags) (show_path had_error matched_any : bool)
  : XM Z :=
  match turns with
  | O => slift OutOfFuel
  | S turns =>
      let! (input, inputs) := grep_next fuel inputs in
      match input with
      | None => sret (if had_error then 2 else if matched_any then 0 else 1)
      | Some GrepCancelled => sret 124
      | Some (GrepFailed path e) =>
          let! _ := write_vfs_error fs stderr (lit "grep") path e in
          grep_files turns inputs regex flags show_path true matched_any
      | Some (GrepPath path) =>
          let label := if bool_decide (path = lit "-") then lit "(standard input)" else path in
          let! result := with_input fs path
            (fun src => let! r := x_try (grep_reader src label regex flags show_path) in sret (inl r))
            (fun e => sret (inr e)) in
          match result with
          | inl (Ok matched) => grep_files turns inputs regex flags show_path had_error (matched_any || matched)
          | inl (Err e) =>
              let! reported := report_stream_error fs stderr (lit "grep") path e in
              if (reported : bool) then grep_files turns inputs regex flags show_path true matched_any else sret 1
          | inl Panic => slift Panic
          | inl OutOfFuel => slift OutOfFuel
          | inr e =>
              let! _ := write_vfs_error fs stderr (lit "grep") path e in
              grep_files turns inputs regex flags show_path true matched_any
          end
      end
  end.

Definition grep (args : list str) : XM Z :=
  match parse_flags set_grep_flag default_grep_flags args with
  | Err flag => unsupported_with_code fs stderr (lit "grep") (lit "-" ++ [flag]) 2
  | Ok (_, []) => let! _ := say fs stderr (lit "grep: missing pattern" ++ line_end) in sret 2
  | Ok (flags, pattern :: paths) =>
      match rx_build regexes pattern (g_ignore_case flags) with
      | inr message => let! _ := say fs stderr (lit "grep: " ++ message ++ line_end) in sret 2
      | inl regex =>
          let show_path := g_recursive flags || (1 <? length paths)%nat in
          if bool_decide (paths = []) then
            let! r := x_try (grep_reader Stdin [] regex flags false) in
            match r with
            | Ok matched => sret (if matched : bool then 0 else 1)
            | Err e =>
                let! reported := report_stream_error fs stderr (lit "grep") (lit "-") e in
                sret (if (reported : bool) then 2 else 1)
            | Panic => slift Panic
            | OutOfFuel => slift OutOfFuel
            end
          else grep_files fuel (mkGrepInputs paths [] (g_recursive flags)) regex flags show_path false false
      end
  | Panic => slift Panic
  | OutOfFuel => slift OutOfFuel
  end.

(** ** sed *)

(** [bytes.chunks(STREAM_CHUNK_BYTES)], each written. *)
Fixpoint write_chunks (turns : nat) (data : bytes) : XM unit :=
  match turns with
  | O => slift OutOfFuel
  | S turns =>
      if bool_decide (data = []) then sret tt
      else
        let! _ := write_all fs stdout (take (Z.to_nat STREAM_CHUNK_BYTES) data) in
        write_chunks turns (drop (Z.to_nat STREAM_CHUNK_BYTES) data)
  end.
Definition write_sed_piece (data : bytes) : XM unit := write_chunks (S (length data)) data.

(** The loop over the tokens of the replacement; every turn but the last takes one. *)
Fixpoint replacement_loop (turns : nat) (rest : str) (body : bytes) (captures : Captures) : XM unit :=
  match turns with
  | O => slift OutOfFuel
  | S turns =>
      match before_token rest with
      | (before, []) => write_sed_piece (encode rest)
      | (before, token :: rest) =>
          let! _ := write_sed_piece (encode before) in
          if isc token "&" then
            let! matched := slift (group_bytes body captures 0) in
            let! _ := write_sed_piece matched in
            replacement_loop turns rest body captures
          else
            match rest with
            | [] => write_all fs stdout (encode [ch BACKSLASH])
            | c :: rest =>
                let! _ :=
                  (if isc c "n" then write_all fs stdout (encode [ch NL])
                   else if isc c "t" then write_all fs stdout (encode [ch TAB])
                   else
                     match reference_digit c with
                     | Some index =>
                         let! group := slift (group_bytes body captures index) in write_sed_piece group
                     | None => write_all fs stdout (encode [c])
                     end) in
                replacement_loop turns rest body captures
            end
      end
  end.
Definition write_sed_replacement (replacement : str) (body : bytes) (captures : Captures) : XM unit :=
  replacement_loop (S (length replacement)) replacement body captures.

(** The loop over the matches of a line: where the text not yet copied begins. *)
Fixpoint sed_matches (matches : list Captures) (body : bytes) (sub : SedSubstitution) (copied : Z) : XM Z :=
  match matches with
  | [] => sret copied
  | captures :: matches =>
      let! (start, stop) := slift (match captures with Some range :: _ => Ok range | _ => Panic end) in
      let! before := slift (checked_slice body copied start) in
      let! _ := write_sed_piece before in
      let! _ := write_sed_replacement (sub_replacement sub) body captures in
      if negb (sub_global sub) then sret stop else sed_matches matches body sub stop
  end.

Definition sed_line (regex : Rx) (sub : SedSubstitution) (u : unit) (line : bytes) : XM unit :=
  let text := from_utf8_lossy line in
  let body := strip_suffix text (ch NL) in
  let ending := drop (length body) text in
  let bytes := encode body in
  let! copied := sed_matches (rx_captures_iter regexes regex body) bytes sub 0 in
  let! rest := slift (checked_slice bytes copied (len bytes)) in
  let! _ := write_sed_piece rest in
  write_all fs stdout (encode ending).

Definition sed_reader (src : Source) (regex : Rx) (sub : SedSubstitution) : XM unit :=
  each_line fs fuel src empty_buffer (sed_line regex sub) tt.

Fixpoint sed_files (files : list str) (regex : Rx) (sub : SedSubstitution) : XM Z :=
  match files with
  | [] => sret 0
  | file :: files =>
      let! result := with_input fs file
        (fun src => let! r := x_try (sed_reader src regex sub) in sret (inl r))
        (fun e => sret (inr e)) in
      match result with
      | inl (Ok _) => sed_files files regex sub
      | inl (Err e) =>
          let! reported := report_stream_error fs stderr (lit "sed") file e in
          sret (if (reported : bool) then 2 else 1)
      | inl Panic => slift Panic
      | inl OutOfFuel => slift OutOfFuel
      | inr e => let! _ := write_vfs_error fs stderr (lit "sed") file e in sret 2
      end
  end.

Definition sed (args : list str) : XM Z :=
  match args with
  | [] => let! _ := say fs stderr (lit "sed: missing command" ++ line_end) in sret 1
  | script :: files =>
      match parse_sed_substitution script with
      | None =>
          let! _ := say fs stderr
            (lit "sed: unsupported command; tinysandbox supports s/// with g and i flags" ++ line_end) in
          sret 1
      | Some sub =>
          match rx_build regexes (sub_pattern sub) (sub_ignore_case sub) with
          | inr message => let! _ := say fs stderr (lit "sed: " ++ message ++ line_end) in sret 1
          | inl regex =>
              match validate_sed_replacement (sub_replacement sub) (rx_captures_len regexes regex) with
              | Err index =>
                  let! _ := say fs stderr
                    (lit "sed: invalid reference \" ++ Z_to_string index ++ lit " on `s' command's RHS" ++ line_end) in
                  sret 1
              | Ok _ =>
                  if bool_decide (files = []) then
                    let! r := x_try (sed_reader Stdin regex sub) in
                    match r with
                    | Ok _ => sret 0
                    | Err e =>
                        let! reported := report_stream_error fs stderr (lit "sed") (lit "-") e in
                        sret (if (reported : bool) then 2 else 1)
                    | Panic => slift Panic
                    | OutOfFuel => slift OutOfFuel
                    end
                  else sed_files files regex sub
              | Panic => slift Panic
              | OutOfFuel => slift OutOfFuel
              end
          end
      end
  end.
End commands.
