(* ===== verification/TextFacts.v ===== *)
(** * The text commands on their standard input

    A command that reads stdin, writes stdout and complains on stderr: what it
    prints, its exit code, and what it says when its input cannot be read. *)

From Stdlib Require Import Ascii String.
From S2P Require Import Prelude RustStr VfsTypes VfsIface SandboxFs SandboxFsFacts Redirects Output Utf8.
From S2P Require Import Streams LineReader StreamFacts TextLines TextLinesFacts TextCountFacts TextSort.

#[local] Open Scope Z_scope.

(** What [report_stream_error] says, if it says something. *)
Definition error_report (cmd path : str) (e : IoError) : str :=
  match e with
  | BrokenPipe => []
  | InvalidData message => cmd ++ lit ": " ++ path ++ lit ": " ++ message ++ line_end
  | VfsFailure e => cmd ++ lit ": " ++ path ++ lit ": " ++ lit (errno_message e) ++ line_end
  | OtherIo => cmd ++ lit ": " ++ path ++ lit ": " ++ lit (errno_message EINVAL) ++ line_end
  end.

Section terminal.
Context {W : Type} (fs : Fs W).

(** In a state of [J i o e], [i] is left on stdin, [o] was written to stdout and
    [e] to stderr, which takes everything. *)
Class Terminal (src : Source) (stdout stderr : BoxAsyncWrite) (J : bytes -> bytes -> bytes -> XState W -> Prop)
    (F : IoError -> Prop) : Prop := {
  term_stream e :: Streaming fs src stdout (fun i o s => J i o e s) F;
  term_say i o e s data :
    J i o e s -> len (e ++ data) <= USIZE_MAX ->
    wp (write_all fs stderr data) s (fun _ s' => J i o (e ++ data) s') (fun _ _ => False)
}.

Lemma capture_frame fd cap o s s' : same_outputs s s' -> capture_output fd cap o s -> capture_output (W := W) fd cap o s'.
Proof. apply (writes_frame (fs := fs) (dst := ToCapture fd) (F := never)). Qed.

(** A captured execution. *)
Definition captured (RJ : bytes -> XState W -> Prop) (cap1 cap2 : Z) (i o e : bytes) (s : XState W) : Prop :=
  both RJ (capture_output Stdout cap1) i o s /\ capture_output Stderr cap2 e s.

#[global] Instance captured_terminal src RJ cap1 cap2 F :
  Reads fs src RJ F -> Terminal src (ToCapture Stdout) (ToCapture Stderr) (captured RJ cap1 cap2) F.
Proof.
  intros HR. constructor.
  - intros e. constructor.
    + intros i o s n [[Hr Ho] He] Hn. eapply wp_mono; [by apply (reads i s n)|..].
      * intros data s' [(i' & ? & ? & ? & Hr') Hso]. exists i'. do 3 (split; [done|]).
        split; [split; [done|]|]; apply (capture_frame _ _ _ s); done.
      * intros err s' (HF & [i' Hr'] & Hso). split; [done|]. exists i', o.
        split; [split; [done|]|]; apply (capture_frame _ _ _ s); done.
    + intros i o s data [[Hr Ho] He] Hlen. cbn [write_all]. unfold capture_write. do 2 wp_step.
      destruct Ho as [Hc H0]. rewrite len_app in Hlen.
      destruct (capped_write_spec cap1 o data _ Hc H0 Hlen) as (c & -> & Hc'). wp_steps.
      split; [split; [|done]|done]. eapply reads_frame; [|exact Hr]. done.
    + intros i o s f [[Hr Ho] He] Ht. split; [split; [by apply reads_clock|done]|done].
  - intros i o e s data [[Hr Ho] [Hc H0]] Hlen. cbn [write_all]. unfold capture_write. do 2 wp_step.
    rewrite len_app in Hlen. destruct (capped_write_spec cap2 e data _ Hc H0 Hlen) as (c & -> & Hc'). wp_steps.
    split; [split; [|done]|done]. eapply reads_frame; [|exact Hr]. done.
Qed.

(** Stdout is a pipe whose reader goes away after [limit] bytes, stderr is captured. *)
Definition piped (RJ : bytes -> XState W -> Prop) (j : nat) (limit cap2 : Z) (i o e : bytes) (s : XState W) : Prop :=
  both RJ (pipe_breaks j limit) i o s /\ capture_output Stderr cap2 e s.

Lemma pipe_write_outputs j data (s : XState W) :
  wp (pipe_write j data) s (fun _ s' => x_stdout s' = x_stdout s /\ x_stderr s' = x_stderr s)
     (fun _ s' => x_stdout s' = x_stdout s /\ x_stderr s' = x_stderr s)
  \/ (pipe_write j data s).1 = Panic.
Proof.
  unfold pipe_write, wp. cbn. destruct (x_pipes s !! j) as [p|]; [left|by right]. cbn.
  destruct (room p) as [r|]; [|done]. by destruct (r <? len data).
Qed.

#[global] Instance piped_terminal src RJ j limit cap2 :
  Reads fs src RJ (fun e => e = BrokenPipe) ->
  Terminal src (ToPipe j) (ToCapture Stderr) (piped RJ j limit cap2) (fun e => e = BrokenPipe).
Proof.
  intros HR. assert (Streaming fs src (ToPipe j) (both RJ (pipe_breaks j limit)) (fun e => e = BrokenPipe)) as HS by apply _.
  assert (forall o s s', same_outputs s s' -> pipe_breaks j limit o s -> pipe_breaks (W := W) j limit o s') as Hframe
    by exact (writes_frame (fs := fs) (dst := ToPipe j)).
  constructor.
  - intros e. constructor.
    + intros i o s n [[Hr Ho] He] Hn. eapply wp_mono; [by apply (reads i s n)|..].
      * intros data s' [(i' & ? & ? & ? & Hr') Hso]. exists i'. do 3 (split; [done|]).
        split; [split; [done|]|]; [by apply (Hframe o s)|by apply (capture_frame _ _ _ s)].
      * intros err s' (HF & [i' Hr'] & Hso). split; [done|]. exists i', o.
        split; [split; [done|]|]; [by apply (Hframe o s)|by apply (capture_frame _ _ _ s)].
    + intros i o s data [HJ [He Hc]] Hlen.
      pose proof (stream_write (src := src) i o s data HJ Hlen) as Hw.
      destruct (pipe_write_outputs j data s) as [Ho|Hp].
      * pose proof (wp_conj _ _ _ _ _ _ Hw Ho) as H. cbn [write_all] in *. eapply wp_mono; [exact H|..].
        -- intros [] s' [HJ' [_ Hse]]. split; [done|]. split; [|done]. cbn. by rewrite Hse.
        -- intros err s' [[HF (i' & o' & HJ')] [_ Hse]]. split; [done|]. exists i', o'. split; [done|].
           split; [|done]. cbn. by rewrite Hse.
      * exfalso. cbn [write_all] in *. unfold wp in Hw. destruct (pipe_write j data s) as [[] ?]; done.
    + intros i o s f [HJ He] Ht. split; [|done].
      apply (stream_clock (src := src) (dst := ToPipe j) (F := fun e => e = BrokenPipe) i o s f HJ Ht).
  - intros i o e s data [[Hr Ho] [Hc H0]] Hlen. cbn [write_all]. unfold capture_write. do 2 wp_step.
    rewrite len_app in Hlen. destruct (capped_write_spec cap2 e data _ Hc H0 Hlen) as (c & -> & Hc'). wp_steps.
    split; [split; [|done]|done]. eapply reads_frame; [|exact Hr]. done.
Qed.

Context (src : Source) (stdout stderr : BoxAsyncWrite) (J : bytes -> bytes -> bytes -> XState W -> Prop)
  (F : IoError -> Prop) {Ht : Terminal src stdout stderr J F}.

Lemma wp_x_try {A} (m : ST (XState W) IoError A) s (Q : outcome IoError A -> XState W -> Prop) R :
  wp m s (fun a s' => Q (Ok a) s') (fun e s' => Q (Err e) s') -> wp (x_try m) s Q R.
Proof. unfold wp, x_try. by destruct (m s) as [[] ?]. Qed.

Lemma say_spec i o e s text (R : IoError -> XState W -> Prop) :
  J i o e s -> len (e ++ encode text) <= USIZE_MAX ->
  wp (say fs stderr text) s (fun _ s' => J i o (e ++ encode text) s') R.
Proof.
  intros HJ Hl. unfold say, write_ignored. wp_step. apply wp_x_try.
  eapply wp_mono; [by apply term_say| |done]. intros [] s' HJ'. by apply wp_ret.
Qed.

Lemma report_spec i o e s cmd path err (R : IoError -> XState W -> Prop) :
  J i o e s -> len (e ++ encode (error_report cmd path err)) <= USIZE_MAX ->
  wp (report_stream_error fs stderr cmd path err) s
     (fun b s' => b = negb (is_broken_pipe err) /\ J i o (e ++ encode (error_report cmd path err)) s') R.
Proof.
  intros HJ Hl. unfold report_stream_error. destruct err as [|m|errno|]; simpl.
  - apply wp_ret. split; [done|]. simpl. by rewrite app_nil_r.
  - unfold is_line_too_long. case_bool_decide as Hm.
    + wp_step. injection Hm as ->. eapply wp_mono; [by apply say_spec|..]; [|done].
      intros [] s' HJ'. by apply wp_ret.
    + wp_step. eapply wp_mono; [by apply say_spec|..]; [|done]. intros [] s' HJ'. by apply wp_ret.
  - wp_step. eapply wp_mono; [by apply say_spec|..]; [|done]. intros [] s' HJ'. by apply wp_ret.
  - wp_step. eapply wp_mono; [by apply say_spec|..]; [|done]. intros [] s' HJ'. by apply wp_ret.
Qed.

(** A command on stdin either did what it should and exits with 0, or an error
    stopped it: it says so and exits with [bad]. *)
Definition ended (cmd : str) (bad : Z) (Why : IoError -> Prop) (Good : XState W -> Prop) (e : bytes)
    (code : Z) (s : XState W) : Prop :=
  (code = 0 /\ Good s)
  \/ (code = bad /\ exists err i o, Why err /\ J i o (e ++ encode (error_report cmd (lit "-") err)) s).

(** There is room on stderr for any of these errors. *)
Definition reportable (cmd : str) (Why : IoError -> Prop) (e : bytes) : Prop :=
  forall err, Why err -> len (e ++ encode (error_report cmd (lit "-") err)) <= USIZE_MAX.

(** [match reader(..).await { Ok => .., Err(err) => { report; code } }]. *)
Lemma reported_spec {A} (m : ST (XState W) IoError A) s cmd bad e (Why : IoError -> Prop) (Good : A -> XState W -> Prop) R
    (ok : A -> ST (XState W) IoError Z) (Done : XState W -> Prop) :
  wp m s Good (fun err s' => Why err /\ exists i o, J i o e s') ->
  (forall a s', Good a s' -> wp (ok a) s' (fun code s2 => code = 0 /\ Done s2) R) ->
  reportable cmd Why e ->
  wp (let! r := x_try m in
      match r with
      | Ok a => ok a
      | Err err => let! _ := report_stream_error fs stderr cmd (lit "-") err in sret bad
      | Panic => slift Panic
      | OutOfFuel => slift OutOfFuel
      end) s (ended cmd bad Why Done e) R.
Proof.
  intros Hm Hok Hrep. wp_step. apply wp_x_try. eapply wp_mono; [exact Hm|..].
  - intros a s' Ha. eapply wp_mono; [by apply Hok| |done]. intros code s2 H. by left.
  - intros err s' (Hwhy & i & o & HJ). wp_step. eapply wp_mono; [apply report_spec; [exact HJ|by apply Hrep]| |done].
    intros b s2 [_ HJ2]. apply wp_ret. right. split; [done|]. by exists err, i, o.
Qed.

(** Why a command that reads lines stops early. *)
Definition line_trouble (ls : list bytes) (err : IoError) : Prop :=
  (err = line_too_long_error /\ ~ Forall short ls) \/ F err.

Lemma head_tail_done_eq (m : ST (XState W) IoError unit) cmd :
  forall s, (let! r := x_try m in let! stop := head_tail_done fs stderr cmd (lit "-") r in sret (default 0 stop)) s
  = (let! r := x_try m in
      match r with
      | Ok a => sret 0
      | Err err => let! _ := report_stream_error fs stderr cmd (lit "-") err in sret 1
      | Panic => slift Panic
      | OutOfFuel => slift OutOfFuel
      end) s.
Proof.
  intros s. unfold sbind at 1 3. destruct (x_try m s) as [[[?|?| |]|?| |] ?]; try done. unfold head_tail_done, sbind.
  by destruct (report_stream_error _ _ _ _ _ _) as [[] ?].
Qed.

Lemma wp_ext {A} (m m' : ST (XState W) IoError A) s Q R : m s = m' s -> wp m' s Q R -> wp m s Q R.
Proof. unfold wp. by intros ->. Qed.
End terminal.

Arguments term_stream {W fs src stdout stderr J F _} e.
Arguments term_say {W fs src stdout stderr J F _}.

Section commands.
Context {W : Type} (fs : Fs W) (stdout stderr : BoxAsyncWrite) (J : bytes -> bytes -> bytes -> XState W -> Prop)
  (F : IoError -> Prop) {Ht : Terminal fs Stdin stdout stderr J F}.

Lemma t_read i o e s cap :
  J i o e s -> 0 < cap ->
  wp (read fs Stdin cap) s
     (fun data s' => exists i', i = data ++ i' /\ len data <= cap /\ (data = [] -> i = []) /\ J i' o e s')
     (stream_failed (fun i o => J i o e) F).
Proof. pose proof (term_stream (J := J) e). apply (stream_read (J := fun i o => J i o e) (dst := stdout)). Qed.

Lemma t_write i o e s data :
  J i o e s -> len (o ++ data) <= USIZE_MAX ->
  wp (write_all fs stdout data) s (fun _ s' => J i (o ++ data) e s') (stream_failed (fun i o => J i o e) F).
Proof. pose proof (term_stream (J := J) e). apply (stream_write (J := fun i o => J i o e) (src := Stdin)). Qed.

Lemma t_clock i o e s f : J i o e s -> ticked (x_fs s) f -> J i o e (with_fs f s).
Proof. pose proof (term_stream (J := J) e). apply (stream_clock (J := fun i o => J i o e) (src := Stdin) (dst := stdout)). Qed.

(** ** head and tail *)

Lemma parse_usize_nonneg s n : parse_usize s = Some n -> 0 <= n.
Proof.
  unfold parse_usize, parse_unsigned. destruct (match s with [] => s | _ => _ end) as [|c r]; [done|].
  assert (forall s acc v, dec_value s acc = Some v -> 0 <= acc -> 0 <= v) as H.
  { clear. induction s as [|d s IH]; simpl; intros acc v; [by intros [= ->]|].
    destruct (digit_value d) as [x|] eqn:Hd; [|done]. intros Hv Hacc. eapply IH; [done|].
    unfold digit_value, is_ascii_digit, in_range in Hd. destruct (_ && _) eqn:Hr; [|done]. unbool.
    apply N.leb_le in H. change (ch "0") with 48%N in H. injection Hd as <-. lia. }
  destruct (dec_value _ 0) as [v|] eqn:Hv; [|done]. destruct (v <=? USIZE_MAX); [|done]. intros [= <-].
  by apply (H _ _ _ Hv).
Qed.

Lemma parse_count_nonneg value head_mode count :
  parse_head_tail_count value head_mode = Some count ->
  match count with LastLines n => 0 <= n | FromLine n => 1 <= n /\ head_mode = false end.
Proof.
  unfold parse_head_tail_count. destruct (strip_prefix value (lit "+")) as [from|].
  - destruct head_mode; [done|]. destruct (parse_usize from) as [n|] eqn:Hn; [|done]. intros [= <-].
    split; [lia|done].
  - destruct (parse_usize value) as [n|] eqn:Hn; [|done]. intros [= <-]. by apply parse_usize_nonneg in Hn.
Qed.

Lemma parse_head_tail_count_ok head_mode args n verbose files c v f :
  parse_head_tail head_mode args n verbose files = Ok (c, v, f) ->
  match n with LastLines k => 0 <= k | FromLine k => 1 <= k /\ head_mode = false end ->
  match c with LastLines k => 0 <= k | FromLine k => 1 <= k /\ head_mode = false end.
Proof.
  remember (length args) as m eqn:Hm. revert args n verbose files Hm.
  induction m as [m IH] using lt_wf_ind. intros args n verbose files -> H Hn.
  destruct args as [|arg args]; cbn [parse_head_tail] in H; [by simplify_eq|].
  case_bool_decide; [eapply (IH (length args)); [simpl; lia|done|done|done]|].
  case_bool_decide.
  - destruct args as [|value args]; [done|]. destruct (parse_head_tail_count value head_mode) as [count|] eqn:Hc; [|done].
    eapply (IH (length args)); [simpl; lia|done|done|]. by apply parse_count_nonneg in Hc.
  - destruct (starts_with arg (lit "-")); [done|]. eapply (IH (length args)); [simpl; lia|done|done|done].
Qed.

Lemma head_stdin fuel args n verbose i o e s :
  J i o e s -> parse_head_tail true args (LastLines 10) false [] = Ok (LastLines n, verbose, []) ->
  let wanted := take (Z.to_nat n) (split_lines i) in
  (length (split_lines i) < fuel)%nat -> len (o ++ concat wanted) <= USIZE_MAX ->
  reportable (lit "head") (line_trouble F wanted) e ->
  wp (head_tail fs stdout stderr fuel true args) s
     (ended J (lit "head") 1 (line_trouble F wanted) (fun s' => exists i', J i' (o ++ concat wanted) e s') e)
     (fun _ _ => False).
Proof.
  intros HJ Hargs wanted Hf Hout Hrep. pose proof (parse_head_tail_count_ok _ _ _ _ _ _ _ _ Hargs) as Hn.
  specialize (Hn ltac:(done)). cbv beta in Hn. unfold head_tail. rewrite Hargs. cbv iota zeta.
  rewrite bool_decide_true by done. eapply wp_ext; [apply head_tail_done_eq|].
  apply (reported_spec fs Stdin stdout stderr J F) with
    (Good := fun _ s' => exists i', J i' (o ++ concat wanted) e s').
  - unfold head_tail_reader. cbn [ht_count ht_head]. do 2 wp_step. cbv iota.
    apply (head_loop_spec fs Stdin stdout (fun i o s => J i o e s) F fuel empty_buffer i o s n);
      [done|apply buffer_ok_empty|done|done|done].
  - intros [] s' H. by apply wp_ret.
  - done.
Qed.

(** Why [tail] stops early. *)
Definition tail_trouble (limit window_bytes : Z) (ls : list bytes) (err : IoError) : Prop :=
  (err = InvalidData TAIL_TOO_LARGE /\ ~ window_fits limit window_bytes ls) \/ line_trouble F ls err.

Definition tail_wanted (count : TailCount) (ls : list bytes) : list bytes :=
  match count with
  | LastLines n => last_lines n ls
  | FromLine n => drop (Z.to_nat (n - 1)) ls
  end.

Definition count_trouble (count : TailCount) (ls : list bytes) (err : IoError) : Prop :=
  match count with
  | LastLines n => tail_trouble n (tail_input_bytes (f_limits fs)) ls err
  | FromLine n => line_trouble F ls err
  end.

Lemma tail_stdin fuel args count verbose i o e s :
  J i o e s -> parse_head_tail false args (LastLines 10) false [] = Ok (count, verbose, []) ->
  let wanted := tail_wanted count (split_lines i) in
  0 <= tail_input_bytes (f_limits fs) -> len i + 1 <= USIZE_MAX ->
  (length (split_lines i) < fuel)%nat -> len (o ++ concat wanted) <= USIZE_MAX ->
  reportable (lit "tail") (count_trouble count (split_lines i)) e ->
  wp (head_tail fs stdout stderr fuel false args) s
     (ended J (lit "tail") 1 (count_trouble count (split_lines i)) (J [] (o ++ concat wanted) e) e)
     (fun _ _ => False).
Proof.
  intros HJ Hargs wanted Hw Hi Hf Hout Hrep. pose proof (parse_head_tail_count_ok _ _ _ _ _ _ _ _ Hargs) as Hn.
  specialize (Hn ltac:(done)). cbv beta in Hn. unfold head_tail. rewrite Hargs. cbv iota zeta.
  rewrite bool_decide_true by done. eapply wp_ext; [apply head_tail_done_eq|].
  apply (reported_spec fs Stdin stdout stderr J F) with (Good := fun _ => J [] (o ++ concat wanted) e); [| |done].
  2: { intros [] s' H. by apply wp_ret. }
  unfold head_tail_reader. cbn [ht_count ht_head]. do 2 wp_step. destruct count as [n|n]; cbv iota.
  - eapply wp_mono; [apply (tail_reader_spec fs Stdin stdout (fun i o s => J i o e s) F fuel i o s n); first [done|lia]|done|].
    intros err s' [(-> & Hn' & HJ')|[Hl HJ']]; (split; [|done]); [by left|by right].
  - wp_step. eapply wp_mono; [apply (from_reader_spec fs Stdin stdout (fun i o s => J i o e s) F fuel i o s n);
      first [done|lia]|..].
    + intros k s' HJ'. by apply wp_ret.
    + done.
Qed.

(** ** uniq *)

Lemma uniq_stdin fuel args flags i o e s :
  J i o e s -> parse_uniq args (mkUniqFlags false false false) [] = Ok (flags, []) ->
  let text := concat (run_bytes flags <$> runs (line_text_lossy <$> split_lines i)) in
  len i <= USIZE_MAX -> (length (split_lines i) < fuel)%nat -> len (o ++ text) <= USIZE_MAX ->
  reportable (lit "uniq") (line_trouble F (split_lines i)) e ->
  wp (uniq fs stdout stderr fuel args) s
     (ended J (lit "uniq") 1 (line_trouble F (split_lines i)) (J [] (o ++ text) e) e) (fun _ _ => False).
Proof.
  intros HJ Hargs text Hi Hf Hout Hrep. unfold uniq. rewrite Hargs. cbn [length List.hd_error default].
  unfold with_input. rewrite bool_decide_true by done.
  apply (reported_spec fs Stdin stdout stderr J F) with (Good := fun _ => J [] (o ++ text) e); [| |done].
  - apply (uniq_reader_spec fs Stdin stdout (fun i o s => J i o e s) F fuel flags i o s HJ Hi Hf Hout).
  - intros [] s' H. by apply wp_ret.
Qed.
(** ** wc *)

Lemma wc_stdin fuel args flags i o e s :
  J i o e s -> parse_flags set_wc_flag (mkWcFlags false false false) args = Ok (flags, []) ->
  let counts := mkCounts (newlines i) (word_count i) (len i) in
  let shown := if negb (show_lines flags) && negb (show_words flags) && negb (show_bytes flags)
               then mkWcFlags true true true else flags in
  let text := encode (counts_text counts None shown 7) in
  len i <= USIZE_MAX -> (length i < fuel)%nat -> len (o ++ text) <= USIZE_MAX ->
  reportable (lit "wc") F e ->
  wp (wc fs stdout stderr fuel args) s
     (ended J (lit "wc") 1 F (fun s' => J [] (o ++ text) e s' \/ exists err, stream_failed (fun i o => J i o e) F err s') e) (fun _ _ => False).
Proof.
  intros HJ Hargs counts shown text Hi Hf Hout Hrep. unfold wc. rewrite Hargs. cbv iota zeta.
  rewrite bool_decide_true by done. fold shown.
  apply (reported_spec fs Stdin stdout stderr J F) with (Good := fun c s' => c = counts /\ J [] o e s'); [| |done].
  - eapply wp_mono; [by apply (counts_reader_spec fs Stdin stdout (fun i o s => J i o e s) F fuel i o s)|done|].
    intros err s' [HF HJ']. done.
  - intros c s' [-> HJ']. wp_step. unfold write_counts, say, write_ignored. wp_step. apply wp_x_try.
    eapply wp_mono; [by apply t_write|..].
    + intros [] s2 HJ2. do 2 apply wp_ret. split; [done|by left].
    + intros err s2 HF. do 2 apply wp_ret. split; [done|]. right. eauto.
Qed.

(** ** cat *)

Lemma cat_stdin fuel args flags st2 out i o e s :
  J i o e s -> parse_flags set_cat_flag default_cat_flags args = Ok (flags, []) ->
  let failing := line_trouble F (if cat_plain flags then [] else split_lines i) in
  cat_transform i flags (mkCatState 0 false) = Ok (st2, out) ->
  (length i < fuel)%nat -> len (o ++ out) <= USIZE_MAX -> reportable (lit "cat") failing e ->
  wp (cat fs stdout stderr fuel args) s
     (ended J (lit "cat") 1 failing (J [] (o ++ out) e) e) (fun _ _ => False).
Proof.
  intros HJ Hargs failing Hout Hf Hmax Hrep. unfold cat. rewrite Hargs. cbv iota. rewrite bool_decide_true by done.
  cbn [cat_paths]. unfold with_input. rewrite bool_decide_true by done. wp_step. wp_step. apply wp_x_try.
  eapply wp_mono; [by eapply (cat_stream_spec fs Stdin stdout (fun i o s => J i o e s) F)|..].
  - intros st' s' [HJ' _]. wp_steps. by left.
  - intros err s' (Hwhy & i' & o' & HJ'). cbv iota. wp_step.
    eapply wp_mono; [apply (report_spec fs Stdin stdout stderr J F) with (R := fun _ _ => False); [exact HJ'|by apply Hrep]| |done].
    intros b s2 [Hb HJ2]. cbv beta.
    assert (ended J (lit "cat") 1 failing (J [] (o ++ out) e) e 1 s2) as Hend
      by (right; split; [done|]; by exists err, i', o').
    destruct b; by wp_steps.
Qed.

(** ** sort *)

Lemma wp_x_check i o e s (Q : unit -> XState W -> Prop) (R : IoError -> XState W -> Prop) :
  J i o e s -> (forall s', J i o e s' -> Q tt s') ->
  (forall s', J i o e s' -> cancelled_seen (f_scoped fs) (f_cancelled fs) -> R (VfsFailure EIO) s') ->
  wp (x_check fs) s Q R.
Proof.
  intros HJ HQ HR. unfold x_check, x_on_fs. wp_step. apply wp_x_try_fs, wp_check.
  - intros f Hf. apply wp_ret, HQ. by apply t_clock.
  - intros f Hf Hc. apply wp_fail, HR; [|done]. by apply t_clock.
Qed.

(** Why the input of [sort] is refused. *)
Definition input_trouble (all : bytes) (limit : Z) (err : IoError) : Prop :=
  (err = InvalidData (lit "input too large") /\ limit < len all)
  \/ (err = VfsFailure EIO /\ cancelled_seen (f_scoped fs) (f_cancelled fs)) \/ F err.

Lemma read_input_loop_spec fuel input limit i o e s :
  J i o e s -> 0 <= limit < USIZE_MAX -> len input <= limit -> limit - len input + 1 < Z.of_nat fuel ->
  wp (read_input_loop fs fuel Stdin input limit) s
     (fun all s' => all = input ++ i /\ len all <= limit /\ J [] o e s')
     (fun err s' => input_trouble (input ++ i) limit err /\ exists i o, J i o e s').
Proof.
  intros HJ Hl. revert input i s HJ. induction fuel as [|fuel IH]; intros input i s HJ Hin Hf; [lia|].
  cbn [read_input_loop]. wp_step. eapply wp_x_check; [exact HJ| |].
  2: { intros s' HJ' Hc. split; [right; by left|eauto]. }
  intros s1 HJ1. cbv zeta. wp_step. pose proof (len_nonneg input) as H0. unfold saturating_sub.
  set (want := Z.min STREAM_CHUNK_BYTES _).
  assert (0 < want) as Hw by (unfold want, saturating_add, STREAM_CHUNK_BYTES; lia).
  eapply wp_mono; [by apply t_read|..].
  2: { intros err s' [HF HJ']. split; [by do 2 right|done]. }
  intros data s' (i' & -> & Hlen & Hnil & HJ'). cbv beta. wp_step.
  - subst data. rewrite (Hnil eq_refl) in *. rewrite app_nil_r in *. apply wp_ret. simpl in Hnil.
    specialize (Hnil eq_refl). by subst i'.
  - wp_step.
    + apply wp_fail. split; [left|eauto]. split; [done|]. rewrite !len_app. pose proof (len_nonneg i'). lia.
    + rewrite app_assoc. apply IH; [done|rewrite len_app; lia|]. rewrite len_app.
      assert (0 < len data) by (unfold len; destruct data; [done|simpl; lia]). lia.
Qed.

Lemma wp_x_is_cancelled i o e s (Q : bool -> XState W -> Prop) (R : IoError -> XState W -> Prop) :
  J i o e s ->
  (forall b s', J i o e s' -> (b = true -> cancelled_seen (f_scoped fs) (f_cancelled fs)) -> Q b s') ->
  wp (x_on_fs (is_cancelled (f_scoped fs) (f_cancelled fs))) s Q R.
Proof.
  intros HJ HQ. unfold x_on_fs. wp_step. apply wp_x_try_fs. unfold is_cancelled.
  destruct (f_scoped fs) eqn:Hsc.
  - unfold wp at 1, control_is_cancelled. cbn. apply HQ.
    + by apply t_clock.
    + intros Hc. split; [done|eauto].
  - do 2 apply wp_ret. apply HQ; [|done]. by apply t_clock.
Qed.

Definition lines_bytes (ls : list str) : bytes := concat ((fun l => encode l ++ [NEWLINE]) <$> ls).

Lemma write_lines_spec index ls i o e s :
  J i o e s -> len (o ++ lines_bytes ls) <= USIZE_MAX ->
  wp (write_lines fs stdout index ls) s
     (fun code s' => (code = 0 /\ J i (o ++ lines_bytes ls) e s')
        \/ (code = 124 /\ cancelled_seen (f_scoped fs) (f_cancelled fs))
        \/ (code = 1 /\ exists err, stream_failed (fun i o => J i o e) F err s')) (fun _ _ => False).
Proof.
  revert index o s. induction ls as [|l ls IH]; intros index o s HJ Hout; cbn [write_lines].
  { apply wp_ret. left. split; [done|]. unfold lines_bytes. simpl. by rewrite app_nil_r. }
  assert (o ++ lines_bytes (l :: ls) = ((o ++ encode l) ++ [NEWLINE]) ++ lines_bytes ls) as Ho.
  { unfold lines_bytes. simpl. by rewrite <- !app_assoc. }
  rewrite Ho in *.
  assert (forall s, J i o e s ->
    wp (let! r := x_try (let! _ := write_text fs stdout l in write_all fs stdout [NEWLINE]) in
        match r with
        | Ok _ => write_lines fs stdout (S index) ls
        | Err _ => sret 1
        | Panic => slift Panic
        | OutOfFuel => slift OutOfFuel
        end) s
     (fun code s' => (code = 0 /\ J i (((o ++ encode l) ++ [NEWLINE]) ++ lines_bytes ls) e s')
        \/ (code = 124 /\ cancelled_seen (f_scoped fs) (f_cancelled fs))
        \/ (code = 1 /\ exists err, stream_failed (fun i o => J i o e) F err s')) (fun _ _ => False)) as Hline.
  { clear s HJ. intros s HJ. wp_step. apply wp_x_try. wp_step. pose proof Hout as Hout2.
    rewrite len_app in Hout2. pose proof (len_nonneg (lines_bytes ls)).
    assert (len ((o ++ encode l) ++ [NEWLINE]) <= USIZE_MAX) as H2 by lia.
    assert (len (o ++ encode l) <= USIZE_MAX) as H1 by (by eapply len_prefix).
    eapply wp_mono; [by apply t_write|..].
    - intros [] s1 HJ1. eapply wp_mono; [by apply t_write|..].
      + intros [] s2 HJ2. by apply IH.
      + intros err s2 HF. apply wp_ret. do 2 right. eauto.
    - intros err s2 HF. apply wp_ret. do 2 right. eauto. }
  wp_step. case_bool_decide.
  - apply wp_x_try. eapply wp_x_check; [exact HJ|done|]. intros s' _ Hc. apply wp_ret. right. by left.
  - apply wp_ret. by apply Hline.
Qed.

Definition TOO_LARGE : str := lit "sort: input too large for tinysandbox sort" ++ line_end.

Lemma sort_stdin args flags i o e s :
  let limit := sort_input_bytes (f_limits fs) in
  let out := sort_lines flags (text_lines (from_utf8_lossy i)) in
  J i o e s -> parse_flags set_sort_flag (mkSortFlags false false false) args = Ok (flags, []) ->
  0 <= limit < USIZE_MAX -> len (o ++ lines_bytes out) <= USIZE_MAX ->
  len (e ++ encode TOO_LARGE) <= USIZE_MAX -> reportable (lit "sort") (fun err => err = VfsFailure EIO \/ F err) e ->
  wp (sort fs stdout stderr args) s
     (fun code s' =>
        (code = 0 /\ len i <= limit /\ J [] (o ++ lines_bytes out) e s')
        \/ (code = 124 /\ cancelled_seen (f_scoped fs) (f_cancelled fs))
        \/ (code = 2 /\ limit < len i /\ exists i' o', J i' o' (e ++ encode TOO_LARGE) s')
        \/ (1 <= code <= 2 /\ exists err i' o' e', (F err \/ (err = VfsFailure EIO /\ cancelled_seen (f_scoped fs) (f_cancelled fs))) /\ J i' o' e' s'))
     (fun _ _ => False).
Proof.
  intros limit out HJ Hargs Hl Hout He Hrep. unfold sort. rewrite Hargs. cbv iota zeta.
  rewrite bool_decide_true by done. fold limit. cbn [read_inputs]. wp_step. wp_step. apply wp_x_try.
  unfold with_input. rewrite bool_decide_true by done. unfold read_input_bounded.
  eapply wp_mono; [apply (read_input_loop_spec _ [] limit i o e s HJ Hl); change (len (@nil Z)) with 0; lia|..].
  - intros all s1 (-> & Hlen & HJ1). apply wp_ret. cbv iota. wp_step. apply wp_x_try. cbn [app] in *.
    eapply wp_x_check; [exact HJ1| |intros s2 _ Hc; apply wp_ret; right; by left].
    intros s2 HJ2. cbv iota. fold out. eapply wp_mono; [by apply write_lines_spec| |done].
    intros code s3 [[-> HJ3]|[Hc|[-> (err & HF & i' & o' & HJ3)]]]; [by left|right; by left|].
    do 3 right. split; [lia|]. exists err, i', o', e. auto.
  - intros err s1 (Hwhy & i' & o' & HJ1). cbv iota. unfold input_failed. wp_step. wp_step.
    eapply wp_x_is_cancelled; [exact HJ1|]. intros b s2 HJ2 Hb. destruct b.
    { do 2 apply wp_ret. right. left. split; [done|by apply Hb]. }
    destruct Hwhy as [[-> Hlong]|[[-> Hc]|HF]].
    + wp_step. eapply wp_mono; [apply (say_spec fs Stdin stdout stderr J F) with (R := fun _ _ => False); [exact HJ2|exact He]| |done].
      intros [] s3 HJ3. do 2 apply wp_ret. do 2 right. left. eauto.
    + wp_step. eapply wp_mono; [apply (report_spec fs Stdin stdout stderr J F) with (R := fun _ _ => False); [exact HJ2|apply Hrep; by left]| |done].
      intros b s3 [_ HJ3]. do 2 apply wp_ret. do 3 right. split; [lia|]. do 4 eexists. split; [by right|exact HJ3].
    + destruct err as [|m|errno|].
      2: { wp_step. eapply wp_mono; [apply (say_spec fs Stdin stdout stderr J F) with (R := fun _ _ => False); [exact HJ2|exact He]| |done].
           intros [] s3 HJ3. do 2 apply wp_ret. do 3 right. split; [lia|]. do 4 eexists. split; [by left|exact HJ3]. }
      all: wp_step; (eapply wp_mono; [apply (report_spec fs Stdin stdout stderr J F) with (R := fun _ _ => False); [exact HJ2|apply Hrep; by right]| |done]);
        intros b s3 [_ HJ3]; do 2 apply wp_ret; do 3 right; (split; [lia|]); do 4 eexists; (split; [by left|exact HJ3]).
Qed.
End commands.

(** ** What cat shows

    [cat] with its options against a reference that works on the whole list of
    lines: which lines are kept, how each is shown, and the number each one bears. *)

#[local] Open Scope Z_scope.

Definition blank_line (l : bytes) : bool := bool_decide (l = [NEWLINE]).

(** The lines without those that are blank and come after a blank one. *)
Fixpoint squeezed (after_blank : bool) (ls : list bytes) : list bytes :=
  match ls with
  | [] => []
  | l :: ls => if blank_line l && after_blank then squeezed after_blank ls else l :: squeezed (blank_line l) ls
  end.
Definition kept_lines (f : CatFlags) (after_blank : bool) (ls : list bytes) : list bytes :=
  if squeeze f then squeezed after_blank ls else ls.

Definition is_numbered (f : CatFlags) (l : bytes) : bool :=
  if number_nonblank f then negb (blank_line l) else number f.

(** A line with its tabs and its end made visible, where asked. *)
Definition shown_line (f : CatFlags) (l : bytes) : bytes :=
  let '(content, ending) := match position l with
                            | Some pos => (take (Z.to_nat pos) l, (if show_ends f then [36] else []) ++ [NEWLINE])
                            | None => (l, [])
                            end in
  (if show_tabs f then cat_tabs content else content) ++ ending.

(** How many of [ls] are numbered. *)
Definition numbered_count (f : CatFlags) (ls : list bytes) : Z := len (filter (fun l => is_numbered f l = true) ls).

(** The kept lines, each numbered one after the count of those up to it. *)
Definition cat_reference (f : CatFlags) (before : Z) (ks : list bytes) : bytes :=
  concat (imap (fun k l =>
    (if is_numbered f l
     then encode (pad_left 6 (Z_to_string (before + numbered_count f (take (S k) ks))) ++ [ch TAB]) else [])
    ++ shown_line f l) ks).

Lemma numbered_count_cons f l ls :
  numbered_count f (l :: ls) = (if is_numbered f l then 1 else 0) + numbered_count f ls.
Proof. unfold numbered_count. rewrite filter_cons. destruct (is_numbered f l); simpl; unfold len; simpl; lia. Qed.

Lemma cat_reference_cons f before l ks :
  cat_reference f before (l :: ks)
  = (let n := before + (if is_numbered f l then 1 else 0) in
     (if is_numbered f l then encode (pad_left 6 (Z_to_string n) ++ [ch TAB]) else []) ++ shown_line f l
     ++ cat_reference f n ks).
Proof.
  unfold cat_reference. cbv zeta. rewrite imap_cons. cbn [concat]. rewrite <- app_assoc. f_equal.
  - cbn [take]. rewrite numbered_count_cons. unfold numbered_count at 1. cbn. by rewrite Z.add_0_r.
  - f_equal. f_equal. apply imap_ext. intros k x _. cbn [compose]. cbn [take]. rewrite numbered_count_cons.
    by rewrite Z.add_assoc.
Qed.

Lemma numbered_count_bounds f ls : 0 <= numbered_count f ls <= len ls.
Proof.
  induction ls as [|l ls IH]; [done|]. rewrite numbered_count_cons.
  assert (len (l :: ls) = 1 + len ls) by (unfold len; simpl; lia). destruct (is_numbered f l); lia.
Qed.

(** One line, as the code has it cut. *)
Definition line_parts (l : bytes) : bytes * bool :=
  match position l with Some pos => (take (Z.to_nat pos) l, true) | None => (l, false) end.

Lemma line_parts_blank l :
  line_shape l -> bool_decide ((line_parts l).1 = []) && (line_parts l).2 = blank_line l.
Proof.
  unfold line_parts, blank_line. intros [(a & -> & Ha)|[Ha Hne]].
  - rewrite position_newline by done. unfold len. rewrite Nat2Z.id, take_app_length. cbn [fst snd].
    rewrite andb_true_r. apply bool_decide_ext. destruct a as [|b [|c a]]; naive_solver.
  - rewrite (proj2 (position_None l)) by done. cbn [fst snd]. rewrite andb_false_r. symmetry.
    apply bool_decide_eq_false. intros ->. apply Ha. by left.
Qed.

Lemma shown_line_parts f l :
  shown_line f l = (if show_tabs f then cat_tabs (line_parts l).1 else (line_parts l).1)
    ++ (if (line_parts l).2 then (if show_ends f then [36] else []) ++ [NEWLINE] else []).
Proof. unfold shown_line, line_parts. by destruct (position l). Qed.

Lemma cat_lines_cons l ls f st :
  cat_lines (l :: ls) f st
  = let? (st, a) := cat_transform_line (line_parts l).1 (line_parts l).2 f st in
    let? (st, b) := cat_lines ls f st in Ok (st, a ++ b).
Proof. unfold line_parts. cbn [cat_lines]. by destruct (position l). Qed.

(** [cat] shows the kept lines, numbered and made visible as asked. *)
Lemma cat_lines_reference ls f st :
  Forall line_shape ls -> 0 <= cat_line st -> cat_line st + len ls <= U64_MAX ->
  exists st', cat_lines ls f st = Ok (st', cat_reference f (cat_line st) (kept_lines f (prev_blank st) ls)).
Proof.
  revert st. induction ls as [|l ls IH]; intros st Hsh H0 Hmax.
  { exists st. unfold kept_lines. cbn [squeezed cat_lines]. by destruct (squeeze f). }
  apply Forall_cons in Hsh as [Hl Hsh]. assert (len (l :: ls) = 1 + len ls) as Hlen by (unfold len; simpl; lia).
  rewrite Hlen in Hmax. pose proof (len_nonneg ls) as Hls. rewrite cat_lines_cons. unfold cat_transform_line. cbv zeta.
  rewrite line_parts_blank by done. unfold kept_lines in *. cbn [squeezed].
  destruct (squeeze f && blank_line l && prev_blank st) eqn:Hskip.
  - destruct (squeeze f); [|done]. rewrite andb_true_l in Hskip. rewrite Hskip. cbn.
    destruct (IH st) as (st' & ->); [done|done|lia|]. cbn. eauto.
  - change (if number_nonblank f then negb (blank_line l) else number f) with (is_numbered f l).
    set (n := cat_line st + (if is_numbered f l then 1 else 0)).
    assert ((if is_numbered f l then u64_add (cat_line st) 1 else Ok (cat_line st)) = Ok n :> outcome IoError Z) as ->.
    { unfold n, u64_add, checked_add. destruct (is_numbered f l); [|by rewrite Z.add_0_r].
      by rewrite (proj2 (Z.leb_le (cat_line st + 1) U64_MAX)) by lia. }
    cbn. destruct (IH (mkCatState n (blank_line l))) as (st' & Hrest); [done|..].
    1, 2: unfold n; cbn; destruct (is_numbered f l); lia.
    rewrite Hrest. exists st'. cbn. f_equal. f_equal. cbn [cat_line prev_blank].
    assert ((if squeeze f then if blank_line l && prev_blank st then squeezed (prev_blank st) ls
                               else l :: squeezed (blank_line l) ls else l :: ls)
            = l :: (if squeeze f then squeezed (blank_line l) ls else ls)) as ->.
    { destruct (squeeze f); [|done]. rewrite andb_true_l in Hskip. by rewrite Hskip. }
    rewrite cat_reference_cons. cbv zeta. fold n. rewrite shown_line_parts, <- !app_assoc. done.
Qed.
