(* ===== verification/MatchFacts.v ===== *)
(** * What echo, grep and sed do

    The escapes of [echo] as spellings of a text; the lines [grep] selects and the
    walk over its inputs, which ends; the substitution of [sed] as text put together
    from pieces, and its scripts. *)

From Stdlib Require Import Ascii String.
From S2P Require Import Prelude RustStr VfsTypes VfsIface VfsPath SandboxFs SandboxFsFacts SandboxFsFrame Redirects.
From S2P Require Import Output Utf8 Streams LineReader StreamFacts TextLines TextLinesFacts TextFacts RemoveFacts TextMatch.

#[local] Open Scope Z_scope.

(** ** echo *)

Definition scalars (s : str) : Prop := Forall (fun c => is_scalar c = true) s.

Lemma to_digit_bounds radix c d : to_digit radix c = Some d -> 0 <= d < radix.
Proof.
  unfold to_digit, in_range. cbv zeta. repeat case_match; intros; simplify_eq; try done; unbool; split; try done.
  all: repeat match goal with H : (_ <=? _)%N = true |- _ => apply N.leb_le in H end; lia.
Qed.

(** The digits fit, whatever they are. *)
Lemma take_digits_ok radix width value consumed chars :
  1 <= radix -> 0 <= value -> (value + 1) * radix ^ Z.of_nat width <= U32_MAX + 1 ->
  exists v n rest, take_digits radix width value consumed chars = Ok (v, n, rest) /\ 0 <= v
    /\ (length rest <= length chars)%nat /\ (scalars chars -> scalars rest).
Proof.
  intros Hr. revert value consumed chars. induction width as [|width IH]; intros value consumed chars Hv Hfit.
  - by exists value, consumed, chars.
  - rewrite Nat2Z.inj_succ, Z.pow_succ_r in Hfit by lia. cbn [take_digits].
    destruct chars as [|c chars]; [by exists value, consumed, []|].
    destruct (to_digit radix c) as [d|] eqn:Hd; [|by exists value, consumed, (c :: chars)].
    apply to_digit_bounds in Hd. assert (1 <= radix ^ Z.of_nat width) by (pose proof (Z.pow_pos_nonneg radix (Z.of_nat width)); lia).
    assert ((value * radix + d + 1) * radix ^ Z.of_nat width <= U32_MAX + 1) as Hnext by nia.
    unfold u32_digit. rewrite (proj2 (Z.leb_le _ _)) by nia. cbn.
    destruct (IH (value * radix + d) (S consumed) chars) as (v & n & rest & E & ? & ? & Hs); [nia|exact Hnext|].
    exists v, n, rest. split; [exact E|]. split; [done|]. split; [simpl; lia|]. intros [_ ?]%Forall_cons. auto.
Qed.

Lemma from_u32_scalar v c : from_u32 v = Some c -> is_scalar c = true.
Proof. unfold from_u32. case_match; by intros [= <-]. Qed.

Lemma simple_escape_scalar c x : simple_escape c = Some x -> is_scalar x = true.
Proof. unfold simple_escape. repeat case_match; by intros [= <-]. Qed.

(** [expand_echo_escapes] returns on every text, and characters stay characters. *)
Lemma expand_loop_ok fuel chars out :
  (length chars < fuel)%nat ->
  exists t stop, expand_loop fuel chars out = Ok (t, stop) /\ (scalars out -> scalars chars -> scalars t).
Proof.
  revert chars out. induction fuel as [|fuel IH]; intros chars out Hf; [lia|]. cbn [expand_loop].
  assert (forall rest more, (length rest < fuel)%nat -> (scalars chars -> scalars rest /\ scalars more) ->
    exists t stop, expand_loop fuel rest (out ++ more) = Ok (t, stop) /\ (scalars out -> scalars chars -> scalars t)) as Hgo.
  { intros rest more Hl Hs. destruct (IH rest (out ++ more) Hl) as (t & stop & E & Ht). exists t, stop. split; [exact E|].
    intros Ho Hc. destruct (Hs Hc) as [? ?]. apply Ht; [|done]. by apply Forall_app. }
  assert (forall c, is_scalar c = true -> scalars [c]) as H1 by (intros; by apply Forall_singleton).
  destruct chars as [|c chars]; [by exists out, false|]. simpl in Hf.
  destruct (negb (isc c BACKSLASH)); [apply Hgo; [lia|]; intros [? ?]%Forall_cons; auto|].
  destruct chars as [|m chars]; [apply Hgo; [simpl; lia|]; intros _; split; [constructor|by apply H1]|]. simpl in Hf.
  assert (forall rest more, (length rest <= length chars)%nat -> (scalars chars -> scalars rest) -> (is_scalar m = true -> scalars more) ->
    exists t stop, expand_loop fuel rest (out ++ more) = Ok (t, stop) /\ (scalars out -> scalars (c :: m :: chars) -> scalars t)) as Hgo2.
  { intros rest more Hl Hr Hm. apply Hgo; [lia|]. intros [_ [? ?]%Forall_cons]%Forall_cons. auto. }
  assert (forall v, scalars [default (ch NUL) (from_u32 v)]) as Hdef.
  { intros v. apply H1. destruct (from_u32 v) eqn:E; [by apply from_u32_scalar in E|done]. }
  assert (forall width marker, (Z.of_nat width <= 8) -> is_scalar marker = true ->
    exists t stop, (let? (out, chars) := push_hex_escape out chars width marker in expand_loop fuel chars out) = Ok (t, stop)
      /\ (scalars out -> scalars (c :: m :: chars) -> scalars t)) as Hhex.
  { intros width marker Hw Hm. unfold push_hex_escape.
    destruct (take_digits_ok 16 width 0 0 chars) as (v & n & rest & -> & _ & Hl & Hs); [lia..| |].
    { assert (16 ^ Z.of_nat width <= 16 ^ 8) by (apply Z.pow_le_mono_r; lia). unfold U32_MAX. lia. }
    cbn. destruct (n =? 0)%nat; cbn; [apply Hgo2; [lia|done|]; intros _; by repeat constructor|].
    destruct (from_u32 v) as [x|] eqn:E; [apply Hgo2; [lia|done|]; intros _; by apply H1, (from_u32_scalar v)|].
    pose proof (Hgo2 rest [] ltac:(lia) Hs ltac:(constructor)) as H. by rewrite app_nil_r in H. }
  destruct (isc m "0").
  { destruct (take_digits_ok 8 3 0 0 chars) as (v & n & rest & -> & _ & Hl & Hs); [lia..|by vm_compute|]. cbn. apply Hgo2; auto. }
  destruct (isc m "x").
  { destruct (take_digits_ok 16 2 0 0 chars) as (v & n & rest & -> & _ & Hl & Hs); [lia..|by vm_compute|]. cbn.
    destruct (n =? 0)%nat; apply Hgo2; auto. intros _. by repeat constructor. }
  destruct (isc m "u"); [by apply Hhex|]. destruct (isc m "U"); [by apply Hhex|].
  destruct (isc m "c"); [by exists out, true|].
  destruct (simple_escape m) as [x|] eqn:E; apply Hgo2; auto; intros Hm; [by apply H1, (simple_escape_scalar m)|by repeat constructor].
Qed.

(** Spellings of a text: characters as they are, escapes of one character, and code
    points in eight hexadecimal digits. *)
Definition hex_char (d : Z) : char := Z.to_N (if d <? 10 then 48 + d else 87 + d).

Fixpoint hex_digits (n : nat) (z : Z) : str :=
  match n with
  | O => []
  | S n => hex_char (z / 16 ^ Z.of_nat n mod 16) :: hex_digits n z
  end.

Inductive spells : str -> str -> Prop :=
| spells_end : spells [] []
| spells_char c w t : c <> ch BACKSLASH -> spells w t -> spells (c :: w) (c :: t)
| spells_escape c x w t : simple_escape c = Some x -> spells w t -> spells (ch BACKSLASH :: c :: w) (x :: t)
| spells_code c w t :
    is_scalar c = true -> spells w t -> spells (ch BACKSLASH :: ch "U" :: hex_digits 8 (Z.of_N c) ++ w) (c :: t).

Lemma to_digit_hex d : 0 <= d < 16 -> to_digit 16 (hex_char d) = Some d.
Proof.
  intros H. assert (exists n, (n < 16)%nat /\ d = Z.of_nat n) as (n & Hn & ->) by (exists (Z.to_nat d); lia).
  do 16 (destruct n as [|n]; [reflexivity|]). lia.
Qed.

Lemma take_hex_digits n z v k w :
  0 <= z -> 0 <= v -> (v + 1) * 16 ^ Z.of_nat n <= U32_MAX + 1 ->
  take_digits 16 n v k (hex_digits n z ++ w) = Ok (v * 16 ^ Z.of_nat n + z mod 16 ^ Z.of_nat n, (k + n)%nat, w).
Proof.
  intros Hz. revert v k. induction n as [|n IH]; intros v k Hv Hfit.
  - cbn. rewrite Z.mod_1_r, Nat.add_0_r. do 3 f_equal. lia.
  - cbn [hex_digits app take_digits]. set (p := 16 ^ Z.of_nat n) in *.
    assert (16 ^ Z.of_nat (S n) = 16 * p) as Ep by (rewrite Nat2Z.inj_succ, Z.pow_succ_r by lia; done).
    assert (0 < p) by (apply Z.pow_pos_nonneg; lia). rewrite Ep in *.
    pose proof (Z.mod_pos_bound (z / p) 16 ltac:(lia)) as Hd.
    rewrite to_digit_hex by done. unfold u32_digit. rewrite (proj2 (Z.leb_le _ _)) by nia. cbn.
    rewrite IH by nia. rewrite (Z.mul_comm 16 p), Z.rem_mul_r by lia. do 3 f_equal; lia.
Qed.

Lemma from_u32_char c : is_scalar c = true -> from_u32 (Z.of_N c) = Some c.
Proof. intros H. unfold from_u32. by rewrite N2Z.id, H. Qed.

Lemma scalar_max c : is_scalar c = true -> Z.of_N c < 16 ^ 8.
Proof. unfold is_scalar. intros [H|[_ H]%andb_true_iff]%orb_true_iff; apply N.ltb_lt in H; lia. Qed.

Lemma expand_spelling w t : spells w t -> forall fuel out, (length w < fuel)%nat -> expand_loop fuel w out = Ok (out ++ t, false).
Proof.
  induction 1 as [|c w t Hc _ IH|c x w t Hx _ IH|c w t Hc _ IH]; intros fuel out Hf; (destruct fuel as [|fuel]; [simpl in Hf; lia|]).
  - cbn. by rewrite app_nil_r.
  - cbn [expand_loop]. replace (isc c BACKSLASH) with false by (symmetry; apply not_true_iff_false; by rewrite isc_spec). cbn [negb].
    rewrite IH by (simpl in Hf; lia). by rewrite <- app_assoc.
  - cbn [expand_loop]. rewrite (proj2 (isc_spec _ BACKSLASH)) by done. cbn [negb]. simpl in Hf.
    assert (isc c "0" = false /\ isc c "x" = false /\ isc c "u" = false /\ isc c "U" = false /\ isc c "c" = false) as (-> & -> & -> & -> & ->).
    { unfold simple_escape, is_any in Hx. repeat split; apply not_true_iff_false; intros ->%isc_spec; by vm_compute in Hx. }
    rewrite Hx, IH by lia. by rewrite <- app_assoc.
  - cbn [expand_loop]. rewrite (proj2 (isc_spec (ch BACKSLASH) BACKSLASH)) by done. cbn [negb].
    change (isc (ch "U") "0") with false. change (isc (ch "U") "x") with false. change (isc (ch "U") "u") with false.
    change (isc (ch "U") "U") with true. cbv iota. unfold push_hex_escape.
    pose proof (scalar_max c Hc). rewrite take_hex_digits by first [lia|by vm_compute]. cbn [obind Nat.add Nat.eqb].
    rewrite Z.mod_small by (split; [lia|done]). rewrite Z.mul_0_l, Z.add_0_l, from_u32_char by done.
    rewrite IH by (simpl in Hf; lia). by rewrite <- app_assoc.
Qed.

(** Every text has a spelling in printable ASCII. *)
Definition spelled (t : str) : str := flat_map (fun c => ch BACKSLASH :: ch "U" :: hex_digits 8 (Z.of_N c)) t.

Lemma spells_spelled t : scalars t -> spells (spelled t) t.
Proof. induction 1 as [|c t Hc _ IH]; [constructor|]. cbn [spelled flat_map app]. by apply spells_code. Qed.

Lemma echo_spelling w t : spells w t -> starts_with w (lit "-") = false -> echo_text [lit "-ne"; w] = Ok t.
Proof.
  intros Hw Hopt. unfold echo_text. cbn [echo_options]. change (blen (lit "-ne") <=? 1)%nat with false.
  change (starts_with (lit "-ne") (lit "-")) with true. cbn [negb orb].
  change (forallb (fun c => is_any c ["n"; "e"; "E"]%char) (drop 1 (lit "-ne"))) with true. cbn [negb].
  rewrite Hopt, orb_true_r. change (foldl _ _ (drop 1 (lit "-ne"))) with (false, true). cbn [join].
  unfold expand_echo_escapes. rewrite (expand_spelling w t Hw _ []) by lia. done.
Qed.

(** [echo] never panics, and what it writes is text. *)
Lemma echo_text_ok args : Forall scalars args -> exists t, echo_text args = Ok t /\ scalars t.
Proof.
  intros Hargs. unfold echo_text.
  assert (forall st, exists st' words, echo_options args st = (st', words) /\ Forall scalars words) as Ho.
  { clear -Hargs. induction Hargs as [|a args Ha Hargs IH]; intros st; [by exists st, []|]. cbn [echo_options].
    destruct (_ || _); [exists st, (a :: args); split; [done|by constructor]|].
    destruct (negb _); [exists st, (a :: args); split; [done|by constructor]|]. apply IH. }
  destruct (Ho (true, false)) as ([newline escapes] & words & -> & Hw).
  assert (scalars (join (lit " ") words)) as Hj.
  { clear -Hw. induction Hw as [|a [|b words] Ha Hw IH]; [constructor|done|]. cbn [join] in *.
    apply Forall_app. split; [done|]. apply Forall_app. split; [by repeat constructor|exact IH]. }
  assert (exists t stop, (if escapes then expand_echo_escapes (join (lit " ") words) else Ok (join (lit " ") words, false)) = Ok (t, stop)
    /\ scalars t) as (t & stop & -> & Ht).
  { destruct escapes; [|by eexists _, _]. destruct (expand_loop_ok (S (length (join (lit " ") words))) (join (lit " ") words) []) as (t & stop & E & Ht); [lia|].
    exists t, stop. split; [exact E|]. apply Ht; [constructor|done]. }
  cbn. destruct (newline && negb stop); eexists; (split; [done|]); [|done]. apply Forall_app. split; [done|by repeat constructor].
Qed.

(** ** grep *)

Section grep.
Context {Rx : Type} (regexes : RegexLib Rx) (regex : Rx) (flags : GrepFlags).

(** The lines that match, or do not under -v, with their numbers. *)
Definition selects (text : str) : bool := xorb (rx_is_match regexes regex text) (g_invert flags).
Definition numbered (ls : list bytes) : list (Z * str) := imap (fun k l => (Z.of_nat k + 1, line_text_lossy l)) ls.
Definition selected (ls : list bytes) : list (Z * str) := filter (fun p => selects p.2 = true) (numbered ls).

Definition shown_match (label : str) (show_path : bool) (p : Z * str) : bytes :=
  (if show_path then encode (label ++ lit ":") else [])
  ++ (if g_line_numbers flags then encode (Z_to_string p.1 ++ lit ":") else []) ++ encode (p.2 ++ line_end).

Definition grep_output (label : str) (show_path : bool) (ps : list (Z * str)) : bytes :=
  if g_count flags then (if show_path then encode (label ++ lit ":") else []) ++ encode (Z_to_string (len ps) ++ line_end)
  else concat (shown_match label show_path <$> ps).

Lemma selected_snoc ls l :
  selected (ls ++ [l]) = selected ls ++ (if selects (line_text_lossy l) then [(len ls + 1, line_text_lossy l)] else []).
Proof.
  unfold selected, numbered. rewrite imap_app, filter_app. f_equal.
  replace (imap _ [l]) with [(len ls + 1, line_text_lossy l)] by (cbn; unfold len; by rewrite Nat.add_0_r).
  rewrite filter_cons. cbn [snd]. destruct (selects (line_text_lossy l)); [by rewrite decide_True|by rewrite decide_False].
Qed.

Lemma len_selected ls : len (selected ls) <= len ls.
Proof.
  unfold selected, numbered, len. etrans; [apply inj_le, length_filter|]. by rewrite length_imap.
Qed.

Lemma selected_prefix ls more : exists rest, selected (ls ++ more) = selected ls ++ rest.
Proof.
  induction more as [|l more IH] using rev_ind; [exists []; by rewrite !app_nil_r|]. destruct IH as [rest IH].
  rewrite app_assoc, selected_snoc, IH. rewrite <- app_assoc. by eexists.
Qed.

Section stream.
Context {W : Type} (fs : Fs W) (src : Source) (dst : BoxAsyncWrite) (J : bytes -> bytes -> XState W -> Prop)
  (F : IoError -> Prop) {Hs : Streaming fs src dst J F}.

Lemma wp_write i o s data (Q : unit -> XState W -> Prop) (R : IoError -> XState W -> Prop) :
  J i o s -> len (o ++ data) <= USIZE_MAX -> (forall s', J i (o ++ data) s' -> Q tt s') ->
  (forall e s', stream_failed J F e s' -> R e s') -> wp (write_all fs dst data) s Q R.
Proof. intros HJ Hl HQ HR. eapply wp_mono; [by apply (stream_write (src := src))| |done]. intros []; apply HQ. Qed.

(** An optional piece of the output. *)
Lemma wp_write_if (b : bool) i o s text (Q : unit -> XState W -> Prop) (R : IoError -> XState W -> Prop) :
  J i o s -> len (o ++ if b then encode text else []) <= USIZE_MAX ->
  (forall s', J i (o ++ if b then encode text else []) s' -> Q tt s') ->
  (forall e s', stream_failed J F e s' -> R e s') -> wp (if b then write_text fs dst text else sret tt) s Q R.
Proof.
  intros HJ Hl HQ HR. destruct b; [by eapply wp_write|]. apply wp_ret, HQ. by rewrite app_nil_r.
Qed.

Definition grep_inv (label : str) (show_path : bool) (o : bytes) (done_ : list bytes) (acc : Z * Z) (o' : bytes) : Prop :=
  acc = (len (selected done_), len done_)
  /\ o' = o ++ if g_count flags then [] else concat (shown_match label show_path <$> selected done_).

Lemma grep_line_spec label show_path o done_ acc l i o' s :
  grep_inv label show_path o done_ acc o' -> J i o' s -> len done_ + 1 <= U64_MAX ->
  len (o ++ if g_count flags then [] else concat (shown_match label show_path <$> selected (done_ ++ [l]))) <= USIZE_MAX ->
  wp (grep_line fs regexes dst regex flags label show_path acc l) s
    (fun acc' s' => exists o2, grep_inv label show_path o (done_ ++ [l]) acc' o2 /\ J i o2 s') (stream_failed J F).
Proof.
  intros [-> ->] HJ Hmax Hout. unfold grep_line. wp_step. apply wp_u64_add; [pose proof (len_nonneg done_); lia|].
  assert (len (done_ ++ [l]) = len done_ + 1) as El by (rewrite len_app; unfold len; simpl; lia).
  unfold grep_inv. fold (selects (line_text_lossy l)). rewrite selected_snoc in *. rewrite El.
  destruct (selects (line_text_lossy l)); cbn [negb].
  2: { apply wp_ret. eexists. rewrite app_nil_r. by split; [|exact HJ]. }
  wp_step. apply wp_u64_add; [pose proof (len_nonneg (selected done_)); pose proof (len_selected done_); lia|].
  assert (len (selected done_ ++ [(len done_ + 1, line_text_lossy l)]) = len (selected done_) + 1) as Es
    by (rewrite len_app; unfold len; simpl; lia).
  rewrite Es. destruct (g_count flags) eqn:Hc; [apply wp_ret; eexists; by split; [|exact HJ]|].
  rewrite fmap_app, concat_app in *. cbn [fmap list_fmap concat] in *. rewrite app_nil_r in *.
  set (x := (len done_ + 1, line_text_lossy l)) in *. set (before := o ++ concat (shown_match label show_path <$> selected done_)) in *.
  rewrite app_assoc in Hout. fold before in Hout. unfold shown_match in Hout. cbn [fst snd x] in Hout. rewrite !app_assoc in Hout.
  wp_step. eapply wp_write_if; [exact HJ|by eapply len_prefix, len_prefix|intros s1 H1|done].
  wp_step. eapply wp_write_if; [exact H1|by eapply len_prefix|intros s2 H2|done].
  wp_step. eapply wp_write; [exact H2|exact Hout|intros s3 H3|done].
  apply wp_ret. eexists. split; [split; [done|]|exact H3]. unfold shown_match. by rewrite !app_assoc.
Qed.

Lemma grep_reader_spec fuel label show_path i o s :
  J i o s -> len i <= USIZE_MAX -> (length (split_lines i) < fuel)%nat ->
  let out := grep_output label show_path (selected (split_lines i)) in
  len (o ++ out) <= USIZE_MAX ->
  wp (grep_reader fs regexes dst fuel src label regex flags show_path) s
    (fun b s' => b = negb (bool_decide (selected (split_lines i) = [])) /\ J [] (o ++ out) s') (line_failure J F (split_lines i)).
Proof.
  intros HJ Hmax Hf out Hout. unfold grep_reader. wp_step.
  assert (len (o ++ if g_count flags then [] else concat (shown_match label show_path <$> selected (split_lines i))) <= USIZE_MAX) as Hall.
  { unfold out, grep_output in Hout. destruct (g_count flags); [rewrite app_nil_r; by eapply len_prefix|done]. }
  eapply wp_mono; [eapply (each_line_spec fs src dst J F (grep_inv label show_path o) (line_failure J F (split_lines i)) _ fuel empty_buffer i o s
    (split_lines i) [] (0, 0))|..].
  - intros done_ acc l i' o' s' HP HJ' _ [rest Hrest].
    eapply wp_mono; [eapply (grep_line_spec label show_path o done_ acc l i' o' s' HP HJ')|done|intros e s2; apply failed_line_failure].
    + change U64_MAX with USIZE_MAX. pose proof (length_split_lines i) as Hle. rewrite Hrest, length_app in Hle.
      unfold len in *. simpl in Hle. lia.
    + destruct (g_count flags); [done|]. destruct (selected_prefix (done_ ++ [l]) rest) as [more Hm]. rewrite <- app_assoc in Hm. cbn [app] in Hm.
      rewrite Hrest, Hm, fmap_app, concat_app, app_assoc in Hall. by eapply len_prefix.
  - done.
  - done.
  - apply buffer_ok_empty.
  - split; [done|]. destruct (g_count flags); by rewrite app_nil_r.
  - done.
  - done.
  - intros [matched line_no] s' (o' & [[= -> ->] ->] & HJ').
    assert ((0 <? len (selected (split_lines i))) = negb (bool_decide (selected (split_lines i) = []))) as ->.
    { destruct (selected (split_lines i)); [done|]. rewrite bool_decide_false by done. apply Z.ltb_lt. unfold len. simpl. lia. }
    wp_step. unfold out, grep_output in *. destruct (g_count flags) eqn:Hc; [|by do 2 apply wp_ret].
    rewrite app_nil_r in HJ'. rewrite !app_assoc in *. wp_step.
    eapply wp_write_if; [exact HJ'|by eapply len_prefix|intros s1 H1|intros e s2; apply failed_line_failure].
    eapply wp_write; [exact H1|exact Hout|intros s2 H2|intros e s2; apply failed_line_failure]. by apply wp_ret.
  - done.
Qed.
End stream.
End grep.

(** ** sed *)

(** What a replacement is made of: characters, and groups of the match. *)
Inductive Token := Char (c : char) | Group (k : Z).

Fixpoint template (replacement : str) : list Token :=
  match replacement with
  | [] => []
  | c :: rest =>
      if isc c "&" then Group 0 :: template rest
      else if isc c BACKSLASH then
        match rest with
        | [] => [Char (ch BACKSLASH)]
        | c :: rest =>
            (if isc c "n" then Char (ch NL)
             else if isc c "t" then Char (ch TAB)
             else match reference_digit c with Some k => Group k | None => Char c end) :: template rest
        end
      else Char c :: template rest
  end.

Definition group_text (body : bytes) (captures : Captures) (k : Z) : bytes :=
  match captures !! Z.to_nat k with Some (Some (a, b)) => bytes_slice body a b | _ => [] end.
Definition token_text (body : bytes) (captures : Captures) (t : Token) : bytes :=
  match t with Char c => encode [c] | Group k => group_text body captures k end.
Definition expansion (replacement : str) (body : bytes) (captures : Captures) : bytes :=
  concat (token_text body captures <$> template replacement).

Lemma template_before text : template text = (Char <$> (before_token text).1) ++ template (before_token text).2.
Proof.
  induction text as [|c text IH]; [done|]. cbn [before_token]. destruct (isc c "&" || isc c BACKSLASH) eqn:E; [done|].
  apply orb_false_iff in E as [E1 E2]. cbn [template]. rewrite E1, E2, IH. by destruct (before_token text).
Qed.

Lemma concat_chars body captures t : concat (token_text body captures <$> (Char <$> t)) = encode t.
Proof. induction t as [|c t IH]; [done|]. cbn in *. by rewrite IH, app_nil_r. Qed.

Lemma before_token_length text : (length (before_token text).2 <= length text)%nat.
Proof.
  induction text as [|c text IH]; [done|]. cbn [before_token]. destruct (_ || _); [done|].
  destruct (before_token text). simpl in *. lia.
Qed.

Lemma before_token_head text : match (before_token text).2 with [] => (before_token text).1 = text | c :: _ => isc c "&" || isc c BACKSLASH = true end.
Proof.
  induction text as [|c text IH]; [done|]. cbn [before_token]. destruct (_ || _) eqn:E; [done|].
  destruct (before_token text) as [a [|d r]]; simpl in *; [by rewrite IH|done].
Qed.

(** Every group that a valid replacement refers to is one of the pattern. *)
Lemma validated_groups replacement n :
  0 < n -> validate_sed_replacement replacement n = Ok tt -> Forall (fun t => match t with Group k => 0 <= k < n | Char _ => True end) (template replacement).
Proof.
  intros Hn. remember (length replacement) as k eqn:Hk. revert replacement Hk.
  induction k as [k IH] using lt_wf_ind. intros [|c rest] -> Hv; [constructor|]. cbn [validate_sed_replacement template] in *.
  destruct (isc c BACKSLASH) eqn:Eb; cbn [negb] in Hv.
  - apply isc_spec in Eb as ->. change (isc (ch BACKSLASH) "&") with false. cbv iota.
    destruct rest as [|d rest]; [by repeat constructor|]. unfold reference_digit in *. destruct (in_range "1" "9" d) eqn:Ed.
    + destruct (n <=? Z.of_N d - 48) eqn:El; [done|]. unbool. unfold in_range in Ed. apply andb_true_iff in Ed as [E1 E2]. apply N.leb_le in E1, E2.
      change (ch "1") with 49%N in E1. assert (isc d "n" = false /\ isc d "t" = false) as [-> ->].
      { change (ch "9") with 57%N in E2. split; apply not_true_iff_false; intros ->%isc_spec; by vm_compute in E2. }
      constructor; [lia|]. apply (IH (length rest)); [simpl; lia|done|done].
    + constructor; [by repeat case_match|]. apply (IH (length rest)); [simpl; lia|done|done].
  - destruct (isc c "&"); (constructor; [try done; lia|]); (apply (IH (length rest)); [simpl; lia|done|done]).
Qed.

(** What the library documents of its matches: they follow each other, and each has
    as many groups as the expression, within the text, the first of them the whole
    match. *)
Definition group_ok (size : Z) (g : option (Z * Z)) : Prop := match g with Some (a, b) => 0 <= a <= b /\ b <= size | None => True end.

Fixpoint matches_ok (groups size from : Z) (ms : list Captures) : Prop :=
  match ms with
  | [] => True
  | captures :: ms =>
      exists a b, hd_error captures = Some (Some (a, b)) /\ len captures = groups /\ from <= a /\ Forall (group_ok size) captures
        /\ matches_ok groups size b ms
  end.

Class RegexLaws {Rx} (regexes : RegexLib Rx) : Prop := {
  regex_matches rx text : matches_ok (rx_captures_len regexes rx) (len (encode text)) 0 (rx_captures_iter regexes rx text);
  regex_is_match rx text : rx_is_match regexes rx text = negb (bool_decide (rx_captures_iter regexes rx text = []))
}.

(** The text from [copied] on, its matches replaced. *)
Fixpoint substituted (replacement : str) (body : bytes) (ms : list Captures) (copied : Z) : bytes :=
  match ms with
  | [] => bytes_slice body copied (len body)
  | captures :: ms =>
      match hd_error captures with
      | Some (Some (a, b)) => bytes_slice body copied a ++ expansion replacement body captures ++ substituted replacement body ms b
      | _ => []
      end
  end.

(** What [sed] makes of a line. *)
Definition line_body (line : bytes) : str := strip_suffix (from_utf8_lossy line) (ch NL).
Definition line_ending (line : bytes) : str := drop (length (line_body line)) (from_utf8_lossy line).

Definition sed_reference {Rx} (regexes : RegexLib Rx) (rx : Rx) (sub : SedSubstitution) (line : bytes) : bytes :=
  let ms := rx_captures_iter regexes rx (line_body line) in
  substituted (sub_replacement sub) (encode (line_body line)) (if sub_global sub then ms else take 1 ms) 0 ++ encode (line_ending line).

Lemma group_bytes_ok body captures k :
  Forall (group_ok (len body)) captures -> group_bytes body captures k = Ok (group_text body captures k).
Proof.
  intros H. unfold group_bytes, group_text. destruct (captures !! Z.to_nat k) as [[[a b]|]|] eqn:E; [|done..].
  eapply Forall_lookup in H; [|exact E]. unfold checked_slice. cbn in H.
  by rewrite !(proj2 (Z.leb_le _ _)) by lia.
Qed.

Section sed.
Context {W : Type} (fs : Fs W) (src : Source) (dst : BoxAsyncWrite) (J : bytes -> bytes -> XState W -> Prop)
  (F : IoError -> Prop) {Hs : Streaming fs src dst J F}.

Lemma write_chunks_spec turns data i o s :
  J i o s -> len (o ++ data) <= USIZE_MAX -> (length data < turns)%nat ->
  wp (write_chunks fs dst turns data) s (fun _ s' => J i (o ++ data) s') (stream_failed J F).
Proof.
  revert data o s. induction turns as [|turns IH]; intros data o s HJ Hl Ht; [lia|]. cbn [write_chunks].
  case_bool_decide as Hd; [subst; apply wp_ret; by rewrite app_nil_r|].
  set (n := Z.to_nat STREAM_CHUNK_BYTES). rewrite <- (take_drop n data) in Hl. rewrite app_assoc in Hl.
  wp_step. eapply (wp_write fs src dst J F); [exact HJ|by eapply len_prefix|intros s1 H1|done].
  eapply wp_mono; [apply (IH _ _ _ H1 Hl)|intros [] s2 H2|done].
  - rewrite length_drop. assert (0 < length data)%nat by (destruct data; [done|simpl; lia]). unfold n, STREAM_CHUNK_BYTES. lia.
  - by rewrite <- app_assoc, take_drop in H2.
Qed.

Lemma write_piece_spec data i o s (Q : unit -> XState W -> Prop) (R : IoError -> XState W -> Prop) :
  J i o s -> len (o ++ data) <= USIZE_MAX -> (forall s', J i (o ++ data) s' -> Q tt s') ->
  (forall e s', stream_failed J F e s' -> R e s') -> wp (write_sed_piece fs dst data) s Q R.
Proof.
  intros HJ Hl HQ HR. eapply wp_mono; [apply write_chunks_spec; [exact HJ|exact Hl|lia]|intros []; apply HQ|exact HR].
Qed.

Lemma replacement_spec turns rest body captures i o s :
  J i o s -> Forall (group_ok (len body)) captures -> len (o ++ expansion rest body captures) <= USIZE_MAX -> (length rest < turns)%nat ->
  wp (replacement_loop fs dst turns rest body captures) s (fun _ s' => J i (o ++ expansion rest body captures) s') (stream_failed J F).
Proof.
  intros HJ Hg. revert rest o s HJ. induction turns as [|turns IH]; intros rest o s HJ Hl Ht; [lia|]. cbn [replacement_loop].
  pose proof (before_token_length rest) as Hlen. pose proof (before_token_head rest) as Hhd.
  assert (expansion rest body captures = encode (before_token rest).1 ++ expansion (before_token rest).2 body captures) as E
    by (unfold expansion; rewrite (template_before rest) at 1; by rewrite fmap_app, concat_app, concat_chars).
  rewrite E in *. clear E. destruct (before_token rest) as [before [|c r]]; cbn [fst snd] in *.
  { subst before. unfold expansion in *. cbn in *. rewrite app_nil_r in *. by eapply write_piece_spec. }
  rewrite app_assoc in Hl. wp_step. eapply write_piece_spec; [exact HJ|by eapply len_prefix|intros s1 H1|done].
  rewrite app_assoc. set (o1 := o ++ encode before) in *.
  assert (forall t r', template (c :: r) = t :: template r' -> expansion (c :: r) body captures = token_text body captures t ++ expansion r' body captures) as Hexp
    by (intros t r' E; unfold expansion; by rewrite E).
  assert (forall t r' s', template (c :: r) = t :: template r' -> (length r' < turns)%nat -> J i (o1 ++ token_text body captures t) s' ->
    wp (replacement_loop fs dst turns r' body captures) s' (fun _ s'' => J i (o1 ++ expansion (c :: r) body captures) s'') (stream_failed J F)) as Hnext.
  { intros t r' s' E Hr Hs'. rewrite (Hexp t r' E), app_assoc in *. by apply IH. }
  assert (forall t r', template (c :: r) = t :: template r' -> len (o1 ++ token_text body captures t) <= USIZE_MAX) as Hfit.
  { intros t r' E. rewrite (Hexp t r' E), app_assoc in Hl. by eapply len_prefix. }
  clear Hexp. remember (template (c :: r)) as tpl eqn:Et. cbn [template] in Et. destruct (isc c "&") eqn:Ea.
  { specialize (Hfit (Group 0) r Et). cbn [token_text] in Hfit. wp_step. eapply wp_ok; [by apply group_bytes_ok|]. wp_step.
    eapply write_piece_spec; [exact H1|exact Hfit|intros s2 H2|done]. apply (Hnext (Group 0) r); [done|simpl in Hlen; lia|exact H2]. }
  cbn [orb] in Hhd. rewrite Hhd in Et. destruct r as [|d r].
  { assert (expansion [c] body captures = encode [ch BACKSLASH]) as E
      by (unfold expansion; cbn [template]; rewrite Ea, Hhd; cbn [fmap list_fmap concat token_text]; apply app_nil_r).
    rewrite E in *. eapply (wp_write fs src dst J F); [exact H1|exact Hl|done|done]. }
  assert (length r < turns)%nat as Hr by (simpl in Hlen; lia). wp_step.
  assert (forall x, tpl = Char x :: template r ->
    wp (write_all fs dst (encode [x])) s1 (fun _ s' => wp (replacement_loop fs dst turns r body captures) s'
      (fun _ s'' => J i (o1 ++ expansion (c :: d :: r) body captures) s'') (stream_failed J F)) (stream_failed J F)) as Hchar.
  { intros x E. eapply (wp_write fs src dst J F); [exact H1|by apply (Hfit (Char x) r)|intros s2 H2; by apply (Hnext (Char x) r)|done]. }
  destruct (isc d "n"); [by apply Hchar|]. destruct (isc d "t"); [by apply Hchar|].
  destruct (reference_digit d) as [k|]; [|by apply Hchar].
  specialize (Hfit (Group k) r Et). cbn [token_text] in Hfit. wp_step. eapply wp_ok; [by apply group_bytes_ok|].
  eapply write_piece_spec; [exact H1|exact Hfit|intros s2 H2; by apply (Hnext (Group k) r)|done].
Qed.

(** The matches taken: where the rest begins, and what is written before it. *)
Lemma sed_matches_spec groups ms body sub copied i o s :
  matches_ok groups (len body) copied ms -> 0 <= copied <= len body ->
  let taken := if sub_global sub then ms else take 1 ms in
  J i o s -> len (o ++ substituted (sub_replacement sub) body taken copied) <= USIZE_MAX ->
  wp (sed_matches fs dst ms body sub copied) s
    (fun c s' => 0 <= c <= len body /\ exists o', J i o' s'
       /\ o' ++ bytes_slice body c (len body) = o ++ substituted (sub_replacement sub) body taken copied) (stream_failed J F).
Proof.
  cbv zeta. revert copied o s. induction ms as [|captures ms IH]; intros copied o s Hok Hc HJ Hl; cbn [sed_matches].
  { apply wp_ret. split; [done|]. exists o. split; [done|]. by destruct (sub_global sub). }
  destruct Hok as (a & b & Hhd & _ & Ha & Hg & Hrest).
  destruct captures as [|g gs]; [done|]. cbn in Hhd. injection Hhd as ->.
  assert (0 <= a <= b /\ b <= len body) as Hab by by apply Forall_cons in Hg as [Hg _].
  set (caps := Some (a, b) :: gs) in *. set (more := if sub_global sub then ms else []).
  assert ((if sub_global sub then caps :: ms else take 1 (caps :: ms)) = caps :: more) as E
    by (unfold more; cbn [take]; by destruct (sub_global sub)).
  rewrite E in *. cbn [substituted caps hd_error] in *. fold caps in Hl.
  wp_step. eapply wp_ok; [reflexivity|]. cbv beta iota. wp_step.
  eapply wp_ok; [unfold checked_slice; by rewrite !(proj2 (Z.leb_le _ _)) by lia|].
  rewrite !app_assoc in Hl. wp_step. eapply write_piece_spec; [exact HJ|by eapply len_prefix, len_prefix|intros s1 H1|done].
  wp_step. eapply wp_mono; [eapply (replacement_spec _ _ body caps i _ s1 H1 Hg); [by eapply len_prefix|lia]|intros [] s2 H2|done].
  set (o2 := (o ++ bytes_slice body copied a) ++ expansion (sub_replacement sub) body caps) in *.
  assert (forall m, wp m s2 (fun c s' => 0 <= c <= len body /\ exists o', J i o' s'
      /\ o' ++ bytes_slice body c (len body) = o2 ++ substituted (sub_replacement sub) body more b) (stream_failed J F) ->
    wp m s2 (fun c s' => 0 <= c <= len body /\ exists o', J i o' s' /\ o' ++ bytes_slice body c (len body) = o ++ bytes_slice body copied a
       ++ expansion (sub_replacement sub) body caps ++ substituted (sub_replacement sub) body more b) (stream_failed J F)) as Hgoal.
  { intros m Hm. unfold o2 in Hm. by rewrite <- !app_assoc in Hm. }
  apply Hgoal. clear Hgoal. unfold more in *. destruct (sub_global sub) eqn:Eg; cbn [negb].
  - apply IH; [done|lia|done|done].
  - apply wp_ret. split; [lia|]. by exists o2.
Qed.
End sed.

Section sed_reader.
Context {W Rx : Type} (fs : Fs W) (regexes : RegexLib Rx) {Hx : RegexLaws regexes}.
Context (src : Source) (dst : BoxAsyncWrite) (J : bytes -> bytes -> XState W -> Prop) (F : IoError -> Prop) {Hs : Streaming fs src dst J F}.

Lemma sed_line_spec rx sub u line i o s :
  J i o s -> len (o ++ sed_reference regexes rx sub line) <= USIZE_MAX ->
  wp (sed_line fs regexes dst rx sub u line) s (fun _ s' => J i (o ++ sed_reference regexes rx sub line) s') (stream_failed J F).
Proof.
  intros HJ Hl. unfold sed_line, sed_reference in *. fold (line_body line) in *. fold (line_ending line) in *.
  set (body := encode (line_body line)) in *. rewrite app_assoc in *. pose proof (len_nonneg body). wp_step.
  eapply wp_mono; [eapply (sed_matches_spec fs src dst J F); [apply regex_matches|fold body; lia|exact HJ|by eapply len_prefix]|..]; [|done].
  intros c s1 (Hc & o' & H1 & E). fold body in E. rewrite <- E in Hl. rewrite <- E.
  wp_step. eapply wp_ok; [unfold checked_slice; by rewrite !(proj2 (Z.leb_le _ _)) by lia|].
  wp_step. eapply (write_piece_spec fs src dst J F); [exact H1|by eapply len_prefix|intros s2 H2|done].
  eapply (wp_write fs src dst J F); [exact H2|exact Hl|done|done].
Qed.

Lemma sed_reader_spec fuel rx sub i o s :
  J i o s -> (length (split_lines i) < fuel)%nat ->
  let out := concat (sed_reference regexes rx sub <$> split_lines i) in
  len (o ++ out) <= USIZE_MAX ->
  wp (sed_reader fs regexes dst fuel src rx sub) s (fun _ s' => J [] (o ++ out) s') (line_failure J F (split_lines i)).
Proof.
  intros HJ Hf out Hout. unfold sed_reader.
  eapply wp_mono; [eapply (each_line_spec fs src dst J F (fun done_ _ o' => o' = o ++ concat (sed_reference regexes rx sub <$> done_))
    (line_failure J F (split_lines i)) _ fuel empty_buffer i o s (split_lines i) [] tt)|..].
  - intros done_ acc l i' o' s' -> HJ' _ [rest Hrest].
    assert (forall ls, o ++ concat (sed_reference regexes rx sub <$> (ls ++ [l])) = (o ++ concat (sed_reference regexes rx sub <$> ls)) ++ sed_reference regexes rx sub l) as E.
    { intros ls. rewrite fmap_app, concat_app, app_assoc. f_equal. apply app_nil_r. }
    eapply wp_mono; [apply (sed_line_spec rx sub acc l i' _ s' HJ')|..|intros e s2; apply failed_line_failure].
    + unfold out in Hout. rewrite Hrest in Hout. change (l :: rest) with ([l] ++ rest) in Hout.
      rewrite app_assoc, fmap_app, concat_app, app_assoc, E in Hout. by eapply len_prefix.
    + intros [] s2 H2. eexists. split; [|exact H2]. by rewrite E.
  - done.
  - done.
  - apply buffer_ok_empty.
  - by rewrite app_nil_r.
  - done.
  - done.
  - intros [] s' (o' & -> & HJ'). done.
  - done.
Qed.
End sed_reader.

(** ** The commands on their standard input *)

Section stdin.
Context {W Rx : Type} (fs : Fs W) (regexes : RegexLib Rx) (stdout stderr : BoxAsyncWrite).
Context (J : bytes -> bytes -> bytes -> XState W -> Prop) (F : IoError -> Prop) {Ht : Terminal fs Stdin stdout stderr J F}.

(** The command ends with [good], having done what it should; or an error stopped it,
    which it reports with exit code 2, except that a reader that went away ends it
    quietly with 1. *)
Definition finished (cmd : str) (good : Z) (Why : IoError -> Prop) (Good : XState W -> Prop) (e : bytes) (code : Z) (s : XState W) : Prop :=
  (code = good /\ Good s)
  \/ exists err i o, Why err /\ code = (if is_broken_pipe err then 1 else 2) /\ J i o (e ++ encode (error_report cmd (lit "-") err)) s.

Lemma finished_spec {A} (m : ST (XState W) IoError A) s cmd e good (Why : IoError -> Prop) (Good : XState W -> Prop) (ok : A -> Z) R :
  wp m s (fun a s' => ok a = good /\ Good s') (fun err s' => Why err /\ exists i o, J i o e s') -> reportable cmd Why e ->
  wp (let! r := x_try m in
      match r with
      | Ok a => sret (ok a)
      | Err err =>
          let! reported := report_stream_error fs stderr cmd (lit "-") err in
          sret (if (reported : bool) then 2 else 1)
      | Panic => slift Panic
      | OutOfFuel => slift OutOfFuel
      end) s (finished cmd good Why Good e) R.
Proof.
  intros Hm Hrep. wp_step. apply wp_x_try. eapply wp_mono; [exact Hm|..].
  - intros a s' [Ha HG]. apply wp_ret. by left.
  - intros err s' (Hwhy & i & o & HJ). wp_step.
    eapply wp_mono; [apply (report_spec fs Stdin stdout stderr J F); [exact HJ|by apply Hrep]| |intros ? ? H; exact H].
    intros b s2 [-> HJ2]. apply wp_ret. right. exists err, i, o. split; [done|]. split; [by destruct (is_broken_pipe err)|done].
Qed.

Lemma grep_stdin fuel args flags pattern rx i o e s :
  J i o e s -> parse_flags set_grep_flag default_grep_flags args = Ok (flags, [pattern]) ->
  rx_build regexes pattern (g_ignore_case flags) = inl rx ->
  let found := selected regexes rx flags (split_lines i) in
  let out := grep_output flags [] false found in
  len i <= USIZE_MAX -> (length (split_lines i) < fuel)%nat -> len (o ++ out) <= USIZE_MAX ->
  reportable (lit "grep") (line_trouble F (split_lines i)) e ->
  wp (grep fs regexes stdout stderr fuel args) s
    (finished (lit "grep") (if bool_decide (found = []) then 1 else 0) (line_trouble F (split_lines i)) (J [] (o ++ out) e) e) (fun _ _ => False).
Proof.
  intros HJ Hargs Hrx found out Hi Hf Hout Hrep. unfold grep. rewrite Hargs. cbv iota beta. rewrite Hrx. cbv iota zeta.
  rewrite bool_decide_true by done. pose proof (term_stream (J := J) e) as Hstream.
  apply (finished_spec (grep_reader fs regexes stdout fuel Stdin [] rx flags false) s (lit "grep") e _ _ _ (fun matched : bool => if matched then 0 else 1)); [|done].
  eapply wp_mono; [exact (grep_reader_spec regexes rx flags fs Stdin stdout (fun i o s => J i o e s) F fuel [] false i o s HJ Hi Hf Hout)|..].
  - intros b s' [-> HJ']. split; [|done]. fold found. by case_bool_decide.
  - done.
Qed.

Lemma sed_stdin {Hx : RegexLaws regexes} fuel script sub rx i o e s :
  J i o e s -> parse_sed_substitution script = Some sub -> rx_build regexes (sub_pattern sub) (sub_ignore_case sub) = inl rx ->
  validate_sed_replacement (sub_replacement sub) (rx_captures_len regexes rx) = Ok tt ->
  let out := concat (sed_reference regexes rx sub <$> split_lines i) in
  (length (split_lines i) < fuel)%nat -> len (o ++ out) <= USIZE_MAX ->
  reportable (lit "sed") (line_trouble F (split_lines i)) e ->
  wp (sed fs regexes stdout stderr fuel [script]) s
    (finished (lit "sed") 0 (line_trouble F (split_lines i)) (J [] (o ++ out) e) e) (fun _ _ => False).
Proof.
  intros HJ Hscript Hrx Hvalid out Hf Hout Hrep. unfold sed. rewrite Hscript, Hrx, Hvalid. rewrite bool_decide_true by done.
  pose proof (term_stream (J := J) e) as Hstream.
  apply (finished_spec (sed_reader fs regexes stdout fuel Stdin rx sub) s (lit "sed") e _ _ _ (fun _ => 0)); [|done].
  eapply wp_mono; [exact (sed_reader_spec fs regexes Stdin stdout (fun i o s => J i o e s) F fuel rx sub i o s HJ Hf Hout)|done|done].
Qed.
End stdin.

(** ** The scripts of sed *)

Definition protect (delimiter : char) (part : str) : str :=
  flat_map (fun c => if (c =? delimiter)%N then [ch BACKSLASH; c] else [c]) part.

Definition ends_in_backslash (part : str) : Prop := last part = Some (ch BACKSLASH).

Lemma split_protected d p rest parts current :
  d <> ch BACKSLASH -> ~ ends_in_backslash p -> (length parts < 2)%nat ->
  split_sed_loop d (protect d p ++ d :: rest) parts current = split_sed_loop d rest (parts ++ [current ++ p]) [].
Proof.
  intros Hd Hp Hl. assert (isc d BACKSLASH = false) as Hdb by (apply not_true_iff_false; by rewrite isc_spec).
  revert current. induction p as [|c p IH]; intros current.
  - cbn [protect flat_map app split_sed_loop]. rewrite Hdb, N.eqb_refl, (proj2 (Nat.ltb_lt _ _)) by done. by rewrite app_nil_r.
  - assert (~ ends_in_backslash p) as Hp' by (unfold ends_in_backslash in *; destruct p; [done|exact Hp]).
    specialize (IH Hp'). cbn [protect flat_map]. fold (protect d p). destruct (c =? d)%N eqn:Ec.
    + apply N.eqb_eq in Ec as ->. cbn [app split_sed_loop]. rewrite (proj2 (isc_spec (ch BACKSLASH) BACKSLASH)), N.eqb_refl by done.
      rewrite IH. by rewrite <- app_assoc.
    + cbn [app split_sed_loop]. destruct (isc c BACKSLASH) eqn:Eb.
      * apply isc_spec in Eb as ->. destruct p as [|x p]; [by destruct Hp|].
        assert (exists y r, protect d (x :: p) ++ d :: rest = y :: r /\ (y =? d)%N = false) as (y & r & E & Hy).
        { cbn [protect flat_map]. destruct (x =? d)%N eqn:Ex; cbn [app]; eexists _, _; (split; [reflexivity|]); [|done]. rewrite N.eqb_sym. by apply N.eqb_neq. }
        rewrite E, Hy, <- E, IH. by rewrite <- app_assoc.
      * rewrite Ec. cbn [andb]. rewrite IH. by rewrite <- app_assoc.
Qed.

Lemma split_flags d flags a b current :
  Forall (fun c => is_any c ["g"; "i"]%char = true) flags -> split_sed_loop d flags [a; b] current = ([a; b], current ++ flags).
Proof.
  intros H. revert current. induction H as [|c flags Hc _ IH]; intros current; [by rewrite app_nil_r|]. cbn [split_sed_loop].
  assert (isc c BACKSLASH = false) as ->.
  { apply not_true_iff_false. intros ->%isc_spec. by vm_compute in Hc. }
  rewrite andb_false_r, IH. by rewrite <- app_assoc.
Qed.

(** [s], the pattern and the replacement with the delimiters in them escaped, and the flags. *)
Definition sed_script (d : char) (sub : SedSubstitution) : str :=
  lit "s" ++ [d] ++ protect d (sub_pattern sub) ++ [d] ++ protect d (sub_replacement sub) ++ [d]
  ++ (if sub_global sub then lit "g" else []) ++ (if sub_ignore_case sub then lit "i" else []).

Lemma parse_sed_script d sub :
  d <> ch BACKSLASH -> ~ ends_in_backslash (sub_pattern sub) -> ~ ends_in_backslash (sub_replacement sub) ->
  parse_sed_substitution (sed_script d sub) = Some sub.
Proof.
  intros Hd Hp Hr. unfold sed_script. cbn [lit List.map list_ascii_of_string app]. unfold parse_sed_substitution.
  change (isc (N_of_ascii "s") "s") with true. cbn [negb]. unfold split_sed_parts.
  rewrite split_protected by (done || simpl; lia). cbn [app]. rewrite split_protected by (done || simpl; lia). cbn [app].
  destruct sub as [p r [] []]; cbn [sub_global sub_ignore_case sub_pattern sub_replacement]; (rewrite split_flags by by repeat constructor); reflexivity.
Qed.

Lemma ends_in_backslash_snoc p c : ends_in_backslash (p ++ [c]) <-> c = ch BACKSLASH.
Proof. unfold ends_in_backslash. rewrite last_snoc. split; [by intros [= ->]|by intros ->]. Qed.

(** A part never ends in a backslash: before a delimiter it stands for the delimiter. *)
Lemma split_never_backslash d chars parts current :
  d <> ch BACKSLASH -> Forall (fun p => ~ ends_in_backslash p) parts ->
  (ends_in_backslash current -> hd_error chars <> Some d) ->
  Forall (fun p => ~ ends_in_backslash p) (split_sed_loop d chars parts current).1.
Proof.
  intros Hd. remember (length chars) as n eqn:Hn. revert chars Hn parts current.
  induction n as [n IH] using lt_wf_ind. intros [|c rest] -> parts current Hparts Hcur; [done|]. cbn [split_sed_loop].
  destruct (isc c BACKSLASH) eqn:Eb.
  - destruct rest as [|x rest]; [apply (IH 0%nat); done || (simpl; lia)|]. destruct (x =? d)%N eqn:Ex.
    + apply (IH (length rest)); [simpl; lia|done|done|]. by intros ->%ends_in_backslash_snoc.
    + apply (IH (length (x :: rest))); [simpl; lia|done|done|]. intros _ [= ->]. by rewrite N.eqb_refl in Ex.
  - assert (c <> ch BACKSLASH) as Hc by (intros ->; by vm_compute in Eb).
    destruct ((c =? d)%N && _) eqn:Ec.
    + apply andb_true_iff in Ec as [->%N.eqb_eq _]. apply (IH (length rest)); [simpl; lia|done| |by intros [=]].
      apply Forall_app. split; [done|]. apply Forall_singleton. intros H. by apply (Hcur H).
    + apply (IH (length rest)); [simpl; lia|done|done|]. by intros ->%ends_in_backslash_snoc.
Qed.

Lemma split_by_backslash chars parts current : (split_sed_loop (ch BACKSLASH) chars parts current).1 = parts.
Proof.
  remember (length chars) as n eqn:Hn. revert chars Hn current.
  induction n as [n IH] using lt_wf_ind. intros [|c rest] -> current; [done|]. cbn [split_sed_loop].
  destruct (isc c BACKSLASH) eqn:Eb.
  - destruct rest as [|x rest]; [done|]. destruct (x =? _)%N; [apply (IH (length rest))|apply (IH (length (x :: rest)))]; simpl; lia || done.
  - assert ((c =? ch BACKSLASH)%N = false) as -> by exact Eb. apply (IH (length rest)); [simpl; lia|done].
Qed.

Lemma parsed_never_backslash script sub :
  parse_sed_substitution script = Some sub -> ~ ends_in_backslash (sub_pattern sub) /\ ~ ends_in_backslash (sub_replacement sub).
Proof.
  unfold parse_sed_substitution, split_sed_parts. destruct script as [|c [|d rest]]; [done..|]. destruct (negb _); [done|].
  destruct (split_sed_loop d rest [] []) as [parts flags] eqn:E. destruct parts as [|a [|b [|? ?]]]; try done.
  destruct (existsb _ _); [done|]. intros [= <-]. cbn [sub_pattern sub_replacement].
  destruct (decide (d = ch BACKSLASH)) as [->|Hd].
  - pose proof (split_by_backslash rest [] []) as H. by rewrite E in H.
  - pose proof (split_never_backslash d rest [] [] Hd (Forall_nil_2 _) ltac:(by intros [=])) as H. rewrite E in H.
    by apply Forall_cons in H as [Ha [Hb _]%Forall_cons].
Qed.

(** ** The walk over the inputs of grep *)

Section walk.
Context {W : Type} (I Room : W -> Prop) (owned : W -> gset Z) (fs : Fs W).
Context `{Hv : !OwnerLaws I Room owned (f_vfs fs)}.
Context `{Hnames : !NamedDirs I (f_vfs fs)} (Hbin : Forall part_name (f_bin fs)).
Context (others_pool others_exec : Z) (X : gset Z).

Definition at_rest (s : XState W) : Prop := held_still I owned fs others_pool others_exec X (x_fs s).

(** Some call of [next] that gives an input leads from [g] to [g']. *)
Definition next_inputs (g' g : GrepInputs) : Prop :=
  exists fuel input s s', at_rest s /\ grep_next fs fuel g s = (Ok (Some input, g'), s').

Abbreviation gives_input g := (forall s, at_rest s ->
  ends_by_fuel (fun fuel => grep_next fs fuel g) s (fun _ s' => at_rest s') (fun _ _ => False)).

(** Every call of [next] returns, and there are only finitely many. *)
Inductive walk_ends (g : GrepInputs) : Prop :=
| walk_next : gives_input g -> (forall g', next_inputs g' g -> walk_ends g') -> walk_ends g.

(** A call of the facade that leaves it as it found it. *)
Lemma call_at_rest {A} (m : ST (FsState W) Errno A) s (P : A -> Prop) :
  at_rest s ->
  wp m (x_fs s) (fun a f => P a /\ held_still I owned fs others_pool others_exec X f) (fun _ f => held_still I owned fs others_pool others_exec X f) ->
  exists r s', x_try_fs m s = (Ok r, s') /\ at_rest s' /\ match r with Ok a => P a | Err _ => True | _ => False end.
Proof.
  intros Hs Hm. unfold wp in Hm. unfold x_try_fs. destruct (m (x_fs s)) as [[a|e| |] f]; [| |done..].
  - destruct Hm as [HP Hf]. by eexists (Ok a), _.
  - by eexists (Err e), _.
Qed.

Lemma check_at_rest s : at_rest s -> exists r s', x_try_fs (check (f_scoped fs) (f_cancelled fs)) s = (Ok r, s') /\ at_rest s'
  /\ match r with Ok _ | Err _ => True | _ => False end.
Proof.
  intros Hs. apply (call_at_rest _ s (fun _ => True) Hs).
  eapply wp_mono; [apply (still_check I owned fs others_pool others_exec X (x_fs s) Hs)|by intros|done].
Qed.

(** A visit gives an input, or a directory to enter. *)
Lemma visit_cases path g s :
  at_rest s ->
  (exists input g' s', at_rest s' /\ (g' = g \/ g' = mkGrepInputs [] [] (gi_recursive g))
     /\ forall again, grep_visit fs again path g s = (Ok (Some input, g'), s'))
  \/ (exists entries s', at_rest s' /\ Forall listed entries /\ depth (resolve (f_cwd fs) path) <= 256
     /\ forall again, grep_visit fs again path g s = again (mkGrepInputs (gi_roots g) ((path, entries) :: gi_directories g) (gi_recursive g)) s').
Proof.
  intros Hs. unfold grep_visit, sbind. destruct (check_at_rest s Hs) as (r & s1 & -> & H1 & Hr).
  destruct r as [[]|e| |]; [|left; eexists _, _, s1; split; [exact H1|]; by split; [right|]|done..].
  case_bool_decide; [left; eexists _, g, s1; split; [exact H1|]; by split; [left|]|].
  destruct (call_at_rest (fs_stat (f_vfs fs) (f_bin fs) (f_cwd fs) (f_limits fs) (f_scoped fs) (f_cancelled fs) path) s1 (fun _ => True) H1) as (r & s2 & -> & H2 & Hr2).
  { eapply wp_mono; [apply (still_stat I Room owned fs others_pool others_exec path X (x_fs s1) H1)|by intros|done]. }
  destruct r as [m|e| |]; [|left; eexists _, g, s2; split; [exact H2|]; by split; [left|]|done..].
  destruct (_ || _); [left; eexists _, g, s2; split; [exact H2|]; by split; [left|]|].
  destruct (call_at_rest _ s2 _ H2 (readdir_names I Room owned fs Hbin others_pool others_exec path X (x_fs s2) H2)) as (r & s3 & -> & H3 & Hr3).
  destruct r as [es|e| |]; [|left; eexists _, g, s3; split; [exact H3|]; by split; [left|]|done..].
  right. destruct Hr3 as [Hes Hd]. by exists es, s3.
Qed.

Lemma walk_ends_visit g g1 path :
  (forall fuel s, grep_next fs (S fuel) g s = grep_visit fs (grep_next fs fuel) path g1 s) ->
  walk_ends g1 -> walk_ends (mkGrepInputs [] [] (gi_recursive g1)) ->
  (forall entries, Forall listed entries -> depth (resolve (f_cwd fs) path) <= 256 ->
     walk_ends (mkGrepInputs (gi_roots g1) ((path, entries) :: gi_directories g1) (gi_recursive g1))) ->
  walk_ends g.
Proof.
  intros Hstep H1 H0 Hdir. constructor.
  2: { intros g' (fuel & input & s & s' & Hs & Hrun). destruct fuel as [|fuel]; [done|]. rewrite Hstep in Hrun.
    destruct (visit_cases path g1 s Hs) as [(i & g2 & s2 & _ & Hg2 & Hv2)|(es & s2 & H2 & Hes & Hd & Hv2)]; rewrite Hv2 in Hrun.
    + injection Hrun as <- <- <-. by destruct Hg2 as [-> | ->].
    + destruct (Hdir es Hes Hd) as [_ Hacc]. apply Hacc. by exists fuel, input, s2, s'. }
  - intros s Hs. destruct (visit_cases path g1 s Hs) as [(i & g2 & s2 & H2 & _ & Hv2)|(es & s2 & H2 & Hes & Hd & Hv2)].
    + exists 1%nat. intros [|n] Hn; [lia|]. unfold wp. by rewrite Hstep, Hv2.
    + destruct (Hdir es Hes Hd) as [Hends _]. destruct (Hends s2 H2) as [n0 Hn0]. exists (S n0). intros [|n] Hn; [lia|].
      unfold wp. rewrite Hstep, Hv2. apply Hn0. lia.
Qed.

Lemma walk_ends_pop roots path below recursive :
  walk_ends (mkGrepInputs roots below recursive) -> walk_ends (mkGrepInputs roots ((path, []) :: below) recursive).
Proof.
  intros [Hends Hacc]. constructor.
  - intros s Hs. destruct (Hends s Hs) as [n0 Hn0]. exists (S n0). intros [|n] Hn; [lia|]. apply (Hn0 n). lia.
  - intros g' (fuel & input & s & s' & Hs & Hrun). destruct fuel as [|fuel]; [done|].
    apply Hacc. by exists fuel, input, s, s'.
Qed.

Lemma walk_ends_none recursive : walk_ends (mkGrepInputs [] [] recursive).
Proof.
  constructor.
  - intros s Hs. exists 1%nat. intros [|n] Hn; [lia|]. exact Hs.
  - intros g' (fuel & input & s & s' & Hs & Hrun). by destruct fuel.
Qed.

(** A directory at [cs], with [room] levels to the limit on paths. *)
Lemma walk_ends_frame roots recursive room path cs es below :
  (257 <= room + length cs)%nat -> frame_at (f_cwd fs) path cs -> Forall listed es ->
  walk_ends (mkGrepInputs roots below recursive) -> (length cs <= 256)%nat ->
  walk_ends (mkGrepInputs roots ((path, es) :: below) recursive).
Proof.
  revert path cs es below. induction room as [|room IH]; intros path cs es below Hroom Hcs Hes Hbelow Hlen; [lia|].
  induction Hes as [|e es He _ IHes]; [by apply walk_ends_pop|].
  apply (walk_ends_visit _ (mkGrepInputs roots ((path, es) :: below) recursive) (join_path path (entry_name e))); [done|exact IHes|apply walk_ends_none|].
  intros es' Hes' Hl. destruct Hcs as [Hcs Hat].
  assert (Forall part_name (cs ++ [entry_name e])) as Hchild by (apply Forall_app; split; [done|by apply Forall_singleton]).
  rewrite Hat, depth_path_of in Hl by done. unfold len in Hl.
  apply (IH _ (cs ++ [entry_name e])); [rewrite length_app; simpl; lia| |done|exact IHes|lia].
  apply frame_at_resolved; [by apply join_path_nonempty|done|by apply Hat].
Qed.

Lemma walk_ends_roots roots recursive : walk_ends (mkGrepInputs roots [] recursive).
Proof.
  induction roots as [|path roots IH]; [apply walk_ends_none|].
  apply (walk_ends_visit _ (mkGrepInputs roots [] recursive) path); [done|exact IH|apply walk_ends_none|].
  intros es Hes Hl.
  assert (exists cs, frame_at (f_cwd fs) path cs /\ (length cs <= 256)%nat) as (cs & Hcs & Hlen).
  { destruct path as [|c path]; [exists []; split; [apply frame_at_empty|simpl; lia]|].
    eexists. split; [apply frame_at_resolved; [done|apply parts_ok|apply resolve_parts]|].
    rewrite resolve_parts, depth_path_of in Hl by apply parts_ok. unfold len in Hl. lia. }
  by apply (walk_ends_frame roots recursive 257 path cs es []); [lia|..].
Qed.
End walk.
