(* ===== verification/FilesSpec.v ===== *)
(** * Properties of whole files, from the facade to the in-memory backends *)

From Stdlib Require Import Ascii String.
From S2P Require Import Prelude RustStr BTreeMap VfsTypes VfsPath VfsIface MemVfs MemVfsInv MemVfsView.
From S2P Require Import MemVfsFiles MemVfsSystem MountVfs MountFacts MemMount VfsSpec FileLaws SandboxFs.
From S2P Require Import SandboxFsFacts SandboxFsFrame SandboxSpec FileFacts Streams LineReader TextLines.
From S2P Require Import FileCmds RemoveFacts TextMatch MatchFacts.

#[local] Open Scope Z_scope.

(** C36: in-memory backends under a mount table are a filesystem of files, when their
    byte or file size quota is within [isize::MAX].  A path names at most one file;
    opening one links a fresh handle to it, empties it if asked and creates it if it
    was not there; a handle reads and writes exactly its file, at its offset or at
    the end, and truncating it cuts exactly its file or fills it with zeroes, through
    a writable handle only; closing a handle leaves every file that still has a name
    or a handle as it was; what one of these operations does not speak of it leaves
    as it was, and a refused one changes nothing. *)
Theorem mounted_memory_holds_files quota (t : MountTable Backends) :
  (forall k, quota_ok (quota k) /\ addressable (quota k)) ->
  (forall name v, bt_get name (mounts t) = Some v -> exists k, v = mem_vfs quota k) ->
  FileLaws (mem_named quota t) (mem_linked quota) mem_content (MemInv quota t) (MRoom BackendsRoom) (mounted_vfs t).
Proof. intros Hq Ht. exact (mem_file_laws quota (fun k => proj1 (Hq k)) (fun k => proj2 (Hq k)) t Ht). Qed.

Lemma demo_table_mem name v : bt_get name (mounts demo_table) = Some v -> exists k, v = mem_vfs (fun _ => ample) k.
Proof. intros H. cbn in H. repeat case_decide; simplify_eq; eauto. Qed.

Lemma mounted_memory_holds_files_witness :
  FileLaws (mem_named (fun _ => ample) demo_table) (mem_linked (fun _ => ample)) mem_content
    (MemInv (fun _ => ample) demo_table) (MRoom BackendsRoom) (mounted_vfs demo_table).
Proof.
  apply (mounted_memory_holds_files (fun _ => ample) demo_table); [intros k; split; [apply ample_ok|apply ample_addressable]|apply demo_table_mem].
Defined.

Section whole_files.
Context {W F : Type} `{EqDecision F}.
Context (named : W -> str -> F -> Prop) (linked : W -> FileHandle -> F -> Access -> Prop)
  (content : W -> F -> option bytes).
Context (fs : Fs W) (I J Room : W -> Prop) (Rooms : nat -> W -> Prop) (owned : W -> gset Z).
Context `{Hv : !FileLaws named linked content J Room (f_vfs fs)} `{Hfd : !FdLaws I Room owned (f_vfs fs)}
  `{Hrooms : !RoomLaws I Room Rooms (f_vfs fs)}.
Context (others_pool others_exec : Z).
Context (Hp : 0 <= others_pool) (He : 0 <= others_exec) (Hcap : f_capacity fs <= USIZE_MAX)
  (Hmax : max_open_files (f_limits fs) <= USIZE_MAX).

Abbreviation ready n s :=
  (has_rooms I Rooms owned (f_limits fs) (f_capacity fs) (f_scoped fs) others_pool others_exec n s /\ J (fs_world s)).
Abbreviation path_in path := (resolve (f_cwd fs) path).

(** C37: what is written to a file is read back.  A file written, or appended to,
    through the facade and then read through it has the contents it had, if
    appended to, followed by the data; no other file, name or handle changed.
    When either operation fails, at worst the file itself is changed. *)
Theorem written_file_reads_back path data append s :
  ready 2 s -> is_bin_path (path_in path) = false -> 0 <= host_input_bytes (f_limits fs) <= USIZE_MAX -> len data <= USIZE_MAX ->
  wp (let! _ := write_file (f_vfs fs) (f_bin fs) (f_cwd fs) (f_limits fs) (f_capacity fs) (f_scoped fs) (f_cancelled fs)
                  path data append in
      read_file (f_vfs fs) (f_bin fs) (f_cwd fs) (f_limits fs) (f_capacity fs) (f_scoped fs) (f_cancelled fs) path) s
    (fun out s' => exists before, held named content (fs_world s) (path_in path) before
       /\ out = (if append then before else []) ++ data
       /\ file_set named linked content (fs_world s) (path_in path) out (fs_world s'))
    (fun _ s' => spares named linked content (path_in path) (fs_world s) (fs_world s')).
Proof.
  intros [Hr HJ] Hbin Hlim HU. wp_step.
  eapply wp_mono; [eapply wp_conj;
    [exact (roomy_write_file I Room Rooms owned (f_vfs fs) (f_bin fs) (f_cwd fs) (f_limits fs) (f_capacity fs) (f_scoped fs)
       (f_cancelled fs) others_pool others_exec Hp He Hcap Hmax path data append 1 s Hr)
    |exact (f_write_file named linked content J Room (f_vfs fs) (f_bin fs) (f_cwd fs) (f_limits fs) (f_capacity fs)
       (f_scoped fs) (f_cancelled fs) path data append s HJ (rooms_room 1 _ (proj2 Hr)) HU)]|..].
  2: { intros e s' [_ [_ Hs]]. done. }
  intros [] s1 [[_ Hr1] (HJ1 & before & Hb & Hsp & f & Hn & Hc)].
  eapply wp_mono; [exact (f_read_file named linked content J Room (f_vfs fs) (f_bin fs) (f_cwd fs) (f_limits fs) (f_capacity fs)
    (f_scoped fs) (f_cancelled fs) path f _ s1 HJ1 (rooms_room 0 _ Hr1) Hbin Hlim Hn Hc)|..].
  - intros out s2 (-> & HJ2 & Hu). exists before. split; [done|]. split; [done|]. split.
    + etrans; [exact Hsp|]. by apply untouched_spares.
    + destruct Hu as (HN & _ & HC). exists f. split; [by apply HN|]. rewrite HC; [done|]. left. eauto.
  - intros e s2 (_ & Hs2). by etrans.
Qed.

(** C38: [cp] copies.  A file copied to a path that does not name it is afterwards
    at both paths with the same contents, whatever was at the target before; no
    other file, name or handle changed and no handle is left open.  When the copy
    fails, at worst the file at the target is changed, and again no handle is
    left.  The loop ends within as many turns as the file has chunks of 64 KiB,
    and one. *)
Theorem cp_copies_file file_fuel fuel source dest recursive f d s :
  ready 2 s -> is_bin_path (path_in source) = false ->
  named (fs_world s) (path_in source) f -> ~ named (fs_world s) (path_in dest) f ->
  content (fs_world s) f = Some d -> len d <= (Z.of_nat file_fuel - 1) * STREAM_CHUNK_BYTES -> (0 < file_fuel)%nat ->
  wp (copy_path fs file_fuel fuel source dest recursive) s
    (fun _ s' => named (fs_world s') (path_in source) f /\ content (fs_world s') f = Some d
       /\ file_set named linked content (fs_world s) (path_in dest) d (fs_world s') /\ fs_files s' = fs_files s)
    (fun _ s' => spares named linked content (path_in dest) (fs_world s) (fs_world s') /\ fs_files s' = fs_files s).
Proof.
  intros [Hr HJ] Hbin Hn Hnd Hd Hfuel Hpos. unfold copy_path. cbv zeta. wp_step.
  eapply wp_mono; [eapply wp_conj;
    [exact (roomy_stat I Room Rooms owned (f_vfs fs) (f_bin fs) (f_cwd fs) (f_limits fs) (f_capacity fs) (f_scoped fs)
       (f_cancelled fs) others_pool others_exec (path_in source) 2 s Hr)
    |apply (f_stat named linked content J Room (f_vfs fs) (f_bin fs) (f_cwd fs) (f_limits fs)
       (f_scoped fs) (f_cancelled fs) (path_in source) s HJ); by rewrite resolve_resolved]|..].
  2: { intros e s' [_ (_ & Hs & Hf)]. split; [by apply same_spares|done]. }
  intros m s1 [Hr1 ((HJ1 & Hs1 & Hf1) & Hm)]. rewrite resolve_resolved in Hm. rewrite (Hm f Hn).
  unfold copies_into_itself. rewrite bool_decide_false by (intros Heq; rewrite Heq in Hn; done). cbn [negb andb orb].
  eapply wp_mono; [apply (copy_file_copies named linked content fs J Room I Rooms owned others_pool others_exec
    Hp He Hcap Hmax file_fuel (path_in source) (path_in dest) f d s1 (proj1 Hr1) HJ1 (proj2 Hr1))|..];
    rewrite ?resolve_resolved; try done.
  - by apply (same_named Hs1).
  - by rewrite (same_named Hs1).
  - by rewrite (same_content Hs1).
  - intros [] s2 (HJ2 & [Hsp2 (g & Hg & Hc)] & Hf2). pose proof (same_spares (path_in dest) _ _ Hs1) as Hsp1.
    split; [by apply (spares_names Hsp2), (same_named Hs1)|]. split.
    { rewrite (spares_content Hsp2), (same_content Hs1); [done| |by rewrite (same_named Hs1)].
      left. exists (path_in source). by apply (same_named Hs1). }
    split; [|congruence]. split; [by etrans|]. by exists g.
  - intros e s2 (HJ2 & Hsp2 & Hf2). split; [|congruence]. etrans; [by apply same_spares|done].
Qed.
End whole_files.

(** C39: [rm -r] ends.  Whatever tree the backend shows, and although it is read
    while it is taken apart, a removal ends after finitely many turns of its loop:
    no directory on its stack is deeper than the path limit, and each listing is
    finite.  It never panics, the handle counters stay right, and it leaves the
    open files as they were, also when it fails halfway. *)
Theorem rm_ends {W} (I Room : W -> Prop) (owned : W -> gset Z) (fs : Fs W) `{!FdLaws I Room owned (f_vfs fs)}
    `{!NamedDirs I (f_vfs fs)} others_pool others_exec path recursive s :
  Forall part_name (f_bin fs) ->
  FsInvx I owned (f_limits fs) (f_capacity fs) (f_scoped fs) others_pool others_exec 0 s ->
  let kept s' := FsInvx I owned (f_limits fs) (f_capacity fs) (f_scoped fs) others_pool others_exec 0 s'
                 /\ fs_files s' = fs_files s in
  exists turns, forall fuel, (turns <= fuel)%nat -> wp (remove_path fs fuel path recursive) s (fun _ => kept) (fun _ => kept).
Proof. intros Hbin Hs. exact (remove_path_ends I Room owned fs Hbin others_pool others_exec path recursive _ s (conj Hs eq_refl)). Qed.

(** C40: the walk of [grep -r] ends.  Whatever trees the backend shows, and although they
    are read while the files on the way are searched, each call of [GrepInputs::next]
    returns and only finitely many give an input, from whatever states in which the
    counters are right they are made; none panics, and none takes or gives up an
    open file. *)
Theorem grep_walk_ends {W} (I Room : W -> Prop) (owned : W -> gset Z) (fs : Fs W) `{!FdLaws I Room owned (f_vfs fs)}
    `{!NamedDirs I (f_vfs fs)} others_pool others_exec (held : gset Z) paths recursive :
  Forall part_name (f_bin fs) -> walk_ends I owned fs others_pool others_exec held (mkGrepInputs paths [] recursive).
Proof. intros Hbin. by apply (walk_ends_roots I Room owned fs Hbin others_pool others_exec held). Qed.

(** ** A sandbox with a file *)

Definition demo_shell : Fs (MState Backends) := mkFs demo_vfs [] (lit "/tmp") default_limits 4 true (fun _ => false).

Abbreviation demo_named := (mem_named (fun _ => ample) demo_table).
Abbreviation demo_linked := (mem_linked (fun _ => ample)).
Abbreviation demo_files_inv := (MemInv (fun _ => ample) demo_table).
Abbreviation demo_ready n s :=
  (has_rooms demo_world_inv (MRooms BackendsRooms) mount_owned default_limits 4 true 0 0 n s /\ demo_files_inv (fs_world s)).

#[local] Instance demo_file_laws : FileLaws demo_named demo_linked mem_content demo_files_inv (MRoom BackendsRoom) (f_vfs demo_shell).
Proof. apply mem_file_laws; [intros k; apply ample_ok|intros k; apply ample_addressable|apply demo_table_mem]. Qed.
#[local] Instance demo_shell_laws : FdLaws demo_world_inv (MRoom BackendsRoom) mount_owned (f_vfs demo_shell) := demo_laws.
#[local] Instance demo_shell_rooms : RoomLaws demo_world_inv (MRoom BackendsRoom) (MRooms BackendsRooms) (f_vfs demo_shell) :=
  demo_room_laws.

Lemma demo_is_ready n : (n <= 10)%nat -> demo_ready n demo_fs.
Proof.
  intros Hn. split; [split; [apply demo_fs_inv|by apply demo_rooms]|].
  constructor; [apply (fsi_world _ _ _ _ _ _ _ _ _ demo_fs_inv)|by intros h x Hx|by intros h h' x x' Hx].
Qed.

Lemma written_file_reads_back_witness :
  wp (let! _ := write_file demo_vfs [] (lit "/tmp") default_limits 4 true (fun _ => false) (lit "f") [1; 2] true in
      read_file demo_vfs [] (lit "/tmp") default_limits 4 true (fun _ => false) (lit "f")) demo_fs
    (fun out s' => exists before, held demo_named mem_content (fs_world demo_fs) (lit "/tmp/f") before
       /\ out = before ++ [1; 2]
       /\ file_set demo_named demo_linked mem_content (fs_world demo_fs) (lit "/tmp/f") out (fs_world s'))
    (fun _ s' => spares demo_named demo_linked mem_content (lit "/tmp/f") (fs_world demo_fs) (fs_world s')).
Proof.
  apply (written_file_reads_back demo_named demo_linked mem_content demo_shell demo_world_inv demo_files_inv
    (MRoom BackendsRoom) (MRooms BackendsRooms) mount_owned 0 0 ltac:(lia) ltac:(lia) ltac:(vm_compute; discriminate)
    ltac:(vm_compute; discriminate) (lit "f") [1; 2] true demo_fs).
  - apply demo_is_ready. lia.
  - reflexivity.
  - vm_compute. split; discriminate.
  - vm_compute. discriminate.
Defined.

(** [/tmp/f] with two bytes. *)
Definition demo_written :=
  write_file demo_vfs [] (lit "/tmp") default_limits 4 true (fun _ => false) (lit "f") [1; 2] false demo_fs.
Definition demo_with_file : FsState (MState Backends) := demo_written.2.

Lemma demo_written_ok : demo_written.1 = Ok tt.
Proof. vm_compute. reflexivity. Qed.

Lemma demo_file_ready :
  demo_ready 2 demo_with_file /\ demo_named (fs_world demo_with_file) (lit "/tmp/f") (0%nat, 1)
  /\ mem_content (fs_world demo_with_file) (0%nat, 1) = Some [1; 2].
Proof.
  assert (demo_written = (Ok tt, demo_with_file)) as Hrun by (rewrite <- demo_written_ok; apply surjective_pairing).
  destruct (demo_is_ready 3 ltac:(lia)) as [Hr HJ]. split; [|split].
  - split.
    + exact (wp_Ok _ _ _ _ _ _ (roomy_write_file demo_world_inv (MRoom BackendsRoom) (MRooms BackendsRooms) mount_owned demo_vfs []
        (lit "/tmp") default_limits 4 true (fun _ => false) 0 0 ltac:(lia) ltac:(lia) ltac:(vm_compute; discriminate)
        ltac:(vm_compute; discriminate) (lit "f") [1; 2] false 2 demo_fs Hr) Hrun).
    + exact (proj1 (wp_Ok _ _ _ _ _ _ (f_write_file demo_named demo_linked mem_content demo_files_inv (MRoom BackendsRoom)
        (f_vfs demo_shell) [] (lit "/tmp") default_limits 4 true (fun _ => false) (lit "f") [1; 2] false demo_fs HJ
        (rooms_room 2 _ (proj2 Hr)) ltac:(vm_compute; discriminate)) Hrun)).
  - exists (mkMountedPath (lit "tmp") (mem_vfs (fun _ => ample) 0) (lit "/f") false).
    split; [reflexivity|]. split; [reflexivity|]. exists [lit "f"]. split; [reflexivity|].
    vm_compute. reflexivity.
  - by vm_compute.
Qed.

Lemma cp_copies_file_witness :
  let s := demo_with_file in
  wp (copy_path demo_shell 2 1 (lit "f") (lit "/work/g") false) s
    (fun _ s' => demo_named (fs_world s') (lit "/tmp/f") (0%nat, 1) /\ mem_content (fs_world s') (0%nat, 1) = Some [1; 2]
       /\ file_set demo_named demo_linked mem_content (fs_world s) (lit "/work/g") [1; 2] (fs_world s')
       /\ fs_files s' = fs_files s)
    (fun _ s' => spares demo_named demo_linked mem_content (lit "/work/g") (fs_world s) (fs_world s')
                 /\ fs_files s' = fs_files s).
Proof.
  destruct demo_file_ready as (Hr & Hn & Hc).
  apply (cp_copies_file demo_named demo_linked mem_content demo_shell demo_world_inv demo_files_inv
    (MRoom BackendsRoom) (MRooms BackendsRooms) mount_owned 0 0 ltac:(lia) ltac:(lia) ltac:(vm_compute; discriminate)
    ltac:(vm_compute; discriminate) 2 1 (lit "f") (lit "/work/g") false (0%nat, 1) [1; 2] demo_with_file).
  - exact Hr.
  - reflexivity.
  - exact Hn.
  - intros (mp & Hp & Hv & cs & Hcs & Hview).
    change (mounted_path demo_table (lit "/work/g") = Ok (Some mp)) in Hp.
    assert (mounted_path demo_table (lit "/work/g")
            = Ok (Some (mkMountedPath (lit "work") (mem_vfs (fun _ => ample) 1) (lit "/g") false))) as Hw by reflexivity.
    rewrite Hw in Hp. injection Hp as <-.
    change (mem_vfs (fun _ => ample) 1 = mem_vfs (fun _ => ample) 0) in Hv. by apply mem_vfs_inj in Hv.
  - exact Hc.
  - vm_compute. discriminate.
  - lia.
Defined.

(** ** Removing *)

#[local] Instance demo_named_dirs : NamedDirs demo_world_inv (f_vfs demo_shell).
Proof.
  apply mounted_named_dirs; [repeat constructor; done|]. intros name v Hv.
  destruct (demo_table_mem _ _ Hv) as [k ->]. by apply mem_named_dirs, ample_ok.
Qed.

Lemma rm_ends_witness :
  exists turns, forall fuel, (turns <= fuel)%nat ->
    wp (remove_path demo_shell fuel (lit "../tmp") true) demo_fs
      (fun _ s' => FsInvx demo_world_inv mount_owned default_limits 4 true 0 0 0 s' /\ fs_files s' = fs_files demo_fs)
      (fun _ s' => FsInvx demo_world_inv mount_owned default_limits 4 true 0 0 0 s' /\ fs_files s' = fs_files demo_fs).
Proof.
  apply (rm_ends demo_world_inv (MRoom BackendsRoom) mount_owned demo_shell 0 0 (lit "../tmp") true demo_fs);
    [constructor|apply demo_fs_inv].
Defined.

Lemma grep_walk_ends_witness : walk_ends demo_world_inv mount_owned demo_shell 0 0 ∅ (mkGrepInputs [lit "."; lit "-"] [] true).
Proof.
  apply (grep_walk_ends demo_world_inv (MRoom BackendsRoom) mount_owned demo_shell 0 0 ∅ [lit "."; lit "-"] true). constructor.
Defined.

(** The empty operand is the current directory for [stat] and [readdir], but
    [join_path] makes its entries children of the root: here [rm -r] of the empty
    path in [/tmp], where there is a directory [work], empties the mount [/work]. *)
Definition demo_elsewhere : ST (FsState (MState Backends)) Errno (list bool) :=
  let exists_ path :=
    let! r := try (fs_stat demo_vfs [] (lit "/tmp") default_limits true (fun _ => false) path) in
    sret (match r with Ok _ => true | _ => false end) in
  let! _ := fs_mkdir demo_vfs (lit "/tmp") default_limits true (fun _ => false) (lit "work") in
  let! _ := write_file demo_vfs [] (lit "/tmp") default_limits 4 true (fun _ => false) (lit "/work/f") [1] false in
  let! before := exists_ (lit "/work/f") in
  let! _ := try (remove_path demo_shell 9 [] true) in
  let! after := exists_ (lit "/work/f") in
  sret [before; after].

Example rm_empty_operand_reaches_elsewhere : (demo_elsewhere demo_fs).1 = Ok [true; false].
Proof. vm_compute. reflexivity. Qed.
