(* ===== verification/TextSpec.v ===== *)
(** * Properties of the text commands

    What [cat], [head], [tail], [uniq], [wc] and [sort] print for their standard
    input, whatever the pieces it arrives in, and how they fail. *)

From Stdlib Require Import Ascii String.
From S2P Require Import Prelude RustStr VfsTypes VfsIface MountVfs MemMount SandboxFs SandboxFsFacts.
From S2P Require Import Redirects Output SandboxSpec Utf8 Streams LineReader StreamFacts TextLines.
From S2P Require Import TextLinesFacts TextCountFacts TextFacts TextSort TextMatch MatchFacts.

#[local] Open Scope Z_scope.

(** ** A concrete command for the witnesses: stdin arrives in pieces, the output is captured *)

Abbreviation DemoWorld := (MState Backends).

Definition demo_facade : Fs DemoWorld := mkFs demo_vfs [] (lit "/") default_limits 4 true (fun _ => false).

Definition demo_input (pieces : list bytes) (pipes : list PipeEnd) : XState DemoWorld :=
  mkXState (mkRState demo_fs [] default_redirects) (capped_new 100) (capped_new 100) pipes
    (FromPipe (chunks pieces)) (FromPipe []).

Abbreviation demo_terminal := (captured (W := DemoWorld) (pipe_input Stdin) 100 100).

Lemma demo_captured pieces i :
  concat pieces = i -> Forall (fun p => p <> []) pieces -> demo_terminal i [] [] (demo_input pieces []).
Proof.
  intros <- H. assert (forall fd, capture_output fd 100 [] (demo_input pieces [])) as Hc by (by intros []).
  split; [|apply Hc]. split; [by exists pieces|apply Hc].
Qed.

(** The lines [a], [b], [b] and [c d], cut across their ends. *)
Definition demo_text : bytes := [97; 10; 98; 10; 98; 10; 99; 32; 100; 10].
Definition demo_pieces : list bytes := [[97; 10; 98]; [10]; [98; 10; 99; 32]; [100; 10]].

Lemma demo_start_input : demo_terminal demo_text [] [] (demo_input demo_pieces []).
Proof. apply demo_captured; [done|]. repeat (apply Forall_cons; split; [done|]). done. Qed.

(** ** Lines *)

(** C31: the lines a command reads are those of its input, however the input is cut
    into pieces: in order, with their newlines, none lost or split, each at most
    1 MiB.  A longer line, or a failing stream, ends the reading with an error. *)
Theorem lines_independent_of_chunks {W} (fs : Fs W) src dst (J : bytes -> bytes -> XState W -> Prop) F
    `{!Streaming fs src dst J F} fuel i o s :
  J i o s -> (length (split_lines i) < fuel)%nat ->
  wp (each_line fs fuel src empty_buffer (fun acc line => sret (acc ++ [line])) []) s
     (fun ls s' => ls = split_lines i /\ concat ls = i /\ Forall short ls /\ J [] o s')
     (line_failure J F (split_lines i)).
Proof.
  intros HJ Hf.
  eapply wp_mono; [apply (each_line_spec fs src dst J F
    (fun done_ acc o' => o' = o /\ acc = done_ /\ Forall short done_) (line_failure J F (split_lines i))) with (i := i) (o := o) (all := split_lines i) (done_ := [])|..].
  - intros done_ acc l i' o' s' (-> & -> & Hs) HJ' Hl _. apply wp_ret. exists o. split; [|done].
    split; [done|]. split; [done|]. by rewrite Forall_app, Forall_singleton.
  - done.
  - done.
  - apply buffer_ok_empty.
  - done.
  - done.
  - done.
  - intros ls s' (o' & (-> & -> & Hs) & HJ'). split; [done|]. split; [apply split_lines_concat|done].
  - done.
Qed.

Lemma lines_independent_of_chunks_witness :
  wp (each_line demo_facade 9 Stdin empty_buffer (fun acc line => sret (acc ++ [line])) []) (demo_input demo_pieces [])
     (fun ls s' => ls = split_lines demo_text /\ concat ls = demo_text /\ Forall short ls
                   /\ both (pipe_input Stdin) (capture_output Stdout 100) [] [] s')
     (line_failure (both (pipe_input Stdin) (capture_output Stdout 100)) never (split_lines demo_text)).
Proof.
  apply (lines_independent_of_chunks demo_facade Stdin (ToCapture Stdout)
           (both (pipe_input Stdin) (capture_output Stdout 100)) never 9 demo_text []).
  - exact (proj1 demo_start_input).
  - vm_compute. lia.
Defined.

(** ** What the commands print *)

Section commands.
Context {W : Type} (fs : Fs W) (stdout stderr : BoxAsyncWrite) (J : bytes -> bytes -> bytes -> XState W -> Prop)
  (F : IoError -> Prop) {Ht : Terminal fs Stdin stdout stderr J F}.

(** [head] and [tail] print the lines their count selects.  [head] prints
    the first [n] lines and depends on no line after them; [tail] the last [n],
    provided that they and every [n] consecutive lines before them fit the limit
    on retained input, or the lines from a given one on.  Otherwise the exit
    code is 1 and stderr names the reason: a line too long, too much to retain,
    or the failure of the stream. *)
Theorem head_and_tail_select_lines fuel args n count verbose i o e s :
  J i o e s -> len i + 1 <= USIZE_MAX -> (length (split_lines i) < fuel)%nat ->
  0 <= tail_input_bytes (f_limits fs) ->
  let first := take (Z.to_nat n) (split_lines i) in
  let wanted := tail_wanted count (split_lines i) in
  (parse_head_tail true args (LastLines 10) false [] = Ok (LastLines n, verbose, []) ->
   len (o ++ concat first) <= USIZE_MAX -> reportable (lit "head") (line_trouble F first) e ->
   wp (head_tail fs stdout stderr fuel true args) s
      (ended J (lit "head") 1 (line_trouble F first) (fun s' => exists i', J i' (o ++ concat first) e s') e)
      (fun _ _ => False))
  /\ (parse_head_tail false args (LastLines 10) false [] = Ok (count, verbose, []) ->
      len (o ++ concat wanted) <= USIZE_MAX -> reportable (lit "tail") (count_trouble fs F count (split_lines i)) e ->
      wp (head_tail fs stdout stderr fuel false args) s
         (ended J (lit "tail") 1 (count_trouble fs F count (split_lines i)) (J [] (o ++ concat wanted) e) e)
         (fun _ _ => False)).
Proof.
  intros HJ Hi Hf Hw first wanted. split; intros Hargs Hout Hrep.
  - by apply (head_stdin fs stdout stderr J F fuel args n verbose i o e s).
  - by apply (tail_stdin fs stdout stderr J F fuel args count verbose i o e s).
Qed.

(** [uniq] prints the runs of equal lines, as text, of its input: all of them,
    or those of one line ([-u]) or of more ([-d]), with their lengths under [-c]. *)
Theorem uniq_prints_runs fuel args flags i o e s :
  J i o e s -> parse_uniq args (mkUniqFlags false false false) [] = Ok (flags, []) ->
  let lines := line_text_lossy <$> split_lines i in
  let text := concat (run_bytes flags <$> runs lines) in
  len i <= USIZE_MAX -> (length (split_lines i) < fuel)%nat -> len (o ++ text) <= USIZE_MAX ->
  reportable (lit "uniq") (line_trouble F (split_lines i)) e ->
  expand_runs (runs lines) = lines /\ runs_differ (runs lines)
  /\ wp (uniq fs stdout stderr fuel args) s
        (ended J (lit "uniq") 1 (line_trouble F (split_lines i)) (J [] (o ++ text) e) e) (fun _ _ => False).
Proof.
  intros HJ Hargs lines text Hi Hf Hout Hrep. destruct (runs_correct lines) as (H1 & H2 & _).
  split; [done|]. split; [done|]. by apply (uniq_stdin fs stdout stderr J F fuel args flags i o e s).
Qed.

(** [wc] counts the newlines, the words (the nonempty pieces between ASCII
    whitespace) and the bytes of its input, and prints the counts asked for, in
    columns of seven.  Nothing it counts depends on how the input is cut.  That
    it cannot write the line is not noticed. *)
Theorem wc_counts_input fuel args flags i o e s :
  J i o e s -> parse_flags set_wc_flag (mkWcFlags false false false) args = Ok (flags, []) ->
  let counts := mkCounts (newlines i) (word_count i) (len i) in
  let shown := if negb (show_lines flags) && negb (show_words flags) && negb (show_bytes flags)
               then mkWcFlags true true true else flags in
  let text := encode (counts_text counts None shown 7) in
  len i <= USIZE_MAX -> (length i < fuel)%nat -> len (o ++ text) <= USIZE_MAX ->
  reportable (lit "wc") F e ->
  wp (wc fs stdout stderr fuel args) s
     (ended J (lit "wc") 1 F
        (fun s' => J [] (o ++ text) e s' \/ exists err, stream_failed (fun i o => J i o e) F err s') e)
     (fun _ _ => False).
Proof. apply (wc_stdin fs stdout stderr J F fuel args flags i o e s). Qed.

(** [cat] prints the lines of its input: those kept under [-s], each shown as
    asked and numbered with the count of numbered lines up to it; without options
    it copies the input, whatever its lines. *)
Theorem cat_shows_lines fuel args flags i o e s :
  J i o e s -> parse_flags set_cat_flag default_cat_flags args = Ok (flags, []) ->
  let failing := line_trouble F (if cat_plain flags then [] else split_lines i) in
  let out := if cat_plain flags then i else cat_reference flags 0 (kept_lines flags false (split_lines i)) in
  len i <= USIZE_MAX -> (length i < fuel)%nat -> len (o ++ out) <= USIZE_MAX ->
  reportable (lit "cat") failing e ->
  wp (cat fs stdout stderr fuel args) s
     (ended J (lit "cat") 1 failing (J [] (o ++ out) e) e) (fun _ _ => False).
Proof.
  intros HJ Hargs failing out Hi Hf Hout Hrep.
  assert (exists st, cat_transform i flags (mkCatState 0 false) = Ok (st, out)) as (st & Hst).
  { unfold out. destruct (cat_plain flags) eqn:Hp.
    - destruct (cat_transform_plain i flags (mkCatState 0 false) Hp) as (st & H & _). eauto.
    - rewrite cat_transform_lines. apply (cat_lines_reference (split_lines i) flags (mkCatState 0 false)).
      + apply split_lines_shape.
      + done.
      + pose proof (length_split_lines i). unfold len, USIZE_MAX, U64_MAX in *. simpl. lia. }
  by eapply (cat_stdin fs stdout stderr J F fuel args flags st out i o e s).
Qed.
End commands.

(** The ways these commands fail on the demonstration input can be reported. *)
Lemma demo_reportable cmd Why e :
  (forall err, Why err -> err = line_too_long_error \/ err = VfsFailure EIO \/ err = InvalidData TAIL_TOO_LARGE) ->
  len (e ++ encode (error_report cmd (lit "-") line_too_long_error)) <= USIZE_MAX ->
  len (e ++ encode (error_report cmd (lit "-") (VfsFailure EIO))) <= USIZE_MAX ->
  len (e ++ encode (error_report cmd (lit "-") (InvalidData TAIL_TOO_LARGE))) <= USIZE_MAX ->
  reportable cmd Why e.
Proof. intros H ? ? ? err Herr. by destruct (H err Herr) as [->|[->| ->]]. Qed.

Ltac demo_report :=
  apply demo_reportable; [intros err Herr; cbn in Herr; unfold tail_trouble, line_trouble, never in Herr; tauto
                         |vm_compute; discriminate..].

Lemma head_and_tail_select_lines_witness :
  let s := demo_input demo_pieces [] in
  wp (head_tail demo_facade (ToCapture Stdout) (ToCapture Stderr) 9 true [lit "-n"; lit "2"]) s
     (ended demo_terminal (lit "head") 1 (line_trouble never [[97; 10]; [98; 10]])
        (fun s' => exists i', demo_terminal i' [97; 10; 98; 10] [] s') []) (fun _ _ => False)
  /\ wp (head_tail demo_facade (ToCapture Stdout) (ToCapture Stderr) 9 false [lit "-n"; lit "1"]) s
     (ended demo_terminal (lit "tail") 1 (count_trouble demo_facade never (LastLines 1) (split_lines demo_text))
        (demo_terminal [] [99; 32; 100; 10] []) []) (fun _ _ => False).
Proof.
  assert (len demo_text + 1 <= USIZE_MAX) as H1 by (vm_compute; discriminate).
  assert (length (split_lines demo_text) < 9)%nat as H2 by (vm_compute; lia).
  assert (0 <= tail_input_bytes (f_limits demo_facade)) as H3 by (vm_compute; discriminate).
  split.
  - refine (proj1 (head_and_tail_select_lines demo_facade (ToCapture Stdout) (ToCapture Stderr) demo_terminal never
      9 [lit "-n"; lit "2"] 2 (LastLines 1) false demo_text [] [] _ demo_start_input H1 H2 H3) _ _ _);
      [reflexivity|vm_compute; discriminate|demo_report].
  - refine (proj2 (head_and_tail_select_lines demo_facade (ToCapture Stdout) (ToCapture Stderr) demo_terminal never
      9 [lit "-n"; lit "1"] 2 (LastLines 1) false demo_text [] [] _ demo_start_input H1 H2 H3) _ _ _);
      [reflexivity|vm_compute; discriminate|demo_report].
Defined.

Lemma uniq_prints_runs_witness :
  wp (uniq demo_facade (ToCapture Stdout) (ToCapture Stderr) 9 [lit "-d"]) (demo_input demo_pieces [])
     (ended demo_terminal (lit "uniq") 1 (line_trouble never (split_lines demo_text)) (demo_terminal [] [98; 10] []) [])
     (fun _ _ => False).
Proof.
  refine (proj2 (proj2 (uniq_prints_runs demo_facade (ToCapture Stdout) (ToCapture Stderr) demo_terminal never 9
    [lit "-d"] (mkUniqFlags false true false) demo_text [] [] _ demo_start_input _ _ _ _ _)));
    [reflexivity|vm_compute; discriminate|vm_compute; lia|vm_compute; discriminate|demo_report].
Defined.

Lemma wc_counts_input_witness :
  wp (wc demo_facade (ToCapture Stdout) (ToCapture Stderr) 11 [lit "-lw"]) (demo_input demo_pieces [])
     (ended demo_terminal (lit "wc") 1 never
        (fun s' => demo_terminal [] (encode (lit "      4       5" ++ line_end)) [] s'
                   \/ exists err, stream_failed (fun i o => demo_terminal i o []) never err s') [])
     (fun _ _ => False).
Proof.
  apply (wc_counts_input demo_facade (ToCapture Stdout) (ToCapture Stderr) demo_terminal never 11
    [lit "-lw"] (mkWcFlags true true false) demo_text [] [] _ demo_start_input);
    [reflexivity|vm_compute; discriminate|vm_compute; lia|vm_compute; discriminate|by intros err []].
Defined.

Lemma cat_shows_lines_witness :
  wp (cat demo_facade (ToCapture Stdout) (ToCapture Stderr) 11 [lit "-nE"]) (demo_input demo_pieces [])
     (ended demo_terminal (lit "cat") 1 (line_trouble never (split_lines demo_text))
        (demo_terminal [] (cat_reference (mkCatFlags true false false true false) 0 (split_lines demo_text)) []) [])
     (fun _ _ => False).
Proof.
  apply (cat_shows_lines demo_facade (ToCapture Stdout) (ToCapture Stderr) demo_terminal never 11
    [lit "-nE"] (mkCatFlags true false false true false) demo_text [] [] _ demo_start_input);
    [reflexivity|vm_compute; discriminate|vm_compute; lia|vm_compute; discriminate|demo_report].
Defined.

(** C32: [sort] prints the lines of its input, decoded as text, in the order its
    options ask for: by characters or by the number they begin with, each number
    once under [-u], backwards under [-r]; nothing is lost and nothing added.
    Input over the limit is refused with 2 and a message, a cancelled execution
    ends with 124, and a stream that fails with 1 or 2. *)
Theorem sort_sorts_lines {W} (fs : Fs W) stdout stderr (J : bytes -> bytes -> bytes -> XState W -> Prop) F
    `{!Terminal fs Stdin stdout stderr J F} args flags i o e s :
  let limit := sort_input_bytes (f_limits fs) in
  let lines := text_lines (from_utf8_lossy i) in
  let out := sort_lines flags lines in
  J i o e s -> parse_flags set_sort_flag (mkSortFlags false false false) args = Ok (flags, []) ->
  0 <= limit < USIZE_MAX -> len (o ++ lines_bytes out) <= USIZE_MAX ->
  len (e ++ encode TOO_LARGE) <= USIZE_MAX -> reportable (lit "sort") (fun err => err = VfsFailure EIO \/ F err) e ->
  sorted_output flags lines out
  /\ wp (sort fs stdout stderr args) s
     (fun code s' =>
        (code = 0 /\ len i <= limit /\ J [] (o ++ lines_bytes out) e s')
        \/ (code = 124 /\ cancelled_seen (f_scoped fs) (f_cancelled fs))
        \/ (code = 2 /\ limit < len i /\ exists i' o', J i' o' (e ++ encode TOO_LARGE) s')
        \/ (1 <= code <= 2 /\ exists err i' o' e',
              (F err \/ (err = VfsFailure EIO /\ cancelled_seen (f_scoped fs) (f_cancelled fs))) /\ J i' o' e' s'))
     (fun _ _ => False).
Proof.
  intros limit lines out HJ Hargs Hl Hout He Hrep. split; [apply sort_lines_sorted|].
  by apply (sort_stdin fs stdout stderr J F args flags i o e s).
Qed.

Lemma sort_sorts_lines_witness :
  wp (sort demo_facade (ToCapture Stdout) (ToCapture Stderr) [lit "-ru"]) (demo_input demo_pieces [])
     (fun code s' =>
        (code = 0 /\ len demo_text <= 8 * 1024 * 1024 /\ demo_terminal [] [99; 32; 100; 10; 98; 10; 97; 10] [] s')
        \/ (code = 124 /\ cancelled_seen true (fun _ => false))
        \/ (code = 2 /\ 8 * 1024 * 1024 < len demo_text /\ exists i' o', demo_terminal i' o' (encode TOO_LARGE) s')
        \/ (1 <= code <= 2 /\ exists err i' o' e',
              (never err \/ (err = VfsFailure EIO /\ cancelled_seen true (fun _ => false))) /\ demo_terminal i' o' e' s'))
     (fun _ _ => False).
Proof.
  refine (proj2 (sort_sorts_lines demo_facade (ToCapture Stdout) (ToCapture Stderr) demo_terminal never
    [lit "-ru"] (mkSortFlags true false true) demo_text [] [] _ demo_start_input _ _ _ _ _));
    [reflexivity|vm_compute; split; [discriminate|reflexivity]|vm_compute; discriminate|vm_compute; discriminate|demo_report].
Defined.

(** A command whose reader goes away ends quietly.  [cat] without options,
    when the reader of its output takes less than its input, exits with 1 and
    says nothing on stderr; the reader got what it took. *)
Theorem broken_pipe_ends_cat_quietly {W} (fs : Fs W) RJ j limit cap2
    `{!Reads fs Stdin RJ (fun err => err = BrokenPipe)} fuel args flags i e s :
  piped RJ j limit cap2 i [] e s -> parse_flags set_cat_flag default_cat_flags args = Ok (flags, []) ->
  cat_plain flags = true -> limit < len i -> len i <= USIZE_MAX -> (length i < fuel)%nat ->
  len e <= USIZE_MAX ->
  wp (cat fs (ToPipe j) (ToCapture Stderr) fuel args) s
     (fun code s' => code = 1 /\ exists i' o', piped RJ j limit cap2 i' o' e s' /\ len o' <= limit) (fun _ _ => False).
Proof.
  intros HJ Hargs Hp Hlim Hi Hf He.
  assert (forall i o e s, piped (W := W) RJ j limit cap2 i o e s -> len o <= limit) as Hroom.
  { intros i' o' e' s' [[_ (p & _ & _ & _ & Hr)] _]. lia. }
  destruct (cat_transform_plain i flags (mkCatState 0 false) Hp) as (st & Hst & _).
  eapply wp_mono; [eapply (cat_stdin fs (ToPipe j) (ToCapture Stderr) (piped RJ j limit cap2) (fun err => err = BrokenPipe)
    fuel args flags st i i [] e s HJ Hargs Hst Hf Hi)|..].
  - intros err [[-> Hn]| ->]; [|by rewrite app_nil_r]. rewrite Hp in Hn. by destruct Hn.
  - intros code s' [[_ HJ']|[-> (err & i' & o' & Hwhy & HJ')]]; [apply Hroom in HJ'; simpl in HJ'; lia|].
    split; [done|]. exists i', o'. split; [|by eapply Hroom].
    destruct Hwhy as [[-> Hn]| ->]; [rewrite Hp in Hn; by destruct Hn|]. simpl in HJ'. by rewrite app_nil_r in HJ'.
  - done.
Qed.

Definition demo_breaking : PipeEnd := mkPipeEnd [] (Some 3) false.

Lemma broken_pipe_ends_cat_quietly_witness :
  let J := piped (W := DemoWorld) (pipe_input Stdin) 0 3 100 in
  wp (cat demo_facade (ToPipe 0) (ToCapture Stderr) 11 []) (demo_input demo_pieces [demo_breaking])
     (fun code s' => code = 1 /\ exists i' o', J i' o' [] s' /\ len o' <= 3) (fun _ _ => False).
Proof.
  apply (broken_pipe_ends_cat_quietly demo_facade (pipe_input Stdin) 0 3 100 11 [] default_cat_flags demo_text);
    [|reflexivity|reflexivity|vm_compute; reflexivity|vm_compute; discriminate|vm_compute; lia|vm_compute; discriminate].
  split; [split|by split]; [|by exists demo_breaking]. exists demo_pieces. split; [done|]. split; [|done].
  repeat (apply Forall_cons; split; [done|]). done.
Defined.

(** ** echo, grep and sed *)

(** A library of expressions of one character, which match where it occurs. *)
Fixpoint hits (c : char) (text : str) (pos : Z) : list (list (option (Z * Z))) :=
  match text with
  | [] => []
  | x :: text =>
      let next := pos + len (encode_char x) in
      if (x =? c)%N then [Some (pos, next)] :: hits c text next else hits c text next
  end.

Definition demo_regexes : RegexLib char :=
  mkRegexLib (fun pattern _ => match pattern with [c] => inl c | _ => inr (lit "no such expression") end)
    (fun c text => contains text c) (fun _ => 1) (fun c text => hits c text 0).

#[local] Instance demo_regex_laws : RegexLaws demo_regexes.
Proof.
  constructor.
  - intros c text. cbn [demo_regexes rx_captures_len rx_captures_iter].
    enough (forall pos from, 0 <= from <= pos -> matches_ok 1 (pos + len (encode text)) from (hits c text pos)) as H by (apply (H 0); lia).
    induction text as [|x text IH]; intros pos from Hp; [done|]. cbn [hits encode flat_map]. fold (encode text). rewrite len_app.
    pose proof (len_nonneg (encode_char x)). pose proof (len_nonneg (encode text)). rewrite Z.add_assoc.
    destruct (x =? c)%N; [|apply IH; lia]. exists pos, (pos + len (encode_char x)). split; [done|]. split; [done|]. split; [lia|].
    split; [apply Forall_singleton; cbn; lia|]. apply IH. lia.
  - intros c text. cbn. generalize 0. induction text as [|x text IH]; intros pos; [done|]. cbn [contains existsb hits].
    rewrite N.eqb_sym. destruct (x =? c)%N; [done|]. apply IH.
Qed.

(** [echo -ne] prints any text, given a spelling of it: characters other than the
    backslash as they are, the escapes of one character, and code points in
    hexadecimal; every text has such a spelling in ASCII.  On no arguments does
    [echo] panic, and what it prints is text: no escape makes half a character. *)
Theorem echo_prints_any_text {W} (fs : Fs W) src dst (J : bytes -> bytes -> XState W -> Prop) F
    `{!Streaming fs src dst J F} i o s :
  J i o s ->
  (forall w t, spells w t -> starts_with w (lit "-") = false -> len (o ++ encode t) <= USIZE_MAX ->
     wp (echo fs dst [lit "-ne"; w]) s
       (fun code s' => (code = 0 /\ J i (o ++ encode t) s') \/ (code = 1 /\ exists e, stream_failed J F e s')) (fun _ _ => False))
  /\ (forall t, Forall (fun c => is_scalar c = true) t -> spells (spelled t) t)
  /\ (forall args, Forall (Forall (fun c => is_scalar c = true)) args -> exists t, echo_text args = Ok t /\ Forall (fun c => is_scalar c = true) t).
Proof.
  intros HJ. split; [|split; [exact spells_spelled|exact echo_text_ok]].
  intros w t Hw Hopt Hl. unfold echo. rewrite (echo_spelling w t Hw Hopt). wp_step. apply wp_ok with (a := t); [done|].
  wp_step. apply wp_x_try. eapply wp_mono; [by apply (stream_write (src := src) (J := J))|..].
  - intros [] s' H. apply wp_ret. by left.
  - intros e s' H. apply wp_ret. right. eauto.
Qed.

Lemma echo_prints_any_text_witness :
  let t := [233; 10; 97]%N in
  wp (echo demo_facade (ToCapture Stdout) [lit "-ne"; lit "\U000000e9\na"]) (demo_input demo_pieces [])
    (fun code s' => (code = 0 /\ both (pipe_input Stdin) (capture_output Stdout 100) demo_text (encode t) s')
       \/ (code = 1 /\ exists e, stream_failed (both (pipe_input Stdin) (capture_output Stdout 100)) never e s')) (fun _ _ => False).
Proof.
  apply (proj1 (echo_prints_any_text demo_facade Stdin (ToCapture Stdout) (both (pipe_input Stdin) (capture_output Stdout 100)) never
    demo_text [] (demo_input demo_pieces []) (proj1 demo_start_input)) (lit "\U000000e9\na") [233; 10; 97]%N).
  - exact (spells_code 233 _ _ eq_refl (spells_escape (ch "n") (ch NL) _ _ eq_refl (spells_char (ch "a") [] [] ltac:(done) spells_end))).
  - reflexivity.
  - vm_compute. discriminate.
Defined.

(** C33: [grep] prints the lines of its input that match, or under -v those that do not,
    decoded as text, each once and in order, with their numbers under -n, or under -c
    only how many they are.  The exit code is 0 if there is such a line and 1 if not;
    a line too long or a failing stream is reported with 2, except that nobody is told
    when the reader of its output went away. *)
Theorem grep_prints_matching_lines {W Rx} (fs : Fs W) (regexes : RegexLib Rx) stdout stderr (J : bytes -> bytes -> bytes -> XState W -> Prop) F
    `{!Terminal fs Stdin stdout stderr J F} fuel args flags pattern rx i o e s :
  J i o e s -> parse_flags set_grep_flag default_grep_flags args = Ok (flags, [pattern]) ->
  rx_build regexes pattern (g_ignore_case flags) = inl rx ->
  let found := selected regexes rx flags (split_lines i) in
  let out := grep_output flags [] false found in
  len i <= USIZE_MAX -> (length (split_lines i) < fuel)%nat -> len (o ++ out) <= USIZE_MAX ->
  reportable (lit "grep") (line_trouble F (split_lines i)) e ->
  wp (grep fs regexes stdout stderr fuel args) s
    (finished J (lit "grep") (if bool_decide (found = []) then 1 else 0) (line_trouble F (split_lines i)) (J [] (o ++ out) e) e)
    (fun _ _ => False).
Proof. intros HJ Hargs Hrx found out Hi Hf Hout Hrep. by eapply (grep_stdin fs regexes stdout stderr J F fuel args flags pattern rx i o e s). Qed.

Lemma grep_prints_matching_lines_witness :
  wp (grep demo_facade demo_regexes (ToCapture Stdout) (ToCapture Stderr) 9 [lit "-vn"; lit "b"]) (demo_input demo_pieces [])
    (finished demo_terminal (lit "grep") 0 (line_trouble never (split_lines demo_text))
       (demo_terminal [] (encode (lit "1:a" ++ line_end ++ lit "4:c d" ++ line_end)) []) []) (fun _ _ => False).
Proof.
  apply (grep_prints_matching_lines demo_facade demo_regexes (ToCapture Stdout) (ToCapture Stderr) demo_terminal never 9 [lit "-vn"; lit "b"]
    (mkGrepFlags false true true false false) (lit "b") (ch "b") demo_text [] [] _ demo_start_input);
    [reflexivity|reflexivity|vm_compute; discriminate|vm_compute; lia|vm_compute; discriminate|demo_report].
Defined.

(** C34: [sed] replaces in every line the first match, or under g every match, and prints
    the rest as it is, endings included: for [&] and the references of the
    replacement the text of the group, for other characters themselves.  Once the
    replacement was accepted each reference is to a group of the pattern.  What is
    printed does not depend on the pieces it is written in, and nothing panics, as
    long as the matches of a line follow each other. *)
Theorem sed_substitutes {W Rx} (fs : Fs W) (regexes : RegexLib Rx) stdout stderr (J : bytes -> bytes -> bytes -> XState W -> Prop) F
    `{!Terminal fs Stdin stdout stderr J F, !RegexLaws regexes} fuel script sub rx i o e s :
  J i o e s -> parse_sed_substitution script = Some sub -> rx_build regexes (sub_pattern sub) (sub_ignore_case sub) = inl rx ->
  validate_sed_replacement (sub_replacement sub) (rx_captures_len regexes rx) = Ok tt -> 0 < rx_captures_len regexes rx ->
  let out := concat (sed_reference regexes rx sub <$> split_lines i) in
  (length (split_lines i) < fuel)%nat -> len (o ++ out) <= USIZE_MAX ->
  reportable (lit "sed") (line_trouble F (split_lines i)) e ->
  Forall (fun t => match t with Group k => 0 <= k < rx_captures_len regexes rx | Char _ => True end) (template (sub_replacement sub))
  /\ wp (sed fs regexes stdout stderr fuel [script]) s
       (finished J (lit "sed") 0 (line_trouble F (split_lines i)) (J [] (o ++ out) e) e) (fun _ _ => False).
Proof.
  intros HJ Hs Hrx Hv Hn out Hf Hout Hrep. split; [by apply validated_groups|].
  by eapply (sed_stdin fs regexes stdout stderr J F fuel script sub rx i o e s).
Qed.

Lemma sed_substitutes_witness :
  wp (sed demo_facade demo_regexes (ToCapture Stdout) (ToCapture Stderr) 9 [lit "s/b/<&>/"]) (demo_input demo_pieces [])
    (finished demo_terminal (lit "sed") 0 (line_trouble never (split_lines demo_text))
       (demo_terminal [] (encode (lit "a" ++ line_end ++ lit "<b>" ++ line_end ++ lit "<b>" ++ line_end ++ lit "c d" ++ line_end)) []) [])
    (fun _ _ => False).
Proof.
  apply (sed_substitutes demo_facade demo_regexes (ToCapture Stdout) (ToCapture Stderr) demo_terminal never 9 (lit "s/b/<&>/")
    (mkSedSubstitution (lit "b") (lit "<&>") false false) (ch "b") demo_text [] [] _ demo_start_input);
    [reflexivity|reflexivity|reflexivity|reflexivity|vm_compute; lia|vm_compute; discriminate|demo_report].
Defined.

(** C35: a pattern and a replacement, written between any delimiter but the backslash with
    the delimiters in them escaped, are read back as they are, unless one ends in a
    backslash; and no script at all stands for such a pattern or replacement. *)
Theorem sed_script_round_trip sub :
  (~ ends_in_backslash (sub_pattern sub) -> ~ ends_in_backslash (sub_replacement sub) ->
   forall d, d <> ch BACKSLASH -> parse_sed_substitution (sed_script d sub) = Some sub)
  /\ (forall script, parse_sed_substitution script = Some sub ->
      ~ ends_in_backslash (sub_pattern sub) /\ ~ ends_in_backslash (sub_replacement sub)).
Proof.
  split; [|exact (fun script => parsed_never_backslash script sub)].
  intros Hp Hr d Hd. by apply parse_sed_script.
Qed.

Lemma sed_script_round_trip_witness :
  parse_sed_substitution (lit "s|a\|b/\c|x|gi") = Some (mkSedSubstitution (lit "a|b/\c") (lit "x") true true).
Proof.
  apply (proj1 (sed_script_round_trip (mkSedSubstitution (lit "a|b/\c") (lit "x") true true)) ltac:(vm_compute; discriminate)
    ltac:(vm_compute; discriminate) (ch "|") ltac:(vm_compute; discriminate)).
Defined.

(** The script that replaces backslashes by slashes elsewhere is refused. *)
Example sed_refuses_escaped_backslash : parse_sed_substitution (lit "s|\\|/|g") = None.
Proof. vm_compute. reflexivity. Qed.
