(* ===== verification/Exec.v ===== *)
(** * The execution engine (src/src/sandbox/mod.rs, [Sandbox::exec])

    A program is parsed, and its lists run in order: a pipeline is expanded under
    one budget, its command gets its redirects, its streams and a facade of its
    own, and the handler registered under its name runs.  What a handler does is
    not this file's: it is a function on the state of the streams.  The run of a
    pipeline with several commands is a parameter of this file
    ([run_pipeline_stages]); Pipeline.v defines it. *)

From Stdlib Require Import Ascii String.
From S2P Require Import Prelude RustStr BTreeMap ShellSyntax ShellParse Expansion VfsTypes VfsIface SandboxFs.
From S2P Require Import Redirects Output ShellBuiltins Utf8 Streams.

#[local] Open Scope Z_scope.

(** ** Commands and results (command.rs) *)

Record CommandResult := mkResult { exit_code : Z; peak_wasm_memory_bytes : option Z }.
Definition result_new (code : Z) : CommandResult := mkResult code None.

(** [CommandContext]; stdin, the limits and the names of the commands are in the
    state and the facade. *)
Record CommandContext := mkContext {
  ctx_args : list str;
  ctx_env : list (str * str);
  ctx_cwd : str;
  ctx_stdout : BoxAsyncWrite;
  ctx_stderr : BoxAsyncWrite
}.

(** [Arc<dyn Command>]: its [run] has no error. *)
Abbreviation Handler W := (Fs W -> CommandContext -> ST (XState W) Empty_set CommandResult).

Inductive RegisteredCommand (W : Type) :=
| Registered (run : Handler W)
| ShellCommand (builtin : ShellBuiltin).
Arguments Registered {W}.
Arguments ShellCommand {W}.

(** ** State *)

Record Session := mkSession { s_cwd : str; s_env : list (str * str); s_last_status : Z }.

Record CommandTiming := mkTiming { t_name : str; t_exit_code : Z }.

(** [ExecState], with the session and the streams it works on. *)
Record ExecState (W : Type) := mkExec {
  e_streams : XState W;
  e_session : Session;
  e_last_status : Z;
  e_command_count : Z;
  e_limit_hit : bool;
  e_timings : list CommandTiming;
  e_pipe_bytes : list Z;
  e_peak : option Z
}.
Arguments mkExec {W}.
Arguments e_streams {W}.
Arguments e_session {W}.
Arguments e_last_status {W}.
Arguments e_command_count {W}.
Arguments e_limit_hit {W}.
Arguments e_timings {W}.
Arguments e_pipe_bytes {W}.
Arguments e_peak {W}.

Record ExecResult := mkExecResult {
  res_stdout : str;
  res_stderr : str;
  res_exit_code : Z;
  res_commands : list CommandTiming;
  res_pipe_bytes : list Z;
  res_stdout_truncated : bool;
  res_stderr_truncated : bool;
  res_peak : option Z
}.

(** The [ExecResult] of an exec that ran nothing ([ExecMetrics::empty]). *)
Definition nothing_run (stderr : str) (code : Z) : ExecResult :=
  mkExecResult [] stderr code [] [] false false None.

(** [Sandbox], as far as an execution changes it: the VFS, the admissions of the
    shared pools, the session and the count of commands. *)
Record SandboxState (W : Type) := mkSandbox {
  sb_world : W;
  sb_pool : Z;
  sb_session : Session;
  sb_commands_run : Z
}.
Arguments mkSandbox {W}.
Arguments sb_world {W}.
Arguments sb_pool {W}.
Arguments sb_session {W}.
Arguments sb_commands_run {W}.

Section engine.
Context {W : Type}.
Context (size_of_String size_of_Vec size_of_ExpandedCommand : N).
(** The facade of an execution but for its working directory, and the commands. *)
Context (vfs : Vfs W) (registered : list (str * RegisteredCommand W)) (limits : Limits) (capacity : Z)
  (cancelled_at : nat -> bool).

Abbreviation XM := (ST (XState W) IoError).
Abbreviation HM := (ST (XState W) Empty_set).
Abbreviation EM := (ST (ExecState W) Empty_set).

(** [Fs::scoped]. *)
Definition scoped_fs (cwd : str) : Fs W :=
  mkFs vfs (bt_keys registered) cwd limits capacity true cancelled_at.

Definition set_streams (x : XState W) (s : ExecState W) : ExecState W :=
  mkExec x (e_session s) (e_last_status s) (e_command_count s) (e_limit_hit s) (e_timings s) (e_pipe_bytes s) (e_peak s).
Definition set_session (se : Session) (s : ExecState W) : ExecState W :=
  mkExec (e_streams s) se (e_last_status s) (e_command_count s) (e_limit_hit s) (e_timings s) (e_pipe_bytes s) (e_peak s).
Definition set_last_status (n : Z) (s : ExecState W) : ExecState W :=
  mkExec (e_streams s) (e_session s) n (e_command_count s) (e_limit_hit s) (e_timings s) (e_pipe_bytes s) (e_peak s).
Definition set_count (n : Z) (s : ExecState W) : ExecState W :=
  mkExec (e_streams s) (e_session s) (e_last_status s) n (e_limit_hit s) (e_timings s) (e_pipe_bytes s) (e_peak s).
Definition hit_limit (s : ExecState W) : ExecState W :=
  mkExec (e_streams s) (e_session s) (e_last_status s) (e_command_count s) true (e_timings s) (e_pipe_bytes s) (e_peak s).

(** ** Lifting *)

(** What runs on the streams, with its error as a value. *)
Definition on_streams {E A} (m : ST (XState W) E A) : EM (outcome E A) :=
  fun s => let '(o, x) := m (e_streams s) in
           let s' := set_streams x s in
           match o with
           | Ok a => (Ok (Ok a), s')
           | Err e => (Ok (Err e), s')
           | Panic => (Panic, s')
           | OutOfFuel => (OutOfFuel, s')
           end.

(** What prepares or finishes redirects. *)
Definition on_redirects {A} (m : ST (RState W) (str * Errno) A) : HM (outcome (str * Errno) A) :=
  fun x => let '(o, r) := m (x_red x) in
           let x' := set_x_red r x in
           match o with
           | Ok a => (Ok (Ok a), x')
           | Err e => (Ok (Err e), x')
           | Panic => (Panic, x')
           | OutOfFuel => (OutOfFuel, x')
           end.

(** A part whose errors are ignored: [let _ = m.await;]. *)
Definition ignoring {A} (m : XM A) : HM unit :=
  fun x => match m x with
           | (Ok _, x') | (Err _, x') => (Ok tt, x')
           | (Panic, x') => (Panic, x')
           | (OutOfFuel, x') => (OutOfFuel, x')
           end.

Definition infallible {A} (o : outcome Empty_set A) : EM A := slift o.

(** [exec.write_stderr(text)]. *)
Definition report (text : str) : HM unit := ignoring (capture_write Stderr (encode text)).
Definition write_stderr (text : str) : EM unit :=
  let! r := on_streams (report text) in match r with Err e => match e with end | _ => sret tt end.

(** [control.is_cancelled()]. *)
Definition exec_cancelled : EM bool :=
  let! r := on_streams (x_on_fs (control_is_cancelled cancelled_at)) in
  match r with Ok c => sret c | _ => sret false end.

(** [format!("{name}: {path}: {}\n", errno_message(err))]. *)
Definition redirect_message (name : str) (e : str * Errno) : str :=
  name ++ lit ": " ++ e.1 ++ lit ": " ++ lit (errno_message e.2) ++ line_end.

(** ** One command *)

(** The end of a command's facade: its registry is dropped. *)
Definition drop_registry : HM unit := ignoring (x_on_fs (abandon_all vfs true)).

(** [writer_for_destination] of a command with its own pipe, if it has one. *)
Definition writer_for_destination (d : OutputDestination) (pipe : option nat) : BoxAsyncWrite * list nat :=
  match d with
  | Capture Stdout => (match pipe with Some j => ToPipe j | None => ToCapture Stdout end, [])
  | Capture Stderr => (ToCapture Stderr, [])
  | ToFile i => (ToRedirect i, [i])
  end.

(** [stdin_for]. *)
Definition stdin_for (redirected : option InputRedirect) : HM unit :=
  match redirected with
  | Some redirect => ignoring (stream_reader_from_handle Stdin (in_handle redirect))
  | None => let! x := sget in sput (set_reader Stdin (FromPipe []) x)
  end.

(** The loop over the sinks: each is finished, and its error reported. *)
Fixpoint finish_sinks (name : str) (sinks : list nat) (status : Z) : HM Z :=
  match sinks with
  | [] => sret status
  | i :: sinks =>
      let! r := on_redirects (finish_file vfs true cancelled_at i) in
      match r with
      | Err e => let! _ := report (redirect_message name e) in finish_sinks name sinks 1
      | _ => finish_sinks name sinks status
      end
  end.

(** [run_shell_builtin_stage] on a session and an environment; what it wrote. *)
Definition run_builtin (builtin : ShellBuiltin) (fs_cwd : str) (args : list str) (se : Session) (env : list (str * str))
  : HM (Z * Session * str * str) :=
  fun x =>
    let st := mkBState (x_fs x) (s_cwd se) (s_env se) env [] [] in
    let '(o, st') := run_shell_builtin_stage vfs (bt_keys registered) fs_cwd limits true cancelled_at builtin args st in
    let x' := with_fs (b_fs st') x in
    let se' := mkSession (b_cwd st') (b_session_env st') (s_last_status se) in
    match o with
    | Ok status => (Ok (status, se', b_stdout st', b_stderr st'), x')
    | Err _ | Panic => (Panic, x')
    | OutOfFuel => (OutOfFuel, x')
    end.

(** [run_registered_stage] for a command that is not a shell builtin.  The reader
    of its stdin goes when it ends. *)
Definition run_registered (name : str) (fs : Fs W) (ctx : CommandContext) : HM CommandResult :=
  let! result :=
    (match bt_get name registered with
     | Some (Registered run) => run fs ctx
     | _ => let! _ := ignoring (write_text fs (ctx_stderr ctx) (name ++ lit ": command not found" ++ line_end)) in
            sret (result_new 127)
     end) in
  let! _ := ignoring (drop_reader fs Stdin) in
  sret result.

(** What a command leaves behind: its status, its session, the memory it
    reports, and whether it is timed. *)
Record CommandEnd := mkEnd { end_status : Z; end_session : Session; end_peak : option Z; end_timed : bool }.

(** [exec_single_simple] from [prepare_redirects] on, within one facade. *)
Definition exec_prepared (c : ExpandedCommand) (se : Session) (env : list (str * str)) (last_status : Z)
  : HM CommandEnd :=
  let words := expanded_words c in
  let name := match words with name :: _ => name | [] => lit "tinysandbox" end in
  let args := drop 1 words in
  let fs := scoped_fs (s_cwd se) in
  let! prepared := on_redirects (prepare_redirects vfs (bt_keys registered) (s_cwd se) limits capacity true cancelled_at
                                   (syntax c) (targets c)) in
  match prepared with
  | Err e => let! _ := report (redirect_message name e) in sret (mkEnd 1 se None false)
  | Panic => slift Panic
  | OutOfFuel => slift OutOfFuel
  | Ok redirects =>
      let! taken := on_redirects take_stdin in
      let stdin := match taken with Ok stdin => stdin | _ => None end in
      if bool_decide (words = []) then
        let! _ := on_redirects (close_stdin_redirect vfs true cancelled_at stdin) in
        let! r := on_redirects (finish_redirects vfs true cancelled_at) in
        match r with
        | Err e => let! _ := report (redirect_message (lit "tinysandbox") e) in sret (mkEnd 1 se None false)
        | _ => sret (mkEnd 0 se None false)
        end
      else
        let env := bt_insert (lit "?") (Z_to_string last_status) env in
        let '(stdout, stdout_sinks) := writer_for_destination (r_stdout redirects) None in
        let '(stderr, stderr_sinks) := writer_for_destination (r_stderr redirects) None in
        match bt_get name registered with
        | Some (ShellCommand builtin) =>
            let! (status, se, out, err) := run_builtin builtin (s_cwd se) args se env in
            let! _ := on_redirects (close_stdin_redirect vfs true cancelled_at stdin) in
            let! _ := ignoring (write_text fs stdout out) in
            let! _ := ignoring (write_text fs stderr err) in
            let! status := finish_sinks name (stdout_sinks ++ stderr_sinks) status in
            sret (mkEnd status se None true)
        | _ =>
            let! _ := stdin_for stdin in
            let! result := run_registered name fs (mkContext args env (s_cwd se) stdout stderr) in
            let! status := finish_sinks name (stdout_sinks ++ stderr_sinks) (exit_code result) in
            sret (mkEnd status se (peak_wasm_memory_bytes result) true)
        end
  end.

(** [record_peak_wasm_memory]. *)
Definition record_peak (bytes : option Z) (peak : option Z) : option Z :=
  match bytes with
  | Some n => Some (match peak with Some current => Z.max current n | None => n end)
  | None => peak
  end.

Definition exec_single_simple (c : ExpandedCommand) : EM Z :=
  let! s := sget in
  if max_commands limits <=? e_command_count s then
    let! _ := write_stderr (lit "tinysandbox: maximum command count exceeded" ++ line_end) in
    let! s := sget in let! _ := sput (hit_limit s) in sret 125
  else
    let! _ := sput (set_count (e_command_count s + 1) s) in
    let se := e_session s in
    (* assignments without a command are those of the session *)
    let se' := if bool_decide (expanded_words c = [])
               then mkSession (s_cwd se) (expanded_env c) (s_last_status se) else se in
    let name := match expanded_words c with name :: _ => name | [] => lit "tinysandbox" end in
    let! s := sget in
    let! _ := sput (set_session se' s) in
    let! ended := on_streams (let! ended := exec_prepared c se' (expanded_env c) (e_last_status s) in
                              let! _ := drop_registry in
                              sret ended) in
    match ended with
    | Err e => match e with end
    | Panic => slift Panic
    | OutOfFuel => slift OutOfFuel
    | Ok ended =>
        let! s := sget in
        let timings := if end_timed ended then e_timings s ++ [mkTiming name (end_status ended)] else e_timings s in
        let! _ := sput (mkExec (e_streams s) (end_session ended) (e_last_status s) (e_command_count s) (e_limit_hit s)
                          timings (e_pipe_bytes s) (record_peak (end_peak ended) (e_peak s))) in
        sret (end_status ended)
    end.

(** ** Pipelines and lists *)

(** The stages of a pipeline with several commands, prepared and run at the same
    time; the status of the pipeline. *)
Context (run_pipeline_stages : list ExpandedCommand -> EM Z).

Definition too_much (text : str) : EM Z :=
  let! _ := write_stderr (lit "tinysandbox: " ++ text ++ line_end) in
  let! s := sget in let! _ := sput (hit_limit s) in sret 125.

(** The loop that expands the commands of a pipeline, or the status it ends with. *)
Fixpoint expand_loop (cs : list Command) (budget : N) (expanded : list ExpandedCommand)
  : EM (list ExpandedCommand + Z) :=
  match cs with
  | [] => sret (inl expanded)
  | Simple simple :: cs =>
      let! cancelled := exec_cancelled in
      if (cancelled : bool) then sret (inr 124)
      else
        let! s := sget in
        match expand size_of_String size_of_Vec size_of_ExpandedCommand simple (s_env (e_session s)) (e_last_status s) budget with
        | None => let! code := too_much (lit "shell expansion limit exceeded") in sret (inr code)
        | Some (command, budget) => expand_loop cs budget (expanded ++ [command])
        end
  end.

Definition exec_pipeline (p : Pipeline) : EM Z :=
  let! cancelled := exec_cancelled in
  if (cancelled : bool) then sret 124
  else
    let! s := sget in
    let remaining := saturating_sub (max_commands limits) (e_command_count s) in
    if remaining <? len (commands p) then too_much (lit "maximum command count exceeded")
    else
      let! expanded := expand_loop (commands p)
        (Z.to_N (Z.max (shell_input_bytes limits) (host_input_bytes limits))) [] in
      match expanded with
      | inr code => sret code
      | inl [command] => exec_single_simple command
      | inl expanded => run_pipeline_stages expanded
      end.

Definition record_status (status : Z) : EM unit :=
  let! s := sget in sput (set_last_status status s).

Fixpoint and_or_loop (items : list AndOr) (status : Z) : EM Z :=
  match items with
  | [] => sret status
  | item :: items =>
      let should_run := match and_or_op item with And => status =? 0 | Or => negb (status =? 0) end in
      let! status := (if should_run
                      then let! status := exec_pipeline (and_or_pipeline item) in
                           let! _ := record_status status in sret status
                      else sret status) in
      let! s := sget in
      if e_limit_hit s then sret status else and_or_loop items status
  end.

Definition exec_and_or_list (l : AndOrList) : EM Z :=
  let! status := exec_pipeline (first l) in
  let! _ := record_status status in
  and_or_loop (rest l) status.

Fixpoint exec_lists (ls : list AndOrList) : EM unit :=
  match ls with
  | [] => sret tt
  | l :: ls =>
      let! cancelled := exec_cancelled in
      if (cancelled : bool) then sret tt
      else
        let! status := exec_and_or_list l in
        let! _ := record_status status in
        let! s := sget in
        if e_limit_hit s then sret tt else exec_lists ls
  end.

(** ** A program *)

(** [ExecState::new] with a new [ExecutionControl], which has no open files. *)
Definition exec_new (w : W) (pool : Z) (se : Session) : ExecState W :=
  mkExec (mkXState (mkRState (mkFsState w ∅ pool 0 0) [] default_redirects) (capped_new (stdout_bytes limits)) (capped_new (stderr_bytes limits))
            [] (FromPipe []) (FromPipe []))
    se (s_last_status se) 0 false [] [] None.

(** The end of [exec_inner]: the session is kept if asked, the commands are
    counted, the captures finished. *)
Definition finish_exec (persist_session : bool) (sb : SandboxState W) (s : ExecState W) (cancelled : bool)
  : ExecResult * SandboxState W :=
  let se := mkSession (s_cwd (e_session s)) (s_env (e_session s)) (e_last_status s) in
  let (stdout, stdout_truncated) := capped_finish (x_stdout (e_streams s)) in
  let (stderr, stderr_truncated) := capped_finish (x_stderr (e_streams s)) in
  (mkExecResult (from_utf8_lossy stdout) (from_utf8_lossy stderr) (e_last_status s) (e_timings s) (e_pipe_bytes s)
     stdout_truncated stderr_truncated (e_peak s),
   mkSandbox (fs_world (x_fs (e_streams s))) (pool_open (x_fs (e_streams s))) (if persist_session && negb cancelled then se else sb_session sb)
     ((sb_commands_run sb + e_command_count s) mod 2 ^ 64)).

(** The sandbox when an execution does not return. *)
Definition left_at (s : ExecState W) (sb : SandboxState W) : SandboxState W :=
  mkSandbox (fs_world (x_fs (e_streams s))) (pool_open (x_fs (e_streams s))) (sb_session sb) (sb_commands_run sb).

Definition exec_inner (persist_session : bool) (input : str) : ST (SandboxState W) Empty_set ExecResult :=
  fun sb =>
    if shell_input_bytes limits <? Z.of_nat (blen input) then
      (Ok (nothing_run (lit "tinysandbox: shell input limit exceeded" ++ line_end) 125), sb)
    else
      match parse input with
      | Err e => (Ok (nothing_run (error_message e ++ line_end) 2), sb)
      | Panic => (Panic, sb)
      | OutOfFuel => (OutOfFuel, sb)
      | Ok program =>
          let program_run :=
            let! _ := exec_lists (lists program) in
            if persist_session then exec_cancelled else sret false in
          match program_run (exec_new (sb_world sb) (sb_pool sb) (sb_session sb)) with
          | (Ok cancelled, s) => let '(result, sb') := finish_exec persist_session sb s cancelled in (Ok result, sb')
          | (Err e, _) => match e with end
          | (Panic, s) => (Panic, left_at s sb)
          | (OutOfFuel, s) => (OutOfFuel, left_at s sb)
          end
      end.

(** [exec], when the program ends before the timer of the runtime does: the
    result of a program that was cancelled by then is discarded.  [cancelled] is
    that last look at the clock. *)
Definition exec (persist_session cancelled : bool) (input : str) : ST (SandboxState W) Empty_set ExecResult :=
  let! result := exec_inner persist_session input in
  if cancelled then sret (nothing_run (lit "tinysandbox: command timed out" ++ line_end) 124) else sret result.
End engine.
