(* ===== verification/ExecFacts.v ===== *)
(** * What an execution keeps

    Whatever the program and the commands do, an execution ends: it runs out of
    none of its loops.  While it goes on the counts of open files stay exact, no
    more commands run than allowed, and between two commands no file is open. *)

From Stdlib Require Import Ascii String.
From S2P Require Import Prelude RustStr BTreeMap ShellSyntax ShellParse ShellLexFacts ShellParseFacts.
From S2P Require Import Expansion VfsTypes VfsIface SandboxFs SandboxFsFacts SandboxFsFrame Redirects.
From S2P Require Import RedirectsFacts Output ShellBuiltins Utf8 Streams Exec.

#[local] Open Scope Z_scope.

(** ** Ending, unless it panics

    A command may panic, and so may the count of the bytes of a captured stream at
    [usize::MAX]: [safely] asks nothing of the state a panic leaves. *)

Abbreviation safely := (ends (fun _ => True)).

Lemma ends_safely {S E A} {P} (m : ST S E A) s Q R : ends P m s Q R -> safely m s Q R.
Proof. unfold ends. by destruct (m s) as [[] ?]. Qed.

Section commands.
Context {W : Type} (I Room : W -> Prop) (Rooms : nat -> W -> Prop) (owned : W -> gset Z) (vfs : Vfs W).
Context `{Hv : !OwnerLaws I Room owned vfs} `{Hr : !RoomLaws I Room Rooms vfs}.
Context (size_of_String size_of_Vec size_of_ExpandedCommand : N).
Context (registered : list (str * RegisteredCommand W)) (limits : Limits) (capacity : Z) (cancelled_at : nat -> bool)
  (others_pool others_exec : Z).
Context (Hp : 0 <= others_pool) (He : 0 <= others_exec) (Hcap : capacity <= USIZE_MAX) (Hmax : max_open_files limits <= USIZE_MAX).

Abbreviation XM := (ST (XState W) IoError).
Abbreviation HM := (ST (XState W) Empty_set).
Abbreviation EM := (ST (ExecState W) Empty_set).
Abbreviation roomy n f := (has_rooms I Rooms owned limits capacity true others_pool others_exec n f).
Abbreviation scoped cwd := (scoped_fs vfs registered limits capacity cancelled_at cwd).

(** The streams of a command with room for [n] more opens. *)
Definition streams_ok (n : nat) (x : XState W) : Prop := roomy n (x_fs x).

Abbreviation keeps n m x := (ends (streams_ok n) m x (fun _ x' => streams_ok n x') (fun _ _ => False)).
Abbreviation xkeeps n m x := (ends (streams_ok n) m x (fun _ x' => streams_ok n x') (fun _ x' => streams_ok n x')).

Lemma ignoring_keeps {A} (m : XM A) n x : xkeeps n m x -> keeps n (ignoring m) x.
Proof. unfold ends, ignoring. by destruct (m x) as [[] ?]. Qed.

Lemma on_redirects_keeps {A} (m : ST (RState W) (str * Errno) A) n x :
  ends (fun r => roomy n (r_fs r)) m (x_red x) (fun _ r => roomy n (r_fs r)) (fun _ r => roomy n (r_fs r)) ->
  ends (streams_ok n) (on_redirects m) x (fun o x' => returns o /\ streams_ok n x') (fun _ _ => False).
Proof. unfold ends, on_redirects. by destruct (m (x_red x)) as [[] ?]. Qed.

(** ** Redirects *)

Lemma try_fs_keeps {A} (m : ST (FsState W) Errno A) n r :
  wp m (r_fs r) (fun _ f => roomy n f) (fun _ f => roomy n f) ->
  wp (try_fs m) r (fun _ r' => roomy n (r_fs r')) (fun _ _ => False).
Proof. intros H. by eapply wp_try_fs; [exact H|..]. Qed.

Lemma close_stdin_keeps o n r :
  roomy n (r_fs r) ->
  wp (close_stdin_redirect vfs true cancelled_at o) r (fun _ r' => roomy n (r_fs r')) (fun _ _ => False).
Proof.
  intros H. destruct o as [redirect|]; cbn [close_stdin_redirect]; [|by wp_steps]. wp_step.
  eapply wp_mono; [apply (try_fs_keeps _ n); by apply (roomy_finish I Room Rooms owned vfs limits capacity true cancelled_at
    others_pool others_exec)| |done].
  intros ? r' H'. by wp_steps.
Qed.

Lemma finish_file_keeps i n r :
  roomy n (r_fs r) ->
  ends (fun r => roomy n (r_fs r)) (finish_file vfs true cancelled_at i) r (fun _ r' => roomy n (r_fs r')) (fun _ r' => roomy n (r_fs r')).
Proof.
  intros H. unfold finish_file. do 2 ends_step. ends_step. unfold expect.
  destruct (r_opened r !! i) as [file|]; [|done]. apply (ends_ret file). ends_step.
  eapply (ends_mono _ _ (fun _ r' => roomy n (r_fs r')) _ (fun _ r' => roomy n (r_fs r'))); [| |done].
  2: { intros [e|] r' H'; done. }
  destruct (rf_handle file) as [h|]; [|done]. apply ends_wp. unfold close_file. do 5 wp_step.
  eapply (wp_mono _ _ (fun _ r' => roomy n (r_fs r')) _ (fun _ r' => roomy n (r_fs r'))); [|intros b r1 H1|done].
  - destruct (rf_error file); [wp_step; exact H|].
    eapply (wp_on_fs _ _ _ (fun _ f => ticked (r_fs r) f) (fun _ _ => False)); [by apply wp_is_cancelled| |done].
    intros b f Ht. by eapply ticked_rooms.
  - wp_step. eapply wp_mono; [apply (try_fs_keeps _ n);
      destruct b; by apply (roomy_finish I Room Rooms owned vfs limits capacity true cancelled_at others_pool others_exec)| |done].
    intros o r2 H2. by wp_steps.
Qed.

Lemma attempt_keeps {A} (m : ST (RState W) (str * Errno) A) n r :
  ends (fun r => roomy n (r_fs r)) m r (fun _ r' => roomy n (r_fs r')) (fun _ r' => roomy n (r_fs r')) ->
  ends (fun r => roomy n (r_fs r)) (attempt (F := str * Errno) m) r (fun o r' => o <> OutOfFuel /\ roomy n (r_fs r')) (fun _ _ => False).
Proof. unfold ends, attempt. by destruct (m r) as [[] ?]. Qed.

Lemma finish_destination_keeps d result n r :
  roomy n (r_fs r) -> result <> OutOfFuel ->
  ends (fun r => roomy n (r_fs r)) (finish_destination vfs true cancelled_at d result) r (fun o r' => o <> OutOfFuel /\ roomy n (r_fs r'))
    (fun _ _ => False).
Proof.
  intros H Hres. destruct d as [fd|i]; cbn [finish_destination]; [done|]. ends_step.
  eapply ends_mono; [by apply attempt_keeps, finish_file_keeps| |done]. intros close r' [Hc H']. ends_step.
  by destruct result.
Qed.

Lemma finish_redirects_keeps n r :
  roomy n (r_fs r) ->
  ends (fun r => roomy n (r_fs r)) (finish_redirects vfs true cancelled_at) r (fun _ r' => roomy n (r_fs r')) (fun _ r' => roomy n (r_fs r')).
Proof.
  intros H. unfold finish_redirects. ends_step. ends_step. ends_step.
  eapply ends_mono; [by apply finish_destination_keeps| |done]. intros res r1 [Hres H1]. ends_step.
  eapply ends_mono; [by apply finish_destination_keeps| |done]. intros res' r2 [Hres' H2].
  unfold ends, slift. by destruct res'.
Qed.

(** The redirects of a command use up room for as many opens. *)
Lemma prepare_keeps cwd simple targets n r :
  roomy (length (redirects simple) + n) (r_fs r) ->
  wp (prepare_redirects vfs (bt_keys registered) cwd limits capacity true cancelled_at simple targets) r
     (fun _ r' => roomy n (r_fs r')) (fun _ r' => roomy n (r_fs r')).
Proof.
  intros [HI HR].
  assert (RoomLaws I Room (fun k w => Rooms (k + n)%nat w) vfs) as Hr'.
  { destruct Hr as [R1 R2 R3 R4 R5 R6 R7 R8]. constructor.
    - intros k w. apply R1.
    - intros k w. apply R2.
    - intros k p w. apply R3.
    - intros k p m w. apply R4.
    - intros k h o b w. apply R5.
    - intros k h o b w. apply R6.
    - intros k h w. apply R7.
    - intros k h w. apply R8. }
  eapply wp_mono; [apply (prepare_redirects_inv I Room (fun k w => Rooms (k + n)%nat w) owned vfs (bt_keys registered) cwd
    limits capacity true cancelled_at others_pool others_exec Hp He Hcap Hmax simple targets (fs_files (r_fs r)) r)|..].
  - split; [done|]. split; [exact HR|done].
  - intros red r' [[(HI' & HR' & _) _ _ _ _ _] _]. done.
  - intros e r' [[(HI' & HR' & _) _ _ _ _ _] _]. done.
Qed.

Lemma take_stdin_keeps n (r : RState W) :
  roomy n (r_fs r) -> wp take_stdin r (fun _ r' => roomy n (r_fs r')) (fun _ _ => False).
Proof. intros H. unfold take_stdin. by wp_steps. Qed.

(** ** Writers and readers *)

Lemma x_try_fs_keeps {A} (m : ST (FsState W) Errno A) (Q : A -> Prop) n (x : XState W) :
  wp m (x_fs x) (fun a f => Q a /\ roomy n f) (fun _ f => roomy n f) ->
  wp (x_try_fs m) x (fun o x' => (returns o /\ forall a, o = Ok a -> Q a) /\ streams_ok n x') (fun _ _ => False).
Proof.
  unfold wp, x_try_fs, streams_ok. destruct (m (x_fs x)) as [[a|e| |] f]; try done; intros H.
  - destruct H as [HQ H]. split; [split; [done|]|done]. by intros b [= <-].
Qed.

Lemma x_on_fs_keeps {A} (m : ST (FsState W) Errno A) n (x : XState W) :
  wp m (x_fs x) (fun _ f => roomy n f) (fun _ f => roomy n f) -> xkeeps n (x_on_fs m) x.
Proof.
  intros H. apply ends_wp. unfold x_on_fs. wp_step.
  eapply wp_mono; [apply (x_try_fs_keeps m (fun _ => True) n)|..]; [by eapply wp_mono; [exact H|..]| |done].
  intros o x' [[Hret _] Hx]. destruct o as [a|e| |]; try (by destruct Hret); by wp_step.
Qed.

Lemma leave_error_keeps i e n (x : XState W) : streams_ok n x -> xkeeps n (leave_error i e) x.
Proof.
  intros H. unfold leave_error, redirect_file. do 2 ends_step. ends_step. unfold expect.
  destruct (r_opened (x_red x) !! i); [|done]. by apply (ends_ret r).
Qed.

Lemma redirect_file_keeps i (x : XState W) n (Q : RedirectFile -> XState W -> Prop) (R : IoError -> XState W -> Prop) :
  streams_ok n x -> (forall f, Q f x) -> ends (streams_ok n) (redirect_file i) x Q R.
Proof.
  intros H HQ. unfold redirect_file. do 2 ends_step. unfold expect. destruct (r_opened (x_red x) !! i); [|done]. apply HQ.
Qed.

Section facade.
Context (fs : Fs W) (Efs : f_vfs fs = vfs /\ f_limits fs = limits /\ f_scoped fs = true /\ f_cancelled fs = cancelled_at).

Lemma redirect_task_keeps fuel i h data n x :
  streams_ok n x -> (length data < fuel)%nat -> xkeeps n (redirect_task fs fuel i h data) x.
Proof.
  destruct Efs as (E1 & E2 & E3 & E4). revert data x. induction fuel as [|fuel IH]; intros data x H Hf; [lia|].
  cbn [redirect_task]. destruct (bool_decide (data = [])) eqn:Hd; [by apply leave_error_keeps|]. unbool.
  rewrite E1, E2, E3, E4 in *. ends_step. eapply redirect_file_keeps; [exact H|]. intros file. ends_step.
  eapply ends_mono; [apply ends_wp, (x_try_fs_keeps _ (fun k => 0 <= k <= len data));
    by apply (roomy_write_at I Room Rooms owned vfs limits capacity true cancelled_at others_pool others_exec)| |done].
  intros o x1 [[Hret Hk] H1]. destruct o as [k|e| |]; try (by destruct Hret); [|by apply leave_error_keeps].
  specialize (Hk k eq_refl). destruct (k =? 0) eqn:Hz; [by apply leave_error_keeps|]. unbool.
  ends_step. eapply redirect_file_keeps; [exact H1|]. intros file1. do 5 ends_step.
  eapply ends_mono; [apply ends_wp, (x_try_fs_keeps _ (fun _ => True) n)|..].
  - apply (wp_check true cancelled_at); intros f Ht; [split; [done|]|intros _]; by eapply ticked_rooms.
  - intros o x2 [[Hret2 _] H2]. destruct o as [[]|e| |]; try (by destruct Hret2); [|by apply leave_error_keeps].
    apply IH; [done|]. rewrite length_drop. unfold len in *. lia.
  - done.
Qed.

Lemma redirect_write_keeps i data n x :
  streams_ok n x -> data <> [] ->
  ends (streams_ok n) (redirect_write fs i data) x (fun k x' => 0 < k /\ streams_ok n x') (fun _ x' => streams_ok n x').
Proof.
  intros H Hd. unfold redirect_write. ends_step. eapply redirect_file_keeps; [exact H|]. intros file.
  destruct (rf_error file); [done|]. destruct (rf_handle file) as [h|]; [|done]. cbv zeta. ends_step.
  eapply ends_mono; [by apply leave_error_keeps| |done]. intros ? x1 H1. ends_step.
  eapply ends_mono; [apply redirect_task_keeps; [exact H1|lia]| |done]. intros ? x2 H2. ends_step. split; [|done].
  unfold len, STREAM_CHUNK_BYTES. destruct data; [done|]. simpl. lia.
Qed.

Lemma capped_write_ends data c : capped_write data c <> OutOfFuel.
Proof.
  assert (forall a b, u64_add a b <> OutOfFuel :> outcome Errno Z) as Hadd
    by (intros a b; unfold u64_add; by destruct (checked_add a b)).
  assert (forall A (k : Z -> outcome Errno A) a b, (forall n, k n <> OutOfFuel) -> obind (u64_add a b) k <> OutOfFuel) as Hk.
  { intros A k a b Hk. unfold u64_add. destruct (checked_add a b); [apply Hk|done]. }
  assert (forall d c, write_truncated d c <> OutOfFuel) as Htr
    by (intros d c0; unfold write_truncated; apply Hk; intros n; cbv zeta; case_match; done).
  unfold capped_write. destruct (bool_decide _); [done|]. destruct (negb _); [|apply Htr].
  destruct (_ <=? _); apply Hk; [done|]. intros n. destruct (_ <? _); apply Htr.
Qed.

Lemma capture_write_keeps fd data n (x : XState W) : streams_ok n x -> xkeeps n (capture_write fd data) x.
Proof.
  intros H. unfold capture_write. do 2 ends_step. pose proof (capped_write_ends data (capture fd x)).
  destruct (capped_write data (capture fd x)); try done. by destruct fd.
Qed.

Lemma write_all_keeps dst data n x : streams_ok n x -> xkeeps n (write_all fs dst data) x.
Proof.
  intros H. destruct dst as [fd|i|j]; cbn [write_all].
  - by apply capture_write_keeps.
  - assert (forall fuel data x, (length data < fuel)%nat -> streams_ok n x -> xkeeps n (redirect_write_all fs fuel i data) x) as Hall.
    { clear data x H. intros fuel. induction fuel as [|fuel IH]; intros data x Hf H; [lia|]. cbn [redirect_write_all].
      destruct (bool_decide (data = [])) eqn:Hd; [done|]. unbool. ends_step.
      eapply ends_mono; [by apply redirect_write_keeps| |done]. intros k x1 [Hk H1]. apply IH; [|done].
      rewrite length_drop. destruct data; [done|]. simpl in *. lia. }
    apply Hall; [lia|done].
  - unfold pipe_write. do 3 ends_step. unfold expect. destruct (x_pipes x !! j) as [p|]; [|done].
    apply (ends_ret p). destruct (room p) as [r|]; [|done]. by destruct (r <? len data).
Qed.

Lemma drop_reader_keeps src n x : streams_ok n x -> xkeeps n (drop_reader fs src) x.
Proof.
  destruct Efs as (E1 & E2 & E3 & E4). intros H. unfold drop_reader. do 2 ends_step.
  destruct (reader src x) as [r|]; [|by destruct src]. unfold close_handle. destruct (sr_handle r) as [h|]; [|done].
  do 4 ends_step. apply x_on_fs_keeps. rewrite E1, E3.
  eapply wp_mono; [apply (roomy_abandon I Room Rooms owned vfs limits capacity true others_pool others_exec Hp He Hcap Hmax h n)|done..].
  by destruct src.
Qed.
End facade.

Lemma scoped_parts cwd :
  f_vfs (scoped cwd) = vfs /\ f_limits (scoped cwd) = limits /\ f_scoped (scoped cwd) = true
  /\ f_cancelled (scoped cwd) = cancelled_at.
Proof. done. Qed.

(** ** Shell builtins *)

Abbreviation bkeeps n m st :=
  (wp m st (fun _ (st' : BState W) => roomy n (b_fs st')) (fun _ (st' : BState W) => roomy n (b_fs st'))).

Lemma complain_fs text n (st : BState W) : roomy n (b_fs st) -> bkeeps n (complain text) st.
Proof. intros H. unfold complain. by wp_steps. Qed.

Lemma export_loop_fs args n (st : BState W) : roomy n (b_fs st) -> bkeeps n (export_loop args) st.
Proof.
  revert st. induction args as [|arg args IH]; intros st H; cbn [export_loop]; [done|]. wp_step. wp_step.
  destruct (split_once (ch "=") arg) as [[name value]|];
    (wp_step; [wp_step; wp_step; by apply IH|by apply complain_fs]).
Qed.

Lemma run_unset_fs args n (st : BState W) : roomy n (b_fs st) -> bkeeps n (run_unset args) st.
Proof.
  revert st. induction args as [|arg args IH]; intros st H; cbn [run_unset]; [done|]. wp_step. wp_step.
  wp_step; [wp_step; wp_step; by apply IH|by apply complain_fs].
Qed.

Lemma run_cd_fs cwd args n (st : BState W) :
  roomy n (b_fs st) -> bkeeps n (run_cd vfs (bt_keys registered) cwd limits true cancelled_at args) st.
Proof.
  intros H. unfold run_cd. destruct (1 <? length args)%nat; [by apply complain_fs|]. do 2 wp_step.
  set (target := match args with [] => _ | _ => _ end). destruct target as [target|]; [|by apply complain_fs].
  cbv zeta. wp_step.
  eapply (wp_mono _ _ (fun o st' => returns o /\ roomy n (b_fs st')) _ (fun _ _ => False)); [| |done].
  - pose proof (roomy_stat I Room Rooms owned vfs (bt_keys registered) cwd limits capacity true cancelled_at others_pool others_exec
      (resolve cwd target) n (b_fs st) H) as Hs.
    unfold wp, builtin_stat in *. by destruct (fs_stat _ _ _ _ _ _ _ (b_fs st)) as [[m|e| |] f].
  - intros o st1 [Hret H1]. destruct o as [m|e| |]; [|by apply complain_fs|done..].
    destruct (is_dir m); [by wp_steps|by apply complain_fs].
Qed.

Lemma run_builtin_keeps b cwd args se env n x :
  streams_ok n x -> keeps n (run_builtin vfs registered limits cancelled_at b cwd args se env) x.
Proof.
  intros H. unfold run_builtin, ends.
  set (st := mkBState (x_fs x) (s_cwd se) (s_env se) env [] []).
  assert (bkeeps n (run_shell_builtin_stage vfs (bt_keys registered) cwd limits true cancelled_at b args) st) as Hb.
  { destruct b; cbn [run_shell_builtin_stage]; [by apply run_cd_fs| |by apply run_unset_fs].
    destruct args as [|arg args]; [|by apply export_loop_fs]. unfold run_export. by wp_steps. }
  unfold wp in Hb. destruct (run_shell_builtin_stage _ _ _ _ _ _ b args st) as [[status|e| |] st']; try done.
Qed.

(** ** One command *)

Lemma report_keeps text n (x : XState W) : streams_ok n x -> keeps n (report text) x.
Proof. intros H. by apply ignoring_keeps, capture_write_keeps. Qed.

Lemma finish_sinks_keeps name sinks status n x :
  streams_ok n x -> keeps n (finish_sinks vfs cancelled_at name sinks status) x.
Proof.
  revert status x. induction sinks as [|i sinks IH]; intros status x H; cbn [finish_sinks]; [done|].
  ends_step. eapply ends_mono; [by apply on_redirects_keeps, finish_file_keeps| |done]. intros o x1 [_ H1].
  destruct o; [by apply IH| |by apply IH..]. eapply ends_then; [by apply report_keeps|]. intros _ x2 H2. by apply IH.
Qed.

Lemma stdin_for_keeps o n (x : XState W) : streams_ok n x -> keeps n (stdin_for o) x.
Proof. intros H. destruct o; [by apply ignoring_keeps|done]. Qed.

(** What is asked of the commands: each uses room for at most [K] opens, and
    keeps the counts of open files exact, as whatever uses the facade does. *)
Abbreviation runs n m x := (safely m x (fun _ x' => streams_ok n x') (fun _ _ => False)).
Definition handler_ok (K : nat) (run : Handler W) : Prop :=
  forall cwd ctx n x, streams_ok (K + n) x -> runs n (run (scoped cwd) ctx) x.
Definition commands_ok (K : nat) : Prop :=
  forall name run, bt_get name registered = Some (Registered run) -> handler_ok K run.

Lemma streams_less n m x : (m <= n)%nat -> streams_ok n x -> streams_ok m x.
Proof. apply (has_rooms_le I Room Rooms owned vfs). Qed.

Lemma run_registered_keeps K name cwd ctx n x :
  commands_ok K -> streams_ok (K + n) x ->
  runs n (run_registered registered name (scoped cwd) ctx) x.
Proof.
  intros HK H. unfold run_registered. eapply (ends_then (streams_ok n)).
  - destruct (bt_get name registered) as [[run|b]|] eqn:Hname; [by apply (HK name run Hname)| |].
    all: eapply (ends_then (streams_ok n)); [eapply ends_safely, ignoring_keeps; unfold write_text; apply (write_all_keeps _ (scoped_parts cwd))|done].
    all: eapply streams_less; [|exact H]; lia.
  - intros result x1 H1. eapply ends_then; [by eapply ends_safely, ignoring_keeps, (drop_reader_keeps _ (scoped_parts cwd))|]. by intros ? x2 H2.
Qed.

Abbreviation exec_prepared := (exec_prepared vfs registered limits capacity cancelled_at).

Lemma exec_prepared_keeps K c se env last n x :
  commands_ok K -> streams_ok (length (redirects (syntax c)) + (K + n)) x -> runs n (exec_prepared c se env last) x.
Proof.
  intros HK H. unfold Exec.exec_prepared. cbv zeta.
  assert (forall x1, streams_ok (K + n) x1 -> streams_ok n x1) as Hless by (intros x1; apply streams_less; lia).
  assert (forall {A} (v : A) text x1, streams_ok n x1 -> runs n (let! _ := report text in sret v) x1) as Hreport.
  { intros A v text x1 H1. by eapply ends_then; [by eapply ends_safely, report_keeps|]. }
  ends_step. eapply ends_mono; [eapply ends_safely, on_redirects_keeps, ends_wp; by apply prepare_keeps| |done].
  intros o x1 [Hret H1]. destruct o as [reds|e| |]; [|by apply Hreport, Hless|done..].
  ends_step. eapply ends_mono; [eapply ends_safely, (on_redirects_keeps _ (K + n)), ends_wp|intros taken x2 [_ H2]|done].
  { eapply wp_mono; [by apply (take_stdin_keeps (K + n))|done..]. }
  set (stdin := match taken with Ok stdin => stdin | _ => None end).
  destruct (bool_decide (expanded_words c = [])).
  - ends_step. eapply ends_mono; [eapply ends_safely, (on_redirects_keeps _ (K + n)), ends_wp|intros ? x3 [_ H3]|done].
    { eapply wp_mono; [by apply (close_stdin_keeps stdin (K + n))|done..]. }
    ends_step. eapply ends_mono; [by eapply ends_safely, on_redirects_keeps, (finish_redirects_keeps (K + n))|intros r x4 [Hr4 H4]|done].
    apply Hless in H4. destruct r; [done|by apply Hreport|done..].
  - destruct (writer_for_destination (r_stdout reds) None) as [stdout sinks1],
      (writer_for_destination (r_stderr reds) None) as [stderr sinks2]. set (name := match expanded_words c with [] => _ | _ => _ end).
    destruct (bt_get name registered) as [[run|b]|] eqn:Hname.
    2: { ends_step. eapply ends_mono; [by eapply ends_safely, (run_builtin_keeps _ _ _ _ _ n), Hless|intros [[[status se'] out] err] x3 H3|done].
         ends_step. eapply ends_mono; [eapply ends_safely, (on_redirects_keeps _ n), ends_wp|intros ? x4 [_ H4]|done].
         { eapply wp_mono; [by apply (close_stdin_keeps stdin n)|done..]. }
         eapply ends_then; [by eapply ends_safely, ignoring_keeps, (write_all_keeps _ (scoped_parts (s_cwd se)))|intros ? x5 H5].
         eapply ends_then; [by eapply ends_safely, ignoring_keeps, (write_all_keeps _ (scoped_parts (s_cwd se)))|intros ? x6 H6].
         eapply ends_then; [by eapply ends_safely, finish_sinks_keeps|by intros ? x7 H7]. }
    all: eapply ends_then; [by eapply ends_safely, stdin_for_keeps|intros ? x3 H3].
    all: eapply ends_then; [by apply (run_registered_keeps K)|intros result x4 H4].
    all: eapply ends_then; [by eapply ends_safely, finish_sinks_keeps|by intros ? x5 H5].
Qed.

(** The facade of a command goes with its registry: nothing stays open. *)
Definition closed (x : XState W) : Prop := fs_files (x_fs x) = ∅.

Lemma drop_registry_keeps n x :
  streams_ok n x -> wp (drop_registry vfs) x (fun _ x' => streams_ok n x' /\ closed x') (fun _ _ => False).
Proof.
  intros H. unfold drop_registry, ignoring, x_on_fs, sbind, x_try_fs, wp.
  pose proof (roomy_abandon_all I Room Rooms owned vfs limits capacity true others_pool others_exec Hp He Hcap Hmax n
    (x_fs x) H) as Ha.
  unfold wp in Ha. by destruct (abandon_all vfs true (x_fs x)) as [[[]|e| |] f].
Qed.
End commands.

(** ** Between two commands *)

Section engine.
Context {W : Type} (I Room : W -> Prop) (Rooms : nat -> W -> Prop) (owned : W -> gset Z) (vfs : Vfs W).
Context `{Hv : !OwnerLaws I Room owned vfs} `{Hr : !RoomLaws I Room Rooms vfs}.
Context (size_of_String size_of_Vec size_of_ExpandedCommand : N).
Context (registered : list (str * RegisteredCommand W)) (limits : Limits) (capacity : Z) (cancelled_at : nat -> bool)
  (others_pool : Z).
Context (Hp : 0 <= others_pool) (Hcap : capacity <= USIZE_MAX) (Hmax : max_open_files limits <= USIZE_MAX).

Abbreviation HM := (ST (XState W) Empty_set).
Abbreviation EM := (ST (ExecState W) Empty_set).
Abbreviation streams_ok := (streams_ok I Rooms owned limits capacity others_pool 0).
Abbreviation commands_ok := (commands_ok I Rooms owned vfs registered limits capacity cancelled_at others_pool 0).

(** The streams are in order, nothing is open, no more commands ran than allowed
    and no more were timed than ran. *)
Record exec_ok (n : nat) (s : ExecState W) : Prop := {
  eo_streams : streams_ok n (e_streams s);
  eo_closed : closed (e_streams s);
  eo_count : 0 <= e_command_count s <= max_commands limits;
  eo_timings : len (e_timings s) <= e_command_count s
}.

Abbreviation ekeeps n m s := (safely m s (fun _ s' => exec_ok n s') (fun _ _ => False)).

Lemma exec_less n m s : (m <= n)%nat -> exec_ok n s -> exec_ok m s.
Proof. intros Hle [H1 H2 H3 H4]. constructor; [by eapply streams_less|done..]. Qed.

Lemma on_streams_spec {A} (m : HM A) s (Q : A -> XState W -> Prop) :
  safely m (e_streams s) Q (fun _ _ => False) ->
  safely (on_streams m) s (fun o s' => exists a x, o = Ok a /\ s' = set_streams x s /\ Q a x) (fun _ _ => False).
Proof. unfold safely, on_streams. destruct (m (e_streams s)) as [[] x]; try done. eauto. Qed.

Lemma report_red text (x : XState W) :
  safely (report text) x (fun _ x' => x_red x' = x_red x) (fun _ _ => False).
Proof.
  unfold report, ignoring, capture_write, sbind, sget, safely. pose proof (capped_write_ends (encode text) (capture Stderr x)).
  by destruct (capped_write _ _).
Qed.

Lemma exec_streams n s x :
  exec_ok n s -> ticked (x_fs (e_streams s)) (x_fs x) -> exec_ok n (set_streams x s).
Proof.
  intros [H1 H2 H3 H4] Ht. constructor; [by eapply ticked_rooms| |done..].
  unfold closed in *. destruct Ht as (_ & Hf & _). cbn. by rewrite Hf.
Qed.

Lemma write_stderr_keeps text n s :
  exec_ok n s ->
  safely (write_stderr text) s (fun _ s' => exec_ok n s' /\ e_command_count s' = e_command_count s) (fun _ _ => False).
Proof.
  intros H. unfold write_stderr. ends_step.
  eapply ends_mono; [apply on_streams_spec, report_red| |done]. intros o s' (a & x & -> & -> & Hx).
  ends_step. split; [|done]. apply exec_streams; [done|]. unfold x_fs. by rewrite Hx.
Qed.

Lemma exec_cancelled_keeps n s :
  exec_ok n s ->
  safely (exec_cancelled cancelled_at) s (fun _ s' => exec_ok n s' /\ exists x, s' = set_streams x s) (fun _ _ => False).
Proof.
  intros H. unfold exec_cancelled, safely, sbind, on_streams, x_on_fs, sbind, x_try_fs, control_is_cancelled. simpl.
  split; [|eauto]. by apply exec_streams.
Qed.

Lemma hit_limit_ok n s : exec_ok n s -> exec_ok n (hit_limit s).
Proof. by intros [? ? ? ?]. Qed.

Lemma too_much_keeps text n s :
  exec_ok n s ->
  safely (too_much text) s (fun _ s' => exec_ok n s' /\ e_command_count s' = e_command_count s) (fun _ _ => False).
Proof.
  intros H. unfold too_much. ends_step. eapply ends_mono; [by apply write_stderr_keeps| |done].
  intros _ s1 [H1 Hc]. ends_steps. split; [by apply hit_limit_ok|done].
Qed.

Lemma exec_single_keeps K c n s :
  commands_ok K -> exec_ok (length (redirects (syntax c)) + (K + n)) s ->
  ekeeps n (exec_single_simple vfs registered limits capacity cancelled_at c) s.
Proof.
  intros HK H. unfold exec_single_simple. do 2 ends_step.
  destruct (max_commands limits <=? e_command_count s) eqn:Hm; unbool.
  - ends_step. eapply ends_mono; [by apply write_stderr_keeps| |done]. intros _ s1 [H1 _]. ends_steps.
    apply hit_limit_ok. eapply exec_less; [|exact H1]. lia.
  - do 2 ends_step. do 4 ends_step.
    set (s1 := set_session _ (set_count _ s)).
    ends_step. destruct H as [H1 H2 H3 H4].
    eapply ends_mono; [apply (on_streams_spec _ s1 (fun _ x => streams_ok n x /\ closed x))| |done].
    + eapply ends_then; [by apply (exec_prepared_keeps I Room Rooms owned vfs registered limits capacity cancelled_at others_pool 0 Hp
        ltac:(lia) Hcap Hmax K)|]. intros ended x Hx.
      ends_step. eapply ends_mono; [by apply ends_wp, (drop_registry_keeps I Room Rooms owned vfs limits capacity others_pool 0)| |done].
      by intros [] x' Hx'.
    + intros o s2 (ended & x & -> & -> & Hx & Hcl). do 2 ends_step. do 2 ends_step. ends_step.
      constructor; cbn; [done|done|lia|]. destruct (end_timed ended); [|lia].
      rewrite len_app. unfold len at 2. simpl. lia.
Qed.

(** ** Pipelines, lists and programs *)

(** How many files a command, and a whole program, may open. *)
Fixpoint sum_over {A} (f : A -> nat) (l : list A) : nat :=
  match l with
  | [] => 0
  | x :: l => f x + sum_over f l
  end.
Definition command_opens (K : nat) (c : SimpleCommand) : nat := length (redirects c) + K.
Definition simple_command (c : Command) : SimpleCommand := let '(Simple simple) := c in simple.
Definition pipeline_opens (K : nat) (p : Pipeline) : nat := sum_over (command_opens K) (simple_command <$> commands p).
Definition items_opens (K : nat) : list AndOr -> nat := sum_over (fun item => pipeline_opens K (and_or_pipeline item)).
Definition list_opens (K : nat) (l : AndOrList) : nat := pipeline_opens K (first l) + items_opens K (rest l).
Definition program_opens (K : nat) : list AndOrList -> nat := sum_over (list_opens K).

Context (run_pipeline_stages : list ExpandedCommand -> EM Z).

(** What is asked of the run of a pipeline with several commands. *)
Definition stages_ok (K : nat) : Prop := forall cs n s,
  length cs <> 1%nat -> e_command_count s + len cs <= max_commands limits ->
  exec_ok (sum_over (command_opens K) (syntax <$> cs) + n) s -> ekeeps n (run_pipeline_stages cs) s.

Abbreviation expand_loop := (expand_loop size_of_String size_of_Vec size_of_ExpandedCommand cancelled_at).
Abbreviation exec_pipeline :=
  (exec_pipeline size_of_String size_of_Vec size_of_ExpandedCommand vfs registered limits capacity cancelled_at
     run_pipeline_stages).
Abbreviation and_or_loop :=
  (and_or_loop size_of_String size_of_Vec size_of_ExpandedCommand vfs registered limits capacity cancelled_at
     run_pipeline_stages).
Abbreviation exec_and_or_list :=
  (exec_and_or_list size_of_String size_of_Vec size_of_ExpandedCommand vfs registered limits capacity cancelled_at
     run_pipeline_stages).
Abbreviation exec_lists :=
  (exec_lists size_of_String size_of_Vec size_of_ExpandedCommand vfs registered limits capacity cancelled_at
     run_pipeline_stages).

Lemma expand_syntax simple env status budget c budget' :
  expand size_of_String size_of_Vec size_of_ExpandedCommand simple env status budget = Some (c, budget') ->
  syntax c = simple.
Proof.
  unfold expand. intros H. repeat (apply bind_Some in H as (? & _ & H)). repeat case_match; simplify_eq; try done.
  all: repeat (apply bind_Some in H as ([? ?] & _ & H)); simplify_eq; done.
Qed.

Lemma expand_loop_keeps cs budget done_ n s :
  exec_ok n s ->
  safely (expand_loop cs budget done_) s
    (fun r s' => exec_ok n s' /\ e_command_count s' = e_command_count s
                 /\ match r with inl es => syntax <$> es = (syntax <$> done_) ++ (simple_command <$> cs) | inr _ => True end)
    (fun _ _ => False).
Proof.
  revert budget done_ s. induction cs as [|[simple] cs IH]; intros budget done_ s H; cbn [Exec.expand_loop].
  - ends_step. split; [done|]. split; [done|]. by rewrite app_nil_r.
  - ends_step. eapply ends_mono; [by apply exec_cancelled_keeps| |done]. intros c s1 [H1 [x ->]].
    destruct c; [done|]. do 2 ends_step. destruct (expand _ _ _ simple _ _ budget) as [[command budget']|] eqn:He.
    + eapply ends_mono; [by apply IH| |done]. intros r s2 (H2 & Hc & Hsyn). split; [done|]. split; [done|].
      destruct r as [es|]; [|done]. rewrite Hsyn, fmap_app, <- app_assoc. simpl. by rewrite (expand_syntax _ _ _ _ _ _ He).
    + ends_step. eapply ends_mono; [by apply too_much_keeps| |done]. intros code s2 [H2 Hc]. by ends_step.
Qed.

Lemma exec_pipeline_keeps K p n s :
  commands_ok K -> stages_ok K -> exec_ok (pipeline_opens K p + n) s -> ekeeps n (exec_pipeline p) s.
Proof.
  intros HK HS H. unfold Exec.exec_pipeline.
  assert (forall s', exec_ok (pipeline_opens K p + n) s' -> exec_ok n s') as Hless by (intros s'; apply exec_less; lia).
  ends_step. eapply ends_mono; [by apply exec_cancelled_keeps| |done]. intros c s1 [H1 [x ->]].
  destruct c; [by apply Hless|]. do 2 ends_step.
  destruct (_ <? _) eqn:Hmany; unbool.
  { eapply ends_mono; [by apply too_much_keeps| |done]. intros ? s2 [H2 _]. by apply Hless. }
  ends_step. eapply ends_mono; [by apply expand_loop_keeps| |done]. intros r s2 (H2 & Hc & Hsyn).
  destruct r as [es|code]; [|by apply Hless]. simpl in Hsyn.
  assert (sum_over (command_opens K) (syntax <$> es) = pipeline_opens K p) as Hsum by (by rewrite Hsyn).
  assert (len es = len (commands p)) as Hlen by (unfold len; by rewrite <- (length_fmap syntax es), Hsyn, length_fmap).
  assert (length es <> 1%nat -> ekeeps n (run_pipeline_stages es) s2) as Hmulti.
  { intros Hne. apply HS; [done| |by rewrite Hsum]. rewrite Hc, Hlen. cbn. unfold saturating_sub in Hmany. cbn in Hmany.
    destruct H as [_ _ Hcount _]. lia. }
  destruct es as [|c [|c' es]]; [by apply Hmulti| |by apply Hmulti].
  apply (exec_single_keeps K); [done|]. eapply exec_less; [|exact H2]. rewrite <- Hsum. unfold command_opens. simpl. lia.
Qed.

Lemma record_status_keeps status n s : exec_ok n s -> ekeeps n (record_status status) s.
Proof. intros [? ? ? ?]. unfold record_status. by ends_steps. Qed.

Lemma and_or_loop_keeps K items status n s :
  commands_ok K -> stages_ok K ->
  exec_ok (items_opens K items + n) s -> ekeeps n (and_or_loop items status) s.
Proof.
  intros HK HS. revert status s. induction items as [|item items IH]; intros status s H; cbn [Exec.and_or_loop]; [done|].
  cbv zeta. set (k := (items_opens K items + n)%nat).
  assert (exec_ok (pipeline_opens K (and_or_pipeline item) + k) s) as H'
    by (eapply exec_less; [|exact H]; unfold k, items_opens; simpl; lia).
  eapply (ends_then (exec_ok k)).
  - destruct (match and_or_op item with And => _ | Or => _ end).
    + eapply ends_then; [by apply (exec_pipeline_keeps K)|]. intros st s1 H1.
      eapply ends_then; [by apply record_status_keeps|]. by intros ? s2 H2.
    + ends_step. eapply exec_less; [|exact H']. lia.
  - intros st s1 H1. do 2 ends_step. destruct (e_limit_hit s1); [|by apply IH].
    ends_step. eapply exec_less; [|exact H1]. unfold k. lia.
Qed.

Lemma exec_lists_keeps K ls n s :
  commands_ok K -> stages_ok K -> exec_ok (program_opens K ls + n) s -> ekeeps n (exec_lists ls) s.
Proof.
  intros HK HS. revert s. induction ls as [|l ls IH]; intros s H; cbn [Exec.exec_lists]; [done|].
  change (program_opens K (l :: ls)) with (list_opens K l + program_opens K ls)%nat in H. unfold list_opens in H.
  ends_step. eapply ends_mono; [by apply exec_cancelled_keeps| |done]. intros c s1 [H1 [x ->]].
  destruct c; [ends_step; eapply exec_less; [|exact H1]; lia|].
  eapply (ends_then (exec_ok (program_opens K ls + n))).
  - unfold Exec.exec_and_or_list. eapply ends_then; [apply (exec_pipeline_keeps K); [done|done|]|].
    { eapply exec_less; [|exact H1]. instantiate (1 := (items_opens K (rest l) + (program_opens K ls + n))%nat). lia. }
    intros st s2 H2. eapply ends_then; [by apply record_status_keeps|]. intros _ s3 H3.
    by apply (and_or_loop_keeps K).
  - intros st s2 H2. eapply ends_then; [by apply record_status_keeps|]. intros _ s3 H3. do 2 ends_step.
    destruct (e_limit_hit s3); [|by apply IH]. ends_step. eapply exec_less; [|exact H3]. lia.
Qed.

(** ** An execution *)

(** A sandbox between executions, with room for [n] opens; other facades hold
    [others_pool] admissions. *)
Definition sandbox_ok (n : nat) (sb : SandboxState W) : Prop :=
  I (sb_world sb) /\ Rooms n (sb_world sb) /\ sb_pool sb = others_pool.

Abbreviation exec_inner :=
  (exec_inner size_of_String size_of_Vec size_of_ExpandedCommand vfs registered limits capacity cancelled_at
     run_pipeline_stages).

Context (Hpool : others_pool <= capacity) (Hfiles : 0 <= max_open_files limits) (Hcommands : 0 <= max_commands limits).

Lemma exec_new_ok n sb : sandbox_ok n sb -> exec_ok n (exec_new limits (sb_world sb) (sb_pool sb) (sb_session sb)).
Proof.
  intros (HI & HR & Hsb). constructor; [|done|done|done]. split; [|done]. pose proof (size_empty (C := gset Z)) as Hs0.
  constructor; cbn [fs_world fs_files pool_open exec_open x_fs e_streams exec_new x_red r_fs];
    [done|set_solver|rewrite Hs0; lia|lia|rewrite Hs0; lia].
Qed.

Definition kept (persist_session : bool) (sb sb' : SandboxState W) : Prop :=
  persist_session = false -> sb_session sb' = sb_session sb.

Lemma finish_exec_ok persist n s sb cancelled :
  exec_ok n s ->
  let '(result, sb') := finish_exec persist sb s cancelled in
  sandbox_ok n sb' /\ len (res_commands result) <= max_commands limits /\ kept persist sb sb'.
Proof.
  intros [[HI HR] Hcl Hc Ht]. unfold finish_exec. destruct (capped_finish _) as [out t1], (capped_finish _) as [err t2].
  split; [|split; [exact (Z.le_trans _ _ _ Ht (proj2 Hc))|by intros ->]]. split; [apply HI|]. split; [done|]. cbn.
  destruct HI as [_ _ Hpo _ _]. rewrite Hpo, Hcl, size_empty. lia.
Qed.

Lemma exec_inner_ends K persist input n sb :
  commands_ok K -> stages_ok K ->
  I (sb_world sb) -> sb_pool sb = others_pool ->
  (forall program, parse input = Ok program -> Rooms (program_opens K (lists program) + n) (sb_world sb)) ->
  Rooms n (sb_world sb) ->
  safely (exec_inner persist input) sb
    (fun result sb' => sandbox_ok n sb' /\ len (res_commands result) <= max_commands limits /\ kept persist sb sb')
    (fun _ _ => False).
Proof.
  intros HK HS HI Hsb Hrooms HR. unfold Exec.exec_inner, safely. destruct (_ <? _); [by split|].
  pose proof (parse_post input) as Hparse. destruct (parse input) as [program|e| |]; [|by split|done..].
  specialize (Hrooms program eq_refl).
  assert (sandbox_ok (program_opens K (lists program) + n) sb) as Hok by done. apply exec_new_ok in Hok.
  assert (ekeeps n (let! _ := exec_lists (lists program) in if persist then exec_cancelled cancelled_at else sret false)
            (exec_new limits (sb_world sb) (sb_pool sb) (sb_session sb))) as Hrun.
  { eapply ends_then; [by apply (exec_lists_keeps K)|]. intros _ s1 H1. destruct persist; [|done].
    eapply ends_mono; [by apply exec_cancelled_keeps|by intros ? s2 [? _]|done]. }
  unfold safely in Hrun. destruct ((let! _ := exec_lists _ in _) _) as [[cancelled|[]| |] s]; try done.
  pose proof (finish_exec_ok persist n s sb cancelled Hrun) as Hfin. by destruct (finish_exec _ _ _ _).
Qed.
End engine.
