(* ===== verification/Pipeline.v ===== *)
(** * Pipelines of several commands (src/src/sandbox/mod.rs)

    The stages of a pipeline are prepared one after the other, then each runs as
    a task of its own, and what they come to is reported when all have ended.  A
    task goes from one of its awaits to the next ([Steps]); in between others have
    their turns, on the same filesystem, counters, captured streams and pipes,
    while the registry, the redirects and the stdin of a stage are its own
    ([StagePart]).  The choices of the runtime are parameters: who has the next
    turn, how much of what is written to a pipe its reader takes, what a reader
    gets when.  A turn of a stage that has ended is void, and what is still to do
    after the last turn of the schedule is done stage by stage, so a schedule is
    any finite order of turns.  How a handler falls into steps is a parameter
    ([in_steps]). *)

From Stdlib Require Import Ascii String.
From S2P Require Import Prelude RustStr BTreeMap ShellSyntax Expansion VfsTypes VfsIface SandboxFs.
From S2P Require Import Redirects Output ShellBuiltins Utf8 Streams Exec.

#[local] Open Scope Z_scope.

(** ** Commands that take turns *)

(** A command has returned, or it acts on the state and is then at its next
    await. *)
Inductive Steps (S R : Type) :=
| Returns (r : R)
| Does (act : S -> outcome Empty_set (Steps S R) * S).
Arguments Returns {S R}.
Arguments Does {S R}.

(** The command alone, from one end to the other. *)
Fixpoint run_steps {S R} (c : Steps S R) : ST S Empty_set R :=
  match c with
  | Returns r => sret r
  | Does act => fun s =>
      match act s with
      | (Ok c, s') => run_steps c s'
      | (Err e, _) => match e with end
      | (Panic, s') => (Panic, s')
      | (OutOfFuel, s') => (OutOfFuel, s')
      end
  end.

(** ** What a stage has of its own *)

Record StagePart := mkPart {
  p_files : gset Z;
  p_opened : list RedirectFile;
  p_red : PreparedRedirects;
  p_stdin : BoxAsyncRead;
  p_file : BoxAsyncRead
}.

Definition fresh_part : StagePart := mkPart ∅ [] default_redirects (FromPipe []) (FromPipe []).

Section parts.
Context {W : Type}.

Definition part_of (x : XState W) : StagePart :=
  mkPart (fs_files (x_fs x)) (r_opened (x_red x)) (r_red (x_red x)) (x_stdin x) (x_file x).

Definition with_part (p : StagePart) (x : XState W) : XState W :=
  mkXState (mkRState (set_fs_files (p_files p) (x_fs x)) (p_opened p) (p_red p)) (x_stdout x) (x_stderr x) (x_pipes x)
    (p_stdin p) (p_file p).

(** [m] runs with the part [p] of a stage, which may have changed after it. *)
Definition in_part {A} (p : StagePart) (m : ST (XState W) Empty_set A) (x : XState W)
  : outcome Empty_set A * StagePart * XState W :=
  let '(o, x') := m (with_part p x) in (o, part_of x', with_part (part_of x) x').
End parts.

(** ** Stages *)

Inductive StageKind :=
| CommandStage
| AssignmentOnly
| FailedStage (message : str).

Record PreparedStage (W : Type) := mkStage {
  sg_name : str;
  sg_args : list str;
  sg_env : list (str * str);
  sg_cwd : str;
  sg_command : option (RegisteredCommand W);
  sg_redirects : PreparedRedirects;
  sg_counts : bool;
  sg_kind : StageKind;
  sg_part : StagePart
}.
Arguments mkStage {W}.
Arguments sg_name {W}.
Arguments sg_args {W}.
Arguments sg_env {W}.
Arguments sg_cwd {W}.
Arguments sg_command {W}.
Arguments sg_redirects {W}.
Arguments sg_counts {W}.
Arguments sg_kind {W}.
Arguments sg_part {W}.

Record StageOutcome := mkOutcome {
  o_index : nat;
  o_timing : CommandTiming;
  o_exit_code : Z;
  o_peak : option Z;
  o_redirect_errors : list str;
  o_counts : bool
}.

(** ** Tasks *)

(** [run_stage_task]: the command runs, the sinks are finished, the task ends,
    with its outcome unless it panicked. *)
Inductive TaskState (W : Type) :=
| Running (command : Steps (XState W) CommandResult)
| Finishing (result : CommandResult) (code : Z) (errors : list str) (sinks : list nat)
| Ended (outcome : option StageOutcome).
Arguments Running {W}.
Arguments Finishing {W}.
Arguments Ended {W}.

Record StageTask (W : Type) := mkTask {
  k_index : nat;
  k_name : str;
  k_counts : bool;
  k_fs : Fs W;
  k_sinks : list nat;
  k_broken : option nat;
  k_part : StagePart;
  k_state : TaskState W
}.
Arguments mkTask {W}.
Arguments k_index {W}.
Arguments k_name {W}.
Arguments k_counts {W}.
Arguments k_fs {W}.
Arguments k_sinks {W}.
Arguments k_broken {W}.
Arguments k_part {W}.
Arguments k_state {W}.

Definition resume {W} (t : StageTask W) (p : StagePart) (s : TaskState W) : StageTask W :=
  mkTask (k_index t) (k_name t) (k_counts t) (k_fs t) (k_sinks t) (k_broken t) p s.

(** The tasks, and what [join_next] delivers: the results in the order in which
    the tasks end. *)
Record TaskSet (W : Type) := mkTasks { ts_tasks : list (StageTask W); ts_joined : list (option StageOutcome) }.
Arguments mkTasks {W}.
Arguments ts_tasks {W}.
Arguments ts_joined {W}.

(** What the runtime does in a pipeline: the turns, the bytes each pipe takes
    before its reader goes away, what each reader gets. *)
Record Runtime := mkRuntime {
  schedule : list nat;
  taken_by_reader : nat -> option Z;
  delivered : nat -> list StreamEvent
}.

Section pipeline.
Context {W : Type}.
Context (vfs : Vfs W) (registered : list (str * RegisteredCommand W)) (limits : Limits) (capacity : Z)
  (cancelled_at : nat -> bool).
Context (in_steps : Handler W -> Fs W -> CommandContext -> Steps (XState W) CommandResult).
(** The runtime of the pipeline that starts after that many commands, and how a
    panic of a task is put into words. *)
Context (runtime : Z -> Runtime) (join_error : str).

Abbreviation HM := (ST (XState W) Empty_set).
Abbreviation EM := (ST (ExecState W) Empty_set).

(** ** Preparing *)

Definition prepare_stage (c : ExpandedCommand) (se : Session) (last_status : Z) : HM (PreparedStage W) :=
  fun x =>
    let words := expanded_words c in
    let name := match words with
                | name :: _ => name
                | [] => match assignments (syntax c) with
                        | assignment :: _ => assignment_name assignment
                        | [] => lit "<empty>"
                        end
                end in
    let env := bt_insert (lit "?") (Z_to_string last_status) (expanded_env c) in
    let has_words := negb (bool_decide (words = [])) in
    match in_part fresh_part
            (on_redirects (prepare_redirects vfs (bt_keys registered) (s_cwd se) limits capacity true cancelled_at
                             (syntax c) (targets c))) x with
    | (Ok (Ok redirects), p, x') =>
        let kind := if has_words then CommandStage else AssignmentOnly in
        (Ok (mkStage name (drop 1 words) env (s_cwd se) (bt_get name registered) redirects has_words kind p), x')
    | (Ok (Err e), p, x') =>
        (Ok (mkStage name [] env (s_cwd se) None default_redirects has_words (FailedStage (redirect_message name e)) p), x')
    | (Ok Panic, _, x') | (Panic, _, x') => (Panic, x')
    | (Ok OutOfFuel, _, x') | (OutOfFuel, _, x') => (OutOfFuel, x')
    | (Err e, _, _) => match e with end
    end.

(** Stages that are dropped before they run, with their facades. *)
Fixpoint drop_stages (stages : list (PreparedStage W)) : HM unit :=
  match stages with
  | [] => sret tt
  | stage :: stages => fun x =>
      match in_part (sg_part stage) (drop_registry vfs) x with
      | (Ok _, _, x') => drop_stages stages x'
      | (Err e, _, _) => match e with end
      | (Panic, _, x') => (Panic, x')
      | (OutOfFuel, _, x') => (OutOfFuel, x')
      end
  end.

(** The loop of [exec_pipeline] that prepares the stages, or the status it ends
    with. *)
Fixpoint prepare_loop (cs : list ExpandedCommand) (stages : list (PreparedStage W))
  : EM (list (PreparedStage W) + Z) :=
  match cs with
  | [] => sret (inl stages)
  | c :: cs =>
      let! cancelled := exec_cancelled cancelled_at in
      if (cancelled : bool) then let! _ := on_streams (drop_stages stages) in sret (inr 124)
      else
        let! s := sget in
        let! prepared := on_streams (prepare_stage c (e_session s) (e_last_status s)) in
        match prepared with
        | Ok stage => prepare_loop cs (stages ++ [stage])
        | Err e => match e with end
        | Panic => slift Panic
        | OutOfFuel => slift OutOfFuel
        end
  end.

(** ** Running a stage *)

(** [status.parse::<i32>()]. *)
Definition parse_i32 (s : str) : option Z :=
  match strip_prefix s (lit "-") with
  | Some digits => if starts_with digits (lit "+") then None else Z.opp <$> parse_unsigned (2 ^ 31) digits
  | None => parse_unsigned (2 ^ 31 - 1) s
  end.

(** [run_registered_stage]: a shell builtin works on a copy of the session. *)
Definition run_registered_stage (stage : PreparedStage W) (fs : Fs W) (stdout stderr : BoxAsyncWrite)
  : Steps (XState W) CommandResult :=
  match sg_command stage with
  | Some (ShellCommand builtin) =>
      let last_status := default 0 (bt_get (lit "?") (sg_env stage) ≫= parse_i32) in
      Does (let! (status, _, out, err) :=
              run_builtin vfs registered limits cancelled_at builtin (sg_cwd stage) (sg_args stage)
                (mkSession (sg_cwd stage) (sg_env stage) last_status) (sg_env stage) in
            sret (Does (let! written := attempt (write_text fs stdout out) in
                        match written with
                        | Err _ => sret (Returns (result_new 1))
                        | _ => sret (Does (let! written := attempt (write_text fs stderr err) in
                                           match written with
                                           | Err _ => sret (Returns (result_new 1))
                                           | _ => sret (Returns (result_new status))
                                           end))
                        end)))
  | Some (Registered run) => in_steps run fs (mkContext (sg_args stage) (sg_env stage) (sg_cwd stage) stdout stderr)
  | None =>
      Does (let! _ := ignoring (write_text fs stderr (sg_name stage ++ lit ": command not found" ++ line_end)) in
            sret (Returns (result_new 127)))
  end.

(** What [run_stage_task] runs, by the kind of the stage. *)
Definition stage_command (stage : PreparedStage W) (fs : Fs W) (stdout stderr : BoxAsyncWrite)
  : Steps (XState W) CommandResult :=
  match sg_kind stage with
  | FailedStage message =>
      Does (let! _ := ignoring (write_text fs stderr message) in sret (Returns (result_new 1)))
  | AssignmentOnly => Returns (result_new 0)
  | CommandStage => run_registered_stage stage fs stdout stderr
  end.

(** The stdin of a stage: its redirect, or the pipe before it, or nothing. *)
Definition stage_stdin (rt : Runtime) (index : nat) (redirects : PreparedRedirects) : BoxAsyncRead :=
  match r_stdin redirects with
  | Some redirect => FromFile (mkFsStreamReader (Some (in_handle redirect)) 0 [] 0)
  | None => FromPipe (match index with O => [] | S before => delivered rt before end)
  end.

(** The body of the loop of [run_pipeline_stages]: the task of a stage, with its
    streams connected. *)
Definition spawn (rt : Runtime) (total index : nat) (stage : PreparedStage W) : StageTask W :=
  let fs := scoped_fs vfs registered limits capacity cancelled_at (sg_cwd stage) in
  let p := sg_part stage in
  let p := mkPart (p_files p) (p_opened p) (p_red p) (stage_stdin rt index (sg_redirects stage)) (p_file p) in
  let default_pipe := if (S index <? total)%nat then Some index else None in
  let stderr_pipe := if bool_decide (r_stderr (sg_redirects stage) = Capture Stdout) then default_pipe else None in
  let '(stdout, stdout_sinks) := writer_for_destination (r_stdout (sg_redirects stage)) default_pipe in
  let '(stderr, stderr_sinks) := writer_for_destination (r_stderr (sg_redirects stage)) stderr_pipe in
  let broken := match stdout, stderr with
                | ToPipe j, _ => Some j
                | _, ToPipe j => Some j
                | _, _ => None
                end in
  mkTask index (sg_name stage) (sg_counts stage) fs (stdout_sinks ++ stderr_sinks) broken p
    (Running (stage_command stage fs stdout stderr)).

(** One turn of a task with its own part; if it panics it is unwound, with the
    facade it held. *)
Definition step_in {A} (t : StageTask W) (m : HM A) (k : A -> TaskState W) : HM (StageTask W) :=
  fun x =>
    match in_part (k_part t) m x with
    | (Ok a, p, x') => (Ok (resume t p (k a)), x')
    | (Err e, _, _) => match e with end
    | (Panic, p, x') => let '(_, p', x'') := in_part p (drop_registry vfs) x' in (Ok (resume t p' (Ended None)), x'')
    | (OutOfFuel, _, x') => (OutOfFuel, x')
    end.

Definition pipe_broken (pipes : list PipeEnd) (pipe : option nat) : bool :=
  match pipe with
  | Some j => match pipes !! j with Some p => broken p | None => false end
  | None => false
  end.

(** The outcome of a task: a failure whose output nobody read is that of a broken
    pipe, unless a redirect failed. *)
Definition stage_outcome (t : StageTask W) (result : CommandResult) (code : Z) (errors : list str) (broken : bool)
  : StageOutcome :=
  let exit_code := if bool_decide (errors = []) && negb (code =? 0) && broken then 141 else code in
  mkOutcome (k_index t) (mkTiming (k_name t) exit_code) exit_code (peak_wasm_memory_bytes result) errors (k_counts t).

Definition task_step (t : StageTask W) : HM (StageTask W) :=
  match k_state t with
  | Running (Does act) => step_in t act Running
  | Running (Returns result) =>
      step_in t (ignoring (drop_reader (k_fs t) Stdin)) (fun _ => Finishing result (exit_code result) [] (k_sinks t))
  | Finishing result code errors (sink :: sinks) =>
      step_in t (on_redirects (finish_file vfs true cancelled_at sink))
        (fun closed => match closed with
                       | Err e => Finishing result 1 (errors ++ [redirect_message (k_name t) e]) sinks
                       | _ => Finishing result code errors sinks
                       end)
  | Finishing result code errors [] =>
      step_in t (let! _ := drop_registry vfs in let! x := sget in sret (pipe_broken (x_pipes x) (k_broken t)))
        (fun broken => Ended (Some (stage_outcome t result code errors broken)))
  | Ended _ => sret t
  end.

(** ** All of them *)

Definition turn (advance : StageTask W -> HM (StageTask W)) (i : nat) (ts : TaskSet W) : HM (TaskSet W) :=
  match ts_tasks ts !! i with
  | Some t =>
      match k_state t with
      | Ended _ => sret ts
      | _ =>
          let! t' := advance t in
          sret (mkTasks (<[i := t']> (ts_tasks ts))
                  (ts_joined ts ++ match k_state t' with Ended outcome => [outcome] | _ => [] end))
      end
  | None => sret ts
  end.

Fixpoint take_turns (advance : StageTask W -> HM (StageTask W)) (turns : list nat) (ts : TaskSet W) : HM (TaskSet W) :=
  match turns with
  | [] => sret ts
  | i :: turns => let! ts := turn advance i ts in take_turns advance turns ts
  end.

Fixpoint steps_of_task (n : nat) (t : StageTask W) : HM (StageTask W) :=
  match n with
  | O => sret t
  | S n => let! t := task_step t in steps_of_task n t
  end.

(** The command of a task from where it is to its end. *)
Fixpoint complete_command (c : Steps (XState W) CommandResult) (t : StageTask W) : HM (StageTask W) :=
  match c with
  | Returns _ => sret t
  | Does act => fun x =>
      match act (with_part (k_part t) x) with
      | (Ok c', x') => complete_command c' (resume t (part_of x') (Running c')) (with_part (part_of x) x')
      | _ => step_in t act Running x
      end
  end.

(** The steps after the command. *)
Definition steps_left (s : TaskState W) (sinks : list nat) : nat :=
  match s with
  | Running _ => S (S (length sinks))
  | Finishing _ _ _ sinks => S (length sinks)
  | Ended _ => 0
  end.

Definition complete (t : StageTask W) : HM (StageTask W) :=
  let! t := match k_state t with Running c => complete_command c t | _ => sret t end in
  steps_of_task (steps_left (k_state t) (k_sinks t)) t.

Definition run_tasks (turns : list nat) (tasks : list (StageTask W)) : HM (list (option StageOutcome)) :=
  let! ts := take_turns task_step turns (mkTasks tasks []) in
  let! ts := take_turns complete (seq 0 (length tasks)) ts in
  sret (ts_joined ts).

(** ** Reporting *)

(** The outcome recorded for a task that panicked. *)
Definition task_failed : StageOutcome :=
  mkOutcome 0 (mkTiming (lit "<task>") 1) 1 None [lit "tinysandbox: command task failed: " ++ join_error ++ line_end] true.

(** [outcomes[index] = Some(outcome)]. *)
Definition record_outcome (outcomes : list (option StageOutcome)) (result : option StageOutcome)
  : list (option StageOutcome) :=
  let o := default task_failed result in <[o_index o := Some o]> outcomes.

(** The loop over the tasks as they are joined. *)
Definition collect (total : nat) (joined : list (option StageOutcome)) : list (option StageOutcome) :=
  foldl record_outcome (replicate total None) joined.

Fixpoint write_errors (errors : list str) : EM unit :=
  match errors with
  | [] => sret tt
  | error :: errors => let! _ := write_stderr error in write_errors errors
  end.

Definition note_outcome (o : StageOutcome) (s : ExecState W) : ExecState W :=
  mkExec (e_streams s) (e_session s) (e_last_status s) (e_command_count s) (e_limit_hit s)
    (if o_counts o then e_timings s ++ [o_timing o] else e_timings s) (e_pipe_bytes s) (record_peak (o_peak o) (e_peak s)).

Fixpoint report_outcomes (outcomes : list StageOutcome) (status : Z) : EM Z :=
  match outcomes with
  | [] => sret status
  | o :: outcomes =>
      let! _ := write_errors (o_redirect_errors o) in
      let! s := sget in
      let! _ := sput (note_outcome o s) in
      report_outcomes outcomes (o_exit_code o)
  end.

(** The pipes of a pipeline, none of which has taken anything. *)
Definition new_pipes (rt : Runtime) (n : nat) : list PipeEnd :=
  (fun j => mkPipeEnd [] (taken_by_reader rt j) false) <$> seq 0 n.

(** The tasks run; what they were joined with, and the pipes. *)
Definition run_joined (rt : Runtime) (stages : list (PreparedStage W)) : HM (list (option StageOutcome) * list PipeEnd) :=
  let! x := sget in
  let! _ := sput (set_x_pipes (new_pipes rt (pred (length stages))) x) in
  let! joined := run_tasks (schedule rt) (imap (spawn rt (length stages)) stages) in
  let! x' := sget in
  let! _ := sput (set_x_pipes (x_pipes x) x') in
  sret (joined, x_pipes x').

(** A count of bytes in an [AtomicUsize]. *)
Definition pipe_count (p : PipeEnd) : Z := len (accepted p) mod 2 ^ 64.

Definition add_pipe_bytes (counts : list Z) (s : ExecState W) : ExecState W :=
  mkExec (e_streams s) (e_session s) (e_last_status s) (e_command_count s) (e_limit_hit s) (e_timings s)
    (e_pipe_bytes s ++ counts) (e_peak s).

Definition run_pipeline_stages (stages : list (PreparedStage W)) : EM Z :=
  if bool_decide (length stages = 0%nat) then sret 0
  else
    let! s := sget in
    let! ran := on_streams (run_joined (runtime (e_command_count s)) stages) in
    match ran with
    | Ok (joined, pipes) =>
        let! status := report_outcomes (omap id (collect (length stages) joined)) 0 in
        let! s := sget in
        let! _ := sput (add_pipe_bytes (pipe_count <$> pipes) s) in
        sret status
    | Err e => match e with end
    | Panic => slift Panic
    | OutOfFuel => slift OutOfFuel
    end.

(** The rest of [exec_pipeline] for a pipeline with several commands. *)
Definition exec_stages (cs : list ExpandedCommand) : EM Z :=
  let! prepared := prepare_loop cs [] in
  match prepared with
  | inr status => sret status
  | inl stages =>
      let! s := sget in
      let! _ := sput (set_count (e_command_count s + len stages) s) in
      run_pipeline_stages stages
  end.
End pipeline.
