(* ===== verification/PipelineFacts.v ===== *)
(** * Pipelines give back what they take, in whatever order their stages run

    Each stage has a registry of its own; the counts of open files are those of
    all of them together ([fits]).  A turn of one stage keeps them exact for it
    with the files of the others as given, so they stay exact for all. *)

From Stdlib Require Import Ascii String.
From S2P Require Import Prelude RustStr BTreeMap ShellSyntax Expansion VfsTypes VfsIface SandboxFs SandboxFsFacts SandboxFsFrame.
From S2P Require Import Redirects RedirectsFacts Output ShellBuiltins Utf8 Streams Exec ExecFacts Pipeline.

#[local] Open Scope Z_scope.

(** ** Registries that share the counts *)

(** No file is in two of the registries. *)
Fixpoint apart (Fs : list (gset Z)) : Prop :=
  match Fs with
  | [] => True
  | F :: Fs => F ## ⋃ Fs /\ apart Fs
  end.

Lemma union_list_perm (Fs Gs : list (gset Z)) : Fs ≡ₚ Gs -> ⋃ Fs = ⋃ Gs.
Proof. induction 1; simpl; [done|set_solver|set_solver|congruence]. Qed.

Lemma apart_perm Fs Gs : Fs ≡ₚ Gs -> apart Fs -> apart Gs.
Proof.
  induction 1 as [|F Fs Gs HP IH|F G Fs|Fs Gs Hs _ IH1 _ IH2]; simpl; [done| | |auto].
  - intros [H1 H2]. split; [by rewrite <- (union_list_perm _ _ HP)|auto].
  - intros (H1 & H2 & H3). set_solver.
Qed.

Lemma union_list_empty (Fs : list (gset Z)) : Forall (fun F => F = ∅) Fs -> ⋃ Fs = ∅.
Proof. induction 1 as [|F Fs -> _ IH]; simpl; [done|]. rewrite IH. set_solver. Qed.

Section sharing.
Context {W : Type} (I Room : W -> Prop) (Rooms : nat -> W -> Prop) (owned : W -> gset Z) (vfs : Vfs W).
Context (limits : Limits) (capacity : Z) (others_pool : Z).

(** The counts are those of the registries [Fs] together. *)
Definition fits (n : nat) (Fs : list (gset Z)) (f : FsState W) : Prop :=
  apart Fs /\ has_rooms I Rooms owned limits capacity true others_pool 0 n (set_fs_files (⋃ Fs) f).

(** The facade of a stage beside stages that hold [O]. *)
Abbreviation beside O := (has_rooms (inv_beside I owned O) Rooms (owned_beside owned O) limits capacity true
  (others_pool + Z.of_nat (size O)) (Z.of_nat (size O))).

Lemma fits_perm n Fs Gs f : Fs ≡ₚ Gs -> fits n Fs f -> fits n Gs f.
Proof. intros HP [H1 H2]. split; [by eapply apart_perm|]. by rewrite <- (union_list_perm _ _ HP). Qed.

(** One stage beside the others. *)
Lemma fits_beside n F Fs f : fits n (F :: Fs) f -> apart Fs /\ beside (⋃ Fs) n (set_fs_files F f).
Proof.
  intros [[Hd Ha] [[G1 G2 G3 G4 G5] HR]]. simpl in *. split; [done|]. split; [|done].
  rewrite size_union in G3, G5 by done. destruct (G5 eq_refl) as [G6 G7].
  constructor; simpl; unfold inv_beside, owned_beside; [split; [done|set_solver]|set_solver|lia|done|intros _; lia].
Qed.

Lemma beside_fits n F Fs f : apart Fs -> beside (⋃ Fs) n (set_fs_files F f) -> fits n (F :: Fs) f.
Proof.
  intros Ha [[[HI HO] G2 G3 G4 G5] HR]. simpl in *. unfold owned_beside in G2. destruct (G5 eq_refl) as [G6 G7].
  assert (F ## ⋃ Fs) as Hd by set_solver.
  split; [done|]. split; [|done]. simpl. constructor; simpl; rewrite ?size_union by done;
    [done|set_solver|lia|done|intros _; lia].
Qed.

(** Stages that hold nothing do not count. *)
Lemma fits_empty n Fs Gs f : Forall (fun F => F = ∅) Gs -> fits n (Gs ++ Fs) f <-> fits n Fs f.
Proof.
  intros Hg. induction Hg as [|F Gs -> _ IH]; [done|]. rewrite <- IH. unfold fits. simpl.
  rewrite union_empty_l_L. split; [by intros [[_ ?] ?]|intros [? ?]]. split; [|done]. split; [apply disjoint_empty_l|done].
Qed.

Lemma fits_none n f : fits n [] f <-> has_rooms I Rooms owned limits capacity true others_pool 0 n (set_fs_files ∅ f).
Proof. unfold fits. simpl. by split; [intros [_ ?]|]. Qed.

Lemma fits_less `{!RoomLaws I Room Rooms vfs} n m Fs f : (m <= n)%nat -> fits n Fs f -> fits m Fs f.
Proof. intros Hle [H1 H2]. split; [done|]. by eapply has_rooms_le. Qed.
End sharing.

(** ** The part of a stage *)

Section parts.
Context {W : Type}.
Implicit Types (x : XState W) (p : StagePart).

Lemma part_of_with p x : part_of (with_part p x) = p.
Proof. by destruct p. Qed.

Lemma with_part_twice p q x : with_part p (with_part q x) = with_part p x.
Proof. done. Qed.

Lemma with_part_of x : with_part (part_of x) x = x.
Proof. by destruct x as [[[] ] ]. Qed.

Lemma x_fs_with_part p x : x_fs (with_part p x) = set_fs_files (p_files p) (x_fs x).
Proof. done. Qed.

Lemma set_files_same x : set_fs_files (fs_files (x_fs x)) (x_fs x) = x_fs x.
Proof. by destruct x as [[[] ] ]. Qed.

(** What runs on a part leaves the other parts as they were. *)
Lemma in_part_spec {A} p (m : ST (XState W) Empty_set A) x (P : XState W -> Prop) (Q : A -> XState W -> Prop) :
  ends P m (with_part p x) Q (fun _ _ => False) ->
  let '(o, p', x') := in_part p m x in
  part_of x' = part_of x
  /\ match o with
     | Ok a => Q a (with_part p' x')
     | Panic => P (with_part p' x')
     | Err _ | OutOfFuel => False
     end.
Proof.
  unfold ends, in_part. destruct (m (with_part p x)) as [o y]. intros H. split; [apply part_of_with|].
  rewrite with_part_twice, with_part_of. by destruct o.
Qed.
End parts.

(** ** What tasks come to *)

(** Every result of the command is in [P]. *)
Fixpoint results_in {S R} (P : R -> Prop) (c : Steps S R) {struct c} : Prop :=
  match c with
  | Returns r => P r
  | Does act => forall s, match act s with (Ok c', _) => results_in P c' | _ => True end
  end.

Section outcomes.
Context {W : Type} (vfs : Vfs W) (cancelled_at : nat -> bool).
Implicit Types (t : StageTask W) (x : XState W).

Abbreviation task_step := (task_step vfs cancelled_at).

(** The same task, later. *)
Definition kin t t' : Prop := t' = resume t (k_part t') (k_state t').

Definition task_end t : option (option StageOutcome) :=
  match k_state t with Ended o => Some o | _ => None end.

(** The code of a stage before its pipe is looked at. *)
Definition code_of (r : CommandResult) (errors : list str) : Z := if bool_decide (errors = []) then exit_code r else 1.

Definition task_reports (P : CommandResult -> Prop) t : Prop :=
  match k_state t with
  | Running c => results_in P c
  | Finishing r code errors _ => P r /\ code = code_of r errors
  | Ended (Some o) => exists r errors broken, P r /\ (broken = true -> is_Some (k_broken t))
                                             /\ o = stage_outcome t r (code_of r errors) errors broken
  | Ended None => True
  end.

Lemma kin_refl t : kin t t.
Proof. by destruct t. Qed.

Lemma kin_trans t t' t'' : kin t t' -> kin t' t'' -> kin t t''.
Proof. unfold kin. by intros -> ->. Qed.

Lemma kin_resume t p s : kin t (resume t p s).
Proof. done. Qed.

Lemma step_in_ok {A} t (m : ST (XState W) Empty_set A) next x t' x' :
  step_in vfs t m next x = (Ok t', x') ->
  kin t t' /\ ((exists a, k_state t' = next a /\ exists y y', m y = (Ok a, y')) \/ k_state t' = Ended None).
Proof.
  unfold step_in, in_part. destruct (m (with_part (k_part t) x)) as [[a|[]| |] y] eqn:Hm; [intros [= <- _]| |done].
  - split; [done|]. left. eauto.
  - destruct (drop_registry vfs _) as [o z]. intros [= <- _]. split; [done|]. by right.
Qed.

(** A step keeps what is known of the result, and brings the end nearer. *)
Lemma task_step_ok P t x t' x' :
  task_reports P t -> task_step t x = (Ok t', x') ->
  kin t t' /\ task_reports P t'
  /\ match k_state t with
     | Running (Does _) => True
     | _ => (steps_left (k_state t') (k_sinks t') <= pred (steps_left (k_state t) (k_sinks t)))%nat
            /\ match k_state t' with Running _ => False | _ => True end
     end.
Proof.
  unfold task_reports at 1, Pipeline.task_step.
  destruct (k_state t) as [[r|act]|r code errors [|sink sinks]|o] eqn:Hst; intros Ht Hstep.
  5: { injection Hstep as <- <-. split; [apply kin_refl|]. unfold task_reports. by rewrite Hst. }
  all: apply step_in_ok in Hstep as [Hk Hs]; split; [done|]; unfold task_reports; rewrite Hk; simpl.
  all: destruct Hs as [(a & -> & y & y' & Ha)| ->]; [|split; [done|]; first [done|split; [simpl; lia|done]]].
  - split; [done|]. split; [simpl; lia|done].
  - split; [|done]. specialize (Ht y). by rewrite Ha in Ht.
  - destruct Ht as [HP ->]. split; [|by split; [simpl; lia|]]. exists r, errors, a. split; [done|]. split; [|done].
    intros ->. revert Ha. unfold sbind. destruct (drop_registry vfs y) as [[[]|[]| |] z]; try done. simpl.
    intros [= Hb _]. unfold pipe_broken in Hb. by destruct (k_broken t).
  - destruct Ht as [HP ->]. split; [|by destruct a; simpl; (split; [lia|])].
    destruct a as [a|e| |]; simpl; (split; [done|]); try done.
    unfold code_of. rewrite bool_decide_false; [done|]. by destruct errors.
Qed.

Lemma steps_of_task_ok P n t x t' x' :
  task_reports P t -> match k_state t with Running (Does _) => False | _ => True end ->
  (steps_left (k_state t) (k_sinks t) <= n)%nat ->
  steps_of_task vfs cancelled_at n t x = (Ok t', x') ->
  kin t t' /\ task_reports P t' /\ is_Some (task_end t').
Proof.
  revert t x. induction n as [|n IH]; intros t x Ht Hd Hn Hrun; cbn [steps_of_task] in Hrun.
  - injection Hrun as <- _. split; [apply kin_refl|]. split; [done|]. unfold task_end.
    destruct (k_state t); simpl in Hn; [lia|lia|done].
  - unfold sbind in Hrun. destruct (task_step t x) as [[t1|[]| |] x1] eqn:Hstep; [|done..].
    destruct (task_step_ok P t x t1 x1 Ht Hstep) as (Hk & Ht1 & Hleft).
    destruct (IH t1 x1 Ht1) as (Hk' & Ht' & He); [| |done|].
    + destruct (k_state t) as [[]| |]; try done; destruct Hleft as [_ Hleft]; by destruct (k_state t1).
    + destruct (k_state t) as [[]| |]; try done; simpl in *; lia.
    + split; [by eapply kin_trans|done].
Qed.

Lemma complete_command_ok P c t x t' x' :
  k_state t = Running c -> task_reports P t -> complete_command vfs c t x = (Ok t', x') ->
  kin t t' /\ task_reports P t' /\ match k_state t' with Running (Does _) => False | _ => True end.
Proof.
  revert c t x t' x'. fix IH 1. intros [r|act] t x t' x' Hst Ht; cbn [complete_command].
  - intros [= <- _]. split; [apply kin_refl|]. split; [done|]. by rewrite Hst.
  - destruct (act (with_part (k_part t) x)) as [[c'|[]| |] y] eqn:Hact.
    + intros Hrun. apply (IH c' (resume t (part_of y) (Running c'))) in Hrun as (Hk & Ht' & Hd); [|done|].
      * split; [by eapply kin_trans; [apply kin_resume|]|done].
      * unfold task_reports in *. rewrite Hst in Ht. simpl in *. specialize (Ht (with_part (k_part t) x)).
        by rewrite Hact in Ht.
    + unfold step_in, in_part. rewrite Hact. destruct (drop_registry vfs _) as [o z]. intros [= <- _]. by split.
    + unfold step_in, in_part. by rewrite Hact.
Qed.

Lemma complete_ok P t x t' x' :
  task_reports P t -> complete vfs cancelled_at t x = (Ok t', x') ->
  kin t t' /\ task_reports P t' /\ is_Some (task_end t').
Proof.
  unfold complete, sbind. intros Ht Hrun.
  assert (forall c t1 x1, c = (Ok t1, x1) :> outcome Empty_set (StageTask W) * XState W ->
            c = (match k_state t with Running c => complete_command vfs c t | _ => sret t end) x ->
            kin t t1 /\ task_reports P t1 /\ match k_state t1 with Running (Does _) => False | _ => True end) as Hc.
  { intros c t1 x1 -> Hc. destruct (k_state t) as [c|r code errors sinks|o] eqn:Hst;
      [by eapply complete_command_ok|injection Hc as -> ->..]; (split; [apply kin_refl|]; split; [done|]; by rewrite Hst). }
  destruct ((match k_state t with Running c => complete_command vfs c t | _ => sret t end) x) as [[t1|[]| |] x1];
    [|done..].
  destruct (Hc _ t1 x1 eq_refl eq_refl) as (Hk & Ht1 & Hd).
  destruct (steps_of_task_ok P _ t1 x1 t' x' Ht1 Hd (le_n _) Hrun) as (Hk' & Ht' & He).
  split; [by eapply kin_trans|done].
Qed.

(** ** The set of tasks *)

(** What is known of each task, and that the results joined so far are those of
    the tasks that ended. *)
Definition set_ok (R : nat -> StageTask W -> Prop) (ts : TaskSet W) : Prop :=
  (forall i t, ts_tasks ts !! i = Some t -> R i t) /\ ts_joined ts ≡ₚ omap task_end (ts_tasks ts).

Lemma omap_insert_end l i t t' :
  l !! i = Some t -> task_end t = None -> omap task_end (<[i := t']> l) ≡ₚ option_list (task_end t') ++ omap task_end l.
Proof.
  intros Hi Hn. rewrite insert_take_drop by (by eapply lookup_lt_Some).
  rewrite <- (take_drop_middle l i t Hi) at 3. rewrite !omap_app. simpl. rewrite Hn.
  destruct (task_end t'); simpl; [|done]. symmetry. apply Permutation_middle.
Qed.

Lemma turn_set R adv i ts x ts' x' :
  (forall i t x t' x', R i t -> adv t x = (Ok t', x') -> R i t') ->
  set_ok R ts -> turn adv i ts x = (Ok ts', x') ->
  set_ok R ts' /\ length (ts_tasks ts') = length (ts_tasks ts)
  /\ (forall j t, ts_tasks ts !! j = Some t -> is_Some (task_end t) -> ts_tasks ts' !! j = Some t).
Proof.
  intros Hadv [HR HJ] Hrun. unfold turn in Hrun. destruct (ts_tasks ts !! i) as [t|] eqn:Hi; [|by injection Hrun as <- _].
  assert (task_end t = None -> (let! t' := adv t in
            sret (mkTasks (<[i := t']> (ts_tasks ts)) (ts_joined ts ++ match k_state t' with Ended o => [o] | _ => [] end))) x
          = (Ok ts', x') ->
          set_ok R ts' /\ length (ts_tasks ts') = length (ts_tasks ts)
          /\ (forall j t, ts_tasks ts !! j = Some t -> is_Some (task_end t) -> ts_tasks ts' !! j = Some t)) as Hgo.
  { intros Hn. unfold sbind. destruct (adv t x) as [[t'|[]| |] y] eqn:Ha; [|done..]. intros [= <- _]. simpl. split; [|split].
    - split; simpl.
      + intros j u [[<- [-> _]]|[_ Hj]]%list_lookup_insert_Some; [by eapply Hadv; [by apply HR|]|by apply HR].
      + rewrite (omap_insert_end _ _ _ t' Hi Hn), HJ, Permutation_app_comm. apply Permutation_app; [|done].
        unfold task_end. by destruct (k_state t').
    - by rewrite length_insert.
    - intros j u Hj Hu. destruct (decide (i = j)) as [<-|Hne]; [|by rewrite list_lookup_insert_ne].
      rewrite Hi in Hj. injection Hj as <-. rewrite Hn in Hu. by destruct Hu. }
  unfold task_end in Hgo at 1. destruct (k_state t); [by apply Hgo|by apply Hgo|by injection Hrun as <- _].
Qed.

Lemma take_turns_set R adv turns ts x ts' x' :
  (forall i t x t' x', R i t -> adv t x = (Ok t', x') -> R i t') ->
  set_ok R ts -> take_turns adv turns ts x = (Ok ts', x') ->
  set_ok R ts' /\ length (ts_tasks ts') = length (ts_tasks ts)
  /\ (forall j t, ts_tasks ts !! j = Some t -> is_Some (task_end t) -> ts_tasks ts' !! j = Some t).
Proof.
  intros Hadv. revert ts x. induction turns as [|i turns IH]; intros ts x Hts Hrun; cbn [take_turns] in Hrun.
  - by injection Hrun as <- _.
  - unfold sbind in Hrun. destruct (turn adv i ts x) as [[ts1|[]| |] x1] eqn:Ht; [|done..].
    destruct (turn_set R adv i ts x ts1 x1 Hadv Hts Ht) as (H1 & H2 & H3).
    destruct (IH ts1 x1 H1 Hrun) as (H4 & H5 & H6). split; [done|]. split; [congruence|auto].
Qed.

(** When every task had its turn to the end, all have ended. *)
Lemma complete_turns R turns ts x ts' x' :
  (forall i t x t' x', R i t -> complete vfs cancelled_at t x = (Ok t', x') -> R i t' /\ is_Some (task_end t')) ->
  set_ok R ts -> take_turns (complete vfs cancelled_at) turns ts x = (Ok ts', x') ->
  forall i t, i ∈ turns -> ts_tasks ts' !! i = Some t -> is_Some (task_end t).
Proof.
  intros Hadv. revert ts x. induction turns as [|j turns IH]; intros ts x Hts Hrun i t Hin Hi;
    cbn [take_turns] in Hrun; [by apply not_elem_of_nil in Hin|].
  unfold sbind in Hrun. destruct (turn _ j ts x) as [[ts1|[]| |] x1] eqn:Ht; [|done..].
  assert (forall i t x t' x', R i t -> complete vfs cancelled_at t x = (Ok t', x') -> R i t') as Hadv' by (intros; by eapply Hadv).
  destruct (turn_set R _ j ts x ts1 x1 Hadv' Hts Ht) as (H1 & H2 & H3).
  apply elem_of_cons in Hin as [->|Hin]; [|by eapply IH].
  destruct (take_turns_set R _ turns ts1 x1 ts' x' Hadv' H1 Hrun) as (_ & Hlen & Hstay).
  assert (exists u, ts_tasks ts1 !! j = Some u /\ is_Some (task_end u)) as (u & Hu & He).
  { pose proof (lookup_lt_Some _ _ _ Hi) as Hlt. rewrite Hlen, H2 in Hlt. destruct (lookup_lt_is_Some_2 _ _ Hlt) as [v Hv].
    unfold turn in Ht. rewrite Hv in Ht. destruct (k_state v) eqn:Hst.
    3: { injection Ht as <- <-. exists v. split; [done|]. unfold task_end. by rewrite Hst. }
    all: unfold sbind in Ht; destruct (complete vfs cancelled_at v x) as [[v'|[]| |] y] eqn:Hc; [|done..].
    all: injection Ht as <- _; exists v'; simpl; rewrite list_lookup_insert_eq by (by eapply lookup_lt_Some).
    all: split; [done|]; by eapply (Hadv j v x v' y); [apply Hts|]. }
  rewrite (Hstay j u Hu He) in Hi. by injection Hi as <-.
Qed.
Lemma results_in_any {S R} (P : R -> Prop) (c : Steps S R) : (forall r, P r) -> results_in P c.
Proof.
  intros HP. revert c. fix IH 1. intros [r|act]; [apply HP|]. simpl. intros s. destruct (act s) as [[c'|e| |] s']; [|done..].
  apply IH.
Qed.

(** The run of a set of tasks, to the end of all. *)
Lemma run_tasks_ended R turns tasks x joined x' :
  (forall i t x t' x', R i t -> task_step t x = (Ok t', x') -> R i t') ->
  (forall i t x t' x', R i t -> complete vfs cancelled_at t x = (Ok t', x') -> R i t' /\ is_Some (task_end t')) ->
  (forall i t, tasks !! i = Some t -> R i t /\ task_end t = None) ->
  run_tasks vfs cancelled_at turns tasks x = (Ok joined, x') ->
  exists x1 ts1 ts2,
    take_turns task_step turns (mkTasks tasks []) x = (Ok ts1, x1)
    /\ take_turns (complete vfs cancelled_at) (seq 0 (length tasks)) ts1 x1 = (Ok ts2, x')
    /\ joined = ts_joined ts2 /\ set_ok R ts2 /\ length (ts_tasks ts2) = length tasks
    /\ (forall i t, ts_tasks ts2 !! i = Some t -> is_Some (task_end t)).
Proof.
  intros Hstep Hcomp H0 Hrun. unfold run_tasks, sbind in Hrun.
  destruct (take_turns _ turns _ x) as [[ts1|[]| |] x1] eqn:H1; [|done..].
  destruct (take_turns _ (seq 0 (length tasks)) ts1 x1) as [[ts2|[]| |] x2] eqn:H2; [|done..].
  injection Hrun as <- <-. exists x1, ts1, ts2. split; [done|]. split; [done|]. split; [done|].
  assert (set_ok R (mkTasks tasks [])) as Hok.
  { split; simpl; [intros i t Hi; by apply (H0 i t)|].
    assert (Forall (fun t => task_end t = None) tasks) as Hn.
    { apply Forall_forall. intros t [i Hi]%list_elem_of_lookup. by apply (H0 i t). }
    clear - Hn. induction Hn as [|t l Ht _ IH]; simpl; [done|]. by rewrite Ht. }
  destruct (take_turns_set R _ _ _ _ _ _ Hstep Hok H1) as (Hok1 & Hlen1 & _).
  destruct (take_turns_set R _ _ _ _ _ _ (fun i t x t' x' HR Hc => proj1 (Hcomp i t x t' x' HR Hc)) Hok1 H2)
    as (Hok2 & Hlen2 & _).
  simpl in Hlen1. split; [done|]. split; [congruence|]. intros i t Hi.
  eapply (complete_turns R _ _ _ _ _ Hcomp Hok1 H2); [|done]. apply elem_of_seq.
  pose proof (lookup_lt_Some _ _ _ Hi). lia.
Qed.

Lemma ends_of tasks :
  (forall i t, tasks !! i = Some t -> is_Some (task_end t)) ->
  Forall2 (fun t e => task_end t = Some e) tasks (omap task_end tasks).
Proof.
  induction tasks as [|t l IH]; intros H; [constructor|]. simpl. destruct (H 0%nat t eq_refl) as [e He]. rewrite He.
  constructor; [done|]. apply IH. intros i u Hi. by apply (H (S i) u).
Qed.
End outcomes.

(** ** What is asked of the steps of a command *)

Section pipeline.
Context {W : Type} (I Room : W -> Prop) (Rooms : nat -> W -> Prop) (owned : W -> gset Z) (vfs : Vfs W).
Context `{Hv : !OwnerLaws I Room owned vfs} `{Hr : !RoomLaws I Room Rooms vfs}.
Context (registered : list (str * RegisteredCommand W)) (limits : Limits) (capacity : Z) (cancelled_at : nat -> bool)
  (others_pool : Z).
Context (Hp : 0 <= others_pool) (Hcap : capacity <= USIZE_MAX) (Hmax : max_open_files limits <= USIZE_MAX).
Context (in_steps : Handler W -> Fs W -> CommandContext -> Steps (XState W) CommandResult).
Context (runtime : Z -> Runtime) (join_error : str).

Abbreviation HM := (ST (XState W) Empty_set).
Abbreviation EM := (ST (ExecState W) Empty_set).
Abbreviation Command_ := (Steps (XState W) CommandResult).
Abbreviation fits := (fits I Rooms owned limits capacity others_pool).
Abbreviation scoped cwd := (scoped_fs vfs registered limits capacity cancelled_at cwd).

(** The streams of a stage beside stages that hold [O]. *)
Definition stage_ok (O : gset Z) (n : nat) (x : XState W) : Prop :=
  streams_ok (inv_beside I owned O) Rooms (owned_beside owned O) limits capacity
    (others_pool + Z.of_nat (size O)) (Z.of_nat (size O)) n x.

#[local] Instance stage_laws O : OwnerLaws (inv_beside I owned O) Room (owned_beside owned O) vfs :=
  owner_laws_beside I Room owned vfs O Hv.
#[local] Instance stage_rooms O : RoomLaws (inv_beside I owned O) Room Rooms vfs :=
  room_laws_beside I Room Rooms owned vfs O Hr.

(** Each step keeps the counts exact whatever the others hold, also if it panics,
    and all together use room for at most [k] opens. *)
Fixpoint steps_ok (k : nat) (c : Command_) {struct c} : Prop :=
  match c with
  | Returns _ => True
  | Does act => forall O m x, stage_ok O (k + m) x ->
      match act x with
      | (Ok c', x') => exists k', (k' <= k)%nat /\ stage_ok O (k' + m) x' /\ steps_ok k' c'
      | (Err _, _) => True
      | (Panic, x') => stage_ok O m x'
      | (OutOfFuel, _) => False
      end
  end.

Definition stages_commands_ok (K : nat) : Prop :=
  forall name run cwd ctx, bt_get name registered = Some (Registered run) -> steps_ok K (in_steps run (scoped cwd) ctx).

Lemma stage_less O n m x : (m <= n)%nat -> stage_ok O n x -> stage_ok O m x.
Proof. apply (has_rooms_le (inv_beside I owned O) Room Rooms (owned_beside owned O) vfs). Qed.

Lemma steps_ok_more k k' c : (k <= k')%nat -> steps_ok k c -> steps_ok k' c.
Proof.
  revert k k' c. fix IH 3. intros k k' [r|act] Hle H; [done|]. simpl in *. intros O m x Hx.
  specialize (H O (k' - k + m)%nat x). replace (k + (k' - k + m))%nat with (k' + m)%nat in H by lia.
  specialize (H Hx). destruct (act x) as [[c'|[]| |] x'].
  - destruct H as (j & Hj & Hx' & Hc). exists (j + (k' - k))%nat. split; [lia|].
    split; [by replace (j + (k' - k) + m)%nat with (j + (k' - k + m))%nat by lia|].
    apply (IH j); [lia|done].
  - eapply stage_less; [|exact H]. lia.
  - done.
Qed.

(** ** What a stage runs *)

Abbreviation keeps O n m x := (ends (stage_ok O n) m x (fun _ x' => stage_ok O n x') (fun _ _ => False)).

Lemma stage_write O cwd dst data n x :
  stage_ok O n x ->
  ends (stage_ok O n) (write_all (scoped cwd) dst data) x (fun _ x' => stage_ok O n x') (fun _ x' => stage_ok O n x').
Proof.
  exact (write_all_keeps (inv_beside I owned O) Room Rooms (owned_beside owned O) vfs limits capacity cancelled_at _ _
    (scoped cwd) (scoped_parts vfs registered limits capacity cancelled_at cwd) dst data n x).
Qed.

Lemma stage_write_tried O cwd dst text n x :
  stage_ok O n x -> keeps O n (attempt (F := Empty_set) (write_text (scoped cwd) dst text)) x.
Proof.
  intros H. pose proof (stage_write O cwd dst (encode text) n x H) as Hw. unfold ends, attempt, write_text in *.
  by destruct (write_all (scoped cwd) dst (encode text) x) as [[] ?].
Qed.

Lemma stage_write_ignored O cwd dst text n x :
  stage_ok O n x -> keeps O n (ignoring (write_text (scoped cwd) dst text)) x.
Proof.
  intros H. apply (ignoring_keeps (inv_beside I owned O) Rooms (owned_beside owned O)). by apply stage_write.
Qed.

Lemma stage_builtin O b cwd args se env n x :
  stage_ok O n x -> keeps O n (run_builtin vfs registered limits cancelled_at b cwd args se env) x.
Proof.
  exact (run_builtin_keeps (inv_beside I owned O) Room Rooms (owned_beside owned O) vfs registered limits capacity
    cancelled_at _ _ b cwd args se env n x).
Qed.

(** An action of the engine, after which comes [c]. *)
Lemma does_ok k (m : HM Command_) :
  (forall O n x, stage_ok O n x ->
     ends (stage_ok O n) m x (fun c x' => stage_ok O n x' /\ steps_ok 0 c) (fun _ _ => False)) ->
  steps_ok k (Does m).
Proof.
  intros Hm O n x Hx. assert (stage_ok O n x) as Hx' by (eapply stage_less; [|exact Hx]; lia).
  specialize (Hm O n x Hx'). unfold ends in Hm. destruct (m x) as [[c'|[]| |] x']; [|done..].
  exists 0%nat. destruct Hm. split; [lia|done].
Qed.

(** The command of a stage is the one registered under its name, unless the stage
    failed. *)
Definition stage_named (stage : PreparedStage W) : Prop :=
  sg_command stage = None \/ sg_command stage = bt_get (sg_name stage) registered.

Lemma stage_command_ok K stage stdout stderr :
  stages_commands_ok K -> stage_named stage ->
  steps_ok K (stage_command vfs registered limits cancelled_at in_steps stage (scoped (sg_cwd stage)) stdout stderr).
Proof.
  intros HK Hn. unfold stage_command, run_registered_stage.
  assert (forall text code, steps_ok K (Does (let! _ := ignoring (write_text (scoped (sg_cwd stage)) stderr text) in
            sret (Returns (result_new code))))) as Hsay.
  { intros text code. apply does_ok. intros O n x Hx. by eapply ends_then; [by apply stage_write_ignored|]. }
  destruct (sg_kind stage) as [| |message]; [|done|apply Hsay].
  destruct Hn as [-> | ->]; [apply Hsay|].
  destruct (bt_get (sg_name stage) registered) as [[run|b]|] eqn:Hrun; [by eapply HK| |apply Hsay].
  apply does_ok. intros O n x Hx. eapply ends_then; [by apply stage_builtin|]. intros [[[status se] out] err] x1 H1.
  cbv beta iota. ends_step. split; [done|].
  apply does_ok. intros O2 n2 x2 Hx2. eapply ends_then; [by apply stage_write_tried|]. intros written x3 H3.
  destruct written; try (by split).
  all: ends_step; split; [done|]; apply does_ok; intros O4 n4 x4 Hx4.
  all: eapply ends_then; [by apply stage_write_tried|]; intros written x5 H5; by destruct written.
Qed.

(** ** A turn of a task *)

Definition task_fits (k : nat) (t : StageTask W) : Prop :=
  k_fs t = scoped (f_cwd (k_fs t))
  /\ match k_state t with
     | Running c => steps_ok k c
     | Finishing _ _ _ _ => True
     | Ended _ => p_files (k_part t) = ∅
     end.

(** After [m], of the room for [k] opens some is left for what is to come. *)
Definition advances (O : gset Z) (k m : nat) (adv : HM (StageTask W)) (x : XState W) : Prop :=
  match adv x with
  | (Ok t', x') => part_of x' = part_of x
                   /\ exists k', (k' <= k)%nat /\ task_fits k' t' /\ stage_ok O (k' + m) (with_part (k_part t') x')
  | (Err _, _) => True
  | (Panic, _) | (OutOfFuel, _) => False
  end.

Lemma drop_stage O n p x :
  stage_ok O n (with_part p x) ->
  let '(o, p', x') := in_part p (drop_registry vfs) x in
  part_of x' = part_of x /\ o = Ok tt /\ stage_ok O n (with_part p' x') /\ p_files p' = ∅.
Proof.
  intros H. pose proof (drop_registry_keeps (inv_beside I owned O) Room Rooms (owned_beside owned O) vfs limits capacity
    (others_pool + Z.of_nat (size O)) (Z.of_nat (size O)) ltac:(lia) ltac:(lia) Hcap Hmax n _ H) as Hd.
  pose proof (in_part_spec p (drop_registry vfs) x (fun _ => False)
    (fun _ x' => stage_ok O n x' /\ closed x')) as Hs.
  destruct (in_part p (drop_registry vfs) x) as [[o p'] x'].
  destruct Hs as [H1 H2]; [unfold wp, ends in *; by destruct (drop_registry vfs _) as [[] ?]|].
  split; [done|]. by destruct o as [[]| | |].
Qed.

(** What a task does in its part, and the state it is in then. *)
Lemma step_in_advances {A} O k m (t : StageTask W) (run : HM A) next x :
  k_fs t = scoped (f_cwd (k_fs t)) ->
  ends (stage_ok O m) run (with_part (k_part t) x)
    (fun a x' => exists k', (k' <= k)%nat /\ stage_ok O (k' + m) x'
                            /\ task_fits k' (resume t (part_of x') (next a))) (fun _ _ => False) ->
  advances O k m (step_in vfs t run next) x.
Proof.
  intros Hfs Hrun. unfold advances, step_in. apply in_part_spec in Hrun.
  destruct (in_part (k_part t) run x) as [[[a|[]| |] p] y]; [| |by destruct Hrun].
  - destruct Hrun as [H1 (k' & Hk & H2 & H3)]. split; [done|]. exists k'. split; [done|]. by rewrite part_of_with in H3.
  - destruct Hrun as [H1 H2]. apply drop_stage in H2. destruct (in_part p (drop_registry vfs) y) as [[o p'] z].
    destruct H2 as (H2 & _ & H3 & H4). split; [congruence|]. exists 0%nat. split; [lia|]. by split.
Qed.

Abbreviation task_step := (task_step vfs cancelled_at).

Lemma task_step_advances O k m t x :
  task_fits k t -> stage_ok O (k + m) (with_part (k_part t) x) -> advances O k m (task_step t) x.
Proof.
  intros [Hfs Ht] Hx. assert (stage_ok O m (with_part (k_part t) x)) as Hx' by (eapply stage_less; [|exact Hx]; lia).
  unfold Pipeline.task_step. destruct (k_state t) as [[result|act]|result code errors [|sink sinks]|o] eqn:Hst.
  - apply step_in_advances; [done|]. eapply ends_mono;
      [apply (ignoring_keeps (inv_beside I owned O) Rooms (owned_beside owned O))| |done].
    + rewrite Hfs. exact (drop_reader_keeps (inv_beside I owned O) Room Rooms (owned_beside owned O) vfs limits capacity
        cancelled_at (others_pool + Z.of_nat (size O)) (Z.of_nat (size O)) ltac:(lia) ltac:(lia) Hcap Hmax (scoped _) (scoped_parts vfs registered limits capacity cancelled_at _)
        Stdin m _ Hx').
    + intros [] y Hy. exists 0%nat. split; [lia|]. by split.
  - apply step_in_advances; [done|]. specialize (Ht O m _ Hx). unfold ends.
    destruct (act (with_part (k_part t) x)) as [[c|[]| |] y]; [|done..]. destruct Ht as (k' & Hk & Hy & Hc). by exists k'.
  - apply step_in_advances; [done|]. ends_step.
    eapply ends_mono; [apply ends_wp, (drop_registry_keeps (inv_beside I owned O) Room Rooms (owned_beside owned O) vfs
      limits capacity (others_pool + Z.of_nat (size O)) (Z.of_nat (size O)) ltac:(lia) ltac:(lia) Hcap Hmax m _ Hx')| |done].
    intros [] y [Hy Hc]. ends_steps. exists 0%nat. split; [lia|]. by split.
  - apply step_in_advances; [done|].
    eapply ends_mono; [apply (on_redirects_keeps (inv_beside I owned O) Rooms (owned_beside owned O)),
      (finish_file_keeps (inv_beside I owned O) Room Rooms (owned_beside owned O) vfs limits capacity cancelled_at
         (others_pool + Z.of_nat (size O)) (Z.of_nat (size O)) ltac:(lia) ltac:(lia) Hcap Hmax sink m _ Hx')| |done].
    intros closed y [_ Hy]. exists 0%nat. split; [lia|]. split; [done|]. split; [done|]. by destruct closed.
  - unfold advances, sret. split; [done|]. exists k. split; [done|]. split; [|done]. split; [done|]. by rewrite Hst.
Qed.

(** Advances compose. *)
Lemma advances_bind O k m adv (next : StageTask W -> HM (StageTask W)) x :
  advances O k m adv x ->
  (forall k' t' x', (k' <= k)%nat -> task_fits k' t' -> stage_ok O (k' + m) (with_part (k_part t') x') ->
     adv x = (Ok t', x') -> advances O k' m (next t') x') ->
  advances O k m (sbind adv next) x.
Proof.
  unfold advances, sbind. destruct (adv x) as [[t'|[]| |] x'] eqn:Hadv; [|done..].
  intros (H1 & k' & Hk & H2 & H3) Hn. specialize (Hn k' t' x' Hk H2 H3 eq_refl).
  destruct (next t' x') as [[t''|[]| |] x'']; [|done..]. destruct Hn as (H4 & k'' & Hk' & H5 & H6).
  split; [congruence|]. exists k''. split; [lia|done].
Qed.

Lemma steps_of_task_advances n O k m t x :
  task_fits k t -> stage_ok O (k + m) (with_part (k_part t) x) ->
  advances O k m (steps_of_task vfs cancelled_at n t) x.
Proof.
  revert k t x. induction n as [|n IH]; intros k t x Ht Hx; cbn [steps_of_task].
  - unfold advances, sret. split; [done|]. by exists k.
  - apply advances_bind; [by apply task_step_advances|]. intros k' t' x' _ Ht' Hx' _. by apply IH.
Qed.

Lemma complete_command_advances c O k m t x :
  k_state t = Running c -> task_fits k t -> stage_ok O (k + m) (with_part (k_part t) x) ->
  advances O k m (complete_command vfs c t) x.
Proof.
  revert k t x. revert c. fix IH 1. intros [r|act] k t x Hst Ht Hx; cbn [complete_command].
  - unfold advances, sret. split; [done|]. by exists k.
  - pose proof (task_step_advances O k m t x Ht Hx) as Hstep. unfold Pipeline.task_step in Hstep. rewrite Hst in Hstep.
    revert Hstep. unfold advances. unfold step_in at 1, in_part at 1. destruct Ht as [Hfs Ht].
    destruct (act (with_part (k_part t) x)) as [[c'|[]| |] y] eqn:Hact; [|intros Hstep..].
    + intros (_ & k' & Hk & Ht' & Hy). specialize (IH c' k' (resume t (part_of y) (Running c')) (with_part (part_of x) y) eq_refl Ht' Hy). unfold advances in IH.
      destruct (complete_command vfs c' _ _) as [[t''|[]| |] z]; [|done..]. destruct IH as (H1 & k'' & Hk'' & H2 & H3).
      split; [by rewrite H1, part_of_with|]. exists k''. split; [lia|done].
    + unfold step_in, in_part. by rewrite Hact.
    + unfold step_in, in_part. by rewrite Hact.
Qed.

Lemma complete_advances O k m t x :
  task_fits k t -> stage_ok O (k + m) (with_part (k_part t) x) -> advances O k m (complete vfs cancelled_at t) x.
Proof.
  intros Ht Hx. unfold complete. apply advances_bind.
  - destruct (k_state t) as [c|result code errors sinks|o] eqn:Hst; [by apply complete_command_advances| |];
      (unfold advances, sret; split; [done|]; by exists k).
  - intros k' t' x' _ Ht' Hx' _. by apply steps_of_task_advances.
Qed.

(** ** All tasks *)

Definition task_files (t : StageTask W) : gset Z := p_files (k_part t).

(** The counts are those of all tasks together, with room for what each may still
    open and for [m] more. *)
Definition tasks_fit (m : nat) (ts : list (StageTask W)) (x : XState W) : Prop :=
  exists ks, Forall2 task_fits ks ts /\ fits (sum_list ks + m) (task_files <$> ts) (x_fs x).

Lemma fits_stage n F Fs (x : XState W) p :
  p_files p = F -> fits n (F :: Fs) (x_fs x) <-> apart Fs /\ stage_ok (⋃ Fs) n (with_part p x).
Proof.
  intros <-. split; [apply fits_beside|intros [H1 H2]; by apply (beside_fits I Rooms owned)].
Qed.

Lemma insert_Permutation {A} (l : list A) i (a b : A) : l !! i = Some a -> <[i := b]> l ≡ₚ b :: delete i l.
Proof.
  intros Hi. rewrite insert_take_drop by (by eapply lookup_lt_Some). rewrite delete_take_drop.
  symmetry. apply Permutation_middle.
Qed.

(** One task beside the others. *)
Lemma tasks_fit_focus m ts i t x :
  ts !! i = Some t -> tasks_fit m ts x ->
  exists O k M, task_fits k t /\ stage_ok O (k + (M + m)) (with_part (k_part t) x)
    /\ forall k' t' x', task_fits k' t' -> stage_ok O (k' + (M + m)) (with_part (k_part t') x') ->
         tasks_fit m (<[i := t']> ts) x'.
Proof.
  intros Hi (ks & Hks & Hfit). destruct (Forall2_lookup_r _ _ _ _ _ Hks Hi) as (k & Hk & Ht).
  assert (task_files <$> ts ≡ₚ task_files t :: (task_files <$> delete i ts)) as HP
    by (by rewrite (delete_Permutation _ _ _ Hi) at 1).
  apply (fits_perm I Rooms owned limits capacity others_pool _ _ _ _ HP) in Hfit.
  rewrite (sum_list_with_Permutation_proper id _ _ (delete_Permutation _ _ _ Hk)) in Hfit. simpl in Hfit.
  rewrite <- Nat.add_assoc in Hfit. pose proof (proj1 (fits_stage _ _ _ x (k_part t) eq_refl) Hfit) as [Ha Hx].
  exists (⋃ (task_files <$> delete i ts)), k, (sum_list (delete i ks)). split; [done|]. split; [done|].
  intros k' t' x' Ht' Hx'. exists (<[i := k']> ks). split; [by apply Forall2_insert|].
  rewrite (sum_list_with_Permutation_proper id _ _ (insert_Permutation _ _ _ k' Hk)). simpl. rewrite <- Nat.add_assoc.
  eapply fits_perm; [by rewrite (insert_Permutation _ _ _ t' Hi)|]. by apply fits_stage with (p := k_part t').
Qed.

Lemma turn_fits adv m i ts x :
  (forall O k m t x, task_fits k t -> stage_ok O (k + m) (with_part (k_part t) x) -> advances O k m (adv t) x) ->
  tasks_fit m (ts_tasks ts) x ->
  match turn adv i ts x with
  | (Ok ts', x') => part_of x' = part_of x /\ tasks_fit m (ts_tasks ts') x'
  | (Err _, _) => True
  | (Panic, _) | (OutOfFuel, _) => False
  end.
Proof.
  intros Hadv Hts. unfold turn. destruct (ts_tasks ts !! i) as [t|] eqn:Hi; [|done].
  destruct (tasks_fit_focus m _ i t x Hi Hts) as (O & k & M & Ht & Hx & Hput). specialize (Hadv O k (M + m)%nat t x Ht Hx).
  unfold advances in Hadv. destruct (k_state t); [| |done].
  all: unfold sbind; destruct (adv t x) as [[t'|[]| |] x']; [|done..]; destruct Hadv as (H1 & k' & _ & Ht' & Hx').
  all: split; [done|]; by eapply Hput.
Qed.

Lemma take_turns_fits adv m turns ts x :
  (forall O k m t x, task_fits k t -> stage_ok O (k + m) (with_part (k_part t) x) -> advances O k m (adv t) x) ->
  tasks_fit m (ts_tasks ts) x ->
  match take_turns adv turns ts x with
  | (Ok ts', x') => part_of x' = part_of x /\ tasks_fit m (ts_tasks ts') x'
  | (Err _, _) => True
  | (Panic, _) | (OutOfFuel, _) => False
  end.
Proof.
  intros Hadv. revert ts x. induction turns as [|i turns IH]; intros ts x Hts; cbn [take_turns]; [done|].
  unfold sbind. pose proof (turn_fits adv m i ts x Hadv Hts) as H.
  destruct (turn adv i ts x) as [[ts'|[]| |] x']; [|done..]. destruct H as [H1 H2]. specialize (IH ts' x' H2).
  destruct (take_turns adv turns ts' x') as [[ts''|[]| |] x'']; [|done..]. destruct IH as [H3 H4]. split; [congruence|done].
Qed.

Lemma all_ended_fit m ts x :
  tasks_fit m ts x -> (forall i t, ts !! i = Some t -> is_Some (task_end t)) -> fits m [] (x_fs x).
Proof.
  intros (ks & Hks & Hfit) Hend.
  apply (fits_empty I Rooms owned limits capacity others_pool _ [] (task_files <$> ts)).
  - apply Forall_fmap, Forall_forall. intros t [i Hi]%list_elem_of_lookup. simpl.
    destruct (Forall2_lookup_r _ _ _ _ _ Hks Hi) as (k & _ & _ & Hst). destruct (Hend i t Hi) as [e He].
    unfold task_end in He. by destruct (k_state t).
  - rewrite app_nil_r. eapply fits_less; [exact Hr| |exact Hfit]. lia.
Qed.

Lemma run_tasks_fits m turns tasks x :
  tasks_fit m tasks x -> (forall i t, tasks !! i = Some t -> exists c, k_state t = Running c) ->
  match run_tasks vfs cancelled_at turns tasks x with
  | (Ok joined, x') => part_of x' = part_of x /\ length joined = length tasks /\ fits m [] (x_fs x')
  | (Err _, _) => True
  | (Panic, _) | (OutOfFuel, _) => False
  end.
Proof.
  intros Hts Hrun0. destruct (run_tasks vfs cancelled_at turns tasks x) as [o x'] eqn:Hrun.
  assert (forall i t, tasks !! i = Some t -> task_reports (fun _ => True) t /\ task_end t = None) as H0.
  { intros i t Hi. destruct (Hrun0 i t Hi) as [c Hc]. unfold task_reports, task_end. rewrite Hc.
    split; [by apply results_in_any|done]. }
  assert (o <> Panic /\ o <> OutOfFuel) as [Hnp Hnf].
  { revert Hrun. unfold run_tasks, sbind.
    pose proof (take_turns_fits task_step m turns (mkTasks tasks []) x task_step_advances Hts) as H1.
    destruct (take_turns _ turns _ x) as [[ts1|[]| |] x1]; [|done..]. destruct H1 as [_ H1].
    pose proof (take_turns_fits _ m (seq 0 (length tasks)) ts1 x1 complete_advances H1) as H2.
    destruct (take_turns _ (seq 0 (length tasks)) ts1 x1) as [[ts2|[]| |] x2]; [|done..]. by intros [= <- _]. }
  destruct o as [joined|[]| |]; [|done..].
  destruct (run_tasks_ended vfs cancelled_at (fun _ t => task_reports (fun _ => True) t) turns tasks x joined x')
    as (x1 & ts1 & ts2 & H1 & H2 & -> & [_ HJ] & Hlen & Hend).
  - intros i t y t' y' HR Hs. by apply (task_step_ok _ _ _ t y t' y' HR Hs).
  - intros i t y t' y' HR Hs. destruct (complete_ok _ _ _ t y t' y' HR Hs) as (_ & ? & ?). done.
  - exact H0.
  - exact Hrun.
  - pose proof (take_turns_fits task_step m turns (mkTasks tasks []) x task_step_advances Hts) as Hf1. rewrite H1 in Hf1.
    destruct Hf1 as [Hp1 Hf1].
    pose proof (take_turns_fits _ m (seq 0 (length tasks)) ts1 x1 complete_advances Hf1) as Hf2. rewrite H2 in Hf2.
    destruct Hf2 as [Hp2 Hf2]. split; [congruence|].
    split; [by rewrite HJ, <- (Forall2_length _ _ _ (ends_of _ Hend))|].
    by apply (all_ended_fit m (ts_tasks ts2)).
Qed.

(** ** Preparing *)

Lemma on_redirects_wp {A} (m : ST (RState W) (str * Errno) A) (P : FsState W -> Prop) x :
  wp m (x_red x) (fun _ r => P (r_fs r)) (fun _ r => P (r_fs r)) ->
  wp (on_redirects m) x (fun o x' => returns o /\ P (x_fs x')) (fun _ _ => False).
Proof. unfold wp, on_redirects. by destruct (m (x_red x)) as [[] ?]. Qed.

Definition stage_files (stage : PreparedStage W) : gset Z := p_files (sg_part stage).

Lemma fits_ticked n Fs f f' : ticked f f' -> fits n Fs f -> fits n Fs f'.
Proof.
  intros (H1 & H2 & H3 & H4) [Ha Hf]. split; [done|].
  eapply (ticked_rooms I Rooms owned); [|exact Hf]. by repeat split.
Qed.

Lemma prepare_stage_fits c se last n Fs x :
  fits (length (redirects (syntax c)) + n) Fs (x_fs x) ->
  match prepare_stage vfs registered limits capacity cancelled_at c se last x with
  | (Ok stage, x') => part_of x' = part_of x /\ stage_named stage /\ fits n (stage_files stage :: Fs) (x_fs x')
  | (Err _, _) => True
  | (Panic, _) | (OutOfFuel, _) => False
  end.
Proof.
  intros H. apply (fits_empty I Rooms owned limits capacity others_pool _ Fs [∅]) in H; [|by repeat constructor].
  apply (fits_stage _ _ _ x fresh_part eq_refl) in H as [Ha H]. unfold prepare_stage. cbv zeta.
  pose proof (in_part_spec _ _ _ (fun _ => False) _ (ends_wp _ _ _ _ (on_redirects_wp _ _ _
    (prepare_keeps (inv_beside I owned (⋃ Fs)) Room Rooms (owned_beside owned (⋃ Fs)) vfs registered limits capacity
      cancelled_at (others_pool + Z.of_nat (size (⋃ Fs))) (Z.of_nat (size (⋃ Fs))) ltac:(lia) ltac:(lia) Hcap Hmax
      (s_cwd se) (syntax c) (targets c) n _ H)))) as Hs.
  destruct (in_part fresh_part _ x) as [[[[reds|e| |]|[]| |] p] y]; destruct Hs as [H1 H2]; try done.
  all: destruct H2 as [[] H2].
  all: split; [done|]; split; [by first [by right|by left]|].
  all: by apply (fits_stage _ _ _ y p eq_refl).
Qed.

Lemma drop_stages_fits stages m x :
  fits m (stage_files <$> stages) (x_fs x) ->
  match drop_stages vfs stages x with
  | (Ok _, x') => part_of x' = part_of x /\ fits m [] (x_fs x')
  | _ => False
  end.
Proof.
  revert x. induction stages as [|stage stages IH]; intros x H; cbn [drop_stages]; [done|].
  apply (fits_stage _ _ _ x (sg_part stage) eq_refl) in H as [Ha H]. apply drop_stage in H.
  destruct (in_part (sg_part stage) (drop_registry vfs) x) as [[o p] y]. destruct H as (H1 & -> & H2 & H3).
  assert (fits m (stage_files <$> stages) (x_fs y)) as Hy.
  { apply (fits_empty I Rooms owned limits capacity others_pool _ (stage_files <$> stages) [∅]); [by repeat constructor|].
    by apply (fits_stage _ _ _ y p). }
  specialize (IH y Hy). destruct (drop_stages vfs stages y) as [[[]|[]| |] z]; [|done..]. destruct IH. split; [congruence|done].
Qed.

(** Between two commands, with stages that hold files: [exec_ok] but for these. *)
Record stages_fit (n : nat) (Fs : list (gset Z)) (s : ExecState W) : Prop := {
  sf_fits : fits n Fs (x_fs (e_streams s));
  sf_closed : closed (e_streams s);
  sf_count : 0 <= e_command_count s <= max_commands limits;
  sf_timings : len (e_timings s) <= e_command_count s
}.

Abbreviation exec_ok := (exec_ok I Rooms owned limits capacity others_pool).

Lemma exec_ok_fits n s : exec_ok n s <-> stages_fit n [] s.
Proof.
  assert (closed (e_streams s) -> set_fs_files ∅ (x_fs (e_streams s)) = x_fs (e_streams s)) as Hc.
  { intros H. unfold closed in H. rewrite <- H. apply set_files_same. }
  split; intros [H1 H2 H3 H4]; (constructor; [|done..]).
  - apply fits_none. unfold streams_ok in H1. by rewrite Hc.
  - apply fits_none in H1. rewrite Hc in H1 by done. exact H1.
Qed.

Lemma closed_same (x x' : XState W) : part_of x' = part_of x -> closed x -> closed x'.
Proof. unfold closed. intros H. by rewrite (f_equal p_files H : fs_files (x_fs x') = fs_files (x_fs x)). Qed.

Lemma stages_fit_streams n m Fs Gs s x :
  stages_fit n Fs s -> part_of x = part_of (e_streams s) -> fits m Gs (x_fs x) -> stages_fit m Gs (set_streams x s).
Proof. intros [H1 H2 H3 H4] Hx Hf. constructor; [done|by eapply closed_same|done..]. Qed.

Lemma cancelled_fits n Fs s :
  stages_fit n Fs s ->
  safely (exec_cancelled cancelled_at) s (fun _ s' => stages_fit n Fs s' /\ exists x, s' = set_streams x s) (fun _ _ => False).
Proof.
  intros H. unfold exec_cancelled, ends, sbind, on_streams, x_on_fs, sbind, x_try_fs, control_is_cancelled. simpl.
  split; [|eauto]. eapply stages_fit_streams; [exact H|done|]. by eapply fits_ticked; [|apply H].
Qed.

Lemma opens_cons K c cs :
  sum_over (command_opens K) (syntax <$> c :: cs)
  = (length (redirects (syntax c)) + K + sum_over (command_opens K) (syntax <$> cs))%nat.
Proof. done. Qed.

(** The loop that prepares the stages. *)
Lemma prepare_loop_fits K cs stages n s :
  stages_fit (length stages * K + (sum_over (command_opens K) (syntax <$> cs) + n)) (stage_files <$> stages) s ->
  Forall stage_named stages ->
  safely (prepare_loop vfs registered limits capacity cancelled_at cs stages) s
    (fun r s' => e_command_count s' = e_command_count s
       /\ match r with
          | inl all => stages_fit (length all * K + n) (stage_files <$> all) s' /\ Forall stage_named all
                       /\ length all = (length stages + length cs)%nat
          | inr _ => stages_fit n [] s'
          end) (fun _ _ => False).
Proof.
  revert stages s. induction cs as [|c cs IH]; intros stages s H Hn; cbn [prepare_loop].
  - ends_step. split; [done|]. split; [done|]. split; [done|]. simpl. lia.
  - ends_step. eapply ends_mono; [by apply cancelled_fits| |done]. intros cancelled s1 [H1 [x ->]]. destruct cancelled.
    + pose proof (sf_fits _ _ _ H1) as Hf. apply drop_stages_fits in Hf. ends_step. unfold ends, on_streams.
      destruct (drop_stages vfs stages _) as [[a|[]| |] y]; [|done..]. destruct Hf as [Hy Hf].
      assert (stages_fit (length stages * K + (sum_over (command_opens K) (syntax <$> c :: cs) + n)) []
                (set_streams y (set_streams x s))) as Hs by (by eapply stages_fit_streams).
      split; [done|]. destruct Hs as [G1 G2 G3 G4]. constructor; [|done..].
      eapply fits_less; [exact Hr| |exact G1]. lia.
    + do 2 ends_step. pose proof (sf_fits _ _ _ H1) as Hf.
      assert (fits (length (redirects (syntax c)) + (S (length stages) * K + (sum_over (command_opens K) (syntax <$> cs) + n)))
                (stage_files <$> stages) (x_fs (e_streams (set_streams x s)))) as Hf'
        by (eapply fits_less; [exact Hr| |exact Hf]; rewrite opens_cons, Nat.mul_succ_l; lia).
      apply (prepare_stage_fits c (e_session (set_streams x s)) (e_last_status (set_streams x s))) in Hf'.
      ends_step. unfold ends, on_streams.
      destruct (prepare_stage _ _ _ _ _ c _ _ _) as [[stage|[]| |] y]; [|done..]. destruct Hf' as (Hy & Hst & Hf').
      assert (stages_fit (length (stages ++ [stage]) * K + (sum_over (command_opens K) (syntax <$> cs) + n))
                (stage_files <$> stages ++ [stage]) (set_streams y (set_streams x s))) as Hs.
      { eapply stages_fit_streams; [exact H1|done|]. rewrite length_app, Nat.add_1_r, fmap_app.
        eapply fits_perm; [|exact Hf']. apply Permutation_cons_append. }
      specialize (IH _ _ Hs ltac:(apply Forall_app; split; [done|by apply Forall_singleton])).
      eapply ends_mono; [exact IH| |done]. intros r s' [Hc Hr']. split; [done|]. destruct r; [|done].
      destruct Hr' as (Hs1 & Hn1 & Hl). split; [done|]. split; [done|]. rewrite Hl, length_app. simpl. lia.
Qed.

(** ** Running and reporting *)

Lemma spawn_fits rt total K stages m (x : XState W) :
  stages_commands_ok K -> Forall stage_named stages ->
  fits (length stages * K + m) (stage_files <$> stages) (x_fs x) ->
  tasks_fit m (imap (spawn vfs registered limits capacity cancelled_at in_steps rt total) stages) x.
Proof.
  intros HK Hn Hf. exists (replicate (length stages) K). split.
  - apply Forall2_same_length_lookup_2; [by rewrite length_replicate, length_imap|]. intros i k t Hk Ht.
    apply lookup_replicate in Hk as [-> _]. apply list_lookup_imap_Some in Ht as (stage & Hi & ->).
    pose proof (Forall_lookup_1 _ _ _ _ Hn Hi) as Hst. unfold spawn, task_fits.
    destruct (writer_for_destination (r_stdout _) _) as [stdout sinks1], (writer_for_destination (r_stderr _) _) as [stderr sinks2].
    split; [done|]. by apply stage_command_ok.
  - rewrite sum_list_replicate. rewrite fmap_imap. replace (imap _ stages) with (stage_files <$> stages); [done|].
    rewrite <- imap_const. apply imap_ext. intros i stage _. unfold spawn, compose. simpl.
    by destruct (writer_for_destination (r_stdout _) _), (writer_for_destination (r_stderr _) _).
Qed.

Lemma spawn_running rt total (stages : list (PreparedStage W)) i t :
  imap (spawn vfs registered limits capacity cancelled_at in_steps rt total) stages !! i = Some t ->
  exists c, k_state t = Running c.
Proof.
  intros (stage & _ & ->)%list_lookup_imap_Some. unfold spawn.
  destruct (writer_for_destination (r_stdout _) _), (writer_for_destination (r_stderr _) _). by eexists.
Qed.

Abbreviation run_joined := (run_joined vfs registered limits capacity cancelled_at in_steps).

Lemma run_joined_fits rt K stages m x :
  stages_commands_ok K -> Forall stage_named stages ->
  fits (length stages * K + m) (stage_files <$> stages) (x_fs x) ->
  match run_joined rt stages x with
  | (Ok (joined, pipes), x') => part_of x' = part_of x /\ length joined = length stages /\ fits m [] (x_fs x')
  | (Err _, _) => True
  | (Panic, _) | (OutOfFuel, _) => False
  end.
Proof.
  intros HK Hn Hf. unfold Pipeline.run_joined. unfold sbind at 1, sget at 1. unfold sbind at 1, sput at 1.
  set (y := set_x_pipes _ x). apply (spawn_fits rt (length stages) K stages m y HK Hn) in Hf.
  pose proof (run_tasks_fits m (schedule rt) _ y Hf (spawn_running rt (length stages) stages)) as Hrun. unfold sbind.
  destruct (run_tasks vfs cancelled_at _ _ y) as [[joined|[]| |] z]; [|done..]. by rewrite length_imap in Hrun.
Qed.

Lemma write_stderr_streams text (s : ExecState W) :
  safely (write_stderr text) s (fun _ s' => exists x, s' = set_streams x s /\ x_red x = x_red (e_streams s)
                                              /\ part_of x = part_of (e_streams s)) (fun _ _ => False).
Proof.
  unfold write_stderr. ends_step. unfold ends, on_streams.
  assert (ends (fun _ => True) (report text) (e_streams s)
            (fun _ x => x_red x = x_red (e_streams s) /\ part_of x = part_of (e_streams s)) (fun _ _ => False)) as H.
  { unfold report, ignoring, capture_write, sbind, sget, ends.
    pose proof (capped_write_ends (encode text) (capture Stderr (e_streams s))). by destruct (capped_write _ _). }
  unfold ends in H. destruct (report text (e_streams s)) as [[[]|[]| |] x]; [|done..]. simpl. exists x. by destruct H.
Qed.

Lemma write_errors_fits errors n s :
  stages_fit n [] s ->
  safely (write_errors errors) s (fun _ s' => stages_fit n [] s' /\ e_command_count s' = e_command_count s
                                              /\ e_timings s' = e_timings s) (fun _ _ => False).
Proof.
  revert s. induction errors as [|error errors IH]; intros s H; cbn [write_errors]; [done|]. ends_step.
  eapply ends_mono; [by apply write_stderr_streams| |done]. intros [] s1 (x & -> & Hx & Hpart).
  assert (stages_fit n [] (set_streams x s)) as H1.
  { eapply stages_fit_streams; [done..|]. unfold x_fs. rewrite Hx. apply H. }
  eapply ends_mono; [by apply IH| |done]. by intros ? s2.
Qed.

Lemma report_outcomes_fits outcomes status n s :
  stages_fit n [] s -> len (e_timings s) + len outcomes <= e_command_count s ->
  safely (report_outcomes outcomes status) s (fun _ s' => stages_fit n [] s') (fun _ _ => False).
Proof.
  revert status s. induction outcomes as [|o outcomes IH]; intros status s H Hlen; cbn [report_outcomes]; [done|].
  ends_step. eapply ends_mono; [by apply write_errors_fits| |done]. intros [] s1 (H1 & Hc & Ht). do 4 ends_step.
  assert (len (o :: outcomes) = 1 + len outcomes) as Hl by (unfold len; simpl; lia). pose proof (len_nonneg outcomes).
  assert (len (e_timings (note_outcome o s1)) <= 1 + len (e_timings s)) as Ht'.
  { simpl. rewrite Ht. destruct (o_counts o); [|lia]. rewrite len_app. unfold len at 2. simpl. lia. }
  apply IH; [|simpl in *; lia]. destruct H1 as [G1 G2 G3 G4]. constructor; [done..|]. simpl in *. lia.
Qed.

Lemma collect_length total joined : length (collect join_error total joined) = total.
Proof.
  unfold collect. rewrite <- (length_replicate total (None (A := StageOutcome))) at 2.
  generalize (replicate total (None (A := StageOutcome))). induction joined as [|r joined IH]; intros l; simpl; [done|].
  rewrite IH. apply length_insert.
Qed.

Lemma length_omap_le {A B} (f : A -> option B) l : (length (omap f l) <= length l)%nat.
Proof. induction l as [|a l IH]; simpl; [done|]. destruct (f a); [by apply le_n_S, IH|by apply le_S, IH]. Qed.

(** The hypothesis of the engine about pipelines: what they took is given back. *)
Lemma exec_stages_ok K :
  stages_commands_ok K ->
  stages_ok I Rooms owned limits capacity others_pool
    (exec_stages vfs registered limits capacity cancelled_at in_steps runtime join_error) K.
Proof.
  intros HK cs n s _ Hmax' Hs. unfold exec_stages. ends_step. apply exec_ok_fits in Hs.
  eapply ends_mono; [apply (prepare_loop_fits K cs [] n s Hs); constructor| |done].
  intros r s1 [Hc Hr']. destruct r as [stages|status]; [|ends_step; by apply exec_ok_fits].
  destruct Hr' as (H1 & Hn & Hlen). simpl in Hlen. do 4 ends_step. unfold run_pipeline_stages.
  assert (len stages = len cs) as Hl by (unfold len; by rewrite Hlen). pose proof (len_nonneg stages).
  assert (stages_fit (length stages * K + n) (stage_files <$> stages) (set_count (e_command_count s1 + len stages) s1)) as H2.
  { destruct H1 as [G1 G2 G3 G4]. constructor; [done|done|simpl; lia|simpl; lia]. }
  set (s2 := set_count _ s1) in *. destruct (bool_decide (length stages = 0%nat)) eqn:Hz.
  { unbool. destruct stages; [|done]. ends_step. by apply exec_ok_fits. }
  do 2 ends_step. pose proof (run_joined_fits (runtime (e_command_count s2)) K stages n _ HK Hn (sf_fits _ _ _ H2)) as Hrun.
  ends_step. unfold ends at 1, on_streams.
  destruct (run_joined _ stages (e_streams s2)) as [[[joined pipes]|[]| |] y]; [|done..]. destruct Hrun as (Hy & Hj & Hf).
  assert (stages_fit n [] (set_streams y s2)) as H3 by (by eapply stages_fit_streams).
  ends_step. eapply ends_mono; [apply (report_outcomes_fits _ 0 n _ H3)| |done].
  - pose proof (length_omap_le id (collect join_error (length stages) joined)) as Hle. rewrite collect_length in Hle.
    pose proof (sf_timings _ _ _ H1). unfold len in *. simpl in *. lia.
  - intros status s3 H4. ends_steps. apply exec_ok_fits. by destruct H4.
Qed.
End pipeline.

(** ** What a pipeline reports *)

Lemma all_outcomes (ends : list (option StageOutcome)) : None ∉ ends -> exists outcomes, ends = Some <$> outcomes.
Proof.
  induction ends as [|[o|] ends IH]; intros Hn; [by exists []| |by destruct Hn; left].
  destruct IH as [outcomes ->]; [by intros H; apply Hn; right|]. by exists (o :: outcomes).
Qed.

Lemma omap_some {A} (l : list A) : omap id (Some <$> l) = l.
Proof. induction l as [|a l IH]; [done|]. cbn. by f_equal. Qed.

Section reports.
Context {W : Type}.
Context (vfs : Vfs W) (registered : list (str * RegisteredCommand W)) (limits : Limits) (capacity : Z)
  (cancelled_at : nat -> bool).
Context (in_steps : Handler W -> Fs W -> CommandContext -> Steps (XState W) CommandResult).
Context (runtime : Z -> Runtime) (join_error : str).

Abbreviation spawn := (spawn vfs registered limits capacity cancelled_at in_steps).
Abbreviation run_joined := (run_joined vfs registered limits capacity cancelled_at in_steps).

(** What the command of a stage may return. *)
Definition stage_result (stage : PreparedStage W) (r : CommandResult) : Prop :=
  match sg_kind stage with
  | FailedStage _ => r = result_new 1
  | AssignmentOnly => r = result_new 0
  | CommandStage =>
      match sg_command stage with
      | None => r = result_new 127
      | Some (ShellCommand _) => peak_wasm_memory_bytes r = None
      | Some (Registered _) => True
      end
  end.

(** The outcome of the [index]-th of [total] stages: 1 if a redirect failed, 141
    for a failure with a pipe that was cut off, otherwise the code of the command. *)
Definition outcome_of (total index : nat) (stage : PreparedStage W) (o : StageOutcome) : Prop :=
  o_index o = index /\ o_timing o = mkTiming (sg_name stage) (o_exit_code o) /\ o_counts o = sg_counts stage
  /\ exists r, stage_result stage r /\ o_peak o = peak_wasm_memory_bytes r
     /\ (o_exit_code o = code_of r (o_redirect_errors o)
         \/ (o_exit_code o = 141 /\ o_redirect_errors o = [] /\ exit_code r <> 0 /\ (S index < total)%nat)).

Lemma stage_command_results stage fs stdout stderr :
  results_in (stage_result stage) (stage_command vfs registered limits cancelled_at in_steps stage fs stdout stderr).
Proof.
  unfold stage_command, run_registered_stage, stage_result.
  assert (forall text code, results_in (fun r => r = result_new code)
            (Does (let! _ := ignoring (write_text fs stderr text) in sret (Returns (result_new code))))) as Hsay.
  { intros text code. simpl. intros x. unfold sbind. by destruct (ignoring _ x) as [[]]. }
  destruct (sg_kind stage) as [| |message]; [|done|apply Hsay].
  destruct (sg_command stage) as [[run|b]|]; [by apply results_in_any| |apply Hsay].
  simpl. intros x. unfold sbind. destruct (run_builtin _ _ _ _ _ _ _ _ _ x) as [[[[[status se] out] err]|[]| |] x1]; try done.
  simpl. intros y. destruct (attempt _ y) as [[[]|[]| |] y1]; try done; simpl.
  all: intros z; by destruct (attempt _ z) as [[[]|[]| |] z1].
Qed.

Lemma spawn_reports rt total index stage :
  task_reports (stage_result stage) (spawn rt total index stage) /\ task_end (spawn rt total index stage) = None
  /\ k_index (spawn rt total index stage) = index /\ k_name (spawn rt total index stage) = sg_name stage
  /\ k_counts (spawn rt total index stage) = sg_counts stage
  /\ (is_Some (k_broken (spawn rt total index stage)) -> (S index < total)%nat).
Proof.
  unfold Pipeline.spawn, task_reports, task_end.
  destruct (writer_for_destination (r_stdout _) _) as [stdout sinks1] eqn:H1.
  destruct (writer_for_destination (r_stderr _) _) as [stderr sinks2] eqn:H2. simpl.
  split; [apply stage_command_results|]. do 4 (split; [done|]). intros Hb.
  destruct (S index <? total)%nat eqn:Hlt; [by apply Nat.ltb_lt|]. exfalso.
  destruct (r_stdout (sg_redirects stage)) as [[]|]; simpl in H1; injection H1 as <- <-;
    destruct (r_stderr (sg_redirects stage)) as [[]|]; simpl in H2; injection H2 as <- <-; by destruct Hb.
Qed.

(** The task of a stage, at the end. *)
Lemma ended_outcome total index stage rt t o :
  kin (spawn rt total index stage) t -> task_reports (stage_result stage) t -> task_end t = Some (Some o) ->
  outcome_of total index stage o.
Proof.
  intros Hk Ht He. destruct (spawn_reports rt total index stage) as (_ & _ & H1 & H2 & H3 & H4).
  unfold task_reports, task_end in *. destruct (k_state t) as [| |oo]; try done. injection He as ->.
  destruct Ht as (r & errors & broken & HP & Hb & ->). rewrite Hk in *. unfold outcome_of, stage_outcome. simpl in *.
  rewrite H2. split; [done|]. split; [done|]. split; [done|]. exists r. split; [done|]. split; [done|].
  destruct (bool_decide (errors = [])) eqn:Herr; unbool; [|by left].
  destruct (code_of r errors =? 0) eqn:Hc; [by left|]. destruct broken; [|by left]. right. unbool. subst.
  unfold code_of in Hc. rewrite bool_decide_true in Hc by done. split_and!; try done. by apply H4, Hb.
Qed.

(** The results joined are those of the stages, in some order. *)
Lemma run_joined_results rt stages x joined pipes x' :
  run_joined rt stages x = (Ok (joined, pipes), x') ->
  exists ends, joined ≡ₚ ends /\ length ends = length stages
    /\ forall i o, ends !! i = Some (Some o) -> exists stage, stages !! i = Some stage /\ outcome_of (length stages) i stage o.
Proof.
  unfold Pipeline.run_joined. unfold sbind at 1, sget at 1. unfold sbind at 1, sput at 1. unfold sbind. intros Hrun.
  set (tasks := imap (spawn rt (length stages)) stages) in *. set (y := set_x_pipes _ x) in *.
  destruct (run_tasks vfs cancelled_at _ tasks y) as [[joined'|[]| |] z] eqn:Htasks; [|done..]. injection Hrun as <- _ _.
  set (R := fun i t => exists stage, stages !! i = Some stage /\ kin (spawn rt (length stages) i stage) t
                                     /\ task_reports (stage_result stage) t).
  destruct (run_tasks_ended vfs cancelled_at R (schedule rt) tasks y joined' z) as (x1 & ts1 & ts2 & _ & _ & -> & [HR HJ] & Hlen & Hend).
  - intros i t u t' u' (stage & Hi & Hk & Ht) Hs. destruct (task_step_ok _ _ _ t u t' u' Ht Hs) as (Hk' & Ht' & _).
    exists stage. split; [done|]. split; [by eapply kin_trans|done].
  - intros i t u t' u' (stage & Hi & Hk & Ht) Hs. destruct (complete_ok _ _ _ t u t' u' Ht Hs) as (Hk' & Ht' & He).
    split; [|done]. exists stage. split; [done|]. split; [by eapply kin_trans|done].
  - intros i t (stage & Hi & ->)%list_lookup_imap_Some. destruct (spawn_reports rt (length stages) i stage) as (H1 & H2 & _).
    split; [|done]. exists stage. split; [done|]. split; [apply kin_refl|done].
  - exact Htasks.
  - exists (omap task_end (ts_tasks ts2)). pose proof (ends_of _ Hend) as Hends. split; [done|]. split.
    + rewrite <- (Forall2_length _ _ _ Hends), Hlen. apply length_imap.
    + intros i o Ho. destruct (Forall2_lookup_r _ _ _ _ _ Hends Ho) as (t & Hi & Ht).
      destruct (HR i t Hi) as (stage & Hst & Hk & Hrep). exists stage. split; [done|]. by eapply ended_outcome.
Qed.

Definition index_of (r : option StageOutcome) : nat := o_index (default (task_failed join_error) r).

Lemma collect_other joined l j :
  j ∉ (index_of <$> joined) ->
  foldl (record_outcome join_error) l joined !! j = l !! j.
Proof.
  revert l. induction joined as [|r joined IH]; intros l Hj; [done|]. simpl. apply not_elem_of_cons in Hj as [Hne Hj].
  rewrite (IH _ Hj). apply list_lookup_insert_ne. intros Heq. by apply Hne.
Qed.

Lemma collect_in joined l o :
  Some o ∈ joined -> NoDup (index_of <$> joined) -> (o_index o < length l)%nat ->
  foldl (record_outcome join_error) l joined !! o_index o = Some (Some o).
Proof.
  revert l. induction joined as [|r joined IH]; intros l Hin Hnd Hlt; [by apply not_elem_of_nil in Hin|].
  apply NoDup_cons in Hnd as [Hn Hnd]. simpl. apply elem_of_cons in Hin as [<-|Hin].
  - simpl. rewrite collect_other by exact Hn. by apply list_lookup_insert_eq.
  - apply IH; [done|done|by (unfold record_outcome; rewrite length_insert)].
Qed.

(** Outcomes are recorded in the order of the stages, however they were joined. *)
Lemma collect_in_order joined outs :
  joined ≡ₚ Some <$> outs -> (forall i o, outs !! i = Some o -> o_index o = i) ->
  collect join_error (length outs) joined = Some <$> outs.
Proof.
  intros HP Hidx.
  assert (index_of <$> (Some <$> outs) = seq 0 (length outs)) as Hseq.
  { apply list_eq. intros i. rewrite !list_lookup_fmap. destruct (outs !! i) as [o|] eqn:Ho; simpl.
    - unfold index_of. simpl. rewrite (Hidx i o Ho). symmetry. apply lookup_seq_lt. by eapply lookup_lt_Some.
    - symmetry. apply lookup_seq_ge. by apply lookup_ge_None. }
  assert (NoDup (index_of <$> joined)) as Hnd by (rewrite HP, Hseq; apply NoDup_seq).
  apply list_eq. intros i. rewrite list_lookup_fmap. destruct (outs !! i) as [o|] eqn:Ho; simpl.
  - rewrite <- (Hidx i o Ho). apply collect_in; [|done|].
    + rewrite HP. apply list_elem_of_fmap. exists o. split; [done|]. by eapply list_elem_of_lookup_2.
    + rewrite length_replicate, (Hidx i o Ho). by eapply lookup_lt_Some.
  - apply lookup_ge_None. rewrite collect_length. by apply lookup_ge_None.
Qed.

Lemma write_errors_streams errors (s s' : ExecState W) :
  write_errors errors s = (Ok tt, s') -> s' = set_streams (e_streams s') s.
Proof.
  revert s. induction errors as [|error errors IH]; intros s; cbn [write_errors].
  - intros [= <-]. by destruct s.
  - unfold sbind. destruct (write_stderr error s) as [[[]|[]| |] s1] eqn:Hw; [|done..]. intros H%IH.
    pose proof (write_stderr_streams error s) as Hs. unfold ends in Hs. rewrite Hw in Hs. destruct Hs as (x & -> & _).
    rewrite H. by destruct s'.
Qed.

Lemma write_errors_app errors errors' (s s' : ExecState W) :
  write_errors errors s = (Ok tt, s') -> write_errors (errors ++ errors') s = write_errors errors' s'.
Proof.
  revert s. induction errors as [|error errors IH]; intros s; cbn [write_errors app]; [by intros [= <-]|].
  unfold sbind. destruct (write_stderr error s) as [[[]|[]| |] s1]; [|done..]. apply IH.
Qed.

(** Writing to stderr looks at the streams alone. *)
Lemma write_errors_stable errors (s s' u : ExecState W) :
  write_errors errors s = (Ok tt, s') -> e_streams u = e_streams s ->
  write_errors errors u = (Ok tt, set_streams (e_streams s') u).
Proof.
  revert s u. induction errors as [|error errors IH]; intros s u; cbn [write_errors].
  - intros [= <-] <-. by destruct u.
  - unfold sbind at 1 2, write_stderr at 1 2, on_streams, sbind. intros H Hu. rewrite Hu.
    destruct (report error (e_streams s)) as [[[]|[]| |] x]; [|done..]. simpl in *.
    by rewrite (IH _ (set_streams x u) H eq_refl).
Qed.

(** What the loop over the outcomes does: errors in order, the last code, a timing
    for each that counts. *)
Lemma report_outcomes_spec outcomes status (s s' : ExecState W) code :
  report_outcomes outcomes status s = (Ok code, s') ->
  code = default status (o_exit_code <$> last outcomes)
  /\ e_timings s' = e_timings s ++ (o_timing <$> filter (fun o => o_counts o = true) outcomes)
  /\ e_pipe_bytes s' = e_pipe_bytes s
  /\ write_errors (outcomes ≫= o_redirect_errors) s = (Ok tt, set_streams (e_streams s') s).
Proof.
  revert status s. induction outcomes as [|o outcomes IH]; intros status s; cbn [report_outcomes].
  - intros [= <- <-]. rewrite app_nil_r. split_and!; try done. by destruct s.
  - unfold sbind at 1. destruct (write_errors (o_redirect_errors o) s) as [[[]|[]| |] s1] eqn:Hw; [|done..].
    unfold sbind at 1, sget at 1. unfold sbind at 1, sput at 1. intros (-> & Ht & Hb & He)%IH.
    pose proof (write_errors_streams _ _ _ Hw) as Hs1. split_and!.
    + rewrite last_cons. by destruct (last outcomes).
    + rewrite Ht. simpl. rewrite Hs1. simpl. destruct (o_counts o) eqn:Ho.
      * rewrite filter_cons_True by done. simpl. by rewrite <- app_assoc.
      * by rewrite filter_cons_False by (by rewrite Ho).
    + rewrite Hb, Hs1. done.
    + cbn [mbind list_bind]. rewrite (write_errors_app _ _ _ _ Hw).
      rewrite (write_errors_stable _ _ _ s1 He eq_refl). by rewrite Hs1.
Qed.
End reports.
