(* ===== verification/ExecSpec.v ===== *)
(** * Properties of the execution engine *)

From Stdlib Require Import Ascii String.
From S2P Require Import Prelude RustStr BTreeMap ShellSyntax ShellParse Expansion VfsTypes VfsIface MountVfs MountFacts MemVfs MemVfsInv MemMount VfsSpec.
From S2P Require Import SandboxFs SandboxFsFacts Redirects Output ShellBuiltins SandboxSpec Utf8 Streams LineReader StreamFacts.
From S2P Require Import TextLines TextSort Exec ExecFacts Pipeline PipelineFacts.

#[local] Open Scope Z_scope.

(** ** A sandbox that runs *)

(** A builtin of builtins.rs as a registered command; [fuel] bounds its loops. *)
Definition text_command {W} (body : Fs W -> BoxAsyncWrite -> BoxAsyncWrite -> nat -> list str -> ST (XState W) IoError Z)
    (fuel : nat) : Handler W :=
  fun fs ctx x =>
    match body fs (ctx_stdout ctx) (ctx_stderr ctx) fuel (ctx_args ctx) x with
    | (Ok code, x') => (Ok (result_new code), x')
    | (Err _, x') | (Panic, x') => (Panic, x')
    | (OutOfFuel, x') => (OutOfFuel, x')
    end.

Definition demo_commands : list (str * RegisteredCommand (MState Backends)) :=
  let text body := Registered (text_command body 100) in
  [(lit "cat", text cat); (lit "cd", ShellCommand Cd); (lit "export", ShellCommand Export);
   (lit "head", text (fun fs out err fuel => head_tail fs out err fuel true));
   (lit "sort", text (fun fs out err _ => sort fs out err));
   (lit "tail", text (fun fs out err fuel => head_tail fs out err fuel false));
   (lit "uniq", text uniq); (lit "unset", ShellCommand Unset); (lit "wc", text wc)].

Definition demo_sandbox : SandboxState (MState Backends) :=
  mkSandbox (fs_world demo_fs) 0 (mkSession (lit "/tmp") [(lit "PWD", lit "/tmp")] 0) 0.

Definition demo_exec (persist : bool) (input : str) :=
  exec 24 24 100 demo_vfs demo_commands default_limits 4 (fun _ => false) (fun _ => sret 1) persist false input.

(** The engine with its builtins, run: redirects, lists, the session, failures. *)
Definition demo_program : str :=
  lit "export > a && export A=1 && export B=two >> a; export > b && sort -r < b > c 2>&1; tail -n 2 c;"
  ++ lit " wc -l a || cat a; cd nowhere || nothing; cd / && head -n 1 tmp/c".

Example demo_run :
  let '(r, sb) := demo_exec true demo_program demo_sandbox in
  match r with
  | Ok result =>
      res_stdout result = declare_line (lit "B", lit "two") ++ declare_line (lit "A", lit "1")
        ++ lit "1 a" ++ line_end ++ declare_line (lit "PWD", lit "/tmp")
      /\ res_stderr result = lit "cd: nowhere: No such file or directory" ++ line_end
        ++ lit "nothing: command not found" ++ line_end
      /\ res_exit_code result = 0 /\ s_cwd (sb_session sb) = lit "/" /\ sb_commands_run sb = 11 /\ sb_pool sb = 0
  | _ => False
  end.
Proof. vm_compute. auto 10. Qed.

(** An execution ends, if its pipelines do.  For every input, whatever
    the registered commands do within the facade, the execution runs out of no
    loop; unless something panics (a command, or the byte count of a capture at
    [usize::MAX]) it returns a result, with no file left open or admitted, the
    VFS in order, no more commands timed than allowed, and the session of the
    sandbox as it was unless it is to persist. *)
Theorem execution_ends_if_pipelines_do {W} (I Room : W -> Prop) Rooms owned (vfs : Vfs W) sz sv se registered limits
    capacity cancelled_at others_pool run_pipeline_stages K persist cancelled input n sb :
  FdLaws I Room owned vfs -> RoomLaws I Room Rooms vfs ->
  0 <= others_pool <= capacity -> capacity <= USIZE_MAX -> 0 <= max_open_files limits <= USIZE_MAX ->
  0 <= max_commands limits ->
  commands_ok I Rooms owned vfs registered limits capacity cancelled_at others_pool 0 K ->
  stages_ok I Rooms owned limits capacity others_pool run_pipeline_stages K ->
  sandbox_ok I Rooms others_pool n sb ->
  (forall program, parse input = Ok program -> Rooms (program_opens K (lists program) + n)%nat (sb_world sb)) ->
  safely (exec sz sv se vfs registered limits capacity cancelled_at run_pipeline_stages persist cancelled input) sb
    (fun result sb' => sandbox_ok I Rooms others_pool n sb' /\ len (res_commands result) <= max_commands limits
                       /\ kept persist sb sb')
    (fun _ _ => False).
Proof.
  intros Hv Hr Hp Hc Hf Hm HK HS (HI & HR & Hsb) Hrooms. unfold exec. ends_step.
  eapply ends_mono; [apply (exec_inner_ends I Room Rooms owned vfs sz sv se registered limits capacity cancelled_at
    others_pool (proj1 Hp) Hc (proj2 Hf) run_pipeline_stages (proj2 Hp) (proj1 Hf) Hm K persist input n sb); done| |done].
  intros result sb' (Hok & Hlen & Hkept). destruct cancelled; (split; [done|split; [|done]]); [|done].
  by change (len (res_commands (nothing_run _ _))) with 0.
Qed.

Definition demo_true : list (str * RegisteredCommand (MState Backends)) :=
  [(lit "true", Registered (fun _ _ => sret (result_new 0)))].

Lemma execution_ends_if_pipelines_do_witness :
  safely (exec 24 24 100 demo_vfs demo_true default_limits 4 (fun n => (9 <? n)%nat) (fun _ => sret 1) false false
            (lit "true > /tmp/a && true || nothing < /tmp/a")) demo_sandbox
    (fun result sb' => sandbox_ok demo_world_inv (MRooms BackendsRooms) 0 0 sb' /\ len (res_commands result) <= 1024
                       /\ kept false demo_sandbox sb')
    (fun _ _ => False).
Proof.
  apply (execution_ends_if_pipelines_do demo_world_inv (MRoom BackendsRoom) (MRooms BackendsRooms) mount_owned demo_vfs
    24 24 100 demo_true default_limits 4 (fun n => (9 <? n)%nat) 0 (fun _ => sret 1) 0 false false).
  - apply demo_laws.
  - apply demo_room_laws.
  - lia.
  - vm_compute. discriminate.
  - vm_compute. split; discriminate.
  - vm_compute. discriminate.
  - intros name run H cwd ctx n x Hx. cbn in H. case_decide; [|done]. injection H as <-. exact Hx.
  - intros cs n s _ _ Hs. pose proof demo_room_laws as Hr.
    apply (exec_less demo_world_inv (MRoom BackendsRoom) (MRooms BackendsRooms) mount_owned demo_vfs default_limits 4 0
             (sum_over (command_opens 0) (syntax <$> cs) + n)); [lia|exact Hs].
  - split; [exact (fsi_world _ _ _ _ _ _ _ _ _ demo_fs_inv)|]. split; [apply (demo_rooms 0); lia|done].
  - intros program Hp. assert (Ok program = parse (lit "true > /tmp/a && true || nothing < /tmp/a")) as Hq by (by rewrite Hp).
    assert ((program_opens 0 (lists program) + 0 <= 10)%nat) as Hle.
    { revert Hq. vm_compute. intros [= ->]. vm_compute. lia. }
    by apply demo_rooms.
Defined.

(** ** Pipelines *)

(** A handler that runs from one end to the other in one step. *)
Definition at_once {W} (run : Handler W) (fs : Fs W) (ctx : CommandContext) : Steps (XState W) CommandResult :=
  Does (fun x => match run fs ctx x with
                 | (Ok r, x') => (Ok (Returns r), x')
                 | (Err e, _) => match e with end
                 | (Panic, x') => (Panic, x')
                 | (OutOfFuel, x') => (OutOfFuel, x')
                 end).

(** Turns go to the stages as [turns] says, and the readers of pipes get [data]. *)
Definition demo_runtime (turns : list nat) (data : bytes) : Z -> Runtime :=
  fun _ => mkRuntime turns (fun _ => None) (fun _ => [Chunk data]).

Definition demo_pipe_exec (commands : list (str * RegisteredCommand (MState Backends))) (turns : list nat) (data : bytes)
    (input : str) :=
  exec 24 24 100 demo_vfs commands default_limits 4 (fun _ => false)
    (exec_stages demo_vfs commands default_limits 4 (fun _ => false) at_once (demo_runtime turns data) (lit "task 1 panicked"))
    false false input demo_sandbox.

(** Three stages, one of which is not a command, with a redirect in the middle of
    the pipeline; the second stage has the first turns. *)
Example demo_pipeline :
  match demo_pipe_exec demo_commands [1; 1; 1; 2]%nat (encode (lit "b" ++ line_end ++ lit "a" ++ line_end))
          (lit "export > f | sort | nothing 2>&1 | A=1") with
  | (Ok result, sb) =>
      res_stdout result = [] /\ res_stderr result = [] /\ res_exit_code result = 0
      /\ map t_exit_code (res_commands result) = [0; 0; 127] /\ res_pipe_bytes result = [0; 4; 27]
      /\ sb_commands_run sb = 4 /\ sb_pool sb = 0
  | _ => False
  end.
Proof. vm_compute. auto 10. Qed.

(** A task that panicked is recorded as the outcome of the first stage.  When it is
    joined before that stage, its failure is overwritten: the pipeline succeeds,
    and nothing tells of the panic. *)
Example panicked_stage_vanishes :
  match demo_pipe_exec [(lit "boom", Registered (fun _ _ => slift Panic)); (lit "true", Registered (fun _ _ => sret (result_new 0)))]
          [1]%nat [] (lit "true | boom") with
  | (Ok result, _) => res_exit_code result = 0 /\ res_stderr result = [] /\ res_commands result = [mkTiming (lit "true") 0]
  | _ => False
  end.
Proof. vm_compute. auto. Qed.

(** C29: an execution ends and gives back what it took.  For every input, whatever
    the registered commands do within the facade, in whatever order the stages of a
    pipeline take their turns and whatever their pipes deliver, the execution runs
    out of no loop.  Unless a command of its own or the engine panics it returns a
    result, also if stages of pipelines panicked, with no file left open or
    admitted, the VFS in order, no more commands timed than allowed, and the
    session of the sandbox as it was unless it is to persist. *)
Theorem execution_ends_and_gives_back {W} (I Room : W -> Prop) Rooms owned (vfs : Vfs W) sz sv se registered limits
    capacity cancelled_at others_pool in_steps runtime join_error K persist cancelled input n sb :
  FdLaws I Room owned vfs -> RoomLaws I Room Rooms vfs ->
  0 <= others_pool <= capacity -> capacity <= USIZE_MAX -> 0 <= max_open_files limits <= USIZE_MAX ->
  0 <= max_commands limits ->
  commands_ok I Rooms owned vfs registered limits capacity cancelled_at others_pool 0 K ->
  stages_commands_ok I Rooms owned vfs registered limits capacity cancelled_at others_pool in_steps K ->
  sandbox_ok I Rooms others_pool n sb ->
  (forall program, parse input = Ok program -> Rooms (program_opens K (lists program) + n)%nat (sb_world sb)) ->
  safely (exec sz sv se vfs registered limits capacity cancelled_at
            (exec_stages vfs registered limits capacity cancelled_at in_steps runtime join_error) persist cancelled input) sb
    (fun result sb' => sandbox_ok I Rooms others_pool n sb' /\ len (res_commands result) <= max_commands limits
                       /\ kept persist sb sb')
    (fun _ _ => False).
Proof.
  intros Hv Hr Hp Hc Hf Hm HK HS Hsb Hrooms. pose proof (fd_owner_laws I Room owned vfs Hv) as Ho.
  apply (execution_ends_if_pipelines_do I Room Rooms owned vfs sz sv se registered limits capacity cancelled_at others_pool
    _ K persist cancelled input n sb); try done.
  by apply (exec_stages_ok I Room Rooms owned vfs registered limits capacity cancelled_at others_pool (proj1 Hp) Hc (proj2 Hf)).
Qed.

Lemma execution_ends_and_gives_back_witness :
  safely (exec 24 24 100 demo_vfs demo_true default_limits 4 (fun n => (9 <? n)%nat)
            (exec_stages demo_vfs demo_true default_limits 4 (fun n => (9 <? n)%nat) at_once (demo_runtime [1; 0]%nat []) (lit "1"))
            false false (lit "true > /tmp/a | nothing < /tmp/a && true")) demo_sandbox
    (fun result sb' => sandbox_ok demo_world_inv (MRooms BackendsRooms) 0 0 sb' /\ len (res_commands result) <= 1024
                       /\ kept false demo_sandbox sb')
    (fun _ _ => False).
Proof.
  apply (execution_ends_and_gives_back demo_world_inv (MRoom BackendsRoom) (MRooms BackendsRooms) mount_owned demo_vfs
    24 24 100 demo_true default_limits 4 (fun n => (9 <? n)%nat) 0 at_once (demo_runtime [1; 0]%nat []) (lit "1") 0 false false).
  - apply demo_laws.
  - apply demo_room_laws.
  - lia.
  - vm_compute. discriminate.
  - vm_compute. split; discriminate.
  - vm_compute. discriminate.
  - intros name run H cwd ctx n x Hx. cbn in H. case_decide; [|done]. injection H as <-. exact Hx.
  - intros name run cwd ctx H. cbn in H. case_decide; [|done]. injection H as <-.
    intros O m x Hx. exists 0%nat. split; [lia|]. split; [exact Hx|exact Logic.I].
  - split; [exact (fsi_world _ _ _ _ _ _ _ _ _ demo_fs_inv)|]. split; [apply (demo_rooms 0); lia|done].
  - intros program Hp.
    assert (Ok program = parse (lit "true > /tmp/a | nothing < /tmp/a && true")) as Hq by (by rewrite Hp).
    assert ((program_opens 0 (lists program) + 0 <= 10)%nat) as Hle.
    { revert Hq. vm_compute. intros [= ->]. vm_compute. lia. }
    by apply demo_rooms.
Defined.

(** C30: a pipeline reports its stages in their order, whatever order they ended
    in.  When no task panicked there is one outcome per stage: its code is 1 if a
    redirect could not be finished, 141 if the command failed on a pipe cut off
    after it, and else that of the command: 1 for a stage that could not be
    prepared, 0 for mere assignments, 127 for an unknown command.  The errors of
    the redirects are written in the order of the stages, the timings are those of
    the stages that count, and the status is that of the last stage. *)
Theorem pipeline_reports_in_stage_order {W} (vfs : Vfs W) registered limits capacity cancelled_at in_steps runtime join_error
    stages (s s' : ExecState W) status :
  stages <> [] ->
  run_pipeline_stages vfs registered limits capacity cancelled_at in_steps runtime join_error stages s = (Ok status, s') ->
  exists joined pipes x,
    run_joined vfs registered limits capacity cancelled_at in_steps (runtime (e_command_count s)) stages (e_streams s)
    = (Ok (joined, pipes), x)
    /\ length joined = length stages /\ e_pipe_bytes s' = e_pipe_bytes s ++ (pipe_count <$> pipes)
    /\ (None ∉ joined ->
        exists outcomes, joined ≡ₚ Some <$> outcomes /\ length outcomes = length stages
          /\ (forall i o, outcomes !! i = Some o ->
               exists stage, stages !! i = Some stage /\ outcome_of (length stages) i stage o)
          /\ Some status = o_exit_code <$> last outcomes
          /\ e_timings s' = e_timings s ++ (o_timing <$> filter (fun o => o_counts o = true) outcomes)
          /\ write_errors (outcomes ≫= o_redirect_errors) (set_streams x s) = (Ok tt, set_streams (e_streams s') s)).
Proof.
  intros Hne. unfold run_pipeline_stages. rewrite bool_decide_false by (by destruct stages).
  unfold sbind at 1, sget at 1. unfold sbind at 1, on_streams.
  destruct (run_joined _ _ _ _ _ _ _ stages (e_streams s)) as [[[joined pipes]|[]| |] x] eqn:Hrun; [|done..].
  unfold sbind at 1. destruct (report_outcomes _ 0 _) as [[code|[]| |] s1] eqn:Hrep; [|done..]. intros [= -> <-].
  destruct (run_joined_results _ _ _ _ _ _ _ _ _ _ _ _ Hrun) as (ends & HP & Hlen & Hends).
  destruct (report_outcomes_spec _ _ _ _ _ Hrep) as (Hcode & Htimes & Hbytes & Herrs).
  exists joined, pipes, x. split; [done|]. split; [by rewrite HP|]. split; [simpl; by rewrite Hbytes|].
  intros Hnone. destruct (all_outcomes ends) as [outcomes ->]; [by rewrite <- HP|]. exists outcomes.
  rewrite length_fmap in Hlen. assert (forall i o, outcomes !! i = Some o ->
    exists stage, stages !! i = Some stage /\ outcome_of (length stages) i stage o) as Hout.
  { intros i o Hi. apply Hends. by rewrite list_lookup_fmap, Hi. }
  assert (omap id (collect join_error (length stages) joined) = outcomes) as Hcol.
  { rewrite <- Hlen, (collect_in_order _ _ outcomes HP); [apply omap_some|].
    intros i o Hi. by destruct (Hout i o Hi) as (stage & _ & -> & _). }
  rewrite Hcol in *. split_and!; try done.
  rewrite Hcode. destruct outcomes as [|o outcomes] using rev_ind; [by destruct stages|]. by rewrite last_snoc.
Qed.

Definition demo_exec_state : ExecState (MState Backends) :=
  exec_new default_limits (sb_world demo_sandbox) 0 (sb_session demo_sandbox).

(** [fail | nothing | A=1], prepared. *)
Definition demo_stages : list (PreparedStage (MState Backends)) :=
  let stage name command kind :=
    mkStage name [] [] (lit "/tmp") command default_redirects (bool_decide (kind = 0)) (if kind =? 0 then CommandStage else AssignmentOnly) fresh_part in
  [stage (lit "fail") (Some (Registered (fun _ _ => sret (result_new 3)))) 0; stage (lit "nothing") None 0; stage (lit "A") None 1].

Definition demo_run_stages :=
  run_pipeline_stages demo_vfs demo_true default_limits 4 (fun _ => false) at_once (demo_runtime [2; 1; 2; 2]%nat []) (lit "1")
    demo_stages demo_exec_state.

Lemma pipeline_reports_in_stage_order_witness :
  exists status s', demo_run_stages = (Ok status, s') /\ t_exit_code <$> e_timings s' = [3; 127]
    /\ exists joined pipes x,
      run_joined demo_vfs demo_true default_limits 4 (fun _ => false) at_once (demo_runtime [2; 1; 2; 2]%nat [] 0) demo_stages
        (e_streams demo_exec_state) = (Ok (joined, pipes), x)
      /\ (fmap (M := option) o_index <$> joined) = [Some 2; Some 0; Some 1]%nat
      /\ exists outcomes, joined ≡ₚ Some <$> outcomes /\ Some status = o_exit_code <$> last outcomes.
Proof.
  destruct demo_run_stages as [o s'] eqn:Hrun. assert (exists status, o = Ok status) as [status ->].
  { apply (f_equal fst) in Hrun. revert Hrun. vm_compute. intros <-. by eexists. }
  exists status, s'. split; [done|]. split.
  { apply (f_equal (fun r => t_exit_code <$> e_timings r.2)) in Hrun. etransitivity; [symmetry; exact Hrun|by vm_compute]. }
  destruct (pipeline_reports_in_stage_order demo_vfs demo_true default_limits 4 (fun _ => false) at_once
    (demo_runtime [2; 1; 2; 2]%nat []) (lit "1") demo_stages demo_exec_state s' status ltac:(done) Hrun)
    as (joined & pipes & x & Hj & _ & _ & Hall).
  exists joined, pipes, x. split; [exact Hj|].
  assert (joined = match (run_joined demo_vfs demo_true default_limits 4 (fun _ => false) at_once
                            (demo_runtime [2; 1; 2; 2]%nat [] 0) demo_stages (e_streams demo_exec_state)).1 with
                   | Ok (joined, _) => joined
                   | _ => []
                   end) as Heq by (change (e_command_count demo_exec_state) with 0 in Hj; by rewrite Hj).
  revert Heq. vm_compute (match _ with Ok _ => _ | _ => _ end). intros ->. split; [done|].
  destruct Hall as (outcomes & HP & _ & _ & Hst & _); [by intros H; repeat (apply elem_of_cons in H as [?|H]; [done|]); apply not_elem_of_nil in H|].
  by exists outcomes.
Defined.

Section unknown.
Context {W : Type} (vfs : Vfs W) (registered : list (str * RegisteredCommand W)) (limits : Limits) (capacity : Z)
  (cancelled_at : nat -> bool).

Lemma no_redirects cwd simple targets (r : RState W) :
  redirects simple = [] ->
  prepare_redirects vfs (bt_keys registered) cwd limits capacity true cancelled_at simple targets r
  = (Ok default_redirects, mkRState (r_fs r) [] default_redirects).
Proof. intros Hr. unfold prepare_redirects. rewrite Hr. by destruct targets. Qed.

(** The streams of a command whose stdin is empty and whose redirects are none. *)
Definition plain_streams (x : XState W) : XState W :=
  mkXState (mkRState (x_fs x) [] default_redirects) (x_stdout x) (x_stderr x) (x_pipes x) (FromPipe []) (x_file x).

Lemma exec_prepared_unknown c name args se env last x out :
  expanded_words c = name :: args -> redirects (syntax c) = [] -> bt_get name registered = None ->
  capped_write (encode (name ++ lit ": command not found" ++ line_end)) (x_stderr x) = Ok out ->
  exec_prepared vfs registered limits capacity cancelled_at c se env last x
  = (Ok (mkEnd 127 se None true), set_capture Stderr out (plain_streams x)).
Proof.
  intros Hw Hr Hn Hout. unfold exec_prepared, sbind at 1, on_redirects at 1. rewrite no_redirects by done.
  rewrite Hw. cbv zeta. unfold sbind at 1. cbn [on_redirects take_stdin sbind sget sput x_red set_x_red r_red].
  rewrite bool_decide_false by done. cbn [default_redirects r_stdin r_stdout r_stderr writer_for_destination].
  rewrite Hn. unfold run_registered. rewrite Hn. unfold write_text. revert Hout.
  generalize (encode (name ++ lit ": command not found" ++ line_end)). intros message Hout. cbn.
  unfold ignoring, capture_write. unfold sbind. cbn. by rewrite Hout.
Qed.

Lemma drop_registry_closed (x : XState W) : closed x -> drop_registry vfs x = (Ok tt, x).
Proof.
  destruct x as [[[w files pool ex clk] opened red] out err ps inp file]. unfold closed. cbn. intros ->.
  unfold drop_registry, ignoring, x_on_fs, x_try_fs, abandon_all, sbind. cbn. by rewrite elements_empty.
Qed.
End unknown.

(** A command that is not registered is reported and nothing else happens.
    Without redirects it ends with 127 and one line on stderr that names it; the
    filesystem, its handles and counters, stdout and the session are as before,
    and the command counts and is timed like any other. *)
Theorem unknown_command_is_reported {W} (vfs : Vfs W) registered limits capacity cancelled_at c name args cap e s :
  expanded_words c = name :: args -> redirects (syntax c) = [] -> bt_get name registered = None ->
  e_command_count s < max_commands limits -> closed (e_streams s) ->
  let message := encode (name ++ lit ": command not found" ++ line_end) in
  capture_output Stderr cap e (e_streams s) -> len (e ++ message) <= USIZE_MAX ->
  wp (exec_single_simple vfs registered limits capacity cancelled_at c) s
     (fun status s' =>
        status = 127 /\ capture_output Stderr cap (e ++ message) (e_streams s')
        /\ x_fs (e_streams s') = x_fs (e_streams s) /\ x_stdout (e_streams s') = x_stdout (e_streams s)
        /\ e_session s' = e_session s /\ e_command_count s' = e_command_count s + 1
        /\ e_timings s' = e_timings s ++ [mkTiming name 127])
     (fun _ _ => False).
Proof.
  intros Hw Hr Hn Hc Hcl message [Hs H0] Hlen. rewrite len_app in Hlen.
  destruct (capped_write_spec cap e message _ Hs H0 Hlen) as (out & Hout & Hout').
  unfold exec_single_simple, wp, sbind at 1, sget at 1.
  rewrite (proj2 (Z.leb_gt _ _)) by done. rewrite Hw, bool_decide_false by done.
  unfold sbind at 1, sput at 1. unfold sbind at 1, sget at 1. unfold sbind at 1, sput at 1. unfold sbind at 1, on_streams at 1.
  unfold sbind at 1. rewrite (exec_prepared_unknown vfs registered limits capacity cancelled_at c name args _ _ _ _ out Hw Hr Hn Hout).
  unfold sbind at 1. rewrite drop_registry_closed by done. cbn. done.
Qed.


Lemma unknown_command_is_reported_witness :
  wp (exec_single_simple demo_vfs demo_true default_limits 4 (fun _ => false)
        (mkExpandedCommand (mkSimpleCommand [] [] []) [] [lit "nothing"; lit "-x"] [])) demo_exec_state
     (fun status s' =>
        status = 127 /\ capture_output Stderr (1024 * 1024) (encode (lit "nothing: command not found" ++ line_end)) (e_streams s')
        /\ x_fs (e_streams s') = x_fs (e_streams demo_exec_state)
        /\ x_stdout (e_streams s') = x_stdout (e_streams demo_exec_state)
        /\ e_session s' = e_session demo_exec_state /\ e_command_count s' = 1
        /\ e_timings s' = [mkTiming (lit "nothing") 127])
     (fun _ _ => False).
Proof.
  apply (unknown_command_is_reported demo_vfs demo_true default_limits 4 (fun _ => false)
    (mkExpandedCommand (mkSimpleCommand [] [] []) [] [lit "nothing"; lit "-x"] []) (lit "nothing") [lit "-x"] (1024 * 1024) []
    demo_exec_state); [reflexivity|reflexivity|reflexivity|vm_compute; reflexivity|reflexivity| |vm_compute; discriminate].
  split; [by vm_compute|done].
Defined.
