(* ===== verification/S3Types.v ===== *)
(** * Requests to an object store (src/src/vfs/s3.rs)

    The requests of [S3Vfs] and their answers, the trait [S3Ops] that carries them
    out, and the small functions on names, preconditions and errors around it.  A
    store is an object with a state [W] that its operations act on, as in
    [VfsIface]. *)

From Stdlib Require Import Ascii String.
From S2P Require Import Prelude RustStr VfsTypes SandboxFs.

#[local] Open Scope Z_scope.

(** ** Requests *)

(** Precondition attached to a mutating request. *)
Inductive Precondition :=
| PreNone
| PreAbsent
| PreMatch (etag : str).

Inductive RemoteError := Missing | Denied | PreconditionFailed | Io.

#[export] Instance precondition_eq_dec : EqDecision Precondition.
Proof. solve_decision. Defined.
#[export] Instance remote_error_eq_dec : EqDecision RemoteError.
Proof. solve_decision. Defined.

Record HeadRequest := mkHeadRequest { hq_bucket : str; hq_key : str }.

Record ListRequest := mkListRequest {
  lq_bucket : str;
  lq_prefix : str;
  lq_delimiter : str;
  lq_continuation : option str;
  lq_max_keys : option Z
}.

Record GetRequest := mkGetRequest {
  gq_bucket : str;
  gq_key : str;
  gq_range : str;
  gq_if_match : str;
  gq_expected_len : Z;
  gq_expected_content_range : str
}.

Record PutRequest := mkPutRequest { pq_bucket : str; pq_key : str; pq_body : bytes; pq_precondition : Precondition }.

Record DeleteRequest := mkDeleteRequest { dq_bucket : str; dq_key : str; dq_precondition : Precondition }.

Record CopyRequest := mkCopyRequest {
  cq_bucket : str;
  cq_source_key : str;
  cq_key : str;
  cq_source_if_match : Precondition
}.

Record CreateUploadRequest := mkCreateUploadRequest { uq_bucket : str; uq_key : str }.

Record UploadPartRequest := mkUploadPartRequest {
  tq_bucket : str;
  tq_key : str;
  tq_upload_id : str;
  tq_part_number : Z;
  tq_body : bytes
}.

Record UploadedPart := mkUploadedPart { part_number : Z; part_etag : str }.

Record CompleteUploadRequest := mkCompleteUploadRequest {
  eq_bucket : str;
  eq_key : str;
  eq_upload_id : str;
  eq_parts : list UploadedPart;
  eq_precondition : Precondition
}.

Record AbortUploadRequest := mkAbortUploadRequest { aq_bucket : str; aq_key : str; aq_upload_id : str }.

(** ** Answers *)

Record RemoteFile := mkRemoteFile { rf_len : Z; rf_etag : str }.

Record ListedObject := mkListedObject { lo_key : str; lo_size : Z }.

Record ListResult := mkListResult {
  lr_objects : list ListedObject;
  lr_common_prefixes : list str;
  lr_truncated : bool;
  lr_next_continuation : option str
}.

Record GetResult := mkGetResult {
  gr_body : bytes;
  gr_content_length : Z;
  gr_etag : option str;
  gr_content_range : option str
}.

(** ** The trait *)

Record S3Ops (W : Type) := mkS3Ops {
  o_head : HeadRequest -> ST W RemoteError RemoteFile;
  o_list : ListRequest -> ST W RemoteError ListResult;
  o_get : GetRequest -> ST W RemoteError GetResult;
  o_put : PutRequest -> ST W RemoteError unit;
  o_delete : DeleteRequest -> ST W RemoteError unit;
  o_copy : CopyRequest -> ST W RemoteError unit;
  o_create_upload : CreateUploadRequest -> ST W RemoteError str;
  o_upload_part : UploadPartRequest -> ST W RemoteError str;
  o_complete_upload : CompleteUploadRequest -> ST W RemoteError unit;
  o_abort_upload : AbortUploadRequest -> ST W RemoteError unit
}.

Arguments mkS3Ops {W}.
Arguments o_head {W}.
Arguments o_list {W}.
Arguments o_get {W}.
Arguments o_put {W}.
Arguments o_delete {W}.
Arguments o_copy {W}.
Arguments o_create_upload {W}.
Arguments o_upload_part {W}.
Arguments o_complete_upload {W}.
Arguments o_abort_upload {W}.

(** ** Errors *)

Definition into_vfs (e : RemoteError) : Errno :=
  match e with
  | Missing => ENOENT
  | Denied => EACCES
  | PreconditionFailed | Io => EIO
  end.

(** A failed precondition of an exclusive creation: the name is taken. *)
Definition exclusive_error (e : RemoteError) (exclusive : bool) : Errno :=
  match e with
  | PreconditionFailed => if exclusive then EEXIST else into_vfs e
  | e => into_vfs e
  end.

Definition is_one_of (code : option str) (names : list string) : bool :=
  match code with
  | Some c => existsb (fun n => bool_decide (c = lit n)) names
  | None => false
  end.
Definition has_status (status : option Z) (codes : list Z) : bool :=
  match status with
  | Some s => existsb (Z.eqb s) codes
  | None => false
  end.

Definition classify_remote (code : option str) (status : option Z) : RemoteError :=
  if is_one_of code ["NoSuchKey"; "NoSuchBucket"; "NotFound"; "404"]%string || has_status status [404] then Missing
  else if is_one_of code ["AccessDenied"; "Unauthorized"; "InvalidAccessKeyId"; "SignatureDoesNotMatch"]%string
          || has_status status [401; 403] then Denied
  else if is_one_of code ["PreconditionFailed"; "412"; "ConditionalRequestConflict"; "409"]%string
          || has_status status [409; 412] then PreconditionFailed
  else Io.

Definition require_list_truncated (value : option bool) : outcome RemoteError bool := ok_or Io value.

Definition validate_get_headers (expected_len : Z) (expected_etag expected_content_range : str)
    (content_length : Z) (etag content_range : option str) : outcome RemoteError unit :=
  if negb (content_length =? expected_len)
     || negb (bool_decide (etag = Some expected_etag))
     || negb (bool_decide (content_range = Some expected_content_range))
  then Err Io else Ok tt.

(** ** Names *)

(** The byte of a key as the copy source names it. *)
Definition hex_digit (n : Z) : char := if n <? 10 then Z.to_N (48 + n) else Z.to_N (55 + n).
Definition is_unreserved (b : Z) : bool :=
  (65 <=? b) && (b <=? 90) || (97 <=? b) && (b <=? 122) || (48 <=? b) && (b <=? 57)
  || existsb (Z.eqb b) [45; 95; 46; 126; 47].
Definition encode_byte (b : Z) : str :=
  if is_unreserved b then [Z.to_N b] else [ch "%"; hex_digit (b / 16); hex_digit (b mod 16)].
(** [uri_encode_key], of the bytes of the key. *)
Definition uri_encode_key (key : bytes) : str := flat_map encode_byte key.

(** The characters of [char::is_whitespace]. *)
Definition is_whitespace (c : char) : bool :=
  (((9 <=? c) && (c <=? 13)) || ((8192 <=? c) && (c <=? 8202)))%N
  || existsb (N.eqb c) [32; 133; 160; 5760; 8232; 8233; 8239; 8287; 12288]%N.

Definition validate_bucket (bucket : str) : outcome Errno unit :=
  if bool_decide (bucket = []) || contains bucket (ch NUL) || contains bucket (ch "/") || existsb is_whitespace bucket
  then Err EINVAL else Ok tt.

Definition bad_component (c : str) : bool :=
  bool_decide (c = []) || bool_decide (c = lit ".") || bool_decide (c = lit "..").

Definition normalize_prefix (prefix : str) : outcome Errno str :=
  if contains prefix (ch NUL) then Err EINVAL
  else
    let prefix := trim_end_char (ch "/") (trim_start_char (ch "/") prefix) in
    if bool_decide (prefix = []) then Ok []
    else if existsb bad_component (split (ch "/") prefix) then Err EINVAL
    else Ok (prefix ++ lit "/").

Definition valid_entry_name (name : str) : bool :=
  negb (bool_decide (name = [])) && negb (bool_decide (name = lit ".") || bool_decide (name = lit ".."))
  && negb (contains name (ch "/") || contains name (ch NUL)).

(** [s.strip_suffix('/')]. *)
Definition strip_slash (s : str) : option str :=
  match split_last s with
  | Some (front, c) => if (c =? ch "/")%N then Some front else None
  | None => None
  end.

Definition creation_precondition (mode : OpenMode) : Precondition :=
  if m_create_new mode then PreAbsent else PreNone.
