(* ===== verification/S3Vfs.v ===== *)
(** * The S3 filesystem (src/src/vfs/s3.rs)

    Directories are prefixes of keys, found by listing; a writable handle stages
    its contents and lands them as one object when it closes, in memory or, when
    it only replaces an object from front to back, part by part through a
    multipart upload.

    The methods act on three states.  [ST W] is the store alone; [ST (W * X)] is
    the store and the [HandleState], [Buffer] or [Stream] that a method holds by
    [&mut]; [ST (S3State W)] is the filesystem.  A handle that was resolved is an
    [Arc] to a cell that outlives its entry in the table; the cell of a handle is
    found under the number of the handle, since numbers are not used twice.

    The loops over the pages of a listing end when the store says so; [pages] says,
    of a store, for how many pages they are run at most. *)

From Stdlib Require Import Ascii String.
From S2P Require Import Prelude RustStr BTreeMap VfsTypes VfsPath VfsIface MemVfs SandboxFs S3Types.

#[local] Open Scope Z_scope.

(** ** State *)

Definition DEFAULT_MAX_EDIT_BYTES : Z := 32 * 1024 * 1024.
Definition INITIAL_PART_SIZE : Z := 8 * 1024 * 1024.
Definition PARTS_PER_SIZE_CLASS : Z := 1000.
Definition I32_MAX : Z := 2 ^ 31 - 1.

Record S3VfsConfig := mkS3VfsConfig {
  cfg_read_only : bool;
  cfg_max_edit_bytes : Z;
  cfg_directory_rename : bool;
  cfg_conditional_writes : bool
}.

Definition default_config : S3VfsConfig := mkS3VfsConfig false DEFAULT_MAX_EDIT_BYTES true true.
Definition read_only_config : S3VfsConfig := mkS3VfsConfig true DEFAULT_MAX_EDIT_BYTES true true.

(** The fields set by [with_ops] and never changed. *)
Record S3Vfs (W : Type) := mkS3Vfs {
  s3_ops : S3Ops W;
  s3_bucket : str;
  s3_root_prefix : str;
  s3_config : S3VfsConfig;
  s3_part_size : Z
}.
Arguments mkS3Vfs {W}.
Arguments s3_ops {W}.
Arguments s3_bucket {W}.
Arguments s3_root_prefix {W}.
Arguments s3_config {W}.
Arguments s3_part_size {W}.

Record Buffer := mkBuffer {
  bf_source : option RemoteFile;
  bf_precondition : Precondition;
  bf_bytes : option bytes;
  bf_dirty : bool
}.

Record Upload := mkUpload { up_id : str; up_parts : list UploadedPart }.

Record Stream := mkStream {
  sm_flushed : Z;
  sm_buffer : bytes;
  sm_upload : option Upload;
  sm_precondition : Precondition
}.

Inductive Staging :=
| Remote (file : RemoteFile)
| Buffered (buffer : Buffer)
| Streamed (stream : Stream)
| Failed (error : Errno).

Record HandleState := mkHandleState {
  hs_key : str;
  hs_mode : OpenMode;
  hs_staging : Staging;
  hs_released : bool
}.

(** [s3_handles] are the keys of the table, in order; [s3_cells] what its values
    point to. *)
Record S3State (W : Type) := mkS3State {
  s3_store : W;
  s3_next_handle : Z;
  s3_handles : list Z;
  s3_cells : gmap Z HandleState
}.
Arguments mkS3State {W}.
Arguments s3_store {W}.
Arguments s3_next_handle {W}.
Arguments s3_handles {W}.
Arguments s3_cells {W}.

Inductive Kind :=
| KindDirectory (nonempty : bool)
| KindFile (file : RemoteFile).

Record DirectoryListing := mkDirectoryListing { dl_exists : bool; dl_entries : list DirEntry }.

(** [S3Vfs::with_ops]: the filesystem, and the state it starts with. *)
Definition with_ops {W} (ops : S3Ops W) (bucket : str) (prefix : option str) (config : S3VfsConfig)
    : outcome Errno (S3Vfs W * (W -> S3State W)) :=
  let? _ := validate_bucket bucket in
  let? root_prefix := normalize_prefix (default [] prefix) in
  Ok (mkS3Vfs ops bucket root_prefix config INITIAL_PART_SIZE, fun w => mkS3State w 1 [] ∅).

Definition stream_new (precondition : Precondition) : Stream := mkStream 0 [] None precondition.

Definition stream_end (s : Stream) : outcome Errno Z := ok_or EFBIG (checked_add (sm_flushed s) (len (sm_buffer s))).

Definition set_buffer (b : bytes) (s : Stream) : Stream := mkStream (sm_flushed s) b (sm_upload s) (sm_precondition s).
Definition set_flushed (n : Z) (s : Stream) : Stream := mkStream n (sm_buffer s) (sm_upload s) (sm_precondition s).
Definition set_upload (u : Upload) (s : Stream) : Stream := mkStream (sm_flushed s) (sm_buffer s) (Some u) (sm_precondition s).
Definition set_bytes (b : option bytes) (x : Buffer) : Buffer := mkBuffer (bf_source x) (bf_precondition x) b (bf_dirty x).
Definition set_dirty (x : Buffer) : Buffer := mkBuffer (bf_source x) (bf_precondition x) (bf_bytes x) true.
Definition set_staging (x : Staging) (h : HandleState) : HandleState := mkHandleState (hs_key h) (hs_mode h) x (hs_released h).
Definition release (h : HandleState) : HandleState := mkHandleState (hs_key h) (hs_mode h) (hs_staging h) true.

Definition uploaded_parts (s : Stream) : Z :=
  match sm_upload s with Some u => len (up_parts u) | None => 0 end.

(** ** Requests to the store *)

(** A request whose error is returned. *)
Definition request {W A} (m : ST W RemoteError A) : ST W Errno A := map_err into_vfs m.

(** A call on the store, of a method that holds an [X]. *)
Definition on_store {W X E A} (m : ST W E A) : ST (W * X) E A :=
  fun s => let '(o, w') := m s.1 in (o, (w', s.2)).

Section paths.
Context {W : Type} (v : S3Vfs W) (pages : W -> nat).

Abbreviation ops := (s3_ops v).
Abbreviation bucket := (s3_bucket v).
Abbreviation root_prefix := (s3_root_prefix v).
Abbreviation config := (s3_config v).
Abbreviation RM := (ST W Errno).

(** [self.part_size(uploaded_parts)]. *)
Definition part_size (uploaded : Z) : Z :=
  Z.min USIZE_MAX (s3_part_size v * Z.shiftl 1 (Z.min (uploaded / PARTS_PER_SIZE_CLASS) 16)).

Definition key (components : list str) : str :=
  if bool_decide (components = []) then trim_end_char (ch "/") root_prefix
  else root_prefix ++ join (lit "/") components.

Definition directory_prefix (components : list str) : str :=
  if bool_decide (components = []) then root_prefix else key components ++ lit "/".

Definition require_writable : outcome Errno unit := if cfg_read_only config then Err EACCES else Ok tt.

Definition guard (p : Precondition) : Precondition := if cfg_conditional_writes config then p else PreNone.

Definition put_object (key : str) (body : bytes) (precondition : Precondition) : RM unit :=
  let exclusive := bool_decide (precondition = PreAbsent) in
  map_err (fun e => exclusive_error e exclusive) (o_put ops (mkPutRequest bucket key body (guard precondition))).

Definition check_edit_len (n : Z) : outcome Errno unit :=
  if negb (cfg_max_edit_bytes config =? 0) && (cfg_max_edit_bytes config <? n) then Err EFBIG else Ok tt.

(** ** Listing *)

Definition add_object (prefix : str) (acc : bool * list (str * Metadata)) (object : ListedObject) : bool * list (str * Metadata) :=
  let '(found, entries) := acc in
  match strip_prefix (lo_key object) prefix with
  | None => acc
  | Some relative =>
      if bool_decide (relative = []) then (found || (lo_size object =? 0), entries)
      else
        (true,
         if valid_entry_name relative then
           match bt_get relative entries with
           | Some _ => entries
           | None => bt_insert relative (mkMetadata RegularFile (lo_size object)) entries
           end
         else entries)
  end.

Definition add_common_prefix (prefix : str) (acc : bool * list (str * Metadata)) (common : str) : bool * list (str * Metadata) :=
  let '(found, entries) := acc in
  match strip_prefix common prefix with
  | None => acc
  | Some relative =>
      match strip_slash relative with
      | None => acc
      | Some name =>
          (true, if valid_entry_name name then bt_insert name (mkMetadata DirectoryType 0) entries else entries)
      end
  end.

(** What follows a page: the token of the next one, checked. *)
Definition next_page (page : ListResult) (seen : list str) : outcome Errno (option str) :=
  if negb (lr_truncated page) then Ok None
  else
    match lr_next_continuation page with
    | Some next =>
        if bool_decide (next = []) then Err EIO
        else if bool_decide (next ∈ seen) then Err EIO
        else Ok (Some next)
    | None => Err EIO
    end.

Definition listing_of (acc : bool * list (str * Metadata)) : DirectoryListing :=
  mkDirectoryListing acc.1 ((fun e => mkDirEntry e.1 e.2) <$> acc.2).

Fixpoint scan_loop (fuel : nat) (prefix : str) (probe : bool) (continuation : option str) (seen : list str)
    (acc : bool * list (str * Metadata)) : RM DirectoryListing :=
  match fuel with
  | O => slift OutOfFuel
  | S fuel =>
      let! page := request (o_list ops (mkListRequest bucket prefix (lit "/") continuation (if probe then Some 2 else None))) in
      let acc := foldl (add_object prefix) acc (lr_objects page) in
      let acc := foldl (add_common_prefix prefix) acc (lr_common_prefixes page) in
      let! next := slift (next_page page seen) in
      match next with
      | None => sret (listing_of acc)
      | Some next =>
          if probe && negb (bool_decide (acc.2 = [])) then sret (listing_of acc)
          else scan_loop fuel prefix probe (Some next) (next :: seen) acc
      end
  end.

Definition scan_directory (components : list str) (probe : bool) : RM DirectoryListing :=
  let! w := sget in
  scan_loop (pages w) (directory_prefix components) probe None [] (bool_decide (components = []), []).

Definition list_directory (components : list str) : RM DirectoryListing := scan_directory components false.

Fixpoint list_recursive_loop (fuel : nat) (prefix : str) (continuation : option str) (seen : list str) (keys : list str)
    : RM (list str) :=
  match fuel with
  | O => slift OutOfFuel
  | S fuel =>
      let! page := request (o_list ops (mkListRequest bucket prefix [] continuation None)) in
      let keys := keys ++ filter (fun k => starts_with k prefix = true) (lo_key <$> lr_objects page) in
      let! next := slift (next_page page seen) in
      match next with
      | None => sret keys
      | Some next => list_recursive_loop fuel prefix (Some next) (next :: seen) keys
      end
  end.
Definition list_recursive (prefix : str) : RM (list str) :=
  let! w := sget in list_recursive_loop (pages w) prefix None [] [].

Definition kind_at (components : list str) : RM (option Kind) :=
  if bool_decide (components = []) then sret (Some (KindDirectory false))
  else
    let! listing := scan_directory components true in
    if dl_exists listing then sret (Some (KindDirectory (negb (bool_decide (dl_entries listing = [])))))
    else
      let! r := attempt (o_head ops (mkHeadRequest bucket (key components))) in
      match r with
      | Ok file => sret (Some (KindFile file))
      | Err Missing => sret None
      | Err e => sfail (into_vfs e)
      | Panic => slift Panic
      | OutOfFuel => slift OutOfFuel
      end.

Fixpoint validate_prefixes (components : list str) (ends : list nat) : RM unit :=
  match ends with
  | [] => sret tt
  | n :: ends =>
      let! kind := kind_at (take n components) in
      match kind with
      | Some (KindDirectory _) => validate_prefixes components ends
      | Some (KindFile _) => sfail ENOTDIR
      | None => sfail ENOENT
      end
  end.
Definition validate_parents (components : list str) : RM unit :=
  validate_prefixes components (seq 1 (length components - 1)).

(** A directory does not disappear along with its last child. *)
Definition preserve_directory (components : list str) : RM unit :=
  if bool_decide (components = []) then sret tt
  else
    let prefix := directory_prefix components in
    let! page := request (o_list ops (mkListRequest bucket prefix (lit "/") None (Some 1))) in
    if negb (bool_decide (lr_objects page = [])) || negb (bool_decide (lr_common_prefixes page = [])) then sret tt
    else put_object prefix [] PreNone.

(** ** Downloads *)

Definition range_text (from to : Z) : str := lit "bytes=" ++ Z_to_string from ++ lit "-" ++ Z_to_string to.
Definition content_range_text (from to n : Z) : str :=
  lit "bytes " ++ Z_to_string from ++ lit "-" ++ Z_to_string to ++ lit "/" ++ Z_to_string n.

(** Whether the answer is what was asked for. *)
Definition answers (response : GetResult) (n : Z) (file : RemoteFile) (content_range : str) : bool :=
  (len (gr_body response) =? n) && (gr_content_length response =? n)
  && bool_decide (gr_etag response = Some (rf_etag file))
  && bool_decide (gr_content_range response = Some content_range).

Definition get_whole (key : str) (file : RemoteFile) : RM bytes :=
  if rf_len file =? 0 then sret []
  else
    let last := rf_len file - 1 in
    let content_range := content_range_text 0 last (rf_len file) in
    let! response :=
      request (o_get ops (mkGetRequest bucket key (range_text 0 last) (rf_etag file) (rf_len file) content_range)) in
    let! expected := slift (usize_try_from EFBIG (rf_len file)) in
    if answers response expected file content_range then sret (gr_body response) else sfail EIO.

Definition read_remote (key : str) (file : RemoteFile) (offset : Z) (buf : bytes) : RM (Z * bytes) :=
  if bool_decide (buf = []) || (rf_len file <=? offset) then sret (0, buf)
  else
    let requested := Z.min (rf_len file - offset) (len buf) in
    let! last := slift (ok_or EIO (match checked_add offset requested with
                                   | Some n => if 1 <=? n then Some (n - 1) else None
                                   | None => None
                                   end)) in
    let content_range := content_range_text offset last (rf_len file) in
    let! response :=
      request (o_get ops (mkGetRequest bucket key (range_text offset last) (rf_etag file) requested content_range)) in
    if answers response requested file content_range
    then sret (requested, gr_body response ++ drop (Z.to_nat requested) buf) else sfail EIO.

(** ** Staged bodies *)

(** [bytes.copy_from_slice] into a range. *)
Definition copy_into (d : bytes) (start : Z) (new : bytes) : outcome Errno bytes :=
  if start + len new <=? len d then Ok (splice d start new) else Panic.

(** A buffered body can get any length a caller names; the buffer of a stream, below,
    only grows by a part at most, and by data that are in memory already. *)
Definition resize_staged (d : bytes) (n : Z) : outcome Errno bytes :=
  let? _ := check_edit_len n in vec_resize d n.

Definition materialize (key : str) : ST (W * Buffer) Errno bytes :=
  let! s := sget in
  match bf_bytes s.2 with
  | Some d => sret d
  | None =>
      let! d :=
        match bf_source s.2 with
        | Some file => let! _ := slift (check_edit_len (rf_len file)) in on_store (get_whole key file)
        | None => sret []
        end in
      let! s := sget in
      let! _ := sput (s.1, set_bytes (Some d) s.2) in
      sret d
  end.

Definition write_buffer (key : str) (append : bool) (offset : Z) (new : bytes) : ST (W * Buffer) Errno Z :=
  let! d := materialize key in
  let! start := slift (if append then Ok (len d) else usize_try_from EINVAL offset) in
  let! stop := slift (ok_or EINVAL (checked_add start (len new))) in
  let! d := slift (if len d <? stop then resize_staged d stop else Ok d) in
  let! s := sget in
  let! _ := sput (s.1, set_bytes (Some d) s.2) in
  let! d := slift (copy_into d start new) in
  let! _ := sput (s.1, set_dirty (set_bytes (Some d) s.2)) in
  sret (len new).

Definition truncate_buffer (key : str) (n : Z) : ST (W * Buffer) Errno unit :=
  let! d := materialize key in
  let! n := slift (usize_try_from EFBIG n) in
  let! d := slift (resize_staged d n) in
  let! s := sget in
  sput (s.1, set_dirty (set_bytes (Some d) s.2)).

(** ** Multipart uploads *)

Definition upload_id_of (key : str) : ST (W * Stream) Errno str :=
  let! s := sget in
  match sm_upload s.2 with
  | Some u => sret (up_id u)
  | None =>
      let! id := on_store (request (o_create_upload ops (mkCreateUploadRequest bucket key))) in
      let! s := sget in
      let! _ := sput (s.1, set_upload (mkUpload id []) s.2) in
      sret id
  end.

Fixpoint flush_loop (fuel : nat) (key : str) : ST (W * Stream) Errno unit :=
  match fuel with
  | O => slift OutOfFuel
  | S fuel =>
      let! s := sget in
      let uploaded := uploaded_parts s.2 in
      let size := part_size uploaded in
      if len (sm_buffer s.2) <? size then sret tt
      else
        let! upload_id := upload_id_of key in
        let! s := sget in
        let body := take (Z.to_nat size) (sm_buffer s.2) in
        let! _ := sput (s.1, set_buffer (drop (Z.to_nat size) (sm_buffer s.2)) s.2) in
        let! number := slift (if I32_MAX <? uploaded + 1 then Err EFBIG else Ok (uploaded + 1)) in
        let! etag := on_store (request (o_upload_part ops (mkUploadPartRequest bucket key upload_id number body))) in
        let! s := sget in
        let! upload := slift (ok_or EIO (sm_upload s.2)) in
        let stream := set_upload (mkUpload (up_id upload) (up_parts upload ++ [mkUploadedPart number etag])) s.2 in
        let! _ := sput (s.1, stream) in
        let! flushed := slift (ok_or EFBIG (checked_add (sm_flushed stream) (len body))) in
        let! _ := sput (s.1, set_flushed flushed stream) in
        flush_loop fuel key
  end.

(** Every turn takes a part, of at least one byte, from the buffer. *)
Definition flush_parts (key : str) : ST (W * Stream) Errno unit :=
  let! s := sget in flush_loop (S (length (sm_buffer s.2))) key.

Fixpoint fill_loop (fuel : nat) (key : str) (target : Z) : ST (W * Stream) Errno unit :=
  match fuel with
  | O => slift OutOfFuel
  | S fuel =>
      let! s := sget in
      let! stop := slift (stream_end s.2) in
      if target <=? stop then sret tt
      else
        let room := Z.max (saturating_sub (part_size (uploaded_parts s.2)) (len (sm_buffer s.2))) 1 in
        let gap := target - stop in
        let! _ := sput (s.1, set_buffer (resize (sm_buffer s.2) (len (sm_buffer s.2) + Z.min room gap)) s.2) in
        let! _ := flush_parts key in
        fill_loop fuel key target
  end.

(** Every turn but the first and the last two adds a whole part. *)
Definition fill_gap (key : str) (target : Z) : ST (W * Stream) Errno unit :=
  let! s := sget in
  fill_loop (Z.to_nat ((target - sm_flushed s.2) / s3_part_size v) + 3) key target.

Definition write_stream (key : str) (target : Z) (new : bytes) : ST (W * Stream) Errno Z :=
  let! _ := fill_gap key target in
  let! s := sget in
  let! start := slift (u64_sub target (sm_flushed s.2)) in
  let! start := slift (usize_try_from EINVAL start) in
  let! stop := slift (ok_or EINVAL (checked_add start (len new))) in
  let d := if len (sm_buffer s.2) <? stop then resize (sm_buffer s.2) stop else sm_buffer s.2 in
  let! d := slift (copy_into d start new) in
  let! _ := sput (s.1, set_buffer d s.2) in
  let! _ := flush_parts key in
  sret (len new).

Definition abort_upload (key : str) (upload : Upload) : RM unit :=
  ignored (o_abort_upload ops (mkAbortUploadRequest bucket key (up_id upload))).

Definition take_buffer : ST (W * Stream) Errno bytes :=
  let! s := sget in
  let! _ := sput (s.1, set_buffer [] s.2) in
  sret (sm_buffer s.2).

(** The parts to complete an upload with: those uploaded, and the pending tail. *)
Definition last_parts (key : str) (upload : Upload) : ST (W * Stream) Errno (list UploadedPart) :=
  let! s := sget in
  if negb (bool_decide (sm_buffer s.2 = [])) || bool_decide (up_parts upload = []) then
    let! number := slift (if I32_MAX <? len (up_parts upload) + 1 then Err EFBIG else Ok (len (up_parts upload) + 1)) in
    let! body := take_buffer in
    let! etag := on_store (request (o_upload_part ops (mkUploadPartRequest bucket key (up_id upload) number body))) in
    sret (up_parts upload ++ [mkUploadedPart number etag])
  else sret (up_parts upload).

Definition finish_stream (key : str) : ST (W * Stream) Errno unit :=
  let! s := sget in
  match sm_upload s.2 with
  | None =>
      let! body := take_buffer in
      on_store (put_object key body (sm_precondition s.2))
  | Some upload =>
      let! parts := last_parts key upload in
      let exclusive := bool_decide (sm_precondition s.2 = PreAbsent) in
      on_store (map_err (fun e => exclusive_error e exclusive)
        (o_complete_upload ops (mkCompleteUploadRequest bucket key (up_id upload) parts (guard (sm_precondition s.2)))))
  end.

(** ** Handles *)

(** A method on the buffer or the stream of a handle. *)
Definition on_buffer {A} (b : Buffer) (m : ST (W * Buffer) Errno A) : ST (W * HandleState) Errno A :=
  fun s => let '(o, (w, b')) := m (s.1, b) in (o, (w, set_staging (Buffered b') s.2)).
Definition on_stream {A} (x : Stream) (m : ST (W * Stream) Errno A) : ST (W * HandleState) Errno A :=
  fun s => let '(o, (w, x')) := m (s.1, x) in (o, (w, set_staging (Streamed x') s.2)).

(** Everything that could be published is given up at the first failure. *)
Definition fail_stream (error : Errno) : ST (W * HandleState) Errno unit :=
  let! s := sget in
  let! _ := sput (s.1, set_staging (Failed error) s.2) in
  match hs_staging s.2 with
  | Streamed x =>
      match sm_upload x with
      | Some upload => on_store (abort_upload (hs_key s.2) upload)
      | None => sret tt
      end
  | _ => sret tt
  end.

(** [let result = m; if let Err(err) = result { fail_stream(err) } result]. *)
Definition or_fail_stream {A} (m : ST (W * HandleState) Errno A) : ST (W * HandleState) Errno A :=
  let! r := attempt m in
  match r with
  | Err e => let! _ := fail_stream e in sfail e
  | r => slift r
  end.

Definition commit : ST (W * HandleState) Errno unit :=
  let! s := sget in
  match hs_staging s.2 with
  | Failed e => sfail e
  | Remote _ => sret tt
  | Buffered b =>
      if negb (bf_dirty b) then sret tt
      else
        let! _ := sput (s.1, set_staging (Buffered (set_bytes None b)) s.2) in
        on_store (put_object (hs_key s.2) (default [] (bf_bytes b)) (bf_precondition b))
  | Streamed x =>
      let! r := attempt (on_stream x (finish_stream (hs_key s.2))) in
      match r with
      | Err e =>
          let! s := sget in
          let! _ :=
            match hs_staging s.2 with
            | Streamed x =>
                match sm_upload x with
                | Some upload => on_store (abort_upload (hs_key s.2) upload)
                | None => sret tt
                end
            | _ => sret tt
            end in
          sfail e
      | r => slift r
      end
  end.

Definition read_resolved (offset : Z) (buf : bytes) : ST (W * HandleState) Errno (Z * bytes) :=
  let! s := sget in
  if hs_released s.2 then sfail EBADF
  else if negb (m_read (hs_mode s.2)) then sfail EBADF
  else
    match hs_staging s.2 with
    | Remote file => on_store (read_remote (hs_key s.2) file offset buf)
    | Buffered b =>
        let! d := on_buffer b (materialize (hs_key s.2)) in
        let! offset := slift (usize_try_from EINVAL offset) in
        if bool_decide (buf = []) || (len d <=? offset) then sret (0, buf)
        else sret (read_result d offset buf)
    | Streamed _ | Failed _ => sfail EBADF
    end.

Definition write_resolved (offset : Z) (new : bytes) : ST (W * HandleState) Errno Z :=
  let! s := sget in
  if hs_released s.2 then sfail EBADF
  else if negb (m_write (hs_mode s.2)) then sfail EBADF
  else
    match hs_staging s.2 with
    | Failed e => sfail e
    | staging =>
        if bool_decide (new = []) then sret 0
        else
          match staging with
          | Failed e => sfail e
          | Remote _ => sfail EBADF
          | Buffered b => on_buffer b (write_buffer (hs_key s.2) (m_append (hs_mode s.2)) offset new)
          | Streamed x =>
              let! target := slift (if m_append (hs_mode s.2) then stream_end x else Ok offset) in
              if target <? sm_flushed x then sfail EFBIG
              else or_fail_stream (on_stream x (write_stream (hs_key s.2) target new))
          end
    end.

Definition truncate_resolved (n : Z) : ST (W * HandleState) Errno unit :=
  let! s := sget in
  if hs_released s.2 then sfail EINVAL
  else if negb (m_write (hs_mode s.2)) then sfail EINVAL
  else
    match hs_staging s.2 with
    | Failed e => sfail e
    | Remote _ => sfail EINVAL
    | Buffered b => on_buffer b (truncate_buffer (hs_key s.2) n)
    | Streamed x =>
        if n <? sm_flushed x then sfail EFBIG
        else
          let! stop := slift (stream_end x) in
          if stop <? n then or_fail_stream (on_stream x (fill_gap (hs_key s.2) n))
          else
            let! keep := slift (usize_try_from EINVAL (n - sm_flushed x)) in
            sput (s.1, set_staging (Streamed (set_buffer (take (Z.to_nat keep) (sm_buffer x)) x)) s.2)
    end.

(** ** Moving objects *)

Definition rename_file (from to : list str) (file : RemoteFile) : RM unit :=
  let pinned := guard (PreMatch (rf_etag file)) in
  let! _ := request (o_copy ops (mkCopyRequest bucket (key from) (key to) pinned)) in
  request (o_delete ops (mkDeleteRequest bucket (key from) pinned)).

(** Every destination is within the path limit. *)
Fixpoint check_depths (from_prefix : str) (depth : nat) (keys : list str) : outcome Errno unit :=
  match keys with
  | [] => Ok tt
  | k :: keys =>
      let? suffix := ok_or EIO (strip_prefix k from_prefix) in
      if (MAX_PATH_DEPTH <? depth + length (filter (fun p => p <> []) (split (ch "/") suffix)))%nat then Err EINVAL
      else check_depths from_prefix depth keys
  end.

Fixpoint copy_keys (from_prefix to_prefix : str) (keys : list str) : RM unit :=
  match keys with
  | [] => sret tt
  | k :: keys =>
      let! _ :=
        match strip_prefix k from_prefix with
        | Some suffix => request (o_copy ops (mkCopyRequest bucket k (to_prefix ++ suffix) PreNone))
        | None => sret tt
        end in
      copy_keys from_prefix to_prefix keys
  end.

Fixpoint delete_keys (keys : list str) : RM unit :=
  match keys with
  | [] => sret tt
  | k :: keys => let! _ := request (o_delete ops (mkDeleteRequest bucket k PreNone)) in delete_keys keys
  end.

Definition rename_directory (from to : list str) : RM unit :=
  let from_prefix := directory_prefix from in
  let to_prefix := directory_prefix to in
  let! keys := list_recursive from_prefix in
  let! _ := slift (check_depths from_prefix (length to) keys) in
  let! _ := copy_keys from_prefix to_prefix keys in
  delete_keys keys.

(** ** The methods on paths *)

Definition s3_stat (path : str) : RM Metadata :=
  let! components := slift (normalize_path path) in
  let! _ := validate_parents components in
  let! kind := kind_at components in
  match kind with
  | Some (KindDirectory _) => sret (mkMetadata DirectoryType 0)
  | Some (KindFile file) => sret (mkMetadata RegularFile (rf_len file))
  | None => sfail ENOENT
  end.

Definition s3_readdir (path : str) : RM (list DirEntry) :=
  let! components := slift (normalize_path path) in
  let! _ := validate_parents components in
  let! listing := list_directory components in
  if dl_exists listing then sret (dl_entries listing)
  else
    let! r := attempt (o_head ops (mkHeadRequest bucket (key components))) in
    match r with
    | Ok _ => sfail ENOTDIR
    | Err Missing => sfail ENOENT
    | Err e => sfail (into_vfs e)
    | Panic => slift Panic
    | OutOfFuel => slift OutOfFuel
    end.

Definition s3_mkdir (path : str) : RM unit :=
  let! components := slift (normalize_path path) in
  let! _ := slift require_writable in
  if bool_decide (components = []) then sfail EEXIST
  else
    let! _ := validate_parents components in
    let! kind := kind_at components in
    match kind with
    | Some _ => sfail EEXIST
    | None => put_object (directory_prefix components) [] PreAbsent
    end.

Definition is_directory_kind (k : Kind) : bool := match k with KindDirectory _ => true | KindFile _ => false end.

(** Whether what is at the target is in the way. *)
Definition rename_conflict (source : Kind) (target : option Kind) : outcome Errno unit :=
  match source, target with
  | KindFile _, Some (KindDirectory _) => Err EISDIR
  | KindDirectory _, Some (KindFile _) => Err ENOTDIR
  | KindDirectory _, Some (KindDirectory true) => Err ENOTEMPTY
  | _, _ => Ok tt
  end.

Definition s3_rename (from to : str) : RM unit :=
  let! from := slift (normalize_path from) in
  let! to := slift (normalize_path to) in
  let! _ := slift require_writable in
  if bool_decide (from = []) || bool_decide (to = []) then sfail EINVAL
  else
    let! _ := validate_parents from in
    let! source := kind_at from in
    let! source := slift (ok_or ENOENT source) in
    if bool_decide (from = to) then sret tt
    else if is_directory_kind source && bool_decide (from `prefix_of` to) then sfail EINVAL
    else
      let! _ := validate_parents to in
      let! target := kind_at to in
      let! _ := slift (rename_conflict source target) in
      let! _ :=
        match source with
        | KindFile file => rename_file from to file
        | KindDirectory _ => if negb (cfg_directory_rename config) then sfail EXDEV else rename_directory from to
        end in
      preserve_directory (removelast from).

Definition s3_unlink (path : str) : RM unit :=
  let! components := slift (normalize_path path) in
  let! _ := slift require_writable in
  if bool_decide (components = []) then sfail EISDIR
  else
    let! _ := validate_parents components in
    let! kind := kind_at components in
    match kind with
    | Some (KindDirectory _) => sfail EISDIR
    | None => sfail ENOENT
    | Some (KindFile file) =>
        let! _ := request (o_delete ops (mkDeleteRequest bucket (key components) (guard (PreMatch (rf_etag file))))) in
        preserve_directory (removelast components)
    end.

Definition s3_rmdir (path : str) : RM unit :=
  let! components := slift (normalize_path path) in
  let! _ := slift require_writable in
  if bool_decide (components = []) then sfail EBUSY
  else
    let! _ := validate_parents components in
    let! kind := kind_at components in
    match kind with
    | Some (KindFile _) => sfail ENOTDIR
    | Some (KindDirectory true) => sfail ENOTEMPTY
    | None => sfail ENOENT
    | Some (KindDirectory false) =>
        let! r := attempt (o_delete ops (mkDeleteRequest bucket (directory_prefix components) PreNone)) in
        match r with
        | Ok _ | Err Missing => preserve_directory (removelast components)
        | Err e => sfail (into_vfs e)
        | Panic => slift Panic
        | OutOfFuel => slift OutOfFuel
        end
    end.

(** What a handle stages, by the mode and by what is at the path. *)
Definition staging_for (mode : OpenMode) (existing : option RemoteFile) : outcome Errno Staging :=
  if negb (m_write mode) then
    match existing with
    | Some file => if m_create_new mode then Err EEXIST else Ok (Remote file)
    | None =>
        if m_create mode then Ok (Buffered (mkBuffer None (creation_precondition mode) (Some []) true))
        else Err ENOENT
    end
  else
    match existing with
    | Some file =>
        if m_create_new mode then Err EEXIST
        else
          let precondition := PreMatch (rf_etag file) in
          if m_truncate mode && negb (m_read mode) then Ok (Streamed (stream_new precondition))
          else if m_truncate mode then Ok (Buffered (mkBuffer (Some file) precondition (Some []) true))
          else Ok (Buffered (mkBuffer (Some file) precondition None false))
    | None =>
        if negb (m_create mode) then Err ENOENT
        else
          let precondition := creation_precondition mode in
          if m_read mode then Ok (Buffered (mkBuffer None precondition (Some []) true))
          else Ok (Streamed (stream_new precondition))
    end.

(** What [open] asks of the store. *)
Definition open_target (path : str) (mode : OpenMode) : RM (str * Staging) :=
  let! _ := slift (validate mode) in
  let! components := slift (normalize_path path) in
  let! _ := slift (if m_write mode || m_create mode then require_writable else Ok tt) in
  if bool_decide (components = []) then sfail EISDIR
  else
    let! _ := validate_parents components in
    let! kind := kind_at components in
    let! existing :=
      match kind with
      | Some (KindDirectory _) => sfail EISDIR
      | Some (KindFile file) => sret (Some file)
      | None => sret None
      end in
    let! staging := slift (staging_for mode existing) in
    sret (key components, staging).

(** ** The methods on handles *)

Abbreviation SM := (ST (S3State W) Errno).

Definition on_s3_store {A} (m : RM A) : SM A :=
  fun s => let '(o, w') := m (s3_store s) in (o, mkS3State w' (s3_next_handle s) (s3_handles s) (s3_cells s)).

Definition insert_handle (key : str) (mode : OpenMode) (staging : Staging) : SM FileHandle :=
  let! s := sget in
  let handle := s3_next_handle s in
  let! next := slift (ok_or EIO (checked_add handle 1)) in
  let! _ := sput (mkS3State (s3_store s) next (s3_handles s ++ [handle])
                    (<[handle := mkHandleState key mode staging false]> (s3_cells s))) in
  sret handle.

Definition s3_open (path : str) (mode : OpenMode) : SM FileHandle :=
  let! (key, staging) := on_s3_store (open_target path mode) in
  insert_handle key mode staging.

(** [self.handle_state(handle)]: the cell of a handle of the table. *)
Definition handle_state (handle : FileHandle) : SM Z :=
  let! s := sget in
  if bool_decide (handle ∈ s3_handles s) then sret handle else sfail EBADF.

(** What a method does under the lock of a cell. *)
Definition with_cell {A} (cell : Z) (m : ST (W * HandleState) Errno A) : SM A :=
  let! s := sget in
  let! h := slift (expect (s3_cells s !! cell)) in
  let '(o, (w, h')) := m (s3_store s, h) in
  let! _ := sput (mkS3State w (s3_next_handle s) (s3_handles s) (<[cell := h']> (s3_cells s))) in
  slift o.

Definition s3_read_at (handle : FileHandle) (offset : Z) (buf : bytes) : SM (Z * bytes) :=
  let! cell := handle_state handle in with_cell cell (read_resolved offset buf).
Definition s3_write_at (handle : FileHandle) (offset : Z) (new : bytes) : SM Z :=
  let! cell := handle_state handle in with_cell cell (write_resolved offset new).
Definition s3_truncate (handle : FileHandle) (n : Z) : SM unit :=
  let! cell := handle_state handle in with_cell cell (truncate_resolved n).

(** [self.state().handles.remove(&handle)]. *)
Definition remove_handle (handle : FileHandle) : SM Z :=
  let! cell := handle_state handle in
  let! s := sget in
  let! _ := sput (mkS3State (s3_store s) (s3_next_handle s) (filter (fun h => h <> handle) (s3_handles s)) (s3_cells s)) in
  sret cell.

Definition abort_cell : ST (W * HandleState) Errno unit :=
  let! s := sget in
  let! _ := sput (s.1, release s.2) in
  match hs_staging s.2 with
  | Streamed x =>
      match sm_upload x with
      | Some upload => on_store (request (o_abort_upload ops (mkAbortUploadRequest bucket (hs_key s.2) (up_id upload))))
      | None => sret tt
      end
  | _ => sret tt
  end.

Definition close_cell : ST (W * HandleState) Errno unit :=
  let! s := sget in
  let! _ := sput (s.1, release s.2) in
  commit.

Definition s3_abort (handle : FileHandle) : SM unit := let! cell := remove_handle handle in with_cell cell abort_cell.
Definition s3_close (handle : FileHandle) : SM unit := let! cell := remove_handle handle in with_cell cell close_cell.

(** [Drop]: the uploads still open are aborted. *)
Definition drop_cell : ST (W * HandleState) Errno unit :=
  let! s := sget in
  match hs_staging s.2 with
  | Streamed x =>
      match sm_upload x with
      | Some upload => on_store (abort_upload (hs_key s.2) upload)
      | None => sret tt
      end
  | _ => sret tt
  end.

Fixpoint drop_cells (cells : list Z) : SM unit :=
  match cells with
  | [] => sret tt
  | cell :: cells => let! _ := with_cell cell drop_cell in drop_cells cells
  end.

Definition s3_drop : SM unit :=
  let! s := sget in
  let! _ := sput (mkS3State (s3_store s) (s3_next_handle s) [] (s3_cells s)) in
  drop_cells (s3_handles s).

Definition s3_vfs : Vfs (S3State W) :=
  mkVfs
    (fun p => on_s3_store (s3_stat p))
    (fun p => on_s3_store (s3_readdir p))
    (fun p => on_s3_store (s3_mkdir p))
    (fun a b => on_s3_store (s3_rename a b))
    (fun p => on_s3_store (s3_unlink p))
    (fun p => on_s3_store (s3_rmdir p))
    s3_open s3_read_at s3_write_at s3_truncate s3_close s3_abort
    (fun _ => false)
    (fun _ _ => false)
    false
    (fun _ => None).
End paths.
