(* ===== verification/S3Bucket.v ===== *)
(** * A bucket in memory (the tests of src/src/vfs/s3.rs)

    The store that the tests of the source run the filesystem against,
    [FakeBucket]: objects by key, each revision with an entity tag of its own, and
    the multipart uploads begun and not yet completed. *)

From Stdlib Require Import Ascii String.
From S2P Require Import Prelude RustStr BTreeMap VfsTypes SandboxFs S3Types.

#[local] Open Scope Z_scope.

Record StoredObject := mkStoredObject { so_body : bytes; so_etag : str }.

Record PendingUpload := mkPendingUpload { pu_key : str; pu_parts : gmap Z bytes }.

Record BucketState := mkBucketState {
  objects : list (str * StoredObject);
  uploads : list (str * PendingUpload);
  next_etag : Z;
  next_upload : Z;
  aborted : list str;
  fail_part : option Z;
  mutations : Z;
  completed : Z;
  lists : list ListRequest;
  listed_entries : Z
}.

Definition empty_bucket : BucketState := mkBucketState [] [] 0 0 [] None 0 0 [] 0.

Abbreviation BM := (ST BucketState RemoteError).

Definition set_objects (o : list (str * StoredObject)) (etag : Z) (s : BucketState) : BucketState :=
  mkBucketState o (uploads s) etag (next_upload s) (aborted s) (fail_part s) (mutations s) (completed s) (lists s)
    (listed_entries s).
Definition set_uploads (u : list (str * PendingUpload)) (next : Z) (s : BucketState) : BucketState :=
  mkBucketState (objects s) u (next_etag s) next (aborted s) (fail_part s) (mutations s) (completed s) (lists s)
    (listed_entries s).
Definition count_mutation (s : BucketState) : BucketState :=
  mkBucketState (objects s) (uploads s) (next_etag s) (next_upload s) (aborted s) (fail_part s) (mutations s + 1)
    (completed s) (lists s) (listed_entries s).
Definition count_completed (s : BucketState) : BucketState :=
  mkBucketState (objects s) (uploads s) (next_etag s) (next_upload s) (aborted s) (fail_part s) (mutations s)
    (completed s + 1) (lists s) (listed_entries s).
Definition note_aborted (id : str) (s : BucketState) : BucketState :=
  mkBucketState (objects s) (uploads s) (next_etag s) (next_upload s) (aborted s ++ [id]) (fail_part s) (mutations s)
    (completed s) (lists s) (listed_entries s).
Definition note_list (r : ListRequest) (n : Z) (s : BucketState) : BucketState :=
  mkBucketState (objects s) (uploads s) (next_etag s) (next_upload s) (aborted s) (fail_part s) (mutations s) (completed s)
    (lists s ++ [r]) (listed_entries s + n).

Definition quoted (t : str) : str := ch DQUOTE :: t ++ [ch DQUOTE].

(** [mint_etag] and [store]. *)
Definition etag_text (n : Z) : str := quoted (lit "etag-" ++ Z_to_string n).
Definition store (k : str) (body : bytes) (s : BucketState) : BucketState :=
  let n := next_etag s + 1 in set_objects (bt_insert k (mkStoredObject body (etag_text n)) (objects s)) n s.

Definition check_condition (k : str) (p : Precondition) (s : BucketState) : outcome RemoteError unit :=
  match p with
  | PreNone => Ok tt
  | PreAbsent => match bt_get k (objects s) with Some _ => Err PreconditionFailed | None => Ok tt end
  | PreMatch etag =>
      match bt_get k (objects s) with
      | Some o => if bool_decide (so_etag o = etag) then Ok tt else Err PreconditionFailed
      | None => Err Missing
      end
  end.

Definition mutate : BM unit := let! s := sget in sput (count_mutation s).

Definition fake_head (q : HeadRequest) : BM RemoteFile :=
  let! s := sget in
  let! o := slift (ok_or Missing (bt_get (hq_key q) (objects s))) in
  sret (mkRemoteFile (len (so_body o)) (so_etag o)).

(** The entries of a listing: a key, or the prefix up to the delimiter that
    stands for all keys below it, which has no size. *)
Definition list_entry (q : ListRequest) (k : str) (o : StoredObject) : option (str * option Z) :=
  match strip_prefix k (lq_prefix q) with
  | None => None
  | Some relative =>
      let whole := (k, Some (len (so_body o))) in
      Some (if bool_decide (lq_delimiter q = []) then whole
            else match find_str relative (lq_delimiter q) with
                 | Some index => (lq_prefix q ++ default [] (take_bytes relative index) ++ lq_delimiter q, None)
                 | None => whole
                 end)
  end.

Definition after (continuation : option str) (k : str) : bool :=
  match continuation with
  | None => true
  | Some a => match str_compare k a with Gt => true | _ => false end
  end.

Definition add_entry (q : ListRequest) (entries : list (str * option Z)) (x : str * StoredObject) : list (str * option Z) :=
  match list_entry q x.1 x.2 with
  | Some (k, size) => if after (lq_continuation q) k then bt_insert k size entries else entries
  | None => entries
  end.

Definition page_of (q : ListRequest) (s : BucketState) : ListResult :=
  let entries := foldl (add_entry q) [] (objects s) in
  let limit := Z.to_nat (default 1000 (lq_max_keys q)) in
  let truncated := bool_decide (limit < length entries)%nat in
  let shown := take limit entries in
  mkListResult
    (omap (fun e => (fun size => mkListedObject e.1 size) <$> e.2) shown)
    (omap (fun e => match e.2 with None => Some e.1 | Some _ => None end) shown)
    truncated
    (if truncated then fst <$> last shown else None).

Definition fake_list (q : ListRequest) : BM ListResult :=
  let! s := sget in
  let page := page_of q s in
  let! _ := sput (note_list q (len (lr_objects page) + len (lr_common_prefixes page)) s) in
  sret page.

(** [range.strip_prefix(bytes=)] and [split_once('-')]. *)
Definition parse_range (range : str) : option (Z * Z) :=
  match strip_prefix range (lit "bytes=") with
  | None => None
  | Some r =>
      match split (ch "-") r with
      | first :: rest =>
          if bool_decide (rest = []) then None
          else
            match parse_unsigned USIZE_MAX first, parse_unsigned USIZE_MAX (join (lit "-") rest) with
            | Some a, Some b => Some (a, b)
            | _, _ => None
            end
      | [] => None
      end
  end.

Definition fake_get (q : GetRequest) : BM GetResult :=
  let! s := sget in
  let! o := slift (ok_or Missing (bt_get (gq_key q) (objects s))) in
  if negb (bool_decide (so_etag o = gq_if_match q)) then sfail PreconditionFailed
  else
    let! (first, final) := slift (ok_or Io (parse_range (gq_range q))) in
    if (final <? len (so_body o)) && (first <=? final + 1) then
      let body := take (Z.to_nat (final + 1 - first)) (drop (Z.to_nat first) (so_body o)) in
      sret (mkGetResult body (len body) (Some (so_etag o))
              (Some (lit "bytes " ++ Z_to_string first ++ lit "-" ++ Z_to_string final ++ lit "/" ++ Z_to_string (len (so_body o)))))
    else sfail Io.

Definition fake_put (q : PutRequest) : BM unit :=
  let! _ := mutate in
  let! s := sget in
  let! _ := slift (check_condition (pq_key q) (pq_precondition q) s) in
  sput (store (pq_key q) (pq_body q) s).

Definition fake_delete (q : DeleteRequest) : BM unit :=
  let! _ := mutate in
  let! s := sget in
  let! _ := slift (check_condition (dq_key q) (dq_precondition q) s) in
  let! _ := sput (set_objects (bt_remove (dq_key q) (objects s)) (next_etag s) s) in
  let! _ := slift (ok_or Missing (bt_get (dq_key q) (objects s))) in
  sret tt.

Definition fake_copy (q : CopyRequest) : BM unit :=
  let! _ := mutate in
  let! s := sget in
  let! _ := slift (check_condition (cq_source_key q) (cq_source_if_match q) s) in
  let! o := slift (ok_or Missing (bt_get (cq_source_key q) (objects s))) in
  sput (store (cq_key q) (so_body o) s).

Definition fake_create_upload (q : CreateUploadRequest) : BM str :=
  let! _ := mutate in
  let! s := sget in
  let n := next_upload s + 1 in
  let id := lit "upload-" ++ Z_to_string n in
  let! _ := sput (set_uploads (bt_insert id (mkPendingUpload (uq_key q) ∅) (uploads s)) n s) in
  sret id.

Definition fake_upload_part (q : UploadPartRequest) : BM str :=
  let! _ := mutate in
  let! s := sget in
  if bool_decide (fail_part s = Some (tq_part_number q)) then sfail Io
  else
    let! u := slift (ok_or Missing (bt_get (tq_upload_id q) (uploads s))) in
    if negb (bool_decide (pu_key u = tq_key q)) then slift Panic
    else
      let u' := mkPendingUpload (pu_key u) (<[tq_part_number q := tq_body q]> (pu_parts u)) in
      let! _ := sput (set_uploads (bt_insert (tq_upload_id q) u' (uploads s)) (next_upload s) s) in
      sret (quoted (lit "part-" ++ Z_to_string (tq_part_number q))).

(** The parts of a request, in its order. *)
Fixpoint gather (parts : list UploadedPart) (u : gmap Z bytes) : outcome RemoteError bytes :=
  match parts with
  | [] => Ok []
  | p :: parts =>
      let? body := ok_or Io (u !! part_number p) in
      let? rest := gather parts u in
      Ok (body ++ rest)
  end.

Definition fake_complete_upload (q : CompleteUploadRequest) : BM unit :=
  let! _ := mutate in
  let! s := sget in
  let! _ := sput (count_completed s) in
  let! u := slift (ok_or Missing (bt_get (eq_upload_id q) (uploads s))) in
  let! _ := slift (check_condition (eq_key q) (eq_precondition q) s) in
  if negb (bool_decide (part_number <$> eq_parts q = Z.of_nat <$> seq 1 (length (eq_parts q)))) then slift Panic
  else
    let! body := slift (gather (eq_parts q) (pu_parts u)) in
    let! s := sget in
    let s := set_uploads (bt_remove (eq_upload_id q) (uploads s)) (next_upload s) s in
    sput (store (eq_key q) body s).

Definition fake_abort_upload (q : AbortUploadRequest) : BM unit :=
  let! _ := mutate in
  let! s := sget in
  let s := note_aborted (aq_upload_id q) s in
  let! _ := sput (set_uploads (bt_remove (aq_upload_id q) (uploads s)) (next_upload s) s) in
  let! _ := slift (ok_or Missing (bt_get (aq_upload_id q) (uploads s))) in
  sret tt.

Definition fake_bucket : S3Ops BucketState :=
  mkS3Ops fake_head fake_list fake_get fake_put fake_delete fake_copy fake_create_upload fake_upload_part
    fake_complete_upload fake_abort_upload.
