(* ===== verification/S3Scope.v ===== *)
(** * Which requests the S3 filesystem makes

    Whatever the store answers, every request names the bucket and a key below the
    root prefix, and a read-only filesystem makes no request that changes the
    store.  The lemmas are about any property of the store that such requests
    keep; a store that writes down its requests gives the trace. *)

From Stdlib Require Import Ascii String.
From S2P Require Import Prelude RustStr VfsTypes VfsPath VfsIface SandboxFs S3Types S3Vfs.

#[local] Open Scope Z_scope.

(** ** Calls *)

(** The calls a client can make.  The [Cell] calls are those of a method that
    resolved its handle before another thread closed or aborted it. *)
Inductive S3Call :=
| CallStat (path : str)
| CallReaddir (path : str)
| CallMkdir (path : str)
| CallRename (from to : str)
| CallUnlink (path : str)
| CallRmdir (path : str)
| CallOpen (path : str) (mode : OpenMode)
| CallReadAt (handle : FileHandle) (offset : Z) (buf : bytes)
| CallWriteAt (handle : FileHandle) (offset : Z) (new : bytes)
| CallTruncate (handle : FileHandle) (n : Z)
| CallClose (handle : FileHandle)
| CallAbort (handle : FileHandle)
| CellReadAt (cell : Z) (offset : Z) (buf : bytes)
| CellWriteAt (cell : Z) (offset : Z) (new : bytes)
| CellTruncate (cell : Z) (n : Z)
| CallDrop.

(** The state a call leaves, whatever it returns. *)
Definition after_call {W} (v : S3Vfs W) (pages : W -> nat) (c : S3Call) (s : S3State W) : S3State W :=
  match c with
  | CallStat p => (v_stat (s3_vfs v pages) p s).2
  | CallReaddir p => (v_readdir (s3_vfs v pages) p s).2
  | CallMkdir p => (v_mkdir (s3_vfs v pages) p s).2
  | CallRename a b => (v_rename (s3_vfs v pages) a b s).2
  | CallUnlink p => (v_unlink (s3_vfs v pages) p s).2
  | CallRmdir p => (v_rmdir (s3_vfs v pages) p s).2
  | CallOpen p m => (v_open (s3_vfs v pages) p m s).2
  | CallReadAt h o b => (v_read_at (s3_vfs v pages) h o b s).2
  | CallWriteAt h o b => (v_write_at (s3_vfs v pages) h o b s).2
  | CallTruncate h n => (v_truncate (s3_vfs v pages) h n s).2
  | CallClose h => (v_close (s3_vfs v pages) h s).2
  | CallAbort h => (v_abort (s3_vfs v pages) h s).2
  | CellReadAt c o b => (with_cell c (read_resolved v o b) s).2
  | CellWriteAt c o b => (with_cell c (write_resolved v o b) s).2
  | CellTruncate c n => (with_cell c (truncate_resolved v n) s).2
  | CallDrop => (s3_drop v s).2
  end.

Definition after_calls {W} (v : S3Vfs W) (pages : W -> nat) (calls : list S3Call) (s : S3State W) : S3State W :=
  foldl (fun s c => after_call v pages c s) s calls.

(** ** Requests *)

Inductive Request :=
| RqHead (q : HeadRequest)
| RqList (q : ListRequest)
| RqGet (q : GetRequest)
| RqPut (q : PutRequest)
| RqDelete (q : DeleteRequest)
| RqCopy (q : CopyRequest)
| RqCreateUpload (q : CreateUploadRequest)
| RqUploadPart (q : UploadPartRequest)
| RqCompleteUpload (q : CompleteUploadRequest)
| RqAbortUpload (q : AbortUploadRequest).

Definition request_bucket (q : Request) : str :=
  match q with
  | RqHead q => hq_bucket q
  | RqList q => lq_bucket q
  | RqGet q => gq_bucket q
  | RqPut q => pq_bucket q
  | RqDelete q => dq_bucket q
  | RqCopy q => cq_bucket q
  | RqCreateUpload q => uq_bucket q
  | RqUploadPart q => tq_bucket q
  | RqCompleteUpload q => eq_bucket q
  | RqAbortUpload q => aq_bucket q
  end.

(** The keys, or the prefix of keys, that a request is about. *)
Definition request_keys (q : Request) : list str :=
  match q with
  | RqHead q => [hq_key q]
  | RqList q => [lq_prefix q]
  | RqGet q => [gq_key q]
  | RqPut q => [pq_key q]
  | RqDelete q => [dq_key q]
  | RqCopy q => [cq_source_key q; cq_key q]
  | RqCreateUpload q => [uq_key q]
  | RqUploadPart q => [tq_key q]
  | RqCompleteUpload q => [eq_key q]
  | RqAbortUpload q => [aq_key q]
  end.

Definition mutates (q : Request) : bool :=
  match q with RqHead _ | RqList _ | RqGet _ => false | _ => true end.

Definition under {W} (v : S3Vfs W) (k : str) : Prop := starts_with k (s3_root_prefix v) = true.

Definition allowed {W} (v : S3Vfs W) (q : Request) : Prop :=
  request_bucket q = s3_bucket v /\ Forall (under v) (request_keys q)
  /\ (mutates q = true -> cfg_read_only (s3_config v) = false).

(** A store that writes down its requests. *)
Definition noted {W A} (q : Request) (m : ST W RemoteError A) : ST (W * list Request) RemoteError A :=
  fun s => let '(o, w') := m s.1 in (o, (w', s.2 ++ [q])).

Definition traced {W} (ops : S3Ops W) : S3Ops (W * list Request) :=
  mkS3Ops
    (fun q => noted (RqHead q) (o_head ops q))
    (fun q => noted (RqList q) (o_list ops q))
    (fun q => noted (RqGet q) (o_get ops q))
    (fun q => noted (RqPut q) (o_put ops q))
    (fun q => noted (RqDelete q) (o_delete ops q))
    (fun q => noted (RqCopy q) (o_copy ops q))
    (fun q => noted (RqCreateUpload q) (o_create_upload ops q))
    (fun q => noted (RqUploadPart q) (o_upload_part ops q))
    (fun q => noted (RqCompleteUpload q) (o_complete_upload ops q))
    (fun q => noted (RqAbortUpload q) (o_abort_upload ops q)).

Lemma leaves_on_store {W X E A} (m : ST W E A) (s : W * X) (Q : A -> W * X -> Prop) (P : W * X -> Prop) :
  leaves m s.1 (fun a w' => Q a (w', s.2)) (fun w' => P (w', s.2)) -> leaves (on_store m) s Q P.
Proof. unfold leaves, on_store. by destruct (m s.1) as [[] ?]. Qed.

Section scope.
Context {W : Type} (v : S3Vfs W) (pages : W -> nat) (P : W -> Prop).

Abbreviation ops := (s3_ops v).
Abbreviation bucket := (s3_bucket v).
Abbreviation under := (under v).
Abbreviation writable := (cfg_read_only (s3_config v) = false).
Abbreviation fine m w := (leaves m w (fun _ => P) P).

(** The store keeps [P] when it is asked what may be asked. *)
Record Keeps : Prop := {
  keep_head q w : allowed v (RqHead q) -> P w -> P (o_head ops q w).2;
  keep_list q w : allowed v (RqList q) -> P w -> P (o_list ops q w).2;
  keep_get q w : allowed v (RqGet q) -> P w -> P (o_get ops q w).2;
  keep_put q w : allowed v (RqPut q) -> P w -> P (o_put ops q w).2;
  keep_delete q w : allowed v (RqDelete q) -> P w -> P (o_delete ops q w).2;
  keep_copy q w : allowed v (RqCopy q) -> P w -> P (o_copy ops q w).2;
  keep_create_upload q w : allowed v (RqCreateUpload q) -> P w -> P (o_create_upload ops q w).2;
  keep_upload_part q w : allowed v (RqUploadPart q) -> P w -> P (o_upload_part ops q w).2;
  keep_complete_upload q w : allowed v (RqCompleteUpload q) -> P w -> P (o_complete_upload ops q w).2;
  keep_abort_upload q w : allowed v (RqAbortUpload q) -> P w -> P (o_abort_upload ops q w).2
}.
Context (HP : Keeps).

(** ** Keys *)

Lemma under_key cs : cs <> [] -> under (key v cs).
Proof. intros H. unfold key. rewrite bool_decide_false by done. apply starts_with_prefix. Qed.

Lemma under_app k t : under k -> under (k ++ t).
Proof. unfold S3Scope.under. rewrite !starts_with_app. intros [r ->]. exists (r ++ t). by rewrite app_assoc. Qed.

Lemma under_directory cs : under (directory_prefix v cs).
Proof.
  unfold directory_prefix. case_bool_decide as H; [|by apply under_app, under_key].
  rewrite <- (app_nil_r (s3_root_prefix v)) at 1. apply starts_with_prefix.
Qed.

Lemma under_starts k p : under p -> starts_with k p = true -> under k.
Proof. rewrite !starts_with_app. intros Hp [r ->]. by apply under_app. Qed.
Hint Resolve under_key under_directory : core.

(** A request on one key. *)
Lemma allowed_query q k : request_bucket q = bucket -> request_keys q = [k] -> mutates q = false -> under k -> allowed v q.
Proof. intros Hb Hk Hm Hu. split; [done|]. rewrite Hk, Hm. split; [by apply Forall_singleton|done]. Qed.

Lemma allowed_change q k : request_bucket q = bucket -> request_keys q = [k] -> under k -> writable -> allowed v q.
Proof. intros Hb Hk Hu Hw. split; [done|]. rewrite Hk. split; [by apply Forall_singleton|done]. Qed.

(** ** The methods on the store *)

Lemma fine_request {A E} (f : RemoteError -> E) (m : ST W RemoteError A) w : P (m w).2 -> fine (map_err f m) w.
Proof. intros H. apply leaves_map_err. by apply leaves_state. Qed.

Lemma fine_attempt {A} (m : ST W RemoteError A) w : P (m w).2 -> leaves (attempt (F := Errno) m) w (fun _ => P) P.
Proof. intros H. apply leaves_attempt; [by apply leaves_state|done]. Qed.

Lemma fine_put_object k body p w : under k -> writable -> P w -> fine (put_object v k body p) w.
Proof. intros. apply fine_request, (keep_put HP); [|done]. by eapply allowed_change. Qed.

Lemma fine_list q w : lq_bucket q = bucket -> under (lq_prefix q) -> P w -> fine (request (o_list ops q)) w.
Proof. intros. apply fine_request, (keep_list HP); [|done]. by eapply allowed_query. Qed.

Lemma fine_head cs w : cs <> [] -> P w -> fine (attempt (F := Errno) (o_head ops (mkHeadRequest bucket (key v cs)))) w.
Proof. intros. apply fine_attempt, (keep_head HP); [|done]. apply (allowed_query _ (key v cs)); auto. Qed.

(** A listing that found something keeps it; the root is there from the start. *)
Lemma add_objects_found prefix page acc :
  acc.1 = true ->
  (foldl (add_common_prefix prefix) (foldl (add_object prefix) acc (lr_objects page)) (lr_common_prefixes page)).1 = true.
Proof.
  intros H. assert ((foldl (add_object prefix) acc (lr_objects page)).1 = true) as Ho.
  { revert acc H. induction (lr_objects page) as [|o os IH]; intros [found es] H; [done|]. simpl in *. subst found.
    apply IH. repeat case_match; by simplify_eq/=. }
  revert Ho. generalize (foldl (add_object prefix) acc (lr_objects page)).
  induction (lr_common_prefixes page) as [|c cs IH]; intros [found es] Ho; [done|]. simpl in *. subst found.
  apply IH. repeat case_match; by simplify_eq/=.
Qed.

Lemma fine_scan_loop n prefix probe c seen acc w :
  under prefix -> P w ->
  leaves (scan_loop v n prefix probe c seen acc) w (fun l w' => (acc.1 = true -> dl_exists l = true) /\ P w') P.
Proof.
  intros Hu. revert w c seen acc. induction n as [|n IH]; intros w c seen acc Hw; [done|].
  cbn [scan_loop]. leaves_step. eapply leaves_mono; [by apply fine_list| |done].
  intros page w1 H1. cbv zeta. leaves_step. leaves_step; [|done]. leaves_step; [leaves_step|].
  - leaves_step. split; [|done]. apply add_objects_found.
  - eapply leaves_mono; [by apply IH| |done]. intros l' w2 [Hf H2]. split; [|done]. intros Ha. by apply Hf, add_objects_found.
  - leaves_step. split; [|done]. apply add_objects_found.
Qed.

Lemma fine_scan cs probe w :
  P w -> leaves (scan_directory v pages cs probe) w (fun l w' => (cs = [] -> dl_exists l = true) /\ P w') P.
Proof.
  intros Hw. unfold scan_directory. do 2 leaves_step. eapply leaves_mono; [apply fine_scan_loop; auto| |done]. intros l w' [Hf H]. split; [|done].
  intros ->. by apply Hf.
Qed.

Lemma fine_kind_at cs w : P w -> fine (kind_at v pages cs) w.
Proof.
  intros Hw. unfold kind_at. leaves_step; [by leaves_step|]. apply bool_decide_eq_false in Heqb.
  leaves_step. eapply leaves_mono; [by apply fine_scan| |done]. intros l w1 [_ H1]. leaves_step; [by leaves_step|].
  leaves_step. eapply leaves_mono; [by apply fine_head| |done]. intros r w2 H2. by leaves_steps.
Qed.

Lemma fine_parents cs w : P w -> fine (validate_parents v pages cs) w.
Proof.
  unfold validate_parents. generalize (seq 1 (length cs - 1)). intros ns. revert w.
  induction ns as [|n ns IH]; intros w Hw; [done|]. cbn [validate_prefixes]. leaves_step.
  eapply leaves_mono; [by apply fine_kind_at| |done]. intros k w1 H1. leaves_steps; try done. by apply IH.
Qed.

Lemma fine_preserve cs w : writable -> P w -> fine (preserve_directory v cs) w.
Proof.
  intros Hwr Hw. unfold preserve_directory. leaves_step; [by leaves_step|]. leaves_step.
  eapply leaves_mono; [by apply fine_list; [done|simpl; auto|]| |done].
  intros page w1 H1. leaves_step; [by leaves_step|]. by apply fine_put_object.
Qed.

Lemma fine_list_recursive_loop n p c seen keys w :
  under p -> P w -> Forall (fun k => starts_with k p = true) keys ->
  leaves (list_recursive_loop v n p c seen keys) w (fun keys w' => Forall (fun k => starts_with k p = true) keys /\ P w') P.
Proof.
  intros Hu. revert w c seen keys. induction n as [|n IH]; intros w c seen keys Hw Hk; [done|].
  cbn [list_recursive_loop]. leaves_step.
  eapply leaves_mono; [by apply fine_list| |done]. intros page w1 H1. leaves_step. leaves_step; [|done].
  assert (Forall (fun k => starts_with k p = true) (keys ++ filter (fun k => starts_with k p = true) (lo_key <$> lr_objects page)))
    as Hk' by (apply Forall_app; split; [done|]; apply Forall_forall; by intros k [? _]%list_elem_of_filter).
  leaves_step; [by apply IH|by leaves_step].
Qed.

Lemma fine_list_recursive p w :
  under p -> P w ->
  leaves (list_recursive v pages p) w (fun keys w' => Forall (fun k => starts_with k p = true) keys /\ P w') P.
Proof. intros Hu Hw. unfold list_recursive. do 2 leaves_step. by apply fine_list_recursive_loop. Qed.

Lemma fine_copy a b p w : under a -> under b -> writable -> P w -> fine (request (o_copy ops (mkCopyRequest bucket a b p))) w.
Proof.
  intros. apply fine_request, (keep_copy HP); [|done]. split; [done|]. split; [by repeat constructor|done].
Qed.

Lemma fine_delete k p w : under k -> writable -> P w -> P (o_delete ops (mkDeleteRequest bucket k p) w).2.
Proof. intros. apply (keep_delete HP); [|done]. by eapply allowed_change. Qed.

Lemma fine_rename_file from to f w : from <> [] -> to <> [] -> writable -> P w -> fine (rename_file v from to f) w.
Proof.
  intros Hf Ht Hwr Hw. unfold rename_file. cbv zeta. leaves_step.
  eapply (leaves_mono _ _ (fun _ => P) _ P); [apply fine_copy; auto| |done]. intros ? w1 H1. apply fine_request, fine_delete; auto.
Qed.

Lemma fine_copy_keys from to keys w :
  under from -> under to -> writable -> P w -> Forall (fun k => starts_with k from = true) keys ->
  fine (copy_keys v from to keys) w.
Proof.
  intros Hf Ht Hwr Hw Hk. revert w Hw. induction Hk as [|k keys Hk _ IH]; intros w Hw; [done|]. cbn [copy_keys].
  leaves_step. eapply (leaves_mono _ _ (fun _ => P) _ P); [|intros ? w1 H1; by apply IH|done].
  leaves_step; [|done]. apply fine_copy; [by apply (under_starts k from)|by apply under_app|done|done].
Qed.

Lemma fine_delete_keys p keys w :
  under p -> writable -> P w -> Forall (fun k => starts_with k p = true) keys -> fine (delete_keys v keys) w.
Proof.
  intros Hp Hwr Hw Hk. revert w Hw. induction Hk as [|k keys Hk _ IH]; intros w Hw; [done|]. cbn [delete_keys].
  leaves_step. eapply (leaves_mono _ _ (fun _ => P) _ P); [|intros ? w1 H1; by apply IH|done].
  apply fine_request, fine_delete; [by apply (under_starts k p)|done|done].
Qed.

Lemma fine_rename_directory from to w : writable -> P w -> fine (rename_directory v pages from to) w.
Proof.
  intros Hwr Hw. unfold rename_directory. cbv zeta. leaves_step.
  eapply leaves_mono; [by apply fine_list_recursive| |done]. intros keys w1 [Hk H1]. leaves_step. leaves_step; [|done].
  leaves_step. eapply leaves_mono; [by apply fine_copy_keys| |done]. intros ? w2 H2. by eapply fine_delete_keys.
Qed.

Lemma fine_writable {A} (k : unit -> ST W Errno A) w :
  P w -> (writable -> fine (k tt) w) -> fine (let! u := slift (require_writable v) in k u) w.
Proof.
  intros Hw Hk. leaves_step. unfold require_writable. destruct (cfg_read_only (s3_config v)) eqn:Hr; [done|].
  leaves_step; [destruct a; auto|done].
Qed.

Lemma fine_at_kind {A} cs (k : option Kind -> ST W Errno A) w :
  P w -> (forall kind w', P w' -> fine (k kind) w') ->
  fine (let! _ := validate_parents v pages cs in let! kind := kind_at v pages cs in k kind) w.
Proof.
  intros Hw Hk. leaves_step. eapply leaves_mono; [by apply fine_parents| |done]. intros ? w1 H1. leaves_step.
  eapply leaves_mono; [by apply fine_kind_at| |done]. intros kind w2 H2. by apply Hk.
Qed.

Lemma fine_stat p w : P w -> fine (s3_stat v pages p) w.
Proof.
  intros Hw. unfold s3_stat. leaves_step. leaves_step; [|done]. apply fine_at_kind; [done|]. intros kind w' H'. by leaves_steps.
Qed.

Lemma fine_readdir p w : P w -> fine (s3_readdir v pages p) w.
Proof.
  intros Hw. unfold s3_readdir. leaves_step. leaves_step; [|done]. leaves_step.
  eapply leaves_mono; [by apply fine_parents| |done]. intros ? w1 H1. leaves_step.
  eapply leaves_mono; [apply (fine_scan a false w1 H1)| |done]. intros l w2 [Hroot H2]. leaves_step; [by leaves_step|].
  leaves_step. eapply leaves_mono; [apply fine_head; [intros Ha%Hroot; congruence|done]| |done].
  intros r w3 H3. by leaves_steps.
Qed.

Lemma fine_mkdir p w : P w -> fine (s3_mkdir v pages p) w.
Proof.
  intros Hw. unfold s3_mkdir. leaves_step. leaves_step; [|done]. apply fine_writable; [done|]. intros Hwr.
  leaves_step; [by leaves_step|]. apply fine_at_kind; [done|]. intros kind w' H'. leaves_step; [by leaves_step|].
  by apply fine_put_object.
Qed.

Lemma fine_rename a b w : P w -> fine (s3_rename v pages a b) w.
Proof.
  intros Hw. unfold s3_rename. leaves_step. leaves_step; [|done]. leaves_step. leaves_step; [|done].
  apply fine_writable; [done|]. intros Hwr. leaves_step; [by leaves_step|]. unbool.
  apply fine_at_kind; [done|]. intros source w1 H1. leaves_step. leaves_step; [|done].
  leaves_step; [by leaves_step|]. leaves_step; [by leaves_step|].
  apply fine_at_kind; [done|]. intros target w2 H2. leaves_step. leaves_step; [|done]. leaves_step.
  eapply (leaves_mono _ _ (fun _ => P) _ P); [|intros ? w3 H3; by apply fine_preserve|done].
  leaves_step; [leaves_step; [by leaves_step|by apply fine_rename_directory]|by apply fine_rename_file].
Qed.

Lemma fine_unlink p w : P w -> fine (s3_unlink v pages p) w.
Proof.
  intros Hw. unfold s3_unlink. leaves_step. leaves_step; [|done]. apply fine_writable; [done|]. intros Hwr.
  leaves_step; [by leaves_step|]. unbool. apply fine_at_kind; [done|]. intros kind w1 H1.
  leaves_step; [leaves_step|by leaves_step]; [by leaves_step|]. leaves_step.
  eapply leaves_mono; [apply fine_request, fine_delete; auto| |done]. intros ? w2 H2. by apply fine_preserve.
Qed.

Lemma fine_rmdir p w : P w -> fine (s3_rmdir v pages p) w.
Proof.
  intros Hw. unfold s3_rmdir. leaves_step. leaves_step; [|done]. apply fine_writable; [done|]. intros Hwr.
  leaves_step; [by leaves_step|]. unbool. apply fine_at_kind; [done|]. intros kind w1 H1.
  assert (fine (let! r := attempt (o_delete ops (mkDeleteRequest bucket (directory_prefix v a) PreNone)) in
    match r with
    | Ok _ | Err Missing => preserve_directory v (removelast a)
    | Err e => sfail (into_vfs e)
    | Panic => slift Panic
    | OutOfFuel => slift OutOfFuel
    end) w1) as Hd.
  { leaves_step. eapply leaves_mono; [apply fine_attempt, fine_delete; auto| |done]. intros r w2 H2.
    repeat case_match; subst; try done; by apply fine_preserve. }
  repeat case_match; subst; try done.
Qed.

Lemma fine_open_target p mode w :
  P w ->
  leaves (open_target v pages p mode) w
    (fun r w' => (under r.1 /\ (cfg_read_only (s3_config v) = true -> exists f, r.2 = Remote f)) /\ P w') P.
Proof.
  intros Hw. unfold open_target. leaves_step. leaves_step; [|done]. leaves_step. leaves_step; [|done].
  leaves_step. leaves_step; [|done]. rename a0 into cs, Heq1 into Hreq. leaves_step; [by leaves_step|]. unbool.
  leaves_step. eapply leaves_mono; [by apply fine_parents| |done]. intros ? w1 Hw1. leaves_step.
  eapply leaves_mono; [by apply fine_kind_at| |done]. intros kind w2 Hw2. leaves_step.
  eapply (leaves_mono _ _ (fun _ => P) _ P); [by leaves_steps| |done]. intros existing w3 Hw3.
  leaves_step. leaves_step; [|done]. leaves_step. split; [|done]. split; [by apply under_key|]. intros Hro.
  unfold require_writable in Hreq. rewrite Hro in Hreq. unfold staging_for in *.
  destruct (m_write mode), (m_create mode); simpl in *; try done. destruct existing; [|done].
  destruct (m_create_new mode); simplify_eq. eauto.
Qed.

(** ** Buffers and streams *)

Abbreviation fine1 m s := (leaves m s (fun _ s' => P s'.1) (fun s' => P s'.1)).

Lemma fine1_then {X A B} (m : ST (W * X) Errno A) (k : A -> ST (W * X) Errno B) s :
  fine1 m s -> (forall a s', P s'.1 -> fine1 (k a) s') -> fine1 (sbind m k) s.
Proof. intros Hm Hk. apply leaves_bind. eapply leaves_mono; [exact Hm|exact Hk|done]. Qed.

Lemma fine1_store {X A} (m : ST W Errno A) (s : W * X) : fine m s.1 -> fine1 (on_store m) s.
Proof. intros H. by apply leaves_on_store. Qed.

Lemma fine_get k q w :
  under k -> P w -> gq_bucket q = bucket -> gq_key q = k -> fine (request (o_get ops q)) w.
Proof.
  intros Hk Hw Hb Hq. apply fine_request, (keep_get HP); [|done]. apply (allowed_query _ k); [done|by simpl; f_equal|done|done].
Qed.

Lemma fine_get_whole k file w : under k -> P w -> fine (get_whole v k file) w.
Proof.
  intros Hk Hw. unfold get_whole. leaves_step; [by leaves_step|]. cbv zeta. leaves_step.
  eapply leaves_mono; [by apply (fine_get k)| |done]. intros ? w1 H1. by leaves_steps.
Qed.

Lemma fine_read_remote k file offset buf w : under k -> P w -> fine (read_remote v k file offset buf) w.
Proof.
  intros Hk Hw. unfold read_remote. leaves_step; [by leaves_step|]. cbv zeta. leaves_step. leaves_step; [|done]. leaves_step.
  eapply leaves_mono; [by apply (fine_get k)| |done]. intros ? w1 H1. by leaves_steps.
Qed.

Lemma fine_materialize k s : under k -> P s.1 -> fine1 (materialize v k) s.
Proof.
  intros Hk Hs. unfold materialize. leaves_step. leaves_step. leaves_step; [by leaves_step|]. apply fine1_then.
  - leaves_step; [|by leaves_step]. leaves_step. leaves_step; [|done]. by apply fine1_store, fine_get_whole.
  - intros d s' Hs'. by leaves_steps.
Qed.

Lemma fine_write_buffer k append offset new s : under k -> P s.1 -> fine1 (write_buffer v k append offset new) s.
Proof.
  intros Hk Hs. unfold write_buffer. apply fine1_then; [by apply fine_materialize|]. intros d s' Hs'. by leaves_steps.
Qed.

Lemma fine_truncate_buffer k n s : under k -> P s.1 -> fine1 (truncate_buffer v k n) s.
Proof.
  intros Hk Hs. unfold truncate_buffer. apply fine1_then; [by apply fine_materialize|]. intros d s' Hs'. by leaves_steps.
Qed.

Lemma fine_flush_loop fuel k s : under k -> writable -> P s.1 -> fine1 (flush_loop v fuel k) s.
Proof.
  intros Hk Hw. revert s. induction fuel as [|fuel IH]; intros s Hs; [done|]. cbn [flush_loop]. leaves_step. leaves_step. cbv zeta.
  leaves_step; [by leaves_step|]. apply fine1_then.
  { unfold upload_id_of. leaves_step. leaves_step. leaves_step; [by leaves_step|]. apply fine1_then.
    - apply fine1_store, fine_request, (keep_create_upload HP); [|done]. by apply (allowed_change _ k).
    - intros id s1 H1. by leaves_steps. }
  intros id s1 H1. do 5 leaves_step. leaves_step; [|done]. apply fine1_then.
  { apply fine1_store, fine_request, (keep_upload_part HP); [|done]. by apply (allowed_change _ k). }
  intros etag s2 H2. do 2 leaves_step. leaves_step. leaves_step; [|done]. cbv zeta. do 2 leaves_step. leaves_step.
  leaves_step; [|done]. do 2 leaves_step. by apply IH.
Qed.

Lemma fine_flush k s : under k -> writable -> P s.1 -> fine1 (flush_parts v k) s.
Proof. intros. unfold flush_parts. do 2 leaves_step. by apply fine_flush_loop. Qed.

Lemma fine_fill_loop fuel k target s : under k -> writable -> P s.1 -> fine1 (fill_loop v fuel k target) s.
Proof.
  intros Hk Hw. revert s. induction fuel as [|fuel IH]; intros s Hs; [done|]. cbn [fill_loop]. do 2 leaves_step. leaves_step.
  leaves_step; [|done]. leaves_step; [by leaves_step|]. cbv zeta. do 2 leaves_step. apply fine1_then; [by apply fine_flush|].
  intros ? s1 H1. by apply IH.
Qed.

Lemma fine_fill k target s : under k -> writable -> P s.1 -> fine1 (fill_gap v k target) s.
Proof. intros. unfold fill_gap. do 2 leaves_step. by apply fine_fill_loop. Qed.

Lemma fine_write_stream k target new s : under k -> writable -> P s.1 -> fine1 (write_stream v k target new) s.
Proof.
  intros Hk Hw Hs. unfold write_stream. apply fine1_then; [by apply fine_fill|]. intros ? s1 H1. do 2 leaves_step.
  do 4 (leaves_step; leaves_step; [|done]). cbv zeta. do 2 leaves_step. apply fine1_then; [by apply fine_flush|done].
Qed.

Lemma fine_abort_upload k u w : under k -> writable -> P w -> fine (abort_upload v k u) w.
Proof.
  intros Hk Hw H. apply leaves_ignored, leaves_state, (keep_abort_upload HP); [|done]. by apply (allowed_change _ k).
Qed.

Lemma fine_finish_stream k s : under k -> writable -> P s.1 -> fine1 (finish_stream v k) s.
Proof.
  intros Hk Hw Hs. unfold finish_stream. do 2 leaves_step. leaves_step.
  - apply fine1_then.
    + unfold last_parts. do 2 leaves_step. leaves_step; [|by leaves_step]. leaves_step. leaves_step; [|done].
      apply fine1_then; [by unfold take_buffer; leaves_steps|]. intros body s1 H1. apply fine1_then; [|by intros ? ? ?].
      apply fine1_store, fine_request, (keep_upload_part HP); [|done]. by apply (allowed_change _ k).
    + intros parts s1 H1. cbv zeta. apply fine1_store, fine_request, (keep_complete_upload HP); [|done].
      by apply (allowed_change _ k).
  - apply fine1_then; [by unfold take_buffer; leaves_steps|]. intros body s1 H1. by apply fine1_store, fine_put_object.
Qed.
(** ** Handles *)

(** What a handle may do: its key is below the root, and it stages nothing if the
    filesystem is read-only. *)
Definition cell_ok (h : HandleState) : Prop :=
  under (hs_key h) /\ (cfg_read_only (s3_config v) = true -> exists f, hs_staging h = Remote f).

Definition held_ok (s : W * HandleState) : Prop := P s.1 /\ cell_ok s.2.
Abbreviation fine2 m s := (leaves m s (fun _ s' => held_ok s') held_ok).

Lemma cell_staged h x : cell_ok h -> writable -> cell_ok (set_staging x h).
Proof. intros [Hk _] Hw. split; [done|]. intros Hr. congruence. Qed.

Lemma cell_writable h : cell_ok h -> (forall f, hs_staging h <> Remote f) -> writable.
Proof.
  intros [_ Hr] Hn. destruct (cfg_read_only (s3_config v)); [|done]. destruct (Hr eq_refl) as [f Hf]. by apply Hn in Hf.
Qed.

Lemma fine2_store {A} (m : ST W Errno A) s : cell_ok s.2 -> fine m s.1 -> fine2 (on_store m) s.
Proof. intros Hc Hm. apply leaves_on_store. eapply leaves_mono; [exact Hm|by split|by split]. Qed.

Lemma fine2_buffer {A} b (m : ST (W * Buffer) Errno A) s :
  cell_ok s.2 -> writable -> fine1 m (s.1, b) -> fine2 (on_buffer b m) s.
Proof.
  intros Hc Hw Hm. unfold leaves, on_buffer in *. destruct (m (s.1, b)) as [o [w b']].
  destruct o; (split; [exact Hm|by apply cell_staged]).
Qed.

Lemma fine2_stream {A} x (m : ST (W * Stream) Errno A) s :
  cell_ok s.2 -> writable -> fine1 m (s.1, x) -> fine2 (on_stream x m) s.
Proof.
  intros Hc Hw Hm. unfold leaves, on_stream in *. destruct (m (s.1, x)) as [o [w x']].
  destruct o; (split; [exact Hm|by apply cell_staged]).
Qed.

(** The abort of the upload of a handle that has one. *)
Lemma fine2_abort s : held_ok s -> forall x u, hs_staging s.2 = Streamed x -> fine2 (on_store (abort_upload v (hs_key s.2) u)) s.
Proof.
  intros [Hs Hc] x u Hx. apply fine2_store; [done|]. apply fine_abort_upload; [apply Hc| |done].
  apply (cell_writable _ Hc). intros f. by rewrite Hx.
Qed.

Lemma fine2_or_fail {A} (m : ST (W * HandleState) Errno A) s : writable -> fine2 m s -> fine2 (or_fail_stream v m) s.
Proof.
  intros Hw Hm. unfold or_fail_stream. leaves_step. apply leaves_attempt.
  - eapply leaves_mono; [exact Hm|done|done].
  - intros e s1 H1. leaves_step. unfold fail_stream. do 4 leaves_step.
    assert (held_ok (s1.1, set_staging (Failed e) s1.2)) as H2 by (split; [apply H1|apply cell_staged; [apply H1|done]]).
    eapply (leaves_mono _ _ (fun _ => held_ok) _ held_ok); [|by intros ? ? ?|done].
    repeat case_match; try done. apply fine2_store; [apply H2|]. apply fine_abort_upload; [apply H1|done|apply H1].
Qed.

Lemma fine2_commit s : held_ok s -> fine2 (commit v) s.
Proof.
  intros Hs. pose proof Hs as [Hw Hc]. unfold commit. do 2 leaves_step.
  destruct (hs_staging s.2) as [f|b|x|e] eqn:Hst; [by leaves_step| | |by leaves_step].
  - pose proof (cell_writable _ Hc ltac:(intros f; by rewrite Hst)) as Hwr. leaves_step; [by leaves_step|]. do 2 leaves_step.
    apply fine2_store; [by apply cell_staged|]. apply fine_put_object; [apply Hc|done|done].
  - pose proof (cell_writable _ Hc ltac:(intros f; by rewrite Hst)) as Hwr. leaves_step. apply leaves_attempt.
    + eapply leaves_mono; [apply fine2_stream; [done|done|apply fine_finish_stream; [apply Hc|done|done]]|done|done].
    + intros e s1 H1. do 3 leaves_step. eapply (leaves_mono _ _ (fun _ => held_ok) _ held_ok); [|by intros ? ? ?|done].
      destruct (hs_staging s1.2) eqn:Hst1; [by leaves_step..| |by leaves_step].
      leaves_step; [by eapply fine2_abort|by leaves_step].
Qed.

Lemma fine2_close s : held_ok s -> fine2 (close_cell v) s.
Proof. intros [Hw Hc]. unfold close_cell. do 4 leaves_step. apply fine2_commit. by split. Qed.

Lemma fine2_abort_cell s : held_ok s -> fine2 (abort_cell v) s.
Proof.
  intros [Hw Hc]. unfold abort_cell. do 4 leaves_step. assert (held_ok (s.1, release s.2)) as H' by done.
  destruct (hs_staging s.2) eqn:Hst; [by leaves_step..| |by leaves_step]. leaves_step; [|by leaves_step].
  apply fine2_store; [done|]. apply fine_request, (keep_abort_upload HP); [|done]. apply (allowed_change _ (hs_key s.2)); try done.
  { apply Hc. } apply (cell_writable _ Hc). intros f. by rewrite Hst.
Qed.

Lemma fine2_drop s : held_ok s -> fine2 (drop_cell v) s.
Proof.
  intros Hs. unfold drop_cell. do 2 leaves_step.
  destruct (hs_staging s.2) eqn:Hst; [by leaves_step..| |by leaves_step].
  leaves_step; [by eapply fine2_abort|by leaves_step].
Qed.

Lemma fine2_read offset buf s : held_ok s -> fine2 (read_resolved v offset buf) s.
Proof.
  intros Hs. pose proof Hs as [Hw Hc]. unfold read_resolved. do 2 leaves_step. do 2 (leaves_step; [by leaves_step|]).
  destruct (hs_staging s.2) eqn:Hst; [| |by leaves_step..].
  - apply fine2_store; [done|]. apply fine_read_remote; [apply Hc|done].
  - leaves_step. eapply leaves_mono; [apply fine2_buffer; [done| |by apply fine_materialize; [apply Hc|]]| |done].
    { apply (cell_writable _ Hc). intros f. by rewrite Hst. }
    intros d s1 H1. by leaves_steps.
Qed.

Lemma fine2_write offset new s : held_ok s -> fine2 (write_resolved v offset new) s.
Proof.
  intros Hs. pose proof Hs as [Hw Hc]. unfold write_resolved. do 2 leaves_step. do 2 (leaves_step; [by leaves_step|]).
  destruct (hs_staging s.2) eqn:Hst; [by leaves_steps| | |by leaves_step];
    pose proof (cell_writable _ Hc ltac:(intros f; by rewrite Hst)) as Hwr; (leaves_step; [by leaves_step|]).
  - apply fine2_buffer; [done..|]. apply fine_write_buffer; [apply Hc|done].
  - leaves_step. leaves_step; [|done]. leaves_step; [by leaves_step|]. apply fine2_or_fail; [done|].
    apply fine2_stream; [done..|]. apply fine_write_stream; [apply Hc|done|done].
Qed.

Lemma fine2_truncate n s : held_ok s -> fine2 (truncate_resolved v n) s.
Proof.
  intros Hs. pose proof Hs as [Hw Hc]. unfold truncate_resolved. do 2 leaves_step. do 2 (leaves_step; [by leaves_step|]).
  destruct (hs_staging s.2) eqn:Hst; [by leaves_step| | |by leaves_step];
    pose proof (cell_writable _ Hc ltac:(intros f; by rewrite Hst)) as Hwr.
  - apply fine2_buffer; [done..|]. apply fine_truncate_buffer; [apply Hc|done].
  - leaves_step; [by leaves_step|]. leaves_step. leaves_step; [|done]. leaves_step.
    + apply fine2_or_fail; [done|]. apply fine2_stream; [done..|]. apply fine_fill; [apply Hc|done|done].
    + leaves_step. leaves_step; [|done]. leaves_step. split; [done|]. by apply cell_staged.
Qed.

(** ** The filesystem *)

Definition state_ok (s : S3State W) : Prop := P (s3_store s) /\ map_Forall (fun _ h => cell_ok h) (s3_cells s).
Abbreviation fine3 m s := (leaves m s (fun _ s' => state_ok s') state_ok).

Lemma fine3_store {A} (m : ST W Errno A) (Q : A -> Prop) s :
  state_ok s -> leaves m (s3_store s) (fun a w' => Q a /\ P w') P -> leaves (on_s3_store m) s (fun a s' => Q a /\ state_ok s') state_ok.
Proof. intros [Hw Hc] Hm. unfold leaves, on_s3_store in *. destruct (m (s3_store s)) as [[] w']; [split; [apply Hm|]|..]; (split; [apply Hm|done]). Qed.

Lemma fine3_path {A} (m : ST W Errno A) s : state_ok s -> fine m (s3_store s) -> fine3 (on_s3_store m) s.
Proof.
  intros Hs Hm. eapply leaves_mono; [apply (fine3_store m (fun _ => True) s Hs)|by intros ? ? [_ ?]|done].
  eapply leaves_mono; [exact Hm|by split|done].
Qed.

Lemma fine3_cell {A} c (m : ST (W * HandleState) Errno A) s :
  state_ok s -> (forall t, held_ok t -> fine2 m t) -> fine3 (with_cell c m) s.
Proof.
  intros [Hw Hc] Hm. unfold with_cell. do 2 leaves_step. leaves_step. unfold expect.
  destruct (s3_cells s !! c) as [h|] eqn:Hl; [|by apply leaves_lift].
  apply leaves_lift; [|done]. intros a [= <-]. specialize (Hm (s3_store s, h) (conj Hw (Hc _ _ Hl))).
  unfold leaves in Hm. destruct (m (s3_store s, h)) as [o [w h']]. leaves_step. leaves_step.
  assert (state_ok (mkS3State w (s3_next_handle s) (s3_handles s) (<[c:=h']> (s3_cells s)))) as Hok.
  { destruct o; destruct Hm as [? ?]; (split; [done|by apply map_Forall_insert_2]). }
  by apply leaves_lift.
Qed.

Lemma fine3_handle {A} h (m : ST (W * HandleState) Errno A) s :
  state_ok s -> (forall t, held_ok t -> fine2 m t) -> fine3 (let! cell := handle_state h in with_cell cell m) s.
Proof.
  intros Hs Hm. leaves_step. unfold handle_state. do 2 leaves_step. leaves_step; leaves_step; [by apply fine3_cell|done].
Qed.

Lemma fine3_removed {A} h (m : ST (W * HandleState) Errno A) s :
  state_ok s -> (forall t, held_ok t -> fine2 m t) -> fine3 (let! cell := remove_handle h in with_cell cell m) s.
Proof.
  intros Hs Hm. leaves_step. unfold remove_handle, handle_state. do 3 leaves_step. leaves_step; leaves_step; [|done].
  do 4 leaves_step. leaves_step. by apply fine3_cell.
Qed.

Lemma fine3_open p mode s : state_ok s -> fine3 (s3_open v pages p mode) s.
Proof.
  intros Hs. unfold s3_open. leaves_step.
  eapply leaves_mono; [apply fine3_store; [done|apply fine_open_target, Hs]| |done]. intros [k st] s1 [[Hk Hr] [Hw Hc]].
  unfold insert_handle. do 2 leaves_step. cbv zeta. leaves_step. leaves_step; [|done]. do 3 leaves_step.
  split; [done|]. apply map_Forall_insert_2; [by split|done].
Qed.

Lemma fine3_drop s : state_ok s -> fine3 (s3_drop v) s.
Proof.
  intros Hs. unfold s3_drop. do 4 leaves_step. assert (state_ok (mkS3State (s3_store s) (s3_next_handle s) [] (s3_cells s))) as Hs' by done.
  revert Hs'. generalize (mkS3State (s3_store s) (s3_next_handle s) [] (s3_cells s)). intros t Ht. revert t Ht.
  induction (s3_handles s) as [|c cs IH]; intros t Ht; [done|]. cbn [drop_cells]. leaves_step.
  eapply leaves_mono; [by apply fine3_cell; [|apply fine2_drop]|by intros ? t' Ht'; apply IH|done].
Qed.

Lemma call_ok c s : state_ok s -> state_ok (after_call v pages c s).
Proof.
  intros Hs. destruct c; cbn [after_call]; apply (proj1 (leaves_state _ _ state_ok)); cbn [s3_vfs v_stat v_readdir v_mkdir v_rename v_unlink v_rmdir v_open v_read_at v_write_at
    v_truncate v_close v_abort]; unfold s3_read_at, s3_write_at, s3_truncate, s3_close, s3_abort;
    try (apply fine3_path; [done|]).
  - apply fine_stat, Hs.
  - apply fine_readdir, Hs.
  - apply fine_mkdir, Hs.
  - apply fine_rename, Hs.
  - apply fine_unlink, Hs.
  - apply fine_rmdir, Hs.
  - by apply fine3_open.
  - apply fine3_handle; [done|]. intros. by apply fine2_read.
  - apply fine3_handle; [done|]. intros. by apply fine2_write.
  - apply fine3_handle; [done|]. intros. by apply fine2_truncate.
  - apply fine3_removed; [done|]. intros. by apply fine2_close.
  - apply fine3_removed; [done|]. intros. by apply fine2_abort_cell.
  - apply fine3_cell; [done|]. intros. by apply fine2_read.
  - apply fine3_cell; [done|]. intros. by apply fine2_write.
  - apply fine3_cell; [done|]. intros. by apply fine2_truncate.
  - by apply fine3_drop.
Qed.

Lemma calls_ok calls s : state_ok s -> state_ok (after_calls v pages calls s).
Proof. revert s. induction calls as [|c calls IH]; intros s Hs; [done|]. by apply IH, call_ok. Qed.
End scope.

(** ** The trace *)

Lemma noted_keeps {W A} (R : Request -> Prop) q (m : ST W RemoteError A) s : R q -> Forall R s.2 -> Forall R (noted q m s).2.2.
Proof. intros Hq Hs. unfold noted. destruct (m s.1) as [o w']. simpl. apply Forall_app. split; [done|by apply Forall_singleton]. Qed.

Lemma traced_keeps {W} (ops : S3Ops W) (v : S3Vfs (W * list Request)) :
  s3_ops v = traced ops -> Keeps v (fun s => Forall (allowed v) s.2).
Proof. intros Hv. constructor; intros q s Hq Hs; rewrite Hv; by apply noted_keeps. Qed.
