(* ===== verification/S3Laws.v ===== *)
(** * What the S3 filesystem relies on

    The documented behaviour of an object store, as laws of [S3Ops]: requests on
    one key are atomic and conditional, a read is of one revision, the parts of an
    upload are not an object until it is completed, and a listing delivers in
    pages the keys there are.  Any request may fail; a change that fails with
    [Io], a lost answer say, may have happened, the beginning of an upload too. *)

From Stdlib Require Import Ascii String.
From S2P Require Import Prelude RustStr VfsTypes S3Types S3Vfs.

#[local] Open Scope Z_scope.

(** An entry of a listing: a key with its size, or a prefix that stands for the
    keys below it. *)
Inductive Entry := EntryObject (k : str) (size : Z) | EntryPrefix (p : str).

Definition entry_objects (es : list Entry) : list ListedObject :=
  omap (fun e => match e with EntryObject k n => Some (mkListedObject k n) | EntryPrefix _ => None end) es.
Definition entry_prefixes (es : list Entry) : list str :=
  omap (fun e => match e with EntryObject _ _ => None | EntryPrefix p => Some p end) es.

(** The bytes of the parts of an upload, in the order of [parts]. *)
Inductive gathered (m : gmap Z bytes) : list UploadedPart -> bytes -> Prop :=
| gathered_nil : gathered m [] []
| gathered_cons p parts b d :
    m !! part_number p = Some b -> gathered m parts d -> gathered m (p :: parts) (b ++ d).

(** Parts are numbered from one. *)
Definition numbered (parts : list UploadedPart) : Prop :=
  part_number <$> parts = Z.of_nat <$> seq 1 (length parts).

Section store.
Context {W : Type}.
(** The objects of the store, with their entity tags; the uploads begun, each
    with its key and its parts; what is left of a listing after a continuation. *)
Context (obj : W -> str -> option (bytes * str)) (pend : W -> str -> option (str * gmap Z bytes)).
Context (rest : W -> str -> str -> option str -> list Entry).

Definition objs_same (w w' : W) : Prop := forall k, obj w' k = obj w k.
Definition pend_same (w w' : W) : Prop := forall id, pend w' id = pend w id.

Record store_same (w w' : W) : Prop := { store_objs : objs_same w w'; store_pend : pend_same w w' }.

(** The object [k] is now a new revision with the body [d]. *)
Definition landed (k : str) (d : bytes) (w w' : W) : Prop :=
  (exists e, obj w' k = Some (d, e) /\ forall k' d', obj w k' <> Some (d', e))
  /\ forall k', k' <> k -> obj w' k' = obj w k'.

Definition removed (k : str) (w w' : W) : Prop :=
  obj w' k = None /\ forall k', k' <> k -> obj w' k' = obj w k'.

Definition pend_set (id : str) (u : option (str * gmap Z bytes)) (w w' : W) : Prop :=
  pend w' id = u /\ forall id', id' <> id -> pend w' id' = pend w id'.

Definition satisfied (p : Precondition) (k : str) (w : W) : Prop :=
  match p with
  | PreNone => True
  | PreAbsent => obj w k = None
  | PreMatch e => exists d, obj w k = Some (d, e)
  end.

(** What a listing is about. *)
Definition listed (w : W) (prefix delimiter : str) (e : Entry) : Prop :=
  match e with
  | EntryObject k n =>
      exists name d tag, k = prefix ++ name /\ obj w k = Some (d, tag) /\ n = len d
                         /\ (delimiter = [] \/ forall a b, name <> a ++ delimiter ++ b)
  | EntryPrefix p =>
      delimiter <> [] /\
      exists name below d tag, p = prefix ++ name ++ delimiter /\ obj w (p ++ below) = Some (d, tag)
                               /\ forall a b, name ++ delimiter = a ++ delimiter ++ b -> b = []
  end.

Class S3Laws (J : W -> Prop) (ops : S3Ops W) : Prop := {
  law_rest_same w w' p d c : J w -> J w' -> store_same w w' -> rest w' p d c = rest w p d c;
  law_head q w :
    J w ->
    wp (o_head ops q) w
      (fun f w' => J w' /\ store_same w w' /\ exists d, obj w (hq_key q) = Some (d, rf_etag f) /\ rf_len f = len d)
      (fun e w' => J w' /\ store_same w w' /\ (e = Missing -> obj w (hq_key q) = None));
  law_list q w :
    J w -> 0 < default 1 (lq_max_keys q) ->
    wp (o_list ops q) w
      (fun page w' => J w' /\ store_same w w' /\ exists shown left,
         rest w (lq_prefix q) (lq_delimiter q) (lq_continuation q) = shown ++ left
         /\ lr_objects page = entry_objects shown /\ lr_common_prefixes page = entry_prefixes shown
         /\ if lr_truncated page
            then shown <> [] /\ forall t, lr_next_continuation page = Some t -> t <> [] ->
                                rest w (lq_prefix q) (lq_delimiter q) (Some t) = left
            else left = [])
      (fun _ w' => J w' /\ store_same w w');
  law_listed w prefix delimiter e :
    J w -> delimiter = [] \/ delimiter = lit "/" -> e ∈ rest w prefix delimiter None <-> listed w prefix delimiter e;
  law_get q w :
    J w ->
    wp (o_get ops q) w
      (fun r w' => J w' /\ store_same w w' /\ exists d, obj w (gq_key q) = Some (d, gq_if_match q)
         /\ forall a b, gq_range q = range_text a b -> 0 <= a <= b -> b < len d -> b <= USIZE_MAX ->
            gr_body r = take (Z.to_nat (b + 1 - a)) (drop (Z.to_nat a) d))
      (fun _ w' => J w' /\ store_same w w');
  law_put q w :
    J w ->
    wp (o_put ops q) w
      (fun _ w' => J w' /\ pend_same w w' /\ satisfied (pq_precondition q) (pq_key q) w /\ landed (pq_key q) (pq_body q) w w')
      (fun e w' => J w' /\ pend_same w w'
         /\ (objs_same w w' \/ e = Io /\ satisfied (pq_precondition q) (pq_key q) w /\ landed (pq_key q) (pq_body q) w w'));
  law_delete q w :
    J w ->
    wp (o_delete ops q) w
      (fun _ w' => J w' /\ pend_same w w' /\ satisfied (dq_precondition q) (dq_key q) w /\ removed (dq_key q) w w')
      (fun e w' => J w' /\ pend_same w w'
         /\ (objs_same w w' \/ e = Io /\ satisfied (dq_precondition q) (dq_key q) w /\ removed (dq_key q) w w'));
  law_copy q w :
    J w ->
    wp (o_copy ops q) w
      (fun _ w' => J w' /\ pend_same w w' /\ satisfied (cq_source_if_match q) (cq_source_key q) w
         /\ exists d e, obj w (cq_source_key q) = Some (d, e) /\ landed (cq_key q) d w w')
      (fun e w' => J w' /\ pend_same w w'
         /\ (objs_same w w' \/ e = Io /\ satisfied (cq_source_if_match q) (cq_source_key q) w
             /\ exists d e', obj w (cq_source_key q) = Some (d, e') /\ landed (cq_key q) d w w'));
  law_create_upload q w :
    J w ->
    wp (o_create_upload ops q) w
      (fun id w' => J w' /\ objs_same w w' /\ pend w id = None /\ pend_set id (Some (uq_key q, ∅)) w w')
      (fun e w' => J w' /\ objs_same w w'
         /\ (pend_same w w' \/ e = Io /\ exists id, pend w id = None /\ pend_set id (Some (uq_key q, ∅)) w w'));
  law_upload_part q m w :
    J w -> pend w (tq_upload_id q) = Some (tq_key q, m) ->
    wp (o_upload_part ops q) w
      (fun _ w' => J w' /\ objs_same w w'
         /\ pend_set (tq_upload_id q) (Some (tq_key q, <[tq_part_number q := tq_body q]> m)) w w')
      (fun _ w' => J w' /\ objs_same w w' /\ exists m', pend_set (tq_upload_id q) (Some (tq_key q, m')) w w');
  law_complete_upload q m d w :
    J w -> pend w (eq_upload_id q) = Some (eq_key q, m) -> numbered (eq_parts q) -> gathered m (eq_parts q) d ->
    wp (o_complete_upload ops q) w
      (fun _ w' => J w' /\ pend_set (eq_upload_id q) None w w'
         /\ satisfied (eq_precondition q) (eq_key q) w /\ landed (eq_key q) d w w')
      (fun e w' => J w'
         /\ (store_same w w'
             \/ e = Io /\ pend_set (eq_upload_id q) None w w' /\ satisfied (eq_precondition q) (eq_key q) w
                /\ landed (eq_key q) d w w'));
  law_abort_upload q w :
    J w ->
    wp (o_abort_upload ops q) w
      (fun _ w' => J w' /\ objs_same w w' /\ pend_set (aq_upload_id q) None w w')
      (fun e w' => J w' /\ store_same w w' /\ (e = Missing -> pend w (aq_upload_id q) = None))
}.

(** A store that carries out every abort it is asked for. *)
Class ReliableAborts (J : W -> Prop) (ops : S3Ops W) : Prop :=
  abort_reliable q w : J w -> is_Some (pend w (aq_upload_id q)) -> is_ok (o_abort_upload ops q w).1 = true.

(** A store that begins no upload without answering. *)
Class AnsweredCreates (J : W -> Prop) (ops : S3Ops W) : Prop :=
  create_answered q w e w' : J w -> o_create_upload ops q w = (Err e, w') -> pend_same w w'.

(** An upload that nobody was told of: the answer to the request that began it was
    lost, so it never gets a part. *)
Definition stray (J : W -> Prop) (ops : S3Ops W) (u : option (str * gmap Z bytes)) : Prop :=
  (exists k, u = Some (k, ∅)) /\ ~ AnsweredCreates J ops.

(** Nothing happened to the upload [id], or it began without an answer. *)
Definition kept_or_stray (J : W -> Prop) (ops : S3Ops W) (w w' : W) (id : str) : Prop :=
  pend w' id = pend w id \/ pend w id = None /\ stray J ops (pend w' id).

Lemma kept_or_stray_trans J ops w1 w2 w3 id :
  kept_or_stray J ops w1 w2 id -> kept_or_stray J ops w2 w3 id -> kept_or_stray J ops w1 w3 id.
Proof.
  intros [H1|[H1 H1']] [H2|[H2 H2']]; [left; congruence|right; split; congruence|right; split; congruence|right; by split].
Qed.

(** Listings are read to the end. *)
Definition pages_enough (J : W -> Prop) (pages : W -> nat) : Prop :=
  forall w p d c, J w -> (length (rest w p d c) < pages w)%nat.

#[export] Instance store_same_preorder : PreOrder store_same.
Proof.
  split; [done|]. intros w1 w2 w3 [O1 P1] [O2 P2]. split; intros x; [by rewrite O2, O1|by rewrite P2, P1].
Qed.

Lemma pend_set_same id w w' : pend_set id (pend w id) w w' -> pend_same w w'.
Proof. intros [H1 H2] id'. destruct (decide (id' = id)) as [->|]; auto. Qed.

Lemma pend_same_set id u w w' : pend_same w w' -> pend w id = u -> pend_set id u w w'.
Proof. intros H <-. split; auto. Qed.

Lemma pend_set_set id u u' w1 w2 w3 : pend_set id u w1 w2 -> pend_set id u' w2 w3 -> pend_set id u' w1 w3.
Proof. intros [H1 H2] [H3 H4]. split; [done|]. intros id' Hid. by rewrite H4, H2. Qed.

Lemma landed_same_l k d w1 w2 w3 : objs_same w1 w2 -> landed k d w2 w3 -> landed k d w1 w3.
Proof.
  intros H [(e & He & Hf) Ho]. split; [|intros k' Hk; by rewrite Ho, H]. exists e. split; [done|].
  intros k' d'. rewrite <- H. apply Hf.
Qed.

Lemma landed_same_r k d w1 w2 w3 : landed k d w1 w2 -> objs_same w2 w3 -> landed k d w1 w3.
Proof. intros [(e & He & Hf) Ho] H. split; [exists e; by rewrite H|intros k' Hk; by rewrite H, Ho]. Qed.

(** Beginning an upload that fails leaves the uploads, or one more that is stray. *)
Lemma create_upload_keeps J ops `{Hl : !S3Laws J ops} q w :
  J w ->
  wp (o_create_upload ops q) w
    (fun id w' => J w' /\ objs_same w w' /\ pend w id = None /\ pend_set id (Some (uq_key q, ∅)) w w')
    (fun _ w' => J w' /\ objs_same w w' /\ forall id, kept_or_stray J ops w w' id).
Proof.
  intros HJ. pose proof (law_create_upload q w HJ) as H. unfold wp in *.
  destruct (o_create_upload ops q w) as [[id|e| |] w'] eqn:Hc; try done.
  destruct H as (HJ' & Ho & [Hp|(-> & id & Hn & Hs)]); (split; [done|]; split; [done|]); intros id'; [by left|].
  destruct (decide (id' = id)) as [->|Hne]; [right|left; by apply Hs]. split; [done|]. destruct Hs as [Hs _].
  rewrite Hs. split; [eauto|]. intros HA. pose proof (HA q w Io w' HJ Hc id) as Hsame. congruence.
Qed.

Lemma satisfied_same p k w w' : objs_same w w' -> satisfied p k w' -> satisfied p k w.
Proof. intros H. destruct p; simpl; by rewrite ?H. Qed.
End store.

Lemma gathered_app m ps qs a b : gathered m ps a -> gathered m qs b -> gathered m (ps ++ qs) (a ++ b).
Proof. intros Ha Hb. induction Ha; simpl; [done|]. rewrite <- app_assoc. by constructor. Qed.

Lemma gathered_insert m n b ps d :
  gathered m ps d -> Forall (fun p => part_number p <> n) ps -> gathered (<[n := b]> m) ps d.
Proof.
  intros Hd Hn. induction Hd as [|p ps b' d' Hp _ IH]; [constructor|]. apply Forall_cons in Hn as [H1 H2].
  constructor; [by rewrite lookup_insert_ne|auto].
Qed.

Lemma numbered_snoc ps etag : numbered ps -> numbered (ps ++ [mkUploadedPart (len ps + 1) etag]).
Proof.
  unfold numbered. intros H. rewrite fmap_app, H, length_app, seq_app, fmap_app. unfold len. simpl. do 2 f_equal. lia.
Qed.

Lemma numbered_below ps : numbered ps -> Forall (fun p => part_number p <> len ps + 1) ps.
Proof.
  intros H. apply Forall_forall. intros p Hp. assert (part_number p ∈ part_number <$> ps) as Hin by by apply list_elem_of_fmap_2.
  rewrite H in Hin. apply list_elem_of_fmap in Hin as (n & -> & Hn). apply elem_of_seq in Hn. unfold len. lia.
Qed.
