(* ===== verification/S3Stage.v ===== *)
(** * Staged contents (src/src/vfs/s3.rs)

    What a [Stream] stages is in two places: the parts of its upload and its
    buffer.  [stream_holds] is the body they amount to; flushing moves bytes from
    one to the other, writing changes the body as it changes a file, and finishing
    lands it as one object. *)

From Stdlib Require Import Ascii String.
From S2P Require Import Prelude RustStr VfsTypes MemVfs MemVfsFiles SandboxFs S3Types S3Vfs S3Laws.

#[local] Open Scope Z_scope.

(** ** Bytes *)

Lemma resize_len d : resize d (len d) = d.
Proof. unfold resize, len. rewrite Nat2Z.id, take_ge, Z.sub_diag by lia. simpl. by rewrite app_nil_r. Qed.

Lemma resize_longer d n : len d <= n -> resize d n = d ++ replicate (Z.to_nat (n - len d)) 0.
Proof. intros H. unfold resize, len in *. by rewrite take_ge by lia. Qed.

(** Writing into a buffer that is made long enough first. *)
Lemma written_in_place d start new :
  0 <= start -> splice (if len d <? start + len new then resize d (start + len new) else d) start new = written d start new.
Proof.
  intros H. unfold written. destruct (len d <? start + len new) eqn:Hl; unbool; [by rewrite Z.max_r by lia|].
  by rewrite Z.max_l, resize_len by lia.
Qed.

Lemma written_app front d start new : 0 <= start -> written (front ++ d) (len front + start) new = front ++ written d start new.
Proof.
  intros H. rewrite !written_eq by (unfold len; lia). unfold len. rewrite length_app.
  rewrite take_app, drop_app, <- !app_assoc.
  replace (Z.to_nat (Z.of_nat (length front) + start) - length front)%nat with (Z.to_nat start) by lia.
  replace (Z.to_nat (Z.of_nat (length front) + start + Z.of_nat (length new)) - length front)%nat
    with (Z.to_nat (start + Z.of_nat (length new))) by lia.
  rewrite (take_ge front), (drop_ge front) by lia. simpl. do 4 f_equal. lia.
Qed.

(** Zeros up to the place of the write change nothing. *)
Lemma written_padded d start new :
  0 <= start -> written (d ++ replicate (Z.to_nat (start - len d)) 0) start new = written d start new.
Proof.
  intros H. rewrite !written_eq by done. destruct (decide (len d <= start)) as [Hl|Hl].
  - assert (len (d ++ replicate (Z.to_nat (start - len d)) 0) = start) as Hp
      by (unfold len in *; rewrite length_app, length_replicate; lia).
    rewrite Hp, Z.sub_diag. simpl. rewrite app_nil_r. f_equal.
    + unfold len in *. rewrite !take_ge by lia. done.
    + f_equal. pose proof (len_nonneg new). unfold len in *. rewrite (drop_ge (d ++ _)) by lia. rewrite (drop_ge d) by lia. done.
  - assert (d ++ replicate (Z.to_nat (start - len d)) 0 = d) as ->; [|done].
    replace (Z.to_nat (start - len d)) with 0%nat by lia. apply app_nil_r.
Qed.

Section stage.
Context {W : Type} (v : S3Vfs W).
Context (obj : W -> str -> option (bytes * str)) (pend : W -> str -> option (str * gmap Z bytes)).
Context (rest : W -> str -> str -> option str -> list Entry) (J : W -> Prop).
Context `{Hl : !S3Laws obj pend rest J (s3_ops v)}.
Context (Hpart : 0 < s3_part_size v <= USIZE_MAX).

Abbreviation ops := (s3_ops v).
Abbreviation objs_same := (objs_same obj).
Abbreviation pend_same := (pend_same pend).
Abbreviation pend_set := (pend_set pend).
Abbreviation landed := (landed obj).
Abbreviation satisfied := (satisfied obj).
Abbreviation reliable := (ReliableAborts pend J ops).
Abbreviation kept_or_stray := (kept_or_stray pend J ops).

Lemma wp_on_store {X E A} (m : ST W E A) (s : W * X) (Q : A -> W * X -> Prop) (R : E -> W * X -> Prop) :
  wp m s.1 (fun a w' => Q a (w', s.2)) (fun e w' => R e (w', s.2)) -> wp (on_store m) s Q R.
Proof. unfold wp, on_store. by destruct (m s.1) as [[] ?]. Qed.

(** ** Parts *)

Lemma part_size_class n : 0 <= n -> 1 <= Z.shiftl 1 (Z.min (n / PARTS_PER_SIZE_CLASS) 16).
Proof.
  intros H. assert (0 <= n / PARTS_PER_SIZE_CLASS) by (apply Z.div_pos; [done|by vm_compute]).
  rewrite Z.shiftl_1_l. assert (0 < 2 ^ Z.min (n / PARTS_PER_SIZE_CLASS) 16); [|lia]. apply Z.pow_pos_nonneg; lia.
Qed.

(** Parts are not empty, and never smaller than the first ones. *)
Lemma part_size_least n : 0 <= n -> s3_part_size v <= part_size v n.
Proof. intros H. unfold part_size. pose proof (part_size_class n H). nia. Qed.

Lemma part_size_pos n : 0 <= n -> 0 < part_size v n.
Proof. intros H. pose proof (part_size_least n H). lia. Qed.

Lemma uploaded_nonneg x : 0 <= uploaded_parts x.
Proof. unfold uploaded_parts. destruct (sm_upload x); [apply len_nonneg|done]. Qed.

(** ** What a stream holds *)

Definition upload_live (w : W) (k : str) (x : Stream) : Prop :=
  match sm_upload x with Some u => exists m, pend w (up_id u) = Some (k, m) | None => True end.

(** The bytes of the first [n] parts. *)
Fixpoint parts_total (n : nat) : Z :=
  match n with O => 0 | S n => parts_total n + part_size v (Z.of_nat n) end.

Definition stream_holds (w : W) (k : str) (x : Stream) (d : bytes) : Prop :=
  exists front, d = front ++ sm_buffer x /\ sm_flushed x = len front
  /\ match sm_upload x with
     | None => front = []
     | Some u =>
         (exists m, pend w (up_id u) = Some (k, m) /\ numbered (up_parts u) /\ gathered m (up_parts u) front)
         /\ len front = parts_total (length (up_parts u))
     end.

(** Between calls the buffer holds less than a part. *)
Definition idle (x : Stream) : Prop := len (sm_buffer x) < part_size v (uploaded_parts x).

(** Only the upload of the stream was begun or added to, or one began without an answer. *)
Record moved (k : str) (x x' : Stream) (w w' : W) : Prop := {
  moved_objs : objs_same w w';
  moved_precondition : sm_precondition x' = sm_precondition x;
  moved_pend :
    match sm_upload x, sm_upload x' with
    | None, None => forall id, kept_or_stray w w' id
    | None, Some u' => pend w (up_id u') = None /\ (exists m, pend w' (up_id u') = Some (k, m))
        /\ forall id, id <> up_id u' -> kept_or_stray w w' id
    | Some u, Some u' => up_id u' = up_id u /\ exists m, pend_set (up_id u) (Some (k, m)) w w'
    | Some _, None => False
    end
}.

(** A change that leaves the upload of the stream to itself. *)
Lemma moved_same k x x' w :
  upload_live w k x -> sm_upload x' = sm_upload x -> sm_precondition x' = sm_precondition x -> moved k x x' w w.
Proof.
  unfold upload_live. intros H Hu Hp. constructor; [done..|]. rewrite Hu. destruct (sm_upload x) as [u|]; [|by left].
  split; [done|]. destruct H as [m Hm]. exists m. by split.
Qed.

Lemma moved_refl k x w : upload_live w k x -> moved k x x w w.
Proof. intros H. by apply moved_same. Qed.

Lemma moved_trans k x1 x2 x3 w1 w2 w3 : moved k x1 x2 w1 w2 -> moved k x2 x3 w2 w3 -> moved k x1 x3 w1 w3.
Proof.
  intros [O1 C1 P1] [O2 C2 P2]. constructor; [intros q; by rewrite O2, O1|congruence|].
  destruct (sm_upload x1) as [u1|], (sm_upload x2) as [u2|], (sm_upload x3) as [u3|]; try done.
  - destruct P1 as [E1 [m1 P1]], P2 as [E2 [m2 P2]]. split; [congruence|]. exists m2. rewrite <- E1 in *.
    by eapply pend_set_set.
  - destruct P1 as (N1 & M1 & P1), P2 as [E2 [m2 [P2 P2']]]. rewrite E2. split; [done|]. split; [by exists m2|].
    intros id Hid. eapply kept_or_stray_trans; [by apply P1|]. left. by apply P2'.
  - destruct P2 as (N2 & M2 & P2). split; [|split; [done|]].
    + destruct (P1 (up_id u3)) as [E|[E _]]; congruence.
    + intros id Hid. eapply kept_or_stray_trans; [apply P1|by apply P2].
  - intros id. eapply kept_or_stray_trans; [apply P1|apply P2].
Qed.

Lemma holds_live w k x d : stream_holds w k x d -> upload_live w k x.
Proof.
  intros (front & _ & _ & H). unfold upload_live. destruct (sm_upload x); [|done]. destruct H as [(m & H & _) _]. eauto.
Qed.

Lemma moved_live k x x' w w' : moved k x x' w w' -> upload_live w k x -> upload_live w' k x'.
Proof.
  intros [_ _ H] Hx. unfold upload_live in *. destruct (sm_upload x) as [u|], (sm_upload x') as [u'|]; try done.
  - destruct H as [-> [m H]]. exists m. apply H.
  - destruct H as (_ & [m H] & _). by exists m.
Qed.

(** ** Flushing *)

Lemma upload_id_of_holds k w x d :
  J w -> stream_holds w k x d ->
  wp (upload_id_of v k) (w, x)
    (fun id s => (J s.1 /\ moved k x s.2 w s.1 /\ stream_holds s.1 k s.2 d)
       /\ sm_buffer s.2 = sm_buffer x /\ sm_flushed s.2 = sm_flushed x
       /\ exists u, sm_upload s.2 = Some u /\ id = up_id u /\ len (up_parts u) = uploaded_parts x)
    (fun _ s => J s.1 /\ moved k x s.2 w s.1).
Proof.
  intros HJ Hd. pose proof (holds_live _ _ _ _ Hd) as Hlive. destruct Hd as (front & -> & Hfl & Hu).
  unfold upload_id_of. wp_step. wp_step. simpl. destruct (sm_upload x) as [u|] eqn:Hx.
  { wp_step. split; [|split; [done|split; [done|]]]. 2: { exists u. unfold uploaded_parts. simpl. by rewrite ?Hx. }
    split; [done|]. split; [by apply moved_refl|]. exists front. simpl. by rewrite ?Hx. }
  subst front. wp_step. apply wp_on_store, wp_map_err.
  eapply wp_mono; [apply (create_upload_keeps obj pend rest J ops (mkCreateUploadRequest (s3_bucket v) k) w HJ)|..].
  - intros id w' (HJ' & Ho & Hn & Hp). wp_steps. simpl in *. split; [|split; [done|split; [done|]]].
    2: { eexists. split; [done|]. split; [done|]. unfold uploaded_parts. by rewrite ?Hx. }
    split; [done|]. split.
    + constructor; [done..|]. rewrite Hx. simpl. split; [done|]. destruct Hp as [Hp Hp']. split; [by exists ∅|].
      intros id' Hid. left. by apply Hp'.
    + exists []. split; [done|]. split; [done|]. simpl. split; [|done]. exists ∅. split; [apply Hp|]. split; constructor.
  - intros e w' (HJ' & Ho & Hp). simpl. split; [done|]. constructor; [done..|]. by rewrite Hx.
Qed.

(** The body of a part is uploaded and joins the front. *)
Lemma upload_part_holds k w x u m front body (rest_ : bytes) :
  J w -> sm_upload x = Some u -> pend w (up_id u) = Some (k, m) -> numbered (up_parts u) -> gathered m (up_parts u) front ->
  sm_flushed x = len front -> sm_buffer x = rest_ ->
  let number := len (up_parts u) + 1 in
  wp (o_upload_part ops (mkUploadPartRequest (s3_bucket v) k (up_id u) number body)) w
    (fun etag w' => J w' /\ moved k x x w w' /\ exists m',
       pend w' (up_id u) = Some (k, m') /\ numbered (up_parts u ++ [mkUploadedPart number etag])
       /\ gathered m' (up_parts u ++ [mkUploadedPart number etag]) (front ++ body))
    (fun _ w' => J w' /\ moved k x x w w').
Proof.
  intros HJ Hx Hm Hnum Hg Hfl Hb number. subst number.
  set (number := len (up_parts u) + 1).
  eapply wp_mono; [apply (law_upload_part obj pend rest (mkUploadPartRequest (s3_bucket v) k (up_id u) number body) m w HJ Hm)|..].
  - intros etag w' (HJ' & Ho & Hp). simpl in *. split; [done|]. split.
    { constructor; [done..|]. rewrite Hx. split; [done|]. eauto. }
    eexists. split; [apply Hp|]. split; [by apply numbered_snoc|].
    apply gathered_app; [apply gathered_insert; [done|by apply numbered_below]|].
    set (p := mkUploadedPart number etag). assert (gathered (<[number := body]> m) [p] (body ++ [])) as Hlast
      by (constructor; [apply lookup_insert_eq|constructor]).
    by rewrite app_nil_r in Hlast.
  - intros e w' (HJ' & Ho & m' & Hp). simpl in *. split; [done|]. constructor; [done..|]. rewrite Hx. split; [done|]. eauto.
Qed.

(** Flushing does nothing to an idle stream, and uploads a part of any other. *)
Definition advanced (x x' : Stream) : Prop :=
  (idle x /\ x' = x) \/ (~ idle x /\ sm_flushed x + part_size v (uploaded_parts x) <= sm_flushed x').

Lemma flush_loop_holds fuel k d w x :
  J w -> stream_holds w k x d -> (length (sm_buffer x) < fuel)%nat ->
  wp (flush_loop v fuel k) (w, x)
    (fun _ s => (J s.1 /\ moved k x s.2 w s.1 /\ stream_holds s.1 k s.2 d) /\ idle s.2 /\ advanced x s.2)
    (fun _ s => J s.1 /\ moved k x s.2 w s.1).
Proof.
  revert w x. induction fuel as [|fuel IH]; intros w x HJ Hd Hf; [lia|]. cbn [flush_loop]. wp_step. wp_step. cbv zeta.
  wp_step; [wp_step; split; [split; [done|]; split; [by eapply moved_refl, holds_live|done]|split; [done|by left]]|]. simpl in *.
  pose proof (part_size_pos _ (uploaded_nonneg x)) as Hpos. set (size := part_size v (uploaded_parts x)) in *.
  wp_step. eapply wp_mono; [by apply upload_id_of_holds| |by intros e s Hs].
  intros id [w1 x1] ((HJ1 & Hm1 & Hd1) & Hb1 & Hf1 & u & Hu & -> & Hlen). simpl in *.
  destruct Hd1 as (front & Hd1 & Hfl & Hup). rewrite Hu in Hup. destruct Hup as [(m & Hm & Hnum & Hg) Htot].
  wp_step. wp_step. simpl. rewrite Hb1. wp_step. wp_step.
  set (x2 := set_buffer _ x1). set (body := take _ _).
  assert (moved k x x2 w w1) as Hm2.
  { eapply moved_trans; [exact Hm1|]. apply moved_same; [|done..]. by eapply moved_live, holds_live. }
  wp_step. rewrite <- Hlen. apply wp_lift; [by case_match|..].
  2: { intros e _. done. }
  intros number Hn. assert (number = len (up_parts u) + 1) as -> by (case_match; by simplify_eq). clear Hn.
  wp_step. apply wp_on_store, wp_map_err.
  eapply wp_mono; [by apply (upload_part_holds k w1 x2 u m front body (sm_buffer x2))| |].
  2: { intros e w2 [HJ2 Hm3]. split; [done|]. by eapply moved_trans. }
  intros etag w2 (HJ2 & Hm3 & m' & Hp & Hnum' & Hg'). wp_step. wp_step. wp_step.
  apply (wp_some _ _ u); [exact Hu|]. cbv zeta. wp_step. wp_step. wp_step. cbn [fst snd].
  set (x3 := set_upload (mkUpload (up_id u) (up_parts u ++ [mkUploadedPart (len (up_parts u) + 1) etag])) x2).
  assert (moved k x x3 w w2) as Hm4.
  { eapply moved_trans; [exact Hm2|]. destruct Hm3 as [O C P]. constructor; [done..|].
    assert (sm_upload x2 = Some u) as E by exact Hu. by rewrite E in *. }
  apply wp_ok_or; [|done]. intros flushed [-> _]%checked_add_Some. wp_step. wp_step.
  assert (len body = size) as Hbody by (unfold body, len in *; rewrite length_take; lia).
  assert (stream_holds w2 k (set_flushed (sm_flushed x3 + len body) x3) d) as Hd3.
  { exists (front ++ body). simpl. split; [|split; [by rewrite len_app, Hfl|split; [eauto|]]].
    - rewrite Hd1, Hb1, <- app_assoc. unfold body. by rewrite take_drop.
    - rewrite length_app, Nat.add_1_r. cbn [parts_total]. rewrite len_app, Htot, Hbody. do 2 f_equal. symmetry. exact Hlen. }
  eapply wp_mono; [apply IH; [done|exact Hd3|]| |].
  - simpl. rewrite length_drop. unfold len in *. lia.
  - intros [] s ((HJ4 & Hm5 & Hd4) & Hi & Hadv). split; [split; [done|split; [|done]]|].
    + eapply moved_trans; [exact Hm4|]. destruct Hm5 as [O C P]. by constructor.
    + split; [done|]. right. split; [unfold idle; lia|]. fold size.
      assert (sm_flushed x3 + len body <= sm_flushed s.2) as Hmono.
      { destruct Hadv as [[_ ->]|[_ Hadv]]; [done|].
        pose proof (part_size_pos _ (uploaded_nonneg (set_flushed (sm_flushed x3 + len body) x3))).
        change (sm_flushed x2) with (sm_flushed x3) in Hadv.
        change (sm_flushed (set_flushed (sm_flushed x3 + len body) x3)) with (sm_flushed x3 + len body) in Hadv. lia. }
      assert (sm_flushed x3 = sm_flushed x) as Hx3 by exact Hf1.
      lia.
  - intros e s [HJ4 Hm5]. split; [done|]. eapply moved_trans; [exact Hm4|]. destruct Hm5 as [O C P]. by constructor.
Qed.

Lemma flush_parts_holds k d w x :
  J w -> stream_holds w k x d ->
  wp (flush_parts v k) (w, x)
    (fun _ s => (J s.1 /\ moved k x s.2 w s.1 /\ stream_holds s.1 k s.2 d) /\ idle s.2 /\ advanced x s.2)
    (fun _ s => J s.1 /\ moved k x s.2 w s.1).
Proof. intros HJ Hd. unfold flush_parts. wp_step. wp_step. apply flush_loop_holds; [done..|]. simpl. lia. Qed.

(** ** Filling and writing *)

Lemma holds_len w k x d : stream_holds w k x d -> len d = sm_flushed x + len (sm_buffer x).
Proof. intros (front & -> & -> & _). apply len_app. Qed.

Lemma holds_flushed_nonneg w k x d : stream_holds w k x d -> 0 <= sm_flushed x.
Proof. intros (front & _ & -> & _). apply len_nonneg. Qed.

Lemma holds_set_buffer w k x d b front :
  stream_holds w k x d -> len front = sm_flushed x -> front = take (Z.to_nat (sm_flushed x)) d -> stream_holds w k (set_buffer b x) (front ++ b).
Proof.
  intros (f & -> & Hf & Hu) Hlen Hfront. exists f. simpl. split; [|by split]. f_equal. rewrite Hfront, Hf.
  unfold len. rewrite Nat2Z.id. by apply take_app_length.
Qed.

(** The zeros a gap needs. *)
Definition padded (d : bytes) (target : Z) : bytes := d ++ replicate (Z.to_nat (target - len d)) 0.

Lemma padded_padded d n target : n <= target -> padded (padded d n) target = padded d target.
Proof.
  intros H. unfold padded. rewrite <- app_assoc, <- replicate_add. do 2 f_equal. unfold len. rewrite length_app, length_replicate. lia.
Qed.

Lemma padded_enough d target : target <= len d -> padded d target = d.
Proof. intros H. unfold padded. replace (Z.to_nat _) with 0%nat by lia. apply app_nil_r. Qed.

Lemma padded_len d target : len (padded d target) = Z.max (len d) target.
Proof. unfold padded, len. rewrite length_app, length_replicate. lia. Qed.

Lemma holds_padded w k x d n :
  stream_holds w k x d -> 0 <= n ->
  stream_holds w k (set_buffer (resize (sm_buffer x) (len (sm_buffer x) + n)) x) (padded d (len d + n)).
Proof.
  intros Hd Hn. pose proof (holds_len _ _ _ _ Hd) as Hlen. destruct Hd as (f & -> & Hf & Hu). exists f. simpl.
  split; [|by split]. rewrite resize_longer by lia. unfold padded. rewrite <- app_assoc. do 3 f_equal. lia.
Qed.

Lemma fill_loop_holds fuel k target d w x :
  J w -> stream_holds w k x d -> idle x -> sm_flushed x <= target ->
  (if target <=? len d then 1 else (target - sm_flushed x) / s3_part_size v + 2) <= Z.of_nat fuel ->
  wp (fill_loop v fuel k target) (w, x)
    (fun _ s => (J s.1 /\ moved k x s.2 w s.1 /\ stream_holds s.1 k s.2 (padded d target)) /\ idle s.2 /\ sm_flushed s.2 <= target)
    (fun _ s => J s.1 /\ moved k x s.2 w s.1).
Proof.
  revert d w x. induction fuel as [|fuel IH]; intros d w x HJ Hd Hi Hfl Hfuel.
  { pose proof (Z.div_pos (target - sm_flushed x) (s3_part_size v) ltac:(lia) ltac:(lia)). case_match; lia. }
  pose proof (holds_live _ _ _ _ Hd) as Hlive. pose proof (holds_len _ _ _ _ Hd) as Hlen.
  cbn [fill_loop]. wp_step. wp_step. wp_step. apply wp_ok_or; [|intros _; split; [done|by apply moved_refl]].
  intros stop [-> _]%checked_add_Some. cbn [fst snd]. wp_step.
  { wp_step. rewrite padded_enough by lia. split; [|done]. split; [done|]. split; [by apply moved_refl|done]. }
  cbv zeta. wp_step. wp_step. unfold idle in Hi. pose proof (uploaded_nonneg x) as Hup.
  pose proof (part_size_least _ Hup) as Hleast. unfold saturating_sub. rewrite Z.max_l by lia.
  set (size := part_size v (uploaded_parts x)) in *. set (n := Z.min _ _).
  assert (0 < n) as Hn by lia. pose proof (holds_padded w k x d n Hd ltac:(lia)) as Hd1.
  set (x1 := set_buffer _ x) in *. assert (moved k x x1 w w) as Hm1 by by apply moved_same.
  wp_step. eapply wp_mono; [by apply flush_parts_holds| |intros e s [HJ2 Hm2]; split; [done|by eapply moved_trans]].
  intros [] [w2 x2] ((HJ2 & Hm2 & Hd2) & Hi2 & Hadv). cbn [fst snd] in *.
  rewrite <- (padded_padded d (len d + n) target) by lia.
  assert (sm_flushed x2 <= target) as Hfl2.
  { pose proof (holds_len _ _ _ _ Hd2) as Hlen2. pose proof (len_nonneg (sm_buffer x2)). rewrite padded_len in Hlen2. lia. }
  assert ((if target <=? len (padded d (len d + n)) then 1 else (target - sm_flushed x2) / s3_part_size v + 2) <= Z.of_nat fuel)
    as Hfuel2.
  { rewrite padded_len. replace (target <=? len d) with false in Hfuel by (symmetry; apply Z.leb_gt; lia).
    pose proof (Z.div_pos (target - sm_flushed x) (s3_part_size v) ltac:(lia) ltac:(lia)) as Hq.
    destruct (target <=? _) eqn:Ht; unbool; [lia|].
    assert (len (sm_buffer x1) = size) as Hb1 by (unfold x1; simpl; rewrite len_resize by lia; lia).
    destruct Hadv as [[Hx1 _]|[_ Hadv]]; [unfold idle in Hx1; change (uploaded_parts x1) with (uploaded_parts x) in Hx1; lia|].
    change (sm_flushed x + size <= sm_flushed x2) in Hadv.
    assert ((target - sm_flushed x2) / s3_part_size v <= (target - sm_flushed x - 1 * s3_part_size v) / s3_part_size v) as Hle
      by (apply Z.div_le_mono; lia).
    replace (target - sm_flushed x - 1 * s3_part_size v) with (target - sm_flushed x + (-1) * s3_part_size v) in Hle by lia.
    rewrite Z.div_add in Hle by lia. lia. }
  eapply wp_mono; [by apply IH| |intros e s [HJ3 Hm3]; split; [done|by do 2 (eapply moved_trans; [done|])]].
  intros [] s ((HJ3 & Hm3 & Hd3) & Hrest). split; [|done]. split; [done|]. split; [|done]. by do 2 (eapply moved_trans; [done|]).
Qed.

Lemma fill_gap_holds k target d w x :
  J w -> stream_holds w k x d -> idle x -> sm_flushed x <= target ->
  wp (fill_gap v k target) (w, x)
    (fun _ s => (J s.1 /\ moved k x s.2 w s.1 /\ stream_holds s.1 k s.2 (padded d target)) /\ idle s.2 /\ sm_flushed s.2 <= target)
    (fun _ s => J s.1 /\ moved k x s.2 w s.1).
Proof.
  intros HJ Hd Hi Hfl. unfold fill_gap. wp_step. wp_step. apply fill_loop_holds; [done..|]. cbn [fst snd].
  pose proof (Z.div_pos (target - sm_flushed x) (s3_part_size v) ltac:(lia) ltac:(lia)). case_match; lia.
Qed.

Lemma write_stream_holds k target new d w x :
  J w -> stream_holds w k x d -> idle x -> sm_flushed x <= target ->
  wp (write_stream v k target new) (w, x)
    (fun n s => n = len new /\ (J s.1 /\ moved k x s.2 w s.1 /\ stream_holds s.1 k s.2 (written d target new)) /\ idle s.2)
    (fun _ s => J s.1 /\ moved k x s.2 w s.1).
Proof.
  intros HJ Hd Hi Hfl. pose proof (holds_flushed_nonneg _ _ _ _ Hd) as Hnn. unfold write_stream. wp_step.
  eapply wp_mono; [by apply fill_gap_holds| |done]. intros [] [w1 x1] ((HJ1 & Hm1 & Hd1) & Hi1 & Hfl1). cbn [fst snd] in *.
  wp_step. wp_step. cbn [fst snd]. wp_step. apply wp_u64_sub; [done|]. wp_step.
  apply wp_lift; [unfold usize_try_from; by case_match|..]; [|intros e _; done]. intros start Hstart.
  assert (start = target - sm_flushed x1) as -> by (unfold usize_try_from in Hstart; case_match; by simplify_eq). clear Hstart.
  wp_step. apply wp_ok_or; [|done]. intros stop [-> _]%checked_add_Some. cbv zeta. wp_step.
  destruct Hd1 as (front & Hd1 & Hf1 & Hup).
  set (start := target - sm_flushed x1) in *. set (b := if len (sm_buffer x1) <? start + len new then _ else _).
  assert (start + len new <= len b) as Hlen.
  { unfold b. pose proof (len_nonneg new). destruct (_ <? _) eqn:Hlt; unbool; [rewrite len_resize by lia|]; lia. }
  unfold copy_into. apply (wp_ok _ (splice b start new)); [by rewrite (proj2 (Z.leb_le _ _) Hlen)|].
  unfold b. rewrite written_in_place by lia. wp_step. wp_step. wp_step.
  assert (stream_holds w1 k (set_buffer (written (sm_buffer x1) start new) x1) (written d target new)) as Hd2.
  { exists front. simpl. split; [|by split]. rewrite <- written_app by lia. rewrite <- Hd1. unfold padded.
    replace (len front + start) with target by lia. symmetry. apply written_padded. lia. }
  eapply wp_mono; [by apply flush_parts_holds| |].
  - intros [] s ((HJ2 & Hm2 & Hd3) & Hi2 & _). wp_step. split; [done|]. split; [|done]. split; [done|]. split; [|done].
    eapply moved_trans; [exact Hm1|]. destruct Hm2 as [O C P]. by constructor.
  - intros e s [HJ2 Hm2]. split; [done|]. eapply moved_trans; [exact Hm1|]. destruct Hm2 as [O C P]. by constructor.
Qed.

(** ** Finishing *)

(** The upload of the stream, if it has one, is gone. *)
Definition upload_gone (x : Stream) (w w' : W) : Prop :=
  match sm_upload x with Some u => pend_set (up_id u) None w w' | None => pend_same w w' end.

(** The body of the stream became the object [k], under the precondition. *)
Definition published (k : str) (p : Precondition) (d : bytes) (w w' : W) : Prop :=
  satisfied (guard v p) k w /\ landed k d w w'.

Lemma put_object_lands k d p w :
  J w ->
  wp (put_object v k d p) w
    (fun _ w' => (J w' /\ pend_same w w') /\ published k p d w w')
    (fun e w' => (J w' /\ pend_same w w') /\ (objs_same w w' \/ e = EIO /\ published k p d w w')).
Proof.
  intros HJ. unfold put_object. cbv zeta. apply wp_map_err.
  eapply wp_mono; [apply (law_put obj pend rest (mkPutRequest (s3_bucket v) k d (guard v p)) w HJ)|..].
  - intros [] w' (HJ' & Hp & Hs & Hd). done.
  - intros e w' (HJ' & Hp & [Ho|(-> & Hs & Hd)]); (split; [done|]); [by left|by right].
Qed.

Lemma finish_stream_lands k d w x :
  J w -> stream_holds w k x d ->
  wp (finish_stream v k) (w, x)
    (fun _ s => J s.1 /\ upload_gone x w s.1 /\ published k (sm_precondition x) d w s.1)
    (fun e s => (J s.1 /\ sm_upload s.2 = sm_upload x)
       /\ ((moved k x x w s.1) \/ e = EIO /\ upload_gone x w s.1 /\ published k (sm_precondition x) d w s.1)).
Proof.
  intros HJ Hd. pose proof (holds_live _ _ _ _ Hd) as Hlive. destruct Hd as (front & Hd & Hf & Hup).
  unfold finish_stream. wp_step. wp_step. cbn [fst snd]. unfold upload_gone. destruct (sm_upload x) as [u|] eqn:Hx.
  2: { subst front. wp_step. unfold take_buffer. wp_steps. apply wp_on_store. cbn [fst snd]. simpl in Hd. rewrite <- Hd.
    eapply wp_mono; [by apply put_object_lands|..].
    - intros [] w' ((HJ' & Hp) & Hpub). done.
    - intros e w' ((HJ' & Hp) & [Ho|[-> Hpub]]); (split; [by rewrite ?Hx|]); [left|right; done].
      constructor; [done..|]. rewrite Hx. intros id. left. by apply Hp. }
  destruct Hup as [(m & Hm & Hnum & Hg) _]. wp_step.
  (* the last part *)
  assert (wp (last_parts v k u) (w, x)
    (fun parts s => (J s.1 /\ moved k x x w s.1 /\ sm_upload s.2 = Some u) /\ exists m',
       pend s.1 (up_id u) = Some (k, m') /\ numbered parts /\ gathered m' parts d)
    (fun _ s => J s.1 /\ moved k x x w s.1 /\ sm_upload s.2 = Some u)) as Hlast.
  { unfold last_parts. wp_step. wp_step. cbn [fst snd]. wp_step.
    2: { assert (sm_buffer x = []) as Hb by done. wp_step. rewrite Hb, app_nil_r in Hd. subst d.
      split; [|by exists m]. split; [done|]. split; [by apply moved_refl|done]. }
    wp_step. apply wp_lift; [by case_match|..]; [|intros e _; split; [done|split; [by apply moved_refl|done]]].
    intros number Hn. assert (number = len (up_parts u) + 1) as -> by (case_match; by simplify_eq). clear Hn.
    wp_step. unfold take_buffer. wp_steps. apply wp_on_store, wp_map_err. cbn [fst snd].
    eapply wp_mono; [by apply (upload_part_holds k w x u m front (sm_buffer x) (sm_buffer x))| |].
    - intros etag w' (HJ' & Hm' & m' & Hp & Hnum' & Hg'). wp_step. split; [done|]. exists m'. by rewrite Hd.
    - intros e w' [HJ' Hm']. done. }
  eapply wp_mono; [exact Hlast| |]; clear Hlast.
  2: { intros e s (HJ1 & Hm1 & Hu1). split; [done|]. by left. }
  intros parts [w1 x1] ((HJ1 & Hm1 & Hu1) & m1 & Hp1 & Hnum1 & Hg1). cbn [fst snd] in *. cbv zeta.
  apply wp_on_store, wp_map_err. cbn [fst snd]. destruct Hm1 as [O1 C1 P1]. rewrite Hx in P1. destruct P1 as [_ [m0 P1]].
  eapply wp_mono; [apply (law_complete_upload obj pend rest
    (mkCompleteUploadRequest (s3_bucket v) k (up_id u) parts (guard v (sm_precondition x))) m1 d w1 HJ1 Hp1 Hnum1 Hg1)|..].
  - intros [] w2 (HJ2 & Hp2 & Hs & Hd2). simpl in *. split; [done|]. split; [by eapply pend_set_set|].
    split; [by eapply satisfied_same|by eapply landed_same_l].
  - intros e w2 (HJ2 & H2). simpl in *. split; [done|]. destruct H2 as [[Ho2 Hp2]|(-> & Hp2 & Hs & Hd2)].
    + left. constructor; [intros q; by rewrite Ho2, O1|done|]. rewrite Hx. split; [done|]. exists m0.
      destruct P1 as [P1 P1']. split; [by rewrite Hp2|]. intros id Hid. by rewrite Hp2, P1'.
    + right. split; [done|]. split; [by eapply pend_set_set|]. split; [by eapply satisfied_same|by eapply landed_same_l].
Qed.
End stage.
