(* ===== verification/S3Listing.v ===== *)
(** * Listings and classification (src/src/vfs/s3.rs)

    A directory is there if a key is below its prefix or its marker is empty; its
    entries are the next components of the keys below, a directory before an object
    of the same name.  [scan_directory] finds exactly that, whatever the pages. *)

From Stdlib Require Import Ascii String Sorted.
From Stdlib Require Import Ascii String.
From S2P Require Import Prelude RustStr BTreeMap VfsTypes VfsPath SandboxFs S3Types S3Vfs S3Laws S3Stage.

#[local] Open Scope Z_scope.

Lemma strip_prefix_Some s p r : strip_prefix s p = Some r <-> s = p ++ r.
Proof.
  unfold strip_prefix. destruct (starts_with s p) eqn:H.
  - apply starts_with_app in H as [r' ->]. rewrite drop_app_length. split; [by intros [= ->]|by intros ->%app_inv_head].
  - split; [done|]. intros ->. by rewrite starts_with_prefix in H.
Qed.

Lemma strip_slash_Some s name : strip_slash s = Some name <-> s = name ++ lit "/".
Proof.
  unfold strip_slash. destruct (split_last s) as [[front c]|] eqn:H.
  - apply split_last_Some in H as ->. destruct (c =? ch "/")%N eqn:Hc; unbool.
    + subst c. change (lit "/") with [ch "/"]. split; [by intros [= ->]|by intros [-> _]%app_inj_tail].
    + split; [done|]. change (lit "/") with [ch "/"]. by intros [_ ?]%app_inj_tail.
  - apply split_last_None in H as ->. split; [done|]. by destruct name.
Qed.

(** ** What a page adds *)

Section pages.
Context (prefix : str) (root : bool).

Definition dir_metadata : Metadata := mkMetadata DirectoryType 0.

(** An object, or a prefix, that shows that the directory is there. *)
Definition object_shows (o : ListedObject) : Prop := exists r, lo_key o = prefix ++ r /\ (r <> [] \/ lo_size o = 0).
Definition prefix_shows (p : str) : Prop := exists name, p = prefix ++ name ++ lit "/".

(** What is found after the objects [os] and the common prefixes [ps]. *)
Record found_in (os : list ListedObject) (ps : list str) (acc : bool * list (str * Metadata)) : Prop := {
  fi_exists : acc.1 = true <-> root = true \/ (exists o, o ∈ os /\ object_shows o) \/ (exists p, p ∈ ps /\ prefix_shows p);
  fi_wf : bt_wf acc.2;
  fi_entry name m :
    bt_get name acc.2 = Some m <->
    valid_entry_name name = true
    /\ ((prefix ++ name ++ lit "/" ∈ ps) /\ m = dir_metadata
        \/ ((prefix ++ name ++ lit "/" ∉ ps) /\ (exists n, mkListedObject (prefix ++ name) n ∈ os /\ m = mkMetadata RegularFile n)))
}.

Lemma found_start : found_in [] [] (root, []).
Proof.
  constructor; simpl; [|constructor|].
  - split; [by left|]. intros [?|[(o & H & _)|(p & H & _)]]; [done|by apply elem_of_nil in H..].
  - intros name m. split; [done|]. intros [_ [[H _]|[_ (n & H & _)]]]; by apply elem_of_nil in H.
Qed.

Definition sizes_agree (os : list ListedObject) : Prop :=
  forall o o', o ∈ os -> o' ∈ os -> lo_key o = lo_key o' -> lo_size o = lo_size o'.

Lemma elem_snoc {A} (l : list A) x y : y ∈ l ++ [x] <-> y ∈ l \/ y = x.
Proof. by rewrite elem_of_app, list_elem_of_singleton. Qed.

Lemma exists_snoc {A} (P : A -> Prop) l x : (exists y, y ∈ l ++ [x] /\ P y) <-> (exists y, y ∈ l /\ P y) \/ P x.
Proof.
  split.
  - intros (y & [Hy|Hy%list_elem_of_singleton]%elem_of_app & HP); [left; eauto|right; by subst].
  - intros [(y & Hy & HP)|HP]; [exists y|exists x]; (split; [apply elem_of_app|done]); [by left|right; by apply list_elem_of_singleton].
Qed.

Lemma found_add_object os ps acc o :
  sizes_agree (os ++ [o]) -> found_in os ps acc -> found_in (os ++ [o]) ps (add_object prefix acc o).
Proof.
  intros Hag [He Hwf Hget]. destruct acc as [found entries]. simpl in He, Hwf, Hget. unfold add_object.
  destruct (strip_prefix (lo_key o) prefix) as [r|] eqn:Hr.
  2: { assert (forall r, lo_key o <> prefix ++ r) as Hno by (intros r Hk; apply strip_prefix_Some in Hk; congruence).
    constructor; cbn [fst snd]; [|done|].
    - rewrite He, exists_snoc. assert (~ object_shows o) by (intros (r & H & _); by apply (Hno r)). tauto.
    - intros name m. rewrite Hget. setoid_rewrite elem_snoc.
      assert (forall n, o <> mkListedObject (prefix ++ name) n) by (intros n ->; by apply (Hno name)). naive_solver. }
  apply strip_prefix_Some in Hr. case_bool_decide as Hne.
  - subst r. rewrite app_nil_r in Hr. constructor; cbn [fst snd]; [|done|].
    + rewrite exists_snoc, orb_true_iff, He, Z.eqb_eq. unfold object_shows at 3. split; [|].
      * intros [?|?]; [tauto|]. right. left. right. exists []. rewrite app_nil_r. tauto.
      * intros [?|[[?|(r & Hk & Hs)]|?]]; [tauto..| |tauto]. right.
        rewrite Hr in Hk. rewrite <- (app_nil_r prefix) in Hk at 1. apply app_inv_head in Hk as <-. by destruct Hs.
    + intros name m. rewrite Hget. setoid_rewrite elem_snoc.
      assert (valid_entry_name name = true -> forall n, o <> mkListedObject (prefix ++ name) n).
      { intros Hv n ->. simpl in Hr. rewrite <- (app_nil_r prefix) in Hr at 2. apply app_inv_head in Hr as ->. done. }
      naive_solver.
  - assert (object_shows o) as Hs by (exists r; by split; [|left]).
    assert (forall name n, o = mkListedObject (prefix ++ name) n <-> name = r /\ n = lo_size o) as Hname.
    { intros name n. split.
      - intros ->. simpl in *. by apply app_inv_head in Hr as ->.
      - intros [-> ->]. destruct o. simpl in *. by subst. }
    constructor; cbn [fst snd].
    + rewrite exists_snoc. tauto.
    + repeat case_match; [done|by apply bt_wf_insert|done].
    + intros name m. setoid_rewrite elem_snoc. destruct (decide (name = r)) as [->|Hneq].
      2: { assert (forall n, mkListedObject (prefix ++ name) n = o <-> False) as Hno by (split; [|done]; intros <-; by apply Hneq, (Hname name n)).
        setoid_rewrite Hno. setoid_rewrite (right_id False or). rewrite <- Hget.
        repeat case_match; [done|by rewrite bt_get_insert_ne|done]. }
      destruct (valid_entry_name r) eqn:Hv.
      2: { rewrite Hget, Hv. naive_solver. }
      assert (mkListedObject (prefix ++ r) (lo_size o) = o) as Ho by (symmetry; by apply Hname).
      destruct (bt_get r entries) as [m0|] eqn:Hg.
      * rewrite Hg. pose proof (proj1 (Hget r m0) Hg) as [_ [[Hin ->]|(Hin & n0 & Hos & ->)]].
        { split; [intros [= <-]; naive_solver|]. intros [_ [[_ ->]|[? _]]]; done. }
        assert (n0 = lo_size o) as ->.
        { apply (Hag (mkListedObject (prefix ++ r) n0) o); [apply elem_snoc; by left|apply elem_snoc; by right|done]. }
        split; [intros [= <-]; naive_solver|]. intros [_ [[? _]|(_ & n & Hn & ->)]]; [done|]. f_equal. f_equal.
        destruct Hn as [Hn|Hn]; [|by apply (f_equal lo_size) in Hn].
        symmetry. apply (Hag (mkListedObject (prefix ++ r) n) o); [apply elem_snoc; by left|apply elem_snoc; by right|done].
      * rewrite bt_get_insert_eq.
        assert (prefix ++ r ++ lit "/" ∉ ps) as Hps.
        { intros Hin. assert (bt_get r entries = Some dir_metadata) by (apply Hget; naive_solver). congruence. }
        assert (forall n, mkListedObject (prefix ++ r) n ∉ os) as Hos.
        { intros n Hin. assert (bt_get r entries = Some (mkMetadata RegularFile n)) by (apply Hget; naive_solver). congruence. }
        split; [intros [= <-]; naive_solver|]. intros [_ [[? _]|(_ & n & [Hn|Hn] & ->)]]; [done|by apply Hos in Hn|].
        by apply (f_equal lo_size) in Hn as <-.
Qed.

Lemma found_add_prefix os ps acc p : found_in os ps acc -> found_in os (ps ++ [p]) (add_common_prefix prefix acc p).
Proof.
  intros [He Hwf Hget]. destruct acc as [found entries]. simpl in He, Hwf, Hget. unfold add_common_prefix.
  assert (forall name, strip_prefix p prefix ≫= strip_slash = Some name <-> p = prefix ++ name ++ lit "/") as Hp.
  { intros name. rewrite bind_Some. setoid_rewrite strip_prefix_Some. setoid_rewrite strip_slash_Some. naive_solver. }
  destruct (strip_prefix p prefix ≫= strip_slash) as [r|] eqn:Hr.
  2: { assert (forall name, p <> prefix ++ name ++ lit "/") as Hno by (intros name Hn; by apply Hp in Hn).
    assert (forall name, prefix ++ name ++ lit "/" = p <-> False) as Hno' by (split; [|done]; intros Hn; by apply (Hno name)).
    assert (found_in os (ps ++ [p]) (found, entries)) as Hsame.
    { constructor; cbn [fst snd]; [|done|].
      - rewrite He, exists_snoc. assert (~ prefix_shows p) by (intros [name Hn]; by apply (Hno name)). tauto.
      - intros name m. rewrite Hget, elem_snoc, Hno'. tauto. }
    destruct (strip_prefix p prefix); simpl in Hr; [by rewrite Hr|done]. }
  assert (p = prefix ++ r ++ lit "/") as Hpr by by apply Hp.
  assert (found_in os (ps ++ [p]) (true, if valid_entry_name r then bt_insert r dir_metadata entries else entries)) as Hnew.
  { constructor; cbn [fst snd].
    - rewrite exists_snoc. assert (prefix_shows p) by by exists r. tauto.
    - case_match; [by apply bt_wf_insert|done].
    - intros name m. rewrite elem_snoc. destruct (decide (name = r)) as [->|Hneq].
      + destruct (valid_entry_name r) eqn:Hv; [|rewrite Hget, Hv; naive_solver].
        rewrite bt_get_insert_eq. split; [intros [= <-]; naive_solver|]. intros [_ [[_ ->]|[Hn _]]]; [done|]. exfalso. auto.
      + assert (prefix ++ name ++ lit "/" = p <-> False) as ->.
        { split; [|done]. rewrite Hpr. intros H%app_inv_head. apply app_inv_tail in H. done. }
        rewrite (right_id False or), <- Hget. case_match; [by rewrite bt_get_insert_ne|done]. }
  destruct (strip_prefix p prefix) as [q|]; simpl in Hr; [by rewrite Hr|done].
Qed.

(** A page adds its objects and its common prefixes. *)
Lemma found_page os ps acc page :
  sizes_agree (os ++ lr_objects page) -> found_in os ps acc ->
  found_in (os ++ lr_objects page) (ps ++ lr_common_prefixes page)
    (foldl (add_common_prefix prefix) (foldl (add_object prefix) acc (lr_objects page)) (lr_common_prefixes page)).
Proof.
  intros Hag H0. assert (found_in (os ++ lr_objects page) ps (foldl (add_object prefix) acc (lr_objects page))) as H1.
  { revert os acc H0 Hag. induction (lr_objects page) as [|o l IH]; intros os acc H0 Hag; [by rewrite app_nil_r|].
    change (o :: l) with ([o] ++ l) in *. rewrite app_assoc in *. simpl. apply IH; [|done].
    apply found_add_object; [|done]. intros x y Hx Hy. apply Hag; rewrite elem_of_app; by left. }
  revert H1. generalize (foldl (add_object prefix) acc (lr_objects page)). generalize (os ++ lr_objects page). clear.
  intros os acc H. revert ps acc H. induction (lr_common_prefixes page) as [|p l IH]; intros ps acc H; [by rewrite app_nil_r|].
  change (p :: l) with ([p] ++ l). rewrite app_assoc. simpl. by apply IH, found_add_prefix.
Qed.
End pages.

(** ** Names without a slash *)

Lemma no_slash_spec s : contains s (ch "/") = false <-> forall a b, s <> a ++ lit "/" ++ b.
Proof.
  split.
  - intros H a b ->. unfold contains in H. rewrite !existsb_app in H. simpl in H. by rewrite orb_true_r in H.
  - intros H. destruct (contains s (ch "/")) eqn:Hc; [|done]. apply existsb_exists in Hc as (c & Hc & Heq). unbool. subst c.
    apply list_elem_of_In, list_elem_of_split in Hc as (a & b & ->). by destruct (H a b).
Qed.

Lemma first_slash s : contains s (ch "/") = false \/ exists a b, s = a ++ lit "/" ++ b /\ contains a (ch "/") = false.
Proof.
  induction s as [|c s IH]; [by left|]. destruct (decide (c = ch "/")) as [->|Hc]; [right; by exists [], s|].
  assert (forall t, contains (c :: t) (ch "/") = contains t (ch "/")) as Hcons.
  { intros t. change (contains (c :: t) (ch "/")) with ((ch "/" =? c)%N || contains t (ch "/")).
    by rewrite (proj2 (N.eqb_neq _ _)) by done. }
  destruct IH as [H|(a & b & -> & H)]; [left; by rewrite Hcons|right]. exists (c :: a), b. by rewrite Hcons.
Qed.

Lemma slash_ends name a b :
  contains name (ch "/") = false -> name ++ lit "/" = a ++ lit "/" ++ b -> b = [].
Proof.
  intros Hn H. destruct b as [|x b _] using rev_ind; [done|]. exfalso.
  change (lit "/") with [ch "/"] in *. rewrite !app_assoc in H. apply app_inj_tail in H as [H _].
  apply (proj1 (no_slash_spec name) Hn a b). by rewrite H, <- app_assoc.
Qed.

Lemma valid_no_slash name : valid_entry_name name = true -> contains name (ch "/") = false.
Proof. unfold valid_entry_name. intros H. by unbool. Qed.

#[export] Instance entry_eq_dec : EqDecision Entry.
Proof. solve_decision. Defined.

Section scan.
Context {W : Type} (v : S3Vfs W) (pages : W -> nat).
Context (obj : W -> str -> option (bytes * str)) (pend : W -> str -> option (str * gmap Z bytes)).
Context (rest : W -> str -> str -> option str -> list Entry) (J : W -> Prop).
Context `{Hl : !S3Laws obj pend rest J (s3_ops v)} (Hpages : pages_enough rest J pages).

Abbreviation ops := (s3_ops v).
Abbreviation same := (store_same obj pend).
Abbreviation whole w prefix := (rest w prefix (lit "/") None).

(** ** What the keys say *)

(** The directory of [prefix] is there. *)
Definition dir_shown (w : W) (prefix : str) : Prop :=
  exists below d e, obj w (prefix ++ below) = Some (d, e) /\ (below <> [] \/ d = []).
Definition child_dir (w : W) (prefix name : str) : Prop :=
  exists below d e, obj w (prefix ++ name ++ lit "/" ++ below) = Some (d, e).
Definition child_file (w : W) (prefix name : str) (n : Z) : Prop :=
  exists d e, obj w (prefix ++ name) = Some (d, e) /\ n = len d.

Definition entry_of (w : W) (prefix name : str) (m : Metadata) : Prop :=
  valid_entry_name name = true
  /\ (child_dir w prefix name /\ m = dir_metadata
      \/ ~ child_dir w prefix name /\ exists n, child_file w prefix name n /\ m = mkMetadata RegularFile n).

Lemma listed_file w prefix name n :
  J w -> contains name (ch "/") = false -> EntryObject (prefix ++ name) n ∈ whole w prefix <-> child_file w prefix name n.
Proof.
  intros HJ Hn. rewrite (law_listed obj pend rest w prefix (lit "/") _ HJ) by by right. cbn [listed]. split.
  - intros (name' & d & e & H%app_inv_head & Ho & -> & _). subst name'. by exists d, e.
  - intros (d & e & Ho & ->). exists name, d, e. split; [done|]. split; [done|]. split; [done|]. right. by apply no_slash_spec.
Qed.

Lemma listed_dir w prefix name :
  J w -> contains name (ch "/") = false -> EntryPrefix (prefix ++ name ++ lit "/") ∈ whole w prefix <-> child_dir w prefix name.
Proof.
  intros HJ Hn. rewrite (law_listed obj pend rest w prefix (lit "/") _ HJ) by by right. cbn [listed]. split.
  - intros (_ & name' & below & d & e & _ & Ho & _). exists below, d, e. by rewrite <- !app_assoc in Ho.
  - intros (below & d & e & Ho). split; [done|]. exists name, below, d, e. split; [done|]. split; [by rewrite <- !app_assoc|].
    intros a b. by apply slash_ends.
Qed.

Lemma entry_objects_elem es k n : mkListedObject k n ∈ entry_objects es <-> EntryObject k n ∈ es.
Proof.
  unfold entry_objects. rewrite list_elem_of_omap. split; [intros ([k' n'|p] & H & Heq); by simplify_eq|intros H; by eexists].
Qed.

Lemma entry_prefixes_elem es p : p ∈ entry_prefixes es <-> EntryPrefix p ∈ es.
Proof.
  unfold entry_prefixes. rewrite list_elem_of_omap. split; [intros ([k' n'|q] & H & Heq); by simplify_eq|intros H; by eexists].
Qed.

Lemma listed_sizes w prefix es : J w -> (forall e, e ∈ es -> e ∈ whole w prefix) -> sizes_agree (entry_objects es).
Proof.
  intros HJ Hes [k n] [k' n'] H%entry_objects_elem%Hes H'%entry_objects_elem%Hes Hk. simpl in *. subst k'.
  apply (law_listed obj pend rest _ _ _ _ HJ) in H as (r & d & e & -> & Ho & -> & _); [|by right].
  apply (law_listed obj pend rest _ _ _ _ HJ) in H' as (r' & d' & e' & Hr & Ho' & -> & _); [|by right]. congruence.
Qed.

Lemma shown_listed w prefix :
  J w ->
  dir_shown w prefix <->
  (exists o, o ∈ entry_objects (whole w prefix) /\ object_shows prefix o)
  \/ (exists p, p ∈ entry_prefixes (whole w prefix) /\ prefix_shows prefix p).
Proof.
  intros HJ. split.
  - intros (below & d & e & Ho & Hb). destruct (first_slash below) as [Hn|(a & b & -> & Ha)].
    + left. exists (mkListedObject (prefix ++ below) (len d)). rewrite entry_objects_elem, listed_file by done.
      split; [by exists d, e|]. exists below. split; [done|]. simpl. destruct Hb as [?| ->]; [by left|by right].
    + right. exists (prefix ++ a ++ lit "/"). rewrite entry_prefixes_elem, listed_dir by done. split; [by exists b, d, e|]. by exists a.
  - intros [([k n] & H & r & Hk & Hr)|(p & H & name & ->)].
    + simpl in *. subst k. apply entry_objects_elem, (law_listed obj pend rest _ _ _ _ HJ) in H as (r' & d & e & Heq & Ho & -> & _); [|by right].
      exists r, d, e. split; [done|]. destruct Hr as [?|Hr]; [by left|right]. by apply length_zero_iff_nil; unfold len in Hr; lia.
    + apply entry_prefixes_elem, (law_listed obj pend rest _ _ _ _ HJ) in H as (_ & name' & below & d & e & _ & Ho & _); [|by right].
      exists (name ++ lit "/" ++ below), d, e. rewrite <- !app_assoc in Ho. split; [done|left]. by destruct name.
Qed.

(** ** Scanning *)

Lemma wp_request {A} (m : ST W RemoteError A) w (Q : A -> W -> Prop) (R : Errno -> W -> Prop) :
  wp m w Q (fun e => R (into_vfs e)) -> wp (request m) w Q R.
Proof. unfold wp, request, map_err. by destruct (m w) as [[] ?]. Qed.

Lemma entry_objects_app a b : entry_objects (a ++ b) = entry_objects a ++ entry_objects b.
Proof. apply omap_app. Qed.
Lemma entry_prefixes_app a b : entry_prefixes (a ++ b) = entry_prefixes a ++ entry_prefixes b.
Proof. apply omap_app. Qed.

Lemma scan_loop_finds n prefix root probe c seen acc read left w :
  J w -> whole w prefix = read ++ left -> rest w prefix (lit "/") c = left ->
  found_in prefix root (entry_objects read) (entry_prefixes read) acc -> (length left < n)%nat ->
  wp (scan_loop v n prefix probe c seen acc) w
    (fun l w' => (J w' /\ same w w') /\ exists read left acc,
       whole w prefix = read ++ left /\ found_in prefix root (entry_objects read) (entry_prefixes read) acc
       /\ l = listing_of acc /\ (left = [] \/ probe = true /\ acc.2 <> []))
    (fun _ w' => J w' /\ same w w').
Proof.
  revert c seen acc read left w. induction n as [|n IH]; intros c seen acc read left w HJ Hall Hc Hf Hn; [lia|].
  cbn [scan_loop]. wp_step. apply wp_request.
  eapply wp_mono; [apply (law_list obj pend rest (mkListRequest (s3_bucket v) prefix (lit "/") c (if probe then Some 2 else None)) w HJ);
                   by destruct probe| |done].
  intros page w1 (HJ1 & Hs1 & shown & left1 & Hrest & Ho & Hp & Hnext). cbn [lq_prefix lq_delimiter lq_continuation] in *. rewrite Hrest in Hc. subst left.
  cbv zeta. set (acc1 := foldl _ _ _).
  assert (whole w prefix = (read ++ shown) ++ left1) as Hall1 by by rewrite <- app_assoc.
  assert (found_in prefix root (entry_objects (read ++ shown)) (entry_prefixes (read ++ shown)) acc1) as Hf1.
  { rewrite entry_objects_app, entry_prefixes_app. rewrite <- Ho, <- Hp. apply found_page; [|done].
    rewrite Ho, <- entry_objects_app. apply (listed_sizes w prefix); [done|]. intros e He. rewrite Hall1. apply elem_of_app. by left. }
  wp_step. unfold next_page. destruct (lr_truncated page) eqn:Ht; simpl negb; cbv iota.
  2: { subst left1. apply (wp_ok _ None); [done|]. wp_step. split; [done|]. exists (read ++ shown), [], acc1. split; [done|]. split; [done|]. split; [done|]. by left. }
  destruct Hnext as [Hshown Hnext]. destruct (lr_next_continuation page) as [t|]; [|done].
  case_bool_decide as Hte; [done|]. case_bool_decide as Hseen; [done|]. apply (wp_ok _ (Some t)); [done|]. cbv iota beta.
  wp_step.
  - wp_step. split; [done|]. exists (read ++ shown), left1, acc1. split; [done|]. split; [done|]. split; [done|]. right.
    by destruct_and?.
  - eapply wp_mono; [apply (IH (Some t) (t :: seen) acc1 (read ++ shown) left1 w1); [done|..|done|]| |].
    + by rewrite (law_rest_same obj pend rest w w1 _ _ _ HJ HJ1 Hs1).
    + rewrite (law_rest_same obj pend rest w w1 _ _ _ HJ HJ1 Hs1). by apply Hnext.
    + rewrite length_app in Hn. destruct shown; [done|]. simpl in Hn. lia.
    + intros l w2 [[HJ2 Hs2] H2]. split; [split; [done|by etrans]|]. by rewrite (law_rest_same obj pend rest w w1 _ _ _ HJ HJ1 Hs1) in H2.
    + intros e w2 [HJ2 Hs2]. split; [done|by etrans].
Qed.

Abbreviation dir_of cs := (directory_prefix v cs).

(** A listing tells the truth; a probe whether there are entries at all. *)
Definition listing_right (w : W) (cs : list str) (probe : bool) (l : DirectoryListing) : Prop :=
  (dl_exists l = true <-> cs = [] \/ dir_shown w (dir_of cs))
  /\ if probe then dl_entries l <> [] <-> exists name m, entry_of w (dir_of cs) name m
     else StronglySorted str_lt (entry_name <$> dl_entries l)
          /\ forall e, e ∈ dl_entries l <-> entry_of w (dir_of cs) (entry_name e) (entry_metadata e).

Lemma found_all w prefix root acc name m :
  J w -> found_in prefix root (entry_objects (whole w prefix)) (entry_prefixes (whole w prefix)) acc ->
  bt_get name acc.2 = Some m <-> entry_of w prefix name m.
Proof.
  intros HJ [_ _ Hget]. rewrite Hget. unfold entry_of. split; intros [Hv H]; (split; [done|]);
    pose proof (valid_no_slash _ Hv) as Hn; rewrite entry_prefixes_elem, listed_dir in * by done;
    setoid_rewrite entry_objects_elem in H || setoid_rewrite entry_objects_elem;
    setoid_rewrite (fun n => listed_file w prefix name n HJ Hn) in H || setoid_rewrite (fun n => listed_file w prefix name n HJ Hn);
    done.
Qed.

(** What was found in a part of the listing is there. *)
Lemma found_some w prefix root read left acc name m :
  J w -> whole w prefix = read ++ left -> found_in prefix root (entry_objects read) (entry_prefixes read) acc ->
  bt_get name acc.2 = Some m -> dir_shown w prefix /\ exists m', entry_of w prefix name m'.
Proof.
  intros HJ Hall [_ _ Hget] H. apply Hget in H as [Hv H]. pose proof (valid_no_slash _ Hv) as Hn.
  assert (forall e, e ∈ read -> e ∈ whole w prefix) as Hsub by (intros e He; rewrite Hall; apply elem_of_app; by left).
  assert (name <> []) as Hne by (by intros ->).
  destruct H as [[H _]|[_ (n & H & _)]].
  - apply entry_prefixes_elem, Hsub, listed_dir in H; [|done..]. split.
    + destruct H as (below & d & e & Ho). exists (name ++ lit "/" ++ below), d, e. split; [done|]. left. by destruct name.
    + exists dir_metadata. split; [done|]. by left.
  - apply entry_objects_elem, Hsub, listed_file in H; [|done..]. split.
    + destruct H as (d & e & Ho & _). exists name, d, e. split; [done|]. by left.
    + pose proof (listed_dir w prefix name HJ Hn) as Hd.
      destruct (decide (EntryPrefix (prefix ++ name ++ lit "/") ∈ whole w prefix)) as [Hc|Hc]; rewrite Hd in Hc.
      * exists dir_metadata. split; [done|]. by left.
      * exists (mkMetadata RegularFile n). split; [done|]. right. eauto.
Qed.

Lemma listing_names acc : entry_name <$> dl_entries (listing_of acc) = bt_keys acc.2.
Proof. simpl. rewrite <- list_fmap_compose. done. Qed.

Lemma listing_elem acc e :
  bt_wf acc.2 -> e ∈ dl_entries (listing_of acc) <-> bt_get (entry_name e) acc.2 = Some (entry_metadata e).
Proof.
  intros Hwf. simpl. rewrite list_elem_of_fmap, <- bt_get_elem by done. split.
  - by intros ([name m] & -> & H).
  - intros H. exists (entry_name e, entry_metadata e). split; [by destruct e|done].
Qed.

Lemma scan_finds cs probe w :
  J w ->
  wp (scan_directory v pages cs probe) w
    (fun l w' => (J w' /\ same w w') /\ listing_right w cs probe l) (fun _ w' => J w' /\ same w w').
Proof.
  intros HJ. unfold scan_directory. wp_step. wp_step.
  eapply wp_mono; [apply (scan_loop_finds (pages w) (dir_of cs) (bool_decide (cs = [])) probe None [] _ [] _ w HJ eq_refl eq_refl);
    [apply found_start|apply Hpages, HJ]| |done].
  intros l w' [Hw' (read & left & acc & Hall & Hf & -> & Hend)]. split; [done|]. pose proof (fi_wf _ _ _ _ _ Hf) as Hwf.
  destruct (decide (left = [])) as [->|Hleft].
  - rewrite app_nil_r in Hall. subst read. split.
    + cbn [listing_of dl_exists]. rewrite (fi_exists _ _ _ _ _ Hf), bool_decide_eq_true, (shown_listed w (dir_of cs) HJ). tauto.
    + assert (forall name m, bt_get name acc.2 = Some m <-> entry_of w (dir_of cs) name m) as Hget by (intros; by eapply found_all).
      destruct probe.
      * setoid_rewrite <- Hget. destruct acc as [found [|[name m] es]]; simpl; [naive_solver|].
        split; [|done]. intros _. exists name, m. by rewrite decide_True.
      * split; [rewrite listing_names; exact Hwf|]. intros e. by rewrite listing_elem, Hget.
  - destruct Hend as [?|[-> Hne]]; [done|].
    assert (exists name m, bt_get name acc.2 = Some m) as (name & m & Hg).
    { destruct acc as [found [|[name m] es]]; [done|]. exists name, m. simpl. by rewrite decide_True. }
    pose proof (found_some _ _ _ _ _ _ _ _ HJ Hall Hf Hg) as [Hshown [m' Hm']]. split; [|split; [eauto|]].
    + split; [by right|]. intros _. cbn [listing_of dl_exists]. apply (fi_exists _ _ _ _ _ Hf). right.
      apply (fi_entry _ _ _ _ _ Hf) in Hg as [Hv [[H _]|[_ (n & H & _)]]]; [right|left]; (eexists; split; [exact H|]).
      * by exists name.
      * exists name. split; [done|]. left. by intros ->.
    + intros _. destruct acc as [found [|[x y] es]]; done.
Qed.

(** ** Classification *)

(** A directory wins over an object of its name. *)
Definition kind_right (w : W) (cs : list str) (k : option Kind) : Prop :=
  match k with
  | Some (KindDirectory nonempty) =>
      (cs = [] \/ dir_shown w (dir_of cs)) /\ (cs <> [] -> nonempty = true <-> exists name m, entry_of w (dir_of cs) name m)
  | Some (KindFile f) =>
      cs <> [] /\ ~ dir_shown w (dir_of cs) /\ exists d, obj w (key v cs) = Some (d, rf_etag f) /\ rf_len f = len d
  | None => cs <> [] /\ ~ dir_shown w (dir_of cs) /\ obj w (key v cs) = None
  end.

Lemma same_dir w w' prefix : same w w' -> dir_shown w' prefix <-> dir_shown w prefix.
Proof. intros [Ho _]. unfold objs_same in Ho. unfold dir_shown. by setoid_rewrite Ho. Qed.

Lemma same_entry w w' prefix name m : same w w' -> entry_of w' prefix name m <-> entry_of w prefix name m.
Proof. intros [Ho _]. unfold objs_same in Ho. unfold entry_of, child_dir, child_file. by setoid_rewrite Ho. Qed.

Lemma same_kind w w' cs k : same w w' -> kind_right w' cs k -> kind_right w cs k.
Proof.
  intros Hs. unfold kind_right. destruct k as [[ne|f]|].
  - rewrite (same_dir _ _ _ Hs). by setoid_rewrite (same_entry _ _ _ _ _ Hs).
  - rewrite (same_dir _ _ _ Hs). destruct Hs as [Ho _]. unfold objs_same in Ho. by setoid_rewrite Ho.
  - rewrite (same_dir _ _ _ Hs). destruct Hs as [Ho _]. unfold objs_same in Ho. by setoid_rewrite Ho.
Qed.

Lemma wp_attempt_head cs w (Q : outcome RemoteError RemoteFile -> W -> Prop) (R : Errno -> W -> Prop) :
  J w ->
  (forall w', J w' -> same w w' ->
     (forall f d, obj w (key v cs) = Some (d, rf_etag f) -> rf_len f = len d -> Q (Ok f) w')
     /\ (forall e, (e = Missing -> obj w (key v cs) = None) -> Q (Err e) w')) ->
  wp (attempt (o_head ops (mkHeadRequest (s3_bucket v) (key v cs)))) w Q R.
Proof.
  intros HJ HQ. assert (wp (o_head ops (mkHeadRequest (s3_bucket v) (key v cs))) w (fun f => Q (Ok f)) (fun e => Q (Err e))) as H.
  { eapply wp_mono; [by apply (law_head obj pend rest)|..].
    - intros f w' (HJ' & Hs & d & Ho & Hlen). by eapply (HQ w' HJ' Hs).
    - intros e w' (HJ' & Hs & He). by apply (HQ w' HJ' Hs). }
  unfold wp, attempt in *. by destruct (o_head _ _ w) as [[] ?].
Qed.

Lemma kind_at_finds cs w :
  J w ->
  wp (kind_at v pages cs) w (fun k w' => (J w' /\ same w w') /\ kind_right w cs k) (fun _ w' => J w' /\ same w w').
Proof.
  intros HJ. unfold kind_at. wp_step; [wp_step; split; [done|]; split; [by left|done]|]. wp_step.
  eapply wp_mono; [by apply scan_finds| |done]. intros l w1 [[HJ1 Hs1] [Hex Hne]]. wp_step.
  - wp_step. split; [done|]. split; [by apply Hex|]. intros _. rewrite negb_true_iff, bool_decide_eq_false. exact Hne.
  - wp_step. assert (~ dir_shown w (dir_of cs)) as Hno by (intros Hd; assert (false = true) by (apply Hex; by right); done).
    apply wp_attempt_head; [done|]. intros w2 HJ2 Hs2. assert (same w w2) as Hs by by etrans. destruct Hs1 as [Ho1 _]. split.
    + intros f d Ho Hlen. wp_step. split; [done|]. split; [done|]. split; [done|]. exists d. by rewrite <- Ho1.
    + intros e He. destruct e; try (wp_step; done). wp_step. split; [done|]. split; [done|]. split; [done|].
      rewrite <- Ho1. by apply He.
Qed.

(** Every proper ancestor is a directory. *)
Definition parents_shown (w : W) (cs : list str) : Prop :=
  forall n, (0 < n < length cs)%nat -> dir_shown w (dir_of (take n cs)).

Lemma validate_parents_finds cs w :
  J w ->
  wp (validate_parents v pages cs) w (fun _ w' => (J w' /\ same w w') /\ parents_shown w cs) (fun _ w' => J w' /\ same w w').
Proof.
  intros HJ. unfold validate_parents.
  assert (forall ns w, J w -> Forall (fun n => (0 < n < length cs)%nat) ns ->
    wp (validate_prefixes v pages cs ns) w (fun _ w' => (J w' /\ same w w') /\ Forall (fun n => dir_shown w (dir_of (take n cs))) ns)
       (fun _ w' => J w' /\ same w w')) as H.
  { clear w HJ. intros ns w HJ Hns. revert w HJ. induction Hns as [|n ns Hn _ IH]; intros w HJ; [by split; [split|constructor]|]. cbn [validate_prefixes].
    wp_step. eapply wp_mono; [by apply kind_at_finds| |done]. intros k w1 [[HJ1 Hs1] Hk].
    destruct k as [[ne|f]|]; [|by wp_step..]. eapply wp_mono; [by apply IH|..].
    - intros [] w2 [[HJ2 Hs2] Hall]. split; [split; [done|by etrans]|]. constructor.
      + destruct Hk as [[Hnil|Hd] _]; [|done]. apply (f_equal length) in Hnil. rewrite length_take in Hnil. simpl in Hnil. lia.
      + eapply Forall_impl; [exact Hall|]. intros x Hx. by apply (same_dir w w1).
    - intros e w2 [HJ2 Hs2]. split; [done|by etrans]. }
  eapply wp_mono; [apply (H _ w HJ)| |done].
  - apply Forall_forall. intros n Hn%elem_of_seq. lia.
  - intros [] w' [Hw' Hall]. split; [done|]. intros n Hn. rewrite Forall_forall in Hall. apply Hall, elem_of_seq. lia.
Qed.

(** The two questions every method on a path begins with. *)
Lemma wp_at_kind {A} cs (k : option Kind -> ST W Errno A) w (Q : A -> W -> Prop) (R : Errno -> W -> Prop) :
  J w -> (forall e w', J w' -> same w w' -> R e w') ->
  (forall kind w', J w' -> same w w' -> parents_shown w cs -> kind_right w cs kind -> wp (k kind) w' Q R) ->
  wp (let! _ := validate_parents v pages cs in let! kind := kind_at v pages cs in k kind) w Q R.
Proof.
  intros HJ HR Hk. wp_step. eapply wp_mono; [by apply validate_parents_finds| |by intros e w' [? ?]; apply HR].
  intros [] w1 [[HJ1 Hs1] Hpar]. wp_step.
  eapply wp_mono; [by apply kind_at_finds| |intros e w' [? ?]; apply HR; [done|by etrans]].
  intros kind w2 [[HJ2 Hs2] Hkind]. apply Hk; [done|by etrans|done|by eapply same_kind].
Qed.

Lemma wp_path path {A} (k : list str -> ST W Errno A) w (Q : A -> W -> Prop) (R : Errno -> W -> Prop) :
  (forall e, normalize_path path = Err e -> R e w) -> (forall cs, normalize_path path = Ok cs -> wp (k cs) w Q R) ->
  wp (let! cs := slift (normalize_path path) in k cs) w Q R.
Proof.
  intros HR Hk. wp_step. pose proof (normalize_path_post path) as Hp.
  apply wp_lift; [by destruct (normalize_path path)|done|done].
Qed.
End scan.

(** ** The methods of the S3 filesystem on paths *)

#[local] Open Scope Z_scope.

Section methods.
Context {W : Type} (v : S3Vfs W) (pages : W -> nat).
Context (obj : W -> str -> option (bytes * str)) (pend : W -> str -> option (str * gmap Z bytes)).
Context (rest : W -> str -> str -> option str -> list Entry) (J : W -> Prop).
Context `{Hl : !S3Laws obj pend rest J (s3_ops v)} (Hpages : pages_enough rest J pages).

Abbreviation ops := (s3_ops v).
Abbreviation same := (store_same obj pend).
Abbreviation pend_same := (pend_same pend).
Abbreviation dir_of cs := (directory_prefix v cs).
Abbreviation dir_shown := (dir_shown obj).
Abbreviation entry_of := (entry_of obj).
Abbreviation landed := (landed obj).
Abbreviation removed := (removed obj).

(** The uploads are left alone. *)
Definition calm (w w' : W) : Prop := J w' /\ pend_same w w'.
Abbreviation keeps m w := (wp m w (fun _ w' => calm w w') (fun _ w' => calm w w')).

Lemma calm_refl w : J w -> calm w w.
Proof. by split; [|intros id]. Qed.

Lemma at_rest w : J w -> J w /\ same w w.
Proof. by intros HJ; split; [|reflexivity]. Qed.

Lemma calm_trans w1 w2 w3 : calm w1 w2 -> calm w2 w3 -> calm w1 w3.
Proof. intros [_ P1] [J2 P2]. split; [done|]. intros id. by rewrite P2, P1. Qed.

Lemma same_calm w w' : J w' -> same w w' -> calm w w'.
Proof. by intros ? [_ ?]. Qed.

Lemma keeps_calm {A} (m : ST W Errno A) w w1 :
  calm w w1 -> keeps m w1 -> wp m w1 (fun _ w' => calm w w') (fun _ w' => calm w w').
Proof. intros H Hm. eapply wp_mono; [exact Hm|..]; intros ? w2 H2; exact (calm_trans w w1 w2 H H2). Qed.

Lemma keeps_then {A B} (m : ST W Errno A) (k : A -> ST W Errno B) w :
  keeps m w -> (forall a w', calm w w' -> keeps (k a) w') -> keeps (sbind m k) w.
Proof.
  intros Hm Hk. wp_step. eapply wp_mono; [exact Hm| |done]. intros a w1 H1.
  apply (keeps_calm _ w w1 H1). by apply Hk.
Qed.

(** ** Questions *)

Lemma s3_stat_right path w :
  J w ->
  wp (s3_stat v pages path) w
    (fun m w' => (J w' /\ same w w') /\ exists cs, normalize_path path = Ok cs /\ parents_shown v obj w cs
       /\ if is_dir m then m = dir_metadata /\ (cs = [] \/ dir_shown w (dir_of cs))
          else cs <> [] /\ ~ dir_shown w (dir_of cs) /\ exists d e, obj w (key v cs) = Some (d, e) /\ m = mkMetadata RegularFile (len d))
    (fun _ w' => J w' /\ same w w').
Proof.
  intros HJ. unfold s3_stat. apply wp_path; [by intros; apply at_rest|]. intros cs Hcs.
  apply (wp_at_kind v pages obj pend rest J Hpages); [done|done|]. intros kind w1 HJ1 Hs1 Hpar Hkind.
  destruct kind as [[ne|f]|]; wp_step; [..|done]; (split; [done|]); exists cs; (split; [done|]); (split; [done|]); simpl.
  - split; [done|apply Hkind].
  - destruct Hkind as (Hne & Hno & d & Ho & Hlen). split; [done|]. split; [done|]. exists d, (rf_etag f). by rewrite Hlen.
Qed.

Lemma s3_readdir_right path w :
  J w ->
  wp (s3_readdir v pages path) w
    (fun es w' => (J w' /\ same w w') /\ exists cs, normalize_path path = Ok cs /\ parents_shown v obj w cs
       /\ listing_right v obj w cs false (mkDirectoryListing true es))
    (fun _ w' => J w' /\ same w w').
Proof.
  intros HJ. unfold s3_readdir. apply wp_path; [by intros; apply at_rest|]. intros cs Hcs. wp_step.
  eapply wp_mono; [by apply (validate_parents_finds v pages obj pend rest J Hpages)| |done]. intros [] w1 [[HJ1 Hs1] Hpar]. wp_step.
  eapply wp_mono; [by apply (scan_finds v pages obj pend rest J Hpages)| |intros e w' [? ?]; split; [done|by etrans]].
  intros l w2 [[HJ2 Hs2] Hlist]. assert (same w w2) as Hs by by etrans. destruct (dl_exists l) eqn:He.
  - wp_step. split; [done|]. exists cs. split; [done|]. split; [done|]. destruct Hlist as [H1 [H2 H3]]. rewrite He in H1.
    split; [|split; [done|]].
    + cbn [dl_exists]. by rewrite (same_dir obj pend w w1 (dir_of cs) Hs1) in H1.
    + intros e. by rewrite <- (same_entry obj pend w w1 _ _ _ Hs1).
  - wp_step. apply (wp_attempt_head v obj pend rest J); [done|]. intros w3 HJ3 Hs3.
    assert (same w w3) by by etrans. split; [intros; by wp_step|]. intros e _. by destruct e; wp_step.
Qed.

(** ** Changes *)

Lemma keeps_writable {A} (k : unit -> ST W Errno A) w :
  J w -> keeps (k tt) w -> keeps (let! u := slift (require_writable v) in k u) w.
Proof.
  intros HJ Hk. wp_step. unfold require_writable. apply wp_lift; [by case_match| |]; [by intros [] _|]. intros e _. by apply calm_refl.
Qed.

Lemma keeps_at_kind {A} cs (k : option Kind -> ST W Errno A) w :
  J w -> (forall kind w', calm w w' -> keeps (k kind) w') ->
  keeps (let! _ := validate_parents v pages cs in let! kind := kind_at v pages cs in k kind) w.
Proof.
  intros HJ Hk. apply (wp_at_kind v pages obj pend rest J Hpages); [done|by intros; apply same_calm|].
  intros kind w' HJ' Hs _ _. pose proof (same_calm w w' HJ' Hs) as Hc. apply (keeps_calm _ w w' Hc). by apply Hk.
Qed.

Lemma keeps_put k d p w : J w -> keeps (put_object v k d p) w.
Proof.
  intros HJ. eapply wp_mono; [by apply (put_object_lands v obj pend rest J)|by intros ? ? [? _]|by intros ? ? [? _]].
Qed.

Lemma keeps_delete k p w : J w -> keeps (request (o_delete ops (mkDeleteRequest (s3_bucket v) k p))) w.
Proof.
  intros HJ. apply wp_request. eapply wp_mono; [by apply (law_delete obj pend rest)|by intros ? ? (? & ? & _)|by intros ? ? (? & ? & _)].
Qed.

Lemma keeps_copy a b p w : J w -> keeps (request (o_copy ops (mkCopyRequest (s3_bucket v) a b p))) w.
Proof.
  intros HJ. apply wp_request. eapply wp_mono; [by apply (law_copy obj pend rest)|by intros ? ? (? & ? & _)|by intros ? ? (? & ? & _)].
Qed.

(** Some key is below the prefix. *)
Definition key_below (w : W) (prefix : str) : Prop := exists below d e, obj w (prefix ++ below) = Some (d, e).

Lemma preserve_directory_keeps cs w :
  J w ->
  wp (preserve_directory v cs) w
    (fun _ w' => calm w w' /\ (cs = [] \/ key_below w' (dir_of cs)) /\ (same w w' \/ landed (dir_of cs) [] w w'))
    (fun _ w' => calm w w').
Proof.
  intros HJ. unfold preserve_directory. wp_step; [wp_step; split; [by apply calm_refl|]; split; [by left|left; reflexivity]|].
  cbv zeta. wp_step. apply wp_request.
  eapply wp_mono; [by apply (law_list obj pend rest (mkListRequest (s3_bucket v) (dir_of cs) (lit "/") None (Some 1)))
                  | |intros e w' [? ?]; by apply same_calm].
  intros page w1 (HJ1 & Hs1 & shown & left & Hrest & Ho & Hp & _). cbn [lq_prefix lq_delimiter lq_continuation] in *. wp_step.
  - wp_step. split; [by apply same_calm|]. split; [right|by left].
    assert (shown <> []) as Hne by (intros ->; cbn in Ho, Hp; by rewrite Ho, Hp in Heqb0).
    destruct shown as [|e shown]; [done|]. assert (e ∈ rest w (dir_of cs) (lit "/") None) as Hin by (rewrite Hrest; left).
    destruct Hs1 as [Hobj _]. apply (law_listed obj pend rest w _ _ _ HJ) in Hin; [|by right]. destruct e as [k n|p]; simpl in Hin.
    + destruct Hin as (name & d & e & -> & Hk & _). exists name, d, e. by rewrite Hobj.
    + destruct Hin as (_ & name & below & d & e & -> & Hk & _). rewrite <- app_assoc in Hk. eexists _, d, e. by rewrite Hobj.
  - eapply wp_mono; [by apply (put_object_lands v obj pend rest J)|..].
    + intros [] w2 ([HJ2 Hp2] & _ & Hland). split; [split; [done|]; destruct Hs1 as [_ Hp1]; intros id; by rewrite Hp2, Hp1|].
      split; [right|right; destruct Hs1; by eapply landed_same_l].
      destruct Hland as [(e & He & _) _]. exists [], [], e. by rewrite app_nil_r.
    + intros e w2 ([HJ2 Hp2] & _). split; [done|]. destruct Hs1 as [_ Hp1]. intros id. by rewrite Hp2, Hp1.
Qed.

Lemma keeps_preserve cs w : J w -> keeps (preserve_directory v cs) w.
Proof. intros HJ. eapply wp_mono; [by apply preserve_directory_keeps|by intros ? ? [? _]|done]. Qed.

Lemma keeps_copy_keys from to keys w : J w -> keeps (copy_keys v from to keys) w.
Proof.
  revert w. induction keys as [|k keys IH]; intros w HJ; [by apply calm_refl|]. cbn [copy_keys]. apply keeps_then.
  - case_match; [by apply keeps_copy|by apply calm_refl].
  - intros _ w' [HJ' _]. by apply IH.
Qed.

Lemma keeps_delete_keys keys w : J w -> keeps (delete_keys v keys) w.
Proof.
  revert w. induction keys as [|k keys IH]; intros w HJ; [by apply calm_refl|]. cbn [delete_keys]. apply keeps_then; [by apply keeps_delete|].
  intros _ w' [HJ' _]. by apply IH.
Qed.

Lemma keeps_list_recursive_loop n prefix c seen keys w :
  J w -> (length (rest w prefix [] c) < n)%nat -> keeps (list_recursive_loop v n prefix c seen keys) w.
Proof.
  revert c seen keys w. induction n as [|n IH]; intros c seen keys w HJ Hn; [lia|]. cbn [list_recursive_loop]. wp_step. apply wp_request.
  eapply wp_mono; [by apply (law_list obj pend rest (mkListRequest (s3_bucket v) prefix [] c None))| |intros e w' [? ?]; by apply same_calm].
  intros page w1 (HJ1 & Hs1 & shown & left & Hrest & _ & _ & Hnext). cbn [lq_prefix lq_delimiter lq_continuation] in *. cbv zeta.
  pose proof (same_calm w w1 HJ1 Hs1) as Hc1. wp_step. unfold next_page. destruct (lr_truncated page); simpl negb; cbv iota.
  2: { apply (wp_ok _ None); [done|]. by wp_step. }
  destruct Hnext as [Hshown Hnext]. destruct (lr_next_continuation page) as [t|]; [|done].
  case_bool_decide as Hte; [done|]. case_bool_decide as Hseen; [done|]. apply (wp_ok _ (Some t)); [done|]. cbv iota beta.
  apply (keeps_calm _ w w1 Hc1), IH; [done|].
  rewrite (law_rest_same obj pend rest w w1 _ _ _ HJ HJ1 Hs1), (Hnext t eq_refl Hte). rewrite Hrest, length_app in Hn. destruct shown; [done|].
  simpl in Hn. lia.
Qed.

Lemma keeps_rename_directory from to w : J w -> keeps (rename_directory v pages from to) w.
Proof.
  intros HJ. unfold rename_directory. cbv zeta. apply keeps_then.
  { unfold list_recursive. wp_step. wp_step. apply keeps_list_recursive_loop; [done|apply Hpages, HJ]. }
  intros keys w1 [HJ1 _]. wp_step.
  assert (returns (check_depths (dir_of from) (length to) keys)) as Hr.
  { induction keys as [|k keys IH]; simpl; [done|]. destruct (strip_prefix k _); simpl; [|done]. by case_match. }
  apply wp_lift; [done| |intros e _; by apply calm_refl]. intros [] _. apply keeps_then; [by apply keeps_copy_keys|].
  intros _ w2 [HJ2 _]. by apply keeps_delete_keys.
Qed.

Lemma keeps_mkdir path w : J w -> keeps (s3_mkdir v pages path) w.
Proof.
  intros HJ. unfold s3_mkdir. apply wp_path; [intros; by apply calm_refl|]. intros cs _. apply keeps_writable; [done|].
  wp_step; [by wp_step|]. apply keeps_at_kind; [done|]. intros kind w1 [HJ1 _]. case_match; [by wp_step|by apply keeps_put].
Qed.

Lemma keeps_rename a b w : J w -> keeps (s3_rename v pages a b) w.
Proof.
  intros HJ. unfold s3_rename. apply wp_path; [intros; by apply calm_refl|]. intros from _. apply wp_path; [intros; by apply calm_refl|].
  intros to _. apply keeps_writable; [done|]. wp_step; [by wp_step|]. apply keeps_at_kind; [done|]. intros source w1 [HJ1 _].
  wp_step. apply wp_ok_or; [|by intros; apply calm_refl]. intros source' _. wp_step; [by wp_step|]. wp_step; [by wp_step|].
  apply keeps_at_kind; [done|]. intros target w2 [HJ2 _]. wp_step. apply wp_lift; [by unfold rename_conflict; repeat case_match| |].
  2: { intros e _. by apply calm_refl. }
  intros [] _. apply keeps_then; [|intros _ w3 [HJ3 _]; by apply keeps_preserve]. destruct source' as [ne|f].
  - wp_step; [by wp_step|by apply keeps_rename_directory].
  - unfold rename_file. cbv zeta. apply keeps_then; [by apply keeps_copy|]. intros _ w3 [HJ3 _]. by apply keeps_delete.
Qed.

Lemma keeps_rmdir path w : J w -> keeps (s3_rmdir v pages path) w.
Proof.
  intros HJ. unfold s3_rmdir. apply wp_path; [intros; by apply calm_refl|]. intros cs _. apply keeps_writable; [done|].
  wp_step; [by wp_step|]. apply keeps_at_kind; [done|]. intros kind w1 [HJ1 _].
  destruct kind as [[[]|f]|]; try by wp_step. wp_step.
  assert (wp (o_delete ops (mkDeleteRequest (s3_bucket v) (dir_of cs) PreNone)) w1 (fun _ w' => calm w1 w') (fun _ w' => calm w1 w')) as Hd.
  { eapply wp_mono; [by apply (law_delete obj pend rest)|by intros ? ? (? & ? & _)|by intros ? ? (? & ? & _)]. }
  apply wp_attempted. eapply wp_mono; [exact Hd|..].
  - intros [] w2 Hc. apply (keeps_calm _ w1 w2 Hc), keeps_preserve, Hc.
  - intros e w2 Hc. destruct e; try by wp_step. apply (keeps_calm _ w1 w2 Hc), keeps_preserve, Hc.
Qed.

(** What [unlink] removes was the object of the path; the parent stays. *)
Lemma s3_unlink_removes path w :
  J w ->
  wp (s3_unlink v pages path) w
    (fun _ w' => calm w w' /\ exists cs w1, normalize_path path = Ok cs /\ cs <> [] /\ ~ dir_shown w (dir_of cs)
       /\ is_Some (obj w (key v cs)) /\ removed (key v cs) w w1
       /\ (same w1 w' \/ landed (dir_of (removelast cs)) [] w1 w') /\ (removelast cs = [] \/ key_below w' (dir_of (removelast cs))))
    (fun _ w' => calm w w').
Proof.
  intros HJ. unfold s3_unlink. apply wp_path; [intros; by apply calm_refl|]. intros cs Hcs. wp_step.
  apply wp_lift; [unfold require_writable; by case_match| |intros e _; by apply calm_refl]. intros [] _.
  wp_step; [by wp_step|]. apply (wp_at_kind v pages obj pend rest J Hpages); [done|by intros; apply same_calm|].
  intros kind w1 HJ1 Hs1 _ Hkind. pose proof (same_calm w w1 HJ1 Hs1) as Hc1. destruct kind as [[ne|f]|]; [by wp_step| |by wp_step].
  destruct Hkind as (Hne & Hno & d & Ho & _). wp_step. apply wp_request.
  eapply wp_mono; [by apply (law_delete obj pend rest)| |intros e w' (? & ? & _); eapply calm_trans; [done|by split]].
  intros [] w2 (HJ2 & Hp2 & _ & Hrm). cbn [dq_key] in Hrm. assert (calm w w2) as Hc2 by (eapply calm_trans; [done|by split]).
  eapply wp_mono; [by apply preserve_directory_keeps|..].
  - intros [] w3 (Hc3 & Hbelow & Hadd). split; [by eapply calm_trans|]. exists cs, w2. split; [done|]. split; [done|]. split; [done|].
    split; [by rewrite Ho|]. split; [|done]. destruct Hrm as [Hr Hrest], Hs1 as [Hobj _]. split; [done|]. intros k Hk. by rewrite Hrest, Hobj.
  - intros e w3 Hc3. by eapply calm_trans.
Qed.

Lemma open_target_keeps path mode w :
  J w ->
  wp (open_target v pages path mode) w
    (fun r w' => (J w' /\ same w w') /\ exists cs existing, normalize_path path = Ok cs /\ r.1 = key v cs
       /\ kind_right v obj w cs (KindFile <$> existing) /\ staging_for mode existing = Ok r.2)
    (fun _ w' => J w' /\ same w w').
Proof.
  intros HJ. unfold open_target. wp_step. apply wp_lift; [unfold validate; by repeat case_match| |done]. intros [] _.
  apply wp_path; [done|]. intros cs Hcs. wp_step. apply wp_lift; [unfold require_writable; by repeat case_match| |done]. intros [] _.
  wp_step; [by wp_step|]. apply (wp_at_kind v pages obj pend rest J Hpages); [done|done|]. intros kind w1 HJ1 Hs1 _ Hkind.
  assert (forall existing, kind = KindFile <$> existing -> returns (staging_for mode existing)) as Hret
    by (intros; unfold staging_for; by repeat case_match).
  destruct kind as [[ne|f]|]; [by wp_step| |].
  - wp_step. wp_step. wp_step. apply wp_lift; [by apply (Hret (Some f))| |done]. intros st Hst. wp_step. split; [done|].
    by exists cs, (Some f).
  - wp_step. wp_step. wp_step. apply wp_lift; [by apply (Hret None)| |done]. intros st Hst. wp_step. split; [done|].
    by exists cs, None.
Qed.
End methods.
