(* ===== verification/S3Handles.v ===== *)
(** * The methods of the S3 filesystem on handles (src/src/vfs/s3.rs)

    An open handle is a draft of a file: [draft] is the contents it shows, the
    revision it was opened on or what it has staged.  Writing and truncating
    change the draft and no object; closing lands it as one object.  Of the uploads
    of the store, a handle changes its own only.  Without a limit on edited bodies, a
    change can panic that makes one longer than a vector can be ([overlong_edit]); it
    leaves the draft as it was. *)

From Stdlib Require Import Ascii String.
From S2P Require Import Prelude RustStr VfsTypes VfsIface MemVfs MemVfsFiles FileLaws SandboxFs S3Types S3Vfs S3Laws S3Stage.
From S2P Require Import S3Listing.

#[local] Open Scope Z_scope.

(** The upload a handle has begun. *)
Definition cell_upload (h : HandleState) : option str :=
  match hs_staging h with Streamed x => up_id <$> sm_upload x | _ => None end.

(** Whether closing the handle puts anything. *)
Definition dirty (h : HandleState) : bool :=
  match hs_staging h with Buffered b => bf_dirty b | Streamed _ => true | Remote _ | Failed _ => false end.

Definition failed (h : HandleState) : bool := match hs_staging h with Failed _ => true | _ => false end.

(** The precondition of the object that closing puts. *)
Definition lands_under (h : HandleState) : Precondition :=
  match hs_staging h with
  | Buffered b => bf_precondition b
  | Streamed x => sm_precondition x
  | Remote _ | Failed _ => PreNone
  end.

Section handles.
Context {W : Type} (v : S3Vfs W).
Context (obj : W -> str -> option (bytes * str)) (pend : W -> str -> option (str * gmap Z bytes)).
Context (rest : W -> str -> str -> option str -> list Entry) (J : W -> Prop).
Context `{Hl : !S3Laws obj pend rest J (s3_ops v)}.
Context (Hpart : 0 < s3_part_size v <= USIZE_MAX) (Hedit : 0 <= cfg_max_edit_bytes (s3_config v)).

Abbreviation ops := (s3_ops v).
Abbreviation objs_same := (objs_same obj).
Abbreviation pend_same := (pend_same pend).
Abbreviation same := (store_same obj pend).
Abbreviation published := (published v obj).
Abbreviation reliable := (ReliableAborts pend J ops).
Abbreviation holds := (stream_holds v pend).

(** A revision of the object, of the length it was found with. *)
Definition revision (w : W) (k : str) (f : RemoteFile) (d : bytes) : Prop :=
  obj w k = Some (d, rf_etag f) /\ rf_len f = len d.

Definition buffer_draft (w : W) (k : str) (b : Buffer) (d : bytes) : Prop :=
  match bf_bytes b with
  | Some x => d = x
  | None => match bf_source b with Some f => revision w k f d | None => d = [] end
  end.

Definition draft (w : W) (h : HandleState) (d : bytes) : Prop :=
  match hs_staging h with
  | Remote f => revision w (hs_key h) f d
  | Buffered b => buffer_draft w (hs_key h) b d
  | Streamed x => holds w (hs_key h) x d
  | Failed _ => False
  end.

(** Staged bytes are within the edit limit. *)
Definition edit_ok (n : Z) : Prop := cfg_max_edit_bytes (s3_config v) = 0 \/ n <= cfg_max_edit_bytes (s3_config v).

Definition buffer_right (b : Buffer) : Prop :=
  match bf_bytes b with Some d => edit_ok (len d) | None => bf_dirty b = false end.

Definition cell_right (w : W) (h : HandleState) : Prop :=
  match hs_staging h with
  | Remote _ | Failed _ => True
  | Buffered b => buffer_right b
  | Streamed x => idle v x /\ exists d, holds w (hs_key h) x d
  end.

(** The upload [u] of a handle became [u']; the others are as they were, but for strays. *)
Record uploads_step (u u' : option str) (w w' : W) : Prop := {
  us_frame id : pend w' id = pend w id \/ u = Some id \/ pend w id = None;
  us_own id : u' = Some id -> u = Some id \/ pend w id = None;
  us_given : reliable -> forall id, is_Some (pend w' id) ->
               u' = Some id \/ is_Some (pend w id) /\ u <> Some id \/ stray pend J ops (pend w' id)
}.

Lemma uploads_same u w w' : pend_same w w' -> uploads_step u u w w'.
Proof.
  intros H. constructor; intros; [by left|by left|]. destruct (decide (u = Some id)); [by left|right; left].
  by rewrite <- H.
Qed.

Lemma uploads_trans u1 u2 u3 w1 w2 w3 : uploads_step u1 u2 w1 w2 -> uploads_step u2 u3 w2 w3 -> uploads_step u1 u3 w1 w3.
Proof.
  intros [F1 O1 G1] [F2 O2 G2]. constructor; intros.
  - destruct (F2 id) as [E|[E|E]]; destruct (F1 id) as [E'|[E'|E']]; first [destruct (O1 id E); tauto|intuition congruence].
  - destruct (O2 id H) as [E|E]; [by apply O1|]. destruct (F1 id) as [E'|[E'|E']]; [|by left|by right].
    right. by rewrite <- E'.
  - destruct (G2 H id H0) as [E|[[E N]|E]]; [by left| |by right; right]. right.
    destruct (G1 H id E) as [E'|[[E' N']|E']]; [done|by left|right].
    destruct (F2 id) as [->|[E2|E2]]; [done|done|]. by rewrite E2 in E; destruct E.
Qed.

(** Beginning an upload, or adding to it. *)
Lemma uploads_moved k x x' w w' :
  moved v obj pend J k x x' w w' -> uploads_step (up_id <$> sm_upload x) (up_id <$> sm_upload x') w w'.
Proof.
  assert (forall id u', kept_or_stray pend J ops w w' id -> is_Some (pend w' id) ->
    u' = Some id \/ is_Some (pend w id) /\ None <> Some id \/ stray pend J ops (pend w' id)) as Hstray.
  { intros id u' [E|[_ E]] Hid; [right; left; by rewrite <- E|by right; right]. }
  intros [_ _ H]. destruct (sm_upload x) as [u|], (sm_upload x') as [u'|]; simpl; try done.
  - destruct H as [-> [m [H1 H2]]]. constructor; intros; try by left.
    + destruct (decide (id = up_id u)) as [->|]; [right; by left|left; auto].
    + destruct (decide (id = up_id u)) as [->|]; [by left|right; left]. split; [by rewrite <- H2|congruence].
  - destruct H as (Hn & _ & H2). constructor.
    + intros id. destruct (decide (id = up_id u')) as [->|Hne]; [by do 2 right|]. destruct (H2 id Hne) as [E|[E _]]; [by left|by do 2 right].
    + intros id [= <-]. by right.
    + intros _ id Hid. destruct (decide (id = up_id u')) as [->|Hne]; [by left|]. by apply Hstray; [apply H2|].
  - constructor; [|done|].
    + intros id. destruct (H id) as [E|[E _]]; [by left|by do 2 right].
    + intros _ id Hid. by apply Hstray.
Qed.

(** The upload is gone. *)
Lemma uploads_gone id w w' : pend_set pend id None w w' -> uploads_step (Some id) None w w'.
Proof.
  intros [H1 H2]. constructor; [|done|].
  - intros id'. destruct (decide (id' = id)) as [->|]; [right; by left|left; auto].
  - intros _ id' Hid. right; left. destruct (decide (id' = id)) as [->|]; [rewrite H1 in Hid; by destruct Hid|]. rewrite <- H2 by done.
    split; [done|congruence].
Qed.

(** Aborting an upload. *)
Lemma abort_gone q w :
  J w ->
  wp (o_abort_upload ops q) w
    (fun _ w' => J w' /\ objs_same w w' /\ uploads_step (Some (aq_upload_id q)) None w w')
    (fun _ w' => J w' /\ objs_same w w' /\ uploads_step (Some (aq_upload_id q)) None w w').
Proof.
  intros HJ. pose proof (law_abort_upload obj pend rest q w HJ) as H. unfold wp in *.
  pose proof (fun R : reliable => R q w HJ) as Hrel.
  destruct (o_abort_upload ops q w) as [[a|e| |] w'] eqn:Ho; simpl in Hrel; [..|done|done].
  - destruct H as (HJ' & Hobj & Hp). split; [done|]. split; [done|]. by apply uploads_gone.
  - destruct H as (HJ' & [Hobj Hp] & Hm). split; [done|]. split; [done|]. constructor; [by left|done|].
    intros R id Hid. right; left. rewrite Hp in Hid. split; [done|]. intros [= <-]. by specialize (Hrel R Hid).
Qed.

Lemma check_edit_len_ok n : check_edit_len v n = Ok tt -> edit_ok n.
Proof. unfold check_edit_len, edit_ok. destruct (negb _ && _) eqn:H; [done|]. intros _. unbool; lia. Qed.

Lemma check_edit_len_returns n : returns (check_edit_len v n).
Proof. unfold check_edit_len. by case_match. Qed.
(** ** Downloads *)

Lemma answers_len r n f cr : answers r n f cr = true -> len (gr_body r) = n.
Proof. unfold answers. intros H. unbool. lia. Qed.

Lemma get_whole_gets k f w :
  J w ->
  wp (get_whole v k f) w
    (fun d w' => (J w' /\ same w w') /\ len d = rf_len f /\ forall d', revision w k f d' -> d = d')
    (fun _ w' => J w' /\ same w w').
Proof.
  intros HJ. unfold get_whole. wp_step.
  { wp_step. split; [by split; [|reflexivity]|]. split; [by rewrite Heqb|]. intros d' [_ Hd]. symmetry. apply nil_length_inv.
    unfold len in Hd. lia. }
  cbv zeta. wp_step. apply wp_request. eapply wp_mono; [by apply (law_get obj pend rest)| |done].
  intros r w1 (HJ1 & Hs1 & d & Hd & Hbody). cbn [gq_key gq_if_match gq_range] in *. wp_step.
  apply wp_lift; [unfold usize_try_from; by case_match| |done]. intros n Hn.
  assert (n = rf_len f /\ 0 <= n <= USIZE_MAX) as [-> Hmax] by (unfold usize_try_from in Hn; case_match; simplify_eq; unbool; lia).
  wp_step; [|by wp_step]. wp_step. split; [done|]. match goal with H : answers _ _ _ _ = true |- _ => pose proof (answers_len _ _ _ _ H) as Hlen end.
  split; [done|]. intros d' [Hd' Hlen']. assert (d = d') as -> by congruence.
  specialize (Hbody 0 (rf_len f - 1) eq_refl). rewrite Hbody by lia. rewrite take_ge; [done|]. rewrite length_drop. unfold len in Hlen'. lia.
Qed.

Lemma read_nothing d offset buf : 0 <= offset -> buf = [] \/ len d <= offset -> read_result d offset buf = (0, buf).
Proof.
  intros H [->|Hd]; unfold read_result; simpl; [done|]. unfold len in *. rewrite drop_ge, take_nil by lia. done.
Qed.

Lemma read_remote_reads k f offset buf w :
  J w ->
  wp (read_remote v k f offset buf) w
    (fun r w' => (J w' /\ same w w') /\ read_reply buf r
       /\ forall d, revision w k f d -> 0 <= offset -> r = read_result d offset buf)
    (fun _ w' => J w' /\ same w w').
Proof.
  intros HJ. unfold read_remote. wp_step.
  { wp_step. split; [by split; [|reflexivity]|]. split; [by split|]. intros d [_ Hd] Ho. symmetry. apply read_nothing; [done|].
    rewrite <- Hd. apply orb_true_iff in Heqb as [H%bool_decide_eq_true|H]; unbool; tauto. }
  cbv zeta. set (requested := Z.min _ _).
  assert (0 < requested <= len buf) as Hreq.
  { destruct buf; [done|]. unfold requested, len in *. simpl in *. lia. }
  wp_step. apply wp_ok_or; [|intros _; by split; [|reflexivity]]. intros last Hlast.
  destruct (checked_add offset requested) as [n|] eqn:Hn; [|done]. apply checked_add_Some in Hn as [-> Hn].
  destruct (1 <=? offset + requested) eqn:H1; [|done]. injection Hlast as <-. unbool.
  wp_step. apply wp_request. eapply wp_mono; [by apply (law_get obj pend rest)| |done].
  intros r w1 (HJ1 & Hs1 & d & Hd & Hbody). cbn [gq_key gq_if_match gq_range] in *.
  wp_step; [|by wp_step]. wp_step. split; [done|]. match goal with H : answers _ _ _ _ = true |- _ => pose proof (answers_len _ _ _ _ H) as Hlen end.
  split.
  { split; [simpl; lia|]. simpl. rewrite length_app, length_drop. unfold len in *. lia. }
  intros d' [Hd' Hlen'] Ho. assert (d = d') as -> by congruence.
  unfold read_result. assert (gr_body r = take (length buf) (drop (Z.to_nat offset) d')) as Hr.
  { rewrite (Hbody offset (offset + requested - 1) eq_refl) by (unfold requested, USIZE_MAX, U64_MAX in *; lia).
    unfold requested, len in *. destruct (decide (length d' - Z.to_nat offset <= length buf)%nat).
    - rewrite !take_ge; [done|rewrite length_drop; lia..].
    - f_equal. lia. }
  rewrite <- Hr. rewrite Hlen. do 3 f_equal. unfold len in Hlen. lia.
Qed.

(** ** Staged bodies *)

Lemma materialize_finds k w b :
  J w -> buffer_right b ->
  wp (materialize v k) (w, b)
    (fun d s => (J s.1 /\ same w s.1) /\ s.2 = set_bytes (Some d) b /\ edit_ok (len d)
       /\ forall d', buffer_draft w k b d' -> d = d')
    (fun _ s => (J s.1 /\ same w s.1) /\ s.2 = b).
Proof.
  intros HJ Hb. unfold materialize, buffer_right, buffer_draft in *. wp_step. wp_step. cbn [fst snd].
  destruct b as [source p [d|] dt]; cbn [bf_bytes bf_source] in *.
  { wp_step. split; [by split; [|reflexivity]|]. split; [done|]. split; [done|]. by intros ? ->. }
  wp_step. eapply (wp_mono _ _ (fun d s => ((J s.1 /\ same w s.1) /\ s.2 = mkBuffer source p None dt) /\ edit_ok (len d)
    /\ forall d', match source with Some f => revision w k f d' | None => d' = [] end -> d = d')); [|..|intros e s Hs; exact Hs].
  - destruct source as [f|].
    + wp_step. apply wp_lift; [apply check_edit_len_returns| |intros e _; by split; [split; [|reflexivity]|]].
      intros [] Hok. apply wp_on_store. eapply wp_mono; [by apply get_whole_gets| |done].
      intros d w1 (Hw1 & Hlen & Hd). split; [done|]. split; [|done]. rewrite Hlen. by apply check_edit_len_ok.
    + wp_step. split; [split; [split; [done|reflexivity]|done]|]. split; [right; exact Hedit|]. by intros ? ->.
  - intros d [w1 b1] ((Hw1 & Hb1) & Hok & Hd). cbn [fst snd] in *. subst b1. wp_steps. done.
Qed.

(** A body that is to be longer than a vector can be, though no limit forbids it. *)
Definition overlong_edit (d : bytes) (n : Z) : Prop := len d < n /\ ISIZE_MAX < n /\ edit_ok n.

(** A limit on bodies that a vector can hold. *)
Definition edits_limited : Prop := 0 < cfg_max_edit_bytes (s3_config v) <= ISIZE_MAX.

Lemma limited_edits d n : edits_limited -> ~ overlong_edit d n.
Proof. intros [H1 H2] (_ & Hn & [H|H]); lia. Qed.

Lemma resize_staged_cases d n :
  match resize_staged v d n with
  | Ok d' => d' = resize d n /\ edit_ok n
  | Err _ => True
  | Panic => overlong_edit d n
  | OutOfFuel => False
  end.
Proof.
  unfold resize_staged. pose proof (check_edit_len_ok n) as Hok. pose proof (check_edit_len_returns n).
  destruct (check_edit_len v n) as [[]| | |]; try done. simpl.
  by destruct (vec_resize_cases (E := Errno) d n) as [(-> & ? & ?)|[-> _]]; split; auto.
Qed.

(** Where a write ends. *)
Definition write_stop (append : bool) (offset : Z) (new d : bytes) : Z := (if append then len d else offset) + len new.

(** What a change of the body leaves that panics: the body as it was, which was to
    become overlong. *)
Definition stuck (w : W) (k : str) (b : Buffer) (stop : bytes -> Z) (s : W * Buffer) : Prop :=
  (J s.1 /\ same w s.1) /\ exists d0, (s.2 = set_bytes (Some d0) b /\ edit_ok (len d0) /\ forall d', buffer_draft w k b d' -> d0 = d')
    /\ overlong_edit d0 (stop d0).

Lemma write_buffer_writes k append offset new w b :
  J w -> buffer_right b ->
  ends (stuck w k b (write_stop append offset new)) (write_buffer v k append offset new) (w, b)
    (fun n s => (J s.1 /\ same w s.1) /\ n = len new /\ exists d0 d, s.2 = set_dirty (set_bytes (Some d) b) /\ edit_ok (len d)
       /\ d = written d0 (if append then len d0 else offset) new /\ forall d', buffer_draft w k b d' -> d0 = d')
    (fun _ s => (J s.1 /\ same w s.1) /\ (s.2 = b \/ exists d0, s.2 = set_bytes (Some d0) b /\ edit_ok (len d0)
       /\ forall d', buffer_draft w k b d' -> d0 = d')).
Proof.
  intros HJ Hb. unfold write_buffer. ends_step. apply ends_wp.
  eapply wp_mono; [by apply materialize_finds| |intros e s (? & ?); split; [done|by left]].
  intros d0 [w1 b1] (Hw1 & Hb1 & Hok & Hd0). cbn [fst snd] in *. subst b1.
  assert (forall e : Errno, (J w1 /\ same w w1) /\ (set_bytes (Some d0) b = b \/ exists d1, set_bytes (Some d0) b = set_bytes (Some d1) b
    /\ edit_ok (len d1) /\ forall d', buffer_draft w k b d' -> d1 = d')) as Herr by (intros _; split; [done|right; by exists d0]).
  ends_step. apply ends_wp, wp_lift; [unfold usize_try_from; by repeat case_match| |by intros e _; apply (Herr e)]. intros start Hstart.
  assert (start = (if append then len d0 else offset) /\ 0 <= start) as [-> Hpos].
  { pose proof (len_nonneg d0). destruct append; [by simplify_eq|]. unfold usize_try_from in Hstart. case_match; simplify_eq. unbool. lia. }
  set (start := if append then len d0 else offset) in *.
  ends_step. apply ends_wp, wp_ok_or; [|by intros _; apply (Herr EIO)]. intros stop [-> _]%checked_add_Some.
  pose proof (resize_staged_cases d0 (start + len new)) as Hsize. pose proof (len_nonneg new).
  ends_step. apply ends_lift.
  2: { intros e _. apply (Herr e). }
  2: { intros Hp. split; [done|]. exists d0. split; [done|]. unfold write_stop. fold start. destruct (len d0 <? start + len new); [by rewrite Hp in Hsize|done]. }
  2: { destruct (len d0 <? start + len new); [|done]. intros Hp. by rewrite Hp in Hsize. }
  intros d1 Hd1.
  assert (d1 = (if len d0 <? start + len new then resize d0 (start + len new) else d0) /\ edit_ok (len d1) /\ start + len new <= len d1)
    as (Heq & Hok1 & Hle).
  { destruct (len d0 <? _) eqn:Hlt; unbool; [|by simplify_eq].
    rewrite Hd1 in Hsize. destruct Hsize as [-> Hsize]. rewrite len_resize by lia. split; [done|]. split; [done|lia]. }
  ends_steps. cbn [fst snd]. unfold copy_into. rewrite (proj2 (Z.leb_le _ _) Hle). apply ends_wp, (wp_ok _ (splice d1 start new)); [done|].
  ends_steps. split; [done|]. split; [done|]. exists d0, (splice d1 start new). split; [done|].
  rewrite len_splice by lia. split; [done|]. split; [|done]. rewrite Heq. by apply written_in_place.
Qed.

Lemma truncate_buffer_cuts k n w b :
  J w -> buffer_right b ->
  ends (stuck w k b (fun _ => n)) (truncate_buffer v k n) (w, b)
    (fun _ s => (J s.1 /\ same w s.1) /\ exists d0, s.2 = set_dirty (set_bytes (Some (resize d0 n)) b) /\ edit_ok (len (resize d0 n))
       /\ forall d', buffer_draft w k b d' -> d0 = d')
    (fun _ s => (J s.1 /\ same w s.1) /\ (s.2 = b \/ exists d0, s.2 = set_bytes (Some d0) b /\ edit_ok (len d0)
       /\ forall d', buffer_draft w k b d' -> d0 = d')).
Proof.
  intros HJ Hb. unfold truncate_buffer. ends_step. apply ends_wp.
  eapply wp_mono; [by apply materialize_finds| |intros e s (? & ?); split; [done|by left]].
  intros d0 [w1 b1] (Hw1 & Hb1 & Hok & Hd0). cbn [fst snd] in *. subst b1.
  assert (forall e : Errno, (J w1 /\ same w w1) /\ (set_bytes (Some d0) b = b \/ exists d1, set_bytes (Some d0) b = set_bytes (Some d1) b
    /\ edit_ok (len d1) /\ forall d', buffer_draft w k b d' -> d1 = d')) as Herr by (intros _; split; [done|right; by exists d0]).
  ends_step. apply ends_wp, wp_lift; [unfold usize_try_from; by case_match| |by intros e _; apply (Herr e)]. intros m Hm.
  assert (m = n /\ 0 <= n) as [-> Hn] by (unfold usize_try_from in Hm; case_match; simplify_eq; unbool; lia).
  pose proof (resize_staged_cases d0 n) as Hsize. ends_step. apply ends_lift.
  2: { intros e _. apply (Herr e). }
  2: { intros Hp. rewrite Hp in Hsize. split; [done|]. by exists d0. }
  2: { intros Hp. by rewrite Hp in Hsize. }
  intros d1 Hd1. rewrite Hd1 in Hsize. destruct Hsize as [-> Hsize].
  ends_steps. split; [done|]. exists d0. split; [done|]. split; [by rewrite len_resize|done].
Qed.

(** ** Methods under the lock of a handle *)

(** What every method leaves alone: the objects, the uploads of others, and what
    the handle is. *)
Record kept (w : W) (h : HandleState) (s : W * HandleState) : Prop := {
  kept_store : J s.1;
  kept_objs : objs_same w s.1;
  kept_uploads : uploads_step (cell_upload h) (cell_upload s.2) w s.1;
  kept_right : cell_right s.1 s.2;
  kept_key : hs_key s.2 = hs_key h;
  kept_mode : hs_mode s.2 = hs_mode h;
  kept_released : hs_released s.2 = hs_released h;
  kept_precondition : failed s.2 = true \/ lands_under s.2 = lands_under h;
  kept_dirty : dirty h = true -> failed s.2 = true \/ dirty s.2 = true
}.

Lemma holds_same w w' k x d : pend_same w w' -> holds w k x d -> holds w' k x d.
Proof.
  intros Hp (front & Hd & Hf & Hu). exists front. split; [done|]. split; [done|]. destruct (sm_upload x); [|done].
  by rewrite Hp.
Qed.

Lemma draft_same w w' h d : same w w' -> draft w h d -> draft w' h d.
Proof.
  intros [Ho Hp]. unfold draft, buffer_draft, revision. destruct (hs_staging h) as [f|b|x|e]; [|destruct (bf_bytes b), (bf_source b)|..];
    rewrite ?Ho; try done. by apply holds_same.
Qed.

Lemma cell_right_same w w' h : pend_same w w' -> cell_right w h -> cell_right w' h.
Proof.
  intros Hp. unfold cell_right. destruct (hs_staging h) as [f|b|x|e]; try done. intros [Hi [d Hd]]. split; [done|]. exists d.
  by eapply holds_same.
Qed.

Lemma kept_same w w' h : J w' -> same w w' -> cell_right w h -> kept w h (w', h).
Proof. intros HJ [Ho Hp] Hr. constructor; try done; [by apply uploads_same|by eapply cell_right_same|by right..]. Qed.

Lemma kept_refl w h : J w -> cell_right w h -> kept w h (w, h).
Proof. intros. apply kept_same; [done|reflexivity|done]. Qed.

Lemma kept_buffer w w' h b b' :
  hs_staging h = Buffered b -> J w' -> same w w' -> bf_precondition b' = bf_precondition b -> buffer_right b' ->
  (bf_dirty b = true -> bf_dirty b' = true) -> kept w h (w', set_staging (Buffered b') h).
Proof.
  intros Hs HJ [Ho Hp] Hpre Hb Hdt. constructor; try done.
  - replace (cell_upload h) with (cell_upload (set_staging (Buffered b') h)); [by apply uploads_same|].
    unfold cell_upload. simpl. by rewrite Hs.
  - right. unfold lands_under. simpl. by rewrite Hs.
  - right. unfold dirty in *. rewrite Hs in *. by apply Hdt.
Qed.

Lemma kept_stream w w' h x x' :
  hs_staging h = Streamed x -> J w' -> moved v obj pend J (hs_key h) x x' w w' -> idle v x' -> (exists d, holds w' (hs_key h) x' d) ->
  kept w h (w', set_staging (Streamed x') h).
Proof.
  intros Hs HJ Hm Hi Hd. constructor; try done.
  - apply Hm.
  - unfold cell_upload. simpl. rewrite Hs. by eapply uploads_moved.
  - right. unfold lands_under. simpl. rewrite Hs. apply Hm.
  - by right.
Qed.

Lemma wp_on_buffer {A} b (m : ST (W * Buffer) Errno A) w h (Q : A -> W * HandleState -> Prop) (R : Errno -> W * HandleState -> Prop) :
  wp m (w, b) (fun a s => Q a (s.1, set_staging (Buffered s.2) h)) (fun e s => R e (s.1, set_staging (Buffered s.2) h)) ->
  wp (on_buffer b m) (w, h) Q R.
Proof. unfold wp, on_buffer. simpl. by destruct (m (w, b)) as [[] [? ?]]. Qed.

Lemma ends_on_buffer {A P} b (m : ST (W * Buffer) Errno A) w h (Q : A -> W * HandleState -> Prop) (R : Errno -> W * HandleState -> Prop) :
  ends (fun s => P (s.1, set_staging (Buffered s.2) h)) m (w, b) (fun a s => Q a (s.1, set_staging (Buffered s.2) h))
    (fun e s => R e (s.1, set_staging (Buffered s.2) h)) ->
  ends P (on_buffer b m) (w, h) Q R.
Proof. unfold ends, on_buffer. simpl. by destruct (m (w, b)) as [[] [? ?]]. Qed.

Lemma wp_on_stream {A} x (m : ST (W * Stream) Errno A) w h (Q : A -> W * HandleState -> Prop) (R : Errno -> W * HandleState -> Prop) :
  wp m (w, x) (fun a s => Q a (s.1, set_staging (Streamed s.2) h)) (fun e s => R e (s.1, set_staging (Streamed s.2) h)) ->
  wp (on_stream x m) (w, h) Q R.
Proof. unfold wp, on_stream. simpl. by destruct (m (w, x)) as [[] [? ?]]. Qed.

(** The staged bytes of a buffer, once they are there. *)
Lemma draft_bytes w h b d : draft w (set_staging (Buffered (set_bytes (Some d) b)) h) d.
Proof. done. Qed.

Lemma set_staging_same h : set_staging (hs_staging h) h = h.
Proof. by destruct h. Qed.

Lemma buffer_draft_of w h b d : hs_staging h = Buffered b -> draft w h d -> buffer_draft w (hs_key h) b d.
Proof. intros Hs. unfold draft. by rewrite Hs. Qed.

(** After an error on a buffer the draft is what it was. *)
Lemma buffer_error w w' h b b' :
  hs_staging h = Buffered b -> cell_right w h -> J w' /\ same w w' ->
  b' = b \/ (exists d0, b' = set_bytes (Some d0) b /\ edit_ok (len d0) /\ forall d, buffer_draft w (hs_key h) b d -> d0 = d) ->
  kept w h (w', set_staging (Buffered b') h) /\ forall d, draft w h d -> draft w' (set_staging (Buffered b') h) d.
Proof.
  intros Hs Hr [HJ Hsame] [->|(d0 & -> & Hok & Hd0)].
  - rewrite <- Hs, set_staging_same. split; [by apply kept_same|]. intros d. by apply draft_same.
  - split; [by eapply kept_buffer|]. intros d Hd. apply (buffer_draft_of _ _ _ _ Hs), Hd0 in Hd as <-. apply draft_bytes.
Qed.

(** A method that panicked: the handle and its draft are as they were. *)
Definition stuck_cell (w : W) (h : HandleState) (stop : bytes -> Z) (s : W * HandleState) : Prop :=
  kept w h s /\ (forall d, draft w h d -> draft s.1 s.2 d)
  /\ exists d0, overlong_edit d0 (stop d0) /\ forall d, draft w h d -> d = d0.

Lemma buffer_stuck w h b stop s :
  hs_staging h = Buffered b -> cell_right w h -> stuck w (hs_key h) b stop s ->
  stuck_cell w h stop (s.1, set_staging (Buffered s.2) h).
Proof.
  intros Hs Hr (Hw & d0 & Hd0 & Hlong).
  destruct (buffer_error w s.1 h b s.2 Hs Hr Hw (or_intror (ex_intro _ d0 Hd0))) as [Hk Hd]. split; [done|]. split; [done|].
  exists d0. split; [done|]. intros d Hdr%(buffer_draft_of _ _ _ _ Hs). symmetry. by apply Hd0.
Qed.

Lemma stuck_limited w h stop s : edits_limited -> ~ stuck_cell w h stop s.
Proof. intros Hlim (_ & _ & d0 & Hlong & _). by eapply limited_edits. Qed.

Lemma read_resolved_reads offset buf w h :
  J w -> cell_right w h ->
  wp (read_resolved v offset buf) (w, h)
    (fun r s => (kept w h s /\ read_reply buf r)
       /\ forall d, draft w h d -> draft s.1 s.2 d /\ (0 <= offset -> r = read_result d offset buf))
    (fun _ s => kept w h s /\ forall d, draft w h d -> draft s.1 s.2 d).
Proof.
  intros HJ Hr. pose proof (kept_refl w h HJ Hr) as Hrefl. unfold read_resolved. wp_step. wp_step. cbn [fst snd].
  wp_step; [by wp_step|]. wp_step; [by wp_step|]. destruct (hs_staging h) as [f|b|x|e] eqn:Hs; [..|by wp_step|by wp_step].
  - apply wp_on_store. cbn [fst snd]. eapply wp_mono; [by apply read_remote_reads|..].
    + intros r w1 ([HJ1 Hs1] & Hrep & Hread). split; [split; [by apply kept_same|done]|]. intros d Hd.
      split; [by apply (draft_same w)|]. apply Hread. unfold draft in Hd. by rewrite Hs in Hd.
    + intros e w1 [HJ1 Hs1]. split; [by apply kept_same|]. intros d. by apply draft_same.
  - assert (buffer_right b) as Hb by (unfold cell_right in Hr; by rewrite Hs in Hr).
    wp_step. apply wp_on_buffer. eapply wp_mono; [by apply materialize_finds|..].
    2: { intros e [w1 b1] (Hw1 & ->). apply (buffer_error w w1 h b b Hs Hr Hw1). by left. }
    intros d0 [w1 b1] (Hw1 & -> & Hok & Hd0). cbn [fst snd] in *.
    destruct (buffer_error w w1 h b (set_bytes (Some d0) b) Hs Hr Hw1) as [Hk Hd]; [right; by exists d0|].
    assert (forall d, draft w h d -> d = d0) as Heq.
    { intros d Hdr. symmetry. by apply Hd0, buffer_draft_of. }
    wp_step. apply wp_lift; [unfold usize_try_from; by case_match| |by intros e _]. intros n Hn.
    assert (n = offset /\ 0 <= offset) as [-> Hpos] by (unfold usize_try_from in Hn; case_match; simplify_eq; unbool; lia).
    wp_step; wp_step.
    + split; [by split; [|split]|]. intros d Hdr. split; [by apply Hd|]. intros _. rewrite (Heq d Hdr). symmetry.
      apply read_nothing; [done|]. match goal with E : _ || _ = true |- _ => apply orb_true_iff in E as [H%bool_decide_eq_true|H] end; unbool; tauto.
    + split; [|intros d Hdr; split; [by apply Hd|by rewrite (Heq d Hdr)]]. split; [done|].
      unfold read_reply, read_result, len. simpl. split; [lia|]. rewrite length_app, length_drop, length_take. lia.
Qed.
(** A stream that failed is aborted. *)
Lemma fail_stream_aborts e w1 h x :
  J w1 ->
  wp (fail_stream v e) (w1, set_staging (Streamed x) h)
    (fun _ s => (J s.1 /\ objs_same w1 s.1) /\ uploads_step (up_id <$> sm_upload x) None w1 s.1 /\ s.2 = set_staging (Failed e) h)
    (fun _ _ => False).
Proof.
  intros HJ. unfold fail_stream. wp_steps. cbn [fst snd hs_staging set_staging]. destruct (sm_upload x) as [u|]; simpl fmap.
  - apply wp_on_store. unfold abort_upload. apply wp_ignored. cbn [fst snd].
    eapply wp_mono; [by apply abort_gone|..]; intros a w2 (HJ2 & Ho & Hu); done.
  - wp_step. split; [done|]. split; [by apply uploads_same|done].
Qed.

Lemma or_fail_stream_wp {A} (m : ST (W * Stream) Errno A) w h x (Q : A -> W * HandleState -> Prop) :
  hs_staging h = Streamed x ->
  wp m (w, x) (fun a s => Q a (s.1, set_staging (Streamed s.2) h)) (fun _ s => J s.1 /\ moved v obj pend J (hs_key h) x s.2 w s.1) ->
  wp (or_fail_stream v (on_stream x m)) (w, h) Q (fun e s => kept w h s /\ hs_staging s.2 = Failed e).
Proof.
  intros Hs Hm. unfold or_fail_stream. wp_step. apply wp_attempted, wp_on_stream. eapply wp_mono; [exact Hm|..].
  - intros a s HQ. exact HQ.
  - intros e [w1 x1] [HJ1 Hmv]. cbn [fst snd] in *. wp_step. eapply wp_mono; [by apply fail_stream_aborts| |done].
    intros _ [w2 h2] ([HJ2 Ho2] & Hu2 & Hh2). cbn [fst snd] in *. subst h2. wp_step. split; [|done]. constructor; try done; [|..|by left|by left].
    + intros k. by rewrite Ho2, (moved_objs _ _ _ _ _ _ _ _ _ Hmv).
    + unfold cell_upload. simpl. rewrite Hs. eapply uploads_trans; [by eapply uploads_moved|exact Hu2].
Qed.

Lemma draft_exists w h x : hs_staging h = Streamed x -> cell_right w h -> idle v x /\ exists d, holds w (hs_key h) x d.
Proof. unfold cell_right. by intros ->. Qed.

Lemma stream_end_of w k x d n : holds w k x d -> stream_end x = Ok n -> n = len d.
Proof.
  intros Hd. unfold stream_end, ok_or. rewrite (holds_len v pend w k x d Hd). destruct (checked_add _ _) eqn:H; [|done].
  apply checked_add_Some in H as [-> _]. by intros [= <-].
Qed.

Lemma holds_fun w k x d d' : holds w k x d -> holds w k x d' -> d = d'.
Proof.
  intros (f & -> & Hf & Hu) (f' & -> & Hf' & Hu'). f_equal. destruct (sm_upload x) as [u|]; [|congruence].
  destruct Hu as [(m & Hm & _ & Hg) _], Hu' as [(m' & Hm' & _ & Hg') _]. assert (m' = m) as -> by congruence.
  clear - Hg Hg'. revert f' Hg'. induction Hg as [|p ps b d Hb Hg IH]; intros f' Hg'; inversion Hg'; subst; [done|].
  f_equal; [congruence|auto].
Qed.

Lemma write_resolved_writes offset new w h :
  J w -> cell_right w h ->
  ends (stuck_cell w h (write_stop (m_append (hs_mode h)) offset new)) (write_resolved v offset new) (w, h)
    (fun n s => (kept w h s /\ n = len new /\ (new <> [] -> dirty s.2 = true))
       /\ forall d, draft w h d -> draft s.1 s.2 (write_result d (access_of (hs_mode h)) offset new))
    (fun e s => kept w h s /\ (hs_staging s.2 = Failed e \/ forall d, draft w h d -> draft s.1 s.2 d)).
Proof.
  intros HJ Hr. pose proof (kept_refl w h HJ Hr) as Hrefl. unfold write_resolved. ends_step. ends_step. cbn [fst snd].
  ends_step; [by apply ends_wp; wp_step; split; [|right]|]. ends_step; [by apply ends_wp; wp_step; split; [|right]|].
  unfold write_result. destruct (bool_decide (new = [])) eqn:Hnew.
  { apply bool_decide_eq_true in Hnew as ->. apply ends_wp. destruct (hs_staging h) as [f|b|x|e] eqn:Hs; wp_step; [done..|]. split; [done|]. by left. }
  apply bool_decide_eq_false in Hnew. destruct (hs_staging h) as [f|b|x|e] eqn:Hs; [by apply ends_wp; wp_step; split; [|right]|..].
  - assert (buffer_right b) as Hb by (unfold cell_right in Hr; by rewrite Hs in Hr).
    apply ends_on_buffer. eapply ends_panics; [eapply ends_mono; [by apply write_buffer_writes|..]|intros s1 H1; by eapply buffer_stuck].
    + intros n [w1 b1] ([HJ1 Hs1] & -> & d0 & d & -> & Hok & Hd & Hd0). cbn [fst snd] in *. split.
      * split; [by eapply kept_buffer|done].
      * intros d' Hd'%(buffer_draft_of _ _ _ _ Hs)%Hd0. subst d' d. done.
    + intros e [w1 b1] [Hw1 Hb1]. cbn [fst snd] in *. destruct (buffer_error w w1 h b b1 Hs Hr Hw1 Hb1) as [Hk Hd]. split; [done|by right].
  - apply ends_wp. destruct (draft_exists w h x Hs Hr) as [Hi [d0 Hd0]].
    wp_step. apply wp_lift.
    { destruct (m_append (hs_mode h)); [|done]. unfold stream_end, ok_or. by destruct (checked_add _ _). }
    2: { intros e _. split; [done|]. by right. }
    intros target Ht. wp_step; [by wp_step; split; [|right]|].
    assert (forall d, draft w h d -> d = d0) as Heq.
    { intros d Hd. unfold draft in Hd. rewrite Hs in Hd. by eapply holds_fun. }
    assert (target = if m_append (hs_mode h) then len d0 else offset) as Htgt.
    { destruct (m_append (hs_mode h)); [by eapply stream_end_of|by simplify_eq]. }
    eapply wp_mono; [apply (or_fail_stream_wp (write_stream v (hs_key h) target new) w h x (fun n s =>
      (kept w h s /\ n = len new /\ (new <> [] -> dirty s.2 = true)) /\ forall d, draft w h d -> 
        draft s.1 s.2 (written d (if a_append (access_of (hs_mode h)) then len d else offset) new)) Hs)|done|intros e s [Hk Hf]; split; [exact Hk|by left]].
    eapply wp_mono; [apply (write_stream_holds v obj pend rest J Hpart (hs_key h) target new d0 w x HJ Hd0 Hi); lia| |].
    2: { intros e s Hes. exact Hes. }
    intros n [w1 x1] (-> & (HJ1 & Hm1 & Hd1) & Hi1). cbn [fst snd] in *. split.
    * split; [by eapply kept_stream; eauto|done].
    * intros d ->%Heq. unfold draft. simpl. by rewrite Htgt in Hd1.
  - apply ends_wp. wp_step. split; [done|]. by left.
Qed.
(** Cutting a stream back within its buffer. *)
Lemma holds_cut w k x d n :
  holds w k x d -> sm_flushed x <= n -> n <= len d -> holds w k (set_buffer (take (Z.to_nat (n - sm_flushed x)) (sm_buffer x)) x) (resize d n).
Proof.
  intros (front & -> & Hf & Hu) H1 H2. exists front. simpl. split; [|by split]. unfold resize. rewrite Hf in *. unfold len in *.
  replace (Z.to_nat (n - Z.of_nat (length (front ++ sm_buffer x)))) with 0%nat by lia. simpl. rewrite app_nil_r, take_app.
  rewrite (take_ge front) by lia. do 2 f_equal. lia.
Qed.

Lemma truncate_resolved_cuts n w h :
  J w -> cell_right w h ->
  ends (stuck_cell w h (fun _ => n)) (truncate_resolved v n) (w, h)
    (fun _ s => (kept w h s /\ dirty s.2 = true) /\ forall d, draft w h d -> draft s.1 s.2 (resize d n))
    (fun e s => kept w h s /\ (hs_staging s.2 = Failed e \/ forall d, draft w h d -> draft s.1 s.2 d)).
Proof.
  intros HJ Hr. pose proof (kept_refl w h HJ Hr) as Hrefl. unfold truncate_resolved. ends_step. ends_step. cbn [fst snd].
  ends_step; [by apply ends_wp; wp_step; split; [|right]|]. ends_step; [by apply ends_wp; wp_step; split; [|right]|].
  destruct (hs_staging h) as [f|b|x|e] eqn:Hs; [by apply ends_wp; wp_step; split; [|right]|..|by apply ends_wp; wp_step; split; [|left]].
  - assert (buffer_right b) as Hb by (unfold cell_right in Hr; by rewrite Hs in Hr).
    apply ends_on_buffer. eapply ends_panics; [eapply ends_mono; [by apply truncate_buffer_cuts|..]|intros s1 H1; by eapply buffer_stuck].
    + intros _ [w1 b1] ([HJ1 Hs1] & d0 & Hb1 & Hok & Hd0). cbn [fst snd] in *. subst b1. split.
      * split; [by eapply kept_buffer|done].
      * intros d' Hd'%(buffer_draft_of _ _ _ _ Hs)%Hd0. by subst d'.
    + intros e [w1 b1] [Hw1 Hb1]. cbn [fst snd] in *. destruct (buffer_error w w1 h b b1 Hs Hr Hw1 Hb1) as [Hk Hd]. split; [done|by right].
  - apply ends_wp. destruct (draft_exists w h x Hs Hr) as [Hi [d0 Hd0]].
    assert (forall d, draft w h d -> d = d0) as Heq.
    { intros d Hd. unfold draft in Hd. rewrite Hs in Hd. by eapply holds_fun. }
    wp_step; [by wp_step; split; [|right]|]. wp_step. apply wp_lift; [unfold stream_end, ok_or; by destruct (checked_add _ _)| |].
    2: { intros e _. split; [done|]. by right. }
    intros stop ->%(stream_end_of _ _ _ _ _ Hd0). wp_step.
    + eapply wp_mono; [apply (or_fail_stream_wp (fill_gap v (hs_key h) n) w h x (fun _ s =>
        (kept w h s /\ dirty s.2 = true) /\ forall d, draft w h d -> draft s.1 s.2 (resize d n)) Hs)|done|intros e s [Hk Hf]; split; [exact Hk|by left]].
      eapply wp_mono; [apply (fill_gap_holds v obj pend rest J Hpart (hs_key h) n d0 w x HJ Hd0 Hi); lia| |].
      2: { intros e s Hes. exact Hes. }
      intros [] [w1 x1] ((HJ1 & Hm1 & Hd1) & Hi1 & _). cbn [fst snd] in *. split.
      * split; [by eapply kept_stream; eauto|done].
      * intros d ->%Heq. unfold draft. simpl. by rewrite resize_longer by lia.
    + wp_step. apply wp_lift; [unfold usize_try_from; by case_match| |].
      2: { intros e _. split; [done|]. by right. }
      intros keep Hkeep. assert (keep = n - sm_flushed x) as -> by (unfold usize_try_from in Hkeep; case_match; by simplify_eq).
      wp_step. cbn [fst snd]. pose proof (holds_cut w (hs_key h) x d0 n Hd0 ltac:(lia) ltac:(lia)) as Hcut. split.
      * split; [|done]. eapply kept_stream; [done|done|apply moved_same; [by eapply holds_live|done..]| |by eauto].
        unfold idle in *. simpl. unfold uploaded_parts in *. simpl. unfold len in *. rewrite length_take. lia.
      * by intros d ->%Heq.
Qed.

(** ** Closing *)

(** What a closed handle leaves: nothing of its own in the store. *)
Definition gone (w : W) (h : HandleState) (w' : W) : Prop := J w' /\ uploads_step (cell_upload h) None w w'.
Definition ended (w : W) (h : HandleState) (released : bool) (s : W * HandleState) : Prop := gone w h s.1 /\ hs_released s.2 = released.

(** The draft of the handle became the object of its key. *)
Definition lands (w : W) (h : HandleState) (w' : W) : Prop :=
  exists d, draft w h d /\ published (hs_key h) (lands_under h) d w w'.

Lemma commit_lands w h :
  J w -> cell_right w h ->
  wp (commit v) (w, h)
    (fun _ s => ended w h (hs_released h) s /\ failed h = false /\ if dirty h then lands w h s.1 else objs_same w s.1)
    (fun e s => ended w h (hs_released h) s /\ (forall e', hs_staging h = Failed e' -> e = e')
       /\ (objs_same w s.1 \/ e = EIO /\ dirty h = true /\ lands w h s.1)).
Proof.
  intros HJ Hr. unfold commit. wp_step. wp_step. cbn [fst snd].
  assert (forall w', J w' /\ pend_same w w' -> cell_upload h = None -> gone w h w') as Hgone.
  { intros w' [HJ' Hp] Hu. split; [done|]. rewrite Hu. by apply uploads_same. }
  unfold dirty, failed, lands, draft, cell_right, cell_upload, lands_under in *.
  destruct (hs_staging h) as [f|b|x|e] eqn:Hs.
  - wp_step. split; [by split; [apply Hgone|]|]. done.
  - unfold buffer_right in Hr. destruct (bf_dirty b) eqn:Hdt; simpl negb; cbv iota; [|wp_step; split; [by split; [apply Hgone|]|done]].
    destruct (bf_bytes b) as [d|] eqn:Hb; [|done]. wp_step. wp_step. apply wp_on_store. cbn [fst snd]. simpl.
    eapply wp_mono; [by apply (put_object_lands v obj pend rest J)|..].
    + intros [] w' [Hw' Hpub]. split; [by split; [apply Hgone|]|]. split; [done|]. exists d. unfold buffer_draft. by rewrite Hb.
    + intros e w' [Hw' Hpub]. split; [by split; [apply Hgone|]|]. split; [done|]. destruct Hpub as [?|[-> ?]]; [by left|right].
      split; [done|]. split; [done|]. exists d. unfold buffer_draft. by rewrite Hb.
  - destruct Hr as [Hi [d Hd]]. wp_step. apply wp_attempted, wp_on_stream.
    eapply wp_mono; [by apply (finish_stream_lands v obj pend rest J (hs_key h) d)|..].
    + intros [] [w1 x1] (HJ1 & Hg & Hpub). cbn [fst snd] in *. split; [|split; [done|by exists d]]. split; [|done]. split; [done|].
      unfold upload_gone in Hg. unfold cell_upload. rewrite Hs. destruct (sm_upload x); [by apply uploads_gone|by apply uploads_same].
    + intros e [w1 x1] ([HJ1 Hx1] & Hcase). cbn [fst snd] in *. wp_step. wp_step. cbn [fst snd]. simpl. rewrite Hx1.
      assert (uploads_step (up_id <$> sm_upload x) (up_id <$> sm_upload x) w w1
              \/ uploads_step (up_id <$> sm_upload x) None w w1 /\ forall u, sm_upload x = Some u -> pend w1 (up_id u) = None) as Hup.
      { destruct Hcase as [Hm|(_ & Hg & _)]; [left; by eapply uploads_moved|right]. unfold upload_gone in Hg.
        destruct (sm_upload x); [split; [by apply uploads_gone|]|split; [by apply uploads_same|done]]. intros ? [= <-]. apply Hg. }
      assert (objs_same w w1 \/ e = EIO /\ published (hs_key h) (sm_precondition x) d w w1) as Hobj.
      { destruct Hcase as [Hm|(-> & _ & Hpub)]; [left; apply Hm|by right]. }
      assert (forall w2, J w2 -> objs_same w1 w2 -> uploads_step (up_id <$> sm_upload x) None w w2 ->
        ended w h (hs_released h) (w2, set_staging (Streamed x1) h) /\ (forall e', Streamed x = Failed e' -> e = e') /\ (objs_same w w2 \/ e = EIO /\ true = true /\
          exists d, holds w (hs_key h) x d /\ published (hs_key h) (sm_precondition x) d w w2)) as Hend.
      { intros w2 HJ2 Ho2 Hu2. split; [split; [split; [done|]|done]; unfold cell_upload; by rewrite Hs|]. split; [done|].
        destruct Hobj as [Hobj|(-> & Hsat & Hland)]; [left; intros k; by rewrite Ho2|right]. split; [done|]. split; [done|].
        exists d. split; [done|]. split; [done|]. by eapply landed_same_r. }
      wp_step. destruct (sm_upload x) as [u|] eqn:Hu; simpl in *.
      * apply wp_on_store. unfold abort_upload. apply wp_ignored. cbn [fst snd].
        assert (forall w2, J w2 /\ objs_same w1 w2 /\ uploads_step (Some (up_id u)) None w1 w2 -> uploads_step (Some (up_id u)) None w w2) as Htr.
        { intros w2 (_ & _ & Hu2). destruct Hup as [Hup|[Hup Hn]]; [by eapply uploads_trans|].
          eapply uploads_trans; [exact Hup|]. destruct Hu2 as [F O G]. constructor; [|done|].
          - intros id. destruct (F id) as [E|[[= <-]|E]]; [by left|right; right; by apply Hn|by do 2 right].
          - intros R id Hid. destruct (G R id Hid) as [|[[G1 G2]|G1]]; [done|by right; left|by right; right]. }
        eapply wp_mono; [by apply abort_gone|..]; intros a w2 Hw2; wp_step; cbn [fst snd]; apply Hend; try apply Hw2; by apply Htr.
      * wp_step. wp_step. cbn [fst snd]. apply Hend; [done|done|]. by destruct Hup as [|[? _]].
  - wp_step. split; [by split; [apply Hgone|]|]. split; [by intros e' [= ->]|]. by left.
Qed.

Lemma close_cell_lands w h :
  J w -> cell_right w h ->
  wp (close_cell v) (w, h)
    (fun _ s => ended w h true s /\ failed h = false /\ if dirty h then lands w h s.1 else objs_same w s.1)
    (fun e s => ended w h true s /\ (forall e', hs_staging h = Failed e' -> e = e')
       /\ (objs_same w s.1 \/ e = EIO /\ dirty h = true /\ lands w h s.1)).
Proof. intros HJ Hr. unfold close_cell. wp_steps. cbn [fst snd]. by apply (commit_lands w (release h)). Qed.

Lemma abandoned w h w' x u :
  hs_staging h = Streamed x -> sm_upload x = Some u -> J w' /\ objs_same w w' /\ uploads_step (Some (up_id u)) None w w' ->
  gone w h w' /\ objs_same w w'.
Proof. intros Hs Hu (HJ & Ho & Hstep). split; [|done]. split; [done|]. unfold cell_upload. rewrite Hs. simpl. by rewrite Hu. Qed.

Lemma nothing_abandoned w h : J w -> cell_upload h = None -> gone w h w /\ objs_same w w.
Proof. intros HJ Hu. split; [|done]. split; [done|]. rewrite Hu. by apply uploads_same. Qed.


Lemma abort_cell_leaves w h :
  J w ->
  wp (abort_cell v) (w, h)
    (fun _ s => ended w h true s /\ objs_same w s.1) (fun _ s => ended w h true s /\ objs_same w s.1).
Proof.
  intros HJ.
  assert (forall w' h', gone w h w' /\ objs_same w w' -> hs_released h' = true -> ended w h true (w', h') /\ objs_same w w') as Hend
    by (intros w' h' [? ?] ?; done).
  unfold abort_cell. wp_steps. cbn [fst snd]. destruct (hs_staging h) as [f|b|x|e] eqn:Hs.
  1,2,4: wp_step; apply Hend; [|done]; apply nothing_abandoned; [done|]; unfold cell_upload; by rewrite Hs.
  destruct (sm_upload x) as [u|] eqn:Hu; [|wp_step; apply Hend; [|done]; apply nothing_abandoned; [done|]; unfold cell_upload; rewrite Hs; simpl; by rewrite Hu].
  apply wp_on_store, wp_request. cbn [fst snd].
  eapply wp_mono; [by apply abort_gone|..]; intros a w2 Hw2; (apply Hend; [by eapply abandoned|done]).
Qed.

Lemma drop_cell_leaves w h : J w -> wp (drop_cell v) (w, h) (fun _ s => gone w h s.1 /\ objs_same w s.1) (fun _ _ => False).
Proof.
  intros HJ. unfold drop_cell. wp_steps. cbn [fst snd]. destruct (hs_staging h) as [f|b|x|e] eqn:Hs.
  1,2,4: wp_step; apply nothing_abandoned; [done|]; unfold cell_upload; by rewrite Hs.
  destruct (sm_upload x) as [u|] eqn:Hu; [|wp_step; apply nothing_abandoned; [done|]; unfold cell_upload; rewrite Hs; simpl; by rewrite Hu].
  apply wp_on_store. unfold abort_upload. apply wp_ignored. cbn [fst snd].
  eapply wp_mono; [by apply abort_gone|..]; intros a w2 Hw2; by eapply abandoned.
Qed.
End handles.
