(* ===== verification/S3System.v ===== *)
(** * The S3 filesystem as a backend (src/src/vfs/s3.rs)

    The invariant of the filesystem over a lawful store: every open handle has a
    cell that nothing else has, and every upload of the store is one of somebody
    else, left as it was, or that of an open handle, or an empty one whose beginning
    the store did not answer.  With it the filesystem obeys the laws of the [Vfs]
    interface, if it limits the bodies it edits, and its handles are drafts. *)

From Stdlib Require Import Ascii String.
From S2P Require Import Prelude RustStr VfsTypes VfsPath VfsIface MemVfs MemVfsFiles FileLaws SandboxFs.
From S2P Require Import S3Types S3Vfs S3Laws S3Stage S3Listing S3Handles S3Scope.

#[local] Open Scope Z_scope.

Lemma ends_state {S E A} {P : S -> Prop} (m : ST S E A) s Q R (I : S -> Prop) :
  ends P m s Q R -> I (m s).2 -> ends (fun s' => P s' /\ I s') m s (fun a s' => Q a s' /\ I s') (fun e s' => R e s' /\ I s').
Proof. unfold ends. destruct (m s) as [[] ?]; auto. Qed.

Section system.
Context {W : Type} (v : S3Vfs W) (pages : W -> nat).
Context (obj : W -> str -> option (bytes * str)) (pend : W -> str -> option (str * gmap Z bytes)).
Context (rest : W -> str -> str -> option str -> list Entry) (J : W -> Prop).
Context `{Hl : !S3Laws obj pend rest J (s3_ops v)} (Hpages : pages_enough rest J pages).
Context (Hpart : 0 < s3_part_size v <= USIZE_MAX) (Hedit : 0 <= cfg_max_edit_bytes (s3_config v)).

(** The uploads that are not of this filesystem. *)
Context (theirs : str -> option (str * gmap Z bytes)).

Abbreviation reliable := (ReliableAborts pend J (s3_ops v)).
Abbreviation same := (store_same obj pend).
Abbreviation draft := (draft v obj pend).
Abbreviation cell_right := (cell_right v pend).
Abbreviation uploads_step := (uploads_step v pend J).
Abbreviation kept := (kept v obj pend J).
Abbreviation gone := (gone v pend J).
Abbreviation ended := (ended v pend J).
Abbreviation lands := (lands v obj pend).

(** An open handle and its cell. *)
Definition Open (s : S3State W) (h : FileHandle) (c : HandleState) : Prop := h ∈ s3_handles s /\ s3_cells s !! h = Some c.

Definition s3_owned (s : S3State W) : gset Z := list_to_set (s3_handles s).

Record s3_inv (s : S3State W) : Prop := {
  si_store : J (s3_store s);
  si_nodup : NoDup (s3_handles s);
  si_below : Forall (fun h => h < s3_next_handle s) (s3_handles s);
  si_open h : h ∈ s3_handles s -> exists c, Open s h c;
  si_released h c : s3_cells s !! h = Some c -> h ∉ s3_handles s -> hs_released c = true;
  si_cell h c : Open s h c -> cell_right (s3_store s) c /\ hs_released c = false;
  si_distinct h1 h2 c1 c2 id :
    Open s h1 c1 -> Open s h2 c2 -> cell_upload c1 = Some id -> cell_upload c2 = Some id -> h1 = h2;
  si_theirs id u : theirs id = Some u -> pend (s3_store s) id = Some u /\ forall h c, Open s h c -> cell_upload c <> Some id;
  si_ours : reliable -> forall id, is_Some (pend (s3_store s) id) ->
              is_Some (theirs id) \/ (exists h c, Open s h c /\ cell_upload c = Some id)
              \/ stray pend J (s3_ops v) (pend (s3_store s) id)
}.

Lemma cell_pend w c id : cell_right w c -> cell_upload c = Some id -> is_Some (pend w id).
Proof.
  unfold cell_upload, S3Handles.cell_right. destruct (hs_staging c) as [f|b|x|e]; try done.
  destruct (sm_upload x) as [u|] eqn:Hu; [|done]. intros [_ [d (front & _ & _ & H)]] [= <-]. rewrite Hu in H.
  destruct H as [(m & H & _) _]. by rewrite H.
Qed.

(** What a cell says depends on its own upload. *)
Lemma cell_right_own w w' c :
  (forall id, cell_upload c = Some id -> pend w' id = pend w id) -> cell_right w c -> cell_right w' c.
Proof.
  unfold cell_upload, S3Handles.cell_right. intros H. destruct (hs_staging c) as [f|b|x|e]; try done.
  intros [Hi [d (front & Hd & Hf & Hu)]]. split; [done|]. exists d, front. split; [done|]. split; [done|].
  destruct (sm_upload x) as [u|]; [|done]. by rewrite (H _ eq_refl).
Qed.

Lemma draft_own w w' c d :
  objs_same obj w w' -> (forall id, cell_upload c = Some id -> pend w' id = pend w id) -> draft w c d -> draft w' c d.
Proof.
  unfold cell_upload, S3Handles.draft, buffer_draft, revision. intros Ho H.
  destruct (hs_staging c) as [f|b|x|e]; [by rewrite Ho|destruct (bf_bytes b), (bf_source b); by rewrite ?Ho| |done].
  intros (front & Hd & Hf & Hu). exists front. split; [done|]. split; [done|].
  destruct (sm_upload x) as [u|]; [|done]. by rewrite (H _ eq_refl).
Qed.

(** A step of one handle leaves the uploads of the others alone. *)
Lemma others_pend s h oc u' w' k c id :
  s3_inv s -> (forall c0, Open s h c0 <-> oc = Some c0) -> uploads_step (oc ≫= cell_upload) u' (s3_store s) w' ->
  k <> h -> Open s k c -> cell_upload c = Some id -> pend w' id = pend (s3_store s) id.
Proof.
  intros HI Hoc [F _ _] Hk Hc Hid. destruct (F id) as [E|[E|E]]; [done|..].
  - destruct oc as [c0|]; [|done]. destruct Hk. eapply (si_distinct s HI k h c c0 id); [done|by apply Hoc|done|exact E].
  - destruct (cell_pend _ _ _ (proj1 (si_cell s HI k c Hc)) Hid) as [x Hx]. congruence.
Qed.

(** The cell of [h] became [oc'], the others are as they were. *)
Lemma inv_step s s' h oc oc' :
  s3_inv s -> J (s3_store s') -> uploads_step (oc ≫= cell_upload) (oc' ≫= cell_upload) (s3_store s) (s3_store s') ->
  (forall c, Open s h c <-> oc = Some c) -> (forall k c, Open s' k c <-> k = h /\ oc' = Some c \/ k <> h /\ Open s k c) ->
  (forall c, oc' = Some c -> cell_right (s3_store s') c /\ hs_released c = false) ->
  NoDup (s3_handles s') -> Forall (fun h => h < s3_next_handle s') (s3_handles s') ->
  (forall k, k ∈ s3_handles s' -> exists c, Open s' k c) ->
  (forall k c, s3_cells s' !! k = Some c -> k ∉ s3_handles s' -> hs_released c = true) -> s3_inv s'.
Proof.
  intros HI HJ Hu Hoc Hoc' Hc Hnodup Hbelow Hopen Hrel.
  assert (forall k c id, k <> h -> Open s k c -> cell_upload c = Some id -> pend (s3_store s') id = pend (s3_store s) id) as Hothers
    by (intros k c id Hk Hs Hid; exact (others_pend s h oc _ _ k c id HI Hoc Hu Hk Hs Hid)).
  assert (forall c k c' id, oc' = Some c -> k <> h -> Open s k c' -> cell_upload c = Some id -> cell_upload c' = Some id -> False) as Hapart.
  { intros c k c' id -> Hk Hk' Hid Hid'. destruct (us_own _ _ _ _ _ _ _ Hu id Hid) as [E|E].
    - destruct oc as [c0|]; [|done]. apply Hk. by apply (si_distinct s HI k h c' c0 id); [|apply Hoc|..].
    - destruct (cell_pend _ _ _ (proj1 (si_cell s HI k c' Hk')) Hid') as [x Hx]. congruence. }
  constructor; [done|done|done|done|done|..].
  - intros k c [[-> Hk]|[Hk Hs]]%Hoc'; [by apply Hc|]. destruct (si_cell s HI k c Hs) as [Hr Hrl]. split; [|done].
    eapply cell_right_own; [|exact Hr]. intros id Hid. by eapply Hothers.
  - intros h1 h2 c1 c2 id [[-> E1]|[N1 O1]]%Hoc' [[-> E2]|[N2 O2]]%Hoc' Hid1 Hid2; [done|..].
    + destruct (Hapart c1 h2 c2 id E1 N2 O2 Hid1 Hid2).
    + destruct (Hapart c2 h1 c1 id E2 N1 O1 Hid2 Hid1).
    + exact (si_distinct s HI h1 h2 c1 c2 id O1 O2 Hid1 Hid2).
  - intros id u Hid. destruct (si_theirs s HI id u Hid) as [Hp Hn].
    assert (oc ≫= cell_upload <> Some id) as Hnoc by (destruct oc; [by eapply Hn, Hoc|done]). split.
    + destruct (us_frame _ _ _ _ _ _ _ Hu id) as [E|[E|E]]; [by rewrite E|done|congruence].
    + intros k c [[-> ->]|[Hk Hs]]%Hoc'; [|by eapply Hn]. intros E. destruct (us_own _ _ _ _ _ _ _ Hu id E); [done|congruence].
  - intros R id Hid. destruct (us_given _ _ _ _ _ _ _ Hu R id Hid) as [E|[[Hid' E]|E]]; [..|by right; right].
    + destruct oc' as [c|]; [|done]. right; left. exists h, c. split; [|done]. apply Hoc'. by left.
    + destruct (si_ours s HI R id Hid') as [|[(k & c & Hk & Hkid)|Hs]]; [by left|right; left|right; right].
      * exists k, c. split; [|done]. apply Hoc'. right. split; [|done]. intros ->. apply Hoc in Hk as ->. done.
      * destruct (us_frame _ _ _ _ _ _ _ Hu id) as [->|[E'|E']]; [done|done|]. rewrite E' in Hid'. by destruct Hid'.
Qed.

(** Nothing but the objects changed. *)
Lemma inv_calm s w' :
  s3_inv s -> calm pend J (s3_store s) w' -> s3_inv (mkS3State w' (s3_next_handle s) (s3_handles s) (s3_cells s)).
Proof.
  intros HI [HJ Hp]. unfold pend_same in Hp. constructor; cbn [s3_store s3_handles s3_next_handle]; try apply HI; [done|..].
  - intros h c Hc. destruct (si_cell s HI h c Hc) as [Hr Hrel]. split; [|done]. eapply cell_right_own; [|exact Hr]; auto.
  - intros id u. rewrite Hp. apply HI.
  - intros R id. rewrite Hp. by apply HI.
Qed.

Definition put_cell (h : FileHandle) (t : W * HandleState) (s : S3State W) : S3State W :=
  mkS3State t.1 (s3_next_handle s) (s3_handles s) (<[h := t.2]> (s3_cells s)).

Definition without (h : FileHandle) (s : S3State W) : S3State W :=
  mkS3State (s3_store s) (s3_next_handle s) (filter (fun k => k <> h) (s3_handles s)) (s3_cells s).

Lemma open_put_cell s h c t : Open s h c -> forall k c', Open (put_cell h t s) k c' <-> k = h /\ Some t.2 = Some c' \/ k <> h /\ Open s k c'.
Proof.
  intros [Hin Hc] k c'. unfold Open, put_cell. cbn [s3_handles s3_cells]. destruct (decide (k = h)) as [->|Hk].
  - rewrite lookup_insert_eq. naive_solver.
  - rewrite lookup_insert_ne by done. naive_solver.
Qed.

Lemma open_only s h c : Open s h c -> forall c', Open s h c' <-> Some c = Some c'.
Proof. intros [Hin Hc] c'. unfold Open. rewrite Hc. naive_solver. Qed.

Lemma inv_put_cell s h c t : s3_inv s -> Open s h c -> kept (s3_store s) c t -> s3_inv (put_cell h t s).
Proof.
  intros HI Hc Hk. pose proof (open_put_cell s h c t Hc) as Hopen.
  apply (inv_step s (put_cell h t s) h (Some c) (Some t.2)); [done|apply Hk|apply Hk|by apply open_only|done|..].
  - intros c' [= <-]. split; [apply Hk|]. rewrite (kept_released _ _ _ _ _ _ _ Hk). by apply (si_cell s HI h).
  - apply HI.
  - apply HI.
  - intros k Hin. destruct (decide (k = h)) as [->|Hne]; [exists t.2; apply Hopen; by left|].
    destruct (si_open s HI k Hin) as [c' Hc']. exists c'. apply Hopen. by right.
  - intros k c' Hlk Hnot. unfold put_cell in Hlk. cbn [s3_cells] in Hlk. rewrite lookup_insert_ne in Hlk by (intros ->; by apply Hnot, Hc).
    by eapply (si_released s HI).
Qed.

Lemma inv_gone s h c t : s3_inv s -> Open s h c -> ended (s3_store s) c true t -> s3_inv (put_cell h t (without h s)).
Proof.
  intros HI Hc [[HJ Hu] Hr].
  assert (forall k c', Open (put_cell h t (without h s)) k c' <-> k = h /\ None = Some c' \/ k <> h /\ Open s k c') as Hopen.
  { intros k c'. unfold Open, put_cell, without. cbn [s3_handles s3_cells]. rewrite list_elem_of_filter.
    destruct (decide (k = h)) as [->|Hk]; [|rewrite lookup_insert_ne by done]; naive_solver. }
  apply (inv_step s _ h (Some c) None); [done|done|done|by apply open_only|done|done|..].
  - apply NoDup_filter, HI.
  - cbn. apply Forall_forall. intros k [_ Hk]%list_elem_of_filter. by apply (proj1 (Forall_forall _ _) (si_below s HI)).
  - intros k [Hk Hin]%list_elem_of_filter. destruct (si_open s HI k Hin) as [c' Hc']. exists c'. apply Hopen. by right.
  - intros k c' Hk Hnot. unfold put_cell, without in Hk, Hnot. cbn [s3_cells s3_handles] in Hk, Hnot. rewrite list_elem_of_filter in Hnot.
    destruct (decide (k = h)) as [->|Hne]; [rewrite lookup_insert_eq in Hk; by injection Hk as <-|].
    rewrite lookup_insert_ne in Hk by done. eapply (si_released s HI); [exact Hk|tauto].
Qed.
(** ** Methods on handles *)

Lemma wp_with_cell {A} h c (m : ST (W * HandleState) Errno A) s (Q : A -> S3State W -> Prop) (R : Errno -> S3State W -> Prop) :
  s3_cells s !! h = Some c ->
  wp m (s3_store s, c) (fun a t => Q a (put_cell h t s)) (fun e t => R e (put_cell h t s)) -> wp (with_cell h m) s Q R.
Proof.
  intros Hc. unfold wp, with_cell, sbind, sget, slift, expect, sput. rewrite Hc. simpl.
  by destruct (m (s3_store s, c)) as [[] [? ?]].
Qed.

Lemma ends_with_cell {A} h c (m : ST (W * HandleState) Errno A) s (P : S3State W -> Prop) (Q : A -> S3State W -> Prop)
    (R : Errno -> S3State W -> Prop) :
  s3_cells s !! h = Some c ->
  ends (fun t => P (put_cell h t s)) m (s3_store s, c) (fun a t => Q a (put_cell h t s)) (fun e t => R e (put_cell h t s)) ->
  ends P (with_cell h m) s Q R.
Proof.
  intros Hc. unfold ends, with_cell, sbind, sget, slift, expect, sput. rewrite Hc. simpl.
  by destruct (m (s3_store s, c)) as [[] [? ?]].
Qed.

(** A method that works on the cell of a handle of the table, and may panic. *)
Lemma on_handle_ends {A} h (m : ST (W * HandleState) Errno A) s (P : HandleState -> W * HandleState -> Prop)
    (Q : HandleState -> A -> W * HandleState -> Prop) (R : HandleState -> Errno -> W * HandleState -> Prop) :
  s3_inv s ->
  (forall c, Open s h c -> J (s3_store s) -> cell_right (s3_store s) c ->
     ends (fun t => kept (s3_store s) c t /\ P c t) m (s3_store s, c)
       (fun a t => kept (s3_store s) c t /\ Q c a t) (fun e t => kept (s3_store s) c t /\ R c e t)) ->
  ends (fun s' => exists c t, (Open s h c /\ s' = put_cell h t s /\ s3_inv s' /\ kept (s3_store s) c t) /\ P c t)
    (let! cell := handle_state h in with_cell cell m) s
    (fun a s' => exists c t, (Open s h c /\ s' = put_cell h t s /\ s3_inv s' /\ kept (s3_store s) c t) /\ Q c a t)
    (fun e s' => s' = s /\ h ∉ s3_handles s \/
       exists c t, (Open s h c /\ s' = put_cell h t s /\ s3_inv s' /\ kept (s3_store s) c t) /\ R c e t).
Proof.
  intros HI Hm. unfold handle_state. do 4 ends_step; [|by left].
  ends_step. destruct (si_open s HI h) as [c Hc]; [done|]. apply (ends_with_cell h c); [apply Hc|].
  eapply ends_panics; [eapply ends_mono; [by apply (Hm c Hc); [apply HI|apply (si_cell s HI h)]|..]|].
  - intros a t [Hk HQ]. exists c, t. split; [|done]. split; [done|]. split; [done|]. split; [by eapply inv_put_cell|done].
  - intros e t [Hk HR]. right. exists c, t. split; [|done]. split; [done|]. split; [done|]. split; [by eapply inv_put_cell|done].
  - intros t [Hk HP]. exists c, t. split; [|done]. split; [done|]. split; [done|]. split; [by eapply inv_put_cell|done].
Qed.

Lemma on_handle {A} h (m : ST (W * HandleState) Errno A) s (Q : HandleState -> A -> W * HandleState -> Prop)
    (R : HandleState -> Errno -> W * HandleState -> Prop) :
  s3_inv s ->
  (forall c, Open s h c -> J (s3_store s) -> cell_right (s3_store s) c ->
     wp m (s3_store s, c) (fun a t => kept (s3_store s) c t /\ Q c a t) (fun e t => kept (s3_store s) c t /\ R c e t)) ->
  wp (let! cell := handle_state h in with_cell cell m) s
    (fun a s' => exists c t, (Open s h c /\ s' = put_cell h t s /\ s3_inv s' /\ kept (s3_store s) c t) /\ Q c a t)
    (fun e s' => s' = s /\ h ∉ s3_handles s \/
       exists c t, (Open s h c /\ s' = put_cell h t s /\ s3_inv s' /\ kept (s3_store s) c t) /\ R c e t).
Proof.
  intros HI Hm. eapply ends_never; [apply (on_handle_ends h m s (fun _ _ => False) Q R HI)|].
  - intros c Hc HJ Hr. by apply ends_wp, Hm.
  - by intros s' (c & t & _ & []).
Qed.

Lemma method_owned {A} h (m : ST (W * HandleState) Errno A) s :
  s3_owned ((let! cell := handle_state h in with_cell cell m) s).2 = s3_owned s.
Proof.
  apply (leaves_state _ _ (fun s' => s3_owned s' = s3_owned s)). unfold handle_state, with_cell. leaves_steps; done.
Qed.

(** A method that takes the handle out of the table. *)
Lemma on_removed {A} h (m : ST (W * HandleState) Errno A) s (Q : HandleState -> A -> W -> Prop) (R : HandleState -> Errno -> W -> Prop) :
  s3_inv s ->
  (forall c, Open s h c -> J (s3_store s) -> cell_right (s3_store s) c ->
     wp m (s3_store s, c) (fun a t => ended (s3_store s) c true t /\ Q c a t.1) (fun e t => ended (s3_store s) c true t /\ R c e t.1)) ->
  wp (let! cell := remove_handle h in with_cell cell m) s
    (fun a s' => exists c t, (Open s h c /\ s' = put_cell h t (without h s) /\ s3_inv s' /\ ended (s3_store s) c true t) /\ Q c a t.1)
    (fun e s' => s' = s /\ h ∉ s3_handles s \/
       exists c t, (Open s h c /\ s' = put_cell h t (without h s) /\ s3_inv s' /\ ended (s3_store s) c true t) /\ R c e t.1).
Proof.
  intros HI Hm. unfold remove_handle, handle_state. do 5 wp_step.
  - wp_step. destruct (si_open s HI h) as [c Hc]; [done|]. do 4 wp_step. fold (without h s).
    apply (wp_with_cell h c); [apply Hc|].
    eapply wp_mono; [by apply (Hm c Hc); [apply HI|apply (si_cell s HI h)]|..].
    + intros a t [Hk HQ]. exists c, t. split; [|done]. split; [done|]. split; [done|]. split; [by eapply inv_gone|done].
    + intros e t [Hk HR]. right. exists c, t. split; [|done]. split; [done|]. split; [done|]. split; [by eapply inv_gone|done].
  - wp_step. by left.
Qed.

Lemma owned_put_cell h t s : s3_owned (put_cell h t s) = s3_owned s.
Proof. done. Qed.

Lemma owned_without h s : s3_owned (without h s) = s3_owned s ∖ {[h]}.
Proof. apply set_eq. intros k. unfold s3_owned, without. simpl. rewrite elem_of_difference, !elem_of_list_to_set, list_elem_of_filter, elem_of_singleton. tauto. Qed.

Lemma owned_not h s : h ∉ s3_handles s -> s3_owned s = s3_owned s ∖ {[h]}.
Proof. intros H. apply set_eq. intros k. unfold s3_owned. rewrite elem_of_difference, !elem_of_list_to_set, elem_of_singleton. split; [|tauto]. intros Hk. split; [done|congruence]. Qed.

Lemma insert_handle_opens key mode staging s :
  s3_inv s -> cell_right (s3_store s) (mkHandleState key mode staging false) -> cell_upload (mkHandleState key mode staging false) = None ->
  wp (insert_handle key mode staging) s
    (fun h s' => (s3_inv s' /\ (h ∉ s3_owned s) /\ s3_owned s' = {[h]} ∪ s3_owned s)
       /\ s3_store s' = s3_store s /\ forall k c, Open s' k c <-> k = h /\ c = mkHandleState key mode staging false \/ k <> h /\ Open s k c)
    (fun _ s' => s' = s).
Proof.
  intros HI Hr Hu. unfold insert_handle. do 3 wp_step. apply wp_ok_or; [|done]. intros next [-> _]%checked_add_Some. do 3 wp_step.
  set (c := mkHandleState key mode staging false) in *. set (h := s3_next_handle s).
  assert (h ∉ s3_handles s) as Hfresh.
  { intros Hin. apply (proj1 (Forall_forall _ _) (si_below s HI)) in Hin. unfold h in Hin. lia. }
  set (s' := mkS3State _ _ _ _).
  assert (forall k c', Open s' k c' <-> k = h /\ c' = c \/ k <> h /\ Open s k c') as Hopen.
  { intros k c'. unfold Open, s'. cbn [s3_handles s3_cells]. rewrite elem_of_app, list_elem_of_singleton.
    destruct (decide (k = h)) as [->|Hk]; [rewrite lookup_insert_eq|rewrite lookup_insert_ne by done]; naive_solver. }
  split; [split; [|split]|split; [done|done]].
  - apply (inv_step s s' h None (Some c)); [done|apply HI| |split; [by intros [Hin _]|done]| | |..].
    + simpl. rewrite Hu. by apply uploads_same.
    + intros k c'. rewrite Hopen. naive_solver.
    + by intros ? [= <-].
    + unfold s'. cbn [s3_handles]. apply NoDup_app. split; [apply HI|]. split; [|apply NoDup_singleton].
      by intros x Hx ->%list_elem_of_singleton.
    + unfold s'. cbn [s3_next_handle s3_handles]. apply Forall_app. split; [|by repeat constructor; unfold h; lia].
      eapply Forall_impl; [apply HI|]. simpl. unfold h. lia.
    + intros k. unfold s' at 1. cbn [s3_handles]. rewrite elem_of_app, list_elem_of_singleton. intros [Hk|Hk].
      * destruct (si_open s HI k Hk) as [c' Hc']. exists c'. apply Hopen. right. split; [by intros ->|done].
      * exists c. apply Hopen. by left.
    + intros k c' Hk Hnot. unfold s' in Hk, Hnot. cbn [s3_cells s3_handles] in Hk, Hnot. rewrite elem_of_app, list_elem_of_singleton in Hnot.
      rewrite lookup_insert_ne in Hk by naive_solver. eapply (si_released s HI); [exact Hk|tauto].
  - unfold s3_owned. by rewrite elem_of_list_to_set.
  - apply set_eq. intros k. unfold s3_owned, s'. cbn [s3_handles].
    rewrite elem_of_union, elem_of_singleton, !elem_of_list_to_set, elem_of_app, list_elem_of_singleton. tauto.
Qed.

(** ** The laws of a backend *)

Lemma on_store_keeps {A} (m : ST W Errno A) s :
  s3_inv s -> wp m (s3_store s) (fun _ w' => calm pend J (s3_store s) w') (fun _ w' => calm pend J (s3_store s) w') ->
  keeps_fds s3_inv s3_owned (on_s3_store m) s.
Proof.
  intros HI Hm. unfold keeps_fds, wp, on_s3_store in *. destruct (m (s3_store s)) as [[] w']; try done; (split; [by apply inv_calm|done]).
Qed.

Lemma same_on_store {A} (m : ST W Errno A) (Q : A -> W -> Prop) w :
  wp m w (fun a w' => (J w' /\ same w w') /\ Q a w') (fun _ w' => J w' /\ same w w') ->
  wp m w (fun _ w' => calm pend J w w') (fun _ w' => calm pend J w w').
Proof. intros Hm. eapply wp_mono; [exact Hm|intros a w' [[? ?] _]|intros e w' [? ?]]; by apply (same_calm obj). Qed.
(** What a handle opened with [m] starts from, when the object is [o]: the
    contents, the precondition of what closing puts, and whether it puts anything
    even when nothing is written. *)
Definition start_of (m : OpenMode) (o : option (bytes * str)) : bytes * Precondition * bool :=
  match o with
  | Some (d, etag) =>
      if negb (m_write m) then (d, PreNone, false)
      else if m_truncate m then ([], PreMatch etag, true)
      else (d, PreMatch etag, false)
  | None => ([], creation_precondition m, true)
  end.

(** The contents an open handle shows: its key, access and precondition, and
    whether closing puts them. *)
Definition s3_draft (s : S3State W) (h : FileHandle) (k : str) (a : Access) (p : Precondition) (dt : bool) (d : bytes) : Prop :=
  exists c, Open s h c /\ hs_key c = k /\ access_of (hs_mode c) = a /\ lands_under c = p /\ (dt = true -> dirty c = true)
            /\ draft (s3_store s) c d.

Lemma staging_starts w cs mode existing st :
  kind_right v obj w cs (KindFile <$> existing) -> staging_for mode existing = Ok st ->
  let c := mkHandleState (key v cs) mode st false in
  (cell_right w c /\ cell_upload c = None)
  /\ lands_under c = (start_of mode (obj w (key v cs))).1.2 /\ dirty c = (start_of mode (obj w (key v cs))).2
  /\ draft w c (start_of mode (obj w (key v cs))).1.1.
Proof.
  intros Hk Hst. assert (forall p, idle v (stream_new p) /\ exists d, stream_holds v pend w (key v cs) (stream_new p) d) as Hnew.
  { intros p. split; [unfold idle; apply part_size_pos; done|]. exists [], []. done. }
  assert (forall p, stream_holds v pend w (key v cs) (stream_new p) []) as Hnil by (intros p; exists []; done).
  assert (edit_ok v (len ([] : bytes))) as Hedit0 by (right; exact Hedit).
  unfold staging_for in Hst. destruct existing as [f|]; simpl in Hk.
  - destruct Hk as (_ & _ & d & Ho & Hlen). rewrite Ho. simpl start_of.
    destruct (m_write mode) eqn:Hw; simpl negb in *; cbv iota in *; destruct (m_create_new mode); try done;
      [destruct (m_truncate mode), (m_read mode)|]; simpl in Hst; injection Hst as <-; repeat split; try done; simpl; first [apply Hnil|by apply Hnew].
  - destruct Hk as (_ & _ & Ho). rewrite Ho. simpl start_of.
    destruct (m_write mode), (m_create mode), (m_read mode); simpl in Hst; try done; injection Hst as <-; repeat split; try done; simpl; first [apply Hnil|by apply Hnew].
Qed.
(** The objects, and what the handles but [h] show, are as they were. *)
Definition untouched (h : FileHandle) (s s' : S3State W) : Prop :=
  objs_same obj (s3_store s) (s3_store s')
  /\ forall k q a p dt d, k <> h -> s3_draft s k q a p dt d -> s3_draft s' k q a p dt d.

Lemma untouched_step s s' h oc u' :
  s3_inv s -> (forall c, Open s h c <-> oc = Some c) -> uploads_step (oc ≫= cell_upload) u' (s3_store s) (s3_store s') ->
  objs_same obj (s3_store s) (s3_store s') -> (forall k c, k <> h -> Open s k c -> Open s' k c) -> untouched h s s'.
Proof.
  intros HI Hoc Hu Ho Hopen. split; [done|]. intros k q a p dt d Hk (c & Hc & Hq & Ha & Hp & Hdt & Hd). exists c.
  split; [by apply Hopen|]. do 4 (split; [done|]). eapply draft_own; [exact Ho| |exact Hd].
  intros id Hid. exact (others_pend s h oc _ _ k c id HI Hoc Hu Hk Hc Hid).
Qed.

Lemma s3_open_drafts path mode s :
  s3_inv s ->
  wp (s3_open v pages path mode) s
    (fun h s' => (s3_inv s' /\ (h ∉ s3_owned s) /\ s3_owned s' = {[h]} ∪ s3_owned s) /\ untouched h s s'
       /\ exists cs, normalize_path path = Ok cs /\
          let '(d, p, dt) := start_of mode (obj (s3_store s) (key v cs)) in s3_draft s' h (key v cs) (access_of mode) p dt d)
    (fun _ s' => (s3_inv s' /\ s3_owned s' = s3_owned s) /\ objs_same obj (s3_store s) (s3_store s')).
Proof.
  intros HI. unfold s3_open. wp_step.
  pose proof (open_target_keeps v pages obj pend rest J Hpages path mode (s3_store s) (si_store s HI)) as Ht.
  unfold wp at 1. unfold on_s3_store. unfold wp in Ht.
  destruct (open_target v pages path mode (s3_store s)) as [[[k st]|e| |] w1]; [..|done|done].
  2: { destruct Ht as [HJ1 Hs1]. split; [split; [by apply inv_calm, (same_calm obj)|done]|apply Hs1]. }
  destruct Ht as ([HJ1 Hs1] & cs & existing & Hcs & Hkey & Hkind & Hst). cbn [fst snd] in *. subst k.
  set (s1 := mkS3State w1 _ _ _). assert (s3_inv s1) as HI1 by (by apply inv_calm, (same_calm obj)).
  destruct (staging_starts _ _ _ _ _ Hkind Hst) as ([Hr Hu] & Hp & Hdt & Hd). cbv zeta in *.
  set (c := mkHandleState (key v cs) mode st false) in *.
  assert (cell_right w1 c) as Hr1 by (eapply cell_right_same; [apply Hs1|exact Hr]).
  eapply wp_mono; [by apply insert_handle_opens| |].
  - intros h s' (Hown & Hst' & Hopen). split; [exact Hown|]. split.
    + destruct Hown as (_ & Hfresh & _). apply (untouched_step s s' h None None HI); [|..].
      * intros c'. split; [|done]. intros [Hin _]. destruct Hfresh. unfold s3_owned. by rewrite elem_of_list_to_set.
      * rewrite Hst'. by apply uploads_same, Hs1.
      * rewrite Hst'. apply Hs1.
      * intros k c' Hk Hc. apply Hopen. by right.
    + exists cs. split; [done|]. destruct (start_of mode (obj (s3_store s) (key v cs))) as [[d p] dt]. cbn [fst snd] in *.
      exists c. split; [apply Hopen; by left|]. do 3 (split; [done|]). split; [congruence|]. rewrite Hst'. by eapply draft_same.
  - intros e s' ->. split; [split; done|apply Hs1].
Qed.

Lemma draft_fun w c d d' : draft w c d -> draft w c d' -> d = d'.
Proof.
  unfold S3Handles.draft, buffer_draft, revision. destruct (hs_staging c) as [f|b|x|e]; [| | |done].
  - intros [H1 _] [H2 _]. congruence.
  - destruct (bf_bytes b), (bf_source b); try congruence; intros [H1 _] [H2 _]; congruence.
  - apply holds_fun.
Qed.

(** What a method on a handle leaves of the others. *)
Lemma kept_untouched s h c t : s3_inv s -> Open s h c -> kept (s3_store s) c t -> untouched h s (put_cell h t s).
Proof.
  intros HI Hc Hk. apply (untouched_step s (put_cell h t s) h (Some c) _ HI (open_only s h c Hc) (kept_uploads _ _ _ _ _ _ _ Hk)); [apply Hk|].
  intros k c' Hne Hk'. apply (open_put_cell s h c t Hc). by right.
Qed.

Lemma gone_untouched s h c t :
  s3_inv s -> Open s h c -> gone (s3_store s) c t.1 -> objs_same obj (s3_store s) t.1 -> untouched h s (put_cell h t (without h s)).
Proof.
  intros HI Hc [_ Hu] Ho. apply (untouched_step s (put_cell h t (without h s)) h (Some c) _ HI (open_only s h c Hc) Hu Ho).
  intros k c' Hne [Hin Hk']. split; [by apply list_elem_of_filter|]. unfold put_cell. cbn [s3_cells]. by rewrite lookup_insert_ne.
Qed.

Lemma kept_draft s h c t k a p dt d :
  Open s h c -> kept (s3_store s) c t -> draft t.1 t.2 d ->
  hs_key c = k -> access_of (hs_mode c) = a -> lands_under c = p -> (dt = true -> dirty c = true) ->
  s3_draft (put_cell h t s) h k a p dt d.
Proof.
  intros Hc Hk Hd <- <- <- Hdt. exists t.2. split; [apply (open_put_cell s h c t Hc); by left|].
  assert (failed t.2 = false) as Hf by (unfold S3Handles.draft, failed in *; by destruct (hs_staging t.2)).
  split; [apply Hk|]. split; [by rewrite (kept_mode _ _ _ _ _ _ _ Hk)|].
  split; [by destruct (kept_precondition _ _ _ _ _ _ _ Hk) as [E|E]; [congruence|]|]. split; [|done].
  intros E. destruct (kept_dirty _ _ _ _ _ _ _ Hk (Hdt E)); [congruence|done].
Qed.
(** ** The filesystem is a backend *)

Lemma handle_keeps_fds {A} h (m : ST (W * HandleState) Errno A) s (Q : A -> Prop) :
  s3_inv s ->
  (forall c, J (s3_store s) -> cell_right (s3_store s) c ->
     wp m (s3_store s, c) (fun a t => kept (s3_store s) c t /\ Q a) (fun _ t => kept (s3_store s) c t)) ->
  wp (let! cell := handle_state h in with_cell cell m) s
    (fun a s' => (s3_inv s' /\ s3_owned s' = s3_owned s) /\ Q a) (fun _ s' => s3_inv s' /\ s3_owned s' = s3_owned s).
Proof.
  intros HI Hm. eapply wp_mono; [apply (on_handle h m s (fun _ a _ => Q a) (fun _ _ _ => True) HI)|..].
  - intros c Hc HJ Hr. eapply wp_mono; [by apply Hm|done|]. intros e t Hk. by split.
  - intros a s' (c & t & (Hc & -> & HI' & _) & HQ). done.
  - intros e s' [[-> _]|(c & t & (Hc & -> & HI' & _) & _)]; done.
Qed.

Lemma removed_loses_fd {A} h (m : ST (W * HandleState) Errno A) s :
  s3_inv s ->
  (forall c, J (s3_store s) -> cell_right (s3_store s) c ->
     wp m (s3_store s, c) (fun _ t => ended (s3_store s) c true t) (fun _ t => ended (s3_store s) c true t)) ->
  wp (let! cell := remove_handle h in with_cell cell m) s
    (fun _ s' => s3_inv s' /\ s3_owned s' = s3_owned s ∖ {[h]}) (fun _ s' => s3_inv s' /\ s3_owned s' = s3_owned s ∖ {[h]}).
Proof.
  intros HI Hm. eapply wp_mono; [apply (on_removed h m s (fun _ _ _ => True) (fun _ _ _ => True) HI)|..].
  - intros c Hc HJ Hr. eapply wp_mono; [by apply Hm|..]; by split.
  - intros a s' (c & t & (Hc & -> & HI' & _) & _). split; [done|]. rewrite owned_put_cell. apply owned_without.
  - intros e s' [[-> Hn]|(c & t & (Hc & -> & HI' & _) & _)]; (split; [done|]); [by apply owned_not|].
    rewrite owned_put_cell. apply owned_without.
Qed.

Section on_paths.
Context (s : S3State W) (HI : s3_inv s).

Lemma store_stat p : keeps_fds s3_inv s3_owned (on_s3_store (s3_stat v pages p)) s.
Proof. apply on_store_keeps; [done|]. eapply same_on_store. apply (s3_stat_right v pages obj pend rest J Hpages), HI. Qed.
Lemma store_readdir p : keeps_fds s3_inv s3_owned (on_s3_store (s3_readdir v pages p)) s.
Proof. apply on_store_keeps; [done|]. eapply same_on_store. apply (s3_readdir_right v pages obj pend rest J Hpages), HI. Qed.
Lemma store_mkdir p : keeps_fds s3_inv s3_owned (on_s3_store (s3_mkdir v pages p)) s.
Proof. apply on_store_keeps; [done|]. apply (keeps_mkdir v pages obj pend rest J Hpages), HI. Qed.
Lemma store_rename a b : keeps_fds s3_inv s3_owned (on_s3_store (s3_rename v pages a b)) s.
Proof. apply on_store_keeps; [done|]. apply (keeps_rename v pages obj pend rest J Hpages), HI. Qed.
Lemma store_unlink p : keeps_fds s3_inv s3_owned (on_s3_store (s3_unlink v pages p)) s.
Proof.
  apply on_store_keeps; [done|].
  eapply wp_mono; [apply (s3_unlink_removes v pages obj pend rest J Hpages), HI|by intros ? ? [? _]|done].
Qed.
Lemma store_rmdir p : keeps_fds s3_inv s3_owned (on_s3_store (s3_rmdir v pages p)) s.
Proof. apply on_store_keeps; [done|]. apply (keeps_rmdir v pages obj pend rest J Hpages), HI. Qed.

Lemma close_loses_fd h :
  wp (s3_close v h) s
    (fun _ s' => s3_inv s' /\ s3_owned s' = s3_owned s ∖ {[h]}) (fun _ s' => s3_inv s' /\ s3_owned s' = s3_owned s ∖ {[h]}).
Proof.
  apply removed_loses_fd; [done|]. intros c HJ Hr.
  eapply wp_mono; [by apply (close_cell_lands v obj pend rest J)|by intros ? ? [? _]|by intros ? ? [? _]].
Qed.
Lemma abort_loses_fd h :
  wp (s3_abort v h) s
    (fun _ s' => s3_inv s' /\ s3_owned s' = s3_owned s ∖ {[h]}) (fun _ s' => s3_inv s' /\ s3_owned s' = s3_owned s ∖ {[h]}).
Proof.
  apply removed_loses_fd; [done|]. intros c HJ _.
  eapply wp_mono; [by apply (abort_cell_leaves v obj pend rest J)|by intros ? ? [? _]|by intros ? ? [? _]].
Qed.
End on_paths.

Lemma s3_laws : edits_limited v -> FdLaws s3_inv (fun _ => True) s3_owned (s3_vfs v pages).
Proof.
  intros Hlim. constructor; cbn [s3_vfs v_stat v_readdir v_mkdir v_rename v_unlink v_rmdir v_open v_read_at v_write_at v_truncate v_close v_abort].
  - intros p s HI. by apply store_stat.
  - intros p s HI. by apply store_readdir.
  - intros p s HI. by apply store_mkdir.
  - intros a b s HI. by apply store_rename.
  - intros p s HI. by apply store_unlink.
  - intros p s HI. by apply store_rmdir.
  - intros p m s HI _. eapply wp_mono; [by apply s3_open_drafts|by intros ? ? [? _]|by intros ? ? [? _]].
  - intros h o b s HI. apply handle_keeps_fds; [done|]. intros c HJ Hr.
    eapply wp_mono; [by apply (read_resolved_reads v obj pend rest J Hpart Hedit)|by intros ? ? [? _]|by intros ? ? [? _]].
  - intros h o b s HI. apply handle_keeps_fds; [done|]. intros c HJ Hr.
    eapply wp_mono; [eapply ends_never; [by apply (write_resolved_writes v obj pend rest J Hpart Hedit)|intros t; by apply stuck_limited]
      | |by intros ? ? [? _]].
    intros n t [(Hk & -> & _) _]. split; [done|]. apply len_nonneg.
  - intros h n s HI. eapply wp_mono; [apply (handle_keeps_fds h _ s (fun _ => True) HI)|by intros ? ? [? _]|done]. intros c HJ Hr.
    eapply wp_mono; [eapply ends_never; [by apply (truncate_resolved_cuts v obj pend rest J Hpart Hedit)|intros t; by apply stuck_limited]
      |by intros ? ? [[? _] _]|by intros ? ? [? _]].
  - intros h s HI. by apply close_loses_fd.
  - intros h s HI. by apply abort_loses_fd.
Qed.

(** Opening a file needs no room. *)
Lemma s3_rooms : edits_limited v -> RoomLaws s3_inv (fun _ => True) (fun _ _ => True) (s3_vfs v pages).
Proof.
  intros Hlim. pose proof (s3_laws Hlim). constructor; try done; intros;
    (eapply wp_mono; [by first [apply s3_laws|apply (fd_open _ _ _ _ _ _ _ H)]|done..]).
Qed.

(** ** Drafts *)

(** The handle is open and has given up what it staged. *)
Definition s3_failed (s : S3State W) (h : FileHandle) (e : Errno) : Prop := exists c, Open s h c /\ hs_staging c = Failed e.

Section draft.
Context (s : S3State W) (h : FileHandle) (k : str) (a : Access) (p : Precondition) (dt : bool) (d : bytes).
Context (HI : s3_inv s) (Hd : s3_draft s h k a p dt d).

Abbreviation still := (fun s' : S3State W => s3_draft s' h k a p dt d).

(** The cell of the handle. *)
Lemma draft_cell c : Open s h c ->
  hs_key c = k /\ access_of (hs_mode c) = a /\ lands_under c = p /\ (dt = true -> dirty c = true) /\ draft (s3_store s) c d.
Proof. destruct Hd as (c' & [Hin Hc'] & Hrest). intros [_ Hc]. by assert (c' = c) as -> by congruence. Qed.

Lemma draft_handle : h ∈ s3_handles s.
Proof. by destruct Hd as (c & [Hin _] & _). Qed.

Lemma s3_read_shows offset buf :
  0 <= offset ->
  wp (s3_read_at v h offset buf) s
    (fun r s' => (s3_inv s' /\ untouched h s s' /\ still s') /\ r = read_result d offset buf)
    (fun _ s' => s3_inv s' /\ untouched h s s' /\ still s').
Proof.
  intros Ho. pose proof draft_handle as Hin. unfold s3_read_at.
  eapply wp_mono; [apply (on_handle h _ s (fun c r t => forall d, draft (s3_store s) c d -> draft t.1 t.2 d /\ (0 <= offset -> r = read_result d offset buf))
    (fun c _ t => forall d, draft (s3_store s) c d -> draft t.1 t.2 d) HI)|..].
  - intros c Hc HJ Hr. eapply wp_mono; [by apply (read_resolved_reads v obj pend rest J Hpart Hedit)| |done]. intros r t [[Hk _] H]. done.
  - intros r s' (c & t & (Hc & -> & HI' & Hk) & H). destruct (draft_cell c Hc) as (H1 & H2 & H3 & H4 & H5).
    destruct (H d H5) as [H6 H7]. split; [|by apply H7]. split; [done|]. split; [by apply (kept_untouched s h c)|by apply (kept_draft s h c)].
  - intros e s' [[-> Hn]|(c & t & (Hc & -> & HI' & Hk) & H)]; [done|]. destruct (draft_cell c Hc) as (H1 & H2 & H3 & H4 & H5).
    split; [done|]. split; [by apply (kept_untouched s h c)|apply (kept_draft s h c); try done; by apply H].
Qed.

(** After a method that may change the draft, or give it up. *)
Abbreviation failed_or_still := (fun (e : Errno) (s' : S3State W) => s3_inv s' /\ untouched h s s' /\ (s3_failed s' h e \/ still s')).

Lemma changed_error e s' :
  (s' = s /\ h ∉ s3_handles s \/
   exists c t, (Open s h c /\ s' = put_cell h t s /\ s3_inv s' /\ kept (s3_store s) c t)
     /\ (hs_staging t.2 = Failed e \/ forall d, draft (s3_store s) c d -> draft t.1 t.2 d)) -> failed_or_still e s'.
Proof.
  pose proof draft_handle as Hin. intros [[-> Hn]|(c & t & (Hc & -> & HI' & Hk) & H)]; [done|].
  destruct (draft_cell c Hc) as (H1 & H2 & H3 & H4 & H5). split; [done|]. split; [by apply (kept_untouched s h c)|].
  destruct H as [H|H]; [left|right; apply (kept_draft s h c); try done; by apply H].
  exists t.2. split; [apply (open_put_cell s h c t Hc); by left|done].
Qed.

Lemma kept_changed c t d' (real : bool) :
  Open s h c -> kept (s3_store s) c t -> draft t.1 t.2 d' -> (real = true -> dirty t.2 = true) ->
  s3_draft (put_cell h t s) h k a p (dt || real) d'.
Proof.
  intros Hc Hk Hd' Hr. destruct (draft_cell c Hc) as (H1 & H2 & H3 & H4 & _).
  destruct (kept_draft s h c t k a p false d' Hc Hk Hd' H1 H2 H3) as (c' & Hc' & R1 & R2 & R3 & _ & R4); [done|].
  exists c'. do 4 (split; [done|]). split; [|done].
  apply (open_put_cell s h c t Hc) in Hc' as [[_ [= <-]]|[? _]]; [|done]. intros [E|E]%orb_true_iff; [|by apply Hr].
  assert (failed t.2 = false) as Hf by (unfold S3Handles.draft, failed in *; by destruct (hs_staging t.2)).
  destruct (kept_dirty _ _ _ _ _ _ _ Hk (H4 E)); [congruence|done].
Qed.

(** After a method that panicked: all is as it was, and the draft was to become longer
    than a vector can be. *)
Abbreviation panicked := (fun (stop : Z) (s' : S3State W) => s3_inv s' /\ untouched h s s' /\ still s' /\ overlong_edit v d stop).

Lemma stuck_still (stop : HandleState -> bytes -> Z) (n : Z) s' :
  (forall c, access_of (hs_mode c) = a -> stop c d = n) ->
  (exists c t, (Open s h c /\ s' = put_cell h t s /\ s3_inv s' /\ kept (s3_store s) c t)
     /\ stuck_cell v obj pend J (s3_store s) c (stop c) t) -> panicked n s'.
Proof.
  intros Hn (c & t & (Hc & -> & HI' & Hk) & _ & Hdr & d0 & Hlong & Hd0). destruct (draft_cell c Hc) as (H1 & H2 & H3 & H4 & H5).
  rewrite <- (Hd0 d H5), (Hn c H2) in Hlong.
  split; [done|]. split; [by apply (kept_untouched s h c)|]. split; [|done]. apply (kept_draft s h c); auto.
Qed.

Lemma s3_write_changes offset new :
  ends (panicked (write_stop (a_append a) offset new d)) (s3_write_at v h offset new) s
    (fun n s' => s3_inv s' /\ untouched h s s' /\ n = len new
       /\ s3_draft s' h k a p (dt || negb (bool_decide (new = []))) (write_result d a offset new)) failed_or_still.
Proof.
  unfold s3_write_at. eapply ends_panics; [eapply ends_mono; [apply (on_handle_ends h _ s
    (fun c => stuck_cell v obj pend J (s3_store s) c (write_stop (m_append (hs_mode c)) offset new)) (fun c n t => (n = len new /\ (new <> [] -> dirty t.2 = true)) /\ forall d, draft (s3_store s) c d ->
       draft t.1 t.2 (write_result d (access_of (hs_mode c)) offset new))
    (fun c e t => hs_staging t.2 = Failed e \/ forall d, draft (s3_store s) c d -> draft t.1 t.2 d) HI)|..|exact changed_error]
    |intros s'; apply (stuck_still (fun c => write_stop (m_append (hs_mode c)) offset new)); by intros c <-].
  - intros c Hc HJ Hr. eapply ends_panics; [eapply ends_mono; [by apply (write_resolved_writes v obj pend rest J Hpart Hedit)| |done]|].
    + intros r t [[Hk Hn] H]. done.
    + intros t Ht. split; [apply Ht|done].
  - intros n s' (c & t & (Hc & -> & HI' & Hk) & [-> Hdt] & H). destruct (draft_cell c Hc) as (_ & H2 & _ & _ & H5).
    specialize (H d H5). rewrite H2 in H. split; [done|]. split; [by apply (kept_untouched s h c)|]. split; [done|].
    apply (kept_changed c); [done..|]. intros Hnew. apply Hdt. by apply negb_true_iff, bool_decide_eq_false in Hnew.
Qed.

Lemma s3_truncate_cuts n :
  ends (panicked n) (s3_truncate v h n) s
    (fun _ s' => s3_inv s' /\ untouched h s s' /\ s3_draft s' h k a p true (resize d n)) failed_or_still.
Proof.
  unfold s3_truncate. eapply ends_panics; [eapply ends_mono; [apply (on_handle_ends h _ s
    (fun c => stuck_cell v obj pend J (s3_store s) c (fun _ => n)) (fun c _ t => dirty t.2 = true /\ forall d, draft (s3_store s) c d -> draft t.1 t.2 (resize d n))
    (fun c e t => hs_staging t.2 = Failed e \/ forall d, draft (s3_store s) c d -> draft t.1 t.2 d) HI)|..|exact changed_error]
    |intros s'; by apply (stuck_still (fun _ _ => n))].
  - intros c Hc HJ Hr. eapply ends_panics; [eapply ends_mono; [by apply (truncate_resolved_cuts v obj pend rest J Hpart Hedit)| |done]|].
    + intros r t [[Hk Hn] H]. done.
    + intros t Ht. split; [apply Ht|done].
  - intros _ s' (c & t & (Hc & -> & HI' & Hk) & Hdt & H). destruct (draft_cell c Hc) as (_ & _ & _ & _ & H5).
    split; [done|]. split; [by apply (kept_untouched s h c)|]. rewrite <- (orb_true_r dt). apply (kept_changed c); auto.
Qed.

(** What closing did: the object is the draft now, or no object changed. *)
Definition s3_landed (s s' : S3State W) : Prop := published v obj k p d (s3_store s) (s3_store s').

Lemma s3_close_lands :
  wp (s3_close v h) s
    (fun _ s' => (s3_inv s' /\ s3_owned s' = s3_owned s ∖ {[h]})
       /\ (s3_landed s s' \/ dt = false /\ objs_same obj (s3_store s) (s3_store s')))
    (fun e s' => (s3_inv s' /\ s3_owned s' = s3_owned s ∖ {[h]})
       /\ (objs_same obj (s3_store s) (s3_store s') \/ e = EIO /\ s3_landed s s')).
Proof.
  unfold s3_close.
  eapply wp_mono; [apply (on_removed h _ s (fun c _ w' => if dirty c then lands (s3_store s) c w' else objs_same obj (s3_store s) w')
    (fun c e w' => objs_same obj (s3_store s) w' \/ e = EIO /\ lands (s3_store s) c w') HI)|..].
  - intros c Hc HJ Hr. eapply wp_mono; [by apply (close_cell_lands v obj pend rest J)|..].
    + intros _ t (Hg & _ & H). done.
    + intros e t (Hg & _ & [H|(-> & _ & H)]); split; [done|by left|done|by right].
  - intros _ s' (c & t & (Hc & -> & HI' & _) & H). destruct (draft_cell c Hc) as (H1 & _ & H3 & H4 & H5).
    split; [split; [done|rewrite owned_put_cell; apply owned_without]|].
    destruct (dirty c) eqn:Hdt; [left|right].
    + destruct H as (d' & Hd' & Hpub). rewrite H1, H3 in Hpub. assert (d' = d) as -> by by eapply draft_fun. exact Hpub.
    + split; [|exact H]. apply not_true_is_false. intros E. by specialize (H4 E).
  - intros e s' [[-> Hn]|(c & t & (Hc & -> & HI' & _) & H)]; [by pose proof draft_handle|].
    destruct (draft_cell c Hc) as (H1 & _ & H3 & _ & H5).
    split; [split; [done|rewrite owned_put_cell; apply owned_without]|]. destruct H as [H|(-> & d' & Hd' & Hpub)]; [by left|right].
    rewrite H1, H3 in Hpub. split; [done|]. assert (d' = d) as -> by by eapply draft_fun. exact Hpub.
Qed.
End draft.

(** ** Failure is final *)

(** A method that refuses the cell of the handle changes nothing. *)
Lemma refused {A} h c (m : ST (W * HandleState) Errno A) s (e : Errno) :
  Open s h c -> m (s3_store s, c) = (Err e, (s3_store s, c)) -> (let! cell := handle_state h in with_cell cell m) s = (Err e, s).
Proof.
  intros [Hin Hc] Hm. unfold sbind, handle_state, sget. cbn. rewrite bool_decide_true by done. unfold with_cell, sbind, sget, slift, sret, expect, sput.
  rewrite Hc. cbn. rewrite Hm. cbn. rewrite insert_id by done. by destruct s.
Qed.

Lemma failed_is_final s h e :
  s3_inv s -> s3_failed s h e ->
  (forall offset buf, exists e', s3_read_at v h offset buf s = (Err e', s))
  /\ (forall offset new, exists e', s3_write_at v h offset new s = (Err e', s))
  /\ (forall n, exists e', s3_truncate v h n s = (Err e', s))
  /\ wp (s3_close v h) s (fun _ _ => False) (fun e' s' => e' = e /\ s3_owned s' = s3_owned s ∖ {[h]} /\ objs_same obj (s3_store s) (s3_store s')).
Proof.
  intros HI (c & Hc & Hs). destruct (si_cell s HI h c Hc) as [_ Hrel]. split; [|split; [|split]].
  - intros offset buf. exists EBADF. apply (refused h c); [done|]. unfold read_resolved, sbind, sget. cbn. rewrite Hrel, Hs. by destruct (negb _).
  - intros offset new. destruct (m_write (hs_mode c)) eqn:Hw; [exists e|exists EBADF]; (apply (refused h c); [done|]);
      unfold write_resolved, sbind, sget; cbn; by rewrite Hrel, Hw, ?Hs.
  - intros n. destruct (m_write (hs_mode c)) eqn:Hw; [exists e|exists EINVAL]; (apply (refused h c); [done|]);
      unfold truncate_resolved, sbind, sget; cbn; by rewrite Hrel, Hw, ?Hs.
  - unfold s3_close. eapply wp_mono; [apply (on_removed h _ s (fun _ _ _ => False) (fun _ e' w' => e' = e /\ objs_same obj (s3_store s) w') HI)|..].
    + intros c' Hc' HJ Hr. assert (c' = c) as -> by (destruct Hc, Hc'; congruence).
      eapply wp_mono; [by apply (close_cell_lands v obj pend rest J)|..].
      * intros _ t (_ & Hf & _). unfold failed in Hf. by rewrite Hs in Hf.
      * intros e' t (Hend & He & Hcase). rewrite (He e Hs). split; [done|]. split; [done|].
        destruct Hcase as [|(_ & Hd & _)]; [done|]. unfold dirty in Hd. by rewrite Hs in Hd.
    + by intros _ s' (c' & t & _ & []).
    + intros e' s' [[-> Hn]|(c' & t & (_ & -> & _ & _) & -> & Ho)]; [by destruct Hc|]. split; [done|].
      split; [rewrite owned_put_cell; apply owned_without|done].
Qed.

(** Aborting a handle discards what it staged. *)
Lemma abort_discards s h :
  s3_inv s -> h ∈ s3_handles s ->
  wp (s3_abort v h) s
    (fun _ s' => s3_owned s' = s3_owned s ∖ {[h]} /\ untouched h s s') (fun _ s' => s3_owned s' = s3_owned s ∖ {[h]} /\ untouched h s s').
Proof.
  intros HI Hin. unfold s3_abort.
  eapply wp_mono; [apply (on_removed h _ s (fun _ _ w' => objs_same obj (s3_store s) w') (fun _ _ w' => objs_same obj (s3_store s) w') HI)|..].
  - intros c Hc HJ Hr. by apply (abort_cell_leaves v obj pend rest J).
  - intros _ s' (c & t & (Hc & -> & _ & [Hg _]) & Ho). split; [rewrite owned_put_cell; apply owned_without|by apply (gone_untouched s h c)].
  - intros e s' [[-> Hn]|(c & t & (Hc & -> & _ & [Hg _]) & Ho)]; [done|].
    split; [rewrite owned_put_cell; apply owned_without|by apply (gone_untouched s h c)].
Qed.

(** ** From open to close *)

Inductive Edit := EditWrite (offset : Z) (new : bytes) | EditTruncate (n : Z).

Definition run_edit (h : FileHandle) (e : Edit) : ST (S3State W) Errno unit :=
  match e with
  | EditWrite offset new => let! _ := s3_write_at v h offset new in sret tt
  | EditTruncate n => s3_truncate v h n
  end.

Fixpoint run_edits (h : FileHandle) (es : list Edit) : ST (S3State W) Errno unit :=
  match es with [] => sret tt | e :: es => let! _ := run_edit h e in run_edits h es end.

Definition edited1 (a : Access) (d : bytes) (e : Edit) : bytes :=
  match e with EditWrite offset new => write_result d a offset new | EditTruncate n => resize d n end.
Definition edited (a : Access) (d : bytes) (es : list Edit) : bytes := foldl (edited1 a) d es.

Definition edit_changes (e : Edit) : bool :=
  match e with EditWrite _ new => negb (bool_decide (new = [])) | EditTruncate _ => true end.

Lemma untouched_trans h s1 s2 s3 : untouched h s1 s2 -> untouched h s2 s3 -> untouched h s1 s3.
Proof. intros [O1 D1] [O2 D2]. split; [intros k; by rewrite O2, O1|]. eauto. Qed.

Lemma untouched_refl h s : untouched h s s.
Proof. by split. Qed.

(** Where an edit ends, and edits of which one panics. *)
Definition edit_stop (a : Access) (d : bytes) (e : Edit) : Z :=
  match e with EditWrite offset new => write_stop (a_append a) offset new d | EditTruncate n => n end.

Definition edits_overlong (a : Access) (d : bytes) (es : list Edit) : Prop :=
  exists es1 e es2, es = es1 ++ e :: es2 /\ overlong_edit v (edited a d es1) (edit_stop a (edited a d es1) e).

Lemma run_edit_changes s h k a p dt d e :
  s3_inv s -> s3_draft s h k a p dt d ->
  ends (fun s' => (s3_inv s' /\ untouched h s s') /\ overlong_edit v d (edit_stop a d e)) (run_edit h e) s
    (fun _ s' => (s3_inv s' /\ s3_owned s' = s3_owned s) /\ untouched h s s' /\ s3_draft s' h k a p (dt || edit_changes e) (edited1 a d e))
    (fun _ s' => (s3_inv s' /\ s3_owned s' = s3_owned s) /\ untouched h s s').
Proof.
  intros HI Hd. destruct e as [offset new|n]; simpl.
  - ends_step. eapply ends_panics; [eapply ends_mono; [exact (ends_state _ _ _ _ (fun s' => s3_owned s' = s3_owned s)
      (s3_write_changes s h k a p dt d HI Hd offset new) (method_owned _ _ _))|..]|].
    + intros n s' ((HI' & Hu & _ & Hd') & Ho). by ends_step.
    + intros e s' ((HI' & Hu & _) & Ho). done.
    + intros s' ((HI' & Hu & _ & Hlong) & _). done.
  - eapply ends_panics; [eapply ends_mono; [exact (ends_state _ _ _ _ (fun s' => s3_owned s' = s3_owned s)
      (s3_truncate_cuts s h k a p dt d HI Hd n) (method_owned _ _ _))|..]|].
    + intros [] s' ((HI' & Hu & Hd') & Ho). by rewrite orb_true_r.
    + intros e s' ((HI' & Hu & _) & Ho). done.
    + intros s' ((HI' & Hu & _ & Hlong) & _). done.
Qed.

Lemma run_edits_change es s h k a p dt d :
  s3_inv s -> s3_draft s h k a p dt d ->
  ends (fun s' => (s3_inv s' /\ untouched h s s') /\ edits_overlong a d es) (run_edits h es) s
    (fun _ s' => (s3_inv s' /\ s3_owned s' = s3_owned s) /\ untouched h s s'
       /\ s3_draft s' h k a p (dt || existsb edit_changes es) (edited a d es))
    (fun _ s' => (s3_inv s' /\ s3_owned s' = s3_owned s) /\ untouched h s s').
Proof.
  revert s dt d. induction es as [|e es IH]; intros s dt d HI Hd; simpl.
  { ends_step. split; [done|]. split; [apply untouched_refl|]. by rewrite orb_false_r. }
  ends_step. eapply ends_panics; [eapply ends_mono; [exact (run_edit_changes s h k a p dt d e HI Hd)| |done]|].
  2: { intros s' [H Hlong]. split; [done|]. by exists [], e, es. }
  intros _ s1 ([HI1 Ho1] & Hu1 & Hd1). rewrite orb_assoc.
  eapply ends_panics; [eapply ends_mono; [exact (IH s1 _ _ HI1 Hd1)|..]|].
  - intros _ s2 ([HI2 Ho2] & Hu2 & Hd2). split; [by rewrite Ho2|]. split; [by eapply untouched_trans|done].
  - intros e' s2 ([HI2 Ho2] & Hu2). split; [by rewrite Ho2|]. by eapply untouched_trans.
  - intros s2 ([HI2 Hu2] & es1 & e' & es2 & -> & Hlong). split; [split; [done|by eapply untouched_trans]|]. by exists (e :: es1), e', es2.
Qed.

(** Opening a path, changing the file and closing it. *)
Definition edit_session (path : str) (mode : OpenMode) (es : list Edit) : ST (S3State W) Errno unit :=
  let! h := s3_open v pages path mode in let! _ := run_edits h es in s3_close v h.

(** The object the session aims at became what the edits make of what was there. *)
Definition session_lands (path : str) (mode : OpenMode) (es : list Edit) (w w' : W) : Prop :=
  exists cs, normalize_path path = Ok cs /\
    let '(d, p, _) := start_of mode (obj w (key v cs)) in published v obj (key v cs) p (edited (access_of mode) d es) w w'.

Lemma published_before k p d w w1 w2 : objs_same obj w w1 -> published v obj k p d w1 w2 -> published v obj k p d w w2.
Proof. intros Ho [Hs Hland]. split; [by eapply satisfied_same|by eapply landed_same_l]. Qed.

(** A session that has an edit which makes the body longer than a vector can be. *)
Definition session_overlong (path : str) (mode : OpenMode) (es : list Edit) (w : W) : Prop :=
  exists cs, normalize_path path = Ok cs /\
    let '(d, _, _) := start_of mode (obj w (key v cs)) in edits_overlong (access_of mode) d es.

Lemma edit_session_lands path mode es s :
  s3_inv s ->
  ends (fun s' => (s3_inv s' /\ objs_same obj (s3_store s) (s3_store s')) /\ session_overlong path mode es (s3_store s))
    (edit_session path mode es) s
    (fun _ s' => (s3_inv s' /\ s3_owned s' = s3_owned s)
       /\ (session_lands path mode es (s3_store s) (s3_store s')
           \/ existsb edit_changes es = false /\ objs_same obj (s3_store s) (s3_store s')))
    (fun e s' => s3_inv s'
       /\ (objs_same obj (s3_store s) (s3_store s') \/ e = EIO /\ session_lands path mode es (s3_store s) (s3_store s'))).
Proof.
  intros HI. unfold edit_session. ends_step. apply ends_wp.
  eapply wp_mono; [by apply s3_open_drafts| |intros e s' [[? _] ?]; split; [done|by left]].
  intros h s1 ((HI1 & Hfresh & Hown1) & [Ho1 _] & cs & Hcs & Hd1).
  destruct (start_of mode (obj (s3_store s) (key v cs))) as [[d p] dt] eqn:Hstart.
  ends_step. eapply ends_panics; [eapply ends_mono; [exact (run_edits_change es s1 h _ _ _ _ _ HI1 Hd1)|..]|].
  2: { intros e s2 ([HI2 _] & [Ho2 _]). split; [done|]. left. intros k. by rewrite Ho2, Ho1. }
  2: { intros s2 ([HI2 [Ho2 _]] & Hlong). split; [split; [done|intros k; by rewrite Ho2, Ho1]|]. exists cs. split; [done|]. by rewrite Hstart. }
  intros _ s2 ([HI2 Hown2] & [Ho2 _] & Hd2).
  assert (objs_same obj (s3_store s) (s3_store s2)) as Ho by (intros k; by rewrite Ho2, Ho1).
  assert (forall s3, s3_landed (key v cs) p (edited (access_of mode) d es) s2 s3 -> session_lands path mode es (s3_store s) (s3_store s3)) as Hland.
  { intros s3 Hl3. exists cs. split; [done|]. rewrite Hstart. by eapply published_before. }
  apply ends_wp. eapply wp_mono; [exact (s3_close_lands s2 h _ _ _ _ _ HI2 Hd2)|..].
  - intros _ s3 ([HI3 Hown3] & Hcase). split.
    { split; [done|]. rewrite Hown3, Hown2, Hown1. apply set_eq. intros x. set_solver. }
    destruct Hcase as [Hcase|[[_ Hch]%orb_false_iff Ho3]]; [left; by apply Hland|right]. split; [done|].
    intros k. by rewrite Ho3, Ho.
  - intros e s3 ([HI3 _] & Hcase). split; [done|]. destruct Hcase as [Ho3|[-> Hl3]]; [left; intros k; by rewrite Ho3, Ho|right].
    split; [done|]. by apply Hland.
Qed.

(** ** The beginning and the end *)

Lemma s3_starts w : J w -> theirs = pend w -> s3_inv (mkS3State w 1 [] ∅).
Proof.
  intros HJ Ht. assert (forall h c, ~ Open (mkS3State w 1 [] ∅) h c) as Hnone by (intros h c [Hin _]; by apply elem_of_nil in Hin).
  constructor; cbn [s3_store s3_handles s3_next_handle s3_cells]; [done|constructor|constructor|..].
  - intros h Hh. by apply elem_of_nil in Hh.
  - intros h c Hc. by rewrite lookup_empty in Hc.
  - intros h c Hc. by apply Hnone in Hc.
  - intros h1 h2 c1 c2 id Hc. by apply Hnone in Hc.
  - intros id u Hid. split; [by rewrite <- Ht|]. intros h c Hc. by apply Hnone in Hc.
  - intros _ id Hid. left. by rewrite Ht.
Qed.

(** The cells of the handles dropped so far are not looked at again. *)
Lemma drop_cells_aborts hs w n cells cells0 :
  s3_inv (mkS3State w n hs cells0) -> (forall h, h ∈ hs -> cells !! h = cells0 !! h) ->
  wp (drop_cells v hs) (mkS3State w n [] cells)
    (fun _ s' => (exists cells1, s3_inv (mkS3State (s3_store s') n [] cells1)) /\ s3_handles s' = [] /\ objs_same obj w (s3_store s')) (fun _ _ => False).
Proof.
  revert w cells cells0. induction hs as [|h hs IH]; intros w cells cells0 HI Hcells; cbn [drop_cells].
  { wp_step. split; [by exists cells0|done]. }
  assert (exists c, Open (mkS3State w n (h :: hs) cells0) h c) as [c Hc] by (apply (si_open _ HI); left).
  apply wp_bind, (wp_with_cell h c); [cbn [s3_cells]; rewrite Hcells; [apply Hc|left]|].
  eapply wp_mono; [apply (drop_cell_leaves v obj pend rest J), HI| |done]. intros _ t [Hg Ho].
  pose proof (inv_gone _ h c (t.1, release t.2) HI Hc (conj Hg eq_refl)) as HI2.
  unfold put_cell, without in *. cbn [s3_store s3_next_handle s3_handles s3_cells fst snd] in *.
  pose proof (si_nodup _ HI) as Hnd. cbn [s3_handles] in Hnd. apply NoDup_cons in Hnd as [Hnot _].
  assert (filter (fun k => k <> h) (h :: hs) = hs) as Hrest.
  { rewrite filter_cons_False by naive_solver.
    clear -Hnot. induction hs as [|k hs IH]; [done|]. apply not_elem_of_cons in Hnot as [Hk Hnot]. rewrite filter_cons_True by done. f_equal. by apply IH. }
  rewrite Hrest in HI2. eapply wp_mono; [apply (IH _ _ _ HI2)| |done].
  - intros k Hk. rewrite !lookup_insert_ne by (intros ->; done). apply Hcells. by right.
  - intros _ s' (H1 & H2 & H3). split; [done|]. split; [done|]. intros k. by rewrite H3, Ho.
Qed.

(** Dropping the filesystem leaves the objects, and of the uploads those of others. *)
Lemma s3_drop_aborts s :
  s3_inv s ->
  wp (s3_drop v) s
    (fun _ s' => objs_same obj (s3_store s) (s3_store s') /\ s3_owned s' = ∅
       /\ (reliable -> forall id, pend (s3_store s') id = theirs id
            \/ theirs id = None /\ stray pend J (s3_ops v) (pend (s3_store s') id))) (fun _ _ => False).
Proof.
  intros HI. unfold s3_drop. wp_steps. destruct s as [w n hs cells]. cbn [s3_store s3_next_handle s3_handles s3_cells].
  eapply wp_mono; [by apply (drop_cells_aborts _ _ _ _ cells HI)| |done]. intros _ s' ([cells1 HI'] & Hnil & Ho). split; [done|]. split; [unfold s3_owned; by rewrite Hnil|].
  intros R id. destruct (theirs id) as [u|] eqn:Hid; [left; by apply (si_theirs _ HI')|].
  destruct (pend (s3_store s') id) as [u|] eqn:Hp; [|by left].
  destruct (si_ours _ HI' R id ltac:(by eexists)) as [[x Hx]|[(h & c & [Hin _] & _)|Hs]]; [congruence|by apply elem_of_nil in Hin|right].
  split; [done|]. cbn [s3_store] in Hs. by rewrite Hp in Hs.
Qed.

(** ** Every state a client can bring about *)

(** What a method leaves, a panic included. *)
Lemma ends_post_state {S E A} {P I : S -> Prop} (m : ST S E A) s Q R :
  ends P m s Q R -> (forall a s', Q a s' -> I s') -> (forall e s', R e s' -> I s') -> (forall s', P s' -> I s') -> I (m s).2.
Proof. unfold ends. destruct (m s) as [[] ?]; naive_solver. Qed.

(** A method on a handle of the table. *)
Lemma method_keeps_inv {A} h (m : ST (W * HandleState) Errno A) s :
  s3_inv s ->
  (forall c, J (s3_store s) -> cell_right (s3_store s) c ->
     ends (fun t => kept (s3_store s) c t) m (s3_store s, c) (fun _ t => kept (s3_store s) c t) (fun _ t => kept (s3_store s) c t)) ->
  s3_inv ((let! cell := handle_state h in with_cell cell m) s).2.
Proof.
  intros HI Hm. eapply ends_post_state; [apply (on_handle_ends h m s (fun _ _ => True) (fun _ _ _ => True) (fun _ _ _ => True) HI)|..].
  - intros c Hc HJ Hr. eapply ends_panics; [eapply ends_mono; [by apply Hm|by split..]|by split].
  - by intros _ s' (c & t & (_ & _ & ? & _) & _).
  - intros _ s' [[-> _]|(c & t & (_ & _ & ? & _) & _)]; done.
  - by intros s' (c & t & (_ & _ & ? & _) & _).
Qed.

(** A method that holds on to the cell of a handle no longer in the table. *)
Lemma late_call {A} h (m : ST (W * HandleState) Errno A) s :
  s3_inv s ->
  (forall c, J (s3_store s) -> cell_right (s3_store s) c ->
     ends (fun t => kept (s3_store s) c t) m (s3_store s, c) (fun _ t => kept (s3_store s) c t) (fun _ t => kept (s3_store s) c t)) ->
  (forall c w, hs_released c = true -> (m (w, c)).2 = (w, c)) ->
  s3_inv (with_cell h m s).2.
Proof.
  intros HI Hm Hlate. destruct (s3_cells s !! h) as [c|] eqn:Hc.
  2: { unfold with_cell, sbind, sget, slift, expect. by rewrite Hc. }
  destruct (decide (h ∈ s3_handles s)) as [Hin|Hout].
  - eapply (ends_post_state (P := s3_inv)); [apply (ends_with_cell h c); [done|]|by intros ? ? H; exact H..|by intros ? H; exact H].
    eapply ends_panics; [eapply ends_mono; [by apply Hm; [apply HI|apply (si_cell s HI h)]|..]|];
      intros; by apply (inv_put_cell s h c).
  - pose proof (Hlate c (s3_store s) (si_released s HI h c Hc Hout)) as Hsame.
    assert ((with_cell h m s).2 = mkS3State (s3_store s) (s3_next_handle s) (s3_handles s) (<[h := c]> (s3_cells s))) as ->.
    { unfold with_cell, sbind, sget, sput, slift, expect. rewrite Hc. simpl.
      destruct (m (s3_store s, c)) as [o [w1 c1]]. simpl in Hsame. by injection Hsame as -> ->. }
    rewrite insert_id by done. by destruct s.
Qed.

Lemma read_kept offset buf w c :
  J w -> cell_right w c -> ends (fun t => kept w c t) (read_resolved v offset buf) (w, c) (fun _ t => kept w c t) (fun _ t => kept w c t).
Proof.
  intros HJ Hr. apply ends_wp.
  eapply wp_mono; [by apply (read_resolved_reads v obj pend rest J Hpart Hedit)|by intros ? ? [[? _] _]|by intros ? ? [? _]].
Qed.

Lemma write_kept offset new w c :
  J w -> cell_right w c -> ends (fun t => kept w c t) (write_resolved v offset new) (w, c) (fun _ t => kept w c t) (fun _ t => kept w c t).
Proof.
  intros HJ Hr. eapply ends_panics; [eapply ends_mono; [by apply (write_resolved_writes v obj pend rest J Hpart Hedit)|..]|];
    [by intros ? ? [[? _] _]|by intros ? ? [? _]|by intros ? [? _]].
Qed.

Lemma truncate_kept n w c :
  J w -> cell_right w c -> ends (fun t => kept w c t) (truncate_resolved v n) (w, c) (fun _ t => kept w c t) (fun _ t => kept w c t).
Proof.
  intros HJ Hr. eapply ends_panics; [eapply ends_mono; [by apply (truncate_resolved_cuts v obj pend rest J Hpart Hedit)|..]|];
    [by intros ? ? [[? _] _]|by intros ? ? [? _]|by intros ? [? _]].
Qed.

Lemma call_keeps_inv c s : c <> CallDrop -> s3_inv s -> s3_inv (after_call v pages c s).
Proof.
  intros Hd HI.
  destruct c; cbn [after_call]; try done;
    try (apply wp_post_state; eapply wp_mono; [by first [apply store_stat|apply store_readdir|apply store_mkdir|apply store_rename
      |apply store_unlink|apply store_rmdir]|by intros ? ? [? _]|by intros ? ? [? _]]).
  - apply wp_post_state. eapply wp_mono; [by apply s3_open_drafts|by intros ? ? [[? _] _]|by intros ? ? [[? _] _]].
  - apply method_keeps_inv; [done|]. intros c. apply read_kept.
  - apply method_keeps_inv; [done|]. intros c. apply write_kept.
  - apply method_keeps_inv; [done|]. intros c. apply truncate_kept.
  - apply wp_post_state. eapply wp_mono; [by apply close_loses_fd|by intros ? ? [? _]|by intros ? ? [? _]].
  - apply wp_post_state. eapply wp_mono; [by apply abort_loses_fd|by intros ? ? [? _]|by intros ? ? [? _]].
  - apply late_call; [done|intros h; apply read_kept|]. intros h w Hrel. unfold read_resolved, sbind, sget. simpl. by rewrite Hrel.
  - apply late_call; [done|intros h; apply write_kept|]. intros h w Hrel. unfold write_resolved, sbind, sget. simpl. by rewrite Hrel.
  - apply late_call; [done|intros h; apply truncate_kept|]. intros h w Hrel. unfold truncate_resolved, sbind, sget. simpl. by rewrite Hrel.
Qed.

Lemma calls_keep_inv calls s : Forall (fun c => c <> CallDrop) calls -> s3_inv s -> s3_inv (after_calls v pages calls s).
Proof. intros Hc. revert s. induction Hc as [|c calls Hc _ IH]; intros s HI; [done|]. by apply IH, call_keeps_inv. Qed.

(** ** Bounds *)

Lemma parts_total_mono m n : (m <= n)%nat -> parts_total v m <= parts_total v n.
Proof.
  induction 1 as [|n _ IH]; [done|]. cbn [parts_total]. pose proof (part_size_pos v Hpart (Z.of_nat n) ltac:(lia)). lia.
Qed.

(** Fewer parts than take up what was flushed. *)
Lemma parts_below s h c x n :
  s3_inv s -> Open s h c -> hs_staging c = Streamed x -> sm_flushed x < parts_total v n -> uploaded_parts x < Z.of_nat n.
Proof.
  intros HI Hc Hx Hf. destruct (si_cell s HI h c Hc) as [Hr _]. unfold S3Handles.cell_right in Hr. rewrite Hx in Hr.
  destruct Hr as [_ [d (front & _ & Hfl & Hu)]]. unfold uploaded_parts, len. destruct (sm_upload x) as [u|].
  - destruct Hu as [_ Hu]. apply Nat2Z.inj_lt. destruct (Nat.lt_ge_cases (length (up_parts u)) n) as [|Hge]; [done|].
    pose proof (parts_total_mono _ _ Hge). lia.
  - destruct n; [|lia]. simpl in Hf. subst front. unfold len in Hfl. simpl in Hfl. lia.
Qed.
End system.
