(* ===== verification/S3Fake.v ===== *)
(** * The bucket in memory is a lawful store

    [FakeBucket] obeys [S3Laws] and carries out every abort, so what is proved of
    the S3 filesystem over lawful stores holds over it. *)

From Stdlib Require Import Ascii String Sorted.
From S2P Require Import Prelude RustStr BTreeMap VfsTypes SandboxFs ShellLexFacts S3Types S3Vfs S3Laws S3Listing S3Bucket.

#[local] Open Scope Z_scope.

(** ** Decimal numbers *)

Lemma dec_value_app a b z : dec_value (a ++ b) z = dec_value a z ≫= dec_value b.
Proof. revert z. induction a as [|c a IH]; intros z; simpl; [done|]. by destruct (digit_value c). Qed.

Lemma size_nat_bound n : (n < 2 ^ N.of_nat (N.size_nat n))%N.
Proof.
  destruct n as [|p]; [done|]. simpl N.size_nat. induction p as [p IH|p IH|]; simpl Pos.size_nat; [..|done];
    rewrite Nat2N.inj_succ, N.pow_succ_r'; lia.
Qed.

Lemma digits_read fuel n acc :
  (n < 2 ^ N.of_nat fuel)%N -> (0 < fuel)%nat ->
  exists ds, digits fuel n acc = ds ++ acc /\ ds <> [] /\ Forall (fun c => is_ascii_digit c = true) ds
    /\ forall z, exists m, dec_value ds z = Some (z * m + Z.of_N n).
Proof.
  revert n acc. induction fuel as [|fuel IH]; intros n acc Hn Hf; [lia|]. cbn [digits].
  pose proof (N.mod_lt n 10 ltac:(done)) as Hm. pose proof (N.div_mod' n 10) as Hdm.
  remember (n mod 10)%N as r eqn:Hr. clear Hr. remember (n / 10)%N as q eqn:Hq0. set (c := (48 + r)%N).
  assert (is_ascii_digit c = true /\ forall z, dec_value [c] z = Some (z * 10 + Z.of_N r)) as [Hc Hv].
  { assert (is_ascii_digit c = true) as Hc by (unfold is_ascii_digit, in_range, c; apply andb_true_iff; rewrite !N.leb_le; change (ch "0") with 48%N; change (ch "9") with 57%N; lia).
    split; [done|]. intros z. simpl. unfold digit_value. rewrite Hc. f_equal. unfold c. lia. }
  destruct (q =? 0)%N eqn:Hd; unbool.
  - exists [c]. split; [done|]. split; [done|]. split; [by repeat constructor|]. intros z. exists 10. rewrite Hv. do 2 f_equal. f_equal. lia.
  - assert (q < 2 ^ N.of_nat fuel)%N as Hq.
    { rewrite Nat2N.inj_succ, N.pow_succ_r' in Hn. lia. }
    assert (0 < fuel)%nat as Hf'.
    { destruct fuel; [|lia]. simpl in Hq. lia. }
    destruct (IH q (c :: acc) Hq Hf') as (ds & -> & Hne & Hall & Hval). exists (ds ++ [c]).
    split; [by rewrite <- app_assoc|]. split; [by destruct ds|]. split; [apply Forall_app; by repeat constructor|].
    intros z. destruct (Hval z) as [m Hz]. exists (m * 10). rewrite dec_value_app, Hz. simpl. unfold digit_value. rewrite Hc.
    f_equal. unfold c. lia.
Qed.

Lemma Z_to_string_read n :
  0 <= n ->
  Z_to_string n <> [] /\ Forall (fun c => is_ascii_digit c = true) (Z_to_string n) /\ dec_value (Z_to_string n) 0 = Some n.
Proof.
  intros Hn. unfold Z_to_string. replace (n <? 0) with false by (symmetry; apply Z.ltb_ge; lia). unfold N_to_string.
  destruct (digits_read (S (N.size_nat (Z.to_N n))) (Z.to_N n) []) as (ds & -> & Hne & Hall & Hval); [|lia|].
  - pose proof (size_nat_bound (Z.to_N n)). rewrite Nat2N.inj_succ, N.pow_succ_r'. lia.
  - rewrite app_nil_r. split; [done|]. split; [done|]. destruct (Hval 0) as [m ->]. f_equal. lia.
Qed.

Lemma Z_to_string_inj a b : 0 <= a -> 0 <= b -> Z_to_string a = Z_to_string b -> a = b.
Proof.
  intros Ha Hb H. destruct (Z_to_string_read a Ha) as (_ & _ & Hva), (Z_to_string_read b Hb) as (_ & _ & Hvb).
  rewrite H in Hva. congruence.
Qed.

Lemma digit_not c x : is_ascii_digit x = true -> (c < 48 \/ 57 < c)%N -> (c =? x)%N = false.
Proof. unfold is_ascii_digit, in_range. intros [H1%N.leb_le H2%N.leb_le]%andb_true_iff Hc. apply N.eqb_neq. change (ch "0") with 48%N in *. change (ch "9") with 57%N in *. intros ->. lia. Qed.

Lemma no_dash n : 0 <= n -> contains (Z_to_string n) (ch "-") = false.
Proof.
  intros Hn. destruct (Z_to_string_read n Hn) as (_ & Hall & _). unfold contains.
  induction Hall as [|c s Hc _ IH]; [done|]. cbn [existsb]. rewrite IH, orb_false_r. apply digit_not; [done|]. by left.
Qed.

Lemma parse_decimal max n : 0 <= n <= max -> parse_unsigned max (Z_to_string n) = Some n.
Proof.
  intros [Hn Hmax]. destruct (Z_to_string_read n Hn) as (Hne & Hall & Hval). unfold parse_unsigned.
  destruct (Z_to_string n) as [|c s]; [done|]. apply Forall_cons in Hall as [Hc _].
  assert (isc c "+" = false) as ->.
  { unfold isc. rewrite N.eqb_sym. apply digit_not; [done|]. by left. }
  rewrite Hval. by rewrite (proj2 (Z.leb_le _ _) Hmax).
Qed.

Lemma split_first c a b : contains a c = false -> split c (a ++ c :: b) = a :: split c b.
Proof.
  induction a as [|x a IH]; intros Ha; simpl; [by rewrite N.eqb_refl|]. cbn [contains existsb] in Ha. apply orb_false_iff in Ha as [Hx Ha].
  rewrite N.eqb_sym, Hx. rewrite IH by done. done.
Qed.

Lemma split_none c a : contains a c = false -> split c a = [a].
Proof.
  induction a as [|x a IH]; intros Ha; simpl; [done|]. cbn [contains existsb] in Ha. apply orb_false_iff in Ha as [Hx Ha].
  rewrite N.eqb_sym, Hx. by rewrite IH.
Qed.

Lemma parse_range_text a b : 0 <= a <= USIZE_MAX -> 0 <= b <= USIZE_MAX -> parse_range (range_text a b) = Some (a, b).
Proof.
  intros Ha Hb. unfold parse_range, range_text. rewrite (proj2 (strip_prefix_Some _ (lit "bytes=") _) eq_refl).
  change (lit "-" ++ Z_to_string b) with (ch "-" :: Z_to_string b).
  rewrite split_first by (apply no_dash; lia). rewrite split_none by (apply no_dash; lia). simpl.
  by rewrite !parse_decimal.
Qed.

(** ** Listings *)

Lemma key_elem {V} (m : list (str * V)) k v : (k, v) ∈ m -> k ∈ bt_keys m.
Proof. intros H. exact (list_elem_of_fmap_2 fst _ _ H). Qed.

Lemma bt_ext {V} (m1 m2 : list (str * V)) : bt_wf m1 -> bt_wf m2 -> (forall k v, (k, v) ∈ m1 <-> (k, v) ∈ m2) -> m1 = m2.
Proof.
  revert m2. induction m1 as [|[k1 v1] m1 IH]; intros [|[k2 v2] m2] W1 W2 H; [done|..].
  - exfalso. eapply not_elem_of_nil. apply H. left.
  - exfalso. eapply not_elem_of_nil. apply H. left.
  - apply bt_wf_cons in W1 as [W1 L1]. apply bt_wf_cons in W2 as [W2 L2]. rewrite Forall_forall in L1, L2.
    assert (forall k v, (k, v) ∈ m1 -> str_lt k1 k) as G1 by (intros k v Hk; by eapply L1, key_elem).
    assert (forall k v, (k, v) ∈ m2 -> str_lt k2 k) as G2 by (intros k v Hk; by eapply L2, key_elem).
    assert ((k1, v1) = (k2, v2)) as [= -> ->].
    { pose proof (proj1 (H k1 v1) ltac:(left)) as A. pose proof (proj2 (H k2 v2) ltac:(left)) as B.
      apply elem_of_cons in A as [A|A]; [done|]. apply elem_of_cons in B as [B|B]; [done|].
      apply G2 in A. apply G1 in B. exfalso. eapply str_lt_irrefl. by etrans. }
    f_equal. apply IH; [done..|]. intros k v. specialize (H k v). rewrite !elem_of_cons in H. split; intros Hk.
    + destruct (proj1 H (or_intror Hk)) as [[= -> ->]|]; [|done]. apply G1 in Hk. by apply str_lt_irrefl in Hk.
    + destruct (proj2 H (or_intror Hk)) as [[= -> ->]|]; [|done]. apply G2 in Hk. by apply str_lt_irrefl in Hk.
Qed.

Definition query (prefix delimiter : str) (c : option str) : ListRequest := mkListRequest [] prefix delimiter c None.
Definition entries (q : ListRequest) (w : BucketState) : list (str * option Z) := foldl (add_entry q) [] (objects w).

Lemma entries_wf q xs m : bt_wf m -> bt_wf (foldl (add_entry q) m xs).
Proof.
  revert m. induction xs as [|x xs IH]; intros m Hm; simpl; [done|]. apply IH. unfold add_entry. destruct (list_entry q x.1 x.2) as [[]|]; [|done].
  case_match; [by apply bt_wf_insert|done].
Qed.

Lemma bt_get_add q m x k :
  bt_get k (add_entry q m x)
  = match list_entry q x.1 x.2 with
    | Some (k', n) => if decide (k' = k /\ after (lq_continuation q) k = true) then Some n else bt_get k m
    | None => bt_get k m
    end.
Proof.
  unfold add_entry. destruct (list_entry q x.1 x.2) as [[k' n]|]; [|done]. destruct (decide (k' = k)) as [->|Hk].
  - destruct (after _ k) eqn:Ha; [by rewrite bt_get_insert_eq, decide_True|by rewrite decide_False by naive_solver].
  - rewrite decide_False by naive_solver. case_match; [by apply bt_get_insert_ne|done].
Qed.

(** A continuation leaves out what it is not before. *)
Lemma entries_after q xs k :
  bt_get k (foldl (add_entry q) [] xs)
  = if after (lq_continuation q) k then bt_get k (foldl (add_entry (query (lq_prefix q) (lq_delimiter q) None)) [] xs) else None.
Proof.
  induction xs as [|x xs IH] using rev_ind; [by case_match|]. rewrite !foldl_app. simpl foldl. rewrite !bt_get_add.
  change (list_entry (query (lq_prefix q) (lq_delimiter q) None) x.1 x.2) with (list_entry q x.1 x.2).
  destruct (list_entry q x.1 x.2) as [[k' n]|]; [|done]. rewrite IH. simpl (after (lq_continuation (query _ _ None)) k).
  destruct (decide (k' = k)) as [->|Hk]; [|by rewrite !decide_False by naive_solver].
  destruct (after (lq_continuation q) k); [by rewrite !decide_True|by rewrite decide_False by naive_solver].
Qed.

Definition in_order (c : option str) (e : str * option Z) : Prop := after c e.1 = true.
#[local] Instance in_order_dec c e : Decision (in_order c e) := bool_eq_dec _ _.

Lemma filter_wf {V} (P : str * V -> Prop) `{forall x, Decision (P x)} m : bt_wf m -> bt_wf (filter P m).
Proof.
  induction m as [|[k v] m IH]; intros Hm; [done|]. apply bt_wf_cons in Hm as [Hm Hk]. rewrite filter_cons. case_decide; [|auto].
  apply bt_wf_cons. split; [auto|]. apply Forall_forall. intros j Hj. apply list_elem_of_fmap in Hj as ([k' v'] & -> & Hj).
  apply list_elem_of_filter in Hj as [_ Hj]. rewrite Forall_forall in Hk. by eapply Hk, key_elem.
Qed.

Lemma entries_sorted q w : bt_wf (entries q w).
Proof. apply entries_wf. constructor. Qed.

Lemma entries_continue q w :
  entries q w = filter (in_order (lq_continuation q)) (entries (query (lq_prefix q) (lq_delimiter q) None) w).
Proof.
  apply bt_ext; [apply entries_sorted|apply filter_wf, entries_sorted|]. intros k v.
  rewrite list_elem_of_filter, !bt_get_elem by apply entries_sorted. unfold entries. rewrite entries_after. unfold in_order. simpl.
  destruct (after (lq_continuation q) k); naive_solver.
Qed.

Lemma after_trans c t k : after c t = true -> after (Some t) k = true -> after c k = true.
Proof.
  destruct c as [a|]; [|done]. simpl. destruct (str_compare t a) eqn:H1; try done. destruct (str_compare k t) eqn:H2; try done.
  intros _ _. apply str_lt_gt in H1, H2. assert (str_compare k a = Gt) as -> by (apply str_lt_gt; by etrans). done.
Qed.

Lemma filter_all {A} (P : A -> Prop) `{forall x, Decision (P x)} l : Forall P l -> filter P l = l.
Proof. induction 1 as [|x l Hx _ IH]; [done|]. rewrite filter_cons_True by done. by rewrite IH. Qed.

Lemma filter_none {A} (P : A -> Prop) `{forall x, Decision (P x)} l : Forall (fun x => ~ P x) l -> filter P l = [].
Proof. induction 1 as [|x l Hx _ IH]; [done|]. by rewrite filter_cons_False. Qed.

(** What is before the last entry of a page, and what is after it. *)
Lemma sorted_around {V} (front left : list (str * V)) x :
  bt_wf (front ++ x :: left) ->
  Forall (fun e => ~ after (Some x.1) e.1 = true) (front ++ [x]) /\ Forall (fun e => after (Some x.1) e.1 = true) left.
Proof.
  induction front as [|[k v] front IH]; intros Hwf; simpl in Hwf.
  - destruct x as [k v]. apply bt_wf_cons in Hwf as [_ Hk]. split.
    + constructor; [|constructor]. simpl. by rewrite str_compare_refl.
    + apply Forall_forall. intros [k' v'] Hin. simpl. rewrite Forall_forall in Hk.
      pose proof (Hk _ (key_elem _ _ _ Hin)) as Hlt. apply str_lt_gt in Hlt. by rewrite Hlt.
  - apply bt_wf_cons in Hwf as [Hwf Hk]. destruct (IH Hwf) as [H1 H2]. split; [|done]. simpl. constructor; [|done].
    simpl. rewrite Forall_forall in Hk. assert (str_lt k x.1) as Hlt.
    { apply Hk. apply (key_elem _ x.1 x.2). rewrite elem_of_app. right. destruct x. left. }
    unfold str_lt in Hlt. by rewrite Hlt.
Qed.

Lemma next_page_starts c (m : list (str * option Z)) n x :
  bt_wf m -> last (take n (filter (in_order c) m)) = Some x -> filter (in_order (Some x.1)) m = drop n (filter (in_order c) m).
Proof.
  intros Hwf Hx. apply last_Some in Hx as [front Hx]. set (m' := filter (in_order c) m) in *.
  pose proof (take_drop n m') as Hm. rewrite Hx, <- app_assoc in Hm.
  assert (bt_wf m') as Hwf' by by apply filter_wf. rewrite <- Hm in Hwf'. apply sorted_around in Hwf' as [H1 H2].
  assert (in_order c x) as Hc.
  { assert (x ∈ m') as Hin by (rewrite <- Hm; rewrite elem_of_app; right; left). by apply list_elem_of_filter in Hin as [? _]. }
  trans (filter (in_order (Some x.1)) m').
  - unfold m'. rewrite list_filter_filter. apply list_filter_iff. intros e. split; [|by intros [? _]]. intros He. split; [done|].
    by eapply after_trans.
  - rewrite <- Hm at 1. rewrite app_assoc, filter_app.
    rewrite (filter_none _ (front ++ [x])) by done. apply filter_all, H2.
Qed.

Definition to_entry (e : str * option Z) : Entry := match e.2 with Some n => EntryObject e.1 n | None => EntryPrefix e.1 end.

Definition fake_rest (w : BucketState) (prefix delimiter : str) (c : option str) : list Entry :=
  to_entry <$> filter (in_order c) (entries (query prefix delimiter None) w).

Lemma to_entry_objects l : entry_objects (to_entry <$> l) = omap (fun e => (fun size => mkListedObject e.1 size) <$> e.2) l.
Proof. unfold entry_objects. induction l as [|[k [n|]] l IH]; [done|cbn; try (apply (f_equal (cons _))); exact IH..]. Qed.

Lemma to_entry_prefixes l : entry_prefixes (to_entry <$> l) = omap (fun e => match e.2 with None => Some e.1 | Some _ => None end) l.
Proof. unfold entry_prefixes. induction l as [|[k [n|]] l IH]; [done|cbn; try (apply (f_equal (cons _))); exact IH..]. Qed.

Lemma first_only name : (forall a b, name ++ lit "/" = a ++ lit "/" ++ b -> b = []) -> contains name (ch "/") = false.
Proof.
  intros H. apply no_slash_spec. intros a b ->. specialize (H a (b ++ lit "/")). rewrite <- !app_assoc in H. specialize (H eq_refl).
  by destruct b.
Qed.

Lemma find_slash_first a b : contains a (ch "/") = false -> find_str (a ++ lit "/" ++ b) (lit "/") = Some (blen a).
Proof.
  induction a as [|x a IH]; intros Ha; [done|]. cbn [contains existsb] in Ha. apply orb_false_iff in Ha as [Hx Ha].
  change ((x :: a) ++ lit "/" ++ b) with (x :: (a ++ lit "/" ++ b)). cbn [find_str]. change (lit "/") with [ch "/"] in *.
  cbn [starts_with]. rewrite Hx. cbn [andb]. rewrite IH by done. done.
Qed.

Lemma find_slash_none a : contains a (ch "/") = false -> find_str a (lit "/") = None.
Proof.
  induction a as [|x a IH]; intros Ha; [done|]. cbn [contains existsb] in Ha. apply orb_false_iff in Ha as [Hx Ha].
  cbn [find_str]. change (lit "/") with [ch "/"] in *. cbn [starts_with]. rewrite Hx. cbn [andb]. by rewrite IH.
Qed.

Lemma first_slash_unique a b a' b' :
  contains a (ch "/") = false -> contains a' (ch "/") = false -> a ++ lit "/" ++ b = a' ++ lit "/" ++ b' -> a = a'.
Proof.
  revert a'. change (lit "/") with [ch "/"]. induction a as [|x a IH]; intros [|y a'] Ha Ha' H; [done|..].
  - injection H as Hy _. subst y. done.
  - injection H as Hx _. subst x. done.
  - injection H as -> H. cbn [contains existsb] in Ha, Ha'. apply orb_false_iff in Ha as [_ Ha], Ha' as [_ Ha']. f_equal. by apply IH.
Qed.

(** What a key is listed as. *)
Lemma list_entry_plain p key o k n :
  list_entry (query p [] None) key o = Some (k, n) <-> (exists r, key = p ++ r) /\ k = key /\ n = Some (len (so_body o)).
Proof.
  unfold list_entry. cbn [lq_prefix lq_delimiter query]. destruct (strip_prefix key p) as [r|] eqn:H.
  - apply strip_prefix_Some in H as ->. rewrite bool_decide_true by done. split; [intros [= <- <-]|intros (_ & -> & ->)]; [|done].
    split; [by exists r|done].
  - split; [done|]. intros [[r Hr] _]. apply strip_prefix_Some in Hr. congruence.
Qed.

Lemma list_entry_slash p key o k n :
  list_entry (query p (lit "/") None) key o = Some (k, n) <->
  exists r, key = p ++ r
  /\ (contains r (ch "/") = false /\ k = key /\ n = Some (len (so_body o))
      \/ exists a b, r = a ++ lit "/" ++ b /\ contains a (ch "/") = false /\ k = p ++ a ++ lit "/" /\ n = None).
Proof.
  unfold list_entry. cbn [lq_prefix lq_delimiter query]. destruct (strip_prefix key p) as [r|] eqn:H.
  2: { split; [done|]. intros (r & Hr & _). apply strip_prefix_Some in Hr. congruence. }
  apply strip_prefix_Some in H as ->. rewrite bool_decide_false by done.
  assert (forall Q, (exists r', p ++ r = p ++ r' /\ Q r') <-> Q r) as Hr.
  { intros Q. split; [intros (r' & E%app_inv_head & H'); by subst|intros H'; by exists r]. }
  rewrite (Hr (fun r => _ \/ _)). clear Hr. destruct (first_slash r) as [Hn|(a & b & -> & Hn)].
  - rewrite find_slash_none by done. split; [intros [= <- <-]; by left|]. intros [(_ & -> & ->)|(a & b & -> & _)]; [done|].
    by destruct (proj1 (no_slash_spec _) Hn a b).
  - rewrite find_slash_first, take_bytes_app by done. cbn [default]. split.
    + intros [= <- <-]. right. by exists a, b.
    + intros [(H & _)|(a' & b' & E & Hn' & -> & ->)]; [by destruct (proj1 (no_slash_spec _) H a b)|].
      assert (a' = a) as -> by (symmetry; by eapply first_slash_unique). done.
Qed.

(** ** The laws *)

Definition fake_obj (w : BucketState) (k : str) : option (bytes * str) := (fun o => (so_body o, so_etag o)) <$> bt_get k (objects w).
Definition fake_pend (w : BucketState) (id : str) : option (str * gmap Z bytes) :=
  (fun u => (pu_key u, pu_parts u)) <$> bt_get id (uploads w).

Definition upload_text (n : Z) : str := lit "upload-" ++ Z_to_string n.

(** Tags and upload numbers are those handed out so far. *)
Record fake_inv (w : BucketState) : Prop := {
  fk_objects : bt_wf (objects w);
  fk_uploads : bt_wf (uploads w);
  fk_etag : 0 <= next_etag w;
  fk_upload : 0 <= next_upload w;
  fk_etags k o : bt_get k (objects w) = Some o -> exists n, so_etag o = etag_text n /\ 0 <= n <= next_etag w;
  fk_ids id u : bt_get id (uploads w) = Some u -> exists n, id = upload_text n /\ 0 <= n <= next_upload w
}.

Lemma etag_text_inj a b : 0 <= a -> 0 <= b -> etag_text a = etag_text b -> a = b.
Proof.
  intros Ha Hb H. unfold etag_text, quoted in H. apply (Z_to_string_inj a b Ha Hb).
  injection H as H. apply app_inj_tail in H as [H _]. exact H.
Qed.

Lemma upload_text_inj a b : 0 <= a -> 0 <= b -> upload_text a = upload_text b -> a = b.
Proof. intros Ha Hb H. apply (Z_to_string_inj a b Ha Hb). by apply app_inv_head in H. Qed.

Lemma entries_get q xs k n :
  (forall x y k n n', x ∈ xs -> y ∈ xs -> list_entry q x.1 x.2 = Some (k, n) -> list_entry q y.1 y.2 = Some (k, n') -> n = n') ->
  lq_continuation q = None ->
  bt_get k (foldl (add_entry q) [] xs) = Some n <-> exists x, x ∈ xs /\ list_entry q x.1 x.2 = Some (k, n).
Proof.
  intros Hc Hq. induction xs as [|x xs IH] using rev_ind.
  { simpl. split; [done|]. intros (x & Hx & _). by apply elem_of_nil in Hx. }
  rewrite foldl_app. simpl. rewrite bt_get_add, Hq. simpl after.
  assert (bt_get k (foldl (add_entry q) [] xs) = Some n <-> exists y, y ∈ xs /\ list_entry q y.1 y.2 = Some (k, n)) as IH'.
  { apply IH. intros a b k' m m' Ha Hb. apply Hc; rewrite elem_of_app; by left. }
  assert (forall y, y ∈ xs ++ [x] <-> y ∈ xs \/ y = x) as Hin by (intros y; rewrite elem_of_app, list_elem_of_singleton; tauto).
  destruct (list_entry q x.1 x.2) as [[k' m]|] eqn:Hx.
  - destruct (decide (k' = k)) as [->|Hk].
    + rewrite decide_True by done. split; [intros [= ->]; exists x; by rewrite Hin; split; [right|]|].
      intros (y & Hy & He). f_equal. eapply (Hc x y); [apply Hin; by right|done|exact Hx|done].
    + rewrite decide_False by naive_solver. rewrite IH'. setoid_rewrite Hin. split; [naive_solver|].
      intros (y & [Hy| ->] & He); [by exists y|congruence].
  - rewrite IH'. setoid_rewrite Hin. split; [naive_solver|]. intros (y & [Hy| ->] & He); [by exists y|congruence].
Qed.

Lemma entries_elem w p d k n :
  fake_inv w -> d = [] \/ d = lit "/" ->
  (k, n) ∈ entries (query p d None) w <-> exists key o, bt_get key (objects w) = Some o /\ list_entry (query p d None) key o = Some (k, n).
Proof.
  intros HI Hd. rewrite bt_get_elem by apply entries_sorted. unfold entries. rewrite entries_get; [|..|done].
  - split; [intros ([key o] & Hx & He)|intros (key & o & Hx & He)]; [exists key, o|exists (key, o)]; (split; [|done]);
      by apply bt_get_elem; [apply HI|].
  - intros [k1 o1] [k2 o2] j m m' Hx Hy H1 H2. apply bt_get_elem in Hx, Hy; [|apply HI..]. simpl in *.
    destruct Hd as [-> | ->].
    + apply list_entry_plain in H1 as (_ & -> & ->), H2 as (_ & -> & ->). congruence.
    + apply list_entry_slash in H1 as (r1 & -> & C1), H2 as (r2 & -> & C2).
      destruct C1 as [(N1 & -> & ->)|(a1 & b1 & -> & N1 & -> & ->)], C2 as [(N2 & E & ->)|(a2 & b2 & -> & N2 & E & ->)]; [congruence|..|done].
      * apply app_inv_head in E as ->. by destruct (proj1 (no_slash_spec _) N1 a2 []).
      * apply app_inv_head in E. subst r2. by destruct (proj1 (no_slash_spec _) N2 a1 []).
Qed.

Lemma fake_listed w p d e :
  fake_inv w -> d = [] \/ d = lit "/" -> e ∈ fake_rest w p d None <-> listed fake_obj w p d e.
Proof.
  intros HI Hd. unfold fake_rest. rewrite filter_all by (apply Forall_forall; done). rewrite list_elem_of_fmap.
  assert ((exists y, e = to_entry y /\ y ∈ entries (query p d None) w) <->
    exists k n key o, e = to_entry (k, n) /\ bt_get key (objects w) = Some o /\ list_entry (query p d None) key o = Some (k, n)) as ->.
  { split.
    - intros ([k n] & He & Hy). apply entries_elem in Hy as (key & o & ? & ?); [|done..]. by exists k, n, key, o.
    - intros (k & n & key & o & He & ? & ?). exists (k, n). split; [done|]. apply entries_elem; [done..|]. by exists key, o. }
  unfold fake_obj. destruct Hd as [-> | ->].
  - setoid_rewrite list_entry_plain. split.
    + intros (k & n & key & o & -> & Ho & [r ->] & -> & ->). simpl. exists r, (so_body o), (so_etag o). rewrite Ho. simpl.
      split; [done|]. split; [done|]. split; [done|]. by left.
    + destruct e as [k n|q]; simpl; [|by intros [? _]]. intros (name & b & tag & -> & Ho & -> & _).
      destruct (bt_get (p ++ name) (objects w)) as [o|] eqn:Hg; [|done]. injection Ho as <- <-.
      exists (p ++ name), (Some (len (so_body o))), (p ++ name), o. split; [done|]. split; [done|]. split; [by exists name|done].
  - setoid_rewrite list_entry_slash. split.
    + intros (k & n & key & o & -> & Ho & r & -> & [(Hn & -> & ->)|(a & b & -> & Hn & -> & ->)]); simpl.
      * exists r, (so_body o), (so_etag o). rewrite Ho. simpl. split; [done|]. split; [done|]. split; [done|]. right. by apply no_slash_spec.
      * split; [done|]. exists a, b, (so_body o), (so_etag o). split; [done|]. split; [by rewrite <- !app_assoc, Ho|].
        intros x y. by apply slash_ends.
    + destruct e as [k n|q]; simpl.
      * intros (name & b & tag & -> & Ho & -> & [?|Hn]); [done|]. destruct (bt_get (p ++ name) (objects w)) as [o|] eqn:Hg; [|done].
        injection Ho as <- <-. exists (p ++ name), (Some (len (so_body o))), (p ++ name), o. split; [done|]. split; [done|]. exists name.
        split; [done|]. left. split; [by apply no_slash_spec|done].
      * intros (_ & name & below & b & tag & -> & Ho & Hn). rewrite <- !app_assoc in Ho.
        destruct (bt_get (p ++ name ++ lit "/" ++ below) (objects w)) as [o|] eqn:Hg; [|done].
        exists (p ++ name ++ lit "/"), None, (p ++ name ++ lit "/" ++ below), o. split; [done|]. split; [done|].
        exists (name ++ lit "/" ++ below). split; [done|]. right. exists name, below. split; [done|]. split; [by apply first_only|done].
Qed.

Lemma obj_get w k o : bt_get k (objects w) = Some o -> fake_obj w k = Some (so_body o, so_etag o).
Proof. unfold fake_obj. by intros ->. Qed.

Lemma pend_get w id u : bt_get id (uploads w) = Some u -> fake_pend w id = Some (pu_key u, pu_parts u).
Proof. unfold fake_pend. by intros ->. Qed.

Lemma same_objects w w' : fake_inv w -> fake_inv w' -> objs_same fake_obj w w' -> objects w' = objects w.
Proof.
  intros H H' Ho. apply bt_ext; [apply H'|apply H|]. intros k o. rewrite !bt_get_elem by (apply H || apply H').
  specialize (Ho k). unfold fake_obj in Ho. destruct (bt_get k (objects w)) as [o1|], (bt_get k (objects w')) as [o2|]; try done.
  simpl in Ho. injection Ho as H1 H2. destruct o1, o2. simpl in *. by subst.
Qed.

(** A state with other counters. *)
Lemma fake_inv_same w w' :
  objects w' = objects w -> uploads w' = uploads w -> next_etag w' = next_etag w -> next_upload w' = next_upload w ->
  fake_inv w -> fake_inv w' /\ store_same fake_obj fake_pend w w'.
Proof.
  intros E1 E2 E3 E4 [H1 H2 H3 H4 H5 H6]. split.
  - constructor; rewrite ?E1, ?E2, ?E3, ?E4; done.
  - split; intros k; unfold fake_obj, fake_pend; by rewrite ?E1, ?E2.
Qed.

Lemma store_lands k d w :
  fake_inv w -> fake_inv (store k d w) /\ pend_same fake_pend w (store k d w) /\ landed fake_obj k d w (store k d w).
Proof.
  intros HI. pose proof (fk_etag w HI) as Hnn. split; [|split; [done|split]].
  - unfold store. constructor; cbn [objects uploads next_etag next_upload set_objects]; try apply HI; [apply bt_wf_insert, HI|lia|].
    intros k' o Ho. destruct (decide (k = k')) as [->|Hk].
    + rewrite bt_get_insert_eq in Ho. injection Ho as <-. exists (next_etag w + 1). split; [done|lia].
    + rewrite bt_get_insert_ne in Ho by done. destruct (fk_etags w HI k' o Ho) as (n & Hn & ?). exists n. split; [done|lia].
  - exists (etag_text (next_etag w + 1)). unfold fake_obj, store. cbn [objects set_objects]. rewrite bt_get_insert_eq. split; [done|].
    intros k' d' Ho. destruct (bt_get k' (objects w)) as [o|] eqn:Hg; [|done]. injection Ho as _ Ho.
    destruct (fk_etags w HI k' o Hg) as (n & Hn & ?). rewrite Hn in Ho. apply etag_text_inj in Ho; lia.
  - intros k' Hk. unfold fake_obj, store. cbn [objects set_objects]. by rewrite bt_get_insert_ne by done.
Qed.

Lemma remove_removes k w :
  fake_inv w ->
  let w' := set_objects (bt_remove k (objects w)) (next_etag w) w in
  fake_inv w' /\ pend_same fake_pend w w' /\ removed fake_obj k w w'.
Proof.
  intros HI w'. pose proof (bt_get_remove_eq k _ (fk_objects w HI)) as Hr. split; [|split; [done|split]].
  - unfold w'. constructor; cbn [objects uploads next_etag next_upload set_objects]; try apply HI; [apply bt_wf_remove, HI|].
    intros k' o Ho. destruct (decide (k = k')) as [<-|Hk]; [congruence|]. rewrite bt_get_remove_ne in Ho by done. by eapply fk_etags.
  - unfold fake_obj, w'. cbn [objects set_objects]. by rewrite Hr.
  - intros k' Hk. unfold fake_obj, w'. cbn [objects set_objects]. by rewrite bt_get_remove_ne.
Qed.

(** An upload [u], or none, under an identifier handed out. *)
Lemma set_upload_sets id (u : option PendingUpload) n w :
  fake_inv w -> next_upload w <= n -> (is_Some u -> exists m, id = upload_text m /\ 0 <= m <= n) ->
  let w' := set_uploads (match u with Some u => bt_insert id u (uploads w) | None => bt_remove id (uploads w) end) n w in
  fake_inv w' /\ objs_same fake_obj w w' /\ pend_set fake_pend id ((fun u => (pu_key u, pu_parts u)) <$> u) w w'.
Proof.
  intros HI Hn Hid w'. pose proof (bt_get_remove_eq id _ (fk_uploads w HI)) as Hr.
  assert (forall id', bt_get id' (uploads w') = if decide (id = id') then u else bt_get id' (uploads w)) as Hget.
  { intros id'. unfold w'. cbn [uploads set_uploads]. destruct u; case_decide; subst; rewrite ?bt_get_insert_eq; try done;
      by rewrite ?bt_get_insert_ne, ?bt_get_remove_ne. }
  split; [|split; [done|split]].
  - unfold w' in *. constructor; cbn [objects uploads next_etag next_upload set_uploads] in *; try apply HI.
    + destruct u; [apply bt_wf_insert, HI|apply bt_wf_remove, HI].
    + pose proof (fk_upload w HI). lia.
    + intros id' u' Hu. rewrite Hget in Hu. case_decide as Hd; [subst id'; apply Hid; by rewrite Hu|].
      destruct (fk_ids w HI id' u' Hu) as (m & ? & ?). exists m. split; [done|lia].
  - unfold fake_pend. by rewrite Hget, decide_True.
  - intros id' Hd. unfold fake_pend. by rewrite Hget, decide_False.
Qed.

Lemma condition_ok k p w : check_condition k p w = Ok tt -> satisfied fake_obj p k w.
Proof.
  unfold check_condition, satisfied, fake_obj. destruct p; [done|by destruct (bt_get k (objects w))|].
  destruct (bt_get k (objects w)) as [o|]; [|done]. case_bool_decide as H; [|done]. intros _. exists (so_body o). simpl. by rewrite H.
Qed.

Lemma condition_returns k p w : returns (check_condition k p w).
Proof. unfold check_condition. by repeat case_match. Qed.

Lemma gather_gathered parts m d : gathered m parts d -> gather parts m = Ok d.
Proof. induction 1 as [|p parts b d Hp _ IH]; [done|]. simpl. rewrite Hp. simpl. by rewrite IH. Qed.

Abbreviation lawful m w Q := (wp m w Q (fun _ w' => fake_inv w' /\ store_same fake_obj fake_pend w w')).

Lemma mutate_then {A} (k : unit -> BM A) w (Q : A -> BucketState -> Prop) (R : RemoteError -> BucketState -> Prop) :
  fake_inv w ->
  (forall w1, fake_inv w1 -> store_same fake_obj fake_pend w w1 -> objects w1 = objects w -> uploads w1 = uploads w -> wp (k tt) w1 Q R) ->
  wp (let! u := mutate in k u) w Q R.
Proof.
  intros HI Hk. unfold mutate. do 3 wp_step. wp_step. destruct (fake_inv_same w (count_mutation w)) as [H1 H2]; [done..|]. by apply Hk.
Qed.

Lemma fake_head_right q w :
  fake_inv w ->
  wp (fake_head q) w
    (fun f w' => fake_inv w' /\ store_same fake_obj fake_pend w w' /\ exists d, fake_obj w (hq_key q) = Some (d, rf_etag f) /\ rf_len f = len d)
    (fun e w' => fake_inv w' /\ store_same fake_obj fake_pend w w' /\ (e = Missing -> fake_obj w (hq_key q) = None)).
Proof.
  intros HI. unfold fake_head. do 3 wp_step. apply wp_ok_or.
  - intros o Ho. wp_step. split; [done|]. split; [reflexivity|]. exists (so_body o). split; [by apply obj_get|done].
  - intros Hn. split; [done|]. split; [reflexivity|]. intros _. unfold fake_obj. by rewrite Hn.
Qed.

Lemma fake_list_right q w :
  fake_inv w -> 0 < default 1 (lq_max_keys q) ->
  wp (fake_list q) w
    (fun page w' => fake_inv w' /\ store_same fake_obj fake_pend w w' /\ exists shown left,
       fake_rest w (lq_prefix q) (lq_delimiter q) (lq_continuation q) = shown ++ left
       /\ lr_objects page = entry_objects shown /\ lr_common_prefixes page = entry_prefixes shown
       /\ if lr_truncated page
          then shown <> [] /\ forall t, lr_next_continuation page = Some t -> t <> [] ->
                              fake_rest w (lq_prefix q) (lq_delimiter q) (Some t) = left
          else left = [])
    (fun _ _ => False).
Proof.
  intros HI Hmax. unfold fake_list. wp_steps. split; [by eapply (fake_inv_same w)|]. split; [by eapply (fake_inv_same w)|].
  unfold page_of. cbn [lr_objects lr_common_prefixes lr_truncated lr_next_continuation].
  change (foldl (add_entry q) [] (objects w)) with (entries q w).
  set (limit := Z.to_nat (default 1000 (lq_max_keys q))). assert (0 < limit)%nat as Hl.
  { unfold limit. destruct (lq_max_keys q); simpl in *; lia. }
  set (m := entries q w). exists (to_entry <$> take limit m), (to_entry <$> drop limit m).
  split; [|split; [by rewrite to_entry_objects|split; [by rewrite to_entry_prefixes|]]].
  - rewrite <- fmap_app, take_drop. unfold m, fake_rest. by rewrite (entries_continue q).
  - case_bool_decide as Ht.
    + split.
      * intros H%fmap_nil_inv. apply (f_equal length) in H. rewrite length_take in H. simpl in H. lia.
      * intros t Hlast _. destruct (last (take limit m)) as [x|] eqn:Hx; [|done]. injection Hlast as <-.
        unfold fake_rest, m in *. rewrite (entries_continue q) in Hx |- *. f_equal. apply (next_page_starts (lq_continuation q)); [apply entries_sorted|done].
    + rewrite drop_ge by lia. done.
Qed.

Lemma fake_get_right q w :
  fake_inv w ->
  lawful (fake_get q) w
    (fun r w' => fake_inv w' /\ store_same fake_obj fake_pend w w' /\ exists d, fake_obj w (gq_key q) = Some (d, gq_if_match q)
       /\ forall a b, gq_range q = range_text a b -> 0 <= a <= b -> b < len d -> b <= USIZE_MAX ->
          gr_body r = take (Z.to_nat (b + 1 - a)) (drop (Z.to_nat a) d)).
Proof.
  intros HI. unfold fake_get. do 3 wp_step. apply wp_ok_or; [|by split; [|reflexivity]]. intros o Ho.
  wp_step; [by wp_step; split; [|reflexivity]|]. wp_step. apply wp_ok_or; [|by split; [|reflexivity]]. intros [a b] Hr. cbv beta iota.
  wp_step; [|by wp_step; split; [|reflexivity]]. cbv zeta. wp_step. split; [done|]. split; [reflexivity|]. exists (so_body o).
  split; [rewrite (obj_get _ _ _ Ho); congruence|]. intros a' b' Hrange H1 H2 H3. cbn [gr_body].
  rewrite Hrange, parse_range_text in Hr by lia. by injection Hr as <- <-.
Qed.

Lemma same_trans_pend w w1 w2 : store_same fake_obj fake_pend w w1 -> pend_same fake_pend w1 w2 -> pend_same fake_pend w w2.
Proof. intros [_ H1] H2 id. by rewrite H2, H1. Qed.

Lemma same_trans_objs w w1 w2 : store_same fake_obj fake_pend w w1 -> objs_same fake_obj w1 w2 -> objs_same fake_obj w w2.
Proof. intros [H1 _] H2 id. by rewrite H2, H1. Qed.

Lemma same_pend_set id u w w1 w2 : store_same fake_obj fake_pend w w1 -> pend_set fake_pend id u w1 w2 -> pend_set fake_pend id u w w2.
Proof. intros [_ H1] [H2 H3]. split; [done|]. intros id' Hid. by rewrite H3, H1. Qed.

(** Putting an object that was allowed to be put. *)
Lemma store_put k d k' p w w1 :
  fake_inv w1 -> store_same fake_obj fake_pend w w1 -> satisfied fake_obj p k' w1 ->
  fake_inv (store k d w1) /\ pend_same fake_pend w (store k d w1) /\ satisfied fake_obj p k' w /\ landed fake_obj k d w (store k d w1).
Proof.
  intros HI Hs Hp. destruct (store_lands k d w1 HI) as (H1 & H2 & H3). split; [done|]. split; [by eapply same_trans_pend|].
  split; [eapply satisfied_same; [apply Hs|done]|]. eapply landed_same_l; [apply Hs|done].
Qed.

Lemma fake_put_right q w :
  fake_inv w ->
  lawful (fake_put q) w
    (fun _ w' => fake_inv w' /\ pend_same fake_pend w w' /\ satisfied fake_obj (pq_precondition q) (pq_key q) w
       /\ landed fake_obj (pq_key q) (pq_body q) w w').
Proof.
  intros HI. unfold fake_put. apply mutate_then; [done|]. intros w1 HI1 Hs _ _. do 3 wp_step.
  apply wp_lift; [apply condition_returns| |done]. intros [] Hc%condition_ok. wp_step. by apply store_put.
Qed.

Lemma fake_delete_right q w :
  fake_inv w ->
  wp (fake_delete q) w
    (fun _ w' => fake_inv w' /\ pend_same fake_pend w w' /\ satisfied fake_obj (dq_precondition q) (dq_key q) w
       /\ removed fake_obj (dq_key q) w w')
    (fun e w' => fake_inv w' /\ pend_same fake_pend w w' /\ objs_same fake_obj w w').
Proof.
  intros HI. unfold fake_delete. apply mutate_then; [done|]. intros w1 HI1 Hs Ho _. do 3 wp_step.
  apply wp_lift; [apply condition_returns| |intros e _; by destruct Hs]. intros [] Hc%condition_ok. do 3 wp_step.
  destruct (remove_removes (dq_key q) w1 HI1) as (H1 & H2 & H3). cbv zeta in *. apply wp_ok_or.
  - intros o _. wp_step. split; [done|]. split; [by eapply same_trans_pend|]. split; [eapply satisfied_same; [apply Hs|done]|].
    destruct H3 as [H3 H4]. split; [done|]. intros k Hk. rewrite H4 by done. apply Hs.
  - intros Hn. split; [done|]. split; [by eapply same_trans_pend|]. eapply same_trans_objs; [exact Hs|]. intros k.
    unfold fake_obj. cbn [objects set_objects]. by rewrite bt_remove_None.
Qed.

Lemma fake_copy_right q w :
  fake_inv w ->
  lawful (fake_copy q) w
    (fun _ w' => fake_inv w' /\ pend_same fake_pend w w' /\ satisfied fake_obj (cq_source_if_match q) (cq_source_key q) w
       /\ exists d e, fake_obj w (cq_source_key q) = Some (d, e) /\ landed fake_obj (cq_key q) d w w').
Proof.
  intros HI. unfold fake_copy. apply mutate_then; [done|]. intros w1 HI1 Hs Ho _. do 3 wp_step.
  apply wp_lift; [apply condition_returns| |done]. intros [] Hc%condition_ok. wp_step.
  apply wp_ok_or; [|done]. intros o Hg. wp_step.
  destruct (store_put (cq_key q) (so_body o) _ _ w w1 HI1 Hs Hc) as (H1 & H2 & H3 & H4). do 3 (split; [done|]).
  exists (so_body o), (so_etag o). split; [|done]. apply obj_get. by rewrite <- Ho.
Qed.

Lemma fake_create_upload_right q w :
  fake_inv w ->
  lawful (fake_create_upload q) w
    (fun id w' => fake_inv w' /\ objs_same fake_obj w w' /\ fake_pend w id = None /\ pend_set fake_pend id (Some (uq_key q, ∅)) w w').
Proof.
  intros HI. unfold fake_create_upload. apply mutate_then; [done|]. intros w1 HI1 Hs _ Hu. do 5 wp_step.
  set (n := next_upload w1 + 1). pose proof (fk_upload w1 HI1) as Hnn.
  destruct (set_upload_sets (upload_text n) (Some (mkPendingUpload (uq_key q) ∅)) n w1 HI1) as (H1 & H2 & H3);
    [lia|intros _; exists n; split; [done|lia]|]. split; [done|]. split; [by eapply same_trans_objs|].
  split; [|by eapply same_pend_set]. unfold fake_pend. rewrite <- Hu. destruct (bt_get _ (uploads w1)) as [u|] eqn:Hg; [|done].
  destruct (fk_ids w1 HI1 _ _ Hg) as (m & Hm & ?). apply upload_text_inj in Hm; lia.
Qed.

(** An upload there is, by its number. *)
Lemma known_id w id u : fake_inv w -> bt_get id (uploads w) = Some u -> exists m, id = upload_text m /\ 0 <= m <= next_upload w.
Proof. intros HI Hu. exact (fk_ids w HI id u Hu). Qed.

Lemma fake_upload_part_right q m w :
  fake_inv w -> fake_pend w (tq_upload_id q) = Some (tq_key q, m) ->
  lawful (fake_upload_part q) w
    (fun _ w' => fake_inv w' /\ objs_same fake_obj w w'
       /\ pend_set fake_pend (tq_upload_id q) (Some (tq_key q, <[tq_part_number q := tq_body q]> m)) w w').
Proof.
  intros HI Hp. unfold fake_upload_part. apply mutate_then; [done|]. intros w1 HI1 Hs _ Hu. do 2 wp_step. wp_step; [by wp_step|].
  wp_step. apply wp_ok_or; [|done]. intros u Hg. unfold fake_pend in Hp. rewrite <- Hu, Hg in Hp. injection Hp as Hk Hm.
  rewrite Hk, bool_decide_true by done. simpl negb. cbv iota zeta. do 3 wp_step.
  destruct (set_upload_sets (tq_upload_id q) (Some (mkPendingUpload (tq_key q) (<[tq_part_number q := tq_body q]> (pu_parts u))))
    (next_upload w1) w1 HI1) as (H1 & H2 & H3); [lia|intros _; by eapply known_id|]. simpl in H3. rewrite Hm in H3 at 1.
  split; [done|]. split; [by eapply same_trans_objs|]. by eapply same_pend_set.
Qed.

Lemma fake_complete_upload_right q m d w :
  fake_inv w -> fake_pend w (eq_upload_id q) = Some (eq_key q, m) -> numbered (eq_parts q) -> gathered m (eq_parts q) d ->
  lawful (fake_complete_upload q) w
    (fun _ w' => fake_inv w' /\ pend_set fake_pend (eq_upload_id q) None w w'
       /\ satisfied fake_obj (eq_precondition q) (eq_key q) w /\ landed fake_obj (eq_key q) d w w').
Proof.
  intros HI Hp Hn Hg. unfold fake_complete_upload. apply mutate_then; [done|]. intros w1 HI1 Hs _ Hu. do 4 wp_step.
  destruct (fake_inv_same w1 (count_completed w1)) as [HI2 Hs2]; [done..|]. assert (store_same fake_obj fake_pend w (count_completed w1)) as Hs3 by by etrans.
  wp_step. apply wp_ok_or; [|done]. intros u Hu'. unfold fake_pend in Hp. rewrite <- Hu, Hu' in Hp. injection Hp as Hk Hm.
  wp_step. apply wp_lift; [apply condition_returns| |done]. intros [] Hc%condition_ok. rewrite bool_decide_true by done. simpl negb. cbv iota.
  wp_step. apply (wp_ok _ d); [apply gather_gathered; by rewrite Hm|]. wp_steps.
  destruct (set_upload_sets (eq_upload_id q) None (next_upload (count_completed w1)) (count_completed w1) HI2) as (H1 & H2 & H3); [lia|by intros [? ?]|].
  cbn [uploads] in *. set (w3 := set_uploads _ _ (count_completed w1)) in *. destruct (store_lands (eq_key q) d w3 H1) as (H4 & H5 & H6).
  split; [done|]. split; [destruct (same_pend_set _ _ _ _ _ Hs3 H3) as [H7 H8]; split; [by rewrite H5|intros id Hid; by rewrite H5, H8]|].
  split; [eapply satisfied_same; [apply Hs|done]|]. eapply landed_same_l; [|exact H6]. by eapply same_trans_objs.
Qed.

Lemma fake_abort_upload_right q w :
  fake_inv w ->
  wp (fake_abort_upload q) w
    (fun _ w' => fake_inv w' /\ objs_same fake_obj w w' /\ pend_set fake_pend (aq_upload_id q) None w w')
    (fun e w' => (fake_inv w' /\ store_same fake_obj fake_pend w w') /\ fake_pend w (aq_upload_id q) = None).
Proof.
  intros HI. unfold fake_abort_upload. apply mutate_then; [done|]. intros w1 HI1 Hs _ Hu. do 4 wp_step. cbv zeta.
  destruct (fake_inv_same w1 (note_aborted (aq_upload_id q) w1)) as [HI2 Hs2]; [done..|].
  assert (store_same fake_obj fake_pend w (note_aborted (aq_upload_id q) w1)) as Hs3 by by etrans.
  destruct (set_upload_sets (aq_upload_id q) None (next_upload w1) (note_aborted (aq_upload_id q) w1) HI2) as (H1 & H2 & H3); [done|by intros [? ?]|].
  wp_steps. apply wp_ok_or.
  - intros u _. wp_step. split; [done|]. split; [by eapply same_trans_objs|]. by eapply same_pend_set.
  - intros Hn. change (uploads (note_aborted (aq_upload_id q) w1)) with (uploads w1) in Hn.
    split; [|unfold fake_pend; by rewrite <- Hu, Hn]. split; [done|]. etrans; [exact Hs3|]. split; [done|].
    intros id. unfold fake_pend. cbn [uploads set_uploads note_aborted]. by rewrite bt_remove_None.
Qed.

#[export] Instance fake_laws : S3Laws fake_obj fake_pend fake_rest fake_inv fake_bucket.
Proof.
  constructor; cbn [fake_bucket o_head o_list o_get o_put o_delete o_copy o_create_upload o_upload_part o_complete_upload o_abort_upload].
  - intros w w' p d c HI HI' [Ho _]. unfold fake_rest, entries. by rewrite (same_objects w w' HI HI' Ho).
  - apply fake_head_right.
  - intros q w HI Hmax. eapply wp_mono; [by apply fake_list_right|done|done].
  - intros w p d e. apply fake_listed.
  - apply fake_get_right.
  - intros q w HI. eapply wp_mono; [by apply fake_put_right|done|]. intros e w' (? & ? & ?). split; [done|]. split; [done|]. by left.
  - intros q w HI. eapply wp_mono; [by apply fake_delete_right|done|]. intros e w' (? & ? & ?). split; [done|]. split; [done|]. by left.
  - intros q w HI. eapply wp_mono; [by apply fake_copy_right|done|]. intros e w' (? & ? & ?). split; [done|]. split; [done|]. by left.
  - intros q w HI. eapply wp_mono; [by apply fake_create_upload_right|done|]. intros e w' (? & ? & ?). split; [done|]. split; [done|]. by left.
  - intros q m w HI Hp. eapply wp_mono; [by apply fake_upload_part_right|done|]. intros e w' (? & ? & Hsame). split; [done|]. split; [done|].
    exists m. split; [by rewrite Hsame|auto].
  - intros q m d w HI Hp Hn Hg. eapply wp_mono; [by apply (fake_complete_upload_right q m d)|done|]. intros e w' [? ?]. split; [done|]. by left.
  - intros q w HI. eapply wp_mono; [by apply fake_abort_upload_right|done|]. intros e w' [[? ?] ?]. done.
Qed.

#[export] Instance fake_reliable : ReliableAborts fake_pend fake_inv fake_bucket.
Proof.
  intros q w HI [u Hu]. pose proof (fake_abort_upload_right q w HI) as H. unfold wp in H. cbn [o_abort_upload fake_bucket].
  destruct (fake_abort_upload q w) as [[[]|e| |] w']; simpl in *; [done|destruct H as [_ H]; congruence|done..].
Qed.

#[export] Instance fake_answers : AnsweredCreates fake_pend fake_inv fake_bucket.
Proof.
  intros q w e w' HI Hc. pose proof (fake_create_upload_right q w HI) as H. unfold wp in H. cbn [o_create_upload fake_bucket] in Hc.
  rewrite Hc in H. destruct H as [_ [_ H]]. exact H.
Qed.

(** A bucket that begins an upload and loses the answer. *)
Definition losing_bucket : S3Ops BucketState :=
  mkS3Ops fake_head fake_list fake_get fake_put fake_delete fake_copy
    (fun q => let! _ := fake_create_upload q in sfail Io) fake_upload_part fake_complete_upload fake_abort_upload.

#[export] Instance losing_laws : S3Laws fake_obj fake_pend fake_rest fake_inv losing_bucket.
Proof.
  destruct fake_laws as [L1 L2 L3 L4 L5 L6 L7 L8 L9 L10 L11 L12]. constructor; try assumption.
  intros q w HI. cbn [losing_bucket o_create_upload]. wp_step.
  eapply wp_mono; [exact (L9 q w HI)|..]; cbv beta; [|done].
  intros id w' (HI' & Ho & Hn & Hs). wp_step. split; [done|]. split; [done|]. right. eauto.
Qed.

(** More pages than there are entries to show. *)
Definition fake_pages (w : BucketState) : nat := S (length (objects w)).

Lemma bt_insert_length {V} k (v : V) m : (length (bt_insert k v m) <= S (length m))%nat.
Proof. induction m as [|[k' v'] m IH]; simpl; [lia|]. destruct (str_compare k k'); simpl; lia. Qed.

Lemma fake_pages_enough : pages_enough fake_rest fake_inv fake_pages.
Proof.
  intros w p d c _. unfold fake_rest, fake_pages, entries. rewrite length_fmap.
  assert (forall xs m, (length (foldl (add_entry (query p d None)) m xs) <= length m + length xs)%nat) as H.
  { induction xs as [|x xs IH]; intros m; simpl; [lia|]. etrans; [apply IH|]. unfold add_entry.
    destruct (list_entry _ x.1 x.2) as [[k n]|]; [|lia]. case_match; [|lia]. pose proof (bt_insert_length k n m). lia. }
  pose proof (H (objects w) []) as Hlen. simpl in Hlen. pose proof (length_filter (in_order c) (foldl (add_entry (query p d None)) [] (objects w))). lia.
Qed.

Lemma fake_starts : fake_inv empty_bucket.
Proof. constructor; try done; constructor. Qed.
