(* ===== verification/S3Spec.v ===== *)
(** * The S3 filesystem: what it promises

    The properties of the filesystem, from the moment [with_ops] makes it, over any
    store that obeys [S3Laws], and over any store at all for the requests it makes.
    Each is shown at work on the bucket in memory of the tests. *)

From Stdlib Require Import Ascii String Sorted.
From S2P Require Import Prelude RustStr BTreeMap VfsTypes VfsPath VfsIface MemVfs MemVfsFiles FileLaws.
From S2P Require Import SandboxFs S3Types S3Vfs S3Bucket S3Laws S3Stage S3Listing S3Handles S3Scope.
From S2P Require Import S3System S3Fake.

#[local] Open Scope Z_scope.

(** What [with_ops] makes. *)
Lemma with_ops_makes {W} (ops : S3Ops W) bucket prefix config v start :
  with_ops ops bucket prefix config = Ok (v, start) ->
  s3_ops v = ops /\ s3_config v = config /\ s3_part_size v = INITIAL_PART_SIZE /\ forall w, start w = mkS3State w 1 [] ∅.
Proof.
  unfold with_ops. destruct (validate_bucket bucket) as [[]| | |]; try done. simpl.
  destruct (normalize_prefix (default [] prefix)) as [root| | |]; try done. simpl. by intros [= <- <-].
Qed.

Lemma initial_part_fits : 0 < INITIAL_PART_SIZE <= USIZE_MAX.
Proof. unfold INITIAL_PART_SIZE, USIZE_MAX. lia. Qed.

Definition with_part_size {W} (n : Z) (v : S3Vfs W) : S3Vfs W :=
  mkS3Vfs (s3_ops v) (s3_bucket v) (s3_root_prefix v) (s3_config v) n.

(** A filesystem over a lawful store, just made. *)
Section made.
Context {W : Type} (ops : S3Ops W) (pages : W -> nat).
Context (obj : W -> str -> option (bytes * str)) (pend : W -> str -> option (str * gmap Z bytes)).
Context (rest : W -> str -> str -> option str -> list Entry) (J : W -> Prop).
Context (bucket : str) (prefix : option str) (config : S3VfsConfig) (v : S3Vfs W) (start : W -> S3State W).

(** A store that obeys the laws, listings read to the end, and what [with_ops]
    made of them, whatever the size of the first parts: tests make it small. *)
Record s3_made : Prop := {
  made_laws : S3Laws obj pend rest J ops;
  made_pages : pages_enough rest J pages;
  made_by : exists v0, with_ops ops bucket prefix config = Ok (v0, start) /\ v = with_part_size (s3_part_size v) v0;
  made_part : 0 < s3_part_size v <= USIZE_MAX;
  made_max : 0 <= cfg_max_edit_bytes config
}.

(** The states that calls lead to, those included that hold on to the cell of a
    handle another thread closed. *)
Definition s3_reached (w : W) (s : S3State W) : Prop :=
  exists calls, Forall (fun c => c <> CallDrop) calls /\ s = after_calls v pages calls (start w).

Section facts.
Context (HM : s3_made).

Lemma made_facts : s3_ops v = ops /\ s3_config v = config /\ forall w, start w = mkS3State w 1 [] ∅.
Proof.
  destruct (made_by HM) as (v0 & Hv0 & Hv). destruct (with_ops_makes _ _ _ _ _ _ Hv0) as (Ho & Hc & _ & Hs). rewrite Hv. simpl.
  by rewrite Ho, Hc.
Qed.

Lemma made_lawful : S3Laws obj pend rest J (s3_ops v).
Proof. destruct made_facts as (-> & _). apply HM. Qed.

Lemma made_edit : 0 <= cfg_max_edit_bytes (s3_config v).
Proof. destruct made_facts as (_ & -> & _). apply HM. Qed.

Lemma start_inv w : J w -> s3_inv v pend J (pend w) (start w).
Proof. intros HJ. destruct made_facts as (_ & _ & ->). by apply s3_starts. Qed.

Lemma reached_inv w s : J w -> s3_reached w s -> s3_inv v pend J (pend w) s.
Proof.
  intros HJ (calls & Hc & ->).
  apply (calls_keep_inv v pages obj pend rest J (Hl := made_lawful) (made_pages HM) (made_part HM) made_edit); [done|by apply start_inv].
Qed.
End facts.
End made.

(** ** At work on the bucket in memory *)

Definition docs_bucket : str := lit "docs".
Definition docs_fs : S3Vfs BucketState := mkS3Vfs fake_bucket docs_bucket (lit "team/") default_config INITIAL_PART_SIZE.
Definition docs_start (w : BucketState) : S3State BucketState := mkS3State w 1 [] ∅.

Lemma docs_made :
  s3_made fake_bucket fake_pages fake_obj fake_pend fake_rest fake_inv docs_bucket (Some (lit "/team/")) default_config docs_fs docs_start.
Proof. split; [exact fake_laws|exact fake_pages_enough|by eexists|exact initial_part_fits|by vm_compute]. Qed.

(** A bucket with two objects, one below a directory, and an upload begun by
    someone else. *)
Definition docs_world : BucketState :=
  ((let! _ := fake_put (mkPutRequest docs_bucket (lit "team/readme") [104; 105] PreNone) in
    let! _ := fake_put (mkPutRequest docs_bucket (lit "team/src/main") [1; 2; 3] PreNone) in
    fake_create_upload (mkCreateUploadRequest docs_bucket (lit "other/big"))) empty_bucket).2.

Lemma docs_world_lawful : fake_inv docs_world.
Proof.
  unfold docs_world. apply wp_post_state. wp_step. eapply wp_mono; [apply fake_put_right, fake_starts| |by intros ? ? [? _]]. intros _ w1 [H1 _].
  wp_step. eapply wp_mono; [by apply fake_put_right| |by intros ? ? [? _]]. intros _ w2 [H2 _].
  eapply wp_mono; [by apply fake_create_upload_right|by intros ? ? [? _]..].
Qed.

(** C14: The requests of an S3 filesystem are about its bucket and about keys below its
    root prefix, and one that is configured read-only makes none that changes the
    store: after any calls, failed ones, ones on stale handles and the final drop
    included, and whatever the store answers. *)
Theorem s3_requests_scoped {W} (ops : S3Ops W) (pages : W * list Request -> nat) bucket prefix config v start calls w :
  with_ops (traced ops) bucket prefix config = Ok (v, start) ->
  Forall (fun q => request_bucket q = bucket
                   /\ Forall (fun k => starts_with k (s3_root_prefix v) = true) (request_keys q)
                   /\ (mutates q = true -> cfg_read_only config = false))
    (s3_store (after_calls v pages calls (start (w, [])))).2.
Proof.
  intros Hv. assert (s3_bucket v = bucket) as Hb.
  { unfold with_ops in Hv. destruct (validate_bucket bucket) as [[]| | |]; try done. simpl in Hv.
    destruct (normalize_prefix _); try done. simpl in Hv. by injection Hv as <- _. }
  destruct (with_ops_makes _ _ _ _ _ _ Hv) as (Hops & Hcfg & _ & Hstart).
  pose proof (calls_ok v pages _ (traced_keeps ops v Hops) calls (start (w, []))) as [H _].
  { rewrite Hstart. split; [constructor|]. apply map_Forall_empty. }
  unfold allowed, under in H. by rewrite Hb, Hcfg in H.
Qed.

Lemma s3_requests_scoped_witness :
  let s := after_calls (mkS3Vfs (traced fake_bucket) docs_bucket (lit "team/") read_only_config INITIAL_PART_SIZE) (fun w => fake_pages w.1)
             [CallOpen (lit "/readme") read_only; CallReadAt 1 0 [0; 0]; CallUnlink (lit "/readme")] (mkS3State (docs_world, []) 1 [] ∅) in
  (length (s3_store s).2 = 3)%nat
  /\ Forall (fun q => request_bucket q = docs_bucket /\ Forall (fun k => starts_with k (lit "team/") = true) (request_keys q)
                      /\ (mutates q = true -> true = false)) (s3_store s).2.
Proof.
  split; [vm_compute; reflexivity|].
  apply (s3_requests_scoped fake_bucket (fun w => fake_pages w.1) docs_bucket (Some (lit "team")) read_only_config
    (mkS3Vfs (traced fake_bucket) docs_bucket (lit "team/") read_only_config INITIAL_PART_SIZE) (fun w => mkS3State w 1 [] ∅)
    [CallOpen (lit "/readme") read_only; CallReadAt 1 0 [0; 0]; CallUnlink (lit "/readme")] docs_world).
  reflexivity.
Defined.

(** C16: Over any lawful store the S3 filesystem is a backend as the sandbox relies on,
    when it limits the bodies it edits to what a vector can hold, as the default
    configuration does: no method panics or runs on, [open] gives out fresh handles
    and [close] and [abort] take theirs back whatever they return, and opening needs
    no room; what is proved of sandboxes over lawful backends holds over S3.  With or
    without a limit, every call keeps the invariant, one that panics included. *)
Theorem s3_is_a_backend {W} (ops : S3Ops W) pages obj pend rest J bucket prefix config v start w :
  s3_made ops pages obj pend rest J bucket prefix config v start -> J w ->
  (0 < cfg_max_edit_bytes config <= ISIZE_MAX ->
     FdLaws (s3_inv v pend J (pend w)) (fun _ => True) s3_owned (s3_vfs v pages)
     /\ RoomLaws (s3_inv v pend J (pend w)) (fun _ => True) (fun _ _ => True) (s3_vfs v pages))
  /\ forall s, s3_reached pages v start w s -> s3_inv v pend J (pend w) s.
Proof.
  intros HM HJ. pose proof (made_lawful _ _ _ _ _ _ _ _ _ _ _ HM) as Hl.
  pose proof (made_part _ _ _ _ _ _ _ _ _ _ _ HM) as Hpart. pose proof (made_edit _ _ _ _ _ _ _ _ _ _ _ HM) as Hedit.
  split; [intros Hlim|intros s; by eapply reached_inv]. assert (edits_limited v) as Hlim'.
  { destruct (made_facts _ _ _ _ _ _ _ _ _ _ _ HM) as (_ & Hcfg & _). unfold edits_limited. by rewrite Hcfg. }
  split; [exact (s3_laws v pages obj pend rest J (made_pages _ _ _ _ _ _ _ _ _ _ _ HM) Hpart Hedit (pend w) Hlim')|].
  exact (s3_rooms v pages obj pend rest J (made_pages _ _ _ _ _ _ _ _ _ _ _ HM) Hpart Hedit (pend w) Hlim').
Qed.

Lemma s3_is_a_backend_witness :
  FdLaws (s3_inv docs_fs fake_pend fake_inv (fake_pend docs_world)) (fun _ => True) s3_owned (s3_vfs docs_fs fake_pages).
Proof.
  apply (s3_is_a_backend fake_bucket fake_pages fake_obj fake_pend fake_rest fake_inv docs_bucket (Some (lit "/team/")) default_config
    docs_fs docs_start docs_world); [exact docs_made|exact docs_world_lawful|by vm_compute].
Defined.

(** C12: An open handle is a draft of its object: reading shows the draft, writing and
    truncating change it as they change a file and change no object and no other
    draft, or leave it, or give it up for good; closing removes the handle and puts
    the draft, and only the draft, as a new revision under the precondition of the
    handle, or puts nothing when there is nothing to put.  A failed close has
    changed no object, unless the answer of the store was lost.  A write or a cut
    panics only when it makes the draft longer than a vector can be, which a limit on
    edited bodies rules out, and then changes nothing. *)
Theorem s3_handle_is_a_draft {W} (ops : S3Ops W) pages obj pend rest J bucket prefix config v start w s h k a p dt d :
  s3_made ops pages obj pend rest J bucket prefix config v start -> J w -> s3_reached pages v start w s ->
  s3_draft v obj pend s h k a p dt d ->
  let still := fun s' => s3_draft v obj pend s' h k a p dt d in
  let undone := fun e s' => untouched v obj pend h s s' /\ (s3_failed s' h e \/ still s') in
  let panicked := fun stop s' => overlong_edit v d stop /\ untouched v obj pend h s s' /\ still s' in
  (forall offset buf, 0 <= offset ->
     wp (s3_read_at v h offset buf) s
       (fun r s' => r = read_result d offset buf /\ untouched v obj pend h s s' /\ still s')
       (fun _ s' => untouched v obj pend h s s' /\ still s'))
  /\ (forall offset new,
     ends (panicked (write_stop (a_append a) offset new d)) (s3_write_at v h offset new) s
       (fun n s' => n = len new /\ untouched v obj pend h s s'
          /\ s3_draft v obj pend s' h k a p (dt || negb (bool_decide (new = []))) (write_result d a offset new)) undone)
  /\ (forall n,
     ends (panicked n) (s3_truncate v h n) s
       (fun _ s' => untouched v obj pend h s s' /\ s3_draft v obj pend s' h k a p true (resize d n)) undone)
  /\ wp (s3_close v h) s
       (fun _ s' => s3_owned s' = s3_owned s ∖ {[h]}
          /\ (s3_landed v obj k p d s s' \/ dt = false /\ objs_same obj (s3_store s) (s3_store s')))
       (fun e s' => s3_owned s' = s3_owned s ∖ {[h]}
          /\ (objs_same obj (s3_store s) (s3_store s') \/ e = EIO /\ s3_landed v obj k p d s s')).
Proof.
  intros HM HJ Hs Hd still undone panicked. pose proof (made_lawful _ _ _ _ _ _ _ _ _ _ _ HM) as Hl.
  pose proof (made_part _ _ _ _ _ _ _ _ _ _ _ HM) as Hpart. pose proof (made_edit _ _ _ _ _ _ _ _ _ _ _ HM) as Hedit.
  assert (s3_inv v pend J (pend w) s) as HI by by eapply reached_inv. split; [|split; [|split]].
  - intros offset buf Ho. eapply wp_mono; [exact (s3_read_shows v obj pend rest J Hpart Hedit _ s h k a p dt d HI Hd offset buf Ho)|..].
    + intros r s' ((_ & Hu & Hst) & Hr). done.
    + intros e s' (_ & Hu & Hst). done.
  - intros offset new. eapply ends_panics; [eapply ends_mono; [exact (s3_write_changes v obj pend rest J Hpart Hedit _ s h k a p dt d HI Hd offset new)|..]|].
    + intros n s' (_ & Hu & Hn & Hd'). done.
    + intros e s' (_ & Hu & Hc). done.
    + intros s' (_ & Hu & Hst & Hlong). done.
  - intros n. eapply ends_panics; [eapply ends_mono; [exact (s3_truncate_cuts v obj pend rest J Hpart Hedit _ s h k a p dt d HI Hd n)|..]|].
    + intros [] s' (_ & Hu & Hd'). done.
    + intros e s' (_ & Hu & Hc). done.
    + intros s' (_ & Hu & Hst & Hlong). done.
  - eapply wp_mono; [exact (s3_close_lands v obj pend rest J Hpart _ s h k a p dt d HI Hd)|by intros ? ? [[_ ?] ?]..].
Qed.

Definition docs_calls : list S3Call := [CallOpen (lit "/readme") read_write].
Definition docs_opened : S3State BucketState := after_calls docs_fs fake_pages docs_calls (docs_start docs_world).

Lemma docs_opened_reached : s3_reached fake_pages docs_fs docs_start docs_world docs_opened.
Proof. exists docs_calls. split; [|reflexivity]. repeat constructor. discriminate. Qed.

Lemma docs_draft :
  s3_draft docs_fs fake_obj fake_pend docs_opened 1 (lit "team/readme") (access_of read_write) (PreMatch (etag_text 1)) false [104; 105].
Proof.
  exists (mkHandleState (lit "team/readme") read_write
    (Buffered (mkBuffer (Some (mkRemoteFile 2 (etag_text 1))) (PreMatch (etag_text 1)) None false)) false).
  split; [split; [vm_compute; left|vm_compute; reflexivity]|]. do 3 (split; [reflexivity|]). split; [discriminate|].
  split; vm_compute; reflexivity.
Qed.

Lemma s3_handle_is_a_draft_witness :
  let draft_of d dt s := s3_draft docs_fs fake_obj fake_pend s 1 (lit "team/readme") (access_of read_write) (PreMatch (etag_text 1)) dt d in
  write_result [104; 105] (access_of read_write) 2 [33] = [104; 105; 33]
  /\ ends (fun s' => overlong_edit docs_fs [104; 105] (write_stop (a_append (access_of read_write)) 2 [33] [104; 105])
       /\ untouched docs_fs fake_obj fake_pend 1 docs_opened s' /\ draft_of [104; 105] false s')
    (s3_write_at docs_fs 1 2 [33]) docs_opened
    (fun n s' => n = len [33] /\ untouched docs_fs fake_obj fake_pend 1 docs_opened s'
       /\ draft_of (write_result [104; 105] (access_of read_write) 2 [33]) (false || negb (bool_decide ([33] = []))) s')
    (fun e s' => untouched docs_fs fake_obj fake_pend 1 docs_opened s' /\ (s3_failed s' 1 e \/ draft_of [104; 105] false s')).
Proof.
  intros draft_of. split; [vm_compute; reflexivity|].
  exact (proj1 (proj2 (s3_handle_is_a_draft fake_bucket fake_pages fake_obj fake_pend fake_rest fake_inv docs_bucket (Some (lit "/team/"))
    default_config docs_fs docs_start docs_world docs_opened 1 (lit "team/readme") (access_of read_write) (PreMatch (etag_text 1)) false
    [104; 105] docs_made docs_world_lawful docs_opened_reached docs_draft)) 2 [33]).
Defined.

(** C15: Opening a path, editing the file and closing it either makes its object what
    the edits make of what was there, in one new revision and under the condition
    that it is still what was opened, changing no other object, or leaves every
    object as it was.  It panics only at an edit that makes the contents longer than
    a vector can be, and then leaves every object as it was. *)
Theorem s3_session_replaces_object {W} (ops : S3Ops W) pages obj pend rest J bucket prefix config v start w s path mode es :
  s3_made ops pages obj pend rest J bucket prefix config v start -> J w -> s3_reached pages v start w s ->
  ends (fun s' => session_overlong v obj path mode es (s3_store s) /\ objs_same obj (s3_store s) (s3_store s'))
    (edit_session v pages path mode es) s
    (fun _ s' => s3_owned s' = s3_owned s
       /\ (session_lands v obj path mode es (s3_store s) (s3_store s')
           \/ existsb edit_changes es = false /\ objs_same obj (s3_store s) (s3_store s')))
    (fun e s' => objs_same obj (s3_store s) (s3_store s')
       \/ e = EIO /\ session_lands v obj path mode es (s3_store s) (s3_store s')).
Proof.
  intros HM HJ Hs. pose proof (made_lawful _ _ _ _ _ _ _ _ _ _ _ HM) as Hl.
  pose proof (made_part _ _ _ _ _ _ _ _ _ _ _ HM) as Hpart. pose proof (made_edit _ _ _ _ _ _ _ _ _ _ _ HM) as Hedit.
  eapply ends_panics; [eapply ends_mono|].
  - apply (edit_session_lands v pages obj pend rest J (made_pages _ _ _ _ _ _ _ _ _ _ _ HM) Hpart Hedit (pend w)). by eapply reached_inv.
  - intros [] s' [[_ Ho] Hcase]. done.
  - intros e s' [_ Hcase]. done.
  - intros s' [[_ Ho] Hlong]. done.
Qed.

Definition docs_edits : list Edit := [EditWrite 2 [33; 33]; EditTruncate 3].

Lemma s3_session_replaces_object_witness :
  (edit_session docs_fs fake_pages (lit "/readme") read_write docs_edits docs_opened).1 = Ok tt
  /\ ends (fun s' => session_overlong docs_fs fake_obj (lit "/readme") read_write docs_edits (s3_store docs_opened)
       /\ objs_same fake_obj (s3_store docs_opened) (s3_store s'))
    (edit_session docs_fs fake_pages (lit "/readme") read_write docs_edits) docs_opened
    (fun _ s' => s3_owned s' = s3_owned docs_opened
       /\ (session_lands docs_fs fake_obj (lit "/readme") read_write docs_edits (s3_store docs_opened) (s3_store s')
           \/ existsb edit_changes docs_edits = false /\ objs_same fake_obj (s3_store docs_opened) (s3_store s')))
    (fun e s' => objs_same fake_obj (s3_store docs_opened) (s3_store s')
       \/ e = EIO /\ session_lands docs_fs fake_obj (lit "/readme") read_write docs_edits (s3_store docs_opened) (s3_store s')).
Proof.
  split; [vm_compute; reflexivity|].
  apply (s3_session_replaces_object fake_bucket fake_pages fake_obj fake_pend fake_rest fake_inv docs_bucket (Some (lit "/team/"))
    default_config docs_fs docs_start docs_world docs_opened (lit "/readme") read_write docs_edits
    docs_made docs_world_lawful docs_opened_reached).
Defined.

(** C13: No upload is lost or touched that is somebody else's: in every state, the
    uploads the store had at the start are as they were; over a store that carries
    out the aborts it is asked for, each other one is that of exactly one open
    handle, whatever failed on the way, or one without a part of whose beginning the
    store lost the answer, which a store that answers has none of; and dropping the
    filesystem leaves only the first and those without an answer, and every object as
    it is. *)
Theorem s3_uploads_accounted {W} (ops : S3Ops W) pages obj pend rest J bucket prefix config v start w s :
  s3_made ops pages obj pend rest J bucket prefix config v start -> ReliableAborts pend J ops ->
  J w -> s3_reached pages v start w s ->
  (forall id u, pend w id = Some u -> pend (s3_store s) id = Some u)
  /\ (forall id, is_Some (pend (s3_store s) id) ->
        is_Some (pend w id)
        \/ (exists h c, Open s h c /\ cell_upload c = Some id /\ forall h' c', Open s h' c' -> cell_upload c' = Some id -> h' = h)
        \/ stray pend J ops (pend (s3_store s) id))
  /\ wp (s3_drop v) s
       (fun _ s' => objs_same obj (s3_store s) (s3_store s') /\ s3_owned s' = ∅
          /\ forall id, pend (s3_store s') id = pend w id \/ pend w id = None /\ stray pend J ops (pend (s3_store s') id))
       (fun _ _ => False).
Proof.
  intros HM HR HJ Hs. pose proof (made_lawful _ _ _ _ _ _ _ _ _ _ _ HM) as Hl.
  destruct (made_facts _ _ _ _ _ _ _ _ _ _ _ HM) as (Hops & _).
  assert (ReliableAborts pend J (s3_ops v)) as HR' by (rewrite Hops; exact HR).
  assert (s3_inv v pend J (pend w) s) as HI by by eapply reached_inv. rewrite <- Hops. split; [|split].
  - intros id u Hid. by apply (si_theirs _ _ _ _ _ HI).
  - intros id Hid. destruct (si_ours _ _ _ _ _ HI HR' id Hid) as [|[(h & c & Hc & Hu)|]]; [by left|right; left|by right; right]. exists h, c.
    split; [done|]. split; [done|]. intros h' c' Hc' Hu'. by eapply (si_distinct _ _ _ _ _ HI).
  - eapply wp_mono; [exact (s3_drop_aborts v obj pend rest J (made_part _ _ _ _ _ _ _ _ _ _ _ HM) (pend w) s HI)| |done].
    intros [] s' (Ho & Hown & Hp). split; [done|]. split; [done|]. by apply Hp.
Qed.


(** Parts of two bytes: a write of five leaves an upload of two parts. *)
Definition tiny_fs : S3Vfs BucketState := with_part_size 2 docs_fs.
Definition tiny_calls : list S3Call := [CallOpen (lit "/new") (with_create write_only); CallWriteAt 1 0 [1; 2; 3; 4; 5]].
Definition tiny_state (w : BucketState) : S3State BucketState := after_calls tiny_fs fake_pages tiny_calls (docs_start w).

Lemma tiny_made :
  s3_made fake_bucket fake_pages fake_obj fake_pend fake_rest fake_inv docs_bucket (Some (lit "/team/")) default_config tiny_fs docs_start.
Proof. split; [exact fake_laws|exact fake_pages_enough|by exists docs_fs|by vm_compute|by vm_compute]. Qed.

Lemma tiny_reached w : s3_reached fake_pages tiny_fs docs_start w (tiny_state w).
Proof. exists tiny_calls. split; [|reflexivity]. repeat constructor; discriminate. Qed.

Lemma s3_uploads_accounted_witness :
  (exists m, fake_pend (s3_store (tiny_state docs_world)) (lit "upload-2") = Some (lit "team/new", m))
  /\ (is_Some (fake_pend docs_world (lit "upload-2"))
      \/ exists h c, Open (tiny_state docs_world) h c /\ cell_upload c = Some (lit "upload-2")
           /\ forall h' c', Open (tiny_state docs_world) h' c' -> cell_upload c' = Some (lit "upload-2") -> h' = h).
Proof.
  assert (exists m, fake_pend (s3_store (tiny_state docs_world)) (lit "upload-2") = Some (lit "team/new", m)) as Hm
    by (eexists; vm_compute; reflexivity).
  split; [exact Hm|].
  destruct (s3_uploads_accounted fake_bucket fake_pages fake_obj fake_pend fake_rest fake_inv docs_bucket (Some (lit "/team/"))
    default_config tiny_fs docs_start docs_world (tiny_state docs_world) tiny_made fake_reliable docs_world_lawful (tiny_reached docs_world))
    as (_ & H & _).
  destruct (H (lit "upload-2")) as [Ht|[Ho|[_ Hn]]]; [destruct Hm as [m Hm]; rewrite Hm; eexists; reflexivity|left; exact Ht|right; exact Ho|].
  destruct (Hn fake_answers).
Defined.

(** A store that loses its answer leaves an upload that no handle knows of, also when
    the handle is closed and the filesystem dropped. *)
Example lost_answer_leaves_upload :
  let fs := mkS3Vfs losing_bucket docs_bucket (lit "team/") default_config 2 in
  let s := after_calls fs fake_pages (tiny_calls ++ [CallClose 1; CallDrop]) (docs_start docs_world) in
  s3_handles s = [] /\ fake_pend (s3_store s) (lit "upload-2") = Some (lit "team/new", ∅).
Proof. split; vm_compute; reflexivity. Qed.

(** Without a limit on edited bodies, a cut to a length no vector has panics. *)
Example unlimited_truncate_panics :
  let config := mkS3VfsConfig false 0 (cfg_directory_rename default_config) (cfg_conditional_writes default_config) in
  let fs := mkS3Vfs fake_bucket docs_bucket (lit "team/") config INITIAL_PART_SIZE in
  (s3_truncate fs 1 U64_MAX (after_calls fs fake_pages docs_calls (docs_start docs_world))).1 = Panic.
Proof. vm_compute. reflexivity. Qed.

(** C17: What [stat] and [readdir] answer is the tree that the keys make: a directory is
    there when a key is below its prefix or its marker is empty, its entries are the
    next names of the keys below, in order and once each, a directory before an
    object of the same name; a path is only reached through directories; an answer
    [Ok] is never wrong, whatever pages the store delivers its listings in. *)
Theorem s3_shows_the_tree_of_its_keys {W} (ops : S3Ops W) pages obj pend rest J bucket prefix config v start w path :
  s3_made ops pages obj pend rest J bucket prefix config v start -> J w ->
  wp (s3_stat v pages path) w
    (fun m w' => store_same obj pend w w' /\ exists cs, normalize_path path = Ok cs /\ parents_shown v obj w cs
       /\ if is_dir m then m = dir_metadata /\ (cs = [] \/ dir_shown obj w (directory_prefix v cs))
          else cs <> [] /\ ~ dir_shown obj w (directory_prefix v cs)
               /\ exists d e, obj w (key v cs) = Some (d, e) /\ m = mkMetadata RegularFile (len d))
    (fun _ w' => store_same obj pend w w')
  /\ wp (s3_readdir v pages path) w
    (fun es w' => store_same obj pend w w' /\ exists cs, normalize_path path = Ok cs /\ parents_shown v obj w cs
       /\ (cs = [] \/ dir_shown obj w (directory_prefix v cs)) /\ StronglySorted str_lt (entry_name <$> es)
       /\ forall e, e ∈ es <-> entry_of obj w (directory_prefix v cs) (entry_name e) (entry_metadata e))
    (fun _ w' => store_same obj pend w w').
Proof.
  intros HM HJ. pose proof (made_lawful _ _ _ _ _ _ _ _ _ _ _ HM) as Hl. pose proof (made_pages _ _ _ _ _ _ _ _ _ _ _ HM) as Hpages. split.
  - eapply wp_mono; [by apply (s3_stat_right v pages obj pend rest J Hpages)|..].
    + intros m w' [[_ Hs] H]. done.
    + intros e w' [_ Hs]. done.
  - eapply wp_mono; [by apply (s3_readdir_right v pages obj pend rest J Hpages)|..].
    + intros es w' [[_ Hs] (cs & Hcs & Hpar & Hex & Hsorted & Hin)]. split; [done|]. exists cs. split; [done|]. split; [done|].
      split; [by apply Hex|]. split; [exact Hsorted|exact Hin].
    + intros e w' [_ Hs]. done.
Qed.

Lemma s3_shows_the_tree_of_its_keys_witness :
  (s3_readdir docs_fs fake_pages (lit "/") docs_world).1
    = Ok [mkDirEntry (lit "readme") (mkMetadata RegularFile 2); mkDirEntry (lit "src") (mkMetadata DirectoryType 0)]
  /\ wp (s3_readdir docs_fs fake_pages (lit "/")) docs_world
    (fun es w' => store_same fake_obj fake_pend docs_world w' /\ exists cs, normalize_path (lit "/") = Ok cs /\ parents_shown docs_fs fake_obj docs_world cs
       /\ (cs = [] \/ dir_shown fake_obj docs_world (directory_prefix docs_fs cs)) /\ StronglySorted str_lt (entry_name <$> es)
       /\ forall e, e ∈ es <-> entry_of fake_obj docs_world (directory_prefix docs_fs cs) (entry_name e) (entry_metadata e))
    (fun _ w' => store_same fake_obj fake_pend docs_world w').
Proof.
  split; [vm_compute; reflexivity|].
  exact (proj2 (s3_shows_the_tree_of_its_keys fake_bucket fake_pages fake_obj fake_pend fake_rest fake_inv docs_bucket (Some (lit "/team/"))
    default_config docs_fs docs_start docs_world (lit "/") docs_made docs_world_lawful)).
Defined.

(** ** Bounds *)

Lemma part_size_initial {W} (v : S3Vfs W) n :
  s3_part_size v = INITIAL_PART_SIZE -> 0 <= n < 10000 -> INITIAL_PART_SIZE * 2 ^ (n / 1000) = part_size v n /\ part_size v n <= 2 ^ 32.
Proof.
  intros Hv Hn. unfold part_size. rewrite Hv. change PARTS_PER_SIZE_CLASS with 1000.
  assert (0 <= n / 1000 < 10) as Hq by (split; [apply Z.div_pos; lia|apply Z.div_lt_upper_bound; lia]).
  rewrite (Z.min_l (n / 1000) 16) by lia. rewrite Z.shiftl_1_l. assert (0 < 2 ^ (n / 1000) <= 2 ^ 9) as Hp by (split; [apply Z.pow_pos_nonneg; lia|apply Z.pow_le_mono_r; lia]).
  unfold INITIAL_PART_SIZE, USIZE_MAX in *. change (2 ^ 9) with 512 in Hp. change (2 ^ 64) with 18446744073709551616. change (2 ^ 32) with 4294967296. lia.
Qed.

(** A class of parts of one size. *)
Lemma parts_total_class {W} (v : S3Vfs W) (c k : nat) :
  s3_part_size v = INITIAL_PART_SIZE -> (c < 10)%nat -> (k <= 1000)%nat ->
  parts_total v (1000 * c + k) = parts_total v (1000 * c) + Z.of_nat k * (INITIAL_PART_SIZE * 2 ^ Z.of_nat c).
Proof.
  intros Hv Hc. induction k as [|k IH]; intros Hk; [rewrite Nat.add_0_r; lia|]. rewrite Nat.add_succ_r. cbn [parts_total]. rewrite IH by lia.
  destruct (part_size_initial v (Z.of_nat (1000 * c + k)) Hv ltac:(lia)) as [<- _].
  replace (Z.of_nat (1000 * c + k) / 1000) with (Z.of_nat c); [lia|]. apply (Z.div_unique _ _ _ (Z.of_nat k)); lia.
Qed.

Lemma parts_total_limit {W} (v : S3Vfs W) : s3_part_size v = INITIAL_PART_SIZE -> 5 * 2 ^ 40 < parts_total v (1000 * 10).
Proof.
  intros Hv. assert (forall c, (c <= 10)%nat -> parts_total v (1000 * c) = 1000 * INITIAL_PART_SIZE * (2 ^ Z.of_nat c - 1)) as H.
  { induction c as [|c IH]; intros Hc; [done|]. replace (1000 * S c)%nat with (1000 * c + 1000)%nat by lia.
    rewrite parts_total_class by (done || lia). rewrite IH by lia. rewrite (Nat2Z.inj_succ c), Z.pow_succ_r by lia. change (Z.of_nat 1000) with 1000. lia. }
  rewrite H by lia. reflexivity.
Qed.

(** C19: What a handle holds in memory and uploads is bounded: staged contents of an
    object that is modified are within the edit limit; a stream holds less than one
    part; and up to the largest object there can be, five tebibytes, an upload of
    unknown length has fewer than 10,000 parts, none larger than 4 GiB. *)
Theorem s3_stays_within_limits {W} (ops : S3Ops W) pages obj pend rest J bucket prefix config v start w s h c :
  s3_made ops pages obj pend rest J bucket prefix config v start -> J w -> s3_reached pages v start w s -> Open s h c ->
  s3_part_size v = INITIAL_PART_SIZE ->
  match hs_staging c with
  | Buffered b => forall d, bf_bytes b = Some d -> cfg_max_edit_bytes config = 0 \/ len d <= cfg_max_edit_bytes config
  | Streamed x =>
      len (sm_buffer x) < part_size v (uploaded_parts x)
      /\ (sm_flushed x <= 5 * 2 ^ 40 -> uploaded_parts x < 10000 /\ part_size v (uploaded_parts x) <= 2 ^ 32)
  | Remote _ | Failed _ => True
  end.
Proof.
  intros HM HJ Hs Hc Hsize. pose proof (made_part _ _ _ _ _ _ _ _ _ _ _ HM) as Hpart.
  destruct (made_facts _ _ _ _ _ _ _ _ _ _ _ HM) as (_ & Hcfg & _).
  assert (s3_inv v pend J (pend w) s) as HI by by eapply reached_inv. destruct (si_cell _ _ _ _ _ HI h c Hc) as [Hr _].
  unfold cell_right in Hr. destruct (hs_staging c) as [f|b|x|e] eqn:Hx; [done| | |done].
  - intros d Hd. unfold buffer_right in Hr. rewrite Hd in Hr. unfold edit_ok in Hr. by rewrite Hcfg in Hr.
  - split; [apply Hr|]. intros Hf. pose proof (uploaded_nonneg x) as Hnn.
    assert (uploaded_parts x < 10000) as Hn.
    { apply (parts_below v pend J Hpart (pend w) s h c x (1000 * 10) HI Hc Hx). pose proof (parts_total_limit v Hsize). lia. }
    split; [done|]. by apply part_size_initial.
Qed.

Lemma s3_stays_within_limits_witness :
  let s := after_calls docs_fs fake_pages tiny_calls (docs_start docs_world) in
  let x := mkStream 0 [1; 2; 3; 4; 5] None PreNone in
  len (sm_buffer x) < part_size docs_fs (uploaded_parts x)
  /\ (sm_flushed x <= 5 * 2 ^ 40 -> uploaded_parts x < 10000 /\ part_size docs_fs (uploaded_parts x) <= 2 ^ 32).
Proof.
  assert (s3_reached fake_pages docs_fs docs_start docs_world (after_calls docs_fs fake_pages tiny_calls (docs_start docs_world))) as Hr.
  { exists tiny_calls. split; [|reflexivity]. repeat constructor; discriminate. }
  assert (Open (after_calls docs_fs fake_pages tiny_calls (docs_start docs_world)) 1
    (mkHandleState (lit "team/new") (with_create write_only) (Streamed (mkStream 0 [1; 2; 3; 4; 5] None PreNone)) false)) as Hc.
  { split; [vm_compute; left|vm_compute; reflexivity]. }
  exact (s3_stays_within_limits fake_bucket fake_pages fake_obj fake_pend fake_rest fake_inv docs_bucket (Some (lit "/team/"))
    default_config docs_fs docs_start docs_world _ 1 _ docs_made docs_world_lawful Hr Hc eq_refl).
Defined.

(** C18: A stream that failed is given up for good: nothing that could be published is
    left, every later call on the handle is refused without effect, and closing
    returns the error of the failure and changes no object.  Aborting a handle
    discards what it staged and changes no object and no other draft. *)
Theorem s3_failure_is_final {W} (ops : S3Ops W) pages obj pend rest J bucket prefix config v start w s h :
  s3_made ops pages obj pend rest J bucket prefix config v start -> J w -> s3_reached pages v start w s ->
  (forall e, s3_failed s h e ->
     (forall offset buf, exists e', s3_read_at v h offset buf s = (Err e', s))
     /\ (forall offset new, exists e', s3_write_at v h offset new s = (Err e', s))
     /\ (forall n, exists e', s3_truncate v h n s = (Err e', s))
     /\ wp (s3_close v h) s (fun _ _ => False)
          (fun e' s' => e' = e /\ s3_owned s' = s3_owned s ∖ {[h]} /\ objs_same obj (s3_store s) (s3_store s')))
  /\ (h ∈ s3_handles s ->
      wp (s3_abort v h) s
        (fun _ s' => s3_owned s' = s3_owned s ∖ {[h]} /\ untouched v obj pend h s s')
        (fun _ s' => s3_owned s' = s3_owned s ∖ {[h]} /\ untouched v obj pend h s s')).
Proof.
  intros HM HJ Hs. pose proof (made_lawful _ _ _ _ _ _ _ _ _ _ _ HM) as Hl. pose proof (made_part _ _ _ _ _ _ _ _ _ _ _ HM) as Hpart.
  assert (s3_inv v pend J (pend w) s) as HI by by eapply reached_inv. split.
  - intros e. by apply (failed_is_final v obj pend rest J Hpart (pend w)).
  - by apply (abort_discards v obj pend rest J Hpart (pend w)).
Qed.

(** The bucket that refuses the first part of every upload. *)
Definition broken_world : BucketState :=
  mkBucketState (objects docs_world) (uploads docs_world) (next_etag docs_world) (next_upload docs_world) [] (Some 1) 0 0 [] 0.

Lemma broken_world_lawful : fake_inv broken_world.
Proof. by apply (fake_inv_same docs_world broken_world); [..|apply docs_world_lawful]. Qed.

Lemma s3_failure_is_final_witness :
  s3_failed (tiny_state broken_world) 1 EIO
  /\ wp (s3_close tiny_fs 1) (tiny_state broken_world) (fun _ _ => False)
       (fun e' s' => e' = EIO /\ s3_owned s' = s3_owned (tiny_state broken_world) ∖ {[1]}
          /\ objs_same fake_obj (s3_store (tiny_state broken_world)) (s3_store s')).
Proof.
  assert (s3_failed (tiny_state broken_world) 1 EIO) as Hf.
  { exists (mkHandleState (lit "team/new") (with_create write_only) (Failed EIO) false).
    split; [split; [vm_compute; left|vm_compute; reflexivity]|reflexivity]. }
  split; [exact Hf|].
  destruct (s3_failure_is_final fake_bucket fake_pages fake_obj fake_pend fake_rest fake_inv docs_bucket (Some (lit "/team/"))
    default_config tiny_fs docs_start broken_world (tiny_state broken_world) 1 tiny_made broken_world_lawful (tiny_reached broken_world))
    as [H _].
  destruct (H EIO Hf) as (_ & _ & _ & Hclose). exact Hclose.
Defined.
