(* ===== verification/LocalVfs.v ===== *)
(** * The calls the local filesystem makes to the operating system
      (src/src/vfs/local.rs)

    [HostOs] are the system calls, as methods of an object with a state [W]; a
    descriptor is a number, a stream of directory entries is passed as the position
    it is at.  Dropping the [File] of a directory has no effect on the tree and is
    left out; dropping the [File] of a regular file is [h_drop], because the number
    of an unlinked inode may be used again only afterwards. *)

From Stdlib Require Import Ascii String.
From stdpp Require Import sorting gmap.
From S2P Require Import Prelude RustStr VfsTypes MemVfs VfsPath VfsIface.

#[local] Open Scope Z_scope.

(** ** Errors *)

(** The codes that [io_error] tells apart. *)
Inductive OsErrno :=
| OS_ENOENT | OS_ENOTDIR | OS_EISDIR | OS_EEXIST | OS_ENOTEMPTY | OS_EXDEV | OS_EACCES | OS_EPERM
| OS_ELOOP | OS_EROFS | OS_ENOSPC | OS_EDQUOT | OS_EFBIG | OS_EBUSY | OS_EBADF | OS_EINTR | OS_OTHER.

#[export] Instance OsErrno_eq_dec : EqDecision OsErrno.
Proof. solve_decision. Defined.

(** [io::Error]: with a code of the system, or one made in the process. *)
Inductive IoError := RawOs (e : OsErrno) | InvalidInput | WriteZero.

#[export] Instance IoError_eq_dec : EqDecision IoError.
Proof. solve_decision. Defined.

(** [err.kind() == ErrorKind::Interrupted]. *)
Definition interrupted (e : IoError) : bool := bool_decide (e = RawOs OS_EINTR).

Definition io_error (e : IoError) : Errno :=
  match e with
  | RawOs OS_ENOENT => ENOENT
  | RawOs OS_ENOTDIR => ENOTDIR
  | RawOs OS_EISDIR => EISDIR
  | RawOs OS_EEXIST => EEXIST
  | RawOs OS_ENOTEMPTY => ENOTEMPTY
  | RawOs OS_EXDEV => EXDEV
  | RawOs (OS_EACCES | OS_EPERM | OS_ELOOP | OS_EROFS) => EACCES
  | RawOs (OS_ENOSPC | OS_EDQUOT | OS_EFBIG) => ENOSPC
  | RawOs OS_EBUSY => EBUSY
  | RawOs OS_EBADF => EBADF
  | _ => EINVAL
  end.

Definition os_error (e : OsErrno) : Errno := io_error (RawOs e).

(** ** Names, metadata, flags *)

(** A name in a directory: text, or bytes that are not UTF-8. *)
Abbreviation OsName := (str + list Z)%type (only parsing).

(** [entry.file_name().to_str()]. *)
Definition to_str (n : OsName) : option str := match n with inl s => Some s | inr _ => None end.

Definition dot : OsName := inl (lit ".").
Definition dot_dot : OsName := inl (lit "..").

Inductive RawFileType := RawRegular | RawDirectory | RawSymlink | RawFifo | RawSocket | RawCharDevice | RawBlockDevice | RawUnknown.

#[export] Instance RawFileType_eq_dec : EqDecision RawFileType.
Proof. solve_decision. Defined.

(** [libc::stat], the fields that are read. *)
Record Stat := mkStat { st_type : RawFileType; st_dev : Z; st_ino : Z; st_size : Z }.

(** Device and inode pair identifying a file across renames and unlinks. *)
Abbreviation FileKey := (Z * Z)%type (only parsing).

Inductive OsAccess := RDONLY | WRONLY | RDWR.

Record OFlags := mkOFlags {
  of_access : OsAccess;
  of_directory : bool;
  of_nofollow : bool;
  of_nonblock : bool;
  of_cloexec : bool;
  of_create : bool;
  of_excl : bool
}.

(** ** Calls *)

Record HostOs (W D : Type) := mkHostOs {
  h_canonicalize : str -> ST W IoError str;
  h_open : str -> OFlags -> ST W OsErrno Z;
  h_try_clone : Z -> ST W IoError Z;
  h_openat : Z -> OsName -> OFlags -> Z -> ST W OsErrno Z;
  h_statat : Z -> OsName -> bool -> ST W OsErrno Stat;
  h_mkdirat : Z -> OsName -> Z -> ST W OsErrno unit;
  h_renameat : Z -> OsName -> Z -> OsName -> ST W OsErrno unit;
  h_unlinkat : Z -> OsName -> bool -> ST W OsErrno unit;
  h_dir_new : Z -> ST W OsErrno D;
  h_dir_next : D -> ST W OsErrno (option (OsName * D));
  h_dir_fd : D -> ST W OsErrno Z;
  h_metadata : Z -> ST W IoError Stat;
  h_set_len : Z -> Z -> ST W IoError unit;
  h_read_at : Z -> Z -> Z -> ST W IoError bytes;
  h_write_at : Z -> bytes -> Z -> ST W IoError Z;
  h_drop : Z -> W -> W
}.

Arguments mkHostOs {W D}.
Arguments h_canonicalize {W D}.
Arguments h_open {W D}.
Arguments h_try_clone {W D}.
Arguments h_openat {W D}.
Arguments h_statat {W D}.
Arguments h_mkdirat {W D}.
Arguments h_renameat {W D}.
Arguments h_unlinkat {W D}.
Arguments h_dir_new {W D}.
Arguments h_dir_next {W D}.
Arguments h_dir_fd {W D}.
Arguments h_metadata {W D}.
Arguments h_set_len {W D}.
Arguments h_read_at {W D}.
Arguments h_write_at {W D}.
Arguments h_drop {W D}.

(** ** The filesystem in a directory of the host (src/src/vfs/local.rs)

    [LocalVfs] opens every ancestor of a path relative to the one above it and
    never follows a link; it keeps the open handles, which of their files are
    unlinked, and the two quota counters.  The methods act on the state and on the
    system ([LocalWorld]); the functions that only call the system act on that.

    Two arguments bound loops: [walk] says of a system for how many turns the scan
    of a tree or a directory is run at most, [patience] for how many interruptions
    a read or a write is taken up again. *)

#[local] Open Scope Z_scope.

(** ** State *)

Inductive EntryKind := KindFile | KindDirectory | KindOther.

#[export] Instance EntryKind_eq_dec : EqDecision EntryKind.
Proof. solve_decision. Defined.

Record EntryMetadata := mkEntryMetadata { em_kind : EntryKind; em_key : FileKey; em_len : Z }.

Record HandleState := mkHandleState {
  hs_file : Z;
  hs_key : FileKey;
  hs_readable : bool;
  hs_writable : bool;
  hs_append : bool
}.

Record OpenFileState := mkOpenFileState { of_open_handles : Z; of_unlinked : bool }.

Record LocalState := mkLocalState {
  l_handles : gmap Z HandleState;
  l_open_files : gmap FileKey OpenFileState;
  l_next_handle : Z;
  l_used_bytes : Z;
  l_file_count : Z
}.

Definition set_handles (x : gmap Z HandleState) (s : LocalState) : LocalState :=
  mkLocalState x (l_open_files s) (l_next_handle s) (l_used_bytes s) (l_file_count s).
Definition set_open_files (x : gmap FileKey OpenFileState) (s : LocalState) : LocalState :=
  mkLocalState (l_handles s) x (l_next_handle s) (l_used_bytes s) (l_file_count s).
Definition set_next_handle (x : Z) (s : LocalState) : LocalState :=
  mkLocalState (l_handles s) (l_open_files s) x (l_used_bytes s) (l_file_count s).
Definition set_used_bytes (x : Z) (s : LocalState) : LocalState :=
  mkLocalState (l_handles s) (l_open_files s) (l_next_handle s) x (l_file_count s).
Definition set_file_count (x : Z) (s : LocalState) : LocalState :=
  mkLocalState (l_handles s) (l_open_files s) (l_next_handle s) (l_used_bytes s) x.

Definition saturating_sub (a b : Z) : Z := Z.max 0 (a - b).
Definition saturating_add (a b : Z) : Z := Z.min U64_MAX (a + b).

(** The fields set by [with_quota] and never changed. *)
Record LocalVfs (W D : Type) := mkLocalVfs {
  lv_host : HostOs W D;
  lv_root : str;
  lv_root_dir : Z;
  lv_quota : VfsQuota
}.
Arguments mkLocalVfs {W D}.
Arguments lv_host {W D}.
Arguments lv_root {W D}.
Arguments lv_root_dir {W D}.
Arguments lv_quota {W D}.

Record LocalWorld (W : Type) := mkLocalWorld { lw_state : LocalState; lw_host : W }.
Arguments mkLocalWorld {W}.
Arguments lw_state {W}.
Arguments lw_host {W}.

(** The only namespace reference passed to mutations: an owned parent and a
    single entry name. *)
Record Resolved := mkResolved { r_parent : Z; r_name : str; r_components : list str }.

Definition is_root (r : Resolved) : bool := bool_decide (r_components r = []).

Definition key_of (m : Stat) : FileKey := (st_dev m mod 2 ^ 64, st_ino m mod 2 ^ 64).

Definition kind_of (t : RawFileType) : EntryKind :=
  match t with RawRegular => KindFile | RawDirectory => KindDirectory | _ => KindOther end.

Definition entry_of (m : Stat) : EntryMetadata :=
  mkEntryMetadata (kind_of (st_type m)) (key_of m) (Z.max (st_size m) 0).

Definition metadata_from (m : EntryMetadata) : option Metadata :=
  match em_kind m with
  | KindFile => Some (mkMetadata RegularFile (em_len m))
  | KindDirectory => Some (mkMetadata DirectoryType 0)
  | KindOther => None
  end.

Definition directory_flags : OFlags := mkOFlags RDONLY true true false true false false.

(** [path.len() <= other.len() && other[..path.len()] == path]. *)
Definition starts_with_components (path prefix : list str) : bool :=
  bool_decide (take (length prefix) path = prefix).

(** [entries.sort_by(|a, b| a.name.cmp(&b.name))]. *)
Definition name_le (a b : DirEntry) : Prop := str_compare (entry_name a) (entry_name b) <> Gt.
#[export] Instance name_le_dec a b : Decision (name_le a b).
Proof. unfold name_le. apply _. Defined.

(** The values of the map of handles, by their keys. *)
Definition handle_le (a b : Z * HandleState) : Prop := a.1 <= b.1.
#[export] Instance handle_le_dec a b : Decision (handle_le a b).
Proof. unfold handle_le. apply _. Defined.
Definition handle_values (s : LocalState) : list HandleState :=
  snd <$> merge_sort handle_le (map_to_list (l_handles s)).

(** ** Calls to the system *)

Section host.
Context {W D : Type} (host : HostOs W D) (walk : W -> nat).

Abbreviation IM := (ST W IoError).
Abbreviation VM := (ST W Errno).

(** [?] where [io::Result] is returned, and [.map_err(os_error)?]. *)
Definition io {A} (m : ST W OsErrno A) : IM A := map_err RawOs m.
Definition os {A} (m : ST W OsErrno A) : VM A := map_err os_error m.
Definition vfs_io {A} (m : IM A) : VM A := map_err io_error m.

(** [statat(dir, name, SYMLINK_NOFOLLOW)]. *)
Definition lookup_io (dir : Z) (name : OsName) : IM (option EntryMetadata) :=
  let! r := attempt (h_statat host dir name true) in
  match r with
  | Ok meta => sret (Some (entry_of meta))
  | Err OS_ENOENT => sret None
  | Err e => sfail (RawOs e)
  | Panic => slift Panic
  | OutOfFuel => slift OutOfFuel
  end.

Definition lookup (dir : Z) (name : OsName) : VM (option EntryMetadata) := vfs_io (lookup_io dir name).

Definition open_directory (parent : Z) (name : OsName) : VM Z :=
  let! r := attempt (h_openat host parent name directory_flags 0) in
  match r with
  | Ok fd => sret fd
  | Err (OS_ENOTDIR | OS_ELOOP) =>
      let! meta := lookup parent name in
      match em_kind <$> meta with
      | Some KindFile => sfail ENOTDIR
      | _ => sfail ENOENT
      end
  | Err e => sfail (os_error e)
  | Panic => slift Panic
  | OutOfFuel => slift OutOfFuel
  end.

Definition file_len (file : Z) : VM Z :=
  vfs_io (let! meta := h_metadata host file in sret (st_size meta)).

(** [openat] of a child directory in a walk: one that is gone or replaced by a
    link is passed over. *)
Definition open_child (dir : Z) (name : OsName) : IM (option Z) :=
  let! r := attempt (h_openat host dir name directory_flags 0) in
  match r with
  | Ok fd => sret (Some fd)
  | Err (OS_ENOENT | OS_ENOTDIR | OS_ELOOP) => sret None
  | Err e => sfail (RawOs e)
  | Panic => slift Panic
  | OutOfFuel => slift OutOfFuel
  end.

(** The head of the list is [stack.last_mut()]. *)
Fixpoint deeper_loop (fuel : nat) (allowance : nat) (stack : list D) : IM bool :=
  match fuel with
  | O => slift OutOfFuel
  | S fuel =>
      match stack with
      | [] => sret false
      | entries :: below =>
          let depth := length stack in
          let! next := io (h_dir_next host entries) in
          match next with
          | None => deeper_loop fuel allowance below
          | Some (name, entries) =>
              let stack := entries :: below in
              if bool_decide (name = dot) || bool_decide (name = dot_dot) then deeper_loop fuel allowance stack
              else
                let! dir := io (h_dir_fd host entries) in
                let! meta := lookup_io dir name in
                match meta with
                | None => deeper_loop fuel allowance stack
                | Some meta =>
                    if bool_decide (em_kind meta = KindOther) then deeper_loop fuel allowance stack
                    else if (allowance <? depth)%nat then sret true
                    else if bool_decide (em_kind meta = KindDirectory) then
                      let! child := open_child dir name in
                      match child with
                      | None => deeper_loop fuel allowance stack
                      | Some child =>
                          let! child := io (h_dir_new host child) in
                          deeper_loop fuel allowance (child :: stack)
                      end
                    else deeper_loop fuel allowance stack
                end
          end
      end
  end.

Definition subtree_deeper_than (root : Z) (allowance : nat) : IM bool :=
  let! w := sget in
  let! entries := io (h_dir_new host root) in
  deeper_loop (walk w) allowance [entries].

Fixpoint scan_loop (fuel : nat) (stack : list D) (used_bytes file_count : Z) : IM (Z * Z) :=
  match fuel with
  | O => slift OutOfFuel
  | S fuel =>
      match stack with
      | [] => sret (used_bytes, file_count)
      | entries :: below =>
          let depth := length stack in
          let! next := io (h_dir_next host entries) in
          match next with
          | None => scan_loop fuel below used_bytes file_count
          | Some (name, entries) =>
              let stack := entries :: below in
              if bool_decide (name = dot) || bool_decide (name = dot_dot) then
                scan_loop fuel stack used_bytes file_count
              else
                let! dir := io (h_dir_fd host entries) in
                let! meta := lookup_io dir name in
                match meta with
                | None => scan_loop fuel stack used_bytes file_count
                | Some meta =>
                    if negb (bool_decide (em_kind meta = KindOther)) && (MAX_PATH_DEPTH <? depth)%nat then
                      sfail InvalidInput
                    else
                      match em_kind meta with
                      | KindDirectory =>
                          let! child := open_child dir name in
                          match child with
                          | None => scan_loop fuel stack used_bytes file_count
                          | Some child =>
                              let! child := io (h_dir_new host child) in
                              scan_loop fuel (child :: stack) used_bytes (saturating_add file_count 1)
                          end
                      | KindFile =>
                          scan_loop fuel stack (saturating_add used_bytes (em_len meta)) (saturating_add file_count 1)
                      | KindOther => scan_loop fuel stack used_bytes file_count
                      end
                end
          end
      end
  end.

Definition scan_tree (root : Z) : IM (Z * Z) :=
  let! w := sget in
  let! entries := io (h_dir_new host root) in
  scan_loop (walk w) [entries] 0 0.

(** [LocalVfs::with_quota]. *)
Definition with_quota (root : str) (quota : VfsQuota) : IM (LocalVfs W D * LocalState) :=
  let! root := h_canonicalize host root in
  let! root_dir := io (h_open host root directory_flags) in
  let! (used_bytes, file_count) := scan_tree root_dir in
  sret (mkLocalVfs host root root_dir quota, mkLocalState ∅ ∅ 1 used_bytes file_count).

Definition local_new (root : str) : IM (LocalVfs W D * LocalState) := with_quota root unlimited.

(** [file.write_all_at(data, offset)] of the standard library. *)
Fixpoint write_all_at (fuel : nat) (file : Z) (data : bytes) (offset : Z) : IM unit :=
  match fuel with
  | O => slift OutOfFuel
  | S fuel =>
      if bool_decide (data = []) then sret tt
      else
        let! r := attempt (h_write_at host file data offset) in
        match r with
        | Ok n =>
            if n =? 0 then sfail WriteZero
            else write_all_at fuel file (drop (Z.to_nat n) data) (offset + n)
        | Err e => if interrupted e then write_all_at fuel file data offset else sfail e
        | Panic => slift Panic
        | OutOfFuel => slift OutOfFuel
        end
  end.

(** The loop of [read_at]; [done] are the bytes read so far. *)
Fixpoint read_loop (fuel : nat) (file : Z) (offset : Z) (size : Z) (done : bytes) : VM bytes :=
  match fuel with
  | O => slift OutOfFuel
  | S fuel =>
      if len done <? size then
        let! position := slift (ok_or EINVAL (checked_add offset (len done))) in
        let! r := attempt (h_read_at host file (size - len done) position) in
        match r with
        | Ok [] => sret done
        | Ok got => read_loop fuel file offset size (done ++ got)
        | Err e => if interrupted e then read_loop fuel file offset size done else sfail (io_error e)
        | Panic => slift Panic
        | OutOfFuel => slift OutOfFuel
        end
      else sret done
  end.
End host.

(** [open_directory] along [components]. *)
Fixpoint descend {W D} (host : HostOs W D) (parent : Z) (components : list str) : ST W Errno Z :=
  match components with
  | [] => sret parent
  | component :: components =>
      let! parent := open_directory host parent (inl component) in
      descend host parent components
  end.

(** ** Methods *)

Section local.
Context {W D : Type} (v : LocalVfs W D) (walk patience : W -> nat).

Abbreviation host := (lv_host v).
Abbreviation quota := (lv_quota v).
Abbreviation LM := (ST (LocalWorld W) Errno).

(** A call on the system, and the locked state. *)
Definition on_host {A} (m : ST W Errno A) : LM A :=
  fun s => let '(o, w') := m (lw_host s) in (o, mkLocalWorld (lw_state s) w').
Definition get_state : LM LocalState := fun s => (Ok (lw_state s), s).
Definition put_state (x : LocalState) : LM unit := fun s => (Ok tt, mkLocalWorld x (lw_host s)).
Definition get_host : LM W := fun s => (Ok (lw_host s), s).

(** [file] goes out of scope. *)
Definition drop_file (file : Z) : LM unit := fun s => (Ok tt, mkLocalWorld (lw_state s) (h_drop host file (lw_host s))).

(** [m] while [file] is in scope. *)
Definition dropping {A} (file : Z) (m : LM A) : LM A :=
  let! r := attempt m in
  let! _ := drop_file file in
  slift r.

(** [m]? with the [File] in scope dropped on the way out. *)
Definition or_drop {A} (file : Z) (m : LM A) : LM A :=
  let! r := attempt m in
  match r with
  | Ok a => sret a
  | r => let! _ := drop_file file in slift r
  end.

Definition stats (s : LocalState) : VfsStats := mkVfsStats (l_used_bytes s) (l_file_count s).

(** [self.resolve(path)]. *)
Definition resolve (path : str) : LM Resolved :=
  let! components := slift (normalize_path path) in
  let! parent := on_host (vfs_io (h_try_clone host (lv_root_dir v))) in
  let! parent := on_host (descend host parent (take (length components - 1) components)) in
  sret (mkResolved parent (default (lit ".") (last components)) components).

Definition lookup_at (r : Resolved) : LM (option EntryMetadata) :=
  on_host (lookup host (r_parent r) (inl (r_name r))).

Definition ensure_entry_slot (s : LocalState) : outcome Errno unit :=
  if max_files quota <=? l_file_count s then Err ENOSPC else Ok tt.

Definition resized_usage (used_bytes old_len new_len : Z) : outcome Errno Z :=
  if max_file_size quota <? new_len then Err ENOSPC
  else
    let? used_bytes :=
      (if old_len <=? new_len then ok_or ENOSPC (checked_add used_bytes (new_len - old_len))
       else Ok (saturating_sub used_bytes (old_len - new_len))) in
    if max_bytes quota <? used_bytes then Err ENOSPC else Ok used_bytes.

(** Releases a removed directory entry, deferring to the last close while any
    handle keeps the file open. *)
Definition release_entry (key : FileKey) (n : Z) (s : LocalState) : LocalState :=
  match l_open_files s !! key with
  | Some open_file => set_open_files (<[key := mkOpenFileState (of_open_handles open_file) true]> (l_open_files s)) s
  | None => set_file_count (saturating_sub (l_file_count s) 1) (set_used_bytes (saturating_sub (l_used_bytes s) n) s)
  end.

Definition stat (path : str) : LM Metadata :=
  let! resolved := resolve path in
  let! meta := lookup_at resolved in
  let! meta := slift (ok_or ENOENT meta) in
  slift (ok_or ENOENT (metadata_from meta)).

Fixpoint readdir_loop (fuel : nat) (dir : Z) (stream : D) (entries : list DirEntry) : ST W Errno (list DirEntry) :=
  match fuel with
  | O => slift OutOfFuel
  | S fuel =>
      let! next := os (h_dir_next host stream) in
      match next with
      | None => sret entries
      | Some (name, stream) =>
          match to_str name with
          | None => readdir_loop fuel dir stream entries
          | Some name =>
              if bool_decide (name = lit ".") || bool_decide (name = lit "..") then readdir_loop fuel dir stream entries
              else
                let! meta := lookup host dir (inl name) in
                match meta with
                | None => readdir_loop fuel dir stream entries
                | Some meta =>
                    readdir_loop fuel dir stream
                      (match metadata_from meta with
                       | Some metadata => entries ++ [mkDirEntry name metadata]
                       | None => entries
                       end)
                end
          end
      end
  end.

Definition readdir (path : str) : LM (list DirEntry) :=
  let! resolved := resolve path in
  let! w := get_host in
  let! dir := on_host (open_directory host (r_parent resolved) (inl (r_name resolved))) in
  let! stream := on_host (os (h_dir_new host dir)) in
  let! entries := on_host (readdir_loop (walk w) dir stream []) in
  sret (merge_sort name_le entries).

Definition mkdir (path : str) : LM unit :=
  let! resolved := resolve path in
  if is_root resolved then sfail EEXIST
  else
    let! state := get_state in
    let! meta := lookup_at resolved in
    match meta with
    | Some _ => sfail EEXIST
    | None =>
        let! _ := slift (ensure_entry_slot state) in
        let! _ := on_host (os (h_mkdirat host (r_parent resolved) (inl (r_name resolved)) 511)) in
        let! count := slift (u64_add (l_file_count state) 1) in
        put_state (set_file_count count state)
    end.

(** POSIX allows either code when the directory is not empty. *)
Definition not_empty (e : OsErrno) : Errno :=
  let e := os_error e in if bool_decide (e = EEXIST) then ENOTEMPTY else e.

Definition replaced (target : option EntryMetadata) (s : LocalState) : LocalState :=
  match target with
  | None => s
  | Some meta =>
      match em_kind meta with
      | KindFile => release_entry (em_key meta) (em_len meta) s
      | KindDirectory => set_file_count (saturating_sub (l_file_count s) 1) s
      | KindOther => s
      end
  end.

(** A descent must not strand entries below the depth that paths can reach. *)
Definition too_deep (kind : EntryKind) (from to : Resolved) : LM bool :=
  if bool_decide (kind = KindDirectory) && (length (r_components from) <? length (r_components to))%nat then
    let allowance := (MAX_PATH_DEPTH - length (r_components to))%nat in
    let! source := on_host (open_directory host (r_parent from) (inl (r_name from))) in
    on_host (vfs_io (subtree_deeper_than host walk source allowance))
  else sret false.

Definition rename (from to : str) : LM unit :=
  let! from := resolve from in
  let! to := resolve to in
  if is_root from || is_root to then sfail EINVAL
  else
    let! state := get_state in
    let! source := lookup_at from in
    match em_kind <$> source with
    | Some KindOther | None => sfail ENOENT
    | Some kind =>
        if bool_decide (r_components from = r_components to) then sret tt
        else if bool_decide (kind = KindDirectory) && starts_with_components (r_components to) (r_components from) then
          sfail EINVAL
        else
          let! deep := too_deep kind from to in
          if deep then sfail EINVAL
          else
            let! target := lookup_at to in
            let! _ := on_host (map_err not_empty
                        (h_renameat host (r_parent from) (inl (r_name from)) (r_parent to) (inl (r_name to)))) in
            put_state (replaced target state)
    end.

Definition unlink (path : str) : LM unit :=
  let! resolved := resolve path in
  if is_root resolved then sfail EISDIR
  else
    let! state := get_state in
    let! meta := lookup_at resolved in
    let! meta := slift (ok_or ENOENT meta) in
    match em_kind meta with
    | KindDirectory => sfail EISDIR
    | KindOther => sfail ENOENT
    | KindFile =>
        let! _ := on_host (os (h_unlinkat host (r_parent resolved) (inl (r_name resolved)) false)) in
        put_state (release_entry (em_key meta) (em_len meta) state)
    end.

Definition rmdir (path : str) : LM unit :=
  let! resolved := resolve path in
  if is_root resolved then sfail EBUSY
  else
    let! state := get_state in
    let! meta := lookup_at resolved in
    match em_kind <$> meta with
    | Some KindFile => sfail ENOTDIR
    | Some KindOther | None => sfail ENOENT
    | Some KindDirectory =>
        let! _ := on_host (map_err not_empty (h_unlinkat host (r_parent resolved) (inl (r_name resolved)) true)) in
        put_state (set_file_count (saturating_sub (l_file_count state) 1) state)
    end.

(** Whether [open] creates the entry. *)
Definition creating (mode : OpenMode) (meta : option EntryMetadata) (s : LocalState) : outcome Errno bool :=
  match meta with
  | Some meta =>
      match em_kind meta with
      | KindDirectory => Err EISDIR
      | KindOther => Err EACCES
      | KindFile => if m_create_new mode then Err EEXIST else Ok false
      end
  | None =>
      if m_create mode || m_create_new mode then
        let? _ := ensure_entry_slot s in Ok true
      else Err ENOENT
  end.

Definition open_flags (mode : OpenMode) (created : bool) : OFlags :=
  let access :=
    match m_read mode, m_write mode || created with
    | true, true => RDWR
    | false, true => WRONLY
    | _, _ => RDONLY
    end in
  mkOFlags access false true true true created created.

(** The handle table after an [open]. *)
Definition add_handle (file : Z) (key : FileKey) (mode : OpenMode) : LM FileHandle :=
  let! s := get_state in
  let handle := l_next_handle s in
  let! next := slift (u64_add (l_next_handle s) 1) in
  let open_file := default (mkOpenFileState 0 false) (l_open_files s !! key) in
  let! count := slift (u64_add (of_open_handles open_file) 1) in
  let s := set_next_handle next s in
  let s := set_open_files (<[key := mkOpenFileState count (of_unlinked open_file)]> (l_open_files s)) s in
  let! _ := put_state (set_handles (<[handle := mkHandleState file key (m_read mode) (m_write mode) (m_append mode)]> (l_handles s)) s) in
  sret handle.

Definition open (path : str) (mode : OpenMode) : LM FileHandle :=
  let! _ := slift (validate mode) in
  let! resolved := resolve path in
  let! state := get_state in
  let! meta := lookup_at resolved in
  let! created := slift (creating mode meta state) in
  let! file := on_host (os (h_openat host (r_parent resolved) (inl (r_name resolved)) (open_flags mode created) 438)) in
  let! meta := or_drop file (on_host (vfs_io (h_metadata host file))) in
  if negb (bool_decide (st_type meta = RawRegular)) then
    let! _ := drop_file file in sfail EACCES
  else
    let! _ :=
      (if m_truncate mode then
         let! _ := or_drop file (on_host (vfs_io (h_set_len host file 0))) in
         put_state (set_used_bytes (saturating_sub (l_used_bytes state) (st_size meta)) state)
       else sret tt) in
    let! _ :=
      (if created then
         let! state := get_state in
         let! count := slift (u64_add (l_file_count state) 1) in
         put_state (set_file_count count state)
       else sret tt) in
    add_handle file (key_of meta) mode.

Definition get_handle (handle : FileHandle) : LM HandleState :=
  let! s := get_state in slift (ok_or EBADF (l_handles s !! handle)).

Definition read_at (handle : FileHandle) (offset : Z) (buf : bytes) : LM (Z * bytes) :=
  let! h := get_handle handle in
  if negb (hs_readable h) then sfail EBADF
  else
    let! w := get_host in
    let! got := on_host (read_loop host (length buf + patience w + 1) (hs_file h) offset (len buf) []) in
    sret (len got, got ++ drop (length got) buf).

Definition write_at (handle : FileHandle) (offset : Z) (new : bytes) : LM Z :=
  let! state := get_state in
  let! h := get_handle handle in
  if negb (hs_writable h) then sfail EBADF
  else if bool_decide (new = []) then sret 0
  else
    let! old_len := on_host (file_len host (hs_file h)) in
    let write_offset := if hs_append h then old_len else offset in
    let! write_end := slift (ok_or EINVAL (checked_add write_offset (len new))) in
    let new_len := Z.max old_len write_end in
    let! used_bytes := slift (resized_usage (l_used_bytes state) old_len new_len) in
    let! w := get_host in
    let! r := attempt (on_host (vfs_io (write_all_at host (length new + patience w + 1) (hs_file h) new write_offset))) in
    match r with
    | Ok _ => let! _ := put_state (set_used_bytes used_bytes state) in sret (len new)
    | Err e =>
        let! actual := attempt (on_host (file_len host (hs_file h))) in
        let actual_len := match actual with Ok n => n | _ => old_len end in
        let! _ := put_state (set_used_bytes (saturating_add (saturating_sub (l_used_bytes state) old_len) actual_len) state) in
        sfail e
    | Panic => slift Panic
    | OutOfFuel => slift OutOfFuel
    end.

Definition truncate (handle : FileHandle) (n : Z) : LM unit :=
  let! state := get_state in
  let! h := get_handle handle in
  if negb (hs_writable h) then sfail EINVAL
  else
    let! old_len := on_host (file_len host (hs_file h)) in
    let! used_bytes := slift (resized_usage (l_used_bytes state) old_len n) in
    let! _ := on_host (vfs_io (h_set_len host (hs_file h) n)) in
    put_state (set_used_bytes used_bytes state).

(** What [close] does to the accounts once the handle [h] is out of the table. *)
Definition release_handle (h : HandleState) : LM unit :=
  let! state := get_state in
  match l_open_files state !! hs_key h with
  | None => sret tt
  | Some open_file =>
      let! count := slift (u64_sub (of_open_handles open_file) 1) in
      if 0 <? count then
        put_state (set_open_files (<[hs_key h := mkOpenFileState count (of_unlinked open_file)]> (l_open_files state)) state)
      else
        let state := set_open_files (delete (hs_key h) (l_open_files state)) state in
        let! _ := put_state state in
        if of_unlinked open_file then
          let! r := attempt (on_host (file_len host (hs_file h))) in
          let n := match r with Ok n => n | _ => 0 end in
          put_state (set_file_count (saturating_sub (l_file_count state) 1)
                       (set_used_bytes (saturating_sub (l_used_bytes state) n) state))
        else sret tt
  end.

Definition close (handle : FileHandle) : LM unit :=
  let! state := get_state in
  let! h := slift (ok_or EBADF (l_handles state !! handle)) in
  let! _ := put_state (set_handles (delete handle (l_handles state)) state) in
  dropping (hs_file h) (release_handle h).

(** The unlinked files that are still open, each counted once. *)
Fixpoint count_unlinked (open_files : gmap FileKey OpenFileState) (hs : list HandleState) (counted : gset FileKey)
    (used_bytes file_count : Z) : LM (Z * Z) :=
  match hs with
  | [] => sret (used_bytes, file_count)
  | h :: hs =>
      if default false (of_unlinked <$> open_files !! hs_key h) && negb (bool_decide (hs_key h ∈ counted)) then
        let! r := attempt (on_host (file_len host (hs_file h))) in
        let n := match r with Ok n => n | _ => 0 end in
        let! file_count := slift (u64_add file_count 1) in
        count_unlinked open_files hs ({[hs_key h]} ∪ counted) (saturating_add used_bytes n) file_count
      else count_unlinked open_files hs counted used_bytes file_count
  end.

Definition refresh : LM VfsStats :=
  let! state := get_state in
  let! (used_bytes, file_count) := on_host (vfs_io (scan_tree host walk (lv_root_dir v))) in
  let! (used_bytes, file_count) := count_unlinked (l_open_files state) (handle_values state) ∅ used_bytes file_count in
  let! _ := put_state (set_file_count file_count (set_used_bytes used_bytes state)) in
  sret (mkVfsStats used_bytes file_count).

Definition set_usage (usage : VfsStats) : LM unit :=
  let! state := get_state in
  put_state (set_file_count (stats_file_count usage) (set_used_bytes (stats_used_bytes usage) state)).

(** Offsets and lengths are [u64]; the interface passes integers. *)
Definition u64_arg {A} (n : Z) (m : LM A) : LM A := if (0 <=? n) && (n <=? U64_MAX) then m else sfail EINVAL.

Definition local_vfs : Vfs (LocalWorld W) :=
  mkVfs stat readdir mkdir rename unlink rmdir open
    (fun handle offset buf => u64_arg offset (read_at handle offset buf))
    (fun handle offset new => u64_arg offset (write_at handle offset new))
    (fun handle n => u64_arg n (truncate handle n))
    close close (fun _ => false) (fun _ _ => false) false (fun s => Some (Ok (stats (lw_state s)))).
End local.
