(* ===== verification/LocalLaws.v ===== *)
(** * What the local filesystem relies on

    The documented behaviour of the system calls, as laws of [HostOs], for a
    directory that nobody else changes: what is below the root ([tree]), what the
    files hold ([content]), which directory a descriptor or a stream is open on,
    and which file a descriptor holds open.  Any call may fail; one that fails has
    changed nothing. *)

From Stdlib Require Import Ascii String.
From S2P Require Import Prelude RustStr VfsTypes VfsPath VfsIface MemVfs MemVfsView MemVfsFiles LocalVfs.

#[local] Open Scope Z_scope.

Inductive HostObj := FileAt (k : FileKey) | DirAt | OtherAt.

#[export] Instance HostObj_eq_dec : EqDecision HostObj.
Proof. solve_decision. Defined.

(** What an entry of a directory is called. *)
Definition good_name (n : OsName) : Prop := match n with inl s => component_ok s | inr _ => True end.

Abbreviation OsPath := (list OsName) (only parsing).
Abbreviation Tree := (gmap (list (str + list Z)) HostObj) (only parsing).

(** The paths of a map under other names. *)
Definition relabel (f : OsPath -> OsPath) (t : Tree) : Tree := list_to_map (prod_map f id <$> map_to_list t).

(** The path [x] after the directory or file [p] has become [q]. *)
Definition renamed (p q x : OsPath) : OsPath := match strip p x with Some r => q ++ r | None => x end.

Section host.
Context {W D : Type}.
Context (tree : W -> Tree) (content : W -> FileKey -> option bytes).
Context (at_dir : W -> Z -> option OsPath) (reg : W -> Z -> option FileKey).
Context (stream : W -> D -> option (OsPath * list OsName)).
Context (patience : W -> nat).

(** A file that has a name or is held open. *)
Definition alive (w : W) (k : FileKey) : Prop := (exists p, tree w !! p = Some (FileAt k)) \/ (exists f, reg w f = Some k).

Definition dirs_kept (w w' : W) : Prop := forall f p, at_dir w f = Some p -> at_dir w' f = Some p.
Definition root_kept (w w' : W) : Prop := forall f, at_dir w f = Some [] -> at_dir w' f = Some [].
Definition streams_kept (w w' : W) : Prop := forall d x, stream w d = Some x -> stream w' d = Some x.

Record host_same (w w' : W) : Prop := {
  hs_tree : tree w' = tree w;
  hs_content k : content w' k = content w k;
  hs_dirs : dirs_kept w w';
  hs_reg f : reg w' f = reg w f;
  hs_streams : streams_kept w w'
}.

(** The name space is now [t]. *)
Record host_moved (t : Tree) (w w' : W) : Prop := {
  hm_tree : tree w' = t;
  hm_content k : alive w' k -> content w' k = content w k;
  hm_root : root_kept w w';
  hm_reg f : reg w' f = reg w f
}.

(** The file [k] now holds [d]. *)
Record host_wrote (k : FileKey) (d : bytes) (w w' : W) : Prop := {
  hw_tree : tree w' = tree w;
  hw_content : content w' k = Some d;
  hw_others k' : k' <> k -> content w' k' = content w k';
  hw_root : root_kept w w';
  hw_reg f : reg w' f = reg w f
}.

(** The descriptor [f] now holds [k] open. *)
Record host_opened (f : Z) (k : FileKey) (w w' : W) : Prop := {
  ho_new : reg w f = None;
  ho_root : root_kept w w';
  ho_reg g : reg w' g = if decide (g = f) then Some k else reg w g
}.

Definition spot (w : W) (f : Z) (n : OsName) (p : OsPath) : Prop :=
  exists q, at_dir w f = Some q /\ ((n = dot /\ p = q) \/ (good_name n /\ p = q ++ [n])).

Definition entry (w : W) (f : Z) (n : OsName) (p : OsPath) : Prop :=
  exists q, at_dir w f = Some q /\ good_name n /\ p = q ++ [n].

Definition stat_of (w : W) (o : HostObj) (m : Stat) : Prop :=
  match o with
  | FileAt k => st_type m = RawRegular /\ key_of m = k /\ content w k = Some (default [] (content w k))
                /\ st_size m = len (default [] (content w k))
  | DirAt => st_type m = RawDirectory
  | OtherAt => kind_of (st_type m) = KindOther
  end.

(** The entries of the directory [p], each once, and maybe the two dots. *)
Record listing (w : W) (p : OsPath) (ns : list OsName) : Prop := {
  li_nodup : NoDup ns;
  li_names n : n ∈ ns -> n = dot \/ n = dot_dot \/ good_name n;
  li_entries n : good_name n -> n ∈ ns <-> is_Some (tree w !! (p ++ [n]))
}.

Definition empty_dir (w : W) (p : OsPath) : Prop := forall n, tree w !! (p ++ [n]) = None.

(** What may be renamed to a name that is taken. *)
Definition may_replace (w : W) (p q : OsPath) : Prop :=
  match tree w !! q with
  | None => True
  | Some DirAt => tree w !! p = Some DirAt /\ empty_dir w q
  | Some _ => tree w !! p <> Some DirAt
  end.

Definition file_bytes (w : W) (k : FileKey) : Z := default 0 (len <$> content w k).

Definition total_bytes (w : W) (ks : list FileKey) : Z := foldr (fun k n => file_bytes w k + n) 0 ks.

Class LocalLaws (J : W -> Prop) (based : W -> str -> Prop) (host : HostOs W D) : Prop := {
  law_root w : J w -> tree w !! [] = Some DirAt;
  law_parent w p n o : J w -> tree w !! (p ++ [n]) = Some o -> tree w !! p = Some DirAt /\ good_name n;
  law_alive w k : J w -> alive w k -> is_Some (content w k);
  law_room w ks :
    J w -> NoDup ks -> Forall (alive w) ks ->
    total_bytes w ks <= U64_MAX /\ Z.of_nat (size (tree w)) + len ks <= U64_MAX;
  law_canonicalize w r :
    J w ->
    wp (h_canonicalize host r) w (fun c w' => J w' /\ host_same w w' /\ based w' c) (fun _ w' => J w' /\ host_same w w');
  law_base w c :
    J w -> based w c ->
    wp (h_open host c directory_flags) w
      (fun f w' => J w' /\ host_same w w' /\ at_dir w' f = Some []) (fun _ w' => J w' /\ host_same w w');
  law_try_clone w f p :
    J w -> at_dir w f = Some p ->
    wp (h_try_clone host f) w
      (fun f' w' => J w' /\ host_same w w' /\ at_dir w' f' = Some p) (fun _ w' => J w' /\ host_same w w');
  law_statat w f n p :
    J w -> spot w f n p ->
    wp (h_statat host f n true) w
      (fun m w' => J w' /\ host_same w w' /\ exists o, tree w !! p = Some o /\ stat_of w o m)
      (fun e w' => J w' /\ host_same w w' /\ (e = OS_ENOENT -> tree w !! p = None));
  law_open_dir w f n p :
    J w -> spot w f n p ->
    wp (h_openat host f n directory_flags 0) w
      (fun f' w' => J w' /\ host_same w w' /\ tree w !! p = Some DirAt /\ at_dir w' f' = Some p)
      (fun e w' => J w' /\ host_same w w'
         /\ match e with
            | OS_ENOENT => tree w !! p = None
            | OS_ENOTDIR | OS_ELOOP => tree w !! p <> Some DirAt
            | _ => True
            end);
  law_open_file w f n p k flags mode :
    J w -> entry w f n p -> tree w !! p = Some (FileAt k) ->
    of_directory flags = false -> of_nofollow flags = true -> of_create flags = false ->
    wp (h_openat host f n flags mode) w
      (fun f' w' => J w' /\ tree w' = tree w /\ (forall k', content w' k' = content w k') /\ host_opened f' k w w')
      (fun _ w' => J w' /\ host_same w w');
  law_create_file w f n p flags mode :
    J w -> entry w f n p -> tree w !! p = None ->
    of_directory flags = false -> of_nofollow flags = true -> of_create flags = true -> of_excl flags = true ->
    wp (h_openat host f n flags mode) w
      (fun f' w' => J w' /\ exists k, ~ alive w k /\ tree w' = <[p := FileAt k]> (tree w)
         /\ content w' k = Some [] /\ (forall k', k' <> k -> content w' k' = content w k') /\ host_opened f' k w w')
      (fun _ w' => J w' /\ host_same w w');
  law_mkdirat w f n p mode :
    J w -> entry w f n p ->
    wp (h_mkdirat host f n mode) w
      (fun _ w' => J w' /\ tree w !! p = None /\ host_moved (<[p := DirAt]> (tree w)) w w')
      (fun _ w' => J w' /\ host_same w w');
  law_renameat w f n p g m q :
    J w -> entry w f n p -> entry w g m q -> p <> q ->
    (forall k, tree w !! p = Some (FileAt k) -> tree w !! q <> Some (FileAt k)) ->
    wp (h_renameat host f n g m) w
      (fun _ w' => J w' /\ is_Some (tree w !! p) /\ strip p q = None /\ may_replace w p q
         /\ host_moved (relabel (renamed p q) (delete q (tree w))) w w')
      (fun _ w' => J w' /\ host_same w w');
  law_unlinkat w f n p :
    J w -> entry w f n p ->
    wp (h_unlinkat host f n false) w
      (fun _ w' => J w' /\ is_Some (tree w !! p) /\ tree w !! p <> Some DirAt /\ host_moved (delete p (tree w)) w w')
      (fun _ w' => J w' /\ host_same w w');
  law_rmdir w f n p :
    J w -> entry w f n p ->
    wp (h_unlinkat host f n true) w
      (fun _ w' => J w' /\ tree w !! p = Some DirAt /\ empty_dir w p /\ host_moved (delete p (tree w)) w w')
      (fun _ w' => J w' /\ host_same w w');
  law_dir_new w f p :
    J w -> at_dir w f = Some p ->
    wp (h_dir_new host f) w
      (fun d w' => J w' /\ host_same w w' /\ exists ns, stream w' d = Some (p, ns) /\ listing w p ns)
      (fun _ w' => J w' /\ host_same w w');
  law_dir_next w d p ns :
    J w -> stream w d = Some (p, ns) ->
    wp (h_dir_next host d) w
      (fun r w' => J w' /\ host_same w w'
         /\ match ns with [] => r = None | n :: ns => exists d', r = Some (n, d') /\ stream w' d' = Some (p, ns) end)
      (fun _ w' => J w' /\ host_same w w');
  law_dir_fd w d p ns :
    J w -> stream w d = Some (p, ns) ->
    wp (h_dir_fd host d) w
      (fun f w' => J w' /\ host_same w w' /\ at_dir w' f = Some p) (fun _ w' => J w' /\ host_same w w');
  law_metadata w f k :
    J w -> reg w f = Some k ->
    wp (h_metadata host f) w
      (fun m w' => J w' /\ host_same w w' /\ stat_of w (FileAt k) m) (fun _ w' => J w' /\ host_same w w');
  law_set_len w f k d n :
    J w -> reg w f = Some k -> content w k = Some d -> 0 <= n ->
    wp (h_set_len host f n) w
      (fun _ w' => J w' /\ host_wrote k (resize d n) w w') (fun _ w' => J w' /\ host_same w w');
  law_read w f k d size offset :
    J w -> reg w f = Some k -> content w k = Some d -> 0 < size -> 0 <= offset ->
    wp (h_read_at host f size offset) w
      (fun got w' => J w' /\ host_same w w' /\ (patience w' <= patience w)%nat
         /\ got = take (length got) (drop (Z.to_nat offset) d) /\ len got <= size
         /\ (got = [] -> len d <= offset))
      (fun e w' => J w' /\ host_same w w' /\ (patience w' <= patience w)%nat
         /\ (interrupted e = true -> (patience w' < patience w)%nat));
  law_write w f k d new offset :
    J w -> reg w f = Some k -> content w k = Some d -> new <> [] -> 0 <= offset ->
    wp (h_write_at host f new offset) w
      (fun n w' => J w' /\ (patience w' <= patience w)%nat /\ 0 <= n <= len new
         /\ host_wrote k (if n =? 0 then d else written d offset (take (Z.to_nat n) new)) w w')
      (fun e w' => J w' /\ host_same w w' /\ (patience w' <= patience w)%nat
         /\ (interrupted e = true -> (patience w' < patience w)%nat));
  law_drop w f :
    J w ->
    let w' := h_drop host f w in
    J w' /\ tree w' = tree w /\ (forall k, alive w' k -> content w' k = content w k) /\ root_kept w w'
    /\ forall g, reg w' g = if decide (g = f) then None else reg w g
}.

(** A host whose answers about a file that is open do not fail. *)
Class SteadyHost (J : W -> Prop) (host : HostOs W D) : Prop := {
  steady_metadata w f k : J w -> reg w f = Some k -> is_ok (h_metadata host f w).1 = true;
  steady_emptied w f k : J w -> reg w f = Some k -> content w k = Some [] -> is_ok (h_set_len host f 0 w).1 = true
}.

(** ** Closure *)

#[export] Instance host_same_preorder : PreOrder host_same.
Proof.
  split; [intros w; constructor; try done; by intros ?|]. intros w1 w2 w3 [T1 C1 D1 R1 S1] [T2 C2 D2 R2 S2].
  constructor; [congruence|intros k; by rewrite C2| |intros f; by rewrite R2|]; repeat intro; eauto.
Qed.

Lemma same_alive w w' k : host_same w w' -> alive w' k <-> alive w k.
Proof. intros [T _ _ R _]. unfold alive. rewrite T. by setoid_rewrite R. Qed.

Lemma same_spot w w' f n p : host_same w w' -> spot w f n p -> spot w' f n p.
Proof. intros H (q & Hq & Hn). exists q. split; [by apply (hs_dirs _ _ H)|done]. Qed.

Lemma local_same_entry w w' f n p : host_same w w' -> entry w f n p -> entry w' f n p.
Proof. intros H (q & Hq & Hn). exists q. split; [by apply (hs_dirs _ _ H)|done]. Qed.

Lemma entry_spot w f n p : entry w f n p -> spot w f n p.
Proof. intros (q & Hq & Hn & Hp). exists q. auto. Qed.

Lemma same_file_bytes w w' k : host_same w w' -> file_bytes w' k = file_bytes w k.
Proof. intros H. unfold file_bytes. by rewrite (hs_content _ _ H). Qed.
End host.

Arguments law_root {W D tree content at_dir reg stream patience J based host LocalLaws}.
Arguments law_parent {W D tree content at_dir reg stream patience J based host LocalLaws}.
Arguments law_alive {W D tree content at_dir reg stream patience J based host LocalLaws}.
Arguments law_room {W D tree content at_dir reg stream patience J based host LocalLaws}.
Arguments law_canonicalize {W D tree content at_dir reg stream patience J based host LocalLaws}.
Arguments law_base {W D tree content at_dir reg stream patience J based host LocalLaws}.
Arguments law_try_clone {W D tree content at_dir reg stream patience J based host LocalLaws}.
Arguments law_statat {W D tree content at_dir reg stream patience J based host LocalLaws}.
Arguments law_open_dir {W D tree content at_dir reg stream patience J based host LocalLaws}.
Arguments law_open_file {W D tree content at_dir reg stream patience J based host LocalLaws}.
Arguments law_create_file {W D tree content at_dir reg stream patience J based host LocalLaws}.
Arguments law_mkdirat {W D tree content at_dir reg stream patience J based host LocalLaws}.
Arguments law_renameat {W D tree content at_dir reg stream patience J based host LocalLaws}.
Arguments law_unlinkat {W D tree content at_dir reg stream patience J based host LocalLaws}.
Arguments law_rmdir {W D tree content at_dir reg stream patience J based host LocalLaws}.
Arguments law_dir_new {W D tree content at_dir reg stream patience J based host LocalLaws}.
Arguments law_dir_next {W D tree content at_dir reg stream patience J based host LocalLaws}.
Arguments law_dir_fd {W D tree content at_dir reg stream patience J based host LocalLaws}.
Arguments law_metadata {W D tree content at_dir reg stream patience J based host LocalLaws}.
Arguments law_set_len {W D tree content at_dir reg stream patience J based host LocalLaws}.
Arguments law_read {W D tree content at_dir reg stream patience J based host LocalLaws}.
Arguments law_write {W D tree content at_dir reg stream patience J based host LocalLaws}.
Arguments law_drop {W D tree content at_dir reg stream patience J based host LocalLaws}.
Arguments steady_metadata {W D content reg J host SteadyHost}.
Arguments steady_emptied {W D content reg J host SteadyHost}.
Arguments hs_tree {W D tree content at_dir reg stream w w'}.
Arguments hs_content {W D tree content at_dir reg stream w w'}.
Arguments hs_dirs {W D tree content at_dir reg stream w w'}.
Arguments hs_reg {W D tree content at_dir reg stream w w'}.
Arguments hs_streams {W D tree content at_dir reg stream w w'}.
Arguments hm_tree {W tree content at_dir reg t w w'}.
Arguments hm_content {W tree content at_dir reg t w w'}.
Arguments hm_root {W tree content at_dir reg t w w'}.
Arguments hm_reg {W tree content at_dir reg t w w'}.
Arguments hw_tree {W tree content at_dir reg k d w w'}.
Arguments hw_content {W tree content at_dir reg k d w w'}.
Arguments hw_others {W tree content at_dir reg k d w w'}.
Arguments hw_root {W tree content at_dir reg k d w w'}.
Arguments hw_reg {W tree content at_dir reg k d w w'}.
Arguments ho_new {W at_dir reg f k w w'}.
Arguments ho_root {W at_dir reg f k w w'}.
Arguments ho_reg {W at_dir reg f k w w'}.
Arguments li_nodup {W tree w p ns}.
Arguments li_names {W tree w p ns}.
Arguments li_entries {W tree w p ns}.
Arguments same_alive {W D tree content at_dir reg stream}.
Arguments same_spot {W D tree content at_dir reg stream}.
Arguments local_same_entry {W D tree content at_dir reg stream}.
Arguments same_file_bytes {W D tree content at_dir reg stream}.
Arguments entry_spot {W at_dir}.
