(* ===== verification/LocalWalk.v ===== *)
(** * How the local filesystem finds its way

    Looking up an entry, opening directories along a path, and the walks over whole
    trees: what they find is what the host holds, and they change nothing. *)

From Stdlib Require Import Ascii String.
From stdpp Require Import sorting gmap.
From S2P Require Import Prelude RustStr VfsTypes VfsPath VfsIface MemVfs MemVfsView MemVfsFiles LocalVfs.
From S2P Require Import LocalLaws.

#[local] Open Scope Z_scope.

(** ** Failures *)

(** The error of [m], if it ends in one. *)
Definition fails_with {E A} (P : E -> Prop) (m : outcome E A) : Prop := match m with Err e => P e | _ => True end.

Lemma wp_failing {S E A} (m : ST S E A) s (Q : A -> S -> Prop) (R : E -> S -> Prop) (H : Prop) (P : E -> Prop) :
  wp m s Q R -> (H -> fails_with P (m s).1) -> wp m s Q (fun e s' => R e s' /\ (H -> P e)).
Proof. unfold wp, fails_with. destruct (m s) as [[] ?]; simpl; auto. Qed.

Lemma wp_any_err {S E F A} (f : E -> F) (m : ST S E A) s (Q : A -> S -> Prop) (R : S -> Prop) :
  wp m s Q (fun _ => R) -> wp (map_err f m) s Q (fun _ => R).
Proof. intros H. by apply wp_map_err. Qed.

(** Writing on where a write ended. *)
Lemma written_written d offset a b :
  0 <= offset -> written (written d offset a) (offset + len a) b = written d offset (a ++ b).
Proof.
  intros Ho. pose proof (len_nonneg a). pose proof (len_nonneg b). pose proof (len_nonneg d).
  pose proof (written_len d offset a Ho) as Hl. rewrite (written_eq (written d offset a)) by lia.
  replace (Z.to_nat (offset + len a - len (written d offset a))) with 0%nat by lia. rewrite app_nil_r.
  rewrite !(written_eq d) by done. set (front := take (Z.to_nat offset) d ++ _).
  assert (length front = Z.to_nat offset) as Hf by (unfold front; rewrite length_app, length_take, length_replicate; unfold len; lia).
  set (n := Z.to_nat (offset + len a)). rewrite (app_assoc front).
  assert (length (front ++ a) = n) as Hn by (rewrite length_app, Hf; unfold n, len; lia).
  replace (take n _) with (front ++ a) by (symmetry; by apply take_app_length').
  replace (Z.to_nat (offset + len a + len b)) with (n + length b)%nat by (unfold n, len; lia).
  rewrite <- drop_drop, (drop_app_length' _ _ n), drop_drop by done. rewrite <- !app_assoc. do 4 f_equal.
  rewrite len_app. unfold n, len. lia.
Qed.

(** ** What the tree says about a path *)

Definition names (cs : list str) : OsPath := inl <$> cs.

(** The walk through the directories [cs], from [p] on. *)
Fixpoint resolve_in (t : Tree) (p : OsPath) (cs : list str) : outcome Errno OsPath :=
  match cs with
  | [] => Ok p
  | c :: cs =>
      match t !! (p ++ [inl c]) with
      | Some DirAt => resolve_in t (p ++ [inl c]) cs
      | Some (FileAt _) => Err ENOTDIR
      | Some OtherAt | None => Err ENOENT
      end
  end.

(** The path of a directory, or of an entry that a walk through directories
    leads to. *)
Definition locate (t : Tree) (cs : list str) : outcome Errno OsPath :=
  match split_last cs with
  | None => Ok []
  | Some (front, name) => let? p := resolve_in t [] front in Ok (p ++ [inl name])
  end.

Lemma resolve_in_path t p cs q : resolve_in t p cs = Ok q -> q = p ++ names cs.
Proof.
  revert p. induction cs as [|c cs IH]; intros p; simpl; [intros [= <-]; by rewrite app_nil_r|].
  destruct (t !! _) as [[]|]; try done. intros ->%IH. by rewrite <- app_assoc.
Qed.

Lemma locate_path t cs q : locate t cs = Ok q -> q = names cs.
Proof.
  unfold locate. destruct (split_last cs) as [[front name]|] eqn:H.
  - apply split_last_Some in H as ->. intros (p & Hp & [= <-])%obind_Ok_inv. apply resolve_in_path in Hp as ->.
    unfold names. by rewrite fmap_app.
  - apply split_last_None in H as ->. by intros [= <-].
Qed.

Lemma names_inj a b : names a = names b -> a = b.
Proof. apply (inj (fmap inl)). Qed.

Section walk.
Context {W D : Type} (host : HostOs W D).
Context (tree : W -> Tree) (content : W -> FileKey -> option bytes).
Context (at_dir : W -> Z -> option OsPath) (reg : W -> Z -> option FileKey).
Context (stream : W -> D -> option (OsPath * list OsName)).
Context (patience : W -> nat) (J : W -> Prop) (based : W -> str -> Prop).
Context `{Hl : !LocalLaws tree content at_dir reg stream patience J based host}.

Abbreviation host_same := (host_same tree content at_dir reg stream).
Abbreviation spot := (spot at_dir).
Abbreviation entry := (entry at_dir).
Abbreviation file_bytes := (file_bytes content).

(** A host on which looking at a tree does not fail. *)
Class HealthyHost : Prop := {
  healthy_clone w f p : J w -> at_dir w f = Some p -> is_ok (h_try_clone host f w).1 = true;
  healthy_stat w f n p : J w -> spot w f n p -> fails_with (fun e => e = OS_ENOENT) (h_statat host f n true w).1;
  healthy_open w f n p :
    J w -> spot w f n p ->
    fails_with (fun e => e ∈ [OS_ENOENT; OS_ENOTDIR; OS_ELOOP]) (h_openat host f n directory_flags 0 w).1
}.

Definition meta_of (w : W) (o : HostObj) (m : EntryMetadata) : Prop :=
  match o with
  | FileAt k => m = mkEntryMetadata KindFile k (file_bytes w k)
  | DirAt => em_kind m = KindDirectory
  | OtherAt => em_kind m = KindOther
  end.

Lemma stat_meta w o m : stat_of content w o m -> meta_of w o (entry_of m).
Proof.
  destruct o as [k| |]; simpl; [|by intros ->|done].
  intros (Ht & <- & Hc & Hs). unfold entry_of, file_bytes. rewrite Ht, Hs. f_equal.
  rewrite Hc. simpl. pose proof (len_nonneg (default [] (content w (key_of m)))). lia.
Qed.

Lemma lookup_io_spec w f n p :
  J w -> spot w f n p ->
  wp (lookup_io host f n) w
    (fun r w' => J w' /\ host_same w w'
       /\ match r with Some m => exists o, tree w !! p = Some o /\ meta_of w o m | None => tree w !! p = None end)
    (fun e w' => J w' /\ host_same w w' /\ e <> InvalidInput /\ (HealthyHost -> False)).
Proof.
  intros HJ Hs. unfold lookup_io. wp_step. apply wp_attempted.
  eapply wp_mono; [eapply (wp_failing _ _ _ _ HealthyHost); [by apply law_statat|intros Hh; by apply (healthy_stat _ _ _ p)]|..].
  - intros m w' (HJ' & Hsame & o & Ho & Hm). split; [done|]. split; [done|]. exists o. split; [done|]. by apply stat_meta.
  - intros e w' ((HJ' & Hsame & He) & Hh). destruct e; try (split; [done|split; [done|split; [done|intros Hc; by apply Hh in Hc]]]).
    wp_step. auto.
Qed.

Lemma lookup_spec w f n p :
  J w -> spot w f n p ->
  wp (lookup host f n) w
    (fun r w' => J w' /\ host_same w w'
       /\ match r with Some m => exists o, tree w !! p = Some o /\ meta_of w o m | None => tree w !! p = None end)
    (fun e w' => J w' /\ host_same w w' /\ (HealthyHost -> False)).
Proof.
  intros HJ Hs. unfold lookup, vfs_io. apply wp_map_err. eapply wp_mono; [by apply lookup_io_spec|done|].
  by intros e w' (? & ? & _ & ?).
Qed.

(** What can be told of a directory that was not opened. *)
Definition not_dir (w : W) (p : OsPath) (e : Errno) : Prop :=
  match tree w !! p with
  | Some DirAt => False
  | Some (FileAt _) => e = ENOTDIR
  | Some OtherAt | None => e = ENOENT
  end.

Lemma open_directory_spec w f n p :
  J w -> spot w f n p ->
  wp (open_directory host f n) w
    (fun f' w' => J w' /\ host_same w w' /\ tree w !! p = Some DirAt /\ at_dir w' f' = Some p)
    (fun e w' => J w' /\ host_same w w' /\ (HealthyHost -> not_dir w p e)).
Proof.
  intros HJ Hs. unfold open_directory. wp_step. apply wp_attempted.
  eapply wp_mono; [eapply (wp_failing _ _ _ _ HealthyHost); [by apply law_open_dir|intros Hh; by apply (healthy_open _ _ _ p)]|done|].
  intros e w1 ((HJ1 & H1 & He) & Hh).
  assert (forall r : Z -> W -> Prop, wp (let! meta := lookup host f n in
      match em_kind <$> meta with Some KindFile => sfail ENOTDIR | _ => sfail ENOENT end) w1 r
      (fun e w' => J w' /\ host_same w w' /\ (HealthyHost -> tree w !! p <> Some DirAt -> not_dir w p e))) as Hlook.
  { intros r. wp_step. eapply wp_mono; [apply lookup_spec; [done|by apply (same_spot _ _ _ _ _ H1)]|..].
    - intros o w2 (HJ2 & H2 & Ho). assert (host_same w w2) as H02 by by etrans. rewrite (hs_tree H1) in Ho.
      unfold not_dir. destruct o as [m|]; [destruct Ho as (o & -> & Ho)|rewrite Ho]; simpl; [|done].
      destruct o as [k| |]; simpl in Ho; [by subst|by rewrite Ho|by rewrite Ho].
    - intros e' w2 (HJ2 & H2 & Hf). split; [done|]. split; [by etrans|]. intros Hc. by apply Hf in Hc. }
  destruct e; try (split; [done|split; [done|intros Hc; apply Hh in Hc; exfalso; set_solver]]).
  - wp_step. split; [done|]. split; [done|]. intros _. unfold not_dir. by rewrite He.
  - eapply wp_mono; [apply (Hlook (fun _ _ => False))|done|]. naive_solver.
  - eapply wp_mono; [apply (Hlook (fun _ _ => False))|done|]. naive_solver.
Qed.

Lemma descend_spec w f p cs :
  J w -> at_dir w f = Some p -> Forall component_ok cs ->
  wp (descend host f cs) w
    (fun f' w' => J w' /\ host_same w w' /\ resolve_in (tree w) p cs = Ok (p ++ names cs) /\ at_dir w' f' = Some (p ++ names cs))
    (fun e w' => J w' /\ host_same w w' /\ (HealthyHost -> resolve_in (tree w) p cs = Err e)).
Proof.
  revert w f p. induction cs as [|c cs IH]; intros w f p HJ Hf Hcs; cbn [descend resolve_in].
  - wp_step. by rewrite app_nil_r.
  - apply Forall_cons in Hcs as [Hc Hcs]. wp_step.
    eapply wp_mono; [apply (open_directory_spec w f (inl c) (p ++ [inl c])); [done|exists p; split; [done|by right]]|..].
    + intros f1 w1 (HJ1 & H1 & Hd & Hf1). eapply wp_mono; [by apply IH|..].
      * intros f2 w2 (HJ2 & H2 & Hr & Hf2). split; [done|]. split; [by etrans|]. rewrite Hd, <- (hs_tree H1).
        change (names (c :: cs)) with ([inl c] ++ names cs). by rewrite app_assoc.
      * intros e w2 (HJ2 & H2 & Hr). split; [done|]. split; [by etrans|]. by rewrite Hd, <- (hs_tree H1).
    + intros e w1 (HJ1 & H1 & Hn). split; [done|]. split; [done|]. intros Hc'. apply Hn in Hc'. unfold not_dir in Hc'.
      destruct (tree w !! _) as [[]|]; by subst.
Qed.

(** ** Files that are open *)

Abbreviation patient := (fun (w : W) (n : nat) => (patience w < n)%nat).

Lemma file_len_spec w f k :
  J w -> reg w f = Some k ->
  wp (file_len host f) w (fun n w' => J w' /\ host_same w w' /\ n = file_bytes w k)
    (fun _ w' => J w' /\ host_same w w' /\ (SteadyHost content reg J host -> False)).
Proof.
  intros HJ Hf. unfold file_len, vfs_io. apply wp_map_err. wp_step.
  eapply wp_mono; [eapply (wp_failing _ _ _ _ (SteadyHost content reg J host) (fun _ => False)); [by apply law_metadata|]|..].
  - intros Hs. pose proof (steady_metadata w f k HJ Hf) as H. by destruct (h_metadata host f w) as [[] ?].
  - intros m w' (HJ' & Hs & (_ & _ & Hc & Hm)). wp_step. split; [done|]. split; [done|].
    unfold file_bytes. rewrite Hm, Hc. done.
  - intros e w' ((HJ' & Hs) & Hf'). auto.
Qed.

(** The read loop returns what the file holds from the offset on, as much as fits. *)
Lemma local_read_loop_spec fuel w f k d offset size done :
  J w -> reg w f = Some k -> content w k = Some d -> 0 <= offset <= U64_MAX ->
  done = take (length done) (drop (Z.to_nat offset) d) -> len done <= size -> len d <= U64_MAX ->
  (Z.to_nat (size - len done) + patience w < fuel)%nat ->
  wp (read_loop host fuel f offset size done) w
    (fun got w' => J w' /\ host_same w w' /\ got = take (Z.to_nat size) (drop (Z.to_nat offset) d))
    (fun _ w' => J w' /\ host_same w w').
Proof.
  revert w done. induction fuel as [|fuel IH]; intros w done HJ Hf Hd Ho Hdone Hle Hmax Hfuel; [lia|].
  cbn [read_loop]. destruct (len done <? size) eqn:Hlt; unbool.
  2:{ wp_step. split; [done|]. split; [done|]. rewrite Hdone at 1. f_equal. unfold len in *. lia. }
  wp_step. apply wp_ok_or; [intros position [-> Hp]%checked_add_Some|by intros _; split].
  wp_step. apply wp_attempted. pose proof (len_nonneg done) as Hnn.
  eapply wp_mono; [apply (law_read w f k d); [done|done|done|lia|lia]|..].
  - intros got w1 (HJ1 & H1 & Hpat & Hgot & Hlen & Hend). rewrite Z2Nat.inj_add, <- drop_drop in Hgot by lia.
    assert (Z.to_nat (len done) = length done) as Hn by (unfold len; lia). rewrite Hn in Hgot.
    destruct got as [|b got].
    + wp_step. split; [done|]. split; [done|]. specialize (Hend eq_refl). rewrite Hdone at 1.
      rewrite !take_ge; [done|unfold len in *; rewrite length_drop; lia..].
    + eapply wp_mono; [apply (IH w1)|..].
      * done.
      * by rewrite (hs_reg H1).
      * by rewrite (hs_content H1).
      * done.
      * rewrite length_app, <- take_take_drop. by rewrite <- Hdone, <- Hgot.
      * rewrite len_app. lia.
      * done.
      * rewrite len_app. unfold len at 2. simpl length. lia.
      * intros r w2 (HJ2 & H2 & ->). split; [done|]. split; [by etrans|done].
      * intros r w2 (HJ2 & H2). split; [done|]. by etrans.
  - intros e w1 (HJ1 & H1 & Hpat & Hint). destruct (interrupted e) eqn:He; [|wp_step; by split].
    eapply wp_mono; [apply (IH w1); try done|..].
    + by rewrite (hs_reg H1).
    + by rewrite (hs_content H1).
    + specialize (Hint eq_refl). lia.
    + intros r w2 (HJ2 & H2 & ->). split; [done|]. split; [by etrans|done].
    + intros r w2 (HJ2 & H2). split; [done|]. by etrans.
Qed.

(** The contents once the first [n] bytes of [new] are in place. *)
Definition wrote_part (d : bytes) (offset : Z) (new : bytes) (n : nat) : bytes :=
  if decide (n = 0%nat) then d else written d offset (take n new).

Abbreviation host_wrote := (host_wrote tree content at_dir reg).

Lemma wrote_refl w k d : content w k = Some d -> host_wrote k d w w.
Proof. intros H. constructor; try done. by intros ?. Qed.

Lemma local_wrote_same w w1 w2 k d : host_wrote k d w w1 -> host_same w1 w2 -> host_wrote k d w w2.
Proof.
  intros [T C O R G] H. constructor.
  - by rewrite (hs_tree H).
  - by rewrite (hs_content H).
  - intros k' Hk. by rewrite (hs_content H), O.
  - intros f Hf. by apply (hs_dirs H), R.
  - intros f. by rewrite (hs_reg H), G.
Qed.

Lemma local_wrote_wrote w w1 w2 k d d' : host_wrote k d w w1 -> host_wrote k d' w1 w2 -> host_wrote k d' w w2.
Proof.
  intros [T C O R G] [T' C' O' R' G']. constructor; [congruence|done|..].
  - intros k' Hk. by rewrite O', O.
  - intros f Hf. by apply R', R.
  - intros f. by rewrite G', G.
Qed.

Lemma same_wrote w w1 w2 k d : host_same w w1 -> host_wrote k d w1 w2 -> host_wrote k d w w2.
Proof.
  intros H [T' C' O' R' G']. constructor; [by rewrite T', (hs_tree H)|done|..].
  - intros k' Hk. by rewrite O', (hs_content H).
  - intros f Hf. by apply R', (hs_dirs H).
  - intros f. by rewrite G', (hs_reg H).
Qed.

Lemma written_part d offset new n m :
  0 <= offset -> (0 < n <= length new)%nat ->
  wrote_part (wrote_part d offset new n) (offset + Z.of_nat n) (drop n new) m = wrote_part d offset new (n + m).
Proof.
  intros Ho Hn. unfold wrote_part. rewrite (decide_False (P := n = 0%nat)), (decide_False (P := (n + m)%nat = 0%nat)) by lia.
  case_decide as Hm; [by rewrite Hm, Nat.add_0_r|]. rewrite <- take_take_drop.
  replace (offset + Z.of_nat n) with (offset + len (take n new)) by (unfold len; rewrite length_take; lia).
  apply written_written. done.
Qed.

Lemma write_all_at_spec fuel w f k d new offset :
  J w -> reg w f = Some k -> content w k = Some d -> 0 <= offset -> (length new + patience w < fuel)%nat ->
  wp (write_all_at host fuel f new offset) w
    (fun _ w' => J w' /\ host_wrote k (wrote_part d offset new (length new)) w w')
    (fun _ w' => J w' /\ exists m, (m <= length new)%nat /\ host_wrote k (wrote_part d offset new m) w w').
Proof.
  revert w d new offset. induction fuel as [|fuel IH]; intros w d new offset HJ Hf Hd Ho Hfuel; [lia|].
  cbn [write_all_at]. case_bool_decide as Hnew; [subst; wp_step; split; [done|]; by apply wrote_refl|].
  wp_step. apply wp_attempted. eapply wp_mono; [apply (law_write w f k d); done|..].
  - intros n w1 (HJ1 & Hpat & Hn & H1). destruct (n =? 0) eqn:Hz; unbool.
    + wp_step. split; [done|]. exists 0%nat. split; [lia|done].
    + assert (host_wrote k (wrote_part d offset new (Z.to_nat n)) w w1) as H1'.
      { unfold wrote_part. by rewrite decide_False by lia. }
      assert (0 < Z.to_nat n <= length new)%nat as Hn' by (unfold len in Hn; lia).
      replace (offset + n) with (offset + Z.of_nat (Z.to_nat n)) by lia.
      eapply wp_mono; [apply (IH w1 (wrote_part d offset new (Z.to_nat n)))|..].
      * done.
      * by rewrite (hw_reg H1).
      * apply (hw_content H1').
      * lia.
      * rewrite length_drop. lia.
      * intros _ w2 (HJ2 & H2). split; [done|]. rewrite written_part in H2 by done.
        replace (Z.to_nat n + _)%nat with (length new) in H2 by (rewrite length_drop; lia). by eapply local_wrote_wrote.
      * intros _ w2 (HJ2 & m & Hm & H2). split; [done|]. rewrite written_part in H2 by done. rewrite length_drop in Hm.
        exists (Z.to_nat n + m)%nat. split; [lia|]. by eapply local_wrote_wrote.
  - intros e w1 (HJ1 & H1 & Hpat & Hint). destruct (interrupted e) eqn:He.
    + eapply wp_mono; [apply (IH w1 d new offset); try done|..].
      * by rewrite (hs_reg H1).
      * by rewrite (hs_content H1).
      * specialize (Hint eq_refl). lia.
      * intros _ w2 (HJ2 & H2). split; [done|]. by eapply same_wrote.
      * intros _ w2 (HJ2 & m & Hm & H2). split; [done|]. exists m. split; [done|]. by eapply same_wrote.
    + wp_step. split; [done|]. exists 0%nat. split; [lia|]. eapply same_wrote; [done|]. apply wrote_refl. by rewrite (hs_content H1).
Qed.
End walk.

Arguments lookup_io_spec {W D host tree content at_dir reg stream patience J based Hl}.
Arguments lookup_spec {W D host tree content at_dir reg stream patience J based Hl}.
Arguments open_directory_spec {W D host tree content at_dir reg stream patience J based Hl}.
Arguments descend_spec {W D host tree content at_dir reg stream patience J based Hl}.
Arguments file_len_spec {W D host tree content at_dir reg stream patience J based Hl}.
Arguments local_read_loop_spec {W D host tree content at_dir reg stream patience J based Hl}.
Arguments wrote_refl {W tree content at_dir reg}.
Arguments local_wrote_same {W D tree content at_dir reg stream}.
Arguments local_wrote_wrote {W tree content at_dir reg}.
Arguments same_wrote {W D tree content at_dir reg stream}.
Arguments write_all_at_spec {W D host tree content at_dir reg stream patience J based Hl}.
Arguments healthy_clone {W D host at_dir J HealthyHost}.
Arguments healthy_stat {W D host at_dir J HealthyHost}.
Arguments healthy_open {W D host at_dir J HealthyHost}.

(** ** The walks over whole trees

    [scan_tree] adds up the tree below the root, [subtree_deeper_than] looks for an
    entry that is too deep; both keep the streams of the directories they are in on
    a stack.  A level of the stack is a directory and the names its stream has
    still to deliver. *)

#[local] Open Scope Z_scope.

(** ** Sums *)

Definition sumz {A} (f : A -> Z) (l : list A) : Z := foldr (fun a n => f a + n) 0 l.

Lemma sumz_cons {A} (f : A -> Z) a l : sumz f (a :: l) = f a + sumz f l.
Proof. done. Qed.

Lemma sumz_app {A} (f : A -> Z) l k : sumz f (l ++ k) = sumz f l + sumz f k.
Proof. induction l as [|a l IH]; simpl; lia. Qed.

Lemma sumz_perm {A} (f : A -> Z) l k : l ≡ₚ k -> sumz f l = sumz f k.
Proof. induction 1; simpl; lia. Qed.

Lemma sumz_ext {A} (f g : A -> Z) l : (forall a, a ∈ l -> f a = g a) -> sumz f l = sumz g l.
Proof. induction l as [|a l IH]; intros H; simpl; [done|]. rewrite H by left. rewrite IH; [done|]. intros; apply H; by right. Qed.

Lemma sumz_zero {A} (f : A -> Z) l : (forall a, a ∈ l -> f a = 0) -> sumz f l = 0.
Proof. intros H. induction l as [|a l IH]; simpl; [done|]. rewrite H by left. rewrite IH; [done|]. intros; apply H; by right. Qed.

Lemma sumz_le {A} (f g : A -> Z) l : (forall a, a ∈ l -> f a <= g a) -> sumz f l <= sumz g l.
Proof.
  intros H. induction l as [|a l IH]; simpl; [done|]. assert (f a <= g a) by (apply H; left).
  assert (sumz f l <= sumz g l) by (apply IH; intros; apply H; by right). lia.
Qed.

Lemma sumz_nonneg {A} (f : A -> Z) l : (forall a, a ∈ l -> 0 <= f a) -> 0 <= sumz f l.
Proof. intros H. rewrite <- (sumz_zero (fun _ : A => 0) l) by done. by apply sumz_le. Qed.

Lemma sumz_in {A} (f : A -> Z) l a : (forall b, b ∈ l -> 0 <= f b) -> a ∈ l -> f a <= sumz f l.
Proof.
  intros H Ha. apply list_elem_of_split in Ha as (l1 & l2 & ->). rewrite sumz_app. simpl.
  assert (0 <= sumz f l1) by (apply sumz_nonneg; set_solver). assert (0 <= sumz f l2) by (apply sumz_nonneg; set_solver). lia.
Qed.

Lemma sumz_add {A} (f g : A -> Z) l : sumz (fun a => f a + g a) l = sumz f l + sumz g l.
Proof. induction l as [|a l IH]; simpl; lia. Qed.

Lemma sumz_swap {A B} (f : A -> B -> Z) l k :
  sumz (fun a => sumz (fun b => f a b) k) l = sumz (fun b => sumz (fun a => f a b) l) k.
Proof.
  induction l as [|a l IH]; simpl; [symmetry; by apply sumz_zero|]. rewrite IH. by rewrite <- sumz_add.
Qed.

Lemma sumz_fmap {A B} (f : B -> Z) (h : A -> B) l : sumz f (h <$> l) = sumz (fun a => f (h a)) l.
Proof. induction l as [|a l IH]; csimpl; [done|]. cbn [sumz foldr]. by rewrite <- IH. Qed.

Lemma sumz_one {A} `{EqDecision A} (l : list A) x (v : Z) :
  NoDup l -> x ∈ l -> sumz (fun a => if decide (a = x) then v else 0) l = v.
Proof.
  intros Hnd Hx. apply list_elem_of_split in Hx as (l1 & l2 & ->). apply NoDup_app in Hnd as (_ & H1 & Hnd).
  apply NoDup_cons in Hnd as [H2 _]. rewrite sumz_app. simpl. rewrite decide_True by done.
  rewrite !sumz_zero; [lia|..]; intros a Ha; rewrite decide_False; try done; intros ->; [done|]. set_solver.
Qed.

Lemma sumz_const {A} (l : list A) : sumz (fun _ => 1) l = len l.
Proof. unfold len. induction l as [|a l IH]; simpl; lia. Qed.

(** ** What is below a path *)

Definition is_visible (o : HostObj) : bool := match o with OtherAt => false | _ => true end.

(** The sum of [g] over what is at [x] or below it. *)
Definition tree_sum (g : HostObj -> Z) (x : OsPath) (t : Tree) : Z :=
  sumz (fun e => match strip x e.1 with Some _ => g e.2 | None => 0 end) (map_to_list t).

Definition closed_tree (t : Tree) : Prop :=
  forall p n o, t !! (p ++ [n]) = Some o -> t !! p = Some DirAt /\ good_name n.

Section sums.
Context (g : HostObj -> Z) (Hg : forall o, 0 <= g o) (t : Tree) (Ht : closed_tree t).

Lemma tree_sum_nonneg x : 0 <= tree_sum g x t.
Proof. apply sumz_nonneg. intros [q o] _. simpl. by destruct (strip x q). Qed.

Lemma closed_below x y o : t !! (x ++ y) = Some o -> y <> [] -> t !! x = Some DirAt.
Proof.
  revert o. induction y as [|n y IH] using rev_ind; intros o Ho Hy; [done|].
  rewrite app_assoc in Ho. apply Ht in Ho as [Ho _]. destruct y as [|m y]; [by rewrite app_nil_r in Ho|]. by eapply IH.
Qed.

(** The sum is what is at [x] and what is strictly below. *)
Lemma tree_sum_split x :
  tree_sum g x t
  = default 0 (g <$> t !! x)
    + sumz (fun e => match strip x e.1 with Some _ => g e.2 | None => 0 end) (map_to_list (delete x t)).
Proof.
  unfold tree_sum. destruct (t !! x) as [o|] eqn:Ho; simpl; [|by rewrite delete_id].
  rewrite <- (sumz_perm _ _ _ (map_to_list_delete _ _ _ Ho)). simpl.
  assert (strip x x = Some []) as -> by (apply strip_Some; by rewrite app_nil_r). done.
Qed.

(** Nothing is below what is not a directory. *)
Lemma tree_sum_leaf x : t !! x <> Some DirAt -> tree_sum g x t = default 0 (g <$> t !! x).
Proof.
  intros Hx. rewrite tree_sum_split, sumz_zero; [lia|]. intros [q o] Hq%elem_of_map_to_list. simpl.
  apply lookup_delete_Some in Hq as [Hne Hq]. destruct (strip x q) as [r|] eqn:Hr; [|done].
  apply strip_Some in Hr as ->. destruct Hx. eapply closed_below; [exact Hq|]. intros ->. by rewrite app_nil_r in Hne.
Qed.

(** A directory is what its entries are. *)
Lemma tree_sum_dir x ns :
  t !! x = Some DirAt -> NoDup ns -> (forall n, good_name n -> n ∈ ns <-> is_Some (t !! (x ++ [n]))) ->
  tree_sum g x t = g DirAt + sumz (fun n => tree_sum g (x ++ [n]) t) ns.
Proof.
  intros Hx Hnd Hns. rewrite tree_sum_split, Hx. simpl. f_equal. unfold tree_sum. rewrite sumz_swap.
  rewrite <- (sumz_perm _ _ _ (map_to_list_delete _ _ _ Hx)). cbn [sumz foldr fst snd].
  rewrite (sumz_zero _ ns); [rewrite Z.add_0_l|].
  2:{ intros n _. destruct (strip (x ++ [n]) x) eqn:E; [|done]. apply strip_Some in E.
      apply (f_equal length) in E. rewrite !length_app in E. simpl in E. lia. }
  apply sumz_ext. intros [q o] Hq%elem_of_map_to_list. apply lookup_delete_Some in Hq as [Hne Hq]. cbn [fst snd].
  destruct (strip x q) as [r|] eqn:Hr.
  - apply strip_Some in Hr as ->. destruct r as [|m r]; [by rewrite app_nil_r in Hne|].
    assert (is_Some (t !! (x ++ [m]))) as Hm.
    { replace (x ++ m :: r) with ((x ++ [m]) ++ r) in Hq by (by rewrite <- app_assoc). destruct r as [|m' r]; [rewrite app_nil_r in Hq; eauto|].
      eapply closed_below in Hq; [eauto|done]. }
    assert (good_name m) as Hgood by (destruct Hm as [o' Hm]; by apply Ht in Hm as [_ ?]).
    rewrite <- (sumz_one ns m (g o) Hnd) at 1 by by apply Hns. apply sumz_ext. intros n _.
    destruct (decide (n = m)) as [->|Hnm].
    + replace (x ++ m :: r) with ((x ++ [m]) ++ r) by (by rewrite <- app_assoc). by rewrite strip_app.
    + destruct (strip (x ++ [n]) (x ++ m :: r)) eqn:E; [|done]. apply strip_Some in E. rewrite <- app_assoc in E.
      apply app_inv_head in E. simplify_eq/=.
  - symmetry. apply sumz_zero. intros n _. by rewrite strip_parent.
Qed.
End sums.

Lemma dots_not_good n : n = dot \/ n = dot_dot -> ~ good_name n.
Proof. intros [-> | ->] (H1 & H2 & H3 & _); done. Qed.

(** ** The stack *)

Abbreviation Level := (OsPath * list OsName)%type (only parsing).

Definition level_ok (t : Tree) (l : Level) : Prop :=
  forall n, n ∈ l.2 -> n = dot \/ n = dot_dot \/ (good_name n /\ is_Some (t !! (l.1 ++ [n]))).

(** The directories of the stack are each one deeper than the one below it. *)
Fixpoint stacked (base : nat) (levels : list Level) : Prop :=
  match levels with
  | [] => True
  | l :: levels => length l.1 = (base + length levels)%nat /\ stacked base levels
  end.

(** How many turns a name takes, and a level. *)
Definition name_cost (t : Tree) (p : OsPath) (n : OsName) : Z :=
  if decide (n = dot \/ n = dot_dot) then 1 else 4 * tree_sum (fun _ => 1) (p ++ [n]) t.
Definition level_cost (t : Tree) (l : Level) : Z := 1 + sumz (name_cost t l.1) l.2.

(** The sum over what the names of the stack have not delivered yet. *)
Definition level_sum (g : HostObj -> Z) (t : Tree) (l : Level) : Z := sumz (fun n => tree_sum g (l.1 ++ [n]) t) l.2.

Lemma name_cost_nonneg t p n : 0 <= name_cost t p n.
Proof. unfold name_cost. case_decide; [done|]. pose proof (tree_sum_nonneg (fun _ => 1) ltac:(done) t (p ++ [n])). lia. Qed.

Lemma level_cost_pos t l : 0 < level_cost t l.
Proof. unfold level_cost. pose proof (sumz_nonneg (name_cost t l.1) l.2 ltac:(intros; apply name_cost_nonneg)). lia. Qed.

Lemma stack_cost_nonneg t levels : 0 <= sumz (level_cost t) levels.
Proof. apply sumz_nonneg. intros l _. pose proof (level_cost_pos t l). lia. Qed.

(** A directory is given more turns than its level takes. *)
Lemma listing_cost t x ns :
  closed_tree t -> t !! x = Some DirAt -> NoDup ns ->
  (forall n, good_name n -> n ∈ ns <-> is_Some (t !! (x ++ [n]))) ->
  level_cost t (x, ns) < 4 * tree_sum (fun _ => 1) x t.
Proof.
  intros Ht Hx Hnd Hns. rewrite (tree_sum_dir (fun _ => 1) t Ht x ns) by done. unfold level_cost. cbn [fst snd].
  assert (sumz (name_cost t x) ns <= 2 + 4 * sumz (fun n => tree_sum (fun _ => 1) (x ++ [n]) t) ns); [|lia].
  transitivity (sumz (fun n => (if decide (n = dot) then 1 else 0) + (if decide (n = dot_dot) then 1 else 0)
                              + 4 * tree_sum (fun _ => 1) (x ++ [n]) t) ns).
  - apply sumz_le. intros n _. unfold name_cost. pose proof (tree_sum_nonneg (fun _ => 1) ltac:(done) t (x ++ [n])).
    destruct (decide (n = dot)), (decide (n = dot_dot)), (decide (n = dot \/ n = dot_dot)); naive_solver lia.
  - rewrite !sumz_add. assert (forall y, sumz (fun n : OsName => if decide (n = y) then 1 else 0) ns <= 1) as H1.
    { intros y. destruct (decide (y ∈ ns)) as [Hy|Hy]; [by rewrite sumz_one|].
      rewrite sumz_zero; [done|]. intros n Hn. rewrite decide_False; [done|]. by intros ->. }
    pose proof (H1 dot). pose proof (H1 dot_dot).
    assert (sumz (fun n => 4 * tree_sum (fun _ => 1) (x ++ [n]) t) ns = 4 * sumz (fun n => tree_sum (fun _ => 1) (x ++ [n]) t) ns).
    { clear. induction ns as [|n ns IH]; simpl; lia. }
    lia.
Qed.

(** ** The walks *)

Section walk.
Context {W D : Type} (host : HostOs W D).
Context (tree : W -> Tree) (content : W -> FileKey -> option bytes).
Context (at_dir : W -> Z -> option OsPath) (reg : W -> Z -> option FileKey).
Context (stream : W -> D -> option (OsPath * list OsName)).
Context (patience : W -> nat) (J : W -> Prop) (based : W -> str -> Prop).
Context `{Hl : !LocalLaws tree content at_dir reg stream patience J based host}.

Abbreviation host_same := (host_same tree content at_dir reg stream).
Abbreviation healthy := (HealthyHost host at_dir J).

Definition stands (w : W) (stack : list D) (levels : list Level) : Prop :=
  Forall2 (fun d l => stream w d = Some l) stack levels.

Lemma stands_same w w' stack levels : host_same w w' -> stands w stack levels -> stands w' stack levels.
Proof. intros H Hs. eapply Forall2_impl; [exact Hs|]. intros d l. apply (hs_streams H). Qed.

Lemma J_closed w : J w -> closed_tree (tree w).
Proof. intros HJ p n o. by apply law_parent. Qed.

Lemma open_child_spec w f n p :
  J w -> spot at_dir w f n p -> tree w !! p = Some DirAt ->
  wp (open_child host f n) w
    (fun r w' => J w' /\ host_same w w' /\ exists f', r = Some f' /\ at_dir w' f' = Some p)
    (fun e w' => J w' /\ host_same w w' /\ e <> InvalidInput).
Proof.
  intros HJ Hs Hp. unfold open_child. wp_step. apply wp_attempted.
  eapply wp_mono; [by apply law_open_dir|..].
  - intros f' w' (HJ' & H & _ & Hf). wp_step. eauto.
  - intros e w' (HJ' & H & He). rewrite Hp in He. by destruct e.
Qed.

Lemma io_spec {A} (m : ST W OsErrno A) w (Q : A -> W -> Prop) (R : W -> Prop) :
  wp m w Q (fun _ => R) -> wp (io m) w Q (fun e w' => R w' /\ e <> InvalidInput).
Proof. intros H. apply wp_map_err. eapply wp_mono; [exact H|done|]. done. Qed.

(** The next name of the directory on top of the stack, and what it is. *)
Definition next_entry (d : D) : ST W IoError (option (OsName * D * option (option EntryMetadata * Z))) :=
  let! next := io (h_dir_next host d) in
  match next with
  | None => sret None
  | Some (name, d) =>
      if bool_decide (name = dot) || bool_decide (name = dot_dot) then sret (Some (name, d, None))
      else
        let! dir := io (h_dir_fd host d) in
        let! meta := lookup_io host dir name in
        sret (Some (name, d, Some (meta, dir)))
  end.

Lemma next_entry_spec w d p ns :
  J w -> stream w d = Some (p, ns) -> level_ok (tree w) (p, ns) ->
  wp (next_entry d) w
    (fun r w' => J w' /\ host_same w w' /\
       match ns with
       | [] => r = None
       | n :: ns =>
           exists d', stream w' d' = Some (p, ns)
           /\ ((n = dot \/ n = dot_dot) /\ r = Some (n, d', None)
               \/ exists dir o m, n <> dot /\ n <> dot_dot /\ good_name n /\ r = Some (n, d', Some (Some m, dir))
                  /\ spot at_dir w' dir n (p ++ [n]) /\ tree w !! (p ++ [n]) = Some o /\ meta_of content w o m)
       end)
    (fun e w' => J w' /\ host_same w w' /\ e <> InvalidInput).
Proof.
  intros HJ Hd Hok. unfold next_entry. wp_step.
  eapply wp_mono; [apply io_spec; by apply (law_dir_next w d p ns)|..]; [|naive_solver].
  intros r w1 (HJ1 & H1 & Hr). destruct ns as [|n ns]; [subst; by wp_step|]. destruct Hr as (d' & -> & Hd').
  destruct (bool_decide (n = dot) || bool_decide (n = dot_dot)) eqn:Hdots.
  { wp_step. split; [done|]. split; [done|]. exists d'. split; [done|]. left. split; [|done].
    apply orb_true_iff in Hdots as [? | ?]; unbool; auto. }
  unbool. wp_step. eapply wp_mono; [apply io_spec; by apply (law_dir_fd w1 d' p ns)|..].
  2:{ intros e w2 ((HJ2 & H2) & He). split; [done|]. split; [by etrans|done]. }
  intros dir w2 (HJ2 & H2 & Hdir). wp_step. assert (host_same w w2) as H02 by by etrans.
  destruct (Hok n ltac:(left)) as [|[|[Hgood [o Ho]]]]; [done|done|]. cbn [fst] in Ho.
  assert (spot at_dir w2 dir n (p ++ [n])) as Hs by (exists p; split; [done|by right]).
  eapply wp_mono; [by eapply lookup_io_spec|..].
  - intros m w3 (HJ3 & H3 & Hm). wp_step. split; [done|]. split; [by etrans|]. exists d'. split; [by apply (hs_streams H3), (hs_streams H2)|].
    right. rewrite (hs_tree H02) in Hm.
    destruct m as [m|]; [|congruence]. destruct Hm as (o' & Ho' & Hm). simplify_eq.
    exists dir, o, m. do 4 (split; [done|]). split; [by apply (same_spot _ _ _ _ _ H3)|]. split; [done|].
    destruct o as [k| |]; simpl in *; [|done|done]. by rewrite Hm, (same_file_bytes _ _ _ H02).
  - intros e w3 (HJ3 & H3 & He & _). split; [done|]. split; [by etrans|done].
Qed.

Lemma wp_eq {S E A} (m m' : ST S E A) s Q R : m s = m' s -> wp m' s Q R -> wp m s Q R.
Proof. unfold wp. by intros ->. Qed.

Lemma scan_loop_step fuel d below used count w :
  scan_loop host (S fuel) (d :: below) used count w
  = sbind (next_entry d) (fun r =>
      match r with
      | None => scan_loop host fuel below used count
      | Some (name, d, None) => scan_loop host fuel (d :: below) used count
      | Some (name, d, Some (None, _)) => scan_loop host fuel (d :: below) used count
      | Some (name, d, Some (Some meta, dir)) =>
          if negb (bool_decide (em_kind meta = KindOther)) && (MAX_PATH_DEPTH <? S (length below))%nat then sfail InvalidInput
          else
            match em_kind meta with
            | KindDirectory =>
                let! child := open_child host dir name in
                match child with
                | None => scan_loop host fuel (d :: below) used count
                | Some child =>
                    let! child := io (h_dir_new host child) in
                    scan_loop host fuel (child :: d :: below) used (saturating_add count 1)
                end
            | KindFile => scan_loop host fuel (d :: below) (saturating_add used (em_len meta)) (saturating_add count 1)
            | KindOther => scan_loop host fuel (d :: below) used count
            end
      end) w.
Proof.
  cbn [scan_loop length]. unfold next_entry, sbind. destruct (io (h_dir_next host d) w) as [[[[n d']|]| | |] w1]; try done.
  destruct (bool_decide (n = dot) || bool_decide (n = dot_dot)); [done|].
  destruct (io (h_dir_fd host d') w1) as [[dir| | |] w2]; try done.
  by destruct (lookup_io host dir n w2) as [[[m|]| | |] w3].
Qed.

Lemma deeper_loop_step fuel allowance d below w :
  deeper_loop host (S fuel) allowance (d :: below) w
  = sbind (next_entry d) (fun r =>
      match r with
      | None => deeper_loop host fuel allowance below
      | Some (name, d, None) => deeper_loop host fuel allowance (d :: below)
      | Some (name, d, Some (None, _)) => deeper_loop host fuel allowance (d :: below)
      | Some (name, d, Some (Some meta, dir)) =>
          if bool_decide (em_kind meta = KindOther) then deeper_loop host fuel allowance (d :: below)
          else if (allowance <? S (length below))%nat then sret true
          else if bool_decide (em_kind meta = KindDirectory) then
            let! child := open_child host dir name in
            match child with
            | None => deeper_loop host fuel allowance (d :: below)
            | Some child =>
                let! child := io (h_dir_new host child) in
                deeper_loop host fuel allowance (child :: d :: below)
            end
          else deeper_loop host fuel allowance (d :: below)
      end) w.
Proof.
  cbn [deeper_loop length]. unfold next_entry, sbind. destruct (io (h_dir_next host d) w) as [[[[n d']|]| | |] w1]; try done.
  destruct (bool_decide (n = dot) || bool_decide (n = dot_dot)); [done|].
  destruct (io (h_dir_fd host d') w1) as [[dir| | |] w2]; try done.
  by destruct (lookup_io host dir n w2) as [[[m|]| | |] w3].
Qed.

(** ** Adding up *)

Definition weight (gb : FileKey -> Z) (o : HostObj) : Z := match o with FileAt k => gb k | _ => 0 end.
Definition counted (o : HostObj) : Z := if is_visible o then 1 else 0.

Section in_tree.
Context (t : Tree) (Ht : closed_tree t).

Abbreviation rest g levels := (sumz (level_sum g t) levels).
Abbreviation cost levels := (sumz (level_cost t) levels).

Lemma counted_nonneg o : 0 <= counted o.
Proof. by destruct o. Qed.

Lemma rest_nonneg g levels : (forall o, 0 <= g o) -> 0 <= rest g levels.
Proof. intros Hg. apply sumz_nonneg. intros l _. apply sumz_nonneg. intros n _. by apply tree_sum_nonneg. Qed.

Lemma tree_sum_dots g p n : n = dot \/ n = dot_dot -> (forall o, 0 <= g o) -> tree_sum g (p ++ [n]) t = 0.
Proof.
  intros Hn Hg. destruct (t !! (p ++ [n])) as [o|] eqn:Ho; [|rewrite tree_sum_leaf by (done || by rewrite Ho); by rewrite Ho].
  apply Ht in Ho as [_ Ho]. by apply dots_not_good in Hn.
Qed.

(** What a level costs and sums up to, a name at a time. *)
Lemma cost_name p n ns levels : cost ((p, n :: ns) :: levels) = name_cost t p n + cost ((p, ns) :: levels).
Proof. rewrite !sumz_cons. unfold level_cost. cbn [fst snd]. rewrite sumz_cons. lia. Qed.

Lemma rest_name g p n ns levels : rest g ((p, n :: ns) :: levels) = tree_sum g (p ++ [n]) t + rest g ((p, ns) :: levels).
Proof. rewrite !sumz_cons. unfold level_sum at 1 3. cbn [fst snd]. rewrite sumz_cons. lia. Qed.

Lemma level_ok_tail p n ns : level_ok t (p, n :: ns) -> level_ok t (p, ns).
Proof. intros H m Hm. apply H. by right. Qed.

Lemma name_cost_pos p n ns : level_ok t (p, n :: ns) -> 0 < name_cost t p n.
Proof.
  intros H. unfold name_cost. case_decide as Hn; [done|]. destruct (H n ltac:(left)) as [|[|[_ [o Ho]]]]; [naive_solver..|]. cbn [fst] in Ho.
  pose proof (tree_sum_split (fun _ => 1) t (p ++ [n])) as Hs. rewrite Ho in Hs. simpl in Hs.
  match type of Hs with _ = 1 + ?x => assert (0 <= x) end; [|lia].
  apply sumz_nonneg. intros [q o'] _. simpl. by case_match.
Qed.

Lemma listing_ok w p ns : tree w = t -> listing tree w p ns -> level_ok t (p, ns).
Proof.
  intros <- [_ H1 H2] n Hn. destruct (H1 n Hn) as [|[|Hg]]; [by left|by right; left|]. right; right.
  split; [done|]. by apply H2.
Qed.

Lemma saturating_exact a b : a + b <= U64_MAX -> saturating_add a b = a + b.
Proof. unfold saturating_add. lia. Qed.

(** Nothing that the stack still has to deliver is deeper than [limit]. *)
Definition within (limit : nat) (levels : list Level) : Prop :=
  forall l n r o, l ∈ levels -> n ∈ l.2 -> t !! (l.1 ++ n :: r) = Some o -> o <> OtherAt -> (length (l.1 ++ n :: r) <= limit)%nat.

Lemma within_name limit p n ns levels :
  within limit ((p, ns) :: levels) ->
  (forall r o, t !! (p ++ n :: r) = Some o -> o <> OtherAt -> (length (p ++ n :: r) <= limit)%nat) ->
  within limit ((p, n :: ns) :: levels).
Proof.
  intros H Hn l m r o Hin Hm. apply elem_of_cons in Hin as [-> | Hin]; cbn [fst snd] in *; [|apply (H l); set_solver].
  apply elem_of_cons in Hm as [-> | Hm]; [apply Hn|]. apply (H (p, ns)); [by left|done].
Qed.

(** Every name on the way to an entry is there. *)
Lemma below_name p n r o : t !! (p ++ n :: r) = Some o -> good_name n /\ is_Some (t !! (p ++ [n])).
Proof.
  intros Ho. assert (is_Some (t !! (p ++ [n]))) as [o' Ho'].
  { replace (p ++ n :: r) with ((p ++ [n]) ++ r) in Ho by (by rewrite <- app_assoc).
    destruct r as [|x r]; [rewrite app_nil_r in Ho; eauto|]. eapply (closed_below t Ht) in Ho; eauto. }
  split; [by apply (Ht p n o')|eauto].
Qed.

Lemma leaf_below p n r o : t !! (p ++ n :: r) = Some o -> t !! (p ++ [n]) <> Some DirAt -> r = [].
Proof.
  intros Ho Hn. destruct r as [|m r]; [done|]. destruct Hn. replace (p ++ n :: m :: r) with ((p ++ [n]) ++ m :: r) in Ho by (by rewrite <- app_assoc).
  by eapply (closed_below t Ht) in Ho.
Qed.

(** A name that is no directory, and one that is. *)
Lemma within_leaf limit p n ns levels :
  t !! (p ++ [n]) <> Some DirAt -> (forall o, t !! (p ++ [n]) = Some o -> o <> OtherAt -> (length (p ++ [n]) <= limit)%nat) ->
  within limit ((p, ns) :: levels) -> within limit ((p, n :: ns) :: levels).
Proof.
  intros Hleaf Hlen H. apply within_name; [done|]. intros r o Hr Hv. assert (r = []) as -> by by eapply leaf_below. by apply (Hlen o).
Qed.

Lemma within_push limit p n ns ns' levels :
  (forall m, good_name m -> m ∈ ns' <-> is_Some (t !! ((p ++ [n]) ++ [m]))) -> (length (p ++ [n]) <= limit)%nat ->
  within limit ((p ++ [n], ns') :: (p, ns) :: levels) -> within limit ((p, n :: ns) :: levels).
Proof.
  intros Hen Hlen H. apply within_name; [intros l m0 r o Hin; apply H; by right|]. intros r o Hr Hv.
  destruct r as [|x r]; [done|]. replace (p ++ n :: x :: r) with ((p ++ [n]) ++ x :: r) in * by (by rewrite <- app_assoc).
  destruct (below_name _ _ _ _ Hr) as [Hg Hx]. apply (H (p ++ [n], ns') x r o); [by left|by apply Hen|done|done].
Qed.

Lemma dots_absent p n : n = dot \/ n = dot_dot -> t !! (p ++ [n]) = None.
Proof.
  intros Hn. destruct (t !! (p ++ [n])) as [o|] eqn:Ho; [|done]. apply Ht in Ho as [_ Hg]. by apply dots_not_good in Hn.
Qed.

Section scan.
Context (gb : FileKey -> Z) (Hgb : forall k, 0 <= gb k).

Lemma weight_nonneg o : 0 <= weight gb o.
Proof. destruct o; simpl; [apply Hgb|done|done]. Qed.

(** Adding up [levels], from what was added up before. *)
Definition adds_up (levels : list Level) (used count : Z) (w : W) (m : ST W IoError (Z * Z)) (w1 : W) : Prop :=
  wp m w1
    (fun r w' => J w' /\ host_same w w' /\ r = (used + rest (weight gb) levels, count + rest counted levels)
       /\ within MAX_PATH_DEPTH levels)
    (fun e w' => J w' /\ host_same w w'
       /\ (e = InvalidInput -> exists p o, t !! p = Some o /\ o <> OtherAt /\ (MAX_PATH_DEPTH < length p)%nat)).

Lemma adds_up_more levels levels' used used' count count' w w1 w2 m :
  host_same w w1 -> adds_up levels' used' count' w1 m w2 ->
  used' + rest (weight gb) levels' = used + rest (weight gb) levels ->
  count' + rest counted levels' = count + rest counted levels ->
  (within MAX_PATH_DEPTH levels' -> within MAX_PATH_DEPTH levels) ->
  adds_up levels used count w m w2.
Proof.
  intros H Hm Hu Hc Hd. eapply wp_mono; [exact Hm|..].
  - intros r w' (HJ & H' & -> & Hw). split; [done|]. split; [by etrans|]. split; [by rewrite Hu, Hc|auto].
  - intros e w' (HJ & H' & He). split; [done|]. split; [by etrans|done].
Qed.

(** What a directory adds: itself, and the names of its stream. *)
Lemma push_sum g x ns levels :
  t !! x = Some DirAt -> NoDup ns -> (forall n, good_name n -> n ∈ ns <-> is_Some (t !! (x ++ [n]))) ->
  (forall o, 0 <= g o) -> g DirAt + rest g ((x, ns) :: levels) = tree_sum g x t + rest g levels.
Proof. intros Hx Hnd Hns Hg. rewrite (tree_sum_dir g t Ht x ns), sumz_cons by done. unfold level_sum at 1. cbn [fst snd]. lia. Qed.

Lemma scan_loop_spec fuel w stack levels used count :
  J w -> tree w = t -> (forall k, file_bytes content w k = gb k) ->
  stands w stack levels -> Forall (level_ok t) levels -> stacked 0 levels ->
  used + rest (weight gb) levels <= U64_MAX -> count + rest counted levels <= U64_MAX ->
  cost levels < Z.of_nat fuel -> adds_up levels used count w (scan_loop host fuel stack used count) w.
Proof.
  revert w stack levels used count. induction fuel as [|fuel IH]; intros w stack levels used count HJ Hw Hk Hst Hok Hd Hu Hc Hf.
  { pose proof (stack_cost_nonneg t levels). lia. }
  destruct Hst as [|d [p ns] stack levels Hd1 Hst].
  { unfold adds_up. cbn [scan_loop]. wp_step. simpl. rewrite !Z.add_0_r. do 3 (split; [done|]). intros l n r o Hin. set_solver. }
  apply Forall_cons in Hok as [Hok1 Hok]. destruct Hd as [Hp Hd]. cbn [fst] in Hp.
  assert (length stack = length levels) as Hlen by by eapply Forall2_length.
  eapply wp_eq; [apply scan_loop_step|]. wp_step.
  eapply wp_mono; [eapply (next_entry_spec w d p ns); [done|done|by rewrite Hw]|..]; [|naive_solver].
  intros r w1 (HJ1 & H1 & Hr). assert (tree w1 = t) as Hw1 by by rewrite (hs_tree H1).
  assert (forall k, file_bytes content w1 k = gb k) as Hk1 by (intros k; by rewrite (same_file_bytes _ _ _ H1)).
  assert (stands w1 stack levels) as Hst1 by by eapply stands_same.
  destruct ns as [|n ns].
  { subst r. pose proof (level_cost_pos t (p, [])). assert (forall g, rest g ((p, []) :: levels) = rest g levels) as E by done.
    rewrite !E in Hu, Hc. rewrite sumz_cons in Hf. eapply (adds_up_more _ levels _ used _ count); [exact H1|apply IH; try done; lia|by rewrite E..|].
    intros Hwi l n r o Hin. apply elem_of_cons in Hin as [-> | Hin]; [set_solver|]. by apply Hwi. }
  destruct Hr as (d' & Hd' & Hr). pose proof (name_cost_pos p n ns Hok1) as Hpos. rewrite cost_name in Hf. apply level_ok_tail in Hok1 as Hok2.
  assert (forall g, (forall o, 0 <= g o) -> 0 <= rest g ((p, ns) :: levels)) as Hrest by (intros; by apply rest_nonneg).
  pose proof (Hrest (weight gb) weight_nonneg) as Hrw. pose proof (Hrest counted counted_nonneg) as Hrc.
  rewrite rest_name in Hu, Hc.
  assert (forall w2 u c, J w2 -> host_same w1 w2 -> u = used + tree_sum (weight gb) (p ++ [n]) t ->
    c = count + tree_sum counted (p ++ [n]) t -> t !! (p ++ [n]) <> Some DirAt ->
    (forall o, t !! (p ++ [n]) = Some o -> o <> OtherAt -> (length (p ++ [n]) <= MAX_PATH_DEPTH)%nat) ->
    adds_up ((p, n :: ns) :: levels) used count w (scan_loop host fuel (d' :: stack) u c) w2) as Hagain.
  { intros w2 u c HJ2 H2 -> -> Hleaf Hlim. assert (host_same w w2) as H02 by by etrans.
    eapply (adds_up_more _ ((p, ns) :: levels)); [exact H02|apply IH|rewrite rest_name; lia..|by apply within_leaf]; try done; try lia.
    - by rewrite (hs_tree H02).
    - intros k. by rewrite (same_file_bytes _ _ _ H02).
    - constructor; [by apply (hs_streams H2)|by eapply stands_same].
    - by constructor. }
  destruct Hr as [(Hn & ->)|(dir & o & m & Hn1 & Hn2 & Hgood & -> & Hs & Ho & Hm)].
  { pose proof (dots_absent p n Hn) as Hno.
    apply Hagain; [done|done|rewrite tree_sum_dots; auto using weight_nonneg; lia|rewrite tree_sum_dots; auto using counted_nonneg; lia|by rewrite Hno|].
    intros o. by rewrite Hno. }
  rewrite Hw in Ho.
  destruct (negb (bool_decide (em_kind m = KindOther)) && (MAX_PATH_DEPTH <? S (length stack))%nat) eqn:Hdeep.
  { unbool. apply wp_fail. split; [done|]. split; [done|]. intros _. exists (p ++ [n]), o. split; [done|]. split.
    - by intros ->.
    - rewrite length_app, Hp, <- Hlen. simpl. lia. }
  assert (em_kind m <> KindOther -> (length (p ++ [n]) <= MAX_PATH_DEPTH)%nat) as Hshort.
  { intros Hk'. rewrite bool_decide_false in Hdeep by done. simpl in Hdeep. unbool. rewrite length_app, Hp, <- Hlen. simpl. lia. }
  destruct o as [k| |]; cbn [meta_of] in Hm.
  - subst m. cbn [em_kind em_len]. assert (t !! (p ++ [n]) <> Some DirAt) as Hleaf by by rewrite Ho.
    rewrite !(tree_sum_leaf _ t Ht _ Hleaf), Ho in *. simpl in *. rewrite Hk.
    apply Hagain; [done|done|by apply saturating_exact; lia..|done|]. intros o _ _. by apply Hshort.
  - rewrite Hm. wp_step.
    assert (tree w1 !! (p ++ [n]) = Some DirAt) as Hdir by by rewrite Hw1.
    eapply wp_mono; [exact (open_child_spec w1 dir n (p ++ [n]) HJ1 Hs Hdir)|..].
    2:{ intros e w2 (HJ2 & H2 & He). split; [done|]. split; [by etrans|done]. }
    intros r w2 (HJ2 & H2 & child & -> & Hchild). wp_step.
    eapply wp_mono; [apply io_spec; by apply law_dir_new|..].
    2:{ intros e w3 ((HJ3 & H3) & He). split; [done|]. split; [do 2 (etrans; [done|]); done|done]. }
    intros cd w3 (HJ3 & H3 & ns' & Hcd & Hli). assert (host_same w w3) as H03 by (do 2 (etrans; [done|]); done).
    assert (tree w2 = t) as Hw2 by (by rewrite (hs_tree H2)).
    pose proof (li_nodup Hli) as Hnd. pose proof (li_entries Hli) as Hen. rewrite Hw2 in Hen.
    pose proof (listing_cost t (p ++ [n]) ns' Ht Ho Hnd Hen) as Hcost.
    assert (name_cost t p n = 4 * tree_sum (fun _ => 1) (p ++ [n]) t) as Hnc by (unfold name_cost; rewrite decide_False; naive_solver).
    pose proof (push_sum (weight gb) _ ns' ((p, ns) :: levels) Ho Hnd Hen weight_nonneg) as Hpw.
    pose proof (push_sum counted _ ns' ((p, ns) :: levels) Ho Hnd Hen counted_nonneg) as Hpc. cbn [weight counted is_visible] in Hpw, Hpc.
    pose proof (rest_nonneg (counted) ((p ++ [n], ns') :: (p, ns) :: levels) counted_nonneg).
    rewrite saturating_exact by lia.
    eapply (adds_up_more _ ((p ++ [n], ns') :: (p, ns) :: levels)); [exact H03|apply IH|rewrite rest_name; lia..|]; try done; try lia.
    + by rewrite (hs_tree H03).
    + intros k. by rewrite (same_file_bytes _ _ _ H03).
    + constructor; [done|]. constructor; [by apply (hs_streams H3), (hs_streams H2)|]. eapply stands_same; [|done]. by etrans.
    + constructor; [by apply (listing_ok w2)|by constructor].
    + cbn [stacked fst length]. rewrite length_app, Hp. simpl. repeat split; lia || done.
    + rewrite !sumz_cons in *. lia.
    + apply within_push; [done|]. apply Hshort. by rewrite Hm.
  - rewrite Hm. assert (t !! (p ++ [n]) <> Some DirAt) as Hleaf by by rewrite Ho.
    apply Hagain; [done|done|rewrite (tree_sum_leaf _ t Ht _ Hleaf), Ho; simpl; by rewrite Z.add_0_r..|done|].
    intros o. rewrite Ho. by intros [= <-].
Qed.

End scan.

(** ** Looking for depth *)

Definition finds_depth (p0 : OsPath) (allowance : nat) (levels : list Level) (w : W) (m : ST W IoError bool) (w1 : W) : Prop :=
  wp m w1
    (fun b w' => J w' /\ host_same w w' /\
       if b then exists r o, t !! (p0 ++ r) = Some o /\ o <> OtherAt /\ (allowance < length r)%nat
       else within (length p0 + allowance) levels)
    (fun _ w' => J w' /\ host_same w w').

Lemma finds_depth_more p0 allowance levels levels' w w1 w2 m :
  host_same w w1 -> finds_depth p0 allowance levels' w1 m w2 ->
  (within (length p0 + allowance) levels' -> within (length p0 + allowance) levels) ->
  finds_depth p0 allowance levels w m w2.
Proof.
  intros H Hm Hw. eapply wp_mono; [exact Hm|..].
  - intros [] w' (HJ & H' & Hr); (split; [done|split; [by etrans|auto]]).
  - intros e w' (HJ & H'). split; [done|by etrans].
Qed.

Lemma deeper_loop_spec fuel p0 allowance w stack levels :
  J w -> tree w = t -> stands w stack levels -> Forall (level_ok t) levels -> stacked (length p0) levels ->
  Forall (fun l => exists r, l.1 = p0 ++ r) levels -> cost levels < Z.of_nat fuel ->
  finds_depth p0 allowance levels w (deeper_loop host fuel allowance stack) w.
Proof.
  revert w stack levels. induction fuel as [|fuel IH]; intros w stack levels HJ Hw Hst Hok Hd Hbase Hf.
  { pose proof (stack_cost_nonneg t levels). lia. }
  destruct Hst as [|d [p ns] stack levels Hd1 Hst].
  { unfold finds_depth. cbn [deeper_loop]. wp_step. split; [done|]. split; [done|]. intros l n r o Hin. set_solver. }
  apply Forall_cons in Hok as [Hok1 Hok]. apply Forall_cons in Hbase as [Hb1 Hbase]. destruct Hd as [Hp Hd]. cbn [fst] in Hp.
  assert (length stack = length levels) as Hlen by by eapply Forall2_length.
  eapply wp_eq; [apply deeper_loop_step|]. wp_step.
  eapply wp_mono; [eapply (next_entry_spec w d p ns); [done|done|by rewrite Hw]|..]; [|naive_solver].
  intros r w1 (HJ1 & H1 & Hr). assert (tree w1 = t) as Hw1 by by rewrite (hs_tree H1).
  assert (stands w1 stack levels) as Hst1 by by eapply stands_same.
  destruct ns as [|n ns].
  { subst r. pose proof (level_cost_pos t (p, [])). rewrite sumz_cons in Hf.
    eapply (finds_depth_more _ _ _ levels); [exact H1|apply IH; try done; lia|].
    intros Hwi l n r o Hin. apply elem_of_cons in Hin as [-> | Hin]; [set_solver|]. by apply Hwi. }
  destruct Hr as (d' & Hd' & Hr). pose proof (name_cost_pos p n ns Hok1) as Hpos. rewrite cost_name in Hf. apply level_ok_tail in Hok1 as Hok2.
  assert (forall w2, J w2 -> host_same w1 w2 ->
    (forall r o, t !! (p ++ n :: r) = Some o -> o <> OtherAt -> (length (p ++ n :: r) <= length p0 + allowance)%nat) ->
    finds_depth p0 allowance ((p, n :: ns) :: levels) w (deeper_loop host fuel allowance (d' :: stack)) w2) as Hagain.
  { intros w2 HJ2 H2 Hn. assert (host_same w w2) as H02 by by etrans.
    eapply (finds_depth_more _ _ _ ((p, ns) :: levels)); [exact H02|apply IH|intros; by apply within_name]; try done; try lia.
    - by rewrite (hs_tree H02).
    - constructor; [by apply (hs_streams H2)|by eapply stands_same].
    - by constructor.
    - by constructor. }
  destruct Hr as [(Hn & ->)|(dir & o & m & Hn1 & Hn2 & Hgood & -> & Hs & Ho & Hm)].
  { apply Hagain; [done|done|]. intros r o Ho. exfalso. by apply (dots_not_good n Hn), (below_name p n r o). }
  rewrite Hw in Ho. case_bool_decide as Hother.
  { apply Hagain; [done|done|]. destruct o; simpl in Hm; [by subst m|congruence|]. intros r o Hr Hvis.
    assert (r = []) as -> by (eapply leaf_below; [done|by rewrite Ho]). congruence. }
  assert (o <> OtherAt) as Hvis by by intros ->.
  destruct (allowance <? S (length stack))%nat eqn:Hdeep; unbool.
  { wp_step. split; [done|]. split; [done|]. destruct Hb1 as [r Hr]. cbn [fst] in Hr. exists (r ++ [n]), o. rewrite app_assoc, <- Hr.
    split; [done|]. split; [done|]. rewrite Hr in Hp. rewrite length_app in *. simpl. lia. }
  assert (length (p ++ [n]) <= length p0 + allowance)%nat as Hshort by (rewrite length_app; simpl; lia).
  case_bool_decide as Hdirk.
  - assert (o = DirAt) as -> by (destruct o; simpl in Hm; [by subst m|done|done]).
    wp_step. assert (tree w1 !! (p ++ [n]) = Some DirAt) as Hdir by by rewrite Hw1.
    eapply wp_mono; [exact (open_child_spec w1 dir n (p ++ [n]) HJ1 Hs Hdir)|..].
    2:{ intros e w2 (HJ2 & H2 & He). split; [done|by etrans]. }
    intros r w2 (HJ2 & H2 & child & -> & Hchild). wp_step.
    eapply wp_mono; [apply io_spec; by apply law_dir_new|..].
    2:{ intros e w3 ((HJ3 & H3) & He). split; [done|]. do 2 (etrans; [done|]); done. }
    intros cd w3 (HJ3 & H3 & ns' & Hcd & Hli). assert (host_same w w3) as H03 by (do 2 (etrans; [done|]); done).
    assert (tree w2 = t) as Hw2 by (by rewrite (hs_tree H2)).
    pose proof (li_nodup Hli) as Hnd. pose proof (li_entries Hli) as Hen. rewrite Hw2 in Hen.
    pose proof (listing_cost t (p ++ [n]) ns' Ht Ho Hnd Hen) as Hcost.
    assert (name_cost t p n = 4 * tree_sum (fun _ => 1) (p ++ [n]) t) as Hnc by (unfold name_cost; rewrite decide_False; naive_solver).
    eapply (finds_depth_more _ _ _ ((p ++ [n], ns') :: (p, ns) :: levels)); [exact H03|apply IH|].
    + done.
    + by rewrite (hs_tree H03).
    + constructor; [done|]. constructor; [by apply (hs_streams H3), (hs_streams H2)|]. eapply stands_same; [|done]. by etrans.
    + constructor; [by apply (listing_ok w2)|by constructor].
    + cbn [stacked fst length]. rewrite length_app, Hp. simpl. repeat split; lia || done.
    + constructor; [|by constructor]. destruct Hb1 as [r Hr]. cbn [fst] in *. exists (r ++ [n]). by rewrite app_assoc, Hr.
    + rewrite !sumz_cons in *. lia.
    + by apply within_push.
  - apply Hagain; [done|done|]. intros r o' Hr Hv. assert (r = []) as ->; [|done].
    eapply leaf_below; [done|]. rewrite Ho. destruct o; [done| |done]. simpl in Hm. by rewrite Hm in Hdirk.
Qed.
End in_tree.

(** ** From a directory on *)

Context (walk : W -> nat).

Definition walks_enough : Prop := forall w, J w -> 4 * Z.of_nat (size (tree w)) <= Z.of_nat (walk w).

(** The bytes below the root, and the entries there that are not invisible. *)
Definition tree_bytes (w : W) : Z := tree_sum (weight (file_bytes content w)) [] (tree w).
Definition tree_entries (w : W) : Z := tree_sum counted [] (tree w) - 1.

(** What the namespace shows of an object. *)
Definition shown (w : W) (o : HostObj) : option Metadata :=
  match o with
  | FileAt k => Some (mkMetadata RegularFile (file_bytes content w k))
  | DirAt => Some (mkMetadata DirectoryType 0)
  | OtherAt => None
  end.

Definition entry_for (w : W) (p : OsPath) (n : OsName) : option DirEntry :=
  name ← to_str n; o ← tree w !! (p ++ [n]); m ← shown w o; Some (mkDirEntry name m).

Lemma file_bytes_nonneg w k : 0 <= file_bytes content w k.
Proof. unfold file_bytes. destruct (content w k); simpl; [apply len_nonneg|done]. Qed.

Lemma tree_sum_size x t : tree_sum (fun _ => 1) x t <= Z.of_nat (size t).
Proof.
  unfold tree_sum. rewrite <- length_map_to_list. fold (len (map_to_list t)). rewrite <- sumz_const. apply sumz_le.
  intros [q o] _. simpl. by case_match.
Qed.

Lemma walks w p ns : walks_enough -> J w -> tree w !! p = Some DirAt -> listing tree w p ns -> level_cost (tree w) (p, ns) < Z.of_nat (walk w).
Proof.
  intros He HJ Hp [Hnd _ Hen]. eapply Z.lt_le_trans; [by apply listing_cost; [by apply J_closed|..]|].
  pose proof (tree_sum_size p (tree w)). specialize (He w HJ). lia.
Qed.

Lemma listing_short w p ns : walks_enough -> J w -> tree w !! p = Some DirAt -> listing tree w p ns -> (length ns < walk w)%nat.
Proof.
  intros He HJ Hp Hli. pose proof (walks w p ns He HJ Hp Hli) as H. pose proof (J_closed w HJ) as Ht.
  assert (len ns <= sumz (name_cost (tree w) p) ns); [|unfold level_cost in H; simpl in H; unfold len in *; lia].
  rewrite <- (sumz_const ns). apply sumz_le. intros n Hn. apply list_elem_of_split in Hn as (l1 & l2 & ->).
  assert (level_ok (tree w) (p, n :: l2)) as Hok.
  { intros m Hm. apply (listing_ok (tree w) Ht w p _ eq_refl Hli). simpl in *. set_solver. }
  pose proof (name_cost_pos (tree w) p n l2 Hok). lia.
Qed.

(** Adding up from the root finds every entry once. *)
Lemma scan_tree_spec w f :
  walks_enough -> J w -> at_dir w f = Some [] -> tree_bytes w <= U64_MAX -> tree_entries w <= U64_MAX ->
  wp (scan_tree host walk f) w
    (fun r w' => J w' /\ host_same w w' /\ r = (tree_bytes w, tree_entries w)
       /\ forall p o, tree w !! p = Some o -> o <> OtherAt -> (length p <= MAX_PATH_DEPTH)%nat)
    (fun e w' => J w' /\ host_same w w'
       /\ (e = InvalidInput -> exists p o, tree w !! p = Some o /\ o <> OtherAt /\ (MAX_PATH_DEPTH < length p)%nat)).
Proof.
  intros He HJ Hf Hb Hc. unfold scan_tree. do 3 wp_step. eapply wp_mono; [apply io_spec; by apply law_dir_new|..]; [|naive_solver].
  intros d w1 (HJ1 & H1 & ns & Hd & Hli). pose proof (law_root w HJ) as Hroot. pose proof (J_closed w HJ) as Ht.
  pose proof (walks w [] ns He HJ Hroot Hli) as Hcost.
  pose proof (push_sum _ Ht (weight (file_bytes content w)) [] ns [] Hroot (li_nodup Hli) (li_entries Hli)
    (weight_nonneg _ (file_bytes_nonneg w))) as Hpw.
  pose proof (push_sum _ Ht counted [] ns [] Hroot (li_nodup Hli) (li_entries Hli) counted_nonneg) as Hpc.
  cbn [weight counted is_visible] in Hpw, Hpc. change (sumz _ []) with 0 in Hpw. change (sumz (level_sum counted (tree w)) []) with 0 in Hpc.
  unfold tree_bytes, tree_entries in *.
  eapply wp_mono; [apply (scan_loop_spec (tree w) Ht (file_bytes content w) (file_bytes_nonneg w) _ w1 [d] [([], ns)] 0 0)|..].
  - done.
  - apply (hs_tree H1).
  - intros k. apply (same_file_bytes _ _ _ H1).
  - by repeat constructor.
  - constructor; [by apply (listing_ok (tree w) Ht w)|done].
  - done.
  - lia.
  - lia.
  - rewrite sumz_cons. simpl. lia.
  - intros r w2 (HJ2 & H2 & -> & Hwi). split; [done|]. split; [by etrans|]. split; [f_equal; lia|].
    intros [|n r] o Ho Hv; [simpl; lia|]. destruct (below_name (tree w) Ht [] n r o Ho) as [Hg Hx].
    apply (Hwi ([], ns) n r o); [by left|by apply (li_entries Hli)|done|done].
  - intros e w2 (HJ2 & H2 & He2). split; [done|]. split; [by etrans|done].
Qed.

Lemma subtree_deeper_spec w f p allowance :
  walks_enough -> J w -> at_dir w f = Some p -> tree w !! p = Some DirAt ->
  wp (subtree_deeper_than host walk f allowance) w
    (fun b w' => J w' /\ host_same w w' /\
       if b then exists r o, tree w !! (p ++ r) = Some o /\ o <> OtherAt /\ (allowance < length r)%nat
       else forall r o, tree w !! (p ++ r) = Some o -> o <> OtherAt -> (length r <= allowance)%nat)
    (fun _ w' => J w' /\ host_same w w').
Proof.
  intros He HJ Hf Hp. unfold subtree_deeper_than. do 3 wp_step.
  eapply wp_mono; [apply io_spec; by apply law_dir_new|..]; [|naive_solver].
  intros d w1 (HJ1 & H1 & ns & Hd & Hli). pose proof (J_closed w HJ) as Ht. pose proof (walks w p ns He HJ Hp Hli) as Hcost.
  eapply wp_mono; [apply (deeper_loop_spec (tree w) Ht _ p allowance w1 [d] [(p, ns)])|..].
  - done.
  - apply (hs_tree H1).
  - by repeat constructor.
  - constructor; [by apply (listing_ok (tree w) Ht w)|done].
  - simpl. auto with lia.
  - constructor; [|done]. exists []. by rewrite app_nil_r.
  - rewrite sumz_cons. simpl. lia.
  - intros b w2 (HJ2 & H2 & Hb). split; [done|]. split; [by etrans|]. destruct b; [done|].
    intros r o Hr Hv. destruct r as [|n r]; [simpl; lia|]. destruct (below_name (tree w) Ht p n r o Hr) as [Hg Hx].
    assert (n ∈ ns) as Hn by by apply (li_entries Hli).
    pose proof (Hb (p, ns) n r o ltac:(by left) Hn Hr Hv) as Hlen. rewrite length_app in Hlen. simpl in *. lia.
  - intros e w2 (HJ2 & H2). split; [done|by etrans].
Qed.

Lemma readdir_loop_spec v dir fuel w d p ns acc :
  lv_host v = host -> J w -> at_dir w dir = Some p -> stream w d = Some (p, ns) -> level_ok (tree w) (p, ns) -> (length ns < fuel)%nat ->
  wp (readdir_loop v fuel dir d acc) w
    (fun es w' => J w' /\ host_same w w' /\ es = acc ++ omap (entry_for w p) ns)
    (fun e w' => J w' /\ host_same w w').
Proof.
  intros Hv. revert w d ns acc. induction fuel as [|fuel IH]; intros w d ns acc HJ Hdir Hd Hok Hf; [lia|].
  cbn [readdir_loop]. rewrite Hv. wp_step. eapply wp_mono; [apply wp_any_err; by apply law_dir_next|..]; [|done].
  intros r w1 (HJ1 & H1 & Hr). destruct ns as [|n ns]; [subst; wp_step; by rewrite app_nil_r|]. destruct Hr as (d' & -> & Hd').
  assert (level_ok (tree w) (p, ns)) as Hok' by (intros m Hm; apply Hok; by right).
  assert (forall w2 acc', J w2 -> host_same w1 w2 -> acc' = acc ++ option_list (entry_for w p n) ->
    wp (readdir_loop v fuel dir d' acc') w2
      (fun es w' => J w' /\ host_same w w' /\ es = acc ++ omap (entry_for w p) (n :: ns)) (fun e w' => J w' /\ host_same w w')) as Hagain.
  { intros w2 acc' HJ2 H2 ->. assert (host_same w w2) as H02 by by etrans.
    eapply wp_mono; [apply (IH w2 d' ns); [done|by apply (hs_dirs H02)|by apply (hs_streams H2)|by rewrite (hs_tree H02)|simpl in Hf; lia]|..].
    - intros es w3 (HJ3 & H3 & ->). split; [done|]. split; [by etrans|]. rewrite <- app_assoc. f_equal.
      assert (forall m, entry_for w2 p m = entry_for w p m) as E.
      { intros m. unfold entry_for. rewrite (hs_tree H02). destruct (to_str m), (tree w !! _) as [[]|]; simpl; try done.
        by rewrite (same_file_bytes _ _ _ H02). }
      assert (omap (entry_for w2 p) ns = omap (entry_for w p) ns) as ->.
      { clear -E. induction ns as [|m ns IH]; csimpl; [done|]. by rewrite E, IH. }
      csimpl. by destruct (entry_for w p n).
    - intros e w3 (HJ3 & H3). split; [done|by etrans]. }
  assert (n = dot \/ n = dot_dot -> entry_for w p n = None) as Hnodots.
  { intros Hn. unfold entry_for. destruct (tree w !! (p ++ [n])) as [o|] eqn:Ho; [|by destruct (to_str n)].
    apply (J_closed w HJ) in Ho as [_ Ho]. by apply dots_not_good in Hn. }
  destruct n as [s|b]; cbn [to_str]; [|apply Hagain; [done|done|by rewrite app_nil_r]].
  destruct (bool_decide (s = lit ".") || bool_decide (s = lit "..")) eqn:Hdots.
  { apply Hagain; [done|done|]. rewrite Hnodots; [by rewrite app_nil_r|]. apply orb_true_iff in Hdots as [? | ?]; unbool; subst; auto. }
  unbool. destruct (Hok (inl s) ltac:(left)) as [Hs|[Hs|[Hgood [o Ho]]]]; [by injection Hs|by injection Hs|]. cbn [fst] in Ho.
  wp_step. eapply wp_mono; [eapply (lookup_spec w1 dir (inl s) (p ++ [inl s])); [done|]|..].
  - exists p. split; [by apply (hs_dirs H1)|by right].
  - intros m w2 (HJ2 & H2 & Hm). rewrite (hs_tree H1) in Hm. destruct m as [m|]; [|congruence]. destruct Hm as (o' & Ho' & Hm).
    assert (o' = o) as -> by congruence. apply Hagain; [done|done|]. unfold entry_for. rewrite Ho. cbn [to_str].
    unfold metadata_from. destruct o as [k| |]; simpl in Hm.
    + subst m. simpl. by rewrite (same_file_bytes _ _ _ H1).
    + rewrite Hm. done.
    + rewrite Hm. simpl. by rewrite app_nil_r.
  - intros e w2 (HJ2 & H2 & _). split; [done|by etrans].
Qed.
End walk.

Arguments J_closed {W D host tree content at_dir reg stream patience J based Hl}.
Arguments open_child_spec {W D host tree content at_dir reg stream patience J based Hl}.
Arguments next_entry_spec {W D host tree content at_dir reg stream patience J based Hl}.
Arguments scan_loop_spec {W D host tree content at_dir reg stream patience J based Hl}.
Arguments deeper_loop_spec {W D host tree content at_dir reg stream patience J based Hl}.
Arguments file_bytes_nonneg {W content}.
Arguments scan_tree_spec {W D host tree content at_dir reg stream patience J based Hl walk}.
Arguments subtree_deeper_spec {W D host tree content at_dir reg stream patience J based Hl walk}.
Arguments readdir_loop_spec {W D host tree content at_dir reg stream patience J based Hl v}.
Arguments listing_short {W D host tree content at_dir reg stream patience J based Hl walk}.
