(* ===== verification/LocalInv.v ===== *)
(** * The invariant of the local filesystem, and its accounts

    [local_inv] ties the state to what the system holds: every handle is an open
    file of its own, and the table of open files counts the handles of each and
    knows which have lost their name.  [exact] says that the two quota counters are
    what is below the root together with the unlinked files that are still open;
    operations keep it on a host whose answers about open files do not fail. *)

From Stdlib Require Import Ascii String.
From stdpp Require Import sorting gmap.
From S2P Require Import Prelude RustStr VfsTypes VfsPath VfsIface MemVfs MemVfsView MemVfsFiles LocalVfs.
From S2P Require Import LocalLaws LocalWalk.

#[local] Open Scope Z_scope.

(** ** Sums over maps *)

Definition msum {K A} `{Countable K} (g : K -> A -> Z) (m : gmap K A) : Z := sumz (fun e => g e.1 e.2) (map_to_list m).

Section msum.
Context {K A : Type} `{Countable K}.
Implicit Types (m : gmap K A) (g : K -> A -> Z).

Lemma msum_insert g m k a : m !! k = None -> msum g (<[k := a]> m) = g k a + msum g m.
Proof. intros Hk. unfold msum. by rewrite (sumz_perm _ _ _ (map_to_list_insert _ _ _ Hk)). Qed.

Lemma msum_delete g m k a : m !! k = Some a -> msum g m = g k a + msum g (delete k m).
Proof. intros Hk. unfold msum. by rewrite <- (sumz_perm _ _ _ (map_to_list_delete _ _ _ Hk)). Qed.

Lemma msum_update g m k a b : m !! k = Some a -> msum g (<[k := b]> m) = msum g m - g k a + g k b.
Proof.
  intros Hk. rewrite (msum_delete g m k a), <- insert_delete_eq, msum_insert by (done || apply lookup_delete_eq). lia.
Qed.

Lemma msum_ext g g' m : (forall k a, m !! k = Some a -> g k a = g' k a) -> msum g m = msum g' m.
Proof. intros Hg. apply sumz_ext. intros [k a] Hka%elem_of_map_to_list. by apply Hg. Qed.

Lemma msum_nonneg g m : (forall k a, m !! k = Some a -> 0 <= g k a) -> 0 <= msum g m.
Proof. intros Hg. apply sumz_nonneg. intros [k a] Hka%elem_of_map_to_list. by apply Hg. Qed.

Lemma msum_le g g' m : (forall k a, m !! k = Some a -> g k a <= g' k a) -> msum g m <= msum g' m.
Proof. intros Hg. apply sumz_le. intros [k a] Hka%elem_of_map_to_list. by apply Hg. Qed.

Lemma msum_in g m k a : (forall k a, m !! k = Some a -> 0 <= g k a) -> m !! k = Some a -> g k a <= msum g m.
Proof.
  intros Hg Hk. apply (sumz_in (fun e => g e.1 e.2) _ (k, a)); [|by apply elem_of_map_to_list].
  intros [k' a'] Hka%elem_of_map_to_list. by apply Hg.
Qed.

Lemma msum_empty g : msum g (∅ : gmap K A) = 0.
Proof. unfold msum. by rewrite map_to_list_empty. Qed.
End msum.

Section relabel.
Context (f : OsPath -> OsPath) (t : Tree).
Context (Hf : forall p q, is_Some (t !! p) -> is_Some (t !! q) -> f p = f q -> p = q).

Lemma relabel_nodup : NoDup (prod_map f (@id HostObj) <$> map_to_list t).*1.
Proof.
  rewrite <- list_fmap_compose. apply NoDup_fmap_2_strong; [|apply NoDup_map_to_list].
  intros [p a] [q b] Hp%elem_of_map_to_list Hq%elem_of_map_to_list E. simpl in E.
  assert (p = q) as -> by (apply Hf; eauto). congruence.
Qed.

Lemma msum_relabel (g : HostObj -> Z) : msum (fun _ => g) (relabel f t) = msum (fun _ => g) t.
Proof.
  unfold msum, relabel. rewrite (sumz_perm _ _ _ (map_to_list_to_map _ relabel_nodup)).
  rewrite sumz_fmap. by apply sumz_ext.
Qed.

Lemma relabel_lookup x o : relabel f t !! x = Some o <-> exists p, t !! p = Some o /\ f p = x.
Proof.
  unfold relabel. rewrite <- (elem_of_list_to_map _ _ _ relabel_nodup), list_elem_of_fmap. split.
  - intros ([p a] & E & Hp%elem_of_map_to_list). simpl in E. simplify_eq/=. eauto.
  - intros (p & Hp & <-). exists (p, o). split; [done|]. by apply elem_of_map_to_list.
Qed.
End relabel.

(** A rename merges no two paths, when nothing is at the new name. *)
Lemma renamed_inj (p q x y : OsPath) : strip p q = None -> strip q x = None -> strip q y = None -> renamed p q x = renamed p q y -> x = y.
Proof.
  intros Hpq Hx Hy. unfold renamed. destruct (strip p x) as [r|] eqn:Ex, (strip p y) as [r'|] eqn:Ey.
  - intros E%app_inv_head. apply strip_Some in Ex, Ey. congruence.
  - intros <-. by rewrite strip_app in Hy.
  - intros ->. by rewrite strip_app in Hx.
  - done.
Qed.

(** ** The invariant *)

Definition no_links (t : Tree) : Prop := forall p q k, t !! p = Some (FileAt k) -> t !! q = Some (FileAt k) -> p = q.

(** No entry is deeper than paths reach. *)
Definition shallow (t : Tree) : Prop := forall p o, t !! p = Some o -> o <> OtherAt -> (length p <= MAX_PATH_DEPTH)%nat.

Definition handle_count (hs : gmap Z HandleState) (k : FileKey) : Z := msum (fun _ x => if decide (hs_key x = k) then 1 else 0) hs.

Definition orphan_count (files : gmap FileKey OpenFileState) : Z := msum (fun _ o => if of_unlinked o then 1 else 0) files.

Definition tree_keys (t : Tree) : list FileKey :=
  omap (fun e => match e.2 with FileAt k => Some k | _ => None end) (map_to_list t).
Definition orphans (files : gmap FileKey OpenFileState) : list FileKey :=
  omap (fun e => if of_unlinked e.2 then Some e.1 else None) (map_to_list files).

Section local.
Context {W D : Type} (v : LocalVfs W D) (patience : W -> nat).
Context (tree : W -> Tree) (content : W -> FileKey -> option bytes).
Context (at_dir : W -> Z -> option OsPath) (reg : W -> Z -> option FileKey).
Context (stream : W -> D -> option (OsPath * list OsName)) (J : W -> Prop) (based : W -> str -> Prop).
Context `{Hl : !LocalLaws tree content at_dir reg stream patience J based (lv_host v)}.

Abbreviation LW := (LocalWorld W).
Abbreviation host_same := (host_same tree content at_dir reg stream).
Abbreviation fb := (file_bytes content).
Abbreviation steady := (SteadyHost content reg J (lv_host v)).
Abbreviation healthy := (HealthyHost (lv_host v) at_dir J).
Abbreviation tree_bytes := (tree_bytes tree content).
Abbreviation tree_entries := (tree_entries tree).
Implicit Types (s : LW) (w : W).

Definition named (w : W) (k : FileKey) : Prop := exists p, tree w !! p = Some (FileAt k).

Record local_inv (s : LW) : Prop := {
  li_host : J (lw_host s);
  li_root : at_dir (lw_host s) (lv_root_dir v) = Some [];
  li_links : no_links (tree (lw_host s));
  li_file h x : l_handles (lw_state s) !! h = Some x -> reg (lw_host s) (hs_file x) = Some (hs_key x);
  li_apart h h' x x' :
    l_handles (lw_state s) !! h = Some x -> l_handles (lw_state s) !! h' = Some x' -> hs_file x = hs_file x' -> h = h';
  li_below h x : l_handles (lw_state s) !! h = Some x -> 1 <= h < l_next_handle (lw_state s);
  li_next : 1 <= l_next_handle (lw_state s) <= U64_MAX;
  li_open k :
    match l_open_files (lw_state s) !! k with
    | Some o => of_open_handles o = handle_count (l_handles (lw_state s)) k /\ 0 < of_open_handles o
                /\ (of_unlinked o = true <-> ~ named (lw_host s) k)
    | None => handle_count (l_handles (lw_state s)) k = 0
    end;
  li_used : 0 <= l_used_bytes (lw_state s) <= U64_MAX;
  li_count : 0 <= l_file_count (lw_state s) <= U64_MAX
}.

(** The bytes of the unlinked files that are open. *)
Definition orphan_bytes (w : W) (files : gmap FileKey OpenFileState) : Z := msum (fun k o => if of_unlinked o then fb w k else 0) files.

Definition exact (s : LW) : Prop :=
  l_used_bytes (lw_state s) = tree_bytes (lw_host s) + orphan_bytes (lw_host s) (l_open_files (lw_state s))
  /\ l_file_count (lw_state s) = tree_entries (lw_host s) + orphan_count (l_open_files (lw_state s)).

Definition within_quota (s : LW) : Prop :=
  l_used_bytes (lw_state s) <= max_bytes (lv_quota v) /\ l_file_count (lw_state s) <= max_files (lv_quota v).

(** The system changed in no way that matters, and the state not at all. *)
Record calm (s s' : LW) : Prop := { calm_state : lw_state s' = lw_state s; calm_host : host_same (lw_host s) (lw_host s') }.

#[export] Instance calm_preorder : PreOrder calm.
Proof. split; [done|]. intros s1 s2 s3 [E1 H1] [E2 H2]. split; [congruence|by etrans]. Qed.

(** What every operation leaves behind. *)
Record sound (s s' : LW) : Prop := {
  so_inv : local_inv s';
  so_exact : steady -> exact s -> exact s' /\ (within_quota s -> within_quota s');
  so_shallow : shallow (tree (lw_host s)) -> shallow (tree (lw_host s'))
}.

(** ** Nothing happened *)

Lemma local_inv_calm s s' : local_inv s -> calm s s' -> J (lw_host s') -> local_inv s'.
Proof.
  intros [] [E H] HJ. constructor; rewrite ?E; try done.
  - by apply (hs_dirs H).
  - by rewrite (hs_tree H).
  - intros h x. rewrite (hs_reg H). eauto.
  - intros k. unfold named. rewrite (hs_tree H). apply li_open0.
Qed.

Lemma same_tree_bytes w w' : host_same w w' -> tree_bytes w' = tree_bytes w.
Proof.
  intros H. unfold LocalWalk.tree_bytes. rewrite (hs_tree H). apply (msum_ext (fun _ => weight (fb w')) (fun _ => weight (fb w))).
  intros p [k| |] _; simpl; [|done|done]. apply (same_file_bytes _ _ _ H).
Qed.

Lemma exact_calm s s' : calm s s' -> exact s -> exact s'.
Proof.
  intros [E H] [H1 H2]. unfold exact. rewrite E. split.
  - rewrite H1, (same_tree_bytes _ _ H). f_equal. apply msum_ext. intros k o _. by rewrite (same_file_bytes _ _ _ H).
  - rewrite H2. unfold LocalWalk.tree_entries. by rewrite (hs_tree H).
Qed.

Lemma sound_calm s s' : local_inv s -> calm s s' -> J (lw_host s') -> sound s s'.
Proof.
  intros Hi Hc HJ. split; [by eapply local_inv_calm|intros _ He; split; [by eapply exact_calm|]|].
  - unfold within_quota. by rewrite (calm_state _ _ Hc).
  - by rewrite (hs_tree (calm_host _ _ Hc)).
Qed.

Lemma calm_sound s s1 s2 : calm s s1 -> sound s1 s2 -> sound s s2.
Proof.
  intros Hc [Hi He Hd]. split; [done| |].
  - intros Hs Hx. destruct (He Hs (exact_calm _ _ Hc Hx)) as [Hx2 Hq]. split; [done|].
    intros Hw. apply Hq. unfold within_quota in *. by rewrite (calm_state _ _ Hc).
  - by rewrite (hs_tree (calm_host _ _ Hc)) in Hd.
Qed.

(** ** Calls *)

Lemma wp_on_host {A} (m : ST W Errno A) s (Q : A -> LW -> Prop) (R : Errno -> LW -> Prop) :
  wp m (lw_host s) (fun a w' => Q a (mkLocalWorld (lw_state s) w')) (fun e w' => R e (mkLocalWorld (lw_state s) w')) ->
  wp (on_host m) s Q R.
Proof. unfold wp, on_host. by destruct (m (lw_host s)) as [[] ?]. Qed.

Lemma wp_get_state s (Q : LocalState -> LW -> Prop) (R : Errno -> LW -> Prop) : Q (lw_state s) s -> wp get_state s Q R.
Proof. done. Qed.

Lemma wp_get_host s (Q : W -> LW -> Prop) (R : Errno -> LW -> Prop) : Q (lw_host s) s -> wp get_host s Q R.
Proof. done. Qed.

Lemma wp_put_state x s (Q : unit -> LW -> Prop) (R : Errno -> LW -> Prop) : Q tt (mkLocalWorld x (lw_host s)) -> wp (put_state x) s Q R.
Proof. done. Qed.

(** ** Resolving a path *)

Definition resolved (s : LW) (r : Resolved) : Prop :=
  spot at_dir (lw_host s) (r_parent r) (inl (r_name r)) (names (r_components r))
  /\ (r_components r <> [] -> entry at_dir (lw_host s) (r_parent r) (inl (r_name r)) (names (r_components r))).

Lemma resolved_calm s s' r : calm s s' -> resolved s r -> resolved s' r.
Proof.
  intros [_ H] [H1 H2]. split; [by apply (same_spot _ _ _ _ _ H)|]. intros Hne. apply (local_same_entry _ _ _ _ _ H). auto.
Qed.

Lemma resolve_spec path s :
  local_inv s ->
  wp (resolve v path) s
    (fun r s' => J (lw_host s') /\ calm s s' /\ normalize_path path = Ok (r_components r) /\ resolved s' r
       /\ locate (tree (lw_host s)) (r_components r) = Ok (names (r_components r)))
    (fun e s' => J (lw_host s') /\ calm s s'
       /\ (healthy -> (let? cs := normalize_path path in locate (tree (lw_host s)) cs) = Err e)).
Proof.
  intros Hi. unfold resolve. wp_step. pose proof (normalize_path_post path) as Hpost.
  apply wp_lift; [by destruct (normalize_path path)| |].
  2:{ intros e ->. split; [apply (li_host _ Hi)|]. by split. }
  intros cs Hcs. rewrite Hcs in Hpost |- *. destruct Hpost as [Hall _]. cbn [obind].
  wp_step. apply wp_on_host, wp_map_err.
  eapply wp_mono; [eapply (wp_failing _ _ _ _ healthy (fun _ => False)); [apply law_try_clone; [apply (li_host _ Hi)|apply (li_root _ Hi)]|]|..].
  - intros Hh. pose proof (healthy_clone (lw_host s) (lv_root_dir v) [] (li_host _ Hi) (li_root _ Hi)) as H.
    by destruct (h_try_clone (lv_host v) (lv_root_dir v) (lw_host s)) as [[] ?].
  - intros f w1 (HJ1 & H1 & Hf). wp_step. apply wp_on_host. cbn [lw_host lw_state].
    assert (exists front, take (length cs - 1) cs = front /\ ((cs = [] /\ front = []) \/ exists c, cs = front ++ [c])) as (front & -> & Hsplit).
    { destruct cs as [|c cs _] using rev_ind; [by exists []; auto|]. exists cs. split; [|eauto].
      by rewrite length_app, Nat.add_sub, take_app_length. }
    assert (Forall component_ok front) as Hfront.
    { destruct Hsplit as [[_ ->] | [c ->]]; [done|]. by apply Forall_app in Hall as [? _]. }
    assert (locate (tree (lw_host s)) cs = (let? p := resolve_in (tree (lw_host s)) [] front in Ok (names cs))) as Hloc.
    { destruct Hsplit as [[-> ->] | [c ->]]; [done|]. unfold locate. rewrite split_last_snoc.
      destruct (resolve_in _ [] front) as [q| | |] eqn:E; try done. simpl. apply resolve_in_path in E as ->.
      unfold names. by rewrite fmap_app. }
    eapply wp_mono; [apply (descend_spec w1 f [] front HJ1 Hf Hfront)|..].
    + intros f' w2 (HJ2 & H2 & Hr & Hf'). wp_step. cbn [r_components r_parent r_name lw_host].
      assert (calm s (mkLocalWorld (lw_state s) w2)) as Hcalm by (split; [done|]; simpl; by etrans).
      split; [done|]. split; [done|]. split; [done|]. rewrite Hloc, <- (hs_tree H1), Hr. split; [|done].
      unfold resolved. cbn [r_components r_parent r_name lw_host].
      destruct Hsplit as [[-> ->] | [c ->]].
      * split; [|done]. exists []. split; [done|]. by left.
      * unfold names in *. rewrite last_snoc, fmap_app. simpl.
        assert (entry at_dir w2 f' (inl c) ((inl <$> front) ++ [inl c])) as Hent.
        { exists (inl <$> front). split; [done|]. split; [|done]. apply (proj1 (Forall_forall _ _) Hall). set_solver. }
        split; [by apply entry_spot|done].
    + intros e w2 (HJ2 & H2 & He). split; [done|]. split; [split; [done|]; simpl; by etrans|]. intros Hh.
      rewrite Hloc, <- (hs_tree H1). by rewrite (He Hh).
  - intros e w1 ((HJ1 & H1) & Hh). split; [done|]. split; [by split|]. intros Hc. by apply Hh in Hc.
Qed.

(** ** Accounts *)

Lemma handle_count_nonneg hs k : 0 <= handle_count hs k.
Proof. apply msum_nonneg. intros h x _. by case_decide. Qed.

Lemma handle_count_pos hs k : 0 < handle_count hs k -> exists h x, hs !! h = Some x /\ hs_key x = k.
Proof.
  intros Hk. destruct (decide (map_Exists (fun _ x => hs_key x = k) hs)) as [(h & x & Hx & E)|Hn]; [eauto|].
  unfold handle_count in Hk. rewrite (msum_ext _ (fun _ _ => 0)) in Hk.
  - unfold msum in Hk. rewrite sumz_zero in Hk; [lia|done].
  - intros h x Hx. rewrite decide_False; [done|]. intros E. apply Hn. by exists h, x.
Qed.

(** A file in the table of open files is open. *)
Lemma open_alive s k o : local_inv s -> l_open_files (lw_state s) !! k = Some o -> exists f, reg (lw_host s) f = Some k.
Proof.
  intros Hi Ho. pose proof (li_open _ Hi k) as H. rewrite Ho in H. destruct H as (E & Hpos & _). rewrite E in Hpos.
  apply handle_count_pos in Hpos as (h & x & Hx & <-). exists (hs_file x). by apply (li_file _ Hi h).
Qed.

Lemma orphan_bytes_nonneg w files : 0 <= orphan_bytes w files.
Proof. apply msum_nonneg. intros k o _. case_match; [apply file_bytes_nonneg|done]. Qed.

Lemma orphan_count_nonneg files : 0 <= orphan_count files.
Proof. apply msum_nonneg. intros k o _. by case_match. Qed.

Lemma tree_bytes_nonneg w : 0 <= tree_bytes w.
Proof. apply tree_sum_nonneg. apply weight_nonneg, file_bytes_nonneg. Qed.

Lemma tree_entries_nonneg w : J w -> 0 <= tree_entries w.
Proof.
  intros HJ. unfold LocalWalk.tree_entries.
  pose proof (msum_in (fun (_ : OsPath) => counted) (tree w) [] DirAt (fun _ o _ => counted_nonneg o) (law_root w HJ)) as H.
  change (1 <= tree_sum counted [] (tree w)) in H. lia.
Qed.

(** [t'] is [t] without the entry [q], under other names maybe. *)
Record lost (q : OsPath) (t t' : Tree) : Prop := {
  lost_named k : (exists p, t' !! p = Some (FileAt k)) <-> exists p, p <> q /\ t !! p = Some (FileAt k);
  lost_links : no_links t -> no_links t';
  lost_sum g : msum (fun _ : OsPath => g) t' = msum (fun _ => g) (delete q t)
}.

Lemma lost_delete q t : lost q t (delete q t).
Proof.
  constructor; [|intros H a b k [_ Ha]%lookup_delete_Some [_ Hb]%lookup_delete_Some; eauto|done].
  intros k. setoid_rewrite lookup_delete_Some. naive_solver.
Qed.

(** A rename in a tree of directories, onto nothing, a leaf or an empty directory. *)
Section rename.
Context (p q : OsPath) (t : Tree) (Ht : closed_tree t) (Hpq : strip p q = None).
Context (Hq : t !! q = Some DirAt -> forall n, t !! (q ++ [n]) = None).

Lemma nothing_below x : is_Some (delete q t !! x) -> strip q x = None.
Proof.
  intros [o [Hne Hx]%lookup_delete_Some]. apply strip_None. intros [|n r] ->; [by rewrite app_nil_r in Hne|].
  assert (t !! q = Some DirAt) as Hd by by apply (closed_below t Ht q (n :: r) o).
  assert (is_Some (t !! (q ++ [n]))) as [o' Ho']; [|by rewrite Hq in Ho'].
  replace (q ++ n :: r) with ((q ++ [n]) ++ r) in Hx by (by rewrite <- app_assoc).
  destruct r as [|m r]; [rewrite app_nil_r in Hx; eauto|]. eapply (closed_below t Ht) in Hx; eauto.
Qed.

Lemma rename_apart x y :
  is_Some (delete q t !! x) -> is_Some (delete q t !! y) -> renamed p q x = renamed p q y -> x = y.
Proof. intros Hx Hy. apply renamed_inj; [done|by apply nothing_below..]. Qed.

Lemma lost_rename : lost q t (relabel (renamed p q) (delete q t)).
Proof.
  constructor.
  - intros k. split.
    + intros (x & (y & [Hne Hy]%lookup_delete_Some & _)%(relabel_lookup _ _ rename_apart)). eauto.
    + intros (y & Hne & Hy). exists (renamed p q y). apply (relabel_lookup _ _ rename_apart). exists y. split; [|done].
      by apply lookup_delete_Some.
  - intros Hn a b k (x & [_ Hx]%lookup_delete_Some & <-)%(relabel_lookup _ _ rename_apart)
      (y & [_ Hy]%lookup_delete_Some & <-)%(relabel_lookup _ _ rename_apart).
    by rewrite (Hn x y k).
  - intros g. apply msum_relabel, rename_apart.
Qed.

(** What was below [p] is below [q], and the rest is where it was. *)
Lemma rename_lookup x :
  strip q p = None ->
  relabel (renamed p q) (delete q t) !! x
  = match strip q x with
    | Some r => t !! (p ++ r)
    | None => match strip p x with Some _ => None | None => t !! x end
    end.
Proof.
  intros Hqp. apply option_eq. intros o. rewrite (relabel_lookup _ _ rename_apart). split.
  - intros (y & Hy & <-). assert (strip q y = None) as Hqy by (apply nothing_below; eauto).
    apply lookup_delete_Some in Hy as [Hne Hy]. unfold renamed. destruct (strip p y) as [r|] eqn:E.
    + rewrite strip_app. apply strip_Some in E. by subst.
    + by rewrite Hqy, E.
  - destruct (strip q x) as [r|] eqn:E.
    + intros Ho. exists (p ++ r). unfold renamed. rewrite strip_app. apply strip_Some in E. split; [|done].
      apply lookup_delete_Some. split; [|done]. intros ->. by rewrite strip_app in Hpq.
    + destruct (strip p x) eqn:E'; [done|]. intros Ho. exists x. unfold renamed. rewrite E'. split; [|done].
      apply lookup_delete_Some. split; [|done]. intros <-. rewrite strip_None in E. by apply (E []), eq_sym, app_nil_r.
Qed.

(** A move that keeps within the depth of paths what is moved. *)
Lemma rename_shallow :
  shallow t -> (length q <= MAX_PATH_DEPTH)%nat ->
  (forall r o, (length p < length q)%nat -> t !! p = Some DirAt -> t !! (p ++ r) = Some o -> o <> OtherAt ->
     (length q + length r <= MAX_PATH_DEPTH)%nat) ->
  shallow (relabel (renamed p q) (delete q t)).
Proof.
  intros Hs Hlq Hd x o (y & [_ Hy]%lookup_delete_Some & <-)%(relabel_lookup _ _ rename_apart) Ho.
  unfold renamed. destruct (strip p y) as [r|] eqn:E; [|by apply (Hs y o)]. apply strip_Some in E as ->. rewrite length_app.
  specialize (Hs _ _ Hy Ho) as Hold. rewrite length_app in Hold. destruct (decide (length p < length q)%nat) as [Hlt|]; [|lia].
  destruct r as [|n r]; [simpl; lia|]. apply (Hd _ o Hlt); [|done..]. by apply (closed_below t Ht p (n :: r) o).
Qed.
End rename.

(** What is found at [q] before it goes. *)
Definition target_is (w : W) (q : OsPath) (target : option EntryMetadata) : Prop :=
  match target with Some m => exists o, tree w !! q = Some o /\ meta_of content w o m | None => tree w !! q = None end.

(** The files that still have a name, or are open, hold what they held. *)
Lemma moved_tree_bytes t w w' : host_moved tree content at_dir reg t w w' -> tree_bytes w' = msum (fun _ => weight (fb w)) t.
Proof.
  intros H. unfold LocalWalk.tree_bytes. rewrite (hm_tree H). apply (msum_ext (fun _ => weight (fb w')) (fun _ => weight (fb w))).
  intros p [k| |] Hp; simpl; [|done|done]. unfold file_bytes. rewrite (hm_content H); [done|]. left. exists p. by rewrite (hm_tree H).
Qed.

Lemma moved_orphan_bytes t s w' files :
  local_inv s -> host_moved tree content at_dir reg t (lw_host s) w' ->
  (forall k, is_Some (files !! k) -> is_Some (l_open_files (lw_state s) !! k)) ->
  orphan_bytes w' files = orphan_bytes (lw_host s) files.
Proof.
  intros Hi H Hf. apply msum_ext. intros k o Hk. case_match; [|done]. unfold file_bytes. rewrite (hm_content H); [done|].
  destruct (Hf k) as [o' Ho']; [eauto|]. destruct (open_alive _ _ _ Hi Ho') as [f Hreg]. right. exists f. by rewrite (hm_reg H).
Qed.

Definition target_key (target : option EntryMetadata) : option FileKey :=
  m ← target; match em_kind m with KindFile => Some (em_key m) | _ => None end.

Lemma replaced_frame target x :
  l_handles (replaced target x) = l_handles x /\ l_next_handle (replaced target x) = l_next_handle x.
Proof.
  unfold replaced, release_entry. destruct target as [m|]; [|done].
  destruct (em_kind m); simpl; [destruct (l_open_files x !! em_key m); done|done|done].
Qed.

Lemma target_len w q m : target_is w q (Some m) -> em_kind m = KindFile -> em_len m = fb w (em_key m) /\ tree w !! q = Some (FileAt (em_key m)).
Proof. intros (o & Ho & Hm) Hk. destruct o; simpl in Hm; simplify_eq/=; congruence || done. Qed.

Lemma replaced_counters w q target x :
  target_is w q target -> 0 <= l_used_bytes x <= U64_MAX -> 0 <= l_file_count x <= U64_MAX ->
  0 <= l_used_bytes (replaced target x) <= l_used_bytes x /\ 0 <= l_file_count (replaced target x) <= l_file_count x.
Proof.
  unfold replaced, release_entry, saturating_sub. intros Ht Hu Hc. destruct target as [m|]; [|simpl; lia].
  destruct (em_kind m) eqn:Hk; simpl; try lia. destruct (l_open_files x !! em_key m); simpl; [lia|].
  destruct (target_len _ _ _ Ht Hk) as [-> _]. pose proof (file_bytes_nonneg (content := content) w (em_key m)). lia.
Qed.

Lemma replaced_files target x k :
  l_open_files (replaced target x) !! k
  = if decide (target_key target = Some k) then (fun o => mkOpenFileState (of_open_handles o) true) <$> l_open_files x !! k
    else l_open_files x !! k.
Proof.
  unfold replaced, release_entry, target_key. destruct target as [m|]; simpl; [|done].
  destruct (em_kind m); simpl; [|done..]. destruct (l_open_files x !! em_key m) as [o|] eqn:Ho; simpl.
  - destruct (decide (em_key m = k)) as [E|Hne].
    + by rewrite decide_True, <- E, lookup_insert_eq, Ho by (by rewrite E).
    + rewrite lookup_insert_ne, decide_False by (done || congruence). done.
  - case_decide as E; [|done]. injection E as <-. by rewrite Ho.
Qed.

(** The files named after [q] is gone. *)
Lemma lost_names w w' q target t' k :
  no_links (tree w) -> tree w' = t' -> lost q (tree w) t' -> target_is w q target ->
  named w' k <-> named w k /\ target_key target <> Some k.
Proof.
  intros Hnl E Hlost Ht. unfold named at 1. rewrite E, (lost_named _ _ _ Hlost). split.
  - intros (p & Hne & Hp). split; [by exists p|]. destruct target as [m|]; simpl; [|done].
    destruct (em_kind m) eqn:Hk; try done. intros [= <-]. destruct (target_len _ _ _ Ht Hk) as [_ Hq]. apply Hne. by eapply Hnl.
  - intros [(p & Hp) Hne]. exists p. split; [|done]. intros ->. apply Hne.
    destruct target as [m|]; simpl in *; [|congruence]. destruct Ht as (o & Ho & Hm). assert (o = FileAt k) as -> by congruence.
    simpl in Hm. by subst m.
Qed.

Lemma replaced_inv s q target t' w' :
  local_inv s -> J w' -> host_moved tree content at_dir reg t' (lw_host s) w' -> lost q (tree (lw_host s)) t' ->
  target_is (lw_host s) q target -> local_inv (mkLocalWorld (replaced target (lw_state s)) w').
Proof.
  intros Hi HJ Hm Hlost Ht. destruct (replaced_frame target (lw_state s)) as (Eh & En).
  destruct (replaced_counters _ _ _ _ Ht (li_used _ Hi) (li_count _ Hi)) as (Hu & Hc).
  pose proof (fun k => lost_names _ _ _ _ _ k (li_links _ Hi) (hm_tree Hm) Hlost Ht) as Hn.
  pose proof (li_used _ Hi). pose proof (li_count _ Hi).
  constructor; cbn [lw_host lw_state]; rewrite ?Eh, ?En; try apply Hi; try lia.
  - done.
  - apply (hm_root Hm), Hi.
  - rewrite (hm_tree Hm). apply (lost_links _ _ _ Hlost), Hi.
  - intros h x Hx. rewrite (hm_reg Hm). by apply (li_file _ Hi h).
  - intros k. pose proof (li_open _ Hi k) as Hk. rewrite replaced_files.
    case_decide as E; destruct (l_open_files (lw_state s) !! k) as [o|]; simpl; rewrite ?Hn; naive_solver.
Qed.

Lemma delete_sum (g : HostObj -> Z) t (q : OsPath) : msum (fun _ => g) (delete q t) = msum (fun _ => g) t - default 0 (g <$> t !! q).
Proof.
  destruct (t !! q) as [o|] eqn:Ho; simpl; [rewrite (msum_delete _ _ _ _ Ho); lia|]. rewrite delete_id by done. lia.
Qed.

Lemma replaced_exact s q target t' w' :
  local_inv s -> J w' -> host_moved tree content at_dir reg t' (lw_host s) w' -> lost q (tree (lw_host s)) t' ->
  target_is (lw_host s) q target -> q <> [] -> exact s -> exact (mkLocalWorld (replaced target (lw_state s)) w').
Proof.
  intros Hi HJ Hm Hlost Ht Hq [Hx Hy]. set (w := lw_host s) in *.
  pose proof (tree_bytes_nonneg w') as Htb. pose proof (tree_entries_nonneg w' HJ) as Hte.
  assert (tree_bytes w' = tree_bytes w - default 0 (weight (fb w) <$> tree w !! q)) as Eb.
  { rewrite (moved_tree_bytes _ _ _ Hm), (lost_sum _ _ _ Hlost), delete_sum. done. }
  assert (tree_entries w' = tree_entries w - default 0 (counted <$> tree w !! q)) as Ee.
  { unfold LocalWalk.tree_entries. change (tree_sum counted [] ?t) with (msum (fun _ : OsPath => counted) t).
    rewrite (hm_tree Hm), (lost_sum _ _ _ Hlost), delete_sum. lia. }
  assert (orphan_bytes w' (l_open_files (replaced target (lw_state s))) = orphan_bytes w (l_open_files (replaced target (lw_state s)))) as Eo.
  { eapply moved_orphan_bytes; [done|exact Hm|]. intros k. rewrite replaced_files. case_decide; [by rewrite fmap_is_Some|done]. }
  unfold exact. cbn [lw_host lw_state]. rewrite Eo, Eb, Ee.
  pose proof (orphan_bytes_nonneg w (l_open_files (lw_state s))). pose proof (orphan_count_nonneg (l_open_files (lw_state s))).
  destruct target as [m|]; simpl in Ht; [|rewrite Ht; simpl; lia]. destruct Ht as (o & Ho & Hmeta). rewrite Ho in *. cbn [fmap option_fmap option_map default] in *.
  destruct o as [k| |]; simpl in Hmeta; [subst m|..]; unfold replaced; rewrite ?Hmeta; cbn [em_kind em_key em_len];
    cbn [counted is_visible weight] in *.
  - unfold release_entry. pose proof (li_open _ Hi k) as Hk. destruct (l_open_files (lw_state s) !! k) as [o|] eqn:Hof; simpl.
    + destruct Hk as (_ & _ & Hun). assert (of_unlinked o = false) as Hf.
      { destruct (of_unlinked o); [|done]. exfalso. apply Hun; [done|]. by exists q. }
      unfold orphan_bytes, orphan_count in *. rewrite !(msum_update _ _ _ _ _ Hof), Hf. simpl. unfold saturating_sub. lia.
    + unfold saturating_sub. simpl in *. lia.
  - simpl. unfold saturating_sub. simpl in *. lia.
  - simpl in *. lia.
Qed.

Lemma replaced_sound s q target t' w' :
  local_inv s -> J w' -> host_moved tree content at_dir reg t' (lw_host s) w' -> lost q (tree (lw_host s)) t' ->
  target_is (lw_host s) q target -> q <> [] -> (shallow (tree (lw_host s)) -> shallow t') ->
  sound s (mkLocalWorld (replaced target (lw_state s)) w').
Proof.
  intros Hi HJ Hm Hlost Ht Hq Hd. split; [by eapply replaced_inv|intros _ Hx; split; [by eapply replaced_exact|]|].
  - unfold within_quota. cbn [lw_state].
    destruct (replaced_counters _ _ _ _ Ht (li_used _ Hi) (li_count _ Hi)) as (Hu & Hc). lia.
  - cbn [lw_host]. by rewrite (hm_tree Hm).
Qed.

Lemma lookup_at_spec r s :
  J (lw_host s) -> resolved s r ->
  wp (lookup_at v r) s
    (fun m s' => J (lw_host s') /\ calm s s' /\ target_is (lw_host s) (names (r_components r)) m)
    (fun _ s' => J (lw_host s') /\ calm s s' /\ (healthy -> False)).
Proof.
  intros HJ [Hs _]. unfold lookup_at. apply wp_on_host. eapply wp_mono; [by apply (lookup_spec _ _ _ (names (r_components r)))|..].
  - intros m w' (HJ' & H & Hm). split; [done|]. split; [by split|done].
  - intros e w' (HJ' & H & Hh). split; [done|]. split; [by split|done].
Qed.
End local.

Arguments local_inv_calm {W D v tree content at_dir reg stream J}.
Arguments same_tree_bytes {W D tree content at_dir reg stream}.
Arguments exact_calm {W D tree content at_dir reg stream}.
Arguments sound_calm {W D v tree content at_dir reg stream J}.
Arguments calm_sound {W D v tree content at_dir reg stream J}.
Arguments resolved_calm {W D tree content at_dir reg stream}.
Arguments resolve_spec {W D v patience tree content at_dir reg stream J based Hl}.
Arguments open_alive {W D v tree at_dir reg J}.
Arguments orphan_bytes_nonneg {W content}.
Arguments tree_bytes_nonneg {W tree content}.
Arguments tree_entries_nonneg {W D v patience tree content at_dir reg stream J based Hl}.
Arguments moved_tree_bytes {W tree content at_dir reg}.
Arguments moved_orphan_bytes {W D v tree content at_dir reg J}.
Arguments target_len {W tree content}.
Arguments replaced_counters {W tree content}.
Arguments lost_names {W tree content}.
Arguments replaced_inv {W D v tree content at_dir reg J}.
Arguments replaced_exact {W D v patience tree content at_dir reg stream J based Hl}.
Arguments replaced_sound {W D v patience tree content at_dir reg stream J based Hl}.
Arguments lookup_at_spec {W D v patience tree content at_dir reg stream J based Hl}.
Arguments calm_state {W D tree content at_dir reg stream s s'}.
Arguments calm_host {W D tree content at_dir reg stream s s'}.
Arguments so_inv {W D v tree content at_dir reg J s s'}.
Arguments so_exact {W D v tree content at_dir reg J s s'}.
Arguments so_shallow {W D v tree content at_dir reg J s s'}.
Arguments li_host {W D v tree at_dir reg J s}.
Arguments li_root {W D v tree at_dir reg J s}.
Arguments li_links {W D v tree at_dir reg J s}.
Arguments li_file {W D v tree at_dir reg J s}.
Arguments li_apart {W D v tree at_dir reg J s}.
Arguments li_below {W D v tree at_dir reg J s}.
Arguments li_next {W D v tree at_dir reg J s}.
Arguments li_open {W D v tree at_dir reg J s}.
Arguments li_used {W D v tree at_dir reg J s}.
Arguments li_count {W D v tree at_dir reg J s}.
