(* ===== verification/LocalPaths.v ===== *)
(** * The operations of the local filesystem on paths

    One specification per operation: what it answers or changes, in terms of the
    tree below the root; that the accounts stay exact; and that an error left
    everything as it was. *)

From Stdlib Require Import Ascii String.
From stdpp Require Import sorting gmap.
From S2P Require Import Prelude RustStr BTreeMap VfsTypes VfsPath VfsIface MemVfs MemVfsInv MemVfsView MemVfsFiles.
From S2P Require Import LocalVfs LocalLaws LocalWalk LocalInv.

#[local] Open Scope Z_scope.

Section local.
Context {W D : Type} (v : LocalVfs W D) (walk patience : W -> nat).
Context (tree : W -> Tree) (content : W -> FileKey -> option bytes).
Context (at_dir : W -> Z -> option OsPath) (reg : W -> Z -> option FileKey).
Context (stream : W -> D -> option (OsPath * list OsName)) (J : W -> Prop) (based : W -> str -> Prop).
Context `{Hl : !LocalLaws tree content at_dir reg stream patience J based (lv_host v)}.
Context (Hwalk : walks_enough tree J walk) (Hquota : quota_ok (lv_quota v)).

Abbreviation LW := (LocalWorld W).
Abbreviation host_same := (host_same tree content at_dir reg stream).
Abbreviation alive := (alive tree reg).
Abbreviation local_inv := (local_inv v tree at_dir reg J).
Abbreviation calm := (calm tree content at_dir reg stream).
Abbreviation sound := (sound v tree content at_dir reg J).
Abbreviation fb := (file_bytes content).
Abbreviation healthy := (HealthyHost (lv_host v) at_dir J).
Abbreviation tree_of s := (tree (lw_host s)).
Implicit Types (s : LW) (w : W).

(** The handles are the same, and the next one. *)
Definition still s s' : Prop :=
  l_handles (lw_state s') = l_handles (lw_state s) /\ l_next_handle (lw_state s') = l_next_handle (lw_state s).

Lemma calm_still s s' : calm s s' -> still s s'.
Proof. intros H. unfold still. by rewrite (calm_state H). Qed.

Lemma still_trans s1 s2 s3 : still s1 s2 -> still s2 s3 -> still s1 s3.
Proof. intros [E1 E2] [E3 E4]. split; congruence. Qed.

(** What a failed operation leaves. *)
Definition unmoved s s' : Prop := J (lw_host s') /\ calm s s'.

Lemma unmoved_trans s1 s2 s3 : calm s1 s2 -> unmoved s2 s3 -> unmoved s1 s3.
Proof. intros H [HJ H']. split; [done|by etrans]. Qed.

Lemma calm_tree s s' : calm s s' -> tree_of s' = tree_of s.
Proof. intros H. apply (hs_tree (calm_host H)). Qed.

Lemma shown_calm s s' o : calm s s' -> shown content (lw_host s') o = shown content (lw_host s) o.
Proof. intros H. destruct o; simpl; [|done..]. by rewrite (same_file_bytes _ _ _ (calm_host H)). Qed.

Lemma meta_shown w o m : meta_of content w o m -> metadata_from m = shown content w o.
Proof. destruct o; simpl; [intros ->; done|unfold metadata_from; by intros ->|unfold metadata_from; by intros ->]. Qed.

(** ** stat *)

Definition stat_ref (w : W) (path : str) : outcome Errno Metadata :=
  let? cs := normalize_path path in
  let? p := locate (tree w) cs in
  let? o := ok_or ENOENT (tree w !! p) in
  ok_or ENOENT (shown content w o).

Lemma local_stat_spec path s :
  local_inv s ->
  wp (stat v path) s
    (fun m s' => unmoved s s' /\ stat_ref (lw_host s) path = Ok m)
    (fun e s' => unmoved s s' /\ (healthy -> stat_ref (lw_host s) path = Err e)).
Proof.
  intros Hi. unfold stat. wp_step. eapply wp_mono; [by apply resolve_spec|..].
  - intros r s1 (HJ1 & H1 & Hcs & Hr & Hloc). wp_step. eapply wp_mono; [by apply lookup_at_spec|..].
    + intros m s2 (HJ2 & H2 & Hm). assert (unmoved s s2) as Hu by (split; [done|by etrans]).
      assert (stat_ref (lw_host s) path = let? o := ok_or ENOENT (tree_of s !! names (r_components r)) in ok_or ENOENT (shown content (lw_host s) o)) as ->.
      { unfold stat_ref. rewrite Hcs. cbn [obind]. rewrite Hloc. done. }
      rewrite <- (calm_tree _ _ H1). wp_step. apply wp_ok_or.
      * intros m' ->. destruct Hm as (o & -> & Hm). cbn [ok_or obind]. rewrite (meta_shown _ _ _ Hm), (shown_calm _ _ _ H1).
        apply wp_ok_or; [intros m0 E|intros E]; (split; [done|]); by rewrite E.
      * intros ->. simpl in Hm. rewrite Hm. by split.
    + intros e s2 (HJ2 & H2 & Hh). split; [split; [done|by etrans]|]. intros Hc. by apply Hh in Hc.
  - intros e s1 (HJ1 & H1 & Hh). split; [by split|]. intros Hc. specialize (Hh Hc). unfold stat_ref.
    destruct (normalize_path path); cbn [obind] in *; [by rewrite Hh|congruence|done|done].
Qed.

(** ** readdir *)

(** The entries of the directory [p], by name. *)
Record dir_entries (w : W) (p : OsPath) (es : list DirEntry) : Prop := {
  de_sorted : StronglySorted name_le es;
  de_names : NoDup (entry_name <$> es);
  de_entries name m : mkDirEntry name m ∈ es <-> exists o, tree w !! (p ++ [inl name]) = Some o /\ shown content w o = Some m
}.

#[local] Instance name_le_total : Total name_le.
Proof. intros a b. apply (base.total str_le). Qed.
#[local] Instance name_le_trans : Transitive name_le.
Proof. intros a b c. apply (transitivity (R := str_le)). Qed.

Lemma entry_for_name w p n d : entry_for tree content w p n = Some d -> n = inl (entry_name d).
Proof. unfold entry_for. intros H. destruct n as [name|b]; simplify_option_eq; done. Qed.

Lemma entries_same w w' p (ns : list OsName) :
  host_same w w' -> omap (entry_for tree content w' p) ns = omap (entry_for tree content w p) ns.
Proof.
  intros H. induction ns as [|n ns IH]; csimpl; [done|]. rewrite IH.
  assert (entry_for tree content w' p n = entry_for tree content w p n) as ->; [|done].
  unfold entry_for. rewrite (hs_tree H). destruct (to_str n), (tree w !! _) as [[]|]; simpl; try done.
  by rewrite (same_file_bytes _ _ _ H).
Qed.

Lemma listing_same w w' p ns : tree w' = tree w -> listing tree w' p ns -> listing tree w p ns.
Proof. intros E [L1 L2 L3]. rewrite E in L3. by constructor. Qed.

Lemma listed_entries w p ns :
  J w -> listing tree w p ns -> dir_entries w p (merge_sort name_le (omap (entry_for tree content w p) ns)).
Proof.
  intros HJ [Hnd Hnames Hen]. constructor.
  - apply (StronglySorted_merge_sort _).
  - rewrite (merge_sort_Permutation name_le). clear -Hnd. induction Hnd as [|n ns Hn Hnd IH]; csimpl; [constructor|].
    destruct (entry_for tree content w p n) as [d|] eqn:Hd; csimpl; [|done]. constructor; [|done].
    intros (d' & E & (n' & Hn' & Hd')%list_elem_of_omap)%list_elem_of_fmap. apply entry_for_name in Hd, Hd'. congruence.
  - intros name m. rewrite (merge_sort_Permutation name_le), list_elem_of_omap. split.
    + intros (n & Hn & Hd). apply entry_for_name in Hd as E. simpl in E. subst n. unfold entry_for in Hd.
      simplify_option_eq. eauto.
    + intros (o & Ho & Hm). exists (inl name). split.
      * apply Hen; [|eauto]. by apply (law_parent w p (inl name) o).
      * unfold entry_for. cbn [to_str mbind option_bind]. by rewrite Ho; simpl; rewrite Hm.
Qed.

Lemma local_readdir_spec path s :
  local_inv s ->
  wp (readdir v walk path) s
    (fun es s' => unmoved s s' /\ exists p, (let? cs := normalize_path path in locate (tree_of s) cs) = Ok p
       /\ tree_of s !! p = Some DirAt /\ dir_entries (lw_host s) p es)
    (fun e s' => unmoved s s').
Proof.
  intros Hi. unfold readdir. wp_step. eapply wp_mono; [by apply resolve_spec|..]; [|by intros e s1 (? & ? & _)].
  intros r s1 (HJ1 & H1 & Hcs & Hr & Hloc). wp_step. apply wp_get_host. wp_step. apply wp_on_host.
  eapply wp_mono; [apply open_directory_spec; [done|apply Hr]|..]; [|intros e w2 (HJ2 & H2 & _); split; [done|]; etrans; [done|]; by split].
  intros dir w2 (HJ2 & H2 & Hdir & Hat). wp_step. apply wp_on_host. cbn [lw_host lw_state].
  assert (calm s1 (mkLocalWorld (lw_state s1) w2)) as H2c by by split.
  eapply wp_mono; [apply wp_any_err; by apply law_dir_new|..]; [|intros e w3 (HJ3 & H3); split; [done|]; etrans; [done|]; etrans; [exact H2c|by split]].
  intros d w3 (HJ3 & H3 & ns & Hd & Hli). wp_step. apply wp_on_host. cbn [lw_host lw_state].
  assert (calm s1 (mkLocalWorld (lw_state s1) w3)) as H3c by (etrans; [exact H2c|by split]).
  assert (tree w2 !! names (r_components r) = Some DirAt) as Hdir2 by (by rewrite (hs_tree H2)).
  eapply wp_mono; [eapply (readdir_loop_spec (v := v)); [done|done|by apply (hs_dirs H3)|done| |]|..].
  - rewrite (hs_tree H3). by apply (listing_ok tree (tree w2) (J_closed w2 HJ2) w2).
  - apply (listing_short (lw_host s1) (names (r_components r)) ns Hwalk HJ1); [done|]. by eapply listing_same, Hli; apply (hs_tree H2).
  - intros es w4 (HJ4 & H4 & ->). wp_step. split.
    + split; [done|]. etrans; [done|]. etrans; [exact H3c|by split].
    + exists (names (r_components r)). rewrite Hcs. cbn [obind]. split; [done|]. rewrite <- (calm_tree _ _ H1). split; [done|].
      assert (host_same (lw_host s) w3) as H03 by (etrans; [apply (calm_host H1)|]; etrans; [exact H2|exact H3]).
      simpl. rewrite (entries_same _ _ _ _ H03). apply listed_entries; [by apply li_host in Hi|].
      apply (listing_same (lw_host s) w2); [|done]. by rewrite (hs_tree H2), (calm_tree _ _ H1).
  - intros e w4 (HJ4 & H4). split; [done|]. etrans; [done|]. etrans; [exact H3c|by split].
Qed.

(** ** mkdir *)

Lemma root_path (r : Resolved) : is_root r = false -> r_components r <> [].
Proof. unfold is_root. by intros ?%bool_decide_eq_false. Qed.

Lemma names_nil cs : cs <> [] -> names cs <> [].
Proof. by destruct cs. Qed.

Lemma insert_shallow t (p : OsPath) o : shallow t -> (length p <= MAX_PATH_DEPTH)%nat -> shallow (<[p := o]> t).
Proof. intros Ht Hp q o' [[<- _] | [_ Hq]]%lookup_insert_Some Ho; [done|]. by eapply Ht. Qed.

Lemma made_sound s p w' :
  local_inv s -> J w' -> host_moved tree content at_dir reg (<[p := DirAt]> (tree_of s)) (lw_host s) w' -> tree_of s !! p = None ->
  l_file_count (lw_state s) < max_files (lv_quota v) -> (length p <= MAX_PATH_DEPTH)%nat ->
  sound s (mkLocalWorld (set_file_count (l_file_count (lw_state s) + 1) (lw_state s)) w').
Proof.
  intros Hi HJ Hm Hp Hq Hlen. pose proof (quota_files _ Hquota) as Hmax. pose proof (li_count Hi).
  assert (forall q k, tree w' !! q = Some (FileAt k) <-> tree_of s !! q = Some (FileAt k)) as Hfiles.
  { intros q k. rewrite (hm_tree Hm). rewrite lookup_insert_Some. split; [naive_solver|]. intros Hf. right. split; [|done]. intros <-. congruence. }
  split.
  - constructor; cbn; try apply Hi; try lia.
    + done.
    + apply (hm_root Hm), Hi.
    + intros q q' k. rewrite !Hfiles. apply Hi.
    + intros h x Hx. rewrite (hm_reg Hm). by apply (li_file Hi h).
    + intros k. pose proof (li_open Hi k) as Hk. destruct (l_open_files _ !! k); [|done]. unfold named in *. by setoid_rewrite Hfiles.
  - intros _ [Hx Hy]. split; [|unfold within_quota; simpl; lia]. unfold exact. cbn.
    rewrite (moved_tree_bytes _ _ _ Hm), (msum_insert _ _ _ _ Hp). cbn [weight].
    rewrite (moved_orphan_bytes _ s w' (l_open_files (lw_state s)) Hi Hm) by done. split; [done|].
    rewrite Hy. unfold tree_entries. change (tree_sum counted [] ?t) with (msum (fun _ : OsPath => counted) t).
    rewrite (hm_tree Hm), (msum_insert _ _ _ _ Hp). change (counted DirAt) with 1. lia.
  - cbn. rewrite (hm_tree Hm). intros Hs. by apply insert_shallow.
Qed.

Lemma calm_post s s1 s2 : J (lw_host s2) -> calm s s1 -> calm s1 s2 -> unmoved s s2.
Proof. intros HJ H1 H2. split; [done|by etrans]. Qed.

(** The handles are those they were, and the files that are left hold what they held. *)
Definition kept_files s s' : Prop :=
  (forall f, reg (lw_host s') f = reg (lw_host s) f)
  /\ forall k, alive (lw_host s') k -> content (lw_host s') k = content (lw_host s) k.

Lemma moved_kept t s s' w' :
  calm s s' -> host_moved tree content at_dir reg t (lw_host s') w' -> forall st, kept_files s (mkLocalWorld st w').
Proof.
  intros Hc Hm st. split; cbn [lw_host].
  - intros f. rewrite (hm_reg Hm). apply (hs_reg (calm_host Hc)).
  - intros k Hk. rewrite (hm_content Hm k Hk). apply (hs_content (calm_host Hc)).
Qed.

Definition made_dir (path : str) s s' : Prop :=
  exists cs, kept_files s s' /\ normalize_path path = Ok cs /\ cs <> [] /\ locate (tree_of s) cs = Ok (names cs)
  /\ tree_of s !! names cs = None /\ tree_of s' = <[names cs := DirAt]> (tree_of s).

Lemma local_mkdir_spec path s :
  local_inv s ->
  wp (mkdir v path) s (fun _ s' => sound s s' /\ still s s' /\ made_dir path s s') (fun _ s' => unmoved s s').
Proof.
  intros Hi. unfold mkdir. wp_step. eapply wp_mono; [by apply resolve_spec|..]; [|by intros e s1 (? & ? & _)].
  intros r s1 (HJ1 & H1 & Hcs & Hr & Hloc). destruct (is_root r) eqn:Hroot; [by apply wp_fail|]. apply root_path in Hroot.
  wp_step. apply wp_get_state. wp_step. eapply wp_mono; [by apply lookup_at_spec|..]; [|by intros e s2 (HJ2 & H2 & _); eapply calm_post].
  intros m s2 (HJ2 & H2 & Hm). assert (calm s s2) as H02 by by etrans. destruct m as [m|]; [by apply wp_fail|]. simpl in Hm.
  wp_step. unfold ensure_entry_slot. apply wp_lift; [by case_match| |by intros e _].
  intros [] Hslot. assert (l_file_count (lw_state s1) < max_files (lv_quota v)) as Hfree by (case_match eqn:E; [done|]; unbool; lia).
  wp_step. apply wp_on_host, wp_map_err. pose proof (resolved_calm _ _ _ H2 Hr) as [_ Hent].
  eapply wp_mono; [by apply law_mkdirat, Hent|..]; [|intros e w3 (HJ3 & H3); eapply calm_post; [done|exact H02|by split]].
  intros _ w3 (HJ3 & Hnone & Hmoved). cbn [lw_host lw_state]. wp_step. pose proof (quota_files _ Hquota).
  apply wp_u64_add; [lia|]. apply wp_put_state. cbn [lw_host]. pose proof (normalize_path_post path) as Hpath. rewrite Hcs in Hpath.
  rewrite <- (calm_state H2) in *. split; [|split; [|]].
  - eapply calm_sound; [exact H02|]. apply (made_sound s2 (names (r_components r))); try done.
    + by eapply local_inv_calm.
    + unfold names. rewrite length_fmap. apply Hpath.
  - split; simpl; by rewrite (calm_state H02).
  - exists (r_components r). split; [by eapply moved_kept; [exact H02|exact Hmoved]|].
    rewrite (calm_tree _ _ H02) in *. do 3 (split; [done|]). split; [by rewrite <- (calm_tree _ _ H1)|].
    simpl. apply (hm_tree Hmoved).
Qed.

(** ** unlink and rmdir *)

Lemma delete_shallow t (p : OsPath) : shallow t -> shallow (delete p t).
Proof. intros Ht q o [_ Hq]%lookup_delete_Some Ho. by eapply Ht. Qed.

(** The entry [path] is gone; it was an [o] that [P] allows. *)
Definition removed_entry (P : HostObj -> Prop) (path : str) s s' : Prop :=
  exists cs o, kept_files s s' /\ normalize_path path = Ok cs /\ cs <> [] /\ locate (tree_of s) cs = Ok (names cs)
  /\ tree_of s !! names cs = Some o /\ P o /\ tree_of s' = delete (names cs) (tree_of s).

Lemma removed_sound s s1 s2 r path target w' (P : HostObj -> Prop) :
  local_inv s -> calm s s2 -> J (lw_host s2) -> J w' -> lw_state s1 = lw_state s2 ->
  normalize_path path = Ok (r_components r) -> r_components r <> [] -> locate (tree_of s) (r_components r) = Ok (names (r_components r)) ->
  target_is tree content (lw_host s2) (names (r_components r)) (Some target) ->
  (forall o, tree_of s2 !! names (r_components r) = Some o -> P o) ->
  host_moved tree content at_dir reg (delete (names (r_components r)) (tree_of s2)) (lw_host s2) w' ->
  let s' := mkLocalWorld (replaced (Some target) (lw_state s1)) w' in
  sound s s' /\ still s s' /\ removed_entry P path s s'.
Proof.
  intros Hi H02 HJ2 HJ' E Hcs Hne Hloc Ht HP Hm s'. unfold s'. rewrite E. split; [|split].
  - eapply calm_sound; [exact H02|]. eapply replaced_sound; [by eapply local_inv_calm|done|exact Hm|apply lost_delete|exact Ht|by apply names_nil|].
    apply delete_shallow.
  - destruct (replaced_frame (Some target) (lw_state s2)) as [E1 E2]. unfold still. cbn [lw_state]. by rewrite E1, E2, (calm_state H02).
  - destruct Ht as (o & Ho & _). exists (r_components r), o. split; [by eapply moved_kept; [exact H02|exact Hm]|].
    do 3 (split; [done|]). rewrite <- (calm_tree _ _ H02).
    split; [done|]. split; [auto|]. apply (hm_tree Hm).
Qed.

Lemma local_unlink_spec path s :
  local_inv s ->
  wp (unlink v path) s (fun _ s' => sound s s' /\ still s s' /\ removed_entry (fun o => exists k, o = FileAt k) path s s')
     (fun _ s' => unmoved s s').
Proof.
  intros Hi. unfold unlink. wp_step. eapply wp_mono; [by apply resolve_spec|..]; [|by intros e s1 (? & ? & _)].
  intros r s1 (HJ1 & H1 & Hcs & Hr & Hloc). destruct (is_root r) eqn:Hroot; [by apply wp_fail|]. apply root_path in Hroot.
  wp_step. apply wp_get_state. wp_step. eapply wp_mono; [by apply lookup_at_spec|..]; [|by intros e s2 (HJ2 & H2 & _); eapply calm_post].
  intros m s2 (HJ2 & H2 & Hm). assert (calm s s2) as H02 by by etrans. wp_step. apply wp_ok_or; [intros m' ->|by intros _].
  destruct (em_kind m') eqn:Hkind; [|by apply wp_fail..]. wp_step. apply wp_on_host, wp_map_err.
  pose proof (resolved_calm _ _ _ H2 Hr) as [_ Hent].
  eapply wp_mono; [by apply law_unlinkat, Hent|..]; [|intros e w3 (HJ3 & H3); eapply calm_post; [done|exact H02|by split]].
  intros _ w3 (HJ3 & _ & _ & Hmoved). apply wp_put_state. cbn [lw_host lw_state].
  assert (release_entry (em_key m') (em_len m') (lw_state s1) = replaced (Some m') (lw_state s1)) as -> by (unfold replaced; by rewrite Hkind).
  assert (target_is tree content (lw_host s2) (names (r_components r)) (Some m')) as Ht.
  { destruct Hm as (o & Ho & Hm). exists o. rewrite (calm_tree _ _ H2). split; [done|].
    destruct o; simpl in *; [|done..]. by rewrite (same_file_bytes _ _ _ (calm_host H2)). }
  eapply removed_sound; try done; [by rewrite (calm_state H2)|]. intros o Ho. destruct Ht as (o' & Ho' & Hm'). simplify_eq.
  destruct o'; simpl in Hm'; [by eexists|congruence..].
Qed.

Lemma target_calm s s' p target : calm s s' -> target_is tree content (lw_host s) p target -> target_is tree content (lw_host s') p target.
Proof.
  intros H Ht. destruct target as [m|]; simpl in *; rewrite (calm_tree _ _ H); [|done]. destruct Ht as (o & Ho & Hm). exists o. split; [done|].
  destruct o; simpl in *; [|done..]. by rewrite (same_file_bytes _ _ _ (calm_host H)).
Qed.

Lemma local_rmdir_spec path s :
  local_inv s ->
  wp (rmdir v path) s
    (fun _ s' => sound s s' /\ still s s' /\ removed_entry (fun o => o = DirAt) path s s'
       /\ exists cs, normalize_path path = Ok cs /\ empty_dir tree (lw_host s) (names cs))
    (fun _ s' => unmoved s s').
Proof.
  intros Hi. unfold rmdir. wp_step. eapply wp_mono; [by apply resolve_spec|..]; [|by intros e s1 (? & ? & _)].
  intros r s1 (HJ1 & H1 & Hcs & Hr & Hloc). destruct (is_root r) eqn:Hroot; [by apply wp_fail|]. apply root_path in Hroot.
  wp_step. apply wp_get_state. wp_step. eapply wp_mono; [by apply lookup_at_spec|..]; [|by intros e s2 (HJ2 & H2 & _); eapply calm_post].
  intros m s2 (HJ2 & H2 & Hm). assert (calm s s2) as H02 by by etrans.
  destruct m as [m|]; [|by apply wp_fail]. cbn [fmap option_fmap option_map]. destruct (em_kind m) eqn:Hkind; [by apply wp_fail| |by apply wp_fail].
  wp_step. apply wp_on_host, wp_map_err. pose proof (resolved_calm _ _ _ H2 Hr) as [_ Hent].
  eapply wp_mono; [by apply law_rmdir, Hent|..]; [|intros e w3 (HJ3 & H3); eapply calm_post; [done|exact H02|by split]].
  intros _ w3 (HJ3 & Hdir & Hempty & Hmoved). apply wp_put_state. cbn [lw_host lw_state].
  assert (set_file_count (saturating_sub (l_file_count (lw_state s1)) 1) (lw_state s1) = replaced (Some m) (lw_state s1)) as ->
    by (unfold replaced; by rewrite Hkind).
  apply (target_calm _ _ _ _ H2) in Hm.
  edestruct (removed_sound s s1 s2 r path m w3 (fun o => o = DirAt)) as (S1 & S2 & S3); try done.
  - by rewrite (calm_state H2).
  - congruence.
  - split; [exact S1|]. split; [exact S2|]. split; [exact S3|]. exists (r_components r). split; [done|].
    intros n. specialize (Hempty n). by rewrite (calm_tree _ _ H02) in Hempty.
Qed.

(** ** rename *)

Lemma too_deep_spec kind from to s :
  J (lw_host s) -> resolved at_dir s from ->
  wp (too_deep v walk kind from to) s
    (fun b s' => unmoved s s' /\
       (b = false -> kind = KindDirectory -> (length (r_components from) < length (r_components to))%nat ->
        forall r o, tree_of s !! (names (r_components from) ++ r) = Some o -> o <> OtherAt ->
        (length r <= MAX_PATH_DEPTH - length (r_components to))%nat))
    (fun _ s' => unmoved s s').
Proof.
  intros HJ [Hs _]. unfold too_deep.
  destruct (bool_decide (kind = KindDirectory) && (length (r_components from) <? length (r_components to))%nat) eqn:Hb.
  - wp_step. apply wp_on_host. eapply wp_mono; [by apply open_directory_spec|..]; [|intros e w1 (HJ1 & H1 & _); split; [done|by split]].
    intros f w1 (HJ1 & H1 & Hdir & Hat). cbn [lw_state lw_host]. apply wp_on_host. cbn [lw_host].
    eapply wp_mono; [apply wp_any_err, (subtree_deeper_spec w1 f _ _ Hwalk HJ1 Hat); by rewrite (hs_tree H1)|..].
    + intros b w2 (HJ2 & H2 & Hd). split; [split; [done|]; split; [done|]; simpl; by etrans|]. intros -> _ _ r o Ho Hv.
      apply (Hd r o); [|done]. by rewrite (hs_tree H1).
    + intros e w2 (HJ2 & H2). split; [done|]. split; [done|]. simpl. by etrans.
  - wp_step. split; [done|]. intros _ -> Hlt. apply andb_false_iff in Hb as [Hb|Hb]; unbool; [done|lia].
Qed.

Lemma not_empty_calm s s1 w : J w -> calm s s1 -> host_same (lw_host s1) w -> unmoved s (mkLocalWorld (lw_state s1) w).
Proof. intros HJ H H1. split; [done|]. etrans; [exact H|]. by split. Qed.

(** The object at [from] is at [to], with what was below it; an empty directory or
    a file that was at [to] is gone. *)
Definition renamed_to (from to : str) s s' : Prop :=
  exists a b, normalize_path from = Ok a /\ normalize_path to = Ok b /\ a <> [] /\ b <> []
  /\ (exists o, tree_of s !! names a = Some o /\ o <> OtherAt)
  /\ (a = b /\ calm s s'
      \/ strip (names a) (names b) = None /\ strip (names b) (names a) = None /\ may_replace tree (lw_host s) (names a) (names b)
         /\ kept_files s s'
         /\ forall x, tree_of s' !! x = match strip (names b) x with
                                       | Some r => tree_of s !! (names a ++ r)
                                       | None => match strip (names a) x with Some _ => None | None => tree_of s !! x end
                                       end).

Lemma may_replace_apart s a b :
  J (lw_host s) -> is_Some (tree_of s !! names a) -> a <> b -> may_replace tree (lw_host s) (names a) (names b) ->
  strip (names b) (names a) = None /\ (tree_of s !! names b = Some DirAt -> forall n, tree_of s !! (names b ++ [n]) = None).
Proof.
  intros HJ [o Ho] Hne Hm. unfold may_replace in Hm. split.
  - apply strip_None. intros [|n r] E; [rewrite app_nil_r in E; by apply names_inj in E|]. rewrite E in Ho.
    assert (tree_of s !! names b = Some DirAt) as Hd by by apply (closed_below _ (J_closed _ HJ) (names b) (n :: r) o).
    rewrite Hd in Hm. destruct Hm as [_ Hm].
    replace (names b ++ n :: r) with ((names b ++ [n]) ++ r) in Ho by (by rewrite <- app_assoc).
    destruct r as [|m r]; [rewrite app_nil_r, Hm in Ho; done|]. eapply (closed_below _ (J_closed _ HJ)) in Ho; [|done]. by rewrite Hm in Ho.
  - intros Hd. rewrite Hd in Hm. apply Hm.
Qed.

Lemma renamed_sound s s2 a b target w' from to :
  local_inv s -> calm s s2 -> J (lw_host s2) -> J w' ->
  normalize_path from = Ok a -> normalize_path to = Ok b -> a <> [] -> b <> [] -> a <> b ->
  (exists o, tree_of s !! names a = Some o /\ o <> OtherAt) ->
  target_is tree content (lw_host s2) (names b) target ->
  (forall r o, (length a < length b)%nat -> tree_of s !! names a = Some DirAt -> tree_of s !! (names a ++ r) = Some o -> o <> OtherAt ->
     (length b + length r <= MAX_PATH_DEPTH)%nat) ->
  strip (names a) (names b) = None -> may_replace tree (lw_host s2) (names a) (names b) ->
  host_moved tree content at_dir reg (relabel (renamed (names a) (names b)) (delete (names b) (tree_of s2))) (lw_host s2) w' ->
  let s' := mkLocalWorld (replaced target (lw_state s2)) w' in
  sound s s' /\ still s s' /\ renamed_to from to s s'.
Proof.
  intros Hi H02 HJ2 HJ' Ha Hb Hane Hbne Hne Hsrc Ht Hdeep Hpq Hrep Hm s'. unfold s'.
  assert (is_Some (tree_of s2 !! names a)) as Hsome by (rewrite (calm_tree _ _ H02); naive_solver).
  destruct (may_replace_apart s2 a b HJ2 Hsome Hne Hrep) as [Hqp Hempty]. pose proof (J_closed _ HJ2) as Hclosed.
  pose proof (normalize_path_post to) as Hpath. rewrite Hb in Hpath. destruct Hpath as [_ Hlen].
  split; [|split].
  - eapply calm_sound; [exact H02|]. eapply replaced_sound; [by eapply local_inv_calm|done|exact Hm|by apply lost_rename|exact Ht|by apply names_nil|].
    intros Hs. apply rename_shallow; try done; unfold names in *; rewrite ?length_fmap; [done|].
    rewrite (calm_tree _ _ H02). exact Hdeep.
  - destruct (replaced_frame target (lw_state s2)) as [E1 E2]. unfold still. cbn [lw_state]. by rewrite E1, E2, (calm_state H02).
  - exists a, b. do 5 (split; [done|]). right. split; [done|]. split; [done|]. unfold may_replace, empty_dir in *.
    split; [by rewrite <- (calm_tree _ _ H02)|]. split; [by eapply moved_kept; [exact H02|exact Hm]|].
    rewrite <- (calm_tree _ _ H02) in *. intros x. cbn [lw_host]. rewrite (hm_tree Hm). by apply rename_lookup.
Qed.

Lemma local_rename_spec from to s :
  local_inv s ->
  wp (rename v walk from to) s (fun _ s' => sound s s' /\ still s s' /\ renamed_to from to s s') (fun _ s' => unmoved s s').
Proof.
  intros Hi. unfold rename. wp_step. eapply wp_mono; [by apply resolve_spec|..]; [|by intros e s1 (? & ? & _)].
  intros a s1 (HJ1 & H1 & Ha & Hra & Hla). assert (local_inv s1) as Hi1 by by eapply local_inv_calm.
  wp_step. eapply wp_mono; [by apply resolve_spec|..]; [|by intros e s2 (HJ2 & H2 & _); eapply calm_post].
  intros b s2 (HJ2 & H2 & Hb & Hrb & Hlb). assert (calm s s2) as H02 by by etrans. apply (resolved_calm _ _ _ H2) in Hra.
  destruct (is_root a || is_root b) eqn:Hroot; [by apply wp_fail|]. apply orb_false_iff in Hroot as [Hroota%root_path Hrootb%root_path].
  wp_step. apply wp_get_state. wp_step. eapply wp_mono; [by apply lookup_at_spec|..]; [|by intros e s3 (HJ3 & H3 & _); eapply calm_post].
  intros m s3 (HJ3 & H3 & Hm). assert (calm s s3) as H03 by by etrans. apply (resolved_calm _ _ _ H3) in Hra, Hrb.
  apply (target_calm _ _ _ _ H3) in Hm.
  destruct m as [m|]; [|by apply wp_fail]. cbn [fmap option_fmap option_map]. destruct Hm as (o & Ho & Hm).
  assert ((em_kind m = KindOther <-> o = OtherAt) /\ (em_kind m = KindDirectory <-> o = DirAt)) as [Hother Hdir].
  { destruct o; simpl in Hm; [subst m; simpl|rewrite Hm..]; split; split; congruence. }
  assert (forall kind, em_kind m = kind -> kind <> KindOther -> wp
    (if bool_decide (r_components a = r_components b) then sret tt
     else if bool_decide (kind = KindDirectory) && starts_with_components (r_components b) (r_components a) then sfail EINVAL
     else
       let! deep := too_deep v walk kind a b in
       if deep then sfail EINVAL
       else
         let! target := lookup_at v b in
         let! _ := on_host (map_err not_empty
                     (h_renameat (lv_host v) (r_parent a) (inl (r_name a)) (r_parent b) (inl (r_name b)))) in
         put_state (replaced target (lw_state s2))) s3
    (fun _ s' => sound s s' /\ still s s' /\ renamed_to from to s s') (fun _ s' => unmoved s s')) as Hrest.
  2:{ destruct (em_kind m) eqn:Hkind; [by apply Hrest|by apply Hrest|by apply wp_fail]. }
  intros kind Hkind Hk. subst kind. rewrite (calm_tree _ _ H03) in Ho.
  assert (exists o, tree_of s !! names (r_components a) = Some o /\ o <> OtherAt) as Hsrc by (exists o; split; [done|by rewrite <- Hother]).
  case_bool_decide as Hsame.
  { apply wp_ret. split; [by eapply sound_calm|]. split; [by apply calm_still|]. exists (r_components a), (r_components b).
    do 5 (split; [done|]). by left. }
  wp_step; [by apply wp_fail|]. wp_step.
  eapply wp_mono; [by apply too_deep_spec|..]; [|intros e s4 [HJ4 H4]; by eapply calm_post].
  intros deep s4 [[HJ4 H4] Hdeep]. assert (calm s s4) as H04 by by etrans. destruct deep; [by apply wp_fail|]. specialize (Hdeep eq_refl).
  apply (resolved_calm _ _ _ H4) in Hra, Hrb. wp_step.
  eapply wp_mono; [by apply lookup_at_spec|..]; [|by intros e s5 (HJ5 & H5 & _); eapply calm_post].
  intros target s5 (HJ5 & H5 & Htarget). assert (calm s s5) as H05 by by etrans. apply (resolved_calm _ _ _ H5) in Hra, Hrb.
  apply (target_calm _ _ _ _ H5) in Htarget. wp_step. apply wp_on_host, wp_map_err. destruct Hra as [_ Hea], Hrb as [_ Heb].
  eapply wp_mono; [apply law_renameat; [done|by apply Hea|by apply Heb|by intros ?%names_inj|]|..].
  - intros k Hka Hkb. apply Hsame, names_inj. rewrite (calm_tree _ _ H05) in Hka, Hkb. by apply (li_links Hi _ _ k).
  - intros _ w6 (HJ6 & _ & Hpq & Hrep & Hmoved). apply wp_put_state. cbn [lw_host lw_state].
    replace (lw_state s2) with (lw_state s5) by by rewrite (calm_state H05), (calm_state H02).
    eapply renamed_sound; try done. intros r o' Hlt Hd Ho' Hv. assert (o = DirAt) as -> by congruence.
    specialize (Hdeep (proj2 Hdir eq_refl) Hlt r o'). rewrite (calm_tree _ _ H03) in Hdeep. specialize (Hdeep Ho' Hv).
    pose proof (normalize_path_post to) as Hpath. rewrite Hb in Hpath. destruct Hpath as [_ Hpath]. lia.
  - intros e w6 (HJ6 & H6). by apply not_empty_calm.
Qed.
End local.
Arguments calm_still {W D tree content at_dir reg stream}.
Arguments unmoved_trans {W D tree content at_dir reg stream J}.
Arguments calm_tree {W D tree content at_dir reg stream}.
Arguments shown_calm {W D tree content at_dir reg stream}.
Arguments meta_shown {W content}.
Arguments local_stat_spec {W D v patience tree content at_dir reg stream J based Hl}.
Arguments entry_for_name {W tree content}.
Arguments entries_same {W D tree content at_dir reg stream}.
Arguments listing_same {W tree}.
Arguments listed_entries {W D v patience tree content at_dir reg stream J based Hl}.
Arguments local_readdir_spec {W D v walk patience tree content at_dir reg stream J based Hl}.
Arguments made_sound {W D v tree content at_dir reg J}.
Arguments calm_post {W D tree content at_dir reg stream J}.
Arguments local_mkdir_spec {W D v patience tree content at_dir reg stream J based Hl}.
Arguments removed_sound {W D v patience tree content at_dir reg stream J based Hl}.
Arguments local_unlink_spec {W D v patience tree content at_dir reg stream J based Hl}.
Arguments target_calm {W D tree content at_dir reg stream}.
Arguments local_rmdir_spec {W D v patience tree content at_dir reg stream J based Hl}.
Arguments too_deep_spec {W D v walk patience tree content at_dir reg stream J based Hl}.
Arguments not_empty_calm {W D tree content at_dir reg stream J}.
Arguments may_replace_apart {W D v patience tree content at_dir reg stream J based Hl}.
Arguments renamed_sound {W D v patience tree content at_dir reg stream J based Hl}.
Arguments local_rename_spec {W D v walk patience tree content at_dir reg stream J based Hl}.
