(* ===== verification/LocalHandles.v ===== *)
(** * The operations of the local filesystem on handles

    Opening a file, reading, writing and cutting it, closing it, and counting the
    accounts again. *)

From Stdlib Require Import Ascii String.
From stdpp Require Import sorting gmap.
From S2P Require Import Prelude RustStr VfsTypes VfsPath VfsIface MemVfs MemVfsInv MemVfsView MemVfsFiles.
From S2P Require Import LocalVfs LocalLaws LocalWalk LocalInv LocalPaths.

#[local] Open Scope Z_scope.

Section local.
Context {W D : Type} (v : LocalVfs W D) (walk patience : W -> nat).
Context (tree : W -> Tree) (content : W -> FileKey -> option bytes).
Context (at_dir : W -> Z -> option OsPath) (reg : W -> Z -> option FileKey).
Context (stream : W -> D -> option (OsPath * list OsName)) (J : W -> Prop) (based : W -> str -> Prop).
Context `{Hl : !LocalLaws tree content at_dir reg stream patience J based (lv_host v)}.
Context (Hwalk : walks_enough tree J walk) (Hquota : quota_ok (lv_quota v)).

Abbreviation LW := (LocalWorld W).
Abbreviation host_same := (host_same tree content at_dir reg stream).
Abbreviation host_wrote := (host_wrote tree content at_dir reg).
Abbreviation alive := (alive tree reg).
Abbreviation local_inv := (local_inv v tree at_dir reg J).
Abbreviation calm := (calm tree content at_dir reg stream).
Abbreviation unmoved := (unmoved tree content at_dir reg stream J).
Abbreviation sound := (sound v tree content at_dir reg J).
Abbreviation exact := (exact tree content).
Abbreviation fb := (file_bytes content).
Abbreviation steady := (SteadyHost content reg J (lv_host v)).
Abbreviation tree_of s := (tree (lw_host s)).
Abbreviation tree_bytes := (tree_bytes tree content).
Abbreviation tree_entries := (tree_entries tree).
Abbreviation named := (named tree).
Implicit Types (s : LW) (w : W).

(** ** How much there can be *)

Lemma sumz_omap {A B} (f : B -> Z) (h : A -> option B) l : sumz f (omap h l) = sumz (fun a => default 0 (f <$> h a)) l.
Proof.
  induction l as [|a l IH]; [done|]. rewrite sumz_cons, <- IH.
  change (omap h (a :: l)) with (match h a with Some b => b :: omap h l | None => omap h l end). by destruct (h a).
Qed.

Lemma total_bytes_sumz w ks : total_bytes content w ks = sumz (fb w) ks.
Proof. done. Qed.

Lemma tree_bytes_keys w : tree_bytes w = sumz (fb w) (tree_keys (tree w)).
Proof. unfold LocalWalk.tree_bytes, tree_sum, tree_keys. rewrite sumz_omap. apply sumz_ext. intros [p o] _. by destruct o. Qed.

Lemma orphan_bytes_keys w files : orphan_bytes content w files = sumz (fb w) (orphans files).
Proof. unfold orphan_bytes, msum, orphans. rewrite sumz_omap. apply sumz_ext. intros [k o] _. simpl. by destruct (of_unlinked o). Qed.

Lemma orphan_count_keys files : orphan_count files = len (orphans files).
Proof.
  unfold orphan_count, msum, orphans. rewrite <- sumz_const, sumz_omap. apply sumz_ext. intros [k o] _. simpl. by destruct (of_unlinked o).
Qed.

Lemma elem_tree_keys t k : k ∈ tree_keys t <-> exists p, t !! p = Some (FileAt k).
Proof.
  unfold tree_keys. rewrite list_elem_of_omap. split.
  - intros ([p o] & Hp%elem_of_map_to_list & E). destruct o; simplify_eq/=. eauto.
  - intros (p & Hp). exists (p, FileAt k). split; [by apply elem_of_map_to_list|done].
Qed.

Lemma elem_orphans files k : k ∈ orphans files <-> exists o, files !! k = Some o /\ of_unlinked o = true.
Proof.
  unfold orphans. rewrite list_elem_of_omap. split.
  - intros ([k' o] & Hp%elem_of_map_to_list & E). simpl in E. case_match; simplify_eq. eauto.
  - intros (o & Ho & Hu). exists (k, o). split; [by apply elem_of_map_to_list|]. simpl. by rewrite Hu.
Qed.

(** A list without repetitions, of what is unique to its elements. *)
Lemma NoDup_omap {A B} (h : A -> option B) l :
  NoDup l -> (forall a b x, a ∈ l -> b ∈ l -> h a = Some x -> h b = Some x -> a = b) -> NoDup (omap h l).
Proof.
  intros Hnd Hh. induction Hnd as [|a l Ha Hnd IH]; csimpl; [constructor|].
  assert (NoDup (omap h l)) as Hl' by (apply IH; intros; eapply Hh; eauto; by right).
  destruct (h a) as [x|] eqn:E; [|done]. constructor; [|done]. intros (b & Hb & Hx)%list_elem_of_omap.
  apply Ha. rewrite (Hh a b x); [done|by left|by right|done|done].
Qed.

Lemma accounted_nodup s : local_inv s -> NoDup (tree_keys (tree_of s) ++ orphans (l_open_files (lw_state s))).
Proof.
  intros Hi. apply NoDup_app. split; [|split].
  - apply NoDup_omap; [apply NoDup_map_to_list|]. intros [p o] [q o'] k Hp%elem_of_map_to_list Hq%elem_of_map_to_list E1 E2.
    destruct o, o'; simplify_eq/=. by rewrite (li_links Hi p q k).
  - intros k (p & Hp)%elem_tree_keys (o & Ho & Hu)%elem_orphans. pose proof (li_open Hi k) as H. rewrite Ho in H.
    destruct H as (_ & _ & H). apply H; [done|]. by exists p.
  - apply NoDup_omap; [apply NoDup_map_to_list|]. intros [k o] [k' o'] x Hp%elem_of_map_to_list Hq%elem_of_map_to_list E1 E2.
    simpl in *. repeat case_match; simplify_eq. done.
Qed.

Lemma accounted_alive s : local_inv s -> Forall (alive (lw_host s)) (tree_keys (tree_of s) ++ orphans (l_open_files (lw_state s))).
Proof.
  intros Hi. apply Forall_forall. intros k [Hk|Hk]%elem_of_app.
  - left. by apply elem_tree_keys.
  - apply elem_orphans in Hk as (o & Ho & _). right. by eapply open_alive.
Qed.

(** Counters of 64 bits can hold the accounts. *)
Lemma accounts_fit s :
  local_inv s ->
  tree_bytes (lw_host s) + orphan_bytes content (lw_host s) (l_open_files (lw_state s)) <= U64_MAX
  /\ tree_entries (lw_host s) + orphan_count (l_open_files (lw_state s)) <= U64_MAX.
Proof.
  intros Hi. destruct (law_room (lw_host s) _ (li_host Hi) (accounted_nodup _ Hi) (accounted_alive _ Hi)) as [Hb Hc].
  rewrite total_bytes_sumz, sumz_app in Hb. rewrite tree_bytes_keys, orphan_bytes_keys. split; [done|].
  rewrite orphan_count_keys. rewrite len_app in Hc. pose proof (len_nonneg (tree_keys (tree_of s))).
  assert (tree_entries (lw_host s) <= Z.of_nat (size (tree_of s))); [|lia].
  unfold LocalWalk.tree_entries. pose proof (tree_sum_size [] (tree_of s)) as H1.
  assert (tree_sum counted [] (tree_of s) <= tree_sum (fun _ => 1) [] (tree_of s)); [|lia].
  apply sumz_le. intros [p []] _; simpl; done.
Qed.

(** ** Changes to the contents *)

Lemma inv_wrote s k d w' x :
  local_inv s -> host_wrote k d (lw_host s) w' -> J w' ->
  l_handles x = l_handles (lw_state s) -> l_next_handle x = l_next_handle (lw_state s) -> l_open_files x = l_open_files (lw_state s) ->
  0 <= l_used_bytes x <= U64_MAX -> 0 <= l_file_count x <= U64_MAX -> local_inv (mkLocalWorld x w').
Proof.
  intros Hi Hw HJ E1 E2 E3 Hu Hc. constructor; cbn [lw_host lw_state]; rewrite ?E1, ?E2; try apply Hi; try done.
  - apply (hw_root Hw), Hi.
  - rewrite (hw_tree Hw). apply Hi.
  - intros h y Hy. rewrite (hw_reg Hw). by apply (li_file Hi h).
  - intros k'. rewrite E3. pose proof (li_open Hi k') as H. unfold LocalInv.named in *. by rewrite (hw_tree Hw).
Qed.

Lemma wrote_fb k d w w' k' : host_wrote k d w w' -> fb w' k' = if decide (k' = k) then len d else fb w k'.
Proof.
  intros Hw. unfold file_bytes. case_decide as E; [subst; by rewrite (hw_content Hw)|]. by rewrite (hw_others Hw).
Qed.

(** What the accounts should be follows the length of the file. *)
Lemma wrote_accounts s k d0 d w' :
  local_inv s -> host_wrote k d (lw_host s) w' -> content (lw_host s) k = Some d0 ->
  named (lw_host s) k \/ is_Some (l_open_files (lw_state s) !! k) ->
  tree_bytes w' + orphan_bytes content w' (l_open_files (lw_state s))
  = tree_bytes (lw_host s) + orphan_bytes content (lw_host s) (l_open_files (lw_state s)) + len d - len d0.
Proof.
  intros Hi Hw Hd Hk. rewrite !tree_bytes_keys, !orphan_bytes_keys, (hw_tree Hw), <- !sumz_app.
  assert (k ∈ tree_keys (tree_of s) ++ orphans (l_open_files (lw_state s))) as Hin.
  { apply elem_of_app. pose proof (li_open Hi k) as H. destruct Hk as [(p & Hp)|[o Ho]]; [left; apply elem_tree_keys; eauto|].
    rewrite Ho in H. destruct H as (_ & _ & H). destruct (of_unlinked o) eqn:Hu; [right; apply elem_orphans; eauto|left].
    apply elem_tree_keys. destruct (decide (k ∈ tree_keys (tree_of s))) as [Hy|Hn]; [by apply elem_tree_keys|].
    assert (false = true) as C; [|done]. apply H. intros Hnm. apply Hn, elem_tree_keys, Hnm. }
  pose proof (accounted_nodup _ Hi) as Hnd. apply list_elem_of_split in Hin as (l1 & l2 & E). rewrite E in *.
  apply NoDup_app in Hnd as (_ & Hnd1 & Hnd2). apply NoDup_cons in Hnd2 as [Hnd2 _].
  rewrite !sumz_app, !sumz_cons. rewrite !(sumz_ext (fb w') (fb (lw_host s))).
  - rewrite (wrote_fb _ _ _ _ k Hw), decide_True by done. unfold file_bytes at 4. rewrite Hd. simpl. lia.
  - intros a Ha. rewrite (wrote_fb _ _ _ _ a Hw), decide_False; [done|]. by intros ->.
  - intros a Ha. rewrite (wrote_fb _ _ _ _ a Hw), decide_False; [done|]. intros ->. apply (Hnd1 k Ha). by left.
Qed.

Lemma calm_sound_still s s' : local_inv s -> calm s s' -> J (lw_host s') -> sound s s' /\ still s s'.
Proof. intros Hi Hc HJ. split; [by eapply sound_calm|by eapply calm_still]. Qed.

Lemma open_content s h x :
  local_inv s -> l_handles (lw_state s) !! h = Some x ->
  reg (lw_host s) (hs_file x) = Some (hs_key x) /\ is_Some (content (lw_host s) (hs_key x)) /\ is_Some (l_open_files (lw_state s) !! hs_key x).
Proof.
  intros Hi Hx. pose proof (li_file Hi h x Hx) as Hf. split; [done|]. split; [apply law_alive; [apply Hi|right; eauto]|].
  pose proof (li_open Hi (hs_key x)) as H. destruct (l_open_files (lw_state s) !! hs_key x); [eauto|]. exfalso.
  pose proof (msum_in (fun _ y => if decide (hs_key y = hs_key x) then 1 else 0) _ h x ltac:(intros; simpl; by case_decide) Hx) as H1.
  unfold handle_count in H. rewrite H in H1. simpl in H1. rewrite decide_True in H1; [lia|done].
Qed.

Lemma alive_small w k d : J w -> alive w k -> content w k = Some d -> len d <= U64_MAX.
Proof.
  intros HJ Hk Hd. destruct (law_room w [k] HJ (NoDup_singleton k) ltac:(by constructor)) as [H _].
  simpl in H. unfold file_bytes in H. rewrite Hd in H. simpl in H. lia.
Qed.

(** ** read_at *)

Lemma local_read_at_spec h offset buf s :
  local_inv s -> 0 <= offset <= U64_MAX ->
  wp (read_at v patience h offset buf) s
    (fun r s' => unmoved s s' /\ exists x d, l_handles (lw_state s) !! h = Some x /\ hs_readable x = true
       /\ content (lw_host s) (hs_key x) = Some d /\ r = read_result d offset buf)
    (fun e s' => unmoved s s').
Proof.
  intros Hi Ho. assert (unmoved s s) as Hrefl by (split; [apply Hi|done]).
  unfold read_at. wp_step. unfold get_handle. wp_step. apply wp_get_state, wp_ok_or; [intros x Hx|done].
  destruct (open_content _ _ _ Hi Hx) as (Hreg & [d Hd] & _).
  wp_step; [done|]. wp_step. apply wp_get_host. wp_step. apply wp_on_host.
  eapply wp_mono; [apply (local_read_loop_spec _ (lw_host s) (hs_file x) (hs_key x) d offset (len buf) []); try done|..].
  - apply Hi.
  - apply len_nonneg.
  - apply (alive_small (lw_host s) (hs_key x)); [apply Hi|right; eauto|done].
  - unfold len at 1 2. simpl length. unfold len. lia.
  - intros got w' (HJ & H & ->). apply wp_ret. split; [split; [done|by split]|]. exists x, d. repeat split; try done.
    assert (Z.to_nat (len buf) = length buf) as -> by (unfold len; lia). done.
  - intros e w' (HJ & H). split; [done|by split].
Qed.

(** ** write_at and truncate *)

Lemma wrote_part_len d start new n :
  0 <= start -> (n <= length new)%nat -> len (wrote_part d start new n) <= Z.max (len d) (start + len new).
Proof.
  intros Hs Hn. unfold wrote_part. pose proof (len_nonneg new). case_decide; [lia|]. rewrite written_len by done.
  unfold len. rewrite length_take. lia.
Qed.

Lemma resized_usage_spec used old_len new_len :
  0 <= used <= U64_MAX -> 0 <= old_len <= U64_MAX -> 0 <= new_len ->
  match resized_usage v used old_len new_len with
  | Ok n => 0 <= n <= U64_MAX /\ n <= max_bytes (lv_quota v) /\ new_len <= max_file_size (lv_quota v)
            /\ n = (if old_len <=? new_len then used + new_len - old_len else Z.max 0 (used - (old_len - new_len)))
  | Err e => e = ENOSPC
  | _ => False
  end.
Proof.
  intros Hu Ho Hn. pose proof (quota_bytes _ Hquota). unfold resized_usage, checked_add, saturating_sub.
  repeat (case_match; unbool; simplify_eq/=; try done; try lia).
Qed.

(** The file behind the handle [h] holds [d'], and nothing else changed. *)
Definition file_wrote (h : FileHandle) (d' : bytes) s s' : Prop :=
  exists x, l_handles (lw_state s) !! h = Some x /\ hs_writable x = true /\ host_wrote (hs_key x) d' (lw_host s) (lw_host s').

Definition put_used (n : Z) (s : LW) (w : W) : LW := mkLocalWorld (set_used_bytes n (lw_state s)) w.

Lemma wrote_sound s h x d d' n w' :
  local_inv s -> l_handles (lw_state s) !! h = Some x -> content (lw_host s) (hs_key x) = Some d ->
  host_wrote (hs_key x) d' (lw_host s) w' -> J w' -> 0 <= n <= U64_MAX ->
  (steady -> exact s -> n = l_used_bytes (lw_state s) + len d' - len d /\ (within_quota v s -> n <= max_bytes (lv_quota v))) ->
  sound s (put_used n s w').
Proof.
  intros Hi Hx Hd Hw HJ Hn He. destruct (open_content _ _ _ Hi Hx) as (_ & _ & Hopen). split.
  - apply (inv_wrote s (hs_key x) d'); try done. apply (li_count Hi).
  - intros Hst Hex. destruct (He Hst Hex) as [E Hq]. destruct Hex as [E1 E2]. split.
    + pose proof (wrote_accounts s (hs_key x) d d' w' Hi Hw Hd (or_intror Hopen)) as Ha. split; cbn in *; [lia|].
      rewrite E2. unfold LocalWalk.tree_entries. by rewrite (hw_tree Hw).
    + intros [Q1 Q2]. split; [by apply Hq|exact Q2].
  - cbn. by rewrite (hw_tree Hw).
Qed.

(** Under [exact], the counter covers every open file. *)
Lemma exact_covers s h x d :
  local_inv s -> exact s -> l_handles (lw_state s) !! h = Some x -> content (lw_host s) (hs_key x) = Some d ->
  len d <= l_used_bytes (lw_state s).
Proof.
  intros Hi [E _] Hx Hd. destruct (open_content _ _ _ Hi Hx) as (_ & _ & Hopen). rewrite E, tree_bytes_keys, orphan_bytes_keys, <- sumz_app.
  replace (len d) with (fb (lw_host s) (hs_key x)) by (unfold file_bytes; by rewrite Hd).
  apply sumz_in; [intros; apply file_bytes_nonneg|]. apply elem_of_app. destruct Hopen as [o Ho].
  pose proof (li_open Hi (hs_key x)) as H. rewrite Ho in H. destruct H as (_ & _ & H).
  destruct (of_unlinked o) eqn:Hu; [right; apply elem_orphans; eauto|left].
  destruct (decide (hs_key x ∈ tree_keys (tree_of s))) as [Hy|Hn]; [done|].
  assert (false = true) as C; [|done]. apply H. intros Hnm. apply Hn, elem_tree_keys, Hnm.
Qed.

Lemma local_write_at_spec h offset new s :
  local_inv s -> 0 <= offset <= U64_MAX ->
  wp (write_at v patience h offset new) s
    (fun n s' => sound s s' /\ still s s' /\ n = len new /\ exists x d, l_handles (lw_state s) !! h = Some x /\ hs_writable x = true
       /\ content (lw_host s) (hs_key x) = Some d
       /\ (if decide (new = []) then s' = s
           else file_wrote h (written d (if hs_append x then len d else offset) new) s s'))
    (fun e s' => sound s s' /\ still s s' /\ (calm s s' \/ exists x d m, l_handles (lw_state s) !! h = Some x
       /\ content (lw_host s) (hs_key x) = Some d /\ (m <= length new)%nat
       /\ file_wrote h (wrote_part d (if hs_append x then len d else offset) new m) s s')).
Proof.
  intros Hi Ho. destruct (calm_sound_still s s Hi (reflexivity s) (li_host Hi)) as [Hrefl Hstill].
  unfold write_at. wp_step. apply wp_get_state. wp_step. unfold get_handle. wp_step. apply wp_get_state, wp_ok_or; [intros x Hx|intros _; split; [done|]; split; [done|]; by left].
  destruct (open_content _ _ _ Hi Hx) as (Hreg & [d Hd] & Hopen).
  destruct (negb (hs_writable x)) eqn:Hw; [apply wp_fail; split; [done|]; split; [done|]; by left|]. apply negb_false_iff in Hw.
  case_bool_decide as Hnew; [apply wp_ret; split; [done|]; split; [done|]; split; [by subst|]; exists x, d; by rewrite decide_True|].
  wp_step. apply wp_on_host. eapply wp_mono; [apply (file_len_spec (lw_host s) _ (hs_key x)); [apply Hi|done]|..].
  2:{ intros e w1 (HJ1 & H1 & _). assert (calm s (mkLocalWorld (lw_state s) w1)) as Hc by by split.
      destruct (calm_sound_still _ _ Hi Hc HJ1). auto. }
  intros old_len w1 (HJ1 & H1 & ->). set (s1 := mkLocalWorld (lw_state s) w1). assert (calm s s1) as H01 by by split.
  assert (local_inv s1) as Hi1 by (by eapply local_inv_calm).
  assert (fb (lw_host s) (hs_key x) = len d) as -> by (unfold file_bytes; by rewrite Hd).
  assert (content w1 (hs_key x) = Some d) as Hd1 by by rewrite (hs_content H1).
  assert (reg w1 (hs_file x) = Some (hs_key x)) as Hreg1 by by rewrite (hs_reg H1).
  pose proof (alive_small (lw_host s) (hs_key x) d (li_host Hi) (or_intror (ex_intro _ _ Hreg)) Hd) as Hsmall. pose proof (len_nonneg d). pose proof (len_nonneg new).
  assert (sound s s1 /\ still s s1 /\ (calm s s1 \/ exists x d m, l_handles (lw_state s) !! h = Some x
       /\ content (lw_host s) (hs_key x) = Some d /\ (m <= length new)%nat
       /\ file_wrote h (wrote_part d (if hs_append x then len d else offset) new m) s s1)) as Hcalm1.
  { destruct (calm_sound_still _ _ Hi H01 HJ1). auto. }
  set (start := if hs_append x then len d else offset) in *. assert (0 <= start) as Hstart by (unfold start; case_match; lia).
  wp_step. apply wp_ok_or; [intros write_end [-> Hend]%checked_add_Some|by intros _].
  pose proof (resized_usage_spec (l_used_bytes (lw_state s)) (len d) (Z.max (len d) (start + len new)) (li_used Hi) ltac:(lia) ltac:(lia)) as Hres.
  wp_step. apply wp_lift; [by destruct (resized_usage _ _ _ _)| |by intros e _].
  intros used Hused. rewrite Hused in Hres. destruct Hres as (Hn & Hq & _ & E). rewrite (proj2 (Z.leb_le _ _)) in E by lia.
  wp_step. apply wp_get_host. wp_step. apply wp_attempted, wp_on_host, wp_map_err.
  eapply wp_mono; [apply (write_all_at_spec _ w1 (hs_file x) (hs_key x) d new start); try done; simpl; lia|..].
  - intros _ w2 (HJ2 & H2). wp_step. apply wp_put_state. apply wp_ret. cbn [lw_host lw_state].
    assert (wrote_part d start new (length new) = written d start new) as E2.
    { unfold wrote_part. rewrite decide_False, firstn_all; [done|]. by destruct new. }
    rewrite E2 in H2. assert (host_wrote (hs_key x) (written d start new) (lw_host s) w2) as H2' by by eapply same_wrote.
    split; [|split; [done|split; [done|]]].
    + apply (wrote_sound s h x d (written d start new)); try done. intros _ Hx'. rewrite written_len by done. split; [lia|done].
    + exists x, d. rewrite decide_False by done. do 3 (split; [done|]). by exists x.
  - intros e w2 (HJ2 & m & Hm & H2). wp_step. apply wp_attempted, wp_on_host. cbn [lw_host lw_state].
    set (d2 := wrote_part d start new m) in *. assert (len d2 <= Z.max (len d) (start + len new)) as Hl2 by by apply wrote_part_len.
    assert (reg w2 (hs_file x) = Some (hs_key x)) as Hreg2 by by rewrite (hw_reg H2).
    assert (forall w3 actual, J w3 -> host_same w2 w3 -> 0 <= actual <= U64_MAX -> (steady -> actual = len d2) ->
      sound s (put_used (saturating_add (saturating_sub (l_used_bytes (lw_state s)) (len d)) actual) s w3)
      /\ still s (put_used (saturating_add (saturating_sub (l_used_bytes (lw_state s)) (len d)) actual) s w3)
      /\ exists x d m, l_handles (lw_state s) !! h = Some x /\ content (lw_host s) (hs_key x) = Some d /\ (m <= length new)%nat
         /\ file_wrote h (wrote_part d (if hs_append x then len d else offset) new m) s
              (put_used (saturating_add (saturating_sub (l_used_bytes (lw_state s)) (len d)) actual) s w3)) as Hend2.
    { intros w3 actual HJ3 H3 Hact Hst. pose proof (li_used Hi) as Hused0.
      assert (host_wrote (hs_key x) d2 (lw_host s) w3) as H3' by (eapply local_wrote_same; [by eapply same_wrote|done]).
      assert (0 <= saturating_add (saturating_sub (l_used_bytes (lw_state s)) (len d)) actual <= U64_MAX) as Hrange
        by (unfold saturating_add, saturating_sub; lia).
      assert (local_inv (put_used (saturating_add (saturating_sub (l_used_bytes (lw_state s)) (len d)) actual) s w3)) as Hi3.
      { apply (inv_wrote s (hs_key x) d2); try done. apply (li_count Hi). }
      split; [|split; [done|]].
      - apply (wrote_sound s h x d d2); try done. intros Hst' Hex. rewrite (Hst Hst'). unfold saturating_add, saturating_sub.
        pose proof (exact_covers _ _ _ _ Hi Hex Hx Hd). destruct (accounts_fit _ Hi3) as [Hfit _]. cbn in Hfit.
        pose proof (wrote_accounts s (hs_key x) d d2 w3 Hi H3' Hd (or_intror Hopen)) as Ha. destruct Hex as [Hex _]. lia.
      - exists x, d, m. do 3 (split; [done|]). exists x. done. }
    eapply wp_mono; [apply (file_len_spec w2 _ (hs_key x)); done|..].
    + intros actual w3 (HJ3 & H3 & ->). wp_step. apply wp_put_state, wp_fail. cbn [lw_host lw_state].
      destruct (Hend2 w3 (fb w2 (hs_key x)) HJ3 H3) as (S1 & S2 & S3); [|intros _|split; [exact S1|split; [exact S2|by right]]].
      * unfold file_bytes. rewrite (hw_content H2). simpl. pose proof (len_nonneg d2).
        assert (len d2 <= U64_MAX); [|lia]. apply (alive_small w2 (hs_key x)); [done|right; eauto|apply (hw_content H2)].
      * unfold file_bytes. by rewrite (hw_content H2).
    + intros e' w3 (HJ3 & H3 & Hns). wp_step. apply wp_put_state, wp_fail. cbn [lw_host lw_state].
      destruct (Hend2 w3 (len d) HJ3 H3) as (S1 & S2 & S3); [lia|by intros Hs; apply Hns in Hs|split; [exact S1|split; [exact S2|by right]]].
Qed.

Lemma local_truncate_spec h n s :
  local_inv s -> 0 <= n <= U64_MAX ->
  wp (truncate v h n) s
    (fun _ s' => sound s s' /\ still s s' /\ exists x d, l_handles (lw_state s) !! h = Some x
       /\ content (lw_host s) (hs_key x) = Some d /\ file_wrote h (resize d n) s s')
    (fun _ s' => unmoved s s').
Proof.
  intros Hi Hn. assert (unmoved s s) as Hrefl by (split; [apply Hi|done]).
  unfold truncate. wp_step. apply wp_get_state. wp_step. unfold get_handle. wp_step. apply wp_get_state, wp_ok_or; [intros x Hx|done].
  destruct (open_content _ _ _ Hi Hx) as (Hreg & [d Hd] & Hopen).
  destruct (negb (hs_writable x)) eqn:Hw; [by apply wp_fail|]. apply negb_false_iff in Hw.
  wp_step. apply wp_on_host. eapply wp_mono; [apply (file_len_spec (lw_host s) _ (hs_key x)); [apply Hi|done]|..].
  2:{ intros e w1 (HJ1 & H1 & _). split; [done|by split]. }
  intros old_len w1 (HJ1 & H1 & ->). assert (fb (lw_host s) (hs_key x) = len d) as -> by (unfold file_bytes; by rewrite Hd).
  assert (unmoved s (mkLocalWorld (lw_state s) w1)) as Hu by (split; [done|by split]).
  pose proof (alive_small (lw_host s) (hs_key x) d (li_host Hi) (or_intror (ex_intro _ _ Hreg)) Hd) as Hsmall. pose proof (len_nonneg d).
  pose proof (resized_usage_spec (l_used_bytes (lw_state s)) (len d) n (li_used Hi) ltac:(lia) ltac:(lia)) as Hres.
  wp_step. apply wp_lift; [by destruct (resized_usage _ _ _ _)| |by intros e _].
  intros used Hused. rewrite Hused in Hres. destruct Hres as (Hrange & Hq & _ & E).
  wp_step. apply wp_on_host, wp_map_err. cbn [lw_host lw_state].
  eapply wp_mono; [apply (law_set_len w1 (hs_file x) (hs_key x) d n); [done|by rewrite (hs_reg H1)|by rewrite (hs_content H1)|lia]|..].
  - intros _ w2 (HJ2 & H2). apply wp_put_state. cbn [lw_host].
    assert (host_wrote (hs_key x) (resize d n) (lw_host s) w2) as H2' by by eapply same_wrote.
    split; [|split; [done|]].
    + apply (wrote_sound s h x d (resize d n)); try done. intros _ Hex. rewrite len_resize by lia.
      pose proof (exact_covers _ _ _ _ Hi Hex Hx Hd). split; [|done]. destruct (len d <=? n) eqn:Hle; unbool; lia.
    + exists x, d. do 2 (split; [done|]). by exists x.
  - intros e w2 (HJ2 & H2). split; [done|]. etrans; [apply Hu|by split].
Qed.

(** ** close *)

(** The file [f] is dropped; it is no longer that of a handle. *)
Lemma drop_inv s f :
  local_inv s -> (forall h x, l_handles (lw_state s) !! h = Some x -> hs_file x <> f) ->
  local_inv (mkLocalWorld (lw_state s) (h_drop (lv_host v) f (lw_host s))).
Proof.
  intros Hi Hf. destruct (law_drop (lw_host s) f (li_host Hi)) as (HJ & Ht & _ & Hroot & Hreg).
  constructor; cbn [lw_host lw_state]; try apply Hi; try done.
  - apply Hroot, Hi.
  - rewrite Ht. apply Hi.
  - intros h x Hx. rewrite Hreg, decide_False by (by eapply Hf). by apply (li_file Hi h).
  - intros k. pose proof (li_open Hi k) as H. unfold LocalInv.named in *. by rewrite Ht.
Qed.

Lemma drop_fb s f k :
  local_inv s -> (forall h x, l_handles (lw_state s) !! h = Some x -> hs_file x <> f) ->
  named (lw_host s) k \/ is_Some (l_open_files (lw_state s) !! k) ->
  fb (h_drop (lv_host v) f (lw_host s)) k = fb (lw_host s) k.
Proof.
  intros Hi Hf Hk. destruct (law_drop (lw_host s) f (li_host Hi)) as (HJ & Ht & Hc & Hroot & Hreg).
  unfold file_bytes. rewrite Hc; [done|]. unfold LocalLaws.alive. rewrite Ht. destruct Hk as [Hk|[o Ho]]; [by left|right].
  pose proof (li_open Hi k) as H. rewrite Ho in H. destruct H as (E & Hpos & _). rewrite E in Hpos.
  apply handle_count_pos in Hpos as (h & x & Hx & <-). exists (hs_file x). rewrite Hreg, decide_False by (by eapply Hf).
  by apply (li_file Hi h).
Qed.

Lemma drop_sound s f :
  local_inv s -> (forall h x, l_handles (lw_state s) !! h = Some x -> hs_file x <> f) ->
  sound s (mkLocalWorld (lw_state s) (h_drop (lv_host v) f (lw_host s))).
Proof.
  intros Hi Hf. destruct (law_drop (lw_host s) f (li_host Hi)) as (_ & Ht & _). split; [by apply drop_inv| |cbn; by rewrite Ht].
  intros _ [E1 E2]. split; [|done]. split; cbn.
  - rewrite E1, !tree_bytes_keys, !orphan_bytes_keys, Ht, <- !sumz_app. apply sumz_ext. intros k Hk. symmetry.
    apply drop_fb; [done|done|]. apply elem_of_app in Hk as [Hk|Hk]; [left; by apply elem_tree_keys|right].
    apply elem_orphans in Hk as (o & Ho & _). eauto.
  - rewrite E2. unfold LocalWalk.tree_entries. by rewrite Ht.
Qed.

Lemma sound_trans s1 s2 s3 : sound s1 s2 -> sound s2 s3 -> sound s1 s3.
Proof.
  intros [I1 E1 D1] [I2 E2 D2]. split; [done| |auto]. intros Hs Hx. destruct (E1 Hs Hx) as [Hx2 Q2]. destruct (E2 Hs Hx2). auto.
Qed.

Lemma handle_count_delete hs h x k : hs !! h = Some x -> handle_count (delete h hs) k = handle_count hs k - if decide (hs_key x = k) then 1 else 0.
Proof. intros Hx. unfold handle_count. rewrite (msum_delete _ hs h x Hx). lia. Qed.

Lemma orphan_sums_update files k o o' :
  files !! k = Some o -> of_unlinked o' = of_unlinked o ->
  (forall w, orphan_bytes content w (<[k := o']> files) = orphan_bytes content w files)
  /\ orphan_count (<[k := o']> files) = orphan_count files.
Proof.
  intros Ho E. unfold orphan_bytes, orphan_count. split; [intros w|]; rewrite (msum_update _ _ _ _ _ Ho), E; lia.
Qed.

(** The state once the handle [h] is out of the tables. *)
Definition closed_state (h : FileHandle) (x : HandleState) (n : Z) (s : LocalState) : LocalState :=
  let s := set_handles (delete h (l_handles s)) s in
  match l_open_files s !! hs_key x with
  | None => s
  | Some o =>
      if 0 <? of_open_handles o - 1 then
        set_open_files (<[hs_key x := mkOpenFileState (of_open_handles o - 1) (of_unlinked o)]> (l_open_files s)) s
      else
        let s := set_open_files (delete (hs_key x) (l_open_files s)) s in
        if of_unlinked o then
          set_file_count (saturating_sub (l_file_count s) 1) (set_used_bytes (saturating_sub (l_used_bytes s) n) s)
        else s
  end.

Lemma closed_inv h x n s :
  local_inv s -> l_handles (lw_state s) !! h = Some x -> 0 <= n -> local_inv (mkLocalWorld (closed_state h x n (lw_state s)) (lw_host s)).
Proof.
  intros Hi Hx Hn. pose proof (li_open Hi) as Hopen. pose proof (li_used Hi). pose proof (li_count Hi).
  assert (l_handles (closed_state h x n (lw_state s)) = delete h (l_handles (lw_state s))
          /\ l_next_handle (closed_state h x n (lw_state s)) = l_next_handle (lw_state s)
          /\ 0 <= l_used_bytes (closed_state h x n (lw_state s)) <= l_used_bytes (lw_state s)
          /\ 0 <= l_file_count (closed_state h x n (lw_state s)) <= l_file_count (lw_state s)) as (E1 & E2 & E3 & E4).
  { unfold closed_state, saturating_sub. simpl. repeat case_match; simpl; lia || (repeat split; lia). }
  constructor; cbn [lw_host lw_state]; rewrite ?E1, ?E2; try apply Hi; try lia.
  - intros h' y [_ Hy]%lookup_delete_Some. by apply (li_file Hi h').
  - intros a b y z [_ Ha]%lookup_delete_Some [_ Hb]%lookup_delete_Some. by apply (li_apart Hi).
  - intros h' y [_ Hy]%lookup_delete_Some. by apply (li_below Hi h' y).
  - intros k. rewrite (handle_count_delete _ _ _ _ Hx). specialize (Hopen k).
    destruct (open_content _ _ _ Hi Hx) as (_ & _ & [o Ho]). unfold closed_state. cbn [set_handles l_open_files l_handles]. rewrite Ho.
    destruct (decide (hs_key x = k)) as [<-|Hne].
    + rewrite Ho in Hopen. destruct Hopen as (Hc & Hpos & Hun). destruct (0 <? of_open_handles o - 1) eqn:Hlast; unbool.
      * cbn [set_open_files l_open_files]. rewrite lookup_insert_eq. simpl. split; [lia|]. split; [lia|done].
      * assert (forall y : LocalState, l_open_files y = delete (hs_key x) (l_open_files (lw_state s)) ->
          match l_open_files y !! hs_key x with
          | Some o0 => of_open_handles o0 = handle_count (l_handles (lw_state s)) (hs_key x) - 1 /\ 0 < of_open_handles o0
                       /\ (of_unlinked o0 = true <-> ~ named (lw_host s) (hs_key x))
          | None => handle_count (l_handles (lw_state s)) (hs_key x) - 1 = 0
          end) as Hz by (intros y ->; rewrite lookup_delete_eq; lia).
        apply Hz. by case_match.
    + rewrite Z.sub_0_r. repeat case_match; simplify_eq/=;
        rewrite ?lookup_insert_ne, ?lookup_delete_ne in * by done; simplify_option_eq; naive_solver.
Qed.

Lemma closed_exact h x n s :
  local_inv s -> l_handles (lw_state s) !! h = Some x -> n = fb (lw_host s) (hs_key x) -> exact s ->
  exact (mkLocalWorld (closed_state h x n (lw_state s)) (lw_host s)).
Proof.
  intros Hi Hx -> [E1 E2]. destruct (open_content _ _ _ Hi Hx) as (_ & _ & [o Ho]).
  pose proof (tree_bytes_nonneg (tree := tree) (content := content) (lw_host s)) as Htb. pose proof (tree_entries_nonneg (lw_host s) (li_host Hi)) as Hte.
  unfold exact, closed_state. cbn [set_handles l_open_files l_handles lw_host lw_state]. rewrite Ho.
  destruct (0 <? of_open_handles o - 1) eqn:Hlast.
  - destruct (orphan_sums_update _ _ o (mkOpenFileState (of_open_handles o - 1) (of_unlinked o)) Ho eq_refl) as [H1 H2]. cbn. rewrite H1, H2. done.
  - pose proof (msum_delete (fun k o => if of_unlinked o then fb (lw_host s) k else 0) _ _ _ Ho) as Hb.
    pose proof (msum_delete (fun (_ : FileKey) o => if of_unlinked o then 1 else 0) _ _ _ Ho) as Hc.
    change (orphan_bytes content (lw_host s) (l_open_files (lw_state s)) = (if of_unlinked o then fb (lw_host s) (hs_key x) else 0)
      + orphan_bytes content (lw_host s) (delete (hs_key x) (l_open_files (lw_state s)))) in Hb.
    change (orphan_count (l_open_files (lw_state s)) = (if of_unlinked o then 1 else 0)
      + orphan_count (delete (hs_key x) (l_open_files (lw_state s)))) in Hc.
    pose proof (orphan_bytes_nonneg (content := content) (lw_host s) (delete (hs_key x) (l_open_files (lw_state s)))).
    pose proof (orphan_count_nonneg (delete (hs_key x) (l_open_files (lw_state s)))).
    destruct (of_unlinked o); cbn; unfold saturating_sub; lia.
Qed.

Lemma closed_frame h x n st :
  l_handles (closed_state h x n st) = delete h (l_handles st) /\ l_next_handle (closed_state h x n st) = l_next_handle st
  /\ (0 <= n -> 0 <= l_used_bytes st -> l_used_bytes (closed_state h x n st) <= l_used_bytes st)
  /\ (0 <= l_file_count st -> l_file_count (closed_state h x n st) <= l_file_count st).
Proof. unfold closed_state, saturating_sub. simpl. repeat case_match; simpl; repeat split; lia. Qed.

Lemma closed_sound h x n s :
  local_inv s -> l_handles (lw_state s) !! h = Some x -> 0 <= n -> (steady -> n = fb (lw_host s) (hs_key x)) ->
  sound s (mkLocalWorld (closed_state h x n (lw_state s)) (lw_host s)).
Proof.
  intros Hi Hx Hn Hst. split; [by apply closed_inv| |done]. intros Hs He. split; [by apply closed_exact; auto|].
  destruct (closed_frame h x n (lw_state s)) as (_ & _ & H1 & H2). pose proof (li_used Hi). pose proof (li_count Hi).
  unfold within_quota. cbn [lw_state]. lia.
Qed.

(** The handle is gone; the names and what the remaining files hold are as they were. *)
Definition closed_handle (h : FileHandle) s s' : Prop :=
  is_Some (l_handles (lw_state s) !! h) /\ l_handles (lw_state s') = delete h (l_handles (lw_state s))
  /\ l_next_handle (lw_state s') = l_next_handle (lw_state s) /\ tree_of s' = tree_of s
  /\ forall k, alive (lw_host s') k -> content (lw_host s') k = content (lw_host s) k.

Lemma release_handle_spec h x s :
  local_inv s -> l_handles (lw_state s) !! h = Some x ->
  wp (release_handle v x) (mkLocalWorld (set_handles (delete h (l_handles (lw_state s))) (lw_state s)) (lw_host s))
    (fun _ s' => exists n w', J w' /\ host_same (lw_host s) w' /\ 0 <= n /\ (steady -> n = fb (lw_host s) (hs_key x))
       /\ s' = mkLocalWorld (closed_state h x n (lw_state s)) w')
    (fun _ _ => False).
Proof.
  intros Hi Hx. destruct (open_content _ _ _ Hi Hx) as (Hreg & _ & [o Ho]). pose proof (li_open Hi (hs_key x)) as Hk.
  rewrite Ho in Hk. destruct Hk as (_ & Hpos & _). unfold release_handle. wp_step. apply wp_get_state.
  cbn [lw_state set_handles l_open_files]. rewrite Ho. wp_step. apply wp_u64_sub; [lia|].
  assert (J (lw_host s)) as HJ by apply Hi. pose proof (file_bytes_nonneg (content := content) (lw_host s) (hs_key x)) as Hn0.
  destruct (0 <? of_open_handles o - 1) eqn:Hlast.
  - apply wp_put_state. exists (fb (lw_host s) (hs_key x)), (lw_host s). do 4 (split; [done|]).
    unfold closed_state. cbn [set_handles l_open_files]. rewrite Ho, Hlast. done.
  - wp_step. apply wp_put_state. destruct (of_unlinked o) eqn:Hu.
    + wp_step. apply wp_attempted, wp_on_host. cbn [lw_host lw_state].
      eapply wp_mono; [apply (file_len_spec (lw_host s) _ (hs_key x)); done|..].
      * intros n w1 (HJ1 & H1 & ->). apply wp_put_state. exists (fb (lw_host s) (hs_key x)), w1. do 4 (split; [done|]).
        unfold closed_state. cbn [set_handles l_open_files]. rewrite Ho, Hlast, Hu. done.
      * intros e w1 (HJ1 & H1 & Hs). apply wp_put_state. exists 0, w1. split; [done|]. split; [done|]. split; [done|]. split; [intros Hc; by apply Hs in Hc|].
        unfold closed_state. cbn [set_handles l_open_files]. rewrite Ho, Hlast, Hu. done.
    + apply wp_ret. exists (fb (lw_host s) (hs_key x)), (lw_host s). do 4 (split; [done|]).
      unfold closed_state. cbn [set_handles l_open_files]. rewrite Ho, Hlast, Hu. done.
Qed.

Lemma local_close_spec h s :
  local_inv s ->
  wp (close v h) s
    (fun _ s' => sound s s' /\ closed_handle h s s')
    (fun e s' => e = EBADF /\ s' = s /\ l_handles (lw_state s) !! h = None).
Proof.
  intros Hi. unfold close. wp_step. apply wp_get_state. wp_step. apply wp_ok_or; [intros x Hx|done].
  wp_step. apply wp_put_state. unfold dropping. wp_step.
  apply wp_attempted. eapply wp_mono; [by apply release_handle_spec|..]; [|done].
  intros [] s1 (n & w1 & HJ1 & H1 & Hn & Hst & ->). wp_step. unfold drop_file. wp_steps. unfold wp. cbn [lw_host lw_state].
  set (st1 := closed_state h x n (lw_state s)). destruct (closed_frame h x n (lw_state s)) as (Eh & En & _).
  assert (sound s (mkLocalWorld st1 (lw_host s))) as Hs1 by by apply closed_sound.
  assert (calm (mkLocalWorld st1 (lw_host s)) (mkLocalWorld st1 w1)) as Hc1 by by split.
  assert (sound s (mkLocalWorld st1 w1)) as Hs2 by (eapply sound_trans; [exact Hs1|]; eapply sound_calm; [apply Hs1|exact Hc1|done]).
  assert (forall h' y, l_handles st1 !! h' = Some y -> hs_file y <> hs_file x) as Hapart.
  { unfold st1. rewrite Eh. intros h' y [Hne Hy]%lookup_delete_Some Hf. by apply Hne, (li_apart Hi h h' x y). }
  destruct (law_drop w1 (hs_file x) HJ1) as (HJ2 & Ht & Hc & Hroot & Hreg).
  split; [eapply sound_trans; [exact Hs2|]; by apply (drop_sound (mkLocalWorld st1 w1)); [apply Hs2|]|].
  split; [by exists x|]. split; [done|]. split; [done|]. split; [cbn; by rewrite Ht, (hs_tree H1)|].
  intros k Hk. cbn. rewrite (Hc k Hk). apply (hs_content H1).
Qed.
End local.
Arguments total_bytes_sumz {W content}.
Arguments tree_bytes_keys {W tree content}.
Arguments orphan_bytes_keys {W content}.
Arguments accounted_nodup {W D v tree at_dir reg J}.
Arguments accounted_alive {W D v tree at_dir reg J}.
Arguments accounts_fit {W D v patience tree content at_dir reg stream J based Hl}.
Arguments inv_wrote {W D v tree content at_dir reg J}.
Arguments wrote_fb {W tree content at_dir reg}.
Arguments wrote_accounts {W D v tree content at_dir reg J}.
Arguments calm_sound_still {W D v tree content at_dir reg stream J}.
Arguments open_content {W D v patience tree content at_dir reg stream J based Hl}.
Arguments alive_small {W D v patience tree content at_dir reg stream J based Hl}.
Arguments local_read_at_spec {W D v patience tree content at_dir reg stream J based Hl}.
Arguments file_wrote {W tree content at_dir reg}.
Arguments wrote_sound {W D v patience tree content at_dir reg stream J based Hl}.
Arguments exact_covers {W D v patience tree content at_dir reg stream J based Hl}.
Arguments local_write_at_spec {W D v patience tree content at_dir reg stream J based Hl}.
Arguments local_truncate_spec {W D v patience tree content at_dir reg stream J based Hl}.
Arguments drop_inv {W D v patience tree content at_dir reg stream J based Hl}.
Arguments drop_fb {W D v patience tree content at_dir reg stream J based Hl}.
Arguments drop_sound {W D v patience tree content at_dir reg stream J based Hl}.
Arguments sound_trans {W D v tree content at_dir reg J}.
Arguments orphan_sums_update {W content}.
Arguments closed_inv {W D v patience tree content at_dir reg stream J based Hl}.
Arguments closed_exact {W D v patience tree content at_dir reg stream J based Hl}.
Arguments closed_sound {W D v patience tree content at_dir reg stream J based Hl}.
Arguments closed_handle {W tree content reg}.
Arguments release_handle_spec {W D v patience tree content at_dir reg stream J based Hl}.
Arguments local_close_spec {W D v patience tree content at_dir reg stream J based Hl}.
