(* ===== verification/LocalOpen.v ===== *)
(** * Opening files of the local filesystem

    [open] finds or makes the file, cuts it if asked, and puts a handle into the
    tables; when it fails half way the file is closed again. *)

From Stdlib Require Import Ascii String.
From stdpp Require Import sorting gmap.
From S2P Require Import Prelude RustStr VfsTypes VfsPath VfsIface MemVfs MemVfsInv MemVfsView MemVfsFiles.
From S2P Require Import LocalVfs LocalLaws LocalWalk LocalInv LocalPaths LocalHandles.

#[local] Open Scope Z_scope.

Section local.
Context {W D : Type} (v : LocalVfs W D) (patience : W -> nat).
Context (tree : W -> Tree) (content : W -> FileKey -> option bytes).
Context (at_dir : W -> Z -> option OsPath) (reg : W -> Z -> option FileKey).
Context (stream : W -> D -> option (OsPath * list OsName)) (J : W -> Prop) (based : W -> str -> Prop).
Context `{Hl : !LocalLaws tree content at_dir reg stream patience J based (lv_host v)}.
Context (Hquota : quota_ok (lv_quota v)).

Abbreviation LW := (LocalWorld W).
Abbreviation host_same := (host_same tree content at_dir reg stream).
Abbreviation host_wrote := (host_wrote tree content at_dir reg).
Abbreviation host_opened := (host_opened at_dir reg).
Abbreviation alive := (alive tree reg).
Abbreviation local_inv := (local_inv v tree at_dir reg J).
Abbreviation calm := (calm tree content at_dir reg stream).
Abbreviation unmoved := (unmoved tree content at_dir reg stream J).
Abbreviation sound := (sound v tree content at_dir reg J).
Abbreviation exact := (exact tree content).
Abbreviation fb := (file_bytes content).
Abbreviation steady := (SteadyHost content reg J (lv_host v)).
Abbreviation tree_of s := (tree (lw_host s)).
Abbreviation tree_bytes := (tree_bytes tree content).
Abbreviation tree_entries := (tree_entries tree).
Abbreviation named := (named tree).
Implicit Types (s : LW) (w : W).

(** ** The file is open *)

(** The file [k] at [p] was opened as [f], made before if [created]. *)
Record opened_file (created : bool) (f : Z) (k : FileKey) (p : OsPath) (w w' : W) : Prop := {
  opf_host : J w';
  opf_before : tree w !! p = if created then None else Some (FileAt k);
  opf_fresh : created = true -> ~ alive w k;
  opf_tree : tree w' = if created then <[p := FileAt k]> (tree w) else tree w;
  opf_content : content w' k = if created then Some [] else content w k;
  opf_others k' : k' <> k -> content w' k' = content w k';
  opf_opened : host_opened f k w w'
}.

Lemma opened_same c f k p w w1 w2 : opened_file c f k p w w1 -> host_same w1 w2 -> J w2 -> opened_file c f k p w w2.
Proof.
  intros [] H HJ. constructor; try done.
  - by rewrite (hs_tree H).
  - by rewrite (hs_content H).
  - intros k' Hk'. rewrite (hs_content H). auto.
  - destruct opf_opened0 as [N R G]. constructor; [done| |intros g; by rewrite (hs_reg H)]. intros g Hg. apply (hs_dirs H). auto.
Qed.

(** The call that opens a file that is there, or makes one. *)
Lemma openat_spec w f n p k0 mode (created : bool) :
  J w -> entry at_dir w f n p -> tree w !! p = (if created then None else Some (FileAt k0)) ->
  wp (h_openat (lv_host v) f n (open_flags mode created) 438) w
    (fun f' w' => exists k, opened_file created f' k p w w') (fun _ w' => J w' /\ host_same w w').
Proof.
  intros HJ He Hp. destruct created.
  - eapply wp_mono; [by apply law_create_file|..]; [|done].
    intros f' w' (HJ' & k & Hk & Ht & Hc & Ho & Hf). exists k. by constructor.
  - eapply wp_mono; [by apply (law_open_file w f n p k0)|..]; [|done].
    intros f' w' (HJ' & Ht & Hc & Hf). exists k0. by constructor.
Qed.

Section opened.
Context (created : bool) (f : Z) (k : FileKey) (p : OsPath) (s : LW) (w' : W).
Context (Hi : local_inv s) (Ho : opened_file created f k p (lw_host s) w').

Lemma opened_lookup q k' :
  tree w' !! q = Some (FileAt k') <-> tree_of s !! q = Some (FileAt k') \/ created = true /\ q = p /\ k' = k.
Proof.
  rewrite (opf_tree _ _ _ _ _ _ Ho). pose proof (opf_before _ _ _ _ _ _ Ho) as Hp. destruct created; [|naive_solver].
  rewrite lookup_insert_Some. naive_solver.
Qed.

Lemma opened_named k' : alive (lw_host s) k' -> named w' k' <-> named (lw_host s) k'.
Proof.
  intros Hk'. unfold LocalInv.named. setoid_rewrite opened_lookup. split; [|naive_solver].
  intros (q & [Hq|(Hc & -> & ->)]); [by exists q|]. by destruct (opf_fresh _ _ _ _ _ _ Ho Hc).
Qed.

Lemma opened_now : named w' k.
Proof.
  exists p. apply opened_lookup. pose proof (opf_before _ _ _ _ _ _ Ho) as Hp. destruct created; [by right|by left].
Qed.

Lemma opened_fb k' : alive (lw_host s) k' -> fb w' k' = fb (lw_host s) k'.
Proof.
  intros Hk'. unfold file_bytes. destruct (decide (k' = k)) as [->|Hne]; [|by rewrite (opf_others _ _ _ _ _ _ Ho)].
  rewrite (opf_content _ _ _ _ _ _ Ho). destruct created; [|done]. by destruct (opf_fresh _ _ _ _ _ _ Ho eq_refl).
Qed.

(** No handle has the file [f] yet. *)
Lemma opened_apart h x : l_handles (lw_state s) !! h = Some x -> hs_file x <> f.
Proof.
  intros Hx E. pose proof (li_file Hi h x Hx) as H. rewrite E, (ho_new (opf_opened _ _ _ _ _ _ Ho)) in H. done.
Qed.

Lemma opened_inv : local_inv (mkLocalWorld (lw_state s) w').
Proof.
  constructor; cbn [lw_host lw_state]; try apply Hi; try done.
  - apply Ho.
  - apply (ho_root (opf_opened _ _ _ _ _ _ Ho)), Hi.
  - assert (forall q k', tree_of s !! q = Some (FileAt k') -> created = true -> k' <> k) as Hfresh.
    { intros q k' Hq Hc ->. apply (opf_fresh _ _ _ _ _ _ Ho Hc). left. by exists q. }
    intros a b k' [Ha|(Hc & -> & ->)]%opened_lookup [Hb|(Hc' & -> & E)]%opened_lookup; [by apply (li_links Hi a b k')|..|done].
    + by destruct (Hfresh _ _ Ha Hc').
    + by destruct (Hfresh _ _ Hb Hc).
  - intros h x Hx. rewrite (ho_reg (opf_opened _ _ _ _ _ _ Ho)), decide_False by by eapply opened_apart. by apply (li_file Hi h).
  - intros k'. pose proof (li_open Hi k') as H. destruct (l_open_files (lw_state s) !! k') as [o|] eqn:E; [|done].
    rewrite opened_named; [done|]. right. by eapply open_alive.
Qed.

Lemma opened_sums :
  tree_bytes w' = tree_bytes (lw_host s)
  /\ tree_entries w' = tree_entries (lw_host s) + (if created then 1 else 0)
  /\ orphan_bytes content w' (l_open_files (lw_state s)) = orphan_bytes content (lw_host s) (l_open_files (lw_state s)).
Proof.
  pose proof (opf_before _ _ _ _ _ _ Ho) as Hp.
  assert (tree_bytes w' = (if created then fb w' k else 0) + tree_bytes (lw_host s)) as E1.
  { assert (msum (fun _ => weight (fb w')) (tree_of s) = tree_bytes (lw_host s)) as E.
    { apply (msum_ext (fun _ => weight (fb w')) (fun _ => weight (fb (lw_host s)))). intros q [k'| |] Hq; simpl; [|done..].
      apply opened_fb. left. by exists q. }
    rewrite <- E. change (tree_bytes w') with (msum (fun _ : OsPath => weight (fb w')) (tree w')).
    rewrite (opf_tree _ _ _ _ _ _ Ho). destruct created; [|lia]. by rewrite (msum_insert _ _ _ _ Hp). }
  split; [|split].
  - rewrite E1. unfold file_bytes. rewrite (opf_content _ _ _ _ _ _ Ho). by destruct created.
  - unfold LocalWalk.tree_entries. change (tree_sum counted [] ?t) with (msum (fun _ : OsPath => counted) t).
    rewrite (opf_tree _ _ _ _ _ _ Ho). destruct created; [|lia]. rewrite (msum_insert _ _ _ _ Hp). change (counted (FileAt k)) with 1. lia.
  - apply msum_ext. intros k' o Hk. simpl. destruct (of_unlinked o); [|done]. apply opened_fb. right. exact (open_alive _ _ _ Hi Hk).
Qed.
End opened.

(** ** The handle *)

(** The counters are set to something else. *)
Definition recount (used count : Z) (s : LW) : LW := mkLocalWorld (set_file_count count (set_used_bytes used (lw_state s))) (lw_host s).

Lemma recount_inv used count s : local_inv s -> 0 <= used <= U64_MAX -> 0 <= count <= U64_MAX -> local_inv (recount used count s).
Proof. intros Hi Hu Hc. by constructor; cbn; try apply Hi. Qed.

Definition mode_handle (f : Z) (k : FileKey) (mode : OpenMode) : HandleState :=
  mkHandleState f k (m_read mode) (m_write mode) (m_append mode).

(** The tables with a new handle on [k]. *)
Definition with_handle (f : Z) (k : FileKey) (mode : OpenMode) (st : LocalState) : LocalState :=
  let o := default (mkOpenFileState 0 false) (l_open_files st !! k) in
  set_handles (<[l_next_handle st := mode_handle f k mode]> (l_handles st))
    (set_open_files (<[k := mkOpenFileState (of_open_handles o + 1) (of_unlinked o)]> (l_open_files st))
       (set_next_handle (l_next_handle st + 1) st)).

Lemma handle_count_size hs k : handle_count hs k <= Z.of_nat (size hs).
Proof.
  unfold handle_count, msum. rewrite <- length_map_to_list. fold (len (map_to_list hs)). rewrite <- sumz_const. apply sumz_le.
  intros [h x] _. simpl. by case_decide.
Qed.

Lemma open_count_below s k :
  local_inv s -> 0 <= of_open_handles (default (mkOpenFileState 0 false) (l_open_files (lw_state s) !! k)) < l_next_handle (lw_state s).
Proof.
  intros Hi. pose proof (li_next Hi) as Hn. pose proof (li_open Hi k) as Hk. destruct (l_open_files _ !! k) as [o|]; simpl; [|lia].
  destruct Hk as (E & Hpos & _). split; [lia|]. rewrite E. eapply Z.le_lt_trans; [apply handle_count_size|].
  apply handles_size; [lia|]. intros h x Hx. pose proof (li_below Hi h x Hx). lia.
Qed.

Lemma add_handle_spec f k mode s :
  local_inv s -> l_next_handle (lw_state s) < U64_MAX ->
  wp (add_handle f k mode) s
    (fun h s' => h = l_next_handle (lw_state s) /\ s' = mkLocalWorld (with_handle f k mode (lw_state s)) (lw_host s)) (fun _ _ => False).
Proof.
  intros Hi Hroom. pose proof (open_count_below s k Hi). unfold add_handle. wp_step. apply wp_get_state.
  wp_step. apply wp_u64_add; [lia|]. wp_step. apply wp_u64_add; [lia|]. wp_step. apply wp_put_state. by apply wp_ret.
Qed.

Lemma handle_count_insert hs h x k : hs !! h = None -> handle_count (<[h := x]> hs) k = (if decide (hs_key x = k) then 1 else 0) + handle_count hs k.
Proof. intros Hh. unfold handle_count. by rewrite (msum_insert _ _ _ _ Hh). Qed.

Lemma next_free s : local_inv s -> l_handles (lw_state s) !! l_next_handle (lw_state s) = None.
Proof. intros Hi. destruct (l_handles _ !! _) as [x|] eqn:E; [|done]. apply (li_below Hi) in E. lia. Qed.

Lemma with_handle_inv f k mode s :
  local_inv s -> l_next_handle (lw_state s) < U64_MAX -> reg (lw_host s) f = Some k -> named (lw_host s) k ->
  (forall h x, l_handles (lw_state s) !! h = Some x -> hs_file x <> f) ->
  local_inv (mkLocalWorld (with_handle f k mode (lw_state s)) (lw_host s)).
Proof.
  intros Hi Hroom Hreg Hnamed Hapart. pose proof (next_free _ Hi) as Hfree. pose proof (li_next Hi) as Hn.
  constructor; cbn [lw_host lw_state with_handle set_handles set_open_files set_next_handle l_handles l_open_files l_next_handle l_used_bytes l_file_count];
    try apply Hi; try lia.
  - intros h x [[<- <-]|[_ Hx]]%lookup_insert_Some; [done|]. by apply (li_file Hi h).
  - intros a b x y [[<- <-]|[Ha Hx]]%lookup_insert_Some [[<- <-]|[Hb Hy]]%lookup_insert_Some; intros E; simpl in E; [done|..].
    + by destruct (Hapart b y Hy).
    + by destruct (Hapart a x Hx).
    + by apply (li_apart Hi a b x y).
  - intros h x [[<- <-]|[_ Hx]]%lookup_insert_Some; [lia|]. pose proof (li_below Hi h x Hx). lia.
  - intros k'. rewrite (handle_count_insert _ _ _ _ Hfree). pose proof (li_open Hi k') as Hk. simpl.
    destruct (decide (k = k')) as [<-|Hne]; [rewrite lookup_insert_eq|by rewrite lookup_insert_ne].
    destruct (l_open_files (lw_state s) !! k) as [o|]; simpl; [destruct Hk as (? & ? & ?); split; [lia|]; by split; [lia|]|].
    split; [lia|]. split; [lia|]. naive_solver.
Qed.

Lemma with_handle_orphans f k mode st w :
  orphan_bytes content w (l_open_files (with_handle f k mode st)) = orphan_bytes content w (l_open_files st)
  /\ orphan_count (l_open_files (with_handle f k mode st)) = orphan_count (l_open_files st).
Proof.
  cbn [with_handle set_handles set_open_files l_open_files]. destruct (l_open_files st !! k) as [o|] eqn:Ho; simpl.
  - destruct (orphan_sums_update (content := content) _ _ o (mkOpenFileState (of_open_handles o + 1) (of_unlinked o)) Ho eq_refl) as [H1 H2].
    by rewrite H1, H2.
  - unfold orphan_bytes, orphan_count. by rewrite !(msum_insert _ _ _ _ Ho).
Qed.

(** The file is open and has a handle, but was not cut yet. *)
Definition opened_state (created : bool) (f : Z) (k : FileKey) (mode : OpenMode) (st : LocalState) : LocalState :=
  with_handle f k mode (if created then set_file_count (l_file_count st + 1) st else st).

Lemma opened_state_sound created f k p mode s w' :
  local_inv s -> opened_file created f k p (lw_host s) w' -> l_next_handle (lw_state s) < U64_MAX ->
  (created = true -> l_file_count (lw_state s) < max_files (lv_quota v)) -> (length p <= MAX_PATH_DEPTH)%nat ->
  sound s (mkLocalWorld (opened_state created f k mode (lw_state s)) w').
Proof.
  intros Hi Ho Hroom Hslot Hlen. pose proof (quota_files _ Hquota) as Hq. pose proof (li_count Hi) as Hc.
  set (st1 := if created then set_file_count (l_file_count (lw_state s) + 1) (lw_state s) else lw_state s).
  pose proof (opened_inv _ _ _ _ _ _ Hi Ho) as Hi1.
  assert (local_inv (mkLocalWorld st1 w')) as Hi2.
  { unfold st1. destruct created; [|done]. specialize (Hslot eq_refl).
    apply (recount_inv (l_used_bytes (lw_state s)) (l_file_count (lw_state s) + 1) _ Hi1); [apply Hi|lia]. }
  assert (l_handles st1 = l_handles (lw_state s) /\ l_next_handle st1 = l_next_handle (lw_state s) /\ l_used_bytes st1 = l_used_bytes (lw_state s)
    /\ l_file_count st1 = l_file_count (lw_state s) + (if created then 1 else 0) /\ l_open_files st1 = l_open_files (lw_state s)) as (E1 & E2 & E3 & E4 & E5).
  { unfold st1. destruct created; simpl; repeat split; lia. }
  split.
  - apply (with_handle_inv f k mode _ Hi2); cbn [lw_state lw_host]; rewrite ?E1, ?E2.
    + done.
    + by rewrite (ho_reg (opf_opened _ _ _ _ _ _ Ho)), decide_True.
    + by eapply opened_now.
    + by eapply opened_apart.
  - intros _ [X1 X2]. destruct (opened_sums _ _ _ _ _ _ Hi Ho) as (S1 & S2 & S3). split.
    + unfold exact. cbn [lw_state lw_host]. unfold opened_state. fold st1. destruct (with_handle_orphans f k mode st1 w') as [-> ->].
      cbn [with_handle set_handles set_open_files set_next_handle l_used_bytes l_file_count]. rewrite E3, E4, E5. lia.
    + intros [Q1 Q2]. unfold within_quota. cbn. fold st1. rewrite E3, E4. split; [done|]. destruct created; [specialize (Hslot eq_refl)|]; lia.
  - cbn [lw_host]. rewrite (opf_tree _ _ _ _ _ _ Ho). destruct created; [|done]. intros Hs. by apply insert_shallow.
Qed.

(** ** open *)

(** The names and the contents are as they were. *)
Definition left_alone s s' : Prop :=
  tree_of s' = tree_of s /\ forall k, alive (lw_host s') k -> content (lw_host s') k = content (lw_host s) k.

(** What [open] answers, the file [k] being found at [path] or made there. *)
Record opened_path (path : str) (mode : OpenMode) (h : FileHandle) (f : Z) (k : FileKey) s s' : Prop := {
  opp_path : exists cs (created : bool), normalize_path path = Ok cs /\ cs <> [] /\ locate (tree_of s) cs = Ok (names cs)
    /\ tree_of s !! names cs = (if created then None else Some (FileAt k))
    /\ tree_of s' = (if created then <[names cs := FileAt k]> (tree_of s) else tree_of s)
    /\ (if created then m_create mode || m_create_new mode = true else m_create_new mode = false)
    /\ content (lw_host s') k = (if created || m_truncate mode then Some [] else content (lw_host s) k)
    /\ (created = true -> ~ alive (lw_host s) k);
  opp_handle : h = l_next_handle (lw_state s);
  opp_handles : l_handles (lw_state s') = <[h := mode_handle f k mode]> (l_handles (lw_state s));
  opp_next : l_next_handle (lw_state s') = h + 1;
  opp_others k' : k' <> k -> content (lw_host s') k' = content (lw_host s) k'
}.

Lemma creating_spec mode target s :
  match creating v mode target (lw_state s) with
  | Ok true => target = None /\ l_file_count (lw_state s) < max_files (lv_quota v) /\ m_create mode || m_create_new mode = true
  | Ok false => exists m, target = Some m /\ em_kind m = KindFile /\ m_create_new mode = false
  | Err _ => True
  | _ => False
  end.
Proof.
  unfold creating, ensure_entry_slot. destruct target as [m|].
  - destruct (em_kind m) eqn:Hk; try done. destruct (m_create_new mode) eqn:E; [done|]. by exists m.
  - destruct (m_create mode || m_create_new mode); [|done]. destruct (max_files _ <=? _) eqn:E; simpl; [done|]. unbool. split; [done|]. split; [lia|done].
Qed.

(** Closing the file again when [open] fails after it was opened. *)
Lemma reclosed s created f k p w' :
  local_inv s -> opened_file created f k p (lw_host s) w' -> (length p <= MAX_PATH_DEPTH)%nat -> (created = true -> steady -> False) ->
  sound s (mkLocalWorld (lw_state s) (h_drop (lv_host v) f w'))
  /\ (steady -> left_alone s (mkLocalWorld (lw_state s) (h_drop (lv_host v) f w'))).
Proof.
  intros Hi Ho Hlen Hst. pose proof (opened_inv _ _ _ _ _ _ Hi Ho) as Hi1.
  assert (forall h x, l_handles (lw_state s) !! h = Some x -> hs_file x <> f) as Hapart by by eapply opened_apart.
  destruct (law_drop w' f (opf_host _ _ _ _ _ _ Ho)) as (_ & Ht & Hc & _ & Hreg). split.
  - eapply sound_trans; [|by apply (drop_sound (mkLocalWorld (lw_state s) w'))].
    split; [done| |cbn [lw_host]; rewrite (opf_tree _ _ _ _ _ _ Ho); destruct created; [intros Hs; by apply insert_shallow|done]].
    intros Hs [X1 X2]. destruct created; [by destruct (Hst eq_refl Hs)|]. destruct (opened_sums _ _ _ _ _ _ Hi Ho) as (S1 & S2 & S3).
    split; [|done]. unfold exact. cbn [lw_state lw_host]. lia.
  - intros Hs. destruct created; [by destruct (Hst eq_refl Hs)|]. split; cbn [lw_host]; [by rewrite Ht, (opf_tree _ _ _ _ _ _ Ho)|].
    intros k' Hk'. rewrite (Hc k' Hk'). destruct (decide (k' = k)) as [->|Hne]; [|by apply (opf_others _ _ _ _ _ _ Ho)].
    by rewrite (opf_content _ _ _ _ _ _ Ho).
Qed.

Lemma wp_or_drop {A} f (m : ST LW Errno A) s (Q : A -> LW -> Prop) (R : Errno -> LW -> Prop) :
  wp m s Q (fun e s' => R e (mkLocalWorld (lw_state s') (h_drop (lv_host v) f (lw_host s')))) -> wp (or_drop v f m) s Q R.
Proof. unfold wp, or_drop, sbind, attempt, drop_file, slift, sret. by destruct (m s) as [[] ?]. Qed.

(** From the file being open to the handle. *)
Lemma open_rest s created f k p w1 mode :
  local_inv s -> opened_file created f k p (lw_host s) w1 -> l_next_handle (lw_state s) < U64_MAX ->
  (created = true -> l_file_count (lw_state s) < max_files (lv_quota v)) -> (length p <= MAX_PATH_DEPTH)%nat ->
  wp (let! meta := or_drop v f (on_host (vfs_io (h_metadata (lv_host v) f))) in
      if negb (bool_decide (st_type meta = RawRegular)) then
        let! _ := drop_file v f in sfail EACCES
      else
        let! _ :=
          (if m_truncate mode then
             let! _ := or_drop v f (on_host (vfs_io (h_set_len (lv_host v) f 0))) in
             put_state (set_used_bytes (saturating_sub (l_used_bytes (lw_state s)) (st_size meta)) (lw_state s))
           else sret tt) in
        let! _ :=
          (if created then
             let! state := get_state in
             let! count := slift (u64_add (l_file_count state) 1) in
             put_state (set_file_count count state)
           else sret tt) in
        add_handle f (key_of meta) mode) (mkLocalWorld (lw_state s) w1)
    (fun h s' => sound s s' /\ h = l_next_handle (lw_state s)
       /\ l_handles (lw_state s') = <[h := mode_handle f k mode]> (l_handles (lw_state s)) /\ l_next_handle (lw_state s') = h + 1
       /\ tree_of s' = tree w1 /\ content (lw_host s') k = (if m_truncate mode then Some [] else content w1 k)
       /\ forall k', k' <> k -> content (lw_host s') k' = content w1 k')
    (fun _ s' => sound s s' /\ still s s' /\ (steady -> left_alone s s')).
Proof.
  intros Hi Ho Hroom Hslot Hlen. pose proof (quota_files _ Hquota) as Hq.
  assert (reg w1 f = Some k) as Hreg1 by (rewrite (ho_reg (opf_opened _ _ _ _ _ _ Ho)), decide_True; done).
  assert (forall w2, host_same w1 w2 -> J w2 -> opened_file created f k p (lw_host s) w2) as Hsame by (intros; by eapply opened_same).
  wp_step. apply wp_or_drop, wp_on_host, wp_map_err. cbn [lw_host lw_state].
  eapply wp_mono; [eapply (wp_failing _ _ _ _ steady (fun _ => False)); [by apply (law_metadata w1 f k); [apply Ho|]|]|..].
  { intros Hs. pose proof (steady_metadata w1 f k (opf_host _ _ _ _ _ _ Ho) Hreg1) as H. by destruct (h_metadata _ f w1) as [[] ?]. }
  2:{ intros e w2 ((HJ2 & H2) & Hs). cbn [lw_host lw_state].
      destruct (reclosed s created f k p w2 Hi (Hsame w2 H2 HJ2) Hlen (fun _ => Hs)) as [R1 R2]. done. }
  intros meta w2 (HJ2 & H2 & (Hty & Hkey & Hc & Hsize)). rewrite Hty, bool_decide_true by done. cbn [negb]. rewrite Hkey.
  pose proof (Hsame w2 H2 HJ2) as Ho2. set (d := default [] (content w1 k)) in *.
  assert (content w2 k = Some d) as Hd by by rewrite (hs_content H2). assert (reg w2 f = Some k) as Hreg2 by by rewrite (hs_reg H2).
  pose proof (opened_state_sound created f k p mode s w2 Hi Ho2 Hroom Hslot Hlen) as Hs2.
  assert (forall w3 used, let st := if created then set_file_count (l_file_count (lw_state s) + 1) (set_used_bytes used (lw_state s)) else set_used_bytes used (lw_state s) in
    sound s (mkLocalWorld (with_handle f k mode st) w3) -> tree w3 = tree w1 ->
    content w3 k = (if m_truncate mode then Some [] else content w1 k) -> (forall k', k' <> k -> content w3 k' = content w1 k') ->
    wp (let! _ :=
          (if created then
             let! state := get_state in
             let! count := slift (u64_add (l_file_count state) 1) in
             put_state (set_file_count count state)
           else sret tt) in
        add_handle f k mode) (mkLocalWorld (set_used_bytes used (lw_state s)) w3)
    (fun h s' => sound s s' /\ h = l_next_handle (lw_state s)
       /\ l_handles (lw_state s') = <[h := mode_handle f k mode]> (l_handles (lw_state s)) /\ l_next_handle (lw_state s') = h + 1
       /\ tree_of s' = tree w1 /\ content (lw_host s') k = (if m_truncate mode then Some [] else content w1 k)
       /\ forall k', k' <> k -> content (lw_host s') k' = content w1 k')
    (fun _ s' => sound s s' /\ still s s' /\ (steady -> left_alone s s'))) as Hend.
  { intros w3 used st Hsound Ht3 Hc3 Hothers. apply wp_bind.
    assert (wp (if created then
             let! state := get_state in
             let! count := slift (u64_add (l_file_count state) 1) in
             put_state (set_file_count count state)
           else sret tt : ST LW Errno unit) (mkLocalWorld (set_used_bytes used (lw_state s)) w3)
         (fun _ s' => s' = mkLocalWorld st w3) (fun _ _ => False)) as Hcount.
    { unfold st. destruct created; [|by apply wp_ret]. wp_step. apply wp_get_state. wp_step.
      specialize (Hslot eq_refl). apply wp_u64_add; [cbn; lia|]. by apply wp_put_state. }
    eapply wp_mono; [exact Hcount| |done]. intros _ s3 ->. pose proof (open_count_below s k Hi) as Hbelow.
    unfold add_handle. wp_step. apply wp_get_state.
    assert (l_next_handle st = l_next_handle (lw_state s) /\ l_open_files st = l_open_files (lw_state s) /\ l_handles st = l_handles (lw_state s))
      as (E1 & E2 & E3) by (unfold st; by destruct created).
    cbn [lw_state lw_host]. rewrite E1, E2. wp_step. apply wp_u64_add; [lia|]. wp_step. apply wp_u64_add; [lia|].
    wp_step. apply wp_put_state, wp_ret. cbn [lw_state lw_host].
    unfold with_handle, set_handles, set_open_files, set_next_handle in Hsound |- *.
    cbn [l_handles l_open_files l_next_handle l_used_bytes l_file_count] in Hsound |- *. rewrite E1, E2, E3 in Hsound. by rewrite ?E2, ?E3. }
  destruct (m_truncate mode) eqn:Htrunc.
  - wp_step. cbv iota. wp_step.
    apply wp_or_drop, wp_on_host, wp_map_err. cbn [lw_host lw_state].
    eapply wp_mono; [eapply (wp_failing _ _ _ _ (created = true /\ steady) (fun _ => False)); [by apply (law_set_len w2 f k d 0)|]|..].
    + intros [Hcr Hs]. pose proof (steady_emptied w2 f k HJ2 Hreg2) as H.
      rewrite (opf_content _ _ _ _ _ _ Ho2), Hcr in H. specialize (H eq_refl). by destruct (h_set_len _ f 0 w2) as [[] ?].
    + intros _ w3 (HJ3 & H3). rewrite resize_0 in H3. apply wp_put_state. cbn [lw_host lw_state].
      apply Hend; [|by rewrite (hw_tree H3), (hs_tree H2)|apply (hw_content H3)|intros k' Hk'; by rewrite (hw_others H3), (hs_content H2)].
      eapply sound_trans; [exact Hs2|]. rewrite Hsize.
      assert (local_inv (mkLocalWorld (opened_state created f k mode (lw_state s)) w2)) as Hi2 by apply Hs2.
      assert (l_used_bytes (opened_state created f k mode (lw_state s)) = l_used_bytes (lw_state s)
        /\ l_handles (opened_state created f k mode (lw_state s)) !! l_next_handle (lw_state s) = Some (mode_handle f k mode)) as [Eu Eh].
      { unfold opened_state. cbn [with_handle set_handles set_open_files set_next_handle l_used_bytes l_handles].
        by destruct created; cbn; rewrite lookup_insert_eq. }
      pose proof (wrote_sound (mkLocalWorld (opened_state created f k mode (lw_state s)) w2) (l_next_handle (lw_state s)) (mode_handle f k mode)
        d [] (saturating_sub (l_used_bytes (lw_state s)) (len d)) w3 Hi2 Eh Hd H3 HJ3) as Hw.
      assert (0 <= saturating_sub (l_used_bytes (lw_state s)) (len d) <= U64_MAX) as Hrange.
      { pose proof (li_used Hi). pose proof (len_nonneg d). unfold saturating_sub. lia. }
      specialize (Hw Hrange). cbn [lw_state] in Hw. rewrite Eu in Hw.
      assert (steady -> exact (mkLocalWorld (opened_state created f k mode (lw_state s)) w2) -> len d <= l_used_bytes (lw_state s)) as Hcov.
      { intros _ Hex. rewrite <- Eu. apply (exact_covers (mkLocalWorld (opened_state created f k mode (lw_state s)) w2) _ _ _ Hi2 Hex Eh Hd). }
      assert (put_used (saturating_sub (l_used_bytes (lw_state s)) (len d)) (mkLocalWorld (opened_state created f k mode (lw_state s)) w2) w3
        = mkLocalWorld (with_handle f k mode (if created then set_file_count (l_file_count (lw_state s) + 1) (set_used_bytes (saturating_sub (l_used_bytes (lw_state s)) (len d)) (lw_state s))
            else set_used_bytes (saturating_sub (l_used_bytes (lw_state s)) (len d)) (lw_state s))) w3) as <- by by destruct created.
      apply Hw. intros Hs Hex. specialize (Hcov Hs Hex). change (len []) with 0. unfold saturating_sub. split; [lia|].
      intros [Hwq _]. cbn [lw_state] in Hwq. rewrite Eu in Hwq. pose proof (len_nonneg d). lia.
    + intros e w3 ((HJ3 & H3) & Hs). cbn [lw_host lw_state].
      destruct (reclosed s created f k p w3 Hi (opened_same _ _ _ _ _ _ _ Ho2 H3 HJ3) Hlen (fun Hcr Hst => Hs (conj Hcr Hst))) as [R1 R2]. done.
  - wp_step. apply wp_ret.
    assert (set_used_bytes (l_used_bytes (lw_state s)) (lw_state s) = lw_state s) as Eself by by destruct (lw_state s).
    rewrite <- Eself at 1. apply Hend; [|by rewrite (hs_tree H2)|by rewrite (hs_content H2)|intros k' _; apply (hs_content H2)].
    rewrite Eself. exact Hs2.
Qed.

Lemma unmoved_fails s s' : local_inv s -> unmoved s s' -> sound s s' /\ still s s' /\ (steady -> left_alone s s').
Proof.
  intros Hi [HJ Hc]. destruct (calm_sound_still s s' Hi Hc HJ) as [H1 H2]. split; [done|]. split; [done|]. intros _.
  split; [by apply (calm_tree _ _ Hc)|]. intros k _. apply (hs_content (calm_host Hc)).
Qed.

Lemma local_open_spec path mode s :
  local_inv s -> l_next_handle (lw_state s) < U64_MAX ->
  wp (open v path mode) s
    (fun h s' => sound s s' /\ exists f k, opened_path path mode h f k s s')
    (fun _ s' => sound s s' /\ still s s' /\ (steady -> left_alone s s')).
Proof.
  intros Hi Hroom. assert (forall s', J (lw_host s') -> calm s s' -> sound s s' /\ still s s' /\ (steady -> left_alone s s')) as Hun
    by (intros s' HJ Hc; by apply unmoved_fails).
  unfold open. wp_step. apply wp_lift; [unfold validate; by repeat case_match|intros [] _|intros e _; by apply Hun; [apply Hi|]].
  wp_step. eapply wp_mono; [by apply resolve_spec|..]; [|by intros e s1 (HJ1 & H1 & _); apply Hun].
  intros r s1 (HJ1 & H1 & Hcs & Hr & Hloc). wp_step. apply wp_get_state.
  wp_step. eapply wp_mono; [by apply lookup_at_spec|..]; [|by intros e s2 (HJ2 & H2 & _); apply Hun; [|etrans]].
  intros target s2 (HJ2 & H2 & Hm). assert (calm s s2) as H02 by by etrans. apply (resolved_calm _ _ _ H2) in Hr.
  apply (target_calm _ _ _ _ H2) in Hm.
  wp_step. pose proof (creating_spec mode target s1) as Hcr. apply wp_lift; [by destruct (creating _ _ _ _)| |intros e _; by apply Hun].
  intros created E. rewrite E in Hcr.
  assert (r_components r <> [] /\ exists k0, tree_of s2 !! names (r_components r) = if created then None else Some (FileAt k0)) as [Hne [k0 Hk0]].
  { destruct created; [destruct Hcr as [-> _]|destruct Hcr as (m & -> & Hk & _)].
    - simpl in Hm. split; [|by exists (0, 0)]. intros E0. rewrite E0 in Hm. pose proof (law_root _ HJ2) as Hroot. unfold names in Hm. simpl in Hm. congruence.
    - destruct (target_len _ _ _ Hm Hk) as [_ Hf]. split; [|by exists (em_key m)]. intros E0. rewrite E0 in Hf.
      pose proof (law_root _ HJ2) as Hroot. unfold names in Hf. simpl in Hf. congruence. }
  assert (created = true -> l_file_count (lw_state s2) < max_files (lv_quota v)) as Hslot.
  { intros ->. rewrite (calm_state H2). apply Hcr. }
  assert (local_inv s2) as Hi2 by (by eapply local_inv_calm). pose proof (normalize_path_post path) as Hpath. rewrite Hcs in Hpath.
  wp_step. apply wp_on_host, wp_map_err.
  eapply wp_mono; [apply (openat_spec (lw_host s2) _ _ (names (r_components r)) k0); [done|by apply Hr|done]|..].
  2:{ intros e w3 (HJ3 & H3). apply Hun; [done|]. etrans; [exact H02|by split]. }
  intros f w3 (k & Ho). rewrite <- (calm_state H2). assert (l_next_handle (lw_state s2) < U64_MAX) as Hroom2 by by rewrite (calm_state H02).
  assert (length (names (r_components r)) <= MAX_PATH_DEPTH)%nat as Hlen by (unfold names; rewrite length_fmap; apply Hpath).
  eapply wp_mono; [apply (open_rest s2 created f k (names (r_components r)) w3 mode Hi2 Ho Hroom2 Hslot Hlen)|..].
  - intros h s' (Hs & -> & Hhs & Hnext & Ht & Hc & Hothers). split; [by eapply calm_sound|]. exists f, k.
    rewrite (calm_state H02) in *. pose proof (opf_before _ _ _ _ _ _ Ho) as Hbefore. pose proof (opf_tree _ _ _ _ _ _ Ho) as Htree.
    rewrite (calm_tree _ _ H02) in Hbefore, Htree.
    constructor; [|done|done|done|intros k' Hk'; by rewrite (Hothers k' Hk'), (opf_others _ _ _ _ _ _ Ho), (hs_content (calm_host H02))].
    exists (r_components r), created. do 3 (split; [done|]). split; [done|]. split; [by rewrite Ht|]. split; [|split].
    + destruct created; [apply Hcr|]. by destruct Hcr as (m & _ & _ & Hcn).
    + rewrite Hc, (opf_content _ _ _ _ _ _ Ho), (hs_content (calm_host H02)). by destruct created, (m_truncate mode).
    + intros Hcreated. rewrite <- (same_alive _ _ _ (calm_host H02)). by apply (opf_fresh _ _ _ _ _ _ Ho).
  - intros e s' (Hs & Hst & Hl'). split; [by eapply calm_sound|]. split; [eapply still_trans; [exact (calm_still _ _ H02)|done]|].
    intros Hsteady. destruct (Hl' Hsteady) as [L1 L2]. split; [by rewrite L1, (calm_tree _ _ H02)|]. intros k' Hk'.
    rewrite (L2 k' Hk'). apply (hs_content (calm_host H02)).
Qed.
End local.
Arguments opened_file {W tree content at_dir reg J}.
Arguments opened_same {W D tree content at_dir reg stream J}.
Arguments openat_spec {W D v patience tree content at_dir reg stream J based Hl}.
Arguments opened_lookup {W tree content at_dir reg J}.
Arguments opened_named {W tree content at_dir reg J}.
Arguments opened_now {W tree content at_dir reg J}.
Arguments opened_fb {W tree content at_dir reg J}.
Arguments opened_apart {W D v tree content at_dir reg J}.
Arguments opened_inv {W D v tree content at_dir reg J}.
Arguments opened_sums {W D v tree content at_dir reg J}.
Arguments recount_inv {W D v tree at_dir reg J}.
Arguments open_count_below {W D v tree at_dir reg J}.
Arguments add_handle_spec {W D v tree at_dir reg J}.
Arguments next_free {W D v tree at_dir reg J}.
Arguments with_handle_inv {W D v tree at_dir reg J}.
Arguments with_handle_orphans {W content}.
Arguments opened_state_sound {W D v tree content at_dir reg J}.
Arguments left_alone {W tree content reg}.
Arguments opened_path {W tree content reg}.
Arguments reclosed {W D v patience tree content at_dir reg stream J based Hl}.
Arguments open_rest {W D v patience tree content at_dir reg stream J based Hl}.
Arguments unmoved_fails {W D v tree content at_dir reg stream J}.
Arguments local_open_spec {W D v patience tree content at_dir reg stream J based Hl}.
