(* ===== verification/LocalSystem.v ===== *)
(** * The local filesystem as a backend (src/src/vfs/local.rs)

    Opening a root, counting the accounts again, sequences of calls, and the
    instances of the interfaces of the sandbox. *)

From Stdlib Require Import Ascii String.
From stdpp Require Import sorting gmap.
From S2P Require Import Prelude RustStr VfsTypes VfsPath VfsIface MemVfs MemVfsInv MemVfsView MemVfsFiles.
From S2P Require Import LocalVfs LocalLaws LocalWalk LocalInv LocalPaths LocalHandles LocalOpen.

#[local] Open Scope Z_scope.

(** ** Unlinked files that are counted *)

(** The keys that [count_unlinked] counts. *)
Fixpoint fresh_keys (files : gmap FileKey OpenFileState) (hs : list HandleState) (counted : gset FileKey) : list FileKey :=
  match hs with
  | [] => []
  | h :: hs =>
      if default false (of_unlinked <$> files !! hs_key h) && negb (bool_decide (hs_key h ∈ counted)) then
        hs_key h :: fresh_keys files hs ({[hs_key h]} ∪ counted)
      else fresh_keys files hs counted
  end.

Lemma elem_fresh_keys files hs counted k :
  k ∈ fresh_keys files hs counted <->
  (k ∉ counted) /\ default false (of_unlinked <$> files !! k) = true /\ exists h, h ∈ hs /\ hs_key h = k.
Proof.
  revert counted. induction hs as [|h hs IH]; intros counted; cbn [fresh_keys]; [set_solver|].
  destruct (default false (of_unlinked <$> files !! hs_key h)) eqn:Hu; simpl.
  - case_bool_decide as Hc; simpl.
    + rewrite IH. split; [set_solver|]. intros (H1 & H2 & h' & [->|Hh]%elem_of_cons & <-); [done|]. split; [done|]. split; [done|]. by exists h'.
    + rewrite elem_of_cons, IH. split.
      * intros [->|(H1 & H2 & h' & Hh & <-)]; [split; [done|]; split; [done|]; exists h; split; [by left|done]|].
        split; [set_solver|]. split; [done|]. exists h'. split; [by right|done].
      * intros (H1 & H2 & h' & [->|Hh]%elem_of_cons & <-); [by left|]. destruct (decide (hs_key h' = hs_key h)) as [->|Hne]; [by left|right].
        split; [set_solver|]. split; [done|]. by exists h'.
  - rewrite IH. split; [set_solver|]. intros (H1 & H2 & h' & [->|Hh]%elem_of_cons & <-); [congruence|]. split; [done|]. split; [done|]. by exists h'.
Qed.

Lemma fresh_keys_nodup files hs counted : NoDup (fresh_keys files hs counted).
Proof.
  revert counted. induction hs as [|h hs IH]; intros counted; cbn [fresh_keys]; [constructor|]. case_match; [|apply IH].
  constructor; [|apply IH]. rewrite elem_fresh_keys. set_solver.
Qed.

Section local.
Context {W D : Type} (v : LocalVfs W D) (walk patience : W -> nat).
Context (tree : W -> Tree) (content : W -> FileKey -> option bytes).
Context (at_dir : W -> Z -> option OsPath) (reg : W -> Z -> option FileKey).
Context (stream : W -> D -> option (OsPath * list OsName)) (J : W -> Prop) (based : W -> str -> Prop).
Context `{Hl : !LocalLaws tree content at_dir reg stream patience J based (lv_host v)}.
Context (Hwalk : walks_enough tree J walk) (Hquota : quota_ok (lv_quota v)).

Abbreviation LW := (LocalWorld W).
Abbreviation host_same := (host_same tree content at_dir reg stream).
Abbreviation local_inv := (local_inv v tree at_dir reg J).
Abbreviation calm := (calm tree content at_dir reg stream).
Abbreviation unmoved := (unmoved tree content at_dir reg stream J).
Abbreviation sound := (sound v tree content at_dir reg J).
Abbreviation exact := (exact tree content).
Abbreviation fb := (file_bytes content).
Abbreviation steady := (SteadyHost content reg J (lv_host v)).
Abbreviation tree_of s := (tree (lw_host s)).
Abbreviation tree_bytes := (tree_bytes tree content).
Abbreviation tree_entries := (tree_entries tree).
Abbreviation named := (named tree).
Implicit Types (s : LW) (w : W).

Lemma elem_handle_values st x : x ∈ handle_values st <-> exists h, l_handles st !! h = Some x.
Proof.
  unfold handle_values. rewrite (merge_sort_Permutation handle_le), list_elem_of_fmap. split.
  - intros ([h y] & -> & Hy%elem_of_map_to_list). by exists h.
  - intros [h Hh]. exists (h, x). split; [done|]. by apply elem_of_map_to_list.
Qed.

(** The keys counted are those of the unlinked files that are open. *)
Lemma fresh_orphans s :
  local_inv s -> fresh_keys (l_open_files (lw_state s)) (handle_values (lw_state s)) ∅ ≡ₚ orphans (l_open_files (lw_state s)).
Proof.
  intros Hi. pose proof (accounted_nodup _ Hi) as Hnd. apply NoDup_app in Hnd as (_ & _ & Hnd).
  apply NoDup_Permutation; [apply fresh_keys_nodup|done|]. intros k. rewrite elem_fresh_keys, elem_orphans. split.
  - intros (_ & Hu & _). destruct (l_open_files (lw_state s) !! k) as [o|]; [|done]. by exists o.
  - intros (o & Ho & Hu). split; [apply not_elem_of_empty|]. rewrite Ho. split; [done|]. pose proof (li_open Hi k) as Hk. rewrite Ho in Hk.
    destruct Hk as (E & Hpos & _). rewrite E in Hpos. apply handle_count_pos in Hpos as (h & x & Hx & Hk). exists x. split; [|done].
    apply elem_handle_values. by exists h.
Qed.

Lemma count_unlinked_spec files hs counted used count w st :
  J w -> Forall (fun x => reg w (hs_file x) = Some (hs_key x)) hs -> 0 <= used <= U64_MAX -> 0 <= count ->
  count + len (fresh_keys files hs counted) <= U64_MAX ->
  wp (count_unlinked v files hs counted used count) (mkLocalWorld st w)
    (fun r s' => exists w', s' = mkLocalWorld st w' /\ J w' /\ host_same w w' /\ 0 <= r.1 <= U64_MAX
       /\ r.2 = count + len (fresh_keys files hs counted)
       /\ (steady -> used + sumz (fb w) (fresh_keys files hs counted) <= U64_MAX -> r.1 = used + sumz (fb w) (fresh_keys files hs counted)))
    (fun _ _ => False).
Proof.
  revert counted used count w. induction hs as [|h hs IH]; intros counted used count w HJ Hf Hu Hc Hcount; cbn [count_unlinked fresh_keys] in *.
  - apply wp_ret. exists w. do 3 (split; [done|]). split; [done|]. unfold len. simpl. split; [lia|]. intros _ _. change (sumz _ []) with 0. lia.
  - apply Forall_cons in Hf as [Hh Hf]. destruct (default false _ && _).
    + assert (forall k l, len (k :: l : list FileKey) = 1 + len l) as len_cons by (intros k l; unfold len; simpl; lia). rewrite len_cons in *. pose proof (len_nonneg (fresh_keys files hs ({[hs_key h]} ∪ counted))).
      assert (forall w1 n, J w1 -> host_same w w1 -> 0 <= n -> (steady -> n = fb w (hs_key h)) ->
        wp (let! file_count := slift (u64_add count 1) in
            count_unlinked v files hs ({[hs_key h]} ∪ counted) (saturating_add used n) file_count) (mkLocalWorld st w1)
          (fun r s' => exists w', s' = mkLocalWorld st w' /\ J w' /\ host_same w w' /\ 0 <= r.1 <= U64_MAX
             /\ r.2 = count + (1 + len (fresh_keys files hs ({[hs_key h]} ∪ counted)))
             /\ (steady -> used + sumz (fb w) (hs_key h :: fresh_keys files hs ({[hs_key h]} ∪ counted)) <= U64_MAX ->
                 r.1 = used + sumz (fb w) (hs_key h :: fresh_keys files hs ({[hs_key h]} ∪ counted))))
          (fun _ _ => False)) as Hnext.
      { intros w1 n HJ1 H1 Hn Hst. wp_step. apply wp_u64_add; [lia|].
        eapply wp_mono; [apply IH; [done| |unfold saturating_add; lia|lia|lia]| |done].
        - eapply Forall_impl; [exact Hf|]. intros x Hx. cbv beta in Hx. by rewrite (hs_reg H1).
        - intros [u c] s' (w' & -> & HJ' & H' & Hr & -> & Hex). exists w'. split; [done|]. split; [done|]. split; [by etrans|]. split; [done|].
          split; [lia|]. intros Hs. rewrite sumz_cons. intros Hfit. cbn [fst] in *. rewrite (Hst Hs) in Hex.
          rewrite (sumz_ext (fb w1) (fb w)) in Hex by (intros a _; by rewrite (same_file_bytes _ _ _ H1)).
          assert (0 <= sumz (fb w) (fresh_keys files hs ({[hs_key h]} ∪ counted))) as Hnn by (apply sumz_nonneg; intros; apply file_bytes_nonneg).
          specialize (Hex Hs). unfold saturating_add in *. lia. }
      wp_step. apply wp_attempted, wp_on_host. cbn [lw_host lw_state].
      eapply wp_mono; [apply (file_len_spec w _ (hs_key h)); done|..].
      * intros n w1 (HJ1 & H1 & ->). cbn iota zeta. apply Hnext; [done|done|apply file_bytes_nonneg|done].
      * intros e w1 (HJ1 & H1 & Hs). cbn iota zeta. apply Hnext; [done|done|done|intros Hc'; by apply Hs in Hc'].
    + by apply IH.
Qed.

(** ** refresh and set_usage *)

Lemma accounts_exact s used count :
  used = tree_bytes (lw_host s) + orphan_bytes content (lw_host s) (l_open_files (lw_state s)) ->
  count = tree_entries (lw_host s) + orphan_count (l_open_files (lw_state s)) -> exact (recount used count s).
Proof. intros -> ->. by split. Qed.

Lemma refresh_spec s :
  local_inv s ->
  wp (refresh v walk) s
    (fun r s' => exists s1, calm s s1 /\ J (lw_host s1) /\ s' = recount (stats_used_bytes r) (stats_file_count r) s1 /\ local_inv s'
       /\ (steady -> exact s'))
    (fun _ s' => unmoved s s').
Proof.
  intros Hi. destruct (accounts_fit _ Hi) as [Hfb Hfc]. pose proof (tree_bytes_nonneg (tree := tree) (content := content) (lw_host s)) as Htb.
  pose proof (tree_entries_nonneg (lw_host s) (li_host Hi)) as Hte. set (files := l_open_files (lw_state s)) in *.
  pose proof (orphan_bytes_nonneg (content := content) (lw_host s) files). pose proof (orphan_count_nonneg files).
  unfold refresh. wp_step. apply wp_get_state. wp_step. apply wp_on_host, wp_map_err.
  eapply wp_mono; [apply (scan_tree_spec (lw_host s) (lv_root_dir v)); try done; [apply Hi|apply Hi|lia|lia]|..].
  2:{ intros e w1 (HJ1 & H1 & _). split; [done|by split]. }
  intros r w1 (HJ1 & H1 & -> & _). cbn iota beta. wp_step. cbn [lw_state lw_host].
  pose proof (fresh_orphans s Hi) as Hperm. fold files in Hperm.
  assert (len (fresh_keys files (handle_values (lw_state s)) ∅) = orphan_count files) as Hlen.
  { rewrite orphan_count_keys. unfold len. by rewrite Hperm. }
  eapply wp_mono; [apply (count_unlinked_spec files (handle_values (lw_state s)) ∅ _ _ w1 (lw_state s)); [done| |lia|lia|lia]| |done].
  - apply Forall_forall. intros x [h Hh]%elem_handle_values. rewrite (hs_reg H1). by apply (li_file Hi h).
  - intros [u c] s2 (w2 & -> & HJ2 & H2 & Hr & Ec & Hex). cbn [fst snd] in *. wp_step. apply wp_put_state, wp_ret. cbn [lw_host lw_state].
    assert (calm s (mkLocalWorld (lw_state s) w2)) as Hcalm by (split; [done|]; simpl; by etrans).
    exists (mkLocalWorld (lw_state s) w2). split; [done|]. split; [done|]. split; [done|].
    assert (local_inv (mkLocalWorld (lw_state s) w2)) as Hi2 by by eapply local_inv_calm. split.
    + apply (recount_inv u c _ Hi2); [done|]. lia.
    + intros Hs. specialize (Hex Hs).
      assert (sumz (fb w1) (fresh_keys files (handle_values (lw_state s)) ∅) = orphan_bytes content (lw_host s) files) as E.
      { rewrite (sumz_ext (fb w1) (fb (lw_host s))) by (intros a _; by rewrite (same_file_bytes _ _ _ H1)).
        rewrite (sumz_perm _ _ _ Hperm). symmetry. apply orphan_bytes_keys. }
      rewrite E in Hex. apply (accounts_exact (mkLocalWorld (lw_state s) w2)); cbn [lw_host lw_state]; fold files.
      * rewrite (Hex ltac:(lia)), (same_tree_bytes (lw_host s) w2 (calm_host Hcalm)). f_equal. apply msum_ext. intros k o _. 
        by rewrite (same_file_bytes (lw_host s) w2 _ (calm_host Hcalm)).
      * rewrite Ec, Hlen. unfold LocalWalk.tree_entries. cbn [lw_host]. by rewrite (hs_tree (calm_host Hcalm : host_same (lw_host s) w2)).
Qed.

(** ** A backend of the sandbox *)

Definition local_owned s : gset Z := dom (l_handles (lw_state s)).

(** The handle numbers do not run out for [n] more files. *)
Definition local_rooms (n : nat) s : Prop := l_next_handle (lw_state s) + Z.of_nat n <= U64_MAX.

Lemma still_owned s s' : still s s' -> local_owned s' = local_owned s.
Proof. intros [H _]. unfold local_owned. by rewrite H. Qed.

Lemma unmoved_still s s' : unmoved s s' -> still s s'.
Proof. intros [_ Hc]. exact (calm_still _ _ Hc). Qed.

Lemma unmoved_inv s s' : local_inv s -> unmoved s s' -> local_inv s'.
Proof. intros Hi [HJ Hc]. exact (local_inv_calm _ _ Hi Hc HJ). Qed.

(** What a method does to the invariant and to the handles. *)
Definition keeps_still {A} (m : ST LW Errno A) (s : LW) : Prop :=
  wp m s (fun _ s' => local_inv s' /\ still s s') (fun _ s' => local_inv s' /\ still s s').

Lemma u64_arg_still {A} n (m : ST LW Errno A) s : local_inv s -> (0 <= n <= U64_MAX -> keeps_still m s) -> keeps_still (u64_arg n m) s.
Proof. intros Hi Hm. unfold u64_arg. case_match eqn:E; [apply Hm; unbool; lia|]. apply wp_fail. by split. Qed.

Lemma methods_still s (Hi : local_inv s) :
  (forall p, keeps_still (stat v p) s) /\ (forall p, keeps_still (readdir v walk p) s) /\ (forall p, keeps_still (mkdir v p) s)
  /\ (forall a b, keeps_still (rename v walk a b) s) /\ (forall p, keeps_still (unlink v p) s) /\ (forall p, keeps_still (rmdir v p) s)
  /\ (forall h o new, keeps_still (u64_arg o (write_at v patience h o new)) s) /\ (forall h n, keeps_still (u64_arg n (truncate v h n)) s).
Proof.
  pose proof (fun s' => unmoved_inv s s' Hi) as Hu. pose proof (unmoved_still s) as Hs. repeat split; intros.
  - eapply wp_mono; [by apply local_stat_spec|..]; cbv beta; naive_solver.
  - eapply wp_mono; [by apply local_readdir_spec|..]; cbv beta; naive_solver.
  - eapply wp_mono; [by apply local_mkdir_spec|..]; [intros ? ? ([]&?&?)|]; auto.
  - eapply wp_mono; [by apply local_rename_spec|..]; [intros ? ? ([]&?&?)|]; auto.
  - eapply wp_mono; [by apply local_unlink_spec|..]; [intros ? ? ([]&?&?)|]; auto.
  - eapply wp_mono; [by apply local_rmdir_spec|..]; [intros ? ? ([]&?&?)|]; auto.
  - apply u64_arg_still; [done|]. intros Ho. eapply wp_mono; [by apply local_write_at_spec|..]; intros ? ? ([]&?&?); auto.
  - apply u64_arg_still; [done|]. intros Ho. eapply wp_mono; [by apply local_truncate_spec|..]; [intros ? ? ([]&?&?)|]; auto.
Qed.

(** One of the methods that leave the handles alone. *)
Ltac by_methods w :=
  let H1 := fresh in let H2 := fresh in let H3 := fresh in let H4 := fresh in
  let H5 := fresh in let H6 := fresh in let H7 := fresh in let H8 := fresh in
  destruct (methods_still w ltac:(done)) as (H1 & H2 & H3 & H4 & H5 & H6 & H7 & H8);
  first [exact (H1 _)|exact (H2 _)|exact (H3 _)|exact (H4 _ _)|exact (H5 _)|exact (H6 _)|exact (H7 _ _ _)|exact (H8 _ _)].

Lemma read_at_still h o buf s :
  local_inv s ->
  wp (u64_arg o (read_at v patience h o buf)) s (fun r s' => (local_inv s' /\ still s s') /\ read_reply buf r) (fun _ s' => local_inv s' /\ still s s').
Proof.
  intros Hi. unfold u64_arg. case_match eqn:E; [|by apply wp_fail]. unbool.
  eapply wp_mono; [by apply local_read_at_spec; [|lia]|..].
  - intros r s' (Hu & x & d & _ & _ & _ & ->). split; [split; [by eapply unmoved_inv|by apply unmoved_still]|]. split; [apply len_nonneg|].
    unfold read_result. simpl. rewrite length_app, length_drop, length_take, length_drop. lia.
  - intros e s' Hu. split; [by eapply unmoved_inv|by apply unmoved_still].
Qed.

Lemma opened_owned path mode h f k s s' : local_inv s -> opened_path (tree := tree) (content := content) (reg := reg) path mode h f k s s' -> (h ∉ local_owned s) /\ local_owned s' = {[h]} ∪ local_owned s.
Proof.
  intros Hi [_ -> Hh _ _]. unfold local_owned. rewrite Hh, dom_insert_L. split; [|done]. rewrite not_elem_of_dom. exact (next_free _ Hi).
Qed.

Lemma close_owned h s :
  local_inv s ->
  wp (close v h) s (fun _ s' => (local_inv s' /\ l_next_handle (lw_state s') = l_next_handle (lw_state s)) /\ local_owned s' = local_owned s ∖ {[h]})
    (fun _ s' => (local_inv s' /\ l_next_handle (lw_state s') = l_next_handle (lw_state s)) /\ local_owned s' = local_owned s ∖ {[h]}).
Proof.
  intros Hi. eapply wp_mono; [by apply local_close_spec|..].
  - intros _ s' ([Hi' _ _] & _ & Eh & En & _). split; [done|]. unfold local_owned. by rewrite Eh, dom_delete_L.
  - intros e s' (_ & -> & Hn). split; [done|]. unfold local_owned. apply not_elem_of_dom in Hn. set_solver.
Qed.

#[export] Instance local_laws : FdLaws local_inv (local_rooms 1) local_owned (local_vfs v walk patience).
Proof.
  constructor; intros; simpl;
    try (unfold keeps_fds; eapply wp_mono; [by_methods w|..]; intros ? ? [? ?]; (split; [done|by apply still_owned])).
  - eapply wp_mono; [apply local_open_spec; [done|done|unfold local_rooms in *; lia]|..].
    + intros h s' ([Hi' _ _] & f & k & Ho). split; [done|]. by eapply opened_owned.
    + intros e s' ([Hi' _ _] & Hs & _). split; [done|by apply still_owned].
  - eapply wp_mono; [by apply read_at_still|..].
    + intros r s' [[? ?] ?]. split; [|done]. split; [done|by apply still_owned].
    + intros e s' [? ?]. split; [done|by apply still_owned].
  - unfold u64_arg. case_match eqn:E; [|by apply wp_fail]. unbool. eapply wp_mono; [apply local_write_at_spec; try done; lia|..].
    + intros n s' ([Hi' _ _] & Hs & -> & _). split; [split; [done|by apply still_owned]|apply len_nonneg].
    + intros e s' ([Hi' _ _] & Hs & _). split; [done|by apply still_owned].
  - eapply wp_mono; [by apply close_owned|..]; by intros ? ? [[? ?] ?].
  - eapply wp_mono; [by apply close_owned|..]; by intros ? ? [[? ?] ?].
Qed.

Lemma still_rooms n s s' : still s s' -> local_rooms n s -> local_rooms n s'.
Proof. intros [_ E] H. unfold local_rooms in *. by rewrite E. Qed.

#[export] Instance local_room_laws : RoomLaws local_inv (local_rooms 1) local_rooms (local_vfs v walk patience).
Proof.
  constructor; intros; simpl; unfold local_rooms in *; try lia;
    try (eapply wp_mono; [by_methods w|..]; intros ? ? [? ?]; by eapply (still_rooms n w)).
  - eapply wp_mono; [apply local_open_spec; [done|done|lia]|..].
    + intros h s' (_ & f & k & [_ -> _ -> _]). lia.
    + intros e s' (_ & [_ ->] & _). lia.
  - eapply wp_mono; [by apply read_at_still|..]; [intros ? ? [[? ?] ?]|intros ? ? [? ?]]; by eapply (still_rooms n w).
  - eapply wp_mono; [by apply close_owned|..]; intros ? ? [[_ ->] _]; done.
  - eapply wp_mono; [by apply close_owned|..]; intros ? ? [[_ ->] _]; done.
Qed.
End local.
Arguments refresh_spec {W D v walk patience tree content at_dir reg stream J based Hl}.

(** ** Opening a root *)

Section made.
Context {W D : Type} (host : HostOs W D) (walk patience : W -> nat).
Context (tree : W -> Tree) (content : W -> FileKey -> option bytes).
Context (at_dir : W -> Z -> option OsPath) (reg : W -> Z -> option FileKey).
Context (stream : W -> D -> option (OsPath * list OsName)) (J : W -> Prop) (based : W -> str -> Prop).
Context `{Hl : !LocalLaws tree content at_dir reg stream patience J based host}.
Context (Hwalk : walks_enough tree J walk).

Abbreviation host_same := (host_same tree content at_dir reg stream).
Abbreviation tree_bytes := (tree_bytes tree content).
Abbreviation tree_entries := (tree_entries tree).
Abbreviation exact := (exact tree content).

(** Some visible entry is deeper than paths reach. *)
Definition stranded (t : Tree) : Prop := exists p o, t !! p = Some o /\ o <> OtherAt /\ (MAX_PATH_DEPTH < length p)%nat.

Lemma shallow_stranded t : shallow t -> ~ stranded t.
Proof. intros Hs (p & o & Hp & Ho & Hlen). specialize (Hs p o Hp Ho). lia. Qed.

Definition fresh_state (w : W) : LocalState := mkLocalState ∅ ∅ 1 (tree_bytes w) (tree_entries w).

Lemma tree_fits w : J w -> no_links (tree w) -> tree_bytes w <= U64_MAX /\ tree_entries w <= U64_MAX.
Proof.
  intros HJ Hn.
  assert (NoDup (tree_keys (tree w))) as Hnd.
  { apply NoDup_omap; [apply NoDup_map_to_list|]. intros [p o] [q o'] k Hp%elem_of_map_to_list Hq%elem_of_map_to_list E1 E2.
    destruct o, o'; simplify_eq/=. by rewrite (Hn p q k). }
  destruct (law_room w (tree_keys (tree w)) HJ Hnd) as [H1 H2].
  { apply Forall_forall. intros k Hk%elem_tree_keys. by left. }
  split; [by rewrite tree_bytes_keys|]. pose proof (len_nonneg (tree_keys (tree w))).
  unfold LocalWalk.tree_entries. pose proof (tree_sum_size [] (tree w)) as H3.
  assert (tree_sum counted [] (tree w) <= tree_sum (fun _ => 1) [] (tree w)); [|lia]. apply sumz_le. intros [p []] _; simpl; done.
Qed.

Lemma fresh_inv v w :
  lv_host v = host -> J w -> no_links (tree w) -> at_dir w (lv_root_dir v) = Some [] ->
  local_inv v tree at_dir reg J (mkLocalWorld (fresh_state w) w) /\ exact (mkLocalWorld (fresh_state w) w).
Proof.
  intros Hv HJ Hn Hroot. destruct (tree_fits w HJ Hn) as [Hb Hc]. pose proof (tree_bytes_nonneg (tree := tree) (content := content) w).
  assert (0 <= tree_entries w).
  { unfold LocalWalk.tree_entries.
    pose proof (msum_in (fun (_ : OsPath) => counted) (tree w) [] DirAt (fun _ o _ => counted_nonneg o) (law_root w HJ)) as H0.
    change (1 <= tree_sum counted [] (tree w)) in H0. lia. }
  split.
  - constructor; cbn; try done; unfold U64_MAX in *; lia.
  - split; cbn; unfold orphan_bytes, orphan_count; rewrite msum_empty; lia.
Qed.

Lemma with_quota_spec root quota w :
  J w -> no_links (tree w) ->
  wp (with_quota host walk root quota) w
    (fun r w' => J w' /\ host_same w w' /\ lv_host r.1 = host /\ lv_quota r.1 = quota /\ r.2 = fresh_state w
       /\ at_dir w' (lv_root_dir r.1) = Some [] /\ shallow (tree w))
    (fun e w' => J w' /\ host_same w w'
       /\ (e = InvalidInput -> is_ok (h_canonicalize host root w).1 = false \/ stranded (tree w))).
Proof.
  intros HJ Hn. destruct (tree_fits w HJ Hn) as [Hb Hc]. unfold with_quota. wp_step.
  eapply wp_mono; [eapply (wp_failing _ _ _ _ True (fun _ => is_ok (h_canonicalize host root w).1 = false)); [by apply law_canonicalize|]|..].
  - intros _. by destruct (h_canonicalize host root w) as [[] ?].
  - intros c w1 (HJ1 & H1 & Hbased). wp_step.
    eapply wp_mono; [apply io_spec; by apply law_base|..]; [|intros e w2 [[HJ2 H2] He]; split; [done|]; split; [by etrans|done]].
    intros f w2 (HJ2 & H2 & Hf). assert (host_same w w2) as H02 by by etrans. wp_step.
    assert (tree_entries w2 = tree_entries w) as Ee by (unfold LocalWalk.tree_entries; by rewrite (hs_tree H02)).
    pose proof (same_tree_bytes _ _ H02) as Eb.
    eapply wp_mono; [apply (scan_tree_spec w2 f); [done|done|done|by rewrite Eb|by rewrite Ee]|..].
    + intros r w3 (HJ3 & H3 & -> & Hsh). cbn iota beta. wp_step. split; [done|]. split; [by etrans|]. cbn [fst snd].
      do 2 (split; [done|]). split; [unfold fresh_state; by rewrite Eb, Ee|]. split; [by apply (hs_dirs H3)|].
      intros p o Ho Hv. rewrite <- (hs_tree H02) in Ho. by apply (Hsh p o).
    + intros e w3 (HJ3 & H3 & He). split; [done|]. split; [by etrans|]. intros E. right. destruct (He E) as (p & o & Hp & Ho).
      exists p, o. by rewrite <- (hs_tree H02).
  - intros e w1 [[HJ1 H1] He]. split; [done|]. split; [done|]. intros _. left. by apply He.
Qed.
End made.
Arguments with_quota_spec {W D host walk patience tree content at_dir reg stream J based Hl}.
Arguments fresh_inv {W D host patience tree content at_dir reg stream J based Hl}.

(** ** Sequences of calls *)

Inductive LocalCall :=
| LStat (path : str)
| LReaddir (path : str)
| LMkdir (path : str)
| LRename (from to : str)
| LUnlink (path : str)
| LRmdir (path : str)
| LOpen (path : str) (mode : OpenMode)
| LReadAt (handle : FileHandle) (offset : Z) (buf : bytes)
| LWriteAt (handle : FileHandle) (offset : Z) (new : bytes)
| LTruncate (handle : FileHandle) (n : Z)
| LClose (handle : FileHandle)
| LRefresh
| LSetUsage (usage : VfsStats).

(** The state a call leaves, whatever it returns. *)
Definition local_call {W D} (v : LocalVfs W D) (walk patience : W -> nat) (c : LocalCall) (s : LocalWorld W) : LocalWorld W :=
  let b := local_vfs v walk patience in
  match c with
  | LStat p => (v_stat b p s).2
  | LReaddir p => (v_readdir b p s).2
  | LMkdir p => (v_mkdir b p s).2
  | LRename from to => (v_rename b from to s).2
  | LUnlink p => (v_unlink b p s).2
  | LRmdir p => (v_rmdir b p s).2
  | LOpen p m => (v_open b p m s).2
  | LReadAt h o buf => (v_read_at b h o buf s).2
  | LWriteAt h o new => (v_write_at b h o new s).2
  | LTruncate h n => (v_truncate b h n s).2
  | LClose h => (v_close b h s).2
  | LRefresh => (refresh v walk s).2
  | LSetUsage u => (set_usage u s).2
  end.

Definition local_calls {W D} (v : LocalVfs W D) (walk patience : W -> nat) (calls : list LocalCall) (s : LocalWorld W) : LocalWorld W :=
  foldl (fun s c => local_call v walk patience c s) s calls.

(** The numbers of [set_usage] are [u64]s. *)
Definition call_fits (c : LocalCall) : Prop :=
  match c with
  | LSetUsage u => 0 <= stats_used_bytes u <= U64_MAX /\ 0 <= stats_file_count u <= U64_MAX
  | _ => True
  end.

Definition sets_usage (c : LocalCall) : bool := match c with LSetUsage _ => true | _ => false end.

Section calls.
Context {W D : Type} (v : LocalVfs W D) (walk patience : W -> nat).
Context (tree : W -> Tree) (content : W -> FileKey -> option bytes).
Context (at_dir : W -> Z -> option OsPath) (reg : W -> Z -> option FileKey).
Context (stream : W -> D -> option (OsPath * list OsName)) (J : W -> Prop) (based : W -> str -> Prop).
Context `{Hl : !LocalLaws tree content at_dir reg stream patience J based (lv_host v)}.
Context (Hwalk : walks_enough tree J walk) (Hquota : quota_ok (lv_quota v)).

Abbreviation LW := (LocalWorld W).
Abbreviation host_same := (host_same tree content at_dir reg stream).
Abbreviation local_inv := (local_inv v tree at_dir reg J).
Abbreviation sound := (sound v tree content at_dir reg J).
Abbreviation unmoved := (unmoved tree content at_dir reg stream J).
Abbreviation exact := (exact tree content).
Abbreviation steady := (SteadyHost content reg J (lv_host v)).
Abbreviation tree_of s := (tree (lw_host s)).
Implicit Types (s : LW) (w : W).

(** Calls leave few handle numbers taken. *)
Definition step_ok s s' : Prop := sound s s' /\ l_next_handle (lw_state s') <= l_next_handle (lw_state s) + 1.

Lemma unmoved_step s s' : local_inv s -> unmoved s s' -> step_ok s s'.
Proof.
  intros Hi [HJ Hc]. destruct (calm_sound_still s s' Hi Hc HJ) as [H1 [_ H2]]. split; [done|]. rewrite H2. lia.
Qed.

Lemma still_step s s' : sound s s' -> still s s' -> step_ok s s'.
Proof. intros Hs [_ H]. split; [done|]. rewrite H. lia. Qed.

Lemma u64_arg_step {A} n (m : ST LW Errno A) s :
  local_inv s -> (0 <= n <= U64_MAX -> wp m s (fun _ => step_ok s) (fun _ => step_ok s)) -> wp (u64_arg n m) s (fun _ => step_ok s) (fun _ => step_ok s).
Proof.
  intros Hi Hm. unfold u64_arg. case_match eqn:E; [apply Hm; unbool; lia|]. apply wp_fail.
  apply unmoved_step; [done|]. by split; [apply Hi|].
Qed.

Lemma refresh_step s : local_inv s -> wp (refresh v walk) s (fun _ => step_ok s) (fun _ => step_ok s).
Proof.
  intros Hi. eapply wp_mono; [by apply refresh_spec|..]; [|intros e s'; by apply unmoved_step].
  intros r s' (s1 & Hc & HJ1 & E & Hi' & Hex). pose proof (calm_state Hc) as Est. split; [split; [done| |]|].
  - intros Hs Hx. specialize (Hex Hs). split; [done|]. pose proof (exact_calm _ _ Hc Hx) as [X1 X2]. destruct Hex as [Y1 Y2].
    unfold within_quota. rewrite Y1, Y2, E. cbn [recount lw_state lw_host set_file_count set_used_bytes l_open_files].
    rewrite Est in X1, X2. rewrite Est, <- X1, <- X2. done.
  - rewrite E. cbn [recount lw_host]. by rewrite (calm_tree _ _ Hc).
  - rewrite E. cbn [recount lw_state set_file_count set_used_bytes l_next_handle]. rewrite Est. lia.
Qed.

Lemma call_step c s : local_inv s -> local_rooms 1 s -> sets_usage c = false -> step_ok s (local_call v walk patience c s).
Proof.
  intros Hi Hroom Hc. destruct c; simpl; try done; apply wp_post_state.
  - eapply wp_mono; [by apply local_stat_spec|..]; cbv beta; [intros ? s' []|intros ? s' []]; by apply unmoved_step.
  - eapply wp_mono; [by apply local_readdir_spec|..]; cbv beta; [intros ? s' []|intros ? s' ?]; by apply unmoved_step.
  - eapply wp_mono; [by apply local_mkdir_spec|..]; cbv beta; [intros ? s' (? & ? & _); by apply still_step|intros ? s' ?; by apply unmoved_step].
  - eapply wp_mono; [by apply local_rename_spec|..]; cbv beta; [intros ? s' (? & ? & _); by apply still_step|intros ? s' ?; by apply unmoved_step].
  - eapply wp_mono; [by apply local_unlink_spec|..]; cbv beta; [intros ? s' (? & ? & _); by apply still_step|intros ? s' ?; by apply unmoved_step].
  - eapply wp_mono; [by apply local_rmdir_spec|..]; cbv beta; [intros ? s' (? & ? & _); by apply still_step|intros ? s' ?; by apply unmoved_step].
  - eapply wp_mono; [apply local_open_spec; [done|done|unfold local_rooms in Hroom; lia]|..]; cbv beta.
    + intros h s' (Hs & f & k & [_ Eh _ En _]). split; [done|]. rewrite En, Eh. lia.
    + intros e s' (Hs & Hst & _). by apply still_step.
  - apply u64_arg_step; [done|]. intros Ho. eapply wp_mono; [by apply local_read_at_spec|..]; cbv beta; [intros ? s' []|intros ? s' ?]; by apply unmoved_step.
  - apply u64_arg_step; [done|]. intros Ho. eapply wp_mono; [by apply local_write_at_spec|..]; cbv beta; intros ? s' (? & ? & _); by apply still_step.
  - apply u64_arg_step; [done|]. intros Ho.
    eapply wp_mono; [by apply local_truncate_spec|..]; cbv beta; [intros ? s' (? & ? & _); by apply still_step|intros ? s' ?; by apply unmoved_step].
  - eapply wp_mono; [by apply local_close_spec|..]; cbv beta.
    + intros _ s' (Hs & _ & _ & En & _). split; [done|]. rewrite En. lia.
    + intros e s' (_ & -> & _). apply unmoved_step; [done|]. by split; [apply Hi|].
  - by apply refresh_step.
Qed.

Lemma call_inv c s :
  local_inv s -> local_rooms 1 s -> call_fits c ->
  local_inv (local_call v walk patience c s) /\ l_next_handle (lw_state (local_call v walk patience c s)) <= l_next_handle (lw_state s) + 1.
Proof.
  intros Hi Hroom Hc. destruct (sets_usage c) eqn:E; [|by destruct (call_step c s Hi Hroom E) as [[H _ _] Hn]].
  destruct c as [| | | | | | | | | | | |u]; try done. destruct Hc as [Hu Hf]. split; [|simpl; lia].
  apply (recount_inv (stats_used_bytes u) (stats_file_count u) s Hi Hu Hf).
Qed.

(** Whatever is called, the tables stay in order. *)
Lemma calls_inv calls s :
  local_inv s -> local_rooms (length calls) s -> Forall call_fits calls -> local_inv (local_calls v walk patience calls s).
Proof.
  revert s. induction calls as [|c calls IH]; intros s Hi Hroom Hc; [done|]. apply Forall_cons in Hc as [Hc Hcs]. unfold local_rooms in Hroom. simpl in *.
  destruct (call_inv c s Hi ltac:(unfold local_rooms; lia) Hc) as [Hi' Hn]. apply IH; [done| |done]. unfold local_rooms. lia.
Qed.

(** The accounts stay exact, and within the quota, as long as nobody sets them. *)
Lemma calls_sound calls s :
  local_inv s -> local_rooms (length calls) s -> Forall (fun c => sets_usage c = false) calls -> sound s (local_calls v walk patience calls s).
Proof.
  revert s. induction calls as [|c calls IH]; intros s Hi Hroom Hc; [by apply unmoved_step; [|split; [apply Hi|]]|].
  apply Forall_cons in Hc as [Hc Hcs]. unfold local_rooms in Hroom. simpl in *.
  destruct (call_step c s Hi ltac:(unfold local_rooms; lia) Hc) as [Hs Hn]. eapply sound_trans; [exact Hs|].
  apply IH; [apply Hs| |done]. unfold local_rooms. lia.
Qed.

(** ** Opening the root again *)

(** No unlinked file is open. *)
Definition none_unlinked s : Prop := forall k o, l_open_files (lw_state s) !! k = Some o -> of_unlinked o = false.

Lemma reopen_spec root quota s :
  local_inv s -> exact s -> shallow (tree_of s) -> none_unlinked s ->
  wp (with_quota (lv_host v) walk root quota) (lw_host s)
    (fun r w' => J w' /\ host_same (lw_host s) w'
       /\ r.2 = mkLocalState ∅ ∅ 1 (l_used_bytes (lw_state s)) (l_file_count (lw_state s)))
    (fun e w' => J w' /\ host_same (lw_host s) w' /\ (e = InvalidInput -> is_ok (h_canonicalize (lv_host v) root (lw_host s)).1 = false)).
Proof.
  intros Hi [X1 X2] Hsh Hn. eapply wp_mono; [apply with_quota_spec; [done|apply Hi|apply Hi]|..]; cbv beta.
  - intros r w' (HJ & Hsame & _ & _ & -> & _). split; [done|]. split; [done|]. unfold fresh_state.
    assert (orphan_bytes content (lw_host s) (l_open_files (lw_state s)) = 0) as E1.
    { unfold orphan_bytes. rewrite (msum_ext _ (fun _ _ => 0)); [unfold msum; by rewrite sumz_zero|]. intros k o Hk. by rewrite (Hn k o). }
    assert (orphan_count (l_open_files (lw_state s)) = 0) as E2.
    { unfold orphan_count. rewrite (msum_ext _ (fun _ _ => 0)); [unfold msum; by rewrite sumz_zero|]. intros k o Hk. by rewrite (Hn k o). }
    f_equal; lia.
  - intros e w' (HJ & Hsame & He). split; [done|]. split; [done|]. intros E. destruct (He E) as [Hc|Hs]; [done|].
    by apply shallow_stranded in Hs.
Qed.
End calls.
Arguments local_laws {W D v walk patience tree content at_dir reg stream J based Hl}.
Arguments local_room_laws {W D v walk patience tree content at_dir reg stream J based Hl}.
Arguments calls_inv {W D v walk patience tree content at_dir reg stream J based Hl}.
Arguments calls_sound {W D v walk patience tree content at_dir reg stream J based Hl}.
Arguments reopen_spec {W D v walk patience tree content at_dir reg stream J based Hl}.
