(* ===== verification/LocalFake.v ===== *)
(** * A host in memory

    A host that obeys the laws of LocalLaws: a tree of names, the contents of files
    by inode, descriptors, and a limit on all of it.  Reads and writes move a few
    bytes at a time and are interrupted as often as the state says; a disk that is
    [d_stuck] refuses to change the length of a file.  The properties of the local
    filesystem are shown at work on it. *)

From Stdlib Require Import Ascii String.
From stdpp Require Import sorting gmap.
From S2P Require Import Prelude RustStr VfsTypes VfsPath VfsIface MemVfs MemVfsInv MemVfsView MemVfsFiles.
From S2P Require Import LocalVfs LocalLaws LocalWalk LocalInv LocalHandles.

#[local] Open Scope Z_scope.

Record Disk := mkDisk {
  d_tree : Tree;
  d_files : gmap FileKey bytes;
  d_dirs : gmap Z OsPath;
  d_regs : gmap Z FileKey;
  d_next_fd : Z;
  d_next_ino : Z;
  d_interrupts : nat;
  d_stuck : bool
}.

Definition DISK_LIMIT : Z := 2 ^ 40.
Definition DISK_CHUNK : Z := 4.

Abbreviation DM := (ST Disk OsErrno).

Definition put_dirs x (w : Disk) : Disk :=
  mkDisk (d_tree w) (d_files w) x (d_regs w) (d_next_fd w + 1) (d_next_ino w) (d_interrupts w) (d_stuck w).
Definition put_regs x (w : Disk) : Disk :=
  mkDisk (d_tree w) (d_files w) (d_dirs w) x (d_next_fd w + 1) (d_next_ino w) (d_interrupts w) (d_stuck w).
Definition put_tree x (w : Disk) : Disk :=
  mkDisk x (d_files w) (d_dirs w) (d_regs w) (d_next_fd w) (d_next_ino w) (d_interrupts w) (d_stuck w).
Definition put_files x (w : Disk) : Disk :=
  mkDisk (d_tree w) x (d_dirs w) (d_regs w) (d_next_fd w) (d_next_ino w) (d_interrupts w) (d_stuck w).
Definition put_interrupts x (w : Disk) : Disk :=
  mkDisk (d_tree w) (d_files w) (d_dirs w) (d_regs w) (d_next_fd w) (d_next_ino w) x (d_stuck w).
(** A new, empty file. *)
Definition put_new_file (p : OsPath) (w : Disk) : Disk :=
  mkDisk (<[p := FileAt (0, d_next_ino w)]> (d_tree w)) (<[(0, d_next_ino w) := []]> (d_files w)) (d_dirs w) (d_regs w)
    (d_next_fd w) (d_next_ino w + 1) (d_interrupts w) (d_stuck w).

Definition put {E} (f : Disk -> Disk) : ST Disk E unit := fun w => (Ok tt, f w).

Definition disk_bytes (w : Disk) : Z := msum (fun _ => len) (d_files w).

Definition is_dir_at (w : Disk) (p : OsPath) : bool := bool_decide (d_tree w !! p = Some DirAt).

(** The names in a directory. *)
Definition children (t : Tree) (p : OsPath) : list OsName :=
  omap (fun e => match strip p e.1 with Some [n] => Some n | _ => None end) (map_to_list t).

Definition new_dir_fd {E} (p : OsPath) : ST Disk E Z :=
  let! w := sget in
  let! _ := put (put_dirs (<[d_next_fd w := p]> (d_dirs w))) in
  sret (d_next_fd w).

Definition new_file_fd {E} (k : FileKey) : ST Disk E Z :=
  let! w := sget in
  let! _ := put (put_regs (<[d_next_fd w := k]> (d_regs w))) in
  sret (d_next_fd w).

Definition dir_path {E} (e : E) (f : Z) : ST Disk E OsPath := let! w := sget in slift (ok_or e (d_dirs w !! f)).
Definition reg_key (f : Z) : ST Disk IoError FileKey := let! w := sget in slift (ok_or (RawOs OS_EBADF) (d_regs w !! f)).
Definition file_data (k : FileKey) : ST Disk IoError bytes := let! w := sget in slift (ok_or (RawOs OS_EBADF) (d_files w !! k)).

Definition at_path (f : Z) (n : OsName) : DM OsPath :=
  let! q := dir_path OS_EBADF f in sret (if bool_decide (n = dot) then q else q ++ [n]).

Definition disk_root : str := lit "/srv".

Definition disk_canonicalize (r : str) : ST Disk IoError str :=
  if bool_decide (r = disk_root) then sret disk_root else sfail (RawOs OS_ENOENT).

Definition disk_open (c : str) (_ : OFlags) : DM Z :=
  if bool_decide (c = disk_root) then new_dir_fd [] else sfail OS_ENOENT.

Definition disk_try_clone (f : Z) : ST Disk IoError Z := let! p := dir_path (RawOs OS_EBADF) f in new_dir_fd p.

Definition file_stat (k : FileKey) (d : bytes) : Stat := mkStat RawRegular k.1 k.2 (len d).

Definition disk_statat (f : Z) (n : OsName) (_ : bool) : DM Stat :=
  let! p := at_path f n in
  let! w := sget in
  match d_tree w !! p with
  | None => sfail OS_ENOENT
  | Some DirAt => sret (mkStat RawDirectory 0 0 0)
  | Some OtherAt => sret (mkStat RawSymlink 0 0 0)
  | Some (FileAt k) => sret (file_stat k (default [] (d_files w !! k)))
  end.

Definition disk_create (p : OsPath) : DM Z :=
  let! w := sget in
  if negb (is_dir_at w (removelast p)) then sfail OS_ENOENT
  else if (DISK_LIMIT <=? d_next_ino w) || (DISK_LIMIT <=? Z.of_nat (size (d_tree w))) || (DISK_LIMIT <=? Z.of_nat (size (d_files w))) then
    sfail OS_ENOSPC
  else
    let! _ := put (put_new_file p) in
    new_file_fd (0, d_next_ino w).

Definition disk_openat (f : Z) (n : OsName) (flags : OFlags) (_ : Z) : DM Z :=
  let! p := at_path f n in
  let! w := sget in
  if of_directory flags then
    match d_tree w !! p with
    | Some DirAt => new_dir_fd p
    | Some OtherAt => sfail OS_ELOOP
    | Some (FileAt _) => sfail OS_ENOTDIR
    | None => sfail OS_ENOENT
    end
  else
    match d_tree w !! p with
    | Some (FileAt k) => if of_create flags then sfail OS_EEXIST else new_file_fd k
    | Some DirAt => sfail OS_EISDIR
    | Some OtherAt => sfail OS_ELOOP
    | None => if of_create flags then disk_create p else sfail OS_ENOENT
    end.

Definition disk_mkdirat (f : Z) (n : OsName) (_ : Z) : DM unit :=
  let! p := at_path f n in
  let! w := sget in
  if negb (is_dir_at w (removelast p)) then sfail OS_ENOENT
  else if negb (bool_decide (d_tree w !! p = None)) then sfail OS_EEXIST
  else if DISK_LIMIT <=? Z.of_nat (size (d_tree w)) then sfail OS_ENOSPC
  else put (put_tree (<[p := DirAt]> (d_tree w))).

Definition disk_renameat (f : Z) (n : OsName) (g : Z) (m : OsName) : DM unit :=
  let! p := at_path f n in
  let! q := at_path g m in
  let! w := sget in
  if bool_decide (d_tree w !! p = None) || negb (is_dir_at w (removelast q)) then sfail OS_ENOENT
  else if negb (bool_decide (strip p q = None)) then sfail OS_OTHER
  else if is_dir_at w q && negb (is_dir_at w p) then sfail OS_EISDIR
  else if is_dir_at w q && negb (bool_decide (children (d_tree w) q = [])) then sfail OS_ENOTEMPTY
  else if negb (bool_decide (d_tree w !! q = None)) && negb (is_dir_at w q) && is_dir_at w p then sfail OS_ENOTDIR
  else put (put_tree (relabel (renamed p q) (delete q (d_tree w)))).

Definition disk_unlinkat (f : Z) (n : OsName) (directory : bool) : DM unit :=
  let! p := at_path f n in
  let! w := sget in
  if bool_decide (d_tree w !! p = None) then sfail OS_ENOENT
  else if directory then
    if negb (is_dir_at w p) then sfail OS_ENOTDIR
    else if negb (bool_decide (children (d_tree w) p = [])) then sfail OS_EEXIST
    else put (put_tree (delete p (d_tree w)))
  else if is_dir_at w p then sfail OS_EPERM
  else put (put_tree (delete p (d_tree w))).

Definition disk_dir_new (f : Z) : DM (OsPath * list OsName) :=
  let! p := dir_path OS_EBADF f in
  let! w := sget in
  sret (p, dot :: dot_dot :: children (d_tree w) p).

Definition disk_dir_next (d : OsPath * list OsName) : DM (option (OsName * (OsPath * list OsName))) :=
  sret (match d.2 with [] => None | n :: ns => Some (n, (d.1, ns)) end).

Definition disk_dir_fd (d : OsPath * list OsName) : DM Z := new_dir_fd d.1.

Definition disk_metadata (f : Z) : ST Disk IoError Stat :=
  let! k := reg_key f in
  let! d := file_data k in
  sret (file_stat k d).

(** Whether the file [k] may get the length [n]. *)
Definition disk_fits (w : Disk) (d : bytes) (n : Z) : bool := disk_bytes w - len d + n <=? DISK_LIMIT.

Definition disk_set_len (f n : Z) : ST Disk IoError unit :=
  let! k := reg_key f in
  let! d := file_data k in
  let! w := sget in
  if d_stuck w || negb (disk_fits w d n) then sfail (RawOs OS_ENOSPC)
  else put (put_files (<[k := resize d n]> (d_files w))).

(** A call that may be interrupted. *)
Definition interrupting {A} (m : ST Disk IoError A) : ST Disk IoError A :=
  let! w := sget in
  match d_interrupts w with
  | O => m
  | S n => let! _ := put (put_interrupts n) in sfail (RawOs OS_EINTR)
  end.

Definition disk_read_at (f size offset : Z) : ST Disk IoError bytes :=
  let! k := reg_key f in
  let! d := file_data k in
  interrupting (sret (take (Z.to_nat (Z.min size DISK_CHUNK)) (drop (Z.to_nat offset) d))).

Definition disk_write_at (f : Z) (new : bytes) (offset : Z) : ST Disk IoError Z :=
  let! k := reg_key f in
  let! d := file_data k in
  let! w := sget in
  let part := take (Z.to_nat DISK_CHUNK) new in
  if negb (disk_fits w d (Z.max (len d) (offset + len part))) then sfail (RawOs OS_ENOSPC)
  else
    interrupting (
      let! _ := put (put_files (<[k := written d offset part]> (d_files w))) in
      sret (len part)).

Definition disk_drop (f : Z) (w : Disk) : Disk :=
  mkDisk (d_tree w) (d_files w) (d_dirs w) (delete f (d_regs w)) (d_next_fd w) (d_next_ino w) (d_interrupts w) (d_stuck w).

Definition disk_host : HostOs Disk (OsPath * list OsName) :=
  mkHostOs disk_canonicalize disk_open disk_try_clone disk_openat disk_statat disk_mkdirat disk_renameat disk_unlinkat
    disk_dir_new disk_dir_next disk_dir_fd disk_metadata disk_set_len disk_read_at disk_write_at disk_drop.

Definition disk_at_dir (w : Disk) (f : Z) : option OsPath := d_dirs w !! f.
Definition disk_content (w : Disk) (k : FileKey) : option bytes := d_files w !! k.
Definition disk_reg (w : Disk) (f : Z) : option FileKey := d_regs w !! f.
Definition disk_stream (_ : Disk) (d : OsPath * list OsName) : option (OsPath * list OsName) := Some d.
Definition disk_patience (w : Disk) : nat := d_interrupts w.
Definition disk_walk (w : Disk) : nat := 4 * size (d_tree w).
Definition disk_based (_ : Disk) (c : str) : Prop := c = disk_root.

(** A disk with nothing on it. *)
Definition empty_disk : Disk := mkDisk {[ [] := DirAt ]} ∅ ∅ ∅ 3 1 0 false.

(** ** The invariant *)

Record disk_inv (stuck : bool) (w : Disk) : Prop := {
  di_root : d_tree w !! [] = Some DirAt;
  di_parent p n o : d_tree w !! (p ++ [n]) = Some o -> d_tree w !! p = Some DirAt /\ good_name n;
  di_named p k : d_tree w !! p = Some (FileAt k) -> is_Some (d_files w !! k);
  di_regs f k : d_regs w !! f = Some k -> is_Some (d_files w !! k);
  di_keys k d : d_files w !! k = Some d -> k.1 = 0 /\ 0 <= k.2 < d_next_ino w;
  di_ino : 0 <= d_next_ino w <= DISK_LIMIT;
  di_fds f : d_next_fd w <= f -> d_dirs w !! f = None /\ d_regs w !! f = None;
  di_tree_size : Z.of_nat (size (d_tree w)) <= DISK_LIMIT;
  di_files_size : Z.of_nat (size (d_files w)) <= DISK_LIMIT;
  di_bytes : disk_bytes w <= DISK_LIMIT;
  di_stuck : d_stuck w = stuck
}.
Arguments di_root {stuck w}.
Arguments di_parent {stuck w}.
Arguments di_named {stuck w}.
Arguments di_regs {stuck w}.
Arguments di_keys {stuck w}.
Arguments di_ino {stuck w}.
Arguments di_fds {stuck w}.
Arguments di_tree_size {stuck w}.
Arguments di_files_size {stuck w}.
Arguments di_bytes {stuck w}.
Arguments di_stuck {stuck w}.

Lemma empty_disk_inv : disk_inv false empty_disk.
Proof.
  constructor; cbn [empty_disk d_tree d_files d_dirs d_regs d_next_fd d_next_ino d_stuck]; try done.
  - intros p n o [H _]%lookup_singleton_Some. by destruct p.
  - intros p k [_ H]%lookup_singleton_Some. done.
Qed.

Lemma map_size_sum {A K} `{Countable K} (m : gmap K A) : Z.of_nat (size m) = msum (fun _ _ => 1) m.
Proof. unfold msum. rewrite sumz_const. unfold len. by rewrite length_map_to_list. Qed.

Section disk.
Context (stuck : bool).
Abbreviation J := (disk_inv stuck).
Abbreviation same := (host_same d_tree disk_content disk_at_dir disk_reg disk_stream).
Abbreviation alive := (alive d_tree disk_reg).
Implicit Types (w : Disk).

Lemma wp_apply {E} (f : Disk -> Disk) w (Q : unit -> Disk -> Prop) (R : E -> Disk -> Prop) : Q tt (f w) -> wp (put f) w Q R.
Proof. done. Qed.

Lemma closed w : J w -> closed_tree (d_tree w).
Proof. intros H p n o Ho. apply (di_parent H p n o Ho). Qed.

(** ** Descriptors *)

Lemma new_dir_fd_right {E} p w :
  J w -> wp (new_dir_fd (E := E) p) w (fun f w' => J w' /\ same w w' /\ disk_at_dir w' f = Some p) (fun _ _ => False).
Proof.
  intros HJ. unfold new_dir_fd. wp_step. apply wp_get. wp_step. apply wp_apply. wp_step. split; [|split].
  - constructor; try apply HJ. intros f Hf. cbn in *. rewrite lookup_insert_ne by lia. apply (di_fds HJ). lia.
  - constructor; try done; [|by intros ? ?]. intros f q Hq. unfold disk_at_dir in *. cbn. rewrite lookup_insert_ne; [done|].
    intros <-. destruct (di_fds HJ (d_next_fd w) ltac:(lia)) as [H _]. congruence.
  - unfold disk_at_dir. cbn. apply lookup_insert_eq.
Qed.

Lemma new_file_fd_right {E} k w :
  J w -> is_Some (d_files w !! k) ->
  wp (new_file_fd (E := E) k) w
    (fun f w' => J w' /\ d_tree w' = d_tree w /\ d_files w' = d_files w /\ host_opened disk_at_dir disk_reg f k w w') (fun _ _ => False).
Proof.
  intros HJ Hk. unfold new_file_fd. wp_step. apply wp_get. wp_step. apply wp_apply. wp_step. split; [|split; [done|split; [done|]]].
  - constructor; try apply HJ.
    + cbn. intros f k' [[<- <-]|[_ H]]%lookup_insert_Some; [done|]. by apply (di_regs HJ f).
    + intros f Hf. cbn in *. rewrite lookup_insert_ne by lia. apply (di_fds HJ). lia.
  - constructor.
    + apply (di_fds HJ). lia.
    + by intros f.
    + intros g. unfold disk_reg. cbn. case_decide as E'; [subst; apply lookup_insert_eq|by apply lookup_insert_ne].
Qed.

Lemma dir_path_right {E} (e : E) f p w : disk_at_dir w f = Some p -> wp (dir_path e f) w (fun q w' => q = p /\ w' = w) (fun _ _ => False).
Proof. intros Hf. unfold dir_path. wp_step. apply wp_get. unfold disk_at_dir in Hf. by rewrite Hf. Qed.

Lemma at_path_right f n p w : spot disk_at_dir w f n p -> wp (at_path f n) w (fun q w' => q = p /\ w' = w) (fun _ _ => False).
Proof.
  intros (q & Hq & Hp). unfold at_path. wp_step. eapply wp_mono; [by apply dir_path_right| |done]. intros q' w' [-> ->]. wp_step. split; [|done].
  destruct Hp as [[-> ->]|[Hg ->]]; [by rewrite bool_decide_true|]. rewrite bool_decide_false; [done|].
  intros ->. by apply (dots_not_good dot); [left|].
Qed.

Lemma disk_key w k d : J w -> is_Some (d_files w !! k) -> key_of (file_stat k d) = k.
Proof.
  intros HJ [d' Hk]. destruct (di_keys HJ k d' Hk) as [H1 H2]. pose proof (di_ino HJ) as H3. unfold DISK_LIMIT in H3.
  destruct k as [a b]. unfold key_of. cbn in *. subst. rewrite !Z.mod_small; [done| |done]. split; [lia|]. eapply Z.lt_trans; [apply H2|].
  eapply Z.le_lt_trans; [apply H3|]. done.
Qed.

Lemma disk_statat_right f n p w :
  J w -> spot disk_at_dir w f n p ->
  wp (disk_statat f n true) w
    (fun m w' => J w' /\ same w w' /\ exists o, d_tree w !! p = Some o /\ stat_of disk_content w o m)
    (fun e w' => J w' /\ same w w' /\ e = OS_ENOENT /\ d_tree w !! p = None).
Proof.
  intros HJ Hs. unfold disk_statat. wp_step. eapply wp_mono; [by apply at_path_right| |done]. intros q w' [-> ->]. wp_step. apply wp_get.
  destruct (d_tree w !! p) as [[k| |]|] eqn:Hp; wp_step; (split; [done|split; [done|]]); [|by eexists|by eexists|done].
  exists (FileAt k). split; [done|]. destruct (di_named HJ p k Hp) as [d Hd]. unfold disk_content, stat_of. rewrite Hd at 1 2.
  split; [done|]. split; [by apply (disk_key w)|].
  by rewrite Hd.
Qed.

Lemma disk_open_dir_right f n p w :
  J w -> spot disk_at_dir w f n p ->
  wp (disk_openat f n directory_flags 0) w
    (fun f' w' => J w' /\ same w w' /\ d_tree w !! p = Some DirAt /\ disk_at_dir w' f' = Some p)
    (fun e w' => (J w' /\ same w w') /\ e ∈ [OS_ENOENT; OS_ENOTDIR; OS_ELOOP]
       /\ match e with OS_ENOENT => d_tree w !! p = None | _ => d_tree w !! p <> Some DirAt end).
Proof.
  intros HJ Hs. unfold disk_openat. wp_step. eapply wp_mono; [by apply at_path_right| |done]. intros q w' [-> ->]. wp_step. apply wp_get.
  cbn [of_directory directory_flags]. destruct (d_tree w !! p) as [[k| |]|] eqn:Hp.
  - wp_step. split; [done|]. split; [set_solver|done].
  - eapply wp_mono; [by apply new_dir_fd_right| |done]. intros f' w' (HJ' & Hs' & Hf'). done.
  - wp_step. split; [done|]. split; [set_solver|done].
  - wp_step. split; [done|]. split; [set_solver|done].
Qed.

Lemma entry_parts f n p w : entry disk_at_dir w f n p -> good_name n /\ exists q, p = q ++ [n] /\ removelast p = q.
Proof. intros (q & _ & Hn & ->). split; [done|]. exists q. split; [done|apply removelast_last]. Qed.

Lemma is_dir_at_spec w p : is_dir_at w p = true <-> d_tree w !! p = Some DirAt.
Proof. unfold is_dir_at. apply bool_decide_eq_true. Qed.

(** ** Names *)

Lemma elem_children t p n : n ∈ children t p <-> is_Some (t !! (p ++ [n])).
Proof.
  unfold children. rewrite list_elem_of_omap. split.
  - intros ([q o] & Hq%elem_of_map_to_list & E). simpl in E. destruct (strip p q) as [[|m [|? ?]]|] eqn:Hs; try done.
    injection E as ->. apply strip_Some in Hs as ->. by exists o.
  - intros [o Ho]. exists (p ++ [n], o). split; [by apply elem_of_map_to_list|]. simpl. by rewrite strip_app.
Qed.

Lemma no_children t p : children t p = [] -> forall n, t !! (p ++ [n]) = None.
Proof.
  intros E n. destruct (t !! (p ++ [n])) as [o|] eqn:Ho; [|done]. assert (n ∈ children t p) as Hn by (apply elem_children; eauto).
  rewrite E in Hn. by apply elem_of_nil in Hn.
Qed.

Lemma children_nodup t p : NoDup (children t p).
Proof.
  apply NoDup_omap; [apply NoDup_map_to_list|]. intros [a o] [b o'] n Ha%elem_of_map_to_list Hb%elem_of_map_to_list E1 E2. simpl in *.
  destruct (strip p a) as [[|x [|? ?]]|] eqn:Hsa; try done. destruct (strip p b) as [[|y [|? ?]]|] eqn:Hsb; try done.
  apply strip_Some in Hsa, Hsb. simplify_eq/=. done.
Qed.

(** The tree becomes [t]. *)
Lemma put_tree_right w t :
  J w -> t !! [] = Some DirAt -> (forall p n o, t !! (p ++ [n]) = Some o -> t !! p = Some DirAt /\ good_name n) ->
  (forall p k, t !! p = Some (FileAt k) -> exists q, d_tree w !! q = Some (FileAt k)) -> Z.of_nat (size t) <= DISK_LIMIT ->
  J (put_tree t w) /\ host_moved d_tree disk_content disk_at_dir disk_reg t w (put_tree t w).
Proof.
  intros HJ Hroot Hpar Hnamed Hsize. split; [|constructor; try done; by intros ?]. constructor; try apply HJ; try done.
  intros p k Hp. destruct (Hnamed p k Hp) as [q Hq]. by apply (di_named HJ q).
Qed.

Lemma delete_right w p :
  J w -> p <> [] -> (d_tree w !! p = Some DirAt -> forall n, d_tree w !! (p ++ [n]) = None) ->
  J (put_tree (delete p (d_tree w)) w)
  /\ host_moved d_tree disk_content disk_at_dir disk_reg (delete p (d_tree w)) w (put_tree (delete p (d_tree w)) w).
Proof.
  intros HJ Hne Hempty. apply put_tree_right; [done|..].
  - rewrite lookup_delete_ne by done. apply HJ.
  - intros q n o [Hnp Hq]%lookup_delete_Some. destruct (di_parent HJ q n o Hq) as [Hd Hn]. split; [|done].
    apply lookup_delete_Some. split; [|done]. intros <-. specialize (Hempty Hd n). congruence.
  - intros q k [_ Hq]%lookup_delete_Some. by exists q.
  - pose proof (di_tree_size HJ). destruct (d_tree w !! p) as [o|] eqn:Hp; [|by rewrite delete_id].
    rewrite map_size_delete_Some; [lia|by exists o].
Qed.

Lemma insert_parent w p q n o :
  J w -> p = q ++ [n] -> good_name n -> d_tree w !! q = Some DirAt -> d_tree w !! p = None ->
  <[p := o]> (d_tree w) !! [] = Some DirAt
  /\ forall a m x, <[p := o]> (d_tree w) !! (a ++ [m]) = Some x -> <[p := o]> (d_tree w) !! a = Some DirAt /\ good_name m.
Proof.
  intros HJ -> Hn Hq Hnone. split; [rewrite lookup_insert_ne by (by destruct q); apply HJ|].
  assert (forall a, d_tree w !! a = Some DirAt -> <[q ++ [n] := o]> (d_tree w) !! a = Some DirAt) as Hkeep.
  { intros a Ha. rewrite lookup_insert_ne; [done|]. intros <-. congruence. }
  intros a m x [[[-> ->]%app_inj_tail _]|[_ Ha]]%lookup_insert_Some; [auto|].
  destruct (di_parent HJ a m x Ha) as [Hd Hm]. auto.
Qed.

Lemma rename_right w p q n :
  J w -> strip p q = None -> q = removelast q ++ [n] -> good_name n -> d_tree w !! removelast q = Some DirAt -> is_Some (d_tree w !! p) -> p <> [] ->
  (d_tree w !! q = Some DirAt -> forall n, d_tree w !! (q ++ [n]) = None) -> strip q p = None ->
  let t := relabel (renamed p q) (delete q (d_tree w)) in
  J (put_tree t w) /\ host_moved d_tree disk_content disk_at_dir disk_reg t w (put_tree t w).
Proof.
  intros HJ Hpq Hsplit Hn Hpar Hp Hpne Hempty Hqp t. pose proof (closed w HJ) as Hclosed.
  pose proof (fun x => rename_lookup p q (d_tree w) Hclosed Hpq Hempty x Hqp) as Hlook. fold t in Hlook.
  assert (q <> []) as Hqne by (rewrite Hsplit; by destruct (removelast q)).
  assert (forall x, x <> q -> strip p x = None -> d_tree w !! x = Some DirAt -> t !! x = Some DirAt) as Hkeep.
  { intros x Hx Hpx Hd. rewrite Hlook, Hpx. destruct (strip q x) as [r|] eqn:Hs; [|done]. exfalso. apply strip_Some in Hs as ->.
    destruct r as [|m r]; [by rewrite app_nil_r in Hx|].
    assert (is_Some (delete q (d_tree w) !! (q ++ m :: r))) as Hin.
    { exists DirAt. apply lookup_delete_Some. split; [|done]. intros E. apply (f_equal length) in E. rewrite length_app in E. simpl in E. lia. }
    pose proof (nothing_below q (d_tree w) Hclosed Hempty _ Hin) as H. by rewrite strip_app in H. }
  apply put_tree_right; [done|..].
  - apply Hkeep; [done| |apply HJ]. by destruct p.
  - intros a m o Ho. rewrite Hlook in Ho. destruct (strip q (a ++ [m])) as [r|] eqn:Hs.
    + apply strip_Some in Hs. destruct r as [|y r _] using rev_ind.
      * rewrite app_nil_r in Hs. rewrite Hsplit in Hs. apply app_inj_tail in Hs as [-> ->]. split; [|done].
        apply Hkeep; [|by apply strip_None; intros r E; rewrite strip_None in Hpq; apply (Hpq (r ++ [n])); rewrite Hsplit, E, <- app_assoc|done].
        intros E. rewrite Hsplit in E at 2. assert (length (removelast q) = length (removelast q ++ [n])) as Hl by by rewrite <- E.
        rewrite length_app in Hl. simpl in Hl. lia.
      * rewrite app_assoc in Hs. apply app_inj_tail in Hs as [-> ->]. rewrite app_assoc in Ho. destruct (di_parent HJ _ _ _ Ho) as [Hd Hy].
        split; [|done]. by rewrite Hlook, strip_app.
    + destruct (strip p (a ++ [m])) eqn:Hsp; [done|]. destruct (di_parent HJ _ _ _ Ho) as [Hd Hm]. split; [|done]. apply Hkeep; [| |done].
      * intros ->. by rewrite strip_app in Hs.
      * apply strip_None. intros r ->. rewrite strip_None in Hsp. by apply (Hsp (r ++ [m])), eq_sym, app_assoc.
  - intros x k Hx. rewrite Hlook in Hx. destruct (strip q x) as [r|]; [by exists (p ++ r)|]. destruct (strip p x); [done|by exists x].
  - pose proof (lost_sum _ _ _ (lost_rename p q (d_tree w) Hclosed Hpq Hempty) (fun _ => 1)) as Hsum. fold t in Hsum.
    rewrite <- !map_size_sum in Hsum. rewrite Hsum. pose proof (di_tree_size HJ). clear -H. destruct (d_tree w !! q) as [o|] eqn:Ho; [|by rewrite delete_id].
    rewrite map_size_delete_Some; [lia|by exists o].
Qed.

(** ** Calls that change the name space *)

Lemma disk_create_right w p q n :
  J w -> p = q ++ [n] -> good_name n -> d_tree w !! p = None ->
  wp (disk_create p) w
    (fun f' w' => J w' /\ exists k, ~ alive w k /\ d_tree w' = <[p := FileAt k]> (d_tree w)
       /\ disk_content w' k = Some [] /\ (forall k', k' <> k -> disk_content w' k' = disk_content w k')
       /\ host_opened disk_at_dir disk_reg f' k w w')
    (fun _ w' => J w' /\ same w w').
Proof.
  intros HJ Hpq Hn Hnone. unfold disk_create. wp_step. apply wp_get. rewrite Hpq at 1. rewrite removelast_last.
  destruct (is_dir_at w q) eqn:Hd; cbn [negb]; [|by apply wp_fail]. apply is_dir_at_spec in Hd.
  destruct (_ || _ || _) eqn:Hlim; [by apply wp_fail|]. apply orb_false_iff in Hlim as [[L1 L2]%orb_false_iff L3]. unbool.
  wp_step. apply wp_apply. set (k := (0, d_next_ino w)).
  assert (d_files w !! k = None) as Hfresh.
  { destruct (d_files w !! k) as [d|] eqn:E; [|done]. apply (di_keys HJ) in E. simpl in E. lia. }
  destruct (insert_parent w p q n (FileAt k) HJ Hpq Hn Hd Hnone) as [Hroot Hpar].
  assert (J (put_new_file p w)) as HJ1.
  { pose proof (di_ino HJ). constructor; cbn [put_new_file d_tree d_files d_dirs d_regs d_next_fd d_next_ino d_stuck]; fold k; try apply HJ.
    - exact Hroot.
    - exact Hpar.
    - intros a k' [[_ [= <-]]|[_ Ha]]%lookup_insert_Some; [rewrite lookup_insert_eq; eauto|].
      destruct (di_named HJ a k' Ha) as [d Hk]. apply lookup_insert_is_Some'. right. by exists d.
    - intros f k' Hf. apply lookup_insert_is_Some'. right. by apply (di_regs HJ f).
    - intros k' d [[<- _]|[_ Hk]]%lookup_insert_Some; [simpl; lia|]. pose proof (di_keys HJ k' d Hk). lia.
    - lia.
    - rewrite map_size_insert_None by done. lia.
    - rewrite map_size_insert_None by done. lia.
    - unfold disk_bytes. cbn [put_new_file d_files]. fold k. rewrite (msum_insert _ _ _ _ Hfresh). apply HJ. }
  eapply wp_mono; [apply (new_file_fd_right k _ HJ1); cbn; fold k; rewrite lookup_insert_eq; by eexists| |done].
  intros f w' (HJ' & Ht & Hf & [N R G]). split; [done|]. exists k. split; [|split; [|split; [|split]]].
  - intros [[a Ha]|[g Hg]]; [apply (di_named HJ) in Ha as [d Hd']|apply (di_regs HJ) in Hg as [d Hd']]; congruence.
  - by rewrite Ht.
  - unfold disk_content. rewrite Hf. cbn. apply lookup_insert_eq.
  - intros k' Hk'. unfold disk_content. rewrite Hf. cbn. by apply lookup_insert_ne.
  - constructor; [exact N|exact R|exact G].
Qed.

Lemma disk_mkdirat_right w f n p mode :
  J w -> entry disk_at_dir w f n p ->
  wp (disk_mkdirat f n mode) w
    (fun _ w' => J w' /\ d_tree w !! p = None /\ host_moved d_tree disk_content disk_at_dir disk_reg (<[p := DirAt]> (d_tree w)) w w')
    (fun _ w' => J w' /\ same w w').
Proof.
  intros HJ He. destruct (entry_parts _ _ _ _ He) as (Hn & q & Hq & Hr). unfold disk_mkdirat. wp_step.
  eapply wp_mono; [by apply at_path_right, entry_spot| |done]. intros a w' [-> ->]. wp_step. apply wp_get. rewrite Hr.
  destruct (is_dir_at w q) eqn:Hd; cbn [negb]; [|by apply wp_fail]. apply is_dir_at_spec in Hd.
  case_bool_decide as Hnone; cbn [negb]; [|by apply wp_fail]. wp_step; [by wp_step|]. apply wp_apply.
  destruct (insert_parent w p q n DirAt HJ Hq Hn Hd Hnone) as [Hroot Hpar].
  destruct (put_tree_right w (<[p := DirAt]> (d_tree w)) HJ Hroot Hpar) as [HJ' Hm]; [| |done].
  - intros a k [[_ H]|[_ H]]%lookup_insert_Some; [done|by exists a].
  - rewrite map_size_insert_None by done. lia.
Qed.

Lemma disk_renameat_right w f n p g m q :
  J w -> entry disk_at_dir w f n p -> entry disk_at_dir w g m q -> p <> q ->
  wp (disk_renameat f n g m) w
    (fun _ w' => J w' /\ is_Some (d_tree w !! p) /\ strip p q = None /\ may_replace d_tree w p q
       /\ host_moved d_tree disk_content disk_at_dir disk_reg (relabel (renamed p q) (delete q (d_tree w))) w w')
    (fun _ w' => J w' /\ same w w').
Proof.
  intros HJ Hep Heq Hpq. destruct (entry_parts _ _ _ _ Hep) as (Hn & p0 & Hp0 & _). destruct (entry_parts _ _ _ _ Heq) as (Hm & q0 & Hq0 & Hr).
  unfold disk_renameat. wp_step. eapply wp_mono; [by apply at_path_right, entry_spot| |done]. intros a w' [-> ->]. wp_step.
  eapply wp_mono; [by apply at_path_right, entry_spot| |done]. intros a w' [-> ->]. wp_step. apply wp_get. rewrite Hr.
  destruct (_ || _) eqn:H1; [by apply wp_fail|]. apply orb_false_iff in H1 as [Hp Hd%negb_false_iff]. apply bool_decide_eq_false in Hp.
  apply is_dir_at_spec in Hd. case_bool_decide as Hs; cbn [negb]; [|by apply wp_fail].
  assert (is_Some (d_tree w !! p)) as Hpsome by by apply not_eq_None_Some.
  destruct (is_dir_at w q && negb (is_dir_at w p)) eqn:H2; [by apply wp_fail|].
  destruct (is_dir_at w q && negb (bool_decide (children (d_tree w) q = []))) eqn:H3; [by apply wp_fail|].
  destruct (negb _ && _ && _) eqn:H4; [by apply wp_fail|]. apply wp_apply.
  assert (is_dir_at w q = true -> d_tree w !! p = Some DirAt /\ forall x, d_tree w !! (q ++ [x]) = None) as Hempty.
  { intros E. rewrite E in H2, H3. simpl in H2, H3. apply negb_false_iff, is_dir_at_spec in H2. split; [done|].
    apply no_children. by apply negb_false_iff, bool_decide_eq_true in H3. }
  assert (may_replace d_tree w p q) as Hrep.
  { unfold may_replace. destruct (d_tree w !! q) as [[k| |]|] eqn:Hq; [|by apply Hempty, is_dir_at_spec| |done].
    - intros E%is_dir_at_spec. unfold is_dir_at in H4 at 1. rewrite Hq, E in H4. done.
    - intros E%is_dir_at_spec. unfold is_dir_at in H4 at 1. rewrite Hq, E in H4. done. }
  assert (strip q p = None) as Hqp.
  { apply strip_None. intros [|x r] E; [by rewrite app_nil_r in E|]. destruct Hpsome as [o Ho]. rewrite E in Ho.
    assert (d_tree w !! q = Some DirAt) as Hdq by by apply (closed_below _ (closed w HJ) q (x :: r) o).
    destruct (Hempty (proj2 (is_dir_at_spec w q) Hdq)) as [_ Hno]. specialize (Hno x).
    replace (q ++ x :: r) with ((q ++ [x]) ++ r) in Ho by (by rewrite <- app_assoc).
    destruct r as [|y r]; [rewrite app_nil_r in Ho; congruence|].
    assert (d_tree w !! (q ++ [x]) = Some DirAt) as Hx by by apply (closed_below _ (closed w HJ) (q ++ [x]) (y :: r) o). congruence. }
  destruct (rename_right w p q m HJ Hs) as [HJ' Hmv]; [by rewrite Hr|done|by rewrite Hr|done|rewrite Hp0; by destruct p0| |done|done].
  intros Hdq. apply (Hempty (proj2 (is_dir_at_spec w q) Hdq)).
Qed.

Lemma disk_unlinkat_right w f n p :
  J w -> entry disk_at_dir w f n p ->
  wp (disk_unlinkat f n false) w
    (fun _ w' => J w' /\ is_Some (d_tree w !! p) /\ d_tree w !! p <> Some DirAt
       /\ host_moved d_tree disk_content disk_at_dir disk_reg (delete p (d_tree w)) w w')
    (fun _ w' => J w' /\ same w w').
Proof.
  intros HJ He. destruct (entry_parts _ _ _ _ He) as (Hn & q & Hq & Hr). unfold disk_unlinkat. wp_step.
  eapply wp_mono; [by apply at_path_right, entry_spot| |done]. intros a w' [-> ->]. wp_step. apply wp_get.
  case_bool_decide as Hp; [by apply wp_fail|]. destruct (is_dir_at w p) eqn:Hd; [by apply wp_fail|]. apply wp_apply.
  assert (d_tree w !! p <> Some DirAt) as Hnd by (intros E%is_dir_at_spec; congruence).
  destruct (delete_right w p HJ) as [HJ' Hm]; [rewrite Hq; by destruct q|done|]. split; [done|]. split; [by apply not_eq_None_Some|done].
Qed.

Lemma disk_rmdir_right w f n p :
  J w -> entry disk_at_dir w f n p ->
  wp (disk_unlinkat f n true) w
    (fun _ w' => J w' /\ d_tree w !! p = Some DirAt /\ empty_dir d_tree w p
       /\ host_moved d_tree disk_content disk_at_dir disk_reg (delete p (d_tree w)) w w')
    (fun _ w' => J w' /\ same w w').
Proof.
  intros HJ He. destruct (entry_parts _ _ _ _ He) as (Hn & q & Hq & Hr). unfold disk_unlinkat. wp_step.
  eapply wp_mono; [by apply at_path_right, entry_spot| |done]. intros a w' [-> ->]. wp_step. apply wp_get.
  case_bool_decide as Hp; [by apply wp_fail|]. destruct (is_dir_at w p) eqn:Hd; cbn [negb]; [|by apply wp_fail]. apply is_dir_at_spec in Hd.
  case_bool_decide as Hc; cbn [negb]; [|by apply wp_fail]. apply wp_apply. pose proof (no_children _ _ Hc) as Hempty.
  destruct (delete_right w p HJ) as [HJ' Hm]; [rewrite Hq; by destruct q|done|]. done.
Qed.

(** ** Files *)

Lemma reg_key_right f k w : disk_reg w f = Some k -> wp (reg_key f) w (fun k' w' => k' = k /\ w' = w) (fun _ _ => False).
Proof. intros Hf. unfold reg_key. wp_step. apply wp_get. unfold disk_reg in Hf. by rewrite Hf. Qed.

Lemma file_data_right k d w : disk_content w k = Some d -> wp (file_data k) w (fun d' w' => d' = d /\ w' = w) (fun _ _ => False).
Proof. intros Hk. unfold file_data. wp_step. apply wp_get. unfold disk_content in Hk. by rewrite Hk. Qed.

(** The first two lines of a call on a file. *)
Lemma on_file {A} f k d w (m : FileKey -> bytes -> ST Disk IoError A) Q R :
  disk_reg w f = Some k -> disk_content w k = Some d -> wp (m k d) w Q R ->
  wp (let! k := reg_key f in let! d := file_data k in m k d) w Q R.
Proof.
  intros Hf Hd Hm. wp_step. eapply wp_mono; [by apply reg_key_right| |done]. intros k' w' [-> ->]. wp_step.
  eapply wp_mono; [by apply file_data_right| |done]. by intros d' w' [-> ->].
Qed.

Lemma disk_bytes_update w k d d' : d_files w !! k = Some d -> disk_bytes (put_files (<[k := d']> (d_files w)) w) = disk_bytes w - len d + len d'.
Proof. intros Hk. unfold disk_bytes. cbn [put_files d_files]. by rewrite (msum_update _ _ _ _ _ Hk). Qed.

Lemma put_files_right w k d d' :
  J w -> disk_content w k = Some d -> disk_fits w d (len d') = true ->
  J (put_files (<[k := d']> (d_files w)) w)
  /\ host_wrote d_tree disk_content disk_at_dir disk_reg k d' w (put_files (<[k := d']> (d_files w)) w).
Proof.
  intros HJ Hk Hfit. unfold disk_content in Hk. unfold disk_fits in Hfit. unbool.
  assert (forall k', is_Some (d_files w !! k') -> is_Some (<[k := d']> (d_files w) !! k')) as Hsome
    by (intros k' Hk'; apply lookup_insert_is_Some'; by right).
  split.
  - constructor; cbn [put_files d_tree d_files d_dirs d_regs d_next_fd d_next_ino d_stuck]; try apply HJ.
    + intros p k' Hp. apply Hsome. by apply (di_named HJ p).
    + intros f k' Hf. apply Hsome. by apply (di_regs HJ f).
    + intros k' x [[<- _]|[_ Hx]]%lookup_insert_Some; by eapply (di_keys HJ).
    + rewrite map_size_insert_Some by (by eexists). apply HJ.
    + fold (put_files (<[k := d']> (d_files w)) w). rewrite (disk_bytes_update _ _ _ _ Hk). lia.
  - constructor; try done; [apply lookup_insert_eq| |by intros ?]. intros k' Hne. unfold disk_content. cbn. by apply lookup_insert_ne.
Qed.

Lemma file_there w k : J w -> alive w k -> is_Some (disk_content w k).
Proof. intros HJ [[p Hp]|[f Hf]]; [by apply (di_named HJ p)|by apply (di_regs HJ f)]. Qed.

(** Some of the entries of a map weigh no more than all of them. *)
Lemma some_of_map (fs : gmap FileKey bytes) ks :
  NoDup ks -> (forall k, k ∈ ks -> is_Some (fs !! k)) ->
  sumz (fun k => default 0 (len <$> fs !! k)) ks <= msum (fun _ d => len d) fs /\ len ks <= Z.of_nat (size fs).
Proof.
  intros Hnd. revert fs. induction Hnd as [|k ks Hk Hnd IH]; intros fs Hin.
  - split; [|unfold len; simpl; lia]. change (sumz _ []) with 0. apply msum_nonneg. intros ? ? _. apply len_nonneg.
  - destruct (Hin k ltac:(by left)) as [d Hd].
    assert (forall k', k' ∈ ks -> delete k fs !! k' = fs !! k') as Hdel by (intros k' Hk'; apply lookup_delete_ne; by intros <-).
    destruct (IH (delete k fs)) as [I1 I2]; [intros k' Hk'; rewrite Hdel by done; apply Hin; by right|].
    rewrite sumz_cons, (msum_delete _ _ _ _ Hd), Hd. simpl. split.
    + rewrite (sumz_ext _ (fun k => default 0 (len <$> fs !! k))) in I1 by (intros k' Hk'; by rewrite Hdel). lia.
    + rewrite map_size_delete_Some in I2 by (by eexists). assert (size fs <> 0)%nat; [|unfold len in *; simpl; lia].
      rewrite map_size_non_empty_iff. intros E. by rewrite E in Hd.
Qed.

Lemma disk_room w ks :
  J w -> NoDup ks -> Forall (alive w) ks -> total_bytes disk_content w ks <= DISK_LIMIT /\ len ks <= DISK_LIMIT.
Proof.
  intros HJ Hnd Hks. destruct (some_of_map (d_files w) ks Hnd) as [H1 H2].
  { intros k Hk. apply (file_there w k HJ). by apply (proj1 (Forall_forall _ _) Hks). }
  pose proof (di_bytes HJ). pose proof (di_files_size HJ). unfold disk_bytes in *.
  split; [|lia]. eapply Z.le_trans; [exact H1|done].
Qed.

Lemma disk_metadata_right w f k :
  J w -> disk_reg w f = Some k -> wp (disk_metadata f) w (fun m w' => J w' /\ same w w' /\ stat_of disk_content w (FileAt k) m) (fun _ _ => False).
Proof.
  intros HJ Hf. destruct (file_there w k HJ) as [d Hd]; [right; by exists f|]. apply (on_file f k d); [done|done|]. wp_step.
  split; [done|]. split; [done|]. split; [done|]. split; [apply (disk_key w k d HJ); by exists d|]. by rewrite Hd.
Qed.

Lemma disk_set_len_right w f k d n :
  J w -> disk_reg w f = Some k -> disk_content w k = Some d -> 0 <= n ->
  wp (disk_set_len f n) w
    (fun _ w' => J w' /\ host_wrote d_tree disk_content disk_at_dir disk_reg k (resize d n) w w')
    (fun _ w' => w' = w /\ J w' /\ (stuck = false -> d = [] -> n = 0 -> False)).
Proof.
  intros HJ Hf Hd Hn. apply (on_file f k d); [done|done|]. wp_step. apply wp_get. destruct (d_stuck w || _) eqn:E.
  - apply wp_fail. split; [done|]. split; [done|]. intros Hst -> ->. rewrite (di_stuck HJ), Hst in E. simpl in E. unfold disk_fits in E.
    pose proof (di_bytes HJ). change (len []) with 0 in E. unbool. lia.
  - apply orb_false_iff in E as [_ E%negb_false_iff]. apply wp_apply. apply (put_files_right w k d); [done|done|]. by rewrite len_resize.
Qed.

Abbreviation patient w' w := ((d_interrupts w' <= d_interrupts w)%nat).

Lemma interrupting_right {A} (m : ST Disk IoError A) w (Q : A -> Disk -> Prop) (R : IoError -> Disk -> Prop) :
  J w -> (d_interrupts w = O -> wp m w Q R) ->
  (forall n, d_interrupts w = S n -> J (put_interrupts n w) -> same w (put_interrupts n w) -> R (RawOs OS_EINTR) (put_interrupts n w)) ->
  wp (interrupting m) w Q R.
Proof.
  intros HJ Hm HR. unfold interrupting. wp_step. apply wp_get. destruct (d_interrupts w) as [|n]; [by apply Hm|].
  wp_step. apply wp_apply. wp_step. apply HR; [done|constructor; apply HJ|]. constructor; try done; by intros ? ?.
Qed.

Lemma disk_read_right w f k d size offset :
  J w -> disk_reg w f = Some k -> disk_content w k = Some d -> 0 < size -> 0 <= offset ->
  wp (disk_read_at f size offset) w
    (fun got w' => J w' /\ same w w' /\ patient w' w
       /\ got = take (length got) (drop (Z.to_nat offset) d) /\ len got <= size /\ (got = [] -> len d <= offset))
    (fun e w' => J w' /\ same w w' /\ patient w' w /\ (interrupted e = true -> (d_interrupts w' < d_interrupts w)%nat)).
Proof.
  intros HJ Hf Hd Hsize Ho. apply (on_file f k d); [done|done|]. apply interrupting_right; [done| |].
  - intros _. wp_step. do 2 (split; [done|]). split; [done|]. set (x := drop (Z.to_nat offset) d). set (n := Z.to_nat (Z.min size DISK_CHUNK)).
    split; [|split].
    + rewrite length_take. destruct (decide (n <= length x)%nat); [by rewrite Nat.min_l by done|].
      rewrite Nat.min_r, firstn_all by lia. apply take_ge. lia.
    + unfold len. rewrite length_take. unfold n, DISK_CHUNK. lia.
    + intros E%(f_equal length). unfold x in E. rewrite length_take, length_drop in E. simpl in E. unfold n, DISK_CHUNK, len in *. lia.
  - intros n En HJ' Hs. do 2 (split; [done|]). cbn. rewrite En. split; [lia|]. intros _. lia.
Qed.

Lemma disk_write_right w f k d new offset :
  J w -> disk_reg w f = Some k -> disk_content w k = Some d -> new <> [] -> 0 <= offset ->
  wp (disk_write_at f new offset) w
    (fun n w' => J w' /\ patient w' w /\ 0 <= n <= len new
       /\ host_wrote d_tree disk_content disk_at_dir disk_reg k (if n =? 0 then d else written d offset (take (Z.to_nat n) new)) w w')
    (fun e w' => J w' /\ same w w' /\ patient w' w /\ (interrupted e = true -> (d_interrupts w' < d_interrupts w)%nat)).
Proof.
  intros HJ Hf Hd Hnew Ho. apply (on_file f k d); [done|done|]. wp_step. apply wp_get. cbv zeta.
  set (part := take (Z.to_nat DISK_CHUNK) new). destruct (disk_fits _ _ _) eqn:Hfit; cbn [negb]; [|by apply wp_fail].
  apply interrupting_right; [done| |].
  - intros E0. wp_step. apply wp_apply. wp_step.
    assert (0 < len part <= len new) as [H1 H2].
    { unfold part, len. rewrite length_take. unfold DISK_CHUNK. destruct new; [done|]. simpl length. lia. }
    assert (take (Z.to_nat (len part)) new = part) as Etake.
    { unfold part, len at 1. rewrite length_take, Nat2Z.id. destruct (decide (Z.to_nat DISK_CHUNK <= length new)%nat); [by rewrite Nat.min_l by done|].
      rewrite Nat.min_r, firstn_all by lia. symmetry. apply take_ge. lia. }
    rewrite (proj2 (Z.eqb_neq _ _)), Etake by lia.
    destruct (put_files_right w k d (written d offset part) HJ Hd) as [HJ' Hw]; [by rewrite written_len by done|].
    split; [done|]. split; [done|]. split; [lia|done].
  - intros n En HJ' Hs. do 2 (split; [done|]). cbn. rewrite En. split; [lia|]. intros _. lia.
Qed.

(** ** The laws *)

#[export] Instance disk_laws :
  LocalLaws d_tree disk_content disk_at_dir disk_reg disk_stream disk_patience J disk_based disk_host.
Proof.
  constructor; cbn [disk_host h_canonicalize h_open h_try_clone h_openat h_statat h_mkdirat h_renameat h_unlinkat h_dir_new h_dir_next h_dir_fd
    h_metadata h_set_len h_read_at h_write_at h_drop].
  - intros w HJ. apply HJ.
  - intros w p n o HJ. apply HJ.
  - intros w k HJ. by apply file_there.
  - intros w ks HJ Hnd Hks. destruct (disk_room w ks HJ Hnd Hks) as [H1 H2]. pose proof (di_tree_size HJ).
    unfold DISK_LIMIT, U64_MAX in *. lia.
  - intros w r HJ. unfold disk_canonicalize. case_bool_decide; wp_step; done.
  - intros w c HJ ->. unfold disk_open. rewrite bool_decide_true by done. eapply wp_mono; [by apply new_dir_fd_right|done|done].
  - intros w f p HJ Hf. unfold disk_try_clone. wp_step. eapply wp_mono; [by apply dir_path_right| |done]. intros q w' [-> ->].
    eapply wp_mono; [by apply new_dir_fd_right|done|done].
  - intros w f n p HJ Hs. eapply wp_mono; [by apply disk_statat_right|done|]. intros e w' (? & ? & ? & ?). done.
  - intros w f n p HJ Hs. eapply wp_mono; [by apply disk_open_dir_right|done|]. intros e w' ([? ?] & _ & He). split; [done|]. split; [done|].
    by destruct e.
  - intros w f n p k flags mode HJ He Hp Hdir Hnf Hc. unfold disk_openat. wp_step.
    eapply wp_mono; [by apply at_path_right, entry_spot| |done]. intros a w' [-> ->]. wp_step. apply wp_get. rewrite Hdir, Hp, Hc.
    eapply wp_mono; [apply (new_file_fd_right k w HJ); by apply (di_named HJ p)| |done]. intros f' w' (HJ' & Ht & Hf & Ho).
    split; [done|]. split; [done|]. split; [|done]. intros k'. unfold disk_content. by rewrite Hf.
  - intros w f n p flags mode HJ He Hp Hdir Hnf Hc Hx. destruct (entry_parts _ _ _ _ He) as (Hn & q & Hq & _). unfold disk_openat. wp_step.
    eapply wp_mono; [by apply at_path_right, entry_spot| |done]. intros a w' [-> ->]. wp_step. apply wp_get. rewrite Hdir, Hp, Hc.
    by eapply disk_create_right.
  - intros. by apply disk_mkdirat_right.
  - intros. by apply disk_renameat_right.
  - intros. by apply disk_unlinkat_right.
  - intros. by apply disk_rmdir_right.
  - intros w f p HJ Hf. unfold disk_dir_new. wp_step. eapply wp_mono; [by apply dir_path_right| |done]. intros q w' [-> ->].
    wp_step. apply wp_get. wp_step. split; [done|]. split; [done|]. eexists. split; [done|].
    assert (forall n, n = dot \/ n = dot_dot -> n ∉ children (d_tree w) p) as Hdots.
    { intros n Hn [o Ho]%elem_children. destruct (di_parent HJ _ _ _ Ho) as [_ Hg]. by apply (dots_not_good n). }
    constructor.
    + constructor; [rewrite elem_of_cons; intros [H|H]; [done|by apply (Hdots dot); [left|]]|].
      constructor; [by apply Hdots; right|apply children_nodup].
    + intros n [->|[->|[o Ho]%elem_children]%elem_of_cons]%elem_of_cons; [by left|right; by left|]. right. right. apply (di_parent HJ _ _ _ Ho).
    + intros n Hn. rewrite !elem_of_cons, elem_children. split; [|by right; right]. intros [->|[->|H]]; [| |done].
      * exfalso. by apply (dots_not_good dot); [left|].
      * exfalso. by apply (dots_not_good dot_dot); [right|].
  - intros w [p' ns'] p ns HJ [= -> ->]. unfold disk_dir_next. wp_step. split; [done|]. split; [done|].
    destruct ns as [|n ns]; [done|]. by eexists.
  - intros w [p' ns'] p ns HJ [= -> ->]. unfold disk_dir_fd. eapply wp_mono; [by apply new_dir_fd_right|done|done].
  - intros w f k HJ Hf. eapply wp_mono; [by apply disk_metadata_right|done|done].
  - intros w f k d n HJ Hf Hd Hn. eapply wp_mono; [exact (disk_set_len_right w f k d n HJ Hf Hd Hn)|done|]. by intros e w' (-> & ? & _).
  - intros. by eapply disk_read_right.
  - intros. by eapply disk_write_right.
  - intros w f HJ. split; [|split; [done|split; [done|split; [by intros ?|]]]].
    + constructor; cbn [disk_drop d_tree d_files d_dirs d_regs d_next_fd d_next_ino d_stuck]; try apply HJ.
      * intros g k [_ Hg]%lookup_delete_Some. by apply (di_regs HJ g).
      * intros g Hg. destruct (di_fds HJ g Hg) as [H1 H2]. split; [done|]. apply lookup_delete_None. by right.
    + intros g. unfold disk_reg. cbn. case_decide as E; [subst; apply lookup_delete_eq|by apply lookup_delete_ne].
Qed.

#[export] Instance disk_healthy : HealthyHost disk_host disk_at_dir J.
Proof.
  constructor; cbn [disk_host h_try_clone h_statat h_openat].
  - intros w f p _ Hf. unfold disk_try_clone, dir_path, sbind, sget, slift. unfold disk_at_dir in Hf. by rewrite Hf.
  - intros w f n p HJ Hs. pose proof (disk_statat_right f n p w HJ Hs) as H. unfold wp, fails_with in *.
    destruct (disk_statat f n true w) as [[] ?]; try done. apply H.
  - intros w f n p HJ Hs. pose proof (disk_open_dir_right f n p w HJ Hs) as H. unfold wp, fails_with in *.
    destruct (disk_openat f n directory_flags 0 w) as [[] ?]; try done. apply H.
Qed.

Lemma disk_walks : walks_enough d_tree J disk_walk.
Proof. intros w _. unfold disk_walk. lia. Qed.
End disk.

#[export] Instance disk_steady : SteadyHost disk_content disk_reg (disk_inv false) disk_host.
Proof.
  constructor; cbn [disk_host h_metadata h_set_len].
  - intros w f k HJ Hf. pose proof (disk_metadata_right false w f k HJ Hf) as H. unfold wp in H. by destruct (disk_metadata f w) as [[] ?].
  - intros w f k HJ Hf Hk. pose proof (disk_set_len_right false w f k [] 0 HJ Hf Hk ltac:(lia)) as H. unfold wp in H.
    destruct (disk_set_len f 0 w) as [[] ?]; try done. destruct H as (_ & _ & H). by destruct (H eq_refl eq_refl eq_refl).
Qed.
