(* ===== verification/LocalScope.v ===== *)
(** * Which calls the local filesystem makes

    Whatever the system answers: every descriptor that a call names was handed out
    below the root by an earlier call, names are single components or come from a
    listing, and no call follows a link.  A host that writes down its calls gives the
    trace that this is stated for. *)

From Stdlib Require Import Ascii String.
From stdpp Require Import sorting gmap.
From S2P Require Import Prelude RustStr VfsTypes VfsPath VfsIface MemVfs LocalVfs LocalSystem.

#[local] Open Scope Z_scope.

(** ** Calls written down *)

(** A call, with what it handed out. *)
Inductive HostEvent (D : Type) :=
| EvCanonicalize (path : str) (answer : option str)
| EvOpen (path : str) (flags : OFlags) (fd : option Z)
| EvClone (fd : Z) (copy : option Z)
| EvOpenat (dir : Z) (name : OsName) (flags : OFlags) (fd : option Z)
| EvStatat (dir : Z) (name : OsName) (nofollow : bool)
| EvMkdirat (dir : Z) (name : OsName)
| EvRenameat (dir : Z) (name : OsName) (to_dir : Z) (to : OsName)
| EvUnlinkat (dir : Z) (name : OsName)
| EvDirNew (fd : Z) (stream : option D)
| EvDirNext (stream : D) (entry : option (OsName * D))
| EvDirFd (stream : D) (fd : option Z)
| EvFile (fd : Z).
Arguments EvCanonicalize {D}.
Arguments EvOpen {D}.
Arguments EvClone {D}.
Arguments EvOpenat {D}.
Arguments EvStatat {D}.
Arguments EvMkdirat {D}.
Arguments EvRenameat {D}.
Arguments EvUnlinkat {D}.
Arguments EvDirNew {D}.
Arguments EvDirNext {D}.
Arguments EvDirFd {D}.
Arguments EvFile {D}.

Definition ok_part {E A} (o : outcome E A) : option A := match o with Ok a => Some a | _ => None end.

(** The newest call comes first. *)
Definition written_down {W D E A} (event : option A -> HostEvent D) (m : ST W E A) : ST (W * list (HostEvent D)) E A :=
  fun s => let '(o, w') := m s.1 in (o, (w', event (ok_part o) :: s.2)).

Definition watched {W D} (host : HostOs W D) : HostOs (W * list (HostEvent D)) D :=
  mkHostOs
    (fun path => written_down (EvCanonicalize path) (h_canonicalize host path))
    (fun path flags => written_down (EvOpen path flags) (h_open host path flags))
    (fun fd => written_down (EvClone fd) (h_try_clone host fd))
    (fun dir name flags mode => written_down (EvOpenat dir name flags) (h_openat host dir name flags mode))
    (fun dir name nofollow => written_down (fun _ => EvStatat dir name nofollow) (h_statat host dir name nofollow))
    (fun dir name mode => written_down (fun _ => EvMkdirat dir name) (h_mkdirat host dir name mode))
    (fun dir name to_dir to => written_down (fun _ => EvRenameat dir name to_dir to) (h_renameat host dir name to_dir to))
    (fun dir name is_dir => written_down (fun _ => EvUnlinkat dir name) (h_unlinkat host dir name is_dir))
    (fun fd => written_down (EvDirNew fd) (h_dir_new host fd))
    (fun stream => written_down (fun r => EvDirNext stream (default None r)) (h_dir_next host stream))
    (fun stream => written_down (EvDirFd stream) (h_dir_fd host stream))
    (fun fd => written_down (fun _ => EvFile fd) (h_metadata host fd))
    (fun fd n => written_down (fun _ => EvFile fd) (h_set_len host fd n))
    (fun fd n offset => written_down (fun _ => EvFile fd) (h_read_at host fd n offset))
    (fun fd new offset => written_down (fun _ => EvFile fd) (h_write_at host fd new offset))
    (fun fd s => (h_drop host fd s.1, EvFile fd :: s.2)).

(** ** What the calls may name *)

Section confined.
Context {D : Type}.
Abbreviation Trace := (list (HostEvent D)).

(** Directories: the root, copies of one, what is opened in one as a directory and
    without following a link, and those of streams. *)
Inductive dir_held (tr : Trace) : Z -> Prop :=
| held_root path fd : EvOpen path directory_flags (Some fd) ∈ tr -> dir_held tr fd
| held_copy fd copy : EvClone fd (Some copy) ∈ tr -> dir_held tr copy
| held_child dir name fd : EvOpenat dir name directory_flags (Some fd) ∈ tr -> dir_held tr fd
| held_of_stream stream fd : EvDirFd stream (Some fd) ∈ tr -> dir_held tr fd.

Inductive file_held (tr : Trace) : Z -> Prop :=
| held_file dir name flags fd :
    EvOpenat dir name flags (Some fd) ∈ tr -> of_directory flags = false -> file_held tr fd.

Inductive stream_held (tr : Trace) : D -> Prop :=
| held_stream fd stream : EvDirNew fd (Some stream) ∈ tr -> stream_held tr stream
| held_rest stream name rest : EvDirNext stream (Some (name, rest)) ∈ tr -> stream_held tr rest.

(** One component, the directory itself, or a name the system listed. *)
Definition component (name : OsName) : Prop := exists c, name = inl c /\ component_ok c.
Definition entry_name_held (tr : Trace) (name : OsName) : Prop :=
  name = dot \/ component name
  \/ name <> dot_dot /\ exists stream rest, EvDirNext stream (Some (name, rest)) ∈ tr.

Definition event_ok (tr : Trace) (e : HostEvent D) : Prop :=
  match e with
  | EvCanonicalize _ _ => tr = []
  | EvOpen path flags _ => flags = directory_flags /\ exists asked, tr = [EvCanonicalize asked (Some path)]
  | EvClone fd _ => dir_held tr fd
  | EvOpenat dir name flags _ => dir_held tr dir /\ entry_name_held tr name /\ of_nofollow flags = true
  | EvStatat dir name nofollow => dir_held tr dir /\ entry_name_held tr name /\ nofollow = true
  | EvMkdirat dir name | EvUnlinkat dir name => dir_held tr dir /\ component name
  | EvRenameat dir name to_dir to => dir_held tr dir /\ component name /\ dir_held tr to_dir /\ component to
  | EvDirNew fd _ => dir_held tr fd
  | EvDirNext stream _ | EvDirFd stream _ => stream_held tr stream
  | EvFile fd => file_held tr fd
  end.

(** Every call was allowed when it was made. *)
Fixpoint confined (tr : Trace) : Prop :=
  match tr with
  | [] => True
  | e :: before => event_ok before e /\ confined before
  end.

Lemma suffix_held (tr tr' : Trace) e : tr `suffix_of` tr' -> e ∈ tr -> e ∈ tr'.
Proof. intros [l ->]. set_solver. Qed.

Lemma dir_held_mono tr tr' fd : tr `suffix_of` tr' -> dir_held tr fd -> dir_held tr' fd.
Proof. intros Hs []; eauto using held_root, held_copy, held_child, held_of_stream, suffix_held. Qed.

Lemma file_held_mono tr tr' fd : tr `suffix_of` tr' -> file_held tr fd -> file_held tr' fd.
Proof. intros Hs []; eauto using held_file, suffix_held. Qed.

Lemma stream_held_mono tr tr' d : tr `suffix_of` tr' -> stream_held tr d -> stream_held tr' d.
Proof. intros Hs []; eauto using held_stream, held_rest, suffix_held. Qed.

Lemma entry_name_held_mono tr tr' n : tr `suffix_of` tr' -> entry_name_held tr n -> entry_name_held tr' n.
Proof.
  intros Hs [?|[?|(? & d & r & ?)]]; [by left|by right; left|]. right; right. split; [done|].
  exists d, r. by eapply suffix_held.
Qed.
End confined.

Create HintDb scope.
#[export] Hint Resolve dir_held_mono file_held_mono stream_held_mono entry_name_held_mono : scope.

(** ** Computations that keep a trace confined

    [keeps m s R]: from a good state [m] leaves a good state that follows it, and a
    value of [m] is in [R] of that state. *)

Section keeps.
Context {S : Type} (good : S -> Prop) (follows : S -> S -> Prop) `{!PreOrder follows}.

Definition keeps {E A} (m : ST S E A) (s : S) (R : A -> S -> Prop) : Prop :=
  good s -> leaves m s (fun a s' => good s' /\ follows s s' /\ R a s') (fun s' => good s' /\ follows s s').

Lemma keeps_ret {E A} (a : A) s (R : A -> S -> Prop) : R a s -> keeps (E := E) (sret a) s R.
Proof. by intros H Hg. Qed.

Lemma keeps_fail {E A} (e : E) s (R : A -> S -> Prop) : keeps (sfail e) s R.
Proof. by intros Hg. Qed.

Lemma keeps_lift {E A} (o : outcome E A) s (R : A -> S -> Prop) : (forall a, o = Ok a -> R a s) -> keeps (slift o) s R.
Proof. intros H Hg. apply leaves_lift; [|by split]. intros a Ha. split; [done|]. split; [done|]. by apply H. Qed.

Lemma keeps_lift_bind {E A B} (o : outcome E A) (k : A -> ST S E B) s (R : B -> S -> Prop) :
  (forall a, o = Ok a -> keeps (k a) s R) -> keeps (sbind (slift o) k) s R.
Proof. intros H Hg. apply leaves_bind, leaves_lift; [|by split]. intros a Ha. by apply H. Qed.

Lemma keeps_get {E A} (k : S -> ST S E A) s (R : A -> S -> Prop) : keeps (k s) s R -> keeps (sbind sget k) s R.
Proof. done. Qed.

Lemma keeps_bind {E A B} (m : ST S E A) (k : A -> ST S E B) s (Q : A -> S -> Prop) (R : B -> S -> Prop) :
  keeps m s Q -> (forall a s1, follows s s1 -> Q a s1 -> keeps (k a) s1 R) -> keeps (sbind m k) s R.
Proof.
  intros Hm Hk Hg. apply leaves_bind. eapply leaves_mono; [exact (Hm Hg)|..]; [|done].
  intros a s1 (Hg1 & Hf & HQ). eapply leaves_mono; [exact (Hk a s1 Hf HQ Hg1)|..].
  - intros b s2 (? & ? & ?). split; [done|]. split; [by etrans|done].
  - intros s2 [? ?]. split; [done|by etrans].
Qed.

Lemma keeps_mono {E A} (m : ST S E A) s (Q R : A -> S -> Prop) :
  keeps m s Q -> (forall a s1, follows s s1 -> Q a s1 -> R a s1) -> keeps m s R.
Proof. intros Hm Hk Hg. eapply leaves_mono; [exact (Hm Hg)|..]; [|done]. intros a s1 (? & ? & ?). auto. Qed.

Lemma keeps_map_err {E F A} (f : E -> F) (m : ST S E A) s R : keeps m s R -> keeps (map_err f m) s R.
Proof. intros Hm Hg. by apply leaves_map_err, Hm. Qed.

Lemma keeps_attempt {E F A} (m : ST S E A) s (R : A -> S -> Prop) :
  keeps m s R -> keeps (attempt (F := F) m) s (fun o s' => forall a, o = Ok a -> R a s').
Proof.
  intros Hm Hg. apply leaves_attempt; [eapply leaves_mono; [exact (Hm Hg)|..]|]; [|done|].
  - intros a s' (? & ? & ?). split; [done|]. split; [done|]. by intros ? [= <-].
  - intros e s' [? ?]. by split.
Qed.

Lemma keeps_good {E A} (m : ST S E A) s R : (good s -> keeps m s R) -> keeps m s R.
Proof. intros H Hg. by apply H. Qed.

Lemma keeps_if {E A} (b : bool) (m n : ST S E A) s R :
  (b = true -> keeps m s R) -> (b = false -> keeps n s R) -> keeps (if b then m else n) s R.
Proof. destruct b; auto. Qed.
End keeps.

Ltac keeps_step :=
  lazymatch goal with
  | |- keeps _ _ (sbind sget _) _ _ => apply keeps_get; cbv beta
  | |- keeps _ _ (sret _) _ _ => apply keeps_ret; [apply _|]
  | |- keeps _ _ (sfail _) _ _ => apply keeps_fail; apply _
  | |- keeps _ _ (slift Panic) _ _ => apply keeps_lift; [apply _|done]
  | |- keeps _ _ (slift OutOfFuel) _ _ => apply keeps_lift; [apply _|done]
  | |- keeps _ _ (if ?b then _ else _) _ _ =>
      lazymatch type of b with bool => apply keeps_if; intros; unbool | _ => destruct b eqn:? end
  | |- keeps _ _ (let _ := _ in _) _ _ => cbv zeta
  | |- keeps _ _ (match ?x with _ => _ end) _ _ => destruct x eqn:?
  end.
Ltac keeps_steps := repeat keeps_step.
Ltac keeps_inner t := first [solve [t ()] | apply keeps_attempt; keeps_inner t | apply keeps_map_err; keeps_inner t].

(** The first step of a sequence by [t]. *)
Tactic Notation "keeps_by" tactic3(t) := eapply keeps_bind; [apply _|keeps_inner ltac:(fun _ => t)|intros; cbv beta in *].

(** ** Calls to the system *)

Section host.
Context {W D : Type} (system : HostOs W D) (walk : W * list (HostEvent D) -> nat).

Abbreviation host := (watched system).
Abbreviation W' := (W * list (HostEvent D))%type.
Definition tidy (w : W') : Prop := confined w.2.
Definition later (w w' : W') : Prop := w.2 `suffix_of` w'.2.
#[local] Instance later_preorder : PreOrder later.
Proof. split; [intros w; unfold later; done|intros a b c; unfold later; by etrans]. Qed.
Abbreviation keeps := (keeps tidy later).

Lemma keeps_call {E A} (event : option A -> HostEvent D) (m : ST W E A) w (R : A -> W' -> Prop) :
  (forall r, event_ok w.2 (event r)) -> (forall a w', w'.2 = event (Some a) :: w.2 -> R a w') -> keeps (written_down event m) w R.
Proof.
  intros Hok HR Hg. unfold leaves, written_down. destruct (m w.1) as [o w1].
  assert (forall r, tidy (w1, event r :: w.2) /\ later w (w1, event r :: w.2)) as H.
  { intros r. split; [split; [apply Hok|exact Hg]|]. by apply suffix_cons_r. }
  destruct o as [a|e| |]; [|apply H..]. split; [apply H|]. split; [apply H|by apply HR].
Qed.

Lemma later_dir w w' fd : later w w' -> dir_held w.2 fd -> dir_held w'.2 fd.
Proof. apply dir_held_mono. Qed.
Lemma later_file w w' fd : later w w' -> file_held w.2 fd -> file_held w'.2 fd.
Proof. apply file_held_mono. Qed.
Lemma later_stream w w' d : later w w' -> stream_held w.2 d -> stream_held w'.2 d.
Proof. apply stream_held_mono. Qed.
Lemma later_streams w w' ds : later w w' -> Forall (stream_held w.2) ds -> Forall (stream_held w'.2) ds.
Proof. intros Hl H. eapply Forall_impl; [exact H|]. intros d. by apply later_stream. Qed.
Lemma later_name w w' n : later w w' -> entry_name_held w.2 n -> entry_name_held w'.2 n.
Proof. apply entry_name_held_mono. Qed.

#[local] Hint Resolve later_dir later_file later_stream later_streams later_name : scope.

Lemma lookup_io_keeps dir name w :
  dir_held w.2 dir -> entry_name_held w.2 name -> keeps (lookup_io host dir name) w (fun _ _ => True).
Proof.
  intros Hd Hn. unfold lookup_io. keeps_by (by apply (keeps_call _ _ _ (fun _ _ => True))). by keeps_steps.
Qed.

Lemma lookup_keeps dir name w :
  dir_held w.2 dir -> entry_name_held w.2 name -> keeps (lookup host dir name) w (fun _ _ => True).
Proof. intros Hd Hn. apply keeps_map_err. by apply lookup_io_keeps. Qed.

(** A directory opened in another. *)
Lemma openat_dir_keeps dir name mode w :
  dir_held w.2 dir -> entry_name_held w.2 name ->
  keeps (h_openat host dir name directory_flags mode) w (fun fd w' => dir_held w'.2 fd).
Proof.
  intros Hd Hn. apply keeps_call; [done|]. intros fd w' ->. eapply held_child. by left.
Qed.

Lemma open_directory_keeps dir name w :
  dir_held w.2 dir -> entry_name_held w.2 name -> keeps (open_directory host dir name) w (fun fd w' => dir_held w'.2 fd).
Proof.
  intros Hd Hn. unfold open_directory. keeps_by (by apply openat_dir_keeps).
  keeps_steps; eauto; (keeps_by (apply lookup_keeps; eauto with scope)); keeps_steps.
Qed.

Lemma open_child_keeps dir name w :
  dir_held w.2 dir -> entry_name_held w.2 name ->
  keeps (open_child host dir name) w (fun r w' => forall fd, r = Some fd -> dir_held w'.2 fd).
Proof.
  intros Hd Hn. unfold open_child. keeps_by (by apply openat_dir_keeps).
  keeps_steps; try done; intros ? [= <-]; eauto.
Qed.

Lemma dir_new_keeps fd w : dir_held w.2 fd -> keeps (h_dir_new host fd) w (fun d w' => stream_held w'.2 d).
Proof. intros H. apply keeps_call; [done|]. intros d w' ->. eapply held_stream. by left. Qed.

Lemma dir_fd_keeps d w : stream_held w.2 d -> keeps (h_dir_fd host d) w (fun fd w' => dir_held w'.2 fd).
Proof. intros H. apply keeps_call; [done|]. intros fd w' ->. eapply held_of_stream. by left. Qed.

(** An entry of a listing other than the two dots. *)
Definition next_held (r : option (OsName * D)) (w : W') : Prop :=
  forall name rest, r = Some (name, rest) -> stream_held w.2 rest /\ (name <> dot_dot -> entry_name_held w.2 name).

Lemma dir_next_keeps d w : stream_held w.2 d -> keeps (h_dir_next host d) w next_held.
Proof.
  intros H. apply keeps_call; [done|]. intros r w' E name rest ->. rewrite E. split; [eapply held_rest; by left|].
  intros Hn. right; right. split; [done|]. exists d, rest. by left.
Qed.
(** One turn of a walk, from the invariant [IH] of the rest. *)
Ltac keeps_walk IH :=
  cbv zeta; let Hd := fresh "Hd" in let Hs := fresh "Hs" in
  lazymatch goal with H : Forall _ (_ :: _) |- _ => apply Forall_cons in H as [Hd Hs] end;
  keeps_by (by apply dir_next_keeps); keeps_steps;
  try (apply IH; by eauto with scope);
  (lazymatch goal with
   | H : next_held (Some (_, _)) _ |- _ =>
       let Hr := fresh "Hr" in let Hn := fresh "Hn" in
       destruct (H _ _ eq_refl) as [Hr Hn]; try (apply IH; by eauto with scope);
       specialize (Hn ltac:(done));
       (keeps_by (by apply dir_fd_keeps)); (keeps_by (apply lookup_io_keeps; eauto with scope));
       keeps_steps; try done; try (apply IH; constructor; by eauto with scope);
       (keeps_by (apply open_child_keeps; eauto with scope)); keeps_steps;
       try (apply IH; constructor; by eauto 8 with scope);
       (keeps_by (apply dir_new_keeps; eauto)); apply IH; repeat constructor; eauto 8 with scope
   end).

Lemma deeper_loop_keeps fuel allowance stack w :
  Forall (stream_held w.2) stack -> keeps (deeper_loop host fuel allowance stack) w (fun _ _ => True).
Proof.
  revert stack w. induction fuel as [|fuel IH]; intros stack w Hs; cbn [deeper_loop]; [by keeps_steps|].
  destruct stack as [|d below]; [by keeps_steps|]. keeps_walk IH.
Qed.

Lemma scan_loop_keeps fuel stack used count w :
  Forall (stream_held w.2) stack -> keeps (scan_loop host fuel stack used count) w (fun _ _ => True).
Proof.
  revert stack used count w. induction fuel as [|fuel IH]; intros stack used count w Hs; cbn [scan_loop]; [by keeps_steps|].
  destruct stack as [|d below]; [by keeps_steps|]. keeps_walk IH.
Qed.

Lemma scan_tree_keeps root w : dir_held w.2 root -> keeps (scan_tree host walk root) w (fun _ _ => True).
Proof.
  intros H. unfold scan_tree. keeps_steps.
  keeps_by (apply dir_new_keeps; eauto with scope). apply scan_loop_keeps. by repeat constructor.
Qed.

Lemma with_quota_keeps root quota (w : W) :
  keeps (with_quota host walk root quota) (w, [])
    (fun r w' => lv_host r.1 = host /\ dir_held w'.2 (lv_root_dir r.1) /\ l_handles r.2 = ∅).
Proof.
  unfold with_quota. eapply keeps_bind; [apply _| |].
  - apply (keeps_call _ _ _ (fun path w' => w'.2 = [EvCanonicalize root (Some path)])); [done|]. by intros path w' ->.
  - intros path w1 _ E1. cbv beta in E1.
    keeps_by (apply (keeps_call _ _ _ (fun fd w' => dir_held w'.2 fd));
      [intros r; split; [done|by exists root]|intros fd w' ->; eapply held_root; by left]).
    keeps_by (by apply scan_tree_keeps). keeps_steps. cbn. eauto with scope.
Qed.

(** ** Calls on open files *)

Lemma file_call_keeps {E A} (m : ST W E A) file w :
  file_held w.2 file -> keeps (written_down (fun _ => EvFile file) m) w (fun _ _ => True).
Proof. intros H. by apply keeps_call. Qed.

Lemma file_len_keeps file w : file_held w.2 file -> keeps (file_len host file) w (fun _ _ => True).
Proof. intros H. unfold file_len. apply keeps_map_err. keeps_by (by apply file_call_keeps). by keeps_steps. Qed.

Lemma write_all_at_keeps fuel file new offset w :
  file_held w.2 file -> keeps (write_all_at host fuel file new offset) w (fun _ _ => True).
Proof.
  revert new offset w. induction fuel as [|fuel IH]; intros new offset w H; cbn [write_all_at]; [by keeps_steps|].
  keeps_step; [by keeps_steps|]. keeps_by (by apply file_call_keeps).
  keeps_steps; first [done|apply IH; eauto with scope].
Qed.

Lemma read_loop_keeps fuel file offset size have w :
  file_held w.2 file -> keeps (read_loop host fuel file offset size have) w (fun _ _ => True).
Proof.
  revert have w. induction fuel as [|fuel IH]; intros have w H; cbn [read_loop]; [by keeps_steps|].
  keeps_step; [|by keeps_steps]. apply keeps_lift_bind; [apply _|intros].
  keeps_by (apply file_call_keeps; eauto with scope). keeps_steps; first [done|apply IH; eauto with scope].
Qed.

(** ** Paths *)

Lemma descend_keeps dir cs w :
  dir_held w.2 dir -> Forall component_ok cs -> keeps (descend host dir cs) w (fun fd w' => dir_held w'.2 fd).
Proof.
  revert dir w. induction cs as [|c cs IH]; intros dir w H Hcs; cbn [descend]; [by keeps_steps|].
  apply Forall_cons in Hcs as [Hc Hcs].
  keeps_by (apply open_directory_keeps; [done|right; left; by exists c]). by apply IH.
Qed.

(** ** Methods *)

Context (patience : W' -> nat) (root : str) (root_dir : Z) (quota : VfsQuota).
Abbreviation v := (mkLocalVfs host root root_dir quota).

Definition handles_held (tr : list (HostEvent D)) (hs : gmap Z HandleState) : Prop :=
  forall h x, hs !! h = Some x -> file_held tr (hs_file x).

(** The trace is confined, and the root and the files of the handles are held. *)
Definition in_scope (s : LocalWorld W') : Prop :=
  confined (lw_host s).2 /\ dir_held (lw_host s).2 root_dir /\ handles_held (lw_host s).2 (l_handles (lw_state s)).
Definition after (s s' : LocalWorld W') : Prop := later (lw_host s) (lw_host s').
#[local] Instance after_preorder : PreOrder after.
Proof. split; [intros s; unfold after; done|intros a b c; unfold after; by etrans]. Qed.
Abbreviation stays := (LocalScope.keeps in_scope after).

Lemma after_dir s s' fd : after s s' -> dir_held (lw_host s).2 fd -> dir_held (lw_host s').2 fd.
Proof. apply later_dir. Qed.
Lemma after_file s s' fd : after s s' -> file_held (lw_host s).2 fd -> file_held (lw_host s').2 fd.
Proof. apply later_file. Qed.
Lemma after_stream s s' d : after s s' -> stream_held (lw_host s).2 d -> stream_held (lw_host s').2 d.
Proof. apply later_stream. Qed.
Lemma after_handles s s' hs : after s s' -> handles_held (lw_host s).2 hs -> handles_held (lw_host s').2 hs.
Proof. intros Ha H h x Hx. apply (after_file _ _ _ Ha). by apply (H h). Qed.
#[local] Hint Resolve after_dir after_file after_stream after_handles : scope.

Lemma on_host_stays {A} (m : ST W' Errno A) s (R : A -> W' -> Prop) :
  keeps m (lw_host s) R -> stays (on_host m) s (fun a s' => R a (lw_host s') /\ lw_state s' = lw_state s).
Proof.
  intros H (Hc & Hd & Hh). unfold leaves, on_host. specialize (H Hc). unfold leaves in H.
  assert (forall w', later (lw_host s) w' -> dir_held w'.2 root_dir /\ handles_held w'.2 (l_handles (lw_state s))) as Hl.
  { intros w' Hl. split; [by eapply later_dir|]. intros h x Hx. eapply later_file; [exact Hl|]. by apply (Hh h). }
  assert (forall w', tidy w' /\ later (lw_host s) w' -> in_scope (mkLocalWorld (lw_state s) w') /\ after s (mkLocalWorld (lw_state s) w')) as Hk.
  { intros w' [Ht Hla]. destruct (Hl _ Hla) as [? ?]. split; [by split|exact Hla]. }
  destruct (m (lw_host s)) as [[a|e| |] w']; [|by apply Hk..]. destruct H as (Ht & Hla & HR).
  destruct (Hk w' (conj Ht Hla)) as [? ?]. done.
Qed.

Lemma put_state_stays {A} x (k : unit -> ST (LocalWorld W') Errno A) s (R : A -> LocalWorld W' -> Prop) :
  handles_held (lw_host s).2 (l_handles x) -> stays (k tt) (mkLocalWorld x (lw_host s)) R -> stays (sbind (put_state x) k) s R.
Proof. intros Hx Hk (Hc & Hd & _). by apply Hk. Qed.

Lemma put_state_last x s (R : unit -> LocalWorld W' -> Prop) :
  handles_held (lw_host s).2 (l_handles x) -> R tt (mkLocalWorld x (lw_host s)) -> stays (put_state x) s R.
Proof. intros Hx HR (Hc & Hd & _). unfold leaves, put_state. split; [by split|]. split; [|done]. unfold after. done. Qed.

Lemma get_state_stays {A} (k : LocalState -> ST (LocalWorld W') Errno A) s (R : A -> LocalWorld W' -> Prop) :
  (handles_held (lw_host s).2 (l_handles (lw_state s)) -> stays (k (lw_state s)) s R) -> stays (sbind get_state k) s R.
Proof. intros H Hg. apply H; [apply Hg|done]. Qed.

Lemma get_host_stays {A} (k : W' -> ST (LocalWorld W') Errno A) s (R : A -> LocalWorld W' -> Prop) :
  stays (k (lw_host s)) s R -> stays (sbind get_host k) s R.
Proof. done. Qed.

Lemma readdir_loop_keeps fuel dir stream entries w :
  dir_held w.2 dir -> stream_held w.2 stream -> keeps (readdir_loop v fuel dir stream entries) w (fun _ _ => True).
Proof.
  revert stream entries w. induction fuel as [|fuel IH]; intros stream entries w Hd Hs; cbn [readdir_loop]; [by keeps_steps|].
  keeps_by (by apply dir_next_keeps). destruct a as [[name rest]|]; [|by keeps_steps]. destruct (H0 _ _ eq_refl) as [Hr Hn].
  destruct name as [name|]; cbn [to_str]; [|apply IH; eauto with scope].
  keeps_step; [apply IH; eauto with scope|].
  keeps_by (apply lookup_keeps; [eauto with scope|apply Hn; intros [= ->]; done]).
  keeps_steps; apply IH; eauto with scope.
Qed.

Ltac stays_step :=
  lazymatch goal with
  | |- LocalScope.keeps _ _ (sbind get_state _) _ _ => apply get_state_stays; intros ?Hheld
  | |- LocalScope.keeps _ _ (sbind get_host _) _ _ => apply get_host_stays
  | |- LocalScope.keeps _ _ (sbind (put_state _) _) _ _ => apply put_state_stays; [by eauto 12 with scope|]
  | |- LocalScope.keeps _ _ (put_state _) _ _ => apply put_state_last; [by eauto 12 with scope|]
  | |- LocalScope.keeps _ _ (sbind (slift _) _) _ _ =>
      apply keeps_lift_bind; [apply _|intros; cbv beta in *]
  | _ => keeps_step
  end.
Ltac stays_steps := repeat stays_step.
(** A call on the system by [t]. *)
Tactic Notation "stays_by" tactic3(t) :=
  eapply keeps_bind; [apply _|keeps_inner ltac:(fun _ => apply on_host_stays; t)|intros ? ? ? [? _]; cbv beta in *].

Definition resolved_held (tr : list (HostEvent D)) (r : Resolved) : Prop :=
  dir_held tr (r_parent r) /\ Forall component_ok (r_components r) /\ r_name r = default (lit ".") (last (r_components r)).

Lemma resolved_entry tr r : resolved_held tr r -> entry_name_held tr (inl (r_name r)).
Proof.
  intros (_ & Hc & ->). destruct (last (r_components r)) as [c|] eqn:E; [|by left]. right; left. exists c. split; [done|].
  apply last_Some_elem_of in E. by eapply Forall_forall in Hc.
Qed.

Lemma resolved_parent tr r : resolved_held tr r -> dir_held tr (r_parent r).
Proof. by intros []. Qed.

Lemma resolved_component tr r : resolved_held tr r -> is_root r = false -> component (inl (r_name r)).
Proof.
  intros (_ & Hc & ->) Hr. unfold is_root in Hr. unbool. destruct (last (r_components r)) as [c|] eqn:E; [|by apply last_None in E].
  exists c. split; [done|]. apply last_Some_elem_of in E. by eapply Forall_forall in Hc.
Qed.

Lemma resolved_later s s' r : after s s' -> resolved_held (lw_host s).2 r -> resolved_held (lw_host s').2 r.
Proof. intros H (? & ? & ?). split; [eauto with scope|done]. Qed.
#[local] Hint Resolve resolved_later resolved_entry resolved_parent resolved_component : scope.

(** A call that changes a name. *)
Ltac name_call := apply keeps_map_err, (keeps_call _ _ _ (fun _ _ => True)); [repeat split; eauto 8 with scope|done].

Lemma resolve_stays path s : stays (resolve v path) s (fun r s' => resolved_held (lw_host s').2 r).
Proof.
  apply keeps_good. intros (_ & Hroot & _). unfold resolve. stays_steps.
  stays_by (apply keeps_map_err, (keeps_call _ _ _ (fun fd w' => dir_held w'.2 fd));
    [intros r; cbn; eauto with scope|intros fd w' ->; eapply held_copy; by left]).
  pose proof (normalize_path_post path) as Hp. rewrite H in Hp. destruct Hp as [Hp _].
  stays_by (apply descend_keeps; [done|by apply Forall_take]).
  stays_steps. by split.
Qed.

Lemma lookup_at_stays r s : resolved_held (lw_host s).2 r -> stays (lookup_at v r) s (fun _ _ => True).
Proof.
  intros H. eapply keeps_mono; [apply on_host_stays, lookup_keeps; [apply H|by apply resolved_entry]|done].
Qed.

Lemma release_held tr key n s : handles_held tr (l_handles s) -> handles_held tr (l_handles (release_entry key n s)).
Proof. unfold release_entry. by destruct (l_open_files s !! key). Qed.

Lemma replaced_held tr target s : handles_held tr (l_handles s) -> handles_held tr (l_handles (replaced target s)).
Proof. unfold replaced. destruct target as [[[] ? ?]|]; try done. apply release_held. Qed.
#[local] Hint Resolve release_held replaced_held : scope.

Lemma stat_stays path s : stays (stat v path) s (fun _ _ => True).
Proof.
  unfold stat. keeps_by (apply resolve_stays). keeps_by (by apply lookup_at_stays). stays_steps. by apply keeps_lift; [apply _|].
Qed.

Lemma readdir_stays path s : stays (readdir v walk path) s (fun _ _ => True).
Proof.
  unfold readdir. keeps_by (apply resolve_stays). stays_steps.
  stays_by (apply open_directory_keeps; [apply H0|by apply resolved_entry]).
  stays_by (by apply keeps_map_err, dir_new_keeps).
  stays_by (apply readdir_loop_keeps; eauto with scope). by stays_steps.
Qed.

Lemma mkdir_stays path s : stays (mkdir v path) s (fun _ _ => True).
Proof.
  unfold mkdir. keeps_by (apply resolve_stays). stays_steps.
  keeps_by (by apply lookup_at_stays). stays_steps.
  stays_by name_call.
  by stays_steps.
Qed.

Lemma too_deep_stays kind from to s : resolved_held (lw_host s).2 from -> stays (too_deep v walk kind from to) s (fun _ _ => True).
Proof.
  intros H. unfold too_deep. stays_steps; [|done].
  stays_by (apply open_directory_keeps; [apply H|by apply resolved_entry]).
  eapply keeps_mono; [apply on_host_stays, keeps_map_err|done]. unfold subtree_deeper_than. keeps_steps.
  keeps_by (by apply dir_new_keeps). apply deeper_loop_keeps. by repeat constructor.
Qed.

Lemma rename_stays from to s : stays (rename v walk from to) s (fun _ _ => True).
Proof.
  unfold rename. keeps_by (apply resolve_stays). keeps_by (apply resolve_stays). stays_steps.
  all: keeps_by (apply lookup_at_stays; eauto with scope). 
  all: stays_steps; try done.
  all: keeps_by (apply too_deep_stays; eauto with scope).
  all: stays_steps; try done.
  all: keeps_by (apply lookup_at_stays; eauto 6 with scope).
  all: stays_by name_call.
  all: by stays_steps.
Qed.

Lemma unlink_stays path s : stays (unlink v path) s (fun _ _ => True).
Proof.
  unfold unlink. keeps_by (apply resolve_stays). stays_steps. keeps_by (by apply lookup_at_stays). stays_steps.
  stays_by name_call. by stays_steps.
Qed.

Lemma rmdir_stays path s : stays (rmdir v path) s (fun _ _ => True).
Proof.
  unfold rmdir. keeps_by (apply resolve_stays). stays_steps. keeps_by (by apply lookup_at_stays). stays_steps.
  stays_by name_call. by stays_steps.
Qed.

(** ** Files *)

Lemma drop_file_stays file s : file_held (lw_host s).2 file -> stays (drop_file v file) s (fun _ _ => True).
Proof.
  intros Hf (Hc & Hd & Hh). unfold leaves, drop_file. cbn [lv_host watched h_drop].
  assert (after s (mkLocalWorld (lw_state s) (h_drop system file (lw_host s).1, EvFile file :: (lw_host s).2))) as Ha by by apply suffix_cons_r.
  split; [|done]. split; [done|]. split; [by apply (after_dir _ _ _ Ha)|]. by apply (after_handles _ _ _ Ha).
Qed.

Lemma or_drop_stays {A} file (m : ST (LocalWorld W') Errno A) s R :
  file_held (lw_host s).2 file -> stays m s R -> stays (or_drop v file m) s R.
Proof.
  intros Hf Hm. unfold or_drop. keeps_by exact Hm. destruct a; [by stays_steps; auto|..];
    (keeps_by (apply drop_file_stays; eauto with scope)); by apply keeps_lift; [apply _|].
Qed.

Lemma dropping_stays {A} file (m : ST (LocalWorld W') Errno A) s :
  file_held (lw_host s).2 file -> stays m s (fun _ _ => True) -> stays (dropping v file m) s (fun _ _ => True).
Proof.
  intros Hf Hm. unfold dropping. keeps_by exact Hm. keeps_by (apply drop_file_stays; eauto with scope).
  by apply keeps_lift; [apply _|].
Qed.

Lemma file_stays {A} (m : ST W' Errno A) s : keeps m (lw_host s) (fun _ _ => True) -> stays (on_host m) s (fun _ _ => True).
Proof. intros H. eapply keeps_mono; [by apply on_host_stays|done]. Qed.

Lemma add_handle_stays file key mode s : file_held (lw_host s).2 file -> stays (add_handle file key mode) s (fun _ _ => True).
Proof.
  intros Hf. unfold add_handle. stays_steps. apply put_state_stays; [|by stays_steps].
  intros h x Hx. cbn in Hx. apply lookup_insert_Some in Hx as [[_ <-]|[_ Hx]]; cbn; [eauto with scope|].
  apply (Hheld h x Hx).
Qed.

Lemma open_stays path mode s : stays (open v path mode) s (fun _ _ => True).
Proof.
  unfold open. stays_steps. keeps_by (apply resolve_stays). stays_steps. keeps_by (by apply lookup_at_stays). stays_steps.
  stays_by (apply keeps_map_err, (keeps_call _ _ _ (fun fd w' => file_held w'.2 fd));
    [repeat split; eauto 8 with scope|intros fd w' ->; eapply held_file; [by left|done]]).
  keeps_by (apply or_drop_stays; [eauto with scope|by apply file_stays, keeps_map_err, file_call_keeps]).
  stays_step; [keeps_by (apply drop_file_stays; eauto with scope); by stays_steps|].
  apply (keeps_bind _ _ _ _ _ (fun _ _ => True)); [|intros ? ? ? _].
  { stays_step; [|by stays_steps]. keeps_by (apply or_drop_stays; [|apply file_stays, keeps_map_err, file_call_keeps]; eauto with scope).
    by stays_steps. }
  apply (keeps_bind _ _ _ _ _ (fun _ _ => True)); [by stays_steps|intros ? ? ? _].
  apply add_handle_stays. eauto 12 with scope.
Qed.

Lemma get_handle_stays {A} h (k : HandleState -> ST (LocalWorld W') Errno A) s R :
  (forall x, file_held (lw_host s).2 (hs_file x) -> stays (k x) s R) -> stays (sbind (get_handle h) k) s R.
Proof.
  intros H. unfold get_handle. intros Hg. apply leaves_bind, leaves_bind, leaves_ret, leaves_lift; [|by split].
  intros x Hx. apply H; [|done]. destruct (l_handles (lw_state s) !! h) as [y|] eqn:E; [|done]. injection Hx as <-.
  destruct Hg as (_ & _ & Hh). by apply (Hh h).
Qed.

Lemma read_at_stays h offset buf s : stays (read_at v patience h offset buf) s (fun _ _ => True).
Proof.
  unfold read_at. apply get_handle_stays. intros x Hx. stays_steps. keeps_by (by apply file_stays, read_loop_keeps). by stays_steps.
Qed.

Lemma write_at_stays h offset new s : stays (write_at v patience h offset new) s (fun _ _ => True).
Proof.
  unfold write_at. stays_steps. apply get_handle_stays. intros x Hx. stays_steps; try done.
  keeps_by (by apply file_stays, file_len_keeps). stays_steps.
  keeps_by (apply file_stays, keeps_map_err, write_all_at_keeps; eauto with scope). stays_steps; try done.
  keeps_by (apply file_stays, file_len_keeps; eauto with scope). by stays_steps.
Qed.

Lemma truncate_stays h n s : stays (truncate v h n) s (fun _ _ => True).
Proof.
  unfold truncate. stays_steps. apply get_handle_stays. intros x Hx. stays_steps.
  keeps_by (by apply file_stays, file_len_keeps). stays_steps.
  keeps_by (apply file_stays, keeps_map_err, file_call_keeps; eauto with scope). by stays_steps.
Qed.

Lemma release_handle_stays x s : file_held (lw_host s).2 (hs_file x) -> stays (release_handle v x) s (fun _ _ => True).
Proof.
  intros Hx. unfold release_handle. stays_steps; try done.
  keeps_by (by apply file_stays, file_len_keeps). by stays_steps.
Qed.

Lemma close_stays h s : stays (close v h) s (fun _ _ => True).
Proof.
  unfold close. stays_steps. apply put_state_stays.
  - intros g y Hy. cbn in Hy. apply lookup_delete_Some in Hy as [_ Hy]. by apply (Hheld g).
  - assert (file_held (lw_host s).2 (hs_file a)) as Ha.
    { destruct (l_handles (lw_state s) !! h) as [y|] eqn:E; [|done]. injection H as <-. by apply (Hheld h). }
    apply dropping_stays; [done|by apply release_handle_stays].
Qed.

(** ** Accounts *)

Lemma count_unlinked_stays open_files hs counted used count s :
  Forall (fun x => file_held (lw_host s).2 (hs_file x)) hs ->
  stays (count_unlinked v open_files hs counted used count) s (fun _ _ => True).
Proof.
  revert counted used count s. induction hs as [|x hs IH]; intros counted used count s Hs; cbn [count_unlinked]; [by stays_steps|].
  apply Forall_cons in Hs as [Hx Hs]. stays_step; [|by apply IH].
  keeps_by (by apply file_stays, file_len_keeps). stays_steps. apply IH.
  eapply Forall_impl; [exact Hs|]. eauto with scope.
Qed.

Lemma handle_values_held tr s : handles_held tr (l_handles s) -> Forall (fun x => file_held tr (hs_file x)) (handle_values s).
Proof.
  intros H. apply Forall_forall. intros x Hx. unfold handle_values in Hx. apply list_elem_of_fmap in Hx as ([h y] & -> & Hy).
  rewrite merge_sort_Permutation in Hy. apply elem_of_map_to_list in Hy. by apply (H h).
Qed.

Lemma refresh_stays s : stays (refresh v walk) s (fun _ _ => True).
Proof.
  apply keeps_good. intros (_ & Hroot & _). unfold refresh. stays_steps.
  keeps_by (by apply file_stays, keeps_map_err, scan_tree_keeps). destruct a as [used count].
  keeps_by (by eapply count_unlinked_stays, handle_values_held; eauto with scope). destruct a as [used' count']. by stays_steps.
Qed.

Lemma set_usage_stays usage s : stays (set_usage usage) s (fun _ _ => True).
Proof. unfold set_usage. by stays_steps. Qed.

(** ** Sequences of calls *)

Lemma u64_arg_stays {A} n (m : ST (LocalWorld W') Errno A) s R : stays m s R -> stays (u64_arg n m) s R.
Proof. intros H. unfold u64_arg. by stays_steps. Qed.

Lemma stays_state {A} (m : ST (LocalWorld W') Errno A) s : stays m s (fun _ _ => True) -> in_scope s -> in_scope (m s).2.
Proof. intros H Hs. apply (leaves_state m s in_scope). eapply leaves_mono; [exact (H Hs)|by intros a s' []|by intros s' []]. Qed.

#[local] Hint Resolve stat_stays readdir_stays mkdir_stays rename_stays unlink_stays rmdir_stays open_stays read_at_stays
  write_at_stays truncate_stays close_stays refresh_stays set_usage_stays u64_arg_stays : scope.

Lemma local_call_in_scope c s : in_scope s -> in_scope (local_call v walk patience c s).
Proof. destruct c; apply stays_state; cbn; auto with scope. Qed.

Lemma local_calls_in_scope calls s : in_scope s -> in_scope (local_calls v walk patience calls s).
Proof. revert s. induction calls as [|c calls IH]; intros s H; [done|]. by apply IH, local_call_in_scope. Qed.
End host.

(** From the opening of the root on. *)
Lemma confined_from_root {W D} (system : HostOs W D) walk patience root quota w :
  match with_quota (watched system) walk root quota (w, []) with
  | (Ok (v, st), w1) => forall calls, confined (lw_host (local_calls v walk patience calls (mkLocalWorld st w1))).2
  | (_, w1) => confined w1.2
  end.
Proof.
  pose proof (with_quota_keeps system walk root quota w Logic.I) as H. unfold leaves in H.
  destruct (with_quota _ _ _ _ _) as [[[v st]|e| |] w1]; [|apply H..]. destruct H as (Hc & _ & Hh & Hd & Hst).
  intros calls. destruct v as [h root' dir quota']. cbn in Hh, Hd, Hst. subst h.
  apply (local_calls_in_scope system walk patience root' dir quota'). split; [exact Hc|]. split; [exact Hd|].
  intros g x Hx. cbn in Hx. rewrite Hst in Hx. done.
Qed.
