(* ===== verification/LocalSpec.v ===== *)
(** * The local filesystem: what it promises

    The properties of the filesystem from the moment [with_quota] opens a root, over
    any host that obeys [LocalLaws] and whose tree nobody else changes.  Each is
    shown at work on the disk in memory. *)

From Stdlib Require Import Ascii String Sorted.
From stdpp Require Import sorting gmap.
From S2P Require Import Prelude RustStr VfsTypes VfsPath VfsIface MemVfs MemVfsInv MemVfsView MemVfsFiles.
From S2P Require Import LocalVfs LocalLaws LocalWalk LocalInv LocalPaths LocalHandles LocalOpen LocalSystem LocalScope LocalFake.

#[local] Open Scope Z_scope.

(** What is to be seen of a host. *)
Record View (W D : Type) := mkView {
  vw_tree : W -> Tree;
  vw_content : W -> FileKey -> option bytes;
  vw_at_dir : W -> Z -> option OsPath;
  vw_reg : W -> Z -> option FileKey;
  vw_stream : W -> D -> option (OsPath * list OsName);
  vw_patience : W -> nat;
  vw_lawful : W -> Prop;
  vw_based : W -> str -> Prop
}.
Arguments mkView {W D}.
Arguments vw_tree {W D}.
Arguments vw_content {W D}.
Arguments vw_at_dir {W D}.
Arguments vw_reg {W D}.
Arguments vw_stream {W D}.
Arguments vw_patience {W D}.
Arguments vw_lawful {W D}.
Arguments vw_based {W D}.

Section view.
Context {W D : Type} (x : View W D).

Abbreviation lawful_host := (LocalLaws (vw_tree x) (vw_content x) (vw_at_dir x) (vw_reg x) (vw_stream x) (vw_patience x) (vw_lawful x) (vw_based x)).

Definition local_good (v : LocalVfs W D) : LocalWorld W -> Prop := local_inv v (vw_tree x) (vw_at_dir x) (vw_reg x) (vw_lawful x).
Definition accounts_exact : LocalWorld W -> Prop := exact (vw_tree x) (vw_content x).
Definition untouched : LocalWorld W -> LocalWorld W -> Prop :=
  unmoved (vw_tree x) (vw_content x) (vw_at_dir x) (vw_reg x) (vw_stream x) (vw_lawful x).
Definition steady_host (host : HostOs W D) : Prop := SteadyHost (vw_content x) (vw_reg x) (vw_lawful x) host.
Definition healthy_host (host : HostOs W D) : Prop := HealthyHost host (vw_at_dir x) (vw_lawful x).

(** [with_quota] opened [root] of a lawful host without hard links as [v]. *)
Record local_made (host : HostOs W D) (walk : W -> nat) (root : str) (quota : VfsQuota) (v : LocalVfs W D) (w0 : W) (start : LocalWorld W) : Prop := {
  lm_laws : lawful_host host;
  lm_walk : walks_enough (vw_tree x) (vw_lawful x) walk;
  lm_quota : quota_ok quota;
  lm_host : vw_lawful x w0;
  lm_links : no_links (vw_tree x w0);
  lm_opened : exists st w1, with_quota host walk root quota w0 = (Ok (v, st), w1) /\ start = mkLocalWorld st w1
}.

(** What calls lead to, fewer than there are numbers for handles. *)
Definition local_reached (walk : W -> nat) (v : LocalVfs W D) (start : LocalWorld W) (calls : list LocalCall) (s : LocalWorld W) : Prop :=
  Z.of_nat (length calls) < U64_MAX /\ Forall call_fits calls /\ s = local_calls v walk (vw_patience x) calls start.

Section facts.
Context {host : HostOs W D} {walk : W -> nat} {root : str} {quota : VfsQuota} {v : LocalVfs W D} {w0 : W} {start : LocalWorld W}.
Context (HM : local_made host walk root quota v w0 start).

Lemma made_start :
  (lv_host v = host /\ lv_quota v = quota) /\ (local_good v start /\ accounts_exact start /\ shallow (vw_tree x (lw_host start)))
  /\ vw_tree x (lw_host start) = vw_tree x w0 /\ l_next_handle (lw_state start) = 1 /\ l_handles (lw_state start) = ∅.
Proof.
  destruct HM as [Hl Hw Hq HJ Hn (st & w1 & Hopen & ->)].
  pose proof (with_quota_spec (Hl := Hl) Hw root quota w0 HJ Hn) as H. unfold wp in H. rewrite Hopen in H. cbn [fst snd] in H.
  destruct H as (HJ1 & Hs & Hh & Hqv & -> & Hroot & Hsh). cbn [lw_host lw_state].
  assert (fresh_state (vw_tree x) (vw_content x) w0 = fresh_state (vw_tree x) (vw_content x) w1) as E.
  { unfold fresh_state, LocalWalk.tree_entries. by rewrite (same_tree_bytes _ _ Hs), (hs_tree Hs). }
  assert (no_links (vw_tree x w1)) as Hn1 by by rewrite (hs_tree Hs).
  destruct (fresh_inv (Hl := Hl) v w1 Hh HJ1 Hn1 Hroot) as [Hi Hx].
  split; [done|]. split; [|split; [apply (hs_tree Hs)|done]]. rewrite E. split; [exact Hi|]. split; [exact Hx|]. by rewrite (hs_tree Hs).
Qed.

Lemma made_laws : lawful_host (lv_host v).
Proof. destruct made_start as [[-> _] _]. apply HM. Qed.

Lemma made_quota : quota_ok (lv_quota v).
Proof. destruct made_start as [[_ ->] _]. apply HM. Qed.

Lemma made_rooms (calls : list LocalCall) : Z.of_nat (length calls) < U64_MAX -> local_rooms (length calls) start.
Proof. intros H. destruct made_start as (_ & _ & _ & E & _). unfold local_rooms. rewrite E. lia. Qed.

Lemma reached_good calls s : local_reached walk v start calls s -> local_good v s.
Proof.
  intros (Hlen & Hfits & ->). apply (calls_inv (Hl := made_laws) (lm_walk _ _ _ _ _ _ _ HM) made_quota); [|by apply made_rooms|done].
  apply made_start.
Qed.

Lemma reached_sound calls s :
  local_reached walk v start calls s -> Forall (fun c => sets_usage c = false) calls ->
  sound v (vw_tree x) (vw_content x) (vw_at_dir x) (vw_reg x) (vw_lawful x) start s.
Proof.
  intros (Hlen & _ & ->) Hset.
  apply (calls_sound (Hl := made_laws) (lm_walk _ _ _ _ _ _ _ HM) made_quota); [|by apply made_rooms|done].
  apply made_start.
Qed.
End facts.
End view.

(** The three steps of [with_quota]. *)
Lemma with_quota_runs {W D} (host : HostOs W D) walk root quota w c w1 f w2 used count w3 :
  h_canonicalize host root w = (Ok c, w1) -> h_open host c directory_flags w1 = (Ok f, w2) ->
  scan_tree host walk f w2 = (Ok (used, count), w3) ->
  with_quota host walk root quota w = (Ok (mkLocalVfs host c f quota, mkLocalState ∅ ∅ 1 used count), w3).
Proof. intros H1 H2 H3. unfold with_quota, sbind, io, map_err. by rewrite H1, H2, H3. Qed.

(** ** At work on the disk in memory *)

Definition disk_view (stuck : bool) : View Disk (OsPath * list OsName) :=
  mkView d_tree disk_content disk_at_dir disk_reg disk_stream disk_patience (disk_inv stuck) disk_based.

Definition name (s : string) : OsName := inl (lit s).

(** A directory with a file, and a link that nobody sees. *)
Definition demo_disk : Disk :=
  mkDisk (<[[name "docs"; name "a"] := FileAt (0, 1)]> (<[[name "docs"] := DirAt]> (<[[name "link"] := OtherAt]> {[ [] := DirAt ]})))
    {[ (0, 1) := [104; 105] ]} ∅ ∅ 3 2 2 false.

Lemma demo_disk_inv : disk_inv false demo_disk.
Proof.
  assert (forall p n o, d_tree demo_disk !! (p ++ [n]) = Some o -> p ++ [n] ∈ [[name "docs"; name "a"]; [name "docs"]; [name "link"]]) as Hdom.
  { intros p n o H. cbn in H. apply lookup_insert_Some in H as [[<- _]|[_ H]]; [set_solver|].
    apply lookup_insert_Some in H as [[<- _]|[_ H]]; [set_solver|]. apply lookup_insert_Some in H as [[<- _]|[_ H]]; [set_solver|].
    apply lookup_singleton_Some in H as [H _]. by destruct p. }
  constructor; cbn [demo_disk d_tree d_files d_dirs d_regs d_next_fd d_next_ino d_stuck]; try (vm_compute; done).
  - intros p n o H. apply Hdom in H.
    apply elem_of_cons in H as [H|H]; [change [name "docs"; name "a"] with ([name "docs"] ++ [name "a"]) in H; apply app_inj_tail in H as [-> ->]|].
    { split; [reflexivity|]. by vm_compute. }
    apply elem_of_cons in H as [H|H]; [|apply list_elem_of_singleton in H]; (destruct p as [|? [|? ?]]; [|done|done]); injection H as ->; (split; [reflexivity|by vm_compute]).
  - intros p k H. apply lookup_insert_Some in H as [[_ [= <-]]|[_ H]]; [by eexists|].
    apply lookup_insert_Some in H as [[_ H]|[_ H]]; [done|]. apply lookup_insert_Some in H as [[_ H]|[_ H]]; [done|].
    by apply lookup_singleton_Some in H as [_ H].
  - intros k d [<- <-]%lookup_singleton_Some. simpl. lia.
Qed.

Definition demo_quota : VfsQuota := mkVfsQuota 64 32 8.
Definition demo_rooted : Disk := put_dirs (<[3 := []]> ∅) demo_disk.
Definition demo_scan : outcome IoError (Z * Z) * Disk := scan_tree disk_host disk_walk 3 demo_rooted.
Lemma demo_scanned : demo_scan.1 = Ok (2, 2).
Proof. vm_compute. reflexivity. Qed.

Definition demo_fs : LocalVfs Disk (OsPath * list OsName) := mkLocalVfs disk_host disk_root 3 demo_quota.
Definition demo_start : LocalWorld Disk := mkLocalWorld (mkLocalState ∅ ∅ 1 2 2) demo_scan.2.

Lemma demo_made : local_made (disk_view false) disk_host disk_walk disk_root demo_quota demo_fs demo_disk demo_start.
Proof.
  split; [exact (disk_laws false)|exact (disk_walks false)|by vm_compute|exact demo_disk_inv| |].
  - intros p q k Hp Hq. assert (forall a, d_tree demo_disk !! a = Some (FileAt k) -> a = [name "docs"; name "a"]) as Hone.
    { intros a H. cbn in H. apply lookup_insert_Some in H as [[<- _]|[_ H]]; [done|].
      apply lookup_insert_Some in H as [[_ H]|[_ H]]; [done|]. apply lookup_insert_Some in H as [[_ H]|[_ H]]; [done|].
      by apply lookup_singleton_Some in H as [_ H]. }
    by rewrite (Hone p Hp), (Hone q Hq).
  - exists (mkLocalState ∅ ∅ 1 2 2), demo_scan.2. split; [|done].
    apply (with_quota_runs disk_host disk_walk disk_root demo_quota demo_disk disk_root demo_disk 3 demo_rooted 2 2 demo_scan.2); [reflexivity|reflexivity|].
    rewrite <- demo_scanned. apply surjective_pairing.
Qed.

(** ** A backend *)

(** C20: Over any lawful host the local filesystem is a backend as the sandbox relies on:
    no method panics or runs on, [open] gives out fresh handles and [close] takes
    its own back, whatever the host answers, in every state that calls lead to from
    the opening of the root on, the counters set from outside included. *)
Theorem local_is_a_backend {W D} (x : View W D) host walk root quota v w0 start :
  local_made x host walk root quota v w0 start ->
  FdLaws (local_good x v) (local_rooms 1) local_owned (local_vfs v walk (vw_patience x))
  /\ RoomLaws (local_good x v) (local_rooms 1) local_rooms (local_vfs v walk (vw_patience x))
  /\ forall calls s, local_reached x walk v start calls s -> local_good x v s.
Proof.
  intros HM. pose proof (made_laws x HM) as Hl. pose proof (lm_walk _ _ _ _ _ _ _ _ HM) as Hw. pose proof (made_quota x HM) as Hq.
  split; [exact (local_laws (Hl := Hl) Hw Hq)|]. split; [exact (local_room_laws (Hl := Hl) Hw Hq)|].
  intros calls s. exact (reached_good x HM calls s).
Qed.

Lemma local_is_a_backend_witness :
  FdLaws (local_good (disk_view false) demo_fs) (local_rooms 1) local_owned (local_vfs demo_fs disk_walk disk_patience).
Proof.
  exact (proj1 (local_is_a_backend (disk_view false) disk_host disk_walk disk_root demo_quota demo_fs demo_disk demo_start demo_made)).
Defined.

(** C21: Whatever the host answers and whoever else changes its tree, no call leaves the
    root: from its opening on every directory that a call names is the root, or was
    opened in such a directory by a single name and without following a link; what is
    opened or looked up is a component of a path, or was listed there, and what is
    created, moved or removed is always a component; and data is only read from, written to
    or cut in files opened so. *)
Theorem local_stays_below_root {W D} (host : HostOs W D) walk patience root quota w :
  match with_quota (watched host) walk root quota (w, []) with
  | (Ok (v, st), w1) => forall calls, confined (lw_host (local_calls v walk patience calls (mkLocalWorld st w1))).2
  | (_, w1) => confined w1.2
  end.
Proof. apply confined_from_root. Qed.

(** A path through a link on the disk is given up at the link. *)
Example link_is_not_followed :
  let r := with_quota (watched disk_host) (fun s => disk_walk s.1) disk_root demo_quota (demo_disk, []) in
  match r with
  | (Ok (v, st), w1) =>
      let s := local_call v (fun s => disk_walk s.1) (fun s => disk_patience s.1) (LOpen (lit "/link/x") read_only) (mkLocalWorld st w1) in
      (exists fd rest, (lw_host s).2 = EvStatat fd (name "link") true :: EvOpenat fd (name "link") directory_flags None :: rest)
      /\ l_handles (lw_state s) = ∅
  | _ => False
  end.
Proof. vm_compute. eauto. Qed.

(** ** The accounts *)

(** C22: The quota counters are exact: after any calls they are the bytes and the visible
    entries below the root, with the unlinked files that are still open, and what
    started within the quota stays within it; and [refresh] makes them exact again
    in any state, also after they were set from outside.  Answers about open files
    must not fail. *)
Theorem local_accounts_exact {W D} (x : View W D) host walk root quota v w0 start calls s :
  local_made x host walk root quota v w0 start -> steady_host x (lv_host v) -> local_reached x walk v start calls s ->
  (Forall (fun c => sets_usage c = false) calls -> accounts_exact x s /\ (within_quota v start -> within_quota v s))
  /\ wp (refresh v walk) s
       (fun r s' => accounts_exact x s' /\ stats (lw_state s') = r /\ vw_tree x (lw_host s') = vw_tree x (lw_host s))
       (fun _ s' => untouched x s s').
Proof.
  intros HM Hs Hr. pose proof (made_laws x HM) as Hl. destruct (made_start x HM) as (_ & (_ & Hx & _) & _). split.
  - intros Hset. destruct (reached_sound x HM calls s Hr Hset) as [_ He _]. by apply He.
  - eapply wp_mono; [exact (refresh_spec (Hl := Hl) (lm_walk _ _ _ _ _ _ _ _ HM) s (reached_good x HM calls s Hr))|..]; [|done].
    intros [u c] s' (s1 & Hc & _ & -> & _ & Hex). split; [by apply Hex|]. split; [done|]. exact (calm_tree _ _ Hc).
Qed.

Definition demo_calls : list LocalCall :=
  [LOpen (lit "/docs/b") (with_create read_write); LWriteAt 1 2 [1; 2; 3; 4; 5]; LUnlink (lit "/docs/b"); LUnlink (lit "/docs/a"); LMkdir (lit "/new")].
Definition demo_used : LocalWorld Disk := local_calls demo_fs disk_walk disk_patience demo_calls demo_start.

Lemma demo_reached calls :
  Z.of_nat (length calls) < U64_MAX -> Forall call_fits calls ->
  local_reached (disk_view false) disk_walk demo_fs demo_start calls (local_calls demo_fs disk_walk disk_patience calls demo_start).
Proof. done. Qed.

Lemma local_accounts_exact_witness :
  stats (lw_state demo_used) = mkVfsStats 7 3 /\ accounts_exact (disk_view false) demo_used.
Proof.
  split; [vm_compute; reflexivity|].
  apply (proj1 (local_accounts_exact (disk_view false) disk_host disk_walk disk_root demo_quota demo_fs demo_disk demo_start demo_calls demo_used
    demo_made disk_steady (demo_reached demo_calls ltac:(done) ltac:(by repeat constructor)))).
  by repeat constructor.
Defined.

(** C23: Opening the root again finds what was left: the same counters, unless an unlinked
    file is still open, and never a tree that is refused for its depth, whatever was
    renamed. *)
Theorem local_reopens {W D} (x : View W D) host walk root quota v w0 start calls s root' quota' :
  local_made x host walk root quota v w0 start -> steady_host x (lv_host v) -> local_reached x walk v start calls s ->
  Forall (fun c => sets_usage c = false) calls -> none_unlinked s ->
  wp (with_quota host walk root' quota') (lw_host s)
    (fun r w' => vw_tree x w' = vw_tree x (lw_host s) /\ l_used_bytes r.2 = l_used_bytes (lw_state s)
       /\ l_file_count r.2 = l_file_count (lw_state s))
    (fun e w' => vw_tree x w' = vw_tree x (lw_host s) /\ (e = InvalidInput -> is_ok (h_canonicalize host root' (lw_host s)).1 = false)).
Proof.
  intros HM Hs Hr Hset Hn. pose proof (made_laws x HM) as Hl. destruct (made_start x HM) as ([Hh _] & (_ & Hx & Hsh) & _).
  destruct (reached_sound x HM calls s Hr Hset) as [Hi He Hd]. destruct (He Hs Hx) as [Hex _].
  rewrite <- Hh. eapply wp_mono; [exact (reopen_spec (Hl := Hl) (lm_walk _ _ _ _ _ _ _ _ HM) root' quota' s Hi Hex (Hd Hsh) Hn)|..].
  - intros r w' (_ & Hsame & ->). split; [apply (hs_tree Hsame)|done].
  - intros e w' (_ & Hsame & Hc). split; [apply (hs_tree Hsame)|done].
Qed.

Definition reopen_calls : list LocalCall :=
  [LOpen (lit "/docs/b") (with_create read_write); LWriteAt 1 2 [1; 2; 3; 4; 5]; LClose 1; LRename (lit "/docs") (lit "/kept")].
Definition reopen_state : LocalWorld Disk := local_calls demo_fs disk_walk disk_patience reopen_calls demo_start.

Lemma local_reopens_witness :
  stats (lw_state reopen_state) = mkVfsStats 9 3
  /\ wp (with_quota disk_host disk_walk disk_root unlimited) (lw_host reopen_state)
    (fun r w' => d_tree w' = d_tree (lw_host reopen_state) /\ l_used_bytes r.2 = l_used_bytes (lw_state reopen_state)
       /\ l_file_count r.2 = l_file_count (lw_state reopen_state))
    (fun e w' => d_tree w' = d_tree (lw_host reopen_state)
       /\ (e = InvalidInput -> is_ok (disk_canonicalize disk_root (lw_host reopen_state)).1 = false)).
Proof.
  split; [vm_compute; reflexivity|].
  apply (local_reopens (disk_view false) disk_host disk_walk disk_root demo_quota demo_fs demo_disk demo_start reopen_calls reopen_state disk_root unlimited
    demo_made disk_steady (demo_reached reopen_calls ltac:(done) ltac:(by repeat constructor))); [by repeat constructor|].
  assert (l_open_files (lw_state reopen_state) = ∅) as E by (vm_compute; reflexivity).
  intros k o Ho. rewrite E in Ho. done.
Defined.

(** ** The tree *)

(** C24: On a host whose tree can be looked at, [stat] answers exactly what the walk along
    the components of the path finds, errors included, and [readdir] lists each
    entry of the directory once, in order, with the bytes it holds; links and
    special files are not there for either, nor to walk through.  Nothing changes. *)
Theorem local_shows_the_tree {W D} (x : View W D) host walk root quota v w0 start calls s path :
  local_made x host walk root quota v w0 start -> healthy_host x (lv_host v) -> local_reached x walk v start calls s ->
  let t := vw_tree x (lw_host s) in
  wp (v_stat (local_vfs v walk (vw_patience x)) path) s
    (fun m s' => untouched x s s' /\ stat_ref (vw_tree x) (vw_content x) (lw_host s) path = Ok m)
    (fun e s' => untouched x s s' /\ stat_ref (vw_tree x) (vw_content x) (lw_host s) path = Err e)
  /\ wp (v_readdir (local_vfs v walk (vw_patience x)) path) s
    (fun es s' => untouched x s s' /\ exists cs, normalize_path path = Ok cs /\ locate t cs = Ok (names cs)
       /\ t !! names cs = Some DirAt /\ dir_entries (vw_tree x) (vw_content x) (lw_host s) (names cs) es)
    (fun _ s' => untouched x s s').
Proof.
  intros HM Hh Hr t. pose proof (made_laws x HM) as Hl. pose proof (reached_good x HM calls s Hr) as Hi. split.
  - eapply wp_mono; [exact (local_stat_spec (Hl := Hl) path s Hi)|done|]. intros e s' [Hu He]. split; [done|]. by apply He.
  - eapply wp_mono; [exact (local_readdir_spec (Hl := Hl) (lm_walk _ _ _ _ _ _ _ _ HM) path s Hi)|..]; [|done].
    intros es s' (Hu & p & Hp & Hd & Hes). split; [done|]. destruct (normalize_path path) as [cs| | |]; try done. simpl in Hp.
    pose proof (locate_path _ _ _ Hp) as ->. by exists cs.
Qed.

Lemma local_shows_the_tree_witness :
  (v_readdir (local_vfs demo_fs disk_walk disk_patience) (lit "/") demo_start).1 = Ok [mkDirEntry (lit "docs") (mkMetadata DirectoryType 0)]
  /\ stat_ref d_tree disk_content (lw_host demo_start) (lit "/link/x") = Err ENOENT
  /\ wp (v_stat (local_vfs demo_fs disk_walk disk_patience) (lit "/docs/a")) demo_start
    (fun m s' => untouched (disk_view false) demo_start s' /\ stat_ref d_tree disk_content (lw_host demo_start) (lit "/docs/a") = Ok m)
    (fun e s' => untouched (disk_view false) demo_start s' /\ stat_ref d_tree disk_content (lw_host demo_start) (lit "/docs/a") = Err e).
Proof.
  split; [vm_compute; reflexivity|]. split; [vm_compute; reflexivity|].
  exact (proj1 (local_shows_the_tree (disk_view false) disk_host disk_walk disk_root demo_quota demo_fs demo_disk demo_start [] demo_start (lit "/docs/a")
    demo_made (disk_healthy false) (demo_reached [] ltac:(done) ltac:(done)))).
Defined.

(** ** Files *)

(** C25: What is written through a handle, at its offset or at the end of the file, is read
    back through any handle on the same file, however few bytes the system moves at a
    time and however often it is interrupted; no name and no other file changes.  A
    call that fails has left the file as it was, or with the first part of the bytes
    written. *)
Theorem local_file_reads_back {W D} (x : View W D) host walk root quota v w0 start calls s h g hx gx d offset new :
  local_made x host walk root quota v w0 start -> local_reached x walk v start calls s ->
  l_handles (lw_state s) !! h = Some hx -> hs_writable hx = true ->
  l_handles (lw_state s) !! g = Some gx -> hs_readable gx = true -> hs_key gx = hs_key hx ->
  vw_content x (lw_host s) (hs_key hx) = Some d ->
  let b := local_vfs v walk (vw_patience x) in
  let at_ := if hs_append hx then len d else offset in
  let others w' := vw_tree x w' = vw_tree x (lw_host s) /\ forall k, k <> hs_key hx -> vw_content x w' k = vw_content x (lw_host s) k in
  wp (let! n := v_write_at b h offset new in
      let! r := v_read_at b g at_ (replicate (length new) 0) in sret (n, r)) s
    (fun r s' => r = (len new, (len new, new)) /\ others (lw_host s')
       /\ (new <> [] -> vw_content x (lw_host s') (hs_key hx) = Some (written d at_ new)))
    (fun _ s' => others (lw_host s')
       /\ exists m, (m <= length new)%nat /\ vw_content x (lw_host s') (hs_key hx) = Some (wrote_part d at_ new m)).
Proof.
  intros HM Hr Hh Hw Hg Hread Hkey Hd b at_ others. pose proof (made_laws x HM) as Hl. pose proof (made_quota x HM) as Hq.
  pose proof (reached_good x HM calls s Hr) as Hi.
  assert (forall s', calm (vw_tree x) (vw_content x) (vw_at_dir x) (vw_reg x) (vw_stream x) s s' -> others (lw_host s')
    /\ exists m, (m <= length new)%nat /\ vw_content x (lw_host s') (hs_key hx) = Some (wrote_part d at_ new m)) as Hcalm.
  { intros s' [_ Hs]. split; [split; [apply (hs_tree Hs)|intros k _; apply (hs_content Hs)]|]. exists 0%nat. split; [lia|].
    by rewrite (hs_content Hs), Hd. }
  assert (forall d' s', file_wrote (tree := vw_tree x) (content := vw_content x) (at_dir := vw_at_dir x) (reg := vw_reg x) h d' s s' ->
    others (lw_host s') /\ vw_content x (lw_host s') (hs_key hx) = Some d') as Hwrote.
  { intros d' s' (y & Hy & _ & Hf). rewrite Hh in Hy. injection Hy as <-. split; [split; [apply (hw_tree Hf)|apply (hw_others Hf)]|apply (hw_content Hf)]. }
  subst b. cbn [local_vfs v_write_at v_read_at]. wp_step. unfold u64_arg at 1. destruct (_ && _) eqn:Ho; [|apply wp_fail, Hcalm; reflexivity]. unbool.
  eapply wp_mono; [exact (local_write_at_spec (Hl := Hl) Hq h offset new s Hi ltac:(lia))|..]; cycle 1.
  { intros e s' (_ & _ & [Hc|(y & d0 & m & Hy & Hd0 & Hm & Hf)]); [by apply Hcalm|]. rewrite Hh in Hy. injection Hy as <-.
    rewrite Hd in Hd0. injection Hd0 as <-. destruct (Hwrote _ _ Hf) as [H1 H2]. split; [done|]. by exists m. }
  intros n s1 ([Hi1 _ _] & [Hst _] & -> & y & d0 & Hy & _ & Hd0 & Hf). rewrite Hh in Hy. injection Hy as <-.
  rewrite Hd in Hd0. injection Hd0 as <-. fold at_ in Hf.
  assert (exists d1, others (lw_host s1) /\ vw_content x (lw_host s1) (hs_key hx) = Some d1 /\ (new <> [] -> d1 = written d at_ new)
    /\ exists m, (m <= length new)%nat /\ d1 = wrote_part d at_ new m) as (d1 & Ho1 & Hc1 & Hd1 & m & Hm & Em).
  { case_decide as Hnew.
    - subst s1. exists d. split; [done|]. split; [done|]. split; [by intros []|]. exists 0%nat. split; [lia|done].
    - destruct (Hwrote _ _ Hf) as [H1 H2]. exists (written d at_ new). do 3 (split; [done|]). exists (length new). split; [done|].
      unfold wrote_part. rewrite decide_False, firstn_all; [done|]. by destruct new. }
  assert (forall s2, calm (vw_tree x) (vw_content x) (vw_at_dir x) (vw_reg x) (vw_stream x) s1 s2 -> others (lw_host s2)
    /\ vw_content x (lw_host s2) (hs_key hx) = Some d1) as Hcalm1.
  { intros s2 [_ Hs]. destruct Ho1 as [T O]. split; [split; [by rewrite (hs_tree Hs)|intros k Hk; rewrite (hs_content Hs); auto]|by rewrite (hs_content Hs)]. }
  wp_step. unfold u64_arg. destruct (_ && _) eqn:Ha; [|apply wp_fail; split; [done|]; exists m; by rewrite Hc1, Em]. unbool.
  eapply wp_mono; [exact (local_read_at_spec (Hl := Hl) g at_ (replicate (length new) 0) s1 Hi1 ltac:(lia))|..].
  - intros r s2 ([_ Hc] & y & d2 & Hy & _ & Hd2 & ->). rewrite Hst, Hg in Hy. injection Hy as <-. rewrite Hkey, Hc1 in Hd2. injection Hd2 as <-.
    wp_step. destruct (Hcalm1 _ Hc) as [O2 C2]. split; [|split; [done|intros Hnew; by rewrite C2, (Hd1 Hnew)]].
    assert (read_result d1 at_ (replicate (length new) 0) = (len new, new)) as ->; [|done].
    unfold read_result. rewrite length_replicate. destruct (decide (new = [])) as [->|Hnew]; [done|].
    rewrite (Hd1 Hnew), written_read by lia. by rewrite drop_replicate, Nat.sub_diag, app_nil_r.
  - intros e s2 [_ Hc]. destruct (Hcalm1 _ Hc) as [O2 C2]. split; [done|]. exists m. by rewrite C2, Em.
Qed.

(** The disk with two handles on one file, the second for appending, and calls that
    are interrupted twice. *)
Definition shared_calls : list LocalCall := [LOpen (lit "/docs/a") read_write; LOpen (lit "/docs/a") (with_append write_only)].
Definition shared_state : LocalWorld Disk := local_calls demo_fs disk_walk disk_patience shared_calls demo_start.

Lemma local_file_reads_back_witness :
  let others w' := d_tree w' = d_tree (lw_host shared_state) /\ forall k, k <> (0, 1) -> disk_content w' k = disk_content (lw_host shared_state) k in
  wp (let! n := v_write_at (local_vfs demo_fs disk_walk disk_patience) 2 0 [33; 34; 35; 36; 37] in
      let! r := v_read_at (local_vfs demo_fs disk_walk disk_patience) 1 2 [0; 0; 0; 0; 0] in sret (n, r)) shared_state
    (fun r s' => r = (5, (5, [33; 34; 35; 36; 37])) /\ others (lw_host s')
       /\ ([33; 34; 35; 36; 37] <> [] -> disk_content (lw_host s') (0, 1) = Some (written [104; 105] 2 [33; 34; 35; 36; 37])))
    (fun _ s' => others (lw_host s')
       /\ exists m, (m <= 5)%nat /\ disk_content (lw_host s') (0, 1) = Some (wrote_part [104; 105] 2 [33; 34; 35; 36; 37] m)).
Proof.
  intros others.
  exact (local_file_reads_back (disk_view false) disk_host disk_walk disk_root demo_quota demo_fs demo_disk demo_start shared_calls shared_state 2 1
    (mkHandleState 13 (0, 1) false true true) (mkHandleState 10 (0, 1) true true false) [104; 105] 0 [33; 34; 35; 36; 37]
    demo_made (demo_reached shared_calls ltac:(done) ltac:(by repeat constructor)) ltac:(vm_compute; reflexivity) eq_refl
    ltac:(vm_compute; reflexivity) eq_refl eq_refl ltac:(vm_compute; reflexivity)).
Defined.

(** A rename that succeeds moves the object, with everything below it, to the new name
    and changes no other name, except that a file or an empty directory that had the
    new name is gone; the files keep what they held.  One that fails, for whatever
    reason, has changed nothing. *)
Theorem local_rename_moves {W D} (x : View W D) host walk root quota v w0 start calls s from to :
  local_made x host walk root quota v w0 start -> local_reached x walk v start calls s ->
  wp (v_rename (local_vfs v walk (vw_patience x)) from to) s
    (fun _ s' => renamed_to (vw_tree x) (vw_content x) (vw_at_dir x) (vw_reg x) (vw_stream x) from to s s'
       /\ (shallow (vw_tree x (lw_host s)) -> shallow (vw_tree x (lw_host s'))))
    (fun _ s' => untouched x s s').
Proof.
  intros HM Hr. pose proof (made_laws x HM) as Hl. pose proof (reached_good x HM calls s Hr) as Hi.
  eapply wp_mono; [exact (local_rename_spec (Hl := Hl) (lm_walk _ _ _ _ _ _ _ _ HM) from to s Hi)|..]; [|done].
  intros _ s' ([_ _ Hsh] & _ & Hren). done.
Qed.

Lemma local_rename_moves_witness :
  let s' := (v_rename (local_vfs demo_fs disk_walk disk_patience) (lit "/docs") (lit "/kept") demo_start).2 in
  d_tree (lw_host s') !! [name "kept"; name "a"] = Some (FileAt (0, 1))
  /\ wp (v_rename (local_vfs demo_fs disk_walk disk_patience) (lit "/docs") (lit "/kept")) demo_start
    (fun _ s' => renamed_to d_tree disk_content disk_at_dir disk_reg disk_stream (lit "/docs") (lit "/kept") demo_start s'
       /\ (shallow (d_tree (lw_host demo_start)) -> shallow (d_tree (lw_host s'))))
    (fun _ s' => untouched (disk_view false) demo_start s').
Proof.
  split; [vm_compute; reflexivity|].
  exact (local_rename_moves (disk_view false) disk_host disk_walk disk_root demo_quota demo_fs demo_disk demo_start [] demo_start (lit "/docs") (lit "/kept")
    demo_made (demo_reached [] ltac:(done) ltac:(done))).
Defined.

(** A file that loses its name lives on for those who have it open: after an [unlink]
    that succeeds the name is gone, and only that name, and every handle still reads
    what its file held; closing any handle then takes no file from the others.  A
    failed [unlink] has changed nothing. *)
Theorem local_unlinked_file_lives {W D} (x : View W D) host walk root quota v w0 start calls s path h hx d g offset buf :
  local_made x host walk root quota v w0 start -> local_reached x walk v start calls s ->
  l_handles (lw_state s) !! h = Some hx -> hs_readable hx = true -> vw_content x (lw_host s) (hs_key hx) = Some d ->
  g <> h -> 0 <= offset <= U64_MAX ->
  let b := local_vfs v walk (vw_patience x) in
  let reads s' := wp (v_read_at b h offset buf) s' (fun r _ => r = read_result d offset buf) (fun _ s'' => untouched x s' s'') in
  wp (v_unlink b path) s
    (fun _ s' => removed_entry (vw_tree x) (vw_content x) (vw_reg x) (fun o => exists k, o = FileAt k) path s s'
       /\ reads s'
       /\ wp (v_close b g) s' (fun _ s'' => reads s'') (fun e s'' => e = EBADF /\ s'' = s'))
    (fun _ s' => untouched x s s').
Proof.
  intros HM Hr Hh Hread Hd Hgh Ho b reads. pose proof (made_laws x HM) as Hl. pose proof (made_quota x HM) as Hq.
  pose proof (reached_good x HM calls s Hr) as Hi.
  assert (forall s', local_good x v s' -> l_handles (lw_state s') !! h = Some hx -> vw_content x (lw_host s') (hs_key hx) = Some d -> reads s') as Hreads.
  { intros s' Hi' Hh' Hd'. unfold reads. cbn [b local_vfs v_read_at]. unfold u64_arg. rewrite (proj2 (Z.leb_le _ _)), (proj2 (Z.leb_le _ _)) by lia. cbn [andb].
    eapply wp_mono; [exact (local_read_at_spec (Hl := Hl) h offset buf s' Hi' Ho)|..]; [|done].
    intros r s'' (_ & y & d' & Hy & _ & Hd'' & ->). rewrite Hh' in Hy. injection Hy as <-. rewrite Hd' in Hd''. by injection Hd'' as <-. }
  eapply wp_mono; [exact (local_unlink_spec (Hl := Hl) path s Hi)|..]; [|done].
  intros _ s' ([Hi' _ _] & [Hst _] & Hrem). assert (l_handles (lw_state s') !! h = Some hx) as Hh' by by rewrite Hst.
  assert (vw_content x (lw_host s') (hs_key hx) = Some d) as Hd'.
  { destruct Hrem as (cs & o & [_ Hkept] & _). rewrite Hkept; [done|]. right. exists (hs_file hx). by apply (li_file Hi' h). }
  split; [done|]. split; [by apply Hreads|]. cbn [b local_vfs v_close].
  eapply wp_mono; [exact (local_close_spec (Hl := Hl) g s' Hi')|..].
  - intros _ s'' ([Hi'' _ _] & _ & Eh & _ & _ & Hkept). assert (l_handles (lw_state s'') !! h = Some hx) as Hh'' by by rewrite Eh, lookup_delete_ne.
    apply Hreads; [done|done|]. rewrite Hkept; [done|]. right. exists (hs_file hx). by apply (li_file Hi'' h).
  - intros e s'' (-> & -> & _). done.
Qed.

Lemma local_unlinked_file_lives_witness :
  let b := local_vfs demo_fs disk_walk disk_patience in
  let reads s' := wp (v_read_at b 1 0 [0; 0; 0]) s' (fun r _ => r = read_result [104; 105] 0 [0; 0; 0]) (fun _ s'' => untouched (disk_view false) s' s'') in
  wp (v_unlink b (lit "/docs/a")) shared_state
    (fun _ s' => removed_entry d_tree disk_content disk_reg (fun o => exists k, o = FileAt k) (lit "/docs/a") shared_state s'
       /\ reads s'
       /\ wp (v_close b 2) s' (fun _ s'' => reads s'') (fun e s'' => e = EBADF /\ s'' = s'))
    (fun _ s' => untouched (disk_view false) shared_state s').
Proof.
  intros b reads.
  exact (local_unlinked_file_lives (disk_view false) disk_host disk_walk disk_root demo_quota demo_fs demo_disk demo_start shared_calls shared_state
    (lit "/docs/a") 1 (mkHandleState 10 (0, 1) true true false) [104; 105] 2 0 [0; 0; 0]
    demo_made (demo_reached shared_calls ltac:(done) ltac:(by repeat constructor)) ltac:(vm_compute; reflexivity) eq_refl
    ltac:(vm_compute; reflexivity) ltac:(done) ltac:(done)).
Defined.

(** ** An entry that is not counted *)

(** A disk that refuses to change lengths. *)
Definition stuck_disk : Disk := mkDisk {[ [] := DirAt ]} ∅ {[ 3 := [] ]} ∅ 4 1 0 true.
Definition stuck_start : LocalWorld Disk := mkLocalWorld (mkLocalState ∅ ∅ 1 0 0) stuck_disk.

(** An [open] that creates the file and then fails to cut it leaves the entry behind,
    and does not count it. *)
Example open_leaves_uncounted_entry :
  let r := open demo_fs (lit "/new") (with_truncate (with_create write_only)) stuck_start in
  r.1 = Err ENOSPC /\ l_file_count (lw_state r.2) = 0 /\ is_Some (d_tree (lw_host r.2) !! [name "new"])
  /\ (refresh demo_fs disk_walk r.2).1 = Ok (mkVfsStats 0 1).
Proof. split; [vm_compute; reflexivity|]. split; [vm_compute; reflexivity|]. split; [eexists; vm_compute; reflexivity|vm_compute; reflexivity]. Qed.
